(* ===== verification/_CoqProject ===== *)
-Q . S2P
Prelude.v
GoStrings.v
Decimal.v
Rfc3339.v
HexBytes.v
Ethunit.v
Encodings.v
Json.v
PolicyTypes.v
PolicyBody.v
PolicyBodyFacts.v
PolicyBodyProps.v
Seal.v
Domain.v
PolicyFile.v
Trace.v
Evaluate.v
Counter.v
Reservation.v
Engine.v
PolicyAdmin.v
PolicyAdminFacts.v
EngineFacts.v
Samples.v
EngineProps.v
PolicyAdminProps.v
Calldata.v
Gas.v
Lifecycle.v
LifecycleProps.v
Journal.v
JournalFacts.v
JournalProps.v
Nonce.v
Reconcile.v
Service.v
TxStatus.v
Send.v
TokenSend.v
ServiceSamples.v
DryRun.v
TokenProps.v
ServiceFacts.v
Broadcasts.v
WaitProps.v
SendProps.v
Receive.v
ReceiveProps.v
ReceiveScans.v
ReceiveEnds.v
Qr.v
ReedSolomon.v
QrBlocks.v
QrSymbol.v
QrProps.v
Recognize.v
Sign.v
SignProps.v
Refs.v
Registry.v
RegistryNfts.v
RegistryInv.v
RegistrySpec.v
Secret.v
Ens.v
PolicyService.v
PolicyForce.v
PolicyChanges.v
PolicyForceProps.v
Coerce.v
CoerceProps.v
AbiSig.v
AbiCodec.v
Contracts.v
KeyText.v
Keystore.v
KeyOps.v
KeyRotation.v
KeyInv.v
KeyProps.v
