(* ===== verification/Prelude.v ===== *)
(** * Daxie: a verification library for the guardrail core of the wallet

    Daxie is a command-line Ethereum wallet for machine use, in Go, under [src/].
    A process opens the service ([internal/service]), which holds a keystore
    ([internal/keys]), a sealed spend policy ([internal/policy],
    [internal/policyseal]), a transaction journal ([internal/journal]), the
    registries of names ([internal/registry]) and a client of a node
    ([internal/chain]).  A send goes through all of them: the request is resolved
    to an intent, gas is quoted, the policy reserves the spend, the keystore
    signs, the journal records the signed bytes, and only then the node gets
    them; a restart settles what a crash left in between.  This library models
    that core from the source, and proves what makes each part, and their
    composition, correct.

    ** Conventions

    Fallible Go code returns [res E A] (this file); bounded integers are [Z] with
    their wrap-around written out; strings and byte slices are [string]; a map is
    a [gmap], or a list where the order shows.  An operation over durable state
    is a function into [T S A] ([Trace]): its result together with the states
    after each of its atomic writes, so every crash point of the code is a state
    of the list, and an invariant of the trace holds after a crash.  A write by
    [fsx.WriteAtomic] ([internal/fsx/atomic.go]) that reports an error may have
    left the new content in place (the rename done, the fsync of the directory
    failed): the keystore ([write_file]) and the registry ([save_file]) have both
    kinds of error; in the journal, the reservation log, the nonce cache and
    policy.json a reported error counts as a write not made, and the state with
    the data in place is the crash point after a write that succeeds.  What the outside
    answers (node, clock, entropy, each read and write of a file) is an
    argument or a class, so a theorem holds for every answer.  Third-party code
    is an interface and never a definition: its class states the documented
    behaviour that is relied on, and a toy instance satisfies it, on which the
    witnesses compute.

    ** The files

    Foundations.  This file: results, automation, lists.  [GoStrings]: package
    strings on bytes, with Unicode as [UnicodeTables].  [Decimal], [Rfc3339],
    [HexBytes], [Encodings], [Json]: numerals, timestamps, hexadecimal, lines and
    base64, and encoding/json with its decoding into structs.  [Ethunit]:
    [internal/ethunit].  [Domain]: the errors and exit codes of
    [internal/domain].  [Trace]: operations with crash points, and the invariants
    of their runs.

    Policy.  [PolicyTypes]: the records of [internal/policy/file.go] and
    [check.go].  [PolicyBody], [PolicyBodyFacts], [PolicyBodyProps]: the canonical
    writer and strict decoder of the sealed body.  [Seal]:
    [internal/policyseal], with scrypt, HKDF and Ed25519 as [SealCrypto].
    [PolicyFile]: loading under the pinned anchor.  [Evaluate]: the pure verdict
    ([evaluate.go]).  [Counter], [Reservation], [Engine]: the rolling window, the
    reservation log and the engine over both ([counter.go], [reservation.go],
    [policy.go], [orphan.go]).  [PolicyAdmin], [PolicyAdminFacts],
    [PolicyAdminProps]: the passphrase-gated administration.  [EngineFacts],
    [Lifecycle], [EngineProps], [LifecycleProps]: what verdicts, reservations and
    whole runs guarantee.  [Recognize]: the typed-data shapes.  [PolicyService],
    [PolicyForce], [PolicyChanges], [PolicyForceProps]: the commands of
    [internal/service/policy.go] over the policy file and the anchor file.

    Sending.  [Calldata]: the classifier of [internal/abi/classify.go], the check
    it becomes, and the packer of [internal/erc].  [Gas]: quotes and the fee bump.
    [Journal], [JournalFacts], [JournalProps], [Nonce]: [internal/journal], with
    torn lines and compaction.  [Service]: the stores of one world and the class
    [Environment] of everything outside.  [TxStatus], [Send], [TokenSend],
    [Reconcile]: [txstatus.go], [tx.go], the intents of tokens, NFTs and
    contracts with replacement and abandonment, and the settling at startup.
    [ServiceFacts], [Broadcasts], [WaitProps], [SendProps], [TokenProps],
    [DryRun]: their properties.  [Sign], [SignProps]: messages and typed data.

    Receiving.  [Receive]: [receive.go] and [receive_eth.go]; [ReceiveProps] has
    the program logic of a listen and the soundness of its completion,
    [ReceiveScans] what a scan detects, [ReceiveEnds] that a listen ends.  [Qr],
    [ReedSolomon], [QrBlocks], [QrSymbol], [QrProps]: the terminal QR code of
    [internal/cli/render/qr.go], read back by a reference decoder.

    Names and contracts.  [Refs]: account references.  [Registry],
    [RegistryNfts], [RegistryInv], [RegistrySpec]: [internal/registry].  [Ens]:
    [internal/ens].  [Secret]: the channels of a passphrase.  [Coerce],
    [CoerceProps], [AbiSig], [AbiCodec]: [internal/abi].  [Contracts]:
    [internal/service/contract.go] with the destinations of [txstatus.go].

    Keystore.  [KeyText]: the codec of a wallet plaintext, names, indices, raw
    keys ([codec.go], [meta.go], [derive.go]).  [Keystore]: the files, the
    metadata, the lock, derivation, references.  [KeyOps]: every method on
    wallets, accounts and signing identities.  [KeyRotation]: the change of the
    passphrase, its recovery and [Open], with every crash point.  [KeyInv],
    [KeyProps]: the invariant of the directory and the properties.

    [Samples] and [ServiceSamples] hold the data of the witnesses.

    ** What the theorems show

    - The policy: the daily limit holds at every reservation and along every
      run, however it is cut off; the verdict is the declarative one; terminal
      states of a reservation are final; a policy in force is only replaced by
      its administrator; nothing is administered without the passphrase; the
      sealed bytes mean the policy.
    - Sending: no payload reaches the node without a live reservation and a
      journal record of those bytes; a send ends as the node answered; a nonce
      that is leased is free; a restart resolves every reservation; a dry run
      (the check it builds by itself, its verdict and its error) predicts the
      send; a contract send of a typed operation's call data is judged alike;
      no typed data is signed without a verdict on the chain of the endpoint;
      waiting ends.
    - The journal: an append is atomic at the level of bytes, history is kept.
    - Receiving: a result reports what the node showed, each detection from a
      block, a log or a difference of balances; the questions of a log scan are
      exactly its range, once each and no longer than the chunk; an ETH scan
      refines the balance equation; a listen ends.
    - Codecs: the policy body, calls, signatures of functions, QR symbols and
      wallets are read back as they were written, a call with the name, the type
      and the text of each argument; arguments have the Go types that the packer
      expects; log queries partition their range.
    - Names: a token registry is a finite map under well-formed requests; a
      reverse name is verified
      forward; an alias binds the ABI and the destination.
    - The keystore: in every reachable directory an identity signs for the
      address it shows, an index is not handed out twice, an exported mnemonic
      recovers all accounts; every secret has its file unless a write of
      meta.json reported an error with the new file in place; and a rotation is
      atomic under any number of interrupted recoveries unless the write of its
      marker did.
    The findings of the modelling are in the manifest; some are theorems
    (the stranded wallet of [KeyProps], the span limit of [Contracts]).

    ** Bounds and fuel

    Loops that end by themselves are structural, or have a fuel that is shown to
    be enough: [digits_fuel] (the bit length), [prefix_walk] (the length of the
    code), the JSON parser (the length of the text, [parse_value_fuel]), the
    scanner of a wallet plaintext (the length, [decode_members_fuel]),
    [uitoa_loop] (20 digits, the buffer of the code), [sig_fuel] (two per
    character and two), the chunks of a scan and of a log query ([steady_chunks],
    [log_fuel]), the loops of the QR symbol (its size).  Loops that the outside
    ends take a number of rounds, and the theorems give a bound and the same
    result for every larger number: [WaitProps] for a wait,
    [ReceiveEnds] for a listen.

    ** Not modelled

    - Cryptography and libraries: [SealCrypto], [Keccak], [KeyCrypto],
      [GethCommon], [AbiTypes], [AbiLib], [TypedDataLib], [AddressJSON],
      [UnicodeTables], the unspecified parts of Go ([SortSlice], [MapOrder],
      [RangeOrder], [RangeMap], [Int64Conv]) and the chain ([Environment],
      [Watcher], [Signer], [EnsChain], [ContractChain]) are interfaces.
    - Encodings at rest: the lines of the journal and of the reservation log are
      the interface [LineCodec]; a registry file is a JSON tree; a keystore file
      is the value its text decodes to, or corrupt, without the null pointers of
      a hand-edited meta.json; the nesting limit of encoding/json.
    - Zeroing of secrets, memory locking, the read locks of Windows, the fault
      hooks of the tests.
    - Concurrency inside one process, and of processes beyond interleaved whole
      operations: a critical section under a file lock is one operation.
    - The events of the send pipeline, the rounding of the heartbeat, the order
      of the addresses in a log filter.
    - The composition of [resolveIntent], [resolveSigner] and the listen's
      resolution with the keystore and the registry: the pieces are modelled,
      the intent is an argument.  The service methods on accounts and wallets
      only pass on to the keystore.
    - The command line, the MCP server, layered configuration, the JSON-RPC
      client and the file system helpers: input and output around the core. *)

From Stdlib Require Export ZArith Lia.
From stdpp Require Export base gmap strings list fin_maps sorting.

(** ** Outcomes of fallible Go code

    A Go function returning [(T, error)] is a function into [res E T]. *)

Inductive res (E A : Type) : Type :=
| Ok (a : A)
| Err (e : E).
Arguments Ok {E A} a.
Arguments Err {E A} e.

Declare Scope go_scope.
Delimit Scope go_scope with go.

Definition rbind {E A B : Type} (m : res E A) (f : A → res E B) : res E B :=
  match m with
  | Ok a => f a
  | Err e => Err e
  end.

Notation "'let*' x ':=' c1 'in' c2" := (rbind c1 (fun x => c2))
  (at level 10, x pattern, c1 at level 100, c2 at level 200) : go_scope.

Definition is_ok {E A : Type} (m : res E A) : bool :=
  match m with Ok _ => true | Err _ => false end.

#[export] Instance res_eq_dec {E A : Type} `{EqDecision E, EqDecision A} :
  EqDecision (res E A).
Proof. solve_decision. Defined.

Section ResFacts.
Context {E A B : Type}.

Lemma rbind_ok (m : res E A) (f : A → res E B) b :
  rbind m f = Ok b ↔ ∃ a, m = Ok a ∧ f a = Ok b.
Proof. destruct m; simpl; naive_solver. Qed.

Lemma rbind_err (m : res E A) (f : A → res E B) e :
  rbind m f = Err e ↔ m = Err e ∨ ∃ a, m = Ok a ∧ f a = Err e.
Proof. destruct m; simpl; naive_solver. Qed.
End ResFacts.

(** ** Proof automation shared by the components *)

Create HintDb daxie.

(** Case analysis on the scrutinee of the innermost [if] or [match] of the goal. *)
Ltac case_scrut :=
  match goal with
  | |- context [if ?b then _ else _] =>
      lazymatch b with context [if _ then _ else _] => fail | _ => destruct b eqn:? end
  | |- context [match ?x with _ => _ end] =>
      lazymatch x with context [match _ with _ => _ end] => fail | _ => destruct x eqn:? end
  end.

(** Turn boolean hypotheses into propositions. *)
Ltac bool_prop :=
  repeat match goal with
  | H : _ && _ = true |- _ => apply andb_true_iff in H; destruct H
  | H : _ || _ = false |- _ => apply orb_false_iff in H; destruct H
  | H : negb _ = true |- _ => apply negb_true_iff in H
  | H : negb _ = false |- _ => apply negb_false_iff in H
  | H : (_ <? _)%Z = true |- _ => apply Z.ltb_lt in H
  | H : (_ <? _)%Z = false |- _ => apply Z.ltb_ge in H
  | H : (_ <=? _)%Z = true |- _ => apply Z.leb_le in H
  | H : (_ <=? _)%Z = false |- _ => apply Z.leb_gt in H
  | H : (_ >? _)%Z = true |- _ => rewrite Z.gtb_ltb in H; apply Z.ltb_lt in H
  | H : (_ >? _)%Z = false |- _ => rewrite Z.gtb_ltb in H; apply Z.ltb_ge in H
  | H : (_ =? _)%Z = true |- _ => apply Z.eqb_eq in H
  | H : (_ =? _)%Z = false |- _ => apply Z.eqb_neq in H
  | H : bool_decide _ = true |- _ => apply bool_decide_eq_true in H
  | H : bool_decide _ = false |- _ => apply bool_decide_eq_false in H
  end.

(** Case analysis on the comparisons of the goal. *)
Ltac no_if t := lazymatch t with context [if _ then _ else _] => fail | _ => idtac end.
Ltac zcases :=
  repeat match goal with
  | |- context [(?a <? ?b)%Z] => no_if a; no_if b; destruct (Z.ltb_spec a b)
  | |- context [(?a <=? ?b)%Z] => no_if a; no_if b; destruct (Z.leb_spec a b)
  | |- context [(?a =? ?b)%Z] => no_if a; no_if b; destruct (Z.eqb_spec a b)
  end.

(** Linear arithmetic with division and remainder by constants. *)
Ltac zlia := Z.to_euclidean_division_equations; lia.

(** ** Lists *)

Section ListFacts.
Context {A : Type}.
Implicit Types l : list A.

Lemma existsb_false l (f : A → bool) :
  existsb f l = false ↔ ∀ x, x ∈ l → f x = false.
Proof.
  induction l as [|y l IH]; simpl.
  - split; [intros _ x Hx; by apply elem_of_nil in Hx | done].
  - rewrite orb_false_iff, IH. setoid_rewrite elem_of_cons. naive_solver.
Qed.

Lemma existsb_true l (f : A → bool) :
  existsb f l = true ↔ ∃ x, x ∈ l ∧ f x = true.
Proof.
  rewrite existsb_exists. by setoid_rewrite list_elem_of_In.
Qed.

Lemma find_none_existsb l (f : A → bool) :
  List.find f l = None ↔ existsb f l = false.
Proof.
  induction l as [|y l IH]; simpl; [done|].
  destruct (f y); simpl; [naive_solver | done].
Qed.

Lemma find_some_elem l (f : A → bool) x :
  List.find f l = Some x → x ∈ l ∧ f x = true.
Proof. intros [H1 H2]%find_some. by rewrite list_elem_of_In. Qed.
End ListFacts.

Lemma NoDup_map_filter {A B} (h : A → B) (f : A → bool) (l : list A) :
  NoDup (map h l) → NoDup (map h (List.filter f l)).
Proof.
  induction l as [|x l IH]; simpl; [done|]. intros [Hx Hnd]%NoDup_cons.
  destruct (f x); simpl; [|by apply IH]. constructor; [|by apply IH].
  intros (y & Hy & Hin)%list_elem_of_fmap. apply Hx. rewrite Hy. apply list_elem_of_fmap_2.
  apply list_elem_of_In, filter_In in Hin as [Hin _]. by apply list_elem_of_In.
Qed.

Lemma app_nil_iff {A} (l k : list A) : l ++ k = [] ↔ l = [] ∧ k = [].
Proof. split; [apply app_eq_nil|by intros [-> ->]]. Qed.

(** The elements of an option. *)
Definition option_list {A : Type} (o : option A) : list A :=
  match o with Some x => [x] | None => [] end.

Lemma option_list_nil {A} (o : option A) : option_list o = [] ↔ o = None.
Proof. by destruct o. Qed.

Lemma elem_of_option_list {A} (o : option A) x : x ∈ option_list o ↔ o = Some x.
Proof. destruct o; simpl; set_solver. Qed.

Lemma foldl_ext {A B} (f g : A → B → A) l a :
  (∀ a b, f a b = g a b) → foldl f a l = foldl g a l.
Proof. intros H. revert a. induction l as [|b l IH]; intros a; simpl; [done|]. by rewrite H, IH. Qed.

(** The left-most element of least value, as a loop over the tail finds it. *)
Lemma foldl_argmin {A} (f : A → Z) (v : A) (vs : list A) :
  let w := foldl (λ w v, if (f v <? f w)%Z then v else w) v vs in
  w ∈ v :: vs ∧ ∀ u, u ∈ v :: vs → (f w ≤ f u)%Z.
Proof.
  simpl. revert v. induction vs as [|w vs IH]; intros v; simpl.
  - split; [left|]. intros u Hu. apply list_elem_of_singleton in Hu as ->. lia.
  - destruct (IH (if (f w <? f v)%Z then w else v)) as [Hin Hmin]. clear IH. split.
    + destruct (f w <? f v)%Z; [by right|]. apply elem_of_cons in Hin as [->|Hin]; [left|by do 2 right].
    + pose proof (Hmin _ ltac:(left)) as Hh. intros u Hu.
      apply elem_of_cons in Hu as [->|Hu]; [|apply elem_of_cons in Hu as [->|Hu]; [|by apply Hmin; right]];
        destruct (Z.ltb_spec (f w) (f v)); lia.
Qed.

(** ** Sums and maxima over lists of integers *)

Definition zsum (l : list Z) : Z := foldr Z.add 0%Z l.

Section Sums.
Local Open Scope Z_scope.

Lemma zsum_app l1 l2 : zsum (l1 ++ l2) = zsum l1 + zsum l2.
Proof. induction l1 as [|x l1 IH]; simpl; [done|]. unfold zsum in *. simpl. lia. Qed.

Lemma zsum_nil : zsum [] = 0.
Proof. done. Qed.

Lemma zsum_cons x l : zsum (x :: l) = x + zsum l.
Proof. done. Qed.

#[export] Instance zsum_proper : Proper ((≡ₚ) ==> (=)) zsum.
Proof. induction 1; unfold zsum in *; simpl; lia. Qed.

Lemma zsum_nonneg l : Forall (λ x, 0 ≤ x) l → 0 ≤ zsum l.
Proof. induction 1; unfold zsum in *; simpl; lia. Qed.

Lemma zsum_map_le {A} (f g : A → Z) l :
  (∀ x, x ∈ l → f x ≤ g x) → zsum (map f l) ≤ zsum (map g l).
Proof.
  induction l as [|y l IH]; intros H; unfold zsum in *; simpl; [lia|].
  assert (f y ≤ g y) by (apply H; set_solver).
  assert (foldr Z.add 0 (map f l) ≤ foldr Z.add 0 (map g l))
    by (apply IH; intros; apply H; set_solver).
  lia.
Qed.

Lemma zsum_map_ext {A} (f g : A → Z) l :
  (∀ x, x ∈ l → f x = g x) → zsum (map f l) = zsum (map g l).
Proof.
  induction l as [|y l IH]; intros H; unfold zsum in *; simpl; [done|].
  rewrite (H y) by set_solver. f_equal. apply IH. set_solver.
Qed.

(** changing the summand of one element of a duplicate-free list *)
Lemma zsum_map_change {A} (f g : A → Z) l x :
  NoDup l → x ∈ l → (∀ y, y ∈ l → y ≠ x → g y = f y) →
  zsum (map g l) = zsum (map f l) - f x + g x.
Proof.
  induction 1 as [|y l Hy Hnd IH]; intros Hx Hg; [by apply elem_of_nil in Hx|].
  cbn [map]. rewrite !zsum_cons. apply elem_of_cons in Hx as [->|Hx].
  - rewrite (zsum_map_ext g f l); [lia|]. intros z Hz. apply Hg; [by right|by intros ->].
  - rewrite IH; [|done|intros z Hz; apply Hg; by right].
    rewrite (Hg y) by (left || by intros ->). lia.
Qed.
End Sums.

#[global] Arguments zsum : simpl never.
#[export] Hint Rewrite zsum_app zsum_cons : daxie.

(** ** Stable sorting

    The result of [sort.SliceStable] with a strict weak order is the unique
    stable sorted permutation; this is the insertion sort that computes it. *)

Section StableSort.
Context {A : Type} (before : A → A → bool).

Fixpoint stable_insert (x : A) (l : list A) : list A :=
  match l with
  | [] => [x]
  | y :: l' => if before y x then y :: stable_insert x l' else x :: l
  end.

Definition stable_sort (l : list A) : list A := foldr stable_insert [] l.

Lemma stable_insert_perm x l : stable_insert x l ≡ₚ x :: l.
Proof.
  induction l as [|y l IH]; simpl; [done|]. destruct (before y x); [|done].
  rewrite IH. apply Permutation_swap.
Qed.

Lemma stable_sort_perm l : stable_sort l ≡ₚ l.
Proof. induction l as [|x l IH]; simpl; [done|]. by rewrite stable_insert_perm, IH. Qed.
End StableSort.

(** ** Updating the first element that satisfies a test *)

Section UpdateFirst.
Context {A : Type} (f : A → bool) (g : A → A).

Fixpoint update_first (l : list A) : list A :=
  match l with
  | [] => []
  | x :: l => if f x then g x :: l else x :: update_first l
  end.

Lemma update_first_none l : List.find f l = None → update_first l = l.
Proof. induction l as [|x l IH]; simpl; [done|]. destruct (f x); [done|]. intros H. by rewrite IH. Qed.

Lemma update_first_some l x :
  List.find f l = Some x → ∃ l1 l2, l = l1 ++ x :: l2 ∧ update_first l = l1 ++ g x :: l2 ∧
                                     Forall (λ y, f y = false) l1.
Proof.
  induction l as [|y l IH]; simpl; [done|]. destruct (f y) eqn:E.
  - intros [= ->]. by exists [], l.
  - intros H. destruct (IH H) as (l1 & l2 & -> & -> & Hl). exists (y :: l1), l2.
    split_and!; [done|done|by constructor].
Qed.
End UpdateFirst.

Lemma update_first_forall {A} (f : A → bool) g (P : A → Prop) l :
  Forall P l → (∀ x, P x → P (g x)) → Forall P (update_first f g l).
Proof. intros H Hg. induction H as [|x l Hx Hl IH]; simpl; [constructor|]. destruct (f x); constructor; auto. Qed.

Lemma update_first_map {A B} (f : A → bool) g (h : A → B) l :
  (∀ x, h (g x) = h x) → map h (update_first f g l) = map h l.
Proof. intros Hg. induction l as [|x l IH]; simpl; [done|]. destruct (f x); simpl; congruence. Qed.

(** ** Exchange sort

    The two nested loops [for i; for j > i; if l[j] < l[i] then swap]. *)

Section ExchangeSort.
Context {A : Type} (before : A → A → bool).

(** the inner loop: the element that ends at the front, and the rest *)
Fixpoint exchange_pass (x : A) (l : list A) : A * list A :=
  match l with
  | [] => (x, [])
  | y :: l =>
      if before y x
      then let '(m, r) := exchange_pass y l in (m, x :: r)
      else let '(m, r) := exchange_pass x l in (m, y :: r)
  end.

Fixpoint exchange_sort_fuel (n : nat) (l : list A) : list A :=
  match n, l with
  | S n, x :: l => let '(m, r) := exchange_pass x l in m :: exchange_sort_fuel n r
  | _, _ => l
  end.

Definition exchange_sort (l : list A) : list A := exchange_sort_fuel (length l) l.

Lemma exchange_pass_perm x l : let '(m, r) := exchange_pass x l in m :: r ≡ₚ x :: l.
Proof.
  revert x. induction l as [|y l IH]; intros x; simpl; [done|].
  destruct (before y x).
  - specialize (IH y). destruct (exchange_pass y l) as [m r].
    rewrite (Permutation_swap x m r), IH. done.
  - specialize (IH x). destruct (exchange_pass x l) as [m r].
    rewrite (Permutation_swap y m r), IH. apply Permutation_swap.
Qed.

Lemma exchange_pass_length x l : length (exchange_pass x l).2 = length l.
Proof.
  pose proof (exchange_pass_perm x l) as H. destruct (exchange_pass x l) as [m r].
  apply Permutation_length in H. simpl in *. lia.
Qed.

Lemma exchange_sort_perm l : exchange_sort l ≡ₚ l.
Proof.
  unfold exchange_sort. remember (length l) as n eqn:Hn. revert l Hn.
  induction n as [|n IH]; intros [|x l] Hn; simpl; try done.
  pose proof (exchange_pass_perm x l) as H. pose proof (exchange_pass_length x l) as Hl.
  destruct (exchange_pass x l) as [m r]. simpl in *. rewrite IH by lia. done.
Qed.
End ExchangeSort.

(** Compared by a key, the loops leave the list sorted by the key. *)
Section ExchangeSorted.
Context {A : Type} (key : A → Z).
Let before (a b : A) : bool := (key a <? key b)%Z.

Lemma exchange_pass_min x l y :
  y ∈ x :: l → (key (exchange_pass before x l).1 ≤ key y)%Z.
Proof.
  revert x y. induction l as [|z l IH]; intros x y Hy; simpl.
  - apply list_elem_of_singleton in Hy as ->. done.
  - unfold before at 1. destruct (Z.ltb_spec (key z) (key x)).
    + pose proof (IH z z ltac:(left)). specialize (IH z y).
      destruct (exchange_pass before z l) as [m r]. simpl in *.
      apply elem_of_cons in Hy as [->|Hy]; [lia|by apply IH].
    + pose proof (IH x x ltac:(left)). specialize (IH x y).
      destruct (exchange_pass before x l) as [m r]. simpl in *.
      apply elem_of_cons in Hy as [->|Hy]; [lia|].
      apply elem_of_cons in Hy as [->|Hy]; [lia|]. apply IH. by right.
Qed.

Lemma exchange_sort_sorted l : StronglySorted (λ a b, (key a ≤ key b)%Z) (exchange_sort before l).
Proof.
  unfold exchange_sort. remember (length l) as n eqn:Hn. revert l Hn.
  induction n as [|n IH]; intros [|x l] Hn; simpl; try constructor; try done.
  pose proof (exchange_pass_perm before x l) as Hp. pose proof (exchange_pass_length before x l) as Hl.
  pose proof (exchange_pass_min x l) as Hmin.
  destruct (exchange_pass before x l) as [m r]. simpl in *. constructor; [apply IH; lia|].
  apply Forall_forall. intros y Hy. apply Hmin.
  assert (Hr : length r = n) by lia. rewrite <-Hr in Hy.
  pose proof (exchange_sort_perm before r) as Hs. unfold exchange_sort in Hs.
  rewrite Hs in Hy. rewrite <-Hp. by right.
Qed.
End ExchangeSorted.
