(* ===== verification/GoStrings.v ===== *)
(** * Go strings

    A Go string is a sequence of bytes; here it is a Rocq [string] whose
    [ascii] characters are the bytes.  The functions of package [strings] the
    wallet uses are written the way the Go library writes them: a fast path
    over ASCII bytes, and a slow path over Unicode code points which is taken
    as soon as a byte above 127 is met.  The Unicode tables behind the slow
    path are the fields of [UnicodeTables]; nothing is proved that depends on
    their contents beyond the laws of the class. *)

From S2P Require Import Prelude.

Local Open Scope string_scope.
Local Open Scope Z_scope.

(** ** Bytes *)

Definition byteZ (c : Ascii.ascii) : Z := Z.of_N (Ascii.N_of_ascii c).
Definition Zbyte (z : Z) : Ascii.ascii := Ascii.ascii_of_N (Z.to_N z).

Lemma byteZ_range c : 0 ≤ byteZ c < 256.
Proof. unfold byteZ. pose proof (Ascii.N_ascii_bounded c). lia. Qed.

Lemma Zbyte_byteZ c : Zbyte (byteZ c) = c.
Proof. unfold Zbyte, byteZ. rewrite N2Z.id. apply Ascii.ascii_N_embedding. Qed.

Lemma byteZ_Zbyte z : 0 ≤ z < 256 → byteZ (Zbyte z) = z.
Proof.
  intros Hz. unfold byteZ, Zbyte. rewrite Ascii.N_ascii_embedding by lia. lia.
Qed.

Lemma byteZ_inj c d : byteZ c = byteZ d → c = d.
Proof. intros H. rewrite <-(Zbyte_byteZ c), <-(Zbyte_byteZ d). by rewrite H. Qed.

(** [c < utf8.RuneSelf] *)
Definition is_ascii_byte (c : Ascii.ascii) : bool := byteZ c <? 128.

Definition is_upper (c : Ascii.ascii) : bool := (65 <=? byteZ c) && (byteZ c <=? 90).
(** the [asciiSpace] table of package strings *)
Definition is_space (c : Ascii.ascii) : bool :=
  ((9 <=? byteZ c) && (byteZ c <=? 13)) || (byteZ c =? 32).
Definition is_digit (c : Ascii.ascii) : bool := (48 <=? byteZ c) && (byteZ c <=? 57).

(** [c + ('a' - 'A')] on an upper-case ASCII letter *)
Definition lower_byte (c : Ascii.ascii) : Ascii.ascii :=
  if is_upper c then Zbyte (byteZ c + 32) else c.

Fixpoint string_map (f : Ascii.ascii → Ascii.ascii) (s : string) : string :=
  match s with
  | "" => ""
  | String c s => String (f c) (string_map f s)
  end.

Fixpoint string_forallb (f : Ascii.ascii → bool) (s : string) : bool :=
  match s with
  | "" => true
  | String c s => f c && string_forallb f s
  end.

Definition is_ascii (s : string) : bool := string_forallb is_ascii_byte s.

Fixpoint string_rev_acc (s acc : string) : string :=
  match s with
  | "" => acc
  | String c s => string_rev_acc s (String c acc)
  end.
Definition srev (s : string) : string := string_rev_acc s "".

(** ** The Unicode tables *)

Class UnicodeTables := {
  (** the rune loop at label [hasUnicode] of [strings.EqualFold] *)
  uni_equal_fold : string → string → bool;
  (** [strings.Map(unicode.ToLower, s)] *)
  uni_to_lower : string → string;
  (** [strings.TrimFunc(s, unicode.IsSpace)] *)
  uni_trim_space : string → string;
  (** [strings.TrimRightFunc(s, unicode.IsSpace)] *)
  uni_trim_right_space : string → string;
  uni_equal_fold_refl : ∀ s, uni_equal_fold s s = true;
  uni_equal_fold_sym : ∀ s t, uni_equal_fold s t = uni_equal_fold t s;
  (** trimming on the right stops at a byte that is no space *)
  uni_trim_right_keeps : ∀ c s, is_ascii_byte c = true → is_space c = false →
    uni_trim_right_space (String c s) ≠ "";
  (** [unicode.ToLower] drops no rune *)
  uni_to_lower_keeps : ∀ c s, uni_to_lower (String c s) ≠ "";
}.

(** An instance that knows no letter outside ASCII, used by the witnesses. *)
Definition ascii_tables : UnicodeTables := {|
  uni_equal_fold := λ s t, bool_decide (s = t);
  uni_to_lower := λ s, string_map lower_byte s;
  uni_trim_space := λ s, s;
  uni_trim_right_space := λ s, s;
  uni_equal_fold_refl := λ s, bool_decide_eq_true_2 _ eq_refl;
  uni_equal_fold_sym := λ s t, bool_decide_ext _ _ (conj (@eq_sym _ s t) (@eq_sym _ t s));
  uni_trim_right_keeps := λ c s _ _ H, eq_ind "" (λ x, match x with "" => True | String _ _ => False end) I _ (eq_sym H);
  uni_to_lower_keeps := λ c s H, eq_ind "" (λ x, match x with "" => True | String _ _ => False end) I _ (eq_sym H);
|}.

Section Strings.
Context {UT : UnicodeTables}.

(** strings.EqualFold *)
Fixpoint EqualFold (s t : string) : bool :=
  match s, t with
  | "", "" => true
  | "", _ | _, "" => false
  | String a s', String b t' =>
      if negb (is_ascii_byte a && is_ascii_byte b) then uni_equal_fold s t
      else if bool_decide (lower_byte a = lower_byte b) then EqualFold s' t'
      else false
  end.

(** strings.ToLower *)
Definition ToLower (s : string) : string :=
  if is_ascii s then string_map lower_byte s else uni_to_lower s.

(** the backward loop of strings.TrimSpace, over the reversed string *)
Fixpoint trim_right_rev (r : string) : string :=
  match r with
  | "" => ""
  | String c r' =>
      if negb (is_ascii_byte c) then uni_trim_right_space (srev r)
      else if is_space c then trim_right_rev r'
      else srev r
  end.

(** strings.TrimSpace *)
Fixpoint TrimSpace (s : string) : string :=
  match s with
  | "" => ""
  | String c s' =>
      if negb (is_ascii_byte c) then uni_trim_space s
      else if is_space c then TrimSpace s'
      else trim_right_rev (srev s)
  end.

(** strings.HasPrefix *)
Definition HasPrefix (s p : string) : bool := String.prefix p s.

(** *** Laws *)

Lemma lower_byte_idemp c : lower_byte (lower_byte c) = lower_byte c.
Proof.
  unfold lower_byte at 2 3. destruct (is_upper c) eqn:E; [|unfold lower_byte; by rewrite E].
  unfold is_upper in E. bool_prop. unfold lower_byte, is_upper.
  rewrite byteZ_Zbyte by lia.
  destruct (Z.leb_spec (byteZ c + 32) 90); [lia|]. by rewrite andb_false_r.
Qed.

Lemma lower_byte_ascii c : is_ascii_byte (lower_byte c) = is_ascii_byte c.
Proof.
  unfold lower_byte. destruct (is_upper c) eqn:E; [|done].
  unfold is_upper in E. bool_prop. unfold is_ascii_byte.
  rewrite byteZ_Zbyte by lia. lia.
Qed.

Lemma string_map_lower_idemp s :
  string_map lower_byte (string_map lower_byte s) = string_map lower_byte s.
Proof. induction s as [|c s IH]; simpl; [done|]. by rewrite lower_byte_idemp, IH. Qed.

Lemma is_ascii_map_lower s : is_ascii (string_map lower_byte s) = is_ascii s.
Proof.
  induction s as [|c s IH]; [done|]. unfold is_ascii in *. simpl.
  by rewrite lower_byte_ascii, IH.
Qed.

Lemma ToLower_ascii s : is_ascii s = true → ToLower s = string_map lower_byte s.
Proof. intros H. unfold ToLower. by rewrite H. Qed.

Lemma ToLower_idemp_ascii s : is_ascii s = true → ToLower (ToLower s) = ToLower s.
Proof.
  intros H. rewrite (ToLower_ascii s) by done.
  rewrite ToLower_ascii by by rewrite is_ascii_map_lower.
  apply string_map_lower_idemp.
Qed.

Lemma EqualFold_refl s : EqualFold s s = true.
Proof.
  induction s as [|c s IH]; simpl; [done|].
  destruct (is_ascii_byte c); simpl; [|apply uni_equal_fold_refl].
  by rewrite bool_decide_true.
Qed.

Lemma EqualFold_sym s t : EqualFold s t = EqualFold t s.
Proof.
  revert t. induction s as [|a s IH]; intros [|b t]; simpl; try done.
  rewrite (andb_comm (is_ascii_byte b)).
  destruct (is_ascii_byte a && is_ascii_byte b); simpl; [|apply uni_equal_fold_sym].
  rewrite (bool_decide_ext (lower_byte b = lower_byte a) (lower_byte a = lower_byte b)) by done.
  by rewrite IH.
Qed.

(** On ASCII strings case folding is equality of the lower-case forms. *)
Lemma EqualFold_ascii s t :
  is_ascii s = true → is_ascii t = true →
  EqualFold s t = bool_decide (ToLower s = ToLower t).
Proof.
  intros Hs Ht. rewrite !ToLower_ascii by done.
  revert t Hs Ht. unfold is_ascii.
  induction s as [|a s IH]; intros [|b t] Hs Ht; simpl in *; try done.
  bool_prop. rewrite H, H1. simpl.
  case_bool_decide as Hb.
  - rewrite IH by done. apply bool_decide_ext. split; [congruence|].
    intros Heq. by injection Heq.
  - rewrite bool_decide_false; [done|]. intros Heq. by injection Heq.
Qed.

Lemma EqualFold_ascii_trans s t u :
  is_ascii s = true → is_ascii t = true → is_ascii u = true →
  EqualFold s t = true → EqualFold t u = true → EqualFold s u = true.
Proof.
  intros Hs Ht Hu. rewrite !EqualFold_ascii by done.
  rewrite !bool_decide_eq_true. congruence.
Qed.

Lemma EqualFold_nil_r s : EqualFold s "" = bool_decide (s = "").
Proof. by destruct s. Qed.
End Strings.

#[export] Hint Resolve EqualFold_refl byteZ_range : daxie.

(** ** Basic facts on strings *)

Lemma string_app_cons c s t : String c s +:+ t = String c (s +:+ t).
Proof. done. Qed.

Lemma string_app_nil_l s : "" +:+ s = s.
Proof. done. Qed.

Lemma string_length_app s t : String.length (s +:+ t) = (String.length s + String.length t)%nat.
Proof. induction s as [|c s IH]; [done|]. rewrite string_app_cons. simpl. by rewrite IH. Qed.

Lemma string_app_assoc s t u : (s +:+ t) +:+ u = s +:+ (t +:+ u).
Proof. induction s as [|c s IH]; [done|]. by rewrite !string_app_cons, IH. Qed.

Lemma string_app_nil_r s : s +:+ "" = s.
Proof. induction s as [|c s IH]; [done|]. by rewrite string_app_cons, IH. Qed.

Lemma string_forallb_app f s t :
  string_forallb f (s +:+ t) = string_forallb f s && string_forallb f t.
Proof.
  induction s as [|c s IH]; [done|]. rewrite string_app_cons. simpl.
  by rewrite IH, andb_assoc.
Qed.

Lemma string_map_app f s t : string_map f (s +:+ t) = string_map f s +:+ string_map f t.
Proof. induction s as [|c s IH]; [done|]. rewrite !string_app_cons. simpl. by rewrite IH. Qed.

Lemma string_rev_acc_app s acc : string_rev_acc s acc = srev s +:+ acc.
Proof.
  unfold srev. revert acc. induction s as [|c s IH]; intros acc; [done|]. simpl.
  rewrite IH, (IH (String c "")), string_app_assoc. done.
Qed.

Lemma srev_cons c s : srev (String c s) = srev s +:+ String c "".
Proof. unfold srev at 1. simpl. apply string_rev_acc_app. Qed.

Lemma srev_app s t : srev (s +:+ t) = srev t +:+ srev s.
Proof.
  induction s as [|c s IH].
  - by rewrite string_app_nil_r.
  - by rewrite string_app_cons, !srev_cons, IH, string_app_assoc.
Qed.

Lemma srev_involutive s : srev (srev s) = s.
Proof.
  induction s as [|c s IH]; [done|]. by rewrite srev_cons, srev_app, IH.
Qed.

Lemma string_length_srev s : String.length (srev s) = String.length s.
Proof.
  induction s as [|c s IH]; [done|]. rewrite srev_cons, string_length_app, IH. simpl. lia.
Qed.

Lemma string_forallb_srev f s : string_forallb f (srev s) = string_forallb f s.
Proof.
  induction s as [|c s IH]; [done|].
  rewrite srev_cons, string_forallb_app, IH. simpl. rewrite andb_true_r. apply andb_comm.
Qed.

(** A string that starts with a visible ASCII byte is not all space. *)
Lemma trim_right_rev_snoc `{UnicodeTables} r c :
  is_ascii_byte c = true → is_space c = false → trim_right_rev (r +:+ String c "") ≠ "".
Proof.
  intros Ha Hs. induction r as [|b r IH].
  - rewrite string_app_nil_l. simpl. rewrite Ha, Hs. simpl. done.
  - rewrite string_app_cons. simpl. destruct (negb (is_ascii_byte b)).
    + rewrite srev_cons, srev_app. by apply uni_trim_right_keeps.
    + destruct (is_space b); [done|]. rewrite srev_cons, srev_app. done.
Qed.

Lemma TrimSpace_visible `{UnicodeTables} c s :
  is_ascii_byte c = true → is_space c = false → TrimSpace (String c s) ≠ "".
Proof. intros Ha Hs. simpl. rewrite Ha, Hs, srev_cons. simpl. by apply trim_right_rev_snoc. Qed.

(** ** Slicing *)

(** the index of the first [c], as the parts before and after it *)
Fixpoint split_byte (c : Z) (s : string) : option (string * string) :=
  match s with
  | "" => None
  | String b s' =>
      if byteZ b =? c then Some ("", s')
      else match split_byte c s' with
           | Some (l, r) => Some (String b l, r)
           | None => None
           end
  end.

Fixpoint stake (n : nat) (s : string) : string :=
  match n, s with
  | S n, String c s => String c (stake n s)
  | _, _ => ""
  end.
Fixpoint sdrop (n : nat) (s : string) : string :=
  match n, s with
  | S n, String _ s => sdrop n s
  | _, _ => s
  end.

Lemma stake_sdrop n s : stake n s +:+ sdrop n s = s.
Proof.
  revert s. induction n as [|n IH]; intros [|c s]; try done. simpl.
  by rewrite string_app_cons, IH.
Qed.

Lemma string_length_stake n s : (n ≤ String.length s)%nat → String.length (stake n s) = n.
Proof. revert s. induction n as [|n IH]; intros [|c s] H; simpl in *; try (done || lia). by rewrite IH by lia. Qed.

Lemma stake_app s t : stake (String.length s) (s +:+ t) = s.
Proof. induction s as [|c s IH]; [by destruct t|]. rewrite string_app_cons. simpl. by rewrite IH. Qed.
Lemma sdrop_length n s : String.length (sdrop n s) = (String.length s - n)%nat.
Proof. revert s. induction n as [|n IH]; intros [|c s]; cbn [sdrop String.length]; [done..|]. rewrite IH. lia. Qed.

Lemma sdrop_app s t : sdrop (String.length s) (s +:+ t) = t.
Proof. induction s as [|c s IH]; [done|]. rewrite string_app_cons. done. Qed.

(** ** [%q]

    [strconv.Quote] on the bytes of a string.  A non-ASCII byte is kept: that is
    what Quote does with the bytes of a printable rune. *)

Definition dquote : string := String (Zbyte 34) "".

Definition hex_nibble (n : Z) : Ascii.ascii := Zbyte (if n <? 10 then n + 48 else n + 87).

Definition quote_byte (c : Ascii.ascii) : string :=
  let b := byteZ c in
  let esc (k : Z) := String (Zbyte 92) (String (Zbyte k) "") in
  if b =? 34 then esc 34
  else if b =? 92 then esc 92
  else if b =? 7 then esc 97
  else if b =? 8 then esc 98
  else if b =? 12 then esc 102
  else if b =? 10 then esc 110
  else if b =? 13 then esc 114
  else if b =? 9 then esc 116
  else if b =? 11 then esc 118
  else if (b <? 32) || (b =? 127)
  then esc 120 +:+ String (hex_nibble (b / 16)) (String (hex_nibble (b mod 16)) "")
  else String c "".

Fixpoint quote_bytes (s : string) : string :=
  match s with
  | "" => ""
  | String c s => quote_byte c +:+ quote_bytes s
  end.

Definition go_quote (s : string) : string := dquote +:+ quote_bytes s +:+ dquote.

#[export] Hint Rewrite string_length_app string_length_srev : daxie.
