(* ===== verification/Decimal.v ===== *)
(** * Numerals

    The textual integers the wallet stores and reads: [big.Int.String] and
    [big.Int.SetString(s, base)] for base 10 and 16, fixed-width decimal
    fields (timestamps) and fixed-width hexadecimal (addresses, hashes).  All
    amounts cross the JSON files as decimal strings, so every accounting
    theorem goes through the round trip proved here. *)

From S2P Require Import Prelude GoStrings.

Local Open Scope string_scope.
Local Open Scope Z_scope.

(** ** Digits *)

(** The value of a digit character in [math/big]'s scanner (bases up to 36). *)
Definition digit_val (base : Z) (c : Ascii.ascii) : option Z :=
  let n := byteZ c in
  let d := if (48 <=? n) && (n <=? 57) then n - 48
           else if (97 <=? n) && (n <=? 122) then n - 97 + 10
           else if (65 <=? n) && (n <=? 90) then n - 65 + 10
           else base in
  if d <? base then Some d else None.

(** The character of a digit, lower case, as [String]/[Text] print it. *)
Definition digit_char (d : Z) : Ascii.ascii :=
  if d <? 10 then Zbyte (48 + d) else Zbyte (87 + d).

Fixpoint scan_digits (base : Z) (s : string) (acc : Z) : option Z :=
  match s with
  | "" => Some acc
  | String c s =>
      match digit_val base c with
      | Some d => scan_digits base s (acc * base + d)
      | None => None
      end
  end.

(** [big.Int.SetString(s, base)] for base 10 or 16: an optional sign, then at
    least one digit, and nothing after the digits. *)
Definition SetString (s : string) (base : Z) : option Z :=
  let unsigned (t : string) :=
    match t with "" => None | _ => scan_digits base t 0 end in
  match s with
  | String c t =>
      if byteZ c =? 45 then Z.opp <$> unsigned t
      else if byteZ c =? 43 then unsigned t
      else unsigned s
  | "" => None
  end.

(** Digits of [n] most significant first, on top of [acc]. *)
Fixpoint digits_fuel (fuel : nat) (base n : Z) (acc : string) : string :=
  match fuel with
  | O => acc
  | S f =>
      let acc := String (digit_char (n mod base)) acc in
      if n <? base then acc else digits_fuel f base (n / base) acc
  end.

(** A natural number in the given base; the fuel is its bit length. *)
Definition nat_string (base n : Z) : string :=
  digits_fuel (S (Z.to_nat (Z.log2 n))) base n "".

(** [big.Int.String] *)
Definition z_string (n : Z) : string :=
  if n <? 0 then String (Zbyte 45) (nat_string 10 (- n)) else nat_string 10 n.

(** [w] digits of [n], zero padded ([%0wd], and fixed-width hex with base 16). *)
Fixpoint fixed_digits (base : Z) (w : nat) (n : Z) : string :=
  match w with
  | O => ""
  | S w' => fixed_digits base w' (n / base) +:+ String (digit_char (n mod base)) ""
  end.

(** ** Facts *)

Definition good_base (base : Z) : Prop := base = 10 ∨ base = 16.

Lemma digit_val_char base d :
  good_base base → 0 ≤ d < base → digit_val base (digit_char d) = Some d.
Proof.
  intros Hb Hd.
  assert (∀ k : nat, (Z.of_nat k < base) → digit_val base (digit_char (Z.of_nat k)) = Some (Z.of_nat k)) as H.
  { destruct Hb as [-> | ->]; intros k Hk;
      do 16 (destruct k as [|k]; [first [reflexivity | lia]|]); lia. }
  specialize (H (Z.to_nat d)). rewrite Z2Nat.id in H by lia. apply H. lia.
Qed.

Lemma digit_char_digit d : 0 ≤ d < 10 → is_digit (digit_char d) = true.
Proof.
  intros Hd. unfold digit_char. destruct (Z.ltb_spec d 10); [|lia].
  unfold is_digit. rewrite byteZ_Zbyte by lia. lia.
Qed.

Lemma digit_char_inj d e : 0 ≤ d < 16 → 0 ≤ e < 16 → digit_char d = digit_char e → d = e.
Proof.
  intros Hd He H. apply (f_equal (digit_val 16)) in H.
  rewrite !digit_val_char in H by (try (right; done); lia). by injection H.
Qed.

Lemma digit_val_digit c : is_digit c = true → digit_val 10 c = Some (byteZ c - 48).
Proof.
  unfold is_digit, digit_val. intros H. rewrite H. bool_prop.
  destruct (Z.ltb_spec (byteZ c - 48) 10); [done|lia].
Qed.

Lemma scan_digits_app base s t acc :
  scan_digits base (s +:+ t) acc = scan_digits base s acc ≫= scan_digits base t.
Proof.
  revert acc. induction s as [|c s IH]; intros acc; [done|].
  rewrite string_app_cons. simpl. destruct (digit_val base c); [apply IH|done].
Qed.

(** The value of a digit string as a plain number. *)
Definition digits_value (base : Z) (s : string) : Z :=
  match scan_digits base s 0 with Some n => n | None => 0 end.

Lemma scan_digits_shift base s acc :
  scan_digits base s acc =
  (λ n, acc * base ^ Z.of_nat (String.length s) + n) <$> scan_digits base s 0.
Proof.
  revert acc. induction s as [|c s IH]; intros acc; simpl.
  - rewrite Z.pow_0_r. f_equal. lia.
  - destruct (digit_val base c) as [d|]; [|done].
    rewrite (IH (acc * base + d)), (IH (0 * base + d)).
    destruct (scan_digits base s 0) as [n|]; simpl; [|done]. f_equal.
    rewrite Nat2Z.inj_succ, Z.pow_succ_r by lia. ring.
Qed.

Lemma scan_digits_all_digits s acc :
  string_forallb is_digit s = true → is_Some (scan_digits 10 s acc).
Proof.
  revert acc. induction s as [|c s IH]; intros acc H; simpl in *; [eauto|].
  bool_prop. rewrite digit_val_digit by done. by apply IH.
Qed.

Lemma digits_fuel_spec base fuel n acc :
  good_base base → 0 ≤ n → (Z.to_nat (Z.log2 n) < fuel)%nat →
  ∃ s, digits_fuel fuel base n acc = s +:+ acc ∧ scan_digits base s 0 = Some n ∧ s ≠ "" ∧
       (n ≠ 0 → ∀ t, s ≠ String (digit_char 0) t).
Proof.
  intros Hb. revert n acc. induction fuel as [|fuel IH]; intros n acc Hn Hf; [lia|]. simpl.
  assert (1 < base) by (destruct Hb; lia). assert (base ≤ 16) by (destruct Hb; lia).
  destruct (Z.ltb_spec n base) as [Hlt|Hge].
  - exists (String (digit_char n) ""). rewrite (Z.mod_small n base) by lia.
    split; [done|]. simpl. rewrite digit_val_char by (done || lia).
    split; [f_equal; lia|]. split; [done|].
    intros Hne t Ht. injection Ht as Ht _. apply digit_char_inj in Ht; lia.
  - assert (Hdiv : n / base < n) by (apply Z.div_lt; lia).
    assert (Hlog : (Z.to_nat (Z.log2 (n / base)) < fuel)%nat).
    { assert (Z.log2 (n / base) < Z.log2 n); [|pose proof (Z.log2_nonneg (n / base)); lia].
      apply Z.log2_lt_pow2; [apply Z.div_str_pos; lia|].
      apply Z.le_lt_trans with (n / 2); [apply Z.div_le_compat_l; lia|].
      apply Z.div_lt_upper_bound; [lia|].
      rewrite <-Z.pow_succ_r by (apply Z.log2_nonneg). apply Z.log2_spec. lia. }
    destruct (IH (n / base) (String (digit_char (n mod base)) acc)) as (s & Hs & Hscan & Hne & Hlead);
      [apply Z.div_pos; lia|done|].
    exists (s +:+ String (digit_char (n mod base)) ""). rewrite Hs.
    split; [by rewrite string_app_assoc|]. split; [|split].
    + rewrite scan_digits_app, Hscan. simpl.
      rewrite digit_val_char; [|done|apply Z.mod_pos_bound; lia].
      f_equal. pose proof (Z.div_mod n base). lia.
    + by destruct s.
    + intros _ t Ht. destruct s as [|c s]; [done|].
      rewrite string_app_cons in Ht. injection Ht as -> _.
      assert (n / base ≠ 0) by (assert (0 < n / base); [apply Z.div_str_pos; lia|lia]).
      by eapply Hlead.
Qed.

Lemma nat_string_spec base n :
  good_base base → 0 ≤ n →
  scan_digits base (nat_string base n) 0 = Some n ∧ nat_string base n ≠ "" ∧
  (n ≠ 0 → ∀ t, nat_string base n ≠ String (digit_char 0) t).
Proof.
  intros Hb Hn.
  destruct (digits_fuel_spec base (S (Z.to_nat (Z.log2 n))) n "") as (s & Hs & H); [done|done|lia|].
  unfold nat_string. rewrite Hs, string_app_nil_r. done.
Qed.

Lemma scan_digits_is_digits s acc n :
  scan_digits 10 s acc = Some n → string_forallb is_digit s = true.
Proof.
  revert acc. induction s as [|c s IH]; intros acc H; simpl in *; [done|].
  destruct (digit_val 10 c) eqn:E; [|done]. rewrite (IH _ H), andb_true_r.
  unfold digit_val in E. unfold is_digit.
  destruct ((48 <=? byteZ c) && (byteZ c <=? 57)) eqn:E1; [done|].
  destruct ((97 <=? byteZ c) && (byteZ c <=? 122)) eqn:E2.
  { bool_prop. destruct (Z.ltb_spec (byteZ c - 97 + 10) 10); [lia|done]. }
  destruct ((65 <=? byteZ c) && (byteZ c <=? 90)) eqn:E3.
  { bool_prop. destruct (Z.ltb_spec (byteZ c - 65 + 10) 10); [lia|done]. }
  done.
Qed.

Lemma nat_string_digits n : 0 ≤ n → string_forallb is_digit (nat_string 10 n) = true.
Proof.
  intros Hn. destruct (nat_string_spec 10 n) as [H _]; [by left|done|].
  by eapply scan_digits_is_digits.
Qed.

Lemma SetString_digits s :
  s ≠ "" → string_forallb is_digit s = true → SetString s 10 = scan_digits 10 s 0.
Proof.
  destruct s as [|c s]; [done|]. intros _ H. simpl in H. bool_prop.
  unfold is_digit in H. bool_prop. unfold SetString.
  destruct (Z.eqb_spec (byteZ c) 45); [lia|]. destruct (Z.eqb_spec (byteZ c) 43); [lia|]. done.
Qed.

(** Printing then scanning a [big.Int] is the identity. *)
Lemma SetString_z_string n : SetString (z_string n) 10 = Some n.
Proof.
  unfold z_string. destruct (Z.ltb_spec n 0) as [Hn|Hn].
  - destruct (nat_string_spec 10 (- n)) as (H & Hne & _); [by left|lia|].
    unfold SetString. rewrite byteZ_Zbyte by lia. simpl.
    destruct (nat_string 10 (- n)); [done|]. rewrite H. simpl. f_equal. lia.
  - destruct (nat_string_spec 10 n) as (H & Hne & _); [by left|lia|].
    rewrite SetString_digits; [done|done|]. by apply nat_string_digits.
Qed.

Lemma z_string_inj m n : z_string m = z_string n → m = n.
Proof.
  intros H. apply (f_equal (λ s, SetString s 10)) in H.
  rewrite !SetString_z_string in H. by injection H.
Qed.

#[export] Hint Rewrite SetString_z_string : daxie.
#[export] Hint Resolve SetString_z_string nat_string_digits : daxie.

(** *** Fixed-width numerals *)

Lemma string_length_fixed_digits base w n : String.length (fixed_digits base w n) = w.
Proof.
  revert n. induction w as [|w IH]; intros n; simpl; [done|].
  rewrite string_length_app, IH. simpl. lia.
Qed.

Lemma scan_fixed_digits base w n acc :
  good_base base → 0 ≤ n →
  scan_digits base (fixed_digits base w n) acc =
  Some (acc * base ^ Z.of_nat w + n mod base ^ Z.of_nat w).
Proof.
  intros Hb. assert (1 < base) by (destruct Hb; lia).
  revert n. induction w as [|w IH]; intros n Hn; simpl.
  { rewrite Z.pow_0_r, Z.mod_1_r. f_equal. lia. }
  rewrite scan_digits_app, IH by (apply Z.div_pos; lia). simpl.
  rewrite digit_val_char by (done || (apply Z.mod_pos_bound; lia)). f_equal.
  rewrite Nat2Z.inj_succ, Z.pow_succ_r by lia.
  rewrite Z.rem_mul_r by (try apply Z.pow_nonzero; lia). ring.
Qed.

Lemma fixed_digits_inj base w m n :
  good_base base → 0 ≤ m < base ^ Z.of_nat w → 0 ≤ n < base ^ Z.of_nat w →
  fixed_digits base w m = fixed_digits base w n → m = n.
Proof.
  intros Hb Hm Hn H. apply (f_equal (λ s, scan_digits base s 0)) in H.
  rewrite !scan_fixed_digits, !Z.mod_small in H by (done || lia).
  injection H as H. lia.
Qed.

Lemma fixed_digits_digits w n : 0 ≤ n → string_forallb is_digit (fixed_digits 10 w n) = true.
Proof.
  intros Hn. eapply (scan_digits_is_digits _ 0). apply scan_fixed_digits; [by left|done].
Qed.

(** *** Runs of zeros *)

(** [strings.TrimLeft(s, 0)] *)
Fixpoint ltrim0 (s : string) : string :=
  match s with
  | "" => ""
  | String c s' => if byteZ c =? 48 then ltrim0 s' else s
  end.

(** [strings.TrimRight(s, 0)] *)
Definition rtrim0 (s : string) : string := srev (ltrim0 (srev s)).

Fixpoint zeros (k : nat) : string :=
  match k with O => "" | S k => String (Zbyte 48) (zeros k) end.

Lemma zeros_snoc k : zeros k +:+ String (Zbyte 48) "" = String (Zbyte 48) (zeros k).
Proof. induction k as [|k IH]; [done|]. simpl zeros. by rewrite string_app_cons, IH. Qed.

Lemma srev_zeros k : srev (zeros k) = zeros k.
Proof.
  induction k as [|k IH]; [done|]. simpl zeros at 1.
  by rewrite srev_cons, IH, zeros_snoc.
Qed.

Lemma string_length_zeros k : String.length (zeros k) = k.
Proof. induction k as [|k IH]; simpl; [done|]. by rewrite IH. Qed.

Lemma zeros_digits k : string_forallb is_digit (zeros k) = true.
Proof. by induction k. Qed.

Lemma scan_zeros k acc : scan_digits 10 (zeros k) acc = Some (acc * 10 ^ Z.of_nat k).
Proof.
  revert acc. induction k as [|k IH]; intros acc; cbn [zeros scan_digits].
  - f_equal. rewrite Z.pow_0_r. lia.
  - change (digit_val 10 (Zbyte 48)) with (Some 0). cbv beta iota.
    rewrite IH. f_equal. rewrite Nat2Z.inj_succ, Z.pow_succ_r by lia. ring.
Qed.

Lemma ltrim0_spec s : ∃ k, s = zeros k +:+ ltrim0 s.
Proof.
  induction s as [|c s [k IH]]; [by exists O|]. simpl.
  destruct (Z.eqb_spec (byteZ c) 48) as [Hc|Hc]; [|by exists O].
  exists (S k). simpl zeros. rewrite string_app_cons, <-IH. f_equal.
  rewrite <-Hc. by rewrite Zbyte_byteZ.
Qed.

Lemma rtrim0_spec s : ∃ k, s = rtrim0 s +:+ zeros k.
Proof.
  destruct (ltrim0_spec (srev s)) as [k Hk]. exists k. unfold rtrim0.
  apply (f_equal srev) in Hk. by rewrite srev_involutive, srev_app, srev_zeros in Hk.
Qed.

Lemma scan_ltrim0 s : scan_digits 10 (ltrim0 s) 0 = scan_digits 10 s 0.
Proof.
  destruct (ltrim0_spec s) as [k Hk]. rewrite Hk at 2.
  by rewrite scan_digits_app, scan_zeros.
Qed.

Lemma ltrim0_app_zeros k s : ltrim0 (zeros k +:+ s) = ltrim0 s.
Proof. induction k as [|k IH]; [done|]. simpl zeros. rewrite string_app_cons. done. Qed.

(** A string that does not end in a zero is its own trimming. *)
Lemma ltrim0_head c s : byteZ c ≠ 48 → ltrim0 (String c s) = String c s.
Proof. intros H. simpl. destruct (Z.eqb_spec (byteZ c) 48); [done|]. done. Qed.
