(* ===== verification/Rfc3339.v ===== *)
(** * RFC 3339 timestamps

    [time.Time] is an instant in nanoseconds since the Unix epoch; the zero
    [Time] is the first instant of year 1.  The wallet writes instants with
    [t.UTC().Format(time.RFC3339Nano)] and [time.RFC3339], and reads them back
    with [parseTS] of [internal/policy/counter.go].  The calendar is proleptic
    Gregorian, as in package [time]. *)

From S2P Require Import Prelude GoStrings Decimal.

Local Open Scope string_scope.
Local Open Scope Z_scope.

Definition second : Z := 1000000000.
Definition day_secs : Z := 86400.
(** [24 * time.Hour] *)
Definition day_ns : Z := day_secs * second.

(** [time.Time{}] and [IsZero] *)
Definition zero_time : Z := -62135596800 * second.
Definition IsZero (t : Z) : bool := t =? zero_time.

(** ** The calendar *)

Definition days_from_civil (y m d : Z) : Z :=
  let y := if m <=? 2 then y - 1 else y in
  let era := y / 400 in
  let yoe := y - era * 400 in
  let mp := if m <=? 2 then m + 9 else m - 3 in
  let doy := (153 * mp + 2) / 5 + d - 1 in
  let doe := yoe * 365 + yoe / 4 - yoe / 100 + doy in
  era * 146097 + doe - 719468.

(** Month and day of a day counted from the first of March. *)
Definition month_day (doy : Z) : Z * Z :=
  let mp := (5 * doy + 2) / 153 in
  (if mp <? 10 then mp + 3 else mp - 9, doy - (153 * mp + 2) / 5 + 1).

(** Day zero is 1970-01-01.  The era has 400 years from a first of March; a
    century has 36524 days and a 4-year block 1461, the last of each group
    being one day longer or shorter. *)
Definition civil_from_days (z : Z) : Z * Z * Z :=
  let z := z + 719468 in
  let era := z / 146097 in
  let doe := z - era * 146097 in
  let n100 := Z.min 3 (doe / 36524) in
  let r := doe - n100 * 36524 in
  let n4 := r / 1461 in
  let r := r - n4 * 1461 in
  let n1 := Z.min 3 (r / 365) in
  let doy := r - n1 * 365 in
  let yoe := n100 * 100 + n4 * 4 + n1 in
  let '(m, d) := month_day doy in
  ((if m <=? 2 then yoe + 1 else yoe) + era * 400, m, d).

Definition is_leap (y : Z) : bool :=
  (y mod 4 =? 0) && (negb (y mod 100 =? 0) || (y mod 400 =? 0)).

(** time.daysIn *)
Definition daysIn (m y : Z) : Z :=
  if m =? 2 then (if is_leap y then 29 else 28)
  else if (m =? 4) || (m =? 6) || (m =? 9) || (m =? 11) then 30 else 31.

(** ** Formatting *)

Definition pad_int (w : nat) (n : Z) : string :=
  if n <? 0 then String (Zbyte 45) (if - n <? 10 ^ Z.of_nat w then fixed_digits 10 w (- n) else nat_string 10 (- n))
  else if n <? 10 ^ Z.of_nat w then fixed_digits 10 w n else nat_string 10 n.

(** the part of the layout up to the seconds: 2006-01-02T15:04:05 *)
Definition format_secs (secs : Z) : string :=
  let '(y, m, d) := civil_from_days (secs / day_secs) in
  let sod := secs mod day_secs in
  pad_int 4 y +:+ "-" +:+ fixed_digits 10 2 m +:+ "-" +:+ fixed_digits 10 2 d +:+ "T" +:+
  fixed_digits 10 2 (sod / 3600) +:+ ":" +:+ fixed_digits 10 2 (sod / 60 mod 60) +:+ ":" +:+
  fixed_digits 10 2 (sod mod 60).

(** the .999999999 verb: trailing zeros dropped, nothing at all for a whole second *)
Definition format_frac (ns : Z) : string :=
  match rtrim0 (fixed_digits 10 9 ns) with
  | "" => ""
  | s => "." +:+ s
  end.

(** [t.UTC().Format(time.RFC3339Nano)] *)
Definition FormatNano (t : Z) : string :=
  format_secs (t / second) +:+ format_frac (t mod second) +:+ "Z".

(** [t.UTC().Format(time.RFC3339)] *)
Definition Format (t : Z) : string := format_secs (t / second) +:+ "Z".

(** ** Parsing *)

(** exactly [w] decimal digits *)
Fixpoint take_num (w : nat) (s : string) (acc : Z) : option (Z * string) :=
  match w with
  | O => Some (acc, s)
  | S w =>
      match s with
      | "" => None
      | String c s => if is_digit c then take_num w s (acc * 10 + (byteZ c - 48)) else None
      end
  end.

(** the hour field: two digits, or one digit followed by something else *)
Definition take_hour (s : string) : option (Z * string) :=
  match take_num 2 s 0 with
  | Some r => Some r
  | None => take_num 1 s 0
  end.

Definition expect (c : Z) (s : string) : option string :=
  match s with
  | String b s => if byteZ b =? c then Some s else None
  | "" => None
  end.

(** the longest prefix of digits *)
Fixpoint span_digits (s : string) : string * string :=
  match s with
  | String c s' =>
      if is_digit c then let '(ds, r) := span_digits s' in (String c ds, r) else ("", s)
  | "" => ("", "")
  end.

(** parseNanoseconds over the digits after the point: nine digits count *)
Definition parse_nanos (ds : string) : option Z :=
  let ds := String.substring 0 9 ds in
  (λ n, n * 10 ^ (9 - Z.of_nat (String.length ds))) <$> scan_digits 10 ds 0.

(** an optional fraction: a point or a comma followed by at least one digit *)
Definition parse_frac (s : string) : option (Z * string) :=
  match s with
  | String p (String c _ as s') =>
      if ((byteZ p =? 46) || (byteZ p =? 44)) && is_digit c
      then let '(ds, r) := span_digits s' in (λ n, (n, r)) <$> parse_nanos ds
      else Some (0, s)
  | _ => Some (0, s)
  end.

(** the zone: Z, or an hh:mm offset with hours up to 24 and minutes up to 60 *)
Definition parse_zone (s : string) : option (Z * string) :=
  match s with
  | "" => None
  | String c s' =>
      if byteZ c =? 90 then Some (0, s')
      else
        h ← take_num 2 s' 0;
        r ← expect 58 h.2;
        m ← take_num 2 r 0;
        if (24 <? h.1) || (60 <? m.1) then None
        else
          let off := (h.1 * 60 + m.1) * 60 in
          if byteZ c =? 43 then Some (off, m.2)
          else if byteZ c =? 45 then Some (- off, m.2) else None
  end.

(** [time.Parse(time.RFC3339Nano, s)] *)
Definition Parse (s : string) : option Z :=
  y ← take_num 4 s 0;       s ← expect 45 y.2;
  m ← take_num 2 s 0;
  if (m.1 <=? 0) || (12 <? m.1) then None else
  s ← expect 45 m.2;
  d ← take_num 2 s 0;       s ← expect 84 d.2;
  hh ← take_hour s;
  if 24 <=? hh.1 then None else
  s ← expect 58 hh.2;
  mi ← take_num 2 s 0;
  if 60 <=? mi.1 then None else
  s ← expect 58 mi.2;
  ss ← take_num 2 s 0;
  if 60 <=? ss.1 then None else
  f ← parse_frac ss.2;
  z ← parse_zone f.2;
  match z.2 with
  | "" =>
      if (d.1 <? 1) || (daysIn m.1 y.1 <? d.1) then None
      else Some (((days_from_civil y.1 m.1 d.1 * day_secs + hh.1 * 3600 + mi.1 * 60 + ss.1) - z.1)
                 * second + f.1)
  | _ => None
  end.

(** parseTS: the zero time on failure.  The second attempt with [time.RFC3339]
    accepts nothing the first one does not. *)
Definition parseTS (s : string) : Z :=
  match Parse s with Some t => t | None => zero_time end.

(** ** The calendar round trip *)

(** A month and a day are right for each of the 366 days of the March year. *)
Definition doy_ok (doy : Z) : bool :=
  let '(m, d) := month_day doy in
  let mp := if m <=? 2 then m + 9 else m - 3 in
  (1 <=? m) && (m <=? 12) && (1 <=? d) && (d <=? 31) &&
  ((153 * mp + 2) / 5 + d - 1 =? doy) &&
  (d <=? daysIn m 4) && ((doy =? 365) || (d <=? daysIn m 1)) && (negb (doy =? 365) || (m =? 2)).

Fixpoint all_below (f : Z → bool) (n : nat) (from : Z) : bool :=
  match n with
  | O => true
  | S n => f from && all_below f n (from + 1)
  end.

Lemma all_below_spec f n from k :
  all_below f n from = true → from ≤ k < from + Z.of_nat n → f k = true.
Proof.
  revert from. induction n as [|n IH]; intros from H Hk; simpl in *; [lia|].
  apply andb_true_iff in H as [H1 H2].
  destruct (decide (k = from)) as [->|]; [done|]. apply (IH (from + 1)); [done|lia].
Qed.

Lemma doy_all_ok doy : 0 ≤ doy ≤ 365 → doy_ok doy = true.
Proof. intros H. apply (all_below_spec doy_ok 366 0); [vm_compute; reflexivity|lia]. Qed.

Lemma daysIn_leap m y : daysIn m y = if is_leap y then daysIn m 4 else daysIn m 1.
Proof. unfold daysIn. simpl. repeat case_match; done. Qed.

Lemma civil_from_days_spec z y m d :
  civil_from_days z = (y, m, d) →
  days_from_civil y m d = z ∧ 1 ≤ m ≤ 12 ∧ 1 ≤ d ≤ daysIn m y ∧ d ≤ 31.
Proof.
  unfold civil_from_days. cbv zeta.
  assert (Hdoe : 0 ≤ z + 719468 - (z + 719468) / 146097 * 146097 < 146097) by zlia.
  set (era := (z + 719468) / 146097) in *. clearbody era.
  remember (z + 719468 - era * 146097) as doe eqn:Edoe.
  assert (H100 : 0 ≤ Z.min 3 (doe / 36524) ≤ 3 ∧ 0 ≤ doe - Z.min 3 (doe / 36524) * 36524 ≤ 36524 ∧
                 (doe - Z.min 3 (doe / 36524) * 36524 = 36524 → Z.min 3 (doe / 36524) = 3)) by zlia.
  remember (Z.min 3 (doe / 36524)) as n100 eqn:En100. clear En100.
  remember (doe - n100 * 36524) as r eqn:Er.
  assert (H4 : 0 ≤ r / 1461 ≤ 24 ∧ 0 ≤ r - r / 1461 * 1461 < 1461 ∧
               (r / 1461 = 24 → r - r / 1461 * 1461 = 1460 → n100 = 3)) by zlia.
  remember (r / 1461) as n4 eqn:En4. clear En4.
  remember (r - n4 * 1461) as r' eqn:Er'.
  assert (H1 : 0 ≤ Z.min 3 (r' / 365) ≤ 3 ∧ 0 ≤ r' - Z.min 3 (r' / 365) * 365 ≤ 365 ∧
               (r' - Z.min 3 (r' / 365) * 365 = 365 → Z.min 3 (r' / 365) = 3 ∧ r' = 1460)) by zlia.
  remember (Z.min 3 (r' / 365)) as n1 eqn:En1. clear En1.
  remember (r' - n1 * 365) as doy eqn:Edoy.
  pose proof (doy_all_ok doy ltac:(lia)) as Hok. unfold doy_ok in Hok.
  destruct (month_day doy) as [m0 d0]. bool_prop. intros [= <- <- <-].
  remember (n100 * 100 + n4 * 4 + n1) as yoe eqn:Eyoe.
  assert (Hyoe : yoe / 4 = n100 * 25 + n4 ∧ yoe / 100 = n100 ∧ 0 ≤ yoe < 400) by zlia.
  split; [|split; [lia|split; [|lia]]].
  - unfold days_from_civil. destruct (Z.leb_spec m0 2).
    + replace (yoe + 1 + era * 400 - 1) with (yoe + era * 400) by ring.
      rewrite Z.div_add, (Z.div_small yoe 400) by lia.
      replace (yoe + era * 400 - (0 + era) * 400) with yoe by ring.
      destruct Hyoe as (-> & -> & _). lia.
    + rewrite Z.div_add, (Z.div_small yoe 400) by lia.
      replace (yoe + era * 400 - (0 + era) * 400) with yoe by ring.
      destruct Hyoe as (-> & -> & _). lia.
  - rewrite daysIn_leap. destruct (is_leap _) eqn:Hleap; [lia|].
    destruct (Z.eqb_spec doy 365) as [Hd|Hd]; simpl in *; [|lia]. bool_prop. subst m0.
    exfalso. simpl in Hleap. unfold is_leap in Hleap.
    assert ((yoe + 1 + era * 400) mod 4 = 0) as E by zlia.
    rewrite E in Hleap. simpl in Hleap.
    assert ((yoe + 1 + era * 400) mod 100 ≠ 0 ∨ (yoe + 1 + era * 400) mod 400 = 0) as E2.
    { destruct (decide (n4 = 24)); [right|left]; zlia. }
    destruct E2 as [E2|E2]; [apply Z.eqb_neq in E2|apply Z.eqb_eq in E2];
      rewrite E2 in Hleap; simpl in Hleap; [done|]. by rewrite orb_true_r in Hleap.
Qed.

(** ** Parsing what was printed *)

Lemma take_num_digits w s t acc :
  String.length s = w → string_forallb is_digit s = true →
  take_num w (s +:+ t) acc = (λ v, (v, t)) <$> scan_digits 10 s acc.
Proof.
  revert s acc. induction w as [|w IH]; intros [|c s] acc Hl Hd; try done.
  simpl in Hl, Hd. bool_prop. rewrite string_app_cons. simpl.
  rewrite H, digit_val_digit by done. apply IH; [congruence|done].
Qed.

Lemma take_num_fixed w n t :
  0 ≤ n < 10 ^ Z.of_nat w → take_num w (fixed_digits 10 w n +:+ t) 0 = Some (n, t).
Proof.
  intros Hn. rewrite take_num_digits.
  - rewrite scan_fixed_digits, Z.mod_small by (by left || lia). simpl. do 2 f_equal.
  - apply string_length_fixed_digits.
  - apply fixed_digits_digits. lia.
Qed.

Lemma take_2 n t : 0 ≤ n < 100 → take_num 2 (fixed_digits 10 2 n +:+ t) 0 = Some (n, t).
Proof. apply (take_num_fixed 2). Qed.

Lemma take_4 n t : 0 ≤ n < 10000 → take_num 4 (fixed_digits 10 4 n +:+ t) 0 = Some (n, t).
Proof. apply (take_num_fixed 4). Qed.

Lemma take_hour_2 n t : 0 ≤ n < 100 → take_hour (fixed_digits 10 2 n +:+ t) = Some (n, t).
Proof. intros H. unfold take_hour. by rewrite take_2. Qed.

Lemma pad_int_4 y : 0 ≤ y < 10000 → pad_int 4 y = fixed_digits 10 4 y.
Proof.
  intros Hy. unfold pad_int. destruct (Z.ltb_spec y 0); [lia|].
  change (10 ^ Z.of_nat 4) with 10000. by destruct (Z.ltb_spec y 10000); [|lia].
Qed.

Lemma span_digits_app ds t :
  string_forallb is_digit ds = true →
  match t with String c _ => is_digit c = false | "" => True end →
  span_digits (ds +:+ t) = (ds, t).
Proof.
  intros Hd Ht. induction ds as [|c ds IH].
  - rewrite string_app_nil_l. destruct t as [|c t]; [done|]. simpl. by rewrite Ht.
  - simpl in Hd. bool_prop. rewrite string_app_cons. simpl. by rewrite H, IH.
Qed.

Lemma substring_all w s : (String.length s ≤ w)%nat → String.substring 0 w s = s.
Proof.
  revert s. induction w as [|w IH]; intros [|c s] H; simpl in *; try (done || lia).
  rewrite IH by lia. done.
Qed.

Lemma parse_frac_format ns t :
  0 ≤ ns < second →
  match t with String c _ => is_digit c = false ∧ byteZ c ≠ 46 ∧ byteZ c ≠ 44 | "" => True end →
  parse_frac (format_frac ns +:+ t) = Some (ns, t).
Proof.
  intros Hns Ht. unfold format_frac.
  assert (Hd := fixed_digits_digits 9 ns ltac:(lia)).
  assert (Hlen := string_length_fixed_digits 10 9 ns).
  assert (Hscan := scan_fixed_digits 10 9 ns 0 ltac:(by left) ltac:(lia)).
  rewrite Z.mod_small in Hscan by (change (10 ^ Z.of_nat 9) with second; lia).
  destruct (rtrim0_spec (fixed_digits 10 9 ns)) as [k Hk].
  set (ds := rtrim0 (fixed_digits 10 9 ns)) in *. clearbody ds.
  rewrite Hk in Hd, Hlen, Hscan. rewrite string_forallb_app in Hd.
  rewrite string_length_app, string_length_zeros in Hlen.
  rewrite scan_digits_app in Hscan. bool_prop.
  destruct ds as [|c ds].
  - simpl in Hscan. rewrite scan_zeros in Hscan. injection Hscan as Hscan.
    rewrite string_app_nil_l. replace ns with 0 by lia. unfold parse_frac.
    destruct t as [|p [|c t]]; try done. destruct Ht as (_ & Hp1 & Hp2).
    apply Z.eqb_neq in Hp1. apply Z.eqb_neq in Hp2. by rewrite Hp1, Hp2.
  - change (("." +:+ String c ds) +:+ t) with (String (Zbyte 46) (String c ds +:+ t)).
    simpl in H. pose proof H as Hall. bool_prop. rewrite string_app_cons. unfold parse_frac.
    rewrite H1. simpl ((_ || _) && _). cbv iota.
    rewrite <-string_app_cons, span_digits_app;
      [|simpl; by rewrite H1|by destruct t; [|destruct Ht]].
    unfold parse_nanos. rewrite substring_all by lia.
    destruct (scan_digits 10 (String c ds) 0) as [v|] eqn:Ev; [|done].
    simpl option_map in *. cbn [mbind option_bind] in Hscan.
    rewrite scan_zeros in Hscan. injection Hscan as Hscan. cbn [fmap option_fmap option_map].
    do 2 f_equal.
    replace (9 - Z.of_nat (String.length (String c ds))) with (Z.of_nat k) by lia. lia.
Qed.

Lemma expect_hit c b s : (byteZ b =? c) = true → expect c (String b "" +:+ s) = Some s.
Proof. intros H. rewrite string_app_cons, string_app_nil_l. simpl. by rewrite H. Qed.

(** consume the separator of the next field *)
Local Ltac field := cbn [mbind option_bind fst snd]; rewrite ?expect_hit by done;
  cbn [mbind option_bind fst snd].

Lemma Parse_format_secs secs rest f :
  0 ≤ (civil_from_days (secs / day_secs)).1.1 < 10000 →
  parse_frac rest = Some (f, "Z") →
  Parse (format_secs secs +:+ rest) = Some (secs * second + f).
Proof.
  intros Hy Hf. unfold format_secs.
  destruct (civil_from_days (secs / day_secs)) as [[y m] d] eqn:E. simpl in Hy.
  destruct (civil_from_days_spec _ _ _ _ E) as (Hz & Hm & Hd & Hd').
  assert (Hs : 0 ≤ secs mod day_secs < 86400) by (apply Z.mod_pos_bound; done).
  set (sod := secs mod day_secs) in *.
  rewrite pad_int_4 by done. rewrite !string_app_assoc. unfold Parse.
  rewrite take_4 by done. field. rewrite take_2 by lia. field.
  destruct (Z.leb_spec m 0); [lia|]. destruct (Z.ltb_spec 12 m); [lia|]. cbn [orb]. field.
  rewrite take_2 by lia. field. rewrite take_hour_2 by zlia. field.
  destruct (Z.leb_spec 24 (sod / 3600)); [zlia|]. field. rewrite take_2 by zlia. field.
  destruct (Z.leb_spec 60 (sod / 60 mod 60)); [zlia|]. field. rewrite take_2 by zlia. field.
  destruct (Z.leb_spec 60 (sod mod 60)); [zlia|].
  rewrite Hf. simpl.
  destruct (Z.ltb_spec d 1); [lia|]. destruct (Z.ltb_spec (daysIn m y) d); [lia|]. simpl.
  do 2 f_equal. rewrite Hz.
  assert (secs = secs / day_secs * day_secs + sod)
    by (subst sod; rewrite Z.mul_comm; apply Z.div_mod; done).
  assert (sod = sod / 3600 * 3600 + sod / 60 mod 60 * 60 + sod mod 60) by zlia. lia.
Qed.

(** Instants whose year has four digits: 0000-01-01 up to the end of 9999. *)
Definition printable (t : Z) : Prop :=
  0 ≤ (civil_from_days (t / second / day_secs)).1.1 < 10000.

(** Reading back a nanosecond timestamp gives the same instant. *)
Lemma Parse_FormatNano t : printable t → Parse (FormatNano t) = Some t.
Proof.
  intros Hp. unfold FormatNano.
  rewrite (Parse_format_secs _ _ (t mod second)); [|done|].
  - f_equal. rewrite (Z.div_mod t second) at 3 by done. lia.
  - apply parse_frac_format; [by apply Z.mod_pos_bound|done].
Qed.

(** Reading back a second-resolution timestamp loses the fraction. *)
Lemma Parse_Format t : printable t → Parse (Format t) = Some (t / second * second).
Proof.
  intros Hp. unfold Format. rewrite (Parse_format_secs _ _ 0); [f_equal; lia|done|done].
Qed.

Lemma parseTS_FormatNano t : printable t → parseTS (FormatNano t) = t.
Proof. intros H. unfold parseTS. by rewrite Parse_FormatNano. Qed.

#[export] Hint Resolve parseTS_FormatNano : daxie.

Example format_epoch : FormatNano 1500000000 = "1970-01-01T00:00:01.5Z".
Proof. reflexivity. Qed.
Example parse_offset : Parse "1970-01-01T02:00:00+02:00" = Some 0.
Proof. reflexivity. Qed.
Example parse_bad_day : Parse "2023-02-29T00:00:00Z" = None.
Proof. reflexivity. Qed.
