(* ===== verification/HexBytes.v ===== *)
(** * Bytes as hexadecimal, and big-endian words

    [hexBytes] of [internal/service/tx.go] and [decodeHex] of [txstatus.go],
    which write and read the raw transaction of a journal record, and the
    32-byte big-endian words of ABI data ([big.Int.SetBytes]). *)

From S2P Require Import Prelude GoStrings Decimal.

Local Open Scope string_scope.
Local Open Scope Z_scope.
Local Open Scope go_scope.

(** encoding/hex.EncodeToString *)
Fixpoint hexEncode (b : string) : string :=
  match b with
  | "" => ""
  | String c b => String (digit_char (byteZ c / 16)) (String (digit_char (byteZ c mod 16)) (hexEncode b))
  end.

(** hexBytes *)
Definition hexBytes (b : string) : string := "0x" +:+ hexEncode b.

(** hexVal *)
Definition hexVal (c : Ascii.ascii) : option Z :=
  let n := byteZ c in
  if (48 <=? n) && (n <=? 57) then Some (n - 48)
  else if (97 <=? n) && (n <=? 102) then Some (n - 97 + 10)
  else if (65 <=? n) && (n <=? 70) then Some (n - 65 + 10)
  else None.

Fixpoint decode_pairs (s : string) : option string :=
  match s with
  | "" => Some ""
  | String hi (String lo s) =>
      match hexVal hi, hexVal lo with
      | Some h, Some l => String (Zbyte (h * 16 + l)) <$> decode_pairs s
      | _, _ => None
      end
  | _ => None
  end.

(** decodeHex: the prefix test looks at the second byte only; an odd length
    leaves a last digit without a partner *)
Definition decodeHex (s : string) : option string :=
  match s with
  | String _ (String x r) => decode_pairs (if (byteZ x =? 120) || (byteZ x =? 88) then r else s)
  | _ => decode_pairs s
  end.

(** [big.Int.SetBytes] *)
Fixpoint be_value (acc : Z) (b : string) : Z :=
  match b with
  | "" => acc
  | String c b => be_value (acc * 256 + byteZ c) b
  end.
Definition SetBytes (b : string) : Z := be_value 0 b.

(** [n] as a big-endian word of [w] bytes *)
Fixpoint be_bytes (w : nat) (n : Z) : string :=
  match w with
  | O => ""
  | S w => be_bytes w (n / 256) +:+ String (Zbyte (n mod 256)) ""
  end.

(** ** Facts *)

Lemma hexVal_digit d : 0 ≤ d < 16 → hexVal (digit_char d) = Some d.
Proof.
  intros Hd. unfold hexVal, digit_char. destruct (Z.ltb_spec d 10); rewrite byteZ_Zbyte by lia; zcases; simpl; f_equal; lia.
Qed.

Lemma decode_pairs_hexEncode b : decode_pairs (hexEncode b) = Some b.
Proof.
  induction b as [|c b IH]; [done|]. pose proof (byteZ_range c). cbn [hexEncode decode_pairs].
  rewrite !hexVal_digit by zlia. rewrite IH. simpl.
  replace (byteZ c / 16 * 16 + byteZ c mod 16) with (byteZ c) by zlia. by rewrite Zbyte_byteZ.
Qed.

(** What the journal holds is read back as the signed bytes. *)
Lemma decodeHex_hexBytes b : decodeHex (hexBytes b) = Some b.
Proof. exact (decode_pairs_hexEncode b). Qed.

Lemma be_value_app acc s t : be_value acc (s +:+ t) = be_value (be_value acc s) t.
Proof. revert acc. induction s as [|c s IH]; intros acc; [done|]. rewrite string_app_cons. apply IH. Qed.

Lemma be_value_be_bytes w n acc : 0 ≤ n →
  be_value acc (be_bytes w n) = acc * 256 ^ Z.of_nat w + n mod 256 ^ Z.of_nat w.
Proof.
  revert n acc. induction w as [|w IH]; intros n acc Hn; [simpl; rewrite Z.mod_1_r; lia|].
  cbn [be_bytes]. rewrite be_value_app, IH by (apply Z.div_pos; lia). cbn [be_value].
  rewrite byteZ_Zbyte by (apply Z.mod_pos_bound; lia).
  replace (256 ^ Z.of_nat (S w)) with (256 * 256 ^ Z.of_nat w) by (rewrite <-Z.pow_succ_r by lia; f_equal; lia).
  rewrite (Z.rem_mul_r n 256 (256 ^ Z.of_nat w)) by lia. lia.
Qed.

Lemma SetBytes_be_bytes w n : 0 ≤ n < 256 ^ Z.of_nat w → SetBytes (be_bytes w n) = n.
Proof. intros Hn. unfold SetBytes. rewrite be_value_be_bytes by lia. rewrite Z.mod_small by lia. lia. Qed.

Lemma be_bytes_length w n : String.length (be_bytes w n) = w.
Proof. revert n. induction w as [|w IH]; intros n; [done|]. cbn [be_bytes]. rewrite string_length_app, IH. simpl. lia. Qed.
