(* ===== verification/Ethunit.v ===== *)
(** * Ether and token amounts: [internal/ethunit]

    Exact conversion between decimal strings and integers scaled by a power of
    ten.  There is no floating point: a string that does not denote a whole
    number of base units is an error, never rounded. *)

From S2P Require Import Prelude GoStrings Decimal.

Local Open Scope string_scope.
Local Open Scope Z_scope.

(** ** Units (units.go) *)

(** [type Unit int]: any integer, with three named values. *)
Definition Wei : Z := 0.
Definition Gwei : Z := 1.
Definition Eth : Z := 2.

(** the reason of a [fmt.Errorf] of the package *)
Inductive unit_error :=
| EmptyAmount | NegativeAmount | MalformedAmount | ExcessPrecision | InvalidUnit | UnknownUnit.

#[export] Instance unit_error_eq_dec : EqDecision unit_error.
Proof. solve_decision. Defined.

Definition decimals (u : Z) : option Z :=
  if u =? Wei then Some 0 else if u =? Gwei then Some 9 else if u =? Eth then Some 18 else None.

Definition unit_name (u : Z) : string :=
  if u =? Wei then "wei" else if u =? Gwei then "gwei" else if u =? Eth then "eth"
  else "unit(" +:+ z_string u +:+ ")".

(** 10^n as a fresh integer *)
Definition tenPow (n : Z) : Z := 10 ^ n.

Definition WeiPer (u : Z) : Z :=
  match decimals u with Some d => tenPow d | None => 1 end.

Definition isDigits (s : string) : bool :=
  match s with "" => false | _ => string_forallb is_digit s end.

Section Ethunit.
Context {UT : UnicodeTables}.

Definition ParseUnit (s : string) : res unit_error Z :=
  let t := ToLower (TrimSpace s) in
  if bool_decide (t = "wei") then Ok Wei
  else if bool_decide (t = "gwei") then Ok Gwei
  else if bool_decide (t = "eth") || bool_decide (t = "ether") then Ok Eth
  else Err UnknownUnit.

(** the scanning loop of SplitAmountUnit: the number of leading bytes of a number *)
Fixpoint num_prefix (i : nat) (s : string) : nat :=
  match s with
  | "" => i
  | String c s' =>
      let b := byteZ c in
      if is_digit c || (b =? 46) || (((b =? 43) || (b =? 45)) && Nat.eqb i 0)
      then num_prefix (S i) s' else i
  end.

Definition SplitAmountUnit (s : string) : string * string :=
  let s := TrimSpace s in
  let i := num_prefix 0 s in
  (TrimSpace (stake i s), ToLower (TrimSpace (sdrop i s))).

(** the part of parseDecimalToBase after the sign has been dealt with *)
Definition parseUnsigned (s : string) (scaleN : nat) : res unit_error Z :=
  if bool_decide (s = "") then Err MalformedAmount else
  let '(intPart, fracPart, hasDot) :=
    match split_byte 46 s with
    | Some (i, f) => (i, f, true)
    | None => (s, "", false)
    end in
  if hasDot && bool_decide (is_Some (split_byte 46 fracPart)) then Err MalformedAmount else
  if bool_decide (intPart = "") && bool_decide (fracPart = "") then Err MalformedAmount else
  let intPart := if bool_decide (intPart = "") then "0" else intPart in
  if negb (isDigits intPart) ||
     (hasDot && negb (bool_decide (fracPart = "")) && negb (isDigits fracPart))
  then Err MalformedAmount else
  if (scaleN <? String.length fracPart)%nat && negb (bool_decide (rtrim0 (ltrim0 (sdrop scaleN fracPart)) = ""))
  then Err ExcessPrecision else
  let fracPart := if (scaleN <? String.length fracPart)%nat then stake scaleN fracPart else fracPart in
  let padded := fracPart +:+ zeros (scaleN - String.length fracPart) in
  let combined := ltrim0 (intPart +:+ padded) in
  let combined := if bool_decide (combined = "") then "0" else combined in
  match SetString combined 10 with
  | Some out => Ok out
  | None => Err MalformedAmount
  end.

Definition parseDecimalToBase (decimal : string) (scale : Z) : res unit_error Z :=
  match TrimSpace decimal with
  | "" => Err EmptyAmount
  | String c s' as s =>
      if byteZ c =? 43 then parseUnsigned s' (Z.to_nat scale)
      else if byteZ c =? 45 then Err NegativeAmount
      else parseUnsigned s (Z.to_nat scale)
  end.

Definition ParseAmount (decimal : string) (u : Z) : res unit_error Z :=
  match decimals u with
  | Some d => parseDecimalToBase decimal d
  | None => Err InvalidUnit
  end.

Definition ParseTokenAmount (decimal : string) (decimals : Z) : res unit_error Z :=
  parseDecimalToBase decimal decimals.
End Ethunit.

(** formatBase; a nil [big.Int] prints as zero *)
Definition formatBase (base : option Z) (scale : Z) : string :=
  match base with
  | None => "0"
  | Some b =>
      let neg := b <? 0 in
      let sign (s : string) := if neg then "-" +:+ s else s in
      let abs := Z.abs b in
      if scale =? 0 then sign (z_string abs)
      else
        let q := Z.quot abs (tenPow scale) in
        let r := Z.rem abs (tenPow scale) in
        if r =? 0 then sign (z_string q)
        else
          let fracStr := z_string r in
          let fracStr := zeros (Z.to_nat scale - String.length fracStr) +:+ fracStr in
          sign (z_string q +:+ "." +:+ rtrim0 fracStr)
  end.

Definition FormatAmount (wei : Z) (u : Z) : string :=
  match decimals u with
  | Some d => formatBase (Some wei) d
  | None => z_string wei
  end.

Definition FormatTokenAmount (base : option Z) (decimals : Z) : string := formatBase base decimals.

(** ** Facts *)

Lemma split_byte_digits s :
  string_forallb is_digit s = true → split_byte 46 s = None.
Proof.
  induction s as [|c s IH]; intros H; simpl in *; [done|]. bool_prop.
  rewrite IH by done. unfold is_digit in H. bool_prop.
  destruct (Z.eqb_spec (byteZ c) 46); [lia|done].
Qed.

Lemma split_byte_dot i f :
  string_forallb is_digit i = true → split_byte 46 (i +:+ "." +:+ f) = Some (i, f).
Proof.
  induction i as [|c i IH]; intros H; [done|]. simpl in H. bool_prop.
  rewrite string_app_cons. simpl. rewrite IH by done.
  unfold is_digit in H. bool_prop. by destruct (Z.eqb_spec (byteZ c) 46); [lia|].
Qed.

(** The value of a string of digits, a total function. *)
Lemma digits_value_scan s :
  string_forallb is_digit s = true → scan_digits 10 s 0 = Some (digits_value 10 s).
Proof. intros H. unfold digits_value. by destruct (scan_digits_all_digits s 0 H) as [n ->]. Qed.

Lemma digits_value_app s t :
  string_forallb is_digit s = true → string_forallb is_digit t = true →
  digits_value 10 (s +:+ t) =
  digits_value 10 s * 10 ^ Z.of_nat (String.length t) + digits_value 10 t.
Proof.
  intros Hs Ht. unfold digits_value at 1.
  rewrite scan_digits_app, (digits_value_scan s) by done. simpl.
  rewrite scan_digits_shift, (digits_value_scan t) by done. done.
Qed.

Lemma digits_value_bound s :
  string_forallb is_digit s = true → 0 ≤ digits_value 10 s < 10 ^ Z.of_nat (String.length s).
Proof.
  induction s as [|c s IH]; intros H; [done|]. simpl in H. bool_prop. specialize (IH H0).
  rewrite <-(string_app_nil_l s), <-string_app_cons.
  rewrite digits_value_app by (simpl; by rewrite ?H).
  rewrite string_length_app. simpl String.length.
  assert (0 ≤ digits_value 10 (String c "") ≤ 9).
  { unfold digits_value. simpl. rewrite digit_val_digit by done.
    unfold is_digit in H. bool_prop. lia. }
  rewrite Nat2Z.inj_add, Z.pow_add_r, Z.pow_1_r by lia. nia.
Qed.

Lemma digits_value_zero s :
  string_forallb is_digit s = true → (rtrim0 (ltrim0 s) = "" ↔ digits_value 10 s = 0).
Proof.
  intros H. destruct (ltrim0_spec s) as [k Hk].
  assert (Hv : digits_value 10 s = digits_value 10 (ltrim0 s))
    by (unfold digits_value; by rewrite scan_ltrim0).
  assert (Hd : string_forallb is_digit (ltrim0 s) = true)
    by (rewrite Hk, string_forallb_app in H; by bool_prop).
  rewrite Hv. destruct (ltrim0 s) as [|c u] eqn:E; [done|].
  assert (Hc : byteZ c ≠ 48).
  { intros Hc. clear -E Hc. revert E. induction s as [|b s IH]; simpl; [done|].
    destruct (Z.eqb_spec (byteZ b) 48); [done|]. intros [= -> ->]. done. }
  split.
  - intros Hr. exfalso. unfold rtrim0 in Hr. apply (f_equal srev) in Hr.
    rewrite srev_involutive, srev_cons in Hr.
    destruct (ltrim0_spec (srev u +:+ String c "")) as [j Hj]. rewrite Hr in Hj.
    rewrite string_app_nil_r in Hj. apply (f_equal srev) in Hj.
    rewrite srev_app, srev_involutive, srev_zeros in Hj. destruct j; [done|].
    simpl in Hj. injection Hj as -> _. by rewrite byteZ_Zbyte in Hc.
  - intros H0. exfalso. simpl in Hd. bool_prop.
    rewrite <-(string_app_nil_l u), <-string_app_cons in H0.
    rewrite digits_value_app in H0 by (simpl; by rewrite ?H1).
    pose proof (digits_value_bound u H2). unfold digits_value in H0 at 1. simpl in H0.
    rewrite digit_val_digit in H0 by done. unfold is_digit in H1. bool_prop.
    assert (0 < 10 ^ Z.of_nat (String.length u)) by (apply Z.pow_pos_nonneg; lia). nia.
Qed.

(** A byte that neither trimming nor case folding touches. *)
Definition plain_byte (c : Ascii.ascii) : bool :=
  is_ascii_byte c && negb ((9 <=? byteZ c) && (byteZ c <=? 13) || (byteZ c =? 32)).

Lemma TrimSpace_plain `{UnicodeTables} s : string_forallb plain_byte s = true → TrimSpace s = s.
Proof.
  intros Hs. destruct s as [|c s]; [done|]. pose proof Hs as Hr. simpl in Hs.
  apply andb_true_iff in Hs as [Hc Hs]. unfold plain_byte in Hc. apply andb_true_iff in Hc as [Ha Hn].
  simpl. rewrite Ha. simpl. unfold is_space. apply negb_true_iff in Hn. rewrite Hn.
  rewrite <-string_forallb_srev in Hr.
  destruct (srev (String c s)) as [|b r] eqn:E.
  { apply (f_equal String.length) in E. rewrite string_length_srev in E. done. }
  simpl in Hr. apply andb_true_iff in Hr as [Hb _]. unfold plain_byte in Hb.
  apply andb_true_iff in Hb as [Hb1 Hb2]. apply negb_true_iff in Hb2.
  simpl. rewrite Hb1. simpl. unfold is_space. rewrite Hb2, <-E. apply srev_involutive.
Qed.

Lemma plain_digit c : is_digit c = true → plain_byte c = true.
Proof.
  unfold is_digit, plain_byte, is_ascii_byte. intros H. bool_prop.
  destruct (Z.ltb_spec (byteZ c) 128); [|lia]. destruct (Z.leb_spec (byteZ c) 13); [lia|].
  destruct (Z.eqb_spec (byteZ c) 32); [lia|]. by rewrite andb_false_r.
Qed.

Lemma plain_digits s : string_forallb is_digit s = true → string_forallb plain_byte s = true.
Proof. induction s as [|c s IH]; simpl; [done|]. intros H. bool_prop. by rewrite plain_digit, IH. Qed.

Section Facts.
Context {UT : UnicodeTables}.

Lemma SetString_combined s :
  string_forallb is_digit s = true →
  SetString (if bool_decide (ltrim0 s = "") then "0" else ltrim0 s) 10 = Some (digits_value 10 s).
Proof.
  intros Hs. unfold digits_value. rewrite <-scan_ltrim0.
  destruct (ltrim0_spec s) as [k Hk].
  assert (Hd : string_forallb is_digit (ltrim0 s) = true)
    by (rewrite Hk, string_forallb_app in Hs; by bool_prop).
  case_bool_decide as E; [by rewrite E|].
  rewrite SetString_digits by done.
  by destruct (scan_digits_all_digits _ 0 Hd) as [n ->].
Qed.

Lemma isDigits_true s : s ≠ "" → isDigits s = string_forallb is_digit s.
Proof. by destruct s. Qed.

(** The reference meaning of a decimal with whole part [i] and fraction [f]:
    the rational value scaled by [10^scale], when that is an integer. *)
Definition scaled_value (i f : string) (scale : nat) : option Z :=
  let num := digits_value 10 (i +:+ f) * 10 ^ Z.of_nat scale in
  let den := 10 ^ Z.of_nat (String.length f) in
  if num mod den =? 0 then Some (num / den) else None.

Lemma scaled_value_short i f scale :
  string_forallb is_digit i = true → string_forallb is_digit f = true →
  (String.length f ≤ scale)%nat →
  scaled_value i f scale = Some (digits_value 10 (i +:+ f +:+ zeros (scale - String.length f))).
Proof.
  intros Hi Hf Hl. unfold scaled_value.
  rewrite <-string_app_assoc, (digits_value_app (i +:+ f));
    [|by rewrite string_forallb_app, Hi, Hf|apply zeros_digits].
  rewrite string_length_zeros. unfold digits_value at 4. rewrite scan_zeros, Z.add_0_r.
  replace (Z.of_nat scale) with (Z.of_nat (scale - String.length f) + Z.of_nat (String.length f)) by lia.
  rewrite Z.pow_add_r, Z.mul_assoc by lia.
  assert (10 ^ Z.of_nat (String.length f) ≠ 0) by (apply Z.pow_nonzero; lia).
  rewrite Z.mod_mul, Z.div_mul by done. done.
Qed.

Lemma scaled_value_long i f1 f2 :
  string_forallb is_digit i = true → string_forallb is_digit f1 = true →
  string_forallb is_digit f2 = true →
  scaled_value i (f1 +:+ f2) (String.length f1) =
  if digits_value 10 f2 =? 0 then Some (digits_value 10 (i +:+ f1)) else None.
Proof.
  intros Hi H1 H2. unfold scaled_value.
  rewrite <-string_app_assoc, (digits_value_app (i +:+ f1)) by (rewrite ?string_forallb_app, ?Hi, ?H1; done).
  rewrite string_length_app, Nat2Z.inj_add, Z.pow_add_r by lia.
  pose proof (digits_value_bound f2 H2) as Hb.
  set (a := 10 ^ Z.of_nat (String.length f1)). set (b := 10 ^ Z.of_nat (String.length f2)) in *.
  assert (0 < a) by (apply Z.pow_pos_nonneg; lia).
  set (v := digits_value 10 (i +:+ f1)). set (w := digits_value 10 f2) in *.
  rewrite (Z.mul_comm (v * b + w) a). rewrite Zmult_mod_distr_l, Z.div_mul_cancel_l by lia.
  rewrite Z.add_comm, Z.mod_add, Z.div_add, (Z.mod_small w b), (Z.div_small w b) by lia.
  destruct (Z.eqb_spec w 0) as [->|Hw].
  - rewrite Z.mul_0_r. simpl. done.
  - destruct (Z.eqb_spec (a * w) 0); [nia|done].
Qed.

(** A well-formed decimal is read exactly or refused for precision. *)
Lemma parseUnsigned_spec i f scale :
  string_forallb is_digit i = true → string_forallb is_digit f = true → i ≠ "" →
  parseUnsigned (i +:+ "." +:+ f) scale =
  match scaled_value i f scale with Some n => Ok n | None => Err ExcessPrecision end.
Proof.
  intros Hi Hf Hne. unfold parseUnsigned.
  rewrite bool_decide_false by (by destruct i).
  rewrite split_byte_dot by done. rewrite (split_byte_digits f) by done.
  rewrite (bool_decide_false (is_Some None)) by (by intros [? ?]).
  rewrite (bool_decide_false (i = "")) by done. cbn [andb orb].
  rewrite isDigits_true, Hi by done. cbn [negb orb].
  assert (negb (bool_decide (f = "")) && negb (isDigits f) = false) as ->.
  { case_bool_decide; [done|]. by rewrite isDigits_true, Hf. }
  destruct (Nat.ltb_spec scale (String.length f)) as [Hlong|Hshort]; cbn [andb].
  - pose proof (stake_sdrop scale f) as Hsplit.
    assert (Hl := string_length_stake scale f ltac:(lia)).
    set (f1 := stake scale f) in *. set (f2 := sdrop scale f) in *. clearbody f1 f2.
    subst scale f. rewrite string_forallb_app in Hf. apply andb_true_iff in Hf as [H1 H2].
    rewrite scaled_value_long by done.
    rewrite (bool_decide_ext _ _ (digits_value_zero f2 H2)).
    destruct (Z.eqb_spec (digits_value 10 f2) 0) as [Hz|Hz];
      [rewrite bool_decide_true by done|by rewrite bool_decide_false by done].
    cbn [negb]. rewrite Nat.sub_diag. simpl zeros. rewrite string_app_nil_r.
    by rewrite SetString_combined by (by rewrite string_forallb_app, Hi, H1).
  - rewrite scaled_value_short by done. rewrite SetString_combined; [done|].
    by rewrite !string_forallb_app, Hi, Hf, zeros_digits.
Qed.

Lemma parseUnsigned_whole i scale :
  string_forallb is_digit i = true → i ≠ "" →
  parseUnsigned i scale = Ok (digits_value 10 i * 10 ^ Z.of_nat scale).
Proof.
  intros Hi Hne. unfold parseUnsigned. rewrite bool_decide_false by done.
  rewrite split_byte_digits by done. cbn [andb].
  rewrite (bool_decide_false (i = "")) by done. cbn [andb].
  rewrite isDigits_true, Hi by done. cbn [negb orb String.length].
  assert ((scale <? 0)%nat = false) as -> by (apply Nat.ltb_ge; lia). cbn [andb].
  rewrite Nat.sub_0_r, string_app_nil_l.
  rewrite SetString_combined by (by rewrite string_forallb_app, Hi, zeros_digits).
  rewrite digits_value_app by (done || apply zeros_digits).
  rewrite string_length_zeros. unfold digits_value at 2. rewrite scan_zeros. f_equal. lia.
Qed.
End Facts.

Lemma z_string_nonneg n : 0 ≤ n → z_string n = nat_string 10 n.
Proof. intros Hn. unfold z_string. by destruct (Z.ltb_spec n 0); [lia|]. Qed.

Lemma digits_value_nat_string n : 0 ≤ n → digits_value 10 (nat_string 10 n) = n.
Proof. intros Hn. unfold digits_value. by destruct (nat_string_spec 10 n ltac:(by left) Hn) as [-> _]. Qed.

(** A positive number below [10^w] prints with at most [w] digits. *)
Lemma nat_string_length n w : 0 < n < 10 ^ Z.of_nat w → (String.length (nat_string 10 n) ≤ w)%nat.
Proof.
  intros Hn. pose proof (nat_string_digits n ltac:(lia)) as Hd.
  pose proof (digits_value_nat_string n ltac:(lia)) as Hv.
  destruct (nat_string_spec 10 n ltac:(by left) ltac:(lia)) as (_ & Hne & Hlead).
  destruct (nat_string 10 n) as [|c t]; [done|]. simpl in Hd. apply andb_true_iff in Hd as [Hc Ht].
  rewrite <-(string_app_nil_l t), <-string_app_cons in Hv.
  rewrite digits_value_app in Hv by (simpl; by rewrite ?Hc).
  pose proof (digits_value_bound t Ht).
  assert (1 ≤ digits_value 10 (String c "")).
  { unfold digits_value. simpl. rewrite digit_val_digit by done.
    pose proof Hc as Hc'. unfold is_digit in Hc'. apply andb_true_iff in Hc' as [H1 H2]. bool_prop.
    assert (byteZ c ≠ 48); [|lia]. intros H48. apply (Hlead ltac:(lia) t). f_equal.
    by rewrite <-(Zbyte_byteZ c), H48. }
  assert (Hlt : 10 ^ Z.of_nat (String.length t) < 10 ^ Z.of_nat w) by nia.
  apply Z.pow_lt_mono_r_iff in Hlt; [|lia|lia]. simpl. lia.
Qed.

Section Theorems.
Context {UT : UnicodeTables}.

Lemma parse_digit_first c s scale :
  is_digit c = true → string_forallb plain_byte s = true →
  parseDecimalToBase (String c s) scale = parseUnsigned (String c s) (Z.to_nat scale).
Proof.
  intros Hc Hs. unfold parseDecimalToBase.
  rewrite TrimSpace_plain by (simpl; by rewrite plain_digit, Hs).
  unfold is_digit in Hc. apply andb_true_iff in Hc as [H1 H2]. bool_prop.
  destruct (Z.eqb_spec (byteZ c) 43); [lia|]. by destruct (Z.eqb_spec (byteZ c) 45); [lia|].
Qed.

Lemma parse_plain_decimal i f scale :
  string_forallb is_digit i = true → string_forallb is_digit f = true → i ≠ "" →
  parseDecimalToBase (i +:+ "." +:+ f) scale =
  match scaled_value i f (Z.to_nat scale) with Some n => Ok n | None => Err ExcessPrecision end.
Proof.
  intros Hi Hf Hne. rewrite <-parseUnsigned_spec by done.
  destruct i as [|c i]; [done|]. simpl in Hi. apply andb_true_iff in Hi as [Hc Hi].
  apply parse_digit_first; [done|].
  change (string_forallb plain_byte (i +:+ "." +:+ f) = true).
  rewrite !string_forallb_app, (plain_digits i), (plain_digits f) by done. reflexivity.
Qed.

Lemma parse_whole n scale :
  0 ≤ n → 0 ≤ scale → parseDecimalToBase (nat_string 10 n) scale = Ok (n * 10 ^ scale).
Proof.
  intros Hn Hs. pose proof (nat_string_digits n Hn) as Hd.
  destruct (nat_string_spec 10 n ltac:(by left) Hn) as (_ & Hne & _).
  pose proof (parseUnsigned_whole _ (Z.to_nat scale) Hd Hne) as Hp.
  rewrite digits_value_nat_string, Z2Nat.id in Hp by done.
  destruct (nat_string 10 n) as [|c s]; [done|]. simpl in Hd.
  apply andb_true_iff in Hd as [Hc Hd]. rewrite parse_digit_first; [done|done|by apply plain_digits].
Qed.

(** A formatted amount is a non-empty run of digits and at most one dot. *)
Lemma formatBase_plain n scale :
  0 ≤ n → 0 ≤ scale →
  string_forallb plain_byte (formatBase (Some n) scale) = true ∧ formatBase (Some n) scale ≠ "".
Proof.
  intros Hn Hs. unfold formatBase. destruct (Z.ltb_spec n 0); [lia|]. rewrite Z.abs_eq by done.
  assert (Hz : ∀ m, 0 ≤ m → string_forallb plain_byte (z_string m) = true ∧ z_string m ≠ "").
  { intros m Hm. rewrite z_string_nonneg by done. split; [by apply plain_digits, nat_string_digits|].
    by destruct (nat_string_spec 10 m ltac:(by left) Hm) as (_ & ? & _). }
  destruct (Z.eqb_spec scale 0); [by apply Hz|].
  unfold tenPow. assert (0 < 10 ^ scale) by (apply Z.pow_pos_nonneg; lia).
  rewrite Z.quot_div_nonneg, Z.rem_mod_nonneg by lia.
  pose proof (Z.div_pos n (10 ^ scale) ltac:(lia) ltac:(lia)) as Hq.
  pose proof (Z.mod_pos_bound n (10 ^ scale) ltac:(lia)) as Hb.
  destruct (Z.eqb_spec (n mod 10 ^ scale) 0); [by apply Hz|]. destruct (Hz _ Hq) as [Hqp Hqn].
  set (pad := zeros _ +:+ z_string _). split; [|by destruct (z_string (n / 10 ^ scale))].
  rewrite string_forallb_app, Hqp. cbn [andb]. rewrite string_forallb_app.
  assert (Hpd : string_forallb is_digit pad = true).
  { unfold pad. rewrite string_forallb_app, zeros_digits, z_string_nonneg by lia. by rewrite nat_string_digits by lia. }
  destruct (rtrim0_spec pad) as [k Hk]. rewrite Hk, string_forallb_app in Hpd. apply andb_true_iff in Hpd as [Hpd _].
  by rewrite (plain_digits (rtrim0 pad)).
Qed.

(** Formatting a non-negative amount and reading it back gives the amount. *)
Lemma parse_formatBase n scale :
  0 ≤ n → 0 ≤ scale → parseDecimalToBase (formatBase (Some n) scale) scale = Ok n.
Proof.
  intros Hn Hs. unfold formatBase. destruct (Z.ltb_spec n 0); [lia|].
  rewrite Z.abs_eq by done. destruct (Z.eqb_spec scale 0) as [->|Hnz].
  { rewrite z_string_nonneg, parse_whole by done. f_equal. lia. }
  unfold tenPow. assert (0 < 10 ^ scale) by (apply Z.pow_pos_nonneg; lia).
  rewrite Z.quot_div_nonneg, Z.rem_mod_nonneg by lia.
  assert (0 ≤ n / 10 ^ scale) by (apply Z.div_pos; lia).
  pose proof (Z.div_mod n (10 ^ scale) ltac:(lia)) as Hdm.
  pose proof (Z.mod_pos_bound n (10 ^ scale) ltac:(lia)) as Hb.
  destruct (Z.eqb_spec (n mod 10 ^ scale) 0) as [Hz|Hz].
  { rewrite z_string_nonneg, parse_whole by lia. f_equal. lia. }
  rewrite !z_string_nonneg by lia.
  set (q := n / 10 ^ scale) in *. set (r := n mod 10 ^ scale) in *.
  destruct (nat_string_spec 10 q ltac:(by left) ltac:(lia)) as (_ & Hne & _).
  assert (Hrd := nat_string_digits r ltac:(lia)).
  assert (Hqd := nat_string_digits q ltac:(lia)).
  assert (Hrl := nat_string_length r (Z.to_nat scale) ltac:(rewrite Z2Nat.id; lia)).
  set (pad := zeros (Z.to_nat scale - String.length (nat_string 10 r)) +:+ nat_string 10 r).
  assert (Hpd : string_forallb is_digit pad = true)
    by (unfold pad; by rewrite string_forallb_app, zeros_digits, Hrd).
  assert (Hpl : String.length pad = Z.to_nat scale)
    by (unfold pad; rewrite string_length_app, string_length_zeros; lia).
  assert (Hpv : digits_value 10 pad = r).
  { unfold pad, digits_value. rewrite scan_digits_app, scan_zeros. cbn [mbind option_bind].
    rewrite Z.mul_0_l. by destruct (nat_string_spec 10 r ltac:(by left) ltac:(lia)) as [-> _]. }
  clearbody pad. destruct (rtrim0_spec pad) as [k Hk].
  assert (Hfd : string_forallb is_digit (rtrim0 pad) = true)
    by (rewrite Hk, string_forallb_app in Hpd; by apply andb_true_iff in Hpd as [? _]).
  assert (Hfl : (String.length (rtrim0 pad) + k)%nat = Z.to_nat scale)
    by (apply (f_equal String.length) in Hk;
        rewrite string_length_app, string_length_zeros in Hk; lia).
  rewrite parse_plain_decimal by done.
  rewrite scaled_value_short by (done || lia).
  replace (Z.to_nat scale - String.length (rtrim0 pad))%nat with k by lia.
  rewrite <-Hk. f_equal. rewrite digits_value_app by done.
  rewrite digits_value_nat_string, Hpl, Hpv, Z2Nat.id by lia. lia.
Qed.
End Theorems.

(** ** No sign slips through *)

Section Sign.
Context {UT : UnicodeTables}.

Lemma string_forallb_stake f n s : string_forallb f s = true → string_forallb f (stake n s) = true.
Proof.
  revert s. induction n as [|n IH]; intros [|c s]; simpl; try done.
  intros [H1 H2]%andb_true_iff. by rewrite H1, IH.
Qed.

Lemma parseUnsigned_nonneg s scale n : parseUnsigned s scale = Ok n → 0 ≤ n.
Proof.
  unfold parseUnsigned. case_bool_decide; [done|].
  destruct (match split_byte 46 s with Some (i, f) => (i, f, true) | None => (s, "", false) end)
    as [[i f] dot] eqn:Es.
  destruct (dot && _); [done|]. destruct (bool_decide (i = "") && _); [done|].
  set (i' := if bool_decide (i = "") then "0" else i).
  destruct (negb (isDigits i') || _) eqn:Ed; [done|]. destruct ((scale <? String.length f)%nat && negb _); [done|].
  apply orb_false_iff in Ed as [Hi%negb_false_iff Hf].
  assert (Hid : string_forallb is_digit i' = true) by (destruct i'; [done|exact Hi]).
  assert (Hfd : string_forallb is_digit f = true).
  { destruct dot; [|destruct (split_byte 46 s) as [[? ?]|]; by simplify_eq].
    simpl in Hf. destruct f as [|c f]; [done|]. rewrite bool_decide_false in Hf by done. simpl in Hf.
    by apply negb_false_iff in Hf. }
  set (f' := if (scale <? String.length f)%nat then stake scale f else f).
  assert (Hfd' : string_forallb is_digit f' = true)
    by (unfold f'; destruct (_ <? _)%nat; [by apply string_forallb_stake|done]).
  rewrite SetString_combined by (by rewrite !string_forallb_app, Hid, Hfd', zeros_digits).
  intros [= <-]. apply digits_value_bound. by rewrite !string_forallb_app, Hid, Hfd', zeros_digits.
Qed.
End Sign.

(** ** The properties *)

Section Properties.
Context {UT : UnicodeTables}.

(** Amounts are read exactly or refused.  A decimal with whole part [i] and
    fraction [f] parses to [n] base units if and only if [n] is the number it
    denotes times 10^decimals, on the nose; when there is no such integer the
    only answer is the precision error. *)
Theorem amount_parsed_exactly i f dec n :
  string_forallb is_digit i = true → string_forallb is_digit f = true → i ≠ "" → 0 ≤ dec →
  (ParseTokenAmount (i +:+ "." +:+ f) dec = Ok n ↔
   n * 10 ^ Z.of_nat (String.length f) = digits_value 10 (i +:+ f) * 10 ^ dec) ∧
  (is_ok (ParseTokenAmount (i +:+ "." +:+ f) dec) = false →
   ParseTokenAmount (i +:+ "." +:+ f) dec = Err ExcessPrecision).
Proof.
  intros Hi Hf Hne Hd. unfold ParseTokenAmount. rewrite parse_plain_decimal by done.
  unfold scaled_value. rewrite Z2Nat.id by done.
  set (a := digits_value 10 (i +:+ f) * 10 ^ dec). set (b := 10 ^ Z.of_nat (String.length f)).
  assert (Hb : 0 < b) by (apply Z.pow_pos_nonneg; lia).
  destruct (Z.eqb_spec (a mod b) 0) as [Hz|Hz]; split; try done.
  - pose proof (Z.div_mod a b ltac:(lia)) as Hdm. split; [intros [= <-]; lia|].
    intros H. f_equal. rewrite <-H. by rewrite Z.div_mul by lia.
  - split; [done|]. intros H. exfalso. apply Hz. rewrite <-H. apply Z.mod_mul. lia.
Qed.

(** Formatting loses nothing.  Every non-negative amount of wei printed in
    wei, gwei or eth, and every token amount at any number of decimals, parses
    back to the same integer. *)
Theorem format_parse_roundtrip n u dec :
  0 ≤ n → 0 ≤ dec → is_Some (decimals u) →
  ParseAmount (FormatAmount n u) u = Ok n ∧
  ParseTokenAmount (FormatTokenAmount (Some n) dec) dec = Ok n.
Proof.
  intros Hn Hd [d Hu]. split; [|by apply parse_formatBase].
  unfold ParseAmount, FormatAmount. rewrite Hu. apply parse_formatBase; [done|].
  unfold decimals in Hu. repeat case_match; simplify_eq; lia.
Qed.

(** No input yields a negative amount.  Whatever the string and the unit, a
    successful parse is at least zero. *)
Theorem parsed_amount_nonnegative s u n : ParseAmount s u = Ok n → 0 ≤ n.
Proof.
  unfold ParseAmount. destruct (decimals u) as [d|]; [|done]. unfold parseDecimalToBase.
  destruct (TrimSpace s) as [|c t]; [done|]. destruct (byteZ c =? 43); [apply parseUnsigned_nonneg|].
  destruct (byteZ c =? 45); [done|]. apply parseUnsigned_nonneg.
Qed.
End Properties.

Section Witnesses.
#[local] Existing Instance ascii_tables.

Lemma amount_parsed_exactly_witness :
  (ParseTokenAmount "1.25" 6 = Ok 1250000 ↔ 1250000 * 10 ^ 2 = digits_value 10 "125" * 10 ^ 6) ∧
  (is_ok (ParseTokenAmount "1.25" 6) = false → ParseTokenAmount "1.25" 6 = Err ExcessPrecision).
Proof.
  apply (amount_parsed_exactly "1" "25" 6 1250000).
  - reflexivity.
  - reflexivity.
  - discriminate.
  - lia.
Defined.

Lemma format_parse_roundtrip_witness :
  ParseAmount (FormatAmount 1500000000 Gwei) Gwei = Ok 1500000000 ∧
  ParseTokenAmount (FormatTokenAmount (Some 1500000000) 6) 6 = Ok 1500000000.
Proof.
  apply (format_parse_roundtrip 1500000000 Gwei 6).
  - lia.
  - lia.
  - eexists. reflexivity.
Defined.

Lemma parsed_amount_nonnegative_witness : 0 ≤ 2500000000.
Proof. apply (parsed_amount_nonnegative "2.5" Gwei). reflexivity. Defined.
End Witnesses.
