(* ===== verification/Encodings.v ===== *)
(** * Lines, UTF-8 and base64

    The JSON lines of the two stores behind the class [LineCodec], what
    [for _, r := range s] and [encoding/json] do with the bytes of a string, and
    [base64.StdEncoding]. *)

From S2P Require Import Prelude GoStrings Decimal.

(** ** JSON lines

    Both stores keep one JSON document per line.  [encoding/json] is the class
    [LineCodec]: a record encodes to an object in braces without a line feed,
    and decoding gives the record back.  The last section is an instance by
    hexadecimal fields, with which the witnesses evaluate. *)

Local Open Scope string_scope.
Local Open Scope Z_scope.

(** ** The codec *)

Definition no_lf (s : string) : bool := string_forallb (λ c, negb (byteZ c =? 10)) s.

Class LineCodec (A : Type) := {
  encode_line : A → string;
  decode_line : string → option A;
  decode_encode : ∀ a, decode_line (encode_line a) = Some a;
  encode_no_lf : ∀ a, no_lf (encode_line a) = true;
  encode_braces : ∀ a, ∃ m, encode_line a = "{" +:+ m +:+ "}";
}.

Definition LF : string := String (Zbyte 10) "".

(** the bytes of complete lines *)
Definition unlines (ls : list string) : string := foldr (λ l b, l +:+ LF +:+ b) "" ls.

Lemma unlines_app l k : unlines (l ++ k) = unlines l +:+ unlines k.
Proof.
  induction l as [|x l IH]; [done|]. cbn [unlines foldr app]. fold (unlines (l ++ k)) (unlines l).
  by rewrite IH, !string_app_assoc.
Qed.

Section Codec.
Context {A : Type} {RC : LineCodec A}.

Lemma encode_nonempty a : encode_line a ≠ "".
Proof. destruct (encode_braces a) as [m ->]. by rewrite string_app_cons. Qed.

(** A JSON object has no space around it to trim. *)
Lemma encode_trim `{UnicodeTables} a : TrimSpace (encode_line a) = encode_line a.
Proof.
  destruct (encode_braces a) as [m ->].
  assert (E : srev ("{" +:+ m +:+ "}") = "}" +:+ (srev m +:+ "{")).
  { rewrite !srev_app. change (srev "}") with "}". change (srev "{") with "{".
    by rewrite string_app_assoc. }
  change (TrimSpace ("{" +:+ m +:+ "}")) with (trim_right_rev (srev ("{" +:+ m +:+ "}"))).
  rewrite E. change (trim_right_rev ("}" +:+ (srev m +:+ "{"))) with (srev ("}" +:+ (srev m +:+ "{"))).
  rewrite <-E. apply srev_involutive.
Qed.
End Codec.

#[export] Hint Resolve encode_no_lf encode_nonempty : daxie.

(** ** A reference codec: hexadecimal fields *)

Definition hex_byte (c : Ascii.ascii) (rest : string) : string :=
  String (digit_char (byteZ c / 16)) (String (digit_char (byteZ c mod 16)) rest).

Fixpoint enc_field (s rest : string) : string :=
  match s with
  | "" => String (Zbyte 44) rest
  | String c s => hex_byte c (enc_field s rest)
  end.

Definition enc_fields (l : list string) : string := foldr enc_field "}" l.

(** [cur] is the field read so far, reversed *)
Fixpoint dec_fields (cur s : string) : option (list string) :=
  match s with
  | "" => None
  | String c s =>
      if byteZ c =? 44 then cons (srev cur) <$> dec_fields "" s
      else if byteZ c =? 125 then if bool_decide (s = "" ∧ cur = "") then Some [] else None
      else match s with
           | "" => None
           | String d s =>
               match digit_val 16 c, digit_val 16 d with
               | Some x, Some y => dec_fields (String (Zbyte (16 * x + y)) cur) s
               | _, _ => None
               end
           end
  end.

Lemma digit_char16_not k : 0 ≤ k < 16 →
  byteZ (digit_char k) ≠ 10 ∧ byteZ (digit_char k) ≠ 44 ∧ byteZ (digit_char k) ≠ 125.
Proof.
  intros Hk. unfold digit_char. destruct (Z.ltb_spec k 10); rewrite byteZ_Zbyte; lia.
Qed.

Lemma dec_enc_field s cur rest :
  dec_fields cur (enc_field s rest) = cons (srev cur +:+ s) <$> dec_fields "" rest.
Proof.
  revert cur. induction s as [|c s IH]; intros cur.
  - simpl enc_field. cbn [dec_fields]. rewrite byteZ_Zbyte by lia. simpl.
    by rewrite string_app_nil_r.
  - pose proof (byteZ_range c) as Hc.
    assert (H1 : 0 ≤ byteZ c / 16 < 16) by zlia. assert (H2 : 0 ≤ byteZ c mod 16 < 16) by zlia.
    cbn [enc_field]. unfold hex_byte. cbn [dec_fields].
    destruct (digit_char16_not _ H1) as (_ & N1 & N2).
    apply Z.eqb_neq in N1, N2. rewrite N1, N2, !digit_val_char by ((by right) || done).
    rewrite IH. replace (16 * (byteZ c / 16) + byteZ c mod 16) with (byteZ c) by zlia.
    by rewrite Zbyte_byteZ, srev_cons, string_app_assoc.
Qed.

Lemma dec_enc_fields l : dec_fields "" (enc_fields l) = Some l.
Proof.
  induction l as [|f l IH]; [done|]. cbn [enc_fields foldr]. fold (enc_fields l).
  by rewrite dec_enc_field, IH.
Qed.

Lemma enc_fields_no_lf l : no_lf (enc_fields l) = true.
Proof.
  induction l as [|f l IH]; [done|]. cbn [enc_fields foldr]. fold (enc_fields l).
  induction f as [|c f IHf]; [exact IH|]. cbn [enc_field]. unfold hex_byte, no_lf in *.
  pose proof (byteZ_range c) as Hc.
  destruct (digit_char16_not (byteZ c / 16) ltac:(zlia)) as (N1 & _).
  destruct (digit_char16_not (byteZ c mod 16) ltac:(zlia)) as (N2 & _).
  apply Z.eqb_neq in N1, N2. cbn [string_forallb]. by rewrite N1, N2.
Qed.

Lemma enc_fields_brace l : ∃ m, enc_fields l = m +:+ "}".
Proof.
  induction l as [|f l [m IH]]; [by exists ""|]. cbn [enc_fields foldr]. fold (enc_fields l). rewrite IH.
  induction f as [|c f [m' IHf]].
  - exists (String (Zbyte 44) m). done.
  - exists (hex_byte c m'). cbn [enc_field]. by rewrite IHf.
Qed.

(** Any type that is a list of strings has the codec. *)
Section FieldCodec.
Context {A : Type} (to : A → list string) (from : list string → option A).
Hypothesis from_to : ∀ a, from (to a) = Some a.

Definition field_encode (a : A) : string := "{" +:+ enc_fields (to a).
Definition field_decode (s : string) : option A :=
  match s with
  | "" => None
  | String _ s => match dec_fields "" s with Some l => from l | None => None end
  end.

Lemma field_decode_encode a : field_decode (field_encode a) = Some a.
Proof. unfold field_encode. rewrite string_app_cons. simpl. rewrite string_app_nil_l, dec_enc_fields. apply from_to. Qed.
Lemma field_no_lf a : no_lf (field_encode a) = true.
Proof. unfold field_encode, no_lf. rewrite string_forallb_app. apply enc_fields_no_lf. Qed.
Lemma field_braces a : ∃ m, field_encode a = "{" +:+ m +:+ "}".
Proof. unfold field_encode. destruct (enc_fields_brace (to a)) as [m ->]. by exists m. Qed.

Definition field_codec : LineCodec A := {|
  encode_line := field_encode; decode_line := field_decode;
  decode_encode := field_decode_encode; encode_no_lf := field_no_lf; encode_braces := field_braces;
|}.
End FieldCodec.

(** options as fields *)
Definition opt_field (o : option string) : string :=
  match o with None => "" | Some s => String (Zbyte 43) s end.
Definition field_opt (s : string) : option string :=
  match s with "" => None | String _ s => Some s end.

Lemma field_opt_field o : field_opt (opt_field o) = o.
Proof. by destruct o. Qed.

(** ** UTF-8

    What [for _, r := range s] and [encoding/json] do with the bytes of a
    string: a maximal valid encoding is one code point, and every byte that
    starts none is read as U+FFFD.  [coerce] is the string with those bytes
    replaced by the encoding of U+FFFD; a string is valid UTF-8 when that
    changes nothing. *)

Local Open Scope string_scope.
Local Open Scope Z_scope.

Definition between (lo hi : Z) (c : Ascii.ascii) : bool := (lo <=? byteZ c) && (byteZ c <=? hi).
Definition continuation (c : Ascii.ascii) : bool := between 128 191 c.

(** the acceptance ranges of package unicode/utf8 *)
Definition two (a b : Ascii.ascii) : bool := between 194 223 a && continuation b.
Definition three (a b c : Ascii.ascii) : bool :=
  (if byteZ a =? 224 then between 160 191 b
   else if byteZ a =? 237 then between 128 159 b
   else between 225 239 a && continuation b) && continuation c.
Definition four (a b c d : Ascii.ascii) : bool :=
  (if byteZ a =? 240 then between 144 191 b
   else if byteZ a =? 244 then between 128 143 b
   else between 241 243 a && continuation b) && continuation c && continuation d.

(** utf8.RuneError, encoded *)
Definition rune_error (rest : string) : string :=
  String (Zbyte 239) (String (Zbyte 191) (String (Zbyte 189) rest)).

Fixpoint coerce (s : string) : string :=
  match s with
  | "" => ""
  | String a r =>
      if is_ascii_byte a then String a (coerce r) else
      match r with
      | String b r2 =>
          if two a b then String a (String b (coerce r2)) else
          match r2 with
          | String c r3 =>
              if three a b c then String a (String b (String c (coerce r3))) else
              match r3 with
              | String d r4 =>
                  if four a b c d then String a (String b (String c (String d (coerce r4))))
                  else rune_error (coerce r)
              | "" => rune_error (coerce r)
              end
          | "" => rune_error (coerce r)
          end
      | "" => rune_error (coerce r)
      end
  end.

Definition valid_utf8 (s : string) : bool := bool_decide (coerce s = s).

(** utf8.AppendRune *)
Definition encode_rune (r : Z) : string :=
  let cont n := Zbyte (128 + n mod 64) in
  if r <? 128 then String (Zbyte r) ""
  else if r <? 2048 then String (Zbyte (192 + r / 64)) (String (cont r) "")
  else if (1114111 <? r) || ((55296 <=? r) && (r <=? 57343)) then rune_error ""
  else if r <? 65536
  then String (Zbyte (224 + r / 4096)) (String (cont (r / 64)) (String (cont r) ""))
  else String (Zbyte (240 + r / 262144))
         (String (cont (r / 4096)) (String (cont (r / 64)) (String (cont r) ""))).

(** ** Facts *)

Lemma string_len_ind (P : string → Prop) :
  (∀ s, (∀ t, (String.length t < String.length s)%nat → P t) → P s) → ∀ s, P s.
Proof.
  intros H s. remember (String.length s) as n eqn:Hn. revert s Hn.
  induction n as [n IH] using lt_wf_ind. intros s ->. apply H. intros t Ht. by eapply IH.
Qed.

(** the error rune is no reading of a byte that starts nothing *)
Lemma rune_error_not_self a r x :
  (∀ b r2 c r3, r = String b r2 → r2 = String c r3 → three a b c = false) →
  rune_error x ≠ String a r.
Proof.
  intros H Heq. unfold rune_error in Heq. injection Heq as <- <-.
  specialize (H _ _ _ _ eq_refl eq_refl). by vm_compute in H.
Qed.

Lemma coerce_app x y : coerce x = x → coerce (x +:+ y) = x +:+ coerce y.
Proof.
  induction x as [x IH] using string_len_ind. destruct x as [|a r]; [done|].
  assert (Hr : ∀ t, (String.length t ≤ String.length r)%nat → coerce t = t →
                    coerce (t +:+ y) = t +:+ coerce y).
  { intros t Ht. apply IH. simpl. lia. }
  clear IH. intros Hx. rewrite string_app_cons. simpl in Hx |- *.
  destruct (is_ascii_byte a).
  { injection Hx as Hx. by rewrite Hr by done. }
  destruct r as [|b r2]; [by apply rune_error_not_self in Hx|].
  rewrite string_app_cons. destruct (two a b).
  { injection Hx as Hx. rewrite Hr by (done || (simpl; lia)). by rewrite !string_app_cons. }
  destruct r2 as [|c r3]; [by apply rune_error_not_self in Hx|].
  rewrite string_app_cons. destruct (three a b c) eqn:E3.
  { injection Hx as Hx. rewrite Hr by (done || (simpl; lia)). by rewrite !string_app_cons. }
  destruct r3 as [|d r4].
  { apply rune_error_not_self in Hx; [done|]. intros ? ? ? ? [= <- <-] [= <- <-]. done. }
  rewrite string_app_cons. destruct (four a b c d).
  { injection Hx as Hx. rewrite Hr by (done || (simpl; lia)). by rewrite !string_app_cons. }
  apply rune_error_not_self in Hx; [done|]. intros ? ? ? ? [= <- <-] [= <- <-]. done.
Qed.

Lemma coerce_idemp s : coerce (coerce s) = coerce s.
Proof.
  induction s as [s IH] using string_len_ind. destruct s as [|a r]; [done|].
  assert (Hr : ∀ t, (String.length t ≤ String.length r)%nat → coerce (coerce t) = coerce t).
  { intros t Ht. apply IH. simpl. lia. }
  clear IH. assert (He : coerce (rune_error (coerce r)) = rune_error (coerce r)).
  { rewrite <-(Hr r) at 2 by done. reflexivity. }
  cbn [coerce]. destruct (is_ascii_byte a) eqn:Ea; [cbn [coerce]; by rewrite Ea, Hr|].
  destruct r as [|b r2]; [exact He|]. destruct (two a b) eqn:E2.
  { cbn [coerce]. rewrite Ea, E2, Hr by (simpl; lia). done. }
  destruct r2 as [|c r3]; [exact He|]. destruct (three a b c) eqn:E3.
  { cbn [coerce]. rewrite Ea, E2, E3, Hr by (simpl; lia). done. }
  destruct r3 as [|d r4]; [exact He|]. destruct (four a b c d) eqn:E4; [|exact He].
  cbn [coerce]. rewrite Ea, E2, E3, E4, Hr by (simpl; lia). done.
Qed.

Lemma valid_utf8_coerce s : valid_utf8 s = true → coerce s = s.
Proof. apply bool_decide_eq_true. Qed.

Lemma valid_utf8_app x y : valid_utf8 x = true → valid_utf8 y = true → valid_utf8 (x +:+ y) = true.
Proof.
  unfold valid_utf8. rewrite !bool_decide_eq_true. intros Hx Hy. by rewrite coerce_app, Hy.
Qed.

Lemma valid_utf8_ascii s : is_ascii s = true → valid_utf8 s = true.
Proof.
  unfold valid_utf8. rewrite bool_decide_eq_true. induction s as [|c s IH]; [done|].
  unfold is_ascii. cbn [string_forallb]. intros [Hc Hs]%andb_true_iff. simpl. by rewrite Hc, IH.
Qed.

#[export] Hint Resolve valid_utf8_app valid_utf8_ascii : daxie.

Definition high_byte (c : Ascii.ascii) : bool := 128 <=? byteZ c.

Lemma two_high a b : two a b = true → high_byte a = true ∧ high_byte b = true.
Proof. unfold two, high_byte, continuation, between. intros H. bool_prop. lia. Qed.

Lemma three_high a b c : three a b c = true → high_byte a = true ∧ high_byte b = true ∧ high_byte c = true.
Proof.
  unfold three, high_byte, continuation, between. intros H.
  destruct (Z.eqb_spec (byteZ a) 224), (Z.eqb_spec (byteZ a) 237); bool_prop; lia.
Qed.

Lemma four_high a b c d :
  four a b c d = true → high_byte a = true ∧ high_byte b = true ∧ high_byte c = true ∧ high_byte d = true.
Proof.
  unfold four, high_byte, continuation, between. intros H.
  destruct (Z.eqb_spec (byteZ a) 240), (Z.eqb_spec (byteZ a) 244); bool_prop; lia.
Qed.

(** a valid string is a sequence of ASCII bytes and of encodings above ASCII *)
Lemma valid_utf8_ind (P : string → Prop) :
  P "" →
  (∀ c r, is_ascii_byte c = true → valid_utf8 r = true → P r → P (String c r)) →
  (∀ u r, valid_utf8 u = true → string_forallb high_byte u = true → valid_utf8 r = true → P r → P (u +:+ r)) →
  ∀ s, valid_utf8 s = true → P s.
Proof.
  intros H0 H1 H2 s. induction s as [s IH] using string_len_ind. intros Hs%valid_utf8_coerce.
  destruct s as [|a r]; [done|]. simpl in Hs. destruct (is_ascii_byte a) eqn:Ea.
  { injection Hs as Hs. apply H1; [done|by apply bool_decide_eq_true|].
    apply IH; [simpl; lia|by apply bool_decide_eq_true]. }
  assert (Hgo : ∀ u t, String a r = u +:+ t → u ≠ "" → coerce t = t → coerce u = u →
                       string_forallb high_byte u = true → P (String a r)).
  { intros u t E Hu Ht Hc Hh. rewrite E.
    assert (Hl : (String.length t < String.length (String a r))%nat)
      by (rewrite E, string_length_app; destruct u; [done|simpl; lia]).
    apply H2; [by apply bool_decide_eq_true|done|by apply bool_decide_eq_true|].
    apply IH; [done|by apply bool_decide_eq_true]. }
  destruct r as [|b r2]; [by apply rune_error_not_self in Hs|].
  destruct (two a b) eqn:E2.
  { injection Hs as Hs. apply (Hgo (String a (String b "")) r2); try done.
    - simpl. by rewrite Ea, E2.
    - apply two_high in E2 as [Ha Hb]. simpl. by rewrite Ha, Hb. }
  destruct r2 as [|c r3]; [by apply rune_error_not_self in Hs|].
  destruct (three a b c) eqn:E3.
  { injection Hs as Hs. apply (Hgo (String a (String b (String c ""))) r3); try done.
    - simpl. by rewrite Ea, E2, E3.
    - apply three_high in E3 as (Ha & Hb & Hc). simpl. by rewrite Ha, Hb, Hc. }
  assert (Hno : ∀ b' r2' c' r3', String b (String c r3) = String b' r2' → r2' = String c' r3' → three a b' c' = false)
    by (intros ? ? ? ? [= <- <-] [= <- <-]; done).
  destruct r3 as [|d r4]; [by apply rune_error_not_self in Hs|].
  destruct (four a b c d) eqn:E4; [|by apply rune_error_not_self in Hs].
  injection Hs as Hs. apply (Hgo (String a (String b (String c (String d "")))) r4); try done.
  - simpl. by rewrite Ea, E2, E3, E4.
  - apply four_high in E4 as (Ha & Hb & Hc & Hd). simpl. by rewrite Ha, Hb, Hc, Hd.
Qed.

(** ** Base64

    [base64.StdEncoding]: the encoder with padding, and the decoder, which skips
    line breaks anywhere and does not look at the unused bits of the last
    group. *)

Local Open Scope string_scope.
Local Open Scope Z_scope.

Definition b64_char (v : Z) : Ascii.ascii :=
  Zbyte (if v <? 26 then 65 + v else if v <? 52 then 71 + v else if v <? 62 then v - 4
         else if v =? 62 then 43 else 47).

Definition b64_val (c : Ascii.ascii) : option Z :=
  let b := byteZ c in
  if (65 <=? b) && (b <=? 90) then Some (b - 65)
  else if (97 <=? b) && (b <=? 122) then Some (b - 71)
  else if (48 <=? b) && (b <=? 57) then Some (b + 4)
  else if b =? 43 then Some 62
  else if b =? 47 then Some 63
  else None.

Definition pad : Ascii.ascii := Zbyte 61.

(** EncodeToString *)
Fixpoint EncodeToString (s : string) : string :=
  match s with
  | "" => ""
  | String a "" =>
      let a := byteZ a in
      String (b64_char (a / 4)) (String (b64_char (a mod 4 * 16)) (String pad (String pad "")))
  | String a (String b "") =>
      let a := byteZ a in let b := byteZ b in
      String (b64_char (a / 4)) (String (b64_char (a mod 4 * 16 + b / 16))
        (String (b64_char (b mod 16 * 4)) (String pad "")))
  | String a (String b (String c r)) =>
      let a := byteZ a in let b := byteZ b in let c := byteZ c in
      String (b64_char (a / 4)) (String (b64_char (a mod 4 * 16 + b / 16))
        (String (b64_char (b mod 16 * 4 + c / 64)) (String (b64_char (c mod 64)) (EncodeToString r))))
  end.

Fixpoint drop_breaks (s : string) : string :=
  match s with
  | "" => ""
  | String c s => if (byteZ c =? 10) || (byteZ c =? 13) then drop_breaks s else String c (drop_breaks s)
  end.

Fixpoint decode_quads (s : string) : option string :=
  match s with
  | "" => Some ""
  | String a (String b (String c (String d r))) =>
      match b64_val a, b64_val b with
      | Some w, Some x =>
          let first := Zbyte (w * 4 + x / 16) in
          match b64_val c with
          | Some y =>
              let second := Zbyte (x mod 16 * 16 + y / 4) in
              match b64_val d with
              | Some z =>
                  match decode_quads r with
                  | Some t => Some (String first (String second (String (Zbyte (y mod 4 * 64 + z)) t)))
                  | None => None
                  end
              | None => if (byteZ d =? 61) && bool_decide (r = "") then Some (String first (String second "")) else None
              end
          | None =>
              if (byteZ c =? 61) && (byteZ d =? 61) && bool_decide (r = "") then Some (String first "") else None
          end
      | _, _ => None
      end
  | _ => None
  end.

(** DecodeString *)
Definition DecodeString (s : string) : option string := decode_quads (drop_breaks s).

(** ** The round trip *)

Lemma b64_char_byte v : 0 ≤ v < 64 →
  byteZ (b64_char v) =
  if v <? 26 then 65 + v else if v <? 52 then 71 + v else if v <? 62 then v - 4 else if v =? 62 then 43 else 47.
Proof. intros Hv. unfold b64_char. apply byteZ_Zbyte. zcases; lia. Qed.

Lemma b64_val_char v : 0 ≤ v < 64 → b64_val (b64_char v) = Some v.
Proof.
  intros Hv. unfold b64_val. rewrite b64_char_byte by done.
  destruct (Z.ltb_spec v 26), (Z.ltb_spec v 52), (Z.ltb_spec v 62), (Z.eqb_spec v 62); try lia;
    repeat (match goal with
      | |- context [(?a <=? ?b) && (?c <=? ?d)] =>
          destruct (Z.leb_spec a b), (Z.leb_spec c d); try lia; cbn [andb]
      | |- context [?a =? ?b] => destruct (Z.eqb_spec a b); try lia
      end); f_equal; lia.
Qed.

Lemma b64_char_kept v rest : 0 ≤ v < 64 → drop_breaks (String (b64_char v) rest) = String (b64_char v) (drop_breaks rest).
Proof.
  intros Hv. cbn [drop_breaks]. rewrite b64_char_byte by done.
  match goal with |- context [?x =? 10] => assert (43 ≤ x) by (zcases; lia); destruct (Z.eqb_spec x 10), (Z.eqb_spec x 13) end;
    [lia..|done].
Qed.

Lemma decode_encode_string s : DecodeString (EncodeToString s) = Some s.
Proof.
  unfold DecodeString. induction s as [s IH] using string_len_ind.
  destruct s as [|a [|b [|c r]]]; [done|..]; cbn [EncodeToString];
    pose proof (byteZ_range a); try pose proof (byteZ_range b); try pose proof (byteZ_range c);
    rewrite !b64_char_kept by zlia; change (drop_breaks (String pad ?x)) with (String pad (drop_breaks x));
    cbn [decode_quads drop_breaks]; rewrite !b64_val_char by zlia.
  - cbn [b64_val byteZ]. change (b64_val pad) with (@None Z). simpl.
    replace (byteZ a / 4 * 4 + byteZ a mod 4 * 16 / 16) with (byteZ a) by zlia. by rewrite Zbyte_byteZ.
  - change (b64_val pad) with (@None Z). simpl.
    replace (byteZ a / 4 * 4 + (byteZ a mod 4 * 16 + byteZ b / 16) / 16) with (byteZ a) by zlia.
    replace ((byteZ a mod 4 * 16 + byteZ b / 16) mod 16 * 16 + byteZ b mod 16 * 4 / 4) with (byteZ b) by zlia.
    by rewrite !Zbyte_byteZ.
  - rewrite IH by (simpl; lia).
    replace (byteZ a / 4 * 4 + (byteZ a mod 4 * 16 + byteZ b / 16) / 16) with (byteZ a) by zlia.
    replace ((byteZ a mod 4 * 16 + byteZ b / 16) mod 16 * 16 + (byteZ b mod 16 * 4 + byteZ c / 64) / 4)
      with (byteZ b) by zlia.
    replace ((byteZ b mod 16 * 4 + byteZ c / 64) mod 4 * 64 + byteZ c mod 64) with (byteZ c) by zlia.
    by rewrite !Zbyte_byteZ.
Qed.

(** the alphabet needs no escape in a JSON or Go string *)
Definition b64_byte (c : Ascii.ascii) : bool :=
  bool_decide (is_Some (b64_val c)) || (byteZ c =? 61).

Lemma b64_char_ok v : 0 ≤ v < 64 → b64_byte (b64_char v) = true.
Proof. intros Hv. unfold b64_byte. by rewrite b64_val_char. Qed.

Lemma encode_alphabet s : string_forallb b64_byte (EncodeToString s) = true.
Proof.
  induction s as [s IH] using string_len_ind.
  destruct s as [|a [|b [|c r]]]; [done|..]; cbn [EncodeToString string_forallb];
    pose proof (byteZ_range a); try pose proof (byteZ_range b); try pose proof (byteZ_range c);
    rewrite !b64_char_ok by zlia; [done|done|]. apply IH. simpl. lia.
Qed.
