(* ===== verification/Json.v ===== *)
(** * JSON

    The part of [encoding/json] the sealed files rest on: the grammar of a JSON
    text, read into a tree, and the writer [jsonString] of
    [internal/policy/file.go].  A tree keeps the members of an object in order,
    duplicates included, and a number as its literal.  [render] is the compact
    text of a tree; [parse_render], in the second half, is the round trip.

    The nesting limit of the library (10000 levels) is not modelled. *)

From S2P Require Import Prelude GoStrings Decimal Encodings.

Local Open Scope string_scope.
Local Open Scope Z_scope.
Local Open Scope list_scope.

Inductive json :=
| JNull
| JBool (b : bool)
| JNum (lit : string)
| JStr (s : string)
| JArr (l : list json)
| JObj (ms : list (string * json)).

(** ** Reading *)

Definition is_ws (c : Ascii.ascii) : bool :=
  (byteZ c =? 32) || (byteZ c =? 9) || (byteZ c =? 10) || (byteZ c =? 13).

Fixpoint skip_ws (s : string) : string :=
  match s with
  | String c r => if is_ws c then skip_ws r else s
  | "" => ""
  end.

(** the four hexadecimal digits of an escape *)
Definition u4 (s : string) : option (Z * string) :=
  match s with
  | String a (String b (String c (String d r))) =>
      match digit_val 16 a, digit_val 16 b, digit_val 16 c, digit_val 16 d with
      | Some w, Some x, Some y, Some z => Some (((w * 16 + x) * 16 + y) * 16 + z, r)
      | _, _, _, _ => None
      end
  | _ => None
  end.

(** getu4: an escape at the head of the text *)
Definition getu4 (s : string) : option (Z * string) :=
  match s with
  | String a (String b r) => if (byteZ a =? 92) && (byteZ b =? 117) then u4 r else None
  | _ => None
  end.

Definition unescape (c : Ascii.ascii) : option Ascii.ascii :=
  let b := byteZ c in
  if (b =? 34) || (b =? 92) || (b =? 47) then Some c
  else if b =? 98 then Some (Zbyte 8)
  else if b =? 102 then Some (Zbyte 12)
  else if b =? 110 then Some (Zbyte 10)
  else if b =? 114 then Some (Zbyte 13)
  else if b =? 116 then Some (Zbyte 9)
  else None.

Definition prepend (x : string) (o : option (string * string)) : option (string * string) :=
  match o with Some (s, r) => Some (x +:+ s, r) | None => None end.

(** a string, from behind its opening quote *)
Fixpoint parse_str (n : nat) (s : string) : option (string * string) :=
  match n, s with
  | S n, String c r =>
      if byteZ c =? 34 then Some ("", r)
      else if byteZ c =? 92 then
        match r with
        | "" => None
        | String e r =>
            if byteZ e =? 117 then
              match u4 r with
              | None => None
              | Some (hi, r) =>
                  if (55296 <=? hi) && (hi <=? 57343) then
                    match getu4 r with
                    | Some (lo, r') =>
                        if (hi <=? 56319) && (56320 <=? lo) && (lo <=? 57343)
                        then prepend (encode_rune ((hi - 55296) * 1024 + (lo - 56320) + 65536)) (parse_str n r')
                        else prepend (rune_error "") (parse_str n r)
                    | None => prepend (rune_error "") (parse_str n r)
                    end
                  else prepend (encode_rune hi) (parse_str n r)
              end
            else match unescape e with
                 | Some x => prepend (String x "") (parse_str n r)
                 | None => None
                 end
        end
      else if byteZ c <? 32 then None
      else prepend (String c "") (parse_str n r)
  | _, _ => None
  end.

Definition is_num_char (c : Ascii.ascii) : bool :=
  is_digit c || (byteZ c =? 45) || (byteZ c =? 43) || (byteZ c =? 46) || (byteZ c =? 101) || (byteZ c =? 69).

Fixpoint span (f : Ascii.ascii → bool) (s : string) : string * string :=
  match s with
  | "" => ("", "")
  | String c r => if f c then let '(x, y) := span f r in (String c x, y) else ("", s)
  end.

Definition one_digit (s : string) : bool := match s with String c _ => is_digit c | "" => false end.

(** the exponent and the fraction of a number literal, which end the literal *)
Definition valid_exp (s : string) : bool :=
  match s with
  | "" => true
  | String e r =>
      ((byteZ e =? 101) || (byteZ e =? 69)) &&
      let r := match r with String c r' => if (byteZ c =? 43) || (byteZ c =? 45) then r' else r | "" => r end in
      one_digit r && bool_decide ((span is_digit r).2 = "")
  end.

Definition valid_frac (s : string) : bool :=
  match s with
  | String c r =>
      if byteZ c =? 46 then one_digit r && valid_exp (span is_digit r).2 else valid_exp s
  | "" => true
  end.

Definition valid_number (s : string) : bool :=
  let s := match s with String c r => if byteZ c =? 45 then r else s | "" => s end in
  match s with
  | String c r =>
      if byteZ c =? 48 then valid_frac r
      else is_digit c && valid_frac (span is_digit r).2
  | "" => false
  end.

Definition parse_num (s : string) : option (json * string) :=
  let '(lit, r) := span is_num_char s in
  if valid_number lit then Some (JNum lit, r) else None.

Fixpoint strip (p s : string) : option string :=
  match p, s with
  | "", _ => Some s
  | String a p, String b s => if byteZ a =? byteZ b then strip p s else None
  | String _ _, "" => None
  end.

(** a value that is neither an object nor an array nor a string *)
Definition parse_atom (s : string) : option (json * string) :=
  match strip "null" s, strip "true" s, strip "false" s with
  | Some r, _, _ => Some (JNull, r)
  | _, Some r, _ => Some (JBool true, r)
  | _, _, Some r => Some (JBool false, r)
  | _, _, _ => parse_num s
  end.

Definition head_is (b : Z) (s : string) : option string :=
  match s with String c r => if byteZ c =? b then Some r else None | "" => None end.

Definition quoted (s : string) : option (string * string) :=
  match head_is 34 s with Some r => parse_str (S (String.length r)) r | None => None end.

(** Recursive descent: [n] bounds the calls.  Members and elements are read from
    behind the opening bracket or a comma. *)
Fixpoint parse_value (n : nat) (s : string) : option (json * string) :=
  match n with
  | O => None
  | S n =>
      let s := skip_ws s in
      match head_is 123 s, head_is 91 s with
      | Some r, _ =>
          match head_is 125 (skip_ws r) with
          | Some r' => Some (JObj [], r')
          | None => match parse_members n r with Some (ms, r') => Some (JObj ms, r') | None => None end
          end
      | _, Some r =>
          match head_is 93 (skip_ws r) with
          | Some r' => Some (JArr [], r')
          | None => match parse_elems n r with Some (l, r') => Some (JArr l, r') | None => None end
          end
      | _, _ =>
          match head_is 34 s with
          | Some _ => match quoted s with Some (x, r) => Some (JStr x, r) | None => None end
          | None => parse_atom s
          end
      end
  end
with parse_members (n : nat) (s : string) : option (list (string * json) * string) :=
  match n with
  | O => None
  | S n =>
      match quoted (skip_ws s) with
      | None => None
      | Some (k, r) =>
          match head_is 58 (skip_ws r) with
          | None => None
          | Some r =>
              match parse_value n r with
              | None => None
              | Some (v, r) =>
                  match head_is 44 (skip_ws r), head_is 125 (skip_ws r) with
                  | Some r, _ =>
                      match parse_members n r with Some (ms, r') => Some ((k, v) :: ms, r') | None => None end
                  | _, Some r => Some ([(k, v)], r)
                  | _, _ => None
                  end
              end
          end
      end
  end
with parse_elems (n : nat) (s : string) : option (list json * string) :=
  match n with
  | O => None
  | S n =>
      match parse_value n s with
      | None => None
      | Some (v, r) =>
          match head_is 44 (skip_ws r), head_is 93 (skip_ws r) with
          | Some r, _ => match parse_elems n r with Some (l, r') => Some (v :: l, r') | None => None end
          | _, Some r => Some ([v], r)
          | _, _ => None
          end
      end
  end.

(** json.Decoder.Decode: the first value of the text, and what follows it *)
Definition json_decode (text : string) : option (json * string) :=
  let t := coerce text in parse_value (S (2 * String.length t)) t.

(** json.Unmarshal: nothing but white space may follow *)
Definition json_parse (text : string) : option json :=
  match json_decode text with
  | Some (j, r) => if bool_decide (skip_ws r = "") then Some j else None
  | None => None
  end.

(** ** Writing *)

Definition esc (b : Z) (rest : string) : string := String (Zbyte 92) (String (Zbyte b) rest).

Fixpoint escape (s : string) : string :=
  match s with
  | "" => ""
  | String c s =>
      let b := byteZ c in
      if b =? 34 then esc 34 (escape s)
      else if b =? 92 then esc 92 (escape s)
      else if b =? 10 then esc 110 (escape s)
      else if b =? 13 then esc 114 (escape s)
      else if b =? 9 then esc 116 (escape s)
      else if b <? 32
      then esc 117 (String (Zbyte 48) (String (Zbyte 48)
             (String (digit_char (b / 16)) (String (digit_char (b mod 16)) (escape s)))))
      else String c (escape s)
  end.

(** jsonString: the rune loop writes a byte that starts no rune as U+FFFD *)
Definition jsonString (s : string) : string := dquote +:+ escape (coerce s) +:+ dquote.

Definition comma : string := String (Zbyte 44) "".

(** the compact text of a tree *)
Fixpoint render (j : json) : string :=
  match j with
  | JNull => "null"
  | JBool b => if b then "true" else "false"
  | JNum lit => lit
  | JStr s => jsonString s
  | JArr l => "[" +:+ String.concat comma (map render l) +:+ "]"
  | JObj ms => "{" +:+ String.concat comma (map (λ m, jsonString m.1 +:+ ":" +:+ render m.2) ms) +:+ "}"
  end.

(** the text of a member *)
Definition mtext (m : string * json) : string := jsonString m.1 +:+ ":" +:+ render m.2.

Lemma render_arr l : render (JArr l) = "[" +:+ String.concat comma (map render l) +:+ "]".
Proof. done. Qed.

Lemma render_obj ms : render (JObj ms) = "{" +:+ String.concat comma (map mtext ms) +:+ "}".
Proof. done. Qed.

(** ** JSON: the round trip

    The text of a well-formed tree parses back to the tree, whatever follows it,
    and no text parses in which an object is cut short behind a comma. *)

Local Open Scope string_scope.
Local Open Scope Z_scope.
Local Open Scope list_scope.

(** ** Induction over trees *)

Section Induction.
Variable P : json → Prop.
Hypotheses (Hnull : P JNull) (Hbool : ∀ b, P (JBool b)) (Hnum : ∀ l, P (JNum l)) (Hstr : ∀ s, P (JStr s))
  (Harr : ∀ l, Forall P l → P (JArr l)) (Hobj : ∀ ms, Forall (λ m, P m.2) ms → P (JObj ms)).

Lemma json_tree_ind : ∀ j, P j.
Proof.
  refine (fix go j := match j with
    | JNull => Hnull | JBool b => Hbool b | JNum l => Hnum l | JStr s => Hstr s
    | JArr l => Harr l (list_ind (Forall P) (Forall_nil_2 P) (λ x xs H, Forall_cons_2 P x xs (go x) H) l)
    | JObj ms => Hobj ms (list_ind (Forall (λ m, P m.2)) (Forall_nil_2 _)
                            (λ x xs H, Forall_cons_2 (λ m, P m.2) x xs (go x.2) H) ms)
    end).
Qed.
End Induction.

(** ** Strings *)

Lemma escape_length s : (String.length s ≤ String.length (escape s))%nat.
Proof. induction s as [|c s IH]; [done|]. simpl. repeat case_scrut; simpl; lia. Qed.

Lemma prepend_char c o : prepend (String c "") o = match o with Some (s, r) => Some (String c s, r) | None => None end.
Proof. by destruct o as [[s r]|]. Qed.

Lemma parse_str_escape s n rest :
  (String.length s < n)%nat → parse_str n (escape s +:+ dquote +:+ rest) = Some (s, rest).
Proof.
  revert n. induction s as [|c s IH]; intros n Hn; destruct n as [|n]; [simpl in Hn; lia| |simpl in Hn; lia|].
  { done. }
  assert (H : parse_str n (escape s +:+ dquote +:+ rest) = Some (s, rest)) by (apply IH; simpl in Hn; lia).
  clear IH. pose proof (byteZ_range c) as Hc. pose proof (Zbyte_byteZ c) as Hz.
  cbn [escape].
  destruct (Z.eqb_spec (byteZ c) 34) as [E|E1]; [unfold esc; rewrite !string_app_cons; cbn -[dquote prepend]; rewrite H; simpl; by rewrite <-Hz, E|].
  destruct (Z.eqb_spec (byteZ c) 92) as [E|E2]; [unfold esc; rewrite !string_app_cons; cbn -[dquote prepend]; rewrite H; simpl; by rewrite <-Hz, E|].
  destruct (Z.eqb_spec (byteZ c) 10) as [E|E3]; [unfold esc; rewrite !string_app_cons; cbn -[dquote prepend]; rewrite H; simpl; by rewrite <-Hz, E|].
  destruct (Z.eqb_spec (byteZ c) 13) as [E|E4]; [unfold esc; rewrite !string_app_cons; cbn -[dquote prepend]; rewrite H; simpl; by rewrite <-Hz, E|].
  destruct (Z.eqb_spec (byteZ c) 9) as [E|E5]; [unfold esc; rewrite !string_app_cons; cbn -[dquote prepend]; rewrite H; simpl; by rewrite <-Hz, E|].
  destruct (Z.ltb_spec (byteZ c) 32) as [L|L].
  - unfold esc. rewrite !string_app_cons. cbn [parse_str].
    rewrite !byteZ_Zbyte by lia. cbn [Z.eqb Pos.eqb u4].
    rewrite !digit_val_char by ((by right) || zlia).
    change (digit_val 16 (Zbyte 48)) with (Some 0). cbn iota.
    replace (((0 * 16 + 0) * 16 + byteZ c / 16) * 16 + byteZ c mod 16) with (byteZ c) by zlia.
    destruct (Z.leb_spec 55296 (byteZ c)); [lia|]. cbn [andb].
    unfold encode_rune. destruct (Z.ltb_spec (byteZ c) 128); [|lia]. by rewrite prepend_char, H, Hz.
  - rewrite string_app_cons. cbn [parse_str].
    destruct (Z.eqb_spec (byteZ c) 34); [lia|]. destruct (Z.eqb_spec (byteZ c) 92); [lia|].
    destruct (Z.ltb_spec (byteZ c) 32); [lia|]. by rewrite prepend_char, H.
Qed.

Lemma head_is_hit b s : 0 ≤ b < 256 → head_is b (String (Zbyte b) s) = Some s.
Proof. intros Hb. simpl. rewrite byteZ_Zbyte by done. by rewrite Z.eqb_refl. Qed.

Lemma quoted_jsonString s rest : valid_utf8 s = true → quoted (jsonString s +:+ rest) = Some (s, rest).
Proof.
  intros Hs%valid_utf8_coerce. unfold jsonString, quoted. rewrite Hs, !string_app_assoc.
  change (dquote +:+ (escape s +:+ (dquote +:+ rest))) with (String (Zbyte 34) (escape s +:+ (dquote +:+ rest))).
  rewrite head_is_hit by lia. apply parse_str_escape.
  rewrite string_length_app. pose proof (escape_length s). lia.
Qed.

(** ** Well-formed trees *)

Fixpoint wf_json (j : json) : bool :=
  match j with
  | JNum lit => valid_number lit && string_forallb is_num_char lit
  | JStr s => valid_utf8 s
  | JArr l => forallb wf_json l
  | JObj ms => forallb (λ m, valid_utf8 m.1 && wf_json m.2) ms
  | _ => true
  end.

(** the calls a tree needs *)
Fixpoint size (j : json) : nat :=
  match j with
  | JArr l => S (list_sum (map (λ j, S (size j)) l))
  | JObj ms => S (list_sum (map (λ m, S (size m.2)) ms))
  | _ => 1
  end.

(** what follows a value does not continue a number *)
Definition delim (s : string) : bool := match s with String c _ => negb (is_num_char c) | "" => true end.

Lemma span_all f s rest :
  string_forallb f s = true → match rest with String c _ => f c = false | "" => True end →
  span f (s +:+ rest) = (s, rest).
Proof.
  intros Hs Hr. induction s as [|c s IH].
  - rewrite string_app_nil_l. destruct rest as [|c r]; [done|]. simpl. by rewrite Hr.
  - cbn [string_forallb] in Hs. apply andb_true_iff in Hs as [Hc Hs].
    rewrite string_app_cons. simpl. by rewrite Hc, IH.
Qed.

Lemma valid_number_head lit :
  valid_number lit = true → ∃ c r, lit = String c r ∧ (is_digit c = true ∨ byteZ c = 45).
Proof.
  destruct lit as [|c r]; [done|]. intros H. exists c, r. split; [done|]. unfold valid_number in H.
  destruct (Z.eqb_spec (byteZ c) 45) as [E|E]; [by right|left].
  destruct (Z.eqb_spec (byteZ c) 48) as [E'|E']; [unfold is_digit; lia|].
  by apply andb_true_iff in H as [H _].
Qed.

Lemma num_head_byte c : is_digit c = true ∨ byteZ c = 45 → byteZ c = 45 ∨ 48 <= byteZ c <= 57.
Proof. unfold is_digit. intros [H|H]; [bool_prop; lia|lia]. Qed.

(** the text of a value starts with no white space and no closing bracket *)
Lemma render_head j :
  wf_json j = true → ∃ c r, render j = String c r ∧ is_ws c = false ∧ byteZ c ≠ 93 ∧ byteZ c ≠ 125.
Proof.
  destruct j as [|[]|lit|s|l|ms]; intros Hw; try (eexists _, _; split; [reflexivity|by vm_compute]).
  cbn [wf_json] in Hw. apply andb_true_iff in Hw as [Hv _].
  apply valid_number_head in Hv as (c & r & -> & H%num_head_byte).
  exists c, r. split; [done|]. unfold is_ws. split; [|lia].
  repeat (apply orb_false_iff; split); apply Z.eqb_neq; lia.
Qed.

Lemma skip_ws_head s :
  (∃ c r, s = String c r ∧ is_ws c = false) → skip_ws s = s.
Proof. intros (c & r & -> & H). simpl. by rewrite H. Qed.

Lemma skip_ws_byte b r : 0 ≤ b < 256 → is_ws (Zbyte b) = false → skip_ws (String (Zbyte b) r) = String (Zbyte b) r.
Proof. intros _ H. simpl. by rewrite H. Qed.

Lemma parse_atom_num lit rest :
  wf_json (JNum lit) = true → delim rest = true → parse_atom (lit +:+ rest) = Some (JNum lit, rest).
Proof.
  cbn [wf_json]. intros [Hv Hc]%andb_true_iff Hd.
  assert (Hs : span is_num_char (lit +:+ rest) = (lit, rest)).
  { apply span_all; [done|]. destruct rest; [done|]. by apply negb_true_iff. }
  unfold parse_atom. destruct (valid_number_head _ Hv) as (c & r & E & H%num_head_byte).
  assert (Hn : ∀ a p, byteZ a ≠ byteZ c → strip (String a p) (lit +:+ rest) = None).
  { intros a p Ha. rewrite E, string_app_cons. simpl. by destruct (Z.eqb_spec (byteZ a) (byteZ c)). }
  assert (Hb : byteZ c ≤ 57) by lia.
  rewrite !Hn by (intros E'; rewrite <-E' in Hb; by apply Hb).
  unfold parse_num. by rewrite Hs, Hv.
Qed.

Lemma head_is_miss b c r : byteZ c ≠ b → head_is b (String c r) = None.
Proof. intros H. simpl. by destruct (Z.eqb_spec (byteZ c) b). Qed.

(** ** Arrays and objects *)

Definition parses (n : nat) (j : json) : Prop :=
  ∀ rest, delim rest = true → parse_value n (render j +:+ rest) = Some (j, rest).

Lemma parse_elems_more n j tail :
  parses n j →
  parse_elems (S n) (render j +:+ comma +:+ tail) =
  match parse_elems n tail with Some (l, r) => Some (j :: l, r) | None => None end.
Proof. intros H. cbn [parse_elems]. by rewrite H. Qed.

Lemma parse_elems_last n j rest :
  parses n j → parse_elems (S n) (render j +:+ "]" +:+ rest) = Some ([j], rest).
Proof. intros H. cbn [parse_elems]. by rewrite H. Qed.

Lemma skip_ws_quote s t : skip_ws (jsonString s +:+ t) = jsonString s +:+ t.
Proof. apply skip_ws_head. by eexists _, _. Qed.

Lemma parse_members_more n k j tail :
  valid_utf8 k = true → parses n j →
  parse_members (S n) (jsonString k +:+ ":" +:+ render j +:+ comma +:+ tail) =
  match parse_members n tail with Some (ms, r) => Some ((k, j) :: ms, r) | None => None end.
Proof.
  intros Hk H. cbn [parse_members]. rewrite skip_ws_quote, quoted_jsonString by done.
  change (skip_ws (":" +:+ ?x)) with (":" +:+ x). change (head_is 58 (":" +:+ ?x)) with (Some x). cbn iota.
  by rewrite H.
Qed.

Lemma parse_members_last n k j rest :
  valid_utf8 k = true → parses n j →
  parse_members (S n) (jsonString k +:+ ":" +:+ render j +:+ "}" +:+ rest) = Some ([(k, j)], rest).
Proof.
  intros Hk H. cbn [parse_members]. rewrite skip_ws_quote, quoted_jsonString by done.
  change (skip_ws (":" +:+ ?x)) with (":" +:+ x). change (head_is 58 (":" +:+ ?x)) with (Some x). cbn iota.
  by rewrite H.
Qed.

Lemma concat_cons2 x y l : String.concat comma (x :: y :: l) = x +:+ comma +:+ String.concat comma (y :: l).
Proof. done. Qed.

Lemma parse_elems_render n l rest :
  l ≠ [] → (length l + list_sum (map size l) ≤ n)%nat →
  (∀ j, j ∈ l → ∀ m, (size j ≤ m)%nat → parses m j) →
  parse_elems n (String.concat comma (map render l) +:+ "]" +:+ rest) = Some (l, rest).
Proof.
  revert n. induction l as [|j l IH]; intros n Hl Hn Hp; [done|]. clear Hl. simpl in Hn.
  destruct n as [|n]; [lia|]. assert (Hj : parses n j) by (apply Hp; [left|lia]).
  destruct l as [|k l].
  - cbn [map String.concat]. by apply parse_elems_last.
  - cbn [map]. rewrite concat_cons2, !string_app_assoc, parse_elems_more by done.
    change (render k :: map render l) with (map render (k :: l)).
    rewrite IH; [done|done|simpl in *; lia|intros x Hx; apply Hp; by right].
Qed.

Lemma parse_members_render n ms rest :
  ms ≠ [] → (length ms + list_sum (map (λ m, size m.2) ms) ≤ n)%nat →
  (∀ m, m ∈ ms → valid_utf8 m.1 = true ∧ ∀ k, (size m.2 ≤ k)%nat → parses k m.2) →
  parse_members n (String.concat comma (map mtext ms) +:+ "}" +:+ rest)
  = Some (ms, rest).
Proof.
  revert n. induction ms as [|[k j] ms IH]; intros n Hl Hn Hp; [done|]. clear Hl. simpl in Hn.
  destruct n as [|n]; [lia|]. destruct (Hp (k, j) ltac:(left)) as [Hk Hj]. simpl in Hk, Hj.
  specialize (Hj n ltac:(lia)). destruct ms as [|m ms].
  - cbn [map String.concat]. unfold mtext. rewrite !string_app_assoc. by apply parse_members_last.
  - cbn [map]. rewrite concat_cons2. unfold mtext at 1. cbn [fst snd]. rewrite !string_app_assoc.
    rewrite parse_members_more by done. change (mtext m :: map mtext ms) with (map mtext (m :: ms)).
    rewrite (IH n); [done|done|simpl in *; lia|].
    intros x Hx. apply Hp. by right.
Qed.

Lemma list_sum_S {A} (f : A → nat) l : list_sum (map (λ x, S (f x)) l) = (length l + list_sum (map f l))%nat.
Proof. induction l as [|x l IH]; [done|]. simpl in *. lia. Qed.

Lemma concat_head x l rest :
  (∃ c r, x = String c r ∧ is_ws c = false ∧ byteZ c ≠ 93 ∧ byteZ c ≠ 125) →
  ∃ c r, String.concat comma (x :: l) +:+ rest = String c r ∧ is_ws c = false ∧ byteZ c ≠ 93 ∧ byteZ c ≠ 125.
Proof.
  intros (c & r & -> & H). exists c.
  destruct l as [|y l]; [cbn [String.concat]|rewrite concat_cons2]; rewrite ?string_app_assoc, string_app_cons; by eexists.
Qed.

Lemma parse_render_gen j : wf_json j = true → ∀ n, (size j ≤ n)%nat → parses n j.
Proof.
  induction j as [|b|lit|s|l IH|ms IH] using json_tree_ind; intros Hw n Hn rest Hd;
    (destruct n as [|n]; [simpl in Hn; lia|]).
  - done.
  - by destruct b.
  - pose proof (render_head _ Hw) as (c & r & E & Hws & Hb1 & Hb2). cbn [render parse_value] in *.
    assert (Hc : byteZ c ≤ 57).
    { cbn [wf_json] in Hw. apply andb_true_iff in Hw as [Hv _].
      apply valid_number_head in Hv as (c' & r' & E' & Hc%num_head_byte). rewrite E in E'.
      injection E' as -> _. lia. }
    assert (Hc4 : byteZ c ≠ 34).
    { cbn [wf_json] in Hw. apply andb_true_iff in Hw as [Hv _].
      apply valid_number_head in Hv as (c' & r' & E' & H'%num_head_byte). rewrite E in E'.
      injection E' as -> _. lia. }
    rewrite skip_ws_head by (rewrite E; eexists _, _; split; [apply string_app_cons|done]).
    assert (H : ∀ b, byteZ c ≠ b → head_is b (lit +:+ rest) = None)
      by (intros b Hb; rewrite E; by apply head_is_miss).
    rewrite !H by lia. by apply parse_atom_num.
  - cbn [wf_json render parse_value] in *. rewrite skip_ws_quote.
    change (head_is 123 (jsonString s +:+ rest)) with (@None string).
    change (head_is 91 (jsonString s +:+ rest)) with (@None string). cbn iota.
    rewrite quoted_jsonString by done. done.
  - cbn [wf_json render] in *. rewrite !string_app_assoc. cbn [parse_value].
    change (skip_ws ("[" +:+ ?x)) with ("[" +:+ x). change (head_is 123 ("[" +:+ ?x)) with (@None string).
    change (head_is 91 ("[" +:+ ?x)) with (Some x). cbn iota.
    destruct l as [|j l]; [done|]. pose proof Hw as Hw0. cbn [forallb] in Hw0. apply andb_true_iff in Hw0 as [Hj _].
    destruct (concat_head (render j) (map render l) ("]" +:+ rest) (render_head _ Hj)) as (c & r & E & Hws & Hb & _).
    cbn [map]. rewrite E, skip_ws_head, head_is_miss by (done || by eexists _, _). rewrite <-E.
    change (render j :: map render l) with (map render (j :: l)).
    rewrite parse_elems_render; [done|done| |].
    + cbn [size] in Hn. rewrite list_sum_S in Hn. lia.
    + intros x Hx m Hm. rewrite Forall_forall in IH. apply IH; [done| |done].
      rewrite forallb_forall in Hw. by apply Hw, list_elem_of_In.
  - cbn [wf_json] in *. rewrite render_obj, !string_app_assoc. cbn [parse_value].
    change (skip_ws ("{" +:+ ?x)) with ("{" +:+ x).
    change (head_is 123 ("{" +:+ ?x)) with (Some x). cbn iota.
    destruct ms as [|m ms]; [done|].
    destruct (concat_head (mtext m) (map mtext ms) ("}" +:+ rest)) as (c & r & E & Hws & _ & Hb).
    { eexists _, _. by split. }
    cbn [map]. rewrite E, skip_ws_head, head_is_miss by (done || by eexists _, _). rewrite <-E.
    change (mtext m :: map mtext ms) with (map mtext (m :: ms)).
    rewrite parse_members_render; [done|done| |].
    + cbn [size] in Hn. rewrite list_sum_S in Hn. lia.
    + intros x Hx. rewrite forallb_forall in Hw. specialize (Hw x ltac:(by apply list_elem_of_In)).
      apply andb_true_iff in Hw as [Hu Hv]. split; [done|].
      intros k Hk. rewrite Forall_forall in IH. by apply IH.
Qed.

(** ** Whole texts *)

Lemma escape_high u r : string_forallb high_byte u = true → escape (u +:+ r) = u +:+ escape r.
Proof.
  induction u as [|c u IH]; [done|]. cbn [string_forallb]. intros [Hc Hu]%andb_true_iff.
  unfold high_byte in Hc. bool_prop. rewrite !string_app_cons. cbn [escape].
  repeat (match goal with |- context [?x =? ?y] => destruct (Z.eqb_spec x y); [lia|] end).
  destruct (Z.ltb_spec (byteZ c) 32); [lia|]. by rewrite IH.
Qed.

Lemma is_ascii_digit d : 0 ≤ d < 16 → is_ascii_byte (digit_char d) = true.
Proof.
  intros Hd. unfold is_ascii_byte, digit_char.
  destruct (Z.ltb_spec d 10); rewrite byteZ_Zbyte by lia; apply Z.ltb_lt; lia.
Qed.

Lemma escape_ascii c r : is_ascii_byte c = true → ∃ x, is_ascii x = true ∧ escape (String c r) = x +:+ escape r.
Proof.
  intros Hc. pose proof (byteZ_range c). cbn [escape]. unfold esc.
  repeat match goal with |- context [if ?b then _ else _] => destruct b end;
    try (eexists (String _ (String _ "")); split; [|reflexivity]; reflexivity).
  - exists (String (Zbyte 92) (String (Zbyte 117) (String (Zbyte 48) (String (Zbyte 48)
      (String (digit_char (byteZ c / 16)) (String (digit_char (byteZ c mod 16)) "")))))).
    split; [|done]. unfold is_ascii. cbn [string_forallb]. rewrite !is_ascii_digit by zlia. done.
  - exists (String c ""). split; [|done]. unfold is_ascii. cbn [string_forallb]. by rewrite Hc.
Qed.

Lemma valid_utf8_escape s : valid_utf8 s = true → valid_utf8 (escape s) = true.
Proof.
  revert s. apply valid_utf8_ind; [done| |].
  - intros c r Hc Hr IH. destruct (escape_ascii c r Hc) as (x & Hx & ->). auto with daxie.
  - intros u r Hu Hh Hr IH. rewrite escape_high by done. auto with daxie.
Qed.

Lemma valid_utf8_jsonString s : valid_utf8 s = true → valid_utf8 (jsonString s) = true.
Proof.
  intros Hs. unfold jsonString. rewrite (valid_utf8_coerce s) by done.
  apply valid_utf8_app; [done|]. apply valid_utf8_app; [|done]. by apply valid_utf8_escape.
Qed.

Lemma num_char_ascii lit : string_forallb is_num_char lit = true → is_ascii lit = true.
Proof.
  unfold is_ascii. induction lit as [|c l IH]; [done|]. cbn [string_forallb].
  intros [Hc Hl]%andb_true_iff. rewrite IH by done. rewrite andb_true_r.
  unfold is_num_char, is_digit, is_ascii_byte in *. lia.
Qed.

Lemma valid_utf8_concat l :
  Forall (λ x, valid_utf8 x = true) l → valid_utf8 (String.concat comma l) = true.
Proof.
  induction 1 as [|x l Hx Hl IH]; [done|]. destruct l as [|y l]; [done|].
  rewrite concat_cons2. auto with daxie.
Qed.

Lemma render_valid j : wf_json j = true → valid_utf8 (render j) = true.
Proof.
  induction j as [|b|lit|s|l IH|ms IH] using json_tree_ind; intros Hw; cbn [wf_json] in Hw.
  - done.
  - by destruct b.
  - apply andb_true_iff in Hw as [_ Hw]. by apply valid_utf8_ascii, num_char_ascii.
  - by apply valid_utf8_jsonString.
  - rewrite render_arr. apply valid_utf8_app; [done|]. apply valid_utf8_app; [|done].
    apply valid_utf8_concat, Forall_fmap. rewrite forallb_forall in Hw. rewrite !Forall_forall in *.
    intros x Hx. apply IH; [done|]. by apply Hw, list_elem_of_In.
  - rewrite render_obj. apply valid_utf8_app; [done|]. apply valid_utf8_app; [|done].
    apply valid_utf8_concat, Forall_fmap. rewrite forallb_forall in Hw. rewrite !Forall_forall in *.
    intros x Hx. specialize (Hw x ltac:(by apply list_elem_of_In)). apply andb_true_iff in Hw as [Hk Hv].
    unfold mtext. simpl. apply valid_utf8_app; [by apply valid_utf8_jsonString|].
    apply valid_utf8_app; [done|]. by apply IH.
Qed.

Lemma members_valid ms : wf_json (JObj ms) = true → valid_utf8 (String.concat comma (map mtext ms)) = true.
Proof.
  cbn [wf_json]. rewrite forallb_forall. intros Hw. apply valid_utf8_concat, Forall_fmap, Forall_forall.
  intros x Hx. specialize (Hw x ltac:(by apply list_elem_of_In)). apply andb_true_iff in Hw as [Hk Hv].
  simpl. unfold mtext. auto using valid_utf8_jsonString, render_valid with daxie.
Qed.

Lemma concat_length l :
  (list_sum (map String.length l) + length l ≤ S (String.length (String.concat comma l)))%nat.
Proof.
  induction l as [|x l IH]; [simpl; lia|]. destruct l as [|y l]; [simpl; lia|].
  rewrite concat_cons2, !string_length_app. simpl in *. lia.
Qed.

Lemma list_sum_le {A} (f g : A → nat) l :
  (∀ x, x ∈ l → f x ≤ g x)%nat → (list_sum (map f l) ≤ list_sum (map g l))%nat.
Proof.
  induction l as [|x l IH]; intros H; [done|]. simpl.
  specialize (IH ltac:(intros; apply H; by right)). specialize (H x ltac:(left)). lia.
Qed.

Lemma size_le j : wf_json j = true → (S (size j) ≤ 2 * String.length (render j))%nat.
Proof.
  assert (Hd : ∀ {A} (f : A → nat) l, (list_sum (map (λ x, 2 * f x) l) = 2 * list_sum (map f l))%nat).
  { intros A f l. induction l as [|x l IHl]; [done|]. simpl in *. lia. }
  induction j as [|b|lit|s|l IH|ms IH] using json_tree_ind; intros Hw; cbn [wf_json] in Hw.
  - simpl. lia.
  - destruct b; simpl; lia.
  - apply andb_true_iff in Hw as [Hw _]. apply valid_number_head in Hw as (c & r & -> & _). simpl. lia.
  - simpl. lia.
  - rewrite render_arr, !string_length_app. cbn [size].
    pose proof (list_sum_le (λ j, S (size j)) (λ j, 2 * String.length (render j))%nat l) as H.
    rewrite Hd in H. pose proof (concat_length (map render l)) as Hc. rewrite map_map in Hc.
    simpl String.length in *. rewrite forallb_forall in Hw. rewrite Forall_forall in IH.
    specialize (H ltac:(intros x Hx; apply IH; [done|by apply Hw, list_elem_of_In])). lia.
  - rewrite render_obj, !string_length_app. cbn [size].
    pose proof (list_sum_le (λ m, S (size m.2)) (λ m, 2 * String.length (mtext m))%nat ms) as H.
    rewrite Hd in H. pose proof (concat_length (map mtext ms)) as Hc. rewrite map_map in Hc.
    simpl String.length in *. rewrite forallb_forall in Hw. rewrite Forall_forall in IH.
    specialize (H ltac:(intros x Hx; unfold mtext; rewrite !string_length_app;
      specialize (Hw x ltac:(by apply list_elem_of_In)); apply andb_true_iff in Hw as [_ Hw];
      specialize (IH x Hx Hw); simpl in *; lia)). lia.
Qed.

(** a well-formed tree is what its text parses to, and what follows is left *)
Lemma decode_render j rest :
  wf_json j = true → valid_utf8 rest = true → delim rest = true →
  json_decode (render j +:+ rest) = Some (j, rest).
Proof.
  intros Hw Hr Hd. unfold json_decode. pose proof (render_valid j Hw) as Hv.
  rewrite (valid_utf8_coerce (_ +:+ _)) by auto with daxie.
  apply parse_render_gen; [done| |done]. pose proof (size_le j Hw). rewrite string_length_app. lia.
Qed.

Lemma parse_render j : wf_json j = true → json_parse (render j) = Some j.
Proof.
  intros Hw. unfold json_parse. rewrite <-(string_app_nil_r (render j)) at 1. by rewrite decode_render.
Qed.

(** ** Texts that do not parse *)

Lemma parse_more_fuel n :
  (∀ s r, parse_value n s = Some r → parse_value (S n) s = Some r) ∧
  (∀ s r, parse_members n s = Some r → parse_members (S n) s = Some r) ∧
  (∀ s r, parse_elems n s = Some r → parse_elems (S n) s = Some r).
Proof.
  induction n as [|n (IHv & IHm & IHe)]; [done|].
  assert (Hv : ∀ s r, parse_value (S n) s = Some r → parse_value (S (S n)) s = Some r).
  { intros s r. remember (S n) as m eqn:Em. rewrite Em at 1. cbn [parse_value].
    destruct (head_is 123 (skip_ws s)) as [r1|].
    - destruct (head_is 125 (skip_ws r1)); [done|].
      destruct (parse_members n r1) as [x|] eqn:E; [|done]. by rewrite (IHm _ _ E).
    - destruct (head_is 91 (skip_ws s)) as [r1|]; [|done].
      destruct (head_is 93 (skip_ws r1)); [done|].
      destruct (parse_elems n r1) as [x|] eqn:E; [|done]. by rewrite (IHe _ _ E). }
  split; [done|]. split; intros s r; remember (S n) as m eqn:Em; rewrite Em at 1.
  - cbn [parse_members]. destruct (quoted (skip_ws s)) as [[k r1]|]; [|done].
    destruct (head_is 58 (skip_ws r1)) as [r2|]; [|done].
    destruct (parse_value n r2) as [[v r3]|] eqn:E; [|done]. rewrite (IHv _ _ E).
    destruct (head_is 44 (skip_ws r3)) as [r4|]; [|done].
    destruct (parse_members n r4) as [x|] eqn:E'; [|done]. by rewrite (IHm _ _ E').
  - cbn [parse_elems]. destruct (parse_value n s) as [[v r1]|] eqn:E; [|done]. rewrite (IHv _ _ E).
    destruct (head_is 44 (skip_ws r1)) as [r2|]; [|done].
    destruct (parse_elems n r2) as [x|] eqn:E'; [|done]. by rewrite (IHe _ _ E').
Qed.

Lemma parse_value_fuel n m s r : (n ≤ m)%nat → parse_value n s = Some r → parse_value m s = Some r.
Proof. induction 1 as [|m _ IH]; [done|]. intros H. by apply parse_more_fuel, IH. Qed.

(** a text no call accepts as a value, an element or a member *)
Definition no_value (s : string) : Prop := ∀ n, parse_value n s = None.
Definition no_elems (s : string) : Prop := ∀ n, parse_elems n s = None.
Definition no_members (s : string) : Prop := ∀ n, parse_members n s = None.

Lemma parse_render_some j n rest x :
  wf_json j = true → delim rest = true → parse_value n (render j +:+ rest) = Some x → x = (j, rest).
Proof.
  intros Hw Hd H. apply (parse_value_fuel n (n + size j)) in H; [|lia].
  rewrite (parse_render_gen j Hw (n + size j) ltac:(lia) rest Hd) in H. by injection H.
Qed.

Lemma no_elems_value s : no_value s → no_elems s.
Proof. intros H [|n]; [done|]. cbn [parse_elems]. by rewrite H. Qed.

Lemma no_elems_more j s : wf_json j = true → no_elems s → no_elems (render j +:+ comma +:+ s).
Proof.
  intros Hw H [|n]; [done|]. cbn [parse_elems].
  destruct (parse_value n _) as [x|] eqn:E; [|done]. apply parse_render_some in E as ->; [|done..].
  change (head_is 44 (skip_ws (comma +:+ s))) with (Some s). cbn iota. by rewrite H.
Qed.

Lemma no_members_value k s : valid_utf8 k = true → no_value s → no_members (jsonString k +:+ ":" +:+ s).
Proof.
  intros Hk H [|n]; [done|]. cbn [parse_members]. rewrite skip_ws_quote, quoted_jsonString by done.
  change (head_is 58 (skip_ws (":" +:+ s))) with (Some s). cbn iota. by rewrite H.
Qed.

Lemma no_members_more k j s :
  valid_utf8 k = true → wf_json j = true → no_members s →
  no_members (jsonString k +:+ ":" +:+ render j +:+ comma +:+ s).
Proof.
  intros Hk Hw H [|n]; [done|]. cbn [parse_members]. rewrite skip_ws_quote, quoted_jsonString by done.
  change (head_is 58 (skip_ws (":" +:+ ?x))) with (Some x). cbn iota.
  destruct (parse_value n _) as [x|] eqn:E; [|done]. apply parse_render_some in E as ->; [|done..].
  change (head_is 44 (skip_ws (comma +:+ s))) with (Some s). cbn iota. by rewrite H.
Qed.

Lemma no_value_obj s :
  (∃ c r, s = String c r ∧ is_ws c = false ∧ byteZ c ≠ 125) → no_members s → no_value ("{" +:+ s).
Proof.
  intros (c & r & E & Hws & Hb) H [|n]; [done|]. cbn [parse_value].
  change (skip_ws ("{" +:+ s)) with ("{" +:+ s). change (head_is 123 ("{" +:+ s)) with (Some s). cbn iota.
  rewrite (skip_ws_head s) by (by eexists _, _). rewrite E, head_is_miss by done. by rewrite <-E, H.
Qed.

Lemma no_value_arr s :
  (∃ c r, s = String c r ∧ is_ws c = false ∧ byteZ c ≠ 93) → no_elems s → no_value ("[" +:+ s).
Proof.
  intros (c & r & E & Hws & Hb) H [|n]; [done|]. cbn [parse_value].
  change (skip_ws ("[" +:+ s)) with ("[" +:+ s). change (head_is 123 ("[" +:+ s)) with (@None string).
  change (head_is 91 ("[" +:+ s)) with (Some s). cbn iota.
  rewrite (skip_ws_head s) by (by eexists _, _). rewrite E, head_is_miss by done. by rewrite <-E, H.
Qed.

(** an object cut short behind a comma *)
Lemma no_members_brace s : no_members ("}" +:+ s).
Proof. by intros [|n]. Qed.
