(* ===== verification/PolicyTypes.v ===== *)
(** * The data of the policy engine

    Records of [internal/policy/file.go] (the sealed policy body) and
    [internal/policy/check.go] (the request and the verdict).  A Go pointer is
    an [option]; a [big.Int] pointer is an [option Z] whose [None] is nil. *)

From S2P Require Import Prelude GoStrings Decimal.

Local Open Scope string_scope.
Local Open Scope Z_scope.

(** ** go-ethereum's address type

    [common.Address] is an array of 20 bytes, here the integer below 2^160 it
    encodes; the zero address is 0.  [Hex] is the EIP-55 rendering, which
    depends on Keccak-256; the policy engine only uses its lower-case form. *)

Definition Address : Type := Z.
Definition valid_addr (a : Address) : Prop := 0 ≤ a < 2 ^ 160.

(** "0x" followed by 40 lower-case hexadecimal digits *)
Definition hex40 (a : Address) : string := "0x" +:+ fixed_digits 16 40 a.

(** a 32-byte hash as the number it encodes, and its rendering *)
Definition Hash : Type := Z.
Definition hex64 (h : Hash) : string := "0x" +:+ fixed_digits 16 64 h.

Class GethCommon := {
  Hex : Address → string;
  HexToAddress : string → Address;
  IsHexAddress : string → bool;
  HexToHash : string → Hash;
  HashHex : Hash → string;
  Hex_ascii : ∀ a, is_ascii (Hex a) = true;
  Hex_lower : ∀ a, string_map lower_byte (Hex a) = hex40 a;
  HexToAddress_hex40 : ∀ a, valid_addr a → HexToAddress (hex40 a) = a;
  IsHexAddress_hex40 : ∀ a, valid_addr a → IsHexAddress (hex40 a) = true;
  IsHexAddress_Hex : ∀ a, valid_addr a → IsHexAddress (Hex a) = true;
  HexToHash_Hex : ∀ h, 0 ≤ h < 2 ^ 256 → HexToHash (HashHex h) = h;
  HexToAddress_Hex : ∀ a, valid_addr a → HexToAddress (Hex a) = a;
  HexToAddress_range : ∀ s, valid_addr (HexToAddress s);
}.

(** ** The sealed policy body (file.go) *)

(** A tri-state limit block: [None] is absent, the sentinel is an explicit JSON
    null, any other string is a decimal amount. *)
Record Limits := mkLimits {
  MaxTxWei : option string;
  MaxDayWei : option string;
  MaxGasPriceWei : option string;
  AllowlistEnabled : option bool;
  IncludeSelf : option bool;
  TypedDataUnknown : option string;
}.

Definition nullSentinel : string := String (Zbyte 0) ("null" +:+ String (Zbyte 0) "").
Definition nullStr : option string := Some nullSentinel.
Definition isNull (p : option string) : bool :=
  match p with Some s => bool_decide (s = nullSentinel) | None => false end.

Record NetworkRule := mkNetworkRule { nr_Network : string; nr_Limits : Limits }.
Record Rules := mkRules { r_Default : Limits; r_Networks : list NetworkRule }.

Record TokenRule := mkTokenRule {
  tr_Network : string;
  tr_Address : string;
  tr_AliasAtSet : string;
  tr_AllowUnlimited : option bool;
}.

Record PinEntry := mkPinEntry {
  pe_Source : string;
  pe_Address : string;
  pe_Name : string;
  pe_Label : string;
  pe_AddedAt : string;
  pe_ResolvedAt : string;
}.

Record TypedAllow := mkTypedAllow {
  ta_ChainID : Z;
  ta_VerifyingContract : string;
  ta_PrimaryType : string;
  ta_Label : string;
}.

Record TypedDataCfg := mkTypedDataCfg {
  td_Unknown : string;
  td_Allowed : list TypedAllow;
}.

Record ContractAllow := mkContractAllow {
  ca_Network : string;
  ca_Contract : string;
  ca_Selector : string;
  ca_Label : string;
  ca_AddedAt : string;
}.

Record Policy := mkPolicy {
  p_Version : Z;
  p_Nonce : Z;
  p_UpdatedAt : string;
  p_WrittenBy : string;
  p_Messages : string;
  p_TokensNoAllowlistOK : bool;
  p_Rules : Rules;
  p_Tokens : list TokenRule;
  p_Allowlist : list PinEntry;
  p_Denylist : list PinEntry;
  p_SelfAddresses : list string;
  p_TypedData : TypedDataCfg;
  p_ContractsAllowed : list ContractAllow;
}.

(** ** The request (check.go) *)

Inductive Kind := KindUnknown | KindTransfer | KindApprove | KindPermit.
Inductive ToSource := SourceRawAddress | SourceENS | SourceContact | SourceSelf.

#[export] Instance Kind_eq_dec : EqDecision Kind.
Proof. solve_decision. Defined.
#[export] Instance ToSource_eq_dec : EqDecision ToSource.
Proof. solve_decision. Defined.

Record Check := mkCheck {
  c_Account : Address;
  c_Dest : Address;
  c_SpendWei : option Z;
  c_MaxGasWei : option Z;
  c_MaxFeePerGas : option Z;
  c_Kind : string;
  c_Token : string;
  c_IsRBFDelta : bool;
  c_Acked : bool;
  c_Network : string;
  c_KindEnum : Kind;
  c_ToSrc : ToSource;
  c_ToInput : string;
  c_ENSName : string;
  c_ENSResolved : Address;
  c_Asset : string;
  c_TokenAmt : option Z;
  c_Unlimited : bool;
  c_AccountNonce : option Z;
  c_TypedUnknown : bool;
  c_TypedPrimary : string;
  c_TypedVerifying : string;
  c_TypedChainID : Z;
  c_UnknownCalldata : bool;
  c_ContractAddr : Address;
  c_Selector : string;
}.

(** effectiveKind: the enum, or the journal's kind string when it was not set *)
Definition effectiveKind (c : Check) : Kind :=
  match c_KindEnum c with
  | KindUnknown =>
      if bool_decide (c_Kind c = "approve") || bool_decide (c_Kind c = "revoke") then KindApprove
      else if bool_decide (c_Kind c = "permit") then KindPermit
      else KindTransfer
  | k => k
  end.

Definition spendWei (c : Check) : Z := default 0 (c_SpendWei c).
Definition maxGasWei (c : Check) : Z := default 0 (c_MaxGasWei c).
Definition maxFeePerGas (c : Check) : Z := default 0 (c_MaxFeePerGas c).

(** value plus worst-case gas of a request *)
Definition thisDebit (c : Check) : Z := spendWei c + maxGasWei c.

(** ** The verdict (check.go) *)

(** the values of a [Data map[string]any] *)
Inductive dval := DStr (s : string) | DInt (n : Z).

#[export] Instance dval_eq_dec : EqDecision dval.
Proof. solve_decision. Defined.

Definition vdata : Type := gmap string dval.

Record Violation := mkViolation { v_Code : string; v_Reason : string; v_Data : vdata }.

#[export] Instance Violation_eq_dec : EqDecision Violation.
Proof. solve_decision. Defined.

(** [Decision.Data] also holds the list of rendered violations, and the error of
    [policy check] the violations themselves. *)
Inductive ddval := DVal (v : dval) | DViolations (l : list vdata) | DViews (l : list Violation).

Record Decision := mkDecision {
  d_Allowed : bool;
  d_Code : string;
  d_Reason : string;
  d_Violations : list Violation;
  d_RetryAfter : string;
  d_Data : option (gmap string ddval);
}.

(** [Decision{Allowed: true}] *)
Definition allow : Decision := mkDecision true "" "" [] "" None.

(** ** Addresses as lower-case hex *)

Section LowerHex.
Context {UT : UnicodeTables} {GC : GethCommon}.

(** lowerHex (evaluate.go): "" for the zero address *)
Definition lowerHex (a : Address) : string := if a =? 0 then "" else ToLower (Hex a).

Lemma lowerHex_nonzero a : a ≠ 0 → lowerHex a = hex40 a.
Proof.
  intros H. unfold lowerHex. destruct (Z.eqb_spec a 0); [done|].
  rewrite ToLower_ascii by apply Hex_ascii. apply Hex_lower.
Qed.

Lemma lowerHex_nil a : lowerHex a = "" ↔ a = 0.
Proof.
  split; [|by intros ->]. intros H. destruct (decide (a = 0)) as [|Hne]; [done|].
  rewrite lowerHex_nonzero in H by done. unfold hex40 in H.
  rewrite string_app_cons in H. discriminate H.
Qed.

Lemma lowerHex_inj a b : valid_addr a → valid_addr b → lowerHex a = lowerHex b → a = b.
Proof.
  intros Ha Hb H.
  destruct (decide (a = 0)) as [->|Ha0]; destruct (decide (b = 0)) as [->|Hb0]; try done.
  - symmetry in H. by apply lowerHex_nil in H.
  - by apply lowerHex_nil in H.
  - rewrite !lowerHex_nonzero in H by done. unfold hex40 in H.
    apply (inj (String.append "0x")) in H. unfold valid_addr in *.
    eapply (fixed_digits_inj 16 40); [by right|exact Ha|exact Hb|exact H].
Qed.

Lemma digit_char16_ascii_lower k : 0 ≤ k < 16 →
  is_ascii_byte (digit_char k) = true ∧ lower_byte (digit_char k) = digit_char k.
Proof.
  intros Hk. assert (∀ n : nat, (n < 16)%nat →
    is_ascii_byte (digit_char (Z.of_nat n)) = true ∧
    lower_byte (digit_char (Z.of_nat n)) = digit_char (Z.of_nat n)) as H.
  { intros n Hn. do 16 (destruct n as [|n]; [by vm_compute|]). lia. }
  specialize (H (Z.to_nat k) ltac:(lia)). by rewrite Z2Nat.id in H by lia.
Qed.

Lemma fixed16_ascii w n : is_ascii (fixed_digits 16 w n) = true.
Proof.
  revert n. induction w as [|w IH]; intros n; [done|]. simpl. unfold is_ascii in *.
  rewrite string_forallb_app, IH. simpl.
  by rewrite (proj1 (digit_char16_ascii_lower _ (Z.mod_pos_bound n 16 ltac:(lia)))).
Qed.

Lemma lowerHex_ascii a : is_ascii (lowerHex a) = true.
Proof.
  destruct (decide (a = 0)) as [->|Ha]; [done|]. rewrite lowerHex_nonzero by done.
  unfold hex40, is_ascii. rewrite string_forallb_app. apply (fixed16_ascii 40).
Qed.

Lemma lowerHex_lower a : ToLower (lowerHex a) = lowerHex a.
Proof.
  unfold lowerHex. destruct (a =? 0); [done|]. apply ToLower_idemp_ascii, Hex_ascii.
Qed.

(** Case folding decides equality of addresses. *)
Lemma EqualFold_lowerHex a b :
  valid_addr a → valid_addr b → EqualFold (lowerHex a) (lowerHex b) = bool_decide (a = b).
Proof.
  intros Ha Hb. rewrite EqualFold_ascii by apply lowerHex_ascii. rewrite !lowerHex_lower.
  apply bool_decide_ext. split; [by apply lowerHex_inj|by intros ->].
Qed.
End LowerHex.

#[export] Hint Resolve lowerHex_ascii : daxie.

(** ** A reference instance

    [Hex] in lower case satisfies the class; the witnesses evaluate with it. *)

Lemma hex40_ascii a : is_ascii (hex40 a) = true.
Proof. unfold hex40, is_ascii. rewrite string_forallb_app. apply (fixed16_ascii 40). Qed.

Lemma fixed16_lower w n : string_map lower_byte (fixed_digits 16 w n) = fixed_digits 16 w n.
Proof.
  revert n. induction w as [|w IH]; intros n; [done|]. simpl. rewrite string_map_app, IH. simpl.
  by rewrite (proj2 (digit_char16_ascii_lower _ (Z.mod_pos_bound n 16 ltac:(lia)))).
Qed.

Lemma hex40_lower a : string_map lower_byte (hex40 a) = hex40 a.
Proof. unfold hex40. by rewrite string_map_app, fixed16_lower. Qed.

Definition hex_to_number (s : string) : Address := default 0 (scan_digits 16 (sdrop 2 s) 0).

Definition is_hex_digit (c : Ascii.ascii) : bool := bool_decide (is_Some (digit_val 16 c)).

Definition is_hex_address (s : string) : bool :=
  let t := if String.prefix "0x" s || String.prefix "0X" s then sdrop 2 s else s in
  Nat.eqb (String.length t) 40 && string_forallb is_hex_digit t.

(** the last 20 bytes *)
Definition hex_to_address (s : string) : Address := hex_to_number s mod 2 ^ 160.

Lemma hex_to_address_range s : valid_addr (hex_to_address s).
Proof. apply Z.mod_pos_bound. lia. Qed.

Lemma hex_to_address_hex40 a : valid_addr a → hex_to_address (hex40 a) = a.
Proof.
  intros Ha. unfold hex_to_address. rewrite <-(Z.mod_small a (2 ^ 160)) at 2 by done. f_equal.
  unfold hex_to_number. change (sdrop 2 (hex40 a)) with (fixed_digits 16 40 a).
  rewrite scan_fixed_digits by (by right || (unfold valid_addr in Ha; lia)). simpl default.
  rewrite Z.mod_small; [lia|]. unfold valid_addr in Ha.
  change (16 ^ Z.of_nat 40) with (2 ^ 160). done.
Qed.

Lemma hex_to_hash_hex64 h : 0 ≤ h < 2 ^ 256 → hex_to_number (hex64 h) = h.
Proof.
  intros Hh. unfold hex_to_number. change (sdrop 2 (hex64 h)) with (fixed_digits 16 64 h).
  rewrite scan_fixed_digits by (by right || lia). simpl default.
  rewrite Z.mod_small; [lia|]. change (16 ^ Z.of_nat 64) with (2 ^ 256). done.
Qed.

Lemma fixed16_hex_digits w n : string_forallb is_hex_digit (fixed_digits 16 w n) = true.
Proof.
  revert n. induction w as [|w IH]; intros n; [done|]. simpl.
  rewrite string_forallb_app, IH. cbn [string_forallb andb]. rewrite andb_true_r.
  unfold is_hex_digit. apply bool_decide_eq_true.
  rewrite digit_val_char by ((by right) || (apply Z.mod_pos_bound; lia)). eauto.
Qed.

Lemma is_hex_address_hex40 a : valid_addr a → is_hex_address (hex40 a) = true.
Proof.
  intros _. unfold is_hex_address.
  change (String.prefix "0x" (hex40 a) || String.prefix "0X" (hex40 a)) with true.
  cbv iota. change (sdrop 2 (hex40 a)) with (fixed_digits 16 40 a).
  by rewrite string_length_fixed_digits, fixed16_hex_digits.
Qed.

Definition geth_ref : GethCommon := {|
  Hex := hex40;
  HexToAddress := hex_to_address;
  IsHexAddress := is_hex_address;
  HexToHash := hex_to_number;
  HashHex := hex64;
  Hex_ascii := hex40_ascii;
  Hex_lower := hex40_lower;
  HexToAddress_hex40 := hex_to_address_hex40;
  IsHexAddress_hex40 := is_hex_address_hex40;
  IsHexAddress_Hex := is_hex_address_hex40;
  HexToHash_Hex := hex_to_hash_hex64;
  HexToAddress_Hex := hex_to_address_hex40;
  HexToAddress_range := hex_to_address_range;
|}.
