(* ===== verification/PolicyBody.v ===== *)
(** * The sealed policy body: [internal/policy/file.go]

    The canonical writer [writeBody], whose bytes the seal covers, and the
    strict decoder [decodeBodyStrict] with its tri-state pass.  A
    [bytes.Buffer] the writer fills is the string it holds; a Go decode target
    is the value it holds before, so a decoder takes the old value and the JSON
    value to the new one. *)

From S2P Require Import Prelude GoStrings Decimal Encodings Json PolicyTypes.

Local Open Scope string_scope.
Local Open Scope Z_scope.
Local Open Scope list_scope.

(** [sort.Slice] and [sort.Strings]: which of the sorted orders of the elements
    comes out is not specified *)
Class SortSlice := {
  sort_slice : ∀ {A}, (A → A → bool) → list A → list A;
  sort_slice_perm : ∀ {A} (less : A → A → bool) l, Permutation (sort_slice less l) l;
}.

Definition stable_slice : SortSlice := {|
  sort_slice := λ A less l, stable_sort less l;
  sort_slice_perm := λ A less l, stable_sort_perm less l;
|}.

(** compare by the first field that differs *)
Definition lexicographic (xs ys : list string) : bool :=
  (fix go xs ys := match xs, ys with
   | x :: xs, y :: ys => if bool_decide (x = y) then go xs ys else String.ltb x y
   | _, _ => false
   end) xs ys.

(** ** Writing *)

Definition go_bool (b : bool) : string := if b then "true" else "false".
Definition itoaInt (v : Z) : string := z_string v.
Definition utoa (v : Z) : string := z_string v.

(** fieldWriter: the fields it was given, as (key, raw value) *)
Definition fieldWriter (fields : list (string * string)) : string :=
  String.concat comma (map (λ f, jsonString f.1 +:+ ":" +:+ f.2) fields).

Definition strField (k v : string) : string * string := (k, jsonString v).

(** the closures emit and emitBool of writeLimitsInline *)
Definition emit (key : string) (p : option string) : option (string * string) :=
  match p with
  | None => None
  | Some s => Some (key, if isNull p then "null" else jsonString s)
  end.
Definition emitBool (key : string) (p : option bool) : option (string * string) :=
  match p with None => None | Some b => Some (key, go_bool b) end.

Definition writeLimitsInline (l : Limits) (perNetwork : bool) : string :=
  fieldWriter (omap id
    [emit "max_tx_wei" (MaxTxWei l);
     emit "max_day_wei" (MaxDayWei l);
     emit "max_gas_price_wei" (MaxGasPriceWei l);
     emitBool "allowlist_enabled" (AllowlistEnabled l);
     emitBool "include_self" (IncludeSelf l);
     match TypedDataUnknown l with
     | Some s => if perNetwork then Some (strField "typed_data_unknown" s) else None
     | None => None
     end]).

Definition writeLimits (l : Limits) (perNetwork : bool) : string :=
  "{" +:+ writeLimitsInline l perNetwork +:+ "}".

Definition writeNetwork (n : NetworkRule) : string :=
  "{" +:+ jsonString "network" +:+ ":" +:+ jsonString (nr_Network n) +:+ comma +:+
  writeLimitsInline (nr_Limits n) true +:+ "}".

Definition writeRules (r : Rules) : string :=
  "{" +:+ jsonString "default" +:+ ":" +:+ writeLimits (r_Default r) false +:+ comma +:+
  jsonString "networks" +:+ ":" +:+ "[" +:+ String.concat comma (map writeNetwork (r_Networks r)) +:+ "]" +:+ "}".

(** an array of objects or strings already rendered *)
Definition write_array (items : list string) : string := "[" +:+ String.concat comma items +:+ "]".
Definition write_object (fields : list (string * string)) : string := "{" +:+ fieldWriter fields +:+ "}".

(** a field that is not emitted when it is empty *)
Definition strFieldOpt (k v : string) : list (string * string) :=
  if bool_decide (v = "") then [] else [strField k v].

Section Write.
Context {SS : SortSlice}.

Definition sortTokens : list TokenRule → list TokenRule :=
  sort_slice (λ a b, lexicographic [tr_Network a; tr_Address a] [tr_Network b; tr_Address b]).

Definition writeTokens (ts : list TokenRule) : string :=
  write_array (map (λ t, write_object
    [strField "network" (tr_Network t);
     strField "address" (tr_Address t);
     strField "alias_at_set" (tr_AliasAtSet t);
     ("allow_unlimited", match tr_AllowUnlimited t with None => "null" | Some b => go_bool b end)])
    (sortTokens ts)).

Definition sortPins : list PinEntry → list PinEntry :=
  sort_slice (λ a b, lexicographic [pe_Source a; pe_Address a; pe_Name a] [pe_Source b; pe_Address b; pe_Name b]).

Definition writePins (ps : list PinEntry) : string :=
  write_array (map (λ p, write_object
    ([strField "source" (pe_Source p); strField "address" (pe_Address p)] ++
     strFieldOpt "name" (pe_Name p) ++
     strFieldOpt "label" (pe_Label p) ++
     strFieldOpt "added_at" (pe_AddedAt p) ++
     strFieldOpt "resolved_at" (pe_ResolvedAt p))) (sortPins ps)).

Definition sortStrings : list string → list string := sort_slice String.ltb.

Definition writeStrings (ss : list string) : string := write_array (map jsonString (sortStrings ss)).

Definition sortTypedAllow : list TypedAllow → list TypedAllow :=
  sort_slice (λ a b,
    if negb (ta_ChainID a =? ta_ChainID b) then ta_ChainID a <? ta_ChainID b
    else lexicographic [ta_VerifyingContract a; ta_PrimaryType a] [ta_VerifyingContract b; ta_PrimaryType b]).

Definition writeTypedData (td : TypedDataCfg) : string :=
  write_object
    [strField "unknown" (td_Unknown td);
     ("allowed", write_array (map (λ a, write_object
        [("chain_id", itoaInt (ta_ChainID a));
         strField "verifying_contract" (ta_VerifyingContract a);
         strField "primary_type" (ta_PrimaryType a);
         strField "label" (ta_Label a)]) (sortTypedAllow (td_Allowed td))))].

Definition sortContracts : list ContractAllow → list ContractAllow :=
  sort_slice (λ a b, lexicographic [ca_Network a; ca_Contract a; ca_Selector a]
                                   [ca_Network b; ca_Contract b; ca_Selector b]).

Definition writeContracts (cs : list ContractAllow) : string :=
  write_array (map (λ c, write_object
    [strField "network" (ca_Network c);
     strField "contract" (ca_Contract c);
     strField "selector" (ca_Selector c);
     strField "label" (ca_Label c);
     strField "added_at" (ca_AddedAt c)]) (sortContracts cs)).

Definition writeBody (p : Policy) : string :=
  "{" +:+ fieldWriter
    [("version", itoaInt (p_Version p));
     ("nonce", utoa (p_Nonce p));
     strField "updated_at" (p_UpdatedAt p);
     strField "written_by" (p_WrittenBy p);
     strField "messages" (p_Messages p);
     ("tokens_no_allowlist_ok", go_bool (p_TokensNoAllowlistOK p));
     ("rules", writeRules (p_Rules p));
     ("tokens", writeTokens (p_Tokens p));
     ("allowlist", writePins (p_Allowlist p));
     ("denylist", writePins (p_Denylist p));
     ("self_addresses", writeStrings (p_SelfAddresses p));
     ("typed_data", writeTypedData (p_TypedData p));
     ("contracts_allowed", writeContracts (p_ContractsAllowed p))] +:+ "}".
End Write.

(** ** Decoding *)

(** a decoder: the value in the target, the JSON value, and the new value *)
Definition D (A : Type) : Type := A → json → option A.

Definition d_string : D string := λ cur j,
  match j with JStr s => Some s | JNull => Some cur | _ => None end.
Definition d_bool : D bool := λ cur j,
  match j with JBool b => Some b | JNull => Some cur | _ => None end.
(** strconv.ParseInt and ParseUint on a number literal *)
Definition d_int : D Z := λ cur j,
  match j with
  | JNum lit => match SetString lit 10 with
                | Some n => if (- 2 ^ 63 <=? n) && (n <? 2 ^ 63) then Some n else None
                | None => None
                end
  | JNull => Some cur
  | _ => None
  end.
Definition d_uint64 : D Z := λ cur j,
  match j with
  | JNum lit => match head_is 45 lit, SetString lit 10 with
                | None, Some n => if n <? 2 ^ 64 then Some n else None
                | _, _ => None
                end
  | JNull => Some cur
  | _ => None
  end.

(** a pointer is set to nil by null and allocated by anything else *)
Definition d_ptr {A} (zero : A) (d : D A) : D (option A) := λ cur j,
  match j with
  | JNull => Some None
  | _ => Some <$> d (default zero cur) j
  end.

(** the elements of a slice, on top of those it held *)
Fixpoint d_elems {A} (zero : A) (d : D A) (cur : list A) (l : list json) : option (list A) :=
  match l with
  | [] => Some []
  | j :: l =>
      match d (hd zero cur) j, d_elems zero d (tl cur) l with
      | Some x, Some xs => Some (x :: xs)
      | _, _ => None
      end
  end.
Definition d_slice {A} (zero : A) (d : D A) : D (list A) := λ cur j,
  match j with
  | JNull => Some []
  | JArr l => d_elems zero d cur l
  | _ => None
  end.

Section Decode.
Context {UT : UnicodeTables}.

(** the field a key names: by its exact name, else by case folding *)
Definition find_field {A} (fields : list (string * A)) (k : string) : option A :=
  match List.find (λ f, bool_decide (f.1 = k)) fields with
  | Some f => Some f.2
  | None => snd <$> List.find (λ f, EqualFold f.1 k) fields
  end.

(** the members of an object in order; [strict] is DisallowUnknownFields *)
Fixpoint d_members {A} (strict : bool) (fields : list (string * D A)) (cur : A) (ms : list (string * json))
  : option A :=
  match ms with
  | [] => Some cur
  | (k, v) :: ms =>
      match find_field fields k with
      | Some d => match d cur v with Some cur => d_members strict fields cur ms | None => None end
      | None => if strict then None else d_members strict fields cur ms
      end
  end.

Definition d_struct {A} (strict : bool) (fields : list (string * D A)) : D A := λ cur j,
  match j with
  | JObj ms => d_members strict fields cur ms
  | JNull => Some cur
  | _ => None
  end.

(** a struct field: how to read it, how to replace it, how to decode it *)
Definition field {R A} (get : R → A) (set : R → A → R) (d : D A) : D R := λ cur j,
  match d (get cur) j with Some x => Some (set cur x) | None => None end.

Definition d_pstr : D (option string) := d_ptr "" d_string.
Definition d_pbool : D (option bool) := d_ptr false d_bool.

Definition limits_fields : list (string * D Limits) :=
  [("max_tx_wei", field MaxTxWei (λ '(mkLimits _ b c d e f) x, mkLimits x b c d e f) d_pstr);
   ("max_day_wei", field MaxDayWei (λ '(mkLimits a _ c d e f) x, mkLimits a x c d e f) d_pstr);
   ("max_gas_price_wei", field MaxGasPriceWei (λ '(mkLimits a b _ d e f) x, mkLimits a b x d e f) d_pstr);
   ("allowlist_enabled", field AllowlistEnabled (λ '(mkLimits a b c _ e f) x, mkLimits a b c x e f) d_pbool);
   ("include_self", field IncludeSelf (λ '(mkLimits a b c d _ f) x, mkLimits a b c d x f) d_pbool);
   ("typed_data_unknown", field TypedDataUnknown (λ '(mkLimits a b c d e _) x, mkLimits a b c d e x) d_pstr)].

Definition zero_limits : Limits := mkLimits None None None None None None.
Definition d_limits : D Limits := d_struct true limits_fields.

(** NetworkRule embeds Limits: its fields are promoted *)
Definition network_fields : list (string * D NetworkRule) :=
  ("network", field nr_Network (λ '(mkNetworkRule _ l) x, mkNetworkRule x l) d_string) ::
  map (λ f, (f.1, field nr_Limits (λ '(mkNetworkRule n _) l, mkNetworkRule n l) f.2)) limits_fields.
Definition d_network : D NetworkRule := d_struct true network_fields.
Definition zero_network : NetworkRule := mkNetworkRule "" zero_limits.

Definition d_rules : D Rules := d_struct true
  [("default", field r_Default (λ '(mkRules _ n) x, mkRules x n) d_limits);
   ("networks", field r_Networks (λ '(mkRules d _) x, mkRules d x) (d_slice zero_network d_network))].

Definition d_token : D TokenRule := d_struct true
  [("network", field tr_Network (λ '(mkTokenRule _ b c d) x, mkTokenRule x b c d) d_string);
   ("address", field tr_Address (λ '(mkTokenRule a _ c d) x, mkTokenRule a x c d) d_string);
   ("alias_at_set", field tr_AliasAtSet (λ '(mkTokenRule a b _ d) x, mkTokenRule a b x d) d_string);
   ("allow_unlimited", field tr_AllowUnlimited (λ '(mkTokenRule a b c _) x, mkTokenRule a b c x) d_pbool)].
Definition zero_token : TokenRule := mkTokenRule "" "" "" None.

Definition d_pin : D PinEntry := d_struct true
  [("source", field pe_Source (λ '(mkPinEntry _ b c d e f) x, mkPinEntry x b c d e f) d_string);
   ("address", field pe_Address (λ '(mkPinEntry a _ c d e f) x, mkPinEntry a x c d e f) d_string);
   ("name", field pe_Name (λ '(mkPinEntry a b _ d e f) x, mkPinEntry a b x d e f) d_string);
   ("label", field pe_Label (λ '(mkPinEntry a b c _ e f) x, mkPinEntry a b c x e f) d_string);
   ("added_at", field pe_AddedAt (λ '(mkPinEntry a b c d _ f) x, mkPinEntry a b c d x f) d_string);
   ("resolved_at", field pe_ResolvedAt (λ '(mkPinEntry a b c d e _) x, mkPinEntry a b c d e x) d_string)].
Definition zero_pin : PinEntry := mkPinEntry "" "" "" "" "" "".

Definition d_typed_allow : D TypedAllow := d_struct true
  [("chain_id", field ta_ChainID (λ '(mkTypedAllow _ b c d) x, mkTypedAllow x b c d) d_int);
   ("verifying_contract", field ta_VerifyingContract (λ '(mkTypedAllow a _ c d) x, mkTypedAllow a x c d) d_string);
   ("primary_type", field ta_PrimaryType (λ '(mkTypedAllow a b _ d) x, mkTypedAllow a b x d) d_string);
   ("label", field ta_Label (λ '(mkTypedAllow a b c _) x, mkTypedAllow a b c x) d_string)].
Definition zero_typed_allow : TypedAllow := mkTypedAllow 0 "" "" "".

Definition d_typed_data : D TypedDataCfg := d_struct true
  [("unknown", field td_Unknown (λ '(mkTypedDataCfg _ b) x, mkTypedDataCfg x b) d_string);
   ("allowed", field td_Allowed (λ '(mkTypedDataCfg a _) x, mkTypedDataCfg a x)
                 (d_slice zero_typed_allow d_typed_allow))].

Definition d_contract : D ContractAllow := d_struct true
  [("network", field ca_Network (λ '(mkContractAllow _ b c d e) x, mkContractAllow x b c d e) d_string);
   ("contract", field ca_Contract (λ '(mkContractAllow a _ c d e) x, mkContractAllow a x c d e) d_string);
   ("selector", field ca_Selector (λ '(mkContractAllow a b _ d e) x, mkContractAllow a b x d e) d_string);
   ("label", field ca_Label (λ '(mkContractAllow a b c _ e) x, mkContractAllow a b c x e) d_string);
   ("added_at", field ca_AddedAt (λ '(mkContractAllow a b c d _) x, mkContractAllow a b c d x) d_string)].
Definition zero_contract : ContractAllow := mkContractAllow "" "" "" "" "".

Definition policy_fields : list (string * D Policy) :=
  [("version", field p_Version (λ '(mkPolicy _ b c d e f g h i j k l m) x, mkPolicy x b c d e f g h i j k l m) d_int);
   ("nonce", field p_Nonce (λ '(mkPolicy a _ c d e f g h i j k l m) x, mkPolicy a x c d e f g h i j k l m) d_uint64);
   ("updated_at", field p_UpdatedAt (λ '(mkPolicy a b _ d e f g h i j k l m) x, mkPolicy a b x d e f g h i j k l m) d_string);
   ("written_by", field p_WrittenBy (λ '(mkPolicy a b c _ e f g h i j k l m) x, mkPolicy a b c x e f g h i j k l m) d_string);
   ("messages", field p_Messages (λ '(mkPolicy a b c d _ f g h i j k l m) x, mkPolicy a b c d x f g h i j k l m) d_string);
   ("tokens_no_allowlist_ok", field p_TokensNoAllowlistOK
      (λ '(mkPolicy a b c d e _ g h i j k l m) x, mkPolicy a b c d e x g h i j k l m) d_bool);
   ("rules", field p_Rules (λ '(mkPolicy a b c d e f _ h i j k l m) x, mkPolicy a b c d e f x h i j k l m) d_rules);
   ("tokens", field p_Tokens (λ '(mkPolicy a b c d e f g _ i j k l m) x, mkPolicy a b c d e f g x i j k l m)
      (d_slice zero_token d_token));
   ("allowlist", field p_Allowlist (λ '(mkPolicy a b c d e f g h _ j k l m) x, mkPolicy a b c d e f g h x j k l m)
      (d_slice zero_pin d_pin));
   ("denylist", field p_Denylist (λ '(mkPolicy a b c d e f g h i _ k l m) x, mkPolicy a b c d e f g h i x k l m)
      (d_slice zero_pin d_pin));
   ("self_addresses", field p_SelfAddresses (λ '(mkPolicy a b c d e f g h i j _ l m) x, mkPolicy a b c d e f g h i j x l m)
      (d_slice "" d_string));
   ("typed_data", field p_TypedData (λ '(mkPolicy a b c d e f g h i j k _ m) x, mkPolicy a b c d e f g h i j k x m)
      d_typed_data);
   ("contracts_allowed", field p_ContractsAllowed
      (λ '(mkPolicy a b c d e f g h i j k l _) x, mkPolicy a b c d e f g h i j k l x) (d_slice zero_contract d_contract))].
Definition zero_policy : Policy :=
  mkPolicy 0 0 "" "" "" false (mkRules zero_limits []) [] [] [] [] (mkTypedDataCfg "" []) [].

(** *** The tri-state pass *)

(** a map from raw keys to values: exact keys, the last one wins *)
Definition raw_map (j : json) (k : string) : option json :=
  match j with
  | JObj ms => snd <$> List.find (λ m, bool_decide (m.1 = k)) (rev ms)
  | _ => None
  end.

Definition isPresentNull (obj : json) (key : string) : bool :=
  match raw_map obj key with Some JNull => true | _ => false end.

Definition mark_null (p : option string) (obj : json) (key : string) : option string :=
  match p with None => if isPresentNull obj key then nullStr else None | Some _ => p end.

Definition applyTriState (rawObj : json) (lim : Limits) : Limits :=
  match rawObj with
  | JObj _ | JNull =>
      {| MaxTxWei := mark_null (MaxTxWei lim) rawObj "max_tx_wei";
         MaxDayWei := mark_null (MaxDayWei lim) rawObj "max_day_wei";
         MaxGasPriceWei := mark_null (MaxGasPriceWei lim) rawObj "max_gas_price_wei";
         AllowlistEnabled := AllowlistEnabled lim; IncludeSelf := IncludeSelf lim;
         TypedDataUnknown := TypedDataUnknown lim |}
  | _ => lim
  end.

Definition apply_network (raw : json) (n : NetworkRule) : NetworkRule :=
  mkNetworkRule (nr_Network n) (applyTriState raw (nr_Limits n)).

(** the loop over the raw networks, bounded by the decoded ones *)
Fixpoint apply_networks (arr : list json) (ns : list NetworkRule) : list NetworkRule :=
  match arr, ns with
  | j :: arr, n :: ns => apply_network j n :: apply_networks arr ns
  | _, _ => ns
  end.

Definition reconcileTriState (top : json) (pol : Policy) : Policy :=
  let rules := match raw_map top "rules" with Some r => r | None => JNull end in
  let dflt := match raw_map rules "default" with
              | Some d => applyTriState d (r_Default (p_Rules pol))
              | None => r_Default (p_Rules pol)
              end in
  let nets := match raw_map rules "networks" with
              | Some (JArr arr) => apply_networks arr (r_Networks (p_Rules pol))
              | _ => r_Networks (p_Rules pol)
              end in
  {| p_Version := p_Version pol; p_Nonce := p_Nonce pol; p_UpdatedAt := p_UpdatedAt pol;
     p_WrittenBy := p_WrittenBy pol; p_Messages := p_Messages pol;
     p_TokensNoAllowlistOK := p_TokensNoAllowlistOK pol; p_Rules := mkRules dflt nets;
     p_Tokens := p_Tokens pol; p_Allowlist := p_Allowlist pol; p_Denylist := p_Denylist pol;
     p_SelfAddresses := p_SelfAddresses pol; p_TypedData := p_TypedData pol;
     p_ContractsAllowed := p_ContractsAllowed pol |}.

(** the decoder reads one value and ignores what follows; the tri-state pass
    parses the whole text and gives up when it cannot *)
Definition decodeBodyStrict (bodyRaw : string) : option Policy :=
  match json_decode bodyRaw with
  | None => None
  | Some (j, _) =>
      match d_struct true policy_fields zero_policy j with
      | None => None
      | Some pol => Some (match json_parse bodyRaw with Some top => reconcileTriState top pol | None => pol end)
      end
  end.
End Decode.
