(* ===== verification/PolicyBodyFacts.v ===== *)
(** * The sealed policy body: the round trip

    The text [writeBody] produces is the compact text of a tree, and the strict
    decoder reads the policy back from it, up to the order of the sorted lists
    and to a default typed-data override, which the writer drops. *)

From S2P Require Import Prelude GoStrings Decimal Encodings Json PolicyTypes PolicyBody.

Local Open Scope string_scope.
Local Open Scope Z_scope.
Local Open Scope list_scope.

(** ** Numbers *)

Lemma digits_fuel_head fuel base n acc :
  good_base base → 0 < n → n < base ^ Z.of_nat fuel →
  ∃ d r, digits_fuel fuel base n acc = String (digit_char d) r ∧ 0 < d < base.
Proof.
  intros Hb. assert (Hb2 : 2 ≤ base) by (destruct Hb; lia). revert n acc.
  induction fuel as [|f IH]; intros n acc Hn Hlt; [simpl in Hlt; lia|]. cbn [digits_fuel].
  destruct (Z.ltb_spec n base) as [Hs|Hs].
  - exists n, acc. by rewrite Z.mod_small by lia.
  - apply IH; [apply Z.div_str_pos; lia|].
    rewrite Nat2Z.inj_succ, Z.pow_succ_r in Hlt by lia. apply Z.div_lt_upper_bound; lia.
Qed.

Lemma nat_string_head n : 0 < n → ∃ d r, nat_string 10 n = String (digit_char d) r ∧ 0 < d < 10.
Proof.
  intros Hn. apply digits_fuel_head; [by left|done|].
  pose proof (Z.log2_spec n Hn) as [_ H]. eapply Z.lt_le_trans; [exact H|].
  rewrite Nat2Z.inj_succ, Z2Nat.id by apply Z.log2_nonneg.
  apply Z.pow_le_mono_l. lia.
Qed.

Lemma digits_num s : string_forallb is_digit s = true → string_forallb is_num_char s = true.
Proof.
  induction s as [|c s IH]; [done|]. cbn [string_forallb]. intros [Hc Hs]%andb_true_iff.
  rewrite IH by done. unfold is_num_char. by rewrite Hc.
Qed.

Lemma span_digits s : string_forallb is_digit s = true → span is_digit s = (s, "").
Proof. intros H. rewrite <-(string_app_nil_r s) at 1. by rewrite span_all. Qed.

Lemma valid_nat n : 0 ≤ n →
  valid_number (nat_string 10 n) = true ∧ string_forallb is_num_char (nat_string 10 n) = true ∧
  head_is 45 (nat_string 10 n) = None.
Proof.
  intros Hn. pose proof (nat_string_digits n Hn) as Hd.
  destruct (Z.eq_dec n 0) as [->|Hz]; [done|].
  destruct (nat_string_head n) as (d & r & E & Hr); [lia|]. rewrite E in *.
  cbn [string_forallb] in Hd. apply andb_true_iff in Hd as [_ Hd].
  assert (Hb : byteZ (digit_char d) = 48 + d).
  { unfold digit_char. destruct (Z.ltb_spec d 10); [|lia]. by rewrite byteZ_Zbyte by lia. }
  split_and!.
  - unfold valid_number. rewrite Hb. destruct (Z.eqb_spec (48 + d) 45); [lia|]. rewrite Hb.
    destruct (Z.eqb_spec (48 + d) 48); [lia|]. rewrite digit_char_digit by lia. by rewrite span_digits.
  - apply digits_num. cbn [string_forallb]. by rewrite digit_char_digit by lia.
  - apply head_is_miss. lia.
Qed.

Lemma valid_z n : valid_number (z_string n) = true ∧ string_forallb is_num_char (z_string n) = true.
Proof.
  unfold z_string. destruct (Z.ltb_spec n 0); [|destruct (valid_nat n) as (? & ? & _); by try lia].
  destruct (Z.eq_dec (- n) 0); [lia|]. destruct (valid_nat (- n)) as (Hv & Hc & Hm); [lia|].
  split; [|done]. destruct (nat_string_head (- n)) as (d & r & E & Hr); [lia|]. rewrite E in *.
  unfold valid_number in *. simpl in Hm. rewrite byteZ_Zbyte by lia.
  destruct (byteZ (digit_char d) =? 45); [done|]. exact Hv.
Qed.

(** ** The tree of a body *)

Definition tree_pstr (p : option string) : json :=
  match p with Some s => if isNull p then JNull else JStr s | None => JNull end.

Definition opt_member (key : string) (v : option json) : list (string * json) :=
  match v with Some j => [(key, j)] | None => [] end.

Definition limits_members (l : Limits) (perNetwork : bool) : list (string * json) :=
  opt_member "max_tx_wei" (tree_pstr ∘ Some <$> MaxTxWei l) ++
  opt_member "max_day_wei" (tree_pstr ∘ Some <$> MaxDayWei l) ++
  opt_member "max_gas_price_wei" (tree_pstr ∘ Some <$> MaxGasPriceWei l) ++
  opt_member "allowlist_enabled" (JBool <$> AllowlistEnabled l) ++
  opt_member "include_self" (JBool <$> IncludeSelf l) ++
  (if perNetwork then opt_member "typed_data_unknown" (JStr <$> TypedDataUnknown l) else []).

Definition network_tree (n : NetworkRule) : json :=
  JObj (("network", JStr (nr_Network n)) :: limits_members (nr_Limits n) true).

Definition rules_tree (r : Rules) : json :=
  JObj [("default", JObj (limits_members (r_Default r) false)); ("networks", JArr (map network_tree (r_Networks r)))].

Definition token_tree (t : TokenRule) : json :=
  JObj [("network", JStr (tr_Network t)); ("address", JStr (tr_Address t)); ("alias_at_set", JStr (tr_AliasAtSet t));
        ("allow_unlimited", match tr_AllowUnlimited t with Some b => JBool b | None => JNull end)].

Definition str_member (key v : string) : list (string * json) :=
  if bool_decide (v = "") then [] else [(key, JStr v)].

Definition pin_tree (p : PinEntry) : json :=
  JObj ([("source", JStr (pe_Source p)); ("address", JStr (pe_Address p))] ++ str_member "name" (pe_Name p) ++
        str_member "label" (pe_Label p) ++ str_member "added_at" (pe_AddedAt p) ++
        str_member "resolved_at" (pe_ResolvedAt p)).

Definition typed_allow_tree (a : TypedAllow) : json :=
  JObj [("chain_id", JNum (z_string (ta_ChainID a))); ("verifying_contract", JStr (ta_VerifyingContract a));
        ("primary_type", JStr (ta_PrimaryType a)); ("label", JStr (ta_Label a))].

Definition contract_tree (c : ContractAllow) : json :=
  JObj [("network", JStr (ca_Network c)); ("contract", JStr (ca_Contract c)); ("selector", JStr (ca_Selector c));
        ("label", JStr (ca_Label c)); ("added_at", JStr (ca_AddedAt c))].

Section Trees.
Context {SS : SortSlice}.

Definition typed_data_tree (td : TypedDataCfg) : json :=
  JObj [("unknown", JStr (td_Unknown td)); ("allowed", JArr (map typed_allow_tree (sortTypedAllow (td_Allowed td))))].

Definition body_tree (p : Policy) : json :=
  JObj [("version", JNum (z_string (p_Version p)));
        ("nonce", JNum (z_string (p_Nonce p)));
        ("updated_at", JStr (p_UpdatedAt p));
        ("written_by", JStr (p_WrittenBy p));
        ("messages", JStr (p_Messages p));
        ("tokens_no_allowlist_ok", JBool (p_TokensNoAllowlistOK p));
        ("rules", rules_tree (p_Rules p));
        ("tokens", JArr (map token_tree (sortTokens (p_Tokens p))));
        ("allowlist", JArr (map pin_tree (sortPins (p_Allowlist p))));
        ("denylist", JArr (map pin_tree (sortPins (p_Denylist p))));
        ("self_addresses", JArr (map JStr (sortStrings (p_SelfAddresses p))));
        ("typed_data", typed_data_tree (p_TypedData p));
        ("contracts_allowed", JArr (map contract_tree (sortContracts (p_ContractsAllowed p))))].

(** the rule names a limit, so its text is an object *)
Definition has_limit (n : NetworkRule) : bool := negb (bool_decide (limits_members (nr_Limits n) true = [])).

Lemma fieldWriter_members ms : fieldWriter (map (λ m, (m.1, render m.2)) ms) = String.concat comma (map mtext ms).
Proof. unfold fieldWriter. by rewrite map_map. Qed.

Lemma object_members fields ms :
  fields = map (λ m, (m.1, render m.2)) ms → write_object fields = render (JObj ms).
Proof. intros ->. unfold write_object. by rewrite fieldWriter_members, render_obj. Qed.

Lemma array_items {A} (f : A → string) (g : A → json) l :
  (∀ x, f x = render (g x)) → write_array (map f l) = render (JArr (map g l)).
Proof.
  intros H. unfold write_array. rewrite render_arr, map_map. do 3 f_equal. apply map_ext. exact H.
Qed.

Lemma emit_member key p : emit key p = (λ v, (key, render v)) <$> (tree_pstr ∘ Some <$> p).
Proof. destruct p as [s|]; [|done]. simpl. by destruct (bool_decide (s = nullSentinel)). Qed.

Lemma emitBool_member key p : emitBool key p = (λ v, (key, render v)) <$> (JBool <$> p).
Proof. by destruct p as [[]|]. Qed.

Lemma map_opt_member key v :
  map (λ m, (m.1, render m.2)) (opt_member key v) = option_list ((λ v, (key, render v)) <$> v).
Proof. by destruct v. Qed.

Lemma omap_option_list {A} (x : option A) l : omap id (x :: l) = option_list x ++ omap id l.
Proof. by destruct x. Qed.

Lemma writeLimitsInline_members l b :
  writeLimitsInline l b = String.concat comma (map mtext (limits_members l b)).
Proof.
  unfold writeLimitsInline. rewrite <-fieldWriter_members. f_equal. unfold limits_members.
  rewrite !map_app, !map_opt_member, !emit_member, !emitBool_member, !omap_option_list.
  do 5 f_equal. by destruct (TypedDataUnknown l), b.
Qed.

Lemma writeNetwork_tree n : has_limit n = true → writeNetwork n = render (network_tree n).
Proof.
  unfold has_limit. intros H%negb_true_iff%bool_decide_eq_false. unfold writeNetwork, network_tree.
  rewrite writeLimitsInline_members, render_obj. destruct (limits_members (nr_Limits n) true) as [|m ms]; [done|].
  cbn [map]. rewrite concat_cons2. unfold mtext at 2. cbn [fst snd]. by rewrite !string_app_assoc.
Qed.

Lemma writeRules_tree r :
  forallb has_limit (r_Networks r) = true → writeRules r = render (rules_tree r).
Proof.
  intros H. unfold writeRules, rules_tree, writeLimits. rewrite writeLimitsInline_members, render_obj.
  cbn [map String.concat]. unfold mtext at 2 3. cbn [fst snd]. rewrite render_obj, render_arr, !string_app_assoc.
  do 12 f_equal. rewrite map_map. apply map_ext_in. intros n Hn. apply writeNetwork_tree.
  rewrite forallb_forall in H. by apply H.
Qed.

Lemma writePins_tree ps : writePins ps = render (JArr (map pin_tree (sortPins ps))).
Proof.
  apply array_items. intros [s a n l t r]. apply object_members. cbn [pe_Source pe_Address pe_Name pe_Label pe_AddedAt pe_ResolvedAt].
  unfold strFieldOpt, str_member. by repeat case_bool_decide.
Qed.

Lemma writeTypedData_tree td : writeTypedData td = render (typed_data_tree td).
Proof.
  apply object_members. cbn [map fst snd]. do 3 f_equal. apply array_items. intros a. by apply object_members.
Qed.

Lemma writeBody_tree p :
  forallb has_limit (r_Networks (p_Rules p)) = true → writeBody p = render (body_tree p).
Proof.
  intros H. unfold writeBody. rewrite (writeRules_tree _ H), !writePins_tree.
  assert (Ht : writeTokens (p_Tokens p) = render (JArr (map token_tree (sortTokens (p_Tokens p))))).
  { apply array_items. intros [n a l [[]|]]; by apply object_members. }
  assert (Hs : writeStrings (p_SelfAddresses p) = render (JArr (map JStr (sortStrings (p_SelfAddresses p)))))
    by by apply array_items.
  assert (Hc : writeContracts (p_ContractsAllowed p) =
               render (JArr (map contract_tree (sortContracts (p_ContractsAllowed p))))).
  { apply array_items. intros c. by apply object_members. }
  rewrite Ht, Hs, Hc, writeTypedData_tree.
  apply (object_members _ (match body_tree p with JObj ms => ms | _ => [] end)).
  cbn [body_tree map fst snd]. by destruct (p_TokensNoAllowlistOK p).
Qed.
End Trees.

(** ** Decoding the tree *)

(** a limit as the first pass leaves it: an explicit null is a nil pointer *)
Definition strip_null (p : option string) : option string := if isNull p then None else p.

Definition strip_limits (l : Limits) (perNetwork : bool) : Limits :=
  mkLimits (strip_null (MaxTxWei l)) (strip_null (MaxDayWei l)) (strip_null (MaxGasPriceWei l))
    (AllowlistEnabled l) (IncludeSelf l) (if perNetwork then TypedDataUnknown l else None).

Definition keep_limits (l : Limits) (perNetwork : bool) : Limits :=
  mkLimits (MaxTxWei l) (MaxDayWei l) (MaxGasPriceWei l) (AllowlistEnabled l) (IncludeSelf l)
    (if perNetwork then TypedDataUnknown l else None).

(** one member of an object *)
Lemma d_member {UT : UnicodeTables} {R A} strict (fields : list (string * D R)) cur k v ms get set (d : D A) x :
  find_field fields k = Some (field get set d) → d (get cur) v = Some x →
  d_members strict fields cur ((k, v) :: ms) = d_members strict fields (set cur x) ms.
Proof. intros Hf Hd. cbn [d_members]. rewrite Hf. unfold field. by rewrite Hd. Qed.

Ltac read_member H := erewrite d_member; [|reflexivity|first [exact H|reflexivity]].

Section Decoding.
Context {UT : UnicodeTables} {SS : SortSlice}.

Lemma d_members_app {A} strict (fields : list (string * D A)) cur ms ms' :
  d_members strict fields cur (ms ++ ms') =
  match d_members strict fields cur ms with Some c => d_members strict fields c ms' | None => None end.
Proof.
  revert cur. induction ms as [|[k v] ms IH]; intros cur; [done|]. simpl.
  destruct (find_field fields k) as [d|]; [|by destruct strict]. by destruct (d cur v).
Qed.

Lemma d_opt_member {R A} strict (fields : list (string * D R)) key get set (d : D A) cur (v : option json) x :
  find_field fields key = Some (field get set d) →
  match v with Some j => d (get cur) j = Some x | None => set cur x = cur end →
  d_members strict fields cur (opt_member key v) = Some (set cur x).
Proof.
  intros Hf Hv. destruct v as [j|]; simpl.
  - rewrite Hf. unfold field. by rewrite Hv.
  - by rewrite Hv.
Qed.

Lemma d_pstr_tree s : d_pstr None (tree_pstr (Some s)) = Some (strip_null (Some s)).
Proof. unfold tree_pstr, strip_null. by destruct (isNull (Some s)). Qed.

Lemma d_limits_members l b :
  d_members true limits_fields zero_limits (limits_members l b) = Some (strip_limits l b).
Proof.
  destruct l as [t d g a i u]. unfold limits_members.
  cbn [MaxTxWei MaxDayWei MaxGasPriceWei AllowlistEnabled IncludeSelf TypedDataUnknown].
  rewrite d_members_app, (d_opt_member true limits_fields "max_tx_wei" MaxTxWei
    (λ '(mkLimits _ b c d e f) x, mkLimits x b c d e f) d_pstr _ _ (strip_null t));
    [|done|destruct t; [apply d_pstr_tree|done]]. cbn [zero_limits].
  rewrite d_members_app, (d_opt_member true limits_fields "max_day_wei" MaxDayWei
    (λ '(mkLimits a _ c d e f) x, mkLimits a x c d e f) d_pstr _ _ (strip_null d));
    [|done|destruct d; [apply d_pstr_tree|done]].
  rewrite d_members_app, (d_opt_member true limits_fields "max_gas_price_wei" MaxGasPriceWei
    (λ '(mkLimits a b _ d e f) x, mkLimits a b x d e f) d_pstr _ _ (strip_null g));
    [|done|destruct g; [apply d_pstr_tree|done]].
  rewrite d_members_app, (d_opt_member true limits_fields "allowlist_enabled" AllowlistEnabled
    (λ '(mkLimits a b c _ e f) x, mkLimits a b c x e f) d_pbool _ _ a); [|done|by destruct a].
  rewrite d_members_app, (d_opt_member true limits_fields "include_self" IncludeSelf
    (λ '(mkLimits a b c d _ f) x, mkLimits a b c d x f) d_pbool _ _ i); [|done|by destruct i].
  destruct b; [|done].
  rewrite (d_opt_member true limits_fields "typed_data_unknown" TypedDataUnknown
    (λ '(mkLimits a b c d e _) x, mkLimits a b c d e x) d_pstr _ _ u); [done|done|by destruct u].
Qed.

(** the keys of a limit block name the same fields in a network rule *)
Lemma limits_member_key l b m :
  m ∈ limits_members l b →
  m.1 ∈ ["max_tx_wei"; "max_day_wei"; "max_gas_price_wei"; "allowlist_enabled"; "include_self"; "typed_data_unknown"].
Proof.
  unfold limits_members. assert (H : ∀ k v, m ∈ opt_member k v → m.1 = k).
  { intros k [j|] Hm; [|by apply elem_of_nil in Hm]. apply list_elem_of_singleton in Hm. by subst. }
  rewrite !elem_of_app. intros Hm.
  destruct_or! Hm; [..|destruct b; [|by apply elem_of_nil in Hm]]; apply H in Hm as ->; set_solver.
Qed.

Definition promote (d : D Limits) : D NetworkRule :=
  field nr_Limits (λ '(mkNetworkRule n _) l, mkNetworkRule n l) d.

Lemma d_network_members n l ms :
  Forall (λ m : string * json,
    m.1 ∈ ["max_tx_wei"; "max_day_wei"; "max_gas_price_wei"; "allowlist_enabled"; "include_self"; "typed_data_unknown"]) ms →
  d_members true network_fields (mkNetworkRule n l) ms =
  match d_members true limits_fields l ms with Some l => Some (mkNetworkRule n l) | None => None end.
Proof.
  revert l. induction ms as [|[k v] ms IH]; intros l Hms; [done|].
  apply Forall_cons in Hms as [Hk Hms]. simpl in Hk.
  assert (Hf : ∃ d, find_field limits_fields k = Some d ∧ find_field network_fields k = Some (promote d)).
  { repeat (apply elem_of_cons in Hk as [->|Hk]; [eexists; split; reflexivity|]). by apply elem_of_nil in Hk. }
  destruct Hf as (d & Hl & Hn). cbn [d_members]. rewrite Hl, Hn. unfold promote, field. simpl.
  destruct (d l v) as [l'|]; [|done]. by apply IH.
Qed.

Lemma d_network_tree n :
  d_network zero_network (network_tree n) = Some (mkNetworkRule (nr_Network n) (strip_limits (nr_Limits n) true)).
Proof.
  unfold d_network, network_tree, d_struct. cbn [d_members].
  change (find_field network_fields "network") with
    (Some (field nr_Network (λ '(mkNetworkRule _ l) x, mkNetworkRule x l) d_string)).
  cbn [field d_string zero_network nr_Network]. rewrite d_network_members, d_limits_members; [done|].
  apply Forall_forall. intros m. apply limits_member_key.
Qed.

Lemma d_elems_tree {A B} (zero : A) (d : D A) (tree : B → json) (f : B → A) l :
  (∀ x, x ∈ l → d zero (tree x) = Some (f x)) → d_elems zero d [] (map tree l) = Some (map f l).
Proof.
  induction l as [|x l IH]; intros H; [done|]. simpl.
  rewrite (H x) by (by left). change (tl []) with (@nil A). rewrite IH; [done|]. intros y Hy. apply H. by right.
Qed.

Lemma d_slice_tree {A} (zero : A) (d : D A) (tree : A → json) l :
  (∀ x, x ∈ l → d zero (tree x) = Some x) → d_slice zero d [] (JArr (map tree l)) = Some l.
Proof. intros H. unfold d_slice. by rewrite (d_elems_tree zero d tree id), map_id. Qed.

Lemma d_int_tree cur n : - 2 ^ 63 ≤ n < 2 ^ 63 → d_int cur (JNum (z_string n)) = Some n.
Proof.
  intros Hn. unfold d_int. rewrite SetString_z_string.
  destruct (Z.leb_spec (- 2 ^ 63) n); [|lia]. by destruct (Z.ltb_spec n (2 ^ 63)); [|lia].
Qed.

Lemma d_uint64_tree cur n : 0 ≤ n < 2 ^ 64 → d_uint64 cur (JNum (z_string n)) = Some n.
Proof.
  intros Hn. unfold d_uint64. rewrite SetString_z_string. unfold z_string.
  destruct (Z.ltb_spec n 0); [lia|]. destruct (valid_nat n) as (_ & _ & ->); [lia|].
  by destruct (Z.ltb_spec n (2 ^ 64)); [|lia].
Qed.

Lemma d_token_tree t : d_token zero_token (token_tree t) = Some t.
Proof. by destruct t as [n a l [[]|]]. Qed.

Lemma d_contract_tree c : d_contract zero_contract (contract_tree c) = Some c.
Proof. by destruct c. Qed.

Lemma d_pin_tree p : d_pin zero_pin (pin_tree p) = Some p.
Proof.
  destruct p as [s a n l t r]. unfold d_pin, pin_tree, d_struct, str_member.
  cbn [pe_Source pe_Address pe_Name pe_Label pe_AddedAt pe_ResolvedAt].
  repeat case_bool_decide; subst; reflexivity.
Qed.

Lemma d_typed_allow_tree a :
  - 2 ^ 63 ≤ ta_ChainID a < 2 ^ 63 → d_typed_allow zero_typed_allow (typed_allow_tree a) = Some a.
Proof.
  intros Ha. destruct a as [c v t l]. unfold d_typed_allow, typed_allow_tree, d_struct. cbn [d_members ta_ChainID] in *.
  change (find_field _ "chain_id") with
    (Some (field ta_ChainID (λ '(mkTypedAllow _ b c d) x, mkTypedAllow x b c d) d_int)).
  unfold field at 1. by rewrite d_int_tree.
Qed.

Lemma d_rules_tree r :
  d_rules (mkRules zero_limits []) (rules_tree r) =
  Some (mkRules (strip_limits (r_Default r) false)
          (map (λ n, mkNetworkRule (nr_Network n) (strip_limits (nr_Limits n) true)) (r_Networks r))).
Proof.
  unfold d_rules, rules_tree, d_struct. cbn [d_members].
  change (find_field _ "default") with (Some (field r_Default (λ '(mkRules _ n) x, mkRules x n) d_limits)).
  unfold field at 1. cbn [r_Default]. unfold d_limits, d_struct. rewrite d_limits_members.
  change (find_field _ "networks") with
    (Some (field r_Networks (λ '(mkRules d _) x, mkRules d x) (d_slice zero_network d_network))).
  unfold field, d_slice. cbn [r_Networks]. rewrite (d_elems_tree _ _ _ _ _ (λ x _, d_network_tree x)). done.
Qed.

(** *** The tri-state pass *)

Definition keys (ms : list (string * json)) : list string := map fst ms.

Lemma raw_map_mid pre key v post :
  key ∉ keys pre → key ∉ keys post → raw_map (JObj (pre ++ opt_member key v ++ post)) key = v.
Proof.
  intros Hpre Hpost.
  assert (Hm : ∀ ms (t : list (string * json)), key ∉ keys ms →
    List.find (λ m : string * json, bool_decide (m.1 = key)) (rev ms ++ t) =
    List.find (λ m, bool_decide (m.1 = key)) t).
  { induction ms as [|[k j] ms IH]; intros t Hk; [done|]. apply not_elem_of_cons in Hk as [Hk Hms].
    simpl. rewrite <-app_assoc, IH by done. simpl. by rewrite bool_decide_false by (simpl in Hk; congruence). }
  unfold raw_map. rewrite !rev_app_distr, <-app_assoc, Hm by done.
  destruct v as [j|]; cbn [opt_member rev app].
  - cbn [List.find fst]. by rewrite bool_decide_true.
  - rewrite <-(app_nil_r (rev pre)). by rewrite Hm.
Qed.

Lemma keys_opt key v : key ∉ keys (opt_member key v) → v = None.
Proof. destruct v; [|done]. intros H. exfalso. apply H. by left. Qed.

Lemma keys_app ms ms' : keys (ms ++ ms') = keys ms ++ keys ms'.
Proof. apply map_app. Qed.

Lemma keys_opt_member k key v : k ≠ key → k ∉ keys (opt_member key v).
Proof. intros Hk. destruct v; simpl; [|apply not_elem_of_nil]. by intros ?%list_elem_of_singleton. Qed.

Lemma raw_limits pre l b :
  (∀ k, k ∈ ["max_tx_wei"; "max_day_wei"; "max_gas_price_wei"] → k ∉ keys pre) →
  raw_map (JObj (pre ++ limits_members l b)) "max_tx_wei" = (tree_pstr ∘ Some <$> MaxTxWei l) ∧
  raw_map (JObj (pre ++ limits_members l b)) "max_day_wei" = (tree_pstr ∘ Some <$> MaxDayWei l) ∧
  raw_map (JObj (pre ++ limits_members l b)) "max_gas_price_wei" = (tree_pstr ∘ Some <$> MaxGasPriceWei l).
Proof.
  intros Hpre. unfold limits_members. set (u := if b then _ else _).
  assert (Hu : ∀ k, k ≠ "typed_data_unknown" → k ∉ keys u).
  { intros k Hk. destruct b; [by apply keys_opt_member|apply not_elem_of_nil]. }
  assert (H1 := Hpre "max_tx_wei" ltac:(set_solver)). assert (H2 := Hpre "max_day_wei" ltac:(set_solver)).
  assert (H3 := Hpre "max_gas_price_wei" ltac:(set_solver)). split_and!.
  - apply raw_map_mid; [done|]. rewrite !keys_app, !not_elem_of_app. split_and!; (by apply keys_opt_member) || by apply Hu.
  - rewrite (app_assoc pre). apply raw_map_mid.
    + rewrite keys_app, not_elem_of_app. split; [done|by apply keys_opt_member].
    + rewrite !keys_app, !not_elem_of_app. split_and!; (by apply keys_opt_member) || by apply Hu.
  - rewrite (app_assoc pre), (app_assoc (pre ++ _)). apply raw_map_mid.
    + rewrite !keys_app, !not_elem_of_app. split_and!; done || by apply keys_opt_member.
    + rewrite !keys_app, !not_elem_of_app. split_and!; (by apply keys_opt_member) || by apply Hu.
Qed.

Lemma mark_strip p obj key :
  raw_map obj key = (tree_pstr ∘ Some <$> p) → mark_null (strip_null p) obj key = p.
Proof.
  intros H. unfold mark_null, strip_null, isPresentNull. rewrite H. destruct p as [s|]; [|done].
  unfold isNull. simpl. case_bool_decide as E; [|done]. by rewrite E.
Qed.

Lemma applyTriState_strip pre l b :
  (∀ k, k ∈ ["max_tx_wei"; "max_day_wei"; "max_gas_price_wei"] → k ∉ keys pre) →
  applyTriState (JObj (pre ++ limits_members l b)) (strip_limits l b) = keep_limits l b.
Proof.
  intros Hpre. destruct (raw_limits pre l b Hpre) as (H1 & H2 & H3). unfold applyTriState, strip_limits, keep_limits.
  cbn [MaxTxWei MaxDayWei MaxGasPriceWei AllowlistEnabled IncludeSelf TypedDataUnknown].
  by rewrite !mark_strip.
Qed.

Lemma apply_network_tree n :
  apply_network (network_tree n) (mkNetworkRule (nr_Network n) (strip_limits (nr_Limits n) true)) = n.
Proof.
  unfold apply_network, network_tree. cbn [nr_Network nr_Limits].
  change (("network", JStr (nr_Network n)) :: limits_members (nr_Limits n) true)
    with ([("network", JStr (nr_Network n))] ++ limits_members (nr_Limits n) true).
  rewrite applyTriState_strip by (intros k; set_unfold; naive_solver). by destruct n as [? []].
Qed.

Lemma apply_networks_tree ns :
  apply_networks (map network_tree ns)
    (map (λ n, mkNetworkRule (nr_Network n) (strip_limits (nr_Limits n) true)) ns) = ns.
Proof. induction ns as [|n ns IH]; [done|]. cbn [map apply_networks]. by rewrite apply_network_tree, IH. Qed.
End Decoding.
