(* ===== verification/PolicyBodyProps.v ===== *)
(** * The sealed policy body: its properties *)

From S2P Require Import Prelude GoStrings Decimal Encodings Json PolicyTypes PolicyBody PolicyBodyFacts.

Local Open Scope string_scope.
Local Open Scope Z_scope.
Local Open Scope list_scope.

Definition limits_strings (l : Limits) : list string :=
  option_list (MaxTxWei l) ++ option_list (MaxDayWei l) ++ option_list (MaxGasPriceWei l) ++
  option_list (TypedDataUnknown l).

(** every string of a policy *)
Definition policy_strings (p : Policy) : list string :=
  [p_UpdatedAt p; p_WrittenBy p; p_Messages p] ++
  limits_strings (r_Default (p_Rules p)) ++
  concat (map (λ n, nr_Network n :: limits_strings (nr_Limits n)) (r_Networks (p_Rules p))) ++
  concat (map (λ t, [tr_Network t; tr_Address t; tr_AliasAtSet t]) (p_Tokens p)) ++
  concat (map (λ e, [pe_Source e; pe_Address e; pe_Name e; pe_Label e; pe_AddedAt e; pe_ResolvedAt e])
            (p_Allowlist p ++ p_Denylist p)) ++
  p_SelfAddresses p ++
  [td_Unknown (p_TypedData p)] ++
  concat (map (λ a, [ta_VerifyingContract a; ta_PrimaryType a; ta_Label a]) (td_Allowed (p_TypedData p))) ++
  concat (map (λ c, [ca_Network c; ca_Contract c; ca_Selector c; ca_Label c; ca_AddedAt c]) (p_ContractsAllowed p)).

Definition utf8_policy (p : Policy) : Prop := Forall (λ s, valid_utf8 s = true) (policy_strings p).

(** the machine integers of the struct *)
Definition int_ranges (p : Policy) : Prop :=
  - 2 ^ 63 ≤ p_Version p < 2 ^ 63 ∧ 0 ≤ p_Nonce p < 2 ^ 64 ∧
  Forall (λ a, - 2 ^ 63 ≤ ta_ChainID a < 2 ^ 63) (td_Allowed (p_TypedData p)).

(** every network rule names a limit *)
Definition limits_named (p : Policy) : Prop := forallb has_limit (r_Networks (p_Rules p)) = true.

Section Canonical.
Context {SS : SortSlice}.

(** the policy the text denotes: lists in the written order, and no typed-data
    override in the default block *)
Definition canonical (p : Policy) : Policy :=
  {| p_Version := p_Version p; p_Nonce := p_Nonce p; p_UpdatedAt := p_UpdatedAt p; p_WrittenBy := p_WrittenBy p;
     p_Messages := p_Messages p; p_TokensNoAllowlistOK := p_TokensNoAllowlistOK p;
     p_Rules := mkRules (keep_limits (r_Default (p_Rules p)) false) (r_Networks (p_Rules p));
     p_Tokens := sortTokens (p_Tokens p);
     p_Allowlist := sortPins (p_Allowlist p); p_Denylist := sortPins (p_Denylist p);
     p_SelfAddresses := sortStrings (p_SelfAddresses p);
     p_TypedData := mkTypedDataCfg (td_Unknown (p_TypedData p)) (sortTypedAllow (td_Allowed (p_TypedData p)));
     p_ContractsAllowed := sortContracts (p_ContractsAllowed p) |}.
End Canonical.

Section Facts.
Context {UT : UnicodeTables} {SS : SortSlice}.

(** ** Well-formedness of the tree *)

Lemma wf_arr {A} (tree : A → json) less l :
  (∀ x, x ∈ l → wf_json (tree x) = true) → wf_json (JArr (map tree (sort_slice less l))) = true.
Proof.
  intros H. cbn [wf_json]. apply forallb_forall. intros j (x & <- & Hx)%in_map_iff.
  apply H. rewrite <-(sort_slice_perm less l). by apply list_elem_of_In.
Qed.

Lemma wf_members ms ms' :
  wf_json (JObj ms) = true → wf_json (JObj ms') = true → wf_json (JObj (ms ++ ms')) = true.
Proof. cbn [wf_json]. intros H1 H2. by rewrite forallb_app, H1, H2. Qed.

Lemma wf_opt key v :
  valid_utf8 key = true → (∀ j, v = Some j → wf_json j = true) → wf_json (JObj (opt_member key v)) = true.
Proof. intros Hk H. destruct v as [j|]; [|done]. cbn [opt_member wf_json forallb fst snd]. by rewrite Hk, H. Qed.

Lemma wf_pstr key p :
  valid_utf8 key = true → Forall (λ s, valid_utf8 s = true) (option_list p) →
  wf_json (JObj (opt_member key (tree_pstr ∘ Some <$> p))) = true.
Proof.
  intros Hk Hp. apply wf_opt; [done|]. intros j. destruct p as [s|]; [|done]. intros [= <-].
  apply Forall_cons in Hp as [Hs _]. simpl. by case_bool_decide.
Qed.

Lemma wf_limits l b :
  Forall (λ s, valid_utf8 s = true) (limits_strings l) → wf_json (JObj (limits_members l b)) = true.
Proof.
  unfold limits_strings, limits_members. rewrite !Forall_app. intros (H1 & H2 & H3 & H4).
  repeat apply wf_members; try (by apply wf_pstr).
  - apply wf_opt; [done|]. intros j. by destruct (AllowlistEnabled l); intros [= <-].
  - apply wf_opt; [done|]. intros j. by destruct (IncludeSelf l); intros [= <-].
  - destruct b; [|done]. apply wf_opt; [done|]. intros j. destruct (TypedDataUnknown l); intros [= <-].
    by apply Forall_cons in H4 as [H4 _].
Qed.

Lemma wf_num key n : valid_utf8 key = true → wf_json (JObj [(key, JNum (z_string n))]) = true.
Proof. intros Hk. destruct (valid_z n) as [H1 H2]. cbn [wf_json forallb fst snd]. by rewrite Hk, H1, H2. Qed.

Lemma wf_str key s : valid_utf8 key = true → valid_utf8 s = true → wf_json (JObj [(key, JStr s)]) = true.
Proof. intros Hk Hs. cbn [wf_json forallb fst snd]. by rewrite Hk, Hs. Qed.

Lemma wf_cons key j ms :
  valid_utf8 key = true → wf_json j = true → wf_json (JObj ms) = true → wf_json (JObj ((key, j) :: ms)) = true.
Proof. cbn [wf_json forallb fst snd]. by intros -> -> ->. Qed.

Lemma wf_str_member key s : valid_utf8 key = true → valid_utf8 s = true → wf_json (JObj (str_member key s)) = true.
Proof. intros Hk Hs. unfold str_member. case_bool_decide; [done|]. by apply wf_str. Qed.

Lemma Forall_concat_map {A} (P : string → Prop) (f : A → list string) l :
  Forall P (concat (map f l)) ↔ ∀ x, x ∈ l → Forall P (f x).
Proof.
  induction l as [|y l IH]; [split; [intros _ x Hx; by apply elem_of_nil in Hx|by constructor]|].
  simpl. rewrite Forall_app, IH. split.
  - intros [H1 H2] x [->|Hx]%elem_of_cons; [done|by apply H2].
  - intros H. split; [apply H; by left|]. intros x Hx. apply H. by right.
Qed.

(** the pieces of [utf8_policy] *)
Lemma utf8_pieces p :
  utf8_policy p →
  let ok s := valid_utf8 s = true in
  (ok (p_UpdatedAt p) ∧ ok (p_WrittenBy p) ∧ ok (p_Messages p)) ∧
  Forall ok (limits_strings (r_Default (p_Rules p))) ∧
  (∀ n, n ∈ r_Networks (p_Rules p) → ok (nr_Network n) ∧ Forall ok (limits_strings (nr_Limits n))) ∧
  (∀ t, t ∈ p_Tokens p → wf_json (token_tree t) = true) ∧
  (∀ e, e ∈ p_Allowlist p ∨ e ∈ p_Denylist p → wf_json (pin_tree e) = true) ∧
  (∀ s, s ∈ p_SelfAddresses p → ok s) ∧
  ok (td_Unknown (p_TypedData p)) ∧
  (∀ a, a ∈ td_Allowed (p_TypedData p) → wf_json (typed_allow_tree a) = true) ∧
  (∀ c, c ∈ p_ContractsAllowed p → wf_json (contract_tree c) = true).
Proof.
  cbv zeta. unfold utf8_policy, policy_strings. rewrite !Forall_app, !Forall_concat_map.
  intros (H1 & H2 & H3 & H4 & H5 & H6 & H7 & H8 & H9).
  apply Forall_cons in H7 as [H7 _]. apply Forall_cons in H1 as [Ha H1]. apply Forall_cons in H1 as [Hb H1]. apply Forall_cons in H1 as [Hc _].
  split_and!; try done.
  - intros n Hn. pose proof (H3 n Hn) as H. by apply Forall_cons in H.
  - intros t Ht. pose proof (H4 t Ht) as H. rewrite !Forall_cons in H. destruct H as (? & ? & ? & _).
    unfold token_tree. repeat apply wf_cons; try done. by destruct (tr_AllowUnlimited t).
  - intros e He. pose proof (H5 e ltac:(by apply elem_of_app)) as H. rewrite !Forall_cons in H.
    destruct H as (? & ? & ? & ? & ? & ? & _). unfold pin_tree. repeat apply wf_cons; try done.
    repeat apply wf_members; by apply wf_str_member.
  - by rewrite Forall_forall in H6.
  - intros a Ha'. pose proof (H8 a Ha') as H. rewrite !Forall_cons in H. destruct H as (? & ? & ? & _).
    unfold typed_allow_tree. repeat apply wf_cons; try done. by apply andb_true_iff, valid_z.
  - intros c Hc'. pose proof (H9 c Hc') as H. rewrite !Forall_cons in H. destruct H as (? & ? & ? & ? & ? & _).
    unfold contract_tree. by repeat apply wf_cons.
Qed.

Lemma wf_network n :
  valid_utf8 (nr_Network n) = true → Forall (λ s, valid_utf8 s = true) (limits_strings (nr_Limits n)) →
  wf_json (network_tree n) = true.
Proof. intros H1 H2. unfold network_tree. apply wf_cons; [done|done|]. by apply wf_limits. Qed.

Lemma wf_body p : utf8_policy p → wf_json (body_tree p) = true.
Proof.
  intros ((Ha & Hb & Hc) & Hd & Hn & Ht & Hp & Hs & Hu & Hal & Hco)%utf8_pieces. unfold body_tree.
  assert (Hz : ∀ n, wf_json (JNum (z_string n)) = true) by (intros n; by apply andb_true_iff, valid_z).
  assert (Hr : wf_json (rules_tree (p_Rules p)) = true).
  { unfold rules_tree. apply wf_cons; [done|by apply wf_limits|]. apply wf_cons; [done| |done].
    cbn [wf_json]. apply forallb_forall. intros j (n & <- & Hin)%in_map_iff.
    apply list_elem_of_In, Hn in Hin as [??]. by apply wf_network. }
  assert (Htd : wf_json (typed_data_tree (p_TypedData p)) = true).
  { unfold typed_data_tree. apply wf_cons; [done|done|]. apply wf_cons; [done|by apply wf_arr|done]. }
  apply wf_cons; [done|apply Hz|]. apply wf_cons; [done|apply Hz|].
  do 4 (apply wf_cons; [done|done|]). apply wf_cons; [done|exact Hr|].
  apply wf_cons; [done|by apply wf_arr|].
  apply wf_cons; [done|apply wf_arr; intros e He; apply Hp; by left|].
  apply wf_cons; [done|apply wf_arr; intros e He; apply Hp; by right|].
  apply wf_cons; [done|by apply wf_arr|]. apply wf_cons; [done|exact Htd|].
  by apply wf_cons; [done|apply wf_arr|].
Qed.

(** ** Decoding the tree *)

Lemma d_typed_data_tree td :
  Forall (λ a, - 2 ^ 63 ≤ ta_ChainID a < 2 ^ 63) (td_Allowed td) →
  d_typed_data (mkTypedDataCfg "" []) (typed_data_tree td) =
  Some (mkTypedDataCfg (td_Unknown td) (sortTypedAllow (td_Allowed td))).
Proof.
  intros Ha. unfold d_typed_data, d_struct, typed_data_tree. cbn [d_members].
  change (find_field _ "unknown") with (Some (field td_Unknown (λ '(mkTypedDataCfg _ b) x, mkTypedDataCfg x b) d_string)).
  cbn [field d_string td_Unknown].
  change (find_field _ "allowed") with (Some (field td_Allowed (λ '(mkTypedDataCfg a _) x, mkTypedDataCfg a x)
                 (d_slice zero_typed_allow d_typed_allow))).
  unfold field. cbn [td_Allowed]. rewrite d_slice_tree; [done|].
  intros a Hin. apply d_typed_allow_tree. rewrite Forall_forall in Ha. apply Ha.
  unfold sortTypedAllow in Hin. by rewrite sort_slice_perm in Hin.
Qed.

Lemma d_body_tree p :
  int_ranges p →
  d_struct true policy_fields zero_policy (body_tree p) =
  Some {| p_Version := p_Version p; p_Nonce := p_Nonce p; p_UpdatedAt := p_UpdatedAt p;
     p_WrittenBy := p_WrittenBy p; p_Messages := p_Messages p;
     p_TokensNoAllowlistOK := p_TokensNoAllowlistOK p;
     p_Rules := mkRules (strip_limits (r_Default (p_Rules p)) false)
       (map (λ n, mkNetworkRule (nr_Network n) (strip_limits (nr_Limits n) true)) (r_Networks (p_Rules p)));
     p_Tokens := sortTokens (p_Tokens p);
     p_Allowlist := sortPins (p_Allowlist p); p_Denylist := sortPins (p_Denylist p);
     p_SelfAddresses := sortStrings (p_SelfAddresses p);
     p_TypedData := mkTypedDataCfg (td_Unknown (p_TypedData p)) (sortTypedAllow (td_Allowed (p_TypedData p)));
     p_ContractsAllowed := sortContracts (p_ContractsAllowed p) |}.
Proof.
  intros (Hv & Hn & Ha). unfold d_struct, body_tree. cbv iota beta.
  assert (Hgo : ∀ (fields : list (string * D Policy)) c c' k v ms (d : D Policy),
    find_field fields k = Some d → d c v = Some c' →
    d_members true fields c ((k, v) :: ms) = d_members true fields c' ms).
  { intros fields c c' k v ms d Hf Hd. cbn [d_members]. by rewrite Hf, Hd. }
  assert (Hfield : ∀ A (get : Policy → A) set (d : D A) c v x,
    d (get c) v = Some x → field get set d c v = Some (set c x)) by (intros; unfold field; by rewrite H).
  do 13 (erewrite Hgo; [|reflexivity|apply Hfield;
    first [ by apply d_int_tree | by apply d_uint64_tree | reflexivity | apply d_rules_tree
          | apply d_slice_tree; intros x Hx;
            first [apply d_token_tree | apply d_pin_tree | apply d_contract_tree | done]
          | by apply d_typed_data_tree ] ]).
  reflexivity.
Qed.

Lemma decode_body p :
  utf8_policy p → int_ranges p → limits_named p → decodeBodyStrict (writeBody p) = Some (canonical p).
Proof.
  intros Hu Hi Hl. pose proof (wf_body p Hu) as Hw. unfold decodeBodyStrict. rewrite (writeBody_tree p Hl).
  rewrite <-(string_app_nil_r (render (body_tree p))) at 1. rewrite decode_render by done.
  rewrite d_body_tree by done. rewrite parse_render by done. do 2 f_equal.
  unfold reconcileTriState.
  change (raw_map (body_tree p) "rules") with (Some (rules_tree (p_Rules p))). cbn iota.
  change (raw_map (rules_tree (p_Rules p)) "default") with
    (Some (JObj ([] ++ limits_members (r_Default (p_Rules p)) false))).
  change (raw_map (rules_tree (p_Rules p)) "networks") with
    (Some (JArr (map network_tree (r_Networks (p_Rules p))))).
  cbn [p_Rules r_Default r_Networks]. cbn iota.
  by rewrite applyTriState_strip, apply_networks_tree by (intros ? _; apply not_elem_of_nil).
Qed.

(** ** A rule without limits *)

Lemma writeNetwork_limitless n rest :
  has_limit n = false → valid_utf8 (nr_Network n) = true → no_value (writeNetwork n +:+ rest).
Proof.
  unfold has_limit. intros H%negb_false_iff%bool_decide_eq_true Hn.
  unfold writeNetwork. rewrite writeLimitsInline_members, H, !string_app_assoc. cbn [map String.concat].
  rewrite string_app_nil_l. apply no_value_obj; [by eexists _, _|].
  apply (no_members_more "network" (JStr (nr_Network n))); [done..|]. apply no_members_brace.
Qed.

Lemma writeNetwork_head n : ∃ r, writeNetwork n = "{" +:+ r.
Proof. by eexists. Qed.

Lemma networks_limitless l1 n l2 rest :
  forallb has_limit l1 = true → has_limit n = false →
  (∀ x, x ∈ l1 ++ [n] → wf_json (network_tree x) = true ∧ valid_utf8 (nr_Network x) = true) →
  no_elems (String.concat comma (map writeNetwork (l1 ++ n :: l2)) +:+ rest).
Proof.
  intros H1 Hn Hw. induction l1 as [|x l1 IH].
  - apply no_elems_value. destruct (Hw n ltac:(by left)) as [_ Hv]. cbn [app map].
    destruct l2 as [|y l2]; [cbn [map String.concat]|cbn [map]; rewrite concat_cons2, string_app_assoc];
      by apply writeNetwork_limitless.
  - cbn [forallb] in H1. apply andb_true_iff in H1 as [Hx H1]. cbn [app map].
    destruct (map writeNetwork (l1 ++ n :: l2)) as [|y l] eqn:E; [by destruct l1|].
    rewrite concat_cons2, !string_app_assoc, (writeNetwork_tree x Hx).
    apply no_elems_more; [apply Hw; by left|]. apply IH; [done|]. intros z Hz. apply Hw. by right.
Qed.

Lemma first_limitless ns :
  forallb has_limit ns = false → ∃ l1 n l2, ns = l1 ++ n :: l2 ∧ forallb has_limit l1 = true ∧ has_limit n = false.
Proof.
  induction ns as [|x ns IH]; [done|]. cbn [forallb]. destruct (has_limit x) eqn:Hx; simpl.
  - intros (l1 & n & l2 & -> & H1 & Hn)%IH. exists (x :: l1), n, l2. split; [done|]. by rewrite <-H1; simpl; rewrite Hx.
  - intros _. by exists [], x, ns.
Qed.

Lemma writeLimits_tree l b : writeLimits l b = render (JObj (limits_members l b)).
Proof. unfold writeLimits. by rewrite writeLimitsInline_members, render_obj. Qed.

Lemma writeRules_limitless p rest :
  utf8_policy p → ¬ limits_named p → no_value (writeRules (p_Rules p) +:+ rest).
Proof.
  intros (_ & Hd & Hn & _)%utf8_pieces Hl. apply not_true_is_false in Hl.
  apply first_limitless in Hl as (l1 & n & l2 & E & H1 & H2).
  unfold writeRules. rewrite E, writeLimits_tree, !string_app_assoc.
  apply no_value_obj; [by eexists _, _|].
  apply (no_members_more "default"); [done|by apply wf_limits|]. apply (no_members_value "networks"); [done|].
  apply no_value_arr.
  - destruct l1 as [|y l1]; cbn [app map]; [destruct (map writeNetwork l2)|destruct (map writeNetwork (l1 ++ n :: l2))];
      rewrite ?concat_cons2; cbn [String.concat]; unfold writeNetwork; rewrite ?string_app_assoc; by eexists _, _.
  - apply networks_limitless; [done|done|]. intros x Hx.
    destruct (Hn x) as [Hv Hs]; [rewrite E; set_solver|]. split; [by apply wf_network|done].
Qed.

Lemma valid_fields fields :
  Forall (λ f : string * string, valid_utf8 f.1 = true ∧ valid_utf8 f.2 = true) fields →
  valid_utf8 (fieldWriter fields) = true.
Proof.
  intros H. unfold fieldWriter. apply valid_utf8_concat, Forall_fmap. rewrite !Forall_forall in *.
  intros f Hf. destruct (H f Hf) as [Hk Hv]. simpl. apply valid_utf8_app; [by apply valid_utf8_jsonString|].
  by apply valid_utf8_app.
Qed.

Lemma valid_array items :
  Forall (λ s, valid_utf8 s = true) items → valid_utf8 (write_array items) = true.
Proof. intros H. apply valid_utf8_app; [done|]. apply valid_utf8_app; [|done]. by apply valid_utf8_concat. Qed.

Lemma valid_rules p : utf8_policy p → valid_utf8 (writeRules (p_Rules p)) = true.
Proof.
  intros (_ & Hd & Hn & _)%utf8_pieces. unfold writeRules. rewrite writeLimits_tree.
  repeat (apply valid_utf8_app; [first [done | by apply render_valid, wf_limits]|]).
  apply valid_utf8_app; [|done]. apply valid_utf8_concat, Forall_fmap, Forall_forall. intros n Hin. simpl.
  destruct (Hn n Hin) as [Hv Hl]. unfold writeNetwork. rewrite writeLimitsInline_members.
  repeat (apply valid_utf8_app; [first [done | by apply valid_utf8_jsonString | by apply members_valid, wf_limits]|]).
  done.
Qed.

(** the fields in front of the rules *)
Definition front (p : Policy) : list (string * json) :=
  [("version", JNum (z_string (p_Version p))); ("nonce", JNum (z_string (p_Nonce p)));
   ("updated_at", JStr (p_UpdatedAt p)); ("written_by", JStr (p_WrittenBy p));
   ("messages", JStr (p_Messages p)); ("tokens_no_allowlist_ok", JBool (p_TokensNoAllowlistOK p))].

(** the fields behind the rules, as text *)
Definition back (p : Policy) : list (string * string) :=
  [("tokens", writeTokens (p_Tokens p)); ("allowlist", writePins (p_Allowlist p));
   ("denylist", writePins (p_Denylist p)); ("self_addresses", writeStrings (p_SelfAddresses p));
   ("typed_data", writeTypedData (p_TypedData p)); ("contracts_allowed", writeContracts (p_ContractsAllowed p))].

Lemma writeBody_parts p :
  writeBody p = "{" +:+ fieldWriter (map (λ m, (m.1, render m.2)) (front p) ++ ("rules", writeRules (p_Rules p)) :: back p) +:+ "}".
Proof. unfold writeBody, front. cbn [map app fst snd]. by destruct (p_TokensNoAllowlistOK p). Qed.

Lemma wf_front p : utf8_policy p → wf_json (JObj (front p)) = true.
Proof.
  intros ((Ha & Hb & Hc) & _)%utf8_pieces. unfold front.
  assert (Hz : ∀ n, wf_json (JNum (z_string n)) = true) by (intros n; by apply andb_true_iff, valid_z).
  apply wf_cons; [done|apply Hz|]. apply wf_cons; [done|apply Hz|].
  do 3 (apply wf_cons; [done|done|]). by apply wf_cons.
Qed.

Lemma valid_back p : utf8_policy p → Forall (λ f, valid_utf8 f.1 = true ∧ valid_utf8 f.2 = true) (back p).
Proof.
  intros (_ & _ & _ & Ht & Hp & Hs & Hu & Hal & Hco)%utf8_pieces. unfold back.
  rewrite !writePins_tree, writeTypedData_tree.
  assert (H1 : writeTokens (p_Tokens p) = render (JArr (map token_tree (sortTokens (p_Tokens p)))))
    by (apply array_items; intros [n a l [[]|]]; by apply object_members).
  assert (H2 : writeStrings (p_SelfAddresses p) = render (JArr (map JStr (sortStrings (p_SelfAddresses p)))))
    by by apply array_items.
  assert (H3 : writeContracts (p_ContractsAllowed p) =
               render (JArr (map contract_tree (sortContracts (p_ContractsAllowed p)))))
    by (apply array_items; intros c; by apply object_members).
  rewrite H1, H2, H3. repeat (apply Forall_cons; split; [split; [done|apply render_valid]|]); [..|done].
  - by apply wf_arr.
  - apply wf_arr. intros e He. apply Hp. by left.
  - apply wf_arr. intros e He. apply Hp. by right.
  - by apply wf_arr.
  - unfold typed_data_tree. apply wf_cons; [done|done|]. apply wf_cons; [done|by apply wf_arr|done].
  - by apply wf_arr.
Qed.

Lemma valid_body p : utf8_policy p → valid_utf8 (writeBody p) = true.
Proof.
  intros Hu. rewrite writeBody_parts. apply valid_utf8_app; [done|]. apply valid_utf8_app; [|done].
  apply valid_fields, Forall_app. split.
  - pose proof (wf_front p Hu) as Hw. cbn [wf_json] in Hw. rewrite forallb_forall in Hw.
    apply Forall_fmap, Forall_forall. intros m Hm. specialize (Hw m ltac:(by apply list_elem_of_In)).
    apply andb_true_iff in Hw as [Hk Hv]. split; [done|]. by apply render_valid.
  - apply Forall_cons. split; [split; [done|by apply valid_rules]|by apply valid_back].
Qed.

Lemma fieldWriter_front ms k v f fs rest :
  fieldWriter (map (λ m, (m.1, render m.2)) ms ++ (k, v) :: f :: fs) +:+ rest =
  foldr (λ m t, jsonString m.1 +:+ ":" +:+ render m.2 +:+ comma +:+ t)
    (jsonString k +:+ ":" +:+ v +:+ comma +:+ fieldWriter (f :: fs) +:+ rest) ms.
Proof.
  induction ms as [|m ms IH].
  - cbn [map app foldr]. unfold fieldWriter. cbn [map fst snd]. by rewrite concat_cons2, !string_app_assoc.
  - cbn [map app foldr]. rewrite <-IH. unfold fieldWriter. cbn [map fst snd].
    destruct ms as [|m' ms]; cbn [map app]; by rewrite concat_cons2, !string_app_assoc.
Qed.

Lemma no_members_front ms tail :
  wf_json (JObj ms) = true → no_members tail →
  no_members (foldr (λ m t, jsonString m.1 +:+ ":" +:+ render m.2 +:+ comma +:+ t) tail ms).
Proof.
  intros Hw Ht. induction ms as [|m ms IH]; [done|]. cbn [wf_json forallb foldr] in *.
  apply andb_true_iff in Hw as [[Hk Hv]%andb_true_iff Hw]. apply no_members_more; [done|done|by apply IH].
Qed.

Lemma limitless_body p : utf8_policy p → ¬ limits_named p → json_decode (writeBody p) = None.
Proof.
  intros Hu Hl. unfold json_decode. rewrite (valid_utf8_coerce _ (valid_body p Hu)). rewrite writeBody_parts.
  apply no_value_obj; [by eexists _, _|]. unfold back. rewrite fieldWriter_front.
  apply no_members_front; [by apply wf_front|]. apply no_members_value; [done|]. by apply writeRules_limitless.
Qed.
End Facts.

(** ** The properties *)

Section Properties.
Context {UT : UnicodeTables} {SS : SortSlice}.

(** C40: the sealed bytes mean the policy.  For a policy of valid UTF-8 whose
    numbers fit the struct's integers and whose network rules all name a limit,
    the strict decoder reads from the bytes [writeBody] produces the same
    policy, its lists in the written order and without a typed-data override in
    the default block (which the writer drops). *)
Theorem body_roundtrip p :
  utf8_policy p → int_ranges p → limits_named p → decodeBodyStrict (writeBody p) = Some (canonical p).
Proof. apply decode_body. Qed.

(** a network rule that names no limit makes the policy unreadable.  If any
    network rule of a policy has all its limits unset, the bytes [writeBody]
    produces are not JSON: no decoder pass accepts them. *)
Theorem limitless_rule_unreadable p :
  utf8_policy p → ¬ limits_named p →
  json_parse (writeBody p) = None ∧ decodeBodyStrict (writeBody p) = None.
Proof.
  intros Hu Hl. pose proof (limitless_body p Hu Hl) as H.
  unfold json_parse, decodeBodyStrict. by rewrite H.
Qed.
End Properties.

(** ** Witnesses *)

Section Witnesses.
#[local] Existing Instance ascii_tables.
#[local] Existing Instance stable_slice.

(** a policy with an explicit null limit, two network rules and pins out of order *)
Definition sealed_policy : Policy := {|
  p_Version := 1; p_Nonce := 7; p_UpdatedAt := "2026-01-01T00:00:00Z"; p_WrittenBy := "1.0"; p_Messages := "allow";
  p_TokensNoAllowlistOK := false;
  p_Rules := mkRules (mkLimits (Some "100") nullStr None (Some true) (Some true) None)
    [mkNetworkRule "main" (mkLimits None (Some "5") None None None (Some "deny"))];
  p_Tokens := [mkTokenRule "main" "0xbb" "b" (Some false); mkTokenRule "main" "0xaa" "a" None];
  p_Allowlist := [mkPinEntry "ens" "0x02" "b.eth" "" "" ""; mkPinEntry "address" "0x01" "" "x" "" ""];
  p_Denylist := []; p_SelfAddresses := ["0x02"; "0x01"];
  p_TypedData := mkTypedDataCfg "deny" [mkTypedAllow 1 "0x03" "Mail" ""];
  p_ContractsAllowed := [mkContractAllow "main" "0x04" "0xa9059cbb" "" ""] |}.

Lemma body_roundtrip_witness : decodeBodyStrict (writeBody sealed_policy) = Some (canonical sealed_policy).
Proof.
  apply body_roundtrip.
  - unfold utf8_policy. repeat (apply Forall_cons; split; [by vm_compute|]). by apply Forall_nil.
  - unfold int_ranges. split; [done|]. split; [done|]. repeat constructor; by vm_compute.
  - by vm_compute.
Defined.

Definition limitless_policy : Policy :=
  {| p_Version := 1; p_Nonce := 7; p_UpdatedAt := ""; p_WrittenBy := "1.0"; p_Messages := "allow";
     p_TokensNoAllowlistOK := false; p_Rules := mkRules zero_limits [mkNetworkRule "main" zero_limits];
     p_Tokens := []; p_Allowlist := []; p_Denylist := []; p_SelfAddresses := [];
     p_TypedData := mkTypedDataCfg "deny" []; p_ContractsAllowed := [] |}.

Lemma limitless_rule_unreadable_witness :
  json_parse (writeBody limitless_policy) = None ∧ decodeBodyStrict (writeBody limitless_policy) = None.
Proof.
  apply limitless_rule_unreadable.
  - unfold utf8_policy. repeat (apply Forall_cons; split; [by vm_compute|]). by apply Forall_nil.
  - intros H. by vm_compute in H.
Defined.
End Witnesses.
