(* ===== verification/Seal.v ===== *)
(** * The seal: [internal/policyseal]

    Key derivation, signing and verification over the exact body bytes, the
    anchor that pins the verify key and the nonce watermark, and the staged
    passphrase rotation.  The primitives (scrypt and HKDF of golang.org/x/crypto
    and Ed25519) are the operations of [SealCrypto], whose laws are their
    documented lengths and that a signature verifies under its own key.  The
    second half is the text of the anchor file and its round trip. *)

From S2P Require Import Prelude GoStrings Decimal Encodings Json PolicyTypes PolicyBody PolicyBodyFacts.

Local Open Scope string_scope.
Local Open Scope Z_scope.
Local Open Scope list_scope.
Local Open Scope go_scope.

Definition sealDomain : string := "daxie/policy/v1" +:+ String (Zbyte 10) "".
Definition seedInfo : string := "daxie/policy/sig-seed/v1".

Record ScryptParams := mkScrypt { sp_N : Z; sp_R : Z; sp_P : Z }.

#[export] Instance ScryptParams_eq_dec : EqDecision ScryptParams.
Proof. solve_decision. Defined.

Definition scryptDKLen : Z := 32.
Definition DefaultScryptParams : ScryptParams := mkScrypt (Z.shiftl 1 17) 8 1.

(** ScryptParams.Valid *)
Definition Valid (p : ScryptParams) : bool :=
  if (sp_N p <? 2) || (sp_R p <? 1) || (sp_P p <? 1) then false
  else Z.land (sp_N p) (sp_N p - 1) =? 0.

Definition PublicKeySize : nat := 32.
Definition SignatureSize : nat := 64.

Class SealCrypto := {
  (** scrypt.Key(password, salt, N, r, p, keyLen) *)
  scrypt_Key : string → string → Z → Z → Z → Z → option string;
  (** 32 bytes of hkdf.New(sha256.New, secret, nil, info) *)
  hkdf_read : string → string → option string;
  (** ed25519.NewKeyFromSeed, PrivateKey.Public, Sign and Verify *)
  NewKeyFromSeed : string → string;
  Public : string → string;
  ed25519_Sign : string → string → string;
  ed25519_Verify : string → string → string → bool;
  Public_size : ∀ sk, String.length (Public sk) = PublicKeySize;
  Sign_size : ∀ sk m, String.length (ed25519_Sign sk m) = SignatureSize;
  Sign_verifies : ∀ sk m, ed25519_Verify (Public sk) m (ed25519_Sign sk m) = true;
}.

Inductive seal_error :=
| ErrEmptyPassphrase | ErrScryptParams | ErrScrypt | ErrHkdf
| ErrAnchorMalformed | ErrKeyMalformed | ErrSaltMalformed | ErrIncompleteAnchor
| ErrRandom | ErrRotationKeyMismatch | ErrNoStagedRotation.

#[export] Instance seal_error_eq_dec : EqDecision seal_error.
Proof. solve_decision. Defined.

(** ** The anchor *)

Record Anchor := mkAnchor {
  an_VerifyKey : string;
  an_VerifyKeyNext : string;
  an_Salt : string;
  an_Scrypt : ScryptParams;
  an_NonceWatermark : Z;
  an_StagedSalt : string;
}.

(** the zero value, which the engine holds when no anchor was found *)
Definition zero_anchor : Anchor := mkAnchor "" "" "" (mkScrypt 0 0 0) 0 "".

Definition keyPrefix : string := "ed25519:".

Definition EncodeKey (pk : string) : string := keyPrefix +:+ EncodeToString pk.
Definition EncodeSalt (salt : string) : string := EncodeToString salt.

Definition decodeKey (s : string) : res seal_error string :=
  match strip keyPrefix s with
  | None => Err ErrKeyMalformed
  | Some rest =>
      match DecodeString rest with
      | None => Err ErrKeyMalformed
      | Some raw => if Nat.eqb (String.length raw) PublicKeySize then Ok raw else Err ErrKeyMalformed
      end
  end.

Definition VerifyKeyBytes (a : Anchor) : res seal_error string := decodeKey (an_VerifyKey a).

(** absent is [Ok None] *)
Definition VerifyKeyNextBytes (a : Anchor) : res seal_error (option string) :=
  if bool_decide (an_VerifyKeyNext a = "") then Ok None
  else let* k := decodeKey (an_VerifyKeyNext a) in Ok (Some k).

Definition SaltBytes (a : Anchor) : res seal_error string :=
  match DecodeString (an_Salt a) with Some b => Ok b | None => Err ErrSaltMalformed end.

Definition StagedSaltBytes (a : Anchor) : res seal_error (option string) :=
  if bool_decide (an_StagedSalt a = "") then Ok None
  else match DecodeString (an_StagedSalt a) with Some b => Ok (Some b) | None => Err ErrSaltMalformed end.

(** *** The anchor file *)

(** anchorWire: verify_key_next is a pointer *)
Record anchorWire := mkWire {
  aw_VerifyKey : string;
  aw_VerifyKeyNext : option string;
  aw_Salt : string;
  aw_Scrypt : ScryptParams;
  aw_NonceWatermark : Z;
  aw_StagedSalt : string;
}.

(** json.Decoder.More: a value, or anything but a closing bracket, follows *)
Definition More (rest : string) : bool :=
  match skip_ws rest with
  | "" => false
  | String c _ => negb ((byteZ c =? 93) || (byteZ c =? 125))
  end.

Section AnchorFile.
Context {UT : UnicodeTables}.

Definition d_scrypt : D ScryptParams := d_struct true
  [("n", field sp_N (λ '(mkScrypt _ b c) x, mkScrypt x b c) d_int);
   ("r", field sp_R (λ '(mkScrypt a _ c) x, mkScrypt a x c) d_int);
   ("p", field sp_P (λ '(mkScrypt a b _) x, mkScrypt a b x) d_int)].

Definition d_wire : D anchorWire := d_struct true
  [("verify_key", field aw_VerifyKey (λ '(mkWire _ b c d e f) x, mkWire x b c d e f) d_string);
   ("verify_key_next", field aw_VerifyKeyNext (λ '(mkWire a _ c d e f) x, mkWire a x c d e f) d_pstr);
   ("salt", field aw_Salt (λ '(mkWire a b _ d e f) x, mkWire a b x d e f) d_string);
   ("scrypt", field aw_Scrypt (λ '(mkWire a b c _ e f) x, mkWire a b c x e f) d_scrypt);
   ("nonce_watermark", field aw_NonceWatermark (λ '(mkWire a b c d _ f) x, mkWire a b c d x f) d_uint64);
   ("staged_salt", field aw_StagedSalt (λ '(mkWire a b c d e _) x, mkWire a b c d e x) d_string)].

Definition zero_wire : anchorWire := mkWire "" None "" (mkScrypt 0 0 0) 0 "".

Definition ParseAnchor (b : string) : res seal_error Anchor :=
  match json_decode b with
  | None => Err ErrAnchorMalformed
  | Some (j, rest) =>
      match d_wire zero_wire j with
      | None => Err ErrAnchorMalformed
      | Some w =>
          if More rest then Err ErrAnchorMalformed else
          let a := {| an_VerifyKey := aw_VerifyKey w; an_VerifyKeyNext := default "" (aw_VerifyKeyNext w);
                      an_Salt := aw_Salt w; an_Scrypt := aw_Scrypt w;
                      an_NonceWatermark := aw_NonceWatermark w; an_StagedSalt := aw_StagedSalt w |} in
          if bool_decide (an_VerifyKey a = "") || bool_decide (an_Salt a = "") || negb (Valid (an_Scrypt a))
          then Err ErrAnchorMalformed
          else if negb (is_ok (decodeKey (an_VerifyKey a))) then Err ErrKeyMalformed
          else if negb (bool_decide (an_VerifyKeyNext a = "")) && negb (is_ok (decodeKey (an_VerifyKeyNext a)))
          then Err ErrKeyMalformed
          else if bool_decide (DecodeString (an_Salt a) = None) then Err ErrSaltMalformed
          else if negb (bool_decide (an_StagedSalt a = "")) && bool_decide (DecodeString (an_StagedSalt a) = None)
          then Err ErrSaltMalformed
          else Ok a
      end
  end.

(** Anchor.Marshal; the strings are quoted by strconv.Quote *)
Definition Marshal (a : Anchor) : res seal_error string :=
  let nl := String (Zbyte 10) "" in
  if bool_decide (an_VerifyKey a = "") || bool_decide (an_Salt a = "") || negb (Valid (an_Scrypt a))
  then Err ErrIncompleteAnchor
  else Ok (
    "{" +:+ nl +:+ "  " +:+ go_quote "verify_key" +:+ ": " +:+ go_quote (an_VerifyKey a) +:+ "," +:+ nl +:+
    "  " +:+ go_quote "verify_key_next" +:+ ": " +:+
      (if bool_decide (an_VerifyKeyNext a = "") then "null" else go_quote (an_VerifyKeyNext a)) +:+ "," +:+ nl +:+
    "  " +:+ go_quote "salt" +:+ ": " +:+ go_quote (an_Salt a) +:+ "," +:+ nl +:+
    "  " +:+ go_quote "scrypt" +:+ ": { " +:+ go_quote "n" +:+ ": " +:+ z_string (sp_N (an_Scrypt a)) +:+
    ", " +:+ go_quote "r" +:+ ": " +:+ z_string (sp_R (an_Scrypt a)) +:+
    ", " +:+ go_quote "p" +:+ ": " +:+ z_string (sp_P (an_Scrypt a)) +:+ " }," +:+ nl +:+
    "  " +:+ go_quote "nonce_watermark" +:+ ": " +:+ z_string (an_NonceWatermark a) +:+
    (if bool_decide (an_StagedSalt a = "") then ""
     else "," +:+ nl +:+ "  " +:+ go_quote "staged_salt" +:+ ": " +:+ go_quote (an_StagedSalt a)) +:+
    nl +:+ "}" +:+ nl).
End AnchorFile.

(** ** Keys and signatures *)

Section Crypto.
Context {SC : SealCrypto}.

(** DeriveSealKey: the key pair of a passphrase *)
Definition DeriveSealKey (adminPass salt : string) (p : ScryptParams) : res seal_error (string * string) :=
  if bool_decide (adminPass = "") then Err ErrEmptyPassphrase
  else if negb (Valid p) then Err ErrScryptParams
  else match scrypt_Key adminPass salt (sp_N p) (sp_R p) (sp_P p) scryptDKLen with
       | None => Err ErrScrypt
       | Some kMaster =>
           match hkdf_read kMaster seedInfo with
           | None => Err ErrHkdf
           | Some seed => let sk := NewKeyFromSeed seed in Ok (sk, Public sk)
           end
       end.

Definition signSubject (body : string) : string := sealDomain +:+ body.

Definition Sign (body sk : string) : string := ed25519_Sign sk (signSubject body).

Definition Verify (body sig pk : string) : bool :=
  if negb (Nat.eqb (String.length pk) PublicKeySize) || negb (Nat.eqb (String.length sig) SignatureSize) then false
  else ed25519_Verify pk (signSubject body) sig.

(** ** Rotation *)

(** [salt] is what NewSalt drew *)
Definition StageRotation (salt : option string) (newAdminPass : string) (params : ScryptParams)
  : res seal_error (string * string) :=
  match salt with
  | None => Err ErrRandom
  | Some salt =>
      let* k := DeriveSealKey newAdminPass salt params in
      Ok (EncodeKey k.2, salt)
  end.

Record RotatedFamily := mkFamily { rf_Private : string; rf_Public : string; rf_Salt : string }.

Definition CommitRotation (newAdminPass : string) (a : Anchor) (params : ScryptParams)
  : res seal_error RotatedFamily :=
  let* stagedSalt := StagedSaltBytes a in
  let* wantNext := VerifyKeyNextBytes a in
  match stagedSalt, wantNext with
  | Some stagedSalt, Some wantNext =>
      let* k := DeriveSealKey newAdminPass stagedSalt params in
      if negb (bool_decide (k.2 = wantNext)) then Err ErrRotationKeyMismatch
      else Ok (mkFamily k.1 k.2 stagedSalt)
  | _, _ => Err ErrNoStagedRotation
  end.
End Crypto.

(** ** The text of the anchor file

    [Anchor.Marshal] writes an indented JSON object with [strconv.Quote]; the
    strict decoder of [ParseAnchor] reads it back.  The lemmas on white space
    extend the ones on compact JSON of [Json]. *)

Local Open Scope string_scope.
Local Open Scope Z_scope.
Local Open Scope list_scope.
Local Open Scope go_scope.

(** ** Quoted texts without escapes *)

Definition plain (c : Ascii.ascii) : bool :=
  is_ascii_byte c && (32 <=? byteZ c) && negb (byteZ c =? 34) && negb (byteZ c =? 92) && negb (byteZ c =? 127).
Definition plain_text : string → bool := string_forallb plain.

Lemma plain_ascii s : plain_text s = true → is_ascii s = true.
Proof.
  unfold plain_text, is_ascii. induction s as [|c s IH]; [done|]. cbn [string_forallb].
  intros [Hc Hs]%andb_true_iff. rewrite IH by done. unfold plain in Hc. bool_prop. by rewrite andb_true_r.
Qed.

Lemma quote_bytes_plain s : plain_text s = true → quote_bytes s = s.
Proof.
  unfold plain_text. induction s as [|c s IH]; [done|]. cbn [string_forallb quote_bytes].
  intros [Hc Hs]%andb_true_iff. rewrite IH by done. unfold quote_byte, plain in *. bool_prop.
  pose proof (byteZ_range c). zcases; try lia. reflexivity.
Qed.

Lemma escape_plain s : plain_text s = true → escape s = s.
Proof.
  unfold plain_text. induction s as [|c s IH]; [done|]. cbn [string_forallb escape].
  intros [Hc Hs]%andb_true_iff. unfold plain, is_ascii_byte in Hc. bool_prop.
  zcases; try lia. by rewrite IH.
Qed.

(** strconv.Quote and the JSON writer agree *)
Lemma go_quote_json s : plain_text s = true → go_quote s = jsonString s.
Proof.
  intros H. unfold go_quote, jsonString. rewrite quote_bytes_plain by done.
  rewrite valid_utf8_coerce by (apply valid_utf8_ascii, plain_ascii, H). by rewrite escape_plain.
Qed.

(** ** White space between the tokens *)

Definition all_ws : string → bool := string_forallb is_ws.

Lemma skip_ws_app w s : all_ws w = true → skip_ws (w +:+ s) = skip_ws s.
Proof.
  unfold all_ws. induction w as [|c w IH]; [by rewrite string_app_nil_l|]. cbn [string_forallb].
  intros [Hc Hw]%andb_true_iff. rewrite string_app_cons. cbn [skip_ws]. rewrite Hc. by apply IH.
Qed.

Lemma parse_value_ws n w s : all_ws w = true → parse_value n (w +:+ s) = parse_value n s.
Proof. intros H. destruct n; [done|]. cbn [parse_value]. by rewrite skip_ws_app. Qed.

Lemma parse_members_ws n w s : all_ws w = true → parse_members n (w +:+ s) = parse_members n s.
Proof. intros H. destruct n; [done|]. cbn [parse_members]. by rewrite skip_ws_app. Qed.

Lemma delim_ws w s : all_ws w = true → delim s = true → delim (w +:+ s) = true.
Proof.
  destruct w as [|c w]; [by rewrite string_app_nil_l|]. unfold all_ws. cbn [string_forallb].
  intros [Hc _]%andb_true_iff _. rewrite string_app_cons. cbn [delim]. unfold is_ws in Hc.
  bool_prop; destruct (is_num_char c) eqn:E; [|done].
  exfalso. unfold is_num_char, is_digit in E. bool_prop; lia.
Qed.

(** a text that every parse with enough fuel reads as a value *)
Definition reads (n : nat) (v : string) (j : json) : Prop :=
  ∀ m rest, (n ≤ m)%nat → delim rest = true → parse_value m (v +:+ rest) = Some (j, rest).

Lemma reads_render j : wf_json j = true → reads (size j) (render j) j.
Proof. intros H m rest Hm Hd. by apply parse_render_gen. Qed.

(** one member, with white space before its key, after its colon and before what ends it *)
Lemma member_more n m w k v j w' tail :
  all_ws w = true → all_ws w' = true → valid_utf8 k = true → reads n v j → (n ≤ m)%nat →
  parse_members (S m) (w +:+ jsonString k +:+ ":" +:+ w' +:+ v +:+ comma +:+ tail) =
  match parse_members m tail with Some (ms, r) => Some ((k, j) :: ms, r) | None => None end.
Proof.
  intros Hw Hw' Hk Hr Hm. rewrite parse_members_ws by done. cbn [parse_members].
  rewrite skip_ws_quote, quoted_jsonString by done.
  change (skip_ws (":" +:+ ?x)) with (":" +:+ x). change (head_is 58 (":" +:+ ?x)) with (Some x). cbn iota.
  rewrite parse_value_ws by done. by rewrite Hr.
Qed.

Lemma member_last n m w k v j w' w'' rest :
  all_ws w = true → all_ws w' = true → all_ws w'' = true → valid_utf8 k = true → reads n v j → (n ≤ m)%nat →
  parse_members (S m) (w +:+ jsonString k +:+ ":" +:+ w' +:+ v +:+ w'' +:+ "}" +:+ rest) = Some ([(k, j)], rest).
Proof.
  intros Hw Hw' Hw'' Hk Hr Hm. rewrite parse_members_ws by done. cbn [parse_members].
  rewrite skip_ws_quote, quoted_jsonString by done.
  change (skip_ws (":" +:+ ?x)) with (":" +:+ x). change (head_is 58 (":" +:+ ?x)) with (Some x). cbn iota.
  rewrite parse_value_ws by done. rewrite Hr; [|done|by apply delim_ws]. by rewrite skip_ws_app.
Qed.

Lemma object_ws n t ms rest :
  head_is 125 (skip_ws t) = None → parse_members n t = Some (ms, rest) →
  parse_value (S n) ("{" +:+ t) = Some (JObj ms, rest).
Proof.
  intros H1 H2. cbn [parse_value]. change (skip_ws ("{" +:+ t)) with ("{" +:+ t).
  change (head_is 123 ("{" +:+ t)) with (Some t). cbn iota. by rewrite H1, H2.
Qed.

(** ** The anchor *)

Definition line : string := String (Zbyte 10) "".

(** one indented member *)
Definition tfield (k v : string) : string := (line +:+ "  ") +:+ jsonString k +:+ ":" +:+ " " +:+ v.

Lemma tfield_more n m k v j tail :
  valid_utf8 k = true → reads n v j → (n ≤ m)%nat →
  parse_members (S m) (tfield k v +:+ comma +:+ tail) =
  match parse_members m tail with Some (ms, r) => Some ((k, j) :: ms, r) | None => None end.
Proof. intros Hk Hr Hm. unfold tfield. rewrite !string_app_assoc. by apply (member_more n m (line +:+ "  ") k v j " "). Qed.

Lemma tfield_last n m k v j rest :
  valid_utf8 k = true → reads n v j → (n ≤ m)%nat →
  parse_members (S m) (tfield k v +:+ line +:+ "}" +:+ rest) = Some ([(k, j)], rest).
Proof. intros Hk Hr Hm. unfold tfield. rewrite !string_app_assoc. by apply (member_last n m (line +:+ "  ") k v j " " line). Qed.

Definition scrypt_text (p : ScryptParams) : string :=
  "{" +:+ " " +:+ jsonString "n" +:+ ":" +:+ " " +:+ z_string (sp_N p) +:+ comma +:+
  " " +:+ jsonString "r" +:+ ":" +:+ " " +:+ z_string (sp_R p) +:+ comma +:+
  " " +:+ jsonString "p" +:+ ":" +:+ " " +:+ z_string (sp_P p) +:+ " " +:+ "}".

Definition scrypt_tree (p : ScryptParams) : json :=
  JObj [("n", JNum (z_string (sp_N p))); ("r", JNum (z_string (sp_R p))); ("p", JNum (z_string (sp_P p)))].

Lemma reads_number n : reads 1 (z_string n) (JNum (z_string n)).
Proof. apply (reads_render (JNum (z_string n))). apply andb_true_iff, valid_z. Qed.

Lemma reads_string s : valid_utf8 s = true → reads 1 (jsonString s) (JStr s).
Proof. intros H. by apply (reads_render (JStr s)). Qed.

Lemma reads_scrypt p : reads 5 (scrypt_text p) (scrypt_tree p).
Proof.
  intros m rest Hm Hd. destruct m as [|[|[|[|m]]]]; [lia..|]. unfold scrypt_text. rewrite !string_app_assoc.
  apply object_ws; [reflexivity|].
  rewrite (member_more 1 _ " " "n" _ _ " " _ eq_refl eq_refl eq_refl (reads_number _)) by lia.
  rewrite (member_more 1 _ " " "r" _ _ " " _ eq_refl eq_refl eq_refl (reads_number _)) by lia.
  rewrite (member_last 1 _ " " "p" _ _ " " " " _ eq_refl eq_refl eq_refl eq_refl (reads_number _)) by lia. reflexivity.
Qed.

(** an anchor as the operations make them: encoded keys and salts, valid
    parameters, numbers in their widths *)
Record wf_anchor (a : Anchor) : Prop := {
  wfa_key : ∃ pk, String.length pk = PublicKeySize ∧ an_VerifyKey a = EncodeKey pk;
  wfa_next : an_VerifyKeyNext a = "" ∨ ∃ pk, String.length pk = PublicKeySize ∧ an_VerifyKeyNext a = EncodeKey pk;
  wfa_salt : ∃ s, s ≠ "" ∧ an_Salt a = EncodeSalt s;
  wfa_staged : an_StagedSalt a = "" ∨ ∃ s, an_StagedSalt a = EncodeSalt s;
  wfa_valid : Valid (an_Scrypt a) = true;
  wfa_ints : sp_N (an_Scrypt a) < 2 ^ 63 ∧ sp_R (an_Scrypt a) < 2 ^ 63 ∧ sp_P (an_Scrypt a) < 2 ^ 63;
  wfa_watermark : 0 ≤ an_NonceWatermark a < 2 ^ 64;
}.

Definition opt_text (s : string) : string := if bool_decide (s = "") then "null" else jsonString s.
Definition opt_tree (s : string) : json := if bool_decide (s = "") then JNull else JStr s.

Definition anchor_text (a : Anchor) : string :=
  "{" +:+ tfield "verify_key" (jsonString (an_VerifyKey a)) +:+ comma +:+
  tfield "verify_key_next" (opt_text (an_VerifyKeyNext a)) +:+ comma +:+
  tfield "salt" (jsonString (an_Salt a)) +:+ comma +:+
  tfield "scrypt" (scrypt_text (an_Scrypt a)) +:+ comma +:+
  tfield "nonce_watermark" (z_string (an_NonceWatermark a)) +:+
  (if bool_decide (an_StagedSalt a = "") then "" else comma +:+ tfield "staged_salt" (jsonString (an_StagedSalt a))) +:+
  line +:+ "}" +:+ line.

Definition anchor_tree (a : Anchor) : json :=
  JObj ([("verify_key", JStr (an_VerifyKey a)); ("verify_key_next", opt_tree (an_VerifyKeyNext a));
         ("salt", JStr (an_Salt a)); ("scrypt", scrypt_tree (an_Scrypt a));
         ("nonce_watermark", JNum (z_string (an_NonceWatermark a)))] ++
        (if bool_decide (an_StagedSalt a = "") then [] else [("staged_salt", JStr (an_StagedSalt a))])).

Lemma plain_b64 s : plain_text (EncodeToString s) = true.
Proof.
  pose proof (encode_alphabet s) as H. unfold plain_text.
  induction (EncodeToString s) as [|c t IH]; [done|]. cbn [string_forallb] in *.
  apply andb_true_iff in H as [Hc Ht]. rewrite IH by done. rewrite andb_true_r.
  unfold b64_byte, b64_val, plain, is_ascii_byte in *. pose proof (byteZ_range c).
  destruct (Z.eqb_spec (byteZ c) 61) as [->|E]; [done|].
  rewrite orb_false_r in Hc. apply bool_decide_eq_true in Hc. destruct Hc as [v Hv].
  repeat match type of Hv with (if ?b then _ else _) = _ => destruct b eqn:?; bool_prop; try lia end; zcases; try lia; done.
Qed.

Lemma plain_key pk : plain_text (EncodeKey pk) = true.
Proof. unfold EncodeKey, plain_text. rewrite string_forallb_app. by rewrite (plain_b64 pk : string_forallb plain _ = true). Qed.

Lemma plain_utf8 s : plain_text s = true → valid_utf8 s = true.
Proof. intros H. by apply valid_utf8_ascii, plain_ascii. Qed.

Lemma EncodeSalt_nonempty s : s ≠ "" → EncodeSalt s ≠ "".
Proof. by destruct s as [|a [|b [|c s]]]. Qed.

Section WF.
Variable a : Anchor.
Hypothesis W : wf_anchor a.

Lemma wf_plain : plain_text (an_VerifyKey a) = true ∧ plain_text (an_VerifyKeyNext a) = true ∧
  plain_text (an_Salt a) = true ∧ plain_text (an_StagedSalt a) = true.
Proof.
  destruct W as [(pk & _ & ->) Hn (s & _ & ->) Hs _ _ _]. split; [apply plain_key|]. split.
  - destruct Hn as [->|(pk' & _ & ->)]; [done|apply plain_key].
  - split; [apply plain_b64|]. destruct Hs as [->|(s' & ->)]; [done|apply plain_b64].
Qed.

(** Marshal writes that text *)
Lemma Marshal_text : Marshal a = Ok (anchor_text a).
Proof.
  destruct wf_plain as (P1 & P2 & P3 & P4). unfold Marshal. rewrite (wfa_valid a W).
  destruct (wfa_key a W) as (pk & _ & Ek). destruct (wfa_salt a W) as (s & Hs & Es).
  rewrite bool_decide_eq_false_2 by (rewrite Ek; by destruct (EncodeToString pk)).
  rewrite bool_decide_eq_false_2 by (rewrite Es; by apply EncodeSalt_nonempty). cbn [orb negb]. f_equal.
  unfold anchor_text, tfield, scrypt_text, opt_text.
  rewrite (go_quote_json (an_VerifyKey a)), (go_quote_json (an_VerifyKeyNext a)), (go_quote_json (an_Salt a)),
    (go_quote_json (an_StagedSalt a)) by done.
  case_bool_decide; case_bool_decide; rewrite !string_app_assoc; reflexivity.
Qed.

Lemma reads_opt s : plain_text s = true → reads 1 (opt_text s) (opt_tree s).
Proof.
  intros Hs. unfold opt_text, opt_tree. case_bool_decide.
  - apply (reads_render JNull). done.
  - by apply reads_string, plain_utf8.
Qed.

(** its parse, with enough fuel *)
Lemma anchor_text_parse : parse_value 20 (anchor_text a) = Some (anchor_tree a, line).
Proof.
  destruct wf_plain as (P1 & P2 & P3 & P4). unfold anchor_text. apply (object_ws 19); [reflexivity|].
  rewrite (tfield_more 1 18 "verify_key" _ _ _ eq_refl (reads_string _ (plain_utf8 _ P1))) by lia.
  rewrite (tfield_more 1 17 "verify_key_next" _ _ _ eq_refl (reads_opt _ P2)) by lia.
  rewrite (tfield_more 1 16 "salt" _ _ _ eq_refl (reads_string _ (plain_utf8 _ P3))) by lia.
  rewrite (tfield_more 5 15 "scrypt" _ _ _ eq_refl (reads_scrypt _)) by lia. unfold anchor_tree.
  case_bool_decide.
  - rewrite string_app_nil_l.
    by rewrite (tfield_last 1 14 "nonce_watermark" _ _ _ eq_refl (reads_number _)) by lia.
  - rewrite !string_app_assoc.
    rewrite (tfield_more 1 14 "nonce_watermark" _ _ _ eq_refl (reads_number _)) by lia.
    by rewrite (tfield_last 1 13 "staged_salt" _ _ _ eq_refl (reads_string _ (plain_utf8 _ P4))) by lia.
Qed.

Lemma anchor_text_utf8 : valid_utf8 (anchor_text a) = true.
Proof.
  destruct wf_plain as (P1 & P2 & P3 & P4). apply valid_utf8_ascii.
  assert (J : ∀ s, plain_text s = true → is_ascii (jsonString s) = true).
  { intros s Hs. rewrite <-go_quote_json by done. unfold go_quote. rewrite quote_bytes_plain by done.
    unfold is_ascii. rewrite !string_forallb_app. by rewrite (plain_ascii s Hs : string_forallb _ s = true). }
  assert (Z1 : ∀ n, is_ascii (z_string n) = true) by (intros n; apply num_char_ascii, valid_z).
  assert (O : ∀ s, plain_text s = true → is_ascii (opt_text s) = true).
  { intros s Hs. unfold opt_text. case_bool_decide; [done|by apply J]. }
  unfold anchor_text, tfield, scrypt_text. unfold is_ascii in *. case_bool_decide;
    rewrite ?string_forallb_app, !J, O, !Z1 by done; reflexivity.
Qed.
End WF.

Section Roundtrip.
Context {UT : UnicodeTables}.

Lemma decodeKey_encoded pk : String.length pk = PublicKeySize → decodeKey (EncodeKey pk) = Ok pk.
Proof.
  intros H. unfold decodeKey, EncodeKey.
  assert (S : ∀ p t, strip p (p +:+ t) = Some t).
  { intros p t. induction p as [|c p IH]; [done|]. rewrite string_app_cons. cbn [strip]. by rewrite Z.eqb_refl. }
  rewrite S, decode_encode_string. by rewrite H.
Qed.

Lemma scrypt_decoded p :
  Valid p = true → sp_N p < 2 ^ 63 → sp_R p < 2 ^ 63 → sp_P p < 2 ^ 63 →
  d_scrypt (mkScrypt 0 0 0) (scrypt_tree p) = Some p.
Proof.
  intros Hv H1 H2 H3. unfold Valid in Hv. destruct (_ || _) eqn:E; [done|]. bool_prop.
  pose proof (d_int_tree 0 (sp_N p) ltac:(lia)) as J1. pose proof (d_int_tree 0 (sp_R p) ltac:(lia)) as J2.
  pose proof (d_int_tree 0 (sp_P p) ltac:(lia)) as J3. unfold d_scrypt, scrypt_tree, d_struct.
  read_member J1. read_member J2. read_member J3. by destruct p.
Qed.

Lemma wire_decoded a :
  wf_anchor a → d_wire zero_wire (anchor_tree a) =
  Some (mkWire (an_VerifyKey a) (if bool_decide (an_VerifyKeyNext a = "") then None else Some (an_VerifyKeyNext a))
          (an_Salt a) (an_Scrypt a) (an_NonceWatermark a) (an_StagedSalt a)).
Proof.
  intros [_ _ _ _ Hv (I1 & I2 & I3) Hw].
  pose proof (scrypt_decoded _ Hv I1 I2 I3) as J1. pose proof (d_uint64_tree 0 _ Hw) as J2.
  unfold d_wire, anchor_tree, d_struct, opt_tree.
  case_bool_decide as E; case_bool_decide as F; cbn [app];
    read_member J1; read_member J1; read_member J1; read_member J1; read_member J2; rewrite ?F; [done| |done|];
    read_member J1; done.
Qed.

Lemma ParseAnchor_text a : wf_anchor a → ParseAnchor (anchor_text a) = Ok a.
Proof.
  intros W. unfold ParseAnchor, json_decode.
  rewrite valid_utf8_coerce by (by apply anchor_text_utf8).
  assert (L : (20 ≤ S (2 * String.length (anchor_text a)))%nat).
  { unfold anchor_text, tfield. rewrite !string_length_app. change (String.length (line +:+ "  ")) with 3%nat. cbn [String.length]. lia. }
  rewrite (parse_value_fuel 20 _ _ _ L (anchor_text_parse a W)).
  rewrite (wire_decoded a W). change (More line) with false. cbv iota.
  pose proof W as [(pk & Hpk & Ek) Hn (s & Hs & Es) Hst Hv _ _].
  cbn [aw_VerifyKey aw_VerifyKeyNext aw_Salt aw_Scrypt aw_NonceWatermark aw_StagedSalt an_VerifyKey an_VerifyKeyNext
       an_Salt an_Scrypt an_StagedSalt].
  replace (default "" (if bool_decide (an_VerifyKeyNext a = "") then None else Some (an_VerifyKeyNext a)))
    with (an_VerifyKeyNext a) by (by case_bool_decide).
  rewrite (bool_decide_eq_false_2 (an_VerifyKey a = "")) by (rewrite Ek; by destruct (EncodeToString pk)).
  rewrite (bool_decide_eq_false_2 (an_Salt a = "")) by (rewrite Es; by apply EncodeSalt_nonempty).
  rewrite Hv, Ek, (decodeKey_encoded pk Hpk). cbn [orb negb is_ok].
  assert (Hnext : negb (bool_decide (an_VerifyKeyNext a = "")) && negb (is_ok (decodeKey (an_VerifyKeyNext a))) = false).
  { destruct Hn as [->|(pk' & Hpk' & ->)]; [done|]. rewrite (decodeKey_encoded pk' Hpk'). by rewrite andb_false_r. }
  rewrite Hnext. assert (D : ∀ x, DecodeString (EncodeSalt x) ≠ None) by (intros x; unfold EncodeSalt; by rewrite decode_encode_string).
  rewrite Es, (bool_decide_eq_false_2 _ (D s)).
  assert (Hstaged : negb (bool_decide (an_StagedSalt a = "")) && bool_decide (DecodeString (an_StagedSalt a) = None) = false).
  { destruct Hst as [->|(s' & ->)]; [done|]. by rewrite (bool_decide_eq_false_2 _ (D s')), andb_false_r. }
  rewrite Hstaged. rewrite <-Ek, <-Es. by destruct a.
Qed.
(** The anchor file is read back.  [Marshal] refuses no anchor that the
    administration makes -- encoded keys of 32 bytes, encoded salts, valid
    scrypt parameters, numbers within their widths, a rotation staged or not --
    and [ParseAnchor], the strict decoder with all its checks, reads exactly that
    anchor from the text. *)
Theorem anchor_roundtrip a : wf_anchor a → ∃ text, Marshal a = Ok text ∧ ParseAnchor text = Ok a.
Proof. intros W. exists (anchor_text a). split; [by apply Marshal_text|by apply ParseAnchor_text]. Qed.
End Roundtrip.
