(* ===== verification/Domain.v ===== *)
(** * The error taxonomy: [internal/domain]

    Dotted error codes, their projection to process exit codes (error.go,
    exitcode.go) and the retry hints.  Every refusal of the other components is
    an [error] built here. *)

From S2P Require Import Prelude GoStrings Decimal PolicyTypes.

Local Open Scope string_scope.
Local Open Scope Z_scope.

(** ** Exit codes (exitcode.go) *)

Definition ExitOK : Z := 0.
Definition ExitInternal : Z := 1.
Definition ExitUsage : Z := 2.
Definition ExitPolicyDenied : Z := 3.
Definition ExitAuth : Z := 4.
Definition ExitInsufficientFunds : Z := 5.
Definition ExitNetwork : Z := 6.
Definition ExitReverted : Z := 7.
Definition ExitTimeoutPending : Z := 8.
Definition ExitTxConflict : Z := 9.
Definition ExitNotFound : Z := 10.
Definition ExitState : Z := 11.
Definition ExitIntegrity : Z := 12.

(** [(ExitCode).String]; itoa prints like [strconv.Itoa] *)
Definition ExitCode_String (c : Z) : string :=
  if c =? ExitOK then "OK"
  else if c =? ExitInternal then "INTERNAL"
  else if c =? ExitUsage then "USAGE"
  else if c =? ExitPolicyDenied then "POLICY_DENIED"
  else if c =? ExitAuth then "AUTH"
  else if c =? ExitInsufficientFunds then "INSUFFICIENT_FUNDS"
  else if c =? ExitNetwork then "NETWORK"
  else if c =? ExitReverted then "REVERTED"
  else if c =? ExitTimeoutPending then "TIMEOUT_PENDING"
  else if c =? ExitTxConflict then "TX_CONFLICT"
  else if c =? ExitNotFound then "NOT_FOUND"
  else if c =? ExitState then "STATE"
  else if c =? ExitIntegrity then "INTEGRITY"
  else "EXIT(" +:+ z_string c +:+ ")".

(** ** The registry (error.go) *)

Definition codeExit_rows : list (string * Z) :=
  [("internal", ExitInternal);
   ("usage", ExitUsage); ("ref.ambiguous", ExitUsage); ("config.invalid", ExitUsage);
   ("config.schema_unsupported", ExitUsage); ("secret.unresolved", ExitUsage);
   ("sign.bad_message", ExitUsage); ("sign.bad_typed", ExitUsage);
   ("verify.bad_signature", ExitUsage); ("verify.mismatch", ExitUsage);
   ("policy.denied", ExitPolicyDenied);
   ("keystore.bad_passphrase", ExitAuth); ("keystore.confirm_required", ExitAuth);
   ("keystore.passphrase_stale", ExitAuth); ("keystore.passphrase_required", ExitAuth);
   ("keystore.passphrase_file_error", ExitAuth); ("keystore.prompt_failed", ExitAuth);
   ("funds.insufficient", ExitInsufficientFunds);
   ("rpc.unreachable", ExitNetwork); ("rpc.unsupported", ExitUsage);
   ("tx.reverted", ExitReverted);
   ("tx.wait_timeout", ExitTimeoutPending); ("receive.timeout", ExitTimeoutPending);
   ("policy.seal_violation", ExitTimeoutPending); ("policy.rollback", ExitTimeoutPending);
   ("policy.admin_auth", ExitTimeoutPending); ("policy.state_error", ExitTimeoutPending);
   ("tx.replaced", ExitTxConflict); ("tx.replacement_underpriced", ExitTxConflict);
   ("tx.already_mined", ExitTxConflict); ("tx.nonce_gap", ExitTxConflict);
   ("ref.not_found", ExitNotFound); ("config.read_only", ExitNotFound);
   ("config.not_found", ExitNotFound); ("keystore.read_only", ExitNotFound);
   ("state.lock_timeout", ExitState); ("state.corrupt", ExitState);
   ("keystore.derivation_watermark", ExitState);
   ("rpc.chain_id_mismatch", ExitIntegrity); ("tx.integrity.reservation_missing", ExitIntegrity);
   ("keystore.perms_insecure", ExitIntegrity)].

Definition codeExit : gmap string Z := list_to_map codeExit_rows.

Definition retryableDefaults : gmap string bool := list_to_map
  [("rpc.unreachable", true); ("tx.wait_timeout", true); ("receive.timeout", true);
   ("tx.replaced", true); ("tx.replacement_underpriced", true); ("tx.nonce_gap", true);
   ("state.lock_timeout", true); ("policy.denied.day_limit", true); ("policy.denied.gas_cap", true)].

(** [code[:strings.LastIndexByte(code, '.')]] *)
Fixpoint cut_last_dot (s : string) : option string :=
  match s with
  | "" => None
  | String c s' =>
      match cut_last_dot s' with
      | Some p => Some (String c p)
      | None => if byteZ c =? 46 then Some "" else None
      end
  end.

(** the loop over the dotted prefixes, longest first; each round is shorter *)
Fixpoint prefix_walk {A} (table : gmap string A) (fuel : nat) (code : string) : option A :=
  match fuel with
  | O => None
  | S fuel =>
      match table !! code with
      | Some a => Some a
      | None => match cut_last_dot code with
                | Some code' => prefix_walk table fuel code'
                | None => None
                end
      end
  end.

Definition ExitOf (code : string) : Z :=
  if bool_decide (code = "") then ExitInternal
  else default ExitInternal (prefix_walk codeExit (S (String.length code)) code).

Definition retryableFor (code : string) : bool :=
  if bool_decide (code = "") then false
  else default false (prefix_walk retryableDefaults (S (String.length code)) code).

(** ** Errors *)

Record error := mkError {
  e_Code : string;
  e_Exit : Z;
  e_Msg : string;
  e_Retryable : bool;
  e_Data : option (gmap string ddval);
}.

Definition New (code msg : string) : error :=
  {| e_Code := code; e_Exit := ExitOf code; e_Msg := msg; e_Retryable := retryableFor code;
     e_Data := None |}.

(** WithData on a non-nil error: the new entries win *)
Definition WithData (e : error) (data : gmap string ddval) : error :=
  {| e_Code := e_Code e; e_Exit := e_Exit e; e_Msg := e_Msg e; e_Retryable := e_Retryable e;
     e_Data := Some (data ∪ default ∅ (e_Data e)) |}.

Definition set_retryable (e : error) : error :=
  {| e_Code := e_Code e; e_Exit := e_Exit e; e_Msg := e_Msg e; e_Retryable := true;
     e_Data := e_Data e |}.

(** ** The dotted-prefix rule *)

Definition dotted_prefix (p code : string) : Prop := p = code ∨ ∃ r, code = p +:+ "." +:+ r.

Lemma cut_last_dot_some s p :
  cut_last_dot s = Some p → ∃ r, s = p +:+ "." +:+ r ∧ cut_last_dot r = None.
Proof.
  revert p. induction s as [|c s IH]; intros p H; simpl in H; [done|].
  destruct (cut_last_dot s) as [q|] eqn:E.
  - injection H as <-. destruct (IH q eq_refl) as (r & -> & Hr). exists r.
    split; [by rewrite string_app_cons|done].
  - destruct (Z.eqb_spec (byteZ c) 46) as [Hc|]; [|done]. injection H as <-.
    exists s. split; [|done]. rewrite string_app_nil_l.
    replace c with (Zbyte 46) by (by rewrite <-Hc, Zbyte_byteZ). done.
Qed.

Lemma cut_last_dot_app p r : cut_last_dot (p +:+ "." +:+ r) = None → False.
Proof.
  induction p as [|c p IH].
  - rewrite string_app_nil_l. change ("." +:+ r) with (String (Zbyte 46) r). simpl.
    by destruct (cut_last_dot r).
  - rewrite string_app_cons. simpl. destruct (cut_last_dot _); [done|]. intros _. by apply IH.
Qed.

(** Every proper dotted prefix is a dotted prefix of the longest one. *)
Lemma dotted_prefix_cut p code q :
  cut_last_dot code = Some q → dotted_prefix p code → p ≠ code → dotted_prefix p q.
Proof.
  intros Hcut [->|[r ->]] Hne; [done|]. clear Hne.
  revert q Hcut. induction p as [|c p IH]; intros q Hcut.
  - rewrite string_app_nil_l in Hcut. change ("." +:+ r) with (String (Zbyte 46) r) in Hcut.
    simpl in Hcut. destruct (cut_last_dot r) as [t|]; injection Hcut as <-; [|by left].
    right. exists t. done.
  - rewrite string_app_cons in Hcut. simpl in Hcut.
    destruct (cut_last_dot (p +:+ "." +:+ r)) as [t|] eqn:E; [|by apply cut_last_dot_app in E].
    injection Hcut as <-. destruct (IH t eq_refl) as [->|[u ->]]; [by left|].
    right. exists u. by rewrite string_app_cons.
Qed.

Lemma cut_last_dot_length s p : cut_last_dot s = Some p → (String.length p < String.length s)%nat.
Proof.
  intros H. destruct (cut_last_dot_some _ _ H) as (r & -> & _).
  rewrite !string_length_app. simpl. lia.
Qed.

Lemma cut_last_dot_prefix s p : cut_last_dot s = Some p → dotted_prefix p s.
Proof. intros H. destruct (cut_last_dot_some _ _ H) as (r & -> & _). right. eauto. Qed.

Lemma dotted_prefix_trans p q s : dotted_prefix p q → dotted_prefix q s → dotted_prefix p s.
Proof.
  intros [Hp|[r Hp]] [Hq|[t Hq]]; subst; [by left|right; eauto|right; eauto|].
  right. exists (r +:+ "." +:+ t). by rewrite !string_app_assoc.
Qed.

Lemma dotted_prefix_length p s : dotted_prefix p s → (String.length p ≤ String.length s)%nat.
Proof. intros [->|[r ->]]; [lia|]. rewrite !string_length_app. lia. Qed.

(** The walk finds the entry of the longest dotted prefix in the table, and has
    enough fuel to reach it. *)
Lemma prefix_walk_spec {A} (table : gmap string A) fuel code :
  (String.length code < fuel)%nat →
  match prefix_walk table fuel code with
  | Some a => ∃ p, dotted_prefix p code ∧ table !! p = Some a ∧
                   ∀ q, dotted_prefix q code → is_Some (table !! q) → (String.length q ≤ String.length p)%nat
  | None => ∀ q, dotted_prefix q code → table !! q = None
  end.
Proof.
  revert code. induction fuel as [|fuel IH]; intros code Hf; [lia|]. simpl.
  destruct (table !! code) as [a|] eqn:Ht.
  { exists code. split; [by left|]. split; [done|]. intros q Hq _. by apply dotted_prefix_length. }
  destruct (cut_last_dot code) as [code'|] eqn:Hc.
  - specialize (IH code'). pose proof (cut_last_dot_length _ _ Hc).
    specialize (IH ltac:(lia)). destruct (prefix_walk table fuel code') as [a|].
    + destruct IH as (p & Hp & Htp & Hmax). exists p.
      split; [eauto using dotted_prefix_trans, cut_last_dot_prefix|]. split; [done|].
      intros q Hq Hs. destruct (decide (q = code)) as [->|Hne]; [by destruct Hs; congruence|].
      apply Hmax; [by eapply dotted_prefix_cut|done].
    + intros q Hq. destruct (decide (q = code)) as [->|Hne]; [done|].
      apply IH. by eapply dotted_prefix_cut.
  - intros q [->|[r ->]]; [done|]. by apply cut_last_dot_app in Hc.
Qed.

(** ** The properties *)

(** The exit code of a code is that of its longest registered dotted prefix.
    Either some dotted prefix of the code is in the registry, and the exit code
    is the entry of the longest one, or none is and the exit code is INTERNAL. *)
Theorem exit_of_longest_prefix code :
  code ≠ "" →
  (∃ p, dotted_prefix p code ∧ codeExit !! p = Some (ExitOf code) ∧
        ∀ q, dotted_prefix q code → is_Some (codeExit !! q) → (String.length q ≤ String.length p)%nat) ∨
  ((∀ q, dotted_prefix q code → codeExit !! q = None) ∧ ExitOf code = ExitInternal).
Proof.
  intros Hne. unfold ExitOf. rewrite bool_decide_false by done.
  pose proof (prefix_walk_spec codeExit (S (String.length code)) code ltac:(lia)) as H.
  destruct (prefix_walk _ _ _) as [e|]; [left|by right].
  destruct H as (p & Hp & He & Hmax). by exists p.
Qed.

Lemma codeExit_range p e : codeExit !! p = Some e → 1 ≤ e ≤ 12.
Proof.
  intros H. apply elem_of_list_to_map_2 in H. unfold codeExit_rows in H.
  assert (Hall : Forall (λ x : string * Z, 1 ≤ x.2 ≤ 12) codeExit_rows)
    by (repeat constructor; vm_compute; discriminate).
  rewrite Forall_forall in Hall. by apply (Hall (p, e)).
Qed.

(** A failure never looks like success.  Whatever the code, even an unknown
    or empty one, the exit code lies between 1 and 12. *)
Theorem exit_of_never_zero code : 1 ≤ ExitOf code ≤ 12.
Proof.
  unfold ExitOf. case_bool_decide; [by vm_compute|].
  pose proof (prefix_walk_spec codeExit (S (String.length code)) code ltac:(lia)) as Hs.
  destruct (prefix_walk _ _ _) as [e|]; [|by vm_compute].
  destruct Hs as (p & _ & He & _). by eapply codeExit_range.
Qed.

Lemma exit_of_longest_prefix_witness :
  (∃ p, dotted_prefix p "policy.denied.day_limit" ∧ codeExit !! p = Some (ExitOf "policy.denied.day_limit") ∧
        ∀ q, dotted_prefix q "policy.denied.day_limit" → is_Some (codeExit !! q) →
             (String.length q ≤ String.length p)%nat) ∨
  ((∀ q, dotted_prefix q "policy.denied.day_limit" → codeExit !! q = None) ∧
   ExitOf "policy.denied.day_limit" = ExitInternal).
Proof. apply (exit_of_longest_prefix "policy.denied.day_limit"). discriminate. Defined.
