(* ===== verification/PolicyFile.v ===== *)
(** * The sealed policy file: [internal/policy/file.go]

    The two-member envelope and [loadPolicy]: every check between the bytes of
    policy.json and a policy the engine acts on, in the order of the source. *)

From S2P Require Import Prelude GoStrings Decimal Encodings Json PolicyTypes PolicyBody Seal Domain.

Local Open Scope string_scope.
Local Open Scope Z_scope.
Local Open Scope list_scope.
Local Open Scope go_scope.

Definition envelopeVersion : Z := 1.
Definition bodyVersion : Z := 1.
Definition sealAlg : string := "scrypt/ed25519".

Record sealBlock := mkSeal { sb_Alg : string; sb_Sig : string }.
Record envelope := mkEnvelope { en_Version : Z; en_BodyB64 : string; en_Seal : sealBlock }.

Record SealStatus := mkStatus {
  ss_Present : bool;
  ss_AnchorFound : bool;
  ss_Verified : bool;
  ss_Nonce : Z;
  ss_Watermark : Z;
  ss_WrittenBy : string;
  ss_Reason : string;
  ss_AnchorSource : string;
}.
Definition zero_status : SealStatus := mkStatus false false false 0 0 "" "" "".

Definition marshalEnvelope (env : envelope) : string :=
  "{" +:+ jsonString "version" +:+ ":" +:+ itoaInt (en_Version env) +:+ comma +:+
  jsonString "body_b64" +:+ ":" +:+ jsonString (en_BodyB64 env) +:+ comma +:+
  jsonString "seal" +:+ ":" +:+ "{" +:+
  jsonString "alg" +:+ ":" +:+ jsonString (sb_Alg (en_Seal env)) +:+ comma +:+
  jsonString "sig" +:+ ":" +:+ jsonString (sb_Sig (en_Seal env)) +:+ "}" +:+ "}".

(** the fields of the body the first pass reads *)
Record bodyHead := mkHead { bh_Version : Z; bh_Nonce : Z; bh_WrittenBy : string }.

Record loadResult := mkLoad {
  lr_policy : Policy;
  lr_bodyB64 : string;
  lr_bodyRaw : string;
  lr_seal : sealBlock;
  lr_present : bool;
  lr_status : SealStatus;
}.

Definition seal_data (status source : string) : gmap string ddval :=
  {["seal_status" := DVal (DStr status); "anchor_source" := DVal (DStr source)]}.

Definition seal_violation (msg status source : string) : error :=
  WithData (New "policy.seal_violation" msg) (seal_data status source).

Definition version_violation (msg writtenBy : string) : error :=
  WithData (New "policy.seal_violation" msg)
    ({["reason" := DVal (DStr "policy.version"); "written_by" := DVal (DStr writtenBy)]} ∪ seal_data "version" "config").

Definition rollback (nonce watermark : Z) : error :=
  WithData (New "policy.rollback"
      ("the policy nonce " +:+ z_string nonce +:+ " is below the anchor watermark " +:+ z_string watermark +:+
       "; an older sealed policy was replayed"))
    {["body_nonce" := DVal (DInt nonce); "watermark" := DVal (DInt watermark)]}.

Section Load.
Context {UT : UnicodeTables} {SC : SealCrypto}.

(** json.Unmarshal into a target that held [zero] *)
Definition unmarshal {A} (d : D A) (zero : A) (raw : string) : option A :=
  match json_parse raw with Some j => d zero j | None => None end.

Definition d_envelope : D envelope := d_struct false
  [("version", field en_Version (λ '(mkEnvelope _ b c) x, mkEnvelope x b c) d_int);
   ("body_b64", field en_BodyB64 (λ '(mkEnvelope a _ c) x, mkEnvelope a x c) d_string);
   ("seal", field en_Seal (λ '(mkEnvelope a b _) x, mkEnvelope a b x)
      (d_struct false
        [("alg", field sb_Alg (λ '(mkSeal _ b) x, mkSeal x b) d_string);
         ("sig", field sb_Sig (λ '(mkSeal a _) x, mkSeal a x) d_string)]))].
Definition zero_envelope : envelope := mkEnvelope 0 "" (mkSeal "" "").

Definition d_head : D bodyHead := d_struct false
  [("version", field bh_Version (λ '(mkHead _ b c) x, mkHead x b c) d_int);
   ("nonce", field bh_Nonce (λ '(mkHead a _ c) x, mkHead a x c) d_uint64);
   ("written_by", field bh_WrittenBy (λ '(mkHead a b _) x, mkHead a b x) d_string)].
Definition zero_head : bodyHead := mkHead 0 0 "".

Definition parseEnvelope (b : string) : res error envelope :=
  match unmarshal d_envelope zero_envelope b with
  | Some env => Ok env
  | None => Err (New "policy.seal_violation" "policy.json is not a valid sealed envelope")
  end.

Definition verifyUnderAnchor (bodyRaw sig : string) (anchor : Anchor) : bool :=
  (match VerifyKeyBytes anchor with Ok pk => Verify bodyRaw sig pk | Err _ => false end) ||
  (match VerifyKeyNextBytes anchor with Ok (Some pk) => Verify bodyRaw sig pk | _ => false end).

(** loadPolicy on an envelope that was read and an anchor that is pinned *)
Definition load_sealed (raw : string) (anchor : Anchor) : res error loadResult :=
  match unmarshal d_envelope zero_envelope raw with
  | None => Err (seal_violation "policy.json is not a valid sealed envelope" "unparseable" "config")
  | Some env =>
  match DecodeString (en_BodyB64 env) with
  | None => Err (seal_violation "policy.json body_b64 is not valid base64" "unparseable" "config")
  | Some bodyRaw =>
  match DecodeString (sb_Sig (en_Seal env)) with
  | None => Err (seal_violation "policy.json seal.sig is not valid base64" "bad_sig" "config")
  | Some sig =>
  if negb (verifyUnderAnchor bodyRaw sig anchor)
  then Err (seal_violation "the policy seal does not verify under the pinned anchor key; signing is halted"
              "bad_sig" "config")
  else
  match unmarshal d_head zero_head bodyRaw with
  | None => Err (seal_violation "the sealed policy body is not valid JSON" "unparseable" "config")
  | Some head =>
  if bh_Nonce head <? an_NonceWatermark anchor
  then Err (rollback (bh_Nonce head) (an_NonceWatermark anchor))
  else if bodyVersion <? bh_Version head
  then Err (version_violation
              ("policy.json was written by " +:+ go_quote (bh_WrittenBy head) +:+ " at body version " +:+
               z_string (bh_Version head) +:+ "; this binary supports version " +:+ z_string bodyVersion +:+
               " — upgrade agent images to ≥ the version that wrote the policy") (bh_WrittenBy head))
  else
  match decodeBodyStrict bodyRaw with
  | None => Err (version_violation
              ("policy.json (written by " +:+ bh_WrittenBy head +:+ ") carries fields this binary does not understand; upgrade agent images to ≥ the version that wrote the policy")
              (bh_WrittenBy head))
  | Some pol =>
      Ok {| lr_policy := pol; lr_bodyB64 := en_BodyB64 env; lr_bodyRaw := bodyRaw; lr_seal := en_Seal env;
            lr_present := true;
            lr_status := {| ss_Present := true; ss_AnchorFound := true; ss_Verified := true;
                            ss_Nonce := p_Nonce pol; ss_Watermark := an_NonceWatermark anchor;
                            ss_WrittenBy := p_WrittenBy pol; ss_Reason := ""; ss_AnchorSource := "config" |} |}
  end end end end end.

Definition zero_result : loadResult := mkLoad zero_policy "" "" (mkSeal "" "") false zero_status.

(** [file] is policy.json, [None] when it cannot be read; [anchor] is the pinned
    anchor, [None] when none was found *)
Definition loadPolicy (file : option string) (anchor : option Anchor) : res error loadResult :=
  match file, anchor with
  | None, None => Ok zero_result
  | None, Some _ =>
      Err (seal_violation "a policy anchor is pinned but policy.json is missing; signing is halted (fail-closed)"
             "missing" "config")
  | Some _, None =>
      Err (seal_violation "policy.json is present but no anchor is pinned; signing is halted (anchor_missing)"
             "anchor_missing" "none")
  | Some raw, Some anchor => load_sealed raw anchor
  end.

(** Engine.loadActivePolicy, as the policy the engine acts on *)
Definition loadActivePolicy (file : option string) (anchor : option Anchor) : res error (option Policy) :=
  match loadPolicy file anchor with
  | Err e => Err e
  | Ok r => Ok (if lr_present r then Some (lr_policy r) else None)
  end.
End Load.
