(* ===== verification/Trace.v ===== *)
(** * Stateful operations with their crash points

    An operation over durable state [S] is a function from the state to its
    result and the list of states after each of its atomic writes, in order: the
    state after a crash is the initial state or one of that list.  The lemmas
    invert and step through sequences of operations. *)

From S2P Require Import Prelude Domain.

Local Open Scope list_scope.

Definition T (S A : Type) : Type := S → res error A * list S.

(** the state after the writes of a trace *)
Definition after {S} (d : S) (tr : list S) : S := List.last tr d.

Definition mret {S A} (a : A) : T S A := λ _, (Ok a, []).
Definition mfail {S A} (e : error) : T S A := λ _, (Err e, []).
Definition mbind {S A B} (m : T S A) (f : A → T S B) : T S B := λ d,
  match m d with
  | (Ok a, tr) => let '(r, tr') := f a (after d tr) in (r, tr ++ tr')
  | (Err e, tr) => (Err e, tr)
  end.
Definition mget {S} : T S S := λ d, (Ok d, []).
Definition mlift {S A} (r : res error A) : T S A := λ _, (r, []).

(** an operation that fails when the I/O did *)
Definition guard {S} (o : option error) : T S unit :=
  match o with None => mret tt | Some e => mfail e end.

Notation "x <-- m ;; k" := (mbind m (fun x => k)) (at level 100, m at next level, right associativity) : go_scope.
Notation "m ;;; k" := (mbind m (fun _ => k)) (at level 100, right associativity) : go_scope.

(** an action that writes nothing *)
Definition reads_only {S A} (m : T S A) : Prop := ∀ d, (m d).2 = [].

Section Monad.
Context {S A B : Type}.
Implicit Types (m : T S A) (f : A → T S B) (d : S).

Lemma mbind_ok m f d b tr :
  mbind m f d = (Ok b, tr) ↔
  ∃ a tr1 tr2, m d = (Ok a, tr1) ∧ f a (after d tr1) = (Ok b, tr2) ∧ tr = tr1 ++ tr2.
Proof.
  unfold mbind. destruct (m d) as [[a|e] tr1].
  - destruct (f a (after d tr1)) as [r tr2] eqn:E. split.
    + intros [= -> <-]. exists a, tr1, tr2. done.
    + intros (a' & t1 & t2 & [= <- <-] & E' & ->). rewrite E in E'. by injection E' as -> ->.
  - split; [done|]. by intros (a' & t1 & t2 & [=] & _).
Qed.

Lemma mbind_run m f d a tr1 :
  m d = (Ok a, tr1) → mbind m f d = ((f a (after d tr1)).1, tr1 ++ (f a (after d tr1)).2).
Proof. intros H. unfold mbind. rewrite H. by destruct (f a (after d tr1)). Qed.

Lemma mbind_read m f d a : m d = (Ok a, []) → mbind m f d = f a d.
Proof. intros H. rewrite (mbind_run _ _ _ _ _ H). simpl. by destruct (f a d). Qed.

Lemma mbind_fail m f d e tr : m d = (Err e, tr) → mbind m f d = (Err e, tr).
Proof. intros H. unfold mbind. by rewrite H. Qed.

(** every disk of the trace of a sequence *)
Lemma mbind_trace m f d d' :
  d' ∈ (mbind m f d).2 →
  d' ∈ (m d).2 ∨ ∃ a tr1, m d = (Ok a, tr1) ∧ d' ∈ (f a (after d tr1)).2.
Proof.
  unfold mbind. destruct (m d) as [[a|e] tr1]; [|by left].
  destruct (f a (after d tr1)) as [r tr2] eqn:E. simpl. rewrite elem_of_app.
  intros [?|?]; [by left|right]. exists a, tr1. by rewrite E.
Qed.

Lemma mbind_trace_l m f d d' : d' ∈ (m d).2 → d' ∈ (mbind m f d).2.
Proof.
  unfold mbind. destruct (m d) as [[a|e] tr]; [|done]. intros H.
  destruct (f a (after d tr)) as [r tr']. apply elem_of_app. by left.
Qed.

Lemma mbind_trace_r m f d d' a tr :
  m d = (Ok a, tr) → d' ∈ (f a (after d tr)).2 → d' ∈ (mbind m f d).2.
Proof.
  intros H Hd. rewrite (mbind_run _ _ _ _ _ H). simpl. apply elem_of_app. by right.
Qed.

Lemma mbind_trace_read m f d d' :
  reads_only m → d' ∈ (mbind m f d).2 → ∃ a, m d = (Ok a, []) ∧ d' ∈ (f a d).2.
Proof.
  intros Hr. specialize (Hr d). intros [H|(a & tr & H & Hd)]%mbind_trace.
  - rewrite Hr in H. by apply elem_of_nil in H.
  - rewrite H in Hr. simpl in Hr. subst. eauto.
Qed.

Lemma reads_only_bind m f : reads_only m → (∀ a, reads_only (f a)) → reads_only (mbind m f).
Proof.
  intros Hm Hf d. specialize (Hm d). unfold mbind. destruct (m d) as [[a|e] tr1]; simpl in *; [|done].
  subst. specialize (Hf a d). simpl. by destruct (f a d) as [r tr2].
Qed.
End Monad.

Lemma after_app {S} (d : S) tr1 tr2 : after d (tr1 ++ tr2) = after (after d tr1) tr2.
Proof.
  unfold after. revert d. induction tr1 as [|x tr1 IH]; intros d; [done|].
  rewrite <-app_comm_cons.
  assert (H : ∀ (y : S) l d0, List.last (y :: l) d0 = List.last l y).
  { intros y l. revert y. induction l as [|z l IHl]; intros y d0; [done|].
    change (List.last (y :: z :: l) d0) with (List.last (z :: l) d0).
    rewrite !(IHl z). done. }
  rewrite !H. apply IH.
Qed.

Lemma after_elem {S} (s : S) tr : after s tr = s ∨ after s tr ∈ tr.
Proof.
  unfold after. destruct tr as [|x tr _] using rev_ind; [by left|right].
  rewrite List.last_last. apply elem_of_app. right. left.
Qed.

Lemma mget_run {S} (d : S) : mget d = (Ok d, []).
Proof. done. Qed.

Lemma mget_ok {S} (d : S) x tr : mget d = (Ok x, tr) → x = d ∧ tr = [].
Proof. by intros [= <- <-]. Qed.

Lemma mret_ok {S A} (a : A) (d : S) x tr : mret a d = (Ok x, tr) → x = a ∧ tr = [].
Proof. by intros [= <- <-]. Qed.

Lemma mlift_ok {S A} (r : res error A) (d : S) x tr : mlift r d = (Ok x, tr) → r = Ok x ∧ tr = [].
Proof. unfold mlift. by intros [= -> <-]. Qed.

Lemma guard_ok {S} o (d : S) a tr : guard o d = (Ok a, tr) → o = None ∧ tr = [].
Proof. destruct o; [done|]. by intros [= _ <-]. Qed.

Lemma reads_mget {S} : reads_only (@mget S).
Proof. done. Qed.
Lemma reads_mret {S A} (a : A) : reads_only (@mret S A a).
Proof. done. Qed.
Lemma reads_mfail {S A} e : reads_only (@mfail S A e).
Proof. done. Qed.
Lemma reads_mlift {S A} (r : res error A) : reads_only (@mlift S A r).
Proof. done. Qed.
Lemma reads_guard {S} o : reads_only (@guard S o).
Proof. by destruct o. Qed.

#[export] Hint Resolve reads_mget reads_mret reads_mfail reads_mlift reads_guard : daxie.

Lemma Ok_eq {E A} (a b : A) : @Ok E A a = Ok b → b = a.
Proof. by intros [= ->]. Qed.

(** Use an equation for a variable, and forget it otherwise. *)
Ltac use_eq E := match type of E with
  | ?t = ?t => clear E
  | ?t = ?u => first [subst t | subst u | idtac]
  end.

(** Invert a successful run of a sequence of actions. *)
Ltac minv :=
  repeat match goal with
  | H : mbind _ _ _ = (Ok _, _) |- _ =>
      let a := fresh "a" in let t1 := fresh "tr" in let t2 := fresh "tr" in
      let H1 := fresh H in let H2 := fresh H in
      apply mbind_ok in H as (a & t1 & t2 & H1 & H2 & ->)
  | H : mget _ = (Ok _, _) |- _ =>
      let E := fresh in apply mget_ok in H as [H E]; use_eq H; use_eq E
  | H : mret _ _ = (Ok _, _) |- _ =>
      let E := fresh in apply mret_ok in H as [H E]; use_eq H; use_eq E
  | H : mfail _ _ = (Ok _, _) |- _ => discriminate H
  | H : Ok _ = Ok _ |- _ => apply Ok_eq in H; use_eq H
  | H : guard _ _ = (Ok _, _) |- _ =>
      let E := fresh in apply guard_ok in H as [? E]; use_eq E
  | H : mlift ?r _ = (Ok _, _) |- _ =>
      let E := fresh in apply mlift_ok in H as [H E]; use_eq E
  end; cbn [after List.last app] in *.

(** ** Ignoring an error, and acting on a part of the state *)

(** run an action and keep its error as a value *)
Definition mtry {S A} (m : T S A) : T S (option error) := λ d,
  match m d with
  | (Ok _, tr) => (Ok None, tr)
  | (Err e, tr) => (Ok (Some e), tr)
  end.

(** an action on the part of [S] that [get] reads and [put] replaces *)
Definition mzoom {S P A} (get : S → P) (put : S → P → S) (m : T P A) : T S A := λ s,
  let '(r, tr) := m (get s) in (r, map (put s) tr).

Lemma mtry_run {S A} (m : T S A) d r tr :
  m d = (r, tr) → mtry m d = (Ok (match r with Ok _ => None | Err e => Some e end), tr).
Proof. unfold mtry. intros ->. by destruct r. Qed.

Lemma mzoom_after {S P A} (get : S → P) put (m : T P A) s r tr :
  (∀ s p, get (put s p) = p) → m (get s) = (r, tr) →
  mzoom get put m s = (r, map (put s) tr) ∧ get (after s (map (put s) tr)) = after (get s) tr.
Proof.
  intros Hgp H. unfold mzoom. rewrite H. split; [done|]. unfold after.
  destruct tr as [|x tr _] using rev_ind; [done|]. rewrite map_app. cbn [map].
  by rewrite !List.last_last, Hgp.
Qed.

(** ** Invariants along a trace

    Every state an operation passes through satisfies [I], and its result and
    last state satisfy [Q]. *)

Definition runs_in {S A} (I : S → Prop) (m : T S A) (d : S) (Q : A → S → Prop) : Prop :=
  Forall I (m d).2 ∧ ∀ a tr, m d = (Ok a, tr) → Q a (after d tr).

Section RunsIn.
Context {S : Type} (I : S → Prop).

Lemma after_in d tr : I d → Forall I tr → I (after d tr).
Proof.
  intros Hd H. unfold after. destruct tr as [|x tr _] using rev_ind; [done|]. rewrite List.last_last.
  by apply Forall_app in H as [_ [H _]%Forall_cons].
Qed.

Lemma runs_in_conseq {A} (m : T S A) d (Q Q' : A → S → Prop) :
  I d → runs_in I m d Q → (∀ a d', I d' → Q a d' → Q' a d') → runs_in I m d Q'.
Proof. intros Hd [H1 H2] HQ. split; [done|]. intros a tr E. apply HQ; [|by apply H2]. apply after_in; [done|]. by rewrite E in H1. Qed.

Lemma runs_in_bind {A B} (m : T S A) (f : A → T S B) d Q :
  I d → runs_in I m d (λ a d', I d' → runs_in I (f a) d' Q) → runs_in I (mbind m f) d Q.
Proof.
  intros Hd [H1 H2]. unfold runs_in, mbind. destruct (m d) as [[a|e] tr] eqn:E; cbn in *.
  - specialize (H2 a tr eq_refl (after_in _ _ Hd H1)) as [H3 H4]. destruct (f a (after d tr)) as [r tr'] eqn:E'. cbn in *. split.
    + by apply Forall_app.
    + intros b tr2 [= -> <-]. rewrite after_app. by apply H4.
  - split; [done|]. by intros ? ? [=].
Qed.

Lemma runs_in_ret {A} (a : A) d (Q : A → S → Prop) : Q a d → runs_in I (mret a) d Q.
Proof. intros H. split; [constructor|]. by intros ? ? [= <- <-]. Qed.
Lemma runs_in_fail {A} e d (Q : A → S → Prop) : runs_in I (mfail e) d Q.
Proof. split; [constructor|]. by intros ? ? [=]. Qed.
Lemma runs_in_get d (Q : S → S → Prop) : Q d d → runs_in I mget d Q.
Proof. intros H. split; [constructor|]. by intros ? ? [= <- <-]. Qed.
Lemma runs_in_lift {A} (r : res error A) d (Q : A → S → Prop) : (∀ a, r = Ok a → Q a d) → runs_in I (mlift r) d Q.
Proof. intros H. split; [constructor|]. intros a tr [= -> <-]. by apply H. Qed.
Lemma runs_in_read {A} (m : T S A) d (Q : A → S → Prop) :
  reads_only m → (∀ a, m d = (Ok a, []) → Q a d) → runs_in I m d Q.
Proof.
  intros Hr H. specialize (Hr d). split; [rewrite Hr; constructor|]. intros a tr E. rewrite E in Hr. cbn in Hr. subst tr. by apply H.
Qed.
Lemma runs_in_try {A} (m : T S A) d (Q : option error → S → Prop) :
  I d → Forall I (m d).2 →
  (∀ a tr, m d = (Ok a, tr) → Q None (after d tr)) → (∀ e tr, m d = (Err e, tr) → Q (Some e) (after d tr)) → runs_in I (mtry m) d Q.
Proof.
  intros Hd H1 H2 H3. unfold runs_in, mtry. destruct (m d) as [[a|e] tr]; cbn in *; (split; [done|]); intros o tr' [= <- <-]; eauto.
Qed.
End RunsIn.

Lemma runs_in_mono {S A} (I J : S → Prop) (m : T S A) d (Q Q' : A → S → Prop) :
  (∀ x, I x → J x) → (∀ a x, Q a x → Q' a x) → runs_in I m d Q → runs_in J m d Q'.
Proof. intros HI HQ [H1 H2]. split; [by eapply Forall_impl|]. intros a tr E. by apply HQ, H2. Qed.
