(* ===== verification/Evaluate.v ===== *)
(** * The verdict: [internal/policy/evaluate.go]

    The pure pipeline of stages 3 to 8 over a seal-verified policy, the request
    and the rolling-24h total.  Every stage returns the violation it finds, the
    violations accumulate, and the decision carries the code of the one with
    the highest precedence.

    The second half states what the pipeline promises as a predicate on the
    request ([admissible]) and proves that the pipeline decides it. *)

From S2P Require Import Prelude GoStrings Decimal Rfc3339 PolicyTypes.

Local Open Scope string_scope.
Local Open Scope Z_scope.

(** ** Codes and precedence *)

Definition codeDenied := "policy.denied".
Definition codeTxLimit := "policy.denied.tx_limit".
Definition codeDayLimit := "policy.denied.day_limit".
Definition codeAllowlist := "policy.denied.allowlist".
Definition codeNoAllowlist := "policy.denied.no_allowlist".
Definition codeGasCap := "policy.denied.gas_cap".
Definition codePinDrift := "policy.denied.pin_drift".
Definition codeTypedData := "policy.denied.typed_data".
Definition codeUnlimitedUnacked := "policy.denied.unlimited_unacked".
Definition codeContractCall := "policy.denied.contract_call".

Definition precedence : gmap string Z := list_to_map
  [(codeAllowlist, 1); (codeNoAllowlist, 1); (codePinDrift, 2); (codeTypedData, 3);
   (codeContractCall, 3); (codeUnlimitedUnacked, 4); (codeTxLimit, 5); (codeDayLimit, 6);
   (codeGasCap, 7)].

Definition rank (code : string) : Z := default (2 ^ 30) (precedence !! code).

(** ** The decision of a non-empty list of violations *)

Definition violationsPayload (vs : list Violation) : list vdata :=
  map (λ v, v_Data v ∪ {["code" := DStr (v_Code v); "reason" := DStr (v_Reason v)]}) vs.

Definition winner (v : Violation) (vs : list Violation) : Violation :=
  foldl (λ w v, if rank (v_Code v) <? rank (v_Code w) then v else w) v vs.

Definition composeDenial (v : Violation) (vs : list Violation) : Decision :=
  let w := winner v vs in
  {| d_Allowed := false;
     d_Code := v_Code w;
     d_Reason := v_Reason w;
     d_Violations := v :: vs;
     d_RetryAfter := match v_Data w !! "retry_after" with Some (DStr s) => s | _ => "" end;
     d_Data := Some ((DVal <$> v_Data w) ∪ {["violations" := DViolations (violationsPayload (v :: vs))]}) |}.

(** ** Limits: the default block overridden per network *)

Record resolvedLimits := mkResolved {
  maxTx : option Z;
  maxDay : option Z;
  maxGasPrice : option Z;
  allowlistEnabled : bool;
  includeSelf : bool;
  anySet : bool;
  typedUnknown : string;
}.

Definition parseLimit (p : option string) : option Z :=
  match p with
  | None => None
  | Some s => if isNull p then None else SetString s 10
  end.

Definition overrideLimit (current : option Z) (p : option string) : option Z :=
  match p with
  | None => current
  | Some s =>
      if isNull p then None
      else match SetString s 10 with Some v => Some v | None => current end
  end.

Definition boolOr (p : option bool) (def : bool) : bool := default def p.

(** the unlimited sentinels (recognizers.go) *)
Definition uint256Max : Z := 2 ^ 256 - 1.
Definition uint160Max : Z := 2 ^ 160 - 1.
Definition uint96Max : Z := 2 ^ 96 - 1.
Definition isUnlimitedAmount (amount : option Z) : bool :=
  match amount with
  | None => false
  | Some a => (a =? uint256Max) || (a =? uint160Max) || (a =? uint96Max)
  end.

Section Pipeline.
Context {UT : UnicodeTables} {GC : GethCommon}.

Definition resolveLimits (p : Policy) (network : string) : resolvedLimits :=
  let d := r_Default (p_Rules p) in
  let mT := parseLimit (MaxTxWei d) in
  let mD := parseLimit (MaxDayWei d) in
  let mG := parseLimit (MaxGasPriceWei d) in
  let aE := boolOr (AllowlistEnabled d) false in
  let iS := boolOr (IncludeSelf d) false in
  let tU := td_Unknown (p_TypedData p) in
  let isSet (t dd g : option Z) := bool_decide (is_Some t) || bool_decide (is_Some dd) || bool_decide (is_Some g) in
  match List.find (λ n, EqualFold (nr_Network n) network) (r_Networks (p_Rules p)) with
  | None => mkResolved mT mD mG aE iS (isSet mT mD mG) tU
  | Some n =>
      let l := nr_Limits n in
      let mT := overrideLimit mT (MaxTxWei l) in
      let mD := overrideLimit mD (MaxDayWei l) in
      let mG := overrideLimit mG (MaxGasPriceWei l) in
      mkResolved mT mD mG (boolOr (AllowlistEnabled l) aE) (boolOr (IncludeSelf l) iS)
                 (isSet mT mD mG) (default tU (TypedDataUnknown l))
  end.

Definition inSelf (p : Policy) (dest : string) : bool :=
  existsb (λ s, EqualFold s dest) (p_SelfAddresses p).

Definition destRole (req : Check) : string :=
  match effectiveKind req with KindApprove | KindPermit => "spender" | _ => "recipient" end.

(** *** Stage 3a: denylist *)

Definition matchPin (p : PinEntry) (dest toInput : string) : bool :=
  if EqualFold (pe_Address p) dest && negb (bool_decide (dest = "")) then true
  else if (bool_decide (pe_Source p = "contact") || bool_decide (pe_Source p = "ens")) &&
          negb (bool_decide (pe_Name p = "")) && negb (bool_decide (toInput = ""))
  then EqualFold (pe_Name p) toInput
  else false.

Definition stageDenylist (p : Policy) (req : Check) : option Violation :=
  let dest := lowerHex (c_Dest req) in
  if existsb (λ d, matchPin d dest (c_ToInput req)) (p_Denylist p)
  then Some {| v_Code := codeAllowlist;
               v_Reason := "the destination is on the policy denylist";
               v_Data := {["address" := DStr dest; "role" := DStr (destRole req);
                           "reason" := DStr "denylisted"]} |}
  else None.

(** *** Stage 3b: allowlist *)

Definition stageAllowlist (p : Policy) (lim : resolvedLimits) (req : Check) : option Violation :=
  if negb (allowlistEnabled lim) then None
  else if c_UnknownCalldata req then None
  else
    let dest := lowerHex (c_Dest req) in
    if includeSelf lim && inSelf p dest then None
    else if existsb (λ a, EqualFold (pe_Address a) dest && negb (bool_decide (dest = ""))) (p_Allowlist p)
    then None
    else Some {| v_Code := codeAllowlist;
                 v_Reason := "the destination is not on the policy allowlist";
                 v_Data := {["address" := DStr dest; "role" := DStr (destRole req);
                             "reason" := DStr "not_allowlisted"]} |}.

(** *** Stage 3c: no allowlist, limits set *)

Definition isTokenOrApproval (req : Check) (kind : Kind) : bool :=
  if bool_decide (kind = KindApprove) || bool_decide (kind = KindPermit) then true
  else if bool_decide (kind = KindTransfer)
  then
    let asset := ToLower (c_Asset req) in
    if negb (bool_decide (c_Token req = "")) && negb (bool_decide (ToLower (c_Token req) = "eth")) then true
    else negb (bool_decide (asset = "")) && negb (bool_decide (asset = "eth"))
  else false.

Definition stageNoAllowlist (p : Policy) (lim : resolvedLimits) (req : Check) (kind : Kind)
  : option Violation :=
  if allowlistEnabled lim then None
  else if negb (isTokenOrApproval req kind) then None
  else if negb (anySet lim) then None
  else if p_TokensNoAllowlistOK p then None
  else Some {| v_Code := codeNoAllowlist;
               v_Reason := "token/approval operations are refused when limits are set but no allowlist is enabled (fail-closed); set --allow-tokens-without-allowlist under the admin passphrase to override";
               v_Data := {["network" := DStr (c_Network req)]} |}.

(** *** Stage 4: pin drift *)

Definition driftData (reason name pinned current : string) : vdata :=
  {["reason" := DStr reason; "name" := DStr name; "pinned" := DStr pinned; "current" := DStr current]}.

Definition stagePinDrift (req : Check) : option Violation :=
  let dest := lowerHex (c_Dest req) in
  let fresh := lowerHex (c_ENSResolved req) in
  match c_ToSrc req with
  | SourceENS =>
      if bool_decide (fresh = "") || (c_ENSResolved req =? 0)
      then Some {| v_Code := codePinDrift;
                   v_Reason := "the ENS name did not resolve; refusing until re-allowed";
                   v_Data := driftData "ens_unresolved" (c_ENSName req) dest "" |}
      else if negb (bool_decide (fresh = dest))
      then Some {| v_Code := codePinDrift;
                   v_Reason := "the ENS name resolves to a different address than the allow-time pin; refusing until re-allowed";
                   v_Data := driftData "ens_drift" (c_ENSName req) dest fresh |}
      else None
  | SourceContact =>
      if negb (bool_decide (fresh = "")) && negb (bool_decide (fresh = dest))
      then Some {| v_Code := codePinDrift;
                   v_Reason := "the contact resolves to a different address than the allow-time pin; refusing until re-allowed";
                   v_Data := driftData "contact_drift" (c_ToInput req) dest fresh |}
      else None
  | _ => None
  end.

(** *** Stage 5: typed data *)

Definition typedAllowMatch (allowed : list TypedAllow) (req : Check) : bool :=
  existsb (λ a, (ta_ChainID a =? c_TypedChainID req) &&
                EqualFold (ta_VerifyingContract a) (c_TypedVerifying req) &&
                bool_decide (ta_PrimaryType a = c_TypedPrimary req)) allowed.

Definition typedData (reason : string) (req : Check) : vdata :=
  {["reason" := DStr reason; "primary_type" := DStr (c_TypedPrimary req);
    "verifying_contract" := DStr (c_TypedVerifying req); "chain_id" := DInt (c_TypedChainID req)]}.

Definition stageTypedData (p : Policy) (lim : resolvedLimits) (req : Check) : option Violation :=
  let chainMismatch := HasPrefix (c_Asset req) "chain_mismatch" in
  if bool_decide (effectiveKind req = KindPermit) && chainMismatch
  then Some {| v_Code := codeTypedData;
               v_Reason := "the typed-data permit targets a different chain than the active network (chain_mismatch)";
               v_Data := {["reason" := DStr "chain_mismatch"]} |}
  else if negb (c_TypedUnknown req) then None
  else if chainMismatch
  then Some {| v_Code := codeTypedData;
               v_Reason := "the typed-data message targets a different chain than the active network (chain_mismatch)";
               v_Data := typedData "chain_mismatch" req |}
  else if typedAllowMatch (td_Allowed (p_TypedData p)) req then None
  else if EqualFold (TrimSpace (typedUnknown lim)) "allow" then None
  else Some {| v_Code := codeTypedData;
               v_Reason := "this typed-data message is not a recognized spend-equivalent and no policy allow entry covers it; refusing (typed_data.unknown). Add it with `daxie policy typed allow`";
               v_Data := typedData "unknown" req |}.

(** *** Stage 5b: unknown calldata *)

Definition contractAddrAllowlisted (p : Policy) (lim : resolvedLimits) (req : Check) : bool :=
  let contract := lowerHex (c_ContractAddr req) in
  if bool_decide (contract = "") then false
  else if includeSelf lim && inSelf p contract then true
  else existsb (λ a, EqualFold (pe_Address a) contract) (p_Allowlist p).

Definition contractAllowMatch (list : list ContractAllow) (network : string)
           (contract : Address) (selector : string) : bool :=
  let c := lowerHex contract in
  let sel := ToLower (TrimSpace selector) in
  existsb (λ a, EqualFold (ca_Network a) network && EqualFold (ca_Contract a) c &&
                bool_decide (ToLower (TrimSpace (ca_Selector a)) = sel)) list.

Definition stageUnknownCalldata (p : Policy) (lim : resolvedLimits) (req : Check) : option Violation :=
  if negb (c_UnknownCalldata req) then None
  else if contractAddrAllowlisted p lim req then None
  else if contractAllowMatch (p_ContractsAllowed p) (c_Network req) (c_ContractAddr req) (c_Selector req)
  then None
  else
    let reason := if bool_decide (c_Selector req = "") || bool_decide (c_Selector req = "0x")
                  then "unknown_selector" else "not_allowed" in
    Some {| v_Code := codeContractCall;
            v_Reason := "this contract call's calldata is not a recognized spend-equivalent and the contract is neither allowlisted nor opted in for this selector; refusing (contract_call.unknown). Allowlist the contract, or admit the (network, contract, selector) triple with `daxie policy contract allow`";
            v_Data := {["reason" := DStr reason; "network" := DStr (c_Network req);
                        "contract" := DStr (lowerHex (c_ContractAddr req));
                        "selector" := DStr (c_Selector req)]} |}.

(** *** Stage 6: per-transaction limit and the unlimited ceremony *)

Definition stagePerTx (lim : resolvedLimits) (req : Check) (kind : Kind) : option Violation :=
  if bool_decide (kind = KindPermit) then None
  else match maxTx lim with
  | None => None
  | Some limit =>
      let attempted := spendWei req + maxGasWei req in
      if limit <? attempted
      then Some {| v_Code := codeTxLimit;
                   v_Reason := "the transaction value plus worst-case gas exceeds the per-tx limit";
                   v_Data := {["limit" := DStr (z_string limit);
                               "attempted" := DStr (z_string attempted);
                               "network" := DStr (c_Network req)]} |}
      else None
  end.

Definition tokenHardDeny (p : Policy) (network token : string) : bool :=
  match List.find (λ t, EqualFold (tr_Network t) network && EqualFold (tr_Address t) token) (p_Tokens p) with
  | Some t => match tr_AllowUnlimited t with Some b => negb b | None => false end
  | None => false
  end.

Definition unlimitedToken (req : Check) : string :=
  let token := ToLower (c_Token req) in
  if bool_decide (token = "") then ToLower (c_Asset req) else token.

Definition stageUnlimited (p : Policy) (req : Check) (kind : Kind) : option Violation :=
  if negb (bool_decide (kind = KindApprove)) && negb (bool_decide (kind = KindPermit)) then None
  else if negb (c_Unlimited req) && negb (isUnlimitedAmount (c_TokenAmt req)) then None
  else
    let token := unlimitedToken req in
    let data : vdata := {["token" := DStr token; "spender" := DStr (lowerHex (c_Dest req))]} in
    if tokenHardDeny p (c_Network req) token
    then Some {| v_Code := codeUnlimitedUnacked;
                 v_Reason := "unlimited approval is hard-denied for this token by policy (allow_unlimited:false)";
                 v_Data := data |}
    else if negb (c_Acked req)
    then Some {| v_Code := codeUnlimitedUnacked;
                 v_Reason := "unlimited approval/permit requires the explicit --unlimited --yes acknowledgement";
                 v_Data := data |}
    else None.

(** *** Stage 7: the rolling-24h limit *)

Definition stageDaily (lim : resolvedLimits) (req : Check) (spentWindowWei : option Z) (now : Z)
  : option Violation :=
  match maxDay lim with
  | None => None
  | Some limit =>
      if bool_decide (effectiveKind req = KindPermit) then None
      else
        let used := default 0 spentWindowWei in
        let total := used + thisDebit req in
        if limit <? total
        then Some {| v_Code := codeDayLimit;
                     v_Reason := "the rolling-24h spend window plus this transaction exceeds the daily limit";
                     v_Data := {["limit" := DStr (z_string limit);
                                 "used_24h" := DStr (z_string used);
                                 "attempted" := DStr (z_string (thisDebit req));
                                 "retry_after" := DStr (Format (now + day_ns))]} |}
        else None
  end.

(** *** Stage 8: the gas cap *)

Definition stageGasCap (lim : resolvedLimits) (req : Check) : option Violation :=
  match maxGasPrice lim with
  | None => None
  | Some cap =>
      let attempted := maxFeePerGas req in
      if attempted =? 0 then None
      else if cap <? attempted
      then Some {| v_Code := codeGasCap;
                   v_Reason := "the max fee per gas exceeds the policy gas-price cap";
                   v_Data := {["cap" := DStr (z_string cap); "attempted" := DStr (z_string attempted)]} |}
      else None
  end.

(** *** The pipeline *)

Definition violations (p : Policy) (req : Check) (spentWindowWei : option Z) (now : Z) : list Violation :=
  let lim := resolveLimits p (c_Network req) in
  let kind := effectiveKind req in
  match stageDenylist p req with
  | Some v => [v]
  | None => option_list (stageAllowlist p lim req) ++ option_list (stageNoAllowlist p lim req kind)
  end ++
  option_list (stagePinDrift req) ++
  option_list (stageTypedData p lim req) ++
  option_list (stageUnknownCalldata p lim req) ++
  option_list (stagePerTx lim req kind) ++
  option_list (stageUnlimited p req kind) ++
  option_list (stageDaily lim req spentWindowWei now) ++
  option_list (stageGasCap lim req).

Definition Evaluate (p : Policy) (req : Check) (spentWindowWei : option Z) (now : Z) : Decision :=
  if c_TypedUnknown req
  then match stageTypedData p (resolveLimits p (c_Network req)) req with
       | Some v => composeDenial v []
       | None => allow
       end
  else match violations p req spentWindowWei now with
       | [] => allow
       | v :: vs => composeDenial v vs
       end.
End Pipeline.

(** ** What the pipeline promises *)

Section Specification.
Context {UT : UnicodeTables} {GC : GethCommon}.
Implicit Types (p : Policy) (req : Check) (lim : resolvedLimits).

(** A destination the policy trusts: an own account of the sealed snapshot, or
    a pinned address. *)
Definition trusted p lim (dest : string) : Prop :=
  (includeSelf lim = true ∧ ∃ s, s ∈ p_SelfAddresses p ∧ EqualFold s dest = true) ∨
  (dest ≠ "" ∧ ∃ a, a ∈ p_Allowlist p ∧ EqualFold (pe_Address a) dest = true).

Definition denylisted p req : Prop :=
  ∃ d, d ∈ p_Denylist p ∧
       ((lowerHex (c_Dest req) ≠ "" ∧ EqualFold (pe_Address d) (lowerHex (c_Dest req)) = true) ∨
        ((pe_Source d = "contact" ∨ pe_Source d = "ens") ∧ pe_Name d ≠ "" ∧ c_ToInput req ≠ "" ∧
         EqualFold (pe_Name d) (c_ToInput req) = true)).

Definition unlimited_request req : Prop :=
  c_Unlimited req = true ∨
  ∃ a, c_TokenAmt req = Some a ∧ (a = 2 ^ 256 - 1 ∨ a = 2 ^ 160 - 1 ∨ a = 2 ^ 96 - 1).

Definition approval_kind (k : Kind) : Prop := k = KindApprove ∨ k = KindPermit.

(** A request the policy admits, given the amount already spent in the window. *)
Record admissible p req (spent : Z) : Prop := {
  ad_denylist : ¬ denylisted p req;
  ad_allowlist :
    allowlistEnabled (resolveLimits p (c_Network req)) = true → c_UnknownCalldata req = false →
    trusted p (resolveLimits p (c_Network req)) (lowerHex (c_Dest req));
  ad_fail_closed :
    allowlistEnabled (resolveLimits p (c_Network req)) = false →
    isTokenOrApproval req (effectiveKind req) = true →
    anySet (resolveLimits p (c_Network req)) = true → p_TokensNoAllowlistOK p = true;
  ad_ens : c_ToSrc req = SourceENS →
    c_ENSResolved req ≠ 0 ∧ lowerHex (c_ENSResolved req) = lowerHex (c_Dest req);
  ad_contact : c_ToSrc req = SourceContact → c_ENSResolved req ≠ 0 →
    lowerHex (c_ENSResolved req) = lowerHex (c_Dest req);
  ad_chain : effectiveKind req = KindPermit → HasPrefix (c_Asset req) "chain_mismatch" = false;
  ad_calldata : c_UnknownCalldata req = true →
    contractAddrAllowlisted p (resolveLimits p (c_Network req)) req = true ∨
    contractAllowMatch (p_ContractsAllowed p) (c_Network req) (c_ContractAddr req) (c_Selector req) = true;
  ad_per_tx : effectiveKind req ≠ KindPermit →
    ∀ l, maxTx (resolveLimits p (c_Network req)) = Some l → thisDebit req ≤ l;
  ad_unlimited : approval_kind (effectiveKind req) → unlimited_request req →
    tokenHardDeny p (c_Network req) (unlimitedToken req) = false ∧ c_Acked req = true;
  ad_daily : effectiveKind req ≠ KindPermit →
    ∀ l, maxDay (resolveLimits p (c_Network req)) = Some l → spent + thisDebit req ≤ l;
  ad_gas : ∀ cap, maxGasPrice (resolveLimits p (c_Network req)) = Some cap →
    maxFeePerGas req = 0 ∨ maxFeePerGas req ≤ cap;
}.

(** *** One lemma per stage *)

Lemma matchPin_true d dest ti :
  matchPin d dest ti = true ↔
  (dest ≠ "" ∧ EqualFold (pe_Address d) dest = true) ∨
  ((pe_Source d = "contact" ∨ pe_Source d = "ens") ∧ pe_Name d ≠ "" ∧ ti ≠ "" ∧
   EqualFold (pe_Name d) ti = true).
Proof.
  assert (Hif : ∀ a b c : bool, (if a then true else if b then c else false) = a || (b && c))
    by (by intros [] [] []).
  unfold matchPin. rewrite Hif, !orb_true_iff, !andb_true_iff, !orb_true_iff, !negb_true_iff,
    !bool_decide_eq_true, !bool_decide_eq_false. tauto.
Qed.

Lemma stageDenylist_none p req : stageDenylist p req = None ↔ ¬ denylisted p req.
Proof.
  unfold stageDenylist, denylisted.
  destruct (existsb _ _) eqn:E.
  - apply existsb_true in E as (d & Hd & Hm). apply matchPin_true in Hm.
    split; [done|]. intros H. exfalso. eauto.
  - split; [|done]. intros _ (d & Hd & Hm). apply matchPin_true in Hm.
    rewrite existsb_false in E. by rewrite E in Hm.
Qed.

Lemma inSelf_true p dest : inSelf p dest = true ↔ ∃ s, s ∈ p_SelfAddresses p ∧ EqualFold s dest = true.
Proof. apply existsb_true. Qed.

Lemma trusted_dec p lim dest :
  trusted p lim dest ↔
  (includeSelf lim && inSelf p dest) ||
  existsb (λ a, EqualFold (pe_Address a) dest && negb (bool_decide (dest = ""))) (p_Allowlist p) = true.
Proof.
  unfold trusted. rewrite orb_true_iff, andb_true_iff, inSelf_true, existsb_true.
  setoid_rewrite andb_true_iff. setoid_rewrite negb_true_iff. setoid_rewrite bool_decide_eq_false.
  naive_solver.
Qed.

Lemma stageAllowlist_none p lim req :
  stageAllowlist p lim req = None ↔
  (allowlistEnabled lim = true → c_UnknownCalldata req = false → trusted p lim (lowerHex (c_Dest req))).
Proof.
  unfold stageAllowlist. rewrite trusted_dec.
  destruct (allowlistEnabled lim); [|naive_solver]. destruct (c_UnknownCalldata req); [naive_solver|]. simpl.
  destruct (includeSelf lim && inSelf p (lowerHex (c_Dest req))); [naive_solver|]. simpl.
  case_match; naive_solver.
Qed.

Lemma stageNoAllowlist_none p lim req k :
  stageNoAllowlist p lim req k = None ↔
  (allowlistEnabled lim = false → isTokenOrApproval req k = true → anySet lim = true →
   p_TokensNoAllowlistOK p = true).
Proof.
  unfold stageNoAllowlist.
  destruct (allowlistEnabled lim), (isTokenOrApproval req k), (anySet lim), (p_TokensNoAllowlistOK p);
    simpl; naive_solver.
Qed.

Lemma stagePinDrift_none req :
  stagePinDrift req = None ↔
  (c_ToSrc req = SourceENS → c_ENSResolved req ≠ 0 ∧ lowerHex (c_ENSResolved req) = lowerHex (c_Dest req)) ∧
  (c_ToSrc req = SourceContact → c_ENSResolved req ≠ 0 →
   lowerHex (c_ENSResolved req) = lowerHex (c_Dest req)).
Proof.
  unfold stagePinDrift.
  rewrite (bool_decide_ext (lowerHex (c_ENSResolved req) = "") (c_ENSResolved req = 0)) by apply lowerHex_nil.
  destruct (c_ToSrc req); try naive_solver;
    destruct (Z.eqb_spec (c_ENSResolved req) 0); repeat case_bool_decide; simpl; naive_solver.
Qed.

Lemma stageTypedData_none p lim req :
  stageTypedData p lim req = None ↔
  (effectiveKind req = KindPermit → HasPrefix (c_Asset req) "chain_mismatch" = false) ∧
  (c_TypedUnknown req = true →
   HasPrefix (c_Asset req) "chain_mismatch" = false ∧
   (typedAllowMatch (td_Allowed (p_TypedData p)) req = true ∨
    EqualFold (TrimSpace (typedUnknown lim)) "allow" = true)).
Proof.
  unfold stageTypedData.
  case_bool_decide; destruct (HasPrefix (c_Asset req) "chain_mismatch"), (c_TypedUnknown req);
    simpl; repeat case_match; naive_solver.
Qed.

Lemma stageUnknownCalldata_none p lim req :
  stageUnknownCalldata p lim req = None ↔
  (c_UnknownCalldata req = true →
   contractAddrAllowlisted p lim req = true ∨
   contractAllowMatch (p_ContractsAllowed p) (c_Network req) (c_ContractAddr req) (c_Selector req) = true).
Proof.
  unfold stageUnknownCalldata. destruct (c_UnknownCalldata req); simpl; [|naive_solver].
  destruct (contractAddrAllowlisted p lim req); [naive_solver|].
  destruct (contractAllowMatch _ _ _ _); naive_solver.
Qed.

Lemma stagePerTx_none lim req k :
  stagePerTx lim req k = None ↔
  (k ≠ KindPermit → ∀ l, maxTx lim = Some l → thisDebit req ≤ l).
Proof.
  unfold stagePerTx, thisDebit. case_bool_decide; [naive_solver|].
  destruct (maxTx lim) as [l|]; [|naive_solver].
  destruct (Z.ltb_spec l (spendWei req + maxGasWei req)).
  - split; [done|]. intros H'. specialize (H' H l eq_refl). lia.
  - split; [|done]. intros _ _ l' [= <-]. lia.
Qed.

Lemma unlimited_dec req :
  unlimited_request req ↔ c_Unlimited req || isUnlimitedAmount (c_TokenAmt req) = true.
Proof.
  unfold unlimited_request, isUnlimitedAmount, uint256Max, uint160Max, uint96Max.
  destruct (c_TokenAmt req) as [a|]; rewrite !orb_true_iff, ?Z.eqb_eq; naive_solver.
Qed.

Lemma stageUnlimited_none p req k :
  stageUnlimited p req k = None ↔
  (approval_kind k → unlimited_request req →
   tokenHardDeny p (c_Network req) (unlimitedToken req) = false ∧ c_Acked req = true).
Proof.
  rewrite unlimited_dec. unfold stageUnlimited, approval_kind.
  rewrite <-negb_orb. destruct (bool_decide (k = KindApprove) || bool_decide (k = KindPermit)) eqn:E; simpl.
  - apply orb_true_iff in E. rewrite !bool_decide_eq_true in E. rewrite <-negb_orb.
    destruct (c_Unlimited req || isUnlimitedAmount (c_TokenAmt req)); simpl; [|naive_solver].
    destruct (tokenHardDeny _ _ _), (c_Acked req); simpl; naive_solver.
  - apply orb_false_iff in E. rewrite !bool_decide_eq_false in E. naive_solver.
Qed.

Lemma stageDaily_none lim req spent now :
  stageDaily lim req spent now = None ↔
  (effectiveKind req ≠ KindPermit →
   ∀ l, maxDay lim = Some l → default 0 spent + thisDebit req ≤ l).
Proof.
  unfold stageDaily. destruct (maxDay lim) as [l|]; [|naive_solver].
  case_bool_decide; [naive_solver|].
  destruct (Z.ltb_spec l (default 0 spent + thisDebit req)).
  - split; [done|]. intros H'. specialize (H' H l eq_refl). lia.
  - split; [|done]. intros _ _ l' [= <-]. lia.
Qed.

Lemma stageGasCap_none lim req :
  stageGasCap lim req = None ↔
  (∀ cap, maxGasPrice lim = Some cap → maxFeePerGas req = 0 ∨ maxFeePerGas req ≤ cap).
Proof.
  unfold stageGasCap. destruct (maxGasPrice lim) as [c|]; [|naive_solver].
  destruct (Z.eqb_spec (maxFeePerGas req) 0).
  - split; [|done]. intros _ cap _. by left.
  - destruct (Z.ltb_spec c (maxFeePerGas req)).
    + split; [done|]. intros H'. destruct (H' c eq_refl); lia.
    + split; [|done]. intros _ cap [= <-]. by right.
Qed.

Lemma violations_nil p req spent now :
  violations p req spent now = [] ↔
  stageDenylist p req = None ∧
  stageAllowlist p (resolveLimits p (c_Network req)) req = None ∧
  stageNoAllowlist p (resolveLimits p (c_Network req)) req (effectiveKind req) = None ∧
  stagePinDrift req = None ∧
  stageTypedData p (resolveLimits p (c_Network req)) req = None ∧
  stageUnknownCalldata p (resolveLimits p (c_Network req)) req = None ∧
  stagePerTx (resolveLimits p (c_Network req)) req (effectiveKind req) = None ∧
  stageUnlimited p req (effectiveKind req) = None ∧
  stageDaily (resolveLimits p (c_Network req)) req spent now = None ∧
  stageGasCap (resolveLimits p (c_Network req)) req = None.
Proof.
  unfold violations. destruct (stageDenylist p req); [naive_solver|].
  rewrite !app_nil_iff, !option_list_nil. naive_solver.
Qed.

Lemma Evaluate_allowed_nil p req spent now :
  c_TypedUnknown req = false →
  d_Allowed (Evaluate p req spent now) = true ↔ violations p req spent now = [].
Proof. unfold Evaluate. intros ->. by destruct (violations p req spent now). Qed.

Lemma violations_nil_admissible p req spent now :
  c_TypedUnknown req = false →
  violations p req spent now = [] ↔ admissible p req (default 0 spent).
Proof.
  intros HT. rewrite violations_nil, stageDenylist_none, stageAllowlist_none, stageNoAllowlist_none,
    stagePinDrift_none, stageTypedData_none, stageUnknownCalldata_none, stagePerTx_none,
    stageUnlimited_none, stageDaily_none, stageGasCap_none, HT.
  split; [intros; destruct_and!; by split|intros []; split_and!; done].
Qed.

Lemma Evaluate_admissible p req spent now :
  c_TypedUnknown req = false →
  d_Allowed (Evaluate p req spent now) = true ↔ admissible p req (default 0 spent).
Proof. intros HT. rewrite Evaluate_allowed_nil by done. by apply violations_nil_admissible. Qed.

(** *** The winning violation *)

Lemma winner_spec v vs :
  winner v vs ∈ v :: vs ∧ ∀ u, u ∈ v :: vs → rank (v_Code (winner v vs)) ≤ rank (v_Code u).
Proof. apply (foldl_argmin (λ v, rank (v_Code v))). Qed.

(** *** The codes of the pipeline *)

Definition denial_codes : list string :=
  [codeAllowlist; codeNoAllowlist; codePinDrift; codeTypedData; codeContractCall;
   codeUnlimitedUnacked; codeTxLimit; codeDayLimit; codeGasCap].

(** Each stage reports its own code. *)
Lemma stage_codes p lim req k spent now v :
  (stageDenylist p req = Some v → v_Code v = codeAllowlist) ∧
  (stageAllowlist p lim req = Some v → v_Code v = codeAllowlist) ∧
  (stageNoAllowlist p lim req k = Some v → v_Code v = codeNoAllowlist) ∧
  (stagePinDrift req = Some v → v_Code v = codePinDrift) ∧
  (stageTypedData p lim req = Some v → v_Code v = codeTypedData) ∧
  (stageUnknownCalldata p lim req = Some v → v_Code v = codeContractCall) ∧
  (stagePerTx lim req k = Some v → v_Code v = codeTxLimit) ∧
  (stageUnlimited p req k = Some v → v_Code v = codeUnlimitedUnacked) ∧
  (stageDaily lim req spent now = Some v → v_Code v = codeDayLimit) ∧
  (stageGasCap lim req = Some v → v_Code v = codeGasCap).
Proof.
  unfold stageDenylist, stageAllowlist, stageNoAllowlist, stagePinDrift, stageTypedData,
    stageUnknownCalldata, stagePerTx, stageUnlimited, stageDaily, stageGasCap.
  split_and!; intros H; repeat (case_match; try done); by injection H as <-.
Qed.

Lemma violations_codes p req spent now v :
  v ∈ violations p req spent now → v_Code v ∈ denial_codes.
Proof.
  destruct (stage_codes p (resolveLimits p (c_Network req)) req (effectiveKind req) spent now v)
    as (H1 & H2 & H3 & H4 & H5 & H6 & H7 & H8 & H9 & H10).
  unfold violations. rewrite !elem_of_app, !elem_of_option_list.
  destruct (stageDenylist p req) as [u|] eqn:Ed.
  - rewrite list_elem_of_singleton. unfold denial_codes. rewrite !elem_of_cons.
    intros [->|H]; [rewrite H1 by done; tauto|]. naive_solver.
  - rewrite elem_of_app, !elem_of_option_list. unfold denial_codes. rewrite !elem_of_cons. naive_solver.
Qed.

Lemma composeDenial_code v vs (P : string → Prop) :
  (∀ u, u ∈ v :: vs → P (v_Code u)) → P (d_Code (composeDenial v vs)).
Proof. intros H. apply H, winner_spec. Qed.

Lemma Evaluate_denied_code p req spent now :
  d_Allowed (Evaluate p req spent now) = false →
  d_Code (Evaluate p req spent now) ∈ denial_codes.
Proof.
  unfold Evaluate. destruct (c_TypedUnknown req).
  - destruct (stageTypedData _ _ _) as [v|] eqn:E; [|done]. intros _.
    apply (composeDenial_code v []). intros u ->%list_elem_of_singleton.
    apply (proj1 (proj2 (proj2 (proj2 (proj2 (stage_codes p _ req (effectiveKind req) spent now v)))))) in E.
    rewrite E. unfold denial_codes. rewrite !elem_of_cons. tauto.
  - destruct (violations p req spent now) as [|v vs] eqn:E; [done|]. intros _.
    apply (composeDenial_code v vs). intros u Hu. rewrite <-E in Hu. by eapply violations_codes.
Qed.
End Specification.
