(* ===== verification/Counter.v ===== *)
(** * The rolling-24h spend counter: [internal/policy/counter.go]

    One document per network and account lists the spends of the window.  An
    entry is one account nonce; its candidates are the transactions competing
    for that nonce (the original and its fee bumps), and what counts is the
    largest value and the largest gas among the candidates that were not
    released before signing.  The functions below are the pure part: the window
    sum, pruning, lookup, and the candidate a settlement acts on. *)

From S2P Require Import Prelude GoStrings Decimal Rfc3339 PolicyTypes.

Local Open Scope string_scope.
Local Open Scope Z_scope.

(** ** Data *)

Definition candReserved := "reserved".
Definition candCommitted := "committed".
Definition candReleased := "released".
Definition candReplaced := "replaced".

Record counterCandidate := mkCand {
  cc_TxHash : string;
  cc_ValueWei : string;
  cc_GasMaxWei : string;
  cc_GasActualWei : option string;
  cc_State : string;
}.

Record counterEntry := mkEntry {
  ce_ID : string;
  ce_TS : string;
  ce_AccountNonce : option Z;
  ce_Kind : string;
  ce_Asset : string;
  ce_Candidates : list counterCandidate;
}.

Record counterFile := mkCounter {
  cf_Version : Z;
  cf_PolicyNonce : Z;
  cf_Network : string;
  cf_From : string;
  cf_Entries : list counterEntry;
}.

Definition counterVersion : Z := 1.

#[export] Instance counterCandidate_eq_dec : EqDecision counterCandidate.
Proof. solve_decision. Defined.
#[export] Instance counterEntry_eq_dec : EqDecision counterEntry.
Proof. solve_decision. Defined.

Definition set_entries (cf : counterFile) (es : list counterEntry) : counterFile :=
  {| cf_Version := cf_Version cf; cf_PolicyNonce := cf_PolicyNonce cf;
     cf_Network := cf_Network cf; cf_From := cf_From cf; cf_Entries := es |}.

Definition set_candidates (e : counterEntry) (cs : list counterCandidate) : counterEntry :=
  {| ce_ID := ce_ID e; ce_TS := ce_TS e; ce_AccountNonce := ce_AccountNonce e;
     ce_Kind := ce_Kind e; ce_Asset := ce_Asset e; ce_Candidates := cs |}.

(** ** The window sum *)

Definition is_released (c : counterCandidate) : bool := bool_decide (cc_State c = candReleased).

(** [!ts.IsZero() && ts.Before(now.Add(-24h))] *)
Definition aged_out (ts now : Z) : bool := negb (IsZero ts) && (ts <? now - day_ns).

Definition entryAllReleased (e : counterEntry) : bool :=
  match ce_Candidates e with
  | [] => true
  | cs => forallb is_released cs
  end.

Definition maxValueWei (e : counterEntry) : Z :=
  foldl (λ mx c, if is_released c then mx
                 else match SetString (cc_ValueWei c) 10 with
                      | Some v => if mx <? v then v else mx
                      | None => mx
                      end) 0 (ce_Candidates e).

(** the gas of one candidate: the settled amount when there is one *)
Definition candGas (c : counterCandidate) : Z :=
  match cc_GasActualWei c with
  | Some a => default 0 (SetString a 10)
  | None => default 0 (SetString (cc_GasMaxWei c) 10)
  end.

Definition maxGasWei (e : counterEntry) : Z :=
  foldl (λ mx c, if is_released c then mx
                 else let g := candGas c in if mx <? g then g else mx) 0 (ce_Candidates e).

Definition sum_step (now : Z) (skip : counterEntry → bool) (sum : Z) (e : counterEntry) : Z :=
  if skip e then sum
  else if aged_out (parseTS (ce_TS e)) now then sum
  else if entryAllReleased e then sum
  else sum + maxValueWei e + maxGasWei e.

Definition sumWindow (cf : counterFile) (now : Z) : Z :=
  foldl (sum_step now (λ _, false)) 0 (cf_Entries cf).

Definition sumWindowExcluding (cf : counterFile) (now : Z) (excludeID : string) : Z :=
  foldl (sum_step now (λ e, bool_decide (ce_ID e = excludeID))) 0 (cf_Entries cf).

(** ** Pruning *)

Definition cand_terminal (c : counterCandidate) : bool :=
  if bool_decide (cc_State c = candReleased) || bool_decide (cc_State c = candReplaced) then true
  else if bool_decide (cc_State c = candCommitted)
  then bool_decide (is_Some (cc_GasActualWei c))
  else false.

Definition allCandidatesTerminal (e : counterEntry) : bool := forallb cand_terminal (ce_Candidates e).

Definition pruned (now : Z) (e : counterEntry) : bool :=
  aged_out (parseTS (ce_TS e)) now && allCandidatesTerminal e.

Definition pruneCounter (cf : counterFile) (now : Z) : counterFile :=
  set_entries cf (List.filter (λ e, negb (pruned now e)) (cf_Entries cf)).

(** ** Lookup *)

Definition has_id (id : string) (e : counterEntry) : bool := bool_decide (ce_ID e = id).

Definition findEntry (cf : counterFile) (id : string) : option counterEntry :=
  List.find (has_id id) (cf_Entries cf).

Definition has_nonce (n : Z) (e : counterEntry) : bool := bool_decide (ce_AccountNonce e = Some n).

Definition findEntryByNonce (cf : counterFile) (nonce : option Z) : option counterEntry :=
  match nonce with
  | None => None
  | Some n => List.find (has_nonce n) (cf_Entries cf)
  end.

(** sortEntriesByTS *)
Definition sortEntriesByTS (cf : counterFile) : counterFile :=
  set_entries cf (stable_sort (λ a b, parseTS (ce_TS a) <? parseTS (ce_TS b)) (cf_Entries cf)).

(** primaryCandidate (policy.go), as an index: the last candidate that was not
    released, or the last one *)
Fixpoint last_live (cs : list counterCandidate) : option nat :=
  match cs with
  | [] => None
  | c :: cs =>
      match last_live cs with
      | Some i => Some (S i)
      | None => if is_released c then None else Some O
      end
  end.

Definition primaryCandidate (e : counterEntry) : option nat :=
  match last_live (ce_Candidates e) with
  | Some i => Some i
  | None => match ce_Candidates e with [] => None | cs => Some (length cs - 1)%nat end
  end.

(** ** The counted envelope *)

(** What an entry contributes to the window at [now]. *)
Definition envelope (e : counterEntry) : Z := maxValueWei e + maxGasWei e.

Definition contribution (now : Z) (e : counterEntry) : Z :=
  if aged_out (parseTS (ce_TS e)) now || entryAllReleased e then 0 else envelope e.

Lemma foldl_sum_step now skip es acc :
  foldl (sum_step now skip) acc es =
  acc + zsum (map (λ e, if skip e then 0 else contribution now e) es).
Proof.
  revert acc. induction es as [|e es IH]; intros acc; simpl; [rewrite zsum_nil; lia|].
  rewrite IH, zsum_cons. unfold sum_step, contribution, envelope.
  destruct (skip e), (aged_out (parseTS (ce_TS e)) now), (entryAllReleased e); simpl; lia.
Qed.

Lemma sumWindow_zsum cf now : sumWindow cf now = zsum (map (contribution now) (cf_Entries cf)).
Proof. unfold sumWindow. rewrite foldl_sum_step. done. Qed.

Lemma sumWindowExcluding_zsum cf now id :
  sumWindowExcluding cf now id =
  zsum (map (λ e, if has_id id e then 0 else contribution now e) (cf_Entries cf)).
Proof. unfold sumWindowExcluding. rewrite foldl_sum_step. done. Qed.

Lemma sumWindow_perm es1 es2 cf now :
  es1 ≡ₚ es2 → sumWindow (set_entries cf es1) now = sumWindow (set_entries cf es2) now.
Proof. intros H. rewrite !sumWindow_zsum. simpl. by rewrite H. Qed.

Lemma sumWindow_sort cf now : sumWindow (sortEntriesByTS cf) now = sumWindow cf now.
Proof.
  unfold sortEntriesByTS. rewrite (sumWindow_perm _ (cf_Entries cf)) by apply stable_sort_perm.
  by rewrite !sumWindow_zsum.
Qed.

(** The two maxima, as maxima over the candidates that count. *)
Definition live_values (cs : list counterCandidate) : list Z :=
  omap (λ c, if is_released c then None else SetString (cc_ValueWei c) 10) cs.

Definition live_gas (cs : list counterCandidate) : list Z :=
  omap (λ c, if is_released c then None else Some (candGas c)) cs.

Definition zmax0 (l : list Z) : Z := foldr Z.max 0 l.

Lemma zmax0_app l k : zmax0 (l ++ k) = Z.max (zmax0 l) (zmax0 k).
Proof.
  unfold zmax0. induction l as [|x l IH]; simpl; [|lia].
  assert (0 ≤ foldr Z.max 0 k) by (induction k; simpl; lia). lia.
Qed.

Lemma zmax0_nonneg l : 0 ≤ zmax0 l.
Proof. unfold zmax0. induction l; simpl; lia. Qed.

Lemma zmax0_cons x l : zmax0 (x :: l) = Z.max x (zmax0 l).
Proof. done. Qed.

Lemma foldl_max_gen {A} (f : A → option Z) cs acc :
  0 ≤ acc →
  foldl (λ mx c, match f c with Some v => if mx <? v then v else mx | None => mx end) acc cs =
  Z.max acc (zmax0 (omap f cs)).
Proof.
  revert acc. induction cs as [|c cs IH]; intros acc Hacc; [unfold zmax0; simpl; lia|].
  change (foldl ?g acc (c :: cs)) with (foldl g (g acc c) cs). cbv beta.
  rewrite IH by (destruct (f c) as [v|]; [destruct (Z.ltb_spec acc v)|]; lia).
  change (omap f (c :: cs)) with (match f c with Some v => v :: omap f cs | None => omap f cs end).
  destruct (f c) as [v|]; [|done]. rewrite zmax0_cons. destruct (Z.ltb_spec acc v); lia.
Qed.

Lemma maxValueWei_zmax e : maxValueWei e = zmax0 (live_values (ce_Candidates e)).
Proof.
  unfold maxValueWei, live_values. rewrite <-(Z.max_r 0 (zmax0 _)) by apply zmax0_nonneg.
  rewrite <-foldl_max_gen by done. apply foldl_ext. intros mx c. by destruct (is_released c).
Qed.

Lemma maxGasWei_zmax e : maxGasWei e = zmax0 (live_gas (ce_Candidates e)).
Proof.
  unfold maxGasWei, live_gas. rewrite <-(Z.max_r 0 (zmax0 _)) by apply zmax0_nonneg.
  rewrite <-foldl_max_gen by done. apply foldl_ext. intros mx c. by destruct (is_released c).
Qed.

Lemma envelope_nonneg e : 0 ≤ envelope e.
Proof.
  unfold envelope. rewrite maxValueWei_zmax, maxGasWei_zmax.
  pose proof (zmax0_nonneg (live_values (ce_Candidates e))).
  pose proof (zmax0_nonneg (live_gas (ce_Candidates e))). lia.
Qed.

Lemma contribution_nonneg now e : 0 ≤ contribution now e.
Proof. unfold contribution. pose proof (envelope_nonneg e). by destruct (_ || _). Qed.

Lemma sumWindow_nonneg cf now : 0 ≤ sumWindow cf now.
Proof.
  rewrite sumWindow_zsum. apply zsum_nonneg, Forall_map, Forall_forall.
  intros e _. apply contribution_nonneg.
Qed.

Lemma aged_out_mono ts now now' : now ≤ now' → aged_out ts now = true → aged_out ts now' = true.
Proof. unfold aged_out. intros. bool_prop. apply andb_true_iff. split; [by apply negb_true_iff|lia]. Qed.

(** An entry in an empty or fully released state counts for nothing anyway. *)
Lemma entryAllReleased_envelope e : entryAllReleased e = true → envelope e = 0.
Proof.
  intros H. assert (Hf : ∀ c, c ∈ ce_Candidates e → is_released c = true).
  { unfold entryAllReleased in H. destruct (ce_Candidates e) as [|c0 cs] eqn:E.
    - intros c Hc. by apply elem_of_nil in Hc.
    - rewrite forallb_forall in H. intros c Hc. apply H. by apply list_elem_of_In. }
  clear H. unfold envelope. rewrite maxValueWei_zmax, maxGasWei_zmax.
  unfold live_values, live_gas. induction (ce_Candidates e) as [|c cs IH]; [done|]. simpl.
  rewrite (Hf c) by left. apply IH. intros c' Hc'. apply Hf. by right.
Qed.

Lemma contribution_alt now e :
  contribution now e = if aged_out (parseTS (ce_TS e)) now then 0 else envelope e.
Proof.
  unfold contribution. destruct (aged_out (parseTS (ce_TS e)) now); [done|]. simpl.
  destruct (entryAllReleased e) eqn:E; [by rewrite entryAllReleased_envelope|done].
Qed.

(** As time passes the window only shrinks. *)
Lemma sumWindow_time cf now now' : now ≤ now' → sumWindow cf now' ≤ sumWindow cf now.
Proof.
  intros Hle. rewrite !sumWindow_zsum. apply zsum_map_le. intros e _. rewrite !contribution_alt.
  destruct (aged_out (parseTS (ce_TS e)) now) eqn:E.
  - by rewrite (aged_out_mono _ now now').
  - pose proof (envelope_nonneg e). destruct (aged_out _ now'); lia.
Qed.

(** ** Pruning never changes the window, now or later *)

Lemma sumWindow_prune cf now now' : now ≤ now' → sumWindow (pruneCounter cf now) now' = sumWindow cf now'.
Proof.
  intros Hle. rewrite !sumWindow_zsum. unfold pruneCounter. simpl.
  induction (cf_Entries cf) as [|e es IH]; [done|]. simpl.
  destruct (pruned now e) eqn:E; simpl.
  - rewrite IH, zsum_cons. unfold pruned in E. apply andb_true_iff in E as [E _].
    rewrite (contribution_alt now' e), (aged_out_mono _ now now') by done. done.
  - by rewrite !zsum_cons, IH.
Qed.

Lemma prune_keeps cf now e :
  e ∈ cf_Entries (pruneCounter cf now) ↔
  e ∈ cf_Entries cf ∧ ¬ (aged_out (parseTS (ce_TS e)) now = true ∧ allCandidatesTerminal e = true).
Proof.
  unfold pruneCounter. simpl. rewrite list_elem_of_In, filter_In, <-list_elem_of_In.
  unfold pruned. rewrite negb_true_iff, andb_false_iff, <-!not_true_iff_false. 
  destruct (aged_out (parseTS (ce_TS e)) now), (allCandidatesTerminal e); naive_solver.
Qed.

(** ** Adding candidates and entries *)

Lemma live_values_app cs1 cs2 : live_values (cs1 ++ cs2) = (live_values cs1 ++ live_values cs2)%list.
Proof. unfold live_values. apply omap_app. Qed.
Lemma live_gas_app cs1 cs2 : live_gas (cs1 ++ cs2) = (live_gas cs1 ++ live_gas cs2)%list.
Proof. unfold live_gas. apply omap_app. Qed.

(** The candidate a reservation of value [v] and worst-case gas [g] adds. *)
Definition reserved_cand (v g : Z) : counterCandidate :=
  {| cc_TxHash := ""; cc_ValueWei := z_string v; cc_GasMaxWei := z_string g;
     cc_GasActualWei := None; cc_State := candReserved |}.

Lemma live_values_reserved v g : live_values [reserved_cand v g] = [v].
Proof. unfold live_values. simpl. by rewrite SetString_z_string. Qed.

Lemma live_gas_reserved v g : live_gas [reserved_cand v g] = [g].
Proof. unfold live_gas. simpl. unfold candGas. simpl. by rewrite SetString_z_string. Qed.

Lemma envelope_add_cand e v g :
  0 ≤ v → 0 ≤ g →
  envelope (set_candidates e (ce_Candidates e ++ [reserved_cand v g])) =
  Z.max (maxValueWei e) v + Z.max (maxGasWei e) g.
Proof.
  intros Hv Hg. unfold envelope. rewrite !maxValueWei_zmax, !maxGasWei_zmax. cbn [ce_Candidates set_candidates].
  rewrite live_values_app, live_gas_app, !zmax0_app, live_values_reserved, live_gas_reserved, !zmax0_cons.
  unfold zmax0 at 2 4. simpl. lia.
Qed.

Lemma envelope_single e v g :
  0 ≤ v → 0 ≤ g → ce_Candidates e = [reserved_cand v g] → envelope e = v + g.
Proof.
  intros Hv Hg He. unfold envelope. rewrite maxValueWei_zmax, maxGasWei_zmax, He.
  rewrite live_values_reserved, live_gas_reserved. unfold zmax0. simpl. lia.
Qed.

(** ** One entry by identifier *)

Lemma find_has_id_split cf id e :
  findEntry cf id = Some e →
  ce_ID e = id ∧ ∃ l1 l2, cf_Entries cf = (l1 ++ e :: l2)%list ∧ Forall (λ y, ce_ID y ≠ id) l1 ∧
  ∀ g, update_first (has_id id) g (cf_Entries cf) = (l1 ++ g e :: l2)%list.
Proof.
  unfold findEntry. intros H. pose proof (find_some _ _ H) as [_ He].
  unfold has_id in He. apply bool_decide_eq_true in He. split; [done|].
  induction (cf_Entries cf) as [|y es IH]; [done|]. simpl in H |- *.
  destruct (has_id id y) eqn:E.
  - injection H as ->. exists [], es. done.
  - destruct (IH H) as (l1 & l2 & -> & Hl & Hg). exists (y :: l1), l2. split; [done|]. split.
    + constructor; [|done]. unfold has_id in E. by apply bool_decide_eq_false in E.
    + intros g. by rewrite Hg.
Qed.
