(* ===== verification/Reservation.v ===== *)
(** * The reservation log: [internal/policy/reservation.go]

    One JSON line per reservation; a mutation rewrites the whole file with the
    latest record of every live reservation.  [encoding/json] is the class
    [LineCodec] of [Encodings].  Everything else (splitting the bytes into lines,
    the fold to the latest record per identifier, the tolerance for a torn last
    line, compaction) is the code's. *)

From S2P Require Import Prelude GoStrings Decimal Rfc3339 Encodings PolicyTypes Domain.

Local Open Scope string_scope.
Local Open Scope Z_scope.
Local Open Scope list_scope.

(** ** Lines *)

(** splitLines of reservation.go: no trailing empty element *)
Fixpoint splitLines_from (cur : string) (b : string) : list string :=
  match b with
  | ""%string => if bool_decide (cur = ""%string) then [] else [srev cur]
  | String c b => if byteZ c =? 10 then srev cur :: splitLines_from "" b
                  else splitLines_from (String c cur) b
  end.
Definition splitLines (b : string) : list string := splitLines_from "" b.

Lemma splitLines_from_app l cur b :
  no_lf l = true →
  splitLines_from cur (l +:+ LF +:+ b) = (srev cur +:+ l) :: splitLines b.
Proof.
  revert cur. induction l as [|c l IH]; intros cur H; [by rewrite string_app_nil_r|].
  simpl in H. apply andb_true_iff in H as [Hc%negb_true_iff H].
  rewrite string_app_cons. simpl. rewrite Hc, IH by done.
  by rewrite srev_cons, string_app_assoc.
Qed.

(** Complete lines are read back one by one. *)
Lemma splitLines_unlines ls :
  Forall (λ l, no_lf l = true) ls →
  splitLines (unlines ls) = ls.
Proof.
  induction 1 as [|l ls Hl _ IH]; [done|]. simpl. unfold splitLines at 1.
  rewrite splitLines_from_app by done. by rewrite IH.
Qed.

(** ** Records *)

Definition stateReserved : string := "reserved".
Definition stateCommitted : string := "committed".
Definition stateReleased : string := "released".

Record Reservation := mkReservation {
  r_ID : string;
  r_Account : Address;
  r_Dest : Address;
  r_SpendWei : string;
  r_MaxGasWei : string;
  r_State : string;
  r_Hash : string;
  r_ActualGasWei : option string;
  r_TS : string;
  r_Network : string;
  r_PolicyNonce : Z;
}.

#[export] Instance Reservation_eq_dec : EqDecision Reservation.
Proof. solve_decision. Defined.

(** weiString: nil prints as zero *)
Definition weiString (v : option Z) : string := match v with None => "0" | Some v => z_string v end.

Definition isTerminal (r : Reservation) : bool :=
  if bool_decide (r_State r = stateReleased) then true
  else bool_decide (r_State r = stateCommitted) && bool_decide (is_Some (r_ActualGasWei r)).

(** newReservation; the identifier is the ULID drawn for it *)
Definition newReservation (id : string) (c : Check) (now : Z) : Reservation :=
  {| r_ID := id; r_Account := c_Account c; r_Dest := c_Dest c;
     r_SpendWei := weiString (Some (spendWei c)); r_MaxGasWei := weiString (Some (maxGasWei c));
     r_State := stateReserved; r_Hash := ""; r_ActualGasWei := None; r_TS := FormatNano now;
     r_Network := c_Network c; r_PolicyNonce := 0 |}.

(** ** Loading *)

(** the map of the latest records, and the identifiers in first-seen order *)
Record logState := mkLog { lg_byID : gmap string Reservation; lg_order : list string }.

Definition log_empty : logState := mkLog ∅ [].

Definition log_add (st : logState) (r : Reservation) : logState :=
  {| lg_byID := <[r_ID r := r]> (lg_byID st);
     lg_order := if bool_decide (is_Some (lg_byID st !! r_ID r)) then lg_order st
                 else lg_order st ++ [r_ID r] |}.

Section Log.
Context {RC : LineCodec Reservation}.

Definition corrupt_log : error :=
  New "state.corrupt" "the policy reservation log is corrupt (an interior line is not valid JSON)".

(** is there a non-empty line after this one? *)
Definition rest_empty (ls : list string) : bool := forallb (λ l, bool_decide (l = ""%string)) ls.

Fixpoint load_lines (st : logState) (ls : list string) : res error logState :=
  match ls with
  | [] => Ok st
  | l :: ls =>
      if bool_decide (l = ""%string) then load_lines st ls
      else match decode_line l with
      | None => if rest_empty ls then load_lines st ls else Err corrupt_log
      | Some r => if bool_decide (r_ID r = ""%string) then load_lines st ls
                  else load_lines (log_add st r) ls
      end
  end.

(** loadAll; [None] is a missing file *)
Definition loadAll (file : option string) : res error logState :=
  match file with
  | None => Ok log_empty
  | Some b => load_lines log_empty (splitLines b)
  end.

(** the records in first-seen order *)
Definition log_records (st : logState) : list Reservation :=
  omap (λ id, lg_byID st !! id) (lg_order st).

(** a terminal record other than the one just written is dropped *)
Definition survives (mutated r : Reservation) : bool :=
  negb (isTerminal r && negb (bool_decide (r_ID r = r_ID mutated))).

(** appendAndCompact: the bytes of the new file *)
Definition appendAndCompact (st : logState) (mutated : Reservation) : string :=
  unlines (map encode_line (List.filter (survives mutated) (log_records (log_add st mutated)))).

(** ** Well-formed logs *)

Record log_wf (st : logState) : Prop := {
  wf_nodup : NoDup (lg_order st);
  wf_dom : ∀ id, id ∈ lg_order st ↔ is_Some (lg_byID st !! id);
  wf_key : ∀ id r, lg_byID st !! id = Some r → r_ID r = id;
  wf_nonempty : ∀ id, id ∈ lg_order st → id ≠ ""%string;
}.

Lemma log_empty_wf : log_wf log_empty.
Proof.
  split; simpl.
  - constructor.
  - intros id. rewrite lookup_empty, elem_of_nil. split; [done|by intros [? ?]].
  - intros id r. by rewrite lookup_empty.
  - intros id. by rewrite elem_of_nil.
Qed.

Lemma log_add_wf st r : log_wf st → r_ID r ≠ ""%string → log_wf (log_add st r).
Proof.
  intros [Hnd Hdom Hkey Hne] Hr. unfold log_add. split; simpl.
  - case_bool_decide as H; [done|]. apply NoDup_app. split_and!; [done| |apply NoDup_singleton].
    intros id Hid ->%list_elem_of_singleton. by apply H, Hdom.
  - intros id. rewrite lookup_insert_is_Some. case_bool_decide as H.
    + rewrite Hdom. split; [|intros [<-|[_ ?]]; done].
      intros ?. destruct (decide (r_ID r = id)); auto.
    + rewrite elem_of_app, list_elem_of_singleton, Hdom.
      split; [intros [?| ->]|intros [<-|[_ ?]]]; auto.
      destruct (decide (r_ID r = id)); auto.
  - intros id r'. destruct (decide (r_ID r = id)) as [<-|].
    + rewrite lookup_insert_eq. by intros [= <-].
    + rewrite lookup_insert_ne by done. apply Hkey.
  - intros id. case_bool_decide; [apply Hne|].
    rewrite elem_of_app, list_elem_of_singleton. intros [?| ->]; auto.
Qed.

Lemma log_add_lookup st r id :
  lg_byID (log_add st r) !! id = if bool_decide (r_ID r = id) then Some r else lg_byID st !! id.
Proof.
  simpl. case_bool_decide as H; [subst; apply lookup_insert_eq|by apply lookup_insert_ne].
Qed.

(** Reading a list of records with distinct non-empty identifiers. *)
Definition log_of (rs : list Reservation) : logState :=
  {| lg_byID := list_to_map (map (λ r, (r_ID r, r)) rs); lg_order := map r_ID rs |}.

Lemma log_of_lookup rs id :
  NoDup (map r_ID rs) →
  lg_byID (log_of rs) !! id = List.find (λ r, bool_decide (r_ID r = id)) rs.
Proof.
  intros Hnd. simpl. induction rs as [|r rs IH]; [done|]. simpl in *.
  apply NoDup_cons in Hnd as [_ Hnd]. case_bool_decide as H.
  - subst. apply lookup_insert_eq.
  - rewrite lookup_insert_ne by done. by apply IH.
Qed.

Lemma fold_log_add st rs :
  log_wf st → NoDup (map r_ID rs) → Forall (λ r, r_ID r ≠ ""%string) rs →
  Forall (λ r, lg_byID st !! r_ID r = None) rs →
  load_lines st (map encode_line rs) =
  Ok {| lg_byID := list_to_map (map (λ r, (r_ID r, r)) rs) ∪ lg_byID st;
        lg_order := lg_order st ++ map r_ID rs |}.
Proof.
  intros Hwf Hnd Hne Hfresh. revert st Hwf Hfresh.
  induction rs as [|r rs IH]; intros st Hwf Hfresh; simpl.
  { rewrite (left_id_L ∅ (∪)), app_nil_r. by destruct st. }
  rewrite bool_decide_false by apply encode_nonempty. rewrite decode_encode.
  simpl in Hnd. apply NoDup_cons in Hnd as [Hr Hnd].
  apply Forall_cons in Hne as [Hne1 Hne]. apply Forall_cons in Hfresh as [Hf Hfresh].
  rewrite bool_decide_false by done.
  rewrite IH; [|done|done|by apply log_add_wf|].
  - f_equal. simpl. rewrite bool_decide_false by (rewrite Hf; by intros [? ?]).
    f_equal; [|by rewrite <-app_assoc].
    rewrite <-insert_union_l, insert_union_r; [done|].
    apply not_elem_of_list_to_map_1. rewrite <-list_fmap_compose.
    change (r_ID r ∉ map r_ID rs) in Hr. done.
  - apply Forall_forall. intros r' Hr'. rewrite log_add_lookup, bool_decide_false.
    + rewrite Forall_forall in Hfresh. by apply Hfresh.
    + intros Heq. apply Hr. rewrite Heq. by apply list_elem_of_fmap_2.
Qed.

Lemma loadAll_unlines rs :
  NoDup (map r_ID rs) → Forall (λ r, r_ID r ≠ ""%string) rs →
  loadAll (Some (unlines (map encode_line rs))) = Ok (log_of rs).
Proof.
  intros Hnd Hne. simpl. rewrite splitLines_unlines.
  - rewrite fold_log_add; [|apply log_empty_wf|done|done|].
    + f_equal. unfold log_of. simpl. by rewrite (right_id_L ∅ (∪)).
    + apply Forall_forall. intros r _. apply lookup_empty.
  - apply Forall_map, Forall_forall. intros r _. apply encode_no_lf.
Qed.

(** *** What a rewrite leaves in the log *)

Lemma log_records_ids st : log_wf st → map r_ID (log_records st) = lg_order st.
Proof.
  intros Hwf. unfold log_records. assert (H : ∀ id, id ∈ lg_order st → is_Some (lg_byID st !! id))
    by (intros id; apply (wf_dom _ Hwf)).
  induction (lg_order st) as [|id ids IH]; [done|].
  destruct (H id ltac:(left)) as [r Hr]. csimpl. rewrite Hr. csimpl.
  rewrite (wf_key _ Hwf _ _ Hr). f_equal. apply IH. intros id' Hid'. apply H. by right.
Qed.

Lemma log_records_elem st r :
  log_wf st → r ∈ log_records st ↔ lg_byID st !! r_ID r = Some r.
Proof.
  intros Hwf. unfold log_records. rewrite list_elem_of_omap. split.
  - intros (id & _ & Hr). by rewrite (wf_key _ Hwf _ _ Hr).
  - intros Hr. exists (r_ID r). split; [|done]. apply (wf_dom _ Hwf). eauto.
Qed.

Lemma find_in_filter rs (f : Reservation → bool) id :
  NoDup (map r_ID rs) →
  List.find (λ r, bool_decide (r_ID r = id)) (List.filter f rs) =
  match List.find (λ r, bool_decide (r_ID r = id)) rs with
  | Some r => if f r then Some r else None
  | None => None
  end.
Proof.
  induction rs as [|r rs IH]; simpl; [done|]. intros [Hr Hnd]%NoDup_cons.
  case_bool_decide as Hid.
  - destruct (f r); simpl; [by rewrite bool_decide_true|]. rewrite IH by done.
    destruct (List.find _ rs) as [r'|] eqn:E; [|done]. apply find_some_elem in E as [E1 E2].
    apply bool_decide_eq_true in E2. exfalso. apply Hr. rewrite Hid, <-E2. by apply list_elem_of_fmap_2.
  - destruct (f r); simpl; [rewrite bool_decide_false by done|]; by apply IH.
Qed.

Lemma find_log_records st id :
  log_wf st → List.find (λ r, bool_decide (r_ID r = id)) (log_records st) = lg_byID st !! id.
Proof.
  intros Hwf. destruct (List.find _ _) as [r|] eqn:E.
  - apply find_some_elem in E as [E1 E2]. apply bool_decide_eq_true in E2. subst.
    symmetry. by apply log_records_elem.
  - symmetry. apply eq_None_not_Some. intros [r Hr].
    apply find_none_existsb, existsb_false with (x := r) in E.
    + apply bool_decide_eq_false in E. by apply E, (wf_key _ Hwf).
    + apply log_records_elem; [done|]. by rewrite (wf_key _ Hwf _ _ Hr).
Qed.

(** The file a mutation writes loads as the log with the mutated record in
    place and the finished reservations dropped. *)
Lemma loadAll_appendAndCompact st m :
  log_wf st → r_ID m ≠ ""%string →
  ∃ st', loadAll (Some (appendAndCompact st m)) = Ok st' ∧ log_wf st' ∧
    ∀ id, lg_byID st' !! id =
          if bool_decide (id = r_ID m) then Some m
          else match lg_byID st !! id with
               | Some r => if isTerminal r then None else Some r
               | None => None
               end.
Proof.
  intros Hwf Hm. pose proof (log_add_wf _ _ Hwf Hm) as Hwf'.
  set (rs := List.filter (survives m) (log_records (log_add st m))).
  assert (Hnd : NoDup (map r_ID (log_records (log_add st m))))
    by (rewrite log_records_ids by done; apply (wf_nodup _ Hwf')).
  assert (Hnd' : NoDup (map r_ID rs)) by (by apply NoDup_map_filter).
  assert (Hne : Forall (λ r, r_ID r ≠ ""%string) rs).
  { apply Forall_forall. intros r Hr. apply list_elem_of_In, filter_In in Hr as [Hr _].
    apply list_elem_of_In, log_records_elem in Hr; [|done].
    apply (wf_nonempty _ Hwf'), (wf_dom _ Hwf'). eauto. }
  exists (log_of rs). split; [by apply loadAll_unlines|]. split.
  - split; simpl.
    + done.
    + intros id. change (id ∈ map r_ID rs ↔ is_Some (lg_byID (log_of rs) !! id)).
      rewrite log_of_lookup by done. rewrite list_elem_of_fmap. split.
      * intros (r & -> & Hr). destruct (List.find _ rs) eqn:E; [eauto|].
        apply find_none_existsb, existsb_false with (x := r) in E; [|done].
        by apply bool_decide_eq_false in E.
      * intros [r Hr]. apply find_some_elem in Hr as [Hr1 Hr2].
        apply bool_decide_eq_true in Hr2. eauto.
    + intros id r Hr. change (lg_byID (log_of rs) !! id = Some r) in Hr.
      rewrite log_of_lookup in Hr by done. apply find_some_elem in Hr as [_ Hr].
      by apply bool_decide_eq_true in Hr.
    + intros id (r & -> & Hr)%list_elem_of_fmap. rewrite Forall_forall in Hne. by apply Hne.
  - intros id. rewrite log_of_lookup by done. unfold rs. rewrite find_in_filter by done.
    rewrite find_log_records by done. rewrite log_add_lookup. unfold survives.
    rewrite (bool_decide_ext (r_ID m = id) (id = r_ID m)) by done. case_bool_decide as Hid.
    + rewrite (bool_decide_true (r_ID m = r_ID m)) by done. by rewrite andb_false_r.
    + destruct (lg_byID st !! id) as [r|] eqn:E; [|done].
      rewrite bool_decide_false by (rewrite (wf_key _ Hwf _ _ E); done).
      rewrite andb_true_r. by destruct (isTerminal r).
Qed.
End Log.

(** ** The reference codec of a reservation *)

Definition reservation_fields (r : Reservation) : list string :=
  [r_ID r; z_string (r_Account r); z_string (r_Dest r); r_SpendWei r; r_MaxGasWei r; r_State r;
   r_Hash r; opt_field (r_ActualGasWei r); r_TS r; r_Network r; z_string (r_PolicyNonce r)].

Definition fields_reservation (l : list string) : option Reservation :=
  match l with
  | [i; a; d; s; g; st; h; ag; ts; n; pn] =>
      match SetString a 10, SetString d 10, SetString pn 10 with
      | Some a, Some d, Some pn =>
          Some {| r_ID := i; r_Account := a; r_Dest := d; r_SpendWei := s; r_MaxGasWei := g;
                  r_State := st; r_Hash := h; r_ActualGasWei := field_opt ag; r_TS := ts;
                  r_Network := n; r_PolicyNonce := pn |}
      | _, _, _ => None
      end
  | _ => None
  end.

Lemma fields_reservation_to r : fields_reservation (reservation_fields r) = Some r.
Proof. destruct r. simpl. by rewrite !SetString_z_string, field_opt_field. Qed.

Definition reservation_codec : LineCodec Reservation :=
  field_codec reservation_fields fields_reservation fields_reservation_to.
