(* ===== verification/Engine.v ===== *)
(** * The policy engine: [internal/policy/policy.go], [orphan.go]

    The impure shell around [Evaluate]: it reads the counters of every account
    of the network, runs the verdict, and performs the durable writes.  The
    disk is the reservation log and one counter document per network and
    account.  An operation is a function of the disk to its result and the list
    of disks after each of its atomic file writes, so the state after a crash is
    the initial disk or one of that list. *)

From S2P Require Import Prelude GoStrings Decimal Rfc3339 Encodings PolicyTypes Domain Trace Evaluate Counter Reservation.

Local Open Scope string_scope.
Local Open Scope Z_scope.
Local Open Scope list_scope.
Local Open Scope go_scope.

(** ** The disk *)

(** a counter file that exists: unparseable, or a document *)
Inductive counterDoc := Garbage | Document (cf : counterFile).

Record Disk := mkDisk {
  dk_log : option string;
  dk_counters : gmap (string * string) counterDoc;
}.

Definition M (A : Type) : Type := T Disk A.

(** The outcome of the locks and of the file writes during an operation: [None]
    is success, and an error is what the caller sees. *)
Record IO := mkIO {
  io_log_lock : option error;
  io_log_write : option error;
  io_net_lock : option error;
  io_counter_write : option error;
}.

Definition io_ok : IO := mkIO None None None None.

(** the context of a fee bump: the superseded entry and the merged envelope *)
Record rbfContext := mkRbf { rbf_supersededID : string; rbf_account : Address; rbf_mergedEnv : Z }.

Section Engine.
Context {UT : UnicodeTables} {GC : GethCommon} {RC : LineCodec Reservation}.
Variable io : IO.
(** the keystore enumeration hook, nil when it was not installed *)
Variable accounts : option (string → list Address).

(** ** Files *)

Definition withLock {A} (fn : M A) : M A := guard (io_log_lock io) ;;; fn.
Definition withNetworkLock {A} (fn : M A) : M A := guard (io_net_lock io) ;;; fn.

Definition load_log : M logState := d <-- mget ;; mlift (loadAll (dk_log d)).

Definition write_log (st : logState) (m : Reservation) : M unit :=
  guard (io_log_write io) ;;;
  (λ d, (Ok tt, [{| dk_log := Some (appendAndCompact st m); dk_counters := dk_counters d |}])).

Definition counterPath (network : string) (addr : Address) : string * string :=
  (ToLower network, ToLower (Hex addr)).

Definition corrupt_counter : error :=
  New "policy.state_error" "the policy counter file is corrupt".

Definition read_counter (d : Disk) (network : string) (addr : Address) : res error counterFile :=
  match dk_counters d !! counterPath network addr with
  | None => Ok {| cf_Version := counterVersion; cf_PolicyNonce := 0; cf_Network := ToLower network;
                  cf_From := ToLower (Hex addr); cf_Entries := [] |}
  | Some Garbage => Err corrupt_counter
  | Some (Document cf) =>
      Ok {| cf_Version := cf_Version cf; cf_PolicyNonce := cf_PolicyNonce cf;
            cf_Network := if bool_decide (cf_Network cf = "") then ToLower network else cf_Network cf;
            cf_From := if bool_decide (cf_From cf = "") then ToLower (Hex addr) else cf_From cf;
            cf_Entries := cf_Entries cf |}
  end.

Definition loadCounter (network : string) (addr : Address) : M counterFile :=
  d <-- mget ;; mlift (read_counter d network addr).

Definition writeCounter (network : string) (addr : Address) (cf : counterFile) (now : Z) : M unit :=
  let cf := pruneCounter {| cf_Version := counterVersion; cf_PolicyNonce := cf_PolicyNonce cf;
                            cf_Network := cf_Network cf; cf_From := cf_From cf;
                            cf_Entries := cf_Entries cf |} now in
  guard (io_counter_write io) ;;;
  (λ d, (Ok tt, [{| dk_log := dk_log d;
                    dk_counters := <[counterPath network addr := Document cf]> (dk_counters d) |}])).

(** ** The window of a request *)

Definition addAccount (out : list Address) (a : Address) : list Address :=
  if (a =? 0) || bool_decide (a ∈ out) then out else out ++ [a].

Definition networkAccounts (network : string) (signer : Address) : list Address :=
  let hooked := match accounts with Some f => f network | None => [] end in
  addAccount (foldl addAccount [] hooked) signer.

Fixpoint sum_accounts (network : string) (now : Z) (exclude : option (Address * string))
         (accts : list Address) (sum : Z) : M Z :=
  match accts with
  | [] => mret sum
  | acct :: accts =>
      cf <-- loadCounter network acct ;;
      let part := match exclude with
                  | Some (a, id) =>
                      if negb (bool_decide (id = "")) && (acct =? a)
                      then sumWindowExcluding cf now id else sumWindow cf now
                  | None => sumWindow cf now
                  end in
      sum_accounts network now exclude accts (sum + part)
  end.

Definition aggregateWindow (network : string) (signer : Address) (now : Z)
           (exclude : option (Address * string)) : M Z :=
  sum_accounts network now exclude (networkAccounts network signer) 0.

(** max(original, new) of value and gas separately *)
Definition mergedEnvelope (existing : counterEntry) (c : Check) : Z :=
  Z.max (maxValueWei existing) (spendWei c) + Z.max (maxGasWei existing) (PolicyTypes.maxGasWei c).

Definition superseded (c : Check) (cf : counterFile) : option counterEntry :=
  if c_IsRBFDelta c then findEntryByNonce cf (c_AccountNonce c) else None.

Definition windowFor (c : Check) (cf : counterFile) (now : Z) : M (Z * option rbfContext) :=
  match superseded c cf with
  | None =>
      spent <-- aggregateWindow (c_Network c) (c_Account c) now None ;;
      mret (spent, None)
  | Some existing =>
      excl <-- aggregateWindow (c_Network c) (c_Account c) now (Some (c_Account c, ce_ID existing)) ;;
      let merged := mergedEnvelope existing c in
      mret (excl + merged - thisDebit c,
            Some {| rbf_supersededID := ce_ID existing; rbf_account := c_Account c;
                    rbf_mergedEnv := merged |})
  end.

(** ** retry_after *)

(** the in-window entries of one account, as (timestamp, amount) *)
Definition window_entries (now : Z) (rbf : option rbfContext) (acct : Address) (cf : counterFile)
  : list (Z * Z) :=
  omap (λ ent,
    let ts := parseTS (ce_TS ent) in
    if aged_out ts now then None
    else match rbf with
         | Some r =>
             if (acct =? rbf_account r) && bool_decide (ce_ID ent = rbf_supersededID r)
             then Some (ts, rbf_mergedEnv r)
             else if entryAllReleased ent then None else Some (ts, envelope ent)
         | None => if entryAllReleased ent then None else Some (ts, envelope ent)
         end) (cf_Entries cf).

Fixpoint collect_window (d : Disk) (network : string) (now : Z) (rbf : option rbfContext)
         (accts : list Address) : option (list (Z * Z)) :=
  match accts with
  | [] => Some []
  | a :: accts =>
      match read_counter d network a with
      | Ok cf => app (window_entries now rbf a cf) <$> collect_window d network now rbf accts
      | Err _ => None
      end
  end.

(** the walk: the first entry whose ageing out leaves room *)
Fixpoint retry_walk (win : list (Z * Z)) (remaining debit limit : Z) : option Z :=
  match win with
  | [] => None
  | (ts, wei) :: win =>
      let remaining := remaining - wei in
      if remaining + debit <=? limit then (if IsZero ts then None else Some ts)
      else retry_walk win remaining debit limit
  end.

Definition refineRetryAfter (d : Disk) (dec : Decision) (c : Check) (now : Z) (rbf : option rbfContext)
  : Decision :=
  if d_Allowed dec || negb (bool_decide (d_Code dec = codeDayLimit)) then dec
  else
    let limStr := match d_Data dec with
                  | Some m => match m !! "limit" with Some (DVal (DStr s)) => s | _ => "" end
                  | None => ""
                  end in
    match SetString limStr 10 with
    | None => dec
    | Some limit =>
        let debit := match rbf with Some _ => 0 | None => thisDebit c end in
        match collect_window d (c_Network c) now rbf (networkAccounts (c_Network c) (c_Account c)) with
        | None => dec
        | Some win =>
            let sorted := exchange_sort (λ a b, a.1 <? b.1) win in
            match retry_walk sorted (zsum (map snd win)) debit limit with
            | None => dec
            | Some ts =>
                let at_ := Format (ts + day_ns) in
                {| d_Allowed := d_Allowed dec; d_Code := d_Code dec; d_Reason := d_Reason dec;
                   d_Violations := d_Violations dec; d_RetryAfter := at_;
                   d_Data := Some (<["retry_after" := DVal (DStr at_)]> (default ∅ (d_Data dec))) |}
            end
        end
    end.

(** ** Evaluate and Reserve *)

Definition deniedError (d : Decision) : error :=
  let code := if bool_decide (d_Code d = "") then codeDenied else d_Code d in
  let msg := if bool_decide (d_Reason d = "") then "the transaction was denied by policy" else d_Reason d in
  let err := New code msg in
  let err := match d_Data d with Some m => WithData err m | None => err end in
  if bool_decide (code = codeDayLimit) || bool_decide (code = codeGasCap) then set_retryable err else err.

(** Engine.Evaluate; [active] is what loadActivePolicy returned *)
Definition EngineEvaluate (active : res error (option Policy)) (c : Check) (now : Z) : M Decision :=
  pol <-- mlift active ;;
  match pol with
  | None => mret allow
  | Some pol =>
      withNetworkLock (
        cf <-- loadCounter (c_Network c) (c_Account c) ;;
        w <-- windowFor c cf now ;;
        d <-- mget ;;
        mret (refineRetryAfter d (Evaluate pol c (Some w.1) now) c now w.2))
  end.

Definition writeReservation (r : Reservation) : M unit :=
  withLock (st <-- load_log ;; write_log st r).

Definition assetOf (c : Check) : string :=
  if negb (bool_decide (c_Asset c = "")) then c_Asset c
  else if negb (bool_decide (c_Token c = "")) then c_Token c else "eth".

Definition debitCounter (cf : counterFile) (rid : string) (c : Check) (now : Z) : counterFile :=
  let cand := reserved_cand (spendWei c) (PolicyTypes.maxGasWei c) in
  match superseded c cf, c_AccountNonce c with
  | Some _, Some n =>
      set_entries cf (update_first (has_nonce n)
        (λ e, set_candidates e (ce_Candidates e ++ [cand])) (cf_Entries cf))
  | _, _ =>
      sortEntriesByTS (set_entries cf (cf_Entries cf ++
        [{| ce_ID := rid; ce_TS := FormatNano now; ce_AccountNonce := c_AccountNonce c;
            ce_Kind := c_Kind c; ce_Asset := assetOf c; ce_Candidates := [cand] |}]))
  end.

Definition set_policy_nonce (cf : counterFile) (n : Z) : counterFile :=
  {| cf_Version := cf_Version cf; cf_PolicyNonce := n; cf_Network := cf_Network cf;
     cf_From := cf_From cf; cf_Entries := cf_Entries cf |}.

(** Engine.Reserve.  The result is [None] for a permit, which reserves
    nothing (the source returns the zero reservation with an empty
    identifier).  [id] is the ULID drawn for the record, [now0] the clock read
    when the record is built and [now] the one read under the lock. *)
Definition Reserve (active : res error (option Policy)) (id : string) (c : Check) (now0 now : Z)
  : M (option Reservation) :=
  pol <-- mlift active ;;
  let r := newReservation id c now0 in
  match pol with
  | None => writeReservation r ;;; mret (Some r)
  | Some pol =>
      withNetworkLock (
        cf <-- loadCounter (c_Network c) (c_Account c) ;;
        w <-- windowFor c cf now ;;
        let dec := Evaluate pol c (Some w.1) now in
        if negb (d_Allowed dec)
        then d <-- mget ;; mfail (deniedError (refineRetryAfter d dec c now w.2))
        else if bool_decide (effectiveKind c = KindPermit) then mret None
        else
          writeReservation r ;;;
          writeCounter (c_Network c) (c_Account c)
            (set_policy_nonce (debitCounter cf id c now) (p_Nonce pol)) now ;;;
          mret (Some r))
  end.

(** ** Commit, Release, SettleActual *)

Definition missing (id : string) : error :=
  New "tx.integrity.reservation_missing"
      ("policy reservation " +:+ go_quote id +:+ " is missing; refusing to proceed (the durable spend record vanished)").
Definition empty_id : error :=
  New "tx.integrity.reservation_missing"
      "policy reservation id is empty; the signed tx has no reservation to settle".

Definition transition (id : string) (mut : Reservation → Reservation) : M unit :=
  if bool_decide (id = "") then mfail empty_id
  else withLock (
    st <-- load_log ;;
    match lg_byID st !! id with
    | None => mfail (missing id)
    | Some r => write_log st (mut r)
    end).

(** the network and account a reservation was made for; errors are ignored *)
Definition counter_context (d : Disk) (id : string) : option (string * Address) :=
  match io_log_lock io, loadAll (dk_log d) with
  | None, Ok st =>
      match lg_byID st !! id with
      | Some r => if r_Account r =? 0 then None else Some (r_Network r, r_Account r)
      | None => None
      end
  | _, _ => None
  end.

Definition counterTransition (id : string) (mut : counterEntry → counterEntry) (now : Z) : M unit :=
  if bool_decide (id = "") then mret tt
  else
    d <-- mget ;;
    match counter_context d id with
    | None => mret tt
    | Some (network, acct) =>
        withNetworkLock (
          cf <-- loadCounter network acct ;;
          match findEntry cf id with
          | None => mret tt
          | Some _ =>
              writeCounter network acct
                (set_entries cf (update_first (has_id id) mut (cf_Entries cf))) now
          end)
    end.

Definition on_primary (f : counterCandidate → counterCandidate) (e : counterEntry) : counterEntry :=
  match primaryCandidate e with
  | Some i => set_candidates e (alter f i (ce_Candidates e))
  | None => e
  end.

Definition set_state (r : Reservation) (st hash : string) : Reservation :=
  {| r_ID := r_ID r; r_Account := r_Account r; r_Dest := r_Dest r; r_SpendWei := r_SpendWei r;
     r_MaxGasWei := r_MaxGasWei r; r_State := st; r_Hash := hash; r_ActualGasWei := r_ActualGasWei r;
     r_TS := r_TS r; r_Network := r_Network r; r_PolicyNonce := r_PolicyNonce r |}.

Definition commit_reservation (hash : string) (r : Reservation) : Reservation :=
  if bool_decide (r_State r = stateReleased) then r else set_state r stateCommitted hash.

Definition commit_candidate (hash : string) (c : counterCandidate) : counterCandidate :=
  if bool_decide (cc_State c = candReleased) then c
  else {| cc_TxHash := hash; cc_ValueWei := cc_ValueWei c; cc_GasMaxWei := cc_GasMaxWei c;
          cc_GasActualWei := cc_GasActualWei c; cc_State := candCommitted |}.

Definition Commit (id hash : string) (now : Z) : M unit :=
  transition id (commit_reservation hash) ;;;
  counterTransition id (on_primary (commit_candidate hash)) now.

Definition release_candidate (c : counterCandidate) : counterCandidate :=
  if bool_decide (cc_State c = candReserved)
  then {| cc_TxHash := cc_TxHash c; cc_ValueWei := cc_ValueWei c; cc_GasMaxWei := cc_GasMaxWei c;
          cc_GasActualWei := cc_GasActualWei c; cc_State := candReleased |}
  else c.

Definition release_log (id : string) : M unit :=
  withLock (
    st <-- load_log ;;
    match lg_byID st !! id with
    | None => mret tt
    | Some r => if bool_decide (r_State r = stateCommitted) then mret tt
                else write_log st (set_state r stateReleased (r_Hash r))
    end).

Definition Release (id : string) (now : Z) : M unit :=
  if bool_decide (id = "") then mret tt
  else release_log id ;;; counterTransition id (on_primary release_candidate) now.

(** the down-only adjustment: the smaller of the new amount and the previous
    one, and never above the worst case *)
Definition settle_gas (actual : Z) (prev : option string) (worst : string) : Z :=
  let a := match prev with
           | Some p => match SetString p 10 with Some v => if v <? actual then v else actual | None => actual end
           | None => actual
           end in
  match SetString worst 10 with Some w => if w <? a then w else a | None => a end.

Definition settle_reservation (actual : Z) (reverted : bool) (r : Reservation) : Reservation :=
  {| r_ID := r_ID r; r_Account := r_Account r; r_Dest := r_Dest r;
     r_SpendWei := if reverted then "0" else r_SpendWei r;
     r_MaxGasWei := r_MaxGasWei r; r_State := r_State r; r_Hash := r_Hash r;
     r_ActualGasWei := Some (z_string (settle_gas actual (r_ActualGasWei r) (r_MaxGasWei r)));
     r_TS := r_TS r; r_Network := r_Network r; r_PolicyNonce := r_PolicyNonce r |}.

Definition settle_candidate (actual : Z) (reverted : bool) (c : counterCandidate) : counterCandidate :=
  {| cc_TxHash := cc_TxHash c; cc_ValueWei := if reverted then "0" else cc_ValueWei c;
     cc_GasMaxWei := cc_GasMaxWei c;
     cc_GasActualWei := Some (z_string (settle_gas actual (cc_GasActualWei c) (cc_GasMaxWei c)));
     cc_State := cc_State c |}.

Definition SettleActual (id : string) (actualGasWei : option Z) (reverted : bool) (now : Z) : M unit :=
  let actual := default 0 actualGasWei in
  transition id (settle_reservation actual reverted) ;;;
  counterTransition id (on_primary (settle_candidate actual reverted)) now.

(** ** orphan.go *)

Definition Orphans : M (list Reservation) :=
  withLock (
    st <-- load_log ;;
    mret (List.filter (λ r, bool_decide (r_State r = stateReserved)) (log_records st))).

Definition CommitOrphan (id hash : string) (now : Z) : M unit := Commit id hash now.
Definition ReleaseOrphan (id : string) (now : Z) : M unit := Release id now.
End Engine.
