(* ===== verification/PolicyAdmin.v ===== *)
(** * The admin surface: [internal/policy/admin.go], [typed_admin.go],
    [contract_admin.go]

    Every operation that rewrites policy.json: the first set, which pins the
    anchor, the mutations under the admin passphrase, the staged rotation and
    the forced reset; and the read-only ones beside them.  The state of an
    operation is policy.json; its result is the anchor, which becomes the
    engine's and which the caller writes to the configuration afterwards, so a
    crash between the two writes leaves the new file under the old anchor. *)

From S2P Require Import Prelude GoStrings Decimal Rfc3339 Encodings Json PolicyTypes PolicyBody Seal Domain PolicyFile Trace Evaluate Reservation Engine.

Local Open Scope string_scope.
Local Open Scope Z_scope.
Local Open Scope list_scope.
Local Open Scope go_scope.

(** policy.json, absent or its bytes *)
Definition PFile : Type := option string.
Definition PM (A : Type) : Type := T PFile A.

(** ** Changes to a body *)

Record Change := mkChange {
  ch_Default : option Limits;
  ch_Networks : list NetworkRule;
  ch_Messages : option string;
  ch_TokensNoAllowOK : option bool;
  ch_TypedUnknown : option string;
  ch_Tokens : list TokenRule;
  ch_RefreshSelf : option (list Address);
  ch_WrittenBy : string;
}.

(** AllowEntry and DenyEntry have the same fields *)
Record PinRequest := mkPinRequest {
  pr_Pin : PinEntry;
  pr_Remove : bool;
  pr_RefreshSelf : option (list Address);
  pr_WrittenBy : string;
}.

(** equalFoldStr: case-insensitive on ASCII letters, byte by byte *)
Fixpoint equalFoldStr (a b : string) : bool :=
  match a, b with
  | "", "" => true
  | String x a, String y b => bool_decide (lower_byte x = lower_byte y) && equalFoldStr a b
  | _, _ => false
  end.

Definition or_keep {A} (new old : option A) : option A := match new with Some _ => new | None => old end.

Definition mergeLimits (dst src : Limits) : Limits :=
  {| MaxTxWei := or_keep (MaxTxWei src) (MaxTxWei dst);
     MaxDayWei := or_keep (MaxDayWei src) (MaxDayWei dst);
     MaxGasPriceWei := or_keep (MaxGasPriceWei src) (MaxGasPriceWei dst);
     AllowlistEnabled := or_keep (AllowlistEnabled src) (AllowlistEnabled dst);
     IncludeSelf := or_keep (IncludeSelf src) (IncludeSelf dst);
     TypedDataUnknown := or_keep (TypedDataUnknown src) (TypedDataUnknown dst) |}.

(** replace the first element that matches, or append *)
Definition upsert {A} (same : A → bool) (update : A → A) (new : A) (l : list A) : list A :=
  if existsb same l then update_first same update l else l ++ [new].

Definition upsertNetwork (n : NetworkRule) : list NetworkRule → list NetworkRule :=
  upsert (λ x, equalFoldStr (nr_Network x) (nr_Network n))
    (λ x, mkNetworkRule (nr_Network x) (mergeLimits (nr_Limits x) (nr_Limits n))) n.

Definition upsertToken (t : TokenRule) : list TokenRule → list TokenRule :=
  upsert (λ x, equalFoldStr (tr_Network x) (tr_Network t) && equalFoldStr (tr_Address x) (tr_Address t)) (λ _, t) t.

Definition samePin (a b : PinEntry) : bool :=
  equalFoldStr (pe_Source a) (pe_Source b) &&
  ((negb (bool_decide (pe_Address a = "")) && equalFoldStr (pe_Address a) (pe_Address b)) ||
   (negb (bool_decide (pe_Name a = "")) && equalFoldStr (pe_Name a) (pe_Name b))).

Definition upsertPin (e : PinEntry) : list PinEntry → list PinEntry := upsert (λ x, samePin x e) (λ _, e) e.

Definition removePin (e : PinEntry) : list PinEntry → list PinEntry :=
  List.filter (λ p, negb (samePin p e ||
    (negb (bool_decide (pe_Name e = "")) && equalFoldStr (pe_Name p) (pe_Name e) &&
     equalFoldStr (pe_Source p) (pe_Source e)))).

(** the body with some of its parts replaced *)
Definition with_rules (p : Policy) (r : Rules) : Policy :=
  let '(mkPolicy a b c d e f _ h i j k l m) := p in mkPolicy a b c d e f r h i j k l m.
Definition with_allowlist (p : Policy) (x : list PinEntry) : Policy :=
  let '(mkPolicy a b c d e f g h _ j k l m) := p in mkPolicy a b c d e f g h x j k l m.
Definition with_denylist (p : Policy) (x : list PinEntry) : Policy :=
  let '(mkPolicy a b c d e f g h i _ k l m) := p in mkPolicy a b c d e f g h i x k l m.
Definition with_typed (p : Policy) (x : TypedDataCfg) : Policy :=
  let '(mkPolicy a b c d e f g h i j k _ m) := p in mkPolicy a b c d e f g h i j k x m.
Definition with_contracts (p : Policy) (x : list ContractAllow) : Policy :=
  let '(mkPolicy a b c d e f g h i j k l _) := p in mkPolicy a b c d e f g h i j k l x.
Definition with_messages (p : Policy) (x : string) : Policy :=
  let '(mkPolicy a b c d _ f g h i j k l m) := p in mkPolicy a b c d x f g h i j k l m.
Definition with_tokens_ok (p : Policy) (x : bool) : Policy :=
  let '(mkPolicy a b c d e _ g h i j k l m) := p in mkPolicy a b c d e x g h i j k l m.
Definition with_tokens (p : Policy) (x : list TokenRule) : Policy :=
  let '(mkPolicy a b c d e f g _ i j k l m) := p in mkPolicy a b c d e f g x i j k l m.

(** the fields a mutation stamps: nonce, timestamp, writer, self addresses *)
Definition stamp (p : Policy) (nonce : Z) (updated writtenBy : string) (self : list string) : Policy :=
  let '(mkPolicy a _ _ _ e f g h i j _ l m) := p in mkPolicy a nonce updated writtenBy e f g h i j self l m.

(** [mergeLimits] into the default block when the change has one, then the upserts *)
Definition applyChange (p : Policy) (c : Change) : Policy :=
  let dflt := match ch_Default c with
              | Some l => mergeLimits (r_Default (p_Rules p)) l
              | None => r_Default (p_Rules p)
              end in
  let p := with_rules p (mkRules dflt (foldl (λ ns n, upsertNetwork n ns) (r_Networks (p_Rules p)) (ch_Networks c))) in
  let p := match ch_Messages c with Some m => with_messages p m | None => p end in
  let p := match ch_TokensNoAllowOK c with Some b => with_tokens_ok p b | None => p end in
  let p := match ch_TypedUnknown c with
           | Some u => with_typed p (mkTypedDataCfg u (td_Allowed (p_TypedData p)))
           | None => p
           end in
  with_tokens p (foldl (λ ts t, upsertToken t ts) (p_Tokens p) (ch_Tokens c)).

Definition defaultPolicy (writtenBy : string) : Policy := {|
  p_Version := bodyVersion; p_Nonce := 0; p_UpdatedAt := ""; p_WrittenBy := writtenBy; p_Messages := "allow";
  p_TokensNoAllowlistOK := false;
  p_Rules := mkRules (mkLimits None None None (Some true) (Some true) None) [];
  p_Tokens := []; p_Allowlist := []; p_Denylist := []; p_SelfAddresses := [];
  p_TypedData := mkTypedDataCfg "deny" []; p_ContractsAllowed := [];
|}.

(** uint64 increment *)
Definition next_nonce (n : Z) : Z := (n + 1) mod 2 ^ 64.

Definition admin_auth (msg : string) : error := New "policy.admin_auth" msg.

Section Admin.
Context {UT : UnicodeTables} {GC : GethCommon} {SS : SortSlice} {SC : SealCrypto}.
(** the outcome of the file write: [None], or what the caller sees *)
Variable wr : option error.

Definition lowerAll (addrs : list Address) : list string := map lowerHex addrs.

(** the passphrase bytes, unless it is nil or empty *)
Definition revealed (adminPass : option string) : option string :=
  match adminPass with Some s => if bool_decide (s = "") then None else Some s | None => None end.

(** writeEnvelope *)
Definition writeEnvelope (bodyBytes sig : string) : PM unit :=
  let env := mkEnvelope envelopeVersion (EncodeToString bodyBytes) (mkSeal sealAlg (EncodeToString sig)) in
  guard wr ;;; (λ _, (Ok tt, [Some (marshalEnvelope env)])).

(** authenticate: the key pair of the passphrase, if it is a pinned one *)
Definition authenticate (anchor : option Anchor) (adminPass : option string) : res error (string * string) :=
  match anchor with
  | None => Err (admin_auth "no anchor is pinned; cannot authenticate an admin mutation")
  | Some a =>
  match revealed adminPass with
  | None => Err (admin_auth "an admin passphrase is required")
  | Some pass =>
  match SaltBytes a with
  | Err _ => Err (New "policy.state_error" "the anchor salt is malformed")
  | Ok salt =>
  match DeriveSealKey pass salt (an_Scrypt a) with
  | Err _ => Err (admin_auth "cannot derive the seal key from the admin passphrase")
  | Ok k =>
      if match VerifyKeyBytes a with Ok want => bool_decide (k.2 = want) | Err _ => false end then Ok k
      else if match VerifyKeyNextBytes a with Ok (Some next) => bool_decide (k.2 = next) | _ => false end then Ok k
      else Err (admin_auth "the admin passphrase does not derive the pinned verify key")
  end end end end.

(** InitSeal; [salt] is what NewSalt drew *)
Definition InitSeal (anchor : option Anchor) (adminPass salt : option string) : res error Anchor :=
  match anchor with
  | Some _ => Err (admin_auth
      "an anchor is already pinned; `policy set` updates it but will not replace the trust root")
  | None =>
  match revealed adminPass with
  | None => Err (admin_auth "an admin passphrase is required to bootstrap the policy anchor")
  | Some pass =>
  match salt with
  | None => Err (New "policy.state_error" "cannot generate the anchor salt")
  | Some salt =>
  match DeriveSealKey pass salt DefaultScryptParams with
  | Err _ => Err (admin_auth "cannot derive the seal key from the admin passphrase")
  | Ok k => Ok (mkAnchor (EncodeKey k.2) "" (EncodeSalt salt) DefaultScryptParams 0 "")
  end end end end.

(** sealAndWrite *)
Definition sealAndWrite (adminPass : option string) (anchor : Anchor) (body : Policy) : PM string :=
  match SaltBytes anchor with
  | Err _ => mfail (New "policy.state_error" "the anchor salt is malformed")
  | Ok salt =>
  match DeriveSealKey (default "" adminPass) salt (an_Scrypt anchor) with
  | Err _ => mfail (admin_auth "cannot derive the seal key from the admin passphrase")
  | Ok k =>
      let bodyBytes := writeBody body in
      writeEnvelope bodyBytes (Sign bodyBytes k.1) ;;;
      mret bodyBytes
  end end.

Definition set_watermark (a : Anchor) (n : Z) : Anchor :=
  mkAnchor (an_VerifyKey a) (an_VerifyKeyNext a) (an_Salt a) (an_Scrypt a) n (an_StagedSalt a).

(** the watermark only rises *)
Definition raise_watermark (a : Anchor) (nonce : Z) : Anchor :=
  if an_NonceWatermark a <? nonce then set_watermark a nonce else a.

(** the body a mutation seals *)
Definition mutated_body (watermark : Z) (body : Policy) (writtenBy : string) (refreshSelf : option (list Address))
           (now : Z) : Policy :=
  let n := next_nonce (p_Nonce body) in
  let n := if n <=? watermark then next_nonce watermark else n in
  stamp body n (Format now)
    (if negb (bool_decide (writtenBy = "")) then writtenBy else p_WrittenBy body)
    (match refreshSelf with Some l => lowerAll l | None => p_SelfAddresses body end).

(** mutate *)
Definition mutate (anchor : option Anchor) (adminPass : option string) (writtenBy : string)
           (refreshSelf : option (list Address)) (mut : Policy → Policy) (now : Z) : PM Anchor :=
  k <-- mlift (authenticate anchor adminPass) ;;
  file <-- mget ;;
  r <-- mlift (loadPolicy file anchor) ;;
  let a := default zero_anchor anchor in
  let body := if lr_present r then lr_policy r else defaultPolicy writtenBy in
  let body := mutated_body (an_NonceWatermark a) (mut body) writtenBy refreshSelf now in
  let bytes := writeBody body in
  writeEnvelope bytes (Sign bytes k.1) ;;;
  mret (raise_watermark a (p_Nonce body)).

(** Engine.Set *)
Definition Set_ (anchor : option Anchor) (adminPass salt : option string) (c : Change) (now : Z) : PM Anchor :=
  match anchor with
  | Some _ => mutate anchor adminPass (ch_WrittenBy c) (ch_RefreshSelf c) (λ p, applyChange p c) now
  | None =>
      a <-- mlift (InitSeal anchor adminPass salt) ;;
      let body := applyChange (defaultPolicy (ch_WrittenBy c)) c in
      let body := stamp body 1 (Format now) (p_WrittenBy body)
                    (match ch_RefreshSelf c with Some l => lowerAll l | None => [] end) in
      sealAndWrite adminPass a body ;;;
      mret (set_watermark a 1)
  end.

(** Engine.Allow and Engine.Deny *)
Definition Allow (anchor : option Anchor) (adminPass : option string) (e : PinRequest) (now : Z) : PM Anchor :=
  mutate anchor adminPass (pr_WrittenBy e) (pr_RefreshSelf e)
    (λ p, with_allowlist p ((if pr_Remove e then removePin else upsertPin) (pr_Pin e) (p_Allowlist p))) now.

Definition Deny (anchor : option Anchor) (adminPass : option string) (e : PinRequest) (now : Z) : PM Anchor :=
  mutate anchor adminPass (pr_WrittenBy e) (pr_RefreshSelf e)
    (λ p, with_denylist p ((if pr_Remove e then removePin else upsertPin) (pr_Pin e) (p_Denylist p))) now.

(** Engine.ResetForce *)
Definition ResetForce (anchor : option Anchor) (adminPass : option string) (refreshSelf : list Address)
           (writtenBy : string) (now : Z) : PM Anchor :=
  match anchor with
  | None => mfail (admin_auth
      "no anchor is pinned; reset cannot authenticate — remove the anchor and re-run the bootstrap `policy set` out-of-band")
  | Some a =>
      k <-- mlift (authenticate anchor adminPass) ;;
      let body := stamp (defaultPolicy writtenBy) (next_nonce (an_NonceWatermark a)) (Format now) writtenBy
                    (lowerAll refreshSelf) in
      let bytes := writeBody body in
      writeEnvelope bytes (Sign bytes k.1) ;;;
      mret (set_watermark a (p_Nonce body))
  end.

Definition rotation_error (e : seal_error) : error :=
  match e with
  | ErrRotationKeyMismatch => admin_auth "the new passphrase does not derive the staged verify key; commit refused"
  | ErrNoStagedRotation => New "usage.no_staged_rotation" "no staged rotation to commit; run --stage first"
  | _ => admin_auth "cannot commit the rotation"
  end.

(** Engine.ChangeAdminPassphrase *)
Definition ChangeAdminPassphrase (anchor : option Anchor) (adminPass next salt : option string)
           (stage commit : bool) (now : Z) : PM Anchor :=
  if Bool.eqb stage commit
  then mfail (New "usage.bad_flags" "exactly one of --stage or --commit must be set") else
  match anchor with
  | None => mfail (New "policy.seal_violation" "no anchor is pinned; nothing to rotate")
  | Some a =>
  _ <-- mlift (authenticate anchor adminPass) ;;
  match revealed next with
  | None => mfail (admin_auth "a new admin passphrase is required to rotate")
  | Some newPass =>
      if stage then
        match StageRotation salt newPass (an_Scrypt a) with
        | Err _ => mfail (admin_auth "cannot derive the new seal key from the new admin passphrase")
        | Ok (newKey, stagedSalt) =>
            mret (mkAnchor (an_VerifyKey a) newKey (an_Salt a) (an_Scrypt a) (an_NonceWatermark a)
                    (EncodeSalt stagedSalt))
        end
      else
        match CommitRotation newPass a (an_Scrypt a) with
        | Err e => mfail (rotation_error e)
        | Ok fam =>
            file <-- mget ;;
            r <-- mlift (loadPolicy file anchor) ;;
            let body := lr_policy r in
            let body := stamp body (next_nonce (p_Nonce body)) (Format now) (p_WrittenBy body)
                          (p_SelfAddresses body) in
            let bytes := writeBody body in
            writeEnvelope bytes (Sign bytes (rf_Private fam)) ;;;
            mret (raise_watermark
                    (mkAnchor (EncodeKey (rf_Public fam)) "" (EncodeSalt (rf_Salt fam)) (an_Scrypt a)
                       (an_NonceWatermark a) "") (p_Nonce body))
        end
  end end.

(** Engine.CountersRelease, on the engine's disk *)
Definition CountersRelease `{LineCodec Reservation} (io : IO) (anchor : option Anchor) (adminPass : option string)
           (id : string) (now : Z) : M unit :=
  _ <-- mlift (authenticate anchor adminPass) ;;
  Engine.Release io id now.

(** ** typed_admin.go *)

Record TypedAllowEntry := mkTypedAllowEntry {
  te_ChainID : Z;
  te_VerifyingContract : string;
  te_PrimaryType : string;
  te_Label : string;
  te_Remove : bool;
  te_RefreshSelf : option (list Address);
  te_WrittenBy : string;
}.

Definition validateTypedAllow (entry : TypedAllowEntry) : option error :=
  if te_ChainID entry <=? 0
  then Some (New "usage.bad_typed_allow" ("--chain-id must be a positive chain id, got " +:+ z_string (te_ChainID entry)))
  else if negb (IsHexAddress (TrimSpace (te_VerifyingContract entry)))
  then Some (New "usage.bad_typed_allow"
               ("--contract must be a 0x verifying-contract address, got " +:+ go_quote (te_VerifyingContract entry)))
  else if bool_decide (TrimSpace (te_PrimaryType entry) = "")
  then Some (New "usage.bad_typed_allow" "--primary-type is required (the EIP-712 primaryType to admit)")
  else None.

Definition sameTypedAllow (a b : TypedAllow) : bool :=
  (ta_ChainID a =? ta_ChainID b) && EqualFold (ta_VerifyingContract a) (ta_VerifyingContract b) &&
  bool_decide (ta_PrimaryType a = ta_PrimaryType b).

Definition upsertTypedAllow (ta : TypedAllow) : list TypedAllow → list TypedAllow :=
  upsert (λ x, sameTypedAllow x ta)
    (λ x, mkTypedAllow (ta_ChainID x) (ta_VerifyingContract x) (ta_PrimaryType x) (ta_Label ta)) ta.

Definition removeTypedAllow (ta : TypedAllow) : list TypedAllow → list TypedAllow :=
  List.filter (λ x, negb (sameTypedAllow x ta)).

Definition TypedAllow_ (anchor : option Anchor) (adminPass : option string) (entry : TypedAllowEntry) (now : Z)
  : PM Anchor :=
  guard (if te_Remove entry then None else validateTypedAllow entry) ;;;
  let ta := mkTypedAllow (te_ChainID entry) (ToLower (TrimSpace (te_VerifyingContract entry)))
              (TrimSpace (te_PrimaryType entry)) (te_Label entry) in
  mutate anchor adminPass (te_WrittenBy entry) (te_RefreshSelf entry)
    (λ p, with_typed p (mkTypedDataCfg (td_Unknown (p_TypedData p))
       ((if te_Remove entry then removeTypedAllow else upsertTypedAllow) ta (td_Allowed (p_TypedData p))))) now.

(** ** contract_admin.go *)

Record ContractAllowEntry := mkContractAllowEntry {
  ce_Network : string;
  ce_Contract : string;
  ce_Selector : string;
  ce_Label : string;
  ce_Remove : bool;
  ce_RefreshSelf : option (list Address);
  ce_WrittenBy : string;
}.

Definition isSelectorHex (s : string) : bool :=
  match TrimSpace s with
  | String a (String b r) =>
      Nat.eqb (String.length r) 8 && (byteZ a =? 48) && ((byteZ b =? 120) || (byteZ b =? 88)) &&
      string_forallb is_hex_digit r
  | _ => false
  end.

Definition normalizeSelector (s : string) : string := ToLower (TrimSpace s).

Definition validateContractAllow (entry : ContractAllowEntry) : option error :=
  if bool_decide (TrimSpace (ce_Network entry) = "")
  then Some (New "usage.bad_contract_allow" "--network is required (the network the contract lives on)")
  else if negb (IsHexAddress (TrimSpace (ce_Contract entry)))
  then Some (New "usage.bad_contract_allow"
               ("the contract must be a 0x contract address, got " +:+ go_quote (ce_Contract entry)))
  else if negb (isSelectorHex (ce_Selector entry))
  then Some (New "usage.bad_contract_allow"
               ("--selector must be a 0x 4-byte function selector (10 hex chars, e.g. 0x095ea7b3), got " +:+
                go_quote (ce_Selector entry)))
  else None.

Definition sameContractAllow (a b : ContractAllow) : bool :=
  EqualFold (ca_Network a) (ca_Network b) && EqualFold (ca_Contract a) (ca_Contract b) &&
  bool_decide (normalizeSelector (ca_Selector a) = normalizeSelector (ca_Selector b)).

Definition upsertContractAllow (ca : ContractAllow) : list ContractAllow → list ContractAllow :=
  upsert (λ x, sameContractAllow x ca)
    (λ x, mkContractAllow (ca_Network x) (ca_Contract x) (ca_Selector x) (ca_Label ca) (ca_AddedAt ca)) ca.

Definition removeContractAllow (ca : ContractAllow) : list ContractAllow → list ContractAllow :=
  List.filter (λ x, negb (sameContractAllow x ca)).

(** [now] is read inside the mutation for AddedAt and again for UpdatedAt *)
Definition ContractAllow_ (anchor : option Anchor) (adminPass : option string) (entry : ContractAllowEntry)
           (added now : Z) : PM Anchor :=
  guard (if ce_Remove entry then None else validateContractAllow entry) ;;;
  let ca at_ := mkContractAllow (TrimSpace (ce_Network entry)) (ToLower (TrimSpace (ce_Contract entry)))
              (normalizeSelector (ce_Selector entry)) (ce_Label entry) at_ in
  mutate anchor adminPass (ce_WrittenBy entry) (ce_RefreshSelf entry)
    (λ p, with_contracts p
       (if ce_Remove entry then removeContractAllow (ca "") (p_ContractsAllowed p)
        else upsertContractAllow (ca (Format added)) (p_ContractsAllowed p))) now.

(** ** The read-only surface *)

(** Engine.Show, as the policy, the status and the error it returns together *)
Definition failed_status (anchor : option Anchor) (e : error) : SealStatus :=
  let a := default zero_anchor anchor in
  mkStatus false (bool_decide (is_Some anchor)) false 0 (an_NonceWatermark a) "" (e_Msg e)
    (match anchor with Some _ => "config" | None => "" end).

Definition Show_ (file : PFile) (anchor : option Anchor) : Policy * SealStatus * option error :=
  match loadPolicy file anchor with
  | Err e => (zero_policy, failed_status anchor e, Some e)
  | Ok r => (lr_policy r, lr_status r, None)
  end.

Definition Verify_ (file : PFile) (anchor : option Anchor) : bool * SealStatus * option error :=
  match loadPolicy file anchor with
  | Err e => (false, failed_status anchor e, Some e)
  | Ok r => (true, lr_status r, None)
  end.

(** Engine.WhatIf: Evaluate, which reserves nothing *)
Definition WhatIf (io : IO) (accounts : option (string → list Address)) (active : res error (option Policy))
           (c : Check) (now : Z) : M Decision :=
  EngineEvaluate io accounts active c now.

Definition AllowlistPin (file : PFile) (anchor : option Anchor) (source name : string) : res error (option Address) :=
  if bool_decide (name = "") then Ok None
  else let* p := loadActivePolicy file anchor in
       match p with
       | None => Ok None
       | Some p =>
           Ok (HexToAddress ∘ pe_Address <$>
             List.find (λ a, bool_decide (pe_Source a = source) && negb (bool_decide (pe_Name a = "")) &&
                             EqualFold (pe_Name a) name && negb (bool_decide (pe_Address a = ""))) (p_Allowlist p))
       end.

Definition PinPrint (anchor : option Anchor) : res error Anchor :=
  match anchor with
  | None => Err (New "policy.seal_violation" "no anchor is pinned; run `daxie policy set` to bootstrap one")
  | Some a => Ok a
  end.

Definition readEnvelopeForVerify (file : PFile) : res error (string * string) :=
  match file with
  | None => Err (New "policy.seal_violation" "policy.json is missing; nothing to verify")
  | Some b =>
      let* env := parseEnvelope b in
      match DecodeString (en_BodyB64 env) with
      | None => Err (New "policy.seal_violation" "policy.json body_b64 is not valid base64")
      | Some bodyRaw =>
          match DecodeString (sb_Sig (en_Seal env)) with
          | None => Err (New "policy.seal_violation" "policy.json seal.sig is not valid base64")
          | Some sig => Ok (bodyRaw, sig)
          end
      end
  end.

Definition PinVerify (file : PFile) (candidateKey : string) : res error bool :=
  match decodeKey candidateKey with
  | Err _ => Err (New "usage.bad_key" "the supplied candidate key is not a valid ed25519 verify key")
  | Ok pk => let* r := readEnvelopeForVerify file in Ok (Verify r.1 r.2 pk)
  end.
End Admin.
