(* ===== verification/PolicyAdminFacts.v ===== *)
(** * Sealed files: what loading one gives

    A file this code wrote is the envelope of a body and its signature.  It
    loads under an anchor that pins the signing key exactly when its nonce is
    not below the watermark. *)

From S2P Require Import Prelude GoStrings Decimal Rfc3339 Encodings Json PolicyTypes PolicyBody PolicyBodyFacts PolicyBodyProps Seal Domain PolicyFile Trace Evaluate Reservation Engine PolicyAdmin.

Local Open Scope string_scope.
Local Open Scope Z_scope.
Local Open Scope list_scope.

Section Facts.
Context {UT : UnicodeTables} {GC : GethCommon} {SS : SortSlice} {SC : SealCrypto}.

(** the file an operation writes for a body under a private key *)
Definition sealed_file (q : Policy) (sk : string) : string :=
  marshalEnvelope (mkEnvelope envelopeVersion (EncodeToString (writeBody q))
    (mkSeal sealAlg (EncodeToString (Sign (writeBody q) sk)))).

(** a body the writer and the decoder agree on, at this binary's version *)
Record proper (q : Policy) : Prop := {
  proper_utf8 : utf8_policy q;
  proper_ints : int_ranges q;
  proper_limits : limits_named q;
  proper_version : p_Version q ≤ bodyVersion;
}.

(** the anchor accepts the signatures of a private key *)
Definition pins (a : Anchor) (sk : string) : Prop :=
  VerifyKeyBytes a = Ok (Public sk) ∨ VerifyKeyNextBytes a = Ok (Some (Public sk)).

Lemma valid_b64 s : valid_utf8 (EncodeToString s) = true.
Proof.
  apply valid_utf8_ascii. pose proof (encode_alphabet s) as H. unfold is_ascii.
  induction (EncodeToString s) as [|c t IH]; [done|]. cbn [string_forallb] in *.
  apply andb_true_iff in H as [Hc Ht]. rewrite IH by done. rewrite andb_true_r.
  unfold b64_byte, b64_val, is_ascii_byte in *. pose proof (byteZ_range c).
  apply Z.ltb_lt. destruct (Z.eqb_spec (byteZ c) 61) as [E|E]; [lia|].
  rewrite orb_false_r in Hc. apply bool_decide_eq_true in Hc. destruct Hc as [v Hv].
  repeat match type of Hv with (if ?b then _ else _) = _ => destruct b eqn:?; bool_prop; try lia end. done.
Qed.

Definition envelope_tree (env : envelope) : json :=
  JObj [("version", JNum (z_string (en_Version env))); ("body_b64", JStr (en_BodyB64 env));
        ("seal", JObj [("alg", JStr (sb_Alg (en_Seal env))); ("sig", JStr (sb_Sig (en_Seal env)))])].

Lemma marshalEnvelope_tree env : marshalEnvelope env = render (envelope_tree env).
Proof.
  unfold marshalEnvelope, envelope_tree. rewrite render_obj. cbn [map String.concat].
  unfold mtext. cbn [fst snd]. rewrite render_obj. cbn [map String.concat]. unfold mtext. cbn [fst snd].
  by rewrite !string_app_assoc.
Qed.

Lemma unmarshal_envelope v body alg sig :
  valid_utf8 body = true → valid_utf8 alg = true → valid_utf8 sig = true → - 2 ^ 63 ≤ v < 2 ^ 63 →
  unmarshal d_envelope zero_envelope (marshalEnvelope (mkEnvelope v body (mkSeal alg sig))) =
  Some (mkEnvelope v body (mkSeal alg sig)).
Proof.
  intros Hb Ha Hs Hv. unfold unmarshal. rewrite marshalEnvelope_tree, parse_render.
  - unfold d_envelope, envelope_tree, d_struct. cbn [d_members en_Version].
    change (find_field _ "version") with (Some (field en_Version (λ '(mkEnvelope _ b c) x, mkEnvelope x b c) d_int)).
    unfold field at 1. by rewrite d_int_tree.
  - unfold envelope_tree. cbn [en_Version en_BodyB64 en_Seal sb_Alg sb_Sig].
    apply wf_cons; [done|by apply andb_true_iff, valid_z|]. apply wf_cons; [done|done|].
    apply wf_cons; [done| |done]. by do 2 (apply wf_cons; [done|done|]).
Qed.

Lemma unmarshal_head q :
  utf8_policy q → int_ranges q → limits_named q →
  unmarshal d_head zero_head (writeBody q) = Some (mkHead (p_Version q) (p_Nonce q) (p_WrittenBy q)).
Proof.
  intros Hu (Hv & Hn & _) Hl. unfold unmarshal. rewrite writeBody_tree, parse_render by (done || by apply wf_body).
  unfold d_head, body_tree, d_struct. cbn [d_members].
  change (find_field _ "version") with (Some (field bh_Version (λ '(mkHead _ b c) x, mkHead x b c) d_int)).
  unfold field at 1. rewrite d_int_tree by done. cbn [zero_head].
  change (find_field _ "nonce") with (Some (field bh_Nonce (λ '(mkHead a _ c) x, mkHead a x c) d_uint64)).
  unfold field at 1. by rewrite d_uint64_tree.
Qed.

Lemma Verify_Sign body sk : Verify body (Sign body sk) (Public sk) = true.
Proof. unfold Verify, Sign. by rewrite Public_size, Sign_size, !Nat.eqb_refl, Sign_verifies. Qed.

Lemma verify_pinned a sk body : pins a sk → verifyUnderAnchor body (Sign body sk) a = true.
Proof.
  unfold verifyUnderAnchor. intros [-> | ->]; rewrite Verify_Sign; [done|by rewrite orb_true_r].
Qed.

Lemma load_sealed_file q sk a :
  proper q → pins a sk →
  load_sealed (sealed_file q sk) a =
  if p_Nonce q <? an_NonceWatermark a then Err (rollback (p_Nonce q) (an_NonceWatermark a))
  else Ok {| lr_policy := canonical q; lr_bodyB64 := EncodeToString (writeBody q); lr_bodyRaw := writeBody q;
             lr_seal := mkSeal sealAlg (EncodeToString (Sign (writeBody q) sk)); lr_present := true;
             lr_status := mkStatus true true true (p_Nonce q) (an_NonceWatermark a) (p_WrittenBy q) "" "config" |}.
Proof.
  intros [Hu Hi Hl Hv] Hp. unfold load_sealed, sealed_file.
  rewrite unmarshal_envelope by (apply valid_b64 || done). cbn [en_BodyB64 en_Seal sb_Sig].
  rewrite !decode_encode_string, verify_pinned by done. cbn [negb].
  rewrite unmarshal_head by done. cbn [bh_Nonce bh_Version bh_WrittenBy].
  destruct (p_Nonce q <? an_NonceWatermark a); [done|].
  destruct (Z.ltb_spec bodyVersion (p_Version q)); [lia|]. by rewrite decode_body.
Qed.

Lemma load_active_file q sk a :
  proper q → pins a sk → an_NonceWatermark a ≤ p_Nonce q →
  loadActivePolicy (Some (sealed_file q sk)) (Some a) = Ok (Some (canonical q)).
Proof.
  intros Hq Hp Hn. unfold loadActivePolicy, loadPolicy. rewrite load_sealed_file by done.
  destruct (Z.ltb_spec (p_Nonce q) (an_NonceWatermark a)); [lia|done].
Qed.

(** ** Keys *)

Lemma strip_app p s : strip p (p +:+ s) = Some s.
Proof. induction p as [|c p IH]; [done|]. rewrite string_app_cons. simpl. by rewrite Z.eqb_refl. Qed.

Lemma decodeKey_EncodeKey pk : String.length pk = PublicKeySize → decodeKey (EncodeKey pk) = Ok pk.
Proof.
  intros H. unfold decodeKey, EncodeKey. by rewrite strip_app, decode_encode_string, H, Nat.eqb_refl.
Qed.

Lemma derive_public pass salt p k : DeriveSealKey pass salt p = Ok k → k.2 = Public k.1.
Proof.
  unfold DeriveSealKey. case_bool_decide; [done|]. destruct (Valid p); [|done]. simpl.
  destruct (scrypt_Key _ _ _ _ _ _); [|done]. destruct (hkdf_read _ _); [|done]. by intros [= <-].
Qed.

(** a passphrase that authenticates holds a private key the anchor pins *)
Lemma authenticate_spec anchor adminPass k :
  authenticate anchor adminPass = Ok k →
  ∃ a pass salt, anchor = Some a ∧ adminPass = Some pass ∧ SaltBytes a = Ok salt ∧
    DeriveSealKey pass salt (an_Scrypt a) = Ok k ∧ pins a k.1.
Proof.
  unfold authenticate, pins. destruct anchor as [a|]; [|done].
  destruct adminPass as [pass|]; [|done]. simpl. case_bool_decide; [done|].
  destruct (SaltBytes a) as [salt|] eqn:Es; [|done].
  destruct (DeriveSealKey _ _ _) as [k'|] eqn:Ek; [|done]. pose proof (derive_public _ _ _ _ Ek) as Hk.
  destruct (match VerifyKeyBytes a with Ok want => bool_decide (k'.2 = want) | Err _ => false end) eqn:E1.
  - intros [= <-]. exists a, pass, salt. split_and!; try done. left.
    destruct (VerifyKeyBytes a); [|done]. apply bool_decide_eq_true in E1. by rewrite <-Hk, E1.
  - destruct (match VerifyKeyNextBytes a with Ok (Some next) => bool_decide (k'.2 = next) | _ => false end) eqn:E2;
      [|done]. intros [= <-]. exists a, pass, salt. split_and!; try done. right.
    destruct (VerifyKeyNextBytes a) as [[]|]; [|done..]. apply bool_decide_eq_true in E2. by rewrite <-Hk, E2.
Qed.

(** pins depends on the two keys only *)
Lemma pins_keys a b sk :
  an_VerifyKey a = an_VerifyKey b → an_VerifyKeyNext a = an_VerifyKeyNext b → pins a sk → pins b sk.
Proof. unfold pins, VerifyKeyBytes, VerifyKeyNextBytes. by intros -> ->. Qed.

Lemma raise_watermark_pins a n sk : pins a sk → pins (raise_watermark a n) sk.
Proof. apply pins_keys; unfold raise_watermark; by destruct (an_NonceWatermark a <? n). Qed.

Lemma raise_watermark_value a n : an_NonceWatermark (raise_watermark a n) = Z.max (an_NonceWatermark a) n.
Proof. unfold raise_watermark. destruct (Z.ltb_spec (an_NonceWatermark a) n); simpl; lia. Qed.

(** ** Stamped bodies *)

Lemma string_forallb_impl (P Q : Ascii.ascii → bool) s :
  (∀ c, P c = true → Q c = true) → string_forallb P s = true → string_forallb Q s = true.
Proof.
  intros H. induction s as [|c s IH]; [done|]. cbn [string_forallb].
  intros [Hc Hs]%andb_true_iff. by rewrite (H c Hc), IH.
Qed.

Lemma digits_ascii s : string_forallb is_digit s = true → is_ascii s = true.
Proof.
  apply string_forallb_impl. intros c. unfold is_digit, is_ascii_byte.
  intros [_ H%Z.leb_le]%andb_true_iff. apply Z.ltb_lt. lia.
Qed.

Lemma fixed10_ascii w n : is_ascii (fixed_digits 10 w n) = true.
Proof.
  revert n. induction w as [|w IH]; intros n; [done|]. cbn [fixed_digits]. unfold is_ascii in *.
  rewrite string_forallb_app, IH. cbn [string_forallb andb]. rewrite andb_true_r.
  pose proof (Z.mod_pos_bound n 10 ltac:(done)).
  apply digit_char16_ascii_lower. lia.
Qed.

Lemma is_ascii_app s t : is_ascii s = true → is_ascii t = true → is_ascii (s +:+ t) = true.
Proof. unfold is_ascii. rewrite string_forallb_app. by intros -> ->. Qed.

Lemma pad_int_ascii w n : is_ascii (pad_int w n) = true.
Proof.
  unfold pad_int. destruct (Z.ltb_spec n 0) as [Hn|Hn].
  - apply (is_ascii_app (String (Zbyte 45) "")); [done|].
    destruct (_ <? _); [apply fixed10_ascii|apply digits_ascii, nat_string_digits; lia].
  - destruct (_ <? _); [apply fixed10_ascii|by apply digits_ascii, nat_string_digits].
Qed.

Lemma Format_utf8 t : valid_utf8 (Format t) = true.
Proof.
  apply valid_utf8_ascii. unfold Format, format_secs.
  destruct (civil_from_days _) as [[y m] d].
  repeat first [apply fixed10_ascii | apply pad_int_ascii | done | apply is_ascii_app].
Qed.

Lemma lowerAll_utf8 l : Forall (λ s, valid_utf8 s = true) (lowerAll l).
Proof. apply Forall_fmap, Forall_forall. intros a _. apply valid_utf8_ascii, lowerHex_ascii. Qed.

Lemma utf8_stamp p n wb self now :
  utf8_policy p → valid_utf8 wb = true → Forall (λ s, valid_utf8 s = true) self →
  utf8_policy (stamp p n (Format now) wb self).
Proof.
  intros Hu Hwb Hs. destruct p as [a n0 c d e f g h i j k l m]. unfold utf8_policy, policy_strings in *.
  apply Forall_app in Hu as [H1 Hu]. do 4 (apply Forall_app in Hu as [? Hu]). apply Forall_app in Hu as [_ Hu].
  apply Forall_app. split.
  - rewrite !Forall_cons in *. destruct H1 as (_ & _ & Hm & _). split; [apply Format_utf8|].
    split; [exact Hwb|]. by split.
  - do 4 (apply Forall_app; split; [assumption|]). by apply Forall_app.
Qed.

Lemma proper_stamp p n wb self now :
  proper p → 0 ≤ n < 2 ^ 64 → valid_utf8 wb = true → Forall (λ s, valid_utf8 s = true) self →
  proper (stamp p n (Format now) wb self).
Proof.
  intros [Hu (Hv & Hn & Ha) Hl Hve] H Hwb Hs. split; [by apply utf8_stamp|..];
    destruct p as [a n0 c d e f g h i j k l m]; [exact (conj Hv (conj H Ha))|done|done].
Qed.

Lemma proper_default wb : valid_utf8 wb = true → proper (defaultPolicy wb).
Proof.
  intros H. split; [|by split_and!|done|done].
  unfold utf8_policy. change (policy_strings (defaultPolicy wb)) with [""; wb; "allow"; "deny"].
  by repeat constructor.
Qed.

Lemma stamp_nonce p n u wb self : p_Nonce (stamp p n u wb self) = n.
Proof. by destruct p. Qed.

Lemma canonical_nonce q : p_Nonce (canonical q) = p_Nonce q.
Proof. done. Qed.

Lemma next_nonce_range n : 0 ≤ next_nonce n < 2 ^ 64.
Proof. apply Z.mod_pos_bound. done. Qed.

Lemma utf8_fields p :
  utf8_policy p → valid_utf8 (p_WrittenBy p) = true ∧ Forall (λ s, valid_utf8 s = true) (p_SelfAddresses p).
Proof.
  intros ((_ & Hw & _) & _ & _ & _ & _ & Hs & _)%utf8_pieces. split; [done|]. by apply Forall_forall.
Qed.

Lemma utf8_mutated w body wb rs now :
  utf8_policy body → valid_utf8 wb = true → utf8_policy (mutated_body w body wb rs now).
Proof.
  intros Hb Hwb. destruct (utf8_fields body Hb) as [Hw Hs]. apply utf8_stamp; [done| |].
  - by destruct (negb _).
  - destruct rs; [apply lowerAll_utf8|done].
Qed.

Lemma proper_mutated w body wb rs now :
  proper body → valid_utf8 wb = true → proper (mutated_body w body wb rs now).
Proof.
  intros Hb Hwb. destruct (utf8_fields body) as [Hw Hs]; [apply Hb|].
  apply proper_stamp; [done|cbv zeta; destruct (_ <=? _); apply next_nonce_range| |].
  - by destruct (negb _).
  - destruct rs; [apply lowerAll_utf8|done].
Qed.

(** ** Running the operations *)

Lemma writeEnvelope_run q sk f :
  writeEnvelope None (writeBody q) (Sign (writeBody q) sk) f = (Ok tt, [Some (sealed_file q sk)]).
Proof. done. Qed.

Lemma mutate_run a pass wb rs mut now f k r :
  authenticate (Some a) pass = Ok k → loadPolicy f (Some a) = Ok r → lr_present r = true →
  let body := mutated_body (an_NonceWatermark a) (mut (lr_policy r)) wb rs now in
  mutate None (Some a) pass wb rs mut now f =
  (Ok (raise_watermark a (p_Nonce body)), [Some (sealed_file body k.1)]).
Proof.
  intros Ha Hl Hp. cbv zeta. unfold mutate. rewrite (mbind_read _ _ _ k) by (by rewrite Ha).
  rewrite (mbind_read _ _ _ f) by done. rewrite (mbind_read _ _ _ r) by (by rewrite Hl). by rewrite Hp.
Qed.

Lemma load_present f a r : loadPolicy f (Some a) = Ok r → lr_present r = true ∧ is_Some f.
Proof.
  unfold loadPolicy. destruct f as [raw|]; [|done]. unfold load_sealed. intros H.
  repeat match type of H with
  | (match ?x with _ => _ end) = _ => destruct x; try done
  | (if ?x then _ else _) = _ => destruct x; try done
  end. by injection H as <-.
Qed.
End Facts.
