(* ===== verification/EngineFacts.v ===== *)
(** * Facts about the engine's operations

    Inversion and functional lemmas for the monad of [Engine], the aggregate
    window as a sum over accounts, and what each operation writes.  The
    properties of [EngineProps] and [Lifecycle] are proved from these. *)

From S2P Require Import Prelude GoStrings Decimal Rfc3339 Encodings PolicyTypes Domain Trace Evaluate Counter Reservation Engine.

Local Open Scope string_scope.
Local Open Scope Z_scope.
Local Open Scope list_scope.
Local Open Scope go_scope.

(** ** Well-formed logs are what loading gives *)

Section LoadWf.
Context {RC : LineCodec Reservation}.

Lemma load_lines_wf st ls st' : log_wf st → load_lines st ls = Ok st' → log_wf st'.
Proof.
  revert st. induction ls as [|l ls IH]; intros st Hwf; simpl; [by intros [= <-]|].
  case_bool_decide; [by apply IH|]. destruct (decode_line l) as [r|].
  - case_bool_decide; [by apply IH|]. apply IH. by apply log_add_wf.
  - destruct (rest_empty ls); [by apply IH|done].
Qed.

Lemma loadAll_wf f st : loadAll f = Ok st → log_wf st.
Proof.
  destruct f as [b|]; simpl.
  - apply load_lines_wf, log_empty_wf.
  - intros [= <-]. apply log_empty_wf.
Qed.
End LoadWf.

Section Facts.
Context {UT : UnicodeTables} {GC : GethCommon} {RC : LineCodec Reservation}.
Variable io : IO.
Variable accounts : option (string → list Address).

(** ** Counter files *)

Definition upd_log (d : Disk) (b : string) : Disk :=
  {| dk_log := Some b; dk_counters := dk_counters d |}.
Definition upd_counter (d : Disk) (network : string) (a : Address) (cf : counterFile) : Disk :=
  {| dk_log := dk_log d; dk_counters := <[counterPath network a := Document cf]> (dk_counters d) |}.

Lemma ToLower_Hex a : ToLower (Hex a) = hex40 a.
Proof. rewrite ToLower_ascii by apply Hex_ascii. apply Hex_lower. Qed.

Lemma counterPath_inj n a b :
  valid_addr a → valid_addr b → counterPath n a = counterPath n b → a = b.
Proof.
  unfold counterPath. rewrite !ToLower_Hex. intros Ha Hb H. apply (f_equal snd) in H. cbn [snd] in H.
  unfold hex40 in H. apply (inj (String.append "0x")) in H. unfold valid_addr in *.
  eapply (fixed_digits_inj 16 40); [by right|exact Ha|exact Hb|exact H].
Qed.

Lemma read_counter_log d b n a : read_counter (upd_log d b) n a = read_counter d n a.
Proof. done. Qed.

(** reading a file just written gives its entries back *)
Lemma read_counter_upd_eq d n a cf :
  ∃ cf', read_counter (upd_counter d n a cf) n a = Ok cf' ∧ cf_Entries cf' = cf_Entries cf.
Proof. unfold read_counter, upd_counter. simpl. rewrite lookup_insert_eq. eauto. Qed.

Lemma read_counter_upd_ne d n a b cf m :
  counterPath m b ≠ counterPath n a →
  read_counter (upd_counter d n a cf) m b = read_counter d m b.
Proof. intros H. unfold read_counter, upd_counter. simpl. by rewrite lookup_insert_ne. Qed.

Lemma loadCounter_run d n a : loadCounter n a d = (read_counter d n a, []).
Proof. done. Qed.

Lemma reads_loadCounter n a : reads_only (loadCounter n a).
Proof. done. Qed.

Lemma reads_load_log : reads_only load_log.
Proof. done. Qed.

Lemma load_log_run d : load_log d = (loadAll (dk_log d), []).
Proof. done. Qed.

(** the bytes [writeCounter] stores *)
Definition stored (cf : counterFile) (now : Z) : counterFile :=
  pruneCounter {| cf_Version := counterVersion; cf_PolicyNonce := cf_PolicyNonce cf;
                  cf_Network := cf_Network cf; cf_From := cf_From cf;
                  cf_Entries := cf_Entries cf |} now.

Lemma sumWindow_stored cf now now' : now ≤ now' → sumWindow (stored cf now) now' = sumWindow cf now'.
Proof. intros H. unfold stored. rewrite sumWindow_prune by done. by rewrite !sumWindow_zsum. Qed.

Lemma writeCounter_run n a cf now d :
  writeCounter io n a cf now d =
  match io_counter_write io with
  | None => (Ok tt, [upd_counter d n a (stored cf now)])
  | Some e => (Err e, [])
  end.
Proof. unfold writeCounter, guard. by destruct (io_counter_write io). Qed.

Lemma write_log_run st m d :
  write_log io st m d =
  match io_log_write io with
  | None => (Ok tt, [upd_log d (appendAndCompact st m)])
  | Some e => (Err e, [])
  end.
Proof. unfold write_log, guard. by destruct (io_log_write io). Qed.

Lemma loadCounter_ok n a d cf tr :
  loadCounter n a d = (Ok cf, tr) → read_counter d n a = Ok cf ∧ tr = [].
Proof. rewrite loadCounter_run. by intros [= -> <-]. Qed.

Lemma load_log_ok d st tr : load_log d = (Ok st, tr) → loadAll (dk_log d) = Ok st ∧ tr = [].
Proof. rewrite load_log_run. by intros [= -> <-]. Qed.

Lemma write_log_ok st m d x tr :
  write_log io st m d = (Ok x, tr) → tr = [upd_log d (appendAndCompact st m)].
Proof. rewrite write_log_run. destruct (io_log_write io); [done|]. by intros [= <- <-]. Qed.

Lemma writeCounter_ok n a cf now d x tr :
  writeCounter io n a cf now d = (Ok x, tr) → tr = [upd_counter d n a (stored cf now)].
Proof. rewrite writeCounter_run. destruct (io_counter_write io); [done|]. by intros [= <- <-]. Qed.

(** ** The window of an account and the aggregate *)

Definition window (d : Disk) (n : string) (now : Z) (a : Address) : Z :=
  match read_counter d n a with Ok cf => sumWindow cf now | Err _ => 0 end.

Lemma window_nonneg d n now a : 0 ≤ window d n now a.
Proof. unfold window. destruct (read_counter d n a); [apply sumWindow_nonneg|done]. Qed.

Definition readable (d : Disk) (n : string) (accts : list Address) : Prop :=
  ∀ a, a ∈ accts → is_ok (read_counter d n a) = true.

(** the part of the sum an account contributes *)
Definition part (d : Disk) (n : string) (now : Z) (excl : option (Address * string)) (a : Address) : Z :=
  match read_counter d n a with
  | Ok cf =>
      match excl with
      | Some (x, id) => if negb (bool_decide (id = "")) && (a =? x)
                        then sumWindowExcluding cf now id else sumWindow cf now
      | None => sumWindow cf now
      end
  | Err _ => 0
  end.

Lemma sum_accounts_ok n now excl accts sum d s tr :
  sum_accounts n now excl accts sum d = (Ok s, tr) ↔
  readable d n accts ∧ s = sum + zsum (map (part d n now excl) accts) ∧ tr = [].
Proof.
  revert sum tr. induction accts as [|a accts IH]; intros sum tr; cbn [sum_accounts map].
  - unfold zsum, mret. simpl. split.
    + intros [= <- <-]. split; [|split; [lia|done]]. by intros a Ha%elem_of_nil.
    + intros (_ & -> & ->). by rewrite Z.add_0_r.
  - rewrite zsum_cons. unfold part at 1, readable. setoid_rewrite elem_of_cons.
    destruct (read_counter d n a) as [cf|e] eqn:E.
    + rewrite (mbind_read _ _ _ cf) by (by rewrite loadCounter_run, E). rewrite IH. unfold readable.
      split; (intros (Hr & -> & ->); split_and!; [|lia|done]); [|naive_solver].
      intros b [->|Hb]; [by rewrite E|auto].
    + rewrite (mbind_fail _ _ _ e []) by (by rewrite loadCounter_run, E).
      split; [done|]. intros (Hr & _). specialize (Hr a ltac:(by left)). by rewrite E in Hr.
Qed.

Lemma sum_accounts_fail n now excl accts sum d e tr :
  sum_accounts n now excl accts sum d = (Err e, tr) → ¬ readable d n accts ∧ tr = [].
Proof.
  revert sum. induction accts as [|a accts IH]; intros sum; simpl; [done|].
  destruct (read_counter d n a) as [cf|e'] eqn:E.
  - rewrite (mbind_read _ _ _ cf) by (by rewrite loadCounter_run, E). intros [Hr ->]%IH.
    split; [|done]. intros H. apply Hr. intros b Hb. apply H. by right.
  - rewrite (mbind_fail _ _ _ e' []) by (by rewrite loadCounter_run, E). intros [= <- <-].
    split; [|done]. intros H. specialize (H a ltac:(left)). by rewrite E in H.
Qed.

Lemma aggregateWindow_ok n signer now excl d s tr :
  aggregateWindow accounts n signer now excl d = (Ok s, tr) ↔
  readable d n (networkAccounts accounts n signer) ∧
  s = zsum (map (part d n now excl) (networkAccounts accounts n signer)) ∧ tr = [].
Proof. unfold aggregateWindow. rewrite sum_accounts_ok. by rewrite Z.add_0_l. Qed.

Lemma part_none d n now a : part d n now None a = window d n now a.
Proof. done. Qed.

(** ** The accounts of a network *)

Lemma addAccount_in out a b : b ∈ addAccount out a ↔ b ∈ out ∨ (b = a ∧ a ≠ 0).
Proof.
  unfold addAccount. destruct (Z.eqb_spec a 0); simpl; [naive_solver|].
  case_bool_decide; [naive_solver|]. rewrite elem_of_app, list_elem_of_singleton. naive_solver.
Qed.

Lemma addAccount_nodup out a : NoDup out → NoDup (addAccount out a).
Proof.
  intros H. unfold addAccount. destruct (a =? 0); [done|]. simpl. case_bool_decide; [done|].
  apply NoDup_app. split_and!; [done| |apply NoDup_singleton].
  intros b Hb ->%list_elem_of_singleton. done.
Qed.

Lemma foldl_addAccount_in l out b :
  b ∈ foldl addAccount out l ↔ b ∈ out ∨ (b ∈ l ∧ b ≠ 0).
Proof.
  revert out. induction l as [|a l IH]; intros out; simpl.
  - rewrite elem_of_nil. tauto.
  - rewrite IH, addAccount_in, elem_of_cons. naive_solver.
Qed.

Lemma foldl_addAccount_nodup l out : NoDup out → NoDup (foldl addAccount out l).
Proof. revert out. induction l as [|a l IH]; intros out H; simpl; [done|]. by apply IH, addAccount_nodup. Qed.

(** the accounts the keystore hook lists *)
Definition hooked (n : string) : list Address := match accounts with Some f => f n | None => [] end.

Lemma networkAccounts_in n signer b :
  b ∈ networkAccounts accounts n signer ↔ b ≠ 0 ∧ (b ∈ hooked n ∨ b = signer).
Proof.
  unfold networkAccounts. rewrite addAccount_in, foldl_addAccount_in, elem_of_nil.
  unfold hooked. naive_solver.
Qed.

Lemma networkAccounts_nodup n signer : NoDup (networkAccounts accounts n signer).
Proof. apply addAccount_nodup, foldl_addAccount_nodup. constructor. Qed.

(** ** The window a request is judged against *)

Definition signer_accounts (c : Check) : list Address :=
  networkAccounts accounts (c_Network c) (c_Account c).

Definition window_value (d : Disk) (c : Check) (cf : counterFile) (now : Z) : Z * option rbfContext :=
  match superseded c cf with
  | None => (zsum (map (window d (c_Network c) now) (signer_accounts c)), None)
  | Some e =>
      (zsum (map (part d (c_Network c) now (Some (c_Account c, ce_ID e))) (signer_accounts c))
       + mergedEnvelope e c - thisDebit c,
       Some {| rbf_supersededID := ce_ID e; rbf_account := c_Account c;
               rbf_mergedEnv := mergedEnvelope e c |})
  end.

Lemma windowFor_run c cf now d :
  readable d (c_Network c) (signer_accounts c) →
  windowFor accounts c cf now d = (Ok (window_value d c cf now), []).
Proof.
  intros Hr. unfold windowFor, window_value. destruct (superseded c cf) as [e|].
  - erewrite mbind_read; [done|]. by apply aggregateWindow_ok.
  - erewrite mbind_read; [done|]. by apply aggregateWindow_ok.
Qed.

Lemma windowFor_ok c cf now d w tr :
  windowFor accounts c cf now d = (Ok w, tr) →
  readable d (c_Network c) (signer_accounts c) ∧ w = window_value d c cf now ∧ tr = [].
Proof.
  unfold windowFor, window_value. destruct (superseded c cf) as [e|]; intros H; minv.
  - apply aggregateWindow_ok in H0 as (Hr & -> & ->). done.
  - apply aggregateWindow_ok in H0 as (Hr & -> & ->). done.
Qed.

Lemma windowFor_fail c cf now d e tr :
  windowFor accounts c cf now d = (Err e, tr) → tr = [].
Proof.
  unfold windowFor. destruct (superseded c cf) as [x|]; unfold mbind, aggregateWindow;
    destruct (sum_accounts _ _ _ _ _ _) as [[s|e'] tr'] eqn:E; intros [= <- <-];
    by apply sum_accounts_fail in E as [_ ->].
Qed.

Lemma reads_windowFor c cf now : reads_only (windowFor accounts c cf now).
Proof.
  intros d. destruct (windowFor accounts c cf now d) as [[w|e] tr] eqn:E.
  - by apply windowFor_ok in E as (_ & _ & ->).
  - by apply windowFor_fail in E as ->.
Qed.

(** ** The debit *)

Lemma superseded_some c cf e :
  superseded c cf = Some e →
  ∃ n, c_AccountNonce c = Some n ∧ List.find (has_nonce n) (cf_Entries cf) = Some e.
Proof.
  unfold superseded, findEntryByNonce. destruct (c_IsRBFDelta c); [|done].
  destruct (c_AccountNonce c) as [n|]; [eauto|done].
Qed.

Definition new_entry (id : string) (c : Check) (now : Z) : counterEntry :=
  {| ce_ID := id; ce_TS := FormatNano now; ce_AccountNonce := c_AccountNonce c;
     ce_Kind := c_Kind c; ce_Asset := assetOf c;
     ce_Candidates := [reserved_cand (spendWei c) (PolicyTypes.maxGasWei c)] |}.

Lemma contribution_new id c now :
  printable now → 0 ≤ spendWei c → 0 ≤ PolicyTypes.maxGasWei c →
  contribution now (new_entry id c now) = thisDebit c.
Proof.
  intros Hp Hs Hg. rewrite contribution_alt. unfold new_entry at 1. cbn [ce_TS].
  rewrite parseTS_FormatNano by done. unfold aged_out.
  replace (now <? now - day_ns) with false
    by (symmetry; apply Z.ltb_ge; unfold day_ns, day_secs, second; lia).
  rewrite andb_false_r. by apply envelope_single.
Qed.

Lemma sumWindow_debit_entry cf id c now t :
  superseded c cf = None →
  sumWindow (debitCounter cf id c now) t = sumWindow cf t + contribution t (new_entry id c now).
Proof.
  intros Hs. unfold debitCounter. rewrite Hs.
  rewrite sumWindow_sort, !sumWindow_zsum. cbn [cf_Entries set_entries].
  rewrite map_app, zsum_app. cbn [map]. fold (new_entry id c now). unfold zsum at 2. simpl. lia.
Qed.

Lemma sumWindow_debit_new cf id c now :
  superseded c cf = None → printable now → 0 ≤ spendWei c → 0 ≤ PolicyTypes.maxGasWei c →
  sumWindow (debitCounter cf id c now) now = sumWindow cf now + thisDebit c.
Proof. intros. rewrite sumWindow_debit_entry by done. by rewrite contribution_new. Qed.

(** A fee bump replaces the envelope of the entry it supersedes. *)
Lemma sumWindow_debit_rbf cf id c now e :
  superseded c cf = Some e → 0 ≤ spendWei c → 0 ≤ PolicyTypes.maxGasWei c →
  NoDup (map ce_ID (cf_Entries cf)) →
  sumWindow (debitCounter cf id c now) now ≤
  sumWindowExcluding cf now (ce_ID e) + mergedEnvelope e c.
Proof.
  intros Hs H1 H2 Hnd. destruct (superseded_some _ _ _ Hs) as (n & Hn & Hf).
  unfold debitCounter. rewrite Hs, Hn. rewrite sumWindow_zsum, sumWindowExcluding_zsum.
  destruct (update_first_some _ (λ e0, set_candidates e0 (ce_Candidates e0 ++
    [reserved_cand (spendWei c) (PolicyTypes.maxGasWei c)])) _ _ Hf) as (l1 & l2 & Hl & -> & _).
  cbn [cf_Entries set_entries]. rewrite Hl in *. rewrite !map_app in *. cbn [map] in *.
  rewrite !zsum_app, !zsum_cons. unfold has_id at 2. rewrite bool_decide_true by done.
  apply NoDup_app in Hnd as (_ & Hd & Hnd). apply NoDup_cons in Hnd as [Hni _].
  rewrite (zsum_map_ext (λ e0, if has_id (ce_ID e) e0 then 0 else contribution now e0) (contribution now) l1),
    (zsum_map_ext (λ e0, if has_id (ce_ID e) e0 then 0 else contribution now e0) (contribution now) l2).
  - rewrite contribution_alt. pose proof (envelope_add_cand e (spendWei c) (PolicyTypes.maxGasWei c) H1 H2) as He.
    fold (mergedEnvelope e c) in He. unfold mergedEnvelope in *.
    pose proof (envelope_nonneg (set_candidates e (ce_Candidates e ++
      [reserved_cand (spendWei c) (PolicyTypes.maxGasWei c)]))). destruct (aged_out _ _); lia.
  - intros x Hx. unfold has_id. rewrite bool_decide_false; [done|]. intros Heq. apply Hni.
    rewrite <-Heq. by apply list_elem_of_fmap_2.
  - intros x Hx. unfold has_id. rewrite bool_decide_false; [done|]. intros Heq.
    apply (Hd (ce_ID e)); [|left]. rewrite <-Heq. by apply list_elem_of_fmap_2.
Qed.
End Facts.

(** Invert the engine's own reads and writes too. *)
Ltac einv :=
  repeat (minv; match goal with
  | H : loadCounter _ _ _ = (Ok _, _) |- _ => let E := fresh in apply loadCounter_ok in H as [H E]; use_eq E
  | H : load_log _ = (Ok _, _) |- _ => let E := fresh in apply load_log_ok in H as [H E]; use_eq E
  | H : write_log _ _ _ _ = (Ok _, _) |- _ => apply write_log_ok in H; use_eq H
  | H : writeCounter _ _ _ _ _ _ = (Ok _, _) |- _ => apply writeCounter_ok in H; use_eq H
  | H : windowFor _ _ _ _ _ = (Ok _, _) |- _ =>
      let Hr := fresh "Hr" in let E1 := fresh in let E2 := fresh in
      apply windowFor_ok in H as (Hr & E1 & E2); use_eq E1; use_eq E2
  | H : withLock _ _ _ = (Ok _, _) |- _ => unfold withLock in H
  | H : withNetworkLock _ _ _ = (Ok _, _) |- _ => unfold withNetworkLock in H
  end); minv.

#[export] Hint Resolve reads_loadCounter reads_load_log reads_windowFor : daxie.

(** Step through the reads before the disk [d'] of a trace was written. *)
Ltac tinv :=
  repeat match goal with
  | H : _ ∈ (mbind _ _ _).2 |- _ =>
      let x := fresh "x" in let Hx := fresh "Hx" in
      apply mbind_trace_read in H as (x & Hx & H); [|solve [eauto with daxie]]
  | H : _ ∈ (withLock _ _ _).2 |- _ => unfold withLock in H
  | H : _ ∈ (withNetworkLock _ _ _).2 |- _ => unfold withNetworkLock in H
  | H : _ ∈ (mret _ _).2 |- _ => by apply elem_of_nil in H
  | H : _ ∈ (mfail _ _).2 |- _ => by apply elem_of_nil in H
  end; einv.

#[export] Hint Resolve window_nonneg networkAccounts_nodup loadAll_wf : daxie.
