(* ===== verification/Samples.v ===== *)
(** * Sample data

    A small policy, a request, the reference instances, and keys, an anchor and
    a sealed file of the sample policy, on which the properties are
    evaluated. *)

From S2P Require Import Prelude GoStrings Decimal Rfc3339 Encodings Json PolicyTypes PolicyBody PolicyBodyProps Seal Domain PolicyFile Trace Evaluate Counter Reservation Engine PolicyAdmin PolicyAdminFacts.

(** ** Sample data

    A small policy, a request and the reference instances, on which the
    properties are evaluated. *)

Local Open Scope string_scope.
Local Open Scope Z_scope.

#[export] Existing Instance ascii_tables.
#[export] Existing Instance geth_ref.
#[export] Existing Instance reservation_codec.

Definition no_limits : Limits := mkLimits None None None None None None.

(** at most 100 wei a day and 60 wei a transaction *)
Definition sample_limits : Limits := mkLimits (Some "60") (Some "100") None None None None.

Definition sample_policy : Policy := {|
  p_Version := 1; p_Nonce := 7; p_UpdatedAt := ""; p_WrittenBy := ""; p_Messages := "allow";
  p_TokensNoAllowlistOK := false; p_Rules := mkRules sample_limits []; p_Tokens := [];
  p_Allowlist := []; p_Denylist := []; p_SelfAddresses := []; p_TypedData := mkTypedDataCfg "deny" [];
  p_ContractsAllowed := [] |}.

(** a transfer of [v] wei with worst-case gas [g] from account 1 to account 2 *)
Definition sample_check (v g : Z) (rbf : bool) (nonce : Z) : Check := {|
  c_Account := 1; c_Dest := 2; c_SpendWei := Some v; c_MaxGasWei := Some g; c_MaxFeePerGas := None;
  c_Kind := "transfer"; c_Token := ""; c_IsRBFDelta := rbf; c_Acked := false; c_Network := "main";
  c_KindEnum := KindTransfer; c_ToSrc := SourceRawAddress; c_ToInput := ""; c_ENSName := "";
  c_ENSResolved := 0; c_Asset := ""; c_TokenAmt := None; c_Unlimited := false;
  c_AccountNonce := Some nonce; c_TypedUnknown := false; c_TypedPrimary := ""; c_TypedVerifying := "";
  c_TypedChainID := 0; c_UnknownCalldata := false; c_ContractAddr := 0; c_Selector := "" |}.

Definition empty_disk : Disk := mkDisk None ∅.

(** a first spend of 40 wei with 10 of gas, reserved at 0 *)
Definition spent_reservation : Reservation := newReservation "r1" (sample_check 40 10 false 0) 0.

Definition spent_counter : counterFile := {|
  cf_Version := 1; cf_PolicyNonce := 7; cf_Network := "main"; cf_From := hex40 1;
  cf_Entries := [{| ce_ID := "r1"; ce_TS := "1970-01-01T00:00:00Z"; ce_AccountNonce := Some 0;
                    ce_Kind := "transfer"; ce_Asset := "eth"; ce_Candidates := [reserved_cand 40 10] |}] |}.

(** the disk it leaves (with an empty log, which no property of the window reads) *)
Definition spent_disk : Disk := mkDisk None {[("main", hex40 1) := Document spent_counter]}.

Lemma read_spent : read_counter spent_disk "main" 1 = Ok spent_counter.
Proof. vm_compute. reflexivity. Qed.

Lemma readable_spent a : a ∈ [1] → is_ok (read_counter spent_disk "main" a) = true.
Proof. intros ->%list_elem_of_singleton. by rewrite read_spent. Qed.

(** ** Sample keys, anchors and sealed files

    A reference instance of the seal's primitives, in which a signature is the
    public key followed by the reversed message cut to 32 bytes, and a sealed
    file of the sample policy, on which the properties of the administration
    are evaluated. *)

Local Open Scope string_scope.
Local Open Scope Z_scope.

#[export] Existing Instance stable_slice.

(** exactly [n] bytes: cut, or padded with zeros *)
Fixpoint fit (n : nat) (s : string) : string :=
  match n with
  | O => ""
  | S n => match s with "" => String (Zbyte 0) (fit n "") | String c s => String c (fit n s) end
  end.

Lemma fit_length n s : String.length (fit n s) = n.
Proof. revert s. induction n as [|n IH]; intros s; [done|]. destruct s as [|c s]; simpl; by rewrite IH. Qed.

Definition ref_sign (sk m : string) : string := fit 32 sk +:+ fit 32 (srev m).

#[export] Instance ref_crypto : SealCrypto := {|
  scrypt_Key := λ pass salt _ _ _ _, Some (pass +:+ salt);
  hkdf_read := λ secret _, Some (fit 32 secret);
  NewKeyFromSeed := λ seed, seed;
  Public := fit 32;
  ed25519_Sign := ref_sign;
  ed25519_Verify := λ pk m sig, bool_decide (sig = pk +:+ fit 32 (srev m));
  Public_size := λ sk, fit_length 32 sk;
  Sign_size := λ sk m, eq_trans (string_length_app _ _)
                         (f_equal2 Nat.add (fit_length 32 sk) (fit_length 32 (srev m)));
  Sign_verifies := λ sk m, bool_decide_eq_true_2 _ eq_refl;
|}.

Definition sample_salt : string := fit 32 "salt of the anchor".
Definition sample_pass : string := "correct horse".
Definition next_pass : string := "battery staple".

(** the private key of a passphrase *)
Definition sample_sk (pass salt : string) : string := fit 32 (pass +:+ salt).

Definition sample_anchor : Anchor :=
  mkAnchor (EncodeKey (Public (sample_sk sample_pass sample_salt))) "" (EncodeSalt sample_salt) DefaultScryptParams 5 "".

Definition sample_keys (pass salt : string) : string * string := (sample_sk pass salt, Public (sample_sk pass salt)).

Lemma sample_authenticates : authenticate (Some sample_anchor) (Some sample_pass) = Ok (sample_keys sample_pass sample_salt).
Proof. by vm_compute. Qed.

Lemma sample_pins : pins sample_anchor (sample_sk sample_pass sample_salt).
Proof. left. by vm_compute. Qed.

Lemma sample_proper : proper sample_policy.
Proof.
  split; [|by split_and!|by vm_compute|done]. unfold utf8_policy.
  repeat (apply Forall_cons; split; [by vm_compute|]). by apply Forall_nil.
Qed.

Definition sample_file : string := sealed_file sample_policy (sample_sk sample_pass sample_salt).

Lemma sample_canonical : canonical sample_policy = sample_policy.
Proof. by vm_compute. Qed.

Lemma sample_loads : loadActivePolicy (Some sample_file) (Some sample_anchor) = Ok (Some sample_policy).
Proof.
  unfold sample_file.
  rewrite load_active_file by (apply sample_proper || apply sample_pins || done). by rewrite sample_canonical.
Qed.

(** what loading it gives in full *)
Lemma sample_result : ∃ r, loadPolicy (Some sample_file) (Some sample_anchor) = Ok r ∧ lr_policy r = sample_policy.
Proof.
  pose proof sample_loads as H. unfold loadActivePolicy in H.
  destruct (loadPolicy _ _) as [r|e] eqn:E; [|done]. exists r. split; [done|].
  destruct (load_present _ _ _ E) as [Hp _]. rewrite Hp in H. by injection H.
Qed.
