(* ===== verification/EngineProps.v ===== *)
(** * What a verdict and a reservation guarantee

    The pipeline decides the declarative policy, and a denial is explained in
    full; the daily limit holds after every reservation the engine grants, a
    denial writes nothing, and the log record is durable before the counter
    moves; the retry hint of a daily-limit denial is sound. *)

From S2P Require Import Prelude GoStrings Decimal Rfc3339 Encodings PolicyTypes Domain Trace Evaluate Counter Reservation Engine EngineFacts Samples.

(** ** What a verdict and a reservation guarantee

    The pipeline decides the declarative policy, and a denial is explained in
    full; the daily limit holds after every reservation the engine grants, a
    denial writes nothing, and the log record is durable before the counter
    moves. *)

(** ** What the verdict guarantees

    The pipeline decides the declarative policy, a denial is explained in full
    and by its most severe cause, and lower amounts are never judged harder. *)

Local Open Scope string_scope.
Local Open Scope Z_scope.
Local Open Scope list_scope.

Section Properties.
Context {UT : UnicodeTables} {GC : GethCommon}.
Implicit Types (p : Policy) (req : Check).

(** typed data of an unrecognised kind: an allow entry for the chain, contract
    and primary type, or the policy says to allow unknown messages *)
Definition typed_permitted p req : Prop :=
  HasPrefix (c_Asset req) "chain_mismatch" = false ∧
  ((∃ a, a ∈ td_Allowed (p_TypedData p) ∧ ta_ChainID a = c_TypedChainID req ∧
         EqualFold (ta_VerifyingContract a) (c_TypedVerifying req) = true ∧
         ta_PrimaryType a = c_TypedPrimary req) ∨
   EqualFold (TrimSpace (typedUnknown (resolveLimits p (c_Network req)))) "allow" = true).

Lemma typedAllowMatch_true allowed req :
  typedAllowMatch allowed req = true ↔
  ∃ a, a ∈ allowed ∧ ta_ChainID a = c_TypedChainID req ∧
       EqualFold (ta_VerifyingContract a) (c_TypedVerifying req) = true ∧
       ta_PrimaryType a = c_TypedPrimary req.
Proof.
  unfold typedAllowMatch. rewrite existsb_true. setoid_rewrite andb_true_iff.
  setoid_rewrite andb_true_iff. setoid_rewrite Z.eqb_eq. setoid_rewrite bool_decide_eq_true.
  naive_solver.
Qed.

(** the decision of the pipeline, by the two kinds of requests *)
Lemma Evaluate_decides p req spent now :
  d_Allowed (Evaluate p req spent now) = true ↔
  (if c_TypedUnknown req then typed_permitted p req else admissible p req (default 0 spent)).
Proof.
  destruct (c_TypedUnknown req) eqn:HT; [|by apply Evaluate_admissible].
  unfold Evaluate. rewrite HT. unfold typed_permitted. rewrite <-typedAllowMatch_true.
  pose proof (stageTypedData_none p (resolveLimits p (c_Network req)) req) as H.
  destruct (stageTypedData _ _ _); simpl; split; intros H'; try done.
  - exfalso. assert (Some v = None) as [=]. apply H. destruct H' as [H1 H2]. split; [done|]. by intros _.
  - apply H; done.
Qed.

(** C12: the pipeline decides the policy.  A request is allowed exactly when it is
    admissible for the amount spent (no denylist match, a trusted destination
    when the allowlist is on, fail-closed tokens, no drifted pin, no unknown
    calldata, every limit kept, unlimited approvals only acknowledged and not
    hard-denied); an unrecognised typed-data message exactly when it is
    permitted as such. *)
Theorem evaluate_decides_policy p req spent now :
  d_Allowed (Evaluate p req spent now) = true ↔
  (if c_TypedUnknown req then typed_permitted p req else admissible p req (default 0 spent)).
Proof. apply Evaluate_decides. Qed.

(** A denial is explained.  A refused request reports every violation the
    stages found, in order; its code and reason are those of one of them, none
    of which has a higher precedence, and the code is one of the closed list. *)
Theorem denial_is_explained p req spent now :
  c_TypedUnknown req = false → d_Allowed (Evaluate p req spent now) = false →
  let d := Evaluate p req spent now in
  d_Violations d = violations p req spent now ∧
  (∃ w, w ∈ violations p req spent now ∧ d_Code d = v_Code w ∧ d_Reason d = v_Reason w ∧
        ∀ u, u ∈ violations p req spent now → rank (v_Code w) ≤ rank (v_Code u)) ∧
  d_Code d ∈ denial_codes.
Proof.
  intros HT Hd. cbv zeta. pose proof (Evaluate_denied_code p req spent now Hd) as Hc. revert Hd Hc.
  unfold Evaluate. rewrite HT. destruct (violations p req spent now) as [|v vs] eqn:E; [done|].
  intros _ Hc. split; [done|]. split; [|done]. destruct (winner_spec v vs) as [Hw Hmin].
  by exists (winner v vs).
Qed.

(** the same request with other amounts *)
Definition with_amounts req (v g : Z) : Check :=
  {| c_Account := c_Account req; c_Dest := c_Dest req; c_SpendWei := Some v; c_MaxGasWei := Some g;
     c_MaxFeePerGas := c_MaxFeePerGas req; c_Kind := c_Kind req; c_Token := c_Token req;
     c_IsRBFDelta := c_IsRBFDelta req; c_Acked := c_Acked req; c_Network := c_Network req;
     c_KindEnum := c_KindEnum req; c_ToSrc := c_ToSrc req; c_ToInput := c_ToInput req;
     c_ENSName := c_ENSName req; c_ENSResolved := c_ENSResolved req; c_Asset := c_Asset req;
     c_TokenAmt := c_TokenAmt req; c_Unlimited := c_Unlimited req; c_AccountNonce := c_AccountNonce req;
     c_TypedUnknown := c_TypedUnknown req; c_TypedPrimary := c_TypedPrimary req;
     c_TypedVerifying := c_TypedVerifying req; c_TypedChainID := c_TypedChainID req;
     c_UnknownCalldata := c_UnknownCalldata req; c_ContractAddr := c_ContractAddr req;
     c_Selector := c_Selector req |}.

(** Asking for less is never harder.  If a request is allowed, so is the same
    request with an amount and a worst-case gas that add up to no more, judged
    against a window that holds no more. *)
Theorem smaller_request_allowed p req s s' v g now now' :
  d_Allowed (Evaluate p req (Some s) now) = true →
  s' ≤ s → v + g ≤ thisDebit req →
  d_Allowed (Evaluate p (with_amounts req v g) (Some s') now') = true.
Proof.
  intros Ha Hs Hv. destruct (c_TypedUnknown req) eqn:HT.
  - revert Ha. unfold Evaluate. simpl c_TypedUnknown. rewrite HT.
    change (stageTypedData p (resolveLimits p (c_Network (with_amounts req v g))) (with_amounts req v g))
      with (stageTypedData p (resolveLimits p (c_Network req)) req).
    by destruct (stageTypedData _ _ _).
  - apply Evaluate_admissible in Ha; [|done]. apply Evaluate_admissible; [done|].
    assert (Hd : thisDebit (with_amounts req v g) = v + g) by done.
    destruct Ha. split; try assumption.
    + intros Hk l Hl. rewrite Hd. specialize (ad_per_tx Hk l Hl). lia.
    + intros Hk l Hl. rewrite Hd. specialize (ad_daily Hk l Hl). simpl in *. lia.
Qed.
End Properties.

(** ** Witnesses *)

Lemma denial_is_explained_witness :
  let d := Evaluate sample_policy (sample_check 70 40 false 0) (Some 0) 0 in
  d_Violations d = violations sample_policy (sample_check 70 40 false 0) (Some 0) 0 ∧
  (∃ w, w ∈ violations sample_policy (sample_check 70 40 false 0) (Some 0) 0 ∧ d_Code d = v_Code w ∧
        d_Reason d = v_Reason w ∧
        ∀ u, u ∈ violations sample_policy (sample_check 70 40 false 0) (Some 0) 0 →
             rank (v_Code w) ≤ rank (v_Code u)) ∧
  d_Code d ∈ denial_codes.
Proof.
  apply (denial_is_explained sample_policy (sample_check 70 40 false 0) (Some 0) 0).
  - reflexivity.
  - vm_compute. reflexivity.
Defined.

Lemma smaller_request_allowed_witness :
  d_Allowed (Evaluate sample_policy (with_amounts (sample_check 40 10 false 0) 30 10) (Some 40) 5) = true.
Proof.
  apply (smaller_request_allowed sample_policy (sample_check 40 10 false 0) 50 40 30 10 0 5).
  - vm_compute. reflexivity.
  - lia.
  - vm_compute. discriminate.
Defined.

(** ** What a reservation guarantees

    The properties of [Engine.Reserve]: the daily limit holds after every
    reservation the engine grants, a denial writes nothing, the log record is
    durable before the counter moves, and the outcome of every branch. *)

Local Open Scope string_scope.
Local Open Scope Z_scope.
Local Open Scope list_scope.

Section Reserve.
Context {UT : UnicodeTables} {GC : GethCommon} {RC : LineCodec Reservation}.
Variable accounts : option (string → list Address).

(** the record and the counter a granted reservation stores *)
Definition reserve_log (d : Disk) (st : logState) (id : string) (c : Check) (now0 : Z) : Disk :=
  upd_log d (appendAndCompact st (newReservation id c now0)).

Definition debited (pol : Policy) (cf : counterFile) (id : string) (c : Check) (now : Z) : counterFile :=
  stored (set_policy_nonce (debitCounter cf id c now) (p_Nonce pol)) now.

Definition reserve_both (d : Disk) (st : logState) (pol : Policy) (cf : counterFile) (id : string)
           (c : Check) (now0 now : Z) : Disk :=
  upd_counter (reserve_log d st id c now0) (c_Network c) (c_Account c) (debited pol cf id c now).

(** the verdict under the lock *)
Definition verdict (d : Disk) (pol : Policy) (cf : counterFile) (c : Check) (now : Z) : Decision :=
  Evaluate pol c (Some (window_value accounts d c cf now).1) now.

Lemma writeReservation_run io r d st :
  io_log_lock io = None → loadAll (dk_log d) = Ok st →
  writeReservation io r d =
  match io_log_write io with
  | None => (Ok tt, [upd_log d (appendAndCompact st r)])
  | Some e => (Err e, [])
  end.
Proof.
  intros Hl Hst. unfold writeReservation, withLock. rewrite Hl.
  rewrite (mbind_read _ _ _ tt) by done. rewrite (mbind_read _ _ _ st) by (by rewrite load_log_run, Hst).
  apply write_log_run.
Qed.

Lemma writeReservation_trace io r d d' :
  d' ∈ (writeReservation io r d).2 →
  ∃ st, loadAll (dk_log d) = Ok st ∧ d' = upd_log d (appendAndCompact st r).
Proof.
  unfold writeReservation. intros H. tinv. rewrite write_log_run in H.
  destruct (io_log_write io); [by apply elem_of_nil in H|].
  apply list_elem_of_singleton in H as ->. eauto.
Qed.

(** With no I/O fault, under a policy. *)
Lemma Reserve_run pol id c now0 now d cf st :
  read_counter d (c_Network c) (c_Account c) = Ok cf →
  readable d (c_Network c) (signer_accounts accounts c) →
  loadAll (dk_log d) = Ok st →
  Reserve io_ok accounts (Ok (Some pol)) id c now0 now d =
  let dec := verdict d pol cf c now in
  if negb (d_Allowed dec)
  then (Err (deniedError (refineRetryAfter accounts d dec c now (window_value accounts d c cf now).2)), [])
  else if bool_decide (effectiveKind c = KindPermit) then (Ok None, [])
  else (Ok (Some (newReservation id c now0)),
        [reserve_log d st id c now0; reserve_both d st pol cf id c now0 now]).
Proof.
  intros Hcf Hr Hst. unfold Reserve. rewrite (mbind_read _ _ _ (Some pol)) by done.
  unfold withNetworkLock. rewrite (mbind_read _ _ _ tt) by done.
  rewrite (mbind_read _ _ _ cf) by (by rewrite loadCounter_run, Hcf).
  rewrite (mbind_read _ _ _ _ (windowFor_run _ _ _ _ _ Hr)). cbv zeta. fold (verdict d pol cf c now).
  destruct (negb _); [by rewrite (mbind_read _ _ _ d)|]. case_bool_decide; [done|].
  rewrite (mbind_run _ _ _ _ _ (writeReservation_run io_ok _ _ st eq_refl Hst)).
  fold (reserve_log d st id c now0). cbn [after List.last].
  erewrite (mbind_run _ _ _ tt); [|by rewrite writeCounter_run]. done.
Qed.

(** Whatever the I/O did, a granted reservation went through every step. *)
Lemma Reserve_ok io pol id c now0 now d r tr :
  Reserve io accounts (Ok (Some pol)) id c now0 now d = (Ok (Some r), tr) →
  ∃ cf st, read_counter d (c_Network c) (c_Account c) = Ok cf ∧
    readable d (c_Network c) (signer_accounts accounts c) ∧
    loadAll (dk_log d) = Ok st ∧
    d_Allowed (verdict d pol cf c now) = true ∧ effectiveKind c ≠ KindPermit ∧
    r = newReservation id c now0 ∧
    tr = [reserve_log d st id c now0; reserve_both d st pol cf id c now0 now].
Proof.
  unfold Reserve. intros H. einv. rename a0 into cf.
  fold (verdict d pol cf c now) in *.
  destruct (d_Allowed (verdict d pol cf c now)) eqn:Hv; simpl in *; [|by einv].
  case_bool_decide as Hk; [by einv|]. unfold writeReservation in *. einv.
  simplify_eq. eexists cf, _. split_and!; done.
Qed.

(** ** Denials *)

Lemma refine_code d dec c now rbf : d_Code (refineRetryAfter accounts d dec c now rbf) = d_Code dec.
Proof. 
  unfold refineRetryAfter. destruct (_ || _); [done|]. cbv zeta. destruct (SetString _ _); [|done].
  destruct (collect_window _ _ _ _ _); [|done]. by destruct (retry_walk _ _ _ _).
Qed.

Lemma denial_codes_exit code : code ∈ denial_codes → code ≠ "" ∧ ExitOf code = ExitPolicyDenied.
Proof.
  unfold denial_codes. rewrite !elem_of_cons, elem_of_nil.
  intros H. destruct_or! H; subst; (split; [discriminate|by vm_compute]).
Qed.

Lemma deniedError_code d dec c now rbf :
  d_Code dec ∈ denial_codes →
  let e := deniedError (refineRetryAfter accounts d dec c now rbf) in
  e_Code e ∈ denial_codes ∧ e_Exit e = ExitPolicyDenied.
Proof.
  intros H. cbv zeta. unfold deniedError. rewrite refine_code.
  destruct (denial_codes_exit _ H) as [Hne He].
  rewrite (bool_decide_false (d_Code dec = "")) by done.
  generalize dependent (d_Code dec). intros code H Hne He.
  destruct (d_Data _); destruct (_ || _); simpl; done.
Qed.

(** ** The aggregate after a write *)

Lemma window_upd d n a cf now :
  window (upd_counter d n a cf) n now a = sumWindow cf now.
Proof.
  unfold window. destruct (read_counter_upd_eq d n a cf) as (cf' & -> & He).
  by rewrite !sumWindow_zsum, He.
Qed.

Lemma window_upd_ne d n a b cf now :
  valid_addr a → valid_addr b → b ≠ a → window (upd_counter d n a cf) n now b = window d n now b.
Proof.
  intros Ha Hb Hne. unfold window. rewrite read_counter_upd_ne; [done|].
  intros H. apply Hne. by eapply counterPath_inj.
Qed.

Lemma aggregate_upd d n a cf now accts :
  NoDup accts → a ∈ accts → Forall valid_addr accts →
  zsum (map (window (upd_counter d n a cf) n now) accts) =
  zsum (map (window d n now) accts) - window d n now a + sumWindow cf now.
Proof.
  intros Hnd Ha Hv. rewrite Forall_forall in Hv.
  rewrite (zsum_map_change (window d n now) _ accts a); [|done|done|].
  - by rewrite window_upd.
  - intros b Hb Hne. apply window_upd_ne; auto.
Qed.

Lemma readable_upd d n a cf accts : readable d n accts → readable (upd_counter d n a cf) n accts.
Proof.
  intros H b Hb. destruct (decide (counterPath n b = counterPath n a)) as [He|Hne].
  - unfold read_counter. rewrite He. unfold upd_counter. simpl. by rewrite lookup_insert_eq.
  - rewrite read_counter_upd_ne by done. by apply H.
Qed.

Definition valid_accounts (c : Check) : Prop :=
  c_Account c ≠ 0 ∧ Forall valid_addr (c_Account c :: hooked accounts (c_Network c)).

Lemma valid_accounts_in c : valid_accounts c →
  c_Account c ∈ signer_accounts accounts c ∧ Forall valid_addr (signer_accounts accounts c).
Proof.
  intros [Hne Hv]. split; [apply networkAccounts_in; auto|].
  apply Forall_cons in Hv as [Ha Hv]. rewrite Forall_forall in Hv. apply Forall_forall.
  intros b Hb. apply networkAccounts_in in Hb as (_ & [Hb| ->]); [by apply Hv|done].
Qed.

(** After the debit the aggregate is at most what the verdict was taken on. *)
Lemma aggregate_debited d pol cf id c now :
  read_counter d (c_Network c) (c_Account c) = Ok cf →
  valid_accounts c → printable now → 0 ≤ spendWei c → 0 ≤ PolicyTypes.maxGasWei c →
  NoDup (map ce_ID (cf_Entries cf)) →
  zsum (map (window (upd_counter d (c_Network c) (c_Account c) (debited pol cf id c now)) (c_Network c) now)
            (signer_accounts accounts c))
  ≤ (window_value accounts d c cf now).1 + thisDebit c.
Proof.
  intros Hcf Hva Hp Hs Hg Hnd. destruct (valid_accounts_in c Hva) as [Hin Hv].
  assert (Hnda : NoDup (signer_accounts accounts c)) by apply networkAccounts_nodup.
  rewrite aggregate_upd by done.
  unfold debited. rewrite sumWindow_stored by done.
  replace (sumWindow (set_policy_nonce (debitCounter cf id c now) (p_Nonce pol)) now)
    with (sumWindow (debitCounter cf id c now) now) by (by rewrite !sumWindow_zsum).
  assert (Hw : window d (c_Network c) now (c_Account c) = sumWindow cf now)
    by (unfold window; by rewrite Hcf).
  unfold window_value. destruct (superseded c cf) as [e|] eqn:Hsup; cbn [fst].
  - pose proof (sumWindow_debit_rbf cf id c now e Hsup Hs Hg Hnd) as Hle.
    rewrite (zsum_map_change (window d (c_Network c) now)
      (part d (c_Network c) now (Some (c_Account c, ce_ID e))) _ (c_Account c)) by
      (done || (intros b Hb Hne; unfold part, window; destruct (read_counter _ _ _); [|done];
                apply Z.eqb_neq in Hne; rewrite Hne; by rewrite andb_false_r)).
    unfold part at 1. rewrite Hcf, Z.eqb_refl, andb_true_r.
    assert (sumWindowExcluding cf now (ce_ID e) ≤ sumWindow cf now).
    { rewrite sumWindowExcluding_zsum, sumWindow_zsum. apply zsum_map_le. intros x _.
      pose proof (contribution_nonneg now x). destruct (has_id _ x); lia. }
    destruct (negb _); lia.
  - rewrite sumWindow_debit_new by done. lia.
Qed.
(** ** What every reservation leaves on disk *)

Lemma Reserve_writes io active id c now0 now d d' :
  d' ∈ (Reserve io accounts active id c now0 now d).2 →
  ∃ st, loadAll (dk_log d) = Ok st ∧
    (d' = reserve_log d st id c now0 ∨
     ∃ pol cf, active = Ok (Some pol) ∧ read_counter d (c_Network c) (c_Account c) = Ok cf ∧
               d_Allowed (verdict d pol cf c now) = true ∧ effectiveKind c ≠ KindPermit ∧
               d' = reserve_both d st pol cf id c now0 now).
Proof.
  unfold Reserve. intros H. tinv. destruct x as [pol|].
  - tinv. fold (verdict d pol x0 c now) in *.
    destruct (d_Allowed (verdict d pol x0 c now)) eqn:Hv; cbn [negb] in H; [|by tinv].
    case_bool_decide; [by tinv|].
    apply mbind_trace in H as [H|(u & tr & Hw & H)].
    { apply writeReservation_trace in H as (st & Hst & ->). eauto. }
    unfold writeReservation in Hw. einv.
    apply mbind_trace in H as [H|(y & tr & _ & H)]; [|by tinv].
    rewrite writeCounter_run in H. destruct (io_counter_write io); [by apply elem_of_nil in H|].
    apply list_elem_of_singleton in H as ->. eexists. split; [done|]. right. by eexists _, _.
  - apply mbind_trace in H as [H|(u & tr & _ & H)]; [|by tinv].
    apply writeReservation_trace in H as (st & Hst & ->). eauto.
Qed.

Lemma Reserve_trace io active id c now0 now d d' :
  d' ∈ (Reserve io accounts active id c now0 now d).2 →
  ∃ st, loadAll (dk_log d) = Ok st ∧
        dk_log d' = Some (appendAndCompact st (newReservation id c now0)).
Proof.
  intros (st & Hst & [->|(pol & cf & _ & _ & _ & _ & ->)])%Reserve_writes; eauto.
Qed.
End Reserve.

(** ** The properties *)

Section Properties.
Context {UT : UnicodeTables} {GC : GethCommon} {RC : LineCodec Reservation}.
Variable accounts : option (string → list Address).

(** C1: the daily limit holds.  When Reserve grants a spend under a policy whose
    rolling-24h limit for the network is [L], then on the disk it leaves, the
    window summed over every account of the network (the code's own aggregate)
    is at most [L], for ordinary sends and for fee bumps alike, whatever I/O
    faults the run met. *)
Theorem reserve_keeps_day_limit io pol id c now0 now d r tr L :
  Reserve io accounts (Ok (Some pol)) id c now0 now d = (Ok (Some r), tr) →
  maxDay (resolveLimits pol (c_Network c)) = Some L →
  c_TypedUnknown c = false → printable now →
  0 ≤ spendWei c → 0 ≤ PolicyTypes.maxGasWei c → valid_accounts accounts c →
  (∀ cf, read_counter d (c_Network c) (c_Account c) = Ok cf → NoDup (map ce_ID (cf_Entries cf))) →
  ∃ total, aggregateWindow accounts (c_Network c) (c_Account c) now None (after d tr) = (Ok total, []) ∧
           total ≤ L.
Proof.
  intros H HL HT Hp Hs Hg Hva Hnd.
  apply Reserve_ok in H as (cf & st & Hcf & Hr & Hst & Hall & Hk & -> & ->).
  eexists. split.
  - apply aggregateWindow_ok. split_and!; [|done|done]. by apply readable_upd.
  - apply Evaluate_admissible in Hall; [|done].
    pose proof (ad_daily _ _ _ Hall Hk L HL) as Hle. simpl default in Hle.
    etrans; [|exact Hle]. exact (aggregate_debited accounts d pol cf id c now Hcf Hva Hp Hs Hg (Hnd cf Hcf)).
Qed.

(** A denial writes nothing and exits 3.  When the verdict under the lock is
    a denial, Reserve fails with a code of the closed denial list, whose exit
    code is POLICY_DENIED, and performs no write at all. *)
Theorem reserve_denied_writes_nothing pol id c now0 now d cf st :
  read_counter d (c_Network c) (c_Account c) = Ok cf →
  readable d (c_Network c) (signer_accounts accounts c) →
  loadAll (dk_log d) = Ok st →
  d_Allowed (verdict accounts d pol cf c now) = false →
  ∃ e, Reserve io_ok accounts (Ok (Some pol)) id c now0 now d = (Err e, []) ∧
       e_Code e ∈ denial_codes ∧ e_Exit e = ExitPolicyDenied.
Proof.
  intros Hcf Hr Hst Hall. rewrite (Reserve_run _ _ _ _ _ _ _ cf st) by done. cbv zeta.
  rewrite Hall. simpl negb. cbv iota. eexists. split; [done|].
  apply deniedError_code. by apply Evaluate_denied_code.
Qed.

(** The reservation is durable before anything is counted.  At every point
    at which Reserve can crash after its first write, and also when it fails
    half way, the log on disk already holds the record in state reserved, so a
    counted debit always has a reservation that reconciliation can find. *)
Theorem reserve_record_before_debit io active id c now0 now d d' :
  d' ∈ (Reserve io accounts active id c now0 now d).2 → id ≠ "" →
  ∃ st, loadAll (dk_log d') = Ok st ∧
        lg_byID st !! id = Some (newReservation id c now0) ∧
        r_State (newReservation id c now0) = stateReserved.
Proof.
  intros H Hid. apply Reserve_trace in H as (st & Hst & ->).
  destruct (loadAll_appendAndCompact st (newReservation id c now0)) as (st' & -> & _ & Hl);
    [by eapply loadAll_wf|done|].
  exists st'. split; [done|]. rewrite Hl. simpl. by rewrite bool_decide_true.
Qed.

(** The engine grants exactly what the policy admits.  With readable files,
    a spend is reserved if and only if the request is admissible for the amount
    already spent in the aggregate window; otherwise Reserve returns an error. *)
Theorem reserve_grants_admissible pol id c now0 now d cf st :
  read_counter d (c_Network c) (c_Account c) = Ok cf →
  readable d (c_Network c) (signer_accounts accounts c) →
  loadAll (dk_log d) = Ok st →
  c_TypedUnknown c = false → effectiveKind c ≠ KindPermit →
  ((Reserve io_ok accounts (Ok (Some pol)) id c now0 now d).1 = Ok (Some (newReservation id c now0)) ↔
   admissible pol c (window_value accounts d c cf now).1).
Proof.
  intros Hcf Hr Hst HT Hk. rewrite (Reserve_run _ _ _ _ _ _ _ cf st) by done. cbv zeta.
  rewrite (bool_decide_false _ Hk).
  pose proof (Evaluate_admissible pol c (Some (window_value accounts d c cf now).1) now HT) as E.
  simpl default in E. rewrite <-E.
  fold (verdict accounts d pol cf c now). by destruct (d_Allowed _).
Qed.
End Properties.

(** ** Witnesses *)

Lemma reserve_keeps_day_limit_witness :
  let c := sample_check 20 5 false 1 in
  let out := Reserve io_ok None (Ok (Some sample_policy)) "r2" c 0 0 spent_disk in
  ∃ total, aggregateWindow None "main" 1 0 None (after spent_disk out.2) = (Ok total, []) ∧ total ≤ 100.
Proof.
  cbv zeta.
  apply (reserve_keeps_day_limit None io_ok sample_policy "r2" (sample_check 20 5 false 1) 0 0 spent_disk
           (newReservation "r2" (sample_check 20 5 false 1) 0)).
  - rewrite (Reserve_run _ _ _ _ _ _ _ spent_counter log_empty)
      by (exact read_spent || exact readable_spent || reflexivity).
    assert (E : d_Allowed (verdict None spent_disk sample_policy spent_counter
                             (sample_check 20 5 false 1) 0) = true) by (vm_compute; reflexivity).
    cbv zeta. rewrite E. reflexivity.
  - reflexivity.
  - reflexivity.
  - vm_compute. split; discriminate || reflexivity.
  - vm_compute. discriminate.
  - vm_compute. discriminate.
  - split; [discriminate|]. repeat constructor; vm_compute; (discriminate || reflexivity).
  - intros cf H. cbn [c_Network c_Account sample_check] in H. rewrite read_spent in H.
    injection H as <-. apply NoDup_singleton.
Defined.

Lemma reserve_denied_writes_nothing_witness :
  ∃ e, Reserve io_ok None (Ok (Some sample_policy)) "r2" (sample_check 60 0 false 1) 0 0 spent_disk = (Err e, []) ∧
       e_Code e ∈ denial_codes ∧ e_Exit e = ExitPolicyDenied.
Proof.
  apply (reserve_denied_writes_nothing None sample_policy "r2" (sample_check 60 0 false 1) 0 0 spent_disk
           spent_counter log_empty).
  - exact read_spent.
  - exact readable_spent.
  - vm_compute. reflexivity.
  - vm_compute. reflexivity.
Defined.

Lemma reserve_record_before_debit_witness :
  let r := newReservation "r1" (sample_check 40 10 false 0) 0 in
  ∃ st, loadAll (dk_log (reserve_log empty_disk log_empty "r1" (sample_check 40 10 false 0) 0)) = Ok st ∧
        lg_byID st !! "r1" = Some r ∧ r_State r = stateReserved.
Proof.
  apply (reserve_record_before_debit None io_ok (Ok None) "r1" (sample_check 40 10 false 0) 0 0 empty_disk).
  - left.
  - discriminate.
Defined.

Lemma reserve_grants_admissible_witness :
  (Reserve io_ok None (Ok (Some sample_policy)) "r2" (sample_check 20 5 false 1) 0 0 spent_disk).1 =
    Ok (Some (newReservation "r2" (sample_check 20 5 false 1) 0)) ↔
  admissible sample_policy (sample_check 20 5 false 1)
    (window_value None spent_disk (sample_check 20 5 false 1) spent_counter 0).1.
Proof.
  apply (reserve_grants_admissible None sample_policy "r2" (sample_check 20 5 false 1) 0 0 spent_disk
           spent_counter log_empty).
  - exact read_spent.
  - exact readable_spent.
  - vm_compute. reflexivity.
  - reflexivity.
  - discriminate.
Defined.

(** ** A sample grant, for the witnesses of the runs *)

Definition one_account : option (string → list Address) := Some (λ _, [1]).
Definition first_check : Check := sample_check 40 10 false 0.
Definition empty_counter : counterFile := mkCounter 1 0 "main" (hex40 1) [].
Definition granted_disk : Disk :=
  reserve_both empty_disk log_empty sample_policy empty_counter "r1" first_check 0 0.

Lemma read_empty : read_counter empty_disk "main" 1 = Ok empty_counter.
Proof. vm_compute. reflexivity. Qed.

Lemma sample_grant :
  Reserve io_ok one_account (Ok (Some sample_policy)) "r1" first_check 0 0 empty_disk =
  (Ok (Some (newReservation "r1" first_check 0)),
   [reserve_log empty_disk log_empty "r1" first_check 0; granted_disk]).
Proof.
  rewrite (Reserve_run _ _ _ _ _ _ _ empty_counter log_empty).
  - assert (E : d_Allowed (verdict one_account empty_disk sample_policy empty_counter first_check 0) = true)
      by (vm_compute; reflexivity).
    cbv zeta. rewrite E. reflexivity.
  - exact read_empty.
  - intros a ->%list_elem_of_singleton. change (is_ok (read_counter empty_disk "main" 1) = true).
    by rewrite read_empty.
  - reflexivity.
Qed.

Lemma first_check_valid : valid_accounts one_account first_check.
Proof. split; [done|]. repeat constructor; vm_compute; (discriminate || reflexivity). Qed.

Lemma printable_0 : printable 0.
Proof. vm_compute. split; discriminate || reflexivity. Qed.

(** ** The retry hint of a daily-limit denial

    [refineRetryAfter] (policy.go) walks the entries of the aggregate window from
    the oldest on.  The hint is sound: once the named instant has passed, the
    same request fits, if nothing else is spent.  At the instant itself the
    entry still counts, because the window keeps its left end. *)

Local Open Scope string_scope.
Local Open Scope Z_scope.
Local Open Scope list_scope.

(** what the collected entries count for at a later time *)
Definition still_counted (t : Z) (e : Z * Z) : Z := if aged_out e.1 t then 0 else e.2.

(** The walk stops at an entry such that what is left after it fits. *)
Lemma retry_walk_some win rem debit limit ts :
  retry_walk win rem debit limit = Some ts → rem = zsum (map snd win) →
  ∃ pre w post, win = pre ++ (ts, w) :: post ∧ zsum (map snd post) + debit ≤ limit.
Proof.
  revert rem. induction win as [|[ts0 w0] win IH]; intros rem; [done|]. simpl. intros H ->.
  unfold zsum in H at 1 2. simpl in H. fold (zsum (map snd win)) in H.
  replace (w0 + zsum (map snd win) - w0) with (zsum (map snd win)) in H by lia.
  destruct (Z.leb_spec (zsum (map snd win) + debit) limit) as [Hle|Hle].
  - destruct (IsZero ts0); [done|]. injection H as <-. by exists [], w0, win.
  - destruct (IH _ H eq_refl) as (pre & w & post & -> & Hfit). by exists ((ts0, w0) :: pre), w, post.
Qed.

(** Once [ts] is out of the window, so is everything up to it. *)
Lemma sorted_walk_fits win ts w pre post t :
  StronglySorted (λ a b : Z * Z, a.1 ≤ b.1) win → win = pre ++ (ts, w) :: post →
  (∀ e, e ∈ win → IsZero e.1 = false ∧ 0 ≤ e.2) → ts + day_ns < t →
  zsum (map (still_counted t) win) ≤ zsum (map snd post).
Proof.
  intros Hs -> Hwf Ht.
  assert (Hout : ∀ e, e ∈ pre ++ [(ts, w)] → still_counted t e = 0).
  { intros e He. unfold still_counted, aged_out.
    assert (He' : e ∈ pre ++ (ts, w) :: post).
    { rewrite elem_of_app in He |- *. destruct He as [?|He%list_elem_of_singleton]; [by left|].
      right. subst. left. }
    destruct (Hwf e He') as [-> _]. simpl.
    assert (Hle : e.1 ≤ ts).
    { apply elem_of_app in He as [He|He%list_elem_of_singleton]; [|by subst].
      clear -Hs He. induction pre as [|x pre IH]; [by apply elem_of_nil in He|].
      apply StronglySorted_inv in Hs as [Hs Hx]. apply elem_of_cons in He as [->|He]; [|by apply IH].
      rewrite Forall_forall in Hx. apply (Hx (ts, w)). apply elem_of_app. right. left. }
    destruct (Z.ltb_spec e.1 (t - day_ns)); [done|lia]. }
  change (pre ++ (ts, w) :: post) with (pre ++ [(ts, w)] ++ post). rewrite app_assoc, map_app, zsum_app.
  rewrite (zsum_map_ext (still_counted t) (λ _, 0) (pre ++ [(ts, w)])) by done.
  assert (H0 : ∀ l : list (Z * Z), zsum (map (λ _, 0) l) = 0) by (induction l as [|x l IH]; [done|exact IH]).
  rewrite H0. apply zsum_map_le. intros e He. unfold still_counted.
  assert (He' : e ∈ pre ++ (ts, w) :: post) by (apply elem_of_app; right; by right).
  destruct (Hwf e He'). destruct (aged_out e.1 t); lia.
Qed.

Section Retry.
Context {UT : UnicodeTables} {GC : GethCommon} {RC : LineCodec Reservation}.
Variable accounts : option (string → list Address).

(** The collected entries carry the whole window, now and later. *)
Lemma window_entries_sum now t a cf :
  now ≤ t → zsum (map (still_counted t) (window_entries now None a cf)) = sumWindow cf t.
Proof.
  intros Hle. rewrite sumWindow_zsum. unfold window_entries.
  induction (cf_Entries cf) as [|e es IH]; [done|]. csimpl. rewrite zsum_cons, <-IH.
  unfold contribution. destruct (aged_out (parseTS (ce_TS e)) now) eqn:Ea.
  - by rewrite (aged_out_mono _ now t).
  - destruct (entryAllReleased e); [by rewrite orb_true_r|].
    cbn [map]. rewrite zsum_cons. unfold still_counted at 1. cbn [fst snd].
    by destruct (aged_out _ t).
Qed.

Lemma collect_window_sum d n now t accts win :
  now ≤ t → collect_window d n now None accts = Some win →
  zsum (map (still_counted t) win) = zsum (map (window d n t) accts).
Proof.
  intros Hle. revert win. induction accts as [|a accts IH]; intros win; simpl; [by intros [= <-]|].
  unfold window at 1. destruct (read_counter d n a) as [cf|]; [|done].
  destruct (collect_window d n now None accts) as [win'|]; [|done]. simpl. intros [= <-].
  rewrite map_app, zsum_app, window_entries_sum, (IH win') by done. done.
Qed.

(** every entry of the window has a readable timestamp *)
Definition dated (d : Disk) (c : Check) (now : Z) : Prop :=
  ∀ win, collect_window d (c_Network c) now None (signer_accounts accounts c) = Some win →
         ∀ e, e ∈ win → IsZero e.1 = false.

Lemma collect_window_nonneg d n now accts win e :
  collect_window d n now None accts = Some win → e ∈ win → 0 ≤ e.2.
Proof.
  revert win. induction accts as [|a accts IH]; intros win; simpl; [intros [= <-]; by intros ?%elem_of_nil|].
  destruct (read_counter d n a) as [cf|]; [|done].
  destruct (collect_window d n now None accts) as [win'|]; [|done]. simpl. intros [= <-].
  rewrite elem_of_app. intros [He|He]; [|by eapply IH]. unfold window_entries in He.
  apply list_elem_of_omap in He as (x & _ & Hx). destruct (aged_out _ _); [done|].
  destruct (entryAllReleased x); [done|]. injection Hx as <-. apply envelope_nonneg.
Qed.

(** The retry hint is sound.  When the hint of a daily-limit denial (of an
    ordinary send, over entries with readable timestamps) is refined, it names
    [ts + 24h] for an entry at [ts], and at every later instant the aggregate
    window, with nothing new spent, leaves room for the same request. *)
Theorem retry_after_sound d dec c now limit s :
  d_Allowed dec = false → d_Code dec = codeDayLimit →
  d_Data dec = Some s → s !! "limit" = Some (DVal (DStr (z_string limit))) → dated d c now →
  let dec' := refineRetryAfter accounts d dec c now None in
  dec' = dec ∨
  ∃ ts, d_RetryAfter dec' = Format (ts + day_ns) ∧
    ∀ t, ts + day_ns < t → now ≤ t →
      zsum (map (window d (c_Network c) t) (signer_accounts accounts c)) + thisDebit c ≤ limit.
Proof.
  intros Ha Hc Hs Hl Hd. cbv zeta. unfold refineRetryAfter. rewrite Ha, Hc, Hs, Hl.
  rewrite bool_decide_true by done. cbn [negb orb]. rewrite SetString_z_string.
  destruct (collect_window _ _ _ _ _) as [win|] eqn:Ew; [|by left].
  destruct (retry_walk _ _ _ _) as [ts|] eqn:Er; [right|by left]. exists ts. split; [done|].
  intros t Ht Hnow. pose proof (exchange_sort_perm (λ a b : Z * Z, a.1 <? b.1) win) as Hp.
  pose proof (exchange_sort_sorted fst win) as Hsort. cbv zeta in Hsort.
  set (sorted := exchange_sort (λ a b : Z * Z, a.1 <? b.1) win) in *.
  destruct (retry_walk_some _ _ _ _ _ Er) as (pre & w & post & Hsplit & Hfit); [by rewrite Hp|].
  unfold signer_accounts. rewrite <-(collect_window_sum d _ now t _ win Hnow Ew).
  assert (Hle : zsum (map (still_counted t) sorted) ≤ zsum (map snd post)).
  { eapply sorted_walk_fits; [exact Hsort|exact Hsplit| |exact Ht].
    intros e He. rewrite Hp in He. split; [by apply (Hd win Ew)|by eapply collect_window_nonneg]. }
  rewrite Hp in Hle. lia.
Qed.

(** The edges of the window.  An entry counts in full up to and including
    the instant 24 hours after its timestamp, which is the instant the retry
    hint names, and not at all from the next nanosecond on. *)
Theorem window_edges e :
  IsZero (parseTS (ce_TS e)) = false →
  (∀ t, t ≤ parseTS (ce_TS e) + day_ns → contribution t e = envelope e) ∧
  (∀ t, parseTS (ce_TS e) + day_ns < t → contribution t e = 0).
Proof.
  intros Hz. split; intros t Ht; rewrite contribution_alt; unfold aged_out; rewrite Hz; simpl.
  - destruct (Z.ltb_spec (parseTS (ce_TS e)) (t - day_ns)); [lia|done].
  - destruct (Z.ltb_spec (parseTS (ce_TS e)) (t - day_ns)); [done|lia].
Qed.
End Retry.

(** ** Witnesses *)

(** account 1 has spent 50; it asks for 60 more against the limit of 100 *)
Definition late_check : Check := sample_check 60 0 false 1.
Definition late_denial : Decision :=
  mkDecision false codeDayLimit "" [] "" (Some {["limit" := DVal (DStr "100")]}).

Lemma retry_after_sound_witness :
  let dec' := refineRetryAfter None spent_disk late_denial late_check 0 None in
  dec' = late_denial ∨
  ∃ ts, d_RetryAfter dec' = Format (ts + day_ns) ∧
    ∀ t, ts + day_ns < t → 0 ≤ t →
      zsum (map (window spent_disk "main" t) (signer_accounts None late_check)) + thisDebit late_check ≤ 100.
Proof.
  apply (retry_after_sound None spent_disk late_denial late_check 0 100 {["limit" := DVal (DStr "100")]}).
  - reflexivity.
  - reflexivity.
  - reflexivity.
  - apply lookup_insert_eq.
  - intros win H e He.
    assert (E : collect_window spent_disk "main" 0 None [1] = Some [(0, 50)]) by (vm_compute; reflexivity).
    change (collect_window spent_disk "main" 0 None [1] = Some win) in H. rewrite E in H. injection H as <-.
    apply list_elem_of_singleton in He as ->. reflexivity.
Defined.

Lemma window_edges_witness :
  (∀ t, t ≤ parseTS (ce_TS (new_entry "r1" late_check 0)) + day_ns →
        contribution t (new_entry "r1" late_check 0) = envelope (new_entry "r1" late_check 0)) ∧
  (∀ t, parseTS (ce_TS (new_entry "r1" late_check 0)) + day_ns < t →
        contribution t (new_entry "r1" late_check 0) = 0).
Proof. apply (window_edges (new_entry "r1" late_check 0)). vm_compute. reflexivity. Defined.
