(* ===== verification/PolicyAdminProps.v ===== *)
(** * The sealed policy and its administration: the properties *)

From S2P Require Import Prelude GoStrings Decimal Rfc3339 Encodings Json PolicyTypes PolicyBody PolicyBodyFacts PolicyBodyProps Seal Domain PolicyFile Trace Evaluate Counter Reservation Engine PolicyAdmin PolicyAdminFacts EngineFacts Samples EngineProps.

Local Open Scope string_scope.
Local Open Scope Z_scope.
Local Open Scope list_scope.

Section Facts.
Context {UT : UnicodeTables} {GC : GethCommon} {SS : SortSlice} {SC : SealCrypto}.

(** ** What an accepted policy is *)

(** the bytes of policy.json carry [p] under a signature the anchor accepts, at
    a nonce the watermark allows *)
Definition sealed_under (a : Anchor) (raw : string) (p : Policy) : Prop :=
  ∃ env body sig pk head,
    unmarshal d_envelope zero_envelope raw = Some env ∧
    DecodeString (en_BodyB64 env) = Some body ∧ DecodeString (sb_Sig (en_Seal env)) = Some sig ∧
    (VerifyKeyBytes a = Ok pk ∨ VerifyKeyNextBytes a = Ok (Some pk)) ∧
    ed25519_Verify pk (sealDomain +:+ body) sig = true ∧
    unmarshal d_head zero_head body = Some head ∧
    an_NonceWatermark a ≤ bh_Nonce head ∧ bh_Version head ≤ bodyVersion ∧
    decodeBodyStrict body = Some p.

Lemma Verify_true body sig pk : Verify body sig pk = true → ed25519_Verify pk (sealDomain +:+ body) sig = true.
Proof. unfold Verify. by destruct (_ || _). Qed.

Lemma verifyUnderAnchor_true body sig a :
  verifyUnderAnchor body sig a = true →
  ∃ pk, (VerifyKeyBytes a = Ok pk ∨ VerifyKeyNextBytes a = Ok (Some pk)) ∧
        ed25519_Verify pk (sealDomain +:+ body) sig = true.
Proof.
  unfold verifyUnderAnchor. intros [H|H]%orb_true_iff.
  - destruct (VerifyKeyBytes a) as [pk|]; [|done]. exists pk. split; [by left|by apply Verify_true].
  - destruct (VerifyKeyNextBytes a) as [[pk|]|]; [|done..]. exists pk. split; [by right|by apply Verify_true].
Qed.

Lemma load_sealed_ok raw a r :
  load_sealed raw a = Ok r → lr_present r = true ∧ sealed_under a raw (lr_policy r).
Proof.
  unfold load_sealed, sealed_under.
  destruct (unmarshal d_envelope _ raw) as [env|] eqn:Ee; [|done].
  destruct (DecodeString (en_BodyB64 env)) as [body|] eqn:Eb; [|done].
  destruct (DecodeString (sb_Sig (en_Seal env))) as [sig|] eqn:Es; [|done].
  destruct (verifyUnderAnchor body sig a) eqn:Ev; [|done]. cbn [negb].
  destruct (unmarshal d_head _ body) as [head|] eqn:Eh; [|done].
  destruct (Z.ltb_spec (bh_Nonce head) (an_NonceWatermark a)) as [|Hn]; [done|].
  destruct (Z.ltb_spec bodyVersion (bh_Version head)) as [|Hv]; [done|].
  destruct (decodeBodyStrict body) as [p|] eqn:Ep; [|done]. intros [= <-]. split; [done|].
  apply verifyUnderAnchor_true in Ev as (pk & Hpk & Hsig).
  exists env, body, sig, pk, head. by split_and!.
Qed.

Lemma loadActive_ok file a p :
  loadActivePolicy file (Some a) = Ok p → ∃ raw q, file = Some raw ∧ p = Some q ∧ sealed_under a raw q.
Proof.
  unfold loadActivePolicy, loadPolicy. destruct file as [raw|]; [|done].
  destruct (load_sealed raw a) as [r|] eqn:E; [|done]. apply load_sealed_ok in E as [-> Hs].
  intros [= <-]. by exists raw, (lr_policy r).
Qed.

(** ** Rewriting an accepted policy *)

Lemma canonical_proper q : proper q → proper (canonical q).
Proof.
  intros [Hu (Hv & Hn & Ha) Hl Hve].
  assert (Hperm : ∀ {A} (P : A → Prop) less l, (∀ x, x ∈ l → P x) → ∀ x, x ∈ sort_slice less l → P x).
  { intros A P less l H x Hx. apply H. by rewrite <-(sort_slice_perm less l). }
  split; [|split; [exact Hv|split; [exact Hn|]]|exact Hl|exact Hve].
  - unfold utf8_policy, policy_strings, canonical, sortTokens, sortPins, sortStrings, sortTypedAllow, sortContracts in *.
    cbn [p_UpdatedAt p_WrittenBy p_Messages p_Rules r_Default r_Networks p_Tokens p_Allowlist p_Denylist
         p_SelfAddresses p_TypedData td_Unknown td_Allowed p_ContractsAllowed]. rewrite !Forall_app, !Forall_concat_map in *.
    destruct Hu as (H1 & H2 & H3 & H4 & H5 & H6 & H7 & H8 & H9). split_and!; try done.
    + unfold limits_strings in *. rewrite !Forall_app in *. destruct H2 as (? & ? & ? & ?). split_and!; [done..|].
      apply Forall_nil_2.
    + by apply Hperm.
    + intros e [He|He]%elem_of_app; revert e He; apply Hperm; intros e He; apply H5, elem_of_app; auto.
    + rewrite Forall_forall in *. by apply Hperm.
    + by apply Hperm.
    + by apply Hperm.
  - cbn [canonical p_TypedData td_Allowed]. unfold sortTypedAllow. rewrite Forall_forall in *. by apply Hperm.
Qed.

Lemma next_nonce_small n : 0 ≤ n < 2 ^ 64 - 1 → next_nonce n = n + 1.
Proof. intros H. unfold next_nonce. apply Z.mod_small. lia. Qed.

Lemma mutated_nonce w body wb rs now :
  0 ≤ w < 2 ^ 64 - 1 → 0 ≤ p_Nonce body < 2 ^ 64 - 1 →
  p_Nonce (mutated_body w body wb rs now) = Z.max (p_Nonce body) w + 1.
Proof.
  intros Hw Hb. unfold mutated_body. rewrite !next_nonce_small by done.
  destruct body as [a n c d e f g h i j k l m]. cbn [p_Nonce stamp] in *.
  destruct (Z.leb_spec (n + 1) w); lia.
Qed.

Lemma loadActive_present f a r :
  loadPolicy f (Some a) = Ok r → loadActivePolicy f (Some a) = Ok (Some (lr_policy r)).
Proof. intros H. unfold loadActivePolicy. rewrite H. apply load_present in H as [-> _]. done. Qed.

Lemma replay_refused q sk a :
  proper q → pins a sk → p_Nonce q < an_NonceWatermark a →
  loadActivePolicy (Some (sealed_file q sk)) (Some a) = Err (rollback (p_Nonce q) (an_NonceWatermark a)).
Proof.
  intros Hq Hp Hn. unfold loadActivePolicy, loadPolicy. rewrite load_sealed_file by done.
  by destruct (Z.ltb_spec (p_Nonce q) (an_NonceWatermark a)); [|lia].
Qed.

(** ** Operations without the passphrase *)

Inductive admin_op (a : Anchor) (pass : option string) : PM Anchor → Prop :=
| op_set wr salt c now : admin_op a pass (Set_ wr (Some a) pass salt c now)
| op_allow wr e now : admin_op a pass (Allow wr (Some a) pass e now)
| op_deny wr e now : admin_op a pass (Deny wr (Some a) pass e now)
| op_typed wr e now : admin_op a pass (TypedAllow_ wr (Some a) pass e now)
| op_contract wr e t now : admin_op a pass (ContractAllow_ wr (Some a) pass e t now)
| op_rotate wr next salt stage commit now :
    admin_op a pass (ChangeAdminPassphrase wr (Some a) pass next salt stage commit now)
| op_reset wr self wb now : admin_op a pass (ResetForce wr (Some a) pass self wb now).

Lemma mlift_err {S A B} (e : error) (k : A → T S B) d : mbind (mlift (Err e)) k d = (Err e, []).
Proof. done. Qed.

Lemma mutate_refused wr a pass wb rs mut now e f :
  authenticate (Some a) pass = Err e → mutate wr (Some a) pass wb rs mut now f = (Err e, []).
Proof. intros H. unfold mutate. by rewrite H. Qed.

Lemma guard_then_refused {A} (o : option error) (m : PM A) f :
  (∃ e, m f = (Err e, [])) → ∃ e, mbind (guard o) (λ _, m) f = (Err e, []).
Proof.
  intros [e He]. destruct o as [e'|]; [by exists e'|]. exists e.
  rewrite (mbind_read _ _ _ tt) by done. exact He.
Qed.
End Facts.

Section Runs.
Context {UT : UnicodeTables} {GC : GethCommon} {SS : SortSlice} {SC : SealCrypto}.

(** a mutation on a readable file: what it writes, and what the written file is
    worth under the anchor before and after *)
Lemma mutate_loads a pass wb rs mut now f k r :
  authenticate (Some a) pass = Ok k → loadPolicy f (Some a) = Ok r →
  proper (mut (lr_policy r)) → valid_utf8 wb = true →
  0 ≤ an_NonceWatermark a < 2 ^ 64 - 1 → p_Nonce (mut (lr_policy r)) < 2 ^ 64 - 1 →
  let body := mutated_body (an_NonceWatermark a) (mut (lr_policy r)) wb rs now in
  let a' := raise_watermark a (p_Nonce body) in
  mutate None (Some a) pass wb rs mut now f = (Ok a', [Some (sealed_file body k.1)]) ∧
  loadActivePolicy (Some (sealed_file body k.1)) (Some a) = Ok (Some (canonical body)) ∧
  loadActivePolicy (Some (sealed_file body k.1)) (Some a') = Ok (Some (canonical body)) ∧
  an_NonceWatermark a' = p_Nonce body ∧
  p_Nonce body = Z.max (p_Nonce (mut (lr_policy r))) (an_NonceWatermark a) + 1.
Proof.
  intros Ha Hl Hb Hwb Hw Hn. cbv zeta.
  pose proof (load_present _ _ _ Hl) as [Hp _].
  apply authenticate_spec in Ha as Hs. destruct Hs as (a0 & ps & salt & [= <-] & _ & _ & _ & Hpin).
  pose proof (mutate_run a pass wb rs mut now f k r Ha Hl Hp) as Hrun. cbv zeta in Hrun.
  assert (Hnn : 0 ≤ p_Nonce (mut (lr_policy r))) by apply Hb.
  pose proof (mutated_nonce (an_NonceWatermark a) (mut (lr_policy r)) wb rs now Hw ltac:(lia)) as HN.
  pose proof (proper_mutated (an_NonceWatermark a) _ wb rs now Hb Hwb) as HP.
  split_and!; [exact Hrun| | | |exact HN].
  - apply load_active_file; [done..|lia].
  - apply load_active_file; [done|by apply raise_watermark_pins|]. rewrite raise_watermark_value. lia.
  - rewrite raise_watermark_value. lia.
Qed.

(** the file of a policy with a limitless network rule loads under no anchor *)
Lemma limitless_load q sk a :
  utf8_policy q → ¬ limits_named q →
  ∃ e, loadActivePolicy (Some (sealed_file q sk)) (Some a) = Err e ∧ e_Code e = "policy.seal_violation".
Proof.
  intros Hu Hl. unfold loadActivePolicy, loadPolicy, load_sealed, sealed_file.
  rewrite unmarshal_envelope by (apply valid_b64 || done). cbn [en_BodyB64 en_Seal sb_Sig].
  rewrite !decode_encode_string. destruct (verifyUnderAnchor _ _ a); cbn [negb]; [|by eexists].
  unfold unmarshal at 1. unfold json_parse. rewrite limitless_body by done. by eexists.
Qed.

(** no mutation gets past a file that does not load *)
Lemma mutate_unloadable wr b pass wb rs mut now file e :
  loadActivePolicy file (Some b) = Err e → ∃ e', mutate wr (Some b) pass wb rs mut now file = (Err e', []).
Proof.
  unfold loadActivePolicy, mutate. destruct (loadPolicy file (Some b)) as [r|e0] eqn:El; [done|]. intros [= <-].
  destruct (authenticate (Some b) pass) as [k|e']; [|by exists e'].
  exists e0. rewrite (mbind_read _ _ _ k) by done. rewrite (mbind_read _ _ _ file) by done. by rewrite El.
Qed.

(** the anchors of the two phases of a rotation *)
Definition staged_anchor (a : Anchor) (pub salt : string) : Anchor :=
  mkAnchor (an_VerifyKey a) (EncodeKey pub) (an_Salt a) (an_Scrypt a) (an_NonceWatermark a) (EncodeSalt salt).

Definition rotated_anchor (a : Anchor) (pub salt : string) : Anchor :=
  mkAnchor (EncodeKey pub) "" (EncodeSalt salt) (an_Scrypt a) (an_NonceWatermark a) "".

Lemma revealed_some s : s ≠ "" → revealed (Some s) = Some s.
Proof. intros H. unfold revealed. by rewrite bool_decide_false. Qed.

Lemma EncodeToString_nonempty s : s ≠ "" → EncodeToString s ≠ "".
Proof. destruct s as [|a [|b [|c s]]]; done. Qed.

Lemma EncodeKey_nonempty pk : EncodeKey pk ≠ "".
Proof. unfold EncodeKey, keyPrefix. by rewrite string_app_cons. Qed.

Lemma derived_size pass salt p k : DeriveSealKey pass salt p = Ok k → String.length k.2 = PublicKeySize.
Proof. intros ->%derive_public. apply Public_size. Qed.

Lemma derive_nonempty pass salt p k : DeriveSealKey pass salt p = Ok k → pass ≠ "".
Proof. unfold DeriveSealKey. by case_bool_decide. Qed.

(** a passphrase whose key the anchor's primary key is authenticates *)
Lemma authenticate_primary a pass salt k :
  SaltBytes a = Ok salt → DeriveSealKey pass salt (an_Scrypt a) = Ok k → VerifyKeyBytes a = Ok k.2 →
  authenticate (Some a) (Some pass) = Ok k.
Proof.
  intros Hs Hk Hv. unfold authenticate. rewrite revealed_some by by eapply derive_nonempty.
  rewrite Hs, Hk, Hv. by rewrite bool_decide_true.
Qed.

Lemma SaltBytes_encoded a salt : an_Salt a = EncodeSalt salt → SaltBytes a = Ok salt.
Proof. intros H. unfold SaltBytes. rewrite H. unfold EncodeSalt. by rewrite decode_encode_string. Qed.

Lemma stage_run a pass next salt k knew f now :
  authenticate (Some a) pass = Ok k → DeriveSealKey next salt (an_Scrypt a) = Ok knew →
  ChangeAdminPassphrase None (Some a) pass (Some next) (Some salt) true false now f =
  (Ok (staged_anchor a knew.2 salt), []).
Proof.
  intros Ha Hk. unfold ChangeAdminPassphrase. cbn [Bool.eqb].
  rewrite (mbind_read _ _ _ k) by (by rewrite Ha). rewrite revealed_some by by eapply derive_nonempty.
  unfold StageRotation. by rewrite Hk.
Qed.

Lemma commit_run a pass next salt salt' k knew f now r :
  authenticate (Some (staged_anchor a knew.2 salt)) pass = Ok k → salt ≠ "" →
  DeriveSealKey next salt (an_Scrypt a) = Ok knew →
  loadPolicy f (Some (staged_anchor a knew.2 salt)) = Ok r →
  let body := stamp (lr_policy r) (next_nonce (p_Nonce (lr_policy r))) (Format now) (p_WrittenBy (lr_policy r))
                (p_SelfAddresses (lr_policy r)) in
  ChangeAdminPassphrase None (Some (staged_anchor a knew.2 salt)) pass (Some next) salt' false true now f =
  (Ok (raise_watermark (rotated_anchor a knew.2 salt) (p_Nonce body)), [Some (sealed_file body knew.1)]).
Proof.
  intros Ha Hne Hk Hl. cbv zeta. unfold ChangeAdminPassphrase. cbn [Bool.eqb].
  rewrite (mbind_read _ _ _ k) by (by rewrite Ha). rewrite revealed_some by by eapply derive_nonempty.
  unfold CommitRotation, StagedSaltBytes, VerifyKeyNextBytes.
  cbn [staged_anchor an_StagedSalt an_VerifyKeyNext an_Scrypt].
  rewrite bool_decide_false by by apply EncodeToString_nonempty. unfold EncodeSalt. rewrite decode_encode_string.
  rewrite bool_decide_false by apply EncodeKey_nonempty. cbn [rbind].
  rewrite decodeKey_EncodeKey by by eapply derived_size. cbn [rbind]. rewrite Hk. cbn [rbind].
  rewrite bool_decide_true by done. cbn [negb].
  rewrite (mbind_read _ _ _ f) by done. rewrite (mbind_read _ _ _ r) by (by rewrite Hl).
  done.
Qed.
(** an older file is refused, whoever signed it *)
Lemma older_refused q sk a :
  proper q → p_Nonce q < an_NonceWatermark a → ∃ e, loadActivePolicy (Some (sealed_file q sk)) (Some a) = Err e.
Proof.
  intros [Hu Hi Hl Hv] Hn. unfold loadActivePolicy, loadPolicy, load_sealed, sealed_file.
  rewrite unmarshal_envelope by (apply valid_b64 || done). cbn [en_BodyB64 en_Seal sb_Sig].
  rewrite !decode_encode_string. destruct (verifyUnderAnchor _ _ a); cbn [negb]; [|by eexists].
  rewrite unmarshal_head by done. cbn [bh_Nonce bh_Version bh_WrittenBy].
  destruct (Z.ltb_spec (p_Nonce q) (an_NonceWatermark a)); [by eexists|lia].
Qed.
End Runs.

(** ** The properties *)

Section Properties.
Context {UT : UnicodeTables} {GC : GethCommon} {SS : SortSlice} {SC : SealCrypto}.

(** C3: no spend is reserved but under a policy the anchor vouches for.  When an
    anchor is pinned and Reserve grants a reservation, policy.json existed, its
    body carried a signature one of the anchor's keys verifies, its nonce was
    not below the watermark, and the verdict under the policy of that body
    allowed the spend. *)
Theorem sealed_policy_governs_reserve accounts io file a id c now0 now d r tr
  `{LineCodec Reservation} :
  Reserve io accounts (loadActivePolicy file (Some a)) id c now0 now d = (Ok (Some r), tr) →
  ∃ raw p cf, file = Some raw ∧ sealed_under a raw p ∧
    read_counter d (c_Network c) (c_Account c) = Ok cf ∧ d_Allowed (verdict accounts d p cf c now) = true.
Proof.
  destruct (loadActivePolicy file (Some a)) as [p|e] eqn:E; [|by unfold Reserve, mbind].
  apply loadActive_ok in E as (raw & q & -> & -> & Hs). intros HR.
  apply Reserve_ok in HR as (cf & st & Hcf & _ & _ & Hv & _). by exists raw, q, cf.
Qed.

(** A mutation survives a crash and ends replay.  With the passphrase of a
    pinned key and a policy that loads, a mutation whose body the writer can
    express writes one file.  The file carries the mutated policy and loads both
    under the new anchor and under the old one (the configuration is written
    after it); its nonce and the new watermark are strictly above every nonce
    the old anchor saw and the one the file had; and under the new anchor every
    properly sealed file with a smaller nonce is refused as a rollback. *)
Theorem mutation_crash_safe a pass wb rs mut now f k r :
  authenticate (Some a) pass = Ok k → loadPolicy f (Some a) = Ok r →
  proper (mut (lr_policy r)) → valid_utf8 wb = true →
  0 ≤ an_NonceWatermark a < 2 ^ 64 - 1 → p_Nonce (mut (lr_policy r)) < 2 ^ 64 - 1 →
  let body := mutated_body (an_NonceWatermark a) (mut (lr_policy r)) wb rs now in
  ∃ a' file, mutate None (Some a) pass wb rs mut now f = (Ok a', [Some file]) ∧
    loadActivePolicy (Some file) (Some a) = Ok (Some (canonical body)) ∧
    loadActivePolicy (Some file) (Some a') = Ok (Some (canonical body)) ∧
    an_NonceWatermark a < an_NonceWatermark a' ∧ p_Nonce (mut (lr_policy r)) < p_Nonce body ∧
    ∀ q sk, proper q → pins a' sk → p_Nonce q < p_Nonce body →
      loadActivePolicy (Some (sealed_file q sk)) (Some a') = Err (rollback (p_Nonce q) (an_NonceWatermark a')).
Proof.
  intros Ha Hl Hb Hwb Hw Hn body.
  destruct (mutate_loads a pass wb rs mut now f k r Ha Hl Hb Hwb Hw Hn) as (Hrun & H1 & H2 & Hwm & HN).
  eexists _, _. split; [exact Hrun|]. split; [exact H1|]. split; [exact H2|].
  split; [lia|]. split; [unfold body; lia|]. intros q sk Hq Hp Hqn. apply replay_refused; [done..|].
  rewrite Hwm. exact Hqn.
Qed.

(** C22: nothing is administered without the passphrase.  If the passphrase does
    not authenticate against the pinned anchor, set, allow, deny, the typed-data
    and contract allowlists, both phases of a rotation and the forced reset all
    fail, whatever their arguments, and write nothing. *)
Theorem admin_needs_passphrase a pass op e f :
  authenticate (Some a) pass = Err e → admin_op a pass op → ∃ e', op f = (Err e', []).
Proof.
  intros He Hop. destruct Hop; try (eexists; by apply mutate_refused).
  - apply guard_then_refused. eexists. by apply mutate_refused.
  - apply guard_then_refused. eexists. by apply mutate_refused.
  - unfold ChangeAdminPassphrase. destruct (Bool.eqb stage commit); [by eexists|]. rewrite He. by eexists.
  - unfold ResetForce. rewrite He. by eexists.
Qed.

(** C23: a rotation has no outage.  Staging under the current passphrase writes
    nothing and the current file still loads under the staged anchor.  The
    commit re-signs the policy: its file loads under the staged anchor (a crash
    before the configuration is updated) and under the rotated one, carries the
    same policy at the next nonce, the new passphrase then authenticates with the
    key it derives, and the file of before the rotation is refused. *)
Theorem rotation_zero_outage a pass next salt salt' q k knew now1 now2 :
  authenticate (Some a) (Some pass) = Ok k → VerifyKeyBytes a = Ok k.2 →
  DeriveSealKey next salt (an_Scrypt a) = Ok knew → salt ≠ "" →
  proper q → an_NonceWatermark a ≤ p_Nonce q < 2 ^ 64 - 1 →
  let f := Some (sealed_file q k.1) in
  let q2 := canonical (stamp (canonical q) (p_Nonce q + 1) (Format now2) (p_WrittenBy q)
                         (p_SelfAddresses (canonical q))) in
  ∃ a1 a2 file2,
    ChangeAdminPassphrase None (Some a) (Some pass) (Some next) (Some salt) true false now1 f = (Ok a1, []) ∧
    loadActivePolicy f (Some a1) = Ok (Some (canonical q)) ∧
    ChangeAdminPassphrase None (Some a1) (Some pass) (Some next) salt' false true now2 f = (Ok a2, [Some file2]) ∧
    loadActivePolicy (Some file2) (Some a1) = Ok (Some q2) ∧
    loadActivePolicy (Some file2) (Some a2) = Ok (Some q2) ∧
    authenticate (Some a2) (Some next) = Ok knew ∧
    is_ok (loadActivePolicy f (Some a2)) = false.
Proof.
  intros Ha Hprim Hk Hsalt Hq Hn f q2.
  apply authenticate_spec in Ha as Hs. destruct Hs as (a0 & ps & s0 & [= <-] & [= <-] & Hs0 & Hd & _).
  set (a1 := staged_anchor a knew.2 salt). pose proof (derive_public _ _ _ _ Hd) as Hpk.
  pose proof (derive_public _ _ _ _ Hk) as Hpk'. pose proof (derived_size _ _ _ _ Hk) as Hsz.
  assert (Hp1 : pins a1 k.1) by (left; by rewrite <-Hpk).
  assert (Hp1' : pins a1 knew.1).
  { right. unfold VerifyKeyNextBytes. cbn [a1 staged_anchor an_VerifyKeyNext].
    rewrite bool_decide_false by apply EncodeKey_nonempty. by rewrite decodeKey_EncodeKey, Hpk' by done. }
  pose proof (proper_ints q Hq) as (_ & Hq0 & _).
  pose proof (load_sealed_file q k.1 a1 Hq Hp1) as Hl. cbn [a1 staged_anchor an_NonceWatermark] in Hl.
  destruct (Z.ltb_spec (p_Nonce q) (an_NonceWatermark a)); [lia|].
  assert (Hcommit := commit_run a (Some pass) next salt salt' k knew f now2 _
    (authenticate_primary a1 pass s0 k Hs0 Hd Hprim) Hsalt Hk Hl).
  cbv zeta in Hcommit. cbn [lr_policy] in Hcommit. rewrite stamp_nonce in Hcommit.
  change (p_Nonce (canonical q)) with (p_Nonce q) in Hcommit. rewrite next_nonce_small in Hcommit by lia.
  change (p_WrittenBy (canonical q)) with (p_WrittenBy q) in Hcommit.
  assert (HP : proper (stamp (canonical q) (p_Nonce q + 1) (Format now2) (p_WrittenBy q) (p_SelfAddresses (canonical q)))).
  { pose proof (canonical_proper q Hq) as Hc. destruct (utf8_fields (canonical q)) as [Hcw Hcs]; [apply Hc|].
    apply proper_stamp; [done|lia|done|done]. }
  assert (Hp2 : VerifyKeyBytes (rotated_anchor a knew.2 salt) = Ok knew.2) by by apply decodeKey_EncodeKey.
  eexists a1, _, _. split; [by apply (stage_run _ _ _ _ k)|]. split; [by apply load_active_file; [..|apply Hn]|].
  split; [exact Hcommit|]. split_and!.
  - apply load_active_file; [done..|]. rewrite stamp_nonce. cbn [a1 staged_anchor an_NonceWatermark]. lia.
  - apply load_active_file; [done| |].
    + apply raise_watermark_pins. left. by rewrite Hp2, Hpk'.
    + rewrite raise_watermark_value, stamp_nonce. cbn [rotated_anchor an_NonceWatermark]. lia.
  - apply (authenticate_primary _ next salt knew).
    + apply SaltBytes_encoded. unfold raise_watermark. by destruct (_ <? _).
    + unfold raise_watermark. by destruct (_ <? _).
    + unfold raise_watermark. by destruct (_ <? _).
  - destruct (older_refused q k.1 (raise_watermark (rotated_anchor a knew.2 salt) (p_Nonce q + 1))) as [e He].
    + done.
    + rewrite raise_watermark_value. cbn [rotated_anchor an_NonceWatermark]. lia.
    + unfold f. by rewrite He.
Qed.

(** A forced reset always recovers.  With the passphrase of a pinned key,
    whatever the bytes of policy.json, the reset writes a file that loads under
    the old anchor and the new one, at the nonce after the watermark: the
    default policy, whose allowlist is on and empty and which has no network
    rule.  Every properly sealed file the old anchor accepted at its watermark
    or below is refused from then on. *)
Theorem reset_recovers a pass k self wb now f :
  authenticate (Some a) pass = Ok k → valid_utf8 wb = true → 0 ≤ an_NonceWatermark a < 2 ^ 64 - 1 →
  ∃ a' file q, ResetForce None (Some a) pass self wb now f = (Ok a', [Some file]) ∧
    loadActivePolicy (Some file) (Some a) = Ok (Some q) ∧ loadActivePolicy (Some file) (Some a') = Ok (Some q) ∧
    p_Nonce q = an_NonceWatermark a + 1 ∧ an_NonceWatermark a' = an_NonceWatermark a + 1 ∧
    AllowlistEnabled (r_Default (p_Rules q)) = Some true ∧ p_Allowlist q = [] ∧ r_Networks (p_Rules q) = [] ∧
    ∀ q' sk, proper q' → p_Nonce q' ≤ an_NonceWatermark a →
      is_ok (loadActivePolicy (Some (sealed_file q' sk)) (Some a')) = false.
Proof.
  intros Ha Hwb Hw.
  apply authenticate_spec in Ha as Hs. destruct Hs as (a0 & ps & s0 & [= <-] & _ & _ & _ & Hpin).
  set (q := stamp (defaultPolicy wb) (an_NonceWatermark a + 1) (Format now) wb (lowerAll self)).
  assert (Hq : proper q).
  { apply proper_stamp; [by apply proper_default|lia|done|apply lowerAll_utf8]. }
  exists (set_watermark a (an_NonceWatermark a + 1)), (sealed_file q k.1), (canonical q).
  split.
  { unfold ResetForce. rewrite (mbind_read _ _ _ k) by (by rewrite Ha).
    rewrite next_nonce_small by lia. done. }
  split; [by apply load_active_file; [..|cbn [q stamp defaultPolicy p_Nonce]; lia]|].
  split; [by apply load_active_file; [|eapply pins_keys; [..|exact Hpin]|]|].
  do 3 (split; [done|]). split; [|split; [done|]].
  - apply Permutation_nil_r, sort_slice_perm.
  - intros q' sk Hq' Hn. destruct (older_refused q' sk (set_watermark a (an_NonceWatermark a + 1))) as [e ->]; [done| |done].
    cbn [set_watermark an_NonceWatermark]. lia.
Qed.

(** The first policy set is crash safe and can be repeated.  Without an
    anchor, whatever policy.json holds, a passphrase and a fresh salt give an
    anchor and a file that loads under it, with watermark and nonce 1, and the
    passphrase authenticates under the new anchor.  Until the anchor is stored
    the file is refused, and once it is stored the bootstrap is refused. *)
Theorem bootstrap_crash_safe pass salt c now f a0 :
  InitSeal None (Some pass) (Some salt) = Ok a0 → proper (applyChange (defaultPolicy (ch_WrittenBy c)) c) →
  ∃ a' file q k, Set_ None None (Some pass) (Some salt) c now f = (Ok a', [Some file]) ∧
    loadActivePolicy (Some file) (Some a') = Ok (Some q) ∧
    p_Nonce q = 1 ∧ an_NonceWatermark a' = 1 ∧ p_Rules q = p_Rules (canonical (applyChange (defaultPolicy (ch_WrittenBy c)) c)) ∧
    authenticate (Some a') (Some pass) = Ok k ∧
    is_ok (loadActivePolicy (Some file) None) = false ∧ is_ok (InitSeal (Some a') (Some pass) (Some salt)) = false.
Proof.
  intros Hi Hb. unfold InitSeal in Hi. destruct (revealed (Some pass)) as [ps|] eqn:Er; [|done].
  unfold revealed in Er. case_bool_decide as Hne; [done|]. injection Er as <-.
  destruct (DeriveSealKey pass salt DefaultScryptParams) as [k|] eqn:Ek; [|done]. apply Ok_eq in Hi.
  pose proof (derive_public _ _ _ _ Ek) as Hpk. pose proof (derived_size _ _ _ _ Ek) as Hsz.
  set (body := applyChange (defaultPolicy (ch_WrittenBy c)) c) in *.
  set (self := match ch_RefreshSelf c with Some l => lowerAll l | None => [] end).
  set (q := stamp body 1 (Format now) (p_WrittenBy body) self).
  assert (Hq : proper q).
  { destruct (utf8_fields body) as [Hbw _]; [apply Hb|]. apply proper_stamp; [done..|].
    unfold self. destruct (ch_RefreshSelf c); [apply lowerAll_utf8|by apply Forall_nil]. }
  assert (Hsalt : SaltBytes a0 = Ok salt) by (apply SaltBytes_encoded; by subst a0).
  assert (Hkey : VerifyKeyBytes (set_watermark a0 1) = Ok k.2) by (subst a0; by apply decodeKey_EncodeKey).
  assert (Hpar : an_Scrypt a0 = DefaultScryptParams) by (by subst a0).
  exists (set_watermark a0 1), (sealed_file q k.1), (canonical q), k. split.
  { unfold Set_, sealAndWrite. rewrite (mbind_read _ _ _ a0).
    - rewrite Hsalt, Hpar. cbn [default from_option id]. rewrite Ek. done.
    - unfold InitSeal, mlift, revealed. rewrite bool_decide_false, Ek by done. by subst a0. }
  split.
  { apply load_active_file; [done|left; by rewrite Hkey, Hpk|]. unfold q. rewrite stamp_nonce. done. }
  split; [apply stamp_nonce|]. split; [done|]. split; [unfold q; by destruct body|]. split; [|done].
  apply (authenticate_primary _ _ salt); [exact Hsalt| |exact Hkey]. cbn [set_watermark an_Scrypt]. by rewrite Hpar.
Qed.

(** A network rule that names no limit locks the administrator out.  If a
    mutation leaves a network rule with all its limits unset, it reports success
    and writes a file that no anchor loads (policy.seal_violation, so every
    spend is refused), and no later mutation under any anchor and passphrase
    gets past it: only the forced reset, which discards the policy, does. *)
Theorem limitless_rule_locks_out a pass wb rs mut now f k r :
  authenticate (Some a) pass = Ok k → loadPolicy f (Some a) = Ok r →
  utf8_policy (mut (lr_policy r)) → valid_utf8 wb = true → ¬ limits_named (mut (lr_policy r)) →
  ∃ a' file, mutate None (Some a) pass wb rs mut now f = (Ok a', [Some file]) ∧
    (∀ b, ∃ e, loadActivePolicy (Some file) (Some b) = Err e ∧ e_Code e = "policy.seal_violation") ∧
    (∀ wr b pass' wb' rs' mut' now', ∃ e, mutate wr (Some b) pass' wb' rs' mut' now' (Some file) = (Err e, [])).
Proof.
  intros Ha Hl Hu Hwb Hn. pose proof (load_present _ _ _ Hl) as [Hp _].
  pose proof (mutate_run a pass wb rs mut now f k r Ha Hl Hp) as Hrun. cbv zeta in Hrun.
  assert (Hload : ∀ b, ∃ e, loadActivePolicy (Some (sealed_file
    (mutated_body (an_NonceWatermark a) (mut (lr_policy r)) wb rs now) k.1)) (Some b) = Err e ∧
    e_Code e = "policy.seal_violation").
  { intros b. apply limitless_load; [by apply utf8_mutated|].
    unfold mutated_body. destruct (mut (lr_policy r)). exact Hn. }
  eexists _, _. split; [exact Hrun|]. split; [exact Hload|]. intros wr b pass' wb' rs' mut' now'.
  destruct (Hload b) as (e & He & _). by eapply mutate_unloadable.
Qed.
End Properties.

(** ** Witnesses *)

Definition sample_reserve := sample_check 20 5 false 1.

Lemma sealed_policy_governs_reserve_witness :
  ∃ raw p cf, Some sample_file = Some raw ∧ sealed_under sample_anchor raw p ∧
    read_counter spent_disk "main" 1 = Ok cf ∧ d_Allowed (verdict None spent_disk p cf sample_reserve 0) = true.
Proof.
  apply (sealed_policy_governs_reserve None io_ok (Some sample_file) sample_anchor "r2" sample_reserve 0 0 spent_disk
           (newReservation "r2" sample_reserve 0)
           [reserve_log spent_disk log_empty "r2" sample_reserve 0;
            reserve_both spent_disk log_empty sample_policy spent_counter "r2" sample_reserve 0 0]).
  rewrite sample_loads.
  rewrite (Reserve_run _ _ _ _ _ _ _ spent_counter log_empty)
    by (exact read_spent || exact readable_spent || reflexivity).
  assert (E : d_Allowed (verdict None spent_disk sample_policy spent_counter sample_reserve 0) = true)
    by (vm_compute; reflexivity).
  cbv zeta. rewrite E. reflexivity.
Defined.

(** a change of the default block *)
Definition sample_change : Change :=
  mkChange (Some (mkLimits None (Some "50") None None None None)) [] None None None [] None "2.0".

Lemma changed_proper : proper (applyChange sample_policy sample_change).
Proof.
  split; [|by split_and!|by vm_compute|done]. unfold utf8_policy.
  repeat (apply Forall_cons; split; [by vm_compute|]). by apply Forall_nil.
Qed.

Lemma mutation_crash_safe_witness :
  ∃ r, loadPolicy (Some sample_file) (Some sample_anchor) = Ok r ∧
  let body := mutated_body 5 (applyChange (lr_policy r) sample_change) "2.0" None 0 in
  ∃ a' file,
    mutate None (Some sample_anchor) (Some sample_pass) "2.0" None (λ p, applyChange p sample_change) 0 (Some sample_file)
      = (Ok a', [Some file]) ∧
    loadActivePolicy (Some file) (Some sample_anchor) = Ok (Some (canonical body)) ∧
    loadActivePolicy (Some file) (Some a') = Ok (Some (canonical body)) ∧
    5 < an_NonceWatermark a' ∧ p_Nonce (applyChange (lr_policy r) sample_change) < p_Nonce body ∧
    ∀ q sk, proper q → pins a' sk → p_Nonce q < p_Nonce body →
      loadActivePolicy (Some (sealed_file q sk)) (Some a') = Err (rollback (p_Nonce q) (an_NonceWatermark a')).
Proof.
  destruct sample_result as (r & Hr & Hp). exists r. split; [exact Hr|].
  apply (mutation_crash_safe sample_anchor (Some sample_pass) "2.0" None (λ p, applyChange p sample_change) 0
           (Some sample_file) (sample_keys sample_pass sample_salt) r).
  - exact sample_authenticates.
  - exact Hr.
  - rewrite Hp. exact changed_proper.
  - reflexivity.
  - split; [discriminate|reflexivity].
  - rewrite Hp. reflexivity.
Defined.

Lemma admin_needs_passphrase_witness :
  ∃ e', ResetForce None (Some sample_anchor) (Some next_pass) [1] "2.0" 0 (Some sample_file) = (Err e', []).
Proof.
  refine (admin_needs_passphrase sample_anchor (Some next_pass) _
    (admin_auth "the admin passphrase does not derive the pinned verify key") (Some sample_file) _ _).
  - vm_compute. reflexivity.
  - apply op_reset.
Defined.

Lemma rotation_zero_outage_witness :
  let next_salt := fit 32 "another salt" in
  let f := Some sample_file in
  let q2 := canonical (stamp (canonical sample_policy) (7 + 1) (Format 60) "" (p_SelfAddresses (canonical sample_policy))) in
  ∃ a1 a2 file2,
    ChangeAdminPassphrase None (Some sample_anchor) (Some sample_pass) (Some next_pass) (Some next_salt) true false 0 f
      = (Ok a1, []) ∧
    loadActivePolicy f (Some a1) = Ok (Some (canonical sample_policy)) ∧
    ChangeAdminPassphrase None (Some a1) (Some sample_pass) (Some next_pass) None false true 60 f
      = (Ok a2, [Some file2]) ∧
    loadActivePolicy (Some file2) (Some a1) = Ok (Some q2) ∧ loadActivePolicy (Some file2) (Some a2) = Ok (Some q2) ∧
    authenticate (Some a2) (Some next_pass) = Ok (sample_keys next_pass next_salt) ∧
    is_ok (loadActivePolicy f (Some a2)) = false.
Proof.
  apply (rotation_zero_outage sample_anchor sample_pass next_pass (fit 32 "another salt") None sample_policy
           (sample_keys sample_pass sample_salt) (sample_keys next_pass (fit 32 "another salt")) 0 60).
  - exact sample_authenticates.
  - vm_compute. reflexivity.
  - vm_compute. reflexivity.
  - discriminate.
  - exact sample_proper.
  - split; [discriminate|reflexivity].
Defined.

Lemma reset_recovers_witness :
  ∃ a' file q,
    ResetForce None (Some sample_anchor) (Some sample_pass) [1] "2.0" 0 (Some "garbage") = (Ok a', [Some file]) ∧
    loadActivePolicy (Some file) (Some sample_anchor) = Ok (Some q) ∧
    loadActivePolicy (Some file) (Some a') = Ok (Some q) ∧
    p_Nonce q = 6 ∧ an_NonceWatermark a' = 6 ∧
    AllowlistEnabled (r_Default (p_Rules q)) = Some true ∧ p_Allowlist q = [] ∧ r_Networks (p_Rules q) = [] ∧
    ∀ q' sk, proper q' → p_Nonce q' ≤ 5 → is_ok (loadActivePolicy (Some (sealed_file q' sk)) (Some a')) = false.
Proof.
  apply (reset_recovers sample_anchor (Some sample_pass) (sample_keys sample_pass sample_salt) [1] "2.0" 0).
  - exact sample_authenticates.
  - reflexivity.
  - split; [discriminate|reflexivity].
Defined.

Lemma bootstrap_crash_safe_witness :
  ∃ a' file q k, Set_ None None (Some sample_pass) (Some sample_salt) sample_change 0 None = (Ok a', [Some file]) ∧
    loadActivePolicy (Some file) (Some a') = Ok (Some q) ∧
    p_Nonce q = 1 ∧ an_NonceWatermark a' = 1 ∧
    p_Rules q = p_Rules (canonical (applyChange (defaultPolicy "2.0") sample_change)) ∧
    authenticate (Some a') (Some sample_pass) = Ok k ∧
    is_ok (loadActivePolicy (Some file) None) = false ∧
    is_ok (InitSeal (Some a') (Some sample_pass) (Some sample_salt)) = false.
Proof.
  apply (bootstrap_crash_safe sample_pass sample_salt sample_change 0 None (set_watermark sample_anchor 0)).
  - vm_compute. reflexivity.
  - split; [|by split_and!|by vm_compute|done]. unfold utf8_policy.
    repeat (apply Forall_cons; split; [by vm_compute|]). by apply Forall_nil.
Defined.

(** a network rule without limits, as a change names one *)
Definition limitless_change : Change :=
  mkChange None [mkNetworkRule "main" no_limits] None None None [] None "2.0".

Lemma limitless_rule_locks_out_witness :
  ∃ a' file,
    mutate None (Some sample_anchor) (Some sample_pass) "2.0" None (λ p, applyChange p limitless_change) 0
      (Some sample_file) = (Ok a', [Some file]) ∧
    (∀ b, ∃ e, loadActivePolicy (Some file) (Some b) = Err e ∧ e_Code e = "policy.seal_violation") ∧
    (∀ wr b pass' wb' rs' mut' now', ∃ e, mutate wr (Some b) pass' wb' rs' mut' now' (Some file) = (Err e, [])).
Proof.
  destruct sample_result as (r & Hr & Hp).
  apply (limitless_rule_locks_out sample_anchor (Some sample_pass) "2.0" None (λ p, applyChange p limitless_change) 0
           (Some sample_file) (sample_keys sample_pass sample_salt) r).
  - exact sample_authenticates.
  - exact Hr.
  - rewrite Hp. unfold utf8_policy. repeat (apply Forall_cons; split; [by vm_compute|]). by apply Forall_nil.
  - reflexivity.
  - rewrite Hp. intros H. by vm_compute in H.
Defined.
