(* ===== verification/Calldata.v ===== *)
(** * Calldata: [internal/abi/classify.go], [internal/policy/calldata.go], [internal/erc/erc.go]

    The recognizer of spend-equivalent calldata, shared by the signing gate and
    the display, the policy check it is rewritten into, and the hand-packed
    calldata of token transfers, approvals and NFT transfers. *)

From S2P Require Import Prelude GoStrings Decimal HexBytes PolicyTypes Domain Evaluate.

(** ** Raw calldata: [internal/abi/classify.go], [internal/policy/calldata.go]

    The recognizer of spend-equivalent calldata, shared by the signing gate and
    the display, and the policy check it is rewritten into. *)

Local Open Scope string_scope.
Local Open Scope Z_scope.
Local Open Scope list_scope.

(** ** The recognizer (classify.go) *)

Inductive RecognizedKind := NotRecognized | RecApprove | RecTransfer.

#[export] Instance RecognizedKind_eq_dec : EqDecision RecognizedKind.
Proof. solve_decision. Defined.

Record SelectorClass := mkClass {
  sc_Kind : RecognizedKind;
  sc_Spender : Address;
  sc_Recipient : Address;
  sc_Amount : option Z;
  sc_Unlimited : bool;
}.

#[export] Instance SelectorClass_eq_dec : EqDecision SelectorClass.
Proof. solve_decision. Defined.

Definition sentinelUint256 : Z := 2 ^ 256 - 1.
Definition sentinelUint160 : Z := 2 ^ 160 - 1.
Definition sentinelUint96 : Z := 2 ^ 96 - 1.

Definition isSentinel (amount : option Z) : bool :=
  match amount with
  | None => false
  | Some a => (a =? sentinelUint256) || (a =? sentinelUint160) || (a =? sentinelUint96)
  end.

Definition selApprove := "0x095ea7b3".
Definition selIncreaseAllowance := "0x39509351".
Definition selTransfer := "0xa9059cbb".
Definition selTransferFrom := "0x23b872dd".
Definition selSetApprovalForAll := "0xa22cb465".
Definition selSafeTransferFrom1 := "0x42842e0e".
Definition selSafeTransferFrom2 := "0xb88d4fde".
Definition selSafeTransferFrom3 := "0xf242432a".
Definition selSafeBatchTransfer := "0x2eb2c2d6".
Definition selPermitEIP2612 := "0xd505accf".
Definition selPermitDAI := "0x8fcbaf0c".
Definition selPermit2Allowance := "0x2b67b570".
Definition selPermit2Transfer := "0x30f28b7a".

(** the [i]-th 32-byte word of the head *)
Definition word (body : string) (i : nat) : option string :=
  if (String.length body <? i * 32 + 32)%nat then None else Some (stake 32 (sdrop (i * 32) body)).

Definition all_zero (s : string) : bool := string_forallb (λ c, byteZ c =? 0) s.

Definition wordAddr (body : string) (i : nat) : option Address :=
  match word body i with
  | None => None
  | Some w => if all_zero (stake 12 w) then Some (SetBytes (sdrop 12 w)) else None
  end.

Definition wordBig (body : string) (i : nat) : option Z := SetBytes <$> word body i.

Definition wordBool (body : string) (i : nat) : option bool :=
  match word body i with
  | None => None
  | Some w =>
      if negb (all_zero (stake 31 w)) then None
      else match sdrop 31 w with
           | String c _ => if byteZ c =? 0 then Some false else if byteZ c =? 1 then Some true else None
           | "" => None
           end
  end.

Definition approveClass (spender : Address) (amount : option Z) (unlimited : bool) : SelectorClass :=
  mkClass RecApprove spender 0 amount unlimited.
Definition transferClass (to : Address) (amount : option Z) : SelectorClass :=
  mkClass RecTransfer 0 to amount false.

(** ClassifySelector *)
Definition ClassifySelector (data : string) : option SelectorClass :=
  if (String.length data <? 4)%nat then None
  else
    let sel := "0x" +:+ hexEncode (stake 4 data) in
    let body := sdrop 4 data in
    let sel_is s := bool_decide (sel = s) in
    if sel_is selApprove then
      spender ← wordAddr body 0; amount ← wordBig body 1;
      Some (approveClass spender (Some amount) (isSentinel (Some amount)))
    else if sel_is selIncreaseAllowance then
      spender ← wordAddr body 0; amount ← wordBig body 1;
      Some (approveClass spender (Some amount) false)
    else if sel_is selTransfer then
      to ← wordAddr body 0; amount ← wordBig body 1;
      Some (transferClass to (Some amount))
    else if sel_is selTransferFrom then
      to ← wordAddr body 1; amount ← wordBig body 2;
      Some (transferClass to (Some amount))
    else if sel_is selSetApprovalForAll then
      op ← wordAddr body 0; approved ← wordBool body 1;
      Some (approveClass op None approved)
    else if sel_is selSafeTransferFrom1 || sel_is selSafeTransferFrom2 || sel_is selSafeTransferFrom3 || sel_is selSafeBatchTransfer then
      to ← wordAddr body 1;
      Some (transferClass to None)
    else if sel_is selPermitEIP2612 then
      spender ← wordAddr body 1; value ← wordBig body 2; deadline ← wordBig body 3;
      Some (approveClass spender (Some value) (isSentinel (Some value) || (deadline =? sentinelUint256)))
    else if sel_is selPermitDAI then
      spender ← wordAddr body 1; allowed ← wordBool body 4;
      Some (approveClass spender None allowed)
    else if sel_is selPermit2Allowance || sel_is selPermit2Transfer then
      Some (approveClass 0 None false)
    else None.

(** ** The check (calldata.go) *)

Section Check.
Context {UT : UnicodeTables} {GC : GethCommon}.

(** the fields ClassifyCalldata leaves at their zero values are filled by the service *)
Definition blank_check : Check := {|
  c_Account := 0; c_Dest := 0; c_SpendWei := None; c_MaxGasWei := None; c_MaxFeePerGas := None; c_Kind := "";
  c_Token := ""; c_IsRBFDelta := false; c_Acked := false; c_Network := ""; c_KindEnum := KindUnknown;
  c_ToSrc := SourceRawAddress; c_ToInput := ""; c_ENSName := ""; c_ENSResolved := 0; c_Asset := "";
  c_TokenAmt := None; c_Unlimited := false; c_AccountNonce := None; c_TypedUnknown := false;
  c_TypedPrimary := ""; c_TypedVerifying := ""; c_TypedChainID := 0; c_UnknownCalldata := false;
  c_ContractAddr := 0; c_Selector := "" |}.

(** [chk] with the fields the classifier sets *)
Definition classified (c : Check) (kind : string) (k : Kind) (dest : Address) (token : string)
           (amt : option Z) (unlimited : bool) : Check := {|
  c_Account := c_Account c; c_Dest := dest; c_SpendWei := c_SpendWei c; c_MaxGasWei := c_MaxGasWei c;
  c_MaxFeePerGas := c_MaxFeePerGas c; c_Kind := kind; c_Token := token; c_IsRBFDelta := c_IsRBFDelta c;
  c_Acked := c_Acked c; c_Network := c_Network c; c_KindEnum := k; c_ToSrc := SourceRawAddress;
  c_ToInput := ""; c_ENSName := ""; c_ENSResolved := 0; c_Asset := token; c_TokenAmt := amt;
  c_Unlimited := unlimited; c_AccountNonce := c_AccountNonce c; c_TypedUnknown := c_TypedUnknown c;
  c_TypedPrimary := c_TypedPrimary c; c_TypedVerifying := c_TypedVerifying c;
  c_TypedChainID := c_TypedChainID c; c_UnknownCalldata := c_UnknownCalldata c;
  c_ContractAddr := c_ContractAddr c; c_Selector := c_Selector c |}.

Definition with_spend (c : Check) (v : option Z) : Check := {|
  c_Account := c_Account c; c_Dest := c_Dest c; c_SpendWei := v; c_MaxGasWei := c_MaxGasWei c;
  c_MaxFeePerGas := c_MaxFeePerGas c; c_Kind := c_Kind c; c_Token := c_Token c; c_IsRBFDelta := c_IsRBFDelta c;
  c_Acked := c_Acked c; c_Network := c_Network c; c_KindEnum := c_KindEnum c; c_ToSrc := c_ToSrc c;
  c_ToInput := c_ToInput c; c_ENSName := c_ENSName c; c_ENSResolved := c_ENSResolved c; c_Asset := c_Asset c;
  c_TokenAmt := c_TokenAmt c; c_Unlimited := c_Unlimited c; c_AccountNonce := c_AccountNonce c;
  c_TypedUnknown := c_TypedUnknown c; c_TypedPrimary := c_TypedPrimary c;
  c_TypedVerifying := c_TypedVerifying c; c_TypedChainID := c_TypedChainID c;
  c_UnknownCalldata := c_UnknownCalldata c; c_ContractAddr := c_ContractAddr c; c_Selector := c_Selector c |}.

(** ClassifyCalldata; the slice has one element or the result is not ok *)
Definition ClassifyCalldata (to : Address) (data : string) (value : option Z) : option Check :=
  cls ← ClassifySelector data;
  let asset := lowerHex to in
  match sc_Kind cls with
  | RecApprove =>
      Some (with_spend (classified blank_check "approve" KindApprove (sc_Spender cls) asset (sc_Amount cls)
                          (sc_Unlimited cls)) value)
  | RecTransfer =>
      Some (with_spend (classified blank_check "transfer" KindTransfer (sc_Recipient cls) asset (sc_Amount cls)
                          (sc_Unlimited cls)) value)
  | NotRecognized => None
  end.

Definition SelectorHex (data : string) : string :=
  if (String.length data <? 4)%nat then "0x" else "0x" +:+ ToLower (hexEncode (stake 4 data)).
End Check.

(** ** Encoded arguments *)

(** the head words of an address, a number and a flag, as ABI encoders write them *)
Definition enc_word (n : Z) : string := be_bytes 32 n.

(** calldata of a selector (its four bytes as a number) and static words *)
Definition calldata (sel : Z) (args : list Z) : string :=
  be_bytes 4 sel +:+ String.concat "" (map enc_word args).

Lemma concat_empty_cons s l : String.concat "" (s :: l) = s +:+ String.concat "" l.
Proof. destruct l as [|t l]; simpl; [by rewrite string_app_nil_r|done]. Qed.

Lemma sdrop_sdrop n m s : sdrop n (sdrop m s) = sdrop (m + n) s.
Proof.
  revert s. induction m as [|m IH]; intros s; [by destruct s|].
  destruct s as [|c s]; simpl; [by destruct n|apply IH].
Qed.

Lemma enc_word_length n : String.length (enc_word n) = 32%nat.
Proof. apply be_bytes_length. Qed.

(** the words read back *)
Lemma word_args args i n :
  args !! i = Some n → word (String.concat "" (map enc_word args)) i = Some (enc_word n).
Proof.
  unfold word. revert i. induction args as [|a args IH]; intros i Hi; [done|].
  cbn [map]. rewrite concat_empty_cons, string_length_app, enc_word_length.
  destruct i as [|i]; cbn [lookup list_lookup] in Hi.
  - injection Hi as ->. destruct (Nat.ltb_spec (32 + String.length (String.concat "" (map enc_word args))) (0 * 32 + 32)) as [Hlt|]; [simpl in Hlt; lia|].
    by f_equal.
  - specialize (IH i Hi). destruct (Nat.ltb_spec (String.length (String.concat "" (map enc_word args))) (i * 32 + 32)); [done|].
    destruct (Nat.ltb_spec (32 + String.length (String.concat "" (map enc_word args))) (S i * 32 + 32)); [lia|].
    exact IH.
Qed.

Lemma be_bytes_split w v n : be_bytes (w + v) n = be_bytes w (n / 256 ^ Z.of_nat v) +:+ be_bytes v n.
Proof.
  revert n. induction v as [|v IH]; intros n; [by rewrite Nat.add_0_r, Z.div_1_r, string_app_nil_r|].
  replace (w + S v)%nat with (S (w + v)) by lia. cbn [be_bytes]. rewrite IH, string_app_assoc.
  rewrite Z.div_div by lia. replace (256 * 256 ^ Z.of_nat v) with (256 ^ Z.of_nat (S v)); [done|].
  rewrite <-Z.pow_succ_r by lia. f_equal. lia.
Qed.

Lemma all_zero_be_bytes w : all_zero (be_bytes w 0) = true.
Proof.
  induction w as [|w IH]; [done|]. cbn [be_bytes]. unfold all_zero in *.
  rewrite string_forallb_app. change (0 / 256) with 0. by rewrite IH.
Qed.

Lemma wordAddr_args args i a :
  args !! i = Some a → valid_addr a → wordAddr (String.concat "" (map enc_word args)) i = Some a.
Proof.
  intros Hi Ha. unfold wordAddr, valid_addr in *. rewrite (word_args _ _ _ Hi). unfold enc_word.
  change 32%nat with (12 + 20)%nat. rewrite be_bytes_split.
  pose proof (stake_app (be_bytes 12 (a / 256 ^ Z.of_nat 20)) (be_bytes 20 a)) as H1.
  pose proof (sdrop_app (be_bytes 12 (a / 256 ^ Z.of_nat 20)) (be_bytes 20 a)) as H2.
  rewrite be_bytes_length in H1, H2. rewrite H1, H2.
  rewrite Z.div_small by (change (256 ^ Z.of_nat 20) with (2 ^ 160); lia). rewrite all_zero_be_bytes.
  f_equal. apply SetBytes_be_bytes. change (256 ^ Z.of_nat 20) with (2 ^ 160). lia.
Qed.

Lemma wordBig_args args i n :
  args !! i = Some n → 0 ≤ n < 2 ^ 256 → wordBig (String.concat "" (map enc_word args)) i = Some n.
Proof.
  intros Hi Hn. unfold wordBig. rewrite (word_args _ _ _ Hi). simpl. f_equal. apply SetBytes_be_bytes.
  change (256 ^ Z.of_nat 32) with (2 ^ 256). lia.
Qed.

Lemma wordBool_args args i (b : bool) :
  args !! i = Some (Z.b2z b) → wordBool (String.concat "" (map enc_word args)) i = Some b.
Proof.
  intros Hi. unfold wordBool. rewrite (word_args _ _ _ Hi). by destruct b.
Qed.

Lemma calldata_parts sel args :
  stake 4 (calldata sel args) = be_bytes 4 sel ∧
  sdrop 4 (calldata sel args) = String.concat "" (map enc_word args) ∧
  (String.length (calldata sel args) <? 4)%nat = false.
Proof.
  unfold calldata. pose proof (stake_app (be_bytes 4 sel) (String.concat "" (map enc_word args))) as H1.
  pose proof (sdrop_app (be_bytes 4 sel) (String.concat "" (map enc_word args))) as H2.
  rewrite be_bytes_length in H1, H2. split; [done|]. split; [done|].
  rewrite string_length_app, be_bytes_length. apply Nat.ltb_ge. lia.
Qed.

(** ** ERC calldata: [internal/erc/erc.go]

    The hand-packed calldata of token transfers, approvals and NFT transfers. *)

Local Open Scope string_scope.
Local Open Scope Z_scope.
Local Open Scope go_scope.

Definition sigTransfer := "transfer(address,uint256)".
Definition sigApprove := "approve(address,uint256)".
Definition sigSafeTransferFrom721 := "safeTransferFrom(address,address,uint256)".
Definition sigSafeTransferFrom1155 := "safeTransferFrom(address,address,uint256,uint256,bytes)".

(** crypto.Keccak256 of go-ethereum, and the published selectors it gives *)
Class Keccak := {
  Keccak256 : string → string;
  Keccak_transfer : stake 4 (Keccak256 sigTransfer) = be_bytes 4 0xa9059cbb;
  Keccak_approve : stake 4 (Keccak256 sigApprove) = be_bytes 4 0x095ea7b3;
  Keccak_safe721 : stake 4 (Keccak256 sigSafeTransferFrom721) = be_bytes 4 0x42842e0e;
  Keccak_safe1155 : stake 4 (Keccak256 sigSafeTransferFrom1155) = be_bytes 4 0xf242432a;
}.

Definition MaxUint256 : Z := Z.shiftl 1 256 - 1.
Definition MaxUint160 : Z := Z.shiftl 1 160 - 1.
Definition MaxUint96 : Z := Z.shiftl 1 96 - 1.

Definition IsUnlimitedAmount (amount : option Z) : bool :=
  match amount with
  | None => false
  | Some a => (a =? MaxUint256) || (a =? MaxUint160) || (a =? MaxUint96)
  end.

(** [big.Int.Bytes]: the magnitude, without leading zeros *)
Definition byte_count (n : Z) : nat := if n =? 0 then 0 else Z.to_nat (Z.log2 (Z.abs n) / 8 + 1).
Definition Bytes (n : Z) : string := be_bytes (byte_count n) (Z.abs n).

(** common.LeftPadBytes: a longer slice is returned as it is *)
Definition LeftPadBytes (s : string) (l : nat) : string :=
  if (l <=? String.length s)%nat then s else be_bytes (l - String.length s) 0 +:+ s.

Definition addrWord (a : Address) : string := LeftPadBytes (be_bytes 20 a) 32.
Definition uintWord (v : option Z) : string :=
  match v with
  | None => be_bytes 32 0
  | Some v => if v <? 0 then be_bytes 32 0 else LeftPadBytes (Bytes v) 32
  end.

Section Erc.
Context {KC : Keccak}.

Definition selector (sig : string) : string := stake 4 (Keccak256 sig).

Definition pack (sig : string) (words : list string) : string := selector sig +:+ String.concat "" words.

Definition TransferCalldata (to : Address) (amount : option Z) : string :=
  pack sigTransfer [addrWord to; uintWord amount].
Definition ApproveCalldata (spender : Address) (amount : option Z) : string :=
  pack sigApprove [addrWord spender; uintWord amount].
Definition SafeTransferFromCalldata (from to : Address) (tokenID amount : option Z) : string :=
  match amount with
  | None => pack sigSafeTransferFrom721 [addrWord from; addrWord to; uintWord tokenID]
  | Some _ => pack sigSafeTransferFrom1155
                [addrWord from; addrWord to; uintWord tokenID; uintWord amount; uintWord (Some 0xa0); uintWord (Some 0)]
  end.
End Erc.

(** ** The words an ABI encoder writes *)

Lemma be_bytes_zeros w v n : 0 ≤ n < 256 ^ Z.of_nat v → be_bytes (w + v) n = be_bytes w 0 +:+ be_bytes v n.
Proof. intros Hn. rewrite be_bytes_split. by rewrite Z.div_small by lia. Qed.

Lemma byte_count_fits n w : 0 ≤ n < 256 ^ Z.of_nat w → (byte_count n ≤ w)%nat.
Proof.
  intros Hn. unfold byte_count. destruct (Z.eqb_spec n 0); [lia|].
  rewrite Z.abs_eq by lia. enough (Z.log2 n / 8 < Z.of_nat w) by lia.
  apply Z.div_lt_upper_bound; [lia|]. apply Z.log2_lt_pow2; [lia|].
  change 256 with (2 ^ 8) in Hn. rewrite <-Z.pow_mul_r in Hn by lia. lia.
Qed.

Lemma byte_count_bound n : 0 ≤ n → n < 256 ^ Z.of_nat (byte_count n).
Proof.
  intros Hn. unfold byte_count. destruct (Z.eqb_spec n 0) as [->|]; [done|].
  rewrite Z.abs_eq by lia. pose proof (Z.log2_spec n ltac:(lia)) as [_ H].
  pose proof (Z.log2_nonneg n). pose proof (Z.div_pos (Z.log2 n) 8 ltac:(lia) ltac:(lia)).
  rewrite Z2Nat.id by lia. change 256 with (2 ^ 8). rewrite <-Z.pow_mul_r by lia.
  eapply Z.lt_le_trans; [exact H|]. apply Z.pow_le_mono_r; [lia|].
  pose proof (Z.mod_pos_bound (Z.log2 n) 8 ltac:(lia)). pose proof (Z.div_mod (Z.log2 n) 8 ltac:(lia)). lia.
Qed.

Lemma uintWord_enc n : 0 ≤ n < 2 ^ 256 → uintWord (Some n) = enc_word n.
Proof.
  intros Hn. unfold uintWord, enc_word, LeftPadBytes, Bytes. destruct (Z.ltb_spec n 0); [lia|].
  rewrite be_bytes_length, Z.abs_eq by lia.
  pose proof (byte_count_fits n 32 ltac:(change (256 ^ Z.of_nat 32) with (2 ^ 256); lia)) as Hle.
  pose proof (byte_count_bound n ltac:(lia)) as Hb.
  destruct (Nat.leb_spec 32 (byte_count n)).
  - by replace (byte_count n) with 32%nat by lia.
  - rewrite <-be_bytes_zeros by lia. f_equal. lia.
Qed.

Lemma addrWord_enc a : valid_addr a → addrWord a = enc_word a.
Proof.
  unfold valid_addr. intros Ha. unfold addrWord, LeftPadBytes, enc_word. rewrite be_bytes_length.
  change (32 <=? 20)%nat with false. cbv iota. change 32%nat with (12 + 20)%nat at 2.
  rewrite be_bytes_zeros by (change (256 ^ Z.of_nat 20) with (2 ^ 160); lia). done.
Qed.

Section Packed.
Context {KC : Keccak}.

Lemma TransferCalldata_enc to n :
  valid_addr to → 0 ≤ n < 2 ^ 256 → TransferCalldata to (Some n) = calldata 0xa9059cbb [to; n].
Proof.
  intros. unfold TransferCalldata, pack, selector. by rewrite Keccak_transfer, addrWord_enc, uintWord_enc.
Qed.
Lemma ApproveCalldata_enc to n :
  valid_addr to → 0 ≤ n < 2 ^ 256 → ApproveCalldata to (Some n) = calldata 0x095ea7b3 [to; n].
Proof. intros. unfold ApproveCalldata, pack, selector. by rewrite Keccak_approve, addrWord_enc, uintWord_enc. Qed.
Lemma Safe721_enc from to id :
  valid_addr from → valid_addr to → 0 ≤ id < 2 ^ 256 →
  SafeTransferFromCalldata from to (Some id) None = calldata 0x42842e0e [from; to; id].
Proof.
  intros. unfold SafeTransferFromCalldata, pack, selector. by rewrite Keccak_safe721, !addrWord_enc, uintWord_enc.
Qed.
Lemma Safe1155_enc from to id n :
  valid_addr from → valid_addr to → 0 ≤ id < 2 ^ 256 → 0 ≤ n < 2 ^ 256 →
  SafeTransferFromCalldata from to (Some id) (Some n) = calldata 0xf242432a [from; to; id; n; 0xa0; 0].
Proof.
  intros. unfold SafeTransferFromCalldata, pack, selector. by rewrite Keccak_safe1155, !addrWord_enc, !uintWord_enc.
Qed.
End Packed.
