(* ===== verification/Gas.v ===== *)
(** * The gas engine: [internal/service/gas.go], and the fee bump of [rbf.go]

    The gas decision of one transaction: its limit, its fees and the worst-case
    cost the policy reserves.  Amounts are integers; the configured multipliers
    are IEEE double-precision numbers, which the code rounds once to a ratio
    over a million.  The replies of the node are arguments.  The properties are
    at the end: what a quote covers, and what a bump raises. *)

From Stdlib Require Import SpecFloat.

From S2P Require Import Prelude GoStrings Decimal Ethunit PolicyTypes Domain.

Local Open Scope string_scope.
Local Open Scope Z_scope.
Local Open Scope list_scope.
Local Open Scope go_scope.

(** ** Errors of the client *)

(** a Go error: its text, and the domain error in its chain if there is one *)
Record GoError := mkGoError { ge_Text : string; ge_Domain : option error; ge_NotFound : bool }.

Definition CodeInternal := "internal".
Definition CodeRPCUnreachable := "rpc.unreachable".
Definition CodeRPCChainIDMismatch := "rpc.chain_id_mismatch".
Definition CodeFundsInsufficient := "funds.insufficient".
Definition CodeTxReverted := "tx.reverted".
Definition CodeTxReplacementUnderpriced := "tx.replacement_underpriced".

Definition mapRPCErr (e : GoError) : error :=
  match ge_Domain e with
  | Some de => if bool_decide (e_Code de = CodeInternal) then New CodeRPCUnreachable (ge_Text e) else de
  | None => New CodeRPCUnreachable (ge_Text e)
  end.

Definition rpc {A} (r : res GoError A) : res error A :=
  match r with Ok a => Ok a | Err e => Err (mapRPCErr e) end.

(** strings.Contains *)
Fixpoint Contains (s sub : string) : bool :=
  String.prefix sub s || match s with "" => false | String _ s => Contains s sub end.

Definition containsAny (s : string) (subs : list string) : bool := existsb (Contains s) subs.

(** ** Doubles *)

Definition float64 : Type := spec_float.
(** the double [m * 2^e] *)
Definition double (m e : Z) : float64 := binary_normalize 53 1024 m e false.
Definition fmul : float64 → float64 → float64 := SFmul 53 1024.
Definition fadd : float64 → float64 → float64 := SFadd 53 1024.
Definition fdiv : float64 → float64 → float64 := SFdiv 53 1024.

Definition f_zero : float64 := S754_zero false.
Definition f_half : float64 := double 1 (-1).
Definition f_one : float64 := double 1 0.
Definition f_hundred : float64 := double 100 0.
Definition f_million : float64 := double 1000000 0.

(** the integer part, when there is one *)
Definition f_trunc (x : float64) : option Z :=
  match x with
  | S754_zero _ => Some 0
  | S754_finite s m e =>
      let a := if e <? 0 then Z.pos m / 2 ^ (- e) else Z.pos m * 2 ^ e in
      Some (if s then - a else a)
  | _ => None
  end.

(** the conversion of a double to int64 is implementation-defined when the value
    does not fit *)
Class Int64Conv := { int64_other : float64 → Z }.

Section Gas.
Context {UT : UnicodeTables} {IC : Int64Conv}.

Definition int64 (x : float64) : Z :=
  match f_trunc x with
  | Some n => if (- 2 ^ 63 <=? n) && (n <? 2 ^ 63) then n else int64_other x
  | None => int64_other x
  end.

(** ** Exact scaling *)

Definition floatToRatio (m : float64) : Z * Z :=
  if SFleb m f_zero then (1, 1)
  else
    let n := int64 (fadd (fmul m f_million) f_half) in
    if n <=? 0 then (1, 1) else (n, 1000000).

Definition scaleBig (v : option Z) (multiplier : float64) : Z :=
  match v with
  | None => 0
  | Some v => let '(num, den) := floatToRatio multiplier in Z.quot (v * num + Z.quot den 2) den
  end.

(** [v.Uint64()] keeps the low 64 bits *)
Definition mulCeilUint (n : Z) (multiplier : float64) : Z :=
  let '(num, den) := floatToRatio multiplier in Z.quot (n * num + (den - 1)) den mod 2 ^ 64.

Definition maxFeeFormula (multiplier : float64) (baseFee : option Z) (tip : Z) : Z :=
  scaleBig (Some (default 0 baseFee)) multiplier + tip.

Definition SpeedSlow := "slow".
Definition SpeedNormal := "normal".
Definition SpeedFast := "fast".

Definition mulSpeed (price : option Z) (speed : string) : Z :=
  match price with
  | None => 0
  | Some p =>
      let num := if bool_decide (speed = SpeedSlow) then 10 else if bool_decide (speed = SpeedFast) then 15 else 12 in
      Z.quot (p * num) 10
  end.

Definition worstCaseGas (limit : Z) (perGas : option Z) : Z :=
  match perGas with Some p => limit * p | None => 0 end.

Definition parseSpeed (s def : string) : string :=
  if bool_decide (s = SpeedSlow) then SpeedSlow else if bool_decide (s = SpeedNormal) then SpeedNormal
  else if bool_decide (s = SpeedFast) then SpeedFast else def.

(** ** Quotes *)

Record Quote := mkQuote {
  q_Legacy : bool;
  q_GasLimit : Z;
  q_MaxFeePerGas : option Z;
  q_PriorityFee : option Z;
  q_GasPrice : option Z;
  q_BaseFee : option Z;
  q_Speed : string;
  q_Source : string;
  q_WorstCaseGasWei : option Z;
}.

Definition perGasPrice (q : Quote) : option Z := if q_Legacy q then q_GasPrice q else q_MaxFeePerGas q.

(** config.GasDefaults *)
Record GasDefaults := mkGasDefaults {
  gd_LimitMultiplier : float64;
  gd_FeeHistoryBlocks : Z;
  gd_Speed : string;
  gd_BaseFeeMultiplier : float64;
  gd_MinPriorityFee : string;
  gd_RBFBumpPercent : float64;
}.

Record gasParams := mkGasParams {
  gp_limitMultiplier : float64;
  gp_baseFeeMultiplier : float64;
  gp_minPriorityFee : option Z;
  gp_defaultSpeed : string;
  gp_rbfBumpPercent : float64;
  gp_feeHistoryBlocks : Z;
  gp_legacy : bool;
}.

Definition f_set (new old : float64) : float64 := if SFeqb new f_zero then old else new.
Definition s_set (new old : string) : string := if bool_decide (new = "") then old else new.

Definition overlayGas (base over : GasDefaults) : GasDefaults := {|
  gd_LimitMultiplier := f_set (gd_LimitMultiplier over) (gd_LimitMultiplier base);
  gd_FeeHistoryBlocks := if gd_FeeHistoryBlocks over =? 0 then gd_FeeHistoryBlocks base else gd_FeeHistoryBlocks over;
  gd_Speed := s_set (gd_Speed over) (gd_Speed base);
  gd_BaseFeeMultiplier := f_set (gd_BaseFeeMultiplier over) (gd_BaseFeeMultiplier base);
  gd_MinPriorityFee := s_set (gd_MinPriorityFee over) (gd_MinPriorityFee base);
  gd_RBFBumpPercent := f_set (gd_RBFBumpPercent over) (gd_RBFBumpPercent base);
|}.

(** ** Parsing *)

Definition bad_fee (label s : string) : error := New "usage.bad_fee" ("invalid " +:+ label +:+ " " +:+ s).

Definition parseFee (s label : string) : res error Z :=
  let '(value, unit) := SplitAmountUnit s in
  if bool_decide (value = "") then Err (New "usage.bad_fee" ("invalid " +:+ label +:+ " " +:+ go_quote s)) else
  let* u := if bool_decide (unit = "") then Ok Wei
            else match ParseUnit unit with
                 | Ok u => Ok u
                 | Err _ => Err (New "usage.bad_fee"
                     ("invalid " +:+ label +:+ " unit in " +:+ go_quote s +:+ " (want eth|gwei|wei)"))
                 end in
  match ParseAmount value u with Ok wei => Ok wei | Err _ => Err (bad_fee label s) end.

Definition parseOptionalFee (s label : string) : res error (option Z) :=
  if bool_decide (s = "") then Ok None else let* v := parseFee s label in Ok (Some v).

Definition parseFeeFloor (s : string) : option Z :=
  if bool_decide (s = "") then None
  else match parseFee s "min-priority-fee" with Ok v => Some v | Err _ => None end.

Definition errBadUint : error := New "usage.bad_integer" "not a non-negative integer".

(** the digits in uint64 arithmetic *)
Fixpoint parse_digits (s : string) (n : Z) : option Z :=
  match s with
  | "" => Some n
  | String c s => if is_digit c then parse_digits s ((n * 10 + (byteZ c - 48)) mod 2 ^ 64) else None
  end.

Definition parseUint (s : string) : res error Z :=
  if bool_decide (s = "") then Err errBadUint
  else match parse_digits s 0 with Some n => Ok n | None => Err errBadUint end.

(** ** Configuration *)

(** the part of the configuration the engine reads: the global strategy and, per
    network, its legacy flag and its override *)
Record GasConfig := mkGasConfig {
  gc_Gas : GasDefaults;
  gc_Networks : gmap string (bool * option GasDefaults);
}.

Definition gasParamsFor (cfg : GasConfig) (network : string) (reqLegacy : bool) : gasParams :=
  let '(legacy, g) := match gc_Networks cfg !! network with
                      | Some (l, o) =>
                          (reqLegacy || l, match o with Some o => overlayGas (gc_Gas cfg) o | None => gc_Gas cfg end)
                      | None => (reqLegacy, gc_Gas cfg)
                      end in
  {| gp_limitMultiplier := gd_LimitMultiplier g; gp_baseFeeMultiplier := gd_BaseFeeMultiplier g;
     gp_minPriorityFee := parseFeeFloor (gd_MinPriorityFee g); gp_defaultSpeed := parseSpeed (gd_Speed g) SpeedNormal;
     gp_rbfBumpPercent := gd_RBFBumpPercent g; gp_feeHistoryBlocks := gd_FeeHistoryBlocks g; gp_legacy := legacy |}.

(** the gas fields of a request *)
Record GasReq := mkGasReq {
  gr_GasLimit : string;
  gr_MaxFee : string;
  gr_PriorityFee : string;
  gr_GasPrice : string;
  gr_Speed : string;
  gr_Legacy : bool;
}.

(** chain.Fees *)
Record ChainFees := mkChainFees {
  cf_BaseFee : option Z;
  cf_PrioritySlow : option Z;
  cf_PriorityNormal : option Z;
  cf_PriorityFast : option Z;
  cf_Source : string;
}.

Definition Priority (f : ChainFees) (col : Z) : option Z :=
  if col =? 0 then cf_PrioritySlow f else if col =? 2 then cf_PriorityFast f else cf_PriorityNormal f.

Definition speedColumn (s : string) : Z :=
  if bool_decide (s = SpeedSlow) then 0 else if bool_decide (s = SpeedFast) then 2 else 1.

(** ** Building *)

Definition intrinsicEOAGas : Z := 21000.

Definition mapEstimateErr (e : GoError) : error :=
  let code := match ge_Domain e with Some de => e_Code de | None => CodeInternal end in
  if bool_decide (code = CodeRPCUnreachable) || bool_decide (code = CodeRPCChainIDMismatch)
  then default (New CodeInternal (ge_Text e)) (ge_Domain e)
  else
    let msg := ToLower (ge_Text e) in
    if containsAny msg ["execution reverted"; "revert"]
    then New CodeTxReverted ("gas estimation reverted: " +:+ ge_Text e)
    else if containsAny msg ["insufficient funds"]
    then New CodeFundsInsufficient "insufficient funds for gas estimation"
    else mapRPCErr e.

(** [est] is what eth_estimateGas answers, asked only without an explicit limit *)
Definition resolveGasLimit (req : GasReq) (limitMultiplier : float64) (data : string) (est : res GoError Z)
  : res error Z :=
  if negb (bool_decide (gr_GasLimit req = ""))
  then match parseUint (gr_GasLimit req) with
       | Ok n => Ok n
       | Err _ => Err (New "usage.bad_gas_limit"
           ("invalid --gas-limit " +:+ go_quote (gr_GasLimit req) +:+ ": want a positive integer"))
       end
  else match est with
       | Err e => Err (mapEstimateErr e)
       | Ok est =>
           if (est =? intrinsicEOAGas) && Nat.eqb (String.length data) 0 then Ok intrinsicEOAGas
           else Ok (mulCeilUint est limitMultiplier)
       end.

(** the estimated tip of a speed, raised to the configured floor *)
Definition estimatedTip (gp : gasParams) (fees : ChainFees) (speed : string) : Z :=
  let t := default 0 (Priority fees (speedColumn speed)) in
  match gp_minPriorityFee gp with Some m => if t <? m then m else t | None => t end.

Definition source_of (fees : ChainFees) : string :=
  if bool_decide (cf_Source fees = "") then "fee-history" else cf_Source fees.

Definition build1559Fees (req : GasReq) (gp : gasParams) (speed : string) (limit : Z) (reply : res GoError ChainFees)
  : res error Quote :=
  if negb (bool_decide (gr_GasPrice req = ""))
  then Err (New "usage.gas_price_non_legacy"
              "--gas-price is legacy-only; on an EIP-1559 network use --max-fee/--priority-fee")
  else
  let* fees := rpc reply in
  let estTip := estimatedTip gp fees speed in
  let* ovMaxFee := parseOptionalFee (gr_MaxFee req) "--max-fee" in
  let* ovTip := parseOptionalFee (gr_PriorityFee req) "--priority-fee" in
  let* fee := match ovMaxFee, ovTip with
              | Some maxFee, Some tip =>
                  if maxFee <? tip
                  then Err (New "usage.tip_exceeds_max_fee" "--priority-fee exceeds --max-fee")
                  else Ok (tip, maxFee)
              | None, Some tip => Ok (tip, maxFeeFormula (gp_baseFeeMultiplier gp) (cf_BaseFee fees) tip)
              | Some maxFee, None => Ok (if maxFee <? estTip then maxFee else estTip, maxFee)
              | None, None => Ok (estTip, maxFeeFormula (gp_baseFeeMultiplier gp) (cf_BaseFee fees) estTip)
              end in
  let '(tip, maxFee) := fee in
  Ok {| q_Legacy := false; q_GasLimit := limit; q_MaxFeePerGas := Some maxFee; q_PriorityFee := Some tip;
        q_GasPrice := None; q_BaseFee := cf_BaseFee fees; q_Speed := speed; q_Source := source_of fees;
        q_WorstCaseGasWei := Some (worstCaseGas limit (Some maxFee)) |}.

Definition legacy_quote (limit price : Z) (speed : string) : Quote :=
  {| q_Legacy := true; q_GasLimit := limit; q_MaxFeePerGas := None; q_PriorityFee := None; q_GasPrice := Some price;
     q_BaseFee := None; q_Speed := speed; q_Source := "legacy";
     q_WorstCaseGasWei := Some (worstCaseGas limit (Some price)) |}.

Definition buildLegacyFees (req : GasReq) (speed : string) (limit : Z) (price : res GoError (option Z))
  : res error Quote :=
  if negb (bool_decide (gr_MaxFee req = "")) || negb (bool_decide (gr_PriorityFee req = ""))
  then Err (New "usage.eip1559_on_legacy"
              "--max-fee/--priority-fee are 1559-only; on a legacy network use --gas-price")
  else
  let* p := if negb (bool_decide (gr_GasPrice req = "")) then parseFee (gr_GasPrice req) "--gas-price"
            else let* base := rpc price in Ok (mulSpeed base speed) in
  Ok (legacy_quote limit p speed).

(** buildGas, with the answers of eth_estimateGas, eth_feeHistory and eth_gasPrice *)
Definition buildGas (cfg : GasConfig) (network data : string) (req : GasReq) (est : res GoError Z)
           (fees : res GoError ChainFees) (price : res GoError (option Z)) : res error Quote :=
  let gp := gasParamsFor cfg network (gr_Legacy req) in
  let speed := parseSpeed (gr_Speed req) (gp_defaultSpeed gp) in
  let* limit := resolveGasLimit req (gp_limitMultiplier gp) data est in
  if gp_legacy gp then buildLegacyFees req speed limit price
  else build1559Fees req gp speed limit fees.

(** one row of [daxie gas] *)
Definition gasTierQuote (gp : gasParams) (fees : ChainFees) (speed : string) : Quote :=
  let tip := estimatedTip gp fees speed in
  {| q_Legacy := false; q_GasLimit := 0;
     q_MaxFeePerGas := Some (maxFeeFormula (gp_baseFeeMultiplier gp) (cf_BaseFee fees) tip);
     q_PriorityFee := Some tip; q_GasPrice := None; q_BaseFee := cf_BaseFee fees; q_Speed := speed;
     q_Source := source_of fees; q_WorstCaseGasWei := None |}.

Definition legacyQuote (base : option Z) (speed : string) : Quote :=
  {| q_Legacy := true; q_GasLimit := 0; q_MaxFeePerGas := None; q_PriorityFee := None;
     q_GasPrice := Some (mulSpeed base speed); q_BaseFee := None; q_Speed := speed; q_Source := "legacy";
     q_WorstCaseGasWei := None |}.

(** ** The fee bump (rbf.go) *)

Definition bigOrZero (s : string) : Z :=
  if bool_decide (s = "") then 0 else default 0 (SetString s 10).

Definition feeOrZero (s : option string) : Z := match s with Some s => bigOrZero s | None => 0 end.

Definition maxBig (a b : option Z) : Z :=
  let a := default 0 a in let b := default 0 b in if b <=? a then a else b.

Definition bumpPercent (v : option Z) (pct : float64) : Z :=
  match v with
  | None => 0
  | Some v =>
      if v =? 0 then 0
      else
        let '(num, den) := floatToRatio (fadd f_one (fdiv pct f_hundred)) in
        Z.quot (v * num + (den - 1)) den
  end.

Definition below_floor (what key : string) (floor : Z) : error :=
  WithData (New CodeTxReplacementUnderpriced (what +:+ " is below the +12.5% replacement floor"))
    {[key := DVal (DStr (z_string floor))]}.

(** an override, which must clear the floor *)
Definition override (s what key : string) (floor old : Z) : res error Z :=
  if bool_decide (s = "") then Ok old
  else let* ov := parseFee s what in if ov <? floor then Err (below_floor what key floor) else Ok ov.

(** the fees of the record to replace *)
Record OldFees := mkOldFees {
  of_Legacy : bool;
  of_GasLimit : Z;
  of_MaxFeePerGas : option string;
  of_MaxPriorityPerGas : option string;
  of_GasPrice : option string;
}.

Definition bumpedLegacy (old : OldFees) (req : GasReq) (gp : gasParams) (limit : Z) (reply : res GoError (option Z))
  : res error Quote :=
  let speed := parseSpeed (gr_Speed req) SpeedFast in
  let* base := rpc reply in
  let floor := bumpPercent (Some (feeOrZero (of_GasPrice old))) (gp_rbfBumpPercent gp) in
  let* price := override (gr_GasPrice req) "--gas-price" "floor_gas_price" floor
                  (maxBig (Some (mulSpeed base speed)) (Some floor)) in
  Ok (legacy_quote limit price speed).

Definition bumpedQuote (cfg : GasConfig) (network : string) (old : OldFees) (isCancel : bool) (req : GasReq)
           (reply : res GoError ChainFees) (price : res GoError (option Z)) : res error Quote :=
  let gp := gasParamsFor cfg network (of_Legacy old) in
  let limit := if isCancel then intrinsicEOAGas else of_GasLimit old in
  if gp_legacy gp then bumpedLegacy old req gp limit price
  else
    let speed := parseSpeed (gr_Speed req) SpeedFast in
    let* fees := rpc reply in
    let qTip := estimatedTip gp fees speed in
    let quoteMaxFee := maxFeeFormula (gp_baseFeeMultiplier gp) (cf_BaseFee fees) qTip in
    let floorTip := bumpPercent (Some (feeOrZero (of_MaxPriorityPerGas old))) (gp_rbfBumpPercent gp) in
    let floorMaxFee := bumpPercent (Some (feeOrZero (of_MaxFeePerGas old))) (gp_rbfBumpPercent gp) in
    let* newTip := override (gr_PriorityFee req) "--priority-fee" "floor_priority_fee" floorTip
                     (maxBig (Some qTip) (Some floorTip)) in
    let* newMaxFee := override (gr_MaxFee req) "--max-fee" "floor_max_fee" floorMaxFee
                        (maxBig (Some quoteMaxFee) (Some floorMaxFee)) in
    let newTip := if newMaxFee <? newTip then newMaxFee else newTip in
    Ok {| q_Legacy := false; q_GasLimit := limit; q_MaxFeePerGas := Some newMaxFee; q_PriorityFee := Some newTip;
          q_GasPrice := None; q_BaseFee := cf_BaseFee fees; q_Speed := speed; q_Source := "fee-history";
          q_WorstCaseGasWei := Some (worstCaseGas limit (Some newMaxFee)) |}.
End Gas.

(** ** The gas engine: its properties *)

Local Open Scope string_scope.
Local Open Scope Z_scope.
Local Open Scope list_scope.
Local Open Scope go_scope.

Section Facts.
Context {UT : UnicodeTables} {IC : Int64Conv}.

Lemma floatToRatio_pos m : 1 ≤ (floatToRatio m).1 ∧ 1 ≤ (floatToRatio m).2.
Proof.
  unfold floatToRatio. destruct (SFleb m f_zero); [done|].
  destruct (Z.leb_spec (int64 (fadd (fmul m f_million) f_half)) 0); simpl; lia.
Qed.

Lemma scaleBig_nonneg v m : 0 ≤ default 0 v → 0 ≤ scaleBig v m.
Proof.
  intros Hv. unfold scaleBig. destruct v as [v|]; [|done]. simpl in Hv.
  pose proof (floatToRatio_pos m) as [H1 H2]. destruct (floatToRatio m) as [num den]. simpl in *.
  apply Z.quot_pos; [|lia]. pose proof (Z.quot_pos den 2 ltac:(lia) ltac:(lia)). nia.
Qed.

Lemma maxFeeFormula_tip m base tip : 0 ≤ default 0 base → tip ≤ maxFeeFormula m base tip.
Proof. intros H. unfold maxFeeFormula. pose proof (scaleBig_nonneg (Some (default 0 base)) m H). lia. Qed.

(** rounding up keeps the ratio *)
Lemma quot_ceil v num den : 0 ≤ v → 0 ≤ num → 1 ≤ den → v * num ≤ den * Z.quot (v * num + (den - 1)) den.
Proof.
  intros Hv Hn Hd. pose proof (Z.quot_rem' (v * num + (den - 1)) den) as E.
  pose proof (Z.rem_bound_pos (v * num + (den - 1)) den ltac:(nia) ltac:(lia)). lia.
Qed.

Lemma quot_mono a b den : 0 ≤ a ≤ b → 1 ≤ den → Z.quot a den ≤ Z.quot b den.
Proof. intros H Hd. apply Z.quot_le_mono; lia. Qed.

Lemma bumpPercent_mono a b pct :
  0 ≤ a ≤ b → bumpPercent (Some a) pct ≤ bumpPercent (Some b) pct.
Proof.
  intros H. unfold bumpPercent. pose proof (floatToRatio_pos (fadd f_one (fdiv pct f_hundred))) as [H1 H2].
  destruct (floatToRatio _) as [num den]. simpl in *.
  destruct (Z.eqb_spec a 0) as [->|Ha]; destruct (Z.eqb_spec b 0) as [->|Hb]; try lia.
  - apply Z.quot_pos; nia.
  - apply quot_mono; nia.
Qed.

Lemma override_ok s what key floor old v :
  override s what key floor old = Ok v → (s = "" ∧ v = old) ∨ floor ≤ v.
Proof.
  unfold override. case_bool_decide; [intros [= <-]; by left|].
  intros (ov & _ & H')%rbind_ok. destruct (Z.ltb_spec ov floor); [done|]. injection H' as <-. by right.
Qed.

Lemma maxBig_ge a b : a ≤ maxBig (Some a) (Some b) ∧ b ≤ maxBig (Some a) (Some b).
Proof. unfold maxBig. simpl. zcases; lia. Qed.

Lemma override_floor s what key floor q v :
  override s what key floor (maxBig (Some q) (Some floor)) = Ok v → floor ≤ v.
Proof. intros [[_ ->]|H]%override_ok; [apply maxBig_ge|done]. Qed.

(** the strategy in force is the default one of the code, 12.5 percent *)
Definition f_12_5 : float64 := double 25 (-1).

Lemma ratio_12_5 : floatToRatio (fadd f_one (fdiv f_12_5 f_hundred)) = (1125000, 1000000).
Proof. vm_compute. reflexivity. Qed.

(** [ceil(v * 1.125)] *)
Lemma bump_12_5 v : 0 ≤ v → bumpPercent (Some v) f_12_5 = (9 * v + 7) / 8.
Proof.
  intros Hv. unfold bumpPercent. destruct (Z.eqb_spec v 0) as [->|Hne]; [done|].
  rewrite ratio_12_5, Z.quot_div_nonneg by lia. zlia.
Qed.

(** what the fees of a quote promise *)
Record sound_quote (q : Quote) : Prop := {
  sq_worst : q_WorstCaseGasWei q = Some (worstCaseGas (q_GasLimit q) (perGasPrice q));
  sq_priced : is_Some (perGasPrice q);
  sq_tip : ∀ tip maxFee, q_PriorityFee q = Some tip → q_MaxFeePerGas q = Some maxFee → tip ≤ maxFee;
}.

Lemma legacy_sound limit price speed : sound_quote (legacy_quote limit price speed).
Proof. by split; [|eexists|]. Qed.

Lemma build1559_sound req gp speed limit reply q :
  (∀ f, reply = Ok f → 0 ≤ default 0 (cf_BaseFee f)) →
  build1559Fees req gp speed limit reply = Ok q → sound_quote q ∧ q_GasLimit q = limit.
Proof.
  intros Hb. unfold build1559Fees. case_bool_decide; [|done]. cbn [negb].
  intros (fees & Hr & H1)%rbind_ok. apply rbind_ok in H1 as (o1 & _ & H1).
  apply rbind_ok in H1 as (o2 & _ & H1). apply rbind_ok in H1 as ([tip maxFee] & Hf & Hq).
  injection Hq as <-. destruct reply as [f|]; [|done]. simpl in Hr. injection Hr as ->.
  specialize (Hb fees eq_refl). split; [|done]. split; [done|by eexists|].
  cbn [q_PriorityFee q_MaxFeePerGas]. intros t m [= <-] [= <-].
  destruct o1 as [maxf|], o2 as [tp|].
  - destruct (Z.ltb_spec maxf tp); [done|]. by injection Hf as <- <-.
  - injection Hf as <- <-. zcases; lia.
  - injection Hf as <- <-. by apply maxFeeFormula_tip.
  - injection Hf as <- <-. by apply maxFeeFormula_tip.
Qed.

Lemma bumpedQuote_fees cfg network old isCancel req reply price q :
  gp_legacy (gasParamsFor cfg network (of_Legacy old)) = false →
  bumpedQuote cfg network old isCancel req reply price = Ok q →
  let pct := gp_rbfBumpPercent (gasParamsFor cfg network (of_Legacy old)) in
  let floorTip := bumpPercent (Some (feeOrZero (of_MaxPriorityPerGas old))) pct in
  let floorMax := bumpPercent (Some (feeOrZero (of_MaxFeePerGas old))) pct in
  ∃ tip maxFee, q_PriorityFee q = Some tip ∧ q_MaxFeePerGas q = Some maxFee ∧ q_Legacy q = false ∧
    q_GasLimit q = (if isCancel then intrinsicEOAGas else of_GasLimit old) ∧
    q_WorstCaseGasWei q = Some (q_GasLimit q * maxFee) ∧
    floorMax ≤ maxFee ∧ (floorTip ≤ tip ∨ tip = maxFee) ∧ tip ≤ maxFee.
Proof.
  intros Hleg. unfold bumpedQuote. rewrite Hleg. cbv zeta.
  intros (fees & _ & H1)%rbind_ok. apply rbind_ok in H1 as (nt & Ht & H1). apply rbind_ok in H1 as (nm & Hm & Hq).
  injection Hq as <-. apply override_floor in Ht, Hm.
  eexists _, nm. do 5 (split; [done|]). split; [done|].
  destruct (Z.ltb_spec nm nt); split; lia.
Qed.
End Facts.

(** ** The properties *)

Section Properties.
Context {UT : UnicodeTables} {IC : Int64Conv}.

(** A built quote is coherent and its reservation covers what can be charged.
    For every configuration, request and answer of the node with no negative
    base fee, a quote carries a price, its tip is at most its cap, and the
    worst case is the limit times the price; so a receipt that used at most the
    limit at no more than the price costs at most the reserved amount. *)
Theorem quote_sound cfg network data req est fees price q :
  (∀ f, fees = Ok f → 0 ≤ default 0 (cf_BaseFee f)) →
  buildGas cfg network data req est fees price = Ok q →
  sound_quote q ∧
  ∃ per worst, perGasPrice q = Some per ∧ q_WorstCaseGasWei q = Some worst ∧
    ∀ used eff, 0 ≤ used ≤ q_GasLimit q → 0 ≤ eff ≤ per → used * eff ≤ worst.
Proof.
  intros Hb. unfold buildGas. intros (limit & _ & H)%rbind_ok.
  assert (Hs : sound_quote q).
  { destruct (gp_legacy _); [|by eapply build1559_sound].
    unfold buildLegacyFees in H. destruct (_ || _); [done|].
    apply rbind_ok in H as (p & _ & [= <-]). apply legacy_sound. }
  split; [done|]. destruct Hs as [Hw [per Hper] _]. exists per, (q_GasLimit q * per).
  split; [done|]. split; [by rewrite Hw, Hper|]. intros used eff Hu He. nia.
Qed.

(** A fee bump clears the node's replacement rule.  With the default bump of
    12.5 percent, a replacement of a transaction whose tip was at most its cap
    raises both the cap and the tip by at least an eighth, rounded up, overrides
    included; for a positive fee that is strictly above and at least the ten
    percent nodes ask for. *)
Theorem bump_clears_floor cfg network old isCancel req reply price q oldTip oldMax :
  gp_legacy (gasParamsFor cfg network (of_Legacy old)) = false →
  gp_rbfBumpPercent (gasParamsFor cfg network (of_Legacy old)) = f_12_5 →
  bumpedQuote cfg network old isCancel req reply price = Ok q →
  feeOrZero (of_MaxPriorityPerGas old) = oldTip → feeOrZero (of_MaxFeePerGas old) = oldMax →
  0 ≤ oldTip ≤ oldMax →
  ∃ tip maxFee, q_PriorityFee q = Some tip ∧ q_MaxFeePerGas q = Some maxFee ∧ tip ≤ maxFee ∧
    9 * oldMax ≤ 8 * maxFee ∧ 9 * oldTip ≤ 8 * tip ∧
    (0 < oldMax → oldMax < maxFee ∧ 11 * oldMax ≤ 10 * maxFee) ∧
    (0 < oldTip → oldTip < tip ∧ 11 * oldTip ≤ 10 * tip).
Proof.
  intros Hleg Hpct Hq Ht Hm Hold.
  apply bumpedQuote_fees in Hq as (tip & maxFee & H1 & H2 & _ & _ & _ & H3 & H4 & H5); [|done].
  rewrite Hpct, Ht in H4. rewrite Hpct, Hm in H3.
  pose proof (bumpPercent_mono oldTip oldMax f_12_5 Hold) as Hmono.
  rewrite !bump_12_5 in * by lia. exists tip, maxFee. split; [done|]. split; [done|]. split; [done|].
  assert (9 * oldMax ≤ 8 * maxFee) by zlia.
  assert (9 * oldTip ≤ 8 * tip) by (destruct H4 as [H4| ->]; zlia).
  split_and!; [done|done|intros; lia|intros; lia].
Qed.

(** An explicit gas limit is read modulo 2^64.  A limit of decimal digits is
    accepted whatever its size, and the transaction and the reservation both
    use its residue: 2^64 is read as zero. *)
Theorem gas_limit_wraps req mult data est n :
  gr_GasLimit req ≠ "" → string_forallb is_digit (gr_GasLimit req) = true →
  SetString (gr_GasLimit req) 10 = Some n →
  resolveGasLimit req mult data est = Ok (n mod 2 ^ 64).
Proof.
  intros Hne Hd Hn. unfold resolveGasLimit, parseUint. rewrite !bool_decide_false by done. cbn [negb].
  assert (Hp : ∀ s acc acc', string_forallb is_digit s = true → acc = acc' mod 2 ^ 64 →
    parse_digits s acc = (λ n, n mod 2 ^ 64) <$> scan_digits 10 s acc').
  { induction s as [|c s IH]; intros acc acc' Hs ->; [done|]. cbn [string_forallb] in Hs.
    apply andb_true_iff in Hs as [Hc Hs]. cbn [parse_digits scan_digits]. rewrite Hc.
    assert (Hv : digit_val 10 c = Some (byteZ c - 48)).
    { unfold digit_val. unfold is_digit in Hc. rewrite Hc. apply andb_true_iff in Hc as [H1%Z.leb_le H2%Z.leb_le].
      destruct (Z.ltb_spec (byteZ c - 48) 10); [done|lia]. }
    rewrite Hv. apply IH; [done|]. rewrite <-(Z.add_mod_idemp_l (acc' * 10)), <-Z.mul_mod_idemp_l by done.
    by rewrite Z.add_mod_idemp_l by done. }
  rewrite SetString_digits in Hn by done. rewrite (Hp _ 0 0) by done. by rewrite Hn.
Qed.
End Properties.

(** ** Witnesses *)

Section Witnesses.
#[local] Existing Instance ascii_tables.

#[local] Instance saturating : Int64Conv := {| int64_other := λ _, - 2 ^ 63 |}.

Definition default_gas : GasDefaults := mkGasDefaults (fdiv (double 12 0) (double 10 0)) 20 "normal" (double 2 0) "0.01gwei" f_12_5.
Definition sample_config : GasConfig := mkGasConfig default_gas ∅.
Definition no_gas_req : GasReq := mkGasReq "" "" "" "" "" false.
Definition sample_fees : ChainFees := mkChainFees (Some 30000000000) (Some 1) (Some 2000000000) (Some 3000000000) "".

Lemma quote_sound_witness :
  let q := mkQuote false 60000 (Some 62000000000) (Some 2000000000) None (Some 30000000000) "normal" "fee-history"
             (Some (60000 * 62000000000)) in
  sound_quote q ∧
  ∃ per worst, perGasPrice q = Some per ∧ q_WorstCaseGasWei q = Some worst ∧
    ∀ used eff, 0 ≤ used ≤ q_GasLimit q → 0 ≤ eff ≤ per → used * eff ≤ worst.
Proof.
  apply (quote_sound sample_config "main" "x" no_gas_req (Ok 50000) (Ok sample_fees) (Ok None)).
  - intros f [= <-]. vm_compute. discriminate.
  - vm_compute. reflexivity.
Defined.

Definition sample_old : OldFees := mkOldFees false 60000 (Some "62000000000") (Some "2000000000") None.

Lemma bump_clears_floor_witness :
  ∃ q tip maxFee, bumpedQuote sample_config "main" sample_old false no_gas_req (Ok sample_fees) (Ok None) = Ok q ∧
    q_PriorityFee q = Some tip ∧ q_MaxFeePerGas q = Some maxFee ∧ tip ≤ maxFee ∧
    9 * 62000000000 ≤ 8 * maxFee ∧ 9 * 2000000000 ≤ 8 * tip ∧
    (0 < 62000000000 → 62000000000 < maxFee ∧ 11 * 62000000000 ≤ 10 * maxFee) ∧
    (0 < 2000000000 → 2000000000 < tip ∧ 11 * 2000000000 ≤ 10 * tip).
Proof.
  destruct (bumpedQuote sample_config "main" sample_old false no_gas_req (Ok sample_fees) (Ok None)) as [q|e] eqn:E;
    [|vm_compute in E; discriminate E].
  exists q.
  destruct (bump_clears_floor sample_config "main" sample_old false no_gas_req (Ok sample_fees) (Ok None) q
              2000000000 62000000000) as (tip & maxFee & H); [reflexivity|reflexivity|exact E|reflexivity|reflexivity| |].
  - split; vm_compute; discriminate.
  - exists tip, maxFee. split; [reflexivity|exact H].
Defined.

Lemma gas_limit_wraps_witness :
  resolveGasLimit (mkGasReq "18446744073709551616" "" "" "" "" false) f_one "" (Ok 0) = Ok (2 ^ 64 mod 2 ^ 64).
Proof. apply gas_limit_wraps; [discriminate|reflexivity|reflexivity]. Defined.
End Witnesses.
