(* ===== verification/Lifecycle.v ===== *)
(** * The lifecycle of a reservation

    The engine as a transition system on disks: a step is a write of one
    Reserve, Commit, Release or SettleActual, so a run may stop (crash) after
    any single file write and continue with any other operation, of this
    process or another.  The properties follow one reservation through the log
    and the spend counters along such runs. *)

From S2P Require Import Prelude GoStrings Decimal Rfc3339 Encodings PolicyTypes Domain Trace Evaluate Counter Reservation Engine EngineFacts Samples EngineProps.

Local Open Scope string_scope.
Local Open Scope Z_scope.
Local Open Scope list_scope.

(** ** What each operation writes *)

Section Traces.
Context {UT : UnicodeTables} {GC : GethCommon} {RC : LineCodec Reservation}.
Variable io : IO.

Lemma write_log_trace st m d d' :
  d' ∈ (write_log io st m d).2 → d' = upd_log d (appendAndCompact st m).
Proof.
  rewrite write_log_run. destruct (io_log_write io); [by intros ?%elem_of_nil|].
  by intros ->%list_elem_of_singleton.
Qed.

Lemma writeCounter_trace n a cf now d d' :
  d' ∈ (writeCounter io n a cf now d).2 → d' = upd_counter d n a (stored cf now).
Proof.
  rewrite writeCounter_run. destruct (io_counter_write io); [by intros ?%elem_of_nil|].
  by intros ->%list_elem_of_singleton.
Qed.

(** [d'] is [d] with the log record of [id] replaced by [m] of it *)
Definition log_written (id : string) (m : Reservation → Reservation) (d d' : Disk) : Prop :=
  ∃ st r, loadAll (dk_log d) = Ok st ∧ lg_byID st !! id = Some r ∧
          d' = upd_log d (appendAndCompact st (m r)).

(** [d'] is [d] with the counter entry of [id] changed by [m] *)
Definition entry_written (id : string) (m : counterEntry → counterEntry) (now : Z) (d d' : Disk) : Prop :=
  ∃ n a cf e, read_counter d n a = Ok cf ∧ findEntry cf id = Some e ∧
              d' = upd_counter d n a (stored (set_entries cf (update_first (has_id id) m (cf_Entries cf))) now).

Lemma transition_trace id m d d' :
  d' ∈ (transition io id m d).2 → id ≠ "" ∧ log_written id m d d'.
Proof.
  unfold transition. case_bool_decide; intros H'; tinv.
  destruct (lg_byID x0 !! id) as [r|] eqn:E; [|by tinv].
  apply write_log_trace in H'. split; [done|]. by exists x0, r.
Qed.

Lemma release_log_trace id d d' :
  d' ∈ (release_log io id d).2 →
  ∃ r st, loadAll (dk_log d) = Ok st ∧ lg_byID st !! id = Some r ∧ r_State r ≠ stateCommitted ∧
          d' = upd_log d (appendAndCompact st (set_state r stateReleased (r_Hash r))).
Proof.
  unfold release_log. intros H. tinv.
  destruct (lg_byID x0 !! id) as [r|] eqn:E; [|by tinv]. case_bool_decide; [by tinv|].
  apply write_log_trace in H. by exists r, x0.
Qed.

Lemma counterTransition_trace id m now d d' :
  d' ∈ (counterTransition io id m now d).2 → entry_written id m now d d'.
Proof.
  unfold counterTransition. case_bool_decide; intros H'; tinv.
  destruct (counter_context io d id) as [[n a]|]; [|by tinv]. tinv.
  destruct (findEntry x0 id) as [e|] eqn:E; [|by tinv].
  apply writeCounter_trace in H'. by exists n, a, x0, e.
Qed.

(** An operation in two halves: the log, then the counter. *)
Lemma halves_trace {A} (m1 : M A) (m2 : M unit) d d' (P : Disk → Disk → Prop) :
  (∀ d1, d1 ∈ (m1 d).2 → P d d1) →
  (∀ d0, (d0 = d ∨ P d d0) → ∀ d1, d1 ∈ (m2 d0).2 → P d d1) →
  d' ∈ (mbind m1 (λ _, m2) d).2 → P d d'.
Proof.
  intros H1 H2 [H|(a & tr & H & Hd)]%mbind_trace; [by apply H1|].
  apply (H2 (after d tr)); [|done]. unfold after.
  destruct tr as [|x tr _] using rev_ind; [by left|]. right. rewrite List.last_last. apply H1.
  rewrite H. simpl. apply elem_of_app. right. left.
Qed.
End Traces.

(** ** Counters: what a settlement does to an entry *)

Section Settlement.
(** amounts are decimal numbers *)
Definition cand_wf (c : counterCandidate) : Prop :=
  is_Some (SetString (cc_ValueWei c) 10) ∧ is_Some (SetString (cc_GasMaxWei c) 10) ∧
  ∀ p, cc_GasActualWei c = Some p → is_Some (SetString p 10).
Definition entry_wf (e : counterEntry) : Prop := Forall cand_wf (ce_Candidates e).

Lemma reserved_cand_wf v g : cand_wf (reserved_cand v g).
Proof. unfold cand_wf. simpl. rewrite !SetString_z_string. by split_and!; [eauto..|]. Qed.

Lemma settle_gas_le actual c : cand_wf c → settle_gas actual (cc_GasActualWei c) (cc_GasMaxWei c) ≤ candGas c.
Proof.
  intros (_ & [w Hw] & Hp). unfold settle_gas, candGas. rewrite Hw.
  destruct (cc_GasActualWei c) as [p|].
  - destruct (Hp p eq_refl) as [v ->]. simpl.
    zcases; lia.
  - simpl. zcases; lia.
Qed.

(** [f] does not increase what a candidate counts for *)
Definition shrinks (f : counterCandidate → counterCandidate) (c : counterCandidate) : Prop :=
  zmax0 (live_values [f c]) ≤ zmax0 (live_values [c]) ∧ zmax0 (live_gas [f c]) ≤ zmax0 (live_gas [c]).

Lemma live_values_cons c cs : live_values (c :: cs) = live_values [c] ++ live_values cs.
Proof. apply (live_values_app [c]). Qed.
Lemma live_gas_cons c cs : live_gas (c :: cs) = live_gas [c] ++ live_gas cs.
Proof. apply (live_gas_app [c]). Qed.

Lemma shrinks_alter f i cs :
  Forall (shrinks f) cs →
  zmax0 (live_values (alter f i cs)) ≤ zmax0 (live_values cs) ∧
  zmax0 (live_gas (alter f i cs)) ≤ zmax0 (live_gas cs).
Proof.
  intros H. revert i. induction H as [|c cs [Hv Hg] _ IH]; intros [|i]; [done|done| |].
  - change (alter f 0%nat (c :: cs)) with (f c :: cs).
    rewrite (live_values_cons (f c)), (live_values_cons c), (live_gas_cons (f c)), (live_gas_cons c), !zmax0_app.
    lia.
  - change (alter f (S i) (c :: cs)) with (c :: alter f i cs).
    rewrite (live_values_cons c (alter f i cs)), (live_values_cons c cs),
      (live_gas_cons c (alter f i cs)), (live_gas_cons c cs), !zmax0_app.
    destruct (IH i). lia.
Qed.

Lemma on_primary_contribution f now e :
  Forall (shrinks f) (ce_Candidates e) → contribution now (on_primary f e) ≤ contribution now e.
Proof.
  intros H. unfold on_primary. destruct (primaryCandidate e) as [i|]; [|done].
  rewrite !contribution_alt. cbn [ce_TS set_candidates]. destruct (aged_out _ _); [done|].
  unfold envelope. rewrite !maxValueWei_zmax, !maxGasWei_zmax. cbn [ce_Candidates set_candidates].
  destruct (shrinks_alter f i _ H). lia.
Qed.

Lemma shrinks_commit h c : shrinks (commit_candidate h) c.
Proof.
  unfold shrinks, commit_candidate. case_bool_decide as H; [done|].
  unfold live_values, live_gas, is_released. simpl. rewrite (bool_decide_false _ H). done.
Qed.

Lemma shrinks_release c : shrinks release_candidate c.
Proof.
  unfold shrinks, release_candidate. case_bool_decide as H; [|done].
  unfold live_values at 1, live_gas at 1. simpl. split; apply zmax0_nonneg.
Qed.

Lemma shrinks_settle actual rev c : cand_wf c → shrinks (settle_candidate actual rev) c.
Proof.
  intros Hc. unfold shrinks, live_values, live_gas, is_released. csimpl.
  case_bool_decide as H; [done|]. split.
  - destruct rev; [|done]. change (SetString "0" 10) with (Some 0).
    destruct Hc as [[v ->] _]. unfold zmax0. csimpl. lia.
  - unfold zmax0. simpl. unfold candGas at 1. simpl. rewrite SetString_z_string. simpl.
    pose proof (settle_gas_le actual c Hc). lia.
Qed.

Lemma Forall_alter_all {A} (P : A → Prop) (f : A → A) l i : Forall P l → (∀ x, P x → P (f x)) → Forall P (alter f i l).
Proof. intros H Hf. revert i. induction H; intros [|i]; constructor; auto. Qed.

Lemma on_primary_wf f e : (∀ c, cand_wf c → cand_wf (f c)) → entry_wf e → entry_wf (on_primary f e).
Proof.
  intros Hf He. unfold on_primary. destruct (primaryCandidate e) as [i|]; [|done].
  by apply Forall_alter_all.
Qed.

Lemma on_primary_id f e : ce_ID (on_primary f e) = ce_ID e.
Proof. unfold on_primary. by destruct (primaryCandidate e). Qed.

Lemma commit_wf h c : cand_wf c → cand_wf (commit_candidate h c).
Proof. unfold commit_candidate. by case_bool_decide. Qed.
Lemma release_wf c : cand_wf c → cand_wf (release_candidate c).
Proof. unfold release_candidate. by case_bool_decide. Qed.
Lemma settle_wf a rev c : cand_wf c → cand_wf (settle_candidate a rev c).
Proof.
  intros (Hv & Hg & Hp). unfold settle_candidate, cand_wf. simpl. split_and!; [|done|].
  - destruct rev; [by vm_compute; eauto|done].
  - intros p [= <-]. rewrite SetString_z_string. eauto.
Qed.
End Settlement.

#[export] Hint Resolve commit_wf release_wf settle_wf reserved_cand_wf shrinks_commit shrinks_release
  shrinks_settle on_primary_id : daxie.

(** ** The transition system *)

Section System.
Context {UT : UnicodeTables} {GC : GethCommon} {RC : LineCodec Reservation}.
Variable accounts : option (string → list Address).

(** the record of [id] in the log, if the log is readable and has one *)
Definition status (d : Disk) (id : string) : option Reservation :=
  match loadAll (dk_log d) with Ok st => lg_byID st !! id | Err _ => None end.

(** [id] is in no counter file *)
Definition uncounted (d : Disk) (id : string) : Prop :=
  ∀ p cf, dk_counters d !! p = Some (Document cf) → id ∉ map ce_ID (cf_Entries cf).

(** a settlement operation: Commit, Release or SettleActual *)
Inductive settlement (now : Z) (d d' : Disk) : Prop :=
| set_commit io id h : d' ∈ (Commit io id h now d).2 → settlement now d d'
| set_release io id : d' ∈ (Release io id now d).2 → settlement now d d'
| set_settle io id actual rev : d' ∈ (SettleActual io id actual rev now d).2 → settlement now d d'.
(** One write of one operation; [drawn] says which identifiers Reserve may draw. *)
Inductive step (drawn : string → Prop) (d d' : Disk) : Prop :=
| step_reserve io active id c now0 now :
    id ≠ "" → drawn id → uncounted d id →
    d' ∈ (Reserve io accounts active id c now0 now d).2 → step drawn d d'
| step_settlement now : settlement now d d' → step drawn d d'.

Definition run (drawn : string → Prop) : relation Disk := rtc (step drawn).

(** ** The log *)

(** What a write can do to the record of one identifier that is not drawn. *)
Inductive advance : option Reservation → option Reservation → Prop :=
| adv_same o : advance o o
| adv_compact r : isTerminal r = true → advance (Some r) None
| adv_commit r h : r_State r ≠ stateReleased → advance (Some r) (Some (set_state r stateCommitted h))
| adv_release r : r_State r ≠ stateCommitted →
    advance (Some r) (Some (set_state r stateReleased (r_Hash r)))
| adv_settle r actual rev : advance (Some r) (Some (settle_reservation actual rev r)).

Lemma status_upd_log d st m id :
  loadAll (dk_log d) = Ok st → r_ID m ≠ "" →
  status (upd_log d (appendAndCompact st m)) id =
  if bool_decide (id = r_ID m) then Some m
  else match status d id with Some r => if isTerminal r then None else Some r | None => None end.
Proof.
  intros Hst Hm. unfold status. rewrite Hst.
  destruct (loadAll_appendAndCompact st m) as (st' & E & _ & Hl); [by eapply loadAll_wf|done|].
  cbn [dk_log upd_log]. rewrite E. apply Hl.
Qed.

Lemma advance_write d st m r id :
  loadAll (dk_log d) = Ok st → lg_byID st !! r_ID m = Some r → r_ID m ≠ "" →
  advance (Some r) (Some m) →
  advance (status d id) (status (upd_log d (appendAndCompact st m)) id).
Proof.
  intros Hst Hr Hm Ha. rewrite (status_upd_log _ st) by done.
  case_bool_decide as Hid.
  - subst. unfold status. by rewrite Hst, Hr.
  - destruct (status d id) as [x|]; [|constructor]. destruct (isTerminal x) eqn:E; by constructor.
Qed.

Lemma log_written_advance id m d d' x :
  (∀ r, r_ID (m r) = r_ID r) → (∀ r, advance (Some r) (Some (m r))) →
  log_written id m d d' → id ≠ "" → advance (status d x) (status d' x).
Proof.
  intros Hid Ha (st & r & Hst & Hr & ->) Hne.
  assert (Hk : r_ID r = id) by (eapply wf_key; [by eapply loadAll_wf|done]).
  apply (advance_write d st (m r) r); rewrite ?Hid, ?Hk; auto.
Qed.

Lemma entry_written_status id m now d d' x : entry_written id m now d d' → status d' x = status d x.
Proof. by intros (n & a & cf & e & _ & _ & ->). Qed.

Lemma commit_advance h r : advance (Some r) (Some (commit_reservation h r)).
Proof. unfold commit_reservation. case_bool_decide; by constructor. Qed.

Lemma commit_id h r : r_ID (commit_reservation h r) = r_ID r.
Proof. unfold commit_reservation. by case_bool_decide. Qed.

Lemma two_halves_advance id m1 m2 now io d d' x :
  (∀ r, r_ID (m1 r) = r_ID r) → (∀ r, advance (Some r) (Some (m1 r))) →
  d' ∈ (mbind (transition io id m1) (λ _, counterTransition io id m2 now) d).2 →
  advance (status d x) (status d' x).
Proof.
  intros Hid Ha. apply (halves_trace _ _ _ _ (λ d d', advance (status d x) (status d' x))).
  - intros d1 [Hne Hw]%transition_trace. by eapply log_written_advance.
  - intros d0 H0 d1 Hw%counterTransition_trace. rewrite (entry_written_status _ _ _ _ _ _ Hw).
    destruct H0 as [->|H0]; [constructor|done].
Qed.

(** Every write advances every record that Reserve does not draw. *)
Lemma step_advance drawn d d' x : step drawn d d' → ¬ drawn x → advance (status d x) (status d' x).
Proof.
  intros [io active id c now0 now Hne Hd _ H|now [io id h H|io id H|io id actual rev H]] Hx.
  - apply Reserve_trace in H as (st & Hst & Hl).
    assert (Hs : status d' x = status (upd_log d (appendAndCompact st (newReservation id c now0))) x)
      by (unfold status; by rewrite Hl).
    rewrite Hs, (status_upd_log _ st) by done. rewrite bool_decide_false by (intros ->; done).
    destruct (status d x) as [r|]; [|constructor]. destruct (isTerminal r) eqn:E; by constructor.
  - eapply two_halves_advance; [apply commit_id|apply commit_advance|exact H].
  - unfold Release in H. case_bool_decide; [by tinv|].
    apply (halves_trace _ _ _ _ (λ d d', advance (status d x) (status d' x))) in H; [done|..].
    + intros d1 (r & st & Hst & Hr & Hs & ->)%release_log_trace.
      assert (Hk : r_ID r = id) by (eapply wf_key; [by eapply loadAll_wf|done]).
      apply (advance_write _ _ _ r); [done|by simpl; rewrite Hk|by simpl; rewrite Hk|by constructor].
    + intros d0 H' d1 Hw%counterTransition_trace. rewrite (entry_written_status _ _ _ _ _ _ Hw).
      destruct H' as [->|H']; [constructor|done].
  - eapply two_halves_advance; [| |exact H]; [done|]. intros r. constructor.
Qed.

(** A property of records that every advance keeps is kept by every run. *)
Lemma run_invariant drawn (P : Reservation → Prop) d d' x r r' :
  ¬ drawn x → (∀ a b, P a → advance (Some a) (Some b) → P b) →
  run drawn d d' → status d x = Some r → P r → status d' x = Some r' → P r'.
Proof.
  intros Hx HP Hrun Hr Hp.
  assert (H : match status d x with Some a => P a | None => True end) by (by rewrite Hr).
  clear Hr Hp. induction Hrun as [d|d d1 d' Hs _ IH]; [intros E; by rewrite E in H|].
  apply IH. apply step_advance with (x := x) in Hs; [|done].
  revert H Hs. destruct (status d x) as [a|]; intros H Hs.
  - destruct (status d1 x) as [b|] eqn:E; [by eapply HP|done].
  - inversion Hs as [o E1 E2| | | |]. done.
Qed.

(** ** The counters *)

Lemma log_written_window id m d d' n now a :
  log_written id m d d' → window d' n now a = window d n now a.
Proof. by intros (st & r & _ & _ & ->). Qed.

Lemma read_counter_same_path d n m a b :
  counterPath n a = counterPath m b →
  match read_counter d n a, read_counter d m b with
  | Ok cf, Ok cf' => cf_Entries cf = cf_Entries cf'
  | Err _, Err _ => True
  | _, _ => False
  end.
Proof.
  intros H. unfold read_counter. rewrite H.
  destruct (dk_counters d !! counterPath m b) as [[|cf]|]; done.
Qed.

(** the window after a counter file was rewritten *)
Lemma window_upd_gen d n m a b cf now :
  window (upd_counter d n a cf) m now b =
  if bool_decide (counterPath m b = counterPath n a) then sumWindow cf now else window d m now b.
Proof.
  case_bool_decide as H; unfold window.
  - destruct (read_counter_upd_eq d n a cf) as (cf' & E & He).
    pose proof (read_counter_same_path (upd_counter d n a cf) m n b a H) as Hs. rewrite E in Hs.
    destruct (read_counter _ m b) as [cf''|]; [|done]. by rewrite !sumWindow_zsum, Hs, He.
  - by rewrite read_counter_upd_ne.
Qed.

Lemma window_same_path d n m a b now :
  counterPath n a = counterPath m b → window d n now a = window d m now b.
Proof.
  intros H. pose proof (read_counter_same_path d n m a b H) as Hs. unfold window.
  destruct (read_counter d n a), (read_counter d m b); try done. by rewrite !sumWindow_zsum, Hs.
Qed.

Lemma entry_written_window id m now now' d d' n a :
  now ≤ now' →
  (∀ cf e, (∃ n a, read_counter d n a = Ok cf) → e ∈ cf_Entries cf →
           contribution now' (m e) ≤ contribution now' e) →
  entry_written id m now d d' → window d' n now' a ≤ window d n now' a.
Proof.
  intros Hle Hm (n0 & a0 & cf & e & Hcf & He & ->). rewrite window_upd_gen.
  case_bool_decide as Hp; [|done].
  rewrite (window_same_path d n n0 a a0 now' Hp), sumWindow_stored by done.
  unfold window. rewrite Hcf, !sumWindow_zsum. cbn [cf_Entries set_entries].
  destruct (find_has_id_split cf id e He) as (_ & l1 & l2 & Hl & _ & Hu). rewrite Hu, Hl.
  rewrite !map_app, !zsum_app. cbn [map]. rewrite !zsum_cons.
  assert (contribution now' (m e) ≤ contribution now' e); [|lia].
  apply (Hm cf); [eauto|]. rewrite Hl, elem_of_app. right. left.
Qed.

(** What every reachable set of counter files satisfies. *)
Definition counters_inv (d : Disk) : Prop :=
  ∀ p cf, dk_counters d !! p = Some (Document cf) →
          Forall entry_wf (cf_Entries cf) ∧ NoDup (map ce_ID (cf_Entries cf)).

Lemma counters_inv_read d n a cf :
  counters_inv d → read_counter d n a = Ok cf →
  Forall entry_wf (cf_Entries cf) ∧ NoDup (map ce_ID (cf_Entries cf)).
Proof.
  intros Hi. unfold read_counter. destruct (dk_counters d !! _) as [[|cf0]|] eqn:E.
  - done.
  - intros [= <-]. by apply (Hi _ _ E).
  - intros [= <-]. simpl. split; constructor.
Qed.

Lemma counters_inv_upd d n a cf now :
  counters_inv d → Forall entry_wf (cf_Entries cf) → NoDup (map ce_ID (cf_Entries cf)) →
  counters_inv (upd_counter d n a (stored cf now)).
Proof.
  intros Hi Hw Hn p cf'. unfold upd_counter. cbn [dk_counters].
  destruct (decide (counterPath n a = p)) as [<-|Hp].
  - rewrite lookup_insert_eq. intros [= <-]. unfold stored, pruneCounter. cbn [cf_Entries set_entries]. split.
    + apply Forall_forall. intros e He. apply list_elem_of_In, filter_In in He as [He _].
      rewrite Forall_forall in Hw. apply Hw. by apply list_elem_of_In.
    + by apply NoDup_map_filter.
  - rewrite lookup_insert_ne by done. apply Hi.
Qed.

Lemma counters_inv_log d b : counters_inv d → counters_inv (upd_log d b).
Proof. done. Qed.

Lemma entry_written_inv id m now d d' :
  (∀ e, entry_wf e → entry_wf (m e)) → (∀ e, ce_ID (m e) = ce_ID e) →
  entry_written id m now d d' → counters_inv d → counters_inv d'.
Proof.
  intros Hw Hid (n & a & cf & e & Hcf & _ & ->) Hi.
  destruct (counters_inv_read _ _ _ _ Hi Hcf) as [H1 H2].
  apply counters_inv_upd; cbn [cf_Entries set_entries]; [done|by apply update_first_forall|].
  by rewrite update_first_map.
Qed.

Lemma debit_inv cf id c now :
  Forall entry_wf (cf_Entries cf) → NoDup (map ce_ID (cf_Entries cf)) → id ∉ map ce_ID (cf_Entries cf) →
  Forall entry_wf (cf_Entries (debitCounter cf id c now)) ∧
  NoDup (map ce_ID (cf_Entries (debitCounter cf id c now))).
Proof.
  intros Hw Hn Hid. unfold debitCounter. destruct (superseded c cf) as [e|] eqn:E.
  - destruct (superseded_some _ _ _ E) as (n & -> & _). cbn [cf_Entries set_entries].
    rewrite update_first_map by done. split; [|done]. apply update_first_forall; [done|].
    intros x Hx. apply Forall_app. split; [done|]. constructor; [apply reserved_cand_wf|constructor].
  - cbn [cf_Entries sortEntriesByTS set_entries]. rewrite stable_sort_perm. split.
    + apply Forall_app. split; [done|]. constructor; [|constructor].
      constructor; [apply reserved_cand_wf|constructor].
    + rewrite map_app. apply NoDup_app. split_and!; [done| |apply NoDup_singleton].
      intros x Hx Hx'. apply list_elem_of_singleton in Hx'. cbn in Hx'. by subst.
Qed.

(** the candidate mutations: they keep amounts well-formed and never count more *)
Definition settler (f : counterCandidate → counterCandidate) : Prop :=
  (∀ c, cand_wf c → cand_wf (f c)) ∧ (∀ c, cand_wf c → shrinks f c).

Lemma halves_counters {A} (m1 : M A) io id f now d d' :
  settler f →
  (∀ d1, d1 ∈ (m1 d).2 → dk_counters d1 = dk_counters d) →
  d' ∈ (mbind m1 (λ _, counterTransition io id (on_primary f) now) d).2 →
  dk_counters d' = dk_counters d ∨
  ∃ id f d0, dk_counters d0 = dk_counters d ∧ settler f ∧ entry_written id (on_primary f) now d0 d'.
Proof.
  intros Hf H1 [H|(a & tr & H & Hd)]%mbind_trace; [left; by apply H1|right].
  apply counterTransition_trace in Hd. exists id, f, (after d tr). split; [|done].
  unfold after. destruct tr as [|x tr _] using rev_ind; [done|]. rewrite List.last_last. apply H1.
  rewrite H. simpl. apply elem_of_app. right. left.
Qed.

Lemma settlement_writes now d d' :
  settlement now d d' →
  dk_counters d' = dk_counters d ∨
  ∃ id f d0, dk_counters d0 = dk_counters d ∧ settler f ∧ entry_written id (on_primary f) now d0 d'.
Proof.
  intros [io id h H|io id H|io id actual rev H].
  - apply (halves_counters _ _ _ (commit_candidate h)) in H; [done|by split; eauto with daxie|].
    by intros d1 [_ (st & r & _ & _ & ->)]%transition_trace.
  - unfold Release in H. case_bool_decide; [by tinv|].
    apply (halves_counters _ _ _ release_candidate) in H; [done|by split; eauto with daxie|].
    by intros d1 (r & st & _ & _ & _ & ->)%release_log_trace.
  - apply (halves_counters _ _ _ (settle_candidate (default 0 actual) rev)) in H;
      [done|by split; eauto with daxie|].
    by intros d1 [_ (st & r & _ & _ & ->)]%transition_trace.
Qed.

Lemma step_counters_inv drawn d d' : step drawn d d' → counters_inv d → counters_inv d'.
Proof.
  intros [io active id c now0 now Hne _ Hun H|now H] Hi.
  - apply Reserve_writes in H as (st & _ & [->|(pol & cf & _ & Hcf & _ & _ & ->)]); [done|].
    destruct (counters_inv_read _ _ _ _ Hi Hcf) as [H1 H2].
    assert (Hid : id ∉ map ce_ID (cf_Entries cf)).
    { unfold read_counter in Hcf. destruct (dk_counters d !! _) as [[|cf0]|] eqn:E; [done| |].
      - injection Hcf as <-. by apply (Hun _ _ E).
      - injection Hcf as <-. by intros ?%elem_of_nil. }
    destruct (debit_inv cf id c now H1 H2 Hid). by apply counters_inv_upd.
  - apply settlement_writes in H as [H|(id & f & d0 & H0 & [Hw _] & H)].
    + unfold counters_inv. by rewrite H.
    + eapply entry_written_inv; [|apply on_primary_id|exact H|unfold counters_inv; by rewrite H0].
      intros e. by apply on_primary_wf.
Qed.

Lemma step_window now now' d d' n a :
  settlement now d d' → counters_inv d → now ≤ now' → window d' n now' a ≤ window d n now' a.
Proof.
  intros H Hi Hle. apply settlement_writes in H as [H|(id & f & d0 & H0 & [_ Hs] & H)].
  - unfold window, read_counter. by rewrite H.
  - assert (Hw0 : window d0 n now' a = window d n now' a) by (unfold window, read_counter; by rewrite H0).
    rewrite <-Hw0. eapply entry_written_window; [done| |exact H].
    intros cf e (m & b & Hcf) He. apply on_primary_contribution.
    assert (Hi0 : counters_inv d0) by (unfold counters_inv; by rewrite H0).
    destruct (counters_inv_read _ _ _ _ Hi0 Hcf) as [Hwf _]. rewrite Forall_forall in Hwf.
    specialize (Hwf e He). eapply Forall_impl; [exact Hwf|exact Hs].
Qed.
End System.
