(* ===== verification/LifecycleProps.v ===== *)
(** * Runs of the engine

    First the exact result of Commit, Release and SettleActual when no I/O
    fails, and two scenarios of the engine alone: a fee bump whose settlement
    misses the counter, and a commit that comes after a release.  Then what
    every run of the engine guarantees, whatever write it is cut off after: the
    daily limit as time passes, and the finality of the terminal states. *)

From S2P Require Import Prelude GoStrings Decimal Rfc3339 Encodings PolicyTypes Domain Trace Evaluate Counter Reservation Engine EngineFacts Samples EngineProps Lifecycle.

Local Open Scope string_scope.
Local Open Scope Z_scope.
Local Open Scope list_scope.

Section Runs.
Context {UT : UnicodeTables} {GC : GethCommon} {RC : LineCodec Reservation}.

Lemma status_loaded d x r : status d x = Some r → ∃ st, loadAll (dk_log d) = Ok st ∧ lg_byID st !! x = Some r.
Proof. unfold status. destruct (loadAll (dk_log d)) as [st|]; [eauto|done]. Qed.

Lemma status_key d x r : status d x = Some r → r_ID r = x.
Proof. intros (st & Hst & Hr)%status_loaded. eapply wf_key; [by eapply loadAll_wf|done]. Qed.

(** the log after the record of [r] became [m] *)
Definition relogged (d : Disk) (m : Reservation) : Disk :=
  match loadAll (dk_log d) with
  | Ok st => upd_log d (appendAndCompact st m)
  | Err _ => d
  end.

Lemma relogged_counters d m : dk_counters (relogged d m) = dk_counters d.
Proof. unfold relogged. by destruct (loadAll _). Qed.

Lemma status_relogged d m r :
  status d (r_ID m) = Some r → r_ID m ≠ "" → status (relogged d m) (r_ID m) = Some m.
Proof.
  intros (st & Hst & Hr)%status_loaded Hm. unfold relogged. rewrite Hst.
  rewrite (status_upd_log _ st) by done. by rewrite bool_decide_true.
Qed.

Lemma transition_run id m d r :
  id ≠ "" → status d id = Some r → transition io_ok id m d = (Ok tt, [relogged d (m r)]).
Proof.
  intros Hid (st & Hst & Hr)%status_loaded. unfold transition, relogged. rewrite bool_decide_false by done.
  unfold withLock. rewrite (mbind_read _ _ _ tt), (mbind_read _ _ _ st) by (by rewrite ?load_log_run, ?Hst).
  by rewrite Hr, Hst, write_log_run.
Qed.

Lemma transition_missing id m d st :
  id ≠ "" → loadAll (dk_log d) = Ok st → lg_byID st !! id = None →
  transition io_ok id m d = (Err (missing id), []).
Proof.
  intros Hid Hst Hr. unfold transition. rewrite bool_decide_false by done.
  unfold withLock. rewrite (mbind_read _ _ _ tt), (mbind_read _ _ _ st) by (by rewrite ?load_log_run, ?Hst).
  by rewrite Hr.
Qed.

Lemma release_log_run id d r :
  status d id = Some r → r_State r ≠ stateCommitted →
  release_log io_ok id d = (Ok tt, [relogged d (set_state r stateReleased (r_Hash r))]).
Proof.
  intros (st & Hst & Hr)%status_loaded Hs. unfold release_log, relogged, withLock.
  rewrite (mbind_read _ _ _ tt), (mbind_read _ _ _ st) by (by rewrite ?load_log_run, ?Hst).
  by rewrite Hr, Hst, bool_decide_false, write_log_run.
Qed.

Lemma counter_context_run d id r :
  status d id = Some r → r_Account r ≠ 0 → counter_context io_ok d id = Some (r_Network r, r_Account r).
Proof.
  intros (st & Hst & Hr)%status_loaded Ha. unfold counter_context. simpl. rewrite Hst, Hr.
  by apply Z.eqb_neq in Ha as ->.
Qed.

Definition recounted (d : Disk) (r : Reservation) (cf : counterFile) (m : counterEntry → counterEntry) (now : Z) : Disk :=
  upd_counter d (r_Network r) (r_Account r)
    (stored (set_entries cf (update_first (has_id (r_ID r)) m (cf_Entries cf))) now).

Lemma counterTransition_run id m now d r cf :
  id ≠ "" → status d id = Some r → r_Account r ≠ 0 → read_counter d (r_Network r) (r_Account r) = Ok cf →
  counterTransition io_ok id m now d =
  (Ok tt, match findEntry cf id with Some _ => [recounted d r cf m now] | None => [] end).
Proof.
  intros Hid Hr Ha Hcf. pose proof (status_key _ _ _ Hr) as Hk. unfold counterTransition, withNetworkLock.
  rewrite bool_decide_false, (mbind_read _ _ _ d) by done. rewrite (counter_context_run d id r) by done.
  rewrite (mbind_read _ _ _ tt), (mbind_read _ _ _ cf) by (by rewrite ?loadCounter_run, ?Hcf).
  destruct (findEntry cf id); [|done]. unfold recounted. rewrite Hk. by rewrite writeCounter_run.
Qed.

(** the two halves together *)
Lemma two_halves_run id (m1 : M unit) m2 now d d1 r cf :
  id ≠ "" → m1 d = (Ok tt, [d1]) → status d1 id = Some r → r_Account r ≠ 0 →
  read_counter d1 (r_Network r) (r_Account r) = Ok cf →
  mbind m1 (λ _, counterTransition io_ok id m2 now) d =
  (Ok tt, d1 :: match findEntry cf id with Some _ => [recounted d1 r cf m2 now] | None => [] end).
Proof.
  intros Hid H1 Hr Ha Hcf. rewrite (mbind_run _ _ _ _ _ H1). cbn [after List.last].
  by rewrite (counterTransition_run _ _ _ _ r cf).
Qed.

(** With distinct identifiers the entry found is the one with the identifier. *)
Lemma find_unique es e : NoDup (map ce_ID es) → e ∈ es → List.find (has_id (ce_ID e)) es = Some e.
Proof.
  induction es as [|x es IH]; [by intros _ ?%elem_of_nil|]. cbn [map List.find].
  intros [Hx Hnd]%NoDup_cons [->|He]%elem_of_cons; unfold has_id.
  - by rewrite bool_decide_true.
  - rewrite bool_decide_false; [by apply IH|]. intros Heq. apply Hx. rewrite Heq. by apply list_elem_of_fmap_2.
Qed.

Lemma find_fresh es id : id ∉ map ce_ID es → List.find (has_id id) es = None.
Proof.
  intros H. apply find_none_existsb, existsb_false. intros e He. unfold has_id.
  apply bool_decide_eq_false. intros <-. apply H. by apply list_elem_of_fmap_2.
Qed.

(** what changing one entry does to the sum *)
Lemma sumWindow_update cf id e m now :
  findEntry cf id = Some e →
  sumWindow (set_entries cf (update_first (has_id id) m (cf_Entries cf))) now =
  sumWindow cf now - contribution now e + contribution now (m e).
Proof.
  intros He. destruct (find_has_id_split cf id e He) as (_ & l1 & l2 & Hl & _ & Hu).
  rewrite !sumWindow_zsum. cbn [cf_Entries set_entries]. rewrite Hu, Hl, !map_app, !zsum_app.
  cbn [map]. rewrite !zsum_cons. lia.
Qed.

(** ** Commit never changes what is counted *)

Lemma commit_live h i cs :
  zmax0 (live_values (alter (commit_candidate h) i cs)) = zmax0 (live_values cs) ∧
  zmax0 (live_gas (alter (commit_candidate h) i cs)) = zmax0 (live_gas cs).
Proof.
  assert (H1 : ∀ c, live_values [commit_candidate h c] = live_values [c] ∧
                    live_gas [commit_candidate h c] = live_gas [c]).
  { intros c. unfold commit_candidate. case_bool_decide as H; [done|].
    unfold live_values, live_gas, is_released. simpl. by rewrite (bool_decide_false _ H). }
  revert i. induction cs as [|c cs IH]; intros [|i]; try done.
  - change (alter (commit_candidate h) 0%nat (c :: cs)) with (commit_candidate h c :: cs).
    destruct (H1 c) as [Hv Hg].
    by rewrite (live_values_cons _ cs), (live_gas_cons _ cs), Hv, Hg, <-live_values_cons, <-live_gas_cons.
  - change (alter (commit_candidate h) (S i) (c :: cs)) with (c :: alter (commit_candidate h) i cs).
    rewrite (live_values_cons c (alter _ i cs)), (live_values_cons c cs),
      (live_gas_cons c (alter _ i cs)), (live_gas_cons c cs), !zmax0_app.
    destruct (IH i) as [-> ->]. done.
Qed.

Lemma commit_contribution h now e : contribution now (on_primary (commit_candidate h) e) = contribution now e.
Proof.
  unfold on_primary. destruct (primaryCandidate e) as [i|]; [|done].
  rewrite !contribution_alt. cbn [ce_TS set_candidates]. destruct (aged_out _ _); [done|].
  unfold envelope. rewrite !maxValueWei_zmax, !maxGasWei_zmax. cbn [ce_Candidates set_candidates].
  by destruct (commit_live h i (ce_Candidates e)) as [-> ->].
Qed.

(** ** The disk a granted reservation leaves *)

Lemma granted_status d st pol cf id c now0 now :
  loadAll (dk_log d) = Ok st → id ≠ "" →
  status (reserve_both d st pol cf id c now0 now) id = Some (newReservation id c now0).
Proof.
  intros Hst Hid. change (status (reserve_log d st id c now0) id = Some (newReservation id c now0)).
  unfold reserve_log. rewrite (status_upd_log _ st) by done. by rewrite bool_decide_true.
Qed.

Lemma granted_counter d st pol cf id c now0 now :
  ∃ cf2, read_counter (reserve_both d st pol cf id c now0 now) (c_Network c) (c_Account c) = Ok cf2 ∧
         cf_Entries cf2 = cf_Entries (debited pol cf id c now).
Proof. apply read_counter_upd_eq. Qed.

Lemma debited_found pol cf id c now :
  superseded c cf = None → printable now → NoDup (map ce_ID (cf_Entries cf)) →
  id ∉ map ce_ID (cf_Entries cf) →
  List.find (has_id id) (cf_Entries (debited pol cf id c now)) = Some (new_entry id c now).
Proof.
  intros Hs Hp Hnd Hid. set (e := new_entry id c now).
  assert (Hes : cf_Entries (debitCounter cf id c now) ≡ₚ cf_Entries cf ++ [e]).
  { unfold debitCounter. rewrite Hs. cbn [cf_Entries sortEntriesByTS set_entries]. by rewrite stable_sort_perm. }
  unfold debited, stored, pruneCounter. cbn [cf_Entries set_entries set_policy_nonce].
  change id with (ce_ID e) at 1. apply find_unique.
  - apply NoDup_map_filter. rewrite Hes, map_app. apply NoDup_app.
    split_and!; [done| |apply NoDup_singleton]. by intros x Hx ->%list_elem_of_singleton.
  - apply list_elem_of_In, filter_In. split.
    + apply list_elem_of_In. rewrite Hes. apply elem_of_app. right. left.
    + unfold pruned. apply negb_true_iff, andb_false_iff. right. done.
Qed.

Lemma debited_missing pol cf id c now e :
  superseded c cf = Some e → id ∉ map ce_ID (cf_Entries cf) →
  List.find (has_id id) (cf_Entries (debited pol cf id c now)) = None.
Proof.
  intros Hs Hid. apply find_fresh. unfold debited, stored, pruneCounter.
  cbn [cf_Entries set_entries set_policy_nonce]. intros Hin.
  apply list_elem_of_fmap in Hin as (x & -> & Hin). apply list_elem_of_In, filter_In in Hin as [Hin _].
  apply Hid. unfold debitCounter in Hin. rewrite Hs in Hin.
  destruct (superseded_some _ _ _ Hs) as (n & Hn & _). rewrite Hn in Hin. cbn [cf_Entries set_entries] in Hin.
  erewrite <-(update_first_map (has_nonce n) _ ce_ID); [apply list_elem_of_fmap_2, list_elem_of_In, Hin|done].
Qed.
End Runs.

(** ** Scenarios *)

Section Scenarios.
Context {UT : UnicodeTables} {GC : GethCommon} {RC : LineCodec Reservation}.

(** a reservation that the engine granted on disk [d], drawing [id] fresh *)
Record granted (d : Disk) (st : logState) (pol : Policy) (cf : counterFile) (id : string) (c : Check)
       (now0 now : Z) : Prop := {
  gr_counter : read_counter d (c_Network c) (c_Account c) = Ok cf;
  gr_log : loadAll (dk_log d) = Ok st;
  gr_id : id ≠ "";
  gr_account : c_Account c ≠ 0;
  gr_fresh : id ∉ map ce_ID (cf_Entries cf);
  gr_distinct : NoDup (map ce_ID (cf_Entries cf));
  gr_clock : printable now;
}.

Lemma release_new_entry id c now t : contribution t (on_primary release_candidate (new_entry id c now)) = 0.
Proof.
  assert (E : entryAllReleased (on_primary release_candidate (new_entry id c now)) = true) by reflexivity.
  unfold contribution. by rewrite E, orb_true_r.
Qed.

(** Releasing right after reserving gives the allowance back. *)
Lemma release_granted d st pol cf id c now0 now t1 :
  granted d st pol cf id c now0 now → superseded c cf = None → now ≤ t1 →
  let d2 := reserve_both d st pol cf id c now0 now in
  let r := set_state (newReservation id c now0) stateReleased "" in
  ∃ cf2,
    cf_Entries cf2 = cf_Entries (debited pol cf id c now) ∧
    Release io_ok id t1 d2 =
      (Ok tt, [relogged d2 r; recounted (relogged d2 r) r cf2 (on_primary release_candidate) t1]) ∧
    ∀ t, t1 ≤ t →
      window (recounted (relogged d2 r) r cf2 (on_primary release_candidate) t1) (c_Network c) t (c_Account c)
      = window d (c_Network c) t (c_Account c).
Proof.
  intros G Hs Ht. destruct G as [Hcf Hst Hid Ha Hf Hnd Hp]. cbv zeta.
  destruct (granted_counter d st pol cf id c now0 now) as (cf2 & Hcf2 & He). exists cf2.
  pose proof (granted_status d st pol cf id c now0 now Hst Hid) as Hr.
  set (d2 := reserve_both d st pol cf id c now0 now) in *.
  set (r := set_state (newReservation id c now0) stateReleased "").
  assert (Hfind : findEntry cf2 id = Some (new_entry id c now))
    by (unfold findEntry; rewrite He; by apply debited_found).
  split; [done|]. split.
  - unfold Release. rewrite bool_decide_false by done.
    erewrite two_halves_run; [..|by apply (release_log_run id d2 (newReservation id c now0))|
      by apply (status_relogged d2 r (newReservation id c now0))| |]; try done.
    + by rewrite Hfind.
    + unfold read_counter. rewrite relogged_counters. exact Hcf2.
  - intros t Ht'. unfold recounted. change (r_ID r) with id.
    change (window (upd_counter (relogged d2 r) (c_Network c) (c_Account c)
      (stored (set_entries cf2 (update_first (has_id id) (on_primary release_candidate) (cf_Entries cf2))) t1))
      (c_Network c) t (c_Account c) = window d (c_Network c) t (c_Account c)).
    rewrite window_upd, sumWindow_stored by done. rewrite (sumWindow_update _ _ _ _ _ Hfind).
    rewrite release_new_entry.
    assert (H2 : sumWindow cf2 t = sumWindow cf t + contribution t (new_entry id c now)).
    { rewrite <-(sumWindow_debit_entry cf id c now t Hs).
      transitivity (sumWindow (debited pol cf id c now) t); [by rewrite !sumWindow_zsum, He|].
      unfold debited. rewrite sumWindow_stored by lia. by rewrite !sumWindow_zsum. }
    rewrite H2. unfold window. rewrite Hcf. lia.
Qed.

(** Releasing a reservation gives back exactly what it took.  When a spend
    (not a fee bump) was granted and is released, the account's window is, from
    then on, what it was before the reservation. *)
Theorem release_restores_window d st pol cf id c now0 now t1 t :
  granted d st pol cf id c now0 now → superseded c cf = None → now ≤ t1 → t1 ≤ t →
  let d2 := reserve_both d st pol cf id c now0 now in
  (Release io_ok id t1 d2).1 = Ok tt ∧
  window (after d2 (Release io_ok id t1 d2).2) (c_Network c) t (c_Account c) =
  window d (c_Network c) t (c_Account c).
Proof.
  intros G Hs Ht Ht'. cbv zeta. destruct (release_granted d st pol cf id c now0 now t1 G Hs Ht)
    as (cf2 & _ & -> & Hw). split; [done|]. by apply Hw.
Qed.

(** A commit that comes after a release is lost to the daily limit.  If
    another process releases the reservation while its owner is still about to
    broadcast, the owner's Commit succeeds, the log keeps the record in state
    released, and the account's window stays what it was before the
    reservation: the broadcast spend is never counted. *)
Theorem commit_after_release_uncounted d st pol cf id c now0 now t1 t2 t h :
  granted d st pol cf id c now0 now → superseded c cf = None → now ≤ t1 → t1 ≤ t2 → t2 ≤ t →
  let d2 := reserve_both d st pol cf id c now0 now in
  let d3 := after d2 (Release io_ok id t1 d2).2 in
  let d4 := after d3 (Commit io_ok id h t2 d3).2 in
  (Commit io_ok id h t2 d3).1 = Ok tt ∧
  r_State <$> status d4 id = Some stateReleased ∧
  window d4 (c_Network c) t (c_Account c) = window d (c_Network c) t (c_Account c).
Proof.
  intros G Hs H1 H2 H3. cbv zeta.
  destruct (release_granted d st pol cf id c now0 now t1 G Hs H1) as (cf2 & _ & E & Hw).
  set (d2 := reserve_both d st pol cf id c now0 now) in *. rewrite E. clear E.
  set (r := set_state (newReservation id c now0) stateReleased "") in *.
  destruct G as [Hcf Hst Hid Ha Hf Hnd Hp].
  cbn [after List.last snd]. set (d3 := recounted _ _ _ _ _) in *.
  assert (Hr3 : status d3 id = Some r).
  { change (status (relogged d2 r) (r_ID r) = Some r).
    by apply (status_relogged d2 r (newReservation id c now0)); [apply granted_status|]. }
  assert (Hcf3 : ∃ cf3, read_counter d3 (c_Network c) (c_Account c) = Ok cf3)
    by (destruct (read_counter_upd_eq (relogged d2 r) (c_Network c) (c_Account c)
          (stored (set_entries cf2 (update_first (has_id id) (on_primary release_candidate) (cf_Entries cf2))) t1))
          as (cf3 & H' & _); by exists cf3).
  destruct Hcf3 as (cf3 & Hcf3).
  assert (Hrun : transition io_ok id (commit_reservation h) d3 = (Ok tt, [relogged d3 r]))
    by (rewrite (transition_run id _ d3 r) by done; done).
  assert (Hr4 : status (relogged d3 r) id = Some r) by (by apply (status_relogged d3 r r)).
  assert (Hw3 : window (relogged d3 r) (c_Network c) t (c_Account c) = window d (c_Network c) t (c_Account c)).
  { unfold window at 1, read_counter. rewrite relogged_counters. apply Hw. lia. }
  unfold Commit. erewrite two_halves_run; [|done|exact Hrun|exact Hr4|done|
    unfold read_counter; rewrite relogged_counters; exact Hcf3].
  cbn [fst snd]. split; [done|]. destruct (findEntry cf3 id) as [e|] eqn:Ee.
  - cbn [after List.last]. split.
    + change (r_State <$> status (relogged d3 r) id = Some stateReleased). by rewrite Hr4.
    + rewrite <-Hw3. unfold recounted. change (r_ID r) with id. change (r_Network r) with (c_Network c).
      change (r_Account r) with (c_Account c).
      rewrite window_upd, sumWindow_stored by done. rewrite (sumWindow_update _ _ _ _ _ Ee), commit_contribution.
      unfold window, read_counter. rewrite relogged_counters. fold (read_counter d3 (c_Network c) (c_Account c)).
      rewrite Hcf3. lia.
  - cbn [after List.last]. split; [by rewrite Hr4|done].
Qed.

(** A settled fee bump misses the counter.  The candidate of a fee bump is
    added under the identifier of the entry it supersedes, so committing,
    settling or releasing the bump's own reservation finds no entry: all three
    succeed and leave every counter file as it was, whatever the actual gas. *)
Theorem rbf_settlement_misses_counter d st pol cf id c now0 now e h actual rev t :
  granted d st pol cf id c now0 now → superseded c cf = Some e →
  let d2 := reserve_both d st pol cf id c now0 now in
  ∀ out, out = Commit io_ok id h t d2 ∨ out = SettleActual io_ok id actual rev t d2 ∨
         out = Release io_ok id t d2 →
  out.1 = Ok tt ∧ dk_counters (after d2 out.2) = dk_counters d2.
Proof.
  intros [Hcf Hst Hid Ha Hf Hnd Hp] Hs. cbv zeta.
  destruct (granted_counter d st pol cf id c now0 now) as (cf2 & Hcf2 & He).
  pose proof (granted_status d st pol cf id c now0 now Hst Hid) as Hr.
  set (d2 := reserve_both d st pol cf id c now0 now) in *.
  set (r := newReservation id c now0) in *.
  assert (Hfind : findEntry cf2 id = None) by (unfold findEntry; rewrite He; by eapply debited_missing).
  assert (Hhalf : ∀ (m1 : M unit) m2 r', m1 d2 = (Ok tt, [relogged d2 r']) → r_ID r' = id →
    r_Account r' = c_Account c → r_Network r' = c_Network c →
    let out := mbind m1 (λ _, counterTransition io_ok id m2 t) d2 in
    out.1 = Ok tt ∧ dk_counters (after d2 out.2) = dk_counters d2).
  { intros m1 m2 r' Hm Hi' Ha' Hn'. cbv zeta.
    erewrite two_halves_run; [|done|exact Hm| | |].
    - rewrite Hfind. split; [done|]. apply relogged_counters.
    - rewrite <-Hi'. by apply (status_relogged d2 r' r); rewrite Hi'.
    - by rewrite Ha'.
    - rewrite Ha', Hn'. unfold read_counter. rewrite relogged_counters. exact Hcf2. }
  intros out [->|[->| ->]].
  - apply (Hhalf _ _ (commit_reservation h r)); [by apply transition_run|done..].
  - apply (Hhalf _ _ (settle_reservation (default 0 actual) rev r)); [by apply transition_run|done..].
  - unfold Release. rewrite bool_decide_false by done.
    apply (Hhalf _ _ (set_state r stateReleased (r_Hash r))); [by apply release_log_run|done..].
Qed.
End Scenarios.

(** ** Witnesses *)

Lemma sample_granted : granted empty_disk log_empty sample_policy empty_counter "r1" first_check 0 0.
Proof.
  split; try done; try apply printable_0; try exact read_empty.
  - by intros H%elem_of_nil.
  - constructor.
Qed.

Lemma release_restores_window_witness :
  (Release io_ok "r1" 5 granted_disk).1 = Ok tt ∧
  window (after granted_disk (Release io_ok "r1" 5 granted_disk).2) "main" 9 1 = window empty_disk "main" 9 1.
Proof.
  apply (release_restores_window empty_disk log_empty sample_policy empty_counter "r1" first_check 0 0 5 9).
  - exact sample_granted.
  - reflexivity.
  - lia.
  - lia.
Defined.

Lemma commit_after_release_uncounted_witness :
  let d3 := after granted_disk (Release io_ok "r1" 5 granted_disk).2 in
  let d4 := after d3 (Commit io_ok "r1" "0x01" 6 d3).2 in
  (Commit io_ok "r1" "0x01" 6 d3).1 = Ok tt ∧
  r_State <$> status d4 "r1" = Some stateReleased ∧
  window d4 "main" 9 1 = window empty_disk "main" 9 1.
Proof.
  apply (commit_after_release_uncounted empty_disk log_empty sample_policy empty_counter "r1" first_check
           0 0 5 6 9 "0x01").
  - exact sample_granted.
  - reflexivity.
  - lia.
  - lia.
  - lia.
Defined.

(** a fee bump of the spend of [spent_disk], with twice the gas *)
Definition bump : Check := sample_check 40 20 true 0.
Definition bumped_disk : Disk := reserve_both spent_disk log_empty sample_policy spent_counter "r2" bump 0 0.

Lemma bump_granted : granted spent_disk log_empty sample_policy spent_counter "r2" bump 0 0.
Proof.
  split; try done; try apply printable_0; try exact read_spent.
  - intros H%list_elem_of_singleton. discriminate H.
  - apply NoDup_singleton.
Qed.

Lemma rbf_settlement_misses_counter_witness :
  (SettleActual io_ok "r2" (Some 3) false 9 bumped_disk).1 = Ok tt ∧
  dk_counters (after bumped_disk (SettleActual io_ok "r2" (Some 3) false 9 bumped_disk).2) =
  dk_counters bumped_disk.
Proof.
  eapply (rbf_settlement_misses_counter spent_disk log_empty sample_policy spent_counter "r2" bump 0 0
           _ "" (Some 3) false 9).
  - exact bump_granted.
  - reflexivity.
  - right. left. reflexivity.
Defined.

(** ** What every run of the engine guarantees

    Rule inductions over the transition system of [Lifecycle]: the daily limit
    holds along every run, the terminal states of a reservation are final, the
    log forgets a spend only once it is finished, the counters stay
    well-formed, and settlements never add to a window. *)

Local Open Scope string_scope.
Local Open Scope Z_scope.
Local Open Scope list_scope.

(** ** Runs in time *)

Section Timed.
Context {UT : UnicodeTables} {GC : GethCommon} {RC : LineCodec Reservation}.
Variable accounts : option (string → list Address).
(** the network watched and the limit that every policy in force sets for it *)
Variables (n : string) (L : Z).

(** the accounts the network's window is summed over *)
Definition network_total (d : Disk) (now : Z) : Z :=
  zsum (map (window d n now) (networkAccounts accounts n 0)).

(** a request of this program: known amounts, an account of the keystore, and
    another network only under another (case-folded) name *)
Definition proper_request (c : Check) : Prop :=
  c_TypedUnknown c = false ∧ 0 ≤ spendWei c ∧ 0 ≤ PolicyTypes.maxGasWei c ∧
  c_Account c ∈ hooked accounts (c_Network c) ∧ valid_accounts accounts c ∧
  (c_Network c = n ∨ ToLower (c_Network c) ≠ ToLower n).

(** no policy in force allows more than [L] a day on the network *)
Definition limited (active : res error (option Policy)) : Prop :=
  ∀ pol, active = Ok (Some pol) → ∃ l, maxDay (resolveLimits pol n) = Some l ∧ l ≤ L.

(** One file write, or the passing of time. *)
Inductive timed : Disk * Z → Disk * Z → Prop :=
| timed_reserve io active id c now0 now d d' t :
    t ≤ now → printable now → id ≠ "" → uncounted d id → proper_request c → limited active →
    d' ∈ (Reserve io accounts active id c now0 now d).2 → timed (d, t) (d', now)
| timed_settle d d' t now : t ≤ now → settlement now d d' → timed (d, t) (d', now)
| timed_wait d t now : t ≤ now → timed (d, t) (d, now).

Lemma window_time d m a t now : t ≤ now → window d m now a ≤ window d m t a.
Proof. intros H. unfold window. destruct (read_counter d m a); [by apply sumWindow_time|done]. Qed.

Lemma network_total_time d t now : t ≤ now → network_total d now ≤ network_total d t.
Proof. intros H. apply zsum_map_le. intros a _. by apply window_time. Qed.

(** The signer of a proper request is one of the accounts already. *)
Lemma signer_known c :
  c_Account c ∈ hooked accounts (c_Network c) →
  signer_accounts accounts c = networkAccounts accounts (c_Network c) 0.
Proof.
  intros H. unfold signer_accounts, networkAccounts, addAccount at 1 3.
  destruct (Z.eqb_spec (c_Account c) 0) as [->|Hne]; [done|]. simpl.
  rewrite bool_decide_true; [done|]. apply foldl_addAccount_in. right. done.
Qed.

(** A write to another network's counter leaves this one alone. *)
Lemma other_network d m a cf now :
  ToLower m ≠ ToLower n → network_total (upd_counter d m a cf) now = network_total d now.
Proof.
  intros H. apply zsum_map_ext. intros b _. rewrite window_upd_gen, bool_decide_false; [done|].
  unfold counterPath. intros E. apply (f_equal fst) in E. cbn [fst] in E. done.
Qed.

Lemma timed_invariant s s' :
  timed s s' → counters_inv s.1 → network_total s.1 s.2 ≤ L →
  counters_inv s'.1 ∧ network_total s'.1 s'.2 ≤ L.
Proof.
  intros [io active id c now0 now d d' t Ht Hp Hid Hun Hc Hlim H|d d' t now Ht H|d t now Ht] Hi Hle;
    cbn [fst snd] in *; pose proof (network_total_time d t now Ht) as Hmono.
  - split.
    { eapply (step_counters_inv accounts (λ _, True)); [|exact Hi]. by eapply step_reserve. }
    apply Reserve_writes in H as (st & _ & [->|(pol & cf & Ha & Hcf & Hv & Hk & ->)]).
    { change (network_total d now ≤ L). lia. }
    destruct Hc as (HT & Hs & Hg & Hin & Hva & [Hn|Hn]).
    + destruct (Hlim pol Ha) as (l & Hl & HlL). rewrite <-Hn in Hl.
      apply Evaluate_admissible in Hv; [|done].
      pose proof (ad_daily _ _ _ Hv Hk l Hl) as Hd. simpl default in Hd.
      destruct (counters_inv_read _ _ _ _ Hi Hcf) as [_ Hnd].
      pose proof (aggregate_debited accounts d pol cf id c now Hcf Hva Hp Hs Hg Hnd) as Hagg.
      rewrite signer_known in Hagg by done. rewrite Hn in Hagg.
      change (reserve_both d st pol cf id c now0 now)
        with (upd_counter (reserve_log d st id c now0) (c_Network c) (c_Account c) (debited pol cf id c now)).
      rewrite Hn. unfold network_total at 1. etrans; [exact Hagg|lia].
    + etrans; [|exact (Z.le_trans _ _ _ Hmono Hle)].
      change (reserve_both d st pol cf id c now0 now)
        with (upd_counter (reserve_log d st id c now0) (c_Network c) (c_Account c) (debited pol cf id c now)).
      by rewrite other_network.
  - split; [eapply (step_counters_inv accounts (λ _, True)); [by eapply step_settlement|done]|].
    assert (network_total d' now ≤ network_total d now); [|lia].
    apply zsum_map_le. intros a _. by apply (step_window now).
  - split; [done|lia].
Qed.
End Timed.

(** ** The properties *)

Section Properties.
Context {UT : UnicodeTables} {GC : GethCommon} {RC : LineCodec Reservation}.
Variable accounts : option (string → list Address).

(** C2: no run exceeds the daily limit.  Start from counters whose window is at
    most [L] and let any processes reserve, commit, release and settle in any
    order, each possibly crashing after any of its file writes, with the clock
    never going back: as long as every policy in force limits the network to
    [L] a day, the aggregate 24h window over the keystore's accounts never
    exceeds [L]. *)
Theorem daily_limit_in_every_run n L s s' :
  rtc (timed accounts n L) s s' →
  counters_inv s.1 → network_total accounts n s.1 s.2 ≤ L →
  network_total accounts n s'.1 s'.2 ≤ L.
Proof.
  intros H. induction H as [s|s s1 s2 Hs _ IH]; [done|]. intros Hi Hle.
  destruct (timed_invariant _ _ _ _ _ Hs Hi Hle) as [Hi' Hle']. by apply IH.
Qed.

(** C14: terminal states are final.  Along any run in which Reserve does not draw
    the identifier again, a reservation once committed is never seen in another
    state, and neither is one once released; its account, network and
    worst-case gas never change. *)
Theorem terminal_states_are_final d d' x r r' :
  run accounts (λ id, id ≠ x) d d' →
  status d x = Some r → r_State r = stateCommitted ∨ r_State r = stateReleased →
  status d' x = Some r' →
  r_State r' = r_State r ∧ r_Account r' = r_Account r ∧ r_Network r' = r_Network r ∧
  r_MaxGasWei r' = r_MaxGasWei r.
Proof.
  intros Hrun Hr Hst Hr'.
  apply (run_invariant accounts (λ id, id ≠ x)
    (λ a, r_State a = r_State r ∧ r_Account a = r_Account r ∧ r_Network a = r_Network r ∧
          r_MaxGasWei a = r_MaxGasWei r) d d' x r r'); [by intros H| |done|done|done|done].
  intros a b (Ha & Hac & Han & Hag) Hadv. inversion Hadv; subst; simpl; try done.
  - split; [|done]. destruct Hst as [Hst|Hst]; congruence.
  - split; [|done]. destruct Hst as [Hst|Hst]; congruence.
Qed.

(** A spend record vanishes only when it is finished.  If a run ends with a
    record gone from the log, then at some point of the run it was released, or
    committed with its actual gas settled. *)
Theorem record_dropped_only_when_terminal d d' x r :
  run accounts (λ id, id ≠ x) d d' →
  status d x = Some r → status d' x = None →
  ∃ d1 r1, run accounts (λ id, id ≠ x) d d1 ∧ run accounts (λ id, id ≠ x) d1 d' ∧
           status d1 x = Some r1 ∧
           (r_State r1 = stateReleased ∨ (r_State r1 = stateCommitted ∧ is_Some (r_ActualGasWei r1))).
Proof.
  intros Hrun. revert r. induction Hrun as [d|d d1 d' Hs Hrun IH]; intros r Hr Hn; [congruence|].
  pose proof (step_advance accounts _ _ _ x Hs ltac:(tauto)) as Ha. rewrite Hr in Ha.
  destruct (status d1 x) as [r1|] eqn:E1.
  - destruct (IH r1 eq_refl Hn) as (d2 & r2 & H1 & H2 & H3). exists d2, r2.
    split; [by eapply rtc_l|done].
  - exists d, r. split; [apply rtc_refl|]. split; [by eapply rtc_l|]. split; [done|].
    inversion Ha as [|r0 Ht| | |]. unfold isTerminal in Ht.
    case_bool_decide; [by left|]. right. by apply andb_true_iff in Ht as [?%bool_decide_eq_true ?%bool_decide_eq_true].
Qed.

(** The counter files stay well-formed.  Every run keeps the amounts of all
    candidates decimal numbers and the identifiers of each file's entries
    distinct. *)
Theorem counters_stay_wellformed drawn d d' :
  run accounts drawn d d' → counters_inv d → counters_inv d'.
Proof. induction 1; [done|]. intros Hi. eauto using step_counters_inv. Qed.

(** Settlements only free allowance.  Whatever Commit, Release or
    SettleActual (with any claimed actual gas, in any state, crashing anywhere)
    writes, no account's window at that time or later is larger than before. *)
Theorem settlement_never_adds now now' d d' n a :
  settlement now d d' → counters_inv d → now ≤ now' → window d' n now' a ≤ window d n now' a.
Proof. apply step_window. Qed.
End Properties.

(** ** Witnesses *)

Lemma uncounted_none d id : dk_counters d = ∅ → uncounted d id.
Proof. intros H p cf. by rewrite H, lookup_empty. Qed.

Lemma counters_inv_none d : dk_counters d = ∅ → counters_inv d.
Proof. intros H p cf. by rewrite H, lookup_empty. Qed.

Lemma sample_step : step one_account (λ _, True) empty_disk granted_disk.
Proof.
  apply (step_reserve one_account _ _ _ io_ok (Ok (Some sample_policy)) "r1" first_check 0 0);
    [done|done|by apply uncounted_none|].
  rewrite sample_grant. right. left.
Qed.

(** a log of the given records *)
Definition log_disk (rs : list Reservation) : Disk := mkDisk (Some (unlines (map encode_line rs))) ∅.

Lemma status_log_disk rs x :
  NoDup (map r_ID rs) → Forall (λ r, r_ID r ≠ "") rs →
  status (log_disk rs) x = List.find (λ r, bool_decide (r_ID r = x)) rs.
Proof. intros H1 H2. unfold status, log_disk. cbn [dk_log]. rewrite loadAll_unlines by done. by apply log_of_lookup. Qed.

(** the first reservation, committed *)
Definition committed : Reservation := set_state (newReservation "r1" first_check 0) stateCommitted "0x01".
Definition settled : Reservation := settle_reservation 5 false committed.
Definition settled_disk : Disk := relogged (log_disk [committed]) settled.

Lemma committed_status : status (log_disk [committed]) "r1" = Some committed.
Proof. rewrite status_log_disk; [reflexivity|apply NoDup_singleton|by repeat constructor]. Qed.

Lemma settled_write : settlement 0 (log_disk [committed]) settled_disk.
Proof.
  apply (set_settle _ _ _ io_ok "r1" (Some 5) false). unfold SettleActual. apply mbind_trace_l.
  rewrite (transition_run _ _ _ committed) by (done || apply committed_status). left.
Qed.

Lemma settled_step : step one_account (λ id, id ≠ "r1") (log_disk [committed]) settled_disk.
Proof.
  apply (step_settlement _ _ _ _ 0), settled_write.
Qed.

Lemma settled_status : status settled_disk "r1" = Some settled.
Proof. by apply (status_relogged (log_disk [committed]) settled committed); [apply committed_status|]. Qed.

Lemma daily_limit_in_every_run_witness : network_total one_account "main" granted_disk 0 ≤ 100.
Proof.
  apply (daily_limit_in_every_run one_account "main" 100 (empty_disk, 0) (granted_disk, 0)).
  - apply rtc_once. apply (timed_reserve _ _ _ io_ok (Ok (Some sample_policy)) "r1" first_check 0).
    + done.
    + apply printable_0.
    + done.
    + by apply uncounted_none.
    + split_and!; [done|by vm_compute|by vm_compute|left|apply first_check_valid|by left].
    + intros pol [= <-]. exists 100. done.
    + rewrite sample_grant. right. left.
  - by apply counters_inv_none.
  - vm_compute. discriminate.
Defined.

Lemma terminal_states_are_final_witness :
  r_State settled = r_State committed ∧ r_Account settled = r_Account committed ∧
  r_Network settled = r_Network committed ∧ r_MaxGasWei settled = r_MaxGasWei committed.
Proof.
  apply (terminal_states_are_final one_account (log_disk [committed]) settled_disk "r1").
  - apply rtc_once, settled_step.
  - apply committed_status.
  - by left.
  - apply settled_status.
Defined.

(** the log once another record was written over the settled one *)
Definition dropped_disk : Disk :=
  upd_log (log_disk [settled]) (appendAndCompact (log_of [settled]) (newReservation "r2" first_check 0)).

Lemma dropped_step : step one_account (λ id, id ≠ "r1") (log_disk [settled]) dropped_disk.
Proof.
  apply (step_reserve one_account _ _ _ io_ok (Ok None) "r2" first_check 0 0);
    [done|discriminate|by apply uncounted_none|].
  unfold Reserve. rewrite (mbind_read _ _ _ None) by done. apply mbind_trace_l.
  rewrite (writeReservation_run _ _ _ (log_of [settled]));
    [left|done|apply loadAll_unlines; [apply NoDup_singleton|by repeat constructor]].
Qed.

Lemma dropped_status : status dropped_disk "r1" = None.
Proof.
  unfold dropped_disk. rewrite (status_upd_log _ (log_of [settled]));
    [|apply loadAll_unlines; [apply NoDup_singleton|by repeat constructor]|done].
  rewrite bool_decide_false by done. rewrite status_log_disk; [reflexivity|apply NoDup_singleton|by repeat constructor].
Qed.

Lemma record_dropped_only_when_terminal_witness :
  ∃ d1 r1, run one_account (λ id, id ≠ "r1") (log_disk [settled]) d1 ∧
           run one_account (λ id, id ≠ "r1") d1 dropped_disk ∧ status d1 "r1" = Some r1 ∧
           (r_State r1 = stateReleased ∨ (r_State r1 = stateCommitted ∧ is_Some (r_ActualGasWei r1))).
Proof.
  apply (record_dropped_only_when_terminal one_account (log_disk [settled]) dropped_disk "r1" settled).
  - apply rtc_once, dropped_step.
  - rewrite status_log_disk; [reflexivity|apply NoDup_singleton|by repeat constructor].
  - apply dropped_status.
Defined.

Lemma counters_stay_wellformed_witness : counters_inv granted_disk.
Proof.
  apply (counters_stay_wellformed one_account (λ _, True) empty_disk granted_disk).
  - apply rtc_once, sample_step.
  - by apply counters_inv_none.
Defined.

Lemma settlement_never_adds_witness : window settled_disk "main" 9 1 ≤ window (log_disk [committed]) "main" 9 1.
Proof.
  apply (settlement_never_adds 0 9 (log_disk [committed]) settled_disk "main" 1).
  - apply settled_write.
  - by apply counters_inv_none.
  - lia.
Defined.
