(* ===== verification/Journal.v ===== *)
(** * The transaction journal: [internal/journal/record.go], [store.go], [store_jsonl.go]

    One append-only file of JSON lines per chain.  The state of an operation is
    the file of its chain ([None] when it does not exist).  An append is one
    write that a crash can tear at any byte, so its trace holds the file with
    every prefix of the line.  Go iterates over a map in an unspecified order:
    the queries take the enumeration as a parameter. *)

From S2P Require Import Prelude GoStrings Decimal Rfc3339 Encodings PolicyTypes Domain Trace.

Local Open Scope string_scope.
Local Open Scope Z_scope.
Local Open Scope list_scope.
Local Open Scope go_scope.

(** ** record.go *)

Definition StatusSigned := "signed".
Definition StatusBroadcast := "broadcast".
Definition StatusPending := "pending".
Definition StatusMined := "mined".
Definition StatusConfirmed := "confirmed".
Definition StatusReverted := "reverted".
Definition StatusReplaced := "replaced".
Definition StatusDropped := "dropped".
Definition StatusFailed := "failed".

Definition IsTerminal (s : string) : bool :=
  existsb (λ t, bool_decide (s = t)) [StatusConfirmed; StatusReverted; StatusReplaced; StatusFailed].

Definition consumesNonce (s : string) : bool := negb (bool_decide (s = StatusFailed)).

Record Asset := mkAsset {
  as_Kind : string;
  as_Contract : option string;
  as_Alias : string;
  as_Decimals : option Z;
  as_Amount : option string;
  as_TokenID : option string;
}.

Record Fees := mkFees {
  fe_Type : string;
  fe_GasLimit : Z;
  fe_MaxFeePerGas : option string;
  fe_MaxPriorityPerGas : option string;
  fe_GasPrice : option string;
  fe_Speed : string;
}.

Record Receipt := mkReceipt {
  rc_BlockNumber : Z;
  rc_BlockHash : string;
  rc_GasUsed : Z;
  rc_EffectiveGasPrice : string;
  rc_Status : Z;
}.

(** the Go type [Record] *)
Record JRecord := mkJRecord {
  j_V : Z;
  j_ID : string;
  j_Seq : Z;
  j_TS : string;
  j_ChainID : Z;
  j_Network : string;
  j_Kind : string;
  j_Status : string;
  j_Source : string;
  j_From : string;
  j_To : string;
  j_Nonce : Z;
  j_TxHash : string;
  j_RawTx : string;
  j_ValueWei : string;
  j_Asset : Asset;
  j_Fees : Fees;
  j_ReservationID : string;
  j_WorstCaseGasWei : string;
  j_Replaces : option string;
  j_ReplacedBy : option string;
  j_Receipt : option Receipt;
  j_Error : option string;
  j_RPC : string;
}.

Definition recordVersion : Z := 1.

(** ** StateMutation (store.go) *)

Record StateMutation := mkMutation {
  m_Status : string;
  m_TxHash : option string;
  m_Receipt : option Receipt;
  m_ReplacedBy : option string;
  m_Replaces : option string;
  m_Error : option string;
  m_ReservationID : option string;
}.

(** a pointer field of the mutation over the pointer field of the record *)
Definition over {A} (m : option A) (cur : option A) : option A :=
  match m with Some _ => m | None => cur end.

Definition applyTo (m : StateMutation) (r : JRecord) : JRecord :=
  {| j_V := j_V r; j_ID := j_ID r; j_Seq := j_Seq r; j_TS := j_TS r; j_ChainID := j_ChainID r;
     j_Network := j_Network r; j_Kind := j_Kind r;
     j_Status := if bool_decide (m_Status m = "") then j_Status r else m_Status m;
     j_Source := j_Source r; j_From := j_From r; j_To := j_To r; j_Nonce := j_Nonce r;
     j_TxHash := default (j_TxHash r) (m_TxHash m);
     j_RawTx := j_RawTx r; j_ValueWei := j_ValueWei r; j_Asset := j_Asset r; j_Fees := j_Fees r;
     j_ReservationID := default (j_ReservationID r) (m_ReservationID m);
     j_WorstCaseGasWei := j_WorstCaseGasWei r;
     j_Replaces := over (m_Replaces m) (j_Replaces r);
     j_ReplacedBy := over (m_ReplacedBy m) (j_ReplacedBy r);
     j_Receipt := over (m_Receipt m) (j_Receipt r);
     j_Error := over (m_Error m) (j_Error r);
     j_RPC := j_RPC r |}.

Definition with_seq_ts (r : JRecord) (seq : Z) (ts : string) : JRecord :=
  {| j_V := j_V r; j_ID := j_ID r; j_Seq := seq; j_TS := ts; j_ChainID := j_ChainID r;
     j_Network := j_Network r; j_Kind := j_Kind r; j_Status := j_Status r; j_Source := j_Source r;
     j_From := j_From r; j_To := j_To r; j_Nonce := j_Nonce r; j_TxHash := j_TxHash r;
     j_RawTx := j_RawTx r; j_ValueWei := j_ValueWei r; j_Asset := j_Asset r; j_Fees := j_Fees r;
     j_ReservationID := j_ReservationID r; j_WorstCaseGasWei := j_WorstCaseGasWei r;
     j_Replaces := j_Replaces r; j_ReplacedBy := j_ReplacedBy r; j_Receipt := j_Receipt r;
     j_Error := j_Error r; j_RPC := j_RPC r |}.

Definition with_v_id (r : JRecord) (v : Z) (id : string) : JRecord :=
  {| j_V := v; j_ID := id; j_Seq := j_Seq r; j_TS := j_TS r; j_ChainID := j_ChainID r;
     j_Network := j_Network r; j_Kind := j_Kind r; j_Status := j_Status r; j_Source := j_Source r;
     j_From := j_From r; j_To := j_To r; j_Nonce := j_Nonce r; j_TxHash := j_TxHash r;
     j_RawTx := j_RawTx r; j_ValueWei := j_ValueWei r; j_Asset := j_Asset r; j_Fees := j_Fees r;
     j_ReservationID := j_ReservationID r; j_WorstCaseGasWei := j_WorstCaseGasWei r;
     j_Replaces := j_Replaces r; j_ReplacedBy := j_ReplacedBy r; j_Receipt := j_Receipt r;
     j_Error := j_Error r; j_RPC := j_RPC r |}.

(** ** Lines (store_jsonl.go) *)

(** bytes.Split on the line feed: a trailing line feed gives a final empty segment *)
Fixpoint split_lf (cur data : string) : list string :=
  match data with
  | "" => [srev cur]
  | String c data => if byteZ c =? 10 then srev cur :: split_lf "" data else split_lf (String c cur) data
  end.

Definition splitLines (data : string) : list string :=
  match data with "" => [] | _ => split_lf "" data end.

Fixpoint endsWithNewline (data : string) : bool :=
  match data with
  | "" => false
  | String c "" => byteZ c =? 10
  | String _ data => endsWithNewline data
  end.

(** [data[:bytes.LastIndexByte(data, '\n')+1]], empty when there is none *)
Fixpoint up_to_last_lf (data : string) : string :=
  match data with
  | "" => ""
  | String c data' =>
      match up_to_last_lf data' with
      | "" => if byteZ c =? 10 then String c "" else ""
      | keep => String c keep
      end
  end.

(** the journal of a chain *)
Definition File : Type := option string.
Definition JM (A : Type) : Type := T File A.

(** The outcome of the lock and of the file operations.  An append that fails
    has left the given number of bytes of the line. *)
Record JIO := mkJIO {
  jio_lock : option error;
  jio_read : option error;
  jio_repair : option error;
  jio_append : option (nat * error);
  jio_stat : bool;
  jio_compact : option error;
}.

Definition jio_ok : JIO := mkJIO None None None None true None.

Definition wrap64 (n : Z) : Z := n mod 2 ^ 64.

Definition compactSupersededThreshold : Z := 5000.
Definition compactSizeThreshold : Z := 8 * 2 ^ 20.

(** ** Folding *)

(** the loop body of foldLatest: a record at least as new replaces the entry *)
Definition fold_step (latest : gmap string JRecord) (r : JRecord) : gmap string JRecord :=
  match latest !! j_ID r with
  | Some cur => if j_Seq cur <=? j_Seq r then <[j_ID r := r]> latest else latest
  | None => <[j_ID r := r]> latest
  end.

Definition foldLatest (recs : list JRecord) : gmap string JRecord := foldl fold_step ∅ recs.

Definition max_seq (recs : list JRecord) : Z := foldl (λ m r, if m <? j_Seq r then j_Seq r else m) 0 recs.

(** sortBySeqDesc *)
Definition sortBySeqDesc (rs : list JRecord) : list JRecord := stable_sort (λ a b, j_Seq b <? j_Seq a) rs.

(** An enumeration of a map, in the order Go happens to choose. *)
Class MapOrder := {
  enum : gmap string JRecord → list JRecord;
  enum_perm : ∀ m, enum m ≡ₚ (map_to_list m).*2;
}.

(** the order of the reference instance *)
Definition list_order : MapOrder := {| enum := λ m, (map_to_list m).*2; enum_perm := λ m, reflexivity _ |}.

Section Store.
Context {UT : UnicodeTables} {RC : LineCodec JRecord} {MO : MapOrder}.
Variable io : JIO.

(** ** readAll *)

(** one segment: is it the last, was the file newline-terminated *)
Definition torn_segment (isFinal hasTrailingNL : bool) (line : string) : bool :=
  isFinal && negb hasTrailingNL && negb (bool_decide (TrimSpace line = "")).

Definition parse_line (line : string) : option JRecord :=
  if bool_decide (TrimSpace line = "") then None else decode_line (TrimSpace line).

(** the records, and whether a torn final line was met *)
Fixpoint read_lines (hasTrailingNL : bool) (lines : list string) : list JRecord * bool :=
  match lines with
  | [] => ([], false)
  | line :: rest =>
      let '(recs, torn) := read_lines hasTrailingNL rest in
      if torn_segment (match rest with [] => true | _ => false end) hasTrailingNL line
      then (recs, true)
      else (option_list (parse_line line) ++ recs, torn)
  end.

Definition truncateTornFinal (data : string) : JM unit :=
  guard (jio_repair io) ;;; (λ _, (Ok tt, [Some (up_to_last_lf data)])).

Definition readAll (repair : bool) : JM (list JRecord * Z) :=
  f <-- mget ;;
  guard (jio_read io) ;;;
  match f with
  | None => mret ([], 0)
  | Some data =>
      let '(recs, torn) := read_lines (endsWithNewline data) (splitLines data) in
      if torn && repair
      then truncateTornFinal data ;;; mret (recs, max_seq recs)
      else mret (recs, max_seq recs)
  end.

(** ** Writing *)

(** the file with the first [k] bytes of [line] appended *)
Definition appended (f : File) (line : string) (k : nat) : File := Some (default "" f +:+ stake k line).

Definition appendLine (rec : JRecord) : JM unit := λ f,
  let line := encode_line rec +:+ LF in
  match jio_append io with
  | None => (Ok tt, map (appended f line) (seq 0 (S (String.length line))))
  | Some (k, e) => (Err e, map (appended f line) (seq 0 (S k)))
  end.

Definition snapshot (folded : gmap string JRecord) : list JRecord :=
  exchange_sort (λ a b, j_Seq a <? j_Seq b) (enum folded).

Definition compact (folded : gmap string JRecord) : JM unit :=
  guard (jio_compact io) ;;;
  (λ _, (Ok tt, [Some (unlines (map encode_line (snapshot folded)))])).

Definition file_size (f : File) : Z := Z.of_nat (String.length (default "" f)).

Definition maybeCompact (preRecs : list JRecord) (latest : JRecord) : JM unit :=
  let all := preRecs ++ [latest] in
  let folded := foldLatest all in
  let superseded := Z.of_nat (length all) - Z.of_nat (size folded) in
  f <-- mget ;;
  if superseded <? compactSupersededThreshold
  then if jio_stat io && (file_size f <? compactSizeThreshold) then mret tt
       else if negb (jio_stat io) then mret tt
       else compact folded
  else compact folded.

Definition withLock {A} (fn : JM A) : JM A := guard (jio_lock io) ;;; fn.

(** Store.Append: [ulid] is the identifier drawn when the record has none.  The
    result is the record as the caller sees it afterwards. *)
Definition Append (rec : JRecord) (ulid : res error string) (now : Z) : JM JRecord :=
  withLock (
    p <-- readAll true ;;
    let '(recs, maxSeq) := p in
    id <-- mlift (if bool_decide (j_ID rec = "") then ulid else Ok (j_ID rec)) ;;
    let rec := with_v_id rec (if j_V rec =? 0 then recordVersion else j_V rec) id in
    let ts := if bool_decide (j_TS rec = "") then FormatNano now else j_TS rec in
    let rec := with_seq_ts rec (wrap64 (maxSeq + 1)) ts in
    appendLine rec ;;;
    maybeCompact recs rec ;;;
    mret rec).

Definition empty_id_error : error := New "state.corrupt" "journal: empty id in SetState".
(** ErrNotFound, which is no domain error; the code is empty *)
Definition ErrNotFound : error := mkError "" ExitInternal "journal: record not found" false None.

Definition SetState (id : string) (mut : StateMutation) (now : Z) : JM unit :=
  if bool_decide (id = "") then mfail empty_id_error
  else withLock (
    p <-- readAll true ;;
    let '(recs, maxSeq) := p in
    match foldLatest recs !! id with
    | None => mfail ErrNotFound
    | Some prior =>
        let next := with_seq_ts (applyTo mut prior) (wrap64 (maxSeq + 1)) (FormatNano now) in
        appendLine next ;;; maybeCompact recs next
    end).

(** ** Queries *)

Definition read {A} (fn : gmap string JRecord → res error A) : JM A :=
  withLock (p <-- readAll false ;; mlift (fn (foldLatest p.1))).

(** the loops that keep the newest match *)
Definition newest (test : JRecord → bool) (rs : list JRecord) : option JRecord :=
  foldl (λ found r, if test r
                    then match found with
                         | None => Some r
                         | Some f => if j_Seq f <? j_Seq r then Some r else found
                         end
                    else found) None rs.

Definition found_or_missing (o : option JRecord) : res error JRecord :=
  match o with Some r => Ok r | None => Err ErrNotFound end.

Definition ByReservation (reservationID : string) : JM JRecord :=
  read (λ latest, found_or_missing (newest (λ r, bool_decide (j_ReservationID r = reservationID)) (enum latest))).

Definition ByHash `{GethCommon} (hash : Hash) : JM JRecord :=
  let want := HashHex hash in
  read (λ latest, found_or_missing
    (newest (λ r, (HexToHash (j_TxHash r) =? HexToHash want) && negb (bool_decide (j_TxHash r = "")))
            (enum latest))).

Definition ByID (id : string) : JM JRecord := read (λ latest, found_or_missing (latest !! id)).

Definition Unresolved : JM (list JRecord) :=
  read (λ latest, Ok (sortBySeqDesc (List.filter (λ r, negb (IsTerminal (j_Status r))) (enum latest)))).

Definition List_ `{GethCommon} (from : Address) : JM (list JRecord) :=
  read (λ latest, Ok (sortBySeqDesc
    (List.filter (λ r, (from =? 0) || (HexToAddress (j_From r) =? from)) (enum latest)))).
End Store.

(** ** The reference codec of a record *)

Definition zopt_field (o : option Z) : string := opt_field (z_string <$> o).
Definition field_zopt (s : string) : option (option Z) :=
  match field_opt s with
  | None => Some None
  | Some t => match SetString t 10 with Some n => Some (Some n) | None => None end
  end.

Lemma field_zopt_field o : field_zopt (zopt_field o) = Some o.
Proof. unfold field_zopt, zopt_field. rewrite field_opt_field. destruct o; simpl; by rewrite ?SetString_z_string. Qed.

(** a list of fields inside a field *)
Definition sub {A} (p : list string → option A) (s : string) : option A :=
  match dec_fields "" s with Some l => p l | None => None end.

Lemma sub_enc {A} (p : list string → option A) l : sub p (enc_fields l) = p l.
Proof. unfold sub. by rewrite dec_enc_fields. Qed.

Definition asset_fields (a : Asset) : list string :=
  [as_Kind a; opt_field (as_Contract a); as_Alias a; zopt_field (as_Decimals a); opt_field (as_Amount a);
   opt_field (as_TokenID a)].
Definition fields_asset (l : list string) : option Asset :=
  match l with
  | [k; c; a; d; am; t] =>
      match field_zopt d with
      | Some d => Some (mkAsset k (field_opt c) a d (field_opt am) (field_opt t))
      | None => None
      end
  | _ => None
  end.

Definition fees_fields (f : Fees) : list string :=
  [fe_Type f; z_string (fe_GasLimit f); opt_field (fe_MaxFeePerGas f); opt_field (fe_MaxPriorityPerGas f);
   opt_field (fe_GasPrice f); fe_Speed f].
Definition fields_fees (l : list string) : option Fees :=
  match l with
  | [t; g; m; p; gp; s] =>
      match SetString g 10 with
      | Some g => Some (mkFees t g (field_opt m) (field_opt p) (field_opt gp) s)
      | None => None
      end
  | _ => None
  end.

Definition receipt_fields (r : option Receipt) : list string :=
  match r with
  | None => []
  | Some r => [z_string (rc_BlockNumber r); rc_BlockHash r; z_string (rc_GasUsed r); rc_EffectiveGasPrice r;
               z_string (rc_Status r)]
  end.
Definition fields_receipt (l : list string) : option (option Receipt) :=
  match l with
  | [] => Some None
  | [b; h; g; p; s] =>
      match SetString b 10, SetString g 10, SetString s 10 with
      | Some b, Some g, Some s => Some (Some (mkReceipt b h g p s))
      | _, _, _ => None
      end
  | _ => None
  end.

Definition jrecord_fields (r : JRecord) : list string :=
  [z_string (j_V r); j_ID r; z_string (j_Seq r); j_TS r; z_string (j_ChainID r); j_Network r; j_Kind r;
   j_Status r; j_Source r; j_From r; j_To r; z_string (j_Nonce r); j_TxHash r; j_RawTx r; j_ValueWei r;
   enc_fields (asset_fields (j_Asset r)); enc_fields (fees_fields (j_Fees r)); j_ReservationID r;
   j_WorstCaseGasWei r; opt_field (j_Replaces r); opt_field (j_ReplacedBy r);
   enc_fields (receipt_fields (j_Receipt r)); opt_field (j_Error r); j_RPC r].

Definition fields_jrecord (l : list string) : option JRecord :=
  match l with
  | [v; i; sq; ts; ch; nw; k; st; src; fr; to; n; h; raw; val; a; f; rid; wg; rep; repby; rc; er; rpc] =>
      match SetString v 10, SetString sq 10, SetString ch 10, SetString n 10,
            sub fields_asset a, sub fields_fees f, sub fields_receipt rc with
      | Some v, Some sq, Some ch, Some n, Some a, Some f, Some rc =>
          Some (mkJRecord v i sq ts ch nw k st src fr to n h raw val a f rid wg (field_opt rep)
                  (field_opt repby) rc (field_opt er) rpc)
      | _, _, _, _, _, _, _ => None
      end
  | _ => None
  end.

Lemma fields_asset_to a : fields_asset (asset_fields a) = Some a.
Proof. destruct a. unfold asset_fields, fields_asset. by rewrite field_zopt_field, !field_opt_field. Qed.
Lemma fields_fees_to f : fields_fees (fees_fields f) = Some f.
Proof. destruct f. unfold fees_fields, fields_fees. simpl. by rewrite SetString_z_string, !field_opt_field. Qed.
Lemma fields_receipt_to r : fields_receipt (receipt_fields r) = Some r.
Proof. destruct r as [[]|]; [|done]. simpl. by rewrite !SetString_z_string. Qed.

Lemma fields_jrecord_to r : fields_jrecord (jrecord_fields r) = Some r.
Proof.
  destruct r. unfold jrecord_fields, fields_jrecord. cbn [j_V j_Seq j_ChainID j_Nonce j_Asset j_Fees j_Receipt].
  rewrite !SetString_z_string, !sub_enc, !field_opt_field.
  by rewrite fields_asset_to, fields_fees_to, fields_receipt_to.
Qed.

Definition jrecord_codec : LineCodec JRecord := field_codec jrecord_fields fields_jrecord fields_jrecord_to.
