(* ===== verification/JournalFacts.v ===== *)
(** * Facts about the journal file

    The shape of a journal file (complete lines, then possibly the beginning of
    a line whose write was interrupted), what reading it gives, what an append
    or a compaction makes of it at every crash point, and the view of its
    records. *)

From S2P Require Import Prelude GoStrings Decimal Rfc3339 Encodings PolicyTypes Domain Trace Journal.

Local Open Scope string_scope.
Local Open Scope Z_scope.
Local Open Scope list_scope.

(** ** Segments *)

Lemma split_lf_line l cur b : no_lf l = true → split_lf cur (l +:+ LF +:+ b) = (srev cur +:+ l) :: split_lf "" b.
Proof.
  revert cur. induction l as [|c l IH]; intros cur H; [by rewrite string_app_nil_r|].
  unfold no_lf in *. simpl in H. apply andb_true_iff in H as [Hc%negb_true_iff H].
  rewrite string_app_cons. simpl. rewrite Hc, IH by done. by rewrite srev_cons, string_app_assoc.
Qed.

Lemma split_lf_tail t cur : no_lf t = true → split_lf cur t = [srev cur +:+ t].
Proof.
  revert cur. induction t as [|c t IH]; intros cur H; [by rewrite string_app_nil_r|].
  unfold no_lf in *. simpl in H. apply andb_true_iff in H as [Hc%negb_true_iff H].
  simpl. rewrite Hc, IH by done. by rewrite srev_cons, string_app_assoc.
Qed.

Lemma unlines_cons l ls : unlines (l :: ls) = l +:+ LF +:+ unlines ls.
Proof. done. Qed.

Lemma split_lf_shape ls tail :
  Forall (λ l, no_lf l = true) ls → no_lf tail = true → split_lf "" (unlines ls +:+ tail) = ls ++ [tail].
Proof.
  intros H Ht. induction H as [|l ls Hl _ IH].
  - change (unlines []) with "". by rewrite string_app_nil_l, split_lf_tail.
  - rewrite unlines_cons, !string_app_assoc, split_lf_line by done. by rewrite IH.
Qed.

Lemma endsWithNewline_app s t : t ≠ "" → endsWithNewline (s +:+ t) = endsWithNewline t.
Proof.
  intros Ht. induction s as [|c s IH]; [done|]. rewrite string_app_cons. simpl.
  destruct (s +:+ t) eqn:E; [|done]. destruct s; [by destruct t|discriminate E].
Qed.

Lemma endsWithNewline_no_lf t : no_lf t = true → endsWithNewline t = false.
Proof.
  unfold no_lf. induction t as [|c t IH]; [done|]. simpl. intros [Hc%negb_true_iff H]%andb_true_iff.
  destruct t; [done|]. by apply IH.
Qed.

Lemma endsWithNewline_unlines ls : endsWithNewline (unlines ls) = negb (bool_decide (ls = [])).
Proof.
  induction ls as [|l ls IH]; [done|]. rewrite unlines_cons, bool_decide_false by done. simpl.
  destruct ls as [|k ls].
  - change (unlines []) with "". rewrite string_app_nil_r. by rewrite endsWithNewline_app.
  - rewrite <-string_app_assoc, endsWithNewline_app; [by rewrite IH|].
    rewrite unlines_cons. by destruct k.
Qed.

Lemma up_to_last_lf_no_lf t : no_lf t = true → up_to_last_lf t = "".
Proof.
  unfold no_lf. induction t as [|c t IH]; [done|]. simpl. intros [Hc%negb_true_iff H]%andb_true_iff.
  by rewrite IH, Hc.
Qed.

Lemma up_to_last_lf_app s t : up_to_last_lf t ≠ "" → up_to_last_lf (s +:+ t) = s +:+ up_to_last_lf t.
Proof.
  intros Ht. induction s as [|c s IH]; [done|]. rewrite !string_app_cons. simpl. rewrite IH.
  destruct (s +:+ up_to_last_lf t) eqn:E; [|done].
  destruct s; [by rewrite string_app_nil_l in E|discriminate E].
Qed.

Lemma up_to_last_lf_shape ls tail : no_lf tail = true → up_to_last_lf (unlines ls +:+ tail) = unlines ls.
Proof.
  intros Ht. induction ls as [|l ls IH].
  - change (unlines []) with "". rewrite string_app_nil_l. by apply up_to_last_lf_no_lf.
  - rewrite unlines_cons, !string_app_assoc.
    assert (H : up_to_last_lf (LF +:+ unlines ls +:+ tail) = LF +:+ unlines ls).
    { change (LF +:+ unlines ls +:+ tail) with (String (Zbyte 10) (unlines ls +:+ tail)). simpl. rewrite IH.
      by destruct (unlines ls). }
    rewrite up_to_last_lf_app; [by rewrite H|by rewrite H].
Qed.

Lemma stake_no_lf k l : no_lf l = true → no_lf (stake k l) = true.
Proof.
  unfold no_lf. revert l. induction k as [|k IH]; intros [|c l]; simpl; try done.
  intros [H1 H2]%andb_true_iff. by rewrite H1, IH.
Qed.

Lemma stake_app_le k s t : (k ≤ String.length s)%nat → stake k (s +:+ t) = stake k s.
Proof.
  revert s. induction k as [|k IH]; intros [|c s] H; simpl in H; try done; [lia|].
  rewrite string_app_cons. simpl. rewrite IH by lia. done.
Qed.

Lemma stake_all s : stake (String.length s) s = s.
Proof. induction s as [|c s IH]; simpl; [done|by rewrite IH]. Qed.

Section Facts.
Context {UT : UnicodeTables} {RC : LineCodec JRecord} {MO : MapOrder}.
Implicit Types (f : File) (recs : list JRecord).

(** ** The shape of a file *)

(** complete lines (whatever they hold), then nothing or a visible fragment *)
Record shape (data : string) (ls : list string) (tail : string) : Prop := {
  sh_data : data = unlines ls +:+ tail;
  sh_lines : Forall (λ l, no_lf l = true) ls;
  sh_tail : no_lf tail = true;
  sh_visible : tail = "" ∨ TrimSpace tail ≠ "";
}.

Definition file_wf f : Prop :=
  match f with None => True | Some data => ∃ ls tail, shape data ls tail end.

(** what a reader sees *)
Definition records f : list JRecord :=
  match f with
  | None => []
  | Some data => (read_lines (endsWithNewline data) (splitLines data)).1
  end.

(** the latest record of each identifier *)
Definition view f : gmap string JRecord := foldLatest (records f).

Lemma read_lines_complete ls : read_lines true (ls ++ [""]) = (omap parse_line ls, false).
Proof.
  induction ls as [|l ls IH]; [done|]. cbn [app read_lines]. rewrite IH.
  unfold torn_segment. rewrite andb_false_r. simpl andb. cbv iota.
  change (omap parse_line (l :: ls)) with
    (match parse_line l with Some y => y :: omap parse_line ls | None => omap parse_line ls end).
  by destruct (parse_line l).
Qed.

Lemma read_lines_torn ls tail b :
  TrimSpace tail ≠ "" → b = false → read_lines b (ls ++ [tail]) = (omap parse_line ls, true).
Proof.
  intros Ht ->. induction ls as [|l ls IH].
  - simpl. unfold torn_segment. simpl. by rewrite bool_decide_false.
  - cbn [app read_lines]. rewrite IH. destruct (ls ++ [tail]) eqn:E; [by destruct ls|].
    unfold torn_segment. simpl andb. cbv iota.
    change (omap parse_line (l :: ls)) with
      (match parse_line l with Some y => y :: omap parse_line ls | None => omap parse_line ls end).
    by destruct (parse_line l).
Qed.

(** Reading a file of that shape: the complete lines, the fragment dropped. *)
Lemma read_shape data ls tail :
  shape data ls tail →
  read_lines (endsWithNewline data) (splitLines data) =
  (omap parse_line ls, negb (bool_decide (tail = ""))).
Proof.
  intros [-> Hls Ht Hv]. unfold splitLines.
  destruct (decide (unlines ls +:+ tail = "")) as [E|E].
  - rewrite E. assert (ls = [] ∧ tail = "") as [-> ->]; [|done].
    destruct ls as [|l ls]; [by rewrite string_app_nil_l in E|].
    rewrite unlines_cons, !string_app_assoc in E. by destruct l.
  - destruct (unlines ls +:+ tail) as [|c0 s0] eqn:E0; [done|]. rewrite <-E0.
    rewrite split_lf_shape by done. destruct (decide (tail = "")) as [->|Hne].
    + rewrite string_app_nil_r in E0 |- *. rewrite endsWithNewline_unlines.
      rewrite bool_decide_false by (intros ->; done). apply read_lines_complete.
    + rewrite endsWithNewline_app, endsWithNewline_no_lf by done.
      destruct Hv as [?|Hv]; [done|]. rewrite (bool_decide_false (tail = "")) by done.
      by apply read_lines_torn.
Qed.

Lemma records_shape data ls tail : shape data ls tail → records (Some data) = omap parse_line ls.
Proof. intros H. simpl. by rewrite (read_shape _ _ _ H). Qed.

(** the file once a torn line has been cut off *)
Definition repaired f : File :=
  match f with
  | None => None
  | Some data => if (read_lines (endsWithNewline data) (splitLines data)).2
                 then Some (up_to_last_lf data) else Some data
  end.

Lemma repaired_shape data ls tail : shape data ls tail → repaired (Some data) = Some (unlines ls).
Proof.
  intros H. unfold repaired. rewrite (read_shape _ _ _ H). destruct H as [-> Hls Ht _]. simpl.
  case_bool_decide as E; simpl; [by rewrite E, string_app_nil_r|]. by rewrite up_to_last_lf_shape.
Qed.

(** ** Encoded lines *)

Lemma encode_visible r : ∃ m, encode_line r = String (Zbyte 123) m.
Proof. destruct (encode_braces r) as [m E]. exists (m +:+ "}"). by rewrite E. Qed.

Lemma parse_encoded r : parse_line (encode_line r) = Some r.
Proof.
  unfold parse_line. rewrite encode_trim, bool_decide_false by apply encode_nonempty. apply decode_encode.
Qed.

Lemma omap_parse_encoded recs : omap parse_line (map encode_line recs) = recs.
Proof. induction recs as [|r recs IH]; [done|]. csimpl. rewrite parse_encoded. by rewrite IH. Qed.

(** a file of complete lines with the first [k] bytes of a record's line *)
Lemma appended_shape ls r k :
  Forall (λ l, no_lf l = true) ls →
  (k ≤ S (String.length (encode_line r)))%nat →
  if decide (k = S (String.length (encode_line r)))
  then shape (unlines ls +:+ stake k (encode_line r +:+ LF)) (ls ++ [encode_line r]) ""
  else shape (unlines ls +:+ stake k (encode_line r +:+ LF)) ls (stake k (encode_line r)).
Proof.
  intros Hls Hk. destruct (decide _) as [->|Hne].
  - split.
    + rewrite string_app_nil_r, unlines_app. f_equal.
      replace (S (String.length (encode_line r))) with (String.length (encode_line r +:+ LF))
        by (rewrite string_length_app; simpl; lia).
      rewrite stake_all. unfold unlines. simpl. by rewrite string_app_nil_r.
    + apply Forall_app. split; [done|]. constructor; [apply encode_no_lf|constructor].
    + done.
    + by left.
  - rewrite stake_app_le by lia. split; [done|done|apply stake_no_lf, encode_no_lf|].
    destruct (encode_visible r) as [m ->]. destruct k as [|k]; [by left|right].
    cbn [stake]. by apply TrimSpace_visible.
Qed.

Lemma stake_over k s : (String.length s ≤ k)%nat → stake k s = s.
Proof.
  revert k. induction s as [|c s IH]; intros [|k] H; simpl in *; try done; [lia|]. by rewrite IH by lia.
Qed.

(** ** Folding *)

Lemma fold_key recs : ∀ id r, foldLatest recs !! id = Some r → j_ID r = id.
Proof.
  unfold foldLatest.
  assert (H : ∀ m : gmap string JRecord, (∀ id r, m !! id = Some r → j_ID r = id) →
    ∀ id r, foldl fold_step m recs !! id = Some r → j_ID r = id).
  { induction recs as [|x recs IH]; intros m Hm; [done|]. apply IH. intros id r. unfold fold_step.
    destruct (m !! j_ID x) as [cur|]; [destruct (_ <=? _)|]; try apply Hm;
      (destruct (decide (j_ID x = id)) as [<-|Hne];
       [rewrite lookup_insert_eq; by intros [= <-]|rewrite lookup_insert_ne by done; apply Hm]). }
  apply H. intros id r. by rewrite lookup_empty.
Qed.

Lemma foldLatest_app recs r : foldLatest (recs ++ [r]) = fold_step (foldLatest recs) r.
Proof. unfold foldLatest. by rewrite foldl_app. Qed.

Lemma fold_elem recs id r : foldLatest recs !! id = Some r → r ∈ recs.
Proof.
  induction recs as [|x recs IH] using rev_ind; [unfold foldLatest; simpl; by rewrite lookup_empty|].
  rewrite foldLatest_app. unfold fold_step. rewrite elem_of_app, list_elem_of_singleton.
  destruct (foldLatest recs !! j_ID x) as [cur|] eqn:E; [destruct (_ <=? _)|]; try (intros H; left; by apply IH);
    (destruct (decide (j_ID x = id)) as [<-|Hne];
     [rewrite lookup_insert_eq; intros [= <-]; by right|
      rewrite lookup_insert_ne by done; intros H; left; by apply IH]).
Qed.

(** every identifier of the list is in the fold, at a sequence number no smaller *)
Lemma fold_newest recs r : r ∈ recs → ∃ cur, foldLatest recs !! j_ID r = Some cur ∧ j_Seq r ≤ j_Seq cur.
Proof.
  induction recs as [|x recs IH] using rev_ind; [by intros ?%elem_of_nil|].
  rewrite foldLatest_app, elem_of_app, list_elem_of_singleton. unfold fold_step.
  intros [Hr| ->].
  - destruct (IH Hr) as (cur & Hcur & Hle). destruct (decide (j_ID x = j_ID r)) as [He|Hne].
    + rewrite He, Hcur. destruct (Z.leb_spec (j_Seq cur) (j_Seq x)); [|eauto].
      exists x. rewrite lookup_insert_eq. split; [done|lia].
    + exists cur. split; [|done]. destruct (foldLatest recs !! j_ID x); [destruct (_ <=? _)|];
        rewrite ?lookup_insert_ne; done.
  - destruct (foldLatest recs !! j_ID x) as [cur|] eqn:E; [destruct (Z.leb_spec (j_Seq cur) (j_Seq x))|].
    + exists x. by rewrite lookup_insert_eq.
    + exists cur. split; [done|lia].
    + exists x. by rewrite lookup_insert_eq.
Qed.

(** Folding a list of distinct identifiers gives it back as a map. *)
Lemma foldLatest_distinct recs :
  NoDup (map j_ID recs) → foldLatest recs = list_to_map (map (λ r, (j_ID r, r)) recs).
Proof.
  intros Hnd. apply map_eq. intros id.
  induction recs as [|x recs IH] using rev_ind; [done|].
  rewrite map_app in Hnd. apply NoDup_app in Hnd as (Hnd & Hd & _).
  rewrite foldLatest_app, map_app, list_to_map_app. unfold fold_step.
  assert (Hx : foldLatest recs !! j_ID x = None).
  { apply eq_None_not_Some. intros [r Hr]. pose proof (fold_key _ _ _ Hr) as Hk.
    apply fold_elem in Hr. apply (Hd (j_ID x)); [|left]. rewrite <-Hk. by apply list_elem_of_fmap_2. }
  rewrite Hx. simpl. destruct (decide (j_ID x = id)) as [<-|Hne].
  - rewrite lookup_insert_eq. symmetry. apply lookup_union_Some_raw. right. rewrite lookup_insert_eq.
    split; [|done]. rewrite <-IH by done. done.
  - rewrite lookup_insert_ne by done. rewrite IH by done. symmetry.
    destruct (list_to_map (map (λ r, (j_ID r, r)) recs) !! id) as [y|] eqn:E.
    + by apply lookup_union_Some_l.
    + rewrite lookup_union_r by done. by rewrite lookup_insert_ne, lookup_empty.
Qed.

(** Compacting a fold keeps it. *)
Lemma foldLatest_snapshot (m : gmap string JRecord) :
  (∀ id r, m !! id = Some r → j_ID r = id) → foldLatest (snapshot m) = m.
Proof.
  intros Hk.
  assert (Hp : map (λ r, (j_ID r, r)) (snapshot m) ≡ₚ map_to_list m).
  { unfold snapshot. rewrite exchange_sort_perm, enum_perm.
    assert (H : ∀ l : list (string * JRecord), (∀ p, p ∈ l → j_ID p.2 = p.1) →
                 map (λ r, (j_ID r, r)) l.*2 = l).
    { induction l as [|[i r] l IH]; intros H; [done|]. csimpl. rewrite IH by (intros p Hp; apply H; by right).
      f_equal. f_equal. apply (H (i, r)). left. }
    rewrite H; [done|]. intros [i r] Hin%elem_of_map_to_list. by apply Hk. }
  assert (Hnd : NoDup (map j_ID (snapshot m))).
  { replace (map j_ID (snapshot m)) with ((map (λ r, (j_ID r, r)) (snapshot m)).*1)
      by (rewrite <-list_fmap_compose; done).
    rewrite Hp. apply NoDup_fst_map_to_list. }
  assert (E : (map (λ r, (j_ID r, r)) (snapshot m)).*1 = map j_ID (snapshot m))
    by (by rewrite <-list_fmap_compose).
  rewrite foldLatest_distinct by done. rewrite <-(list_to_map_to_list m) at 2.
  apply list_to_map_proper; [by rewrite E|done].
Qed.
End Facts.

(** ** What the journal operations write *)

Local Open Scope string_scope.
Local Open Scope Z_scope.
Local Open Scope list_scope.
Local Open Scope go_scope.

Section Ops.
Context {UT : UnicodeTables} {RC : LineCodec JRecord} {MO : MapOrder}.
Variable io : JIO.
Implicit Types (f : File) (recs : list JRecord).

(** a file of complete lines *)
Definition complete f recs : Prop :=
  (f = None ∧ recs = []) ∨
  ∃ ls, f = Some (unlines ls) ∧ Forall (λ l, no_lf l = true) ls ∧ recs = omap parse_line ls.

Lemma shape_complete ls : Forall (λ l, no_lf l = true) ls → shape (unlines ls) ls "".
Proof. intros H. split; [by rewrite string_app_nil_r|done|done|by left]. Qed.

Lemma complete_wf f recs : complete f recs → file_wf f ∧ records f = recs.
Proof.
  intros [[-> ->]|(ls & -> & Hls & ->)]; [done|]. pose proof (shape_complete ls Hls) as Hs.
  split; [by exists ls, ""|by apply records_shape in Hs].
Qed.

Lemma repaired_complete f : file_wf f → complete (repaired f) (records f).
Proof.
  destruct f as [data|]; [|by left]. intros (ls & tail & Hs). right. exists ls.
  rewrite (repaired_shape _ _ _ Hs), (records_shape _ _ _ Hs). destruct Hs. done.
Qed.

(** *** readAll *)

Lemma readAll_ok repair f x tr :
  file_wf f → readAll io repair f = (Ok x, tr) →
  x = (records f, max_seq (records f)) ∧
  (if repair then after f tr = repaired f ∧ Forall (λ g, g = repaired f) tr else tr = []).
Proof.
  intros Hwf. unfold readAll. intros H. minv.
  match goal with H : _ _ = (Ok x, _) |- _ => rename H into HH end.
  destruct f as [data|]; [|minv; by destruct repair].
  assert (Hrec : records (Some data) = (read_lines (endsWithNewline data) (splitLines data)).1) by done.
  assert (Hrep : repaired (Some data) =
    if (read_lines (endsWithNewline data) (splitLines data)).2
    then Some (up_to_last_lf data) else Some data) by done.
  destruct (read_lines _ _) as [recs torn]. cbn [fst snd] in Hrec, Hrep. rewrite Hrec, Hrep.
  destruct torn, repair; simpl in HH; try by minv.
  unfold truncateTornFinal in HH. minv.
  match goal with H : (Ok _, _) = _ |- _ => injection H as _ <- end.
  split; [done|]. split; [done|]. by constructor.
Qed.

Lemma readAll_trace repair f f' :
  file_wf f → f' ∈ (readAll io repair f).2 → f' = repaired f.
Proof.
  intros Hwf H. unfold readAll in H.
  apply mbind_trace_read in H as (x & Hx & H); [|auto with daxie]. minv.
  apply mbind_trace_read in H as (y & Hy & H); [|auto with daxie]. minv.
  destruct f as [data|]; [|by apply elem_of_nil in H].
  assert (Hrep : repaired (Some data) =
    if (read_lines (endsWithNewline data) (splitLines data)).2
    then Some (up_to_last_lf data) else Some data) by done.
  destruct (read_lines _ _) as [recs torn]. cbn [fst snd] in Hrep.
  destruct (torn && repair) eqn:E; [|by apply elem_of_nil in H].
  apply andb_true_iff in E as [-> ->].
  apply mbind_trace in H as [H|(u & tr & _ & H)]; [|by apply elem_of_nil in H].
  unfold truncateTornFinal in H. apply mbind_trace_read in H as (z & _ & H); [|auto with daxie].
  rewrite Hrep. by apply list_elem_of_singleton in H.
Qed.

Lemma readAll_run repair f :
  file_wf f → ∃ tr, readAll jio_ok repair f = (Ok (records f, max_seq (records f)), tr) ∧
                    (if repair then after f tr = repaired f else tr = []).
Proof.
  intros Hwf. unfold readAll. rewrite (mbind_read _ _ _ f), (mbind_read _ _ _ tt) by done.
  destruct f as [data|]; [|exists []; by destruct repair].
  assert (Hrec : records (Some data) = (read_lines (endsWithNewline data) (splitLines data)).1) by done.
  assert (Hrep : repaired (Some data) =
    if (read_lines (endsWithNewline data) (splitLines data)).2
    then Some (up_to_last_lf data) else Some data) by done.
  destruct (read_lines _ _) as [recs torn]. cbn [fst snd] in Hrec, Hrep. rewrite Hrec, Hrep.
  destruct torn, repair; simpl; try (eexists; split; [done|]; done).
Qed.

(** *** Writing one record *)

(** the records after an append, with or without compaction *)
Definition written recs (r : JRecord) (f' : File) : Prop :=
  file_wf f' ∧ (records f' = recs ++ [r] ∨ records f' = snapshot (foldLatest (recs ++ [r]))).

Lemma appended_complete f recs r k :
  complete f recs →
  let f' := appended f (encode_line r +:+ LF) k in
  (file_wf f' ∧ records f' = recs) ∨
  ((S (String.length (encode_line r)) ≤ k)%nat ∧ complete f' (recs ++ [r])).
Proof.
  intros Hc. cbv zeta.
  assert (∃ ls, Forall (λ l, no_lf l = true) ls ∧ default "" f = unlines ls ∧ recs = omap parse_line ls)
    as (ls & Hls & Hf & ->).
  { destruct Hc as [[-> ->]|(ls & -> & Hls & ->)]; [by exists []|by exists ls]. }
  unfold appended. rewrite Hf. clear Hf Hc f.
  destruct (decide (S (String.length (encode_line r)) ≤ k)%nat) as [Hk|Hk].
  - right. split; [done|]. right. exists (ls ++ [encode_line r]). split.
    + rewrite stake_over by (rewrite string_length_app; simpl; lia).
      rewrite unlines_app. change (unlines [encode_line r]) with (encode_line r +:+ LF +:+ "").
      by rewrite string_app_nil_r.
    + split; [apply Forall_app; split; [done|constructor; [apply encode_no_lf|constructor]]|].
      rewrite omap_app. f_equal. csimpl. by rewrite parse_encoded.
  - left. pose proof (appended_shape ls r k Hls ltac:(lia)) as Hs. rewrite decide_False in Hs by lia.
    split; [by eexists _, _|]. by apply records_shape in Hs.
Qed.

Lemma compact_written recs r f' :
  f' = Some (unlines (map encode_line (snapshot (foldLatest (recs ++ [r]))))) → written recs r f'.
Proof.
  intros ->. assert (Hls : Forall (λ l, no_lf l = true)
    (map encode_line (snapshot (foldLatest (recs ++ [r]))))).
  { apply Forall_map, Forall_forall. intros x _. apply encode_no_lf. }
  pose proof (shape_complete _ Hls) as Hs. split; [by eexists _, _|]. right.
  rewrite (records_shape _ _ _ Hs). apply omap_parse_encoded.
Qed.

Lemma maybeCompact_trace recs r f f' :
  f' ∈ (maybeCompact io recs r f).2 → written recs r f'.
Proof.
  unfold maybeCompact. intros H. apply mbind_trace_read in H as (g & _ & H); [|auto with daxie].
  assert (Hc : f' ∈ (compact io (foldLatest (recs ++ [r])) f).2 → written recs r f').
  { intros H'. unfold compact in H'. apply mbind_trace_read in H' as (u & _ & H'); [|auto with daxie].
    apply list_elem_of_singleton in H'. by apply compact_written. }
  destruct (_ <? _); [|by apply Hc]. destruct (_ && _); [by apply elem_of_nil in H|].
  destruct (negb _); [by apply elem_of_nil in H|by apply Hc].
Qed.

Lemma maybeCompact_ok recs r f u tr :
  complete f (recs ++ [r]) → maybeCompact io recs r f = (Ok u, tr) → written recs r (after f tr).
Proof.
  intros Hc H.
  assert (Hsame : written recs r f) by (destruct (complete_wf _ _ Hc); split; auto).
  destruct tr as [|x tr] using rev_ind; [done|]. clear IHtr.
  assert (Hin : x ∈ (maybeCompact io recs r f).2) by (rewrite H; simpl; apply elem_of_app; right; left).
  unfold after. rewrite List.last_last. by eapply maybeCompact_trace.
Qed.

Definition write_record recs r : JM unit := appendLine io r ;;; maybeCompact io recs r.

Lemma appendLine_ok recs r f u tr :
  complete f recs → appendLine io r f = (Ok u, tr) → complete (after f tr) (recs ++ [r]).
Proof.
  intros Hc. unfold appendLine. destruct (jio_append io) as [[k e]|]; [done|]. intros [= _ <-].
  rewrite string_length_app. change (String.length LF) with 1%nat.
  rewrite Nat.add_1_r, seq_S, map_app. unfold after. cbn [map]. rewrite app_comm_cons, List.last_last. simpl plus.
  destruct (appended_complete f recs r (S (String.length (encode_line r))) Hc) as [[_ H]|[_ H]]; [|done].
  exfalso. revert H.
  assert (∃ ls, Forall (λ l, no_lf l = true) ls ∧ default "" f = unlines ls ∧ recs = omap parse_line ls)
    as (ls & Hls & Hf & ->).
  { destruct Hc as [[-> ->]|(ls & -> & Hls & ->)]; [by exists []|by exists ls]. }
  unfold appended. rewrite Hf.
  pose proof (appended_shape ls r _ Hls (le_n _)) as Hs. rewrite decide_True in Hs by done.
  rewrite (records_shape _ _ _ Hs), omap_app. csimpl. rewrite parse_encoded. csimpl.
  intros H. apply (f_equal length) in H. rewrite length_app in H. simpl in H. lia.
Qed.

(** every crash point of a write: the old records or the new ones *)
Lemma write_record_trace recs r f f' :
  complete f recs → f' ∈ (write_record recs r f).2 →
  (file_wf f' ∧ records f' = recs) ∨ written recs r f'.
Proof.
  intros Hc [H|(u & tr & H1 & H)]%mbind_trace; [|right; by eapply maybeCompact_trace].
  assert (Happ : ∀ k, (file_wf (appended f (encode_line r +:+ LF) k) ∧
                       records (appended f (encode_line r +:+ LF) k) = recs) ∨
                      written recs r (appended f (encode_line r +:+ LF) k)).
  { intros k. destruct (appended_complete f recs r k Hc) as [?|[_ Hw]]; [by left|right].
    destruct (complete_wf _ _ Hw). split; auto. }
  unfold appendLine in H. destruct (jio_append io) as [[k e]|]; simpl in H;
    (apply elem_of_cons in H as [->|H]; [apply (Happ 0%nat)|]);
    apply list_elem_of_fmap in H as (j & -> & _); apply Happ.
Qed.

Lemma write_record_ok recs r f u tr :
  complete f recs → write_record recs r f = (Ok u, tr) → written recs r (after f tr).
Proof.
  intros Hc H. unfold write_record in H. apply mbind_ok in H as (a & t1 & t2 & H1 & H2 & ->).
  rewrite after_app. eapply maybeCompact_ok; [|exact H2]. by eapply appendLine_ok.
Qed.

(** With no fault a write succeeds. *)
Lemma maybeCompact_run recs r f : (maybeCompact jio_ok recs r f).1 = Ok tt.
Proof.
  unfold maybeCompact. rewrite (mbind_read _ _ _ f) by done.
  destruct (_ <? _); [|done]. destruct (_ && _); [done|]. by destruct (negb _).
Qed.

Lemma write_record_run recs r f : (mbind (appendLine jio_ok r) (λ _, maybeCompact jio_ok recs r) f).1 = Ok tt.
Proof.
  erewrite mbind_run; [|unfold appendLine; reflexivity]. apply maybeCompact_run.
Qed.
End Ops.

(** what the fold becomes *)
Section View.
Context {UT : UnicodeTables} {RC : LineCodec JRecord} {MO : MapOrder}.

Lemma written_view recs r f' : written recs r f' → view f' = fold_step (foldLatest recs) r.
Proof.
  intros [_ [H|H]]; unfold view; rewrite H; [apply foldLatest_app|].
  rewrite foldLatest_snapshot by apply fold_key. apply foldLatest_app.
Qed.

Lemma max_seq_ge_gen recs m : m ≤ foldl (λ m r, if m <? j_Seq r then j_Seq r else m) m recs ∧
  ∀ r, r ∈ recs → j_Seq r ≤ foldl (λ m r, if m <? j_Seq r then j_Seq r else m) m recs.
Proof.
  revert m. induction recs as [|x recs IH]; intros m; [split; [done|by intros r ?%elem_of_nil]|].
  simpl. destruct (IH (if m <? j_Seq x then j_Seq x else m)) as [H1 H2]. split.
  - etrans; [|exact H1]. zcases; lia.
  - intros r [->|Hr]%elem_of_cons; [|by apply H2]. etrans; [|exact H1]. zcases; lia.
Qed.

Lemma max_seq_ge recs r : r ∈ recs → j_Seq r ≤ max_seq recs.
Proof. apply (proj2 (max_seq_ge_gen recs 0)). Qed.

Lemma max_seq_nonneg recs : 0 ≤ max_seq recs.
Proof. apply (proj1 (max_seq_ge_gen recs 0)). Qed.

(** A record that is newer than all others takes its place in the fold. *)
Lemma fold_step_newer recs r :
  (∀ x, x ∈ recs → j_Seq x ≤ j_Seq r) → fold_step (foldLatest recs) r = <[j_ID r := r]> (foldLatest recs).
Proof.
  intros H. unfold fold_step. destruct (foldLatest recs !! j_ID r) as [cur|] eqn:E; [|done].
  apply fold_elem, H in E. apply Z.leb_le in E as ->. done.
Qed.
End View.
