(* ===== verification/JournalProps.v ===== *)
(** * What the journal guarantees

    Crash atomicity of an append, the transition of a record, the history kept
    along every run, the invariant of the file, and the lookup by reservation. *)

From S2P Require Import Prelude GoStrings Decimal Rfc3339 Encodings PolicyTypes Domain Trace Journal JournalFacts.

Local Open Scope string_scope.
Local Open Scope Z_scope.
Local Open Scope list_scope.
Local Open Scope go_scope.

Section Runs.
Context {UT : UnicodeTables} {RC : LineCodec JRecord} {MO : MapOrder}.
Implicit Types (f : File) (recs : list JRecord).

(** [f'] is a crash point of writing [r] on [f]: nothing changed, or all of it *)
Definition atomic_write f (r : JRecord) f' : Prop :=
  (file_wf f' ∧ records f' = records f) ∨ written (records f) r f'.

Definition next_seq f : Z := wrap64 (max_seq (records f) + 1).

Lemma repaired_atomic f r : file_wf f → atomic_write f r (repaired f).
Proof. intros H. left. by apply complete_wf, repaired_complete. Qed.

(** the record Append writes *)
Definition append_record (rec : JRecord) (id : string) (seq now : Z) : JRecord :=
  with_seq_ts (with_v_id rec (if j_V rec =? 0 then recordVersion else j_V rec) id) seq
    (if bool_decide (j_TS rec = "") then FormatNano now else j_TS rec).

Definition append_id (rec : JRecord) (ulid : res error string) : res error string :=
  if bool_decide (j_ID rec = "") then ulid else Ok (j_ID rec).

Lemma Append_trace io rec ulid now f f' :
  file_wf f → f' ∈ (Append io rec ulid now f).2 →
  ∃ id, atomic_write f (append_record rec id (next_seq f) now) f' ∧
        (append_id rec ulid = Ok id ∨ (id = "" ∧ records f' = records f)).
Proof.
  intros Hwf. unfold Append, withLock. intros H.
  apply mbind_trace_read in H as (u & _ & H); [|auto with daxie].
  apply mbind_trace in H as [H|(p & tr & Hr & H)].
  { apply readAll_trace in H as ->; [|done]. exists "". split; [by apply repaired_atomic|].
    right. split; [done|]. by apply complete_wf, repaired_complete. }
  apply readAll_ok in Hr as [-> [Ha _]]; [|done]. rewrite Ha in H. cbn [fst snd] in H.
  apply mbind_trace_read in H as (id & Hid & H); [|auto with daxie]. minv.
  fold (append_id rec ulid) in Hid. exists id. split; [|by left].
  assert (H' : f' ∈ (write_record io (records f) (append_record rec id (next_seq f) now) (repaired f)).2).
  { unfold write_record, append_record, next_seq.
    apply mbind_trace in H as [H|(v & tr' & H1 & H)]; [by apply mbind_trace_l|].
    apply mbind_trace in H as [H|(w & tr'' & _ & H)]; [|by apply elem_of_nil in H].
    by eapply mbind_trace_r. }
  apply write_record_trace in H' as [[H1 H2]|H']; [by left|by right|by apply repaired_complete].
Qed.

Lemma SetState_trace io id mut now f f' :
  file_wf f → f' ∈ (SetState io id mut now f).2 →
  records f' = records f ∧ file_wf f' ∨
  ∃ prior, view f !! id = Some prior ∧
    atomic_write f (with_seq_ts (applyTo mut prior) (next_seq f) (FormatNano now)) f'.
Proof.
  intros Hwf. unfold SetState, withLock. case_bool_decide; [by intros ?%elem_of_nil|]. intros H'.
  apply mbind_trace_read in H' as (u & _ & H'); [|auto with daxie].
  apply mbind_trace in H' as [H'|(p & tr & Hr & H')].
  { apply readAll_trace in H' as ->; [|done]. left.
    destruct (complete_wf _ _ (repaired_complete f Hwf)). done. }
  apply readAll_ok in Hr as [-> [Ha _]]; [|done]. rewrite Ha in H'. cbn [fst snd] in H'.
  fold (view f) in H'. destruct (view f !! id) as [prior|]; [|by apply elem_of_nil in H'].
  right. exists prior. split; [done|].
  apply (write_record_trace io) in H' as [[H1 H2]|H']; [by left|by right|by apply repaired_complete].
Qed.

(** ** Runs *)

(** One write of an operation on a chain's journal; an appended record has an
    identifier that no record of the journal has. *)
Inductive jstep f f' : Prop :=
| js_append io rec ulid now :
    (∀ id, append_id rec ulid = Ok id → view f !! id = None) →
    f' ∈ (Append io rec ulid now f).2 → jstep f f'
| js_set io id mut now : f' ∈ (SetState io id mut now f).2 → jstep f f'.

Definition journal_inv f : Prop :=
  file_wf f ∧ Forall (λ r, 0 ≤ j_Seq r) (records f) ∧ NoDup (map j_Seq (records f)).

(** the sequence numbers have not run out *)
Definition seq_room f : Prop := max_seq (records f) + 1 < 2 ^ 64.

Lemma next_seq_spec f : seq_room f → next_seq f = max_seq (records f) + 1.
Proof.
  unfold seq_room, next_seq, wrap64. intros H. pose proof (max_seq_nonneg (records f)).
  apply Z.mod_small. lia.
Qed.

Lemma next_seq_newer f r : seq_room f → r ∈ records f → j_Seq r < next_seq f.
Proof. intros H Hr. rewrite next_seq_spec by done. apply max_seq_ge in Hr. lia. Qed.

(** a write seen through the fold *)
Lemma atomic_view f r f' :
  seq_room f → j_Seq r = next_seq f → atomic_write f r f' →
  view f' = view f ∨ view f' = <[j_ID r := r]> (view f).
Proof.
  intros Hroom Hs [[_ H]|H]; [left; unfold view; by rewrite H|right].
  rewrite (written_view _ _ _ H). apply fold_step_newer. intros x Hx. rewrite Hs.
  pose proof (next_seq_newer f x Hroom Hx). lia.
Qed.

Lemma snapshot_elem (m : gmap string JRecord) r : r ∈ snapshot m → ∃ id, m !! id = Some r.
Proof.
  unfold snapshot. rewrite exchange_sort_perm, enum_perm. intros ([i x] & -> & H)%list_elem_of_fmap.
  apply elem_of_map_to_list in H. eauto.
Qed.

Lemma snapshot_nodup (m : gmap string JRecord) :
  (∀ id r, m !! id = Some r → j_ID r = id) → NoDup (snapshot m).
Proof.
  intros Hk. unfold snapshot. rewrite exchange_sort_perm, enum_perm. apply NoDup_fmap_2_strong.
  - intros [i x] [j y] H1%elem_of_map_to_list H2%elem_of_map_to_list. simpl. intros ->.
    by rewrite <-(Hk _ _ H1), <-(Hk _ _ H2).
  - apply NoDup_map_to_list.
Qed.

Lemma NoDup_seq_snapshot recs : NoDup (map j_Seq recs) → NoDup (map j_Seq (snapshot (foldLatest recs))).
Proof.
  intros Hnd. apply NoDup_fmap_2_strong; [|apply snapshot_nodup, fold_key].
  intros x y [i Hx]%snapshot_elem [j Hy]%snapshot_elem. apply fold_elem in Hx, Hy. clear i j.
  induction recs as [|z recs IH]; [by apply elem_of_nil in Hx|]. simpl in Hnd.
  apply NoDup_cons in Hnd as [Hz Hnd]. apply elem_of_cons in Hx, Hy. intros He.
  destruct Hx as [->|Hx], Hy as [->|Hy]; [done| | |by apply IH].
  - exfalso. apply Hz. rewrite He. by apply list_elem_of_fmap_2.
  - exfalso. apply Hz. rewrite <-He. by apply list_elem_of_fmap_2.
Qed.

Lemma written_inv f r f' :
  journal_inv f → seq_room f → j_Seq r = next_seq f → written (records f) r f' → journal_inv f'.
Proof.
  intros (_ & Hpos & Hnd) Hroom Hs [Hwf' H].
  assert (Hpos' : Forall (λ r, 0 ≤ j_Seq r) (records f ++ [r])).
  { apply Forall_app. split; [done|]. constructor; [|constructor]. rewrite Hs, next_seq_spec by done.
    pose proof (max_seq_nonneg (records f)). lia. }
  assert (Hnd' : NoDup (map j_Seq (records f ++ [r]))).
  { rewrite map_app. apply NoDup_app. split_and!; [done| |apply NoDup_singleton].
    intros s (x & -> & Hx)%list_elem_of_fmap Hin%list_elem_of_singleton.
    pose proof (next_seq_newer f x Hroom Hx). lia. }
  split; [done|]. destruct H as [->| ->]; [done|]. split; [|by apply NoDup_seq_snapshot].
  apply Forall_forall. intros x [i Hx]%snapshot_elem. apply fold_elem in Hx.
  rewrite Forall_forall in Hpos'. by apply Hpos'.
Qed.

Lemma atomic_inv f r f' :
  journal_inv f → seq_room f → j_Seq r = next_seq f → atomic_write f r f' → journal_inv f'.
Proof.
  intros Hi Hroom Hs [[Hwf H]|H]; [|by eapply written_inv].
  destruct Hi as (_ & H1 & H2). unfold journal_inv. by rewrite H.
Qed.

Lemma jstep_view f f' :
  journal_inv f → seq_room f → jstep f f' →
  view f' = view f ∨
  ∃ r, view f' = <[j_ID r := r]> (view f) ∧ j_Seq r = next_seq f ∧
       (view f !! j_ID r = None ∨
        ∃ prior mut ts, view f !! j_ID r = Some prior ∧ r = with_seq_ts (applyTo mut prior) (next_seq f) ts).
Proof.
  intros Hi Hroom [io rec ulid now Hfresh H|io id mut now H].
  - apply Append_trace in H as (i & Ha & Hid); [|apply Hi].
    destruct Hid as [Hid|[_ Hsame]]; [|left; unfold view; by rewrite Hsame].
    destruct (atomic_view f (append_record rec i (next_seq f) now) f' Hroom eq_refl Ha) as [?|Hv];
      [by left|right].
    eexists. split; [exact Hv|]. split; [done|]. left. by apply Hfresh.
  - apply SetState_trace in H as [[H _]|(prior & Hp & Ha)]; [left; unfold view; by rewrite H| |apply Hi].
    destruct (atomic_view f (with_seq_ts (applyTo mut prior) (next_seq f) (FormatNano now)) f'
      Hroom eq_refl Ha) as [?|Hv]; [by left|right].
    eexists. split; [exact Hv|]. split; [done|]. right. exists prior, mut, (FormatNano now).
    split; [|done]. simpl. by rewrite (fold_key _ _ _ Hp).
Qed.

Lemma jstep_inv f f' : journal_inv f → seq_room f → jstep f f' → journal_inv f'.
Proof.
  intros Hi Hroom [io rec ulid now _ H|io id mut now H].
  - apply Append_trace in H as (i & Ha & _); [|apply Hi].
    by apply (atomic_inv f (append_record rec i (next_seq f) now)).
  - apply SetState_trace in H as [[H Hw]|(prior & Hp & Ha)]; [| |apply Hi].
    + destruct Hi as (_ & H1 & H2). unfold journal_inv. by rewrite H.
    + by apply (atomic_inv f (with_seq_ts (applyTo mut prior) (next_seq f) (FormatNano now))).
Qed.

(** a run during which the sequence numbers do not run out *)
Definition jrun : relation File := rtc (λ f f', seq_room f ∧ jstep f f').

Lemma jrun_inv f f' : jrun f f' → journal_inv f → journal_inv f'.
Proof. induction 1 as [|f f1 f' [Hr Hs] _ IH]; [done|]. intros Hi. by apply IH, (jstep_inv f). Qed.

(** what a run keeps of a record *)
Lemma run_history f f' id r :
  jrun f f' → journal_inv f → view f !! id = Some r →
  ∃ r', view f' !! id = Some r' ∧ j_Seq r ≤ j_Seq r' ∧ j_From r' = j_From r ∧ j_Nonce r' = j_Nonce r ∧
        j_RawTx r' = j_RawTx r ∧ j_ChainID r' = j_ChainID r.
Proof.
  intros Hrun. revert r. induction Hrun as [f|f f1 f' [Hroom Hs] _ IH]; intros r Hi Hr; [by exists r|].
  assert (H1 : ∃ r1, view f1 !! id = Some r1 ∧ j_Seq r ≤ j_Seq r1 ∧ j_From r1 = j_From r ∧
                     j_Nonce r1 = j_Nonce r ∧ j_RawTx r1 = j_RawTx r ∧ j_ChainID r1 = j_ChainID r).
  { destruct (jstep_view f f1 Hi Hroom Hs) as [->|(x & -> & Hseq & Hx)]; [by exists r|].
    destruct (decide (j_ID x = id)) as [He|Hne]; [|rewrite lookup_insert_ne by done; by exists r].
    rewrite He in Hx |- *. exists x. rewrite lookup_insert_eq. split; [done|].
    pose proof (next_seq_newer f r Hroom (fold_elem _ _ _ Hr)).
    destruct Hx as [Hx|(prior & mut & ts & Hx & ->)]; [congruence|].
    rewrite Hr in Hx. injection Hx as <-. simpl. split_and!; [lia|done..]. }
  destruct H1 as (r1 & Hr1 & H1). destruct (IH r1 (jstep_inv _ _ Hi Hroom Hs) Hr1) as (r' & Hr' & H2).
  exists r'. destruct_and!. split_and!; [done|lia|congruence..].
Qed.

Lemma run_keeps f f' id r :
  jrun f f' → journal_inv f → view f !! id = Some r →
  ∃ r', view f' !! id = Some r' ∧ j_From r' = j_From r ∧ j_Nonce r' = j_Nonce r.
Proof. intros H Hi Hr. destruct (run_history f f' id r H Hi Hr) as (r' & Hr' & _ & Hf & Hn & _). by exists r'. Qed.
End Runs.

(** ** Lookup *)

Section Lookup.
Context {UT : UnicodeTables} {RC : LineCodec JRecord} {MO : MapOrder}.

Lemma newest_gen test rs found :
  match found with Some x => test x = true | None => True end →
  match foldl (λ found r, if test r
                    then match found with
                         | None => Some r
                         | Some f => if j_Seq f <? j_Seq r then Some r else found
                         end
                    else found) found rs with
  | Some r => test r = true ∧ (r ∈ rs ∨ found = Some r) ∧
              (∀ x, x ∈ rs → test x = true → j_Seq x ≤ j_Seq r) ∧
              (∀ x, found = Some x → j_Seq x ≤ j_Seq r)
  | None => found = None ∧ ∀ x, x ∈ rs → test x = false
  end.
Proof.
  revert found. induction rs as [|y rs IH]; intros found Hf; simpl.
  - destruct found as [x|]; [|split; [done|by intros x ?%elem_of_nil]].
    split; [done|]. split; [by right|]. split; [by intros z ?%elem_of_nil|]. by intros z [= ->].
  - destruct (test y) eqn:Ey.
    + set (nf := match found with Some f => if j_Seq f <? j_Seq y then Some y else found | None => Some y end).
      assert (Hnf : ∃ z, nf = Some z ∧ test z = true ∧ j_Seq y ≤ j_Seq z ∧
                         (z = y ∨ found = Some z) ∧ ∀ x, found = Some x → j_Seq x ≤ j_Seq z).
      { unfold nf. destruct found as [x|]; [destruct (Z.ltb_spec (j_Seq x) (j_Seq y))|].
        - exists y. split_and!; [done|done|lia|by left|intros ? [= <-]; lia].
        - exists x. split_and!; [done|done|lia|by right|intros ? [= <-]; lia].
        - exists y. split_and!; [done|done|lia|by left|done]. }
      destruct Hnf as (z & -> & Hz & Hyz & Hor & Hfz). specialize (IH (Some z) Hz).
      destruct (foldl _ (Some z) rs) as [r|]; [|by destruct IH].
      destruct IH as (H1 & H2 & H3 & H4). specialize (H4 z eq_refl). split; [done|]. split.
      * destruct H2 as [?|[= <-]]; [left; by right|]. destruct Hor as [->|?]; [left; left|by right].
      * split; [|intros x Hx; specialize (Hfz x Hx); lia].
        intros x [->|Hx]%elem_of_cons Ht; [lia|by apply H3].
    + specialize (IH found Hf). destruct (foldl _ found rs) as [r|].
      * destruct IH as (H1 & H2 & H3 & H4). split; [done|]. split; [destruct H2; [left; by right|by right]|].
        split; [|done]. intros x [->|Hx]%elem_of_cons Ht; [congruence|by apply H3].
      * destruct IH as [-> H]. split; [done|]. intros x [->|Hx]%elem_of_cons; [done|by apply H].
Qed.

Lemma enum_elem (m : gmap string JRecord) r : r ∈ enum m ↔ ∃ id, m !! id = Some r.
Proof.
  rewrite enum_perm, list_elem_of_fmap. split.
  - intros ([i x] & -> & H%elem_of_map_to_list). eauto.
  - intros (id & H). exists (id, r). split; [done|]. by apply elem_of_map_to_list.
Qed.

(** what a query by a test returns from a map *)
Lemma newest_enum test (m : gmap string JRecord) :
  match newest test (enum m) with
  | Some r => test r = true ∧ (∃ id, m !! id = Some r) ∧
              ∀ id x, m !! id = Some x → test x = true → j_Seq x ≤ j_Seq r
  | None => ∀ id x, m !! id = Some x → test x = false
  end.
Proof.
  pose proof (newest_gen test (enum m) None I) as H. unfold newest. destruct (foldl _ None (enum m)) as [r|].
  - destruct H as (H1 & [H2|H2] & H3 & _); [|done]. split; [done|]. split; [by apply enum_elem|].
    intros id x Hx. apply H3, enum_elem. eauto.
  - destruct H as [_ H]. intros id x Hx. apply H, enum_elem. eauto.
Qed.

Lemma read_run {A} (fn : gmap string JRecord → res error A) (f : File) :
  file_wf f → read jio_ok fn f = (fn (view f), []).
Proof.
  intros Hwf. unfold read, withLock. rewrite (mbind_read _ _ _ tt) by done.
  destruct (readAll_run false f Hwf) as (tr & H & ->). by rewrite (mbind_read _ _ _ _ H).
Qed.

(** distinct sequence numbers tell records apart *)
Lemma view_seq_inj f i j x y :
  journal_inv f → view f !! i = Some x → view f !! j = Some y → j_Seq x = j_Seq y → x = y.
Proof.
  intros (_ & _ & Hnd) Hx%fold_elem Hy%fold_elem He.
  apply list_elem_of_lookup_1 in Hx as [a Ha], Hy as [b Hb].
  assert (a = b) as ->; [|congruence].
  eapply (NoDup_lookup (map j_Seq (records f)) a b (j_Seq x)); [done| |].
  - rewrite list_lookup_fmap, Ha. done.
  - rewrite list_lookup_fmap, Hb. simpl. by rewrite He.
Qed.

(** with no I/O fault a transition of a known record succeeds *)
Lemma SetState_run id mut now f prior :
  file_wf f → seq_room f → id ≠ "" → view f !! id = Some prior →
  ∃ tr, SetState jio_ok id mut now f = (Ok tt, tr) ∧ file_wf (after f tr) ∧
    view (after f tr) = <[id := with_seq_ts (applyTo mut prior) (next_seq f) (FormatNano now)]> (view f).
Proof.
  intros Hwf Hroom Hid Hp. unfold SetState, withLock. rewrite bool_decide_false by done.
  rewrite (mbind_read _ _ _ tt) by done.
  destruct (readAll_run true f Hwf) as (tr & Hr & Ha). rewrite (mbind_run _ _ _ _ _ Hr), Ha.
  cbn [fst snd]. fold (view f). rewrite Hp.
  set (next := with_seq_ts (applyTo mut prior) (wrap64 (max_seq (records f) + 1)) (FormatNano now)).
  fold (write_record jio_ok (records f) next).
  pose proof (repaired_complete f Hwf) as Hc.
  destruct (write_record jio_ok (records f) next (repaired f)) as [[[]|e] tr'] eqn:Hw.
  - exists (tr ++ tr'). split; [done|]. rewrite after_app, Ha.
    apply write_record_ok in Hw; [|done]. split; [apply Hw|].
    rewrite (written_view _ _ _ Hw), fold_step_newer.
    + simpl. by rewrite (fold_key _ _ _ Hp).
    + intros x Hx. change (j_Seq next) with (next_seq f).
      pose proof (next_seq_newer f x Hroom Hx). lia.
  - exfalso. pose proof (write_record_run (records f) next (repaired f)) as H1.
    unfold write_record in Hw. by rewrite Hw in H1.
Qed.
End Lookup.

(** ** The properties *)

Section Properties.
Context {UT : UnicodeTables} {RC : LineCodec JRecord} {MO : MapOrder}.

(** C13: an append is atomic.  Whatever byte of the line a crash cuts the write
    at, and whether or not the journal was compacted, the file that is left is
    well-formed and reads either as before or with exactly the new record as
    the latest of its identifier; also on a file whose last line was already
    torn. *)
Theorem append_crash_atomic io rec ulid now f f' :
  file_wf f → seq_room f → f' ∈ (Append io rec ulid now f).2 →
  file_wf f' ∧
  (view f' = view f ∨
   ∃ id, append_id rec ulid = Ok id ∧
         view f' = <[id := append_record rec id (next_seq f) now]> (view f)).
Proof.
  intros Hwf Hroom H. apply Append_trace in H as (id & Ha & Hid); [|done].
  split; [destruct Ha as [[? _]|[? _]]; done|].
  destruct Hid as [Hid|[_ Hsame]]; [|left; unfold view; by rewrite Hsame].
  destruct (atomic_view f (append_record rec id (next_seq f) now) f' Hroom eq_refl Ha) as [?|Hv];
    [by left|right]. by exists id.
Qed.

(** A transition does what it says.  With no I/O fault, SetState on a known
    identifier succeeds; afterwards the latest record of that identifier is the
    previous one with the fields of the mutation replaced, a higher sequence
    number and the new timestamp, and every other record is as before. *)
Theorem set_state_transition id mut now f prior :
  file_wf f → seq_room f → id ≠ "" → view f !! id = Some prior →
  ∃ tr, SetState jio_ok id mut now f = (Ok tt, tr) ∧ file_wf (after f tr) ∧
    view (after f tr) = <[id := with_seq_ts (applyTo mut prior) (next_seq f) (FormatNano now)]> (view f).
Proof.
  intros Hwf Hroom Hid Hp. destruct (SetState_run id mut now f prior Hwf Hroom Hid Hp) as (tr & H1 & H2 & H3).
  exists tr. split; [done|]. split; done.
Qed.

(** C24: the journal is history.  Along any run of appends of fresh identifiers
    and transitions, crashing anywhere and compacting whenever the thresholds
    say, a record that was once visible stays visible under its identifier; its
    sender, nonce, signed bytes and chain never change and its sequence number
    never goes back. *)
Theorem journal_history_kept f f' id r :
  jrun f f' → journal_inv f → view f !! id = Some r →
  ∃ r', view f' !! id = Some r' ∧ j_Seq r ≤ j_Seq r' ∧ j_From r' = j_From r ∧ j_Nonce r' = j_Nonce r ∧
        j_RawTx r' = j_RawTx r ∧ j_ChainID r' = j_ChainID r.
Proof.
  intros Hrun Hi Hr. destruct (run_history f f' id r Hrun Hi Hr) as (r' & Hr' & H). by exists r'.
Qed.

(** Sequence numbers stay distinct and the file stays readable.  Every run
    keeps the journal well-formed with pairwise distinct sequence numbers. *)
Theorem journal_invariant f f' : jrun f f' → journal_inv f → journal_inv f'.
Proof. induction 1 as [|f f1 f' [Hr Hs] _ IH]; [done|]. intros Hi. by apply IH, (jstep_inv f). Qed.

(** The lookup by reservation is exact.  On a well-formed journal
    ByReservation returns a record if and only if it is the newest among the
    latest records that carry the reservation, so the answer does not depend on
    the order in which the map is enumerated. *)
Theorem by_reservation_newest f rid r :
  journal_inv f →
  (ByReservation jio_ok rid f = (Ok r, []) ↔
   (∃ id, view f !! id = Some r) ∧ j_ReservationID r = rid ∧
   ∀ id x, view f !! id = Some x → j_ReservationID x = rid → j_Seq x ≤ j_Seq r).
Proof.
  intros Hi. unfold ByReservation. rewrite read_run by apply Hi.
  pose proof (newest_enum (λ r, bool_decide (j_ReservationID r = rid)) (view f)) as H.
  destruct (newest _ _) as [x|]; simpl.
  - destruct H as (H1 & (i & Hx) & H3). apply bool_decide_eq_true in H1. split.
    + intros [= <-]. split_and!; [eauto|done|]. intros id y Hy Hr. apply (H3 id); [done|].
      by apply bool_decide_eq_true.
    + intros ((j & Hr) & He & Hmax). do 2 f_equal.
      apply (view_seq_inj f i j); [done..|]. pose proof (Hmax i x Hx H1).
      pose proof (H3 j r Hr (bool_decide_eq_true_2 _ He)). lia.
  - split; [done|]. intros ((j & Hr) & He & _). specialize (H j r Hr). by apply bool_decide_eq_false in H.
Qed.
End Properties.

(** ** Witnesses *)

Section Witnesses.
#[local] Existing Instance ascii_tables.
#[local] Existing Instance jrecord_codec.
#[local] Existing Instance list_order.

(** a signed transfer with nonce 4 *)
Definition sample_record : JRecord :=
  mkJRecord 1 "j1" 1 "" 1 "main" "eth-transfer" StatusSigned "cli" (hex40 1) (hex40 2) 4 "0x0a" "0x00" "5"
    (mkAsset "eth" None "" None (Some "5") None) (mkFees "legacy" 21000 None None (Some "1") "") "r1" "21000"
    None None None None "".

Definition sample_file : File := Some (unlines (map encode_line [sample_record])).

Lemma sample_complete : complete sample_file [sample_record].
Proof.
  right. exists (map encode_line [sample_record]). split; [done|]. split; [|by rewrite omap_parse_encoded].
  constructor; [apply encode_no_lf|constructor].
Qed.

Lemma sample_wf : file_wf sample_file.
Proof. apply (complete_wf _ _ sample_complete). Qed.
Lemma sample_records : records sample_file = [sample_record].
Proof. apply (complete_wf _ _ sample_complete). Qed.
Lemma sample_view : view sample_file !! "j1" = Some sample_record.
Proof. unfold view. rewrite sample_records. reflexivity. Qed.
Lemma sample_room : seq_room sample_file.
Proof. unfold seq_room. rewrite sample_records. reflexivity. Qed.
Lemma sample_inv : journal_inv sample_file.
Proof.
  split; [apply sample_wf|]. rewrite sample_records. split; [repeat constructor; by vm_compute|apply NoDup_singleton].
Qed.

Definition to_broadcast : StateMutation := mkMutation StatusBroadcast None None None None None None.
Definition broadcast_record : JRecord := with_seq_ts (applyTo to_broadcast sample_record) 2 (FormatNano 0).

(** the file after the whole line of the transition was written *)
Definition broadcast_file : File :=
  appended sample_file (encode_line broadcast_record +:+ LF) (String.length (encode_line broadcast_record +:+ LF)).

Lemma broadcast_step : jstep sample_file broadcast_file.
Proof.
  apply (js_set _ _ jio_ok "j1" to_broadcast 0). unfold SetState, withLock. rewrite bool_decide_false by done.
  rewrite (mbind_read _ _ _ tt) by done.
  destruct (readAll_run true sample_file sample_wf) as (tr & Hr & Ha).
  eapply mbind_trace_r; [exact Hr|]. rewrite Ha. fold (view sample_file). rewrite sample_view.
  rewrite sample_records. change (repaired sample_file) with sample_file. apply mbind_trace_l.
  unfold appendLine. cbn [snd jio_append jio_ok]. unfold broadcast_file. apply list_elem_of_fmap_2.
  apply elem_of_seq. change (wrap64 (max_seq [sample_record] + 1)) with 2.
  fold broadcast_record. lia.
Qed.

Lemma broadcast_run : jrun sample_file broadcast_file.
Proof. apply rtc_once. split; [apply sample_room|apply broadcast_step]. Qed.

Lemma append_crash_atomic_witness :
  let f' := appended sample_file (encode_line (append_record sample_record "j1" 2 0) +:+ LF) 1 in
  file_wf f' ∧
  (view f' = view sample_file ∨
   ∃ id, append_id sample_record (Ok "j1") = Ok id ∧
         view f' = <[id := append_record sample_record id (next_seq sample_file) 0]> (view sample_file)).
Proof.
  apply (append_crash_atomic jio_ok sample_record (Ok "j1") 0 sample_file).
  - apply sample_wf.
  - apply sample_room.
  - unfold Append, withLock. rewrite (mbind_read _ _ _ tt) by done.
    destruct (readAll_run true sample_file sample_wf) as (tr & Hr & Ha).
    eapply mbind_trace_r; [exact Hr|]. rewrite Ha.
    rewrite (mbind_read _ _ _ "j1") by done. apply mbind_trace_l.
    unfold appendLine. cbn [snd jio_append jio_ok]. rewrite sample_records.
    change (repaired sample_file) with sample_file. apply list_elem_of_fmap_2.
    apply elem_of_seq. rewrite string_length_app. change (String.length LF) with 1%nat. lia.
Defined.

Lemma set_state_transition_witness :
  ∃ tr, SetState jio_ok "j1" to_broadcast 0 sample_file = (Ok tt, tr) ∧ file_wf (after sample_file tr) ∧
    view (after sample_file tr) =
    <["j1" := with_seq_ts (applyTo to_broadcast sample_record) (next_seq sample_file) (FormatNano 0)]>
      (view sample_file).
Proof.
  apply (set_state_transition "j1" to_broadcast 0 sample_file sample_record).
  - apply sample_wf.
  - apply sample_room.
  - discriminate.
  - apply sample_view.
Defined.

Lemma journal_history_kept_witness :
  ∃ r', view broadcast_file !! "j1" = Some r' ∧ 1 ≤ j_Seq r' ∧ j_From r' = hex40 1 ∧ j_Nonce r' = 4 ∧
        j_RawTx r' = "0x00" ∧ j_ChainID r' = 1.
Proof.
  apply (journal_history_kept sample_file broadcast_file "j1" sample_record).
  - apply broadcast_run.
  - apply sample_inv.
  - apply sample_view.
Defined.

Lemma journal_invariant_witness : journal_inv broadcast_file.
Proof.
  apply (journal_invariant sample_file).
  - apply broadcast_run.
  - apply sample_inv.
Defined.

Lemma by_reservation_newest_witness :
  ByReservation jio_ok "r1" sample_file = (Ok sample_record, []) ↔
  (∃ id, view sample_file !! id = Some sample_record) ∧ "r1" = "r1" ∧
  ∀ id x, view sample_file !! id = Some x → j_ReservationID x = "r1" → j_Seq x ≤ 1.
Proof.
  apply (by_reservation_newest sample_file "r1" sample_record). apply sample_inv.
Defined.
End Witnesses.
