(* ===== verification/Nonce.v ===== *)
(** * Nonce allocation: [internal/journal/nonce.go]

    The next nonce of an account is the maximum of what the chain reports, what
    the cache file says and what the journal has consumed.  The state is the
    journal of the chain and the cache file of one account on it. *)

From S2P Require Import Prelude GoStrings Decimal Rfc3339 Encodings PolicyTypes Domain Trace Journal JournalFacts JournalProps.

Local Open Scope string_scope.
Local Open Scope Z_scope.
Local Open Scope list_scope.
Local Open Scope go_scope.

(** ** State *)

(** a cache file: unparseable, or the [next] field it holds *)
Inductive cacheDoc := CacheGarbage | CacheNext (next : Z).

Record NState := mkNState { ns_journal : File; ns_cache : option cacheDoc }.

Record NIO := mkNIO {
  nio_journal : JIO;
  nio_account_lock : option error;
  nio_cache_write : option error;
}.

Definition nio_ok : NIO := mkNIO jio_ok None None.

Definition maxU64 (vs : list Z) : Z := foldl (λ m v, if m <? v then v else m) 0 vs.

Definition corrupt_cache : error := New "state.corrupt" "nonce cache is corrupt".

Record Lease := mkLease { l_nonce : Z; l_finished : bool }.

Section Nonce.
Context {UT : UnicodeTables} {GC : GethCommon} {RC : LineCodec JRecord} {MO : MapOrder}.
Variable io : NIO.
Variable addr : Address.

Definition NM (A : Type) : Type := T NState A.

(** a journal action as an action on the whole state *)
Definition on_journal {A} (m : JM A) : NM A := λ s,
  let '(r, tr) := m (ns_journal s) in (r, map (λ f, mkNState f (ns_cache s)) tr).

(** the loop of journalNext: (any, maxNonce, hasInFlight) *)
Definition fold_nonce (acc : bool * Z * bool) (r : JRecord) : bool * Z * bool :=
  let '(any, maxNonce, inFlight) := acc in
  if negb (HexToAddress (j_From r) =? addr) then acc
  else if negb (consumesNonce (j_Status r)) then acc
  else (true, (if maxNonce <=? j_Nonce r then j_Nonce r else maxNonce),
        if IsTerminal (j_Status r) then inFlight else true).

Definition next_of (rs : list JRecord) : Z * bool :=
  let '(any, maxNonce, inFlight) := foldl fold_nonce (false, 0, false) rs in
  if any then (wrap64 (maxNonce + 1), inFlight) else (0, inFlight).

Definition journalNext : NM (Z * bool) :=
  on_journal (read (nio_journal io) (λ latest, Ok (next_of (enum latest)))).

Definition readCache : NM (Z * bool) :=
  s <-- mget ;;
  match ns_cache s with
  | None => mret (0, false)
  | Some CacheGarbage => mfail corrupt_cache
  | Some (CacheNext n) => mret (n, true)
  end.

Definition writeCache (next : Z) : NM unit :=
  guard (nio_cache_write io) ;;; (λ s, (Ok tt, [mkNState (ns_journal s) (Some (CacheNext next))])).

Definition NextNonce (chainPending : Z) : NM Z :=
  j <-- journalNext ;;
  l <-- readCache ;;
  mret (maxU64 [chainPending; l.1; j.1]).

(** AcquireNonce: the lease, and whether the single-writer warning was printed *)
Definition AcquireNonce (chainPending : Z) (forced : option Z) : NM (Lease * bool) :=
  guard (nio_account_lock io) ;;;
  match forced with
  | Some n => mret (mkLease n false, false)
  | None =>
      j <-- journalNext ;;
      l <-- readCache ;;
      let warned := (j.1 <? chainPending) && (l.1 <? chainPending) && negb j.2 in
      mret (mkLease (maxU64 [chainPending; l.1; j.1]) false, warned)
  end.

(** Lease.Commit and Lease.Release give the lease back marked finished; the
    error of the cache write is the result of Commit *)
Definition Commit (l : Lease) : NM unit :=
  if l_finished l then mret tt else writeCache (wrap64 (l_nonce l + 1)).

Definition finish (l : Lease) : Lease := mkLease (l_nonce l) true.

Definition Release (l : Lease) : NM unit := mret tt.

Definition ResetCache : NM unit :=
  guard (nio_account_lock io) ;;;
  j <-- journalNext ;;
  writeCache j.1.

(** ** What the fold computes *)

(** the records that spent a nonce of the account *)
Definition spent_nonce (r : JRecord) : bool :=
  (HexToAddress (j_From r) =? addr) && consumesNonce (j_Status r).

Lemma fold_nonce_spec rs any m fl :
  0 ≤ m → Forall (λ r, 0 ≤ j_Nonce r) rs →
  let '(any', m', fl') := foldl fold_nonce (any, m, fl) rs in
  any' = any || existsb spent_nonce rs ∧ m ≤ m' ∧
  (∀ r, r ∈ rs → spent_nonce r = true → j_Nonce r ≤ m') ∧
  (m' = m ∨ ∃ r, r ∈ rs ∧ spent_nonce r = true ∧ j_Nonce r = m') ∧
  fl' = fl || existsb (λ r, spent_nonce r && negb (IsTerminal (j_Status r))) rs.
Proof.
  revert any m fl. induction rs as [|x rs IH]; intros any m fl Hm Hpos; cbn [foldl existsb].
  - rewrite !orb_false_r. split_and!; [done|lia|by intros r ?%elem_of_nil|by left|done].
  - apply Forall_cons in Hpos as [Hx Hpos].
    destruct (spent_nonce x) eqn:Es.
    + assert (E : fold_nonce (any, m, fl) x =
        (true, if m <=? j_Nonce x then j_Nonce x else m, if IsTerminal (j_Status x) then fl else true)).
      { unfold spent_nonce in Es. apply andb_true_iff in Es as [E1 E2]. simpl. by rewrite E1, E2. }
      rewrite E. clear E.
      specialize (IH true (if m <=? j_Nonce x then j_Nonce x else m)
                    (if IsTerminal (j_Status x) then fl else true) ltac:(zcases; lia) Hpos).
      destruct (foldl _ _ rs) as [[a' m'] f']. destruct IH as (H1 & H2 & H3 & H4 & H5).
      split_and!.
      * rewrite H1. by rewrite orb_true_r.
      * revert H2. zcases; lia.
      * intros r [->|Hr]%elem_of_cons Hs; [|by apply H3]. revert H2. zcases; lia.
      * destruct H4 as [H4|(r & Hr & Hs & Hn)]; [|right; exists r; split; [by right|done]].
        rewrite H4. destruct (Z.leb_spec m (j_Nonce x)); [right|by left].
        exists x. split; [left|done].
      * rewrite H5. by destruct (IsTerminal (j_Status x)), fl.
    + assert (E : fold_nonce (any, m, fl) x = (any, m, fl)).
      { unfold spent_nonce in Es. simpl. destruct (HexToAddress (j_From x) =? addr); [|done].
        simpl in Es |- *. by rewrite Es. }
      rewrite E. clear E. specialize (IH any m fl Hm Hpos).
      destruct (foldl _ _ rs) as [[a' m'] f']. destruct IH as (H1 & H2 & H3 & H4 & H5).
      split_and!; [done|done| | |done].
      * intros r [->|Hr]%elem_of_cons Hs; [congruence|by apply H3].
      * destruct H4 as [H4|(r & Hr & Hs)]; [by left|right; exists r; split; [by right|done]].
Qed.

(** one more than the largest nonce spent, zero when there is none *)
Lemma next_of_spec rs :
  Forall (λ r, 0 ≤ j_Nonce r < 2 ^ 64 - 1) rs →
  (∀ r, r ∈ rs → spent_nonce r = true → j_Nonce r < (next_of rs).1) ∧
  ((next_of rs).1 = 0 ∨ ∃ r, r ∈ rs ∧ spent_nonce r = true ∧ (next_of rs).1 = j_Nonce r + 1).
Proof.
  intros Hr. pose proof (fold_nonce_spec rs false 0 false ltac:(lia)) as H.
  assert (Hpos : Forall (λ r, 0 ≤ j_Nonce r) rs) by (eapply Forall_impl; [exact Hr|simpl; lia]).
  specialize (H Hpos). unfold next_of. destruct (foldl _ _ rs) as [[any m] fl].
  destruct H as (Ha & H0 & H1 & H2 & _). simpl in Ha. subst. rewrite Forall_forall in Hr.
  destruct (existsb spent_nonce rs) eqn:E; simpl.
  - apply existsb_true in E as (x & Hx & Hs). destruct H2 as [->|(y & Hy & Hsy & <-)].
    + pose proof (H1 x Hx Hs). pose proof (Hr x Hx). unfold wrap64. rewrite Z.mod_small by lia.
      split; [intros r Hin Hsr; pose proof (H1 r Hin Hsr); lia|]. right. exists x. split_and!; [done|done|lia].
    + pose proof (Hr y Hy). unfold wrap64. rewrite Z.mod_small by lia.
      split; [intros r Hin Hsr; pose proof (H1 r Hin Hsr); lia|]. right. by exists y.
  - rewrite existsb_false in E. split; [|by left]. intros r Hin Hs. by rewrite E in Hs.
Qed.

Lemma maxU64_ge vs v : v ∈ vs → v ≤ maxU64 vs.
Proof.
  unfold maxU64. assert (H : ∀ m, m ≤ foldl (λ m v, if m <? v then v else m) m vs ∧
    ∀ v, v ∈ vs → v ≤ foldl (λ m v, if m <? v then v else m) m vs).
  { induction vs as [|x vs IH]; intros m; [split; [done|by intros y ?%elem_of_nil]|]. simpl.
    destruct (IH (if m <? x then x else m)) as [H1 H2]. split.
    - etrans; [|exact H1]. zcases; lia.
    - intros y [->|Hy]%elem_of_cons; [|by apply H2]. etrans; [|exact H1]. zcases; lia. }
  apply H.
Qed.

Lemma maxU64_in vs : Forall (λ v, 0 ≤ v) vs → vs ≠ [] → maxU64 vs ∈ vs ∨ maxU64 vs = 0.
Proof.
  intros _ _. unfold maxU64. assert (H : ∀ m, foldl (λ m v, if m <? v then v else m) m vs = m ∨
    foldl (λ m v, if m <? v then v else m) m vs ∈ vs).
  { induction vs as [|x vs IH]; intros m; [by left|]. simpl.
    destruct (IH (if m <? x then x else m)) as [->|H]; [|right; by right].
    destruct (m <? x); [right; left|by left]. }
  destruct (H 0); auto.
Qed.

Lemma on_journal_read {A} (m : JM A) s a :
  m (ns_journal s) = (a, []) → on_journal m s = (a, []).
Proof. unfold on_journal. by intros ->. Qed.
End Nonce.

(** ** The properties *)

Section Properties.
Context {UT : UnicodeTables} {GC : GethCommon} {RC : LineCodec JRecord} {MO : MapOrder}.
Variable addr : Address.

(** the nonces of the journal leave room for one more *)
Definition nonces_ok (f : File) : Prop := Forall (λ r, 0 ≤ j_Nonce r < 2 ^ 64 - 1) (records f).

(** what the cache file says *)
Definition cached (s : NState) : Z := match ns_cache s with Some (CacheNext n) => n | _ => 0 end.

Lemma AcquireNonce_run pending s :
  file_wf (ns_journal s) → ns_cache s ≠ Some CacheGarbage →
  let j := next_of addr (enum (view (ns_journal s))) in
  AcquireNonce nio_ok addr pending None s =
  (Ok (mkLease (maxU64 [pending; cached s; j.1]) false,
       (j.1 <? pending) && (cached s <? pending) && negb j.2), []).
Proof.
  intros Hwf Hc. cbv zeta. unfold AcquireNonce. rewrite (mbind_read _ _ _ tt) by done.
  set (j := next_of addr (enum (view (ns_journal s)))).
  rewrite (mbind_read _ _ _ j) by (apply on_journal_read; exact (read_run (λ latest, Ok (next_of addr (enum latest))) _ Hwf)).
  assert (Hl : ∃ b, readCache s = (Ok (cached s, b), [])).
  { unfold readCache, cached. rewrite (mbind_read _ _ _ s) by done.
    destruct (ns_cache s) as [[|n]|]; [done|by exists true|by exists false]. }
  destruct Hl as [b Hl]. by rewrite (mbind_read _ _ _ _ Hl).
Qed.

Lemma view_nonces f : nonces_ok f → Forall (λ r, 0 ≤ j_Nonce r < 2 ^ 64 - 1) (enum (view f)).
Proof.
  intros H. apply Forall_forall. intros r Hr. apply enum_elem in Hr as [id Hr].
  unfold nonces_ok in H. rewrite Forall_forall in H. by eapply H, fold_elem.
Qed.

(** C15: the leased nonce is free and leaves no gap of its own making.  Taking a
    lease on a readable journal and cache succeeds and writes nothing; the nonce
    is above every nonce the account has consumed in the journal, not below
    what the chain and the cache report, and it is one of the three. *)
Theorem acquired_nonce_is_fresh pending s :
  file_wf (ns_journal s) → nonces_ok (ns_journal s) → ns_cache s ≠ Some CacheGarbage →
  0 ≤ pending → 0 ≤ cached s →
  ∃ l w, AcquireNonce nio_ok addr pending None s = (Ok (l, w), []) ∧
    pending ≤ l_nonce l ∧ cached s ≤ l_nonce l ∧
    (∀ id r, view (ns_journal s) !! id = Some r → spent_nonce addr r = true → j_Nonce r < l_nonce l) ∧
    (l_nonce l = pending ∨ l_nonce l = cached s ∨ l_nonce l = 0 ∨
     ∃ id r, view (ns_journal s) !! id = Some r ∧ spent_nonce addr r = true ∧ l_nonce l = j_Nonce r + 1).
Proof.
  intros Hwf Hn Hc Hp Hc0. rewrite AcquireNonce_run by done.
  set (j := next_of addr (enum (view (ns_journal s)))).
  destruct (next_of_spec addr _ (view_nonces _ Hn)) as [Hlt Hone]. fold j in Hlt, Hone.
  eexists _, _. split; [done|]. cbn [l_nonce].
  assert (Hj : j.1 ≤ maxU64 [pending; cached s; j.1]) by (apply maxU64_ge; right; right; left).
  split_and!.
  - apply maxU64_ge. left.
  - apply maxU64_ge. right. left.
  - intros id r Hr Hs. assert (Hin : r ∈ enum (view (ns_journal s))) by (apply enum_elem; eauto).
    pose proof (Hlt r Hin Hs). lia.
  - assert (H0 : 0 ≤ j.1).
    { destruct Hone as [->|(r & Hr & _ & ->)]; [done|]. pose proof (view_nonces _ Hn) as Hv.
      rewrite Forall_forall in Hv. specialize (Hv r Hr). lia. }
    destruct (maxU64_in [pending; cached s; j.1]) as [H|H]; [by repeat constructor|done| |auto].
    rewrite !elem_of_cons, elem_of_nil in H. destruct H as [->|[->|[->|[]]]]; [auto..|].
    destruct Hone as [->|(r & Hr & Hs & ->)]; [auto|]. apply enum_elem in Hr as [id Hr]. eauto 10.
Qed.

(** A consumed nonce is never leased again.  Once the journal shows a record
    of the account, no lease taken after any further run of the journal gets
    its nonce, unless the record has been marked failed; stale or deleted
    caches and a lagging chain make no difference. *)
Theorem consumed_nonce_never_reused f f' id r pending cache :
  jrun f f' → journal_inv f → nonces_ok f' → view f !! id = Some r →
  HexToAddress (j_From r) = addr →
  (∀ r', view f' !! id = Some r' → j_Status r' ≠ StatusFailed) →
  cache ≠ Some CacheGarbage →
  ∃ l w, AcquireNonce nio_ok addr pending None (mkNState f' cache) = (Ok (l, w), []) ∧
         j_Nonce r < l_nonce l.
Proof.
  intros Hrun Hi Hn Hr Hfrom Hst Hc. pose proof (jrun_inv _ _ Hrun Hi) as Hi'.
  rewrite AcquireNonce_run; [|apply Hi'|done]. cbn [ns_journal]. eexists _, _. split; [done|]. cbn [l_nonce].
  destruct (run_keeps f f' id r Hrun Hi Hr) as (r' & Hr' & Hf & Hno).
  destruct (next_of_spec addr _ (view_nonces _ Hn)) as [Hlt _].
  assert (Hin : r' ∈ enum (view f')) by (apply enum_elem; eauto).
  assert (Hs : spent_nonce addr r' = true).
  { unfold spent_nonce, consumesNonce. rewrite Hf, Hfrom, Z.eqb_refl. simpl.
    apply negb_true_iff, bool_decide_eq_false. by apply Hst. }
  pose proof (Hlt r' Hin Hs) as Hlt'. rewrite Hno in Hlt'.
  assert ((next_of addr (enum (view f'))).1 ≤
          maxU64 [pending; cached (mkNState f' cache); (next_of addr (enum (view f'))).1]);
    [apply maxU64_ge; right; right; left|lia].
Qed.
End Properties.

(** ** Witnesses *)

Section Witnesses.
#[local] Existing Instance ascii_tables.
#[local] Existing Instance geth_ref.
#[local] Existing Instance jrecord_codec.
#[local] Existing Instance list_order.

Lemma sample_nonces : nonces_ok sample_file.
Proof. unfold nonces_ok. rewrite sample_records. repeat constructor; by vm_compute. Qed.

Lemma acquired_nonce_is_fresh_witness :
  ∃ l w, AcquireNonce nio_ok 1 3 None (mkNState sample_file (Some (CacheNext 2))) = (Ok (l, w), []) ∧
    3 ≤ l_nonce l ∧ 2 ≤ l_nonce l ∧
    (∀ id r, view sample_file !! id = Some r → spent_nonce 1 r = true → j_Nonce r < l_nonce l) ∧
    (l_nonce l = 3 ∨ l_nonce l = 2 ∨ l_nonce l = 0 ∨
     ∃ id r, view sample_file !! id = Some r ∧ spent_nonce 1 r = true ∧ l_nonce l = j_Nonce r + 1).
Proof.
  apply (acquired_nonce_is_fresh 1 3 (mkNState sample_file (Some (CacheNext 2)))).
  - apply sample_wf.
  - apply sample_nonces.
  - discriminate.
  - lia.
  - change (0 ≤ 2). lia.
Defined.

Lemma broadcast_records : records broadcast_file = [sample_record; broadcast_record].
Proof.
  destruct (appended_complete sample_file [sample_record] broadcast_record
    (String.length (encode_line broadcast_record +:+ LF)) sample_complete) as [[_ H]|[_ H]].
  - exfalso. revert H. fold broadcast_file. unfold broadcast_file, appended. rewrite stake_all.
    change (default "" sample_file) with (unlines (map encode_line [sample_record])).
    change (encode_line broadcast_record +:+ LF) with (unlines (map encode_line [broadcast_record])).
    rewrite <-unlines_app, <-map_app.
    assert (Hc : complete (Some (unlines (map encode_line ([sample_record] ++ [broadcast_record]))))
                   [sample_record; broadcast_record]).
    { right. eexists. split; [done|]. split; [|by rewrite omap_parse_encoded].
      apply Forall_map, Forall_forall. intros x _. apply encode_no_lf. }
    rewrite (proj2 (complete_wf _ _ Hc)). discriminate.
  - apply (complete_wf _ _ H).
Qed.

Lemma consumed_nonce_never_reused_witness :
  ∃ l w, AcquireNonce nio_ok 1 0 None (mkNState broadcast_file None) = (Ok (l, w), []) ∧ 4 < l_nonce l.
Proof.
  apply (consumed_nonce_never_reused 1 sample_file broadcast_file "j1" sample_record 0 None).
  - apply broadcast_run.
  - apply sample_inv.
  - unfold nonces_ok. rewrite broadcast_records. repeat constructor; by vm_compute.
  - apply sample_view.
  - vm_compute. reflexivity.
  - intros r'. unfold view. rewrite broadcast_records. intros H. injection H as <-. discriminate.
  - discriminate.
Defined.
End Witnesses.
