(* ===== verification/Reconcile.v ===== *)
(** * Restart reconciliation: [internal/service/reconcile.go]

    The service is the only component that sees both stores.  When it opens, it
    settles every reservation still in state reserved by what the journals of
    the configured chains say.  The world is the policy engine's disk and one
    journal per chain. *)

From S2P Require Import Prelude GoStrings Decimal Rfc3339 Encodings PolicyTypes Domain Trace Evaluate Counter Reservation Engine EngineFacts Samples EngineProps Lifecycle LifecycleProps Journal JournalFacts JournalProps Nonce.

Local Open Scope string_scope.
Local Open Scope Z_scope.
Local Open Scope list_scope.
Local Open Scope go_scope.

Record World := mkWorld { w_disk : Disk; w_journals : gmap Z string }.

Definition set_disk (w : World) (d : Disk) : World := mkWorld d (w_journals w).

Definition WM (A : Type) : Type := T World A.

Section Reconcile.
Context {UT : UnicodeTables} {GC : GethCommon} {RC : LineCodec Reservation} {JC : LineCodec JRecord}
        {MO : MapOrder}.
Variables (io : IO) (jio : JIO).
(** the chain ids of the configured networks, in the order the map gives them *)
Variable networks : list Z.

Definition engine {A} (m : M A) : WM A := mzoom w_disk set_disk m.

(** configuredChainIDs: distinct and not zero *)
Definition configuredChainIDs : list Z :=
  foldl (λ out c, if (c =? 0) || bool_decide (c ∈ out) then out else out ++ [c]) [] networks.

(** findReservationRecord: the first chain whose journal has the reservation;
    a chain that cannot be read is skipped *)
Fixpoint findReservationRecord (journals : gmap Z string) (chains : list Z) (id : string) : option JRecord :=
  match chains with
  | [] => None
  | c :: chains =>
      match (ByReservation jio id (journals !! c)).1 with
      | Ok rec => Some rec
      | Err _ => findReservationRecord journals chains id
      end
  end.

(** settle one orphan; the engine stores the hash as [Hash.Hex] renders it *)
Definition settle_orphan (o : Reservation) (now : Z) : WM unit :=
  w <-- mget ;;
  match findReservationRecord (w_journals w) configuredChainIDs (r_ID o) with
  | Some rec =>
      if negb (bool_decide (j_Status rec = StatusSigned))
      then engine (CommitOrphan io (r_ID o) (HashHex (HexToHash (j_TxHash rec))) now)
      else engine (ReleaseOrphan io (r_ID o) now)
  | None => engine (ReleaseOrphan io (r_ID o) now)
  end.

(** the loop: the first error is kept, the others still settle *)
Fixpoint settle_all (os : list Reservation) (firstErr : option error) (now : Z) : WM (option error) :=
  match os with
  | [] => mret firstErr
  | o :: os =>
      e <-- mtry (settle_orphan o now) ;;
      settle_all os (match firstErr with Some _ => firstErr | None => e end) now
  end.

Definition reconcile (now : Z) : WM unit :=
  orphans <-- engine (Orphans io) ;;
  e <-- settle_all orphans None now ;;
  match e with Some e => mfail e | None => mret tt end.
End Reconcile.

(** ** What reconciliation does to a reservation *)

Section Facts.
Context {UT : UnicodeTables} {GC : GethCommon} {RC : LineCodec Reservation} {JC : LineCodec JRecord}
        {MO : MapOrder}.
Variable networks : list Z.

(** the journals record a broadcast for the reservation *)
Definition broadcast_hash (journals : gmap Z string) (id : string) : option string :=
  match findReservationRecord jio_ok journals (configuredChainIDs networks) id with
  | Some rec => if bool_decide (j_Status rec = StatusSigned) then None else Some (HashHex (HexToHash (j_TxHash rec)))
  | None => None
  end.

(** the record a reservation becomes *)
Definition verdict_on (journals : gmap Z string) (r : Reservation) : Reservation :=
  match broadcast_hash journals (r_ID r) with
  | Some h => set_state r stateCommitted h
  | None => set_state r stateReleased (r_Hash r)
  end.

(** the log part of settling one reserved reservation; the counter part can fail
    only on an unreadable counter and does not touch the log *)
Lemma halves_status (m1 : M unit) m2 id now d d1 :
  m1 d = (Ok tt, [d1]) →
  let out := mbind m1 (λ _, counterTransition io_ok id m2 now) d in
  dk_log (after d out.2) = dk_log d1.
Proof.
  intros H. cbv zeta. rewrite (mbind_run _ _ _ _ _ H). change (after d [d1]) with d1. cbn [snd].
  destruct (counterTransition io_ok id m2 now d1) as [r tr] eqn:E. cbn [snd].
  destruct tr as [|x tr _] using rev_ind; [done|].
  change (after d ([d1] ++ tr ++ [x])) with (after d ((d1 :: tr) ++ [x])).
  unfold after. rewrite List.last_last.
  assert (Hx : x ∈ (counterTransition io_ok id m2 now d1).2)
    by (rewrite E; apply elem_of_app; right; left).
  apply counterTransition_trace in Hx as (n & a & cf & e & _ & _ & ->). done.
Qed.

Lemma status_log d d' x : dk_log d = dk_log d' → status d x = status d' x.
Proof. unfold status. by intros ->. Qed.

(** statuses after the record of [m] was rewritten *)
Lemma status_relogged_all d m r x :
  status d (r_ID m) = Some r → r_ID m ≠ "" →
  status (relogged d m) x =
  if bool_decide (x = r_ID m) then Some m
  else match status d x with Some y => if isTerminal y then None else Some y | None => None end.
Proof.
  intros (st & Hst & _)%status_loaded Hm. unfold relogged. rewrite Hst. by apply status_upd_log.
Qed.

Lemma settle_orphan_run w o now :
  status (w_disk w) (r_ID o) = Some o → r_State o = stateReserved → r_ID o ≠ "" →
  ∃ r tr, settle_orphan io_ok jio_ok networks o now w = (r, tr) ∧
    w_journals (after w tr) = w_journals w ∧
    ∀ x, status (w_disk (after w tr)) x = status (relogged (w_disk w) (verdict_on (w_journals w) o)) x.
Proof.
  intros Hs Hres Hid. unfold settle_orphan. rewrite (mbind_read _ _ _ w) by done.
  assert (Hz : ∀ m : M unit, (∀ x, status (after (w_disk w) (m (w_disk w)).2) x =
      status (relogged (w_disk w) (verdict_on (w_journals w) o)) x) →
    ∃ r tr, engine m w = (r, tr) ∧ w_journals (after w tr) = w_journals w ∧
      ∀ x, status (w_disk (after w tr)) x = status (relogged (w_disk w) (verdict_on (w_journals w) o)) x).
  { intros m Hm. destruct (m (w_disk w)) as [r tr] eqn:E. simpl in Hm.
    destruct (mzoom_after w_disk set_disk m w r tr) as [H1 H2]; [done|done|].
    exists r, (map (set_disk w) tr). split; [done|]. split; [|by rewrite H2].
    unfold after. destruct tr as [|y tr _] using rev_ind; [done|].
    rewrite map_app. cbn [map]. by rewrite List.last_last. }
  assert (Hrel : verdict_on (w_journals w) o = set_state o stateReleased (r_Hash o) →
    ∀ x, status (after (w_disk w) (ReleaseOrphan io_ok (r_ID o) now (w_disk w)).2) x =
         status (relogged (w_disk w) (verdict_on (w_journals w) o)) x).
  { intros Hv x. apply status_log. rewrite Hv. unfold ReleaseOrphan, Engine.Release. rewrite bool_decide_false by done.
    apply halves_status. apply release_log_run; [done|by rewrite Hres]. }
  unfold verdict_on, broadcast_hash in *.
  destruct (findReservationRecord jio_ok (w_journals w) (configuredChainIDs networks) (r_ID o)) as [rec|];
    [|by apply Hz, Hrel].
  destruct (decide (j_Status rec = StatusSigned)) as [Hsig|Hsig].
  - rewrite (bool_decide_true _ Hsig) in *. by apply Hz, Hrel.
  - rewrite (bool_decide_false _ Hsig) in *. apply Hz. intros x. apply status_log.
    set (h := HashHex (HexToHash (j_TxHash rec))).
    replace (set_state o stateCommitted h) with (commit_reservation h o)
      by (unfold commit_reservation; by rewrite Hres).
    unfold CommitOrphan, Engine.Commit. apply halves_status. by apply transition_run.
Qed.

Lemma verdict_id j r : r_ID (verdict_on j r) = r_ID r.
Proof. unfold verdict_on. by destruct (broadcast_hash j (r_ID r)). Qed.

Lemma verdict_not_reserved j r : r_State (verdict_on j r) ≠ stateReserved.
Proof. unfold verdict_on. by destruct (broadcast_hash j (r_ID r)). Qed.

Lemma verdict_terminal j r :
  isTerminal (verdict_on j r) = true → r_ActualGasWei r = None → broadcast_hash j (r_ID r) = None.
Proof.
  unfold verdict_on. destruct (broadcast_hash j (r_ID r)); [|done]. unfold isTerminal. simpl.
  intros H Hn. by rewrite Hn in H.
Qed.

(** a reservation that was still reserved, after the loop *)
Definition settled_as (j : gmap Z string) (r : Reservation) (o : option Reservation) : Prop :=
  o = Some (verdict_on j r) ∨ (o = None ∧ isTerminal (verdict_on j r) = true).

Lemma settle_all_run os e0 w now :
  NoDup (map r_ID os) → Forall (λ o, r_ID o ≠ "" ∧ r_State o = stateReserved) os →
  (∀ o, o ∈ os → status (w_disk w) (r_ID o) = Some o) →
  ∃ e tr, settle_all io_ok jio_ok networks os e0 now w = (Ok e, tr) ∧
    w_journals (after w tr) = w_journals w ∧
    (∀ o, o ∈ os → settled_as (w_journals w) o (status (w_disk (after w tr)) (r_ID o))) ∧
    (∀ x, x ∉ map r_ID os →
       status (w_disk (after w tr)) x = status (w_disk w) x ∨
       (status (w_disk (after w tr)) x = None ∧ ∃ y, status (w_disk w) x = Some y ∧ isTerminal y = true)).
Proof.
  revert e0 w. induction os as [|o os IH]; intros e0 w Hnd Hos Hst; cbn [settle_all].
  { exists e0, []. split_and!; [done|done|by intros o ?%elem_of_nil|by left]. }
  cbn [map] in *. apply NoDup_cons in Hnd as [Hno Hnd].
  apply Forall_cons in Hos as [[Hid Hres] Hos].
  destruct (settle_orphan_run w o now (Hst o ltac:(left)) Hres Hid) as (r & tr1 & Hrun & Hj & Hs1).
  rewrite (mbind_run _ _ _ _ _ (mtry_run _ _ _ _ Hrun)).
  set (w1 := after w tr1) in *.
  assert (Hs1' : ∀ x, status (w_disk w1) x =
    if bool_decide (x = r_ID o) then Some (verdict_on (w_journals w) o)
    else match status (w_disk w) x with Some y => if isTerminal y then None else Some y | None => None end).
  { intros x. rewrite Hs1. rewrite (status_relogged_all _ _ o) by (rewrite verdict_id; first [done|apply Hst; left]).
    by rewrite verdict_id. }
  assert (Hst1 : ∀ o', o' ∈ os → status (w_disk w1) (r_ID o') = Some o').
  { intros o' Ho'. rewrite Hs1', bool_decide_false.
    - rewrite (Hst o') by (by right). rewrite Forall_forall in Hos. destruct (Hos o' Ho') as [_ Hr'].
      unfold isTerminal. by rewrite Hr'.
    - intros He. apply Hno. rewrite <-He. by apply list_elem_of_fmap_2. }
  destruct (IH (match e0 with Some _ => e0 | None => match r with Ok _ => None | Err e => Some e end end) w1
               Hnd Hos Hst1) as (e & tr2 & Hrun2 & Hj2 & Hs2 & Hx2).
  rewrite Hrun2. cbn [fst snd]. exists e, (tr1 ++ tr2). rewrite after_app. fold w1.
  rewrite Hj in *. split; [done|]. split; [by rewrite Hj2|]. split.
  - intros o' [->|Ho']%elem_of_cons; [|by apply Hs2].
    destruct (Hx2 (r_ID o) Hno) as [->|[-> (y & Hy & Ht)]]; rewrite Hs1' in *;
      rewrite bool_decide_true in * by done; [by left|right]. by injection Hy as <-.
  - intros x Hx. apply not_elem_of_cons in Hx as [Hxo Hx].
    destruct (Hx2 x Hx) as [->|[-> (y & Hy & Ht)]]; rewrite Hs1', bool_decide_false in * by done.
    + destruct (status (w_disk w) x) as [y|]; [|by left]. destruct (isTerminal y) eqn:E; [right|by left].
      split; [done|]. by exists y.
    + right. split; [done|]. destruct (status (w_disk w) x) as [z|]; [|done].
      destruct (isTerminal z) eqn:E; [done|]. injection Hy as ->. by exists y.
Qed.
End Facts.

(** ** The properties *)

Section Properties.
Context {UT : UnicodeTables} {GC : GethCommon} {RC : LineCodec Reservation} {JC : LineCodec JRecord}
        {MO : MapOrder}.

Lemma orphans_run d st :
  loadAll (dk_log d) = Ok st →
  Orphans io_ok d = (Ok (List.filter (λ r, bool_decide (r_State r = stateReserved)) (log_records st)), []).
Proof.
  intros Hst. unfold Orphans, Engine.withLock. rewrite (mbind_read _ _ _ tt) by done.
  by rewrite (mbind_read _ _ _ st) by (by rewrite load_log_run, Hst).
Qed.

(** C16: reopening resolves every reservation.  When the log can be read,
    reconciliation leaves no reservation in state reserved: each one whose
    journal record (on the first configured chain that has it) is past signed
    is committed with that record's hash, every other one is released, the
    journals are not touched, and a record that was not reserved is kept or,
    when finished, compacted away.  This holds even when counters are
    unreadable and the operation reports their error. *)
Theorem reconcile_resolves_reservations networks now w st :
  loadAll (dk_log (w_disk w)) = Ok st →
  let w' := after w (reconcile io_ok jio_ok networks now w).2 in
  w_journals w' = w_journals w ∧
  (∀ x r, status (w_disk w) x = Some r → r_State r = stateReserved →
     settled_as networks (w_journals w) r (status (w_disk w') x)) ∧
  (∀ x r, status (w_disk w) x = Some r → r_State r ≠ stateReserved →
     status (w_disk w') x = Some r ∨ (status (w_disk w') x = None ∧ isTerminal r = true)) ∧
  (∀ x r, status (w_disk w') x = Some r → r_State r ≠ stateReserved).
Proof.
  intros Hst. cbv zeta. unfold reconcile.
  set (os := List.filter (λ r, bool_decide (r_State r = stateReserved)) (log_records st)).
  pose proof (loadAll_wf _ _ Hst) as Hwf.
  assert (Hstat : ∀ x, status (w_disk w) x = lg_byID st !! x) by (intros x; unfold status; by rewrite Hst).
  assert (Hin : ∀ r, r ∈ os ↔ status (w_disk w) (r_ID r) = Some r ∧ r_State r = stateReserved).
  { intros r. unfold os. rewrite list_elem_of_In, filter_In, <-list_elem_of_In, log_records_elem by done.
    by rewrite Hstat, bool_decide_eq_true. }
  assert (Hnd : NoDup (map r_ID os)).
  { apply NoDup_map_filter. rewrite log_records_ids by done. apply (wf_nodup _ Hwf). }
  rewrite (mbind_read _ _ _ os).
  2:{ unfold engine, mzoom. rewrite (orphans_run _ st Hst). done. }
  destruct (settle_all_run networks os None w now Hnd) as (e & tr & Hrun & Hj & Hs & Hx).
  { apply Forall_forall. intros r [Hr Hres]%Hin. split; [|done].
    rewrite Hstat in Hr. apply (wf_nonempty _ Hwf), (wf_dom _ Hwf). eauto. }
  { intros r [Hr _]%Hin. done. }
  assert (Ht : (mbind (settle_all io_ok jio_ok networks os None now)
                  (λ e, match e with Some e => mfail e | None => mret tt end) w).2 = tr).
  { rewrite (mbind_run _ _ _ _ _ Hrun). simpl. destruct e; simpl; by rewrite app_nil_r. }
  rewrite Ht. split; [done|].
  assert (Hres : ∀ x r, status (w_disk w) x = Some r → r_State r = stateReserved →
     settled_as networks (w_journals w) r (status (w_disk (after w tr)) x)).
  { intros x r Hr Hre. pose proof (status_key _ _ _ Hr) as <-. by apply Hs, Hin. }
  assert (Hother : ∀ x r, status (w_disk w) x = Some r → r_State r ≠ stateReserved →
     status (w_disk (after w tr)) x = Some r ∨
     (status (w_disk (after w tr)) x = None ∧ isTerminal r = true)).
  { intros x r Hr Hne. destruct (Hx x) as [->|[-> (y & Hy & Ht')]]; [|by left|right].
    - intros (z & -> & [Hz Hzr]%Hin)%list_elem_of_fmap. congruence.
    - split; [done|]. congruence. }
  split_and!; [done|done|]. intros x r' Hr'.
  destruct (status (w_disk w) x) as [r|] eqn:Hr.
  - destruct (decide (r_State r = stateReserved)) as [Hre|Hre].
    + destruct (Hres x r Hr Hre) as [H|[H _]]; [|congruence]. rewrite Hr' in H. injection H as ->.
      apply verdict_not_reserved.
    + destruct (Hother x r Hr Hre) as [H|[H _]]; congruence.
  - destruct (Hx x) as [H|[H _]]; [|congruence|congruence].
    intros (z & -> & [Hz _]%Hin)%list_elem_of_fmap. congruence.
Qed.
End Properties.

(** ** Witness *)

(** the first reservation, still reserved, and no journal at all *)
Definition open_world : World := mkWorld (log_disk [newReservation "r1" first_check 0]) ∅.

Section Witness.
#[local] Existing Instance jrecord_codec.
#[local] Existing Instance list_order.

Definition reopened : World := after open_world (reconcile io_ok jio_ok [1] 0 open_world).2.

Lemma reconcile_resolves_reservations_witness :
  w_journals reopened = w_journals open_world ∧
  (∀ x r, status (w_disk open_world) x = Some r → r_State r = stateReserved →
     settled_as [1] (w_journals open_world) r (status (w_disk reopened) x)) ∧
  (∀ x r, status (w_disk open_world) x = Some r → r_State r ≠ stateReserved →
     status (w_disk reopened) x = Some r ∨ (status (w_disk reopened) x = None ∧ isTerminal r = true)) ∧
  (∀ x r, status (w_disk reopened) x = Some r → r_State r ≠ stateReserved).
Proof.
  apply (reconcile_resolves_reservations [1] 0 open_world (log_of [newReservation "r1" first_check 0])).
  apply loadAll_unlines; [apply NoDup_singleton|by repeat constructor].
Defined.
End Witness.
