(* ===== verification/Service.v ===== *)
(** * The world of the service: [internal/service/service.go], [internal/chain/chain.go]

    The operations of the service act on the policy file, the engine's disk, one
    journal per chain and one nonce cache per chain and account, and talk to
    what is outside of the program: the node behind [chain.Client], the signer,
    the clock, the entropy and the file system.  What is outside is a state of
    any type [N] and the class [Environment] of its replies: nothing is assumed
    of them here.  Every payload handed to the node is kept, with the stores as
    they were at that moment, in a list the program never reads. *)

From S2P Require Import Prelude GoStrings Decimal Encodings PolicyTypes Seal Domain PolicyFile Trace Evaluate Counter Reservation Engine PolicyAdmin Calldata Gas Journal Nonce.

Local Open Scope string_scope.
Local Open Scope Z_scope.
Local Open Scope list_scope.
Local Open Scope go_scope.

(** ** What is outside *)

(** the fields of a go-ethereum receipt the service reads *)
Record CReceipt := mkCReceipt {
  cr_Status : Z;
  cr_BlockNumber : Z;
  cr_BlockHash : Hash;
  cr_GasUsed : Z;
  cr_EffectiveGasPrice : option Z;
}.

(** domain.AccountRef *)
Record AccountRef := mkRef { ar_Raw : string; ar_Kind : Z; ar_Wallet : string; ar_Index : Z; ar_Name : string; ar_Addr : Address }.

(** an unsigned transaction: the fields handed to types.NewTx *)
Inductive UnsignedTx :=
| LegacyTx (Nonce : Z) (GasPrice : option Z) (Gas : Z) (To : Address) (Value : Z) (Data : string)
| DynamicFeeTx (ChainID Nonce : Z) (GasTipCap GasFeeCap : option Z) (Gas : Z) (To : Address) (Value : Z) (Data : string).

(** the message of eth_estimateGas *)
Record CallMsg := mkCallMsg { cm_From : Address; cm_To : Address; cm_Value : Z; cm_Data : string }.

(** Every reply may depend on the whole outside and may change it. *)
Class Environment (N : Type) := {
  cc_Nonce : Address → bool → N → res GoError Z * N;
  cc_Receipt : Hash → N → res GoError (option CReceipt) * N;
  cc_BlockNumber : N → res GoError Z * N;
  cc_EstimateGas : CallMsg → N → res GoError Z * N;
  cc_SuggestFees : Z → N → res GoError ChainFees * N;
  cc_SuggestGasPrice : N → res GoError (option Z) * N;
  cc_SendRawTransaction : string → N → res GoError Hash * N;
  SignTx : AccountRef → UnsignedTx → Z → N → res error (string * Hash) * N;
  sleep : Z → N → option GoError * N;
  clock : N → Z * N;
  reservation_ulid : N → string * N;
  journal_ulid : N → res error string * N;
  policy_io : N → IO * N;
  journal_io : N → JIO * N;
  nonce_io : N → NIO * N;
}.

(** ** The world *)

(** a payload, with the engine's disk and the journals when it was handed over *)
Record Submission := mkSub { su_raw : string; su_disk : Disk; su_journals : gmap Z string }.

Record SWorld (N : Type) := mkSWorld {
  sw_policy : PFile;
  sw_disk : Disk;
  sw_journals : gmap Z string;
  sw_caches : gmap (Z * Address) cacheDoc;
  sw_sent : list Submission;
  sw_outside : N;
}.
Arguments mkSWorld {N}.
Arguments sw_policy {N}. Arguments sw_disk {N}. Arguments sw_journals {N}.
Arguments sw_caches {N}. Arguments sw_sent {N}. Arguments sw_outside {N}.

(** run an action and keep its result as a value *)
Definition mres {S A} (m : T S A) : T S (res error A) := λ d, let '(r, tr) := m d in (Ok r, tr).

(** the configuration the pipeline reads *)
Record TxConfig := mkTxConfig {
  tc_WaitTimeout : Z;
  tc_PollInterval : Z;
  tc_Gas : GasConfig;
  tc_Confirmations : gmap string Z;
}.

(** ** Wire types (domain/tx_requests.go) *)

Definition TxStatusPending := "pending".
Definition TxStatusConfirmed := "confirmed".
Definition TxStatusReverted := "reverted".
Definition TxStatusReplaced := "replaced".
Definition TxStatusTimeout := "timeout".

Record Dest := mkDest { de_Address : Address; de_Name : string; de_Via : string; de_ENSName : string }.
Record WireAsset := mkWireAsset { wa_Kind : string; wa_Symbol : string; wa_Contract : string; wa_Decimals : option Z }.
Record GasResult := mkGasResult {
  gasr_Legacy : bool; gasr_GasLimit : Z; gasr_MaxFeePerGas : string; gasr_PriorityFee : string; gasr_GasPrice : string;
  gasr_BaseFee : string; gasr_Speed : string; gasr_Source : string; gasr_WorstCaseGasWei : string;
}.
Record Classification := mkClassification {
  cl_ClassifiedAs : string; cl_Spender : string; cl_Recipient : string; cl_Unlimited : bool; cl_Selector : string;
  cl_Contract : string;
}.
Record TxResult := mkTxResult {
  tr_Hash : string;
  tr_Network : string;
  tr_From : Address;
  tr_To : Dest;
  tr_Asset : WireAsset;
  tr_AmountWei : string;
  tr_Nonce : Z;
  tr_Gas : GasResult;
  tr_Status : string;
  tr_Confirmations : Z;
  tr_BlockNumber : option Z;
  tr_JournalID : string;
  tr_Resume : string;
  tr_Replaced : string;
  tr_DryRun : bool;
  tr_Classification : option Classification;
}.

Definition zero_dest : Dest := mkDest 0 "" "" "".
Definition zero_gas : GasResult := mkGasResult false 0 "" "" "" "" "" "" "".
Definition zero_asset : WireAsset := mkWireAsset "" "" "" None.

(** the zero value [TxResult{}] *)
Definition no_result : TxResult :=
  mkTxResult "" "" 0 zero_dest zero_asset "" 0 zero_gas "" 0 None "" "" "" false None.

(** what an operation returns: a result and an error, both of which the caller sees *)
Definition Outcome : Type := TxResult * option error.
Definition failed_with (e : error) : Outcome := (no_result, Some e).

Record WaitOpts := mkWaitOpts { wo_Enabled : bool; wo_Confirmations : option Z; wo_Timeout : Z }.

(** wireAsset *)
Definition wireAsset (a : Asset) (symbol : string) : WireAsset :=
  mkWireAsset (as_Kind a) symbol (default "" (as_Contract a)) (as_Decimals a).

Definition opt_string (v : option Z) : string := match v with Some v => z_string v | None => "" end.

(** Quote.result *)
Definition quote_result (q : Quote) : GasResult := {|
  gasr_Legacy := q_Legacy q; gasr_GasLimit := q_GasLimit q;
  gasr_MaxFeePerGas := if q_Legacy q then "" else opt_string (q_MaxFeePerGas q);
  gasr_PriorityFee := if q_Legacy q then "" else opt_string (q_PriorityFee q);
  gasr_GasPrice := if q_Legacy q then opt_string (q_GasPrice q) else "";
  gasr_BaseFee := opt_string (q_BaseFee q); gasr_Speed := q_Speed q; gasr_Source := q_Source q;
  gasr_WorstCaseGasWei := opt_string (q_WorstCaseGasWei q) |}.

Definition minPollInterval : Z := 100000000.
Definition floorPoll (d : Z) : Z := if d <? minPollInterval then minPollInterval else d.

(** errors.Is(err, journal.ErrNotFound) *)
Definition is_not_found (e : error) : bool := bool_decide (e_Code e = e_Code ErrNotFound) && bool_decide (e_Msg e = e_Msg ErrNotFound).

Section Service.
Context {N : Type} {UT : UnicodeTables} {GC : GethCommon} {RC : LineCodec Reservation} {JC : LineCodec JRecord}
        {MO : MapOrder} {SC : SealCrypto} {EV : Environment N}.

Definition SM (A : Type) : Type := T (SWorld N) A.

Definition set_outside (w : SWorld N) (n : N) : SWorld N :=
  mkSWorld (sw_policy w) (sw_disk w) (sw_journals w) (sw_caches w) (sw_sent w) n.
Definition put_disk (w : SWorld N) (d : Disk) : SWorld N :=
  mkSWorld (sw_policy w) d (sw_journals w) (sw_caches w) (sw_sent w) (sw_outside w).
Definition put_journal (chain : Z) (w : SWorld N) (f : File) : SWorld N :=
  mkSWorld (sw_policy w) (sw_disk w) (partial_alter (λ _, f) chain (sw_journals w)) (sw_caches w) (sw_sent w) (sw_outside w).
Definition put_nonce (chain : Z) (a : Address) (w : SWorld N) (s : NState) : SWorld N :=
  mkSWorld (sw_policy w) (sw_disk w) (partial_alter (λ _, ns_journal s) chain (sw_journals w))
    (partial_alter (λ _, ns_cache s) (chain, a) (sw_caches w)) (sw_sent w) (sw_outside w).
Definition get_nonce (chain : Z) (a : Address) (w : SWorld N) : NState :=
  mkNState (sw_journals w !! chain) (sw_caches w !! (chain, a)).

(** one question to the outside *)
Definition ask {A} (f : N → A * N) : SM A := λ w, let '(a, n) := f (sw_outside w) in (Ok a, [set_outside w n]).

(** eth_sendRawTransaction *)
Definition send_raw (raw : string) : SM (res GoError Hash) := λ w,
  let '(r, n) := cc_SendRawTransaction raw (sw_outside w) in
  (Ok r, [mkSWorld (sw_policy w) (sw_disk w) (sw_journals w) (sw_caches w)
            (sw_sent w ++ [mkSub raw (sw_disk w) (sw_journals w)]) n]).

(** an RPC whose error is mapped and returned *)
Definition ask_rpc {A} (f : N → res GoError A * N) : SM A := r <-- ask f ;; mlift (rpc r).

(** the components, each call with its own I/O outcomes and clock *)
Definition engine (op : IO → Z → M ()) : SM () :=
  io <-- ask policy_io ;; now <-- ask clock ;; mzoom sw_disk put_disk (op io now).
Definition journal {A} (chain : Z) (op : JIO → Z → JM A) : SM A :=
  io <-- ask journal_io ;; now <-- ask clock ;;
  mzoom (λ w, sw_journals w !! chain) (put_journal chain) (op io now).
Definition nonces {A} (chain : Z) (a : Address) (op : NIO → NM A) : SM A :=
  io <-- ask nonce_io ;; mzoom (get_nonce chain a) (put_nonce chain a) (op io).

(** the installed hook of the engine and the pinned anchor *)
Variables (accounts : option (string → list Address)) (anchor : option Anchor).

(** s.policy.Reserve; the zero reservation, with an empty identifier, is [None] *)
Definition policy_Reserve (c : Check) : SM (option Reservation) :=
  io <-- ask policy_io ;; now0 <-- ask clock ;; id <-- ask reservation_ulid ;; now <-- ask clock ;;
  w <-- mget ;;
  mzoom sw_disk put_disk (Reserve io accounts (loadActivePolicy (sw_policy w) anchor) id c now0 now).
Definition policy_Evaluate (c : Check) : SM Decision :=
  io <-- ask policy_io ;; now <-- ask clock ;;
  w <-- mget ;;
  mzoom sw_disk put_disk (EngineEvaluate io accounts (loadActivePolicy (sw_policy w) anchor) c now).
Definition policy_AllowlistPin (source name : string) : SM (option Address) :=
  w <-- mget ;; mlift (AllowlistPin (sw_policy w) anchor source name).
Definition policy_Commit (id : string) (h : Hash) : SM () := engine (λ io now, Engine.Commit io id (HashHex h) now).
Definition policy_Release (id : string) : SM () := engine (λ io now, Engine.Release io id now).
Definition policy_SettleActual (id : string) (gasWei : option Z) (reverted : bool) : SM () :=
  engine (λ io now, SettleActual io id gasWei reverted now).

Definition journal_SetState (chain : Z) (id : string) (mut : StateMutation) : SM () :=
  journal chain (λ io now, SetState io id mut now).
Definition journal_Append (rec : JRecord) : SM JRecord :=
  u <-- ask journal_ulid ;; journal (j_ChainID rec) (λ io now, Append io rec u now).
End Service.
