(* ===== verification/TxStatus.v ===== *)
(** * Observing, waiting and rebroadcasting: [internal/service/txstatus.go]

    The read side of the pipeline and the one helper through which every
    rebroadcast goes.  The wait loop takes a bound on its rounds; [WaitProps]
    shows a bound that the deadline always keeps. *)

From S2P Require Import Prelude GoStrings Decimal HexBytes Encodings PolicyTypes Seal Domain PolicyFile Trace Evaluate Counter Reservation Engine PolicyAdmin Calldata Gas Journal Nonce Service.

Local Open Scope string_scope.
Local Open Scope Z_scope.
Local Open Scope list_scope.
Local Open Scope go_scope.

Definition CodeRefNotFound := "ref.not_found".
Definition CodeTxReplaced := "tx.replaced".
Definition CodeTxAlreadyMined := "tx.already_mined".
Definition CodeTxWaitTimeout := "tx.wait_timeout".
Definition CodeTxIntegrityReservationMissing := "tx.integrity.reservation_missing".
Definition CodeStateCorrupt := "state.corrupt".

(** waitState *)
Inductive waitState := waitPending | waitMined | waitConfirmed | waitReverted | waitReplaced | waitDropped.

#[export] Instance waitState_eq_dec : EqDecision waitState.
Proof. solve_decision. Defined.

(** ** Pure projections *)

Section Pure.
Context {UT : UnicodeTables} {GC : GethCommon}.

(** parseHash *)
Definition parseHash (s : string) : res error Hash :=
  let bad want := Err (New "usage.bad_hash" ("invalid tx hash " +:+ go_quote s +:+ " (want " +:+ want +:+ ")")) in
  match s with
  | String z (String x _) =>
      if (byteZ z =? 48) && ((byteZ x =? 120) || (byteZ x =? 88))
      then if (String.length s =? 66)%nat then Ok (HexToHash s) else bad "32 bytes"
      else bad "0x…"
  | _ => bad "0x…"
  end.

(** wireStatus *)
Definition wireStatus (st : string) : string :=
  if bool_decide (st = StatusConfirmed) then TxStatusConfirmed
  else if bool_decide (st = StatusReverted) then TxStatusReverted
  else if bool_decide (st = StatusReplaced) then TxStatusReplaced else TxStatusPending.

(** gasResultFromFees *)
Definition gasResultFromFees (f : Fees) : GasResult := {|
  gasr_Legacy := bool_decide (fe_Type f = "legacy"); gasr_GasLimit := fe_GasLimit f;
  gasr_MaxFeePerGas := default "" (fe_MaxFeePerGas f); gasr_PriorityFee := default "" (fe_MaxPriorityPerGas f);
  gasr_GasPrice := default "" (fe_GasPrice f); gasr_BaseFee := ""; gasr_Speed := fe_Speed f;
  gasr_Source := ""; gasr_WorstCaseGasWei := "" |}.

(** journalReceipt *)
Definition journalReceipt (rcpt : option CReceipt) : option Receipt :=
  match rcpt with
  | None => None
  | Some r => Some (mkReceipt (wrap64 (cr_BlockNumber r)) (HashHex (cr_BlockHash r)) (cr_GasUsed r)
                      (match cr_EffectiveGasPrice r with Some p => z_string p | None => "0" end) (cr_Status r))
  end.

(** actualGas *)
Definition actualGas (rcpt : option CReceipt) : Z :=
  match rcpt with
  | Some r => match cr_EffectiveGasPrice r with Some p => cr_GasUsed r * p | None => 0 end
  | None => 0
  end.

(** recordResult *)
Definition recordResult (rec : option JRecord) (network : string) (hash : Hash) : TxResult :=
  match rec with
  | None => {| tr_Hash := HashHex hash; tr_Network := network; tr_From := 0; tr_To := zero_dest;
               tr_Asset := zero_asset; tr_AmountWei := ""; tr_Nonce := 0; tr_Gas := zero_gas;
               tr_Status := TxStatusPending; tr_Confirmations := 0; tr_BlockNumber := None; tr_JournalID := "";
               tr_Resume := ""; tr_Replaced := ""; tr_DryRun := false; tr_Classification := None |}
  | Some r => {| tr_Hash := HashHex hash; tr_Network := network; tr_From := HexToAddress (j_From r);
                 tr_To := mkDest (HexToAddress (j_To r)) "" "" ""; tr_Asset := wireAsset (j_Asset r) "";
                 tr_AmountWei := j_ValueWei r; tr_Nonce := j_Nonce r; tr_Gas := gasResultFromFees (j_Fees r);
                 tr_Status := wireStatus (j_Status r); tr_Confirmations := 0; tr_BlockNumber := None;
                 tr_JournalID := j_ID r; tr_Resume := "";
                 tr_Replaced := match j_ReplacedBy r with Some _ => j_TxHash r | None => "" end;
                 tr_DryRun := false; tr_Classification := None |}
  end.

Definition res_status (r : TxResult) (st : string) : TxResult :=
  mkTxResult (tr_Hash r) (tr_Network r) (tr_From r) (tr_To r) (tr_Asset r) (tr_AmountWei r) (tr_Nonce r) (tr_Gas r)
    st (tr_Confirmations r) (tr_BlockNumber r) (tr_JournalID r) (tr_Resume r) (tr_Replaced r) (tr_DryRun r)
    (tr_Classification r).
Definition res_mined (r : TxResult) (conf blk : Z) : TxResult :=
  mkTxResult (tr_Hash r) (tr_Network r) (tr_From r) (tr_To r) (tr_Asset r) (tr_AmountWei r) (tr_Nonce r) (tr_Gas r)
    (tr_Status r) conf (Some blk) (tr_JournalID r) (tr_Resume r) (tr_Replaced r) (tr_DryRun r) (tr_Classification r).
Definition res_replaced (r : TxResult) (old : string) : TxResult :=
  mkTxResult (tr_Hash r) (tr_Network r) (tr_From r) (tr_To r) (tr_Asset r) (tr_AmountWei r) (tr_Nonce r) (tr_Gas r)
    (tr_Status r) (tr_Confirmations r) (tr_BlockNumber r) (tr_JournalID r) (tr_Resume r) old (tr_DryRun r)
    (tr_Classification r).
Definition res_resume (r : TxResult) (resume : string) : TxResult :=
  mkTxResult (tr_Hash r) (tr_Network r) (tr_From r) (tr_To r) (tr_Asset r) (tr_AmountWei r) (tr_Nonce r) (tr_Gas r)
    TxStatusTimeout (tr_Confirmations r) (tr_BlockNumber r) (tr_JournalID r) resume (tr_Replaced r) (tr_DryRun r)
    (tr_Classification r).

(** txRow *)
Record TxRow := mkTxRow {
  row_JournalID : string; row_Hash : string; row_Kind : string; row_Status : string; row_From : string;
  row_To : string; row_Nonce : Z; row_ValueWei : string; row_TS : string; row_Network : string;
  row_Replaces : string; row_ReplacedBy : string;
}.
Definition txRow (r : JRecord) : TxRow :=
  mkTxRow (j_ID r) (j_TxHash r) (j_Kind r) (j_Status r) (j_From r) (j_To r) (j_Nonce r) (j_ValueWei r) (j_TS r)
    (j_Network r) (default "" (j_Replaces r)) (default "" (j_ReplacedBy r)).

(** a mutation that only sets a status *)
Definition to_status (st : string) : StateMutation := mkMutation st None None None None None None.

(** [rec.ReplacedBy != nil && *rec.ReplacedBy != ""] *)
Definition linked (r : JRecord) : bool :=
  match j_ReplacedBy r with Some h => negb (bool_decide (h = "")) | None => false end.

(** the error strings of a node that already has the transaction *)
Definition already_known (e : GoError) : bool :=
  containsAny (ToLower (ge_Text e)) ["already known"; "already exists"; "alreadyknown"].
End Pure.

Section TxStatus.
Context {N : Type} {UT : UnicodeTables} {GC : GethCommon} {RC : LineCodec Reservation} {JC : LineCodec JRecord}
        {MO : MapOrder} {SC : SealCrypto} {EV : Environment N}.
Variables (accounts : option (string → list Address)) (anchor : option Anchor) (cfg : TxConfig).

Local Notation SM := (@SM N).

(** confirmTarget; [name] is the resolved network name *)
Definition confirmTarget (name : string) (override : option Z) : Z :=
  match override with
  | Some n => n
  | None => match tc_Confirmations cfg !! name with Some n => if 0 <? n then n else 1 | None => 1 end
  end.

(** the receipt, with "not found" as no receipt *)
Definition receipt_of (hash : Hash) : SM (option CReceipt) :=
  r <-- ask (cc_Receipt hash) ;;
  match r with
  | Ok o => mret o
  | Err e => if ge_NotFound e then mret None else mfail (mapRPCErr e)
  end.

(** ** Rebroadcasting *)

Definition decode_error : error := New CodeStateCorrupt "journal raw_tx is not valid hex".

Definition doRebroadcast (rec : JRecord) (newReservationID : string) : SM () :=
  raw <-- mlift (match decodeHex (j_RawTx rec) with Some raw => Ok raw | None => Err decode_error end) ;;
  r <-- send_raw raw ;;
  match r with
  | Err e => if already_known e then mret tt else mfail (mapRPCErr e)
  | Ok _ => mret tt
  end ;;;
  journal_SetState (j_ChainID rec) (j_ID rec)
    (mkMutation StatusBroadcast None None None None None
       (if bool_decide (newReservationID = "") then None else Some newReservationID)).

(** the check of a re-reservation *)
Definition recheck (rec : JRecord) : Check := {|
  c_Account := HexToAddress (j_From rec); c_Dest := HexToAddress (j_To rec);
  c_SpendWei := Some (bigOrZero (j_ValueWei rec)); c_MaxGasWei := Some (bigOrZero (j_WorstCaseGasWei rec));
  c_MaxFeePerGas := None; c_Kind := j_Kind rec; c_Token := ""; c_IsRBFDelta := bool_decide (is_Some (j_Replaces rec));
  c_Acked := false; c_Network := j_Network rec; c_KindEnum := KindUnknown; c_ToSrc := SourceRawAddress;
  c_ToInput := ""; c_ENSName := ""; c_ENSResolved := 0; c_Asset := as_Kind (j_Asset rec); c_TokenAmt := None;
  c_Unlimited := false; c_AccountNonce := Some (j_Nonce rec); c_TypedUnknown := false; c_TypedPrimary := "";
  c_TypedVerifying := ""; c_TypedChainID := 0; c_UnknownCalldata := false; c_ContractAddr := 0; c_Selector := "" |}.

Definition vanished : string := "broadcast record's reservation vanished (counter-file tampering)".

(** the identifier of a reservation, "" for the zero one *)
Definition reservation_id (o : option Reservation) : string := match o with Some r => r_ID r | None => "" end.

(** the signed branch: reserve again, send, commit *)
Definition rebroadcast_signed (rec : JRecord) : SM bool :=
  reservation <-- policy_Reserve accounts anchor (recheck rec) ;;
  let id := reservation_id reservation in
  sent <-- mtry (doRebroadcast rec id) ;;
  match sent with
  | Some e => mtry (policy_Release id) ;;; mfail e
  | None => policy_Commit id (HexToHash (j_TxHash rec)) ;;; mret true
  end.

(** the branch that rides the committed reservation *)
Definition rebroadcast_broadcast (rec : JRecord) : SM bool :=
  (if bool_decide (j_Status rec = StatusBroadcast) && negb (bool_decide (j_ReservationID rec = ""))
   then c <-- mtry (policy_Commit (j_ReservationID rec) (HexToHash (j_TxHash rec))) ;;
        match c with
        | None => mret tt
        | Some e =>
            if bool_decide (e_Code e = CodeTxIntegrityReservationMissing)
            then mtry (journal_SetState (j_ChainID rec) (j_ID rec)
                         (mkMutation StatusFailed None None None None (Some vanished) None)) ;;;
                 mfail (New CodeTxIntegrityReservationMissing vanished)
            else mfail e
        end
   else mret tt) ;;;
  doRebroadcast rec "" ;;;
  mret true.

Definition rides (st : string) : bool :=
  existsb (λ t, bool_decide (st = t)) [StatusBroadcast; StatusPending; StatusMined; StatusDropped].

Definition rebroadcast (rec : JRecord) : SM bool :=
  rcpt <-- receipt_of (HexToHash (j_TxHash rec)) ;;
  match rcpt with
  | Some _ => mret false
  | None =>
      if linked rec then mret false
      else
        minedNonce <-- ask_rpc (cc_Nonce (HexToAddress (j_From rec)) false) ;;
        if j_Nonce rec <? minedNonce
        then mtry (journal_SetState (j_ChainID rec) (j_ID rec) (to_status StatusReplaced)) ;;; mret false
        else if bool_decide (j_Status rec = StatusSigned) then rebroadcast_signed rec
        else if rides (j_Status rec) then rebroadcast_broadcast rec
        else mret false
  end.

Fixpoint resurrect_all (recs : list JRecord) : SM () :=
  match recs with
  | [] => mret tt
  | rec :: recs =>
      (if bool_decide (j_TxHash rec = "") then mret None else mtry (rebroadcast rec)) ;;;
      resurrect_all recs
  end.

Definition resurrectUnresolved (chainID : Z) : SM () :=
  recs <-- mres (journal chainID (λ io _, Unresolved io)) ;;
  match recs with Ok recs => resurrect_all recs | Err _ => mret tt end.

(** ** Observing *)

Definition recordTerminal (chainID : Z) (rec : option JRecord) (st : string) (rcpt : option CReceipt) : SM () :=
  match rec with
  | None => mret tt
  | Some rec =>
      mtry (journal_SetState chainID (j_ID rec) (mkMutation st None (journalReceipt rcpt) None None None None)) ;;;
      if bool_decide (st = StatusReverted) && negb (bool_decide (j_ReservationID rec = ""))
      then mtry (policy_SettleActual (j_ReservationID rec) (Some (actualGas rcpt)) true) ;;; mret tt
      else mret tt
  end.

Definition recordConfirmed (chainID : Z) (rec : option JRecord) (rcpt : CReceipt) : SM () :=
  match rec with
  | None => mret tt
  | Some rec =>
      mtry (journal_SetState chainID (j_ID rec)
              (mkMutation StatusConfirmed None (journalReceipt (Some rcpt)) None None None None)) ;;;
      if negb (bool_decide (j_ReservationID rec = ""))
      then mtry (policy_SettleActual (j_ReservationID rec) (Some (actualGas (Some rcpt))) false) ;;; mret tt
      else mret tt
  end.

(** [head - blk + 1] in uint64, zero when the head is behind *)
Definition confirmations (head blk : Z) : Z := if blk <=? head then wrap64 (head - blk + 1) else 0.

(** observe: the result, the state and the error.  A result comes with every
    error, so the three are the value. *)
Definition observe (chainID : Z) (hash : Hash) (rec : option JRecord) (network : string) (target : Z)
  : SM (TxResult * waitState * option error) :=
  let base := recordResult rec network hash in
  r <-- mres (receipt_of hash) ;;
  match r with
  | Err e => mret (base, waitPending, Some e)
  | Ok (Some rcpt) =>
      h <-- mres (ask_rpc cc_BlockNumber) ;;
      match h with
      | Err e => mret (base, waitPending, Some e)
      | Ok head =>
          let blk := wrap64 (cr_BlockNumber rcpt) in
          let conf := confirmations head blk in
          let out := res_mined base conf blk in
          if cr_Status rcpt =? 0
          then recordTerminal (wrap64 chainID) rec StatusReverted (Some rcpt) ;;;
               mret (res_status out TxStatusReverted, waitReverted, None)
          else if target <=? conf
          then recordConfirmed (wrap64 chainID) rec rcpt ;;;
               mret (res_status out TxStatusConfirmed, waitConfirmed, None)
          else mret (res_status out TxStatusPending, waitMined, None)
      end
  | Ok None =>
      match rec with
      | None => mret (res_status base TxStatusPending, waitPending, None)
      | Some rec' =>
          n <-- mres (ask_rpc (cc_Nonce (HexToAddress (j_From rec')) false)) ;;
          match n with
          | Err e => mret (base, waitPending, Some e)
          | Ok minedNonce =>
              if linked rec'
              then recordTerminal (wrap64 chainID) rec StatusReplaced None ;;;
                   mret (res_replaced (res_status base TxStatusReplaced) (j_TxHash rec'), waitReplaced, None)
              else if j_Nonce rec' <? minedNonce
              then recordTerminal (wrap64 chainID) rec StatusReplaced None ;;;
                   mret (res_status base TxStatusReplaced, waitReplaced, None)
              else mret (res_status base TxStatusPending, waitDropped, None)
          end
      end
  end.

(** the record of a hash, with ErrNotFound as none *)
Definition record_of (chainID : Z) (hash : Hash) : SM (option JRecord) :=
  r <-- mres (journal (wrap64 chainID) (λ io _, ByHash io hash)) ;;
  match r with
  | Ok rec => mret (Some rec)
  | Err e => if is_not_found e then mret None else mfail e
  end.

(** ** Waiting *)

Definition timed_out (hash : Hash) (msg : string) (out : TxResult) : Outcome :=
  let resume := "daxie tx wait " +:+ HashHex hash in
  (res_resume out resume,
   Some (WithData (New CodeTxWaitTimeout msg)
           {["resume" := DVal (DStr resume); "status" := DVal (DStr "pending")]})).

(** what one round does: finish with an outcome, or go on to the deadline check *)
Definition wait_round (chainID : Z) (hash : Hash) (network : string) (target : Z) : SM (Outcome + TxResult) :=
  rec <-- mres (record_of chainID hash) ;;
  match rec with
  | Err e => mret (inl (failed_with e))
  | Ok rec =>
      o <-- observe chainID hash rec network target ;;
      let '(out, st, err) := o in
      match err with
      | Some e => mret (inl (out, Some e))
      | None =>
          match st with
          | waitConfirmed => mret (inl (out, None))
          | waitReverted => mret (inl (out, Some (New CodeTxReverted "transaction reverted on-chain")))
          | waitReplaced =>
              mret (inl (out, Some (New CodeTxReplaced "transaction replaced by another with the same nonce")))
          | waitMined =>
              if target <=? tr_Confirmations out then mret (inl (res_status out TxStatusConfirmed, None))
              else mret (inr out)
          | waitDropped =>
              match rec with
              | Some rec =>
                  r <-- mtry (rebroadcast rec) ;;
                  match r with Some e => mret (inl (out, Some e)) | None => mret (inr out) end
              | None => mret (inr out)
              end
          | waitPending => mret (inr out)
          end
      end
  end.

(** the loop; [None] when the rounds run out *)
Fixpoint wait_loop (rounds : nat) (chainID : Z) (hash : Hash) (network : string) (target deadline poll : Z)
  : SM (option Outcome) :=
  match rounds with
  | O => mret None
  | S rounds =>
      r <-- wait_round chainID hash network target ;;
      match r with
      | inl o => mret (Some o)
      | inr out =>
          now <-- ask clock ;;
          if negb (now <? deadline)
          then mret (Some (timed_out hash "wait deadline reached; transaction still pending (resumable)" out))
          else
            s <-- ask (sleep poll) ;;
            match s with
            | Some _ => mret (Some (timed_out hash "wait interrupted; transaction still pending (resumable)" out))
            | None => wait_loop rounds chainID hash network target deadline poll
            end
      end
  end.

Definition wait_timeout (wait : WaitOpts) : Z :=
  if wo_Timeout wait <=? 0 then tc_WaitTimeout cfg else wo_Timeout wait.

(** waitOnHash; [network] is a resolved network name *)
Definition waitOnHash (rounds : nat) (network : string) (hash : Hash) (chainID : Z) (wait : WaitOpts)
  : SM (option Outcome) :=
  now <-- ask clock ;;
  wait_loop rounds chainID hash network (confirmTarget network (wo_Confirmations wait))
    (now + wait_timeout wait) (floorPoll (tc_PollInterval cfg)).

(** ** The operations, on a dialed client of the chain [chainID] *)

Definition TxStatus (hash_arg network : string) (chainID : Z) : SM Outcome :=
  match parseHash hash_arg with
  | Err e => mret (failed_with e)
  | Ok hash =>
      resurrectUnresolved (wrap64 chainID) ;;;
      rec <-- mres (record_of chainID hash) ;;
      match rec with
      | Err e => mret (failed_with e)
      | Ok rec =>
          o <-- observe chainID hash rec network (confirmTarget network None) ;;
          let '(out, _, err) := o in
          mret (match err with Some e => failed_with e | None => (out, None) end)
      end
  end.

Definition WaitTx (rounds : nat) (hash_arg network : string) (chainID : Z) (confs : option Z) (timeout : Z)
  : SM (option Outcome) :=
  match parseHash hash_arg with
  | Err e => mret (Some (failed_with e))
  | Ok hash =>
      rec <-- mres (record_of chainID hash) ;;
      match rec with
      | Err e => mret (Some (failed_with e))
      | Ok _ => waitOnHash rounds network hash chainID (mkWaitOpts true confs timeout)
      end
  end.

(** ListTxs; [from] is the account the request selects, zero for all *)
Definition ListTxs (chainID : Z) (from : Address) (limit : Z) : SM (list TxRow) :=
  resurrectUnresolved (wrap64 chainID) ;;;
  recs <-- journal (wrap64 chainID) (λ io _, List_ io from) ;;
  mret (map txRow (if 0 <? limit then take (Z.to_nat limit) recs else recs)).
End TxStatus.
