(* ===== verification/Send.v ===== *)
(** * The send pipeline: [internal/service/tx.go]

    An intent is priced, checked against the policy, reserved, signed,
    journaled, handed to the node, and settled or aborted.  The intent is the
    argument: accounts, destinations and tokens are resolved before it exists.
    The lease is the value that holds the account lock; an operation that
    finishes it gives it back finished. *)

From S2P Require Import Prelude GoStrings Decimal HexBytes Ethunit Encodings PolicyTypes Seal Domain PolicyFile Trace Evaluate Counter Reservation Engine PolicyAdmin Calldata Gas Journal Nonce Service TxStatus.

Local Open Scope string_scope.
Local Open Scope Z_scope.
Local Open Scope list_scope.
Local Open Scope go_scope.

(** journal.Kind *)
Definition KindERC20Transfer := "erc20-transfer".
Definition KindERC721Transfer := "erc721-transfer".
Definition KindERC1155Transfer := "erc1155-transfer".
Definition KindETHTransfer := "eth-transfer".
Definition KindCancel := "cancel".
Definition KindSpeedup := "speedup".

Definition codePolicyDeniedGasCap := "policy.denied.gas_cap".

(** policyKind *)
Inductive policyKind := policyKindDefault | policyKindApprove.

Record Intent := mkIntent {
  in_chainID : Z;
  in_network : string;
  in_rpc : string;
  in_from : Address;
  in_ref : AccountRef;
  in_dest : Dest;
  in_to : Address;
  in_value : Z;
  in_data : string;
  in_policyDest : Address;
  in_policyKind : policyKind;
  in_tokenAmt : option Z;
  in_unlimited : bool;
  in_acked : bool;
  in_kind : string;
  in_asset : Asset;
  in_assetSymbol : string;
  in_gas : Quote;
  in_nonce : option Z;
  in_replaces : option string;
  in_isContractSend : bool;
  in_source : string;
}.

Definition with_gas (i : Intent) (q : Quote) : Intent :=
  mkIntent (in_chainID i) (in_network i) (in_rpc i) (in_from i) (in_ref i) (in_dest i) (in_to i) (in_value i)
    (in_data i) (in_policyDest i) (in_policyKind i) (in_tokenAmt i) (in_unlimited i) (in_acked i) (in_kind i)
    (in_asset i) (in_assetSymbol i) q (in_nonce i) (in_replaces i) (in_isContractSend i) (in_source i).

(** ** The check *)

Section Check.
Context {UT : UnicodeTables} {GC : GethCommon}.

Definition checkDest (i : Intent) : Address := if in_policyDest i =? 0 then in_to i else in_policyDest i.

Definition isTokenOp (i : Intent) : bool :=
  match in_policyKind i with
  | policyKindApprove => true
  | policyKindDefault =>
      if (String.length (in_data i) =? 0)%nat then false
      else existsb (λ k, bool_decide (in_kind i = k)) [KindERC20Transfer; KindERC721Transfer; KindERC1155Transfer]
  end.

Definition checkAsset (i : Intent) : string := if isTokenOp i then ToLower (Hex (in_to i)) else "eth".
Definition tokenTag (i : Intent) : string := if isTokenOp i then ToLower (Hex (in_to i)) else "".
Definition policyCheckKind (i : Intent) : string :=
  match in_policyKind i with policyKindApprove => "approve" | policyKindDefault => in_kind i end.

Definition worst_case (q : Quote) : Z := default 0 (q_WorstCaseGasWei q).

(** the literal of authorize, under the nonce of the lease *)
Definition authorize_check (i : Intent) (nonce : Z) : Check := {|
  c_Account := in_from i; c_Dest := checkDest i; c_SpendWei := Some (in_value i);
  c_MaxGasWei := Some (worst_case (in_gas i)); c_MaxFeePerGas := perGasPrice (in_gas i);
  c_Kind := policyCheckKind i; c_IsRBFDelta := bool_decide (is_Some (in_replaces i)); c_Network := in_network i;
  c_Token := tokenTag i; c_Asset := checkAsset i; c_TokenAmt := in_tokenAmt i; c_Unlimited := in_unlimited i;
  c_Acked := in_acked i; c_AccountNonce := Some nonce;
  c_KindEnum := KindUnknown; c_ToSrc := SourceRawAddress; c_ToInput := ""; c_ENSName := ""; c_ENSResolved := 0;
  c_TypedUnknown := false; c_TypedPrimary := ""; c_TypedVerifying := ""; c_TypedChainID := 0;
  c_UnknownCalldata := false; c_ContractAddr := 0; c_Selector := "" |}.

(** the literal of dryRun, with the nonce the intent pins, if any *)
Definition dryRun_check (i : Intent) : Check := {|
  c_Account := in_from i; c_Dest := checkDest i; c_SpendWei := Some (in_value i);
  c_MaxGasWei := Some (worst_case (in_gas i)); c_MaxFeePerGas := perGasPrice (in_gas i);
  c_Kind := policyCheckKind i; c_IsRBFDelta := bool_decide (is_Some (in_replaces i)); c_Network := in_network i;
  c_Token := tokenTag i; c_Asset := checkAsset i; c_TokenAmt := in_tokenAmt i; c_Unlimited := in_unlimited i;
  c_Acked := in_acked i; c_AccountNonce := in_nonce i;
  c_KindEnum := KindUnknown; c_ToSrc := SourceRawAddress; c_ToInput := ""; c_ENSName := ""; c_ENSResolved := 0;
  c_TypedUnknown := false; c_TypedPrimary := ""; c_TypedVerifying := ""; c_TypedChainID := 0;
  c_UnknownCalldata := false; c_ContractAddr := 0; c_Selector := "" |}.

(** the provenance fields of a check *)
Definition with_provenance (c : Check) (dest : Address) (src : ToSource) (input ens : string) (resolved : Address)
  : Check := {|
  c_Account := c_Account c; c_Dest := dest; c_SpendWei := c_SpendWei c; c_MaxGasWei := c_MaxGasWei c;
  c_MaxFeePerGas := c_MaxFeePerGas c; c_Kind := c_Kind c; c_Token := c_Token c; c_IsRBFDelta := c_IsRBFDelta c;
  c_Acked := c_Acked c; c_Network := c_Network c; c_KindEnum := c_KindEnum c; c_ToSrc := src; c_ToInput := input;
  c_ENSName := ens; c_ENSResolved := resolved; c_Asset := c_Asset c; c_TokenAmt := c_TokenAmt c;
  c_Unlimited := c_Unlimited c; c_AccountNonce := c_AccountNonce c; c_TypedUnknown := c_TypedUnknown c;
  c_TypedPrimary := c_TypedPrimary c; c_TypedVerifying := c_TypedVerifying c;
  c_TypedChainID := c_TypedChainID c; c_UnknownCalldata := c_UnknownCalldata c;
  c_ContractAddr := c_ContractAddr c; c_Selector := c_Selector c |}.

(** applyDestProvenance; [pin] is s.policy.AllowlistPin *)
Definition applyDestProvenance (pin : string → string → res error (option Address)) (c : Check) (i : Intent)
  : res error Check :=
  let fresh := checkDest i in
  if bool_decide (de_Via (in_dest i) = "ens") then
    let name := de_ENSName (in_dest i) in
    let* p := pin "ens" name in
    Ok (with_provenance c (default fresh p) SourceENS name name fresh)
  else if bool_decide (de_Via (in_dest i) = "contact") then
    let name := de_Name (in_dest i) in
    let* p := pin "contact" name in
    Ok (with_provenance c (default fresh p) SourceContact name (c_ENSName c) fresh)
  else Ok (with_provenance c (c_Dest c) SourceRawAddress (c_ToInput c) (c_ENSName c) (c_ENSResolved c)).

(** the check of unrecognized calldata *)
Definition unknown_calldata (c : Check) (to : Address) (selector : string) : Check := {|
  c_Account := c_Account c; c_Dest := to; c_SpendWei := c_SpendWei c; c_MaxGasWei := c_MaxGasWei c;
  c_MaxFeePerGas := c_MaxFeePerGas c; c_Kind := c_Kind c; c_Token := c_Token c; c_IsRBFDelta := c_IsRBFDelta c;
  c_Acked := c_Acked c; c_Network := c_Network c; c_KindEnum := c_KindEnum c; c_ToSrc := SourceRawAddress;
  c_ToInput := c_ToInput c; c_ENSName := c_ENSName c; c_ENSResolved := c_ENSResolved c; c_Asset := c_Asset c;
  c_TokenAmt := c_TokenAmt c; c_Unlimited := c_Unlimited c; c_AccountNonce := c_AccountNonce c;
  c_TypedUnknown := c_TypedUnknown c; c_TypedPrimary := c_TypedPrimary c;
  c_TypedVerifying := c_TypedVerifying c; c_TypedChainID := c_TypedChainID c; c_UnknownCalldata := true;
  c_ContractAddr := to; c_Selector := selector |}.

(** classifyContractSend: the check and the verdict shown by a dry run *)
Definition classifyContractSend (i : Intent) (c : Check) : Check * option Classification :=
  if negb (in_isContractSend i) then (c, None)
  else
    let contract := ToLower (Hex (in_to i)) in
    match ClassifyCalldata (in_to i) (in_data i) (Some (in_value i)) with
    | Some cc =>
        let dest := ToLower (Hex (c_Dest cc)) in
        (classified c (c_Kind cc) (c_KindEnum cc) (c_Dest cc) (c_Token cc) (c_TokenAmt cc) (c_Unlimited cc),
         Some {| cl_ClassifiedAs := c_Kind cc;
                 cl_Spender := match c_KindEnum cc with KindApprove => dest | _ => "" end;
                 cl_Recipient := match c_KindEnum cc with KindTransfer => dest | _ => "" end;
                 cl_Unlimited := c_Unlimited cc; cl_Selector := ""; cl_Contract := contract |})
    | None =>
        let c := unknown_calldata c (in_to i) (SelectorHex (in_data i)) in
        (c, Some {| cl_ClassifiedAs := "unknown"; cl_Spender := ""; cl_Recipient := ""; cl_Unlimited := false;
                    cl_Selector := c_Selector c; cl_Contract := contract |})
    end.

(** the check authorize reserves under *)
Definition intent_check (pin : string → string → res error (option Address)) (i : Intent) (nonce : Z)
  : res error (Check * option Classification) :=
  let* c := applyDestProvenance pin (authorize_check i nonce) i in Ok (classifyContractSend i c).

(** the check dryRun evaluates *)
Definition dry_check (pin : string → string → res error (option Address)) (i : Intent)
  : res error (Check * option Classification) :=
  let* c := applyDestProvenance pin (dryRun_check i) i in Ok (classifyContractSend i c).

(** overlayBaseFee *)
Definition overlayBaseFee (e : error) (baseFee : option Z) : error :=
  match baseFee with
  | None => e
  | Some b =>
      if bool_decide (e_Code e = codePolicyDeniedGasCap)
      then WithData e {["current_base_fee" := DVal (DStr (z_string b))]} else e
  end.

(** ** The transaction and its record *)

Definition buildTx (i : Intent) (nonce : Z) : UnsignedTx :=
  let q := in_gas i in
  if q_Legacy q then LegacyTx nonce (q_GasPrice q) (q_GasLimit q) (in_to i) (in_value i) (in_data i)
  else DynamicFeeTx (in_chainID i) nonce (q_PriorityFee q) (q_MaxFeePerGas q) (q_GasLimit q) (in_to i) (in_value i)
         (in_data i).

Definition feesRecord (q : Quote) : Fees := {|
  fe_Type := if q_Legacy q then "legacy" else "eip1559"; fe_GasLimit := q_GasLimit q;
  fe_MaxFeePerGas := if q_Legacy q then None else z_string <$> q_MaxFeePerGas q;
  fe_MaxPriorityPerGas := if q_Legacy q then None else z_string <$> q_PriorityFee q;
  fe_GasPrice := if q_Legacy q then z_string <$> q_GasPrice q else None;
  fe_Speed := q_Speed q |}.

Definition signedRecord (i : Intent) (nonce : Z) (hash : Hash) (raw reservationID : string) (worst : Z) : JRecord := {|
  j_V := 1; j_ID := ""; j_Seq := 0; j_TS := ""; j_ChainID := wrap64 (in_chainID i); j_Network := in_network i;
  j_Kind := in_kind i; j_Status := StatusSigned; j_Source := in_source i; j_From := Hex (in_from i);
  j_To := Hex (in_to i); j_Nonce := nonce; j_TxHash := HashHex hash; j_RawTx := hexBytes raw;
  j_ValueWei := z_string (in_value i); j_Asset := in_asset i; j_Fees := feesRecord (in_gas i);
  j_ReservationID := reservationID; j_WorstCaseGasWei := z_string worst; j_Replaces := in_replaces i;
  j_ReplacedBy := None; j_Receipt := None; j_Error := None; j_RPC := in_rpc i |}.

(** parseEthAmount *)
Definition parseEthAmount (s : string) : res error Z :=
  let s := TrimSpace s in
  if bool_decide (s = "") then Ok 0
  else
    let '(value, unit) := SplitAmountUnit s in
    let* u := if bool_decide (unit = "") then Ok Eth
              else match ParseUnit unit with
                   | Ok u => Ok u
                   | Err _ => Err (New "usage.bad_amount"
                       ("invalid amount unit in " +:+ go_quote s +:+ " (want eth|gwei|wei)"))
                   end in
    match ParseAmount value u with
    | Ok wei => Ok wei
    | Err _ => Err (New "usage.bad_amount" ("invalid amount " +:+ s))
    end.

(** ** The answers of the node *)

Inductive broadcastOutcome := outcomeAccepted | outcomeTransportExhausted | outcomeRejected | outcomeNonceTooLow.

#[export] Instance broadcastOutcome_eq_dec : EqDecision broadcastOutcome.
Proof. solve_decision. Defined.

(** classifyBroadcastErr: the outcome, the mapped error, and whether to retry *)
Definition classifyBroadcastErr (e : GoError) : broadcastOutcome * option error * bool :=
  let msg := ToLower (ge_Text e) in
  if containsAny msg ["already known"; "already exists"; "transaction already in pool"; "alreadyknown"]
  then (outcomeAccepted, None, false)
  else if containsAny msg ["nonce too low"; "nonce is too low"; "oldnonce"]
  then (outcomeNonceTooLow, Some (New CodeTxReplaced ("nonce already consumed (replaced): " +:+ ge_Text e)), false)
  else if containsAny msg ["replacement transaction underpriced"; "replacement underpriced"]
  then (outcomeRejected, Some (New CodeTxReplacementUnderpriced ("replacement underpriced: " +:+ ge_Text e)), false)
  else if containsAny msg ["insufficient funds"]
  then (outcomeRejected, Some (New CodeFundsInsufficient ("insufficient funds: " +:+ ge_Text e)), false)
  else if containsAny msg ["transaction underpriced"; "fee too low"; "max fee per gas less than block base fee"]
  then (outcomeRejected, Some (New CodeTxReplacementUnderpriced ("transaction underpriced: " +:+ ge_Text e)), false)
  else (outcomeTransportExhausted, Some (mapRPCErr e), true).

(** overlayDestProvenance *)
Definition overlayDestProvenance (fromRecord mem : Dest) : Dest :=
  if bool_decide (de_Via mem = "") && bool_decide (de_Name mem = "") && bool_decide (de_ENSName mem = "")
  then fromRecord
  else if negb (de_Address fromRecord =? de_Address mem) then fromRecord
  else mkDest (de_Address fromRecord) (de_Name mem) (de_Via mem) (de_ENSName mem).

Definition res_to (r : TxResult) (d : Dest) : TxResult :=
  mkTxResult (tr_Hash r) (tr_Network r) (tr_From r) d (tr_Asset r) (tr_AmountWei r) (tr_Nonce r) (tr_Gas r)
    (tr_Status r) (tr_Confirmations r) (tr_BlockNumber r) (tr_JournalID r) (tr_Resume r) (tr_Replaced r)
    (tr_DryRun r) (tr_Classification r).
End Check.

(** authorized *)
Record authorized := mkAuthorized {
  au_raw : string;
  au_hash : Hash;
  au_nonce : Z;
  au_chainID : Z;
  au_from : Address;
  au_journalID : string;
  au_reservation : string;
  au_lease : Lease;
}.

Definition with_lease (a : authorized) (l : Lease) : authorized :=
  mkAuthorized (au_raw a) (au_hash a) (au_nonce a) (au_chainID a) (au_from a) (au_journalID a) (au_reservation a) l.

Definition second : Z := 1000000000.
Definition backoffs : list Z := [0; 1 * second; 2 * second; 4 * second].

Definition errAbortIncomplete : string := "send did not complete; reservation released and nonce freed".

Section Send.
Context {N : Type} {UT : UnicodeTables} {GC : GethCommon} {RC : LineCodec Reservation} {JC : LineCodec JRecord}
        {MO : MapOrder} {SC : SealCrypto} {EV : Environment N} {IC : Int64Conv}.
Variables (accounts : option (string → list Address)) (anchor : option Anchor) (cfg : TxConfig).

Local Notation SM := (@SM N).

(** the engine's pin lookup on the policy file as it is now *)
Definition pins : SM (string → string → res error (option Address)) :=
  w <-- mget ;; mret (AllowlistPin (sw_policy w) anchor).

(** ** Pricing (gas.go), asking the node as needed *)

Definition ask_limit (i : Intent) (req : GasReq) : SM Z :=
  let mult := gp_limitMultiplier (gasParamsFor (tc_Gas cfg) (in_network i) (gr_Legacy req)) in
  if negb (bool_decide (gr_GasLimit req = "")) then mlift (resolveGasLimit req mult (in_data i) (Ok 0))
  else est <-- ask (cc_EstimateGas (mkCallMsg (in_from i) (in_to i) (in_value i) (in_data i))) ;;
       mlift (resolveGasLimit req mult (in_data i) est).

Definition previewGas (i : Intent) (req : GasReq) : SM Intent :=
  let gp := gasParamsFor (tc_Gas cfg) (in_network i) (gr_Legacy req) in
  let speed := parseSpeed (gr_Speed req) (gp_defaultSpeed gp) in
  limit <-- ask_limit i req ;;
  (if gp_legacy gp
   then if negb (bool_decide (gr_MaxFee req = "")) || negb (bool_decide (gr_PriorityFee req = ""))
           || negb (bool_decide (gr_GasPrice req = ""))
        then q <-- mlift (buildLegacyFees req speed limit (Ok None)) ;; mret (with_gas i q)
        else price <-- ask cc_SuggestGasPrice ;;
             q <-- mlift (buildLegacyFees req speed limit price) ;; mret (with_gas i q)
   else if negb (bool_decide (gr_GasPrice req = ""))
        then q <-- mlift (build1559Fees req gp speed limit (Ok (mkChainFees None None None None ""))) ;;
             mret (with_gas i q)
        else fees <-- ask (cc_SuggestFees (gp_feeHistoryBlocks gp)) ;;
             q <-- mlift (build1559Fees req gp speed limit fees) ;; mret (with_gas i q)).

(** ** Authorize *)

Definition txResult (i : Intent) (a : authorized) (st : string) : TxResult :=
  mkTxResult (HashHex (au_hash a)) (in_network i) (in_from i) (in_dest i) (wireAsset (in_asset i) (in_assetSymbol i))
    (z_string (in_value i)) (au_nonce a) (quote_result (in_gas i)) st 0 None (au_journalID a) "" "" false None.

(** sign and journal a reserved intent; a failure gives the reservation back *)
Definition sign_and_journal (i : Intent) (nonce : Z) (rid : string) : SM (string * Hash * JRecord) :=
  s <-- ask (SignTx (in_ref i) (buildTx i nonce) (in_chainID i)) ;;
  match s with
  | Err e => mtry (policy_Release rid) ;;; mfail e
  | Ok (raw, hash) =>
      r <-- mres (journal_Append (signedRecord i nonce hash raw rid (worst_case (in_gas i)))) ;;
      match r with
      | Err e => mtry (policy_Release rid) ;;; mfail e
      | Ok rec => mret (raw, hash, rec)
      end
  end.

(** authorize.  Release of an unfinished lease writes nothing, so the failures
    that release it return the error alone. *)
Definition authorize (i : Intent) : SM authorized :=
  let chainID := wrap64 (in_chainID i) in
  resurrectUnresolved accounts anchor chainID ;;;
  chainPending <-- ask_rpc (cc_Nonce (in_from i) true) ;;
  l <-- nonces chainID (in_from i) (λ io, AcquireNonce io (in_from i) chainPending (in_nonce i)) ;;
  let lease := fst l in
  let nonce := l_nonce lease in
  pin <-- pins ;;
  c <-- mlift (intent_check pin i nonce) ;;
  reservation <-- mres (policy_Reserve accounts anchor (fst c)) ;;
  match reservation with
  | Err e => mfail (overlayBaseFee e (q_BaseFee (in_gas i)))
  | Ok reservation =>
      let rid := reservation_id reservation in
      s <-- sign_and_journal i nonce rid ;;
      let '(raw, hash, rec) := s in
      mret (mkAuthorized raw hash nonce chainID (in_from i) (j_ID rec) rid lease)
  end.

(** ** Broadcast *)

(** the attempts that are left, with the last error *)
Fixpoint broadcast_loop (ds : list Z) (raw : string) (lastErr : GoError) : SM (broadcastOutcome * option error) :=
  match ds with
  | [] => mret (outcomeTransportExhausted,
                Some (New CodeRPCUnreachable ("broadcast unconfirmed after retries: " +:+ ge_Text lastErr)))
  | d :: ds =>
      s <-- (if 0 <? d then ask (sleep d) else mret None) ;;
      match s with
      | Some e => mret (outcomeTransportExhausted, Some (mapRPCErr e))
      | None =>
          r <-- send_raw raw ;;
          match r with
          | Ok _ => mret (outcomeAccepted, None)
          | Err e =>
              let '(outcome, mapped, retry) := classifyBroadcastErr e in
              if negb retry then mret (outcome, mapped) else broadcast_loop ds raw e
          end
      end
  end.

Definition broadcast (a : authorized) : SM (broadcastOutcome * option error) :=
  broadcast_loop backoffs (au_raw a) (mkGoError "" None false).

(** ** Settle and abort *)

Definition lease_Commit (a : authorized) : SM () :=
  nonces (au_chainID a) (au_from a) (λ io, Nonce.Commit io (au_lease a)).

(** the journal status of a wire status *)
Definition settled_status (st : string) : string :=
  if bool_decide (st = TxStatusConfirmed) then StatusConfirmed
  else if bool_decide (st = TxStatusReverted) then StatusReverted else StatusBroadcast.

(** the writes of settle before the lease *)
Definition settle_stores (a : authorized) (st : string) (gasWei : option Z) : SM () :=
  journal_SetState (au_chainID a) (au_journalID a)
    (mkMutation (settled_status st) (Some (HashHex (au_hash a))) None None None None None) ;;;
  policy_Commit (au_reservation a) (au_hash a) ;;;
  if bool_decide (st = TxStatusConfirmed)
  then match gasWei with
       | Some _ => mtry (policy_SettleActual (au_reservation a) gasWei false) ;;; mret tt
       | None => mret tt
       end
  else if bool_decide (st = TxStatusReverted)
  then mtry (policy_SettleActual (au_reservation a) gasWei true) ;;; mret tt
  else mret tt.

(** settle, and the lease as it leaves it *)
Definition settle (a : authorized) (st : string) (gasWei : option Z) : SM (Lease * option error) :=
  s <-- mtry (settle_stores a st gasWei) ;;
  match s with
  | Some e => mret (au_lease a, Some e)
  | None => e <-- mtry (lease_Commit a) ;; mret (finish (au_lease a), e)
  end.

(** the status abort acts on: a record that cannot be read counts as signed *)
Definition abort_status (a : authorized) : SM string :=
  if bool_decide (au_journalID a = "") then mret StatusSigned
  else r <-- mres (journal (au_chainID a) (λ io _, ByID io (au_journalID a))) ;;
       mret (match r with Ok rec => j_Status rec | Err _ => StatusSigned end).

(** abort; the deferred call drops its error *)
Definition abort (a : authorized) : SM () :=
  st <-- abort_status a ;;
  if negb (bool_decide (st = StatusSigned)) && negb (bool_decide (st = StatusFailed))
  then mtry (lease_Commit a) ;;; mret tt
  else
    (if negb (bool_decide (au_journalID a = "")) && bool_decide (st = StatusSigned)
     then mtry (journal_SetState (au_chainID a) (au_journalID a)
                  (mkMutation StatusFailed None None None None (Some errAbortIncomplete) None)) ;;; mret tt
     else mret tt) ;;;
    (if negb (bool_decide (au_reservation a = ""))
     then mtry (policy_Release (au_reservation a)) ;;; mret tt else mret tt).

(** ** Run *)

(** settle or abort; no error means that the send goes on to its result *)
Definition settle_or_abort (a : authorized) (st : string) (gasWei : option Z) : SM (option error) :=
  s <-- settle a st gasWei ;;
  match s.2 with
  | Some e => abort (with_lease a s.1) ;;; mret (Some e)
  | None => mret None
  end.

(** what follows the broadcast: an outcome, or nothing when the send goes on *)
Definition conclude (i : Intent) (a : authorized) (o : broadcastOutcome) (berr : option error)
  : SM (option Outcome) :=
  match o with
  | outcomeAccepted =>
      e <-- settle_or_abort a TxStatusPending None ;; mret (failed_with <$> e)
  | outcomeTransportExhausted =>
      mtry (lease_Commit a) ;;; mret (Some (txResult i a TxStatusPending, berr))
  | outcomeNonceTooLow =>
      rcpt <-- mres (receipt_of (au_hash a)) ;;
      match rcpt with
      | Err rerr =>
          c <-- mtry (lease_Commit a) ;;
          match c with
          | Some cerr => abort (with_lease a (finish (au_lease a))) ;;; mret (Some (failed_with cerr))
          | None => mret (Some (failed_with rerr))
          end
      | Ok (Some rcpt) =>
          let reverted := cr_Status rcpt =? 0 in
          let st := if reverted then TxStatusReverted else TxStatusPending in
          e <-- settle_or_abort a st (if reverted then Some (actualGas (Some rcpt)) else None) ;;
          match e with
          | Some e => mret (Some (failed_with e))
          | None =>
              mret (if reverted
                    then Some (txResult i a st, Some (New CodeTxReverted "transaction reverted on-chain"))
                    else None)
          end
      | Ok None => abort a ;;; mret (Some (no_result, berr))
      end
  | outcomeRejected => abort a ;;; mret (Some (no_result, berr))
  end.

(** the send up to its result *)
Definition runSend_core (i : Intent) : SM (option Outcome * option authorized) :=
  ra <-- mres (authorize i) ;;
  match ra with
  | Err e => mret (Some (failed_with e), None)
  | Ok a =>
      b <-- broadcast a ;;
      o <-- conclude i a (fst b) (snd b) ;;
      mret (o, Some a)
  end.

Definition runSend (rounds : nat) (i : Intent) (wait : WaitOpts) : SM (option Outcome) :=
  c <-- runSend_core i ;;
  match c with
  | (Some o, _) => mret (Some o)
  | (None, Some a) =>
      if wo_Enabled wait
      then w <-- waitOnHash accounts anchor cfg rounds (in_network i) (au_hash a) (in_chainID i) wait ;;
           mret ((λ o : Outcome, (res_to o.1 (overlayDestProvenance (tr_To o.1) (in_dest i)), o.2)) <$> w)
      else mret (Some (txResult i a TxStatusPending, None))
  | (None, None) => mret None
  end.

(** ** Dry run *)

Definition denied_dry_run (dec : Decision) (baseFee : option Z) : error :=
  let code := if bool_decide (d_Code dec = "") then codeDenied else d_Code dec in
  let de := New code (d_Reason dec) in
  let de := match d_Data dec with Some m => WithData de m | None => de end in
  let de := if bool_decide (d_RetryAfter dec = "") then de
            else WithData de {["retry_after" := DVal (DStr (d_RetryAfter dec))]} in
  overlayBaseFee de baseFee.

Definition dryRun (i : Intent) : SM Outcome :=
  pin <-- pins ;;
  match dry_check pin i with
  | Err e => mret (failed_with e)
  | Ok (c, cls) =>
      d <-- mres (policy_Evaluate accounts anchor c) ;;
      match d with
      | Err e => mret (failed_with e)
      | Ok dec =>
          if negb (d_Allowed dec) then mret (failed_with (denied_dry_run dec (q_BaseFee (in_gas i))))
          else mret (mkTxResult "" (in_network i) (in_from i) (in_dest i) (wireAsset (in_asset i) (in_assetSymbol i))
                       (z_string (in_value i)) 0 (quote_result (in_gas i)) TxStatusPending 0 None "" "" "" true cls,
                     None)
      end
  end.

(** SendTx on a resolved intent; [unlock] is the error of acquiring the passphrase *)
Definition SendTx (rounds : nat) (i : Intent) (req : GasReq) (dry : bool) (unlock : option error) (wait : WaitOpts)
  : SM (option Outcome) :=
  g <-- mres (previewGas i req) ;;
  match g with
  | Err e => mret (Some (failed_with e))
  | Ok i =>
      if dry then o <-- dryRun i ;; mret (Some o)
      else match unlock with
           | Some e => mret (Some (failed_with e))
           | None => runSend rounds i wait
           end
  end.
End Send.
