(* ===== verification/TokenSend.v ===== *)
(** * Intents: tokens, approvals, NFTs, contracts, replacements

    The end of [resolveIntent] ([internal/service/tx.go]), of
    [resolveApproveIntent] ([approve.go]), of [resolveNFTSendIntent] ([nft.go])
    and of [resolveContractSendIntent] ([contract.go]): the intent of a request
    whose account, destination and asset are resolved.  Then speedup, cancel
    ([rbf.go]) and [AbandonTx] ([reconcile.go]): a replacement is a send with the
    nonce of the record it replaces; the fee bump itself is in [Gas]. *)

From S2P Require Import Prelude GoStrings Decimal HexBytes Ethunit Encodings PolicyTypes Seal Domain PolicyFile Trace Evaluate Counter Reservation Engine PolicyAdmin Calldata Gas Journal Nonce Service TxStatus Send.

(** ** Intents of tokens, approvals, NFTs and contracts

    The end of [resolveIntent] ([internal/service/tx.go]), of
    [resolveApproveIntent] ([approve.go]), of [resolveNFTSendIntent] ([nft.go])
    and of [resolveContractSendIntent] ([contract.go]): the intent of a request
    whose account, destination and asset are resolved. *)

Local Open Scope string_scope.
Local Open Scope Z_scope.
Local Open Scope list_scope.
Local Open Scope go_scope.

Definition KindApproveTx := "approve".
Definition KindContractCall := "contract-call".
Definition KindERC721 := "erc721".
Definition KindERC1155 := "erc1155".

(** what every request resolves before its asset: chain, sender and source *)
Record Origin := mkOrigin {
  og_chainID : Z;
  og_network : string;
  og_rpc : string;
  og_from : Address;
  og_ref : AccountRef;
  og_nonce : option Z;
  og_source : string;
}.

(** resolvedAsset *)
Record resolvedAsset := mkResolvedAsset { rs_contract : Address; rs_decimals : Z; rs_alias : string; rs_symbol : string }.

(** resolvedNFT *)
Record resolvedNFT := mkResolvedNFT { rn_collection : Address; rn_alias : string; rn_tokenID : string; rn_kind : string }.

Definition no_quote : Quote := mkQuote false 0 None None None None "" "" None.

Definition ErrNotNFT : error := New "usage.not_nft" "address is not an ERC-721 or ERC-1155 contract (ERC-165 check failed)".

Section TokenSend.
Context {UT : UnicodeTables} {GC : GethCommon} {KC : Keccak}.

(** the intent of a plain transfer (tx.go) *)
Definition ethIntent (o : Origin) (dest : Dest) (amount : string) : res error Intent :=
  let* value := parseEthAmount amount in
  Ok (mkIntent (og_chainID o) (og_network o) (og_rpc o) (og_from o) (og_ref o) dest (de_Address dest) value "" 0
        policyKindDefault None false false KindETHTransfer
        (mkAsset "eth" None "" None (Some (z_string value)) None) "" no_quote (og_nonce o) None false (og_source o)).

Definition bad_amount (amount : string) : error := New "usage.bad_amount" ("invalid --amount " +:+ amount).

(** the journaled asset of a token *)
Definition token_asset (ra : resolvedAsset) (amount : Z) : Asset :=
  mkAsset "erc20" (Some (ToLower (Hex (rs_contract ra)))) (rs_alias ra) (Some (rs_decimals ra)) (Some (z_string amount)) None.

(** the intent of a token transfer (tx.go) *)
Definition tokenIntent (o : Origin) (dest : Dest) (ra : resolvedAsset) (amount : string) : res error Intent :=
  match ParseTokenAmount (TrimSpace amount) (rs_decimals ra) with
  | Err _ => Err (bad_amount amount)
  | Ok n =>
      Ok (mkIntent (og_chainID o) (og_network o) (og_rpc o) (og_from o) (og_ref o) dest (rs_contract ra) 0
            (TransferCalldata (de_Address dest) (Some n)) (de_Address dest) policyKindDefault (Some n) false false
            KindERC20Transfer (token_asset ra n) (rs_symbol ra) no_quote (og_nonce o) None false (og_source o))
  end.

(** approveAmount *)
Definition approveAmount (amount : string) (unlimited revoke : bool) (decimals : Z) : res error (Z * bool) :=
  if revoke then Ok (0, false)
  else if unlimited then
    if negb (bool_decide (TrimSpace amount = ""))
    then Err (New "usage.bad_amount" "--unlimited and --amount are mutually exclusive")
    else Ok (MaxUint256, true)
  else if bool_decide (TrimSpace amount = "")
  then Err (New "usage.missing_amount" "--amount is required (or use --unlimited)")
  else match ParseTokenAmount (TrimSpace amount) decimals with
       | Err _ => Err (bad_amount amount)
       | Ok n => Ok (n, IsUnlimitedAmount (Some n))
       end.

(** the intent of an approval or a revocation (approve.go) *)
Definition approveIntent (o : Origin) (spender : Dest) (ra : resolvedAsset) (amount : string)
           (unlimited revoke ack : bool) : res error Intent :=
  let* p := approveAmount amount unlimited revoke (rs_decimals ra) in
  let '(n, unl) := p in
  Ok (mkIntent (og_chainID o) (og_network o) (og_rpc o) (og_from o) (og_ref o) spender (rs_contract ra) 0
        (ApproveCalldata (de_Address spender) (Some n)) (de_Address spender) policyKindApprove (Some n) unl ack
        KindApproveTx (token_asset ra n) "" no_quote None None false (og_source o)).

(** nftSendAmount: the calldata amount, the quantity shown and the kind *)
Definition nftSendAmount (kind amount : string) : res error (option Z * string * string) :=
  let amount := TrimSpace amount in
  if bool_decide (kind = KindERC721) then
    if negb (bool_decide (amount = "")) && negb (bool_decide (amount = "1"))
    then Err (New "usage.bad_amount"
           ("--amount " +:+ go_quote amount +:+
            " is invalid for an ERC-721 (a 721 transfers exactly one token; omit --amount or pass 1)"))
    else Ok (None, "1", KindERC721)
  else if bool_decide (kind = KindERC1155) then
    let amount := if bool_decide (amount = "") then "1" else amount in
    let bad := Err (New "usage.bad_amount"
      ("--amount " +:+ go_quote amount +:+ " is not a positive integer quantity (ERC-1155 amounts are raw unit counts)")) in
    match SetString amount 10 with
    | Some qty => if qty <=? 0 then bad else Ok (Some qty, z_string qty, KindERC1155)
    | None => bad
    end
  else Err ErrNotNFT.

(** the intent of an NFT transfer (nft.go) *)
Definition nftIntent (o : Origin) (dest : Dest) (rn : resolvedNFT) (amount : string) : res error Intent :=
  match SetString (rn_tokenID rn) 10 with
  | None => Err (New "usage.bad_token_id"
              ("token id " +:+ go_quote (rn_tokenID rn) +:+ " is not a non-negative decimal integer"))
  | Some tokenID =>
      let* p := nftSendAmount (rn_kind rn) amount in
      let '(qty, qtyStr, kind) := p in
      let is1155 := bool_decide (kind = KindERC1155) in
      Ok (mkIntent (og_chainID o) (og_network o) (og_rpc o) (og_from o) (og_ref o) dest (rn_collection rn) 0
            (SafeTransferFromCalldata (og_from o) (de_Address dest) (Some tokenID) qty) (de_Address dest)
            policyKindDefault None false false (if is1155 then KindERC1155Transfer else KindERC721Transfer)
            (mkAsset kind (Some (ToLower (Hex (rn_collection rn)))) (rn_alias rn) None
               (if is1155 then Some qtyStr else None) (Some (rn_tokenID rn)))
            "" no_quote (og_nonce o) None false (og_source o))
  end.

(** the intent of packed calldata sent to a contract (contract.go) *)
Definition contractIntent (o : Origin) (dest : Dest) (data value : string) (ack : bool) : res error Intent :=
  let* value := parseEthAmount value in
  Ok (mkIntent (og_chainID o) (og_network o) (og_rpc o) (og_from o) (og_ref o) dest (de_Address dest) value data 0
        policyKindDefault None false ack KindContractCall
        (mkAsset "contract" None "" None (Some (z_string value)) None) "" no_quote (og_nonce o) None true (og_source o)).
End TokenSend.

(** ** Replacing and abandoning: [internal/service/rbf.go], [AbandonTx] of [reconcile.go]

    A speedup or a cancel is a send with the nonce of the record it replaces.
    The fee bump itself is in [Gas]. *)

Local Open Scope string_scope.
Local Open Scope Z_scope.
Local Open Scope list_scope.
Local Open Scope go_scope.

(** replaceArgs, with the selected network name resolved *)
Record replaceArgs := mkReplace {
  ra_hash : string;
  ra_network : string;
  ra_rpc : string;
  ra_gas : GasReq;
  ra_wait : WaitOpts;
  ra_isCancel : bool;
}.

(** the fees of a record *)
Definition old_fees (r : JRecord) : OldFees :=
  mkOldFees (bool_decide (fe_Type (j_Fees r) = "legacy")) (fe_GasLimit (j_Fees r)) (fe_MaxFeePerGas (j_Fees r))
    (fe_MaxPriorityPerGas (j_Fees r)) (fe_GasPrice (j_Fees r)).

Section Rbf.
Context {N : Type} {UT : UnicodeTables} {GC : GethCommon} {RC : LineCodec Reservation} {JC : LineCodec JRecord}
        {MO : MapOrder} {SC : SealCrypto} {EV : Environment N} {IC : Int64Conv}.
Variables (accounts : option (string → list Address)) (anchor : option Anchor) (cfg : TxConfig).
(** the keystore reference of an address (refForAddress) *)
Variable refForAddress : Address → AccountRef.

Local Notation SM := (@SM N).

(** the replies bumpedQuote asks for: the fee history, or the legacy gas price *)
Definition ask_bump (orig : JRecord) (a : replaceArgs) : SM Quote :=
  let gp := gasParamsFor (tc_Gas cfg) (ra_network a) (of_Legacy (old_fees orig)) in
  if gp_legacy gp
  then price <-- ask cc_SuggestGasPrice ;;
       mlift (bumpedQuote (tc_Gas cfg) (ra_network a) (old_fees orig) (ra_isCancel a) (ra_gas a)
                (Ok (mkChainFees None None None None "")) price)
  else fees <-- ask (cc_SuggestFees (gp_feeHistoryBlocks gp)) ;;
       mlift (bumpedQuote (tc_Gas cfg) (ra_network a) (old_fees orig) (ra_isCancel a) (ra_gas a) fees (Ok None)).

(** replacementIntent, with its quote *)
Definition replacement (orig : JRecord) (a : replaceArgs) (chainID : Z) (source : string) (q : Quote) : Intent :=
  let from := HexToAddress (j_From orig) in
  let to := if ra_isCancel a then from else HexToAddress (j_To orig) in
  let value := if ra_isCancel a then 0 else bigOrZero (j_ValueWei orig) in
  mkIntent chainID (ra_network a) (ra_rpc a) from (refForAddress from) (mkDest to "" "" "") to value "" 0
    policyKindDefault None false false (if ra_isCancel a then KindCancel else KindSpeedup)
    (mkAsset "eth" None "" None (Some (z_string value)) None) "" q (Some (j_Nonce orig)) (Some (j_TxHash orig))
    false source.

Definition replacementIntent (orig : JRecord) (a : replaceArgs) (chainID : Z) (source : string) : SM Intent :=
  q <-- ask_bump orig a ;; mret (replacement orig a chainID source q).

(** runReplaceSend *)
Definition runReplaceSend (rounds : nat) (i : Intent) (orig : JRecord) (wait : WaitOpts) : SM (option Outcome) :=
  r <-- runSend accounts anchor cfg rounds i (mkWaitOpts false None 0) ;;
  match r with
  | None => mret None
  | Some (out, Some e) => mret (Some (out, Some e))
  | Some (out, None) =>
      mtry (journal_SetState (j_ChainID orig) (j_ID orig)
              (mkMutation (j_Status orig) None None (Some (tr_Hash out)) None None None)) ;;;
      if wo_Enabled wait
      then waitOnHash accounts anchor cfg rounds (in_network i) (HexToHash (tr_Hash out)) (in_chainID i) wait
      else mret (Some (out, None))
  end.

(** replace, on a dialed client of the chain [chainID] *)
Definition replace (rounds : nat) (a : replaceArgs) (chainID : Z) (source : string) (unlock : option error)
  : SM (option Outcome) :=
  match parseHash (ra_hash a) with
  | Err e => mret (Some (failed_with e))
  | Ok hash =>
      rec <-- mres (record_of chainID hash) ;;
      match rec with
      | Err e => mret (Some (failed_with e))
      | Ok None =>
          mret (Some (failed_with (New CodeRefNotFound
            ("no Daxie-originated transaction " +:+ ra_hash a +:+
             " found in the journal (speedup/cancel only work on txs daxie sent)"))))
      | Ok (Some orig) =>
          rcpt <-- mres (receipt_of hash) ;;
          match rcpt with
          | Err e => mret (Some (failed_with e))
          | Ok (Some _) =>
              mret (Some (failed_with (New CodeTxAlreadyMined "transaction already mined; nothing to replace")))
          | Ok None =>
              if IsTerminal (j_Status orig)
              then mret (Some (failed_with (New CodeTxAlreadyMined
                           ("transaction is " +:+ j_Status orig +:+ "; nothing to replace"))))
              else
                i <-- mres (replacementIntent orig a chainID source) ;;
                match i, unlock with
                | Err e, _ => mret (Some (failed_with e))
                | Ok _, Some e => mret (Some (failed_with e))
                | Ok i, None =>
                    o <-- runReplaceSend rounds i orig (ra_wait a) ;;
                    mret ((λ o : Outcome, match o.2 with
                                          | Some _ => o
                                          | None => (res_replaced o.1 (ra_hash a), None)
                                          end) <$> o)
                end
          end
      end
  end.

(** AbandonTx: the identifier of the abandoned record *)
Definition AbandonTx (hash_arg : string) (chainID : Z) : SM string :=
  hash <-- mlift (parseHash hash_arg) ;;
  rec <-- record_of chainID hash ;;
  match rec with
  | None => mfail (New CodeRefNotFound ("no journal record for " +:+ hash_arg))
  | Some rec =>
      if negb (bool_decide (j_Status rec = StatusSigned))
      then mfail (New "usage.not_abandonable"
             ("transaction is " +:+ j_Status rec +:+ "; only a signed-never-broadcast tx can be abandoned"))
      else
        journal_SetState (wrap64 chainID) (j_ID rec)
          (mkMutation StatusFailed None None None None (Some "abandoned by operator") None) ;;;
        (if negb (bool_decide (j_ReservationID rec = ""))
         then mtry (policy_Release (j_ReservationID rec)) ;;; mret tt else mret tt) ;;;
        mtry (nonces (wrap64 chainID) (HexToAddress (j_From rec)) (λ io, ResetCache io (HexToAddress (j_From rec)))) ;;;
        mret (j_ID rec)
  end.
End Rbf.
