(* ===== verification/ServiceSamples.v ===== *)
(** * A sample node and signer

    An outside that answers every question, with a clock that a sleep moves, and
    a send of 5 wei from empty stores, on which the properties of the service
    are evaluated. *)

From S2P Require Import Prelude GoStrings Decimal Rfc3339 Encodings PolicyTypes Seal Domain PolicyFile Trace Evaluate Counter Reservation Engine PolicyAdmin Samples Calldata Gas Journal JournalFacts JournalProps Nonce Service TxStatus Send.

Local Open Scope string_scope.
Local Open Scope Z_scope.
Local Open Scope list_scope.
Local Open Scope go_scope.

#[export] Existing Instance jrecord_codec.
#[export] Existing Instance list_order.
#[export] Existing Instance saturating.

(** the time is the only state; nothing is ever mined *)
Definition sample_env (jio : JIO) : Environment Z := {|
  cc_Nonce := λ _ _ t, (Ok 0, t);
  cc_Receipt := λ _ t, (Ok None, t);
  cc_BlockNumber := λ t, (Ok 100, t);
  cc_EstimateGas := λ _ t, (Ok 21000, t);
  cc_SuggestFees := λ _ t, (Ok sample_fees, t);
  cc_SuggestGasPrice := λ t, (Ok (Some 1), t);
  cc_SendRawTransaction := λ _ t, (Ok 77, t);
  SignTx := λ _ _ _ t, (Ok ("raw", 77), t);
  sleep := λ d t, (None, t + Z.max 0 d);
  clock := λ t, (t, t);
  reservation_ulid := λ t, ("r1", t);
  journal_ulid := λ t, (Ok "j1", t);
  policy_io := λ t, (io_ok, t);
  journal_io := λ t, (jio, t);
  nonce_io := λ t, (nio_ok, t);
|}.

#[export] Instance sample_outside : Environment Z := sample_env jio_ok.

Definition sample_tx_config : TxConfig := mkTxConfig 1000000000 400000000 sample_config ∅.

Definition sample_quote : Quote :=
  mkQuote false 21000 (Some 30) (Some 2) None (Some 10) "normal" "fee-history" (Some 630000).

Definition sample_intent : Intent :=
  mkIntent 1 "main" "" 1 (mkRef "a" 0 "w" 0 "" 1) (mkDest 2 "" "" "") 2 5 "" 0 policyKindDefault None false false
    KindETHTransfer (mkAsset "eth" None "" None (Some "5") None) "" sample_quote None None false "cli".

(** empty stores and no policy *)
Definition empty_world : SWorld Z := mkSWorld None empty_disk ∅ ∅ [] 0.

Definition sample_send : T (SWorld Z) (option Outcome) :=
  SendTx None None sample_tx_config 10 sample_intent no_gas_req false None (mkWaitOpts false None 0).

(** the world after it *)
Definition sent_world : SWorld Z := after empty_world (sample_send empty_world).2.

(** the same send authorized, and the world it is broadcast from *)
Definition sample_authorized : authorized := mkAuthorized "raw" 77 0 1 1 "j1" "r1" (mkLease 0 false).
Definition authorized_world : SWorld Z := after empty_world (authorize None None sample_intent empty_world).2.
Definition authorized_record : JRecord :=
  append_record (signedRecord sample_intent 0 77 "raw" "r1" 630000) "j1" 1 0.

Lemma sample_authorize : (authorize None None sample_intent empty_world).1 = Ok sample_authorized.
Proof. vm_compute. reflexivity. Qed.

Lemma authorized_journal : sw_journals authorized_world !! 1 = Some (unlines (map encode_line [authorized_record])).
Proof. vm_compute. reflexivity. Qed.

Lemma authorized_complete : complete (sw_journals authorized_world !! 1) [authorized_record].
Proof.
  rewrite authorized_journal. right. exists (map encode_line [authorized_record]). split; [done|].
  split; [|by rewrite omap_parse_encoded]. constructor; [apply encode_no_lf|constructor].
Qed.
