(* ===== verification/DryRun.v ===== *)
(** * A dry run predicts the send

    [dryRun] builds its own check, completes it by the provenance of the
    destination and the classification of the call data, and evaluates it;
    [authorize] builds another one, completes it, and reserves under it.  Run
    at the same moment, the two agree, and a denial carries the same error. *)

From S2P Require Import Prelude GoStrings Decimal Rfc3339 Encodings PolicyTypes Seal Domain PolicyFile Trace Evaluate Counter Reservation Engine PolicyAdmin EngineFacts PolicyAdminFacts Samples EngineProps Calldata Gas Journal Nonce Service TxStatus Send ServiceSamples.

Local Open Scope string_scope.
Local Open Scope Z_scope.
Local Open Scope list_scope.
Local Open Scope go_scope.

(** ** Denials speak for themselves *)

Section Denials.
Context {UT : UnicodeTables} {GC : GethCommon}.

(** a code, a reason, and the retry time in the data when there is one *)
Record explained (d : Decision) : Prop := {
  ex_code : d_Code d ≠ "";
  ex_reason : d_Reason d ≠ "";
  ex_data : ∃ m, d_Data d = Some m ∧
                 (d_RetryAfter d ≠ "" → m !! "retry_after" = Some (DVal (DStr (d_RetryAfter d))));
}.

Lemma stage_reasons p lim req k spent now v :
  stageDenylist p req = Some v ∨ stageAllowlist p lim req = Some v ∨ stageNoAllowlist p lim req k = Some v ∨
  stagePinDrift req = Some v ∨ stageTypedData p lim req = Some v ∨ stageUnknownCalldata p lim req = Some v ∨
  stagePerTx lim req k = Some v ∨ stageUnlimited p req k = Some v ∨ stageDaily lim req spent now = Some v ∨
  stageGasCap lim req = Some v → v_Reason v ≠ "".
Proof.
  unfold stageDenylist, stageAllowlist, stageNoAllowlist, stagePinDrift, stageTypedData,
    stageUnknownCalldata, stagePerTx, stageUnlimited, stageDaily, stageGasCap.
  intros [H|[H|[H|[H|[H|[H|[H|[H|[H|H]]]]]]]]]; repeat (case_match; try discriminate); by injection H as <-.
Qed.

Lemma violations_reasons p req spent now v : v ∈ violations p req spent now → v_Reason v ≠ "".
Proof.
  intros H. apply (stage_reasons p (resolveLimits p (c_Network req)) req (effectiveKind req) spent now).
  revert H. unfold violations. rewrite !elem_of_app, !elem_of_option_list.
  destruct (stageDenylist p req) as [u|] eqn:Ed.
  - rewrite list_elem_of_singleton. intros [-> | H]; tauto.
  - rewrite elem_of_app, !elem_of_option_list. tauto.
Qed.

Lemma compose_explained v vs :
  (∀ u, u ∈ v :: vs → v_Code u ≠ "" ∧ v_Reason u ≠ "") → explained (composeDenial v vs).
Proof.
  intros H. destruct (winner_spec v vs) as [Hw _]. destruct (H _ Hw) as [Hc Hr].
  split; [done|done|]. eexists. split; [reflexivity|]. cbn [composeDenial d_RetryAfter].
  intros Hne. apply lookup_union_Some_l. revert Hne. rewrite lookup_fmap.
  destruct (v_Data (winner v vs) !! "retry_after") as [[s|n]|] eqn:E; intros Hne; [|by destruct Hne..].
  exact (f_equal (fmap DVal) E).
Qed.

Lemma Evaluate_explained p req spent now :
  d_Allowed (Evaluate p req spent now) = false → explained (Evaluate p req spent now).
Proof.
  intros Hd. pose proof (Evaluate_denied_code p req spent now Hd) as _. revert Hd. unfold Evaluate.
  destruct (c_TypedUnknown req).
  - destruct (stageTypedData _ _ _) as [v|] eqn:E; [|done]. intros _. apply compose_explained.
    intros u ->%list_elem_of_singleton. split.
    + pose proof (stage_codes p (resolveLimits p (c_Network req)) req (effectiveKind req) spent now v) as Hc.
      by rewrite (proj1 (proj2 (proj2 (proj2 (proj2 Hc)))) E).
    + eapply (stage_reasons p (resolveLimits p (c_Network req)) req (effectiveKind req) spent now). tauto.
  - destruct (violations p req spent now) as [|v vs] eqn:E; [done|]. intros _. apply compose_explained.
    intros u Hu. rewrite <-E in Hu. split; [|by eapply violations_reasons].
    apply violations_codes in Hu. revert Hu. apply (Forall_forall (λ c, c ≠ "") denial_codes).
    by repeat constructor.
Qed.

Lemma refine_explained accounts d dec c now rbf : explained dec → explained (refineRetryAfter accounts d dec c now rbf).
Proof.
  intros H. pose proof H as [H1 H2 H3]. unfold refineRetryAfter.
  destruct (_ || _); [exact H|]. destruct (SetString _ _); [|exact H].
  destruct (collect_window _ _ _ _ _); [|exact H]. cbv zeta.
  destruct (retry_walk _ _ _ _); [|exact H].
  split; [exact H1|exact H2|]. eexists. split; [reflexivity|]. intros _. cbn [d_RetryAfter]. by rewrite lookup_insert_eq.
Qed.

Lemma refine_allowed accounts d dec c now rbf :
  d_Allowed (refineRetryAfter accounts d dec c now rbf) = d_Allowed dec.
Proof.
  unfold refineRetryAfter. destruct (_ || _); [done|]. destruct (SetString _ _); [|done].
  destruct (collect_window _ _ _ _ _); [|done]. cbv zeta. by destruct (retry_walk _ _ _ _).
Qed.

(** the codes the engine marks retryable are retryable by default *)
Lemma retryable_already code msg m :
  code = codeDayLimit ∨ code = codeGasCap → set_retryable (WithData (New code msg) m) = WithData (New code msg) m.
Proof.
  intros H. assert (E : retryableFor code = true) by (destruct H as [-> | ->]; vm_compute; reflexivity).
  unfold set_retryable, WithData, New. cbn [e_Code e_Exit e_Msg e_Retryable e_Data]. by rewrite E.
Qed.

(** the error of the engine and the one of the dry run *)
Lemma same_denial d b : explained d → overlayBaseFee (deniedError d) b = denied_dry_run d b.
Proof.
  intros [Hc Hr (m & Hm & Hra)]. unfold denied_dry_run, deniedError. rewrite (bool_decide_false (d_Code d = "")), (bool_decide_false (d_Reason d = "")) by done.
  rewrite Hm. f_equal.
  set (e := WithData (New (d_Code d) (d_Reason d)) m).
  assert (He : (if bool_decide (d_Code d = codeDayLimit) || bool_decide (d_Code d = codeGasCap)
                then set_retryable e else e) = e).
  { destruct (_ || _) eqn:E; [|done]. apply orb_true_iff in E. rewrite !bool_decide_eq_true in E.
    by apply retryable_already. }
  rewrite He. clear He. case_bool_decide as Hra'; [done|]. unfold e, WithData. cbn [e_Code e_Exit e_Msg e_Retryable e_Data].
  do 2 f_equal. specialize (Hra Hra'). change (e_Data (New (d_Code d) (d_Reason d))) with (@None (gmap string ddval)).
  change (default ∅ (Some (m ∪ default ∅ None))) with (m ∪ default ∅ None). apply map_eq. intros k. rewrite !lookup_union.
  destruct (decide (k = "retry_after")) as [->|Hk].
  - by rewrite lookup_singleton_eq, Hra, !union_Some_l.
  - rewrite lookup_singleton_ne by done. by rewrite (left_id None (∪)).
Qed.
End Denials.

(** ** The two checks *)

Section Checks.
Context {UT : UnicodeTables} {GC : GethCommon}.

Definition with_nonce (c : Check) (n : option Z) : Check := {|
  c_Account := c_Account c; c_Dest := c_Dest c; c_SpendWei := c_SpendWei c; c_MaxGasWei := c_MaxGasWei c;
  c_MaxFeePerGas := c_MaxFeePerGas c; c_Kind := c_Kind c; c_Token := c_Token c; c_IsRBFDelta := c_IsRBFDelta c;
  c_Acked := c_Acked c; c_Network := c_Network c; c_KindEnum := c_KindEnum c; c_ToSrc := c_ToSrc c;
  c_ToInput := c_ToInput c; c_ENSName := c_ENSName c; c_ENSResolved := c_ENSResolved c; c_Asset := c_Asset c;
  c_TokenAmt := c_TokenAmt c; c_Unlimited := c_Unlimited c; c_AccountNonce := n;
  c_TypedUnknown := c_TypedUnknown c; c_TypedPrimary := c_TypedPrimary c; c_TypedVerifying := c_TypedVerifying c;
  c_TypedChainID := c_TypedChainID c; c_UnknownCalldata := c_UnknownCalldata c;
  c_ContractAddr := c_ContractAddr c; c_Selector := c_Selector c |}.

Lemma overlay_other e b : e_Code e ≠ codePolicyDeniedGasCap → overlayBaseFee e b = e.
Proof. intros H. unfold overlayBaseFee. destruct b; [|done]. by rewrite bool_decide_false. Qed.

(** a check that only differs in the nonce stays one *)
Lemma provenance_nonce pin i n c :
  applyDestProvenance pin (with_nonce c n) i =
  match applyDestProvenance pin c i with Ok c => Ok (with_nonce c n) | Err e => Err e end.
Proof.
  unfold applyDestProvenance. destruct (bool_decide _); [by destruct (pin _ _)|]. destruct (bool_decide _); [by destruct (pin _ _)|done].
Qed.

Lemma classify_nonce i n c :
  classifyContractSend i (with_nonce c n) = (with_nonce (classifyContractSend i c).1 n, (classifyContractSend i c).2).
Proof. unfold classifyContractSend. destruct (negb _); [done|]. by destruct (ClassifyCalldata _ _ _). Qed.

(** the check of authorize is that of dryRun under the nonce of the lease *)
Lemma checks_agree pin i n :
  intent_check pin i n = match dry_check pin i with Ok (c, cls) => Ok (with_nonce c (Some n), cls) | Err e => Err e end.
Proof.
  unfold intent_check, dry_check. change (authorize_check i n) with (with_nonce (dryRun_check i) (Some n)).
  rewrite provenance_nonce. destruct (applyDestProvenance pin (dryRun_check i) i) as [c|e]; [|done]. cbn [rbind].
  rewrite classify_nonce. by destruct (classifyContractSend i c).
Qed.

Lemma dry_check_fields pin i c cls :
  dry_check pin i = Ok (c, cls) → c_IsRBFDelta c = bool_decide (is_Some (in_replaces i)) ∧ c_AccountNonce c = in_nonce i.
Proof.
  unfold dry_check. intros (c0 & Hp & H)%rbind_ok. injection H as H.
  assert (Hc0 : c_IsRBFDelta c0 = bool_decide (is_Some (in_replaces i)) ∧ c_AccountNonce c0 = in_nonce i).
  { unfold applyDestProvenance in Hp. destruct (bool_decide _); [|destruct (bool_decide _)].
    - apply rbind_ok in Hp as (p & _ & Hp). by injection Hp as <-.
    - apply rbind_ok in Hp as (p & _ & Hp). by injection Hp as <-.
    - by injection Hp as <-. }
  unfold classifyContractSend in H. destruct (negb _); [by injection H as <- _|].
  by destruct (ClassifyCalldata _ _ _); injection H as <- _.
Qed.

Lemma with_nonce_same c : with_nonce c (c_AccountNonce c) = c.
Proof. by destruct c. Qed.

(** A check that is not a fee bump is evaluated without its nonce. *)
Lemma Evaluate_nonce pol c n spent now : Evaluate pol (with_nonce c n) spent now = Evaluate pol c spent now.
Proof. done. Qed.
End Checks.

(** ** The two verdicts *)

Section Verdicts.
Context {UT : UnicodeTables} {GC : GethCommon} {RC : LineCodec Reservation} {SC : SealCrypto}.
Variable accounts : option (string → list Address).

Lemma windowFor_nonce c n cf now d :
  c_IsRBFDelta c = false ∨ n = c_AccountNonce c →
  windowFor accounts (with_nonce c n) cf now d = windowFor accounts c cf now d.
Proof.
  intros [H| ->]; [|by rewrite with_nonce_same]. unfold windowFor, superseded. cbn [with_nonce c_IsRBFDelta]. by rewrite H.
Qed.

(** what a dry run's decision says of the reservation; a refused one writes nothing *)
Definition agrees (dec : res error Decision) (r : res error (option Reservation) * list Disk) : Prop :=
  match dec with
  | Err e => r = (Err e, [])
  | Ok dec => match r with
              | (Ok _, _) => d_Allowed dec = true
              | (Err e, tr) => d_Allowed dec = false ∧ explained dec ∧ e = deniedError dec ∧ tr = []
              end
  end.

Lemma evaluate_reserve L d st c n id now0 now :
  loadAll (dk_log d) = Ok st → c_IsRBFDelta c = false ∨ n = c_AccountNonce c →
  agrees (EngineEvaluate io_ok accounts L c now d).1 (Reserve io_ok accounts L id (with_nonce c n) now0 now d).
Proof.
  intros Hst Hn. unfold EngineEvaluate, Reserve. destruct L as [[pol|]|e]; [| |done].
  - rewrite !(mbind_read _ _ _ (Some pol)) by done. unfold withNetworkLock.
    rewrite !(mbind_read _ _ _ tt) by done.
    destruct (loadCounter (c_Network c) (c_Account c) d) as [[cf|e] tr] eqn:El; revert El;
      (pose proof (reads_loadCounter (c_Network c) (c_Account c) d) as Hr; intros El; rewrite El in Hr;
       cbn [snd] in Hr; subst tr).
    + rewrite !(mbind_read _ _ _ _ El).
      pose proof (reads_windowFor accounts c cf now d) as Hw.
      destruct (windowFor accounts c cf now d) as [[w|e] tr] eqn:Ew; cbn [snd] in Hw; subst tr.
      * rewrite (mbind_read _ _ _ w) by done. rewrite (mbind_read _ _ _ w) by (by rewrite windowFor_nonce).
        rewrite (mbind_read _ _ _ d) by done. rewrite Evaluate_nonce.
        destruct (d_Allowed (Evaluate pol c (Some w.1) now)) eqn:Ea; cbn [negb].
        -- case_bool_decide; [cbn; by rewrite refine_allowed|].
           rewrite (mbind_run _ _ _ _ _ (writeReservation_run io_ok _ _ st eq_refl Hst)).
           cbn [io_ok io_log_write]. erewrite (mbind_run _ _ _ tt); [|by rewrite writeCounter_run].
           cbn. by rewrite refine_allowed.
        -- rewrite (mbind_read _ _ _ d) by done. cbn [fst mfail agrees mret].
           split; [by rewrite refine_allowed|]. split; [by apply refine_explained, Evaluate_explained|done].
      * erewrite mbind_fail by done. by erewrite mbind_fail by (by rewrite windowFor_nonce).
    + by rewrite !(mbind_fail _ _ _ e [] El).
  - rewrite !(mbind_read _ _ _ None) by done.
    by rewrite (mbind_run _ _ _ _ _ (writeReservation_run io_ok _ _ st eq_refl Hst)).
Qed.

(** *** Failures that are no denial are not of the gas cap *)

Lemma load_error_code file a e : loadActivePolicy file a = Err e → e_Code e ≠ codePolicyDeniedGasCap.
Proof.
  unfold loadActivePolicy, loadPolicy. destruct file as [raw|], a as [an|]; try done; [|by intros [= <-]..].
  unfold load_sealed. repeat (case_match; try discriminate); intros [= <-]; simplify_eq/=; discriminate.
Qed.

Lemma loadCounter_error n a d e tr : loadCounter n a d = (Err e, tr) → e = corrupt_counter.
Proof.
  unfold loadCounter, read_counter, mbind, mget, mlift. cbn. intros [= He _]. destruct (_ !! _) as [[]|]; congruence.
Qed.

Lemma sum_accounts_error n now ex accts : ∀ sum d e tr, sum_accounts n now ex accts sum d = (Err e, tr) → e = corrupt_counter.
Proof.
  induction accts as [|a accts IH]; intros sum d e tr; cbn [sum_accounts]; [done|].
  destruct (loadCounter n a d) as [[cf|e'] t] eqn:E.
  - unfold mbind. rewrite E. destruct (sum_accounts _ _ _ _ _ _) as [r t'] eqn:E'. intros [= -> _]. by eapply IH.
  - rewrite (mbind_fail _ _ _ _ _ E). intros [= <- _]. by eapply loadCounter_error.
Qed.

Lemma evaluate_error L c now d e tr :
  EngineEvaluate io_ok accounts L c now d = (Err e, tr) → L = Err e ∨ e = corrupt_counter.
Proof.
  unfold EngineEvaluate. destruct L as [[pol|]|e']; [|done|intros [= <- _]; by left].
  rewrite (mbind_read _ _ _ (Some pol)) by done. unfold withNetworkLock. rewrite (mbind_read _ _ _ tt) by done. intros H. right.
  destruct (loadCounter (c_Network c) (c_Account c) d) as [[cf|e'] t] eqn:El;
    [|rewrite (mbind_fail _ _ _ _ _ El) in H; injection H as <- _; by eapply loadCounter_error].
  rewrite (mbind_run _ _ _ _ _ El) in H. set (d1 := after d t) in *. injection H as H _.
  destruct (windowFor accounts c cf now d1) as [[w|e'] t'] eqn:Ew; [by rewrite (mbind_run _ _ _ _ _ Ew) in H|].
  rewrite (mbind_fail _ _ _ _ _ Ew) in H. injection H as <-. revert Ew. unfold windowFor, aggregateWindow.
  destruct (superseded c cf); unfold mbind; destruct (sum_accounts _ _ _ _ _ _) as [[x|x] t2] eqn:Es; try done;
    intros [= <- _]; by eapply sum_accounts_error.
Qed.
End Verdicts.

(** ** The two runs *)

Section Runs.
Context {N : Type} {UT : UnicodeTables} {GC : GethCommon} {RC : LineCodec Reservation} {JC : LineCodec JRecord}
        {MO : MapOrder} {SC : SealCrypto} {EV : Environment N}.
Variables (accounts : option (string → list Address)) (anchor : option Anchor).
Implicit Types (w : SWorld N) (i : Intent).

(** [authorize] up to the lease of the nonce *)
Definition leased i : SM (N := N) Lease :=
  resurrectUnresolved accounts anchor (wrap64 (in_chainID i)) ;;;
  chainPending <-- ask_rpc (cc_Nonce (in_from i) true) ;;
  l <-- nonces (wrap64 (in_chainID i)) (in_from i) (λ io, AcquireNonce io (in_from i) chainPending (in_nonce i)) ;;
  mret (fst l).

(** [authorize] once it holds a reservation *)
Definition sign_reserved i (lease : Lease) (r : option Reservation) : SM (N := N) authorized :=
  s <-- sign_and_journal i (l_nonce lease) (reservation_id r) ;;
  let '(raw, hash, rec) := s in
  mret (mkAuthorized raw hash (l_nonce lease) (wrap64 (in_chainID i)) (in_from i) (j_ID rec) (reservation_id r) lease).

(** [authorize] from the lease on *)
Definition authorize_from i (lease : Lease) : SM (N := N) authorized :=
  pin <-- pins anchor ;;
  c <-- mlift (intent_check pin i (l_nonce lease)) ;;
  reservation <-- mres (policy_Reserve accounts anchor (fst c)) ;;
  match reservation with
  | Err e => mfail (overlayBaseFee e (q_BaseFee (in_gas i)))
  | Ok reservation => sign_reserved i lease reservation
  end.

Lemma mbind_assoc {S A B C} (m : T S A) (f : A → T S B) (g : B → T S C) d :
  mbind (mbind m f) g d = mbind m (λ a, mbind (f a) g) d.
Proof.
  unfold mbind. destruct (m d) as [[a|e] t]; [|done]. destruct (f a (after d t)) as [[b|e] t1]; [|done].
  rewrite after_app. destruct (g b _) as [r t2]. by rewrite app_assoc.
Qed.

Lemma mbind_ext {S A B} (m : T S A) (f g : A → T S B) d : (∀ a d, f a d = g a d) → mbind m f d = mbind m g d.
Proof. intros H. unfold mbind. destruct (m d) as [[a|e] t]; [|done]. by rewrite H. Qed.

Lemma authorize_split i w : authorize accounts anchor i w = mbind (leased i) (authorize_from i) w.
Proof.
  unfold leased. rewrite mbind_assoc. apply mbind_ext. intros _ w1. rewrite mbind_assoc. apply mbind_ext. intros p w2.
  rewrite mbind_assoc. apply mbind_ext. intros l w3. rewrite (mbind_read _ _ _ (fst l)) by done. done.
Qed.

(** the engine's files can be read, locked and written, and the time stands still *)
Variable now : Z.
Definition still : Prop := (∀ n, (policy_io (N := N) n).1 = io_ok) ∧ ∀ n, (clock (N := N) n).1 = now.
Hypothesis Hstill : still.

Lemma ask_run {A} (f : N → A * N) w a :
  (∀ n, (f n).1 = a) → ask f w = (Ok a, [set_outside w (f (sw_outside w)).2]).
Proof. intros H. unfold ask. specialize (H (sw_outside w)). destruct (f (sw_outside w)) as [x n]. cbn in H. by subst. Qed.

Lemma policy_Evaluate_run c w :
  (policy_Evaluate accounts anchor c w).1 =
  (EngineEvaluate io_ok accounts (loadActivePolicy (sw_policy w) anchor) c now (sw_disk w)).1.
Proof.
  destruct Hstill as [H1 H2]. unfold policy_Evaluate. rewrite (mbind_run _ _ _ _ _ (ask_run _ w _ H1)). cbn [fst after List.last].
  rewrite (mbind_run _ _ _ _ _ (ask_run _ _ _ H2)). cbn [fst after List.last]. rewrite (mbind_read mget _ _ _) by done.
  unfold mzoom. cbn [set_outside sw_policy sw_disk]. by destruct (EngineEvaluate _ _ _ _ _ _).
Qed.

(** a reservation asks the outside, then runs the engine *)
Lemma policy_Reserve_run c w :
  ∃ id ws, let e := Reserve io_ok accounts (loadActivePolicy (sw_policy w) anchor) id c now now (sw_disk w) in
    (policy_Reserve accounts anchor c w).1 = e.1 ∧
    (e.2 = [] → (policy_Reserve accounts anchor c w).2 = ws) ∧ sw_disk (after w ws) = sw_disk w.
Proof.
  destruct Hstill as [H1 H2]. unfold policy_Reserve.
  rewrite (mbind_run _ _ _ _ _ (ask_run _ w _ H1)). cbn [fst snd after List.last]. set (w1 := set_outside w _).
  rewrite (mbind_run _ _ _ _ _ (ask_run _ w1 _ H2)). cbn [fst snd after List.last]. set (w2 := set_outside w1 _).
  destruct (reservation_ulid (sw_outside w2)) as [id n3] eqn:E3.
  assert (R3 : ask reservation_ulid w2 = (Ok id, [set_outside w2 n3])) by (unfold ask; by rewrite E3).
  rewrite (mbind_run _ _ _ _ _ R3). cbn [fst snd after List.last]. set (w3 := set_outside w2 n3).
  rewrite (mbind_run _ _ _ _ _ (ask_run _ w3 _ H2)). cbn [fst snd after List.last]. set (w4 := set_outside w3 _).
  rewrite (mbind_read mget _ w4 w4) by done. unfold mzoom.
  exists id, [w1; w2; w3; w4]. cbv zeta. change (sw_disk w4) with (sw_disk w). change (sw_policy w4) with (sw_policy w).
  destruct (Reserve _ _ _ _ _ _ _ _) as [r tr]. cbn [fst snd]. split_and!; [done| |done]. by intros ->.
Qed.

(** C18: A dry run predicts the send.  A dry run made at the moment the send has
    leased its nonce (same policy file, same engine files, which can be read,
    locked and written, and a clock that shows one time to both) always returns.  Where it reports an error, a provenance
    lookup, an evaluation that failed or a denial, [authorize] fails with the
    very same error (code, reason, data, retry time, current base fee), and has
    neither reserved nor written to the engine's files.  Where it reports none,
    [authorize] is granted its reservation, under a check that is classified as
    the dry run displays it, and goes on to sign under it.  A fee bump has to pin
    the nonce of the lease, so that its dry run evaluates against the entry it
    supersedes. *)
Theorem dry_run_predicts_send i w w1 lease tr0 st :
  leased i w = (Ok lease, tr0) → let w2 := after w tr0 in
  sw_policy w1 = sw_policy w2 → sw_disk w1 = sw_disk w2 → loadAll (dk_log (sw_disk w2)) = Ok st →
  in_replaces i = None ∨ in_nonce i = Some (l_nonce lease) →
  match (dryRun accounts anchor i w1).1 with
  | Err _ => False
  | Ok (_, Some e) => ∃ tr, authorize accounts anchor i w = (Err e, tr0 ++ tr) ∧ sw_disk (after w2 tr) = sw_disk w2
  | Ok (res, None) => ∃ c r tr1,
      intent_check (AllowlistPin (sw_policy w2) anchor) i (l_nonce lease) = Ok (c, tr_Classification res) ∧
      policy_Reserve accounts anchor c w2 = (Ok r, tr1) ∧
      let s := sign_reserved i lease r (after w2 tr1) in
      authorize accounts anchor i w = (s.1, tr0 ++ tr1 ++ s.2)
  end.
Proof.
  intros Hl w2 Hp Hd Hst Hn. rewrite authorize_split, (mbind_run _ _ _ _ _ Hl). fold w2.
  unfold dryRun, authorize_from, pins. rewrite !mbind_assoc, !(mbind_read mget _ _ _) by done. cbn beta.
  rewrite !(mbind_read (mret _) _ _ (AllowlistPin (sw_policy w2) anchor)) by (done || by rewrite Hp).
  rewrite checks_agree. destruct (dry_check _ i) as [[c cls]|e] eqn:Ec.
  2: { cbn. exists []. by rewrite app_nil_r. }
  rewrite (mbind_read (mlift _) _ w2 _ eq_refl). cbn [fst].
  destruct (dry_check_fields _ _ _ _ Ec) as [Hr Hm].
  assert (Hn' : c_IsRBFDelta c = false ∨ Some (l_nonce lease) = c_AccountNonce c).
  { destruct Hn as [E|E]; [left; by rewrite Hr, E|right; by rewrite Hm, E]. }
  destruct (policy_Reserve_run (with_nonce c (Some (l_nonce lease))) w2) as (id & ws & R1 & R2 & R3). cbv zeta in *.
  pose proof (evaluate_reserve accounts (loadActivePolicy (sw_policy w2) anchor) (sw_disk w2) st c (Some (l_nonce lease)) id now now Hst Hn') as H.
  pose proof (policy_Evaluate_run c w1) as HE. rewrite Hp, Hd in HE.
  destruct (policy_Evaluate accounts anchor c w1) as [rd te] eqn:Ee. cbn [fst] in HE. rewrite <-HE in H.
  destruct (policy_Reserve accounts anchor (with_nonce c (Some (l_nonce lease))) w2) as [rr t1] eqn:Er. cbn [fst snd] in *.
  rewrite (mbind_run (mres _) _ w1 rd te) by (unfold mres; by rewrite Ee).
  rewrite (mbind_run (mres _) _ w2 rr t1) by (unfold mres; by rewrite Er). cbn [fst snd].
  destruct rd as [dec|e]; cbn [agrees] in H.
  - destruct (Reserve _ _ _ _ _ _ _ _) as [[o|e] tr]; cbn [fst snd] in *; subst rr.
    + rewrite H. cbn [negb fst mret]. by exists (with_nonce c (Some (l_nonce lease))), o, t1.
    + destruct H as (Ha & Hx & -> & ->). rewrite Ha. cbn [negb fst mret mfail]. exists t1. rewrite app_nil_r, same_denial by done.
      split; [done|]. by rewrite R2.
  - rewrite H in *. cbn [fst snd] in *. subst rr. rewrite R2 by done. cbn [fst mret mfail]. exists ws. rewrite app_nil_r. split; [|done].
    do 2 f_equal. apply overlay_other. symmetry in HE.
    destruct (EngineEvaluate _ _ _ _ _ _) as [x tx] eqn:Ev. cbn [fst] in HE. subst x.
    apply evaluate_error in Ev as [Ev| ->]; [by eapply load_error_code|done].
Qed.
End Runs.

(** ** Witness *)

Section Witness.
(** the sample outside at a time that stands still *)
#[local] Instance still_env : Environment Z := {|
  cc_Nonce := cc_Nonce (Environment := sample_outside); cc_Receipt := cc_Receipt (Environment := sample_outside);
  cc_BlockNumber := cc_BlockNumber (Environment := sample_outside);
  cc_EstimateGas := cc_EstimateGas (Environment := sample_outside);
  cc_SuggestFees := cc_SuggestFees (Environment := sample_outside);
  cc_SuggestGasPrice := cc_SuggestGasPrice (Environment := sample_outside);
  cc_SendRawTransaction := cc_SendRawTransaction (Environment := sample_outside);
  SignTx := SignTx (Environment := sample_outside); sleep := sleep (Environment := sample_outside);
  clock := λ t, (7, t);
  reservation_ulid := reservation_ulid (Environment := sample_outside);
  journal_ulid := journal_ulid (Environment := sample_outside); policy_io := policy_io (Environment := sample_outside);
  journal_io := journal_io (Environment := sample_outside); nonce_io := nonce_io (Environment := sample_outside);
|}.

(** under a policy that lets a transaction take less gas than the sample asks *)
Definition capped_world : SWorld Z :=
  mkSWorld (Some (sealed_file sample_policy (sample_sk sample_pass sample_salt))) empty_disk ∅ ∅ [] 0.
Definition capped_lease : Lease := mkLease 0 false.
Definition leased_world : SWorld Z := after capped_world (leased None (Some sample_anchor) sample_intent capped_world).2.

Lemma dry_run_predicts_send_witness :
  ∃ res e tr, (dryRun None (Some sample_anchor) sample_intent capped_world).1 = Ok (res, Some e) ∧
          authorize None (Some sample_anchor) sample_intent capped_world = (Err e, tr).
Proof.
  assert (L : (leased None (Some sample_anchor) sample_intent capped_world).1 = Ok capped_lease) by (vm_compute; reflexivity).
  assert (D : match (dryRun None (Some sample_anchor) sample_intent capped_world).1 with Ok (_, Some _) => true | _ => false end = true)
    by (vm_compute; reflexivity).
  pose proof (dry_run_predicts_send None (Some sample_anchor) 7 (conj (λ _, eq_refl) (λ _, eq_refl)) sample_intent capped_world capped_world
                capped_lease (leased None (Some sample_anchor) sample_intent capped_world).2 log_empty) as T.
  destruct (leased None (Some sample_anchor) sample_intent capped_world) as [rl tl] eqn:El.
  assert (W : (sw_policy (after capped_world tl), sw_disk (after capped_world tl)) = (sw_policy capped_world, empty_disk)).
  { change tl with (rl, tl).2. rewrite <-El. vm_compute. reflexivity. }
  injection W as W1 W2. cbn [fst snd] in *. subst rl.
  specialize (T eq_refl (eq_sym W1) (eq_sym W2)). rewrite W2 in T. specialize (T eq_refl (or_introl eq_refl)).
  destruct (dryRun None (Some sample_anchor) sample_intent capped_world).1 as [[res [e|]]|]; [|discriminate D..].
  destruct T as (tr & T & _). exists res, e, (tl ++ tr). exact (conj eq_refl T).
Defined.
End Witness.
