(* ===== verification/TokenProps.v ===== *)
(** * Typed sends and contract sends under the policy

    A contract send of the calldata a typed operation packs is evaluated like
    the typed operation; an approval of more than 256 bits is not. *)

From S2P Require Import Prelude GoStrings Decimal HexBytes Ethunit Encodings PolicyTypes Seal Domain PolicyFile Trace Evaluate Counter Reservation Engine PolicyAdmin Calldata Gas Journal Nonce Service TxStatus Send TokenSend.

Local Open Scope string_scope.
Local Open Scope Z_scope.
Local Open Scope list_scope.
Local Open Scope go_scope.

(** ** Recognized calldata *)

(** settle the comparisons with the selectors above the one at hand *)
Ltac pick_selector sel name :=
  let E := fresh in
  assert (E : "0x" +:+ hexEncode (be_bytes 4 sel) = name) by (vm_compute; reflexivity);
  rewrite E; clear E;
  repeat (rewrite (bool_decide_false (name = _)) by discriminate; cbv iota);
  rewrite (bool_decide_true (name = name)) by reflexivity; rewrite ?orb_true_r; cbn [orb]; cbv iota.

Lemma classify_transfer to n :
  valid_addr to → 0 ≤ n < 2 ^ 256 →
  ClassifySelector (calldata 0xa9059cbb [to; n]) = Some (transferClass to (Some n)).
Proof.
  intros Ha Hn. destruct (calldata_parts 0xa9059cbb [to; n]) as (H1 & H2 & H3).
  unfold ClassifySelector. rewrite H1, H2, H3. cbv zeta. pick_selector 0xa9059cbb selTransfer.
  rewrite (wordAddr_args _ 0 to), (wordBig_args _ 1 n) by done. done.
Qed.

Lemma classify_approve to n :
  valid_addr to → 0 ≤ n < 2 ^ 256 →
  ClassifySelector (calldata 0x095ea7b3 [to; n]) = Some (approveClass to (Some n) (isSentinel (Some n))).
Proof.
  intros Ha Hn. destruct (calldata_parts 0x095ea7b3 [to; n]) as (H1 & H2 & H3).
  unfold ClassifySelector. rewrite H1, H2, H3. cbv zeta. pick_selector 0x095ea7b3 selApprove.
  rewrite (wordAddr_args _ 0 to), (wordBig_args _ 1 n) by done. done.
Qed.

Lemma classify_safe721 from to id :
  valid_addr to → ClassifySelector (calldata 0x42842e0e [from; to; id]) = Some (transferClass to None).
Proof.
  intros Ha. destruct (calldata_parts 0x42842e0e [from; to; id]) as (H1 & H2 & H3).
  unfold ClassifySelector. rewrite H1, H2, H3. cbv zeta. pick_selector 0x42842e0e selSafeTransferFrom1.
  rewrite (wordAddr_args _ 1 to) by done. done.
Qed.

Lemma classify_safe1155 from to id n :
  valid_addr to →
  ClassifySelector (calldata 0xf242432a [from; to; id; n; 0xa0; 0]) = Some (transferClass to None).
Proof.
  intros Ha. destruct (calldata_parts 0xf242432a [from; to; id; n; 0xa0; 0]) as (H1 & H2 & H3).
  unfold ClassifySelector. rewrite H1, H2, H3. cbv zeta. pick_selector 0xf242432a selSafeTransferFrom3.
  rewrite (wordAddr_args _ 1 to) by done. done.
Qed.

(** ** The checks *)

Section Alike.
Context {UT : UnicodeTables} {GC : GethCommon} {KC : Keccak}.

(** the check with another kind *)
Definition rekind (c : Check) (kind : string) (k : Kind) : Check := {|
  c_Account := c_Account c; c_Dest := c_Dest c; c_SpendWei := c_SpendWei c; c_MaxGasWei := c_MaxGasWei c;
  c_MaxFeePerGas := c_MaxFeePerGas c; c_Kind := kind; c_Token := c_Token c; c_IsRBFDelta := c_IsRBFDelta c;
  c_Acked := c_Acked c; c_Network := c_Network c; c_KindEnum := k; c_ToSrc := c_ToSrc c;
  c_ToInput := c_ToInput c; c_ENSName := c_ENSName c; c_ENSResolved := c_ENSResolved c; c_Asset := c_Asset c;
  c_TokenAmt := c_TokenAmt c; c_Unlimited := c_Unlimited c; c_AccountNonce := c_AccountNonce c;
  c_TypedUnknown := c_TypedUnknown c; c_TypedPrimary := c_TypedPrimary c; c_TypedVerifying := c_TypedVerifying c;
  c_TypedChainID := c_TypedChainID c; c_UnknownCalldata := c_UnknownCalldata c;
  c_ContractAddr := c_ContractAddr c; c_Selector := c_Selector c |}.

(** the policy reads the kind through [effectiveKind] alone *)
Lemma Evaluate_rekind p c kind k spent now :
  effectiveKind (rekind c kind k) = effectiveKind c → Evaluate p (rekind c kind k) spent now = Evaluate p c spent now.
Proof.
  intros E. unfold Evaluate, violations, stageDenylist, stageAllowlist, stageTypedData, stageDaily, destRole.
  rewrite !E. reflexivity.
Qed.

(** a destination that is neither a contact nor an ENS name: an address
    ("literal") or an alias of the contract registry ("contract") *)
Definition unpinned (d : Dest) : Prop := de_Via d ≠ "ens" ∧ de_Via d ≠ "contact".

(** a typed operation and a contract send of its calldata with one quote *)
Record same_bytes (i j : Intent) : Prop := {
  sb_chain : in_network j = in_network i;
  sb_from : in_from j = in_from i;
  sb_to : in_to j = in_to i;
  sb_value : in_value j = in_value i;
  sb_data : in_data j = in_data i;
  sb_acked : in_acked j = in_acked i;
  sb_gas : in_gas j = in_gas i;
  sb_replaces : in_replaces j = in_replaces i;
  sb_typed : in_isContractSend i = false;
  sb_contract : in_isContractSend j = true;
  sb_via : unpinned (in_dest i);
  sb_via' : unpinned (in_dest j);
}.

(** the provenance of such a destination *)
Lemma provenance_unpinned pin c i :
  unpinned (in_dest i) →
  applyDestProvenance pin c i = Ok (with_provenance c (c_Dest c) SourceRawAddress (c_ToInput c) (c_ENSName c) (c_ENSResolved c)).
Proof. intros [H1 H2]. unfold applyDestProvenance. by rewrite !bool_decide_false. Qed.

(** what the typed check needs of the calldata for the two to agree *)
Lemma alike pin i j n cc :
  same_bytes i j → ClassifyCalldata (in_to i) (in_data i) (Some (in_value i)) = Some cc →
  c_Dest cc = checkDest i → c_Token cc = tokenTag i → c_Token cc = checkAsset i → c_Asset cc = c_Token cc →
  c_TokenAmt cc = in_tokenAmt i → c_Unlimited cc = in_unlimited i →
  ∃ c, intent_check pin i n = Ok (c, None) ∧
       ∃ cls, intent_check pin j n = Ok (rekind c (c_Kind cc) (c_KindEnum cc), Some cls).
Proof.
  intros [] Hcc Hd Ht Ha Hta Hm Hu. unfold intent_check. rewrite !provenance_unpinned by done.
  cbn [rbind]. unfold classifyContractSend. rewrite sb_typed0, sb_contract0. cbn [negb].
  rewrite sb_to0, sb_value0, sb_data0, Hcc. eexists. split; [reflexivity|]. eexists. f_equal. f_equal.
  unfold classified, rekind, with_provenance, authorize_check.
  cbn [c_Account c_Dest c_SpendWei c_MaxGasWei c_MaxFeePerGas c_Kind c_Token c_IsRBFDelta c_Acked c_Network c_KindEnum
       c_ToSrc c_ToInput c_ENSName c_ENSResolved c_Asset c_TokenAmt c_Unlimited c_AccountNonce c_TypedUnknown
       c_TypedPrimary c_TypedVerifying c_TypedChainID c_UnknownCalldata c_ContractAddr c_Selector].
  rewrite Hd, Hm, Hu, <-Ha, <-Ht, ?sb_chain0, ?sb_from0, ?sb_value0, ?sb_acked0, ?sb_gas0, ?sb_replaces0. reflexivity.
Qed.

(** typed operations whose numbers fit in 256 bits *)
Inductive typed_send (o : Origin) (dest : Dest) : Intent → Prop :=
| ts_token ra amount i n :
    tokenIntent o dest ra amount = Ok i → in_tokenAmt i = Some n → 0 ≤ n < 2 ^ 256 → typed_send o dest i
| ts_approve ra amount unlimited revoke ack i n :
    approveIntent o dest ra amount unlimited revoke ack = Ok i → in_tokenAmt i = Some n → 0 ≤ n < 2 ^ 256 →
    typed_send o dest i
| ts_nft rn amount i id q s k :
    nftIntent o dest rn amount = Ok i → SetString (rn_tokenID rn) 10 = Some id → 0 ≤ id < 2 ^ 256 →
    nftSendAmount (rn_kind rn) amount = Ok (q, s, k) → 0 ≤ default 0 q < 2 ^ 256 → typed_send o dest i.

Lemma IsUnlimited_sentinel n : IsUnlimitedAmount (Some n) = isSentinel (Some n).
Proof. reflexivity. Qed.

Lemma approve_flag amount unlimited revoke dec n unl :
  approveAmount amount unlimited revoke dec = Ok (n, unl) → unl = isSentinel (Some n).
Proof.
  unfold approveAmount. destruct revoke; [by injection 1 as <- <-|]. destruct unlimited.
  - destruct (negb _); [done|]. by injection 1 as <- <-.
  - destruct (bool_decide _); [done|]. destruct (ParseTokenAmount _ _); [|done]. by injection 1 as <- <-.
Qed.

(** the kind of an NFT by its quantity *)
Lemma nft_kind kind amount q s k :
  nftSendAmount kind amount = Ok (q, s, k) →
  (q = None ∧ bool_decide (k = KindERC1155) = false) ∨ (∃ n, q = Some n ∧ bool_decide (k = KindERC1155) = true).
Proof.
  unfold nftSendAmount. destruct (bool_decide (kind = KindERC721)).
  - destruct (_ && _); [done|]. injection 1 as <- _ <-. by left.
  - destruct (bool_decide (kind = KindERC1155)); [|done]. destruct (SetString _ 10) as [n|]; [|done].
    destruct (n <=? 0); [done|]. injection 1 as <- _ <-. right. by eexists.
Qed.

(** packed calldata is not empty *)
Lemma calldata_nonempty sel args : (String.length (calldata sel args) =? 0)%nat = false.
Proof. unfold calldata. rewrite string_length_app, be_bytes_length. done. Qed.

(** the classifier reads back what a typed operation packed *)
Record reads_back (i : Intent) (cc : Check) : Prop := {
  rb_classify : ClassifyCalldata (in_to i) (in_data i) (Some (in_value i)) = Some cc;
  rb_dest : c_Dest cc = checkDest i;
  rb_token : c_Token cc = tokenTag i;
  rb_asset : c_Token cc = checkAsset i;
  rb_amount : c_TokenAmt cc = in_tokenAmt i;
  rb_unlimited : c_Unlimited cc = in_unlimited i;
  rb_kind : ∀ c, c_KindEnum c = KindUnknown → c_Kind c = policyCheckKind i →
                 effectiveKind (rekind c (c_Kind cc) (c_KindEnum cc)) = effectiveKind c;
}.

Lemma lowerHex_token a : a ≠ 0 → lowerHex a = ToLower (Hex a).
Proof. intros H. unfold lowerHex. by destruct (Z.eqb_spec a 0). Qed.

Lemma checkDest_typed i : in_policyDest i ≠ 0 → checkDest i = in_policyDest i.
Proof. intros H. unfold checkDest. by destruct (Z.eqb_spec (in_policyDest i) 0). Qed.

Lemma effective_kind c kind k :
  c_KindEnum c = KindUnknown → k = (if bool_decide (c_Kind c = "approve") || bool_decide (c_Kind c = "revoke") then KindApprove
                                    else if bool_decide (c_Kind c = "permit") then KindPermit else KindTransfer) →
  effectiveKind (rekind c kind k) = effectiveKind c.
Proof.
  intros H ->. unfold effectiveKind at 2. rewrite H. unfold effectiveKind, rekind. cbn [c_KindEnum c_Kind].
  by repeat destruct (bool_decide _).
Qed.

Lemma typed_reads_back o dest i :
  typed_send o dest i → valid_addr (og_from o) → valid_addr (de_Address dest) → de_Address dest ≠ 0 → in_to i ≠ 0 →
  ∃ cc, reads_back i cc.
Proof.
  intros Ht Hf Hd Hne Hto. destruct Ht as [ra amount i n H Hn Hr|ra amount unl rev ack i n H Hn Hr|rn amount i id q s k H Hid Hr Hq Hqr].
  - unfold tokenIntent in H. destruct (ParseTokenAmount _ _) as [m|]; [|done]. injection H as <-.
    cbn in Hn, Hto |- *. injection Hn as ->. eexists. split.
    + cbn. unfold ClassifyCalldata. rewrite TransferCalldata_enc, classify_transfer by done. cbn. reflexivity.
    + by rewrite checkDest_typed.
    + cbn. unfold tokenTag, isTokenOp. cbn. rewrite TransferCalldata_enc, calldata_nonempty by done. by apply lowerHex_token.
    + cbn. unfold checkAsset, isTokenOp. cbn. rewrite TransferCalldata_enc, calldata_nonempty by done. by apply lowerHex_token.
    + done.
    + done.
    + intros c H1 H2. apply effective_kind; [done|]. by rewrite H2.
  - unfold approveIntent in H. apply rbind_ok in H as ([m u] & Ha & H). injection H as <-.
    cbn in Hn, Hto |- *. injection Hn as ->. apply approve_flag in Ha as ->. eexists. split.
    + cbn. unfold ClassifyCalldata. rewrite ApproveCalldata_enc, classify_approve by done. cbn. reflexivity.
    + by rewrite checkDest_typed.
    + by apply lowerHex_token.
    + by apply lowerHex_token.
    + done.
    + done.
    + intros c H1 H2. apply effective_kind; [done|]. by rewrite H2.
  - unfold nftIntent in H. rewrite Hid in H. apply rbind_ok in H as ([[q' s'] k'] & Hq' & H).
    rewrite Hq in Hq'. injection Hq' as <- <- <-. injection H as <-. cbn [in_to] in Hto.
    assert (E : ∃ sel args, SafeTransferFromCalldata (og_from o) (de_Address dest) (Some id) q = calldata sel args ∧
                 ClassifySelector (calldata sel args) = Some (transferClass (de_Address dest) None)).
    { destruct q as [n|].
      - rewrite Safe1155_enc by done. eexists _, _. split; [reflexivity|]. by apply classify_safe1155.
      - rewrite Safe721_enc by done. eexists _, _. split; [reflexivity|]. by apply classify_safe721. }
    destruct E as (sel & args & E1 & E2). rewrite E1.
    pose proof (calldata_nonempty sel args) as E3. revert E2 E3. generalize (calldata sel args). intros data E2 E3.
    destruct (nft_kind _ _ _ _ _ Hq) as [(_ & Ek)|(n & _ & Ek)]; rewrite Ek; eexists; split.
    1, 8: cbn; unfold ClassifyCalldata; rewrite E2; cbn; reflexivity.
    1, 7: by rewrite checkDest_typed.
    1, 2, 6, 7: unfold tokenTag, checkAsset, isTokenOp; cbn; rewrite E3; by apply lowerHex_token.
    1, 2, 4, 5: done.
    1, 2: intros c H1 H2; apply effective_kind; [done|]; by rewrite H2.
Qed.

Lemma reads_back_gas i q cc : reads_back i cc → reads_back (with_gas i q) cc.
Proof. intros [H1 H2 H3 H4 H5 H6 H7]. split; [exact H1|exact H2|exact H3|exact H4|exact H5|exact H6|exact H7]. Qed.

Lemma typed_shape o dest i :
  typed_send o dest i →
  in_network i = og_network o ∧ in_from i = og_from o ∧ in_value i = 0 ∧ in_replaces i = None ∧
  in_isContractSend i = false ∧ in_dest i = dest ∧ in_policyDest i = de_Address dest.
Proof.
  intros [ra amount j n H _ _|ra amount unl rev ack j n H _ _|rn amount j id q s k H Hid _ _ _].
  - unfold tokenIntent in H. destruct (ParseTokenAmount _ _); [|done]. by injection H as <-.
  - unfold approveIntent in H. apply rbind_ok in H as ([m u] & _ & H). by injection H as <-.
  - unfold nftIntent in H. rewrite Hid in H. apply rbind_ok in H as ([[q' s'] k'] & _ & H). by injection H as <-.
Qed.

Lemma classified_asset to data v cc : ClassifyCalldata to data v = Some cc → c_Asset cc = c_Token cc.
Proof.
  unfold ClassifyCalldata. destruct (ClassifySelector data) as [cls|]; [|done]. simpl.
  destruct (sc_Kind cls); [done|by injection 1 as <-..].
Qed.

Lemma classified_token to data v cc : ClassifyCalldata to data v = Some cc → c_Token cc = lowerHex to.
Proof.
  unfold ClassifyCalldata. destruct (ClassifySelector data) as [cls|]; [|done]. simpl.
  destruct (sc_Kind cls); [done|by injection 1 as <-..].
Qed.

(** C19: a contract send cannot be told from the typed operation.  Let a token
    transfer, an approval, a revocation or an NFT transfer have a destination
    that is neither zero nor named by a contact or an ENS name, a contract other
    than zero, and numbers of at most 256 bits; send the
    calldata it packs to its contract, named by an address or an alias, as a raw
    contract call with the same acknowledgement and quote.  The check of the
    contract call has, read back from the bytes, the recipient or spender of the
    typed operation, its token contract, its amount and its unlimited flag; and
    the two checks get the same verdict, with the same codes, reasons and data,
    from every policy, in every window, and count the same amount. *)
Theorem contract_send_judged_alike o dest i cdest j ack pin n q :
  typed_send o dest i →
  valid_addr (og_from o) → valid_addr (de_Address dest) → de_Address dest ≠ 0 → in_to i ≠ 0 → unpinned dest →
  contractIntent o cdest (in_data i) "" ack = Ok j → de_Address cdest = in_to i → unpinned cdest → ack = in_acked i →
  ∃ c c' cls, intent_check pin (with_gas i q) n = Ok (c, None) ∧ intent_check pin (with_gas j q) n = Ok (c', Some cls) ∧
    (c_Dest c' = de_Address dest ∧ c_Token c' = ToLower (Hex (in_to i)) ∧ c_TokenAmt c' = in_tokenAmt i ∧
     c_Unlimited c' = in_unlimited i) ∧
    (∀ p spent now, Evaluate p c' spent now = Evaluate p c spent now) ∧
    effectiveKind c' = effectiveKind c ∧ thisDebit c' = thisDebit c.
Proof.
  intros Ht Hf Hd Hne Hto Hvia Hj Hcd Hcv Hack.
  destruct (typed_reads_back o dest i Ht Hf Hd Hne Hto) as (cc & [H1 H2 H3 H4 H5 H6 H7]%(reads_back_gas i q)).
  destruct (typed_shape o dest i Ht) as (S1 & S2 & S3 & S4 & S5 & S6 & S7).
  unfold contractIntent in Hj. apply rbind_ok in Hj as (v & Hv & Hj). injection Hv as <-. injection Hj as <-.
  set (j := mkIntent _ _ _ _ _ _ _ _ _ _ _ _ _ _ _ _ _ _ _ _ _ _).
  assert (Hs : same_bytes (with_gas i q) (with_gas j q)) by (split; cbn; congruence).
  destruct (alike pin _ _ n cc Hs H1 H2 H3 H4) as (c & Hc & cls & Hc'); [by eapply classified_asset|done|done|].
  pose proof Hc as Hc2. unfold intent_check in Hc2. rewrite provenance_unpinned in Hc2 by (cbn; by rewrite S6).
  cbn [rbind] in Hc2. unfold classifyContractSend in Hc2. cbn [with_gas in_isContractSend] in Hc2. rewrite S5 in Hc2. injection Hc2 as Ec.
  exists c, (rekind c (c_Kind cc) (c_KindEnum cc)), cls. split; [exact Hc|]. split; [exact Hc'|].
  split; [|split; [intros p spent now; apply Evaluate_rekind|split; [|done]]]; [|subst c; by apply H7..].
  subst c. cbn. split_and!; [|rewrite <-H3; cbn; rewrite (classified_token _ _ _ _ H1); by apply lowerHex_token|done..].
  assert (Hpd : in_policyDest i ≠ 0) by by rewrite S7. pose proof (checkDest_typed i Hpd) as E. by rewrite <-S7, <-E.
Qed.

(** *** More than 256 bits *)

(** the largest word, followed by one byte *)
Definition oversized : Z := (2 ^ 256 - 1) * 256.

Lemma oversized_word : uintWord (Some oversized) = enc_word (2 ^ 256 - 1) +:+ String (Zbyte 0) "".
Proof. vm_compute. reflexivity. Qed.

Lemma oversized_amount : approveAmount (z_string oversized) false false 0 = Ok (oversized, false).
Proof.
  assert (E : TrimSpace (z_string oversized) = z_string oversized) by (vm_compute; reflexivity).
  unfold approveAmount. rewrite E. vm_compute. reflexivity.
Qed.

Lemma stake_app_short n s t : (n ≤ String.length s)%nat → stake n (s +:+ t) = stake n s.
Proof.
  revert s. induction n as [|n IH]; intros s Hn; [by destruct s, t|].
  destruct s as [|c s]; [simpl in Hn; lia|]. rewrite string_app_cons. simpl. f_equal. apply IH. simpl in Hn. lia.
Qed.

Lemma sdrop_app_short n s t : (n ≤ String.length s)%nat → sdrop n (s +:+ t) = sdrop n s +:+ t.
Proof.
  revert s. induction n as [|n IH]; intros s Hn; [by destruct s, t|].
  destruct s as [|c s]; [simpl in Hn; lia|]. rewrite string_app_cons. simpl. apply IH. simpl in Hn. lia.
Qed.

Lemma word_app s t i w : word s i = Some w → word (s +:+ t) i = Some w.
Proof.
  unfold word. destruct (Nat.ltb_spec (String.length s) (i * 32 + 32)); [done|]. intros [= <-].
  rewrite string_length_app. destruct (Nat.ltb_spec (String.length s + String.length t) (i * 32 + 32)); [lia|].
  rewrite sdrop_app_short by lia. by rewrite stake_app_short by (rewrite sdrop_length; lia).
Qed.

(** the classifier on an approval with bytes after its words *)
Lemma classify_long_approve to n tail :
  valid_addr to → 0 ≤ n < 2 ^ 256 →
  ClassifySelector (calldata 0x095ea7b3 [to; n] +:+ tail) = Some (approveClass to (Some n) (isSentinel (Some n))).
Proof.
  intros Ha Hn. pose proof (classify_approve to n Ha Hn) as H. revert H.
  destruct (calldata_parts 0x095ea7b3 [to; n]) as (H1 & H2 & H3). apply Nat.ltb_ge in H3.
  unfold ClassifySelector. rewrite stake_app_short, sdrop_app_short by done. rewrite H1, H2.
  rewrite string_length_app. destruct (Nat.ltb_spec (String.length (calldata 0x095ea7b3 [to; n])) 4); [lia|].
  destruct (Nat.ltb_spec (String.length (calldata 0x095ea7b3 [to; n]) + String.length tail) 4); [lia|].
  intros _. cbv zeta. pick_selector 0x095ea7b3 selApprove.
  unfold wordAddr, wordBig. erewrite (word_app _ _ 0) by by apply word_args. erewrite (word_app _ _ 1) by by apply word_args.
  pose proof (wordAddr_args [to; n] 0 to eq_refl Ha) as E1. unfold wordAddr in E1.
  rewrite (word_args [to; n] 0 to eq_refl) in E1. rewrite E1.
  pose proof (wordBig_args [to; n] 1 n eq_refl Hn) as E2. unfold wordBig in E2.
  rewrite (word_args [to; n] 1 n eq_refl) in E2. rewrite E2. done.
Qed.

Lemma concat_tail p a b t : p +:+ String.concat "" [a; b +:+ t] = (p +:+ String.concat "" [a; b]) +:+ t.
Proof. rewrite !concat_empty_cons. cbn [String.concat]. by rewrite !string_app_nil_r, !string_app_assoc. Qed.

Lemma calldata_two sel a b : be_bytes 4 sel +:+ String.concat "" [enc_word a; enc_word b] = calldata sel [a; b].
Proof. done. Qed.

(** An approval of more than 256 bits evades the unlimited ceremony.  For a
    token of no decimals, the amount (2^256 - 1) * 256 packs into 33 bytes: the
    word a contract reads is 2^256 - 1, and the code's own classifier calls the
    packed bytes an unlimited approval.  The typed operation takes it for a
    bounded one: it does not flag it, and without any acknowledgement no policy
    has its unlimited gate fire. *)
Theorem oversized_approval_unflagged o spender contract alias symbol :
  valid_addr (de_Address spender) → unpinned spender →
  ∃ i, approveIntent o spender (mkResolvedAsset contract 0 alias symbol) (z_string oversized) false false false = Ok i ∧
    ClassifySelector (in_data i) = Some (approveClass (de_Address spender) (Some MaxUint256) true) ∧
    in_unlimited i = false ∧ in_acked i = false ∧
    ∀ pin n, ∃ c, intent_check pin i n = Ok (c, None) ∧ effectiveKind c = KindApprove ∧
      ∀ p, stageUnlimited p c (effectiveKind c) = None.
Proof.
  intros Ha Hv. eexists. split; [unfold approveIntent; cbn [rs_decimals]; rewrite oversized_amount; reflexivity|].
  cbn [in_data in_unlimited in_acked]. split; [|split; [done|split; [done|]]].
  - unfold ApproveCalldata, pack, selector. rewrite Keccak_approve, addrWord_enc, oversized_word by done.
    rewrite concat_tail, calldata_two, classify_long_approve by done. reflexivity.
  - intros pin n. unfold intent_check. rewrite provenance_unpinned by done. cbn [rbind].
    eexists. split; [reflexivity|]. split; [reflexivity|]. intros p. reflexivity.
Qed.
End Alike.

(** ** Witnesses *)

Section Witnesses.
#[local] Existing Instance ascii_tables.
#[local] Existing Instance geth_ref.

(** a function with the published selectors *)
Definition keccak_ref (sig : string) : string :=
  if bool_decide (sig = sigTransfer) then be_bytes 4 0xa9059cbb
  else if bool_decide (sig = sigApprove) then be_bytes 4 0x095ea7b3
  else if bool_decide (sig = sigSafeTransferFrom721) then be_bytes 4 0x42842e0e
  else be_bytes 4 0xf242432a.

#[local] Instance ref_keccak : Keccak := {|
  Keccak256 := keccak_ref;
  Keccak_transfer := eq_refl;
  Keccak_approve := eq_refl;
  Keccak_safe721 := eq_refl;
  Keccak_safe1155 := eq_refl;
|}.

Definition sample_origin : Origin := mkOrigin 1 "main" "" 1 (mkRef "a" 0 "w" 0 "" 1) None "cli".
Definition raw_dest (a : Address) : Dest := mkDest a "" "literal" "".
Lemma raw_unpinned a : unpinned (raw_dest a).
Proof. by split. Qed.

(** an approval of the largest word for the spender 2 on the token 9 *)
Definition sample_approval : Intent :=
  match approveIntent sample_origin (raw_dest 2) (mkResolvedAsset 9 18 "tok" "TOK") "" true false true with
  | Ok i => i
  | Err _ => mkIntent 0 "" "" 0 (og_ref sample_origin) zero_dest 0 0 "" 0 policyKindDefault None false false ""
               (mkAsset "" None "" None None None) "" no_quote None None false ""
  end.

Definition alias_dest : Dest := mkDest 9 "tok" "contract" "".
Definition sample_contract_send : Intent :=
  mkIntent 1 "main" "" 1 (og_ref sample_origin) alias_dest 9 0 (in_data sample_approval) 0 policyKindDefault None
    false true KindContractCall (mkAsset "contract" None "" None (Some "0") None) "" no_quote None None true "cli".

Lemma contract_send_judged_alike_witness :
  ∃ c c' cls, intent_check (λ _ _, Ok None) (with_gas sample_approval no_quote) 0 = Ok (c, None) ∧
    intent_check (λ _ _, Ok None) (with_gas sample_contract_send no_quote) 0 = Ok (c', Some cls) ∧
    (c_Dest c' = 2 ∧ c_Token c' = ToLower (Hex 9) ∧ c_TokenAmt c' = Some MaxUint256 ∧ c_Unlimited c' = true) ∧
    (∀ p spent now, Evaluate p c' spent now = Evaluate p c spent now) ∧
    effectiveKind c' = effectiveKind c ∧ thisDebit c' = thisDebit c.
Proof.
  apply (contract_send_judged_alike sample_origin (raw_dest 2) sample_approval alias_dest sample_contract_send true
           (λ _ _, Ok None) 0 no_quote).
  - apply (ts_approve _ _ (mkResolvedAsset 9 18 "tok" "TOK") "" true false true _ MaxUint256);
      [reflexivity|reflexivity|by split].
  - by split.
  - by split.
  - discriminate.
  - discriminate.
  - apply raw_unpinned.
  - reflexivity.
  - reflexivity.
  - by split.
  - reflexivity.
Defined.

Lemma oversized_approval_unflagged_witness :
  ∃ i, approveIntent sample_origin (raw_dest 2) (mkResolvedAsset 9 0 "tok" "TOK") (z_string oversized) false false false = Ok i ∧
    ClassifySelector (in_data i) = Some (approveClass 2 (Some MaxUint256) true) ∧
    in_unlimited i = false ∧ in_acked i = false ∧
    ∀ pin n, ∃ c, intent_check pin i n = Ok (c, None) ∧ effectiveKind c = KindApprove ∧
      ∀ p, stageUnlimited p c (effectiveKind c) = None.
Proof. apply (oversized_approval_unflagged sample_origin (raw_dest 2) 9 "tok" "TOK"); [by split|apply raw_unpinned]. Defined.
End Witnesses.
