(* ===== verification/ServiceFacts.v ===== *)
(** * Reasoning about the operations of the service

    [keeps] is a Hoare triple over the stores: from a precondition on the
    engine's disk and the journals, every world an operation passes through
    satisfies the invariant, and its result and last stores satisfy the
    postcondition.  The invariant is that the journals are well-formed and that
    every payload handed to the node satisfies [ok]. *)

From S2P Require Import Prelude GoStrings Decimal Rfc3339 HexBytes Encodings PolicyTypes Seal Domain PolicyFile Trace Evaluate Counter Reservation Engine PolicyAdmin EngineFacts EngineProps Calldata Gas Lifecycle LifecycleProps Journal JournalFacts JournalProps Nonce Reconcile Service TxStatus Send TokenSend.

Local Open Scope string_scope.
Local Open Scope Z_scope.
Local Open Scope list_scope.
Local Open Scope go_scope.

(** the decimal strings of a record read back *)
Lemma bigOrZero_z_string v : bigOrZero (z_string v) = v.
Proof.
  unfold bigOrZero. rewrite bool_decide_false; [by rewrite SetString_z_string|].
  intros H. pose proof (SetString_z_string v) as E. rewrite H in E. done.
Qed.

Lemma Forall_after {S} (R : S → Prop) w tr : R w → Forall R tr → R (after w tr).
Proof.
  intros Hw Ht. unfold after. destruct tr as [|x tr _] using rev_ind; [done|].
  rewrite List.last_last. apply Forall_app in Ht as [_ Ht]. by inversion Ht.
Qed.

(** a part of the state that the zoomed action does not write *)
Lemma after_zoom_same {S P B} (h : S → B) (put : S → P → S) s tr :
  (∀ p, h (put s p) = h s) → h (after s (map (put s) tr)) = h s.
Proof.
  intros H. unfold after. destruct tr as [|x tr _] using rev_ind; [done|].
  rewrite map_app. cbn [map]. by rewrite List.last_last.
Qed.

Lemma after_zoom {S P} (get : S → P) (put : S → P → S) s tr :
  (∀ p, get (put s p) = p) → get (after s (map (put s) tr)) = after (get s) tr.
Proof.
  intros H. unfold after. destruct tr as [|x tr _] using rev_ind; [done|].
  rewrite map_app. cbn [map]. by rewrite !List.last_last.
Qed.

(** ** Journal operations as the service sees them *)

Section JournalFacts.
Context {UT : UnicodeTables} {RC : LineCodec JRecord} {MO : MapOrder}.
Implicit Types (f : File).

Lemma reads_readAll io : reads_only (readAll io false).
Proof.
  intros f. unfold readAll. apply reads_only_bind; [apply reads_mget|]. intros [data|]; [|].
  - apply reads_only_bind; [apply reads_guard|]. intros _.
    destruct (read_lines _ _) as [recs torn]. rewrite andb_false_r. apply reads_mret.
  - apply reads_only_bind; [apply reads_guard|]. intros _. apply reads_mret.
Qed.

Lemma reads_read {A} io (fn : gmap string JRecord → res error A) : reads_only (read io fn).
Proof.
  unfold read, Journal.withLock. apply reads_only_bind; [apply reads_guard|]. intros _.
  apply reads_only_bind; [apply reads_readAll|]. intros p. apply reads_mlift.
Qed.

Lemma read_ok {A} io (fn : gmap string JRecord → res error A) f a :
  file_wf f → (read io fn f).1 = Ok a → fn (view f) = Ok a.
Proof.
  intros Hwf H. destruct (read io fn f) as [r tr] eqn:E. cbn [fst] in H. subst.
  unfold read, Journal.withLock in E. minv.
  match goal with H : readAll _ _ _ = _ |- _ => apply readAll_ok in H as [-> _]; [|done] end. done.
Qed.

(** a transition leaves the other records alone *)
Lemma SetState_frame io id mut now f f' x :
  journal_inv f → seq_room f → f' ∈ (SetState io id mut now f).2 → x ≠ id → view f' !! x = view f !! x.
Proof.
  intros Hi Hroom H Hx. apply SetState_trace in H as [[H _]|(prior & Hp & Ha)]; [by unfold view; rewrite H| |apply Hi].
  destruct (atomic_view f (with_seq_ts (applyTo mut prior) (next_seq f) (FormatNano now)) f'
      Hroom eq_refl Ha) as [-> | ->]; [done|].
  rewrite lookup_insert_ne; [done|]. simpl. by rewrite (fold_key _ _ _ Hp).
Qed.

Lemma SetState_inv io id mut now f f' :
  journal_inv f → seq_room f → f' ∈ (SetState io id mut now f).2 → journal_inv f'.
Proof. intros Hi Hroom H. by apply (jstep_inv f); [| |eapply js_set]. Qed.

Lemma Append_inv io rec u now f f' :
  journal_inv f → seq_room f → f' ∈ (Append io rec u now f).2 → journal_inv f'.
Proof.
  intros Hi Hroom H. apply Append_trace in H as (i & Ha & _); [|apply Hi].
  by apply (atomic_inv f (append_record rec i (next_seq f) now)).
Qed.

(** an append that succeeds has written the record it returns *)
Lemma Append_ok io rec u now f r tr :
  journal_inv f → seq_room f → Append io rec u now f = (Ok r, tr) →
  ∃ id, r = append_record rec id (next_seq f) now ∧ view (after f tr) = <[id := r]> (view f).
Proof.
  intros Hi Hroom H. unfold Append, Journal.withLock in H. minv.
  match goal with H : readAll _ _ _ = _ |- _ => apply readAll_ok in H as [-> [Ha _]]; [|apply Hi] end.
  cbn [fst snd] in *. minv. eexists. split; [reflexivity|].
  rewrite app_nil_r. change (List.last ?l f) with (after f l). rewrite !after_app.
  rewrite Ha in *.
  match goal with H1 : appendLine _ ?r _ = (Ok _, ?t1), H2 : maybeCompact _ _ _ _ = (Ok _, ?t2) |- _ =>
    pose proof (appendLine_ok io (records f) r _ _ _ (repaired_complete f (proj1 Hi)) H1) as Hc;
    pose proof (maybeCompact_ok io (records f) r _ _ _ Hc H2) as Hw end.
  apply written_view in Hw.
  rewrite fold_step_newer in Hw.
  - exact Hw.
  - intros x Hx. apply Z.lt_le_incl. change (j_Seq x < next_seq f). by apply next_seq_newer.
Qed.
End JournalFacts.

Section Triples.
Context {N : Type} {UT : UnicodeTables} {GC : GethCommon} {RC : LineCodec Reservation} {JC : LineCodec JRecord}
        {MO : MapOrder} {SC : SealCrypto} {EV : Environment N}.
Variable ok : Submission → Prop.

Implicit Types (w : SWorld N) (d : Disk) (j : gmap Z string).

Definition sound w : Prop := Forall ok (sw_sent w) ∧ ∀ c, journal_inv (sw_journals w !! c).

(** no journal has run out of sequence numbers *)
Definition roomy w : Prop := ∀ c, seq_room (sw_journals w !! c).

Definition assertion : Type := Disk → gmap Z string → Prop.

Definition keeps {A} (P : assertion) (m : T (SWorld N) A) (Q : res error A → assertion) : Prop :=
  ∀ w, sound w → P (sw_disk w) (sw_journals w) → Forall roomy (w :: (m w).2) →
    Forall sound (m w).2 ∧ Q (m w).1 (sw_disk (after w (m w).2)) (sw_journals (after w (m w).2)).

Lemma keeps_bind {A B} P Q R (m : T (SWorld N) A) (f : A → T (SWorld N) B) :
  keeps P m Q → (∀ a, keeps (Q (Ok a)) (f a) R) → (∀ e d j, Q (Err e) d j → R (Err e) d j) →
  keeps P (mbind m f) R.
Proof.
  intros Hm Hf He w Hw HP HC. unfold mbind in *.
  specialize (Hm w Hw HP). destruct (m w) as [[a|e] tr] eqn:E; cbn [fst snd] in Hm, HC |- *.
  - destruct (f a (after w tr)) as [r tr'] eqn:E'. cbn [fst snd] in HC |- *.
    apply Forall_cons in HC as [HC0 HC]. apply Forall_app in HC as [HC1 HC2].
    destruct Hm as [Hm HQ]; [by constructor|].
    specialize (Hf a (after w tr) (Forall_after _ _ _ Hw Hm) HQ). rewrite E' in Hf. cbn [fst snd] in Hf.
    destruct Hf as [Hf1 Hf2].
    { constructor; [|done]. apply Forall_after; [done|done]. }
    rewrite after_app. split; [by apply Forall_app|done].
  - destruct Hm as [Hm HQ]; [done|]. split; [done|]. by apply He.
Qed.

Lemma keeps_conseq {A} P P' Q Q' (m : T (SWorld N) A) :
  keeps P m Q → (∀ d j, P' d j → P d j) → (∀ r d j, Q r d j → Q' r d j) → keeps P' m Q'.
Proof. intros Hm HP HQ w Hw Hp HC. destruct (Hm w Hw (HP _ _ Hp) HC). eauto. Qed.

Lemma keeps_ret {A} (P : assertion) (Q : res error A → assertion) a :
  (∀ d j, P d j → Q (Ok a) d j) → keeps P (mret a) Q.
Proof. intros H w _ HP _. split; [constructor|]. by apply H. Qed.

Lemma keeps_fail {A} (P : assertion) (Q : res error A → assertion) e :
  (∀ d j, P d j → Q (Err e) d j) → keeps P (mfail e) Q.
Proof. intros H w _ HP _. split; [constructor|]. by apply H. Qed.

Lemma keeps_lift {A} (P : assertion) (Q : res error A → assertion) r :
  (∀ d j, P d j → Q r d j) → keeps P (mlift r) Q.
Proof. intros H w _ HP _. split; [constructor|]. by apply H. Qed.

Lemma keeps_get (P : assertion) (Q : res error (SWorld N) → assertion) :
  (∀ w, P (sw_disk w) (sw_journals w) → Q (Ok w) (sw_disk w) (sw_journals w)) → keeps P mget Q.
Proof. intros H w _ HP _. split; [constructor|]. by apply H. Qed.

Lemma keeps_mres {A} P Q (m : T (SWorld N) A) :
  keeps P m Q → keeps P (mres m) (λ r d j, ∃ x, r = Ok x ∧ Q x d j).
Proof.
  intros Hm w Hw HP. specialize (Hm w Hw HP). unfold mres. destruct (m w) as [r tr]. cbn [fst snd] in *.
  intros HC. destruct (Hm HC) as [H1 H2]. split; [done|]. by exists r.
Qed.

Lemma keeps_mtry {A} P Q (m : T (SWorld N) A) :
  keeps P m Q → keeps P (mtry m) (λ r d j, ∃ x, r = Ok (match x with Ok _ => None | Err e => Some e end) ∧ Q x d j).
Proof.
  intros Hm w Hw HP. specialize (Hm w Hw HP). unfold mtry. destruct (m w) as [r tr]. cbn [fst snd] in *.
  destruct r as [a|e]; intros HC; (destruct (Hm HC) as [H1 H2]; split; [done|]); [by exists (Ok a)|by exists (Err e)].
Qed.

Lemma keeps_ask_is {A} P (f : N → A * N) : keeps P (ask f) (λ r d j, (∃ n, r = Ok (f n).1) ∧ P d j).
Proof.
  intros w Hw HP _. unfold ask. destruct (f (sw_outside w)) as [a n] eqn:E. cbn [fst snd]. split.
  - constructor; [done|constructor].
  - split; [|done]. exists (sw_outside w). by rewrite E.
Qed.

Lemma keeps_ask {A} P (f : N → A * N) : keeps P (ask f) (λ r d j, (∃ a, r = Ok a) ∧ P d j).
Proof. eapply keeps_conseq; [apply keeps_ask_is|done|]. intros r d j [[n ->] HP]. eauto. Qed.

(** a question, then the rest *)
Lemma keeps_ask_bind {A B} P (f : N → A * N) (k : A → T (SWorld N) B) Q :
  (∀ n, keeps P (k (f n).1) Q) → keeps P (mbind (ask f) k) Q.
Proof.
  intros H w Hw HP HC. unfold mbind, ask in *. destruct (f (sw_outside w)) as [a n] eqn:E.
  cbn [fst snd after List.last] in *.
  specialize (H (sw_outside w)). rewrite E in H. cbn [fst] in H.
  specialize (H (set_outside w n) Hw HP).
  destruct (k a (set_outside w n)) as [r tr]. cbn [fst snd app] in *.
  apply Forall_cons in HC as [_ HC]. destruct (H HC) as [H1 H2].
  change (set_outside w n :: tr) with ([set_outside w n] ++ tr). rewrite after_app.
  split; [|done]. apply Forall_app. split; [|done]. constructor; [done|constructor].
Qed.

Lemma keeps_get_bind {B} P (k : SWorld N → T (SWorld N) B) Q :
  (∀ w, keeps P (k w) Q) → keeps P (mbind mget k) Q.
Proof. intros H w Hw HP. rewrite (mbind_read _ _ _ w) by done. by apply H. Qed.

Lemma keeps_lift_bind {A B} P (r : res error A) (k : A → T (SWorld N) B) Q :
  (∀ a, r = Ok a → keeps P (k a) Q) → (∀ e d j, r = Err e → P d j → Q (Err e) d j) → keeps P (mbind (mlift r) k) Q.
Proof.
  intros H He w Hw HP HC. destruct r as [a|e].
  - rewrite (mbind_read _ _ _ a) in * by done. by apply H.
  - split; [constructor|]. by apply He.
Qed.

Lemma keeps_send P raw :
  (∀ d j, P d j → ok (mkSub raw d j)) → keeps P (send_raw raw) (λ r d j, (∃ a, r = Ok a) ∧ P d j).
Proof.
  intros H w [Hs Hj] HP _. unfold send_raw. destruct (cc_SendRawTransaction raw (sw_outside w)) as [a n].
  cbn [fst snd]. split; [|by eauto]. constructor; [|constructor]. split; [|done].
  apply Forall_app. split; [done|]. constructor; [by apply H|constructor].
Qed.

(** ** The components *)

Lemma keeps_zoom {A X} P (get : SWorld N → X) (put : SWorld N → X → SWorld N) (m : T X A) (Q : res error A → assertion) :
  (∀ w, sound w → P (sw_disk w) (sw_journals w) → roomy w → Forall roomy (map (put w) (m (get w)).2) →
     Forall sound (map (put w) (m (get w)).2) ∧
     let w' := after w (map (put w) (m (get w)).2) in Q (m (get w)).1 (sw_disk w') (sw_journals w')) →
  keeps P (mzoom get put m) Q.
Proof.
  intros H w Hw HP HC. unfold mzoom in *. specialize (H w Hw HP). destruct (m (get w)) as [r tr].
  cbn [fst snd] in *. apply Forall_cons in HC as [H1 H2]. by apply H.
Qed.

(** the engine writes its disk only *)
Lemma keeps_disk {A} P (m : M A) (Q : res error A → assertion) :
  (∀ d j, P d j → Q (m d).1 (after d (m d).2) j) → keeps P (mzoom sw_disk put_disk m) Q.
Proof.
  intros H. apply keeps_zoom. intros w Hw HP _ _. split.
  - apply Forall_map, Forall_true. intros d. apply Hw.
  - cbv zeta. rewrite (after_zoom sw_disk), (after_zoom_same sw_journals) by done. by apply H.
Qed.

Lemma keeps_engine P (op : IO → Z → M ()) (Q : res error () → assertion) :
  (∀ io now d j, P d j → Q (op io now d).1 (after d (op io now d).2) j) →
  keeps P (engine op) Q.
Proof.
  intros H. unfold engine. apply keeps_ask_bind. intros n1. apply keeps_ask_bind. intros n2.
  apply keeps_disk, H.
Qed.

(** a journal operation writes the journal of its chain only *)
Lemma keeps_journal {A} P chain (op : JIO → Z → JM A) (Q : res error A → assertion) :
  (∀ io now f, journal_inv f → seq_room f → Forall seq_room (op io now f).2 → Forall journal_inv (op io now f).2) →
  (∀ io now d j, P d j → journal_inv (j !! chain) → seq_room (j !! chain) →
     Q (op io now (j !! chain)).1 d (partial_alter (λ _, after (j !! chain) (op io now (j !! chain)).2) chain j)) →
  keeps P (journal chain op) Q.
Proof.
  intros Hi H. unfold journal. apply keeps_ask_bind. intros n1. apply keeps_ask_bind. intros n2.
  set (io := (journal_io n1).1). set (now := (clock n2).1).
  apply keeps_zoom. intros w [Hs Hj] HP HC HCt.
  set (m := op io now (sw_journals w !! chain)) in *.
  assert (Hput : ∀ f, sw_journals (put_journal chain w f) !! chain = f).
  { intros f. unfold put_journal. cbn [sw_journals]. apply lookup_partial_alter_eq. }
  split.
  - apply Forall_map. assert (Hinv : Forall journal_inv m.2).
    { apply Hi; [apply Hj|apply HC|]. apply (proj1 (Forall_map _ _ _)) in HCt. eapply Forall_impl; [exact HCt|].
      intros f Hf. specialize (Hf chain). simpl in Hf. by rewrite lookup_partial_alter_eq in Hf. }
    eapply Forall_impl; [exact Hinv|]. intros f Hf. split; [done|]. intros c.
    destruct (decide (c = chain)) as [->|Hne]; [by rewrite Hput|].
    cbn [put_journal sw_journals]. rewrite lookup_partial_alter_ne by done. apply Hj.
  - cbv zeta. rewrite (after_zoom_same sw_disk) by done.
    assert (E : sw_journals (after w (map (put_journal chain w) m.2)) =
      partial_alter (λ _, after (sw_journals w !! chain) m.2) chain (sw_journals w)).
    { unfold after. destruct m.2 as [|x tr _] using rev_ind; [symmetry; apply partial_alter_self|].
      rewrite map_app. cbn [map]. by rewrite !List.last_last. }
    change (Q m.1 (sw_disk w) (sw_journals (after w (map (put_journal chain w) m.2)))).
    rewrite E. by apply H; [|apply Hj|apply HC].
Qed.

Lemma keeps_nonces {A} P chain a (op : NIO → NM A) :
  (∀ io s, Forall (λ s', ns_journal s' = ns_journal s) (op io s).2) →
  keeps P (nonces chain a op) (λ _, P).
Proof.
  intros H. unfold nonces. apply keeps_ask_bind. intros n. apply keeps_zoom. intros w [Hs Hj] HP HC _.
  specialize (H (nonce_io n).1 (get_nonce chain a w)). destruct (op _ (get_nonce chain a w)) as [r tr].
  cbn [fst snd] in *.
  assert (E : Forall (λ s', sw_journals (put_nonce chain a w s') = sw_journals w) tr).
  { eapply Forall_impl; [exact H|]. intros s' Hs'. cbn [put_nonce sw_journals]. rewrite Hs'.
    apply partial_alter_self. }
  split.
  - apply Forall_map. eapply Forall_impl; [exact E|]. intros s' Hs'. split; [done|]. by rewrite Hs'.
  - cbv zeta. rewrite (after_zoom_same sw_disk) by done.
    destruct (after_elem w (map (put_nonce chain a w) tr)) as [->|Hin]; [done|].
    apply list_elem_of_fmap in Hin as (s' & -> & Hin). rewrite Forall_forall in E. by rewrite E.
Qed.

(** reading a journal *)
Lemma keeps_read {A} P chain (fn : JIO → gmap string JRecord → res error A) :
  keeps P (journal chain (λ io _, read io (fn io)))
    (λ r d j, P d j ∧ ∀ a, r = Ok a → ∃ io, fn io (view (j !! chain)) = Ok a).
Proof.
  apply keeps_journal.
  - intros io now f _ _ _. by rewrite reads_read.
  - intros io now d j HP Hi _. cbv beta. rewrite (reads_read io (fn io)).
    replace (partial_alter _ chain j) with j by (symmetry; apply partial_alter_self). split; [done|]. intros a Ha. exists io. eapply read_ok; [apply Hi|done].
Qed.

(** [j'] differs from [j] in the record [id] of [chain] at most *)
Definition only_record (chain : Z) (id : string) (j j' : gmap Z string) : Prop :=
  (∀ c, c ≠ chain → j' !! c = j !! c) ∧
  ∀ x, x ≠ id → view (j' !! chain) !! x = view (j !! chain) !! x.

Lemma keeps_SetState (P : assertion) chain id mut :
  keeps P (journal_SetState chain id mut) (λ _ d j', ∃ j, P d j ∧ only_record chain id j j').
Proof.
  apply keeps_journal.
  - intros io now f Hi Hroom _. apply Forall_forall. intros f' Hf'. by eapply SetState_inv.
  - intros io now d j HP Hi Hroom. exists j. split; [done|]. split.
    + intros c Hc. by rewrite lookup_partial_alter_ne.
    + intros x Hx. rewrite lookup_partial_alter_eq.
      destruct (after_elem (j !! chain) (SetState io id mut now (j !! chain)).2) as [->|H]; [done|].
      by eapply SetState_frame.
Qed.

(** a record as Append leaves it: the identifier, the number and the time are set *)
Definition appended_as (rec r : JRecord) : Prop := ∃ id seq now, r = append_record rec id seq now.

Lemma keeps_Append (P : assertion) rec :
  keeps P (journal_Append rec)
    (λ r d j', ∀ x, r = Ok x → appended_as rec x ∧ view (j' !! j_ChainID rec) !! j_ID x = Some x ∧ ∃ j, P d j).
Proof.
  unfold journal_Append. apply keeps_ask_bind. intros n. apply keeps_journal.
  - intros io now f Hi Hroom _. apply Forall_forall. intros f' Hf'. by eapply Append_inv.
  - intros io now d j HP Hi Hroom x Hx.
    destruct (Append io rec (journal_ulid n).1 now (j !! j_ChainID rec)) as [r tr] eqn:E.
    cbn [fst snd] in *. subst. destruct (Append_ok _ _ _ _ _ _ _ Hi Hroom E) as (id & -> & Hv).
    split; [by eexists _, _, _|]. split; [|by exists j]. rewrite lookup_partial_alter_eq.
    etrans; [exact (f_equal (λ m, m !! id) Hv)|]. apply lookup_insert_eq.
Qed.

(** ** Reserving *)

(** a reservation the engine wrote for [c], as the log has it *)
Definition reserved_for (c : Check) d (r : Reservation) : Prop :=
  status d (r_ID r) = Some r ∧ r_ID r ≠ "" ∧ ∃ id now, r = newReservation id c now.

Lemma Reserve_granted io accounts active id c now0 now d r tr :
  id ≠ "" → Reserve io accounts active id c now0 now d = (Ok (Some r), tr) → reserved_for c (after d tr) r.
Proof.
  intros Hid H.
  assert (Hr : r = newReservation id c now0 ∧ tr ≠ []).
  { destruct active as [[pol|]|]; [| |done].
    - apply Reserve_ok in H as (cf & st & _ & _ & _ & _ & _ & -> & ->). split; [reflexivity|discriminate].
    - unfold Reserve in H. rewrite (mbind_read _ _ _ None) in H by done. minv. split; [congruence|].
      match goal with H : writeReservation _ _ _ = _ |- _ => unfold writeReservation, Engine.withLock in H; minv end.
      match goal with H : write_log _ _ _ _ = _ |- _ => apply write_log_ok in H as -> end.
      rewrite app_nil_r. intros [_ [=]]%app_eq_nil. }
  destruct Hr as [-> Htr]. split; [|split; [done|by eauto]]. cbn [newReservation r_ID].
  assert (Hin : after d tr ∈ tr).
  { unfold after. destruct tr as [|x tr _] using rev_ind; [done|]. rewrite List.last_last.
    apply elem_of_app. right. left. }
  assert (Hw : after d tr ∈ (Reserve io accounts active id c now0 now d).2) by (by rewrite H).
  apply Reserve_trace in Hw as (st & Hst & Hlog).
  rewrite (status_log _ (upd_log d (appendAndCompact st (newReservation id c now0)))) by (by rewrite Hlog).
  rewrite status_upd_log by done. by rewrite bool_decide_true.
Qed.

(** only a permit is granted without a reservation *)
Lemma Reserve_none io accounts active id c now0 now d tr :
  Reserve io accounts active id c now0 now d = (Ok None, tr) → effectiveKind c = KindPermit.
Proof.
  intros H. destruct active as [[pol|]|]; [| |done].
  - unfold Reserve in H. rewrite (mbind_read _ _ _ (Some pol)) in H by done. unfold withNetworkLock in H.
    minv. destruct (negb _); [minv; by match goal with H : mfail _ _ = _ |- _ => discriminate H end|].
    case_bool_decide as Hk; [done|]. minv. done.
  - unfold Reserve in H. rewrite (mbind_read _ _ _ None) in H by done. minv. done.
Qed.

Variables (accounts : option (string → list Address)) (anchor : option Anchor).
Hypothesis ulid_nonempty : ∀ n : N, (reservation_ulid n).1 ≠ "".

Lemma keeps_Reserve (Pj : gmap Z string → Prop) c :
  keeps (λ _ j, Pj j) (policy_Reserve accounts anchor c)
    (λ r d j, Pj j ∧ ∀ o, r = Ok o → match o with
                                      | Some x => reserved_for c d x
                                      | None => effectiveKind c = KindPermit
                                      end).
Proof.
  unfold policy_Reserve. do 2 (apply keeps_ask_bind; intros ?). apply keeps_ask_bind. intros u.
  apply keeps_ask_bind. intros ?. apply keeps_get_bind. intros w. apply keeps_disk. intros d j HP.
  split; [done|]. intros o Ho.
  match goal with H : (?m d).1 = _ |- _ => destruct (m d) as [r tr] eqn:E end.
  cbn [fst snd] in *. subst. destruct o as [x|].
  - eapply Reserve_granted; [apply ulid_nonempty|exact E].
  - by eapply Reserve_none.
Qed.

(** ** Operations that keep the invariant *)

Lemma keeps_exists {A X} (P : X → assertion) (m : T (SWorld N) A) Q :
  (∀ x, keeps (P x) m Q) → keeps (λ d j, ∃ x, P x d j) m Q.
Proof. intros H w Hw [x Hx]. by apply (H x). Qed.

Lemma keeps_pure {A} (φ : Prop) (m : T (SWorld N) A) Q :
  (φ → keeps (λ _ _, True) m Q) → keeps (λ _ _, φ) m Q.
Proof. intros H w Hw Hφ. by apply H. Qed.

(** a step whose result does not matter keeps an assertion on the journals *)
Definition preserves {A} (P : assertion) (m : T (SWorld N) A) : Prop := keeps P m (λ _, P).

Lemma preserves_bind {A B} P (m : T (SWorld N) A) (f : A → T (SWorld N) B) :
  preserves P m → (∀ a, preserves P (f a)) → preserves P (mbind m f).
Proof. intros Hm Hf. by apply (keeps_bind P (λ _, P)). Qed.

Lemma preserves_mres {A} P (m : T (SWorld N) A) : preserves P m → preserves P (mres m).
Proof. intros H. eapply keeps_conseq; [by apply keeps_mres|done|]. by intros r d j (x & _ & ?). Qed.

Lemma preserves_mtry {A} P (m : T (SWorld N) A) : preserves P m → preserves P (mtry m).
Proof. intros H. eapply keeps_conseq; [by apply keeps_mtry|done|]. by intros r d j (x & _ & ?). Qed.

Lemma preserves_ret {A} P (a : A) : preserves P (mret a).
Proof. by apply keeps_ret. Qed.
Lemma preserves_fail {A} P e : preserves P (@mfail (SWorld N) A e).
Proof. by apply keeps_fail. Qed.
Lemma preserves_lift {A} P (r : res error A) : preserves P (mlift r).
Proof. by apply keeps_lift. Qed.
Lemma preserves_get P : preserves P mget.
Proof. by apply keeps_get. Qed.
Lemma preserves_ask {A} P (f : N → A * N) : preserves P (ask f).
Proof. eapply keeps_conseq; [apply keeps_ask|done|]. by intros r d j [_ ?]. Qed.
Lemma preserves_ask_rpc {A} P (f : N → res GoError A * N) : preserves P (ask_rpc f).
Proof. apply preserves_bind; [apply preserves_ask|]. intros r. apply preserves_lift. Qed.
Lemma preserves_receipt_of P h : preserves P (receipt_of h).
Proof.
  apply preserves_bind; [apply preserves_ask|]. intros [o|e]; [apply preserves_ret|].
  destruct (ge_NotFound e); [apply preserves_ret|apply preserves_fail].
Qed.
Lemma preserves_read {A} P chain (fn : JIO → gmap string JRecord → res error A) :
  preserves P (journal chain (λ io _, read io (fn io))).
Proof. eapply keeps_conseq; [apply keeps_read|done|]. by intros r d j [? _]. Qed.
Lemma preserves_nonces {A} P chain a (op : NIO → NM A) :
  (∀ io s, Forall (λ s', ns_journal s' = ns_journal s) (op io s).2) → preserves P (nonces chain a op).
Proof. apply keeps_nonces. Qed.

(** an assertion that does not mention the disk *)
Lemma preserves_engine (Pj : gmap Z string → Prop) (op : IO → Z → M ()) : preserves (λ _ j, Pj j) (engine op).
Proof. by apply keeps_engine. Qed.

Lemma preserves_Reserve (Pj : gmap Z string → Prop) c : preserves (λ _ j, Pj j) (policy_Reserve accounts anchor c).
Proof. eapply keeps_conseq; [apply (keeps_Reserve Pj)|done|]. by intros r d j [? _]. Qed.

Lemma preserves_Evaluate (Pj : gmap Z string → Prop) c : preserves (λ _ j, Pj j) (policy_Evaluate accounts anchor c).
Proof.
  unfold policy_Evaluate. do 2 (apply keeps_ask_bind; intros ?). apply keeps_get_bind. intros w.
  by apply keeps_disk.
Qed.

(** the journal writes of a record, under an assertion that leaves it open *)
Lemma preserves_SetState (Pj : gmap Z string → Prop) chain id mut :
  (∀ j j', Pj j → only_record chain id j j' → Pj j') → preserves (λ _ j, Pj j) (journal_SetState chain id mut).
Proof.
  intros H. eapply keeps_conseq; [apply (keeps_SetState (λ _ j, Pj j))|done|].
  intros r d j' (j & HP & Ho). by eapply H.
Qed.
End Triples.

(** the nonce operations read the journal and write the cache *)
Section NonceFacts.
Context {UT : UnicodeTables} {GC : GethCommon} {JC : LineCodec JRecord} {MO : MapOrder}.

Lemma reads_journalNext io addr : reads_only (journalNext io addr).
Proof.
  intros s. unfold journalNext, on_journal.
  pose proof (reads_read (nio_journal io) (λ latest, Ok (next_of addr (enum latest))) (ns_journal s)) as H.
  destruct (read _ _ _) as [r tr]. simpl in *. by subst.
Qed.

Lemma reads_readCache : reads_only readCache.
Proof.
  apply reads_only_bind; [apply reads_mget|]. intros s. destruct (ns_cache s) as [[|n]|]; auto with daxie.
Qed.

Lemma AcquireNonce_journal io addr p f s :
  Forall (λ s', ns_journal s' = ns_journal s) (AcquireNonce io addr p f s).2.
Proof.
  assert (H : reads_only (AcquireNonce io addr p f)); [|by rewrite H].
  unfold AcquireNonce. apply reads_only_bind; [apply reads_guard|]. intros _.
  destruct f; [apply reads_mret|]. apply reads_only_bind; [apply reads_journalNext|]. intros j.
  apply reads_only_bind; [apply reads_readCache|]. intros l. apply reads_mret.
Qed.

Lemma writeCache_journal io n s : Forall (λ s', ns_journal s' = ns_journal s) (writeCache io n s).2.
Proof.
  apply Forall_forall. unfold writeCache. intros s' H. apply mbind_trace_read in H as (u & _ & H); [|auto with daxie].
  by apply list_elem_of_singleton in H as ->.
Qed.

Lemma Commit_journal io l s : Forall (λ s', ns_journal s' = ns_journal s) (Nonce.Commit io l s).2.
Proof. unfold Nonce.Commit. destruct (l_finished l); [constructor|apply writeCache_journal]. Qed.

Lemma ResetCache_journal io addr s : Forall (λ s', ns_journal s' = ns_journal s) (ResetCache io addr s).2.
Proof.
  apply Forall_forall. unfold ResetCache. intros s' H.
  apply mbind_trace_read in H as (u & _ & H); [|auto with daxie].
  apply mbind_trace_read in H as (j & _ & H); [|apply reads_journalNext].
  pose proof (writeCache_journal io j.1 s) as Hf. rewrite Forall_forall in Hf. by apply Hf.
Qed.
End NonceFacts.

Create HintDb keeps discriminated.
#[export] Hint Constants Opaque : keeps.
#[export] Hint Resolve preserves_ret preserves_fail preserves_lift preserves_get preserves_ask preserves_ask_rpc
  preserves_receipt_of preserves_engine preserves_Reserve preserves_Evaluate : keeps.

(** Step through an operation that keeps an assertion: sequences, case
    analysis, and the components. *)
Ltac keep_step :=
  match goal with
  | |- keeps ?ok ?P ?m (λ _, ?P) => change (preserves ok P m)
  | |- preserves _ _ (mbind _ _) => apply preserves_bind; [|intros ?]
  | |- preserves _ _ (if ?b then _ else _) => destruct b
  | |- preserves _ _ (match ?x with _ => _ end) => destruct x
  | |- preserves _ _ (mtry _) => apply preserves_mtry
  | |- preserves _ _ (mres _) => apply preserves_mres
  | |- preserves _ _ (nonces _ _ _) => apply preserves_nonces; intros; auto using AcquireNonce_journal, Commit_journal, ResetCache_journal
  | |- preserves _ _ (journal _ _) => apply preserves_read
  | |- preserves _ _ _ => solve [eauto 3 with keeps nocore]
  end.
Ltac keep := repeat keep_step.
