(* ===== verification/Broadcasts.v ===== *)
(** * No payload reaches the node unbacked

    Whatever the node, the clock and the file system answer, each payload handed
    to the node is the raw transaction of a journal record, and a record that
    shows no broadcast yet has its spend reserved at that moment. *)

From S2P Require Import Prelude GoStrings Decimal Rfc3339 HexBytes Encodings PolicyTypes Seal Domain PolicyFile Trace Evaluate Counter Reservation Engine PolicyAdmin EngineFacts Samples EngineProps Calldata Gas Lifecycle LifecycleProps Journal JournalFacts JournalProps Nonce Reconcile Service TxStatus Send TokenSend ServiceSamples ServiceFacts.

Local Open Scope string_scope.
Local Open Scope Z_scope.
Local Open Scope list_scope.
Local Open Scope go_scope.

(** ** Backing *)

Section Backing.
Context {UT : UnicodeTables} {GC : GethCommon} {RC : LineCodec Reservation} {JC : LineCodec JRecord} {MO : MapOrder}.

(** a reservation that holds the spend of a record *)
Record holds (rec : JRecord) (r : Reservation) : Prop := {
  ho_state : r_State r = stateReserved;
  ho_account : r_Account r = HexToAddress (j_From rec);
  ho_network : r_Network r = j_Network rec;
  ho_value : SetString (r_SpendWei r) 10 = Some (bigOrZero (j_ValueWei rec));
  ho_gas : SetString (r_MaxGasWei r) 10 = Some (bigOrZero (j_WorstCaseGasWei rec));
}.

(** a record without a recorded broadcast has its spend reserved; the kind
    "permit", which no send has, reserves nothing *)
Definition backing (rec : JRecord) (d : Disk) : Prop :=
  j_Status rec = StatusSigned → j_Kind rec ≠ "permit" →
  ∃ id r, status d id = Some r ∧ holds rec r.

Definition backed (s : Submission) : Prop :=
  ∃ chain rec, view (su_journals s !! chain) !! j_ID rec = Some rec ∧
               decodeHex (j_RawTx rec) = Some (su_raw s) ∧ backing rec (su_disk s).

Lemma reserved_holds rec c d r :
  reserved_for c d r → c_Account c = HexToAddress (j_From rec) → c_Network c = j_Network rec →
  spendWei c = bigOrZero (j_ValueWei rec) → PolicyTypes.maxGasWei c = bigOrZero (j_WorstCaseGasWei rec) →
  ∃ id r, status d id = Some r ∧ holds rec r.
Proof.
  intros (Hs & _ & id & now & ->) Ha Hn Hv Hg. exists (r_ID (newReservation id c now)), (newReservation id c now).
  split; [done|]. unfold newReservation, weiString. split; cbn; [done|done|done| |]; by rewrite SetString_z_string; congruence.
Qed.
End Backing.

Section Broadcasts.
Context {N : Type} {UT : UnicodeTables} {GC : GethCommon} {RC : LineCodec Reservation} {JC : LineCodec JRecord}
        {MO : MapOrder} {SC : SealCrypto} {EV : Environment N} {IC : Int64Conv}.
Variables (accounts : option (string → list Address)) (anchor : option Anchor) (cfg : TxConfig).
Variable refForAddress : Address → AccountRef.
Hypothesis ulid_nonempty : ∀ n : N, (reservation_ulid n).1 ≠ "".
(** the payloads handed over before *)
Variable before : list Submission.

Definition old_or_backed (s : Submission) : Prop := s ∈ before ∨ backed s.

Local Notation kept := (keeps old_or_backed).
Local Notation stays := (preserves old_or_backed).

Implicit Types (d : Disk) (j : gmap Z string) (v : gmap string JRecord).

(** [rec] is the latest of its identifier in the journal of [c], and the others
    are those of [v] *)
Definition others (c : Z) (rec : JRecord) v j : Prop :=
  ∀ x, x ≠ j_ID rec → view (j !! c) !! x = v !! x.
Definition held (c : Z) (rec : JRecord) v j : Prop :=
  view (j !! c) !! j_ID rec = Some rec ∧ others c rec v j.

Lemma only_record_others c rec v chain j j' :
  others c rec v j → only_record chain (j_ID rec) j j' → others c rec v j'.
Proof.
  intros H [H1 H2] x Hx. destruct (decide (c = chain)) as [->|Hne].
  - by rewrite H2, H.
  - by rewrite H1, H.
Qed.

Lemma stays_SetState c rec v chain mut :
  stays (λ _ j, others c rec v j) (journal_SetState chain (j_ID rec) mut).
Proof. apply preserves_SetState. intros j j'. apply only_record_others. Qed.

(** ** Rebroadcasting *)

Lemma doRebroadcast_kept c rec v id :
  kept (λ d j, held c rec v j ∧ backing rec d) (doRebroadcast rec id) (λ _ _ j, others c rec v j).
Proof.
  unfold doRebroadcast. apply keeps_lift_bind; [|by intros e d j _ [[_ ?] _]].
  intros raw Hraw. destruct (decodeHex (j_RawTx rec)) as [raw'|] eqn:E; [injection Hraw as ->|done].
  eapply keeps_bind; [apply keeps_send| |by intros e d j [[? [=]] _]].
  { intros d j [[Hv _] Hb]. right. by exists c, rec. }
  intros r. eapply keeps_conseq with (P := λ _ j, others c rec v j) (Q := λ _ _ j, others c rec v j);
    [|by intros d j [_ [[_ ?] _]]|done].
  apply preserves_bind; [keep|]. intros _. apply stays_SetState.
Qed.

Lemma held_kept {A} c rec v (m : T (SWorld N) A) Q :
  kept (λ _ j, others c rec v j) m Q → kept (λ _ j, held c rec v j) m Q.
Proof. intros H. eapply keeps_conseq; [exact H|by intros d j [_ ?]|done]. Qed.

Lemma rebroadcast_signed_kept c rec v :
  j_Status rec = StatusSigned →
  kept (λ _ j, held c rec v j) (rebroadcast_signed accounts anchor rec) (λ _ _ j, others c rec v j).
Proof.
  intros Hs. unfold rebroadcast_signed.
  eapply keeps_bind; [by apply keeps_Reserve| |by intros e d j [[_ ?] _]].
  intros o. eapply keeps_bind; [apply keeps_mtry|..].
  - eapply keeps_conseq; [apply (doRebroadcast_kept c rec v)| |done].
    intros d j [Hh Ho]. split; [done|]. intros _ Hk. specialize (Ho o eq_refl). destruct o as [x|].
    + by eapply reserved_holds.
    + exfalso. apply Hk. revert Ho. unfold effectiveKind. cbn [recheck c_KindEnum c_Kind].
      destruct (_ || _); [done|]. case_bool_decide; done.
  - intros sent. eapply keeps_conseq with (P := λ _ j, others c rec v j) (Q := λ _ _ j, others c rec v j);
      [|by intros d j (x & _ & ?)|done].
    change (stays (λ _ j, others c rec v j)
      (match sent with Some e => mtry (policy_Release (reservation_id o)) ;;; mfail e
       | None => policy_Commit (reservation_id o) (HexToHash (j_TxHash rec)) ;;; mret true end)).
    unfold policy_Release, policy_Commit. keep.
  - by intros e d j (x & _ & ?).
Qed.

Lemma rebroadcast_broadcast_kept c rec v :
  j_Status rec ≠ StatusSigned →
  kept (λ _ j, held c rec v j) (rebroadcast_broadcast rec) (λ _ _ j, others c rec v j).
Proof.
  intros Hs. unfold rebroadcast_broadcast.
  apply keeps_bind with (Q := λ r d j, match r with Ok _ => held c rec v j | Err _ => others c rec v j end); [|..|done].
  - destruct (_ && _); [|by apply keeps_ret].
    apply keeps_bind with (Q := λ _ d j, held c rec v j); [|intros o|by intros e d j [_ ?]].
    { apply preserves_mtry. unfold policy_Commit. apply preserves_engine. }
    destruct o as [e|]; [|by apply keeps_ret].
    destruct (bool_decide _); [|by apply keeps_fail; intros d j [_ ?]].
    apply keeps_bind with (Q := λ _ d j, others c rec v j); [|intros _; by apply keeps_fail|done].
    apply held_kept, preserves_mtry, stays_SetState.
  - intros _. apply keeps_bind with (Q := λ _ d j, others c rec v j); [|intros _; by apply keeps_ret|done].
    eapply keeps_conseq; [apply (doRebroadcast_kept c rec v)| |done]. intros d j Hh. split; [exact Hh|]. intros Hsig. by destruct Hs.
Qed.

Lemma rebroadcast_kept c rec v :
  kept (λ _ j, held c rec v j) (rebroadcast accounts anchor rec) (λ _ _ j, others c rec v j).
Proof.
  unfold rebroadcast.
  apply keeps_bind with (Q := λ _ d j, held c rec v j); [apply preserves_receipt_of| |by intros e d j [_ ?]].
  intros [x|]; [by apply keeps_ret; intros d j [_ ?]|].
  destruct (linked rec); [by apply keeps_ret; intros d j [_ ?]|].
  apply keeps_bind with (Q := λ _ d j, held c rec v j); [apply preserves_ask_rpc| |by intros e d j [_ ?]].
  intros n. destruct (j_Nonce rec <? n).
  { apply held_kept, preserves_bind; [|intros _; apply preserves_ret]. apply preserves_mtry, stays_SetState. }
  case_bool_decide; [by apply rebroadcast_signed_kept|].
  destruct (rides _); [by apply rebroadcast_broadcast_kept|]. by apply keeps_ret; intros d j [_ ?].
Qed.

(** every record of the list is the latest of its identifier *)
Definition all_held (c : Z) (recs : list JRecord) j : Prop :=
  ∀ rec, rec ∈ recs → view (j !! c) !! j_ID rec = Some rec.

Lemma resurrect_all_kept c recs :
  NoDup (map j_ID recs) → kept (λ _ j, all_held c recs j) (resurrect_all accounts anchor recs) (λ _ _ _, True).
Proof.
  induction recs as [|rec recs IH]; intros Hnd; cbn [resurrect_all]; [by apply keeps_ret|].
  cbn [map] in Hnd. apply NoDup_cons in Hnd as [Hno Hnd].
  apply keeps_bind with (Q := λ _ d j, all_held c recs j); [|intros _; by apply IH|done].
  assert (Hweak : ∀ v j, (∀ x, x ∈ recs → v !! j_ID x = Some x) → others c rec v j → all_held c recs j).
  { intros v j Hv Ho x Hx. rewrite Ho; [by apply Hv|]. intros He. apply Hno. rewrite <-He.
    by apply list_elem_of_fmap_2. }
  case_bool_decide.
  { apply keeps_ret. intros d j Hall x Hx. apply Hall. by right. }
  eapply keeps_conseq with (P := λ d j, ∃ v, (∀ x, x ∈ recs → v !! j_ID x = Some x) ∧ held c rec v j)
                           (Q := λ _ d j, all_held c recs j).
  - apply keeps_exists. intros v.
    eapply keeps_conseq with (P := λ d j, (∀ x, x ∈ recs → v !! j_ID x = Some x) ∧ held c rec v j);
      [|done|intros r d j Hx; exact Hx].
    intros w Hw [Hv Hh] HC.
    destruct (keeps_mtry old_or_backed _ _ _ (rebroadcast_kept c rec v) w Hw Hh HC) as [H1 (x & _ & H2)].
    split; [done|]. by apply (Hweak v).
  - intros d j Hall. exists (view (j !! c)). split; [intros x Hx; apply Hall; by right|].
    split; [apply Hall; left|]. by intros x _.
  - done.
Qed.

Lemma enum_nodup (m : gmap string JRecord) :
  (∀ id r, m !! id = Some r → j_ID r = id) → NoDup (map j_ID (enum m)).
Proof.
  intros Hk.
  assert (H : map j_ID (enum m) ≡ₚ map j_ID (map_to_list m).*2).
  { apply Permutation_map, enum_perm. }
  rewrite H. replace (map j_ID (map_to_list m).*2) with (map_to_list m).*1; [apply NoDup_fst_map_to_list|].
  change (map j_ID (map_to_list m).*2) with (j_ID <$> (map_to_list m).*2).
  rewrite <-list_fmap_compose. apply list_fmap_ext. intros i [k r] Hi. simpl.
  symmetry. apply Hk, elem_of_map_to_list. by eapply list_elem_of_lookup_2.
Qed.

Lemma resurrectUnresolved_kept (P : Disk → gmap Z string → Prop) c :
  kept P (resurrectUnresolved accounts anchor c) (λ _ _ _, True).
Proof.
  unfold resurrectUnresolved.
  eapply keeps_bind; [apply keeps_mres, (keeps_read _ P)| |done].
  intros [recs|e]; [|by apply keeps_ret].
  intros w Hw (x & [= <-] & _ & Hrd). destruct (Hrd recs eq_refl) as (io & [= Hrecs]).
  refine (resurrect_all_kept c recs _ w Hw _).
  - rewrite <-Hrecs. unfold sortBySeqDesc. rewrite stable_sort_perm. apply NoDup_map_filter, enum_nodup, fold_key.
  - intros rec Hin. rewrite <-Hrecs in Hin. unfold sortBySeqDesc in Hin. rewrite stable_sort_perm in Hin.
    apply list_elem_of_In, filter_In in Hin as [Hin _]. apply list_elem_of_In in Hin.
    apply enum_elem in Hin as (id & Hid). by rewrite (fold_key _ _ _ Hid).
Qed.

(** ** Waiting *)

(** operations under no assertion *)
Definition any : Disk → gmap Z string → Prop := λ _ _, True.

Lemma safe_SetState chain id mut : stays any (journal_SetState chain id mut).
Proof. by apply (preserves_SetState old_or_backed (λ _, True)). Qed.
Lemma safe_engine (op : IO → Z → M ()) : stays any (engine op).
Proof. by apply (preserves_engine old_or_backed (λ _, True)). Qed.
Lemma safe_Reserve c : stays any (policy_Reserve accounts anchor c).
Proof. by apply (preserves_Reserve old_or_backed accounts anchor ulid_nonempty (λ _, True)). Qed.
Lemma safe_Evaluate c : stays any (policy_Evaluate accounts anchor c).
Proof. by apply (preserves_Evaluate old_or_backed accounts anchor (λ _, True)). Qed.

Lemma to_any {A} P Q (m : T (SWorld N) A) : kept P m Q → kept P m (λ _, any).
Proof. intros H. by eapply keeps_conseq; [exact H| |]. Qed.

Lemma from_any {A} P (m : T (SWorld N) A) : stays any m → kept P m (λ _, any).
Proof. intros H. by eapply keeps_conseq; [exact H| |]. Qed.

#[local] Hint Resolve safe_SetState safe_engine safe_Reserve safe_Evaluate : keeps.

Lemma safe_recordTerminal c rec st rcpt : stays any (recordTerminal c rec st rcpt).
Proof. unfold recordTerminal, policy_SettleActual. keep. Qed.
Lemma safe_recordConfirmed c rec rcpt : stays any (recordConfirmed c rec rcpt).
Proof. unfold recordConfirmed, policy_SettleActual. keep. Qed.
#[local] Hint Resolve safe_recordTerminal safe_recordConfirmed : keeps.

Lemma safe_observe c hash rec network target : stays any (observe c hash rec network target).
Proof. unfold observe. keep. Qed.

(** a result that is not "dropped" *)
Lemma kept_not_dropped {A} P (m : T (SWorld N) A) (out : TxResult) st (e : option error) c rec v :
  st ≠ waitDropped → stays any m →
  kept P (m ;;; mret (out, st, e))
    (λ r d j, ∀ o err, r = Ok (o, waitDropped, err) → held c rec v j).
Proof.
  intros Hst Hm. apply keeps_bind with (Q := λ _, any); [by apply from_any|intros _|done].
  apply keeps_ret. intros d j _ o err [= _ Hd _]. done.
Qed.

Lemma kept_ret_state (P : Disk → gmap Z string → Prop) (out : TxResult) st (e : option error) c rec v :
  (st = waitDropped → ∀ d j, P d j → held c rec v j) →
  kept P (mret (S := SWorld N) (out, st, e)) (λ r d j, ∀ o err, r = Ok (o, waitDropped, err) → held c rec v j).
Proof. intros H. apply keeps_ret. intros d j HP o err [= _ Hd _]. by eapply H. Qed.

Lemma observe_kept cid c hash rec v network target :
  kept (λ _ j, held c rec v j) (observe cid hash (Some rec) network target)
    (λ r d j, ∀ o err, r = Ok (o, waitDropped, err) → held c rec v j).
Proof.
  unfold observe. cbv zeta.
  apply keeps_bind with (Q := λ _ d j, held c rec v j); [apply preserves_mres, preserves_receipt_of| |by intros e ?? _ o err [=]].
  intros [[rcpt|]|e]; [| |by apply kept_ret_state].
  - apply keeps_bind with (Q := λ _ d j, held c rec v j); [apply preserves_mres, preserves_ask_rpc| |by intros e ?? _ o err [=]].
    intros [head|e]; [|by apply kept_ret_state].
    destruct (cr_Status rcpt =? 0); [apply kept_not_dropped; [done|eauto with keeps]|].
    case_match; [apply kept_not_dropped; [done|eauto with keeps]|by apply kept_ret_state].
  - apply keeps_bind with (Q := λ _ d j, held c rec v j); [apply preserves_mres, preserves_ask_rpc| |by intros e ?? _ o err [=]].
    intros [n|e]; [|by apply kept_ret_state].
    destruct (linked rec); [apply kept_not_dropped; [done|eauto with keeps]|].
    destruct (j_Nonce rec <? n); [apply kept_not_dropped; [done|eauto with keeps]|by apply kept_ret_state].
Qed.

(** the record a hash names is the latest of its identifier *)
Lemma record_of_kept P c hash :
  kept P (record_of c hash)
    (λ r d j, match r with
              | Ok (Some rec) => ∃ v, held (wrap64 c) rec v j
              | _ => True
              end).
Proof.
  unfold record_of.
  eapply keeps_bind; [apply keeps_mres, (keeps_read _ P)| |done].
  intros [rec|e]; [|by destruct (is_not_found e); [apply keeps_ret|apply keeps_fail]].
  apply keeps_ret. intros d j (x & [= <-] & _ & Hrd). destruct (Hrd rec eq_refl) as (io & Hf).
  unfold found_or_missing in Hf.
  match type of Hf with context [newest ?t ?l] => pose proof (newest_enum t (view (j !! wrap64 c))) as Hn; destruct (newest t l) end;
    [|done]. injection Hf as ->. destruct Hn as (_ & (id & Hid) & _).
  exists (view (j !! wrap64 c)). split; [|by intros x _]. by rewrite (fold_key _ _ _ Hid).
Qed.

Lemma safe_rebroadcast_of c rec v :
  kept (λ _ j, held c rec v j) (mtry (rebroadcast accounts anchor rec)) (λ _, any).
Proof. eapply to_any, keeps_mtry, rebroadcast_kept. Qed.

Lemma safe_wait_round c hash network target : stays any (wait_round accounts anchor c hash network target).
Proof.
  unfold wait_round.
  apply keeps_bind with (Q := λ r d j, ∃ x, r = Ok x ∧ match x with
    | Ok (Some rec) => ∃ v, held (wrap64 c) rec v j | _ => True end); [apply keeps_mres, record_of_kept| |done].
  intros [[rec|]|e]; [| |by apply keeps_ret].
  - eapply keeps_conseq with (P := λ d j, ∃ v, held (wrap64 c) rec v j) (Q := λ _, any);
      [|by intros d j (x & [= <-] & ?)|done].
    apply keeps_exists. intros v. eapply keeps_bind; [apply (observe_kept c (wrap64 c))| |done].
    intros [[out st] err].
    destruct err as [e|]; [by apply keeps_ret|].
    destruct st; try (by apply keeps_ret); [by destruct (_ <=? _); apply keeps_ret|].
    apply keeps_bind with (Q := λ _, any); [|intros r; by destruct r; apply keeps_ret|done].
    eapply keeps_conseq; [apply (safe_rebroadcast_of (wrap64 c) rec v)| |done].
    intros d j H. by eapply H.
  - eapply keeps_conseq with (P := any) (Q := λ _, any); [|done|done].
    apply (preserves_bind _ any); [apply safe_observe|]. intros [[out st] err].
    keep.
Qed.

Lemma safe_wait_loop rounds c hash network target deadline poll :
  stays any (wait_loop accounts anchor rounds c hash network target deadline poll).
Proof.
  induction rounds as [|rounds IH]; cbn [wait_loop]; [keep|].
  apply preserves_bind; [apply safe_wait_round|]. intros [o|out]; [keep|].
  apply preserves_bind; [keep|]. intros now. destruct (negb _); [keep|].
  apply preserves_bind; [keep|]. intros [e|]; [keep|done].
Qed.

Lemma safe_waitOnHash rounds network hash c wait :
  stays any (waitOnHash accounts anchor cfg rounds network hash c wait).
Proof. apply preserves_bind; [keep|]. intros now. apply safe_wait_loop. Qed.

Lemma safe_resurrect c : stays any (resurrectUnresolved accounts anchor c).
Proof. apply resurrectUnresolved_kept. Qed.

Lemma safe_record_of c hash : stays any (record_of c hash).
Proof. by eapply to_any, record_of_kept. Qed.

(** ** Sending *)

(** the signed record of an authorized send is in the journal and its spend is reserved *)
Definition authorized_backed (a : authorized) d j : Prop :=
  ∃ chain rec, view (j !! chain) !! j_ID rec = Some rec ∧
               decodeHex (j_RawTx rec) = Some (au_raw a) ∧ backing rec d.

Lemma intent_check_fields pin i nonce c cls :
  intent_check pin i nonce = Ok (c, cls) →
  c_Account c = in_from i ∧ c_Network c = in_network i ∧ c_SpendWei c = Some (in_value i) ∧
  c_MaxGasWei c = Some (worst_case (in_gas i)) ∧
  (effectiveKind c = KindPermit → in_kind i = "permit").
Proof.
  unfold intent_check. intros (c0 & Hp & H)%rbind_ok. injection H as H.
  assert (Hc0 : ∃ dest src input ens resolved, c0 = with_provenance (authorize_check i nonce) dest src input ens resolved).
  { unfold applyDestProvenance in Hp. destruct (bool_decide _).
    - apply rbind_ok in Hp as (p & _ & Hp). injection Hp as <-. eauto 10.
    - destruct (bool_decide _); [|injection Hp as <-; eauto 10].
      apply rbind_ok in Hp as (p & _ & Hp). injection Hp as <-. eauto 10. }
  destruct Hc0 as (dest & src & input & ens & resolved & ->). clear Hp.
  assert (Hk : ∀ c', c_KindEnum c' = KindUnknown → c_Kind c' = policyCheckKind i →
               effectiveKind c' = KindPermit → in_kind i = "permit").
  { intros c' H1 H2. unfold effectiveKind. rewrite H1, H2. destruct (_ || _); [done|].
    case_bool_decide as Hb; [|done]. unfold policyCheckKind in Hb. by destruct (in_policyKind i). }
  unfold classifyContractSend in H. destruct (negb _); [injection H as <- <-; split_and!; [done..|by apply Hk]|].
  destruct (ClassifyCalldata _ _ _) as [cc|] eqn:E; injection H as <- _; split_and!; try done; [|by apply Hk].
  intros He. exfalso. revert He. unfold ClassifyCalldata in E.
  destruct (ClassifySelector (in_data i)) as [cls'|]; [|done]. simpl in E.
  destruct (sc_Kind cls'); [done|injection E as <-; done|injection E as <-; done].
Qed.

Lemma sign_and_journal_kept (i : Intent) nonce rid (c : Check) o :
  valid_addr (in_from i) → rid = reservation_id o →
  c_Account c = in_from i → c_Network c = in_network i → c_SpendWei c = Some (in_value i) →
  c_MaxGasWei c = Some (worst_case (in_gas i)) → (effectiveKind c = KindPermit → in_kind i = "permit") →
  kept (λ d j, match o with Some x => reserved_for c d x | None => effectiveKind c = KindPermit end)
    (sign_and_journal i nonce rid)
    (λ r d j, ∀ raw hash rec, r = Ok (raw, hash, rec) →
       view (j !! j_ChainID rec) !! j_ID rec = Some rec ∧ decodeHex (j_RawTx rec) = Some raw ∧ backing rec d).
Proof.
  intros Ha Hrid Hca Hcn Hcv Hcg Hck. unfold sign_and_journal.
  eapply keeps_bind; [apply preserves_ask| |by intros e d j _ raw hash rec [=]].
  assert (Hfail : ∀ e, stays any (mtry (policy_Release (N := N) rid) ;;; mfail (A := string * Hash * JRecord) e))
    by (intros e; unfold policy_Release; keep).
  assert (Hfail' : ∀ P e, kept P (mtry (policy_Release rid) ;;; mfail (A := string * Hash * JRecord) e)
    (λ r d j, ∀ raw hash rec, r = Ok (raw, hash, rec) →
       view (j !! j_ChainID rec) !! j_ID rec = Some rec ∧ decodeHex (j_RawTx rec) = Some raw ∧ backing rec d)).
  { intros P e. apply keeps_bind with (Q := λ _, any); [|intros _; by apply keeps_fail|done].
    apply from_any. unfold policy_Release. keep. }
  intros [[raw hash]|e]; [|apply Hfail'].
  set (srec := signedRecord i nonce hash raw rid (worst_case (in_gas i))).
  eapply keeps_bind; [apply keeps_mres|..].
  - apply (keeps_Append _ (λ d j, match o with Some x => reserved_for c d x | None => effectiveKind c = KindPermit end) srec).
  - intros [rec|e]; [|apply Hfail'].
    apply keeps_ret. intros d j (x & [= <-] & H) raw' hash' rec' [= <- <- <-].
    destruct (H rec eq_refl) as ((id & seq & now & ->) & Hv & _ & Hres).
    split; [exact Hv|]. split; [apply decodeHex_hexBytes|].
    intros _ Hperm. destruct o as [x|]; [|by destruct Hperm; apply Hck].
    apply (reserved_holds _ c d x Hres).
    + cbn. by rewrite HexToAddress_Hex.
    + done.
    + cbn. unfold spendWei. by rewrite Hcv, bigOrZero_z_string.
    + cbn. unfold PolicyTypes.maxGasWei. by rewrite Hcg, bigOrZero_z_string.
  - by intros e d j (x & [=] & _).
Qed.

Lemma authorize_kept i :
  valid_addr (in_from i) →
  kept any (authorize accounts anchor i) (λ r d j, ∀ a, r = Ok a → authorized_backed a d j).
Proof.
  intros Ha. unfold authorize.
  apply keeps_bind with (Q := λ _, any); [apply safe_resurrect|intros _|by intros e d j _ a [=]].
  apply keeps_bind with (Q := λ _, any); [apply preserves_ask_rpc|intros p|by intros e d j _ a [=]].
  apply keeps_bind with (Q := λ _, any); [|intros [l warned]|by intros e d j _ a [=]].
  { apply preserves_nonces. intros io s. apply AcquireNonce_journal. }
  apply keeps_bind with (Q := λ _, any); [unfold pins; keep|intros pin|by intros e d j _ a [=]].
  apply keeps_lift_bind; [|by intros e d j _ _ a [=]].
  intros [c cls] (Hca & Hcn & Hcv & Hcg & Hck)%intent_check_fields. cbn [fst].
  eapply keeps_bind; [apply keeps_mres, (keeps_Reserve _ _ _ ulid_nonempty (λ _, True))| |by intros e d j _ a [=]].
  intros [o|e]; [|by apply keeps_fail; intros d j _ a [=]].
  eapply keeps_conseq with
    (P := λ d j, match o with Some x => reserved_for c d x | None => effectiveKind c = KindPermit end)
    (Q := λ r d j, ∀ a, r = Ok a → authorized_backed a d j); [| |done].
  - eapply keeps_bind; [by apply (sign_and_journal_kept i _ _ c o)| |by intros e d j _ a [=]].
    intros [[raw hash] rec]. apply keeps_ret. intros d j H a [= <-].
    destruct (H raw hash rec eq_refl) as (H1 & H2 & H3). by exists (j_ChainID rec), rec.
  - intros d j (x & [= <-] & _ & Hx). by apply Hx.
Qed.

Lemma broadcast_kept a :
  kept (authorized_backed a) (broadcast a) (λ _, any).
Proof.
  unfold broadcast. generalize (mkGoError "" None false). generalize backoffs. intros ds.
  induction ds as [|t ds IH]; intros last; cbn [broadcast_loop]; [by apply keeps_ret|].
  apply keeps_bind with (Q := λ _, authorized_backed a); [keep|intros o|done].
  destruct o as [e|]; [by apply keeps_ret|].
  eapply keeps_bind; [apply keeps_send| |done].
  - intros d j (chain & rec & H). right. by exists chain, rec.
  - intros [h|e]; [by apply keeps_ret|]. destruct (classifyBroadcastErr e) as [[outcome mapped] retry].
    destruct (negb retry); [by apply keeps_ret|].
    eapply keeps_conseq; [apply IH|by intros d j [_ ?]|done].
Qed.

Lemma safe_lease_Commit a : stays any (lease_Commit a).
Proof. apply preserves_nonces. intros io s. apply Commit_journal. Qed.
#[local] Hint Resolve safe_lease_Commit : keeps.

Lemma safe_abort a : stays any (abort a).
Proof. unfold abort, abort_status, policy_Release, ByID. keep. Qed.
#[local] Hint Resolve safe_abort : keeps.

Lemma safe_settle_or_abort a st gas : stays any (settle_or_abort a st gas).
Proof. unfold settle_or_abort, settle, settle_stores, policy_Commit, policy_SettleActual. keep. Qed.
#[local] Hint Resolve safe_settle_or_abort : keeps.

Lemma safe_conclude i a o berr : stays any (conclude i a o berr).
Proof. unfold conclude. keep. Qed.

Lemma safe_runSend_core i : valid_addr (in_from i) → stays any (runSend_core accounts anchor i).
Proof.
  intros Ha. unfold runSend_core.
  eapply keeps_bind; [apply keeps_mres, (authorize_kept i Ha)| |done].
  intros [a|e]; [|by apply keeps_ret].
  apply keeps_bind with (Q := λ _, any); [|intros b|done].
  - eapply keeps_conseq; [apply broadcast_kept| |done]. intros d j (x & [= <-] & H). by apply H.
  - apply preserves_bind; [apply safe_conclude|]. intros o. keep.
Qed.

Lemma safe_runSend rounds i wait :
  valid_addr (in_from i) → stays any (runSend accounts anchor cfg rounds i wait).
Proof.
  intros Ha. unfold runSend. apply preserves_bind; [by apply safe_runSend_core|].
  intros [[o|] [a|]]; [keep|keep| |keep]. destruct (wo_Enabled wait); [|keep].
  apply preserves_bind; [apply safe_waitOnHash|]. intros w. keep.
Qed.

(** ** The operations *)

Lemma previewGas_from i req i' w tr :
  previewGas cfg i req w = (Ok i', tr) → in_from i' = in_from i.
Proof.
  unfold previewGas. intros H. minv.
  repeat match goal with
  | H : context [if ?b then _ else _] |- _ => destruct b; minv
  end; match goal with H : i' = _ |- _ => rewrite H | _ => idtac end; done.
Qed.

Lemma safe_SendTx rounds i req dry unlock wait :
  valid_addr (in_from i) → stays any (SendTx accounts anchor cfg rounds i req dry unlock wait).
Proof.
  intros Ha. unfold SendTx.
  apply keeps_bind with (Q := λ r d j, ∀ i', r = Ok (Ok i') → in_from i' = in_from i); [| |done].
  - intros w Hw _ HC.
    assert (Hs : stays any (mres (previewGas cfg i req))).
    { unfold previewGas, ask_limit. keep. }
    destruct (Hs w Hw I HC) as [H1 _]. split; [done|]. intros i' Hr.
    unfold mres in Hr. destruct (previewGas cfg i req w) as [r tr] eqn:E. cbn in Hr. injection Hr as ->.
    by eapply previewGas_from.
  - intros [i'|e]; [|by apply keeps_ret]. apply keeps_pure. intros Hf. specialize (Hf i' eq_refl).
    rewrite <-Hf in Ha.
    change (stays any (if dry then o <-- dryRun accounts anchor i' ;; mret (Some o)
                       else match unlock with Some e => mret (Some (failed_with e))
                            | None => runSend accounts anchor cfg rounds i' wait end)).
    destruct dry; [|destruct unlock; [keep|by apply safe_runSend]].
    unfold dryRun, pins. keep.
Qed.

Lemma replacement_from orig a c src q : in_from (replacement refForAddress orig a c src q) = HexToAddress (j_From orig).
Proof. done. Qed.

Lemma safe_replace rounds a c src unlock :
  stays any (replace accounts anchor cfg refForAddress rounds a c src unlock).
Proof.
  unfold replace. destruct (parseHash _) as [hash|e]; [|keep].
  apply preserves_bind; [apply preserves_mres, safe_record_of|]. intros [[orig|]|e]; [|keep|keep].
  apply preserves_bind; [keep|]. intros [[rcpt|]|e]; [keep| |keep].
  destruct (IsTerminal _); [keep|].
  apply keeps_bind with (Q := λ r d j, ∀ i, r = Ok (Ok i) → valid_addr (in_from i)); [| |done].
  - intros w Hw _ HC.
    assert (Hs : stays any (mres (replacementIntent cfg refForAddress orig a c src))).
    { unfold replacementIntent, ask_bump. keep. }
    destruct (Hs w Hw I HC) as [H1 _]. split; [done|]. intros i Hr.
    unfold mres in Hr. destruct (replacementIntent _ _ _ _ _ _ w) as [r tr] eqn:E. cbn in Hr. injection Hr as ->.
    unfold replacementIntent in E. minv. apply HexToAddress_range.
  - intros [i|e]; [|by apply keeps_ret]. apply keeps_pure. intros Hi. specialize (Hi i eq_refl).
    destruct unlock; [by apply keeps_ret|].
    change (stays any (o <-- runReplaceSend accounts anchor cfg rounds i orig (ra_wait a) ;;
      mret ((λ o : Outcome, match o.2 with Some _ => o | None => (res_replaced o.1 (ra_hash a), None) end) <$> o))).
    apply preserves_bind; [|intros o; keep]. unfold runReplaceSend.
    apply preserves_bind; [by apply safe_runSend|]. intros [[out [e|]]|]; [keep| |keep].
    apply preserves_bind; [keep|]. intros _. destruct (wo_Enabled _); [apply safe_waitOnHash|keep].
Qed.

Lemma safe_TxStatus h network c : stays any (TxStatus accounts anchor cfg h network c).
Proof.
  unfold TxStatus. destruct (parseHash h) as [hash|e]; [|keep].
  apply preserves_bind; [apply safe_resurrect|]. intros _.
  apply preserves_bind; [apply preserves_mres, safe_record_of|]. intros [rec|e]; [|keep].
  apply preserves_bind; [apply safe_observe|]. intros [[out st] err]. keep.
Qed.

Lemma safe_WaitTx rounds h network c confs timeout : stays any (WaitTx accounts anchor cfg rounds h network c confs timeout).
Proof.
  unfold WaitTx. destruct (parseHash h) as [hash|e]; [|keep].
  apply preserves_bind; [apply preserves_mres, safe_record_of|]. intros [rec|e]; [|keep].
  apply safe_waitOnHash.
Qed.

Lemma safe_ListTxs c from limit : stays any (ListTxs accounts anchor c from limit).
Proof. unfold ListTxs, List_. apply preserves_bind; [apply safe_resurrect|]. intros _. keep. Qed.

Lemma safe_AbandonTx h c : stays any (AbandonTx (N := N) h c).
Proof.
  unfold AbandonTx, policy_Release. apply preserves_bind; [keep|]. intros hash.
  apply preserves_bind; [apply safe_record_of|]. intros [rec|]; [|keep]. keep.
Qed.
End Broadcasts.

(** ** Every run of the service *)

Section Runs.
Context {N : Type} {UT : UnicodeTables} {GC : GethCommon} {RC : LineCodec Reservation} {JC : LineCodec JRecord}
        {MO : MapOrder} {SC : SealCrypto} {EV : Environment N} {IC : Int64Conv}.
Variables (accounts : option (string → list Address)) (anchor : option Anchor) (cfg : TxConfig).
Variable refForAddress : Address → AccountRef.

(** an operation of the service, with all its arguments *)
Inductive operation :=
| OpSend (rounds : nat) (i : Intent) (req : GasReq) (dry : bool) (unlock : option error) (wait : WaitOpts) :
    valid_addr (in_from i) → operation
| OpReplace (rounds : nat) (a : replaceArgs) (chainID : Z) (source : string) (unlock : option error)
| OpStatus (hash network : string) (chainID : Z)
| OpWait (rounds : nat) (hash network : string) (chainID : Z) (confs : option Z) (timeout : Z)
| OpList (chainID : Z) (from : Address) (limit : Z)
| OpAbandon (hash : string) (chainID : Z).

(** the states an operation goes through *)
Definition perform (o : operation) (w : SWorld N) : list (SWorld N) :=
  match o with
  | OpSend rounds i req dry unlock wait _ => (SendTx accounts anchor cfg rounds i req dry unlock wait w).2
  | OpReplace rounds a c source unlock => (replace accounts anchor cfg refForAddress rounds a c source unlock w).2
  | OpStatus h network c => (TxStatus accounts anchor cfg h network c w).2
  | OpWait rounds h network c confs timeout => (WaitTx accounts anchor cfg rounds h network c confs timeout w).2
  | OpList c from limit => (ListTxs accounts anchor c from limit w).2
  | OpAbandon h c => (AbandonTx h c w).2
  end.

(** One operation up to a crash or its end, or a change outside; the sequence
    numbers of no journal run out during it. *)
Inductive service_step (w w' : SWorld N) : Prop :=
| st_operation (o : operation) : Forall roomy (w :: perform o w) → w' ∈ perform o w → service_step w w'
| st_outside n : w' = set_outside w n → service_step w w'.

Definition service_run : relation (SWorld N) := rtc service_step.

Hypothesis ulid_nonempty : ∀ n : N, (reservation_ulid n).1 ≠ "".

Lemma perform_sound before o w :
  sound (old_or_backed before) w → Forall roomy (w :: perform o w) →
  Forall (sound (old_or_backed before)) (perform o w).
Proof.
  intros Hw HC.
  assert (H : ∀ A (m : T (SWorld N) A), preserves (old_or_backed before) any m → (m w).2 = perform o w →
              Forall (sound (old_or_backed before)) (perform o w)).
  { intros A m Hm E. rewrite <-E in HC |- *. by apply (Hm w Hw I HC). }
  destruct o; cbn [perform] in *; (eapply H; [|reflexivity]).
  - by apply safe_SendTx.
  - by apply safe_replace.
  - by apply safe_TxStatus.
  - by apply safe_WaitTx.
  - by apply safe_ListTxs.
  - apply safe_AbandonTx.
Qed.

Lemma service_step_sound before w w' :
  service_step w w' → sound (old_or_backed before) w → sound (old_or_backed before) w'.
Proof.
  intros [o HC Hin|n ->] Hw; [|done].
  pose proof (perform_sound before o w Hw HC) as H. rewrite Forall_forall in H. by apply H.
Qed.

(** C4: no payload reaches the node unbacked.  Along every run of sends, dry
    runs, speedups, cancels, status queries, waits, listings and abandons, cut
    short anywhere by crashes, whatever the node, the clock, the signer and the
    file system answer: each payload handed to the node is, at that moment, the
    raw transaction of the latest record of an identifier in a journal, and when
    that record shows no broadcast, the reservation log holds a reservation of
    its account, network, value and worst-case gas. *)
Theorem broadcasts_are_backed w w' :
  (∀ c, journal_inv (sw_journals w !! c)) → service_run w w' →
  ∀ s, s ∈ sw_sent w' → s ∈ sw_sent w ∨ backed s.
Proof.
  intros Hj Hrun.
  assert (Hgen : ∀ before, sound (old_or_backed before) w → sound (old_or_backed before) w').
  { intros before. clear Hj. induction Hrun as [|w w1 w' Hst _ IH]; [done|]. intros H.
    by apply IH, (service_step_sound _ _ _ Hst). }
  destruct (Hgen (sw_sent w)) as [H _].
  - split; [|done]. apply Forall_forall. intros s Hs. by left.
  - rewrite Forall_forall in H. apply H.
Qed.
End Runs.

(** ** Witness *)

(** room in every journal, by evaluation *)
Definition rooms (w : SWorld Z) : bool := forallb (λ x, max_seq (records (Some x.2)) + 1 <? 2 ^ 64) (map_to_list (sw_journals w)).

Lemma roomy_rooms w : rooms w = true → roomy w.
Proof.
  unfold rooms, roomy. rewrite forallb_forall. intros H c. unfold seq_room.
  destruct (sw_journals w !! c) as [f|] eqn:E; [|done].
  specialize (H (c, f)). apply Z.ltb_lt, H, list_elem_of_In, elem_of_map_to_list, E.
Qed.

Lemma roomy_all ws : forallb rooms ws = true → Forall roomy ws.
Proof.
  rewrite forallb_forall. intros H. apply Forall_forall. intros w Hw. by apply roomy_rooms, H, list_elem_of_In.
Qed.

Lemma after_nonempty {S} (w : S) ws : negb (Nat.eqb (List.length ws) 0) = true → after w ws ∈ ws.
Proof. unfold after. destruct ws as [|x ws _] using rev_ind; [done|]. intros _. rewrite List.last_last. set_solver. Qed.

(** the sample outside with a journal that can be read and not written *)
#[local] Instance read_only : Environment Z :=
  sample_env (mkJIO None None None (Some (0%nat, New CodeInternal "no space left")) true None).

(** a crash left a signed record; a status query sends it again *)
Definition signed_world : SWorld Z :=
  mkSWorld None empty_disk {[1 := unlines (map encode_line [authorized_record])]} ∅ [] 0.

Definition queried_world : SWorld Z :=
  after signed_world (TxStatus None None sample_tx_config (hex64 77) "main" 1 signed_world).2.

Lemma signed_journals c : journal_inv (sw_journals signed_world !! c).
Proof.
  destruct (decide (c = 1)) as [->|Hne].
  - change (sw_journals signed_world !! 1) with (Some (unlines (map encode_line [authorized_record]))).
    rewrite <-authorized_journal. pose proof (complete_wf _ _ authorized_complete) as [Hwf Hr].
    split; [exact Hwf|]. rewrite Hr. split; [repeat constructor; by vm_compute|apply NoDup_singleton].
  - cbn [signed_world sw_journals]. rewrite lookup_singleton_ne by done. split; [done|]. split; constructor.
Qed.

Lemma broadcasts_are_backed_witness :
  map su_raw (sw_sent queried_world) = ["raw"] ∧ ∀ s, s ∈ sw_sent queried_world → s ∈ [] ∨ backed s.
Proof.
  split; [by vm_compute|].
  apply (broadcasts_are_backed None None sample_tx_config (λ _, in_ref sample_intent)) with (w := signed_world).
  - intros n. discriminate.
  - apply signed_journals.
  - apply rtc_once. apply (st_operation None None sample_tx_config (λ _, in_ref sample_intent) signed_world queried_world
      (OpStatus (hex64 77) "main" 1)).
    + apply roomy_all. by vm_compute.
    + apply after_nonempty. by vm_compute.
Defined.
