(* ===== verification/WaitProps.v ===== *)
(** * Waiting ends

    The wait loop polls until a terminal state or the deadline.  When the clock
    never goes back and a sleep that is not interrupted lasts as long as asked,
    the number of rounds is bounded by the timeout over the poll interval,
    which is never below a tenth of a second: with that many rounds or more the
    operation returns, always with the same result. *)

From S2P Require Import Prelude GoStrings Decimal Encodings PolicyTypes Seal Domain PolicyFile Trace Evaluate Counter Reservation Engine PolicyAdmin Samples Calldata Gas Journal Nonce Service TxStatus Send ServiceSamples ServiceFacts.

Local Open Scope string_scope.
Local Open Scope Z_scope.
Local Open Scope list_scope.
Local Open Scope go_scope.

(** the time outside: what the clock reads *)
Record timed {N : Type} {EV : Environment N} (t : N → Z) : Prop := {
  ti_clock : ∀ n, (clock n).1 = t n ∧ t n ≤ t (clock n).2;
  ti_sleep : ∀ d n n', sleep d n = (None, n') → t n + d ≤ t n';
  ti_sleep_err : ∀ d n, t n ≤ t (sleep d n).2;
  ti_nonce : ∀ a b n, t n ≤ t (cc_Nonce a b n).2;
  ti_receipt : ∀ h n, t n ≤ t (cc_Receipt h n).2;
  ti_block : ∀ n, t n ≤ t (cc_BlockNumber n).2;
  ti_send : ∀ raw n, t n ≤ t (cc_SendRawTransaction raw n).2;
  ti_rid : ∀ n, t n ≤ t (reservation_ulid n).2;
  ti_policy_io : ∀ n, t n ≤ t (policy_io n).2;
  ti_journal_io : ∀ n, t n ≤ t (journal_io n).2;
}.

Section Wait.
Context {N : Type} {UT : UnicodeTables} {GC : GethCommon} {RC : LineCodec Reservation} {JC : LineCodec JRecord}
        {MO : MapOrder} {SC : SealCrypto} {EV : Environment N}.
Variables (accounts : option (string → list Address)) (anchor : option Anchor) (cfg : TxConfig).
Variables (t : N → Z) (Ht : timed t).

Definition time (w : SWorld N) : Z := t (sw_outside w).

(** an operation during which time does not go back *)
Definition forward {A} (m : T (SWorld N) A) : Prop := ∀ w, time w ≤ time (after w (m w).2).

(** an operation that fails only through its value *)
Definition total {A} (m : T (SWorld N) A) : Prop := ∀ w, ∃ a, (m w).1 = Ok a.

Lemma forward_bind {A B} (m : T (SWorld N) A) (f : A → T (SWorld N) B) :
  forward m → (∀ a, forward (f a)) → forward (mbind m f).
Proof.
  intros Hm Hf w. specialize (Hm w). unfold mbind. destruct (m w) as [[a|e] tr]; [|done].
  specialize (Hf a (after w tr)). destruct (f a (after w tr)) as [r tr']. cbn [fst snd] in *.
  rewrite after_app. lia.
Qed.

Lemma total_bind {A B} (m : T (SWorld N) A) (f : A → T (SWorld N) B) :
  total m → (∀ a, total (f a)) → total (mbind m f).
Proof.
  intros Hm Hf w. destruct (Hm w) as [a Ha]. unfold mbind. destruct (m w) as [r tr]. cbn [fst] in Ha. subst.
  destruct (Hf a (after w tr)) as [b Hb]. destruct (f a (after w tr)) as [r tr']. cbn [fst] in *. by exists b.
Qed.

Lemma forward_reads {A} (m : T (SWorld N) A) : reads_only m → forward m.
Proof. intros H w. rewrite H. change (after w []) with w. lia. Qed.

Lemma forward_ask {A} (f : N → A * N) : (∀ n, t n ≤ t (f n).2) → forward (ask f).
Proof.
  intros H w. unfold ask. specialize (H (sw_outside w)). by destruct (f (sw_outside w)) as [a n].
Qed.

Lemma forward_send raw : forward (send_raw raw).
Proof.
  intros w. unfold send_raw. pose proof (ti_send _ Ht raw (sw_outside w)) as H.
  by destruct (cc_SendRawTransaction raw (sw_outside w)).
Qed.

Lemma forward_mres {A} (m : T (SWorld N) A) : forward m → forward (mres m).
Proof. intros H w. specialize (H w). unfold mres. by destruct (m w). Qed.
Lemma forward_mtry {A} (m : T (SWorld N) A) : forward m → forward (mtry m).
Proof. intros H w. specialize (H w). unfold mtry. by destruct (m w) as [[]]. Qed.

Lemma forward_zoom {A X} (get : SWorld N → X) put (m : T X A) :
  (∀ w x, sw_outside (put w x) = sw_outside w) → forward (mzoom get put m).
Proof.
  intros H w. unfold mzoom. destruct (m (get w)) as [r tr]. cbn [snd]. unfold time.
  rewrite (after_zoom_same sw_outside) by (intros; apply H). lia.
Qed.

Lemma forward_ret {A} (a : A) : forward (mret a). Proof. apply forward_reads, reads_mret. Qed.
Lemma forward_fail {A} e : forward (@mfail (SWorld N) A e). Proof. apply forward_reads, reads_mfail. Qed.
Lemma forward_lift {A} (r : res error A) : forward (mlift r). Proof. apply forward_reads, reads_mlift. Qed.
Lemma forward_get : forward mget. Proof. apply forward_reads, reads_mget. Qed.
Lemma forward_clock : forward (ask clock). Proof. apply forward_ask. intros n. apply (ti_clock _ Ht). Qed.
Lemma forward_sleep d : forward (ask (sleep d)). Proof. apply forward_ask, (ti_sleep_err _ Ht). Qed.
Lemma forward_receipt h : forward (ask (cc_Receipt h)). Proof. apply forward_ask, (ti_receipt _ Ht). Qed.
Lemma forward_nonce a b : forward (ask (cc_Nonce a b)). Proof. apply forward_ask, (ti_nonce _ Ht). Qed.
Lemma forward_block : forward (ask cc_BlockNumber). Proof. apply forward_ask, (ti_block _ Ht). Qed.
Lemma forward_rid : forward (ask reservation_ulid). Proof. apply forward_ask, (ti_rid _ Ht). Qed.
Lemma forward_pio : forward (ask policy_io). Proof. apply forward_ask, (ti_policy_io _ Ht). Qed.
Lemma forward_jio : forward (ask journal_io). Proof. apply forward_ask, (ti_journal_io _ Ht). Qed.

Lemma total_ret {A} (a : A) : total (mret a). Proof. intros w. by exists a. Qed.
Lemma total_ask {A} (f : N → A * N) : total (ask f).
Proof. intros w. unfold ask. destruct (f (sw_outside w)) as [a n]. by exists a. Qed.
Lemma total_mres {A} (m : T (SWorld N) A) : total (mres m).
Proof. intros w. unfold mres. destruct (m w) as [r tr]. by exists r. Qed.
Lemma total_mtry {A} (m : T (SWorld N) A) : total (mtry m).
Proof. intros w. unfold mtry. destruct (m w) as [[a|e] tr]; eauto. Qed.

Create HintDb wait discriminated.
#[local] Hint Constants Opaque : wait.
#[local] Hint Resolve forward_ret forward_fail forward_lift forward_get forward_clock forward_sleep forward_receipt
  forward_nonce forward_block forward_rid forward_pio forward_jio forward_send total_ret total_ask total_mres
  total_mtry : wait.

Ltac wait_step :=
  match goal with
  | |- forward (mbind _ _) => apply forward_bind; [|intros ?]
  | |- total (mbind _ _) => apply total_bind; [|intros ?]
  | |- forward (if ?b then _ else _) => destruct b
  | |- total (if ?b then _ else _) => destruct b
  | |- forward (match ?x with _ => _ end) => destruct x
  | |- total (match ?x with _ => _ end) => destruct x
  | |- forward (mtry _) => apply forward_mtry
  | |- forward (mres _) => apply forward_mres
  | |- forward (mzoom _ _ _) => by apply forward_zoom
  | |- _ => solve [eauto 3 with wait nocore]
  end.
Ltac wait := repeat wait_step.

Lemma forward_engine (op : IO → Z → M ()) : forward (engine op).
Proof. unfold engine. wait. Qed.
Lemma forward_journal {A} c (op : JIO → Z → JM A) : forward (journal c op).
Proof. unfold journal. wait. Qed.
#[local] Hint Resolve forward_engine forward_journal : wait.

Lemma forward_Reserve c : forward (policy_Reserve accounts anchor c).
Proof. unfold policy_Reserve. wait. Qed.
Lemma forward_receipt_of h : forward (receipt_of h).
Proof. unfold receipt_of. wait. Qed.
Lemma forward_ask_rpc {A} (f : N → res GoError A * N) : forward (ask f) → forward (ask_rpc f).
Proof. intros H. unfold ask_rpc. by wait. Qed.
#[local] Hint Resolve forward_Reserve forward_receipt_of forward_ask_rpc : wait.

Lemma forward_doRebroadcast rec id : forward (doRebroadcast rec id).
Proof. unfold doRebroadcast, journal_SetState. wait. Qed.
#[local] Hint Resolve forward_doRebroadcast : wait.

Lemma forward_rebroadcast rec : forward (rebroadcast accounts anchor rec).
Proof.
  unfold rebroadcast, rebroadcast_signed, rebroadcast_broadcast, policy_Commit, policy_Release, journal_SetState. wait.
Qed.
#[local] Hint Resolve forward_rebroadcast : wait.

Lemma forward_observe c hash rec network target : forward (observe c hash rec network target).
Proof. unfold observe, recordTerminal, recordConfirmed, policy_SettleActual, journal_SetState. wait. Qed.
Lemma total_observe c hash rec network target : total (observe c hash rec network target).
Proof. unfold observe, recordTerminal, recordConfirmed. wait. Qed.
#[local] Hint Resolve forward_observe total_observe : wait.

Lemma forward_round c hash network target : forward (wait_round accounts anchor c hash network target).
Proof. unfold wait_round, record_of. wait. Qed.
Lemma total_round c hash network target : total (wait_round accounts anchor c hash network target).
Proof. unfold wait_round. wait. Qed.

(** the loop ends when the rounds reach past the deadline, and more rounds
    change nothing *)
Lemma wait_loop_ends c hash network target deadline poll k w :
  0 < poll → deadline - time w ≤ Z.of_nat k * poll →
  ∃ o tr, ∀ rounds, (k < rounds)%nat →
    wait_loop accounts anchor rounds c hash network target deadline poll w = (Ok (Some o), tr).
Proof.
  intros Hpoll. revert w. induction k as [k IH] using lt_wf_ind. intros w Hd.
  destruct (total_round c hash network target w) as [r Hr].
  pose proof (forward_round c hash network target w) as Hf.
  destruct (wait_round accounts anchor c hash network target w) as [r' tr1] eqn:E. cbn [fst snd] in Hr, Hf. subst r'.
  set (w1 := after w tr1) in *.
  assert (Hstep : ∀ rounds, (k < rounds)%nat → ∃ m, rounds = S m ∧ (k ≤ m)%nat) by
    (intros [|m] Hm; [lia|]; exists m; split; [done|lia]).
  destruct r as [o|out].
  { exists o, (tr1 ++ []). intros rounds (m & -> & _)%Hstep. cbn [wait_loop]. by rewrite (mbind_run _ _ _ _ _ E). }
  destruct (clock (sw_outside w1)) as [now n] eqn:Ec.
  pose proof (ti_clock _ Ht (sw_outside w1)) as [Hnow Hn]. rewrite Ec in Hnow, Hn. cbn [fst snd] in Hnow, Hn.
  assert (Eclock : ask clock w1 = (Ok now, [set_outside w1 n])) by (unfold ask; by rewrite Ec).
  set (w2 := set_outside w1 n) in *.
  destruct (Z.ltb_spec now deadline) as [Hlt|Hge].
  2:{ exists (timed_out hash "wait deadline reached; transaction still pending (resumable)" out), (tr1 ++ [w2] ++ []).
      intros rounds (m & -> & _)%Hstep. cbn [wait_loop]. rewrite (mbind_run _ _ _ _ _ E). fold w1.
      rewrite (mbind_run _ _ _ _ _ Eclock). apply Z.ltb_ge in Hge as ->. done. }
  destruct (sleep poll n) as [s n'] eqn:Es.
  assert (Esleep : ask (sleep poll) w2 = (Ok s, [set_outside w2 n'])).
  { unfold ask. cbn [set_outside sw_outside]. change (sw_outside w2) with n. by rewrite Es. }
  set (w3 := set_outside w2 n') in *.
  destruct s as [e|].
  { exists (timed_out hash "wait interrupted; transaction still pending (resumable)" out), (tr1 ++ [w2] ++ [w3] ++ []).
    intros rounds (m & -> & _)%Hstep. cbn [wait_loop]. rewrite (mbind_run _ _ _ _ _ E). fold w1.
    rewrite (mbind_run _ _ _ _ _ Eclock). apply Z.ltb_lt in Hlt as ->. cbn [negb].
    change (after w1 [w2]) with w2. by rewrite (mbind_run _ _ _ _ _ Esleep). }
  pose proof (ti_sleep _ Ht _ _ _ Es) as Hsl. unfold time in *. change (sw_outside w3) with n' in *.
  destruct k as [|k]; [lia|].
  destruct (IH k ltac:(lia) w3) as (o & tr & Hrest).
  { unfold time. change (sw_outside w3) with n'. lia. }
  exists o, (tr1 ++ [w2] ++ [w3] ++ tr). intros rounds (m & -> & Hm)%Hstep. cbn [wait_loop].
  rewrite (mbind_run _ _ _ _ _ E). fold w1.
  rewrite (mbind_run _ _ _ _ _ Eclock). apply Z.ltb_lt in Hlt as ->. cbn [negb].
  change (after w1 [w2]) with w2. rewrite (mbind_run _ _ _ _ _ Esleep). change (after w2 [w3]) with w3.
  by rewrite Hrest by lia.
Qed.

Lemma floorPoll_pos d : 100000000 ≤ floorPoll d.
Proof. unfold floorPoll, minPollInterval. zcases; lia. Qed.

(** the rounds a wait can take *)
Definition wait_bound (wait : WaitOpts) : nat := Z.to_nat (wait_timeout cfg wait / floorPoll (tc_PollInterval cfg)) + 1.

Lemma waitOnHash_ends network hash c wait w :
  0 ≤ wait_timeout cfg wait →
  ∃ o tr, ∀ rounds, (wait_bound wait < rounds)%nat →
    waitOnHash accounts anchor cfg rounds network hash c wait w = (Ok (Some o), tr).
Proof.
  intros Hto. pose proof (floorPoll_pos (tc_PollInterval cfg)) as Hp.
  set (poll := floorPoll (tc_PollInterval cfg)) in *.
  destruct (clock (sw_outside w)) as [now n] eqn:Ec.
  pose proof (ti_clock _ Ht (sw_outside w)) as [Hnow Hn]. rewrite Ec in Hnow, Hn. cbn [fst snd] in Hnow, Hn.
  assert (Eclock : ask clock w = (Ok now, [set_outside w n])) by (unfold ask; by rewrite Ec).
  destruct (wait_loop_ends c hash network (confirmTarget cfg network (wo_Confirmations wait))
              (now + wait_timeout cfg wait) poll (wait_bound wait) (set_outside w n)) as (o & tr & H); [lia| |].
  - unfold time, wait_bound. cbn [set_outside sw_outside]. fold poll.
    pose proof (Z.div_pos (wait_timeout cfg wait) poll Hto ltac:(lia)).
    pose proof (Z.mod_pos_bound (wait_timeout cfg wait) poll ltac:(lia)).
    pose proof (Z.div_mod (wait_timeout cfg wait) poll ltac:(lia)). nia.
  - exists o, ([set_outside w n] ++ tr). intros rounds Hr. unfold waitOnHash.
    rewrite (mbind_run _ _ _ _ _ Eclock). change (after w [set_outside w n]) with (set_outside w n).
    by rewrite H.
Qed.
End Wait.

Section Properties.
Context {N : Type} {UT : UnicodeTables} {GC : GethCommon} {RC : LineCodec Reservation} {JC : LineCodec JRecord}
        {MO : MapOrder} {SC : SealCrypto} {EV : Environment N}.

(** C30: waiting on a transaction ends.  When the clock does not go back and a
    sleep that is not interrupted lasts as long as asked, [tx wait] returns
    within the timeout divided by the poll interval (at least a tenth of a
    second), plus two rounds, whatever the node and the stores answer; allowing
    more rounds changes neither its result nor what it writes. *)
Theorem wait_terminates (t : N → Z) accounts anchor cfg hash network c confs timeout w :
  timed t → 0 < tc_WaitTimeout cfg →
  ∃ o tr, ∀ rounds, (wait_bound cfg (mkWaitOpts true confs timeout) < rounds)%nat →
    WaitTx accounts anchor cfg rounds hash network c confs timeout w = (Ok (Some o), tr).
Proof.
  intros Ht Hcfg. unfold WaitTx. destruct (parseHash hash) as [h|e]; [|by eexists _, _].
  assert (Htot : total (mres (record_of (N := N) c h))) by apply total_mres.
  destruct (Htot w) as [r Hr]. destruct (mres (record_of c h) w) as [r' tr1] eqn:E. cbn [fst] in Hr. subst r'.
  destruct r as [rec|e].
  - destruct (waitOnHash_ends accounts anchor cfg t Ht network h c (mkWaitOpts true confs timeout) (after w tr1))
      as (o & tr & H).
    { unfold wait_timeout. cbn [wo_Timeout]. zcases; lia. }
    exists o, (tr1 ++ tr). intros rounds Hrounds. rewrite (mbind_run _ _ _ _ _ E). by rewrite H.
  - eexists _, _. intros rounds _. by rewrite (mbind_run _ _ _ _ _ E).
Qed.
End Properties.

(** ** Witness *)

(** the clock of the sample outside is its state *)
Lemma sample_timed : timed (N := Z) (λ t, t).
Proof. split; try by (intros; cbn; lia). intros d n n' [= <-]. lia. Qed.

Lemma wait_terminates_witness :
  ∃ o tr, ∀ rounds, (3 < rounds)%nat →
    WaitTx None None sample_tx_config rounds (hex64 77) "main" 1 None 0 sent_world = (Ok (Some o), tr).
Proof. apply (wait_terminates (λ t, t) None None sample_tx_config (hex64 77) "main" 1 None 0 sent_world); [apply sample_timed|reflexivity]. Defined.
