(* ===== verification/SendProps.v ===== *)
(** * What a send leaves behind

    The state after the broadcast of an authorized send, for every answer of
    the node, when the file system does its part; then the send pipeline as a
    whole: how it ends by the answer of the node, and what a replacement sends. *)

From S2P Require Import Prelude GoStrings Decimal Rfc3339 HexBytes Encodings PolicyTypes Seal Domain PolicyFile Trace Evaluate Counter Reservation Engine PolicyAdmin EngineFacts Samples EngineProps Calldata Gas Lifecycle LifecycleProps Journal JournalFacts JournalProps Nonce Reconcile Service TxStatus Send TokenSend ServiceSamples ServiceFacts.

Local Open Scope string_scope.
Local Open Scope Z_scope.
Local Open Scope list_scope.
Local Open Scope go_scope.

(** ** Runs to a last state *)

(** [m] from [w] gives [r] and leaves [w'] *)
Definition runs {S A} (m : T S A) (w : S) (r : res error A) (w' : S) : Prop := (m w).1 = r ∧ after w (m w).2 = w'.

Section Runs.
Context {S : Type}.

Lemma runs_bind {A B} (m : T S A) (f : A → T S B) w a w1 r w2 :
  runs m w (Ok a) w1 → runs (f a) w1 r w2 → runs (mbind m f) w r w2.
Proof.
  unfold runs, mbind. intros [H1 H2]. destruct (m w) as [r0 tr]. cbn [fst snd] in *. subst.
  destruct (f a (after w tr)) as [r1 tr']. cbn [fst snd]. by rewrite after_app.
Qed.

Lemma runs_bind_err {A B} (m : T S A) (f : A → T S B) w e w1 :
  runs m w (Err e) w1 → runs (mbind m f) w (Err e) w1.
Proof. unfold runs, mbind. intros [H1 H2]. destruct (m w) as [r0 tr]. cbn [fst snd] in *. by subst. Qed.

Lemma runs_ret {A} (a : A) (w : S) : runs (mret a) w (Ok a) w.
Proof. done. Qed.

Lemma runs_mres {A} (m : T S A) w r w1 : runs m w r w1 → runs (mres m) w (Ok r) w1.
Proof. unfold runs, mres. intros [H1 H2]. destruct (m w) as [r0 tr]. cbn [fst snd] in *. by subst. Qed.

Lemma runs_mtry {A} (m : T S A) w r w1 :
  runs m w r w1 → runs (mtry m) w (Ok (match r with Ok _ => None | Err e => Some e end)) w1.
Proof. unfold runs, mtry. intros [H1 H2]. destruct (m w) as [r0 tr]. cbn [fst snd] in *. subst. by destruct r. Qed.

Lemma runs_self {A} (m : T S A) w : runs m w (m w).1 (after w (m w).2).
Proof. done. Qed.
End Runs.

Section Settlement.
Context {N : Type} {UT : UnicodeTables} {GC : GethCommon} {RC : LineCodec Reservation} {JC : LineCodec JRecord}
        {MO : MapOrder} {SC : SealCrypto} {EV : Environment N} {IC : Int64Conv}.

Implicit Types (w : SWorld N).

(** the locks and the file operations succeed *)
Definition healthy : Prop :=
  ∀ n : N, (policy_io n).1 = io_ok ∧ (journal_io n).1 = jio_ok ∧ (nonce_io n).1 = nio_ok.

(** the stores of a world *)
Definition stores w : Disk * gmap Z string * gmap (Z * Address) cacheDoc * list Submission :=
  (sw_disk w, sw_journals w, sw_caches w, sw_sent w).

Lemma ask_runs {A} (f : N → A * N) w : ∃ n w', runs (ask f) w (Ok (f n).1) w' ∧ stores w' = stores w ∧ n = sw_outside w.
Proof.
  exists (sw_outside w), (set_outside w (f (sw_outside w)).2). unfold runs, ask.
  by destruct (f (sw_outside w)) as [a n].
Qed.

Hypothesis Hh : healthy.

Lemma engine_runs (op : IO → Z → M ()) w :
  ∃ now w', runs (engine op) w (op io_ok now (sw_disk w)).1 w' ∧
    stores w' = (after (sw_disk w) (op io_ok now (sw_disk w)).2, sw_journals w, sw_caches w, sw_sent w).
Proof.
  destruct (ask_runs policy_io w) as (n1 & w1 & H1 & E1 & _).
  destruct (ask_runs clock w1) as (n2 & w2 & H2 & E2 & _).
  destruct (Hh n1) as (Hio & _ & _). rewrite Hio in H1.
  assert (E : stores w2 = stores w) by congruence. unfold stores in E. injection E as Ed Ej Ec Es.
  exists (clock n2).1.
  destruct (op io_ok (clock n2).1 (sw_disk w)) as [r tr] eqn:Eo. cbn [fst snd].
  exists (after w2 (map (put_disk w2) tr)). split.
  - unfold engine. eapply runs_bind; [exact H1|]. eapply runs_bind; [exact H2|].
    unfold runs, mzoom. rewrite Ed, Eo. done.
  - unfold stores. rewrite (after_zoom sw_disk), (after_zoom_same sw_journals), (after_zoom_same sw_caches),
      (after_zoom_same sw_sent) by done. congruence.
Qed.

Lemma journal_runs {A} chain (op : JIO → Z → JM A) w :
  ∃ now w', runs (journal chain op) w (op jio_ok now (sw_journals w !! chain)).1 w' ∧
    sw_disk w' = sw_disk w ∧ sw_caches w' = sw_caches w ∧ sw_sent w' = sw_sent w ∧
    sw_journals w' = partial_alter (λ _, after (sw_journals w !! chain) (op jio_ok now (sw_journals w !! chain)).2)
                       chain (sw_journals w).
Proof.
  destruct (ask_runs journal_io w) as (n1 & w1 & H1 & E1 & _).
  destruct (ask_runs clock w1) as (n2 & w2 & H2 & E2 & _).
  destruct (Hh n1) as (_ & Hio & _). rewrite Hio in H1.
  assert (E : stores w2 = stores w) by congruence. unfold stores in E. injection E as Ed Ej Ec Es.
  exists (clock n2).1.
  destruct (op jio_ok (clock n2).1 (sw_journals w !! chain)) as [r tr] eqn:Eo. cbn [fst snd].
  exists (after w2 (map (put_journal chain w2) tr)). split.
  - unfold journal. eapply runs_bind; [exact H1|]. eapply runs_bind; [exact H2|].
    unfold runs, mzoom. rewrite Ej, Eo. done.
  - rewrite (after_zoom_same sw_disk), (after_zoom_same sw_caches), (after_zoom_same sw_sent) by done.
    split_and!; [done..|]. unfold after. destruct tr as [|x tr _] using rev_ind.
    + cbn [map List.last]. rewrite Ej. symmetry. apply partial_alter_self.
    + rewrite map_app. cbn [map]. rewrite !List.last_last. cbn [put_journal sw_journals]. by rewrite Ej.
Qed.

(** reading a well-formed journal changes nothing *)
Lemma read_runs {A} chain (fn : gmap string JRecord → res error A) w :
  file_wf (sw_journals w !! chain) →
  ∃ w', runs (journal chain (λ io _, read io fn)) w (fn (view (sw_journals w !! chain))) w' ∧ stores w' = stores w.
Proof.
  intros Hwf. destruct (journal_runs chain (λ io _, read io fn) w) as (now & w' & H & Hd & Hc & Hs & Hj).
  rewrite (read_run fn _ Hwf) in H, Hj. cbn [fst snd] in H, Hj.
  exists w'. split; [exact H|]. unfold stores. rewrite Hd, Hc, Hs, Hj. f_equal. f_equal. f_equal.
  apply partial_alter_self.
Qed.

Lemma SetState_runs chain id mut w rec :
  file_wf (sw_journals w !! chain) → seq_room (sw_journals w !! chain) → id ≠ "" →
  view (sw_journals w !! chain) !! id = Some rec →
  ∃ w' seq ts, runs (journal_SetState chain id mut) w (Ok tt) w' ∧
    sw_disk w' = sw_disk w ∧ sw_caches w' = sw_caches w ∧ sw_sent w' = sw_sent w ∧
    (∀ c, c ≠ chain → sw_journals w' !! c = sw_journals w !! c) ∧
    file_wf (sw_journals w' !! chain) ∧
    view (sw_journals w' !! chain) = <[id := with_seq_ts (applyTo mut rec) seq ts]> (view (sw_journals w !! chain)).
Proof.
  intros Hwf Hroom Hid Hv.
  destruct (journal_runs chain (λ io now, SetState io id mut now) w) as (now & w' & H & Hd & Hc & Hs & Hj).
  destruct (SetState_run id mut now _ _ Hwf Hroom Hid Hv) as (tr & Hr & Hwf' & Hv').
  rewrite Hr in H, Hj. cbn [fst snd] in H, Hj.
  assert (E : sw_journals w' !! chain = after (sw_journals w !! chain) tr)
    by (rewrite Hj; apply lookup_partial_alter_eq).
  exists w', (next_seq (sw_journals w !! chain)), (FormatNano now).
  split; [exact H|]. split; [done|]. split; [done|]. split; [done|]. split.
  { intros c Hne. rewrite Hj. by rewrite lookup_partial_alter_ne. }
  rewrite E. split; [exact Hwf'|exact Hv'].
Qed.

(** ** The lease *)

Lemma lease_Commit_runs a w :
  l_finished (au_lease a) = false →
  ∃ w', runs (lease_Commit a) w (Ok tt) w' ∧ sw_disk w' = sw_disk w ∧ sw_journals w' = sw_journals w ∧
    sw_sent w' = sw_sent w ∧
    sw_caches w' = <[(au_chainID a, au_from a) := CacheNext (wrap64 (l_nonce (au_lease a) + 1))]> (sw_caches w).
Proof.
  intros Hl. destruct (ask_runs nonce_io w) as (n1 & w1 & H1 & E1 & _).
  destruct (Hh n1) as (_ & _ & Hio). rewrite Hio in H1. unfold stores in E1. injection E1 as Ed Ej Ec Es.
  eexists. split.
  { unfold lease_Commit, nonces. eapply runs_bind; [exact H1|]. unfold runs, mzoom, Nonce.Commit. rewrite Hl.
    unfold writeCache. rewrite (mbind_read _ _ _ tt) by done. done. }
  cbn. rewrite Ed, Es, Ec, Ej. split; [done|]. split; [apply partial_alter_self|]. done.
Qed.

(** ** The engine *)

(** every counter can be read *)
Definition counters_readable (d : Disk) : Prop := ∀ p, dk_counters d !! p ≠ Some Garbage.

Lemma counters_readable_ok d n a : counters_readable d → ∃ cf, read_counter d n a = Ok cf.
Proof.
  intros H. unfold read_counter. specialize (H (counterPath n a)).
  destruct (dk_counters d !! counterPath n a) as [[|cf]|]; [done|eauto|eauto].
Qed.

Lemma Release_status id now d r :
  id ≠ "" → status d id = Some r → r_State r = stateReserved →
  status (after d (Engine.Release io_ok id now d).2) id = Some (set_state r stateReleased (r_Hash r)).
Proof.
  intros Hid Hr Hs. pose proof (status_key _ _ _ Hr) as Hk.
  unfold Engine.Release. rewrite bool_decide_false by done.
  erewrite (status_log _ (relogged d (set_state r stateReleased (r_Hash r)))).
  - rewrite <-Hk. apply (status_relogged d (set_state r stateReleased (r_Hash r)) r); cbn; congruence.
  - apply halves_status. apply release_log_run; [done|by rewrite Hs].
Qed.

Lemma Commit_status id h now d r :
  id ≠ "" → status d id = Some r → r_State r = stateReserved → r_Account r ≠ 0 → counters_readable d →
  (Engine.Commit io_ok id h now d).1 = Ok tt ∧
  status (after d (Engine.Commit io_ok id h now d).2) id = Some (set_state r stateCommitted h).
Proof.
  intros Hid Hr Hs Ha Hc. pose proof (status_key _ _ _ Hr) as Hk.
  set (r' := set_state r stateCommitted h).
  assert (Hcr : commit_reservation h r = r') by (unfold commit_reservation; by rewrite Hs).
  assert (Ht : transition io_ok id (commit_reservation h) d = (Ok tt, [relogged d r'])).
  { rewrite <-Hcr. by apply transition_run. }
  assert (Hst : status (relogged d r') id = Some r').
  { rewrite <-Hk. apply (status_relogged d r' r); cbn; congruence. }
  split.
  - destruct (counters_readable_ok (relogged d r') (r_Network r') (r_Account r')) as [cf Hcf].
    { intros p. rewrite relogged_counters. apply Hc. }
    unfold Engine.Commit.
    erewrite (two_halves_run id _ _ now d (relogged d r') r' cf); [done|done|exact Ht|done|done|done].
  - erewrite (status_log _ (relogged d r')); [done|]. unfold Engine.Commit. by apply halves_status.
Qed.

(** ** An authorized send *)

(** the stores when the payload is handed to the node: a signed record, its
    spend reserved, the lease held *)
Record in_flight (a : authorized) (rec : JRecord) (r : Reservation) w : Prop := {
  fl_wf : file_wf (sw_journals w !! au_chainID a);
  fl_room : seq_room (sw_journals w !! au_chainID a);
  fl_id : au_journalID a ≠ "";
  fl_record : view (sw_journals w !! au_chainID a) !! au_journalID a = Some rec;
  fl_signed : j_Status rec = StatusSigned;
  fl_rid : au_reservation a ≠ "";
  fl_status : status (sw_disk w) (au_reservation a) = Some r;
  fl_reserved : r_State r = stateReserved;
  fl_account : r_Account r ≠ 0;
  fl_counters : counters_readable (sw_disk w);
  fl_lease : l_finished (au_lease a) = false;
}.

(** the record of the send becomes [m] applied to it, the others stay *)
Definition record_moved (a : authorized) (rec : JRecord) (m : StateMutation) w w' : Prop :=
  ∃ seq ts, view (sw_journals w' !! au_chainID a) =
            <[au_journalID a := with_seq_ts (applyTo m rec) seq ts]> (view (sw_journals w !! au_chainID a)).

Definition nonce_spent (a : authorized) w w' : Prop :=
  sw_caches w' = <[(au_chainID a, au_from a) := CacheNext (wrap64 (l_nonce (au_lease a) + 1))]> (sw_caches w).

(** the spend is recorded as broadcast, committed and its nonce consumed *)
Record settled (a : authorized) (rec : JRecord) (r : Reservation) w w' : Prop := {
  se_record : record_moved a rec (mkMutation StatusBroadcast (Some (HashHex (au_hash a))) None None None None None) w w';
  se_status : status (sw_disk w') (au_reservation a) = Some (set_state r stateCommitted (HashHex (au_hash a)));
  se_nonce : nonce_spent a w w';
}.

(** the record is failed, the spend released, the nonce free *)
Record given_back (a : authorized) (rec : JRecord) (r : Reservation) w w' : Prop := {
  gb_record : record_moved a rec (mkMutation StatusFailed None None None None (Some errAbortIncomplete) None) w w';
  gb_status : status (sw_disk w') (au_reservation a) = Some (set_state r stateReleased (r_Hash r));
  gb_nonce : sw_caches w' = sw_caches w;
}.

(** record and reservation are as they were, the nonce is consumed *)
Record recoverable (a : authorized) w w' : Prop := {
  re_journals : sw_journals w' = sw_journals w;
  re_disk : sw_disk w' = sw_disk w;
  re_nonce : nonce_spent a w w';
}.

Lemma settle_runs a rec r w :
  in_flight a rec r w → ∃ w', runs (settle a TxStatusPending None) w (Ok (finish (au_lease a), None)) w' ∧ settled a rec r w w'.
Proof.
  intros [Hwf Hroom Hid Hv Hs Hrid Hst Hres Hacc Hcnt Hl].
  destruct (SetState_runs (au_chainID a) (au_journalID a)
    (mkMutation StatusBroadcast (Some (HashHex (au_hash a))) None None None None None) w rec Hwf Hroom Hid Hv)
    as (w1 & seq & ts & R1 & Hd1 & Hc1 & _ & _ & _ & Hv1).
  destruct (engine_runs (λ io now, Engine.Commit io (au_reservation a) (HashHex (au_hash a)) now) w1)
    as (now & w2 & R2 & E2).
  destruct (Commit_status (au_reservation a) (HashHex (au_hash a)) now (sw_disk w1) r Hrid) as [Hok Hst2];
    [by rewrite Hd1|done|done|by rewrite Hd1|].
  unfold stores in E2. injection E2 as Ed2 Ej2 Ec2 _. rewrite Hok in R2.
  destruct (lease_Commit_runs a w2 Hl) as (w3 & R3 & Hd3 & Hj3 & _ & Hc3).
  exists w3. split.
  - unfold settle. eapply runs_bind.
    + apply (runs_mtry _ _ (Ok tt)). unfold settle_stores. eapply runs_bind; [exact R1|].
      eapply runs_bind; [exact R2|]. apply runs_ret.
    + eapply runs_bind; [apply (runs_mtry _ _ (Ok tt)), R3|]. apply runs_ret.
  - split.
    + exists seq, ts. by rewrite Hj3, Ej2, Hv1.
    + by rewrite Hd3, Ed2, Hst2.
    + unfold nonce_spent. by rewrite Hc3, Ec2, Hc1.
Qed.

Lemma abort_runs a rec r w :
  in_flight a rec r w → ∃ w', runs (abort a) w (Ok tt) w' ∧ given_back a rec r w w'.
Proof.
  intros [Hwf Hroom Hid Hv Hs Hrid Hst Hres Hacc Hcnt Hl].
  destruct (read_runs (au_chainID a) (λ latest, found_or_missing (latest !! au_journalID a)) w Hwf) as (w1 & R1 & E1).
  rewrite Hv in R1. cbn [found_or_missing] in R1. unfold stores in E1. injection E1 as Ed1 Ej1 Ec1 _.
  destruct (SetState_runs (au_chainID a) (au_journalID a)
    (mkMutation StatusFailed None None None None (Some errAbortIncomplete) None) w1 rec)
    as (w2 & seq & ts & R2 & Hd2 & Hc2 & _ & _ & _ & Hv2); [by rewrite Ej1|by rewrite Ej1|done|by rewrite Ej1|].
  destruct (engine_runs (λ io now, Engine.Release io (au_reservation a) now) w2) as (now & w3 & R3 & E3).
  pose proof (Release_status (au_reservation a) now (sw_disk w2) r Hrid) as Hrel.
  rewrite Hd2, Ed1 in Hrel. specialize (Hrel Hst Hres).
  unfold stores in E3. injection E3 as Ed3 Ej3 Ec3 _. rewrite Hd2, Ed1 in Ed3.
  exists w3. split.
  - unfold abort, abort_status. rewrite bool_decide_false by done.
    eapply runs_bind; [eapply runs_bind; [apply runs_mres, R1|apply runs_ret]|]. cbv beta iota. rewrite Hs.
    change (negb (bool_decide (StatusSigned = StatusSigned)) && negb (bool_decide (StatusSigned = StatusFailed))) with false.
    cbv iota. rewrite bool_decide_true by done. cbn [negb andb].
    eapply runs_bind; [eapply runs_bind; [apply (runs_mtry _ _ (Ok tt)), R2|apply runs_ret]|].
    rewrite bool_decide_false by done. cbn [negb].
    eapply runs_bind; [apply runs_mtry, R3|apply runs_ret].
  - split.
    + exists seq, ts. rewrite Ej3, Hv2. by rewrite Ej1.
    + by rewrite Ed3.
    + by rewrite Ec3, Hc2, Ec1.
Qed.

(** in flight after a step that touches no store *)
Lemma in_flight_same a rec r w w' : stores w' = stores w → in_flight a rec r w → in_flight a rec r w'.
Proof. unfold stores. intros [= Ed Ej Ec Es] []. by split; rewrite ?Ed, ?Ej. Qed.

Lemma settled_same a rec r w w1 w' : stores w1 = stores w → settled a rec r w1 w' → settled a rec r w w'.
Proof.
  unfold stores. intros [= Ed Ej Ec Es] [H1 H2 H3]. unfold record_moved, nonce_spent in *.
  rewrite Ej in H1. rewrite Ec in H3. by split.
Qed.
Lemma given_back_same a rec r w w1 w' : stores w1 = stores w → given_back a rec r w1 w' → given_back a rec r w w'.
Proof.
  unfold stores. intros [= Ed Ej Ec Es] [H1 H2 H3]. unfold record_moved in *.
  rewrite Ej in H1. rewrite Ec in H3. by split.
Qed.
End Settlement.

(** ** The send pipeline: its properties

    What a send leaves behind by the answer of the node; the agreement of the
    dry run with the send; what a replacement sends. *)

Local Open Scope string_scope.
Local Open Scope Z_scope.
Local Open Scope list_scope.
Local Open Scope go_scope.

(** ** By the answer of the node *)

(** how a send ends: recorded as broadcast, undone, or left for a later retry *)
Inductive disposition := Settled | GivenBack | Recoverable.

(** the disposition an answer calls for; after "nonce too low" it depends on
    the receipt of our own transaction, and a reverted one is outside *)
Definition disposition_of (o : broadcastOutcome) (receipt : res GoError (option CReceipt)) : option disposition :=
  match o with
  | outcomeAccepted => Some Settled
  | outcomeRejected => Some GivenBack
  | outcomeTransportExhausted => Some Recoverable
  | outcomeNonceTooLow =>
      match receipt with
      | Ok (Some r) => if cr_Status r =? 0 then None else Some Settled
      | Ok None => Some GivenBack
      | Err e => if ge_NotFound e then Some GivenBack else Some Recoverable
      end
  end.

Section Outcomes.
Context {N : Type} {UT : UnicodeTables} {GC : GethCommon} {RC : LineCodec Reservation} {JC : LineCodec JRecord}
        {MO : MapOrder} {SC : SealCrypto} {EV : Environment N} {IC : Int64Conv}.
Hypothesis Hh : healthy.
Implicit Types (w : SWorld N).

Definition left_as (a : authorized) (rec : JRecord) (r : Reservation) w w' (d : disposition) : Prop :=
  match d with
  | Settled => settled a rec r w w'
  | GivenBack => given_back a rec r w w'
  | Recoverable => recoverable a w w'
  end.

Lemma settle_or_abort_runs a rec r w :
  in_flight a rec r w → ∃ w', runs (settle_or_abort a TxStatusPending None) w (Ok None) w' ∧ settled a rec r w w'.
Proof.
  intros H. destruct (settle_runs Hh a rec r w H) as (w1 & R & Hs). exists w1. split; [|done].
  unfold settle_or_abort. eapply runs_bind; [exact R|]. apply runs_ret.
Qed.

Lemma recoverable_runs a w : l_finished (au_lease a) = false →
  ∃ w', runs (mtry (lease_Commit a)) w (Ok None) w' ∧ recoverable a w w'.
Proof.
  intros Hl. destruct (lease_Commit_runs Hh a w Hl) as (w1 & R & Hd & Hj & _ & Hc). exists w1.
  split; [by apply (runs_mtry _ _ (Ok tt))|by split].
Qed.

(** the receipt query of the "nonce too low" branch *)
Lemma receipt_runs h w :
  ∃ w', stores w' = stores w ∧ runs (receipt_of h) w
    (match (cc_Receipt h (sw_outside w)).1 with
     | Ok o => Ok o
     | Err e => if ge_NotFound e then Ok None else Err (mapRPCErr e)
     end) w'.
Proof.
  destruct (ask_runs (cc_Receipt h) w) as (n & w1 & R & E & ->). exists w1. split; [done|].
  unfold receipt_of. eapply runs_bind; [exact R|].
  destruct (cc_Receipt h (sw_outside w)).1 as [o|e]; [done|]. by destruct (ge_NotFound e).
Qed.

(** a branch that leaves the state of the stores it finds alone *)
Lemma left_as_same a rec r w w1 w' d :
  stores w1 = stores w → left_as a rec r w1 w' d → left_as a rec r w w' d.
Proof.
  intros E. destruct d; [by apply settled_same|by apply given_back_same|].
  unfold stores in E. injection E as Ed Ej Ec _. intros [H1 H2 H3].
  unfold nonce_spent in H3. rewrite Ec in H3. split; [congruence|congruence|done].
Qed.

(** after "nonce too low", by the receipt of our own transaction *)
Lemma nonce_too_low_runs i a berr rec r w d :
  in_flight a rec r w → disposition_of outcomeNonceTooLow (cc_Receipt (au_hash a) (sw_outside w)).1 = Some d →
  ∃ w' out, runs (conclude i a outcomeNonceTooLow berr) w (Ok out) w' ∧ left_as a rec r w w' d ∧
            (out = None ↔ d = Settled).
Proof.
  intros Hf Hd. unfold conclude. cbn [disposition_of] in Hd.
  destruct (receipt_runs (au_hash a) w) as (w1 & E1 & R1).
  pose proof (in_flight_same _ _ _ _ _ E1 Hf) as Hf1.
  destruct (cc_Receipt (au_hash a) (sw_outside w)).1 as [[rcpt|]|e]; [|injection Hd as <-|].
  - destruct (cr_Status rcpt =? 0) eqn:Er; [done|]. injection Hd as <-.
    destruct (settle_or_abort_runs a rec r w1 Hf1) as (w2 & R & Hs). exists w2, None.
    split; [|split; [by eapply left_as_same|by split]].
    eapply runs_bind; [apply runs_mres, R1|]. cbv beta iota zeta. rewrite Er.
    eapply runs_bind; [exact R|apply runs_ret].
  - destruct (abort_runs Hh a rec r w1 Hf1) as (w2 & R & Hs).
    eexists w2, _. split; [|split; [by apply (left_as_same _ _ _ _ _ _ GivenBack E1)|]].
    { eapply runs_bind; [apply runs_mres, R1|]. eapply runs_bind; [exact R|apply runs_ret]. }
    by split.
  - destruct (ge_NotFound e); injection Hd as <-.
    + destruct (abort_runs Hh a rec r w1 Hf1) as (w2 & R & Hs).
      eexists w2, _. split; [|split; [by apply (left_as_same _ _ _ _ _ _ GivenBack E1)|]].
      { eapply runs_bind; [apply runs_mres, R1|]. eapply runs_bind; [exact R|apply runs_ret]. }
      by split.
    + destruct (recoverable_runs a w1 (fl_lease _ _ _ _ Hf)) as (w2 & R & Hs).
      eexists w2, _. split; [|split; [by apply (left_as_same _ _ _ _ _ _ Recoverable E1)|]].
      { eapply runs_bind; [apply runs_mres, R1|]. eapply runs_bind; [exact R|apply runs_ret]. }
      by split.
Qed.

(** C10: a send ends as the answer of the node calls for.  For an authorized
    send whose stores can be read and written: an accepted payload, or one the
    node refuses for its nonce while our receipt exists, leaves the record
    broadcast with its hash, the spend committed and the nonce consumed; a
    refused one leaves the record failed, the spend released and the nonce
    free; an exhausted transport, or a receipt query that fails, leaves the
    record and the spend as they were, with the nonce consumed, so that the
    same bytes can be sent again.  The send goes on to its result exactly when
    the spend was settled. *)
Theorem send_ends_by_answer i a o berr rec r w d :
  in_flight a rec r w → disposition_of o (cc_Receipt (au_hash a) (sw_outside w)).1 = Some d →
  ∃ w' out, runs (conclude i a o berr) w (Ok out) w' ∧ left_as a rec r w w' d ∧ (out = None ↔ d = Settled).
Proof.
  intros Hf Hd. destruct o; [| | |by apply nonce_too_low_runs]; injection Hd as <-; unfold conclude.
  - destruct (settle_or_abort_runs a rec r w Hf) as (w1 & R & Hs). exists w1, None.
    split; [eapply runs_bind; [exact R|apply runs_ret]|split; [exact Hs|by split]].
  - destruct (recoverable_runs a w (fl_lease _ _ _ _ Hf)) as (w1 & R & Hs).
    eexists w1, _. split; [eapply runs_bind; [exact R|apply runs_ret]|split; [exact Hs|by split]].
  - destruct (abort_runs Hh a rec r w Hf) as (w1 & R & Hs).
    eexists w1, _. split; [eapply runs_bind; [exact R|apply runs_ret]|split; [exact Hs|by split]].
Qed.
End Outcomes.

(** ** Replacements *)

Section Replacements.
Context {UT : UnicodeTables} {GC : GethCommon}.
Variable refForAddress : Address → AccountRef.

(** What a replacement sends.  From the journal record of a send, a cancel is
    an empty transfer of nothing to the sender, and a speedup has the recipient,
    value, nonce and chain of the send and names it as replaced; the speedup is
    the send with other fees exactly when the send carried no calldata.  The
    replacement of a token transfer, an approval or a contract call is a call
    without data to its contract. *)
Theorem replacement_resends_transfers_only i nonce hash raw rid worst a source q :
  valid_addr (in_from i) → valid_addr (in_to i) →
  let rec := signedRecord i nonce hash raw rid worst in
  let j := replacement refForAddress rec a (in_chainID i) source q in
  in_from j = in_from i ∧ in_nonce j = Some nonce ∧ in_replaces j = Some (HashHex hash) ∧ in_data j = "" ∧
  (ra_isCancel a = true → in_to j = in_from i ∧ in_value j = 0) ∧
  (ra_isCancel a = false → in_to j = in_to i ∧ in_value j = in_value i ∧
     (buildTx j nonce = buildTx (with_gas i q) nonce ↔ in_data i = "")).
Proof.
  intros Hf Ht. cbv zeta. unfold replacement, signedRecord. cbn. rewrite !HexToAddress_Hex by done.
  rewrite bigOrZero_z_string. split_and!; [done..| |]; intros ->; [done|].
  split; [done|]. split; [done|]. unfold buildTx. cbn.
  destruct (q_Legacy q); (split; [by injection 1|by intros ->]).
Qed.
End Replacements.

(** ** Witnesses *)

(** the spend of the sample send *)
Definition authorized_spend : Reservation :=
  default (newReservation "" (sample_check 0 0 false 0) 0) (status (sw_disk authorized_world) "r1").

Lemma sample_in_flight : in_flight sample_authorized authorized_record authorized_spend authorized_world.
Proof.
  pose proof (complete_wf _ _ authorized_complete) as [Hwf Hr].
  split; cbn [sample_authorized au_chainID au_journalID au_reservation au_lease].
  - exact Hwf.
  - unfold seq_room. rewrite Hr. by vm_compute.
  - done.
  - unfold view. rewrite Hr. by vm_compute.
  - done.
  - done.
  - vm_compute. reflexivity.
  - vm_compute. reflexivity.
  - vm_compute. discriminate.
  - assert (H : forallb (λ x, match x.2 with Garbage => false | Document _ => true end)
                  (map_to_list (dk_counters (sw_disk authorized_world))) = true) by (vm_compute; reflexivity).
    rewrite forallb_forall in H. intros p Hp.
    specialize (H (p, Garbage)). discriminate H. by apply list_elem_of_In, elem_of_map_to_list.
  - done.
Qed.

Lemma sample_healthy : healthy (N := Z).
Proof. by intros n. Qed.

Lemma send_ends_by_answer_witness :
  ∃ w' out, runs (conclude sample_intent sample_authorized outcomeAccepted None) authorized_world (Ok out) w' ∧
    left_as sample_authorized authorized_record authorized_spend authorized_world w' Settled ∧ (out = None ↔ Settled = Settled).
Proof. apply (send_ends_by_answer sample_healthy); [apply sample_in_flight|reflexivity]. Defined.

Lemma replacement_resends_transfers_only_witness :
  let rec := signedRecord sample_intent 4 77 "raw" "r1" 630000 in
  let j := replacement (λ _, in_ref sample_intent) rec (mkReplace "" "main" "" no_gas_req (mkWaitOpts false None 0) false) 1 "cli" sample_quote in
  in_from j = 1 ∧ in_nonce j = Some 4 ∧ in_replaces j = Some (HashHex 77) ∧ in_data j = "" ∧
  (false = true → in_to j = 1 ∧ in_value j = 0) ∧
  (false = false → in_to j = 2 ∧ in_value j = 5 ∧
     (buildTx j 4 = buildTx (with_gas sample_intent sample_quote) 4 ↔ in_data sample_intent = "")).
Proof.
  apply (replacement_resends_transfers_only (λ _, in_ref sample_intent) sample_intent 4 77 "raw" "r1" 630000
           (mkReplace "" "main" "" no_gas_req (mkWaitOpts false None 0) false) "cli" sample_quote); by split.
Defined.
