(* ===== verification/Receive.v ===== *)
(** * Inbound detection: [internal/service/receive.go], [receive_eth.go]

    [daxie receive] polls the head of the chain, scans the blocks it has not
    seen for transfers to the listening address, waits for their confirmations,
    checks their evidence again, and ends when the confirmed transfers satisfy
    the completion mode or the deadline passes.  The state of a listen is a
    record; an event and a question to the node are single steps.  A Go panic is
    the distinguished error [go_panic], which no branch of the code catches; the
    loop over the chunks of a log range, the only one whose end depends on
    machine arithmetic, answers [go_diverges] when it would not end. *)

From S2P Require Import Prelude GoStrings Decimal Rfc3339 HexBytes Ethunit PolicyTypes Domain Trace Calldata Gas Journal Service TxStatus TokenSend.

Local Open Scope string_scope.
Local Open Scope Z_scope.
Local Open Scope list_scope.
Local Open Scope go_scope.

(** ** The wire contract (domain/receive_requests.go) *)

Definition ModeAny := "any".
Definition ModeCumulative := "cumulative".
Definition ModeExact := "exact".
Definition ModeNFT := "nft".

Definition AttribTx := "tx".
Definition AttribLog := "log".
Definition AttribBalanceDelta := "balance-delta".
Definition IsAttributable (attribution : string) : bool :=
  bool_decide (attribution = AttribTx) || bool_decide (attribution = AttribLog).

Record ReceiveRequest := mkReceiveRequest {
  rq_Account : string; rq_New : bool; rq_Wallet : string; rq_Name : string;
  rq_Amount : string; rq_Exact : bool; rq_Token : string; rq_NFT : string;
  rq_Confirmations : option Z; rq_Timeout : Z; rq_FromBlock : option Z;
  rq_Network : string; rq_RPC : string;
}.

Record ReceiveTarget := mkReceiveTarget { rt_Mode : string; rt_Amount : string; rt_Confirmations : Z }.
Record ReceiveAsset := mkReceiveAsset {
  ra_Kind : string; ra_Contract : string; ra_Alias : string; ra_Decimals : Z; ra_TokenID : string;
}.
Record DetectedTransfer := mkDetected {
  dt_TxHash : string; dt_LogIndex : option Z; dt_From : string; dt_Value : string; dt_TokenID : string;
  dt_Block : Z; dt_BlockHash : string; dt_Attribution : string;
}.
Record ReceiveResult := mkReceiveResult {
  rr_Address : string; rr_Network : string; rr_ChainID : Z; rr_Asset : ReceiveAsset; rr_Target : ReceiveTarget;
  rr_Status : string; rr_CumulativeConfirmed : string; rr_Remaining : string;
  rr_Transfers : list DetectedTransfer; rr_LastScanned : Z; rr_Resume : string; rr_Exit : Z;
}.

Definition ResolveReceiveMode (req : ReceiveRequest) : res error string :=
  if bool_decide (rq_Token req ≠ "") && bool_decide (rq_NFT req ≠ "")
  then Err (New "usage.asset_conflict" "--token and --nft are mutually exclusive (a receive listens for one asset)")
  else if rq_Exact req && bool_decide (rq_Amount req = "")
  then Err (New "usage.exact_needs_amount"
              "--exact requires --amount (it matches one single transfer equal to that amount)")
  else if rq_New req && bool_decide (rq_Wallet req = "")
  then Err (New "usage.new_needs_wallet"
              "--new requires --wallet (the wallet to derive the fresh invoice address from)")
  else if bool_decide (rq_NFT req ≠ "") then Ok ModeNFT
  else if bool_decide (rq_Amount req ≠ "") then Ok (if rq_Exact req then ModeExact else ModeCumulative)
  else Ok ModeAny.

(** the lines of the stream, with the fields each emission sets *)
Inductive RxEvent :=
| EvListening (addr : Address) (network : string) (chainID : Z) (asset : ReceiveAsset) (target : ReceiveTarget)
              (fromBlock : Z) (ts : string)
| EvDetected (det : DetectedTransfer) (cumDetected cumConfirmed remaining : string) (lastScanned : Z) (ts : string)
| EvConfirming (txHash : string) (conf target : Z) (cumConfirmed remaining : string) (lastScanned : Z) (ts : string)
| EvConfirmed (txHash value cumConfirmed remaining : string) (lastScanned : Z) (ts : string)
| EvReorged (txHash value cumConfirmed remaining : string) (lastScanned : Z) (ts : string)
| EvHeartbeat (note cumConfirmed remaining : string) (lastScanned : Z) (ts : string)
| EvComplete (addr : Address) (cumConfirmed : string) (txHashes : list string) (lastScanned exit : Z) (ts : string)
| EvTimeout (addr : Address) (cumConfirmed remaining : string) (lastScanned : Z) (resume note : string) (exit : Z)
            (ts : string).

(** ** What the node answers *)

(** the fields of a go-ethereum log *)
Record Log := mkLog {
  lg_Topics : list Hash; lg_Data : string; lg_BlockNumber : Z; lg_TxHash : Hash; lg_BlockHash : Hash;
  lg_Index : Z; lg_Removed : bool;
}.
(** a transaction of a block *)
Record BlockTx := mkBlockTx {
  bt_Hash : Hash; bt_To : option Address; bt_Value : Z; bt_GasPrice : Z; bt_Signature : string;
}.
Record Block := mkBlock { bk_Hash : Hash; bk_Transactions : list BlockTx }.
(** the filter of eth_getLogs: an empty position of the topics matches anything *)
Record FilterQuery := mkFilterQuery {
  fq_FromBlock : Z; fq_ToBlock : Z; fq_Addresses : list Address; fq_Topics : list (list Hash);
}.

(** the part of [chain.Client] only the listener uses, and the recovery of a
    sender by the signer of a chain, which go-ethereum computes *)
Class Watcher (N : Type) := {
  cc_Balance : Address → option Z → N → res GoError Z * N;
  cc_BlockByNumber : Z → N → res GoError (option Block) * N;
  cc_FilterLogs : FilterQuery → N → res GoError (list Log) * N;
  Sender : Z → BlockTx → option Address;
}.

(** ** The state of a listen *)

Definition KindERC20 := "erc20".

Record listenAsset := mkListenAsset {
  la_kind : string; la_contract : Address; la_alias : string; la_decimals : Z; la_tokenID : string;
}.
Definition isETH (a : listenAsset) : bool := bool_decide (la_kind a = "eth") || bool_decide (la_kind a = "").
Definition assetKind (a : listenAsset) : string := if isETH a then "eth" else la_kind a.

Record pending := mkPending {
  pd_txHash : Hash; pd_logIndex : option Z; pd_from : Address; pd_value : Z; pd_tokenID : string;
  pd_block : Z; pd_blockHash : Hash; pd_attribution : string;
}.

Record receiveState := mkReceive {
  st_addr : Address; st_accountRef : string; st_network : string; st_chainID : Z; st_asset : listenAsset;
  st_mode : string; st_targetAmount : option Z; st_confTarget : Z;
  st_lastScanned : Z; st_cumDetected : Z; st_cumConfirmed : Z;
  st_pending : gmap string pending; st_confirmed : gmap string pending;
  st_ethBaseline : option Z; st_lastActivity : Z;
}.

(** [for k, det := range m]: every entry once, in an order Go leaves open *)
Class RangeOrder (N : Type) := {
  range : N → gmap string pending → list (string * pending);
  range_perm : ∀ n m, range n m ≡ₚ map_to_list m;
}.

(** the configuration of a listen, durations in nanoseconds *)
Record ReceiveDefaults := mkReceiveDefaults {
  rd_PollInterval : Z; rd_MaxLogRange : Z; rd_HeartbeatInterval : Z; rd_LookbackBlocks : Z;
}.

Record RWorld (N : Type) := mkRWorld { rw_state : receiveState; rw_events : list RxEvent; rw_outside : N }.
Arguments mkRWorld {N}. Arguments rw_state {N}. Arguments rw_events {N}. Arguments rw_outside {N}.

Definition with_scanned (st : receiveState) (n : Z) : receiveState :=
  mkReceive (st_addr st) (st_accountRef st) (st_network st) (st_chainID st) (st_asset st) (st_mode st)
    (st_targetAmount st) (st_confTarget st) n (st_cumDetected st) (st_cumConfirmed st) (st_pending st)
    (st_confirmed st) (st_ethBaseline st) (st_lastActivity st).
Definition with_baseline (st : receiveState) (b : Z) : receiveState :=
  mkReceive (st_addr st) (st_accountRef st) (st_network st) (st_chainID st) (st_asset st) (st_mode st)
    (st_targetAmount st) (st_confTarget st) (st_lastScanned st) (st_cumDetected st) (st_cumConfirmed st)
    (st_pending st) (st_confirmed st) (Some b) (st_lastActivity st).
Definition with_activity (st : receiveState) (t : Z) : receiveState :=
  mkReceive (st_addr st) (st_accountRef st) (st_network st) (st_chainID st) (st_asset st) (st_mode st)
    (st_targetAmount st) (st_confTarget st) (st_lastScanned st) (st_cumDetected st) (st_cumConfirmed st)
    (st_pending st) (st_confirmed st) (st_ethBaseline st) t.
Definition with_sets (st : receiveState) (detected confirmed : Z) (p c : gmap string pending) : receiveState :=
  mkReceive (st_addr st) (st_accountRef st) (st_network st) (st_chainID st) (st_asset st) (st_mode st)
    (st_targetAmount st) (st_confTarget st) (st_lastScanned st) detected confirmed p c
    (st_ethBaseline st) (st_lastActivity st).

(** ** Pure parts *)

Definition zero_time : Z := - 62135596800 * second.
(** nowTS *)
Definition ts_of (t : Z) : string := if t =? zero_time then "" else Format t.

(** the low 64 bits as a two's complement number: [int(x)], [big.Int.Int64] *)
Definition int64_of (n : Z) : Z := let m := n mod 2 ^ 64 in if m <? 2 ^ 63 then m else m - 2 ^ 64.

Definition CodeRefNotFound := "ref.not_found".
Definition CodePanic := "panic".
Definition go_panic : error := New CodePanic "runtime error".
Definition go_diverges : error := New CodePanic "no result".

(** isRetryableRPC, on the error of a step *)
Definition isRetryableRPC (e : error) : bool := bool_decide (e_Code e = CodeRPCUnreachable).

Section Pure.
Context {UT : UnicodeTables} {GC : GethCommon} {KC : Keccak}.

(** isNotFound *)
Definition isNotFound (e : GoError) : bool :=
  match ge_Domain e with Some de => bool_decide (e_Code de = CodeRefNotFound) | None => false end
  || Contains (ToLower (ge_Text e)) "not found".

Definition transferTopic0 : Hash := SetBytes (Keccak256 "Transfer(address,address,uint256)").
Definition transferSingleTopic0 : Hash :=
  SetBytes (Keccak256 "TransferSingle(address,address,address,uint256,uint256)").
Definition transferBatchTopic0 : Hash :=
  SetBytes (Keccak256 "TransferBatch(address,address,address,uint256[],uint256[])").

(** pending.key *)
Definition key (p : pending) : string :=
  z_string (pd_block p) +:+ "|" +:+ HashHex (pd_txHash p) +:+ "|" +:+ z_string (default (-1) (pd_logIndex p)) +:+ "|" +:+
  pd_attribution p.

(** transferQuery *)
Definition transferQuery (st : receiveState) (from to : Z) : FilterQuery :=
  mkFilterQuery from to [la_contract (st_asset st)]
    (if bool_decide (la_kind (st_asset st) = KindERC1155)
     then [[transferSingleTopic0; transferBatchTopic0]; []; []; [st_addr st]]
     else [[transferTopic0]; []; [st_addr st]]).

(** common.BytesToAddress of a topic keeps its last twenty bytes *)
Definition topic_address (t : Hash) : Address := t mod 2 ^ 160.

Definition log_pending (l : Log) (li : Z) (from : Address) (value : Z) (tokenID : string) : pending :=
  mkPending (lg_TxHash l) (Some li) from value tokenID (lg_BlockNumber l) (lg_BlockHash l) AttribLog.

(** a wanted token identifier: any, when none was asked for *)
Definition wanted (st : receiveState) (tokenID : string) : bool :=
  negb (bool_decide (la_tokenID (st_asset st) ≠ "") && bool_decide (la_tokenID (st_asset st) ≠ tokenID)).

Definition classify20 (st : receiveState) (l : Log) (li : Z) : option pending :=
  match lg_Topics l with
  | [t0; t1; t2] =>
      if negb (t0 =? transferTopic0) || negb (String.length (lg_Data l) =? 32)%nat then None
      else if negb (topic_address t2 =? st_addr st) then None
      else let val := SetBytes (lg_Data l) in
           if val =? 0 then None else Some (log_pending l li (topic_address t1) val "")
  | _ => None
  end.

Definition classify721 (st : receiveState) (l : Log) (li : Z) : option pending :=
  match lg_Topics l with
  | [t0; t1; t2; t3] =>
      if negb (t0 =? transferTopic0) then None
      else if negb (topic_address t2 =? st_addr st) then None
      else let tokenID := z_string t3 in
           if negb (wanted st tokenID) then None
           else Some (log_pending l li (topic_address t1) 1 tokenID)
  | _ => None
  end.

(** the closure [word] of decode1155Batch: the bounds are tested in int64
    arithmetic, and a slice out of range panics *)
Definition data_word (data : string) (off : Z) : res error (option Z) :=
  let len := Z.of_nat (String.length data) in
  if (off <? 0) || (len <? int64_of (off + 32)) then Ok None
  else if len <? off + 32 then Err go_panic
  else Ok (Some (SetBytes (stake 32 (sdrop (Z.to_nat off) data)))).

Fixpoint read_words (data : string) (off : Z) (n : nat) : res error (option (list Z)) :=
  match n with
  | O => Ok (Some [])
  | S n =>
      let* w := data_word data off in
      match w with
      | None => Ok None
      | Some v =>
          let* r := read_words data (off + 32) n in
          Ok (option_map (cons v) r)
      end
  end.

Definition array_bound : Z := Z.shiftl 1 20.

(** the closure [readArr] *)
Definition readArr (data : string) (off : Z) : res error (option (list Z)) :=
  let* lenB := data_word data off in
  match lenB with
  | None => Ok None
  | Some lenB =>
      let n := int64_of lenB in
      if (n <? 0) || (array_bound <? n) then Ok None
      else read_words data (int64_of (off + 32)) (Z.to_nat n)
  end.

Definition decode1155Batch (data : string) : res error (option (list Z * list Z)) :=
  let* o1 := data_word data 0 in
  let* o2 := data_word data 32 in
  match o1, o2 with
  | Some offIds, Some offVals =>
      let* ids := readArr data (int64_of offIds) in
      let* vals := readArr data (int64_of offVals) in
      match ids, vals with
      | Some ids, Some vals => Ok (if (length ids =? length vals)%nat then Some (ids, vals) else None)
      | _, _ => Ok None
      end
  | _, _ => Ok None
  end.

(** the quantity of the wanted identifiers *)
Definition batch_sum (st : receiveState) (ids vals : list Z) : Z :=
  zsum (map (λ '(id, v), if wanted st (z_string id) then v else 0) (zip ids vals)).

Definition classify1155 (st : receiveState) (l : Log) (li : Z) : res error (option pending) :=
  match lg_Topics l with
  | [t0; t1; t2; t3] =>
      if negb (topic_address t3 =? st_addr st) then Ok None
      else let from := topic_address t2 in
           if t0 =? transferSingleTopic0 then
             if (String.length (lg_Data l) <? 64)%nat then Ok None
             else let id := z_string (SetBytes (stake 32 (lg_Data l))) in
                  let val := SetBytes (stake 32 (sdrop 32 (lg_Data l))) in
                  if negb (wanted st id) then Ok None
                  else if val =? 0 then Ok None
                  else Ok (Some (log_pending l li from val id))
           else if t0 =? transferBatchTopic0 then
             let* r := decode1155Batch (lg_Data l) in
             match r with
             | None => Ok None
             | Some (ids, vals) =>
                 let sum := batch_sum st ids vals in
                 if sum =? 0 then Ok None
                 else Ok (Some (log_pending l li from sum (la_tokenID (st_asset st))))
             end
           else Ok None
  | _ => Ok None
  end.

Definition classifyLog (st : receiveState) (l : Log) : res error (option pending) :=
  if lg_Removed l then Ok None
  else
    let li := int64_of (lg_Index l) in
    if bool_decide (la_kind (st_asset st) = KindERC1155) then classify1155 st l li
    else if bool_decide (la_kind (st_asset st) = KindERC721) then Ok (classify721 st l li)
    else Ok (classify20 st l li).

(** balanceDelta: the residue, whether it was clamped, the new baseline *)
Definition balanceDelta (baseline headBalance directIn ownOut ownFees : Z) : Z * bool * Z :=
  let u := headBalance - baseline - directIn + ownOut + ownFees in
  if u <? 0 then (0, true, headBalance) else (u, false, headBalance).

Definition remaining (st : receiveState) : Z :=
  match st_targetAmount st with
  | None => 0
  | Some target => let r := target - st_cumConfirmed st in if r <? 0 then 0 else r
  end.
End Pure.

(** ** The result *)

Section Result.
Context {UT : UnicodeTables} {GC : GethCommon}.

(** sortPending: by block, log index, then hash *)
Definition pending_before (a b : pending) : bool :=
  if negb (pd_block a =? pd_block b) then pd_block a <? pd_block b
  else
    let la := default (-1) (pd_logIndex a) in let lb := default (-1) (pd_logIndex b) in
    if negb (la =? lb) then la <? lb else String.ltb (HashHex (pd_txHash a)) (HashHex (pd_txHash b)).
Definition sortPending : list pending → list pending := stable_sort pending_before.

(** confirmedOrdered, of the enumerated confirmed set *)
Definition confirmedOrdered (entries : list (string * pending)) : list pending := sortPending entries.*2.

Definition hashHexOrEmpty (h : Hash) : string := if h =? 0 then "" else HashHex h.
Definition addrHexOrEmpty (a : Address) : string := if a =? 0 then "" else Hex a.

(** the wire view of a detection (confirmedTransfers, emitDetected) *)
Definition detected (p : pending) : DetectedTransfer := {|
  dt_TxHash := hashHexOrEmpty (pd_txHash p); dt_LogIndex := pd_logIndex p; dt_From := addrHexOrEmpty (pd_from p);
  dt_Value := z_string (pd_value p); dt_TokenID := pd_tokenID p; dt_Block := pd_block p;
  dt_BlockHash := hashHexOrEmpty (pd_blockHash p); dt_Attribution := pd_attribution p |}.

(** confirmedHashes: distinct, in order *)
Fixpoint distinct (seen l : list string) : list string :=
  match l with
  | [] => []
  | h :: l => if existsb (String.eqb h) seen then distinct seen l else h :: distinct (h :: seen) l
  end.
Definition confirmedHashes (l : list pending) : list string :=
  distinct [] (map (λ p, HashHex (pd_txHash p)) (List.filter (λ p, negb (pd_txHash p =? 0)) l)).

Definition assetWire (st : receiveState) : ReceiveAsset :=
  let a := st_asset st in
  if isETH a then mkReceiveAsset (assetKind a) "" (la_alias a) 0 ""
  else mkReceiveAsset (assetKind a) (Hex (la_contract a)) (la_alias a) (la_decimals a) (la_tokenID a).
Definition targetWire (st : receiveState) : ReceiveTarget :=
  mkReceiveTarget (st_mode st) (match st_targetAmount st with Some t => z_string t | None => "" end) (st_confTarget st).

(** receiveState.result, with the resume command of a timeout *)
Definition result (st : receiveState) (ordered : list pending) (status resume : string) (exit : Z) : ReceiveResult := {|
  rr_Address := Hex (st_addr st); rr_Network := st_network st; rr_ChainID := st_chainID st;
  rr_Asset := assetWire st; rr_Target := targetWire st; rr_Status := status;
  rr_CumulativeConfirmed := z_string (st_cumConfirmed st); rr_Remaining := z_string (remaining st);
  rr_Transfers := map detected ordered; rr_LastScanned := st_lastScanned st;
  rr_Resume := resume; rr_Exit := exit |}.

Definition isNFTKind (k : string) : bool := bool_decide (k = KindERC721) || bool_decide (k = KindERC1155).

(** humanAmount *)
Definition humanAmount (st : receiveState) : string :=
  let k := la_kind (st_asset st) in
  if bool_decide (k = KindERC20) || isNFTKind k
  then FormatTokenAmount (Some (remaining st)) (la_decimals (st_asset st))
  else FormatAmount (remaining st) Eth.

Definition assetFlagValue (a : listenAsset) : string :=
  if bool_decide (la_alias a ≠ "") then la_alias a else Hex (la_contract a).
Definition nftFlagValue (a : listenAsset) : string :=
  if bool_decide (la_tokenID a ≠ "") then Hex (la_contract a) +:+ "#" +:+ la_tokenID a
  else if bool_decide (la_alias a ≠ "") then la_alias a else Hex (la_contract a).

(** resumeCommand *)
Definition resumeCommand (st : receiveState) : string :=
  let a := st_asset st in
  "daxie receive --account " +:+ (if bool_decide (st_accountRef st ≠ "") then st_accountRef st else Hex (st_addr st)) +:+
  (if bool_decide (la_kind a = KindERC20) then " --token " +:+ assetFlagValue a
   else if isNFTKind (la_kind a) then " --nft " +:+ nftFlagValue a else "") +:+
  (if bool_decide (is_Some (st_targetAmount st)) then " --amount " +:+ humanAmount st else "") +:+
  (if bool_decide (st_mode st = ModeExact) then " --exact" else "") +:+
  " --from-block " +:+ z_string (wrap64 (st_lastScanned st + 1)).

(** completed, on the values and attributions of the confirmed set *)
Definition completed (st : receiveState) : bool :=
  if bool_decide (st_mode st = ModeAny) then 0 <? st_cumConfirmed st
  else if bool_decide (st_mode st = ModeExact)
  then existsb (λ '(_, det), IsAttributable (pd_attribution det) &&
                             match st_targetAmount st with Some t => pd_value det =? t | None => false end)
         (map_to_list (st_confirmed st))
  else if bool_decide (st_mode st = ModeNFT)
  then match st_targetAmount st with
       | Some t => if 0 <? t then t <=? st_cumConfirmed st else 0 <? st_cumConfirmed st
       | None => 0 <? st_cumConfirmed st
       end
  else match st_targetAmount st with None => 0 <? st_cumConfirmed st | Some t => t <=? st_cumConfirmed st end.

(** receiveTargetAmount *)
Definition receiveTargetAmount (amount : string) (asset : listenAsset) : res error (option Z) :=
  if bool_decide (amount = "") then Ok None
  else if isETH asset
  then match ParseAmount amount Eth with
       | Ok wei => Ok (Some wei)
       | Err _ => Err (New "usage.bad_amount" ("invalid ETH amount " +:+ go_quote amount))
       end
  else match ParseTokenAmount (TrimSpace amount) (la_decimals asset) with
       | Ok base => Ok (Some base)
       | Err _ => Err (New "usage.bad_amount" ("invalid amount " +:+ go_quote amount))
       end.
End Result.

(** ** The engine *)

Section Detection.
Context {N : Type} {UT : UnicodeTables} {GC : GethCommon} {KC : Keccak} {EV : Environment N} {WA : Watcher N}
        {RO : RangeOrder N}.
Variables (cfg : ReceiveDefaults) (txcfg : TxConfig).

Definition RM (A : Type) : Type := T (RWorld N) A.

Definition query {A} (f : N → A * N) : RM A := λ w,
  let '(a, n) := f (rw_outside w) in (Ok a, [mkRWorld (rw_state w) (rw_events w) n]).
Definition query_rpc {A} (f : N → res GoError A * N) : RM A := r <-- query f ;; mlift (rpc r).
Definition modify (f : receiveState → receiveState) : RM () := λ w,
  (Ok tt, [mkRWorld (f (rw_state w)) (rw_events w) (rw_outside w)]).
Definition emit (e : receiveState → RxEvent) : RM () := λ w,
  (Ok tt, [mkRWorld (rw_state w) (rw_events w ++ [e (rw_state w)]) (rw_outside w)]).
Definition state : RM receiveState := λ w, (Ok (rw_state w), []).
(** the entries of a map in the order this iteration takes *)
Definition entries (m : gmap string pending) : RM (list (string * pending)) := λ w, (Ok (range (rw_outside w) m), []).

(** every element of a list in turn *)
Fixpoint each {A} (f : A → RM ()) (l : list A) : RM () :=
  match l with [] => mret tt | x :: l => f x ;;; each f l end.

(** an emission: the activity clock, the timestamp, the line *)
Definition emit_line (e : string → receiveState → RxEvent) : RM () :=
  now <-- query clock ;; modify (λ st, with_activity st (now / second)) ;;;
  ts <-- query clock ;; emit (e (ts_of ts)).

Definition emitListening (fromBlock : Z) : RM () :=
  emit_line (λ ts st, EvListening (st_addr st) (st_network st) (st_chainID st) (assetWire st) (targetWire st) fromBlock ts).
Definition emitDetected (det : pending) : RM () :=
  emit_line (λ ts st, EvDetected (detected det) (z_string (st_cumDetected st)) (z_string (st_cumConfirmed st))
                        (z_string (remaining st)) (st_lastScanned st) ts).
Definition emitConfirming (det : pending) (conf : Z) : RM () :=
  emit_line (λ ts st, EvConfirming (hashHexOrEmpty (pd_txHash det)) conf (st_confTarget st)
                        (z_string (st_cumConfirmed st)) (z_string (remaining st)) (st_lastScanned st) ts).
Definition emitConfirmed (det : pending) : RM () :=
  emit_line (λ ts st, EvConfirmed (hashHexOrEmpty (pd_txHash det)) (z_string (pd_value det))
                        (z_string (st_cumConfirmed st)) (z_string (remaining st)) (st_lastScanned st) ts).
Definition emitReorged (det : pending) : RM () :=
  emit_line (λ ts st, EvReorged (hashHexOrEmpty (pd_txHash det)) (z_string (pd_value det))
                        (z_string (st_cumConfirmed st)) (z_string (remaining st)) (st_lastScanned st) ts).

Definition maybeHeartbeat : RM () :=
  let hb := rd_HeartbeatInterval cfg in
  if hb <=? 0 then mret tt
  else
    now <-- query clock ;; st <-- state ;;
    if now / second - st_lastActivity st <? hb / second then mret tt
    else
      modify (λ st, with_activity st (now / second)) ;;;
      ts <-- query clock ;;
      emit (λ st, EvHeartbeat "" (z_string (st_cumConfirmed st)) (z_string (remaining st)) (st_lastScanned st) (ts_of ts)).

(** *** Detection *)

Definition recordDetection (det : pending) : RM () :=
  st <-- state ;;
  if bool_decide (is_Some (st_pending st !! key det)) then mret tt
  else if bool_decide (is_Some (st_confirmed st !! key det)) then mret tt
  else
    modify (λ st, with_sets st (st_cumDetected st + pd_value det) (st_cumConfirmed st)
                    (<[key det := det]> (st_pending st)) (st_confirmed st)) ;;;
    emitDetected det.

(** one log of a reply *)
Definition scan_log (l : Log) : RM () :=
  st <-- state ;; d <-- mlift (classifyLog st l) ;;
  match d with Some det => recordDetection det | None => mret tt end.

(** the loop over the chunks, in uint64 arithmetic *)
Fixpoint scan_chunks (fuel : nat) (span lo to : Z) : RM () :=
  match fuel with
  | O => mfail go_diverges
  | S fuel =>
      if negb (lo <=? to) then mret tt
      else
        let hi0 := wrap64 (lo + span - 1) in
        let hi := if to <? hi0 then to else hi0 in
        st <-- state ;;
        logs <-- query_rpc (cc_FilterLogs (transferQuery st lo hi)) ;;
        each scan_log logs ;;;
        if hi =? to then mret tt else scan_chunks fuel span (wrap64 (lo + span)) to
  end.

Definition log_span : Z := if rd_MaxLogRange cfg <=? 0 then 1000 else rd_MaxLogRange cfg.
Definition scanRangeLogs (from to : Z) : RM () := scan_chunks (S (Z.to_nat (to - from + 1))) log_span from to.

(** senderOrZero *)
Definition senderOrZero (chainID : Z) (tx : BlockTx) : Address := default 0 (Sender (N := N) chainID tx).

(** the inbound test and the own-outbound test of scanETHBlock *)
Definition is_inbound (addr : Address) (tx : BlockTx) : bool :=
  match bt_To tx with Some to => (to =? addr) && (0 <? bt_Value tx) | None => false end.
Definition is_own (chainID : Z) (addr : Address) (tx : BlockTx) : bool := senderOrZero chainID tx =? addr.

Record ethScan := mkEthScan {
  es_directIn : Z; es_inbound : list BlockTx; es_ownOut : Z; es_ownTxs : list Hash; es_block : option Block;
}.

(** the classification of a block's transactions (scanETHBlock) *)
Definition scan_block (chainID : Z) (addr : Address) (blk : option Block) : ethScan :=
  let txs := match blk with Some b => bk_Transactions b | None => [] end in
  let ins := List.filter (is_inbound addr) txs in
  let own := List.filter (is_own chainID addr) txs in
  mkEthScan (zsum (map bt_Value ins)) ins (zsum (map bt_Value own)) (map bt_Hash own) blk.

Definition scanETHBlock (addr : Address) (n chainID : Z) : RM ethScan :=
  blk <-- query_rpc (cc_BlockByNumber n) ;; mret (scan_block chainID addr blk).

(** the price of a receipt, or of the transaction in the block *)
Definition fee_price (blk : option Block) (h : Hash) (rcpt : CReceipt) : option Z :=
  match cr_EffectiveGasPrice rcpt with
  | Some p =>
      if p =? 0
      then match blk with
           | Some b => match List.find (λ tx, bt_Hash tx =? h) (bk_Transactions b) with
                       | Some tx => Some (bt_GasPrice tx)
                       | None => Some p
                       end
           | None => Some p
           end
      else Some p
  | None =>
      match blk with
      | Some b => match List.find (λ tx, bt_Hash tx =? h) (bk_Transactions b) with
                  | Some tx => Some (bt_GasPrice tx)
                  | None => None
                  end
      | None => None
      end
  end.
Definition fee_of (blk : option Block) (h : Hash) (rcpt : CReceipt) : Z :=
  match fee_price blk h rcpt with Some p => cr_GasUsed rcpt * p | None => 0 end.

Fixpoint ownFeesActual (blk : option Block) (ownTxs : list Hash) (total : Z) : RM Z :=
  match ownTxs with
  | [] => mret total
  | h :: ownTxs =>
      r <-- query_rpc (cc_Receipt h) ;;
      match r with
      | None => mfail go_panic
      | Some rcpt => ownFeesActual blk ownTxs (total + fee_of blk h rcpt)
      end
  end.

Definition tx_pending (chainID n : Z) (blk : option Block) (tx : BlockTx) : pending :=
  mkPending (bt_Hash tx) None (senderOrZero chainID tx) (bt_Value tx) "" n
    (match blk with Some b => bk_Hash b | None => 0 end) AttribTx.
Definition delta_pending (unattributed to : Z) : pending :=
  mkPending 0 None 0 unattributed "" to 0 AttribBalanceDelta.

(** the sums of a window: directIn, ownOut, ownFees *)
Record Sums := mkSums { sm_in : Z; sm_out : Z; sm_fees : Z }.

(** the loop over the blocks (scanRangeETH) *)
Fixpoint scan_blocks (blocks : list Z) (acc : Sums) : RM Sums :=
  match blocks with
  | [] => mret acc
  | n :: blocks =>
      st <-- state ;;
      scan <-- scanETHBlock (st_addr st) n (st_chainID st) ;;
      each (λ tx, recordDetection (tx_pending (st_chainID st) n (es_block scan) tx)) (es_inbound scan) ;;;
      fees <-- (if bool_decide (es_ownTxs scan = []) then mret 0 else ownFeesActual (es_block scan) (es_ownTxs scan) 0) ;;
      scan_blocks blocks (mkSums (sm_in acc + es_directIn scan) (sm_out acc + es_ownOut scan) (sm_fees acc + fees))
  end.

Definition emitBalanceDeltaWarn (lastScanned : Z) : RM () :=
  ts <-- query clock ;;
  emit (λ st, EvHeartbeat "unattributed ETH outflow detected (balance delta clamped to zero)"
                (z_string (st_cumConfirmed st)) (z_string (remaining st)) lastScanned (ts_of ts)).

Definition scanRangeETH (from to : Z) : RM () :=
  acc <-- scan_blocks (seqZ from (to - from + 1)) (mkSums 0 0 0) ;;
  st <-- state ;;
  headBal <-- query_rpc (cc_Balance (st_addr st) (Some to)) ;;
  let '(unattributed, clamped, newBaseline) :=
    balanceDelta (default 0 (st_ethBaseline st)) headBal (sm_in acc) (sm_out acc) (sm_fees acc) in
  modify (λ st, with_baseline st newBaseline) ;;;
  if clamped then emitBalanceDeltaWarn to
  else if 0 <? unattributed then recordDetection (delta_pending unattributed to)
  else mret tt.

Definition scanRange (from to : Z) : RM () :=
  st <-- state ;; if isETH (st_asset st) then scanRangeETH from to else scanRangeLogs from to.

(** *** Confirmation *)

(** the log of a detection among those of its block *)
Definition same_log (det : pending) (l : Log) : bool :=
  (lg_TxHash l =? pd_txHash det) &&
  match pd_logIndex det with Some li => int64_of (lg_Index l) =? li | None => false end.

(** the receipt a re-check needs; its absence is a reorganization *)
Definition recheck_receipt (h : Hash) (test : CReceipt → bool) : RM bool :=
  r <-- query (cc_Receipt h) ;;
  match r with
  | Err e => if isNotFound e then mret false else mfail (mapRPCErr e)
  | Ok None => mfail go_panic
  | Ok (Some rcpt) => mret (test rcpt)
  end.

Definition reverify (det : pending) : RM bool :=
  if bool_decide (pd_attribution det = AttribBalanceDelta) then mret true
  else if bool_decide (pd_attribution det = AttribTx)
  then recheck_receipt (pd_txHash det) (λ rcpt, (cr_Status rcpt =? 1) && (cr_BlockHash rcpt =? pd_blockHash det))
  else if bool_decide (pd_attribution det = AttribLog)
  then
    st <-- state ;;
    logs <-- query_rpc (cc_FilterLogs (transferQuery st (pd_block det) (pd_block det))) ;;
    match List.find (same_log det) logs with
    | None => mret false
    | Some l =>
        if lg_Removed l || negb (lg_BlockHash l =? pd_blockHash det) then mret false
        else recheck_receipt (pd_txHash det) (λ rcpt, cr_Status rcpt =? 1)
    end
  else mret true.

(** a confirmed detection: taken out again when its evidence is gone *)
Definition recheck_confirmed (e : string * pending) : RM () :=
  let '(k, det) := e in
  ok <-- reverify det ;;
  if ok then mret tt
  else
    modify (λ st, with_sets st (st_cumDetected st) (st_cumConfirmed st - pd_value det) (st_pending st)
                    (delete k (st_confirmed st))) ;;;
    emitReorged det.

(** a pending detection at the head [head] *)
Definition advance_pending (head : Z) (e : string * pending) : RM () :=
  let '(k, det) := e in
  st <-- state ;;
  if head <? pd_block det then mret tt
  else
    let conf := wrap64 (head - pd_block det + 1) in
    if conf <? st_confTarget st then emitConfirming det conf
    else
      ok <-- reverify det ;;
      if ok then
        modify (λ st, with_sets st (st_cumDetected st) (st_cumConfirmed st + pd_value det) (delete k (st_pending st))
                        (<[k := det]> (st_confirmed st))) ;;;
        emitConfirmed det
      else
        modify (λ st, with_sets st (st_cumDetected st) (st_cumConfirmed st) (delete k (st_pending st)) (st_confirmed st)) ;;;
        emitReorged det.

Definition advanceConfirmations (head : Z) : RM () :=
  st <-- state ;; l <-- entries (st_confirmed st) ;; each recheck_confirmed l ;;;
  st <-- state ;; l <-- entries (st_pending st) ;; each (advance_pending head) l.

(** *** The loop *)

Definition completeResult : RM ReceiveResult :=
  st <-- state ;; l <-- entries (st_confirmed st) ;; l' <-- entries (st_confirmed st) ;;
  ts <-- query clock ;;
  emit (λ st, EvComplete (st_addr st) (z_string (st_cumConfirmed st)) (confirmedHashes (confirmedOrdered l'))
                (st_lastScanned st) 0 (ts_of ts)) ;;;
  mret (result st (confirmedOrdered l) "complete" "" 0).

Definition timeoutResult : RM ReceiveResult :=
  st <-- state ;; l <-- entries (st_confirmed st) ;; ts <-- query clock ;;
  emit (λ st, EvTimeout (st_addr st) (z_string (st_cumConfirmed st)) (z_string (remaining st)) (st_lastScanned st)
                (resumeCommand st) (if isETH (st_asset st) then "verify balance before resuming" else "") 8 (ts_of ts)) ;;;
  mret (result st (confirmedOrdered l) "timeout" (resumeCommand st) 8).

(** one pass: the final result when the listen ends; below a uint64 head the
    increment does not wrap *)
Definition receiveStep : RM (option ReceiveResult) :=
  head <-- query_rpc cc_BlockNumber ;;
  st <-- state ;;
  (if st_lastScanned st <? head
   then scanRange (st_lastScanned st + 1) head ;;; modify (λ st, with_scanned st head)
   else mret tt) ;;;
  advanceConfirmations head ;;;
  st <-- state ;;
  if completed st then r <-- completeResult ;; mret (Some r)
  else maybeHeartbeat ;;; mret None.

(** one turn of the loop: the result when it returns *)
Definition receive_turn (deadline : option Z) (poll : Z) : RM (option ReceiveResult) :=
  r <-- mres receiveStep ;;
  match r with
  | Ok (Some res) => mret (Some res)
  | r =>
      match r with
      | Err e => if isRetryableRPC e then maybeHeartbeat else mfail e
      | Ok _ => mret tt
      end ;;;
      late <-- match deadline with
               | None => mret false
               | Some d => now <-- query clock ;; mret (negb (now <? d))
               end ;;
      if late then r <-- timeoutResult ;; mret (Some r)
      else
        s <-- query (sleep poll) ;;
        match s with
        | Some _ => r <-- timeoutResult ;; mret (Some r)
        | None => mret None
        end
  end.

(** the loop, for at most [rounds] turns; [None] while it would still poll *)
Fixpoint receiveLoop (rounds : nat) (deadline : option Z) (poll : Z) : RM (option ReceiveResult) :=
  match rounds with
  | O => mret None
  | S rounds =>
      r <-- receive_turn deadline poll ;;
      match r with Some res => mret (Some res) | None => receiveLoop rounds deadline poll end
  end.
End Detection.

(** ** The operation *)

(** what the resolution of a request gives: the dialed chain, the listening
    address and its reference, the asset *)
Record Listen := mkListen {
  li_network : string; li_chainID : Z; li_addr : Address; li_accountRef : string; li_asset : listenAsset;
}.

(** the state before the first pass *)
Definition init_state (l : Listen) (mode : string) (target : option Z) (confTarget fromBlock : Z) : receiveState :=
  mkReceive (li_addr l) (li_accountRef l) (li_network l) (li_chainID l) (li_asset l) mode target confTarget
    (if 0 <? fromBlock then fromBlock - 1 else 0) 0 0 ∅ ∅ None 0.

Definition from_block (cfg : ReceiveDefaults) (req : ReceiveRequest) (head : Z) : Z :=
  match rq_FromBlock req with
  | Some b => b
  | None =>
      let lb := if 0 <? rd_LookbackBlocks cfg then rd_LookbackBlocks cfg else 0 in
      if lb <? head then head - lb else 0
  end.

Section Operation.
Context {N : Type} {UT : UnicodeTables} {GC : GethCommon} {KC : Keccak} {EV : Environment N} {WA : Watcher N}
        {RO : RangeOrder N}.
Variables (cfg : ReceiveDefaults) (txcfg : TxConfig).

(** Receive on a resolved request *)
Definition Receive (rounds : nat) (req : ReceiveRequest) (l : Listen) : RM (N := N) (option ReceiveResult) :=
  mode <-- mlift (ResolveReceiveMode req) ;;
  target <-- mlift (receiveTargetAmount (rq_Amount req) (li_asset l)) ;;
  head <-- query_rpc cc_BlockNumber ;;
  let fromBlock := from_block cfg req head in
  modify (λ _, init_state l mode target (confirmTarget txcfg (li_network l) (rq_Confirmations req)) fromBlock) ;;;
  (if isETH (li_asset l)
   then bal <-- query_rpc (cc_Balance (li_addr l) None) ;; modify (λ st, with_baseline st bal)
   else mret tt) ;;;
  emitListening fromBlock ;;;
  deadline <-- (if 0 <? rq_Timeout req then now <-- query clock ;; mret (Some (now + rq_Timeout req)) else mret None) ;;
  now <-- query clock ;;
  modify (λ st, with_activity st (now / second)) ;;;
  receiveLoop cfg rounds deadline (floorPoll (rd_PollInterval cfg)).
End Operation.
