(* ===== verification/ReceiveProps.v ===== *)
(** * Reasoning about a listen

    A weakest precondition for the operations of the listener: every state along
    the way satisfies an invariant, every error is an allowed one, and the
    result and the final state satisfy a postcondition, whatever the node, the
    clock and the order of map iterations do.  Then the facts about detections
    the properties share, and the first property: each detection that a listen
    reports was shown by the node. *)

From S2P Require Import Prelude GoStrings Decimal HexBytes Ethunit PolicyTypes Domain Trace Calldata Gas Journal Service TxStatus TokenSend Receive.

Local Open Scope string_scope.
Local Open Scope Z_scope.
Local Open Scope list_scope.
Local Open Scope go_scope.

(** ** Weakest preconditions *)

Section WP.
Context {N : Type} {EV : Environment N} {RO : RangeOrder N}.
Variables (I : receiveState → Prop) (E : error → Prop).
Implicit Types (w : RWorld N) (s : receiveState).

Definition wp {A} (s : receiveState) (m : RM (N := N) A) (Q : A → receiveState → Prop) : Prop :=
  ∀ w, rw_state w = s →
    Forall (λ w', I (rw_state w')) (m w).2 ∧
    match (m w).1 with Ok a => Q a (rw_state (after w (m w).2)) | Err e => E e end.

Lemma wp_conseq {A} s (m : RM A) (Q R : A → receiveState → Prop) :
  wp s m Q → (∀ a s', Q a s' → R a s') → wp s m R.
Proof. intros Hm HQ w Hw. destruct (Hm w Hw) as [H1 H2]. split; [done|]. destruct (m w).1; auto. Qed.

Lemma wp_bind {A B} s (m : RM A) (f : A → RM B) Q :
  wp s m (λ a s', wp s' (f a) Q) → wp s (mbind m f) Q.
Proof.
  intros Hm w Hw. destruct (Hm w Hw) as [H1 H2]. unfold mbind. destruct (m w) as [[a|e] tr]; cbn [fst snd] in *; [|done].
  destruct (H2 (after w tr) eq_refl) as [H3 H4]. destruct (f a (after w tr)) as [r tr']. cbn [fst snd] in *.
  rewrite after_app. split; [by apply Forall_app|]. done.
Qed.

Lemma wp_ret {A} s (a : A) Q : Q a s → wp s (mret a) Q.
Proof. intros H w <-. split; [constructor|done]. Qed.
Lemma wp_fail {A} s e (Q : A → receiveState → Prop) : E e → wp s (mfail e) Q.
Proof. intros H w <-. split; [constructor|done]. Qed.
Lemma wp_lift {A} s (r : res error A) Q :
  match r with Ok a => Q a s | Err e => E e end → wp s (mlift r) Q.
Proof. intros H w <-. split; [constructor|]. cbn. by destruct r. Qed.
Lemma wp_state s Q : Q s s → wp s state Q.
Proof. intros H w <-. split; [constructor|done]. Qed.
Lemma wp_entries s m Q : (∀ l, l ≡ₚ map_to_list m → Q l s) → wp s (entries m) Q.
Proof. intros H w <-. split; [constructor|]. apply H, range_perm. Qed.
Lemma wp_query {A} s (f : N → A * N) Q : I s → (∀ n, Q (f n).1 s) → wp s (query f) Q.
Proof.
  intros HI H w <-. unfold query. specialize (H (rw_outside w)). destruct (f (rw_outside w)) as [a n]. cbn in *.
  split; [by repeat constructor|done].
Qed.
Lemma wp_query_rpc {A} s (f : N → res GoError A * N) Q :
  I s → (∀ n, match rpc (f n).1 with Ok a => Q a s | Err e => E e end) → wp s (query_rpc f) Q.
Proof. intros HI H. apply wp_bind, wp_query; [done|]. intros n. apply wp_lift, H. Qed.
Lemma wp_modify s f Q : I (f s) → Q tt (f s) → wp s (modify f) Q.
Proof. intros HI H w <-. split; [by repeat constructor|done]. Qed.
Lemma wp_emit s e Q : I s → Q tt s → wp s (emit e) Q.
Proof. intros HI H w <-. split; [by repeat constructor|done]. Qed.

Lemma wp_mres {A} s (m : RM A) (Q : res error A → receiveState → Prop) :
  I s → wp s m (λ a s', Q (Ok a) s') → (∀ e s', E e → I s' → Q (Err e) s') → wp s (mres m) Q.
Proof.
  intros HI Hm He w Hw. destruct (Hm w Hw) as [H1 H2]. unfold mres. destruct (m w) as [[a|e] tr]; cbn [fst snd] in *; [done|].
  split; [done|]. apply He; [done|].
  destruct tr as [|x tr _] using rev_ind; [by rewrite <-Hw in HI|]. unfold after. rewrite List.last_last.
  apply Forall_app in H1 as [_ H1]. by apply Forall_inv in H1.
Qed.

(** a loop over a list, with an invariant on what is left *)
Lemma wp_each {A} (J : list A → receiveState → Prop) (f : A → RM ()) l s Q :
  J l s → (∀ x l s, J (x :: l) s → wp s (f x) (λ _ s', J l s')) → (∀ s, J [] s → Q tt s) → wp s (each f l) Q.
Proof.
  intros HJ Hf HQ. revert s HJ. induction l as [|x l IH]; intros s HJ; cbn [each]; [by apply wp_ret, HQ|].
  apply wp_bind. eapply wp_conseq; [by apply Hf|]. intros [] s' H. by apply IH.
Qed.

(** an emission keeps everything but the activity clock *)
Lemma wp_emit_line s e Q :
  I s → (∀ t, I (with_activity s t)) → (∀ t, Q tt (with_activity s t)) → wp s (emit_line e) Q.
Proof.
  intros HI Ht HQ. unfold emit_line. apply wp_bind, wp_query; [done|]. intros n. apply wp_bind, wp_modify; [done|].
  apply wp_bind, wp_query; [done|]. intros n'. by apply wp_emit.
Qed.

Lemma wp_heartbeat cfg s Q :
  I s → (∀ t, I (with_activity s t)) → Q tt s → (∀ t, Q tt (with_activity s t)) → wp s (maybeHeartbeat cfg) Q.
Proof.
  intros HI Ht H1 H2. unfold maybeHeartbeat. destruct (_ <=? 0); [by apply wp_ret|].
  apply wp_bind, wp_query; [done|]. intros n. apply wp_bind, wp_state. destruct (_ <? _); [by apply wp_ret|].
  apply wp_bind, wp_modify; [done|]. apply wp_bind, wp_query; [done|]. intros n'. by apply wp_emit.
Qed.
End WP.

(** the states of a run *)
Lemma wp_run {N A} I E s (m : RM (N := N) A) Q w r tr :
  wp I E s m Q → rw_state w = s → m w = (r, tr) →
  Forall (λ w', I (rw_state w')) tr ∧ match r with Ok a => Q a (rw_state (after w tr)) | Err e => E e end.
Proof. intros H Hw Hr. specialize (H w Hw). by rewrite Hr in H. Qed.

(** ** Sums over a set of detections *)

Definition msum (m : gmap string pending) : Z := zsum (map pd_value (map_to_list m).*2).

Lemma msum_empty : msum ∅ = 0.
Proof. unfold msum. by rewrite map_to_list_empty. Qed.

Lemma msum_insert m k d : m !! k = None → msum (<[k := d]> m) = pd_value d + msum m.
Proof. intros H. unfold msum. rewrite map_to_list_insert by done. cbn [fmap list_fmap map]. apply zsum_cons. Qed.

Lemma msum_delete m k d : m !! k = Some d → msum (delete k m) = msum m - pd_value d.
Proof.
  intros H. rewrite <-(insert_delete_id m k d H) at 2. rewrite msum_insert by apply lookup_delete_eq. lia.
Qed.

Lemma msum_range l m : l ≡ₚ map_to_list m → msum m = zsum (map pd_value l.*2).
Proof. intros ->. done. Qed.

(** ** Values of detections *)

Lemma be_value_nonneg b : ∀ acc, 0 ≤ acc → 0 ≤ be_value acc b.
Proof.
  induction b as [|c b IH]; intros acc Ha; cbn [be_value]; [done|]. apply IH. pose proof (byteZ_range c). lia.
Qed.
Lemma SetBytes_nonneg b : 0 ≤ SetBytes b.
Proof. by apply be_value_nonneg. Qed.

Section Values.
Context {UT : UnicodeTables} {GC : GethCommon} {KC : Keccak}.

Lemma data_word_nonneg data off v : data_word data off = Ok (Some v) → 0 ≤ v.
Proof.
  unfold data_word. destruct (_ || _); [done|]. destruct (_ <? _); [done|]. intros [= <-]. apply SetBytes_nonneg.
Qed.

Lemma read_words_nonneg data n : ∀ off l, read_words data off n = Ok (Some l) → Forall (λ v, 0 ≤ v) l.
Proof.
  induction n as [|n IH]; intros off l; cbn [read_words]; [by intros [= <-]|].
  intros H. apply rbind_ok in H as ([w|] & Hw & H); [|done]. apply rbind_ok in H as ([r|] & Hr & H); [|done].
  cbn [option_map] in H. injection H as <-. constructor; [by eapply data_word_nonneg|eauto].
Qed.

Lemma readArr_nonneg data off l : readArr data off = Ok (Some l) → Forall (λ v, 0 ≤ v) l.
Proof.
  unfold readArr. intros H. apply rbind_ok in H as ([w|] & Hw & H); [|done].
  cbn zeta in H. destruct (_ || _); [done|]. by eapply read_words_nonneg.
Qed.

Lemma batch_sum_nonneg s ids vals : Forall (λ v, 0 ≤ v) vals → 0 ≤ batch_sum s ids vals.
Proof.
  intros H. unfold batch_sum. apply zsum_nonneg. revert ids.
  induction H as [|v vals Hv _ IH]; intros [|i ids]; cbn [zip_with map]; try constructor; [|apply IH].
  by destruct (wanted _ _).
Qed.

Lemma decode_vals_nonneg data ids vals : decode1155Batch data = Ok (Some (ids, vals)) → Forall (λ v, 0 ≤ v) vals.
Proof.
  unfold decode1155Batch. intros H. apply rbind_ok in H as (o1 & _ & H). apply rbind_ok in H as (o2 & _ & H).
  destruct o1, o2; try done. apply rbind_ok in H as (a & _ & H). apply rbind_ok in H as (b & Hb & H).
  destruct a, b; try done. destruct (_ =? _)%nat; [|done]. injection H as <- <-. by eapply readArr_nonneg.
Qed.

(** a classified log is a detection of its own transaction, with a positive value *)
Lemma classifyLog_sound s l d :
  classifyLog s l = Ok (Some d) →
  lg_Removed l = false ∧ 0 < pd_value d ∧ pd_attribution d = AttribLog ∧ pd_block d = lg_BlockNumber l ∧
  pd_txHash d = lg_TxHash l ∧ pd_blockHash d = lg_BlockHash l ∧ pd_logIndex d = Some (int64_of (lg_Index l)).
Proof.
  unfold classifyLog. destruct (lg_Removed l); [done|].
  assert (Hv : ∀ from v t, 0 < v → Some (log_pending l (int64_of (lg_Index l)) from v t) = Some d →
    false = false ∧ 0 < pd_value d ∧ pd_attribution d = AttribLog ∧ pd_block d = lg_BlockNumber l ∧
    pd_txHash d = lg_TxHash l ∧ pd_blockHash d = lg_BlockHash l ∧ pd_logIndex d = Some (int64_of (lg_Index l))).
  { intros from v t Hpos [= <-]. done. }
  assert (Hnz : ∀ v, 0 ≤ v → (v =? 0) = false → 0 < v) by (intros v ? ?%Z.eqb_neq; lia).
  destruct (bool_decide (_ = KindERC1155)); [|destruct (bool_decide _)].
  - unfold classify1155. destruct (lg_Topics l) as [|t0 [|t1 [|t2 [|t3 [|]]]]]; try done.
    destruct (negb _); [done|]. cbn zeta. destruct (t0 =? _).
    + destruct (_ <? _)%nat; [done|]. destruct (negb _); [done|]. destruct (_ =? 0) eqn:Hz; [done|].
      intros [= H]. eapply Hv; [|by rewrite H]. apply Hnz; [apply SetBytes_nonneg|done].
    + destruct (t0 =? _); [|done]. intros H. apply rbind_ok in H as ([[ids vals]|] & Hd & H); [|done].
      cbn zeta in H. destruct (_ =? 0) eqn:Hz; [done|]. injection H as H. eapply Hv; [|by rewrite H].
      apply Hnz; [|done]. by eapply batch_sum_nonneg, decode_vals_nonneg.
  - unfold classify721. destruct (lg_Topics l) as [|t0 [|t1 [|t2 [|t3 [|]]]]]; try done.
    destruct (negb _); [done|]. destruct (negb _); [done|]. cbn zeta. destruct (negb _); [done|].
    intros [= H]. eapply Hv; [|by rewrite H]. done.
  - unfold classify20. destruct (lg_Topics l) as [|t0 [|t1 [|t2 [|]]]]; try done.
    destruct (_ || _); [done|]. destruct (negb _); [done|]. cbn zeta. destruct (_ =? 0) eqn:Hz; [done|].
    intros [= H]. eapply Hv; [|by rewrite H]. apply Hnz; [apply SetBytes_nonneg|done].
Qed.
End Values.

Lemma wrap64_le n : 0 ≤ n → wrap64 n ≤ n.
Proof. intros H. unfold wrap64. apply Z.mod_le; [done|reflexivity]. Qed.

(** ** A completed listen is paid

    The invariant of a listen, kept in every state of every run: the confirmed
    total is the sum of the confirmed detections, no detection is both pending
    and confirmed, and each confirmed one was deep enough and had its evidence
    re-checked.  A result that says "complete" rests on it. *)

Local Open Scope string_scope.
Local Open Scope Z_scope.
Local Open Scope list_scope.
Local Open Scope go_scope.

Section Invariant.
Context {N : Type} {UT : UnicodeTables} {GC : GethCommon} {KC : Keccak} {EV : Environment N} {WA : Watcher N}
        {RO : RangeOrder N}.

(** what is fixed when the listen starts *)
Definition frame (s : receiveState) :=
  (st_addr s, st_accountRef s, st_network s, st_chainID s, st_asset s, st_mode s, st_targetAmount s, st_confTarget s).

(** the evidence the node gave for a detection *)
Definition receipt_says (h : Hash) (test : CReceipt → Prop) : Prop :=
  ∃ n r, (cc_Receipt (N := N) h n).1 = Ok (Some r) ∧ test r.
Definition attested (s : receiveState) (d : pending) : Prop :=
  (pd_attribution d = AttribTx ∧
   receipt_says (pd_txHash d) (λ r, cr_Status r = 1 ∧ cr_BlockHash r = pd_blockHash d)) ∨
  (pd_attribution d = AttribLog ∧ receipt_says (pd_txHash d) (λ r, cr_Status r = 1) ∧
   ∃ n logs l, (cc_FilterLogs (N := N) (transferQuery s (pd_block d) (pd_block d)) n).1 = Ok logs ∧ l ∈ logs ∧
     lg_TxHash l = pd_txHash d ∧ lg_BlockHash l = pd_blockHash d ∧ Some (int64_of (lg_Index l)) = pd_logIndex d ∧
     lg_Removed l = false) ∨
  pd_attribution d = AttribBalanceDelta.

(** the balance of the account at some block, as the node answered it *)
Definition answered_balance (s : receiveState) (bal : Z) : Prop :=
  ∃ blk n, (cc_Balance (N := N) (st_addr s) blk n).1 = Ok bal.

(** the fees of the account's own transactions of a block, by their receipts *)
Definition answered_fees (blk : option Block) (own : list Hash) (fees : Z) : Prop :=
  ∃ rs, Forall2 (λ h r, receipt_says h (λ r', r' = r)) own rs ∧ fees = zsum (zip_with (fee_of blk) own rs).

(** the sums over blocks the node answered *)
Inductive tallied (s : receiveState) : list Z → Sums → Sums → Prop :=
| tallied_nil acc : tallied s [] acc acc
| tallied_cons n ns acc acc' k blk fees :
    (cc_BlockByNumber (N := N) n k).1 = Ok blk →
    let scan := scan_block (N := N) (st_chainID s) (st_addr s) blk in
    answered_fees blk (es_ownTxs scan) fees →
    tallied s ns (mkSums (sm_in acc + es_directIn scan) (sm_out acc + es_ownOut scan) (sm_fees acc + fees)) acc' →
    tallied s (n :: ns) acc acc'.

(** what the node showed of a detection: the transaction of a block, the log of
    a reply, or two balances and the blocks between them *)
Definition shown (s : receiveState) (d : pending) : Prop :=
  (∃ n k b tx, (cc_BlockByNumber (N := N) n k).1 = Ok (Some b) ∧ tx ∈ bk_Transactions b ∧ bt_To tx = Some (st_addr s) ∧
     d = tx_pending (N := N) (st_chainID s) n (Some b) tx) ∨
  (∃ q k logs l, (cc_FilterLogs (N := N) q k).1 = Ok logs ∧ l ∈ logs ∧ classifyLog s l = Ok (Some d)) ∨
  (∃ from to base bal acc k, answered_balance s base ∧ (cc_Balance (N := N) (st_addr s) (Some to) k).1 = Ok bal ∧
     tallied s (seqZ from (to - from + 1)) (mkSums 0 0 0) acc ∧
     d = delta_pending (bal - base - sm_in acc + sm_out acc + sm_fees acc) to).

(** the head was once as far above the detection as asked *)
Definition deep (s : receiveState) (d : pending) : Prop :=
  ∃ n head, (cc_BlockNumber (N := N) n).1 = Ok head ∧ pd_block d ≤ head ∧ st_confTarget s ≤ head - pd_block d + 1.

Definition kinds (d : pending) : Prop :=
  pd_attribution d = AttribTx ∨ pd_attribution d = AttribLog ∨ pd_attribution d = AttribBalanceDelta.

(** where a listen from block [f] finds detections: from there on, or where the
    node answered a log outside of the range it was asked for *)
Definition stray (b : Z) : Prop := ∃ n q logs l, (cc_FilterLogs (N := N) q n).1 = Ok logs ∧ l ∈ logs ∧
  lg_BlockNumber l = b ∧ ¬ (fq_FromBlock q ≤ b ≤ fq_ToBlock q).
(** a head within a chunk of 2^64 *)
Definition far (cfg : ReceiveDefaults) : Prop := ∃ n h, (cc_BlockNumber (N := N) n).1 = Ok h ∧ 2 ^ 64 < h + log_span cfg.
Definition placed (cfg : ReceiveDefaults) (f : Z) (d : pending) : Prop :=
  f ≤ pd_block d ∨ stray (pd_block d) ∨ far cfg.

Record counted (cfg : ReceiveDefaults) (s0 : receiveState) (f : Z) (s : receiveState) : Prop := {
  co_frame : frame s = frame s0;
  co_scanned : f ≤ st_lastScanned s + 1;
  co_sum : st_cumConfirmed s = msum (st_confirmed s);
  co_disjoint : ∀ k, is_Some (st_pending s !! k) → st_confirmed s !! k = None;
  co_baseline : isETH (st_asset s0) = true → ∃ b, st_ethBaseline s = Some b ∧ answered_balance s0 b;
  co_pending : ∀ k d, st_pending s !! k = Some d → k = key d ∧ 0 < pd_value d ∧ kinds d ∧ (placed cfg f d ∧ shown s0 d);
  co_confirmed : ∀ k d, st_confirmed s !! k = Some d →
    k = key d ∧ 0 < pd_value d ∧ kinds d ∧ (placed cfg f d ∧ shown s0 d) ∧ attested s0 d ∧ deep s0 d;
}.

Section Run.
Variables (s0 : receiveState) (f : Z) (cfg : ReceiveDefaults).
Local Notation I := (counted cfg s0 f).
Local Notation anyerr := (λ _ : error, True).
Local Notation wp := (wp (N := N) I anyerr).

Lemma counted_activity s t : I s → I (with_activity s t).
Proof. by intros []. Qed.
Lemma counted_scanned s n : I s → f ≤ n + 1 → I (with_scanned s n).
Proof. intros [] Hn. split; cbn; [done|lia|done..]. Qed.
Lemma counted_baseline s b : I s → answered_balance s0 b → I (with_baseline s b).
Proof. intros [] Hb. split; cbn; [done..| |done|done]. by exists b. Qed.
#[local] Hint Resolve counted_activity counted_baseline : core.

(** the fixed part of a state *)
Lemma counted_fixed s : I s → st_addr s = st_addr s0 ∧ st_chainID s = st_chainID s0 ∧ st_asset s = st_asset s0.
Proof. intros [H]. unfold frame in H. by injection H. Qed.
Lemma counted_classify s l : I s → classifyLog s l = classifyLog s0 l.
Proof.
  intros (Ea & _ & Es)%counted_fixed.
  unfold classifyLog, classify1155, classify721, classify20, batch_sum, wanted. by rewrite Ea, Es.
Qed.

Lemma counted_query s from to : I s → transferQuery s from to = transferQuery s0 from to.
Proof. intros [H]. unfold frame in H. injection H as H1 _ _ _ H2 _ _ _. unfold transferQuery. by rewrite H1, H2. Qed.

Lemma wp_line s e (Q : () → receiveState → Prop) : I s → (∀ t, Q tt (with_activity s t)) → wp s (emit_line e) Q.
Proof. intros H HQ. apply wp_emit_line; auto. Qed.

(** *** Detection *)

Lemma wp_recordDetection s d :
  I s → 0 < pd_value d → kinds d → placed cfg f d → shown s0 d → wp s (recordDetection d) (λ _, I).
Proof.
  intros HI Hv Hk Hpl Hsh. unfold recordDetection. apply wp_bind, wp_state.
  case_bool_decide as Hp; [by apply wp_ret|]. case_bool_decide as Hc; [by apply wp_ret|].
  assert (HI' : I (with_sets s (st_cumDetected s + pd_value d) (st_cumConfirmed s)
                     (<[key d := d]> (st_pending s)) (st_confirmed s))).
  { destruct HI as [Hf Hn Hs Hd Hba Hpe Hco]. split; cbn; [done|done|done| |done| |done].
    - intros k [x Hx]. destruct (decide (k = key d)) as [->|Hne]; [by apply eq_None_not_Some|].
      rewrite lookup_insert_ne in Hx by done. eauto.
    - intros k x. destruct (decide (k = key d)) as [->|Hne].
      + rewrite lookup_insert_eq. by intros [= <-].
      + rewrite lookup_insert_ne by done. eauto. }
  apply wp_bind, wp_modify; [done|]. apply wp_line; auto.
Qed.

Lemma wp_scan_log s l q k logs :
  I s → (cc_FilterLogs (N := N) q k).1 = Ok logs → l ∈ logs →
  f ≤ lg_BlockNumber l ∨ stray (lg_BlockNumber l) ∨ far cfg → wp s (scan_log l) (λ _, I).
Proof.
  intros HI Hq Hin Hpl. unfold scan_log. apply wp_bind, wp_state, wp_bind, wp_lift.
  destruct (classifyLog s l) as [[d|]|e] eqn:E; [|by apply wp_ret|done].
  pose proof E as (_ & Hv & Ha & Hb & _)%classifyLog_sound.
  apply wp_recordDetection; [done|done|by right; left|unfold placed; by rewrite Hb|].
  right. left. exists q, k, logs, l. by rewrite <-(counted_classify s l HI).
Qed.

Lemma wp_scan_chunks fuel span to : 0 < span → ∀ s lo, I s → (f ≤ lo ∧ to + span ≤ 2 ^ 64) ∨ far cfg → wp s (scan_chunks fuel span lo to) (λ _, I).
Proof.
  intros Hspan. induction fuel as [|fuel IH]; intros s lo HI Hlo; cbn [scan_chunks]; [by apply wp_fail|].
  destruct (Z.leb_spec lo to) as [Hle|]; [|by apply wp_ret]. cbn [negb]. cbn zeta. set (hi := if to <? _ then _ else _).
  apply wp_bind, wp_state, wp_bind, wp_query_rpc; [done|].
  intros n. destruct (cc_FilterLogs _ n).1 as [logs|e] eqn:E; [|done]. cbn [rpc]. apply wp_bind.
  eapply wp_each with (J := λ l s, I s ∧ ∀ x, x ∈ l → x ∈ logs); [done|..].
  - intros x l s' [HI' Hl]. eapply wp_conseq; [eapply wp_scan_log; [done|exact E|apply Hl; by left|]|].
    + destruct Hlo as [Hlo|]; [|by right; right]. destruct (decide (lo ≤ lg_BlockNumber x ≤ hi)); [left; lia|].
      right. left. exists n, (transferQuery s lo hi), logs, x.
      split_and!; [done|apply Hl; by left|done|done].
    + intros [] s1 H1. split; [done|]. intros y Hy. apply Hl. by right.
  - intros s' [HI' _]. destruct (Z.eqb_spec hi to) as [|Hne]; [by apply wp_ret|]. apply IH; [done|].
    destruct Hlo as [[Hlo Hto]|]; [left|by right]. split; [|done]. unfold wrap64 in *.
    pose proof (Z.mod_pos_bound (lo + span) (2 ^ 64) ltac:(lia)).
    destruct (Z.lt_ge_cases lo 0); [lia|]. destruct (Z.eq_dec lo to) as [->|].
    + exfalso. apply Hne. unfold hi. destruct (Z.ltb_spec to ((to + span - 1) mod 2 ^ 64)) as [|Hb]; [done|].
      rewrite Z.mod_small in * by lia. lia.
    + rewrite Z.mod_small by lia. lia.
Qed.

Lemma wp_ownFees blk l : ∀ s total,
  I s → wp s (ownFeesActual blk l total) (λ t s', I s' ∧ ∃ fees, t = total + fees ∧ answered_fees blk l fees).
Proof.
  induction l as [|h l IH]; intros s total HI; cbn [ownFeesActual].
  { apply wp_ret. split; [done|]. exists 0. split; [lia|]. exists []. by split; [constructor|]. }
  apply wp_bind, wp_query_rpc; [done|]. intros n. destruct (cc_Receipt h n).1 as [[r|]|e] eqn:E; cbn [rpc]; [|by apply wp_fail|done].
  eapply wp_conseq; [by apply IH|]. intros t s' (HI' & fees & -> & rs & Hrs & ->). split; [done|].
  exists (fee_of blk h r + zsum (zip_with (fee_of blk) l rs)). split; [lia|]. exists (r :: rs). split; [|done].
  constructor; [by exists n, r|done].
Qed.

(** the inbound transactions of a block the node answered *)
Lemma inbound_shown n k blk tx :
  (cc_BlockByNumber (N := N) n k).1 = Ok blk →
  tx ∈ es_inbound (scan_block (N := N) (st_chainID s0) (st_addr s0) blk) →
  0 < bt_Value tx ∧ shown s0 (tx_pending (N := N) (st_chainID s0) n blk tx).
Proof.
  intros Hb [Hin Htx]%list_elem_of_In%filter_In. unfold is_inbound in Htx. destruct (bt_To tx) as [to|] eqn:Et; [|done].
  bool_prop. split; [lia|]. destruct blk as [b|]; [|done]. left. exists n, k, b, tx.
  split_and!; [done|by apply list_elem_of_In|congruence|done].
Qed.

Lemma wp_scan_blocks l : Forall (λ n, f ≤ n) l → ∀ s acc, I s → wp s (scan_blocks l acc) (λ acc' s', I s' ∧ tallied s0 l acc acc').
Proof.
  induction 1 as [|n l Hn _ IH]; intros s acc HI; cbn [scan_blocks]; [apply wp_ret; split; [done|constructor]|].
  apply wp_bind, wp_state, wp_bind. unfold scanETHBlock. apply wp_bind, wp_query_rpc; [done|].
  intros x. destruct (cc_BlockByNumber n x).1 as [blk|e] eqn:E; [|done]. cbn [rpc]. apply wp_ret, wp_bind.
  destruct (counted_fixed s HI) as (Ea & Ec & _). rewrite Ea, Ec.
  set (scan := scan_block (st_chainID s0) (st_addr s0) blk).
  eapply wp_each with (J := λ l s, I s ∧ ∀ tx, tx ∈ l → tx ∈ es_inbound scan); [done|..].
  - intros tx l' s' [HI' Hl]. destruct (inbound_shown n x blk tx E (Hl tx ltac:(by left))) as [Hv Hsh].
    eapply wp_conseq; [apply wp_recordDetection|].
    + done.
    + done.
    + by left.
    + by left.
    + done.
    + intros [] s1 H1. split; [done|]. intros y Hy. apply Hl. by right.
  - intros s' [HI' _]. apply wp_bind. eapply wp_conseq with (Q := λ fees s1, I s1 ∧ answered_fees blk (es_ownTxs scan) fees).
    + case_bool_decide as Ho; [apply wp_ret; split; [done|]; rewrite Ho; exists []; by split; [constructor|]|].
      eapply wp_conseq; [by apply wp_ownFees|]. intros t s1 (H1 & fees & -> & Hf). by rewrite Z.add_0_l.
    + intros fees s1 [H1 Hf]. eapply wp_conseq; [by apply IH|]. intros acc' s2 [H2 Ht]. split; [done|]. by eapply tallied_cons.
Qed.

Lemma wp_scanRange s from to : I s → f ≤ from ≤ to → to + log_span cfg ≤ 2 ^ 64 ∨ far cfg → wp s (scanRange cfg from to) (λ _, I).
Proof.
  intros HI Hfrom Hto. unfold scanRange. apply wp_bind, wp_state.
  destruct (counted_fixed s HI) as (_ & _ & ->). destruct (isETH (st_asset s0)) eqn:Heth.
  2:{ apply wp_scan_chunks; [|done|destruct Hto; [left; lia|by right]].
      unfold log_span. destruct (Z.leb_spec (rd_MaxLogRange cfg) 0); lia. }
  unfold scanRangeETH. apply wp_bind. eapply wp_conseq.
  { apply wp_scan_blocks; [|done]. apply Forall_forall. intros x Hx%elem_of_seqZ. lia. } intros acc s1 [H1 Htal].
  apply wp_bind, wp_state, wp_bind, wp_query_rpc; [done|]. intros n.
  destruct (cc_Balance (st_addr s1) (Some to) n).1 as [bal|e] eqn:Eb; [|done]. cbn [rpc].
  destruct (counted_fixed s1 H1) as (Ea & _ & _). rewrite Ea in Eb. assert (Hans : answered_balance s0 bal) by by exists (Some to), n.
  destruct (co_baseline _ _ _ _ H1 Heth) as (base & Hbase & Hab). rewrite Hbase. unfold balanceDelta. change (default 0 (Some base)) with base. cbn zeta.
  set (u := bal - base - sm_in acc + sm_out acc + sm_fees acc).
  assert (Hu : wp (with_baseline s1 bal) (if 0 <? u then recordDetection (delta_pending u to) else mret tt) (λ _, I)).
  { destruct (Z.ltb_spec 0 u); [|by apply wp_ret; auto].
    apply wp_recordDetection; [by auto|done|by right; right|left; cbn; lia|].
    right. right. by exists from, to, base, bal, acc, n. }
  destruct (u <? 0); apply wp_bind, wp_modify; auto.
  unfold emitBalanceDeltaWarn. apply wp_bind, wp_query; [by auto|]. intros n'. apply wp_emit; auto.
Qed.

(** *** Confirmation *)

Lemma wp_recheck s h test (Q : bool → receiveState → Prop) :
  I s → Q false s → (∀ r, receipt_says h (λ r', r' = r) → Q (test r) s) → wp s (recheck_receipt h test) Q.
Proof.
  intros HI Hf Ht. unfold recheck_receipt. apply wp_bind, wp_query; [done|]. intros n.
  destruct (cc_Receipt h n).1 as [[r|]|e] eqn:E; [|by apply wp_fail|destruct (isNotFound e); [by apply wp_ret|by apply wp_fail]].
  apply wp_ret, Ht. by exists n, r.
Qed.

(** a re-check leaves the state alone, and succeeds only on evidence *)
Lemma wp_reverify s d :
  I s → kinds d → wp s (reverify d) (λ ok s', s' = s ∧ (ok = true → attested s0 d)).
Proof.
  intros HI Hk. unfold reverify. case_bool_decide as Hb; [by apply wp_ret; split; [done|right; right]|].
  case_bool_decide as Ht.
  - apply wp_recheck; [done|done|]. intros r (n & r' & Hr & <-). split; [done|]. intros Hok. bool_prop.
    left. split; [done|]. exists n, r'. split_and!; [done|lia|lia].
  - case_bool_decide as Hl; [|by destruct Hk as [?|[?|?]]].
    apply wp_bind, wp_state, wp_bind, wp_query_rpc; [done|]. intros n.
    destruct (cc_FilterLogs _ n).1 as [logs|e] eqn:E; [|done]. cbn [rpc].
    destruct (List.find (same_log d) logs) as [l|] eqn:Ef; [|by apply wp_ret].
    apply find_some in Ef as [Hin Hs]. destruct (_ || _) eqn:Hbad; [by apply wp_ret|].
    apply wp_recheck; [done|done|]. intros r (n' & r' & Hr & <-). split; [done|]. intros Hok. right. left.
    split; [done|]. split; [exists n', r'; split; [done|lia]|]. rewrite <-(counted_query s) by done.
    unfold same_log in Hs. apply andb_prop in Hs as [Hs1 Hs2]. apply orb_false_iff in Hbad as [Hb1 Hb2].
    apply Z.eqb_eq in Hs1. apply negb_false_iff, Z.eqb_eq in Hb2.
    exists n, logs, l. split_and!; [done|by apply list_elem_of_In|done|done| |done].
    destruct (pd_logIndex d); [|done]. apply Z.eqb_eq in Hs2. by rewrite Hs2.
Qed.

(** the entries an iteration has still to visit are in the map *)
Definition left_in (m : receiveState → gmap string pending) (l : list (string * pending)) (s : receiveState) : Prop :=
  I s ∧ NoDup l.*1 ∧ ∀ k d, (k, d) ∈ l → m s !! k = Some d.

Lemma left_in_tail m m' k d l s s' :
  left_in m ((k, d) :: l) s → I s' → (∀ k', k' ≠ k → m' s' !! k' = m s !! k') → left_in m' l s'.
Proof.
  intros (_ & Hnd & Hl) HI Hm. apply NoDup_cons in Hnd as [Hk Hnd]. split_and!; [done|done|].
  intros k' d' Hin. rewrite Hm; [apply Hl; by right|]. intros ->. apply Hk, list_elem_of_fmap. by exists (k, d').
Qed.

Lemma left_in_range (m : receiveState → gmap string pending) l s :
  I s → l ≡ₚ map_to_list (m s) → left_in m l s.
Proof.
  intros HI Hl. split_and!; [done|rewrite Hl; apply NoDup_fst_map_to_list|].
  intros k d. rewrite Hl. apply elem_of_map_to_list.
Qed.

Lemma wp_recheck_confirmed l s e :
  left_in st_confirmed (e :: l) s → wp s (recheck_confirmed e) (λ _ s', left_in st_confirmed l s').
Proof.
  intros Hleft. destruct e as [k d]. pose proof Hleft as (HI & _ & Hin). specialize (Hin k d ltac:(by left)).
  destruct (co_confirmed _ _ _ _ HI k d Hin) as (Hk & Hv & Hd & _). unfold recheck_confirmed. apply wp_bind.
  eapply wp_conseq; [by apply wp_reverify|]. intros ok s' [-> _]. destruct ok.
  - apply wp_ret. eapply left_in_tail; done.
  - assert (HI' : I (with_sets s (st_cumDetected s) (st_cumConfirmed s - pd_value d) (st_pending s)
                       (delete k (st_confirmed s)))).
    { destruct HI as [Hf Hn Hs Hdj Hba Hp Hc]. split; cbn; [done|done| | |done|done|].
      - by rewrite (msum_delete _ _ _ Hin), Hs.
      - intros k' Hk'. apply lookup_delete_None. right. by apply Hdj.
      - intros k' x [_ Hx]%lookup_delete_Some. by apply Hc. }
    apply wp_bind, wp_modify; [done|]. apply wp_line; [done|]. intros t.
    eapply left_in_tail; [done|by apply counted_activity|]. intros k' Hne. cbn. by rewrite lookup_delete_ne.
Qed.

(** dropping a pending detection, and confirming one *)
Lemma counted_drop s k :
  I s → I (with_sets s (st_cumDetected s) (st_cumConfirmed s) (delete k (st_pending s)) (st_confirmed s)).
Proof.
  intros [Hf Hn Hs Hdj Hba Hp Hc]. split; cbn; [done|done|done| |done| |done].
  - intros k' [x [_ Hx]%lookup_delete_Some]. apply Hdj. by exists x.
  - intros k' x [_ Hx]%lookup_delete_Some. by apply Hp.
Qed.

Lemma counted_confirm s k d :
  I s → st_pending s !! k = Some d → attested s0 d → deep s0 d →
  I (with_sets s (st_cumDetected s) (st_cumConfirmed s + pd_value d) (delete k (st_pending s))
       (<[k := d]> (st_confirmed s))).
Proof.
  intros [Hf Hn Hs Hdj Hba Hp Hc] Hin Hat Hdeep. destruct (Hp k d Hin) as (Hk & Hv & Hd & Hpl). split; cbn; [done|done| | |done| |].
  - rewrite msum_insert by eauto. lia.
  - intros k' [x [Hne Hx]%lookup_delete_Some]. rewrite lookup_insert_ne by done. apply Hdj. by exists x.
  - intros k' x [_ Hx]%lookup_delete_Some. by apply Hp.
  - intros k' x. destruct (decide (k' = k)) as [->|Hne]; [rewrite lookup_insert_eq; by intros [= <-]|].
    rewrite lookup_insert_ne by done. apply Hc.
Qed.

Lemma wp_advance_pending head n l s e :
  (cc_BlockNumber (N := N) n).1 = Ok head →
  left_in st_pending (e :: l) s → wp s (advance_pending head e) (λ _ s', left_in st_pending l s').
Proof.
  intros Hhead Hleft. destruct e as [k d]. pose proof Hleft as (HI & _ & Hin). specialize (Hin k d ltac:(by left)).
  destruct (co_pending _ _ _ _ HI k d Hin) as (Hk & Hv & Hd & _). unfold advance_pending. apply wp_bind, wp_state.
  destruct (Z.ltb_spec head (pd_block d)) as [|Hle]; [by apply wp_ret; eapply left_in_tail|]. cbn zeta.
  destruct (Z.ltb_spec (wrap64 (head - pd_block d + 1)) (st_confTarget s)) as [|Hdeep].
  - apply wp_line; [done|]. intros t. eapply left_in_tail; [done|by apply counted_activity|done].
  - apply wp_bind. eapply wp_conseq; [by apply wp_reverify|]. intros ok s' [-> Hat].
    pose proof HI as [Hf Hn Hs Hdj _ Hp Hc].
    assert (Hdeep' : deep s0 d).
    { exists n, head. split_and!; [done|done|]. assert (st_confTarget s = st_confTarget s0) as <-
        by (unfold frame in Hf; by injection Hf). pose proof (wrap64_le (head - pd_block d + 1) ltac:(lia)). lia. }
    destruct ok; (apply wp_bind, wp_modify; [|apply wp_line; [|intros t; eapply left_in_tail; [done|apply counted_activity|]]]);
      try (intros k' Hne; cbn; by rewrite lookup_delete_ne); try by apply counted_drop.
    all: apply counted_confirm; auto.
Qed.

Lemma wp_advance head n s :
  (cc_BlockNumber (N := N) n).1 = Ok head → I s → wp s (advanceConfirmations head) (λ _, I).
Proof.
  intros Hh HI. unfold advanceConfirmations. apply wp_bind, wp_state, wp_bind, wp_entries. intros l Hl.
  apply wp_bind. eapply wp_each with (J := left_in st_confirmed); [by apply left_in_range|..].
  { intros [k d] l' s'. apply wp_recheck_confirmed. }
  intros s1 (H1 & _). apply wp_bind, wp_state, wp_bind, wp_entries. intros l1 Hl1.
  eapply wp_each with (J := left_in st_pending); [by apply left_in_range|..].
  { intros e l' s'. by eapply wp_advance_pending. }
  by intros s2 (H2 & _).
Qed.

(** *** Results *)

(** the completion table *)
Definition paid (mode : string) (target : option Z) (ds : list pending) : Prop :=
  let total := zsum (map pd_value ds) in
  if bool_decide (mode = ModeExact)
  then ∃ d, d ∈ ds ∧ IsAttributable (pd_attribution d) = true ∧ target = Some (pd_value d)
  else match target with
       | Some t =>
           if bool_decide (mode = ModeAny) || (bool_decide (mode = ModeNFT) && (t <=? 0)) then 0 < total else t ≤ total
       | None => 0 < total
       end.

(** what a result reports: distinct detections, each counted once, with their
    evidence; paid when it says so *)
Definition reports (r : ReceiveResult) : Prop :=
  ∃ ds, rr_Transfers r = map detected ds ∧ NoDup (map key ds) ∧
    rr_CumulativeConfirmed r = z_string (zsum (map pd_value ds)) ∧
    (∀ d, d ∈ ds → 0 < pd_value d ∧ (placed cfg f d ∧ shown s0 d) ∧ attested s0 d ∧ deep s0 d) ∧
    ((rr_Status r = "complete" ∧ rr_Exit r = 0 ∧ paid (st_mode s0) (st_targetAmount s0) ds) ∨
     (rr_Status r = "timeout" ∧ rr_Exit r = 8)).

Lemma zsum_perm_values (l l' : list pending) : l ≡ₚ l' → zsum (map pd_value l) = zsum (map pd_value l').
Proof. by intros ->. Qed.

Lemma reports_result s l status resume exit :
  I s → l ≡ₚ map_to_list (st_confirmed s) →
  (status = "complete" ∧ exit = 0 ∧ completed s = true) ∨ (status = "timeout" ∧ exit = 8) →
  reports (result s (confirmedOrdered l) status resume exit).
Proof.
  intros HI Hl Hst. pose proof HI as [Hf Hn Hs Hdj _ Hp Hc].
  assert (Hperm : confirmedOrdered l ≡ₚ (map_to_list (st_confirmed s)).*2).
  { unfold confirmedOrdered, sortPending. rewrite stable_sort_perm. by rewrite Hl. }
  assert (Hin : ∀ d, d ∈ confirmedOrdered l ↔ ∃ k, st_confirmed s !! k = Some d).
  { intros d. rewrite Hperm. rewrite list_elem_of_fmap. split.
    - intros ([k x] & -> & Hx). exists k. by apply elem_of_map_to_list in Hx.
    - intros [k Hk]. exists (k, d). by rewrite elem_of_map_to_list. }
  assert (Hsum : zsum (map pd_value (confirmedOrdered l)) = st_cumConfirmed s).
  { rewrite Hs. by apply zsum_perm_values. }
  exists (confirmedOrdered l). split_and!; [done| |by cbn; rewrite Hsum| |].
  - rewrite Hperm. assert (map key (map_to_list (st_confirmed s)).*2 = (map_to_list (st_confirmed s)).*1) as ->;
      [|apply NoDup_fst_map_to_list].
    assert (Hk : ∀ e, e ∈ map_to_list (st_confirmed s) → e.1 = key e.2).
    { intros [k d] He%elem_of_map_to_list. by apply Hc in He as [-> _]. }
    clear -Hk. induction (map_to_list (st_confirmed s)) as [|e l' IH]; [done|]. cbn [fmap list_fmap map].
    rewrite (Hk e) by left. f_equal. apply IH. intros e' He'. apply Hk. by right.
  - intros d [k Hk]%Hin. apply Hc in Hk as (_ & ? & _ & ? & ? & ?). done.
  - destruct Hst as [(-> & -> & Hcomp)|[-> ->]]; [left|by right]. split_and!; [done|done|].
    unfold frame in Hf. injection Hf as _ _ _ _ _ Hm Ht _. rewrite <-Hm, <-Ht. unfold completed, paid in *. cbn zeta.
    rewrite Hsum. destruct (decide (st_mode s = ModeExact)) as [He|He].
    + rewrite (bool_decide_true (st_mode s = ModeExact)) in * by done.
      rewrite bool_decide_false in Hcomp by (rewrite He; discriminate).
      apply existsb_exists in Hcomp as ([k d] & Hd & Hx). apply andb_prop in Hx as [Ha Hv].
      apply list_elem_of_In, elem_of_map_to_list in Hd. exists d. split_and!; [apply Hin; by exists k|done|].
      destruct (st_targetAmount s); [|done]. f_equal. lia.
    + rewrite (bool_decide_false (st_mode s = ModeExact)) in * by done.
      destruct (bool_decide (st_mode s = ModeAny)); cbn [orb]; [by destruct (st_targetAmount s); lia|].
      destruct (bool_decide (st_mode s = ModeNFT)); cbn [andb];
        destruct (st_targetAmount s) as [t|]; repeat case_match; lia.
Qed.

Lemma wp_complete s (Q : ReceiveResult → receiveState → Prop) :
  I s → completed s = true → (∀ r, reports r → Q r s) → wp s completeResult Q.
Proof.
  intros HI Hc HQ. unfold completeResult. apply wp_bind, wp_state, wp_bind, wp_entries. intros l Hl.
  apply wp_bind, wp_entries. intros l' _. apply wp_bind, wp_query; [done|]. intros n.
  apply wp_bind, wp_emit; [done|]. apply wp_ret, HQ. apply reports_result; auto.
Qed.

Lemma wp_timeout s (Q : ReceiveResult → receiveState → Prop) :
  I s → (∀ r, reports r → Q r s) → wp s timeoutResult Q.
Proof.
  intros HI HQ. unfold timeoutResult. apply wp_bind, wp_state, wp_bind, wp_entries. intros l Hl.
  apply wp_bind, wp_query; [done|]. intros n. apply wp_bind, wp_emit; [done|]. apply wp_ret, HQ.
  apply reports_result; auto.
Qed.

Definition done_well (o : option ReceiveResult) (s : receiveState) : Prop :=
  I s ∧ match o with Some r => reports r | None => True end.

Lemma wp_step s : I s → wp s (receiveStep cfg) done_well.
Proof.
  intros HI. unfold receiveStep. apply wp_bind, wp_query_rpc; [done|]. intros n.
  destruct (cc_BlockNumber n).1 as [head|e] eqn:Eh; [|done]. cbn [rpc]. apply wp_bind, wp_state, wp_bind.
  apply wp_conseq with (Q := λ _, I).
  { destruct (Z.ltb_spec (st_lastScanned s) head); [|by apply wp_ret]. pose proof (co_scanned _ _ _ _ HI).
    apply wp_bind. eapply wp_conseq; [apply wp_scanRange; [done|lia|]|].
    - destruct (Z.le_gt_cases (head + log_span cfg) (2 ^ 64)); [by left|right; by exists n, head].
    - intros [] s1 H1. apply wp_modify; (apply counted_scanned; [done|lia]). }
  intros [] s1 H1. apply wp_bind. eapply wp_conseq; [by eapply wp_advance|]. intros [] s2 H2.
  apply wp_bind, wp_state. destruct (completed s2) eqn:Ec.
  - apply wp_bind, wp_complete; [done|done|]. intros r Hr. by apply wp_ret.
  - apply wp_bind, wp_heartbeat; [done|auto|by apply wp_ret|intros t; apply wp_ret; split; auto].
Qed.

Lemma wp_turn deadline poll s : I s → wp s (receive_turn cfg deadline poll) done_well.
Proof.
  intros HI. assert (Ht : ∀ s, I s → wp s (r <-- timeoutResult ;; mret (Some r)) done_well).
  { intros s1 H1. apply wp_bind, wp_timeout; [done|]. intros r Hr. by apply wp_ret. }
  assert (Hrest : ∀ s, I s → wp s
    (late <-- match deadline with None => mret false | Some d => now <-- query clock ;; mret (negb (now <? d)) end ;;
     if late then r <-- timeoutResult ;; mret (Some r)
     else s <-- query (sleep poll) ;;
          match s with Some _ => r <-- timeoutResult ;; mret (Some r) | None => mret None end)
    done_well).
  { clear s HI. intros s HI. apply wp_bind. apply wp_conseq with (Q := λ _ s', s' = s).
    { destruct deadline; [|by apply wp_ret]. apply wp_bind, wp_query; [done|]. intros n. by apply wp_ret. }
    intros late s' ->. destruct late; [by apply Ht|]. apply wp_bind, wp_query; [done|]. intros n.
    destruct (sleep poll n).1; [by apply Ht|by apply wp_ret]. }
  assert (Hbeat : ∀ s, I s → wp s (maybeHeartbeat cfg) (λ _, I)) by (intros; apply wp_heartbeat; auto).
  apply wp_bind, wp_mres; [done|..].
  - eapply wp_conseq; [by apply wp_step|]. intros [r|] s' [H1 Hr]; [by apply wp_ret|].
    apply wp_bind, wp_ret. by apply Hrest.
  - intros e s' _ H1. destruct (isRetryableRPC e); [|by apply wp_bind, wp_fail].
    apply wp_bind. eapply wp_conseq; [by apply Hbeat|]. intros [] s2 H2. by apply Hrest.
Qed.

Lemma wp_loop rounds deadline poll : ∀ s, I s → wp s (receiveLoop cfg rounds deadline poll) done_well.
Proof.
  induction rounds as [|rounds IH]; intros s HI; cbn [receiveLoop]; [by apply wp_ret|].
  apply wp_bind. eapply wp_conseq; [by apply wp_turn|]. intros [r|] s' [H1 Hr]; [by apply wp_ret|by apply IH].
Qed.
End Run.

(** the state once the baseline is taken *)
Definition based (s0 s : receiveState) : Prop :=
  if isETH (st_asset s0) then ∃ bal, s = with_baseline s0 bal ∧ answered_balance s0 bal else s = s0.
Lemma counted_init cfg l mode target conf from s :
  let s0 := init_state l mode target conf from in based s0 s → counted cfg s0 from s.
Proof.
  unfold based. cbn. destruct (isETH (li_asset l)) eqn:E; [intros (bal & -> & Hb)|intros ->];
    (split; cbn; [done|zcases; lia|by rewrite msum_empty|done| |done|done]); [by exists bal|by rewrite E].
Qed.
End Invariant.

Section Properties.
Context {N : Type} {UT : UnicodeTables} {GC : GethCommon} {KC : Keccak} {EV : Environment N} {WA : Watcher N}
        {RO : RangeOrder N}.

(** the request of a run, and the report of its result *)
Lemma receive_reports cfg txcfg rounds req (l : Listen) (w : RWorld N) r tr :
  Receive cfg txcfg rounds req l w = (Ok (Some r), tr) →
  ∃ mode target from,
    ResolveReceiveMode req = Ok mode ∧ receiveTargetAmount (rq_Amount req) (li_asset l) = Ok target ∧
    (∀ b, rq_FromBlock req = Some b → from = b) ∧
    reports (N := N) (init_state l mode target (confirmTarget txcfg (li_network l) (rq_Confirmations req)) from) from cfg r.
Proof.
  intros H. unfold Receive in H.
  apply mbind_ok in H as (mode & t1 & t2 & Hmode & H & ->). apply mlift_ok in Hmode as [Hmode ->].
  apply mbind_ok in H as (target & t3 & t4 & Htarget & H & ->). apply mlift_ok in Htarget as [Htarget ->].
  apply mbind_ok in H as (head & t5 & t6 & _ & H & ->). cbn zeta in H.
  apply mbind_ok in H as ([] & t7 & t8 & Hm & H & ->).
  set (s0 := init_state l mode target (confirmTarget txcfg (li_network l) (rq_Confirmations req)) (from_block cfg req head)) in *.
  injection Hm as <-. exists mode, target, (from_block cfg req head). split_and!; [done|done|by unfold from_block; intros b ->|]. fold s0.
  set (f := from_block cfg req head) in *.
  apply mbind_ok in H as ([] & t9 & t10 & Hb & H & ->).
  eapply (wp_run (λ _, True) (λ _, True) s0 _ (λ _, based (N := N) s0)) in Hb as [_ Hb]; [| |done].
  2: { unfold based. cbn [st_asset s0 init_state]. destruct (isETH _); [|by apply wp_ret]. apply wp_bind, wp_query_rpc; [done|]. intros n.
       destruct (cc_Balance _ _ n).1 as [bal|e] eqn:E; [|done]. apply wp_modify; [done|]. exists bal. split; [done|]. by exists None, n. }
  apply (counted_init cfg) in Hb as H1. fold s0 in H1.
  eapply (wp_run (counted cfg s0 f) (λ _, True) _ _ (done_well s0 f cfg)) in H as [_ [_ Hr]]; [exact Hr| |done].
  set (s1 := rw_state _) in *. apply wp_bind, wp_line; [done|]. intros t. apply wp_bind.
  apply wp_conseq with (Q := λ _, counted cfg s0 f).
  { destruct (0 <? _); [|by apply wp_ret, counted_activity].
    apply wp_bind, wp_query; [by apply counted_activity|]. intros n. by apply wp_ret, counted_activity. }
  intros d s2 H2. apply wp_bind, wp_query; [done|]. intros n.
  apply wp_bind, wp_modify; [by apply counted_activity|]. apply wp_loop. by apply counted_activity.
Qed.

(** C11: A result reports what the node showed.  Whatever the node answers and
    in whatever order the maps are walked, the result of a listen, complete or
    timed out, lists distinct detections of positive value whose sum is the
    confirmed total, and each of them is one of three: a transaction to the
    account, with its value, of a block the node answered; a log the node
    answered, with the value the classification of that log gives; or a
    balance-delta entry, whose value is the difference of two balances of the
    account the node answered, less the inbound transactions of the blocks
    scanned, plus the values and receipt fees of the account's own
    transactions in them.  Each was as deep below the head as asked; of a
    transaction the node confirmed the receipt when it was re-checked, of a log
    the receipt and the log.  Nothing re-checks a balance-delta entry, and it
    need not be a receipt: the account's own spending can make one (findings).
    A result that says complete satisfies the completion mode, an exact one by
    a single transaction or log of that value. *)
Theorem receive_completion_sound cfg txcfg rounds req (l : Listen) (w : RWorld N) r tr :
  Receive cfg txcfg rounds req l w = (Ok (Some r), tr) →
  ∃ mode target from,
    ResolveReceiveMode req = Ok mode ∧ receiveTargetAmount (rq_Amount req) (li_asset l) = Ok target ∧
    reports (N := N) (init_state l mode target (confirmTarget txcfg (li_network l) (rq_Confirmations req)) from) from cfg r.
Proof.
  intros (mode & target & from & Hm & Ht & _ & Hr)%receive_reports. by exists mode, target, from.
Qed.

(** ** Resuming a listen that timed out *)

(** a node that answers a filter with logs of the blocks asked, and whose head
    is not within a chunk of 2^64 *)
Record in_range (cfg : ReceiveDefaults) : Prop := {
  ir_logs : ∀ q n logs l, (cc_FilterLogs (N := N) q n).1 = Ok logs → l ∈ logs →
    fq_FromBlock q ≤ lg_BlockNumber l ≤ fq_ToBlock q;
  ir_head : ∀ n h, (cc_BlockNumber (N := N) n).1 = Ok h → h + log_span cfg ≤ 2 ^ 64;
}.

Lemma placed_from cfg f d : in_range cfg → placed (N := N) cfg f d → f ≤ pd_block d.
Proof.
  intros [Hl Hh] [?|[(n & q & logs & l & Hq & Hin & <- & Hout)|(n & h & Hr & Hf)]]; [done|..].
  - exfalso. by eapply Hout, Hl.
  - apply Hh in Hr. lia.
Qed.

(** A resumed listen never sees what was pending.  The resume command of a
    timed-out listen asks for the target less the confirmed total, from the
    block after the last one scanned.  A payment that had been detected but was
    still waiting for confirmations lies in a scanned block: it is not taken off
    the amount, and, on a node that answers filters with logs of the blocks
    asked, no result of the resumed listen ever contains it. *)
Theorem resumed_listen_misses_pending cfg txcfg rounds req (l : Listen) (w : RWorld N) r tr s k d :
  in_range cfg →
  st_pending s !! k = Some d → pd_block d ≤ st_lastScanned s →
  rq_FromBlock req = Some (st_lastScanned s + 1) →
  Receive cfg txcfg rounds req l w = (Ok (Some r), tr) →
  Forall (λ t, pd_block d < dt_Block t) (rr_Transfers r) ∧
  remaining s = remaining (with_sets s (st_cumDetected s) (st_cumConfirmed s) (delete k (st_pending s)) (st_confirmed s)).
Proof.
  intros Hn _ Hscan Hreq (mode & target & from & _ & _ & Hfrom & Hr)%receive_reports. split; [|done].
  destruct Hr as (ds & -> & _ & _ & Hds & _). apply Forall_map, Forall_forall. intros x Hx.
  apply Hds in Hx as (_ & [Hpl _] & _). apply (placed_from _ _ _ Hn) in Hpl.
  rewrite (Hfrom _ Hreq) in Hpl. cbn. lia.
Qed.

(** The resume command asks for exactly the rest.  What it prints after
    --amount parses, for the same asset, to the remaining amount in base units,
    without rounding, for any amount and any non-negative number of decimals. *)
Theorem resume_amount_exact s :
  0 ≤ la_decimals (st_asset s) →
  isETH (st_asset s) || bool_decide (la_kind (st_asset s) = KindERC20) || isNFTKind (la_kind (st_asset s)) = true →
  receiveTargetAmount (humanAmount s) (st_asset s) = Ok (Some (remaining s)).
Proof.
  intros Hd Hk. assert (Hrem : 0 ≤ remaining s).
  { unfold remaining. destruct (st_targetAmount s); [|done]. cbn zeta. by destruct (Z.ltb_spec (z - st_cumConfirmed s) 0). }
  unfold receiveTargetAmount, humanAmount. cbn zeta. unfold FormatAmount, FormatTokenAmount. cbn [decimals].
  destruct (isETH (st_asset s)) eqn:He.
  - assert (bool_decide (la_kind (st_asset s) = KindERC20) || isNFTKind (la_kind (st_asset s)) = false) as ->.
    { unfold isETH in He. unfold isNFTKind. apply orb_true_iff in He as [->%bool_decide_eq_true| ->%bool_decide_eq_true]; reflexivity. }
    change (decimals Eth) with (Some 18). cbn match.
    destruct (formatBase_plain (remaining s) 18 Hrem ltac:(done)) as [_ Hne]. rewrite bool_decide_false by done.
    unfold ParseAmount. change (decimals Eth) with (Some 18). cbn match. by rewrite parse_formatBase by done.
  - cbn [orb] in Hk. rewrite Hk. destruct (formatBase_plain (remaining s) (la_decimals (st_asset s)) Hrem Hd) as [Hp Hne].
    rewrite bool_decide_false by done. rewrite TrimSpace_plain by done. unfold ParseTokenAmount.
    by rewrite parse_formatBase by done.
Qed.
End Properties.
