(* ===== verification/ReceiveScans.v ===== *)
(** * What the scans of a listen detect

    ETH: the residue of the balance, accounted for exactly.  Tokens: the
    questions of a log scan, a partition of its range, and the decoder of
    batches. *)

From S2P Require Import Prelude GoStrings Decimal HexBytes Ethunit PolicyTypes Domain Trace Calldata Gas Journal Service TxStatus TokenSend Receive ReceiveProps.

(** ** What an ETH listen detects

    On a node that answers from one chain, a scan of a window records every
    inbound transaction and one more detection for the residue of the balance.
    The residue is accounted for exactly: it is the internal inflow of the
    window, plus what the code adds back although it never left, minus what it
    subtracts although it never arrived, plus whatever the baseline was off. *)

Local Open Scope string_scope.
Local Open Scope Z_scope.
Local Open Scope list_scope.
Local Open Scope go_scope.

(** one chain: its blocks, the receipts of their transactions, the balance of
    the account after each block *)
Record Ledger := mkLedger { le_block : Z → Block; le_receipt : Hash → CReceipt; le_balance : Z → Z }.

(** recording a detection, as a function on states *)
Definition record `{UnicodeTables, GethCommon} (s : receiveState) (d : pending) : receiveState :=
  if bool_decide (is_Some (st_pending s !! key d)) || bool_decide (is_Some (st_confirmed s !! key d)) then s
  else with_sets s (st_cumDetected s + pd_value d) (st_cumConfirmed s) (<[key d := d]> (st_pending s)) (st_confirmed s).

(** a state up to the activity clock *)
Definition quiet (s : receiveState) : receiveState := with_activity s 0.

Section Ledger.
Context {N : Type} {UT : UnicodeTables} {GC : GethCommon} {KC : Keccak} {EV : Environment N} {WA : Watcher N}
        {RO : RangeOrder N}.
Variables (L : Ledger) (addr : Address) (chain : Z).

(** a node that answers from the ledger *)
Record honest : Prop := {
  ho_block : ∀ n x, (cc_BlockByNumber (N := N) n x).1 = Ok (Some (le_block L n));
  ho_receipt : ∀ h x, (cc_Receipt (N := N) h x).1 = Ok (Some (le_receipt L h));
  ho_balance : ∀ n x, (cc_Balance (N := N) addr (Some n) x).1 = Ok (le_balance L n);
}.

(** ** The specification of a window *)

Definition ins (n : Z) : list BlockTx := List.filter (is_inbound addr) (bk_Transactions (le_block L n)).
Definition owns (n : Z) : list BlockTx :=
  List.filter (is_own (N := N) chain addr) (bk_Transactions (le_block L n)).
Definition fee (n : Z) (tx : BlockTx) : Z := fee_of (Some (le_block L n)) (bt_Hash tx) (le_receipt L (bt_Hash tx)).

(** a sum over the blocks of a window *)
Definition window (f : Z → Z) (from to : Z) : Z := zsum (map f (seqZ from (to - from + 1))).
Definition block_in (n : Z) : Z := zsum (map bt_Value (ins n)).
Definition block_out (n : Z) : Z := zsum (map bt_Value (owns n)).
Definition block_fees (n : Z) : Z := zsum (map (fee n) (owns n)).

Definition window_inbound (from to : Z) : list pending :=
  concat (map (λ n, map (tx_pending (N := N) chain n (Some (le_block L n))) (ins n)) (seqZ from (to - from + 1))).
Definition residue (baseline from to : Z) : Z :=
  le_balance L to - baseline - window block_in from to + window block_out from to + window block_fees from to.

Definition scanned (from to : Z) (s : receiveState) : receiveState :=
  let s1 := with_baseline (foldl record s (window_inbound from to)) (le_balance L to) in
  let u := residue (default 0 (st_ethBaseline s)) from to in
  if 0 <? u then record s1 (delta_pending u to) else s1.

(** ** The run of a scan *)

Local Notation wp := (wp (N := N) (λ _, True) (λ _, False)).
Hypothesis Hh : honest.

Lemma quiet_idem s t : quiet (with_activity s t) = quiet s.
Proof. done. Qed.

Lemma record_quiet s d : quiet (record s d) = record (quiet s) d.
Proof. unfold record. cbn. by destruct (_ || _). Qed.
Lemma record_frame s d :
  st_addr (record s d) = st_addr s ∧ st_chainID (record s d) = st_chainID s ∧ st_ethBaseline (record s d) = st_ethBaseline s.
Proof. unfold record. by destruct (_ || _). Qed.

Lemma quiet_record s s' d : quiet s = quiet s' → quiet (record s d) = quiet (record s' d).
Proof. intros H. by rewrite !record_quiet, H. Qed.
Lemma quiet_records l : ∀ s s', quiet s = quiet s' → quiet (foldl record s l) = quiet (foldl record s' l).
Proof. induction l as [|d l IH]; intros s s' H; [done|]. cbn. by apply IH, quiet_record. Qed.
Lemma quiet_fields s s' : quiet s = quiet s' →
  st_addr s = st_addr s' ∧ st_chainID s = st_chainID s' ∧ st_ethBaseline s = st_ethBaseline s'.
Proof. intros H. split_and!; [exact (f_equal st_addr H)|exact (f_equal st_chainID H)|exact (f_equal st_ethBaseline H)]. Qed.

Lemma wp_record s d : wp s (recordDetection d) (λ _ s', quiet s' = quiet (record s d)).
Proof.
  unfold recordDetection, record. apply wp_bind, wp_state.
  case_bool_decide as Hp; [by apply wp_ret|]. case_bool_decide as Hc; [by apply wp_ret|].
  apply wp_bind, wp_modify; [done|]. by apply wp_emit_line.
Qed.

Lemma wp_records l : ∀ s, wp s (each recordDetection l) (λ _ s', quiet s' = quiet (foldl record s l)).
Proof.
  induction l as [|d l IH]; intros s; cbn [each foldl]; [by apply wp_ret|]. apply wp_bind.
  eapply wp_conseq; [apply wp_record|]. intros [] s1 H1. eapply wp_conseq; [apply IH|]. intros [] s2 ->.
  by apply quiet_records.
Qed.

Lemma each_map {A B} (f : B → RM (N := N) ()) (g : A → B) l : each (λ x, f (g x)) l = each f (map g l).
Proof. induction l as [|x l IH]; [done|]. cbn [each map]. by rewrite IH. Qed.

Lemma wp_fees n (txs : list BlockTx) : ∀ s total,
  wp s (ownFeesActual (Some (le_block L n)) (map bt_Hash txs) total)
       (λ f s', s' = s ∧ f = total + zsum (map (fee n) txs)).
Proof.
  induction txs as [|tx txs IH]; intros s total; cbn [ownFeesActual map]; [apply wp_ret; split; [done|unfold zsum; simpl; lia]|].
  apply wp_bind, wp_query_rpc; [done|]. intros x. rewrite (ho_receipt Hh). cbn [rpc].
  eapply wp_conseq; [apply IH|]. intros f s' [-> ->]. split; [done|]. rewrite zsum_cons. unfold fee at 2. lia.
Qed.

Lemma wp_blocks l : ∀ s acc, st_addr s = addr → st_chainID s = chain →
  wp s (scan_blocks l acc)
    (λ acc' s', quiet s' = quiet (foldl record s (concat (map (λ n, map (tx_pending (N := N) chain n (Some (le_block L n))) (ins n)) l))) ∧
       sm_in acc' = sm_in acc + zsum (map block_in l) ∧ sm_out acc' = sm_out acc + zsum (map block_out l) ∧
       sm_fees acc' = sm_fees acc + zsum (map block_fees l)).
Proof.
  induction l as [|n l IH]; intros s acc Ha Hc; cbn [scan_blocks].
  { apply wp_ret. unfold zsum. cbn. split_and!; [done|lia..]. }
  apply wp_bind, wp_state, wp_bind. unfold scanETHBlock. apply wp_bind, wp_query_rpc; [done|].
  intros x. rewrite (ho_block Hh). cbn [rpc]. apply wp_ret, wp_bind.
  cbn [es_inbound es_block es_ownTxs es_directIn es_ownOut scan_block]. rewrite Ha, Hc. fold (ins n). fold (owns n).
  rewrite (each_map recordDetection). eapply wp_conseq; [apply wp_records|]. intros [] s1 H1.
  set (s1' := foldl record s _) in *.
  assert (Hs1 : st_addr s1 = addr ∧ st_chainID s1 = chain).
  { apply quiet_fields in H1 as (-> & -> & _). rewrite <-Ha, <-Hc. unfold s1'. generalize (map (tx_pending (N := N) chain n (Some (le_block L n))) (ins n)).
    clear. intros ds. revert s. induction ds as [|d ds IH]; intros s; [done|]. cbn. destruct (IH (record s d)) as [-> ->].
    by destruct (record_frame s d) as (-> & -> & _). }
  destruct Hs1 as [Ha1 Hc1]. apply wp_bind.
  apply wp_conseq with (Q := λ f s', s' = s1 ∧ f = block_fees n).
  { case_bool_decide as He.
    - apply wp_ret. split; [done|]. unfold block_fees. apply map_eq_nil in He. by rewrite He.
    - eapply wp_conseq; [apply wp_fees|]. intros f s' [-> ->]. split; [done|]. unfold block_fees. lia. }
  intros f s2 [-> ->]. eapply wp_conseq; [by apply IH|]. cbn [sm_in sm_out sm_fees].
  intros acc' s3 (H3 & Hi & Ho & Hf). rewrite H3. split.
  { cbn [map concat]. rewrite foldl_app. by apply quiet_records. }
  cbn [map]. rewrite !zsum_cons. unfold block_in, block_out in *. lia.
Qed.

Lemma foldl_record_baseline l : ∀ s, st_ethBaseline (foldl record s l) = st_ethBaseline s ∧ st_addr (foldl record s l) = st_addr s.
Proof.
  induction l as [|d l IH]; intros s; [done|]. cbn. destruct (IH (record s d)) as [-> ->].
  by destruct (record_frame s d) as (-> & _ & ->).
Qed.

Lemma wp_scanRangeETH s from to : st_addr s = addr → st_chainID s = chain →
  wp s (scanRangeETH from to) (λ _ s', quiet s' = quiet (scanned from to s)).
Proof.
  intros Ha Hc. unfold scanRangeETH. apply wp_bind. eapply wp_conseq; [by apply wp_blocks|].
  intros acc s1 (H1 & Hi & Ho & Hf). cbn [sm_in sm_out sm_fees] in Hi, Ho, Hf.
  apply quiet_fields in H1 as Hfields. destruct Hfields as (Ha1 & _ & Hb1).
  destruct (foldl_record_baseline (window_inbound from to) s) as [Hb Ha'].
  unfold window_inbound in Hb, Ha'. rewrite Ha' in Ha1. rewrite Hb in Hb1.
  apply wp_bind, wp_state, wp_bind, wp_query_rpc; [done|]. intros x. rewrite Ha1, Ha, (ho_balance Hh). cbn [rpc].
  unfold balanceDelta. rewrite Hb1.
  set (u := le_balance L to - _ - _ + _ + _).
  assert (Hu : u = residue (default 0 (st_ethBaseline s)) from to).
  { unfold u, residue, window. rewrite Hi, Ho, Hf. lia. }
  unfold scanned, window_inbound. rewrite <-Hu. set (s2 := foldl record s _) in *.
  assert (H2 : quiet (with_baseline s1 (le_balance L to)) = quiet (with_baseline s2 (le_balance L to))).
  { change (with_baseline (quiet s1) (le_balance L to) = with_baseline (quiet s2) (le_balance L to)). by rewrite H1. }
  destruct (Z.ltb_spec u 0) as [Hneg|Hpos].
  - apply wp_bind, wp_modify; [done|]. apply wp_bind, wp_query; [done|]. intros n. apply wp_emit; [done|].
    destruct (Z.ltb_spec 0 u); [lia|]. done.
  - apply wp_bind, wp_modify; [done|]. destruct (Z.ltb_spec 0 u); [|by apply wp_ret].
    eapply wp_conseq; [apply wp_record|]. intros [] s3 ->. by apply quiet_record.
Qed.

(** ** What the residue is *)

Definition succeeded (tx : BlockTx) : bool := cr_Status (le_receipt L (bt_Hash tx)) =? 1.
Definition value_if (b : bool) (tx : BlockTx) : Z := if b then bt_Value tx else 0.

(** the change of the balance the transactions of a block explain *)
Definition effect (n : Z) : Z :=
  zsum (map (λ tx, value_if (succeeded tx) tx) (ins n))
  - zsum (map (λ tx, value_if (succeeded tx) tx + fee n tx) (owns n)).
(** the rest: what arrived or left by internal calls *)
Definition internal (n : Z) : Z := le_balance L n - le_balance L (n - 1) - effect n.
(** values of reverted transactions, which the scan counts as moved *)
Definition reverted_out (n : Z) : Z := zsum (map (λ tx, value_if (negb (succeeded tx)) tx) (owns n)).
Definition reverted_in (n : Z) : Z := zsum (map (λ tx, value_if (negb (succeeded tx)) tx) (ins n)).

Lemma split_value (l : list BlockTx) :
  zsum (map bt_Value l) =
  zsum (map (λ tx, value_if (succeeded tx) tx) l) + zsum (map (λ tx, value_if (negb (succeeded tx)) tx) l).
Proof.
  induction l as [|tx l IH]; [done|]. cbn [map]. rewrite !zsum_cons, IH. unfold value_if. destruct (succeeded tx); cbn; lia.
Qed.
Lemma split_fee n (l : list BlockTx) :
  zsum (map (λ tx, value_if (succeeded tx) tx + fee n tx) l) =
  zsum (map (λ tx, value_if (succeeded tx) tx) l) + zsum (map (fee n) l).
Proof. induction l as [|tx l IH]; [done|]. cbn [map]. rewrite !zsum_cons, IH. lia. Qed.

Lemma block_balance n :
  le_balance L n - le_balance L (n - 1) - block_in n + block_out n + block_fees n =
  internal n + reverted_out n - reverted_in n.
Proof.
  unfold internal, effect, block_in, block_out, block_fees, reverted_out, reverted_in.
  rewrite !split_value, split_fee. lia.
Qed.

Lemma residue_accounts k : ∀ from baseline,
  residue baseline from (from + Z.of_nat k) =
  window (λ n, internal n + reverted_out n - reverted_in n) from (from + Z.of_nat k) + (le_balance L (from - 1) - baseline).
Proof.
  assert (Hz : ∀ f from, window f from (from + Z.of_nat k) = zsum (map f (seqZ from (Z.of_nat (S k))))).
  { intros f from. unfold window. do 3 f_equal. lia. }
  assert (Htel : ∀ j from, zsum (map (λ n, le_balance L n - le_balance L (n - 1)) (seqZ from (Z.of_nat j))) =
                           le_balance L (from + Z.of_nat j - 1) - le_balance L (from - 1)).
  { induction j as [|j IH]; intros from; [replace (from + Z.of_nat 0 - 1) with (from - 1) by lia; change (zsum _) with 0; lia|].
    rewrite seqZ_cons by lia. cbn [map]. rewrite zsum_cons.
    replace (Z.pred (Z.of_nat (S j))) with (Z.of_nat j) by lia. rewrite IH.
    replace (Z.succ from - 1) with from by lia. replace (from + Z.of_nat (S j) - 1) with (Z.succ from + Z.of_nat j - 1) by lia. lia. }
  intros from baseline. unfold residue. rewrite !Hz.
  assert (Hsum : zsum (map (λ n, internal n + reverted_out n - reverted_in n) (seqZ from (Z.of_nat (S k)))) =
    zsum (map (λ n, le_balance L n - le_balance L (n - 1)) (seqZ from (Z.of_nat (S k))))
    - zsum (map block_in (seqZ from (Z.of_nat (S k)))) + zsum (map block_out (seqZ from (Z.of_nat (S k))))
    + zsum (map block_fees (seqZ from (Z.of_nat (S k))))).
  { generalize (seqZ from (Z.of_nat (S k))). induction l as [|n l IH]; [done|]. cbn [map]. rewrite !zsum_cons, IH.
    rewrite <-block_balance. lia. }
  rewrite Hsum, Htel. replace (from + Z.of_nat (S k) - 1) with (from + Z.of_nat k) by lia. lia.
Qed.
End Ledger.

(** ** A first pass that only finds the account's own spending *)

Section FirstPass.
Context {N : Type} {UT : UnicodeTables} {GC : GethCommon} {KC : Keccak} {EV : Environment N} {WA : Watcher N}
        {RO : RangeOrder N}.
Local Notation wp := (wp (N := N) (λ _, True) (λ _, False)).

Lemma quiet_activity s s' : quiet s = quiet s' → s = with_activity s' (st_lastActivity s).
Proof. destruct s, s'. unfold quiet, with_activity. cbn. intros H. injection H. intros. by subst. Qed.

(** the only pending detection is a residue at the head: it is confirmed at once *)
Lemma wp_advance_delta s d :
  st_confirmed s = ∅ → st_pending s = {[key d := d]} → pd_attribution d = AttribBalanceDelta → st_confTarget s ≤ 1 →
  wp s (advanceConfirmations (pd_block d))
    (λ _ s', quiet s' = quiet (with_sets s (st_cumDetected s) (st_cumConfirmed s + pd_value d) ∅ {[key d := d]})).
Proof.
  intros Hc Hp Ha Ht. unfold advanceConfirmations. apply wp_bind, wp_state, wp_bind, wp_entries. intros l.
  rewrite Hc, map_to_list_empty. intros ->%Permutation_nil_r. apply wp_bind, wp_ret, wp_bind, wp_state, wp_bind, wp_entries.
  intros l. rewrite Hp, map_to_list_singleton. intros ->%Permutation_singleton_r. cbn [each]. apply wp_bind.
  unfold advance_pending. apply wp_bind, wp_state. rewrite Z.ltb_irrefl. cbn zeta.
  replace (wrap64 (pd_block d - pd_block d + 1)) with 1 by (by rewrite Z.sub_diag).
  destruct (Z.ltb_spec 1 (st_confTarget s)); [lia|]. apply wp_bind. unfold reverify.
  rewrite bool_decide_true by done. apply wp_ret, wp_bind, wp_modify; [done|].
  apply wp_emit_line; [done|done|]. intros t. apply wp_ret. rewrite quiet_idem, Hp, Hc.
  by rewrite delete_singleton_eq, insert_empty.
Qed.
Lemma records_quiet l : ∀ s, quiet (foldl record s l) = foldl record (quiet s) l.
Proof. induction l as [|d l IH]; intros s; [done|]. cbn. by rewrite IH, record_quiet. Qed.

Lemma scanned_quiet L addr chain from to s :
  quiet (scanned (N := N) L addr chain from to s) = scanned (N := N) L addr chain from to (quiet s).
Proof.
  unfold scanned. cbn zeta. rewrite <-records_quiet. change (st_ethBaseline (quiet s)) with (st_ethBaseline s).
  destruct (0 <? _); [by rewrite record_quiet|done].
Qed.

Variables (L : Ledger) (l : Listen) (head from : Z).
Hypothesis Hh : honest (N := N) L (li_addr l).
Hypothesis Hhead : ∀ x, (cc_BlockNumber (N := N) x).1 = Ok head.
Hypothesis Hbal : ∀ x, (cc_Balance (N := N) (li_addr l) None x).1 = Ok (le_balance L head).
Hypothesis Heth : isETH (li_asset l) = true.
Hypothesis Hwindow : 0 < from ∧ from ≤ head.
Hypothesis Hins : ∀ n, from ≤ n ≤ head → ins L (li_addr l) n = [].

(** what the account spent in the window *)
Definition spent : Z :=
  window (block_out (N := N) L (li_addr l) (li_chainID l)) from head
  + window (block_fees (N := N) L (li_addr l) (li_chainID l)) from head.
Hypothesis Hspent : 0 < spent.

Lemma ins_window n : n ∈ seqZ from (head - from + 1) → ins L (li_addr l) n = [].
Proof. intros Hn%elem_of_seqZ. apply Hins. lia. Qed.

Lemma own_residue : residue (N := N) L (li_addr l) (li_chainID l) (le_balance L head) from head = spent.
Proof.
  unfold residue. assert (window (block_in L (li_addr l)) from head = 0) as ->; [|unfold spent; lia].
  unfold window. pose proof ins_window as Hx. induction (seqZ from (head - from + 1)) as [|n ns IH]; [done|].
  cbn [map]. rewrite zsum_cons, IH by (intros; apply Hx; by right). unfold block_in. by rewrite Hx by left.
Qed.

Definition own_state (conf : Z) : receiveState :=
  with_baseline (init_state l ModeAny None conf from) (le_balance L head).
Definition own_detection : pending := delta_pending spent head.

Lemma own_scanned conf :
  scanned (N := N) L (li_addr l) (li_chainID l) from head (own_state conf) =
  with_sets (own_state conf) spent 0 {[key own_detection := own_detection]} ∅.
Proof.
  unfold scanned. assert (window_inbound (N := N) L (li_addr l) (li_chainID l) from head = []) as ->.
  { unfold window_inbound. pose proof ins_window as Hx. induction (seqZ from (head - from + 1)) as [|n ns IH]; [done|].
    cbn [map concat]. rewrite Hx by left. apply IH. intros n' Hn'. apply Hx. by right. }
  change (default 0 (st_ethBaseline (own_state conf))) with (le_balance L head). cbn zeta. rewrite own_residue.
  by apply Z.ltb_lt in Hspent as ->.
Qed.

(** the first pass confirms the spending and completes *)
Lemma wp_own_step cfg conf s :
  quiet s = own_state conf → conf ≤ 1 →
  wp s (receiveStep cfg) (λ o _, ∃ r, o = Some r ∧ rr_Status r = "complete" ∧ rr_Transfers r = [detected own_detection]).
Proof.
  intros Hs Hconf. destruct Hwindow as (Hf0 & Hfh).
  assert (Hs' : s = with_activity (own_state conf) (st_lastActivity s)) by (by apply quiet_activity; rewrite Hs).
  unfold receiveStep. apply wp_bind, wp_query_rpc; [done|]. intros n. rewrite Hhead. cbn [rpc].
  apply wp_bind, wp_state, wp_bind.
  assert (st_lastScanned s = from - 1) as ->.
  { rewrite Hs'. unfold own_state, init_state. cbn [st_lastScanned with_activity with_baseline]. by apply Z.ltb_lt in Hf0 as ->. }
  destruct (Z.ltb_spec (from - 1) head); [|lia].
  rewrite Z.sub_add.
  apply wp_bind. unfold scanRange. apply wp_bind, wp_state.
  assert (isETH (st_asset s) = true) as -> by (by rewrite Hs').
  eapply wp_conseq; [apply (wp_scanRangeETH L (li_addr l) (li_chainID l) Hh); by rewrite Hs'|].
  intros [] s2 H2. rewrite scanned_quiet, Hs, own_scanned in H2. apply wp_modify; [done|].
  assert (H3 : quiet (with_scanned s2 head) =
               with_scanned (with_sets (own_state conf) spent 0 {[key own_detection := own_detection]} ∅) head).
  { by rewrite <-H2. }
  rewrite (quiet_activity _ (with_scanned (with_sets (own_state conf) spent 0 {[key own_detection := own_detection]} ∅) head)) by done.
  apply wp_bind. eapply wp_conseq; [by apply (wp_advance_delta _ own_detection)|]. intros [] s4 H4.
  cbn [st_cumDetected st_cumConfirmed with_activity with_scanned with_sets pd_value own_detection delta_pending] in H4.
  rewrite (quiet_activity s4 _ H4). apply wp_bind, wp_state. unfold completed at 1.
  rewrite bool_decide_true by done. cbn [st_cumConfirmed with_activity with_sets]. rewrite Z.add_0_l.
  apply Z.ltb_lt in Hspent as Hs1. rewrite Hs1. apply wp_bind. unfold completeResult. apply wp_bind, wp_state, wp_bind, wp_entries.
  cbn [st_confirmed with_activity with_sets]. intros l1. rewrite map_to_list_singleton. intros ->%Permutation_singleton_r.
  apply wp_bind, wp_entries. intros l2 _. apply wp_bind, wp_query; [done|]. intros n5. apply wp_bind, wp_emit; [done|].
  by apply wp_ret, wp_ret; eexists.
Qed.
End FirstPass.

Section Properties.
Context {N : Type} {UT : UnicodeTables} {GC : GethCommon} {KC : Keccak} {EV : Environment N} {WA : Watcher N}
        {RO : RangeOrder N}.

(** C17: what an ETH scan detects.  On a node that answers from one chain, the
    scan of a window succeeds and leaves exactly the state that recording each
    inbound transaction and, if positive, the residue gives.  The residue is the
    internal inflow of the window, plus the values of the account's own reverted
    transactions (the code adds them back although they never left), minus those
    of reverted inbound ones, plus what the balance before the window exceeds
    the baseline by. *)
Theorem eth_scan_accounts (L : Ledger) addr chain from to (w : RWorld N) :
  honest (N := N) L addr → st_addr (rw_state w) = addr → st_chainID (rw_state w) = chain → from ≤ to →
  let baseline := default 0 (st_ethBaseline (rw_state w)) in
  (∃ tr, scanRangeETH from to w = (Ok tt, tr) ∧
         quiet (rw_state (after w tr)) = quiet (scanned (N := N) L addr chain from to (rw_state w))) ∧
  residue (N := N) L addr chain baseline from to =
    window (λ n, internal (N := N) L addr chain n + reverted_out (N := N) L addr chain n - reverted_in L addr n) from to
    + (le_balance L (from - 1) - baseline).
Proof.
  intros Hh Ha Hc Hle baseline. split.
  - destruct (wp_scanRangeETH L addr chain Hh (rw_state w) from to Ha Hc w eq_refl) as [_ H].
    destruct (scanRangeETH from to w) as [[[]|e] tr]; [|done]. by exists tr.
  - replace to with (from + Z.of_nat (Z.to_nat (to - from))) by lia. apply residue_accounts.
Qed.

(** A listen can complete on the account's own spending.  The baseline is
    read at the head, while the first pass scans from the look-back (by default
    the head itself) up to it: what the account spent in those blocks is already
    out of the baseline and is added back once more.  With one confirmation
    asked, and no transfer to the account in those blocks, the first pass
    confirms the whole spending, value and fees, as an inbound transfer and
    reports the listen complete. *)
Theorem own_spending_completes_listen (L : Ledger) cfg txcfg rounds req (l : Listen) head from (w : RWorld N) :
  honest (N := N) L (li_addr l) →
  (∀ x, (cc_BlockNumber (N := N) x).1 = Ok head) →
  (∀ x, (cc_Balance (N := N) (li_addr l) None x).1 = Ok (le_balance L head)) →
  isETH (li_asset l) = true → ResolveReceiveMode req = Ok ModeAny → rq_Amount req = "" →
  confirmTarget txcfg (li_network l) (rq_Confirmations req) ≤ 1 →
  from_block cfg req head = from → 0 < from ∧ from ≤ head → (0 < rounds)%nat →
  (∀ n, from ≤ n ≤ head → ins L (li_addr l) n = []) →
  0 < spent (N := N) L l head from →
  ∃ r tr, Receive cfg txcfg rounds req l w = (Ok (Some r), tr) ∧
    rr_Status r = "complete" ∧ rr_Transfers r = [detected (own_detection (N := N) L l head from)].
Proof.
  intros Hh Hhead Hbal Heth Hmode Hamt Hconf Hfrom Hwindow Hr Hins Hspent.
  set (conf := confirmTarget txcfg _ _) in *. set (d := own_detection L l head from).
  enough (Hwp : ReceiveProps.wp (N := N) (λ _, True) (λ _, False) (rw_state w) (Receive cfg txcfg rounds req l)
    (λ o _, ∃ r, o = Some r ∧ rr_Status r = "complete" ∧ rr_Transfers r = [detected d])).
  { destruct (Hwp w eq_refl) as [_ H]. destruct (Receive cfg txcfg rounds req l w) as [[o|e] tr]; [|done].
    destruct H as (r & -> & ?). by exists r, tr. }
  unfold Receive. apply wp_bind, wp_lift. rewrite Hmode. apply wp_bind, wp_lift.
  unfold receiveTargetAmount. rewrite bool_decide_true by done. apply wp_bind, wp_query_rpc; [done|]. intros n.
  rewrite Hhead. cbn [rpc]. cbn zeta. rewrite Hfrom. fold conf. apply wp_bind, wp_modify; [done|]. rewrite Heth.
  apply wp_bind, wp_bind, wp_query_rpc; [done|]. intros n'. rewrite Hbal. cbn [rpc]. apply wp_modify; [done|].
  apply wp_bind, wp_emit_line; [done|done|]. intros t. apply wp_bind.
  apply wp_conseq with (Q := λ _ s', quiet s' = own_state L l head from conf).
  { destruct (0 <? _); [|by apply wp_ret]. apply wp_bind, wp_query; [done|]. intros n2. by apply wp_ret. }
  intros deadline s1 H1. apply wp_bind, wp_query; [done|]. intros n3. apply wp_bind, wp_modify; [done|].
  destruct rounds as [|rounds]; [lia|]. cbn [receiveLoop]. unfold receive_turn. apply wp_bind, wp_bind, wp_mres; [done| |done].
  eapply wp_conseq; [by eapply (wp_own_step L l head from)|]. intros o s2 (r & -> & Hst & Htr).
  by apply wp_ret, wp_ret; exists r.
Qed.
End Properties.

(** ** What a token listen detects

    The data of a TransferBatch log: what a well-formed one decodes to, and
    exactly which ones crash the decoder.  The chunks of a log scan: whatever
    their size, the detections are those of the whole range. *)

Local Open Scope string_scope.
Local Open Scope Z_scope.
Local Open Scope list_scope.
Local Open Scope go_scope.

(** ** The batch decoder *)

(** the ABI encoding of (uint256[], uint256[]), as words *)
Definition batch_words (ids vals : list Z) : list Z :=
  64 :: 96 + 32 * Z.of_nat (length ids) :: Z.of_nat (length ids) :: ids ++ Z.of_nat (length vals) :: vals.
Definition encode_words (ws : list Z) : string := String.concat "" (map enc_word ws).
Definition encodeBatch (ids vals : list Z) : string := encode_words (batch_words ids vals).

Lemma int64_small n : 0 ≤ n < 2 ^ 63 → int64_of n = n.
Proof. intros H. unfold int64_of. rewrite Z.mod_small by lia. cbn zeta. by destruct (Z.ltb_spec n (2 ^ 63)); [|lia]. Qed.

Lemma int64_range n : - 2 ^ 63 ≤ int64_of n < 2 ^ 63.
Proof.
  unfold int64_of. pose proof (Z.mod_pos_bound n (2 ^ 64) ltac:(lia)). cbn zeta.
  destruct (Z.ltb_spec (n mod 2 ^ 64) (2 ^ 63)); lia.
Qed.

(** the decoder's words are those of the calldata codec *)
Lemma data_word_word data i :
  Z.of_nat i * 32 + 32 < 2 ^ 63 → data_word data (Z.of_nat i * 32) = Ok (SetBytes <$> word data i).
Proof.
  intros Hi. unfold data_word, word. rewrite int64_small by lia.
  destruct (Z.ltb_spec (Z.of_nat i * 32) 0); [lia|]. cbn [orb].
  destruct (Z.ltb_spec (Z.of_nat (String.length data)) (Z.of_nat i * 32 + 32)), (Nat.ltb_spec (String.length data) (i * 32 + 32)); try lia.
  - done.
  - by replace (Z.to_nat (Z.of_nat i * 32)) with (i * 32)%nat by lia.
Qed.

Lemma data_word_arg ws i n :
  ws !! i = Some n → 0 ≤ n < 2 ^ 256 → Z.of_nat i * 32 + 32 < 2 ^ 63 →
  data_word (encode_words ws) (Z.of_nat i * 32) = Ok (Some n).
Proof.
  intros Hi Hn Hb. rewrite data_word_word by done. unfold encode_words. rewrite (word_args _ _ n) by done.
  cbn [fmap option_fmap option_map]. do 2 f_equal. by apply (SetBytes_be_bytes 32).
Qed.

Lemma read_words_args ws i l rest :
  drop i ws = l ++ rest → Forall (λ v, 0 ≤ v < 2 ^ 256) l → Z.of_nat (i + length l) * 32 + 32 < 2 ^ 63 →
  read_words (encode_words ws) (Z.of_nat i * 32) (length l) = Ok (Some l).
Proof.
  revert i. induction l as [|v l IH]; intros i Hd Hl Hb; cbn [read_words length]; [done|].
  assert (Hi : ws !! i = Some v) by (rewrite <-(Nat.add_0_r i), <-lookup_drop, Hd; done).
  rewrite (data_word_arg _ _ v); [|done|by apply Forall_inv in Hl|cbn in Hb; lia]. cbn [rbind].
  replace (Z.of_nat i * 32 + 32) with (Z.of_nat (S i) * 32) by lia. rewrite IH; [done| |by apply Forall_inv_tail in Hl|cbn in Hb; lia].
  replace (S i) with (i + 1)%nat by lia. rewrite <-drop_drop, Hd. done.
Qed.

Lemma readArr_args ws i l rest :
  drop i ws = Z.of_nat (length l) :: l ++ rest → Forall (λ v, 0 ≤ v < 2 ^ 256) l →
  Z.of_nat (length l) ≤ array_bound → Z.of_nat (S i + length l) * 32 + 32 < 2 ^ 63 →
  readArr (encode_words ws) (Z.of_nat i * 32) = Ok (Some l).
Proof.
  intros Hd Hl Hn Hb. unfold readArr.
  assert (Hi : ws !! i = Some (Z.of_nat (length l))) by (rewrite <-(Nat.add_0_r i), <-lookup_drop, Hd; done).
  rewrite (data_word_arg _ _ _ Hi); [|unfold array_bound in Hn; lia|lia]. cbn [rbind]. cbn zeta.
  rewrite !int64_small by (unfold array_bound in Hn; lia).
  destruct (Z.ltb_spec (Z.of_nat (length l)) 0); [lia|]. destruct (Z.ltb_spec array_bound (Z.of_nat (length l))); [lia|].
  cbn [orb]. rewrite Nat2Z.id. replace (Z.of_nat i * 32 + 32) with (Z.of_nat (S i) * 32) by lia.
  eapply read_words_args; [|done|lia]. replace (S i) with (i + 1)%nat by lia. rewrite <-drop_drop, Hd. done.
Qed.

(** an offset whose end wraps around in int64 *)
Definition near_top (off : Z) : Prop := 2 ^ 63 - 32 ≤ off < 2 ^ 63.

Lemma data_word_cases data off :
  - 2 ^ 63 ≤ off < 2 ^ 63 → Z.of_nat (String.length data) < 2 ^ 62 →
  (near_top off ∧ data_word data off = Err go_panic) ∨
  (¬ near_top off ∧ ∃ o, data_word data off = Ok o ∧ (is_Some o → 0 ≤ off ∧ off + 32 ≤ Z.of_nat (String.length data))).
Proof.
  intros Ho Hl. unfold near_top, data_word. set (n := Z.of_nat (String.length data)) in *.
  destruct (Z.ltb_spec off 0) as [Hneg|Hpos].
  { right. split; [lia|]. exists None. split; [done|]. by intros [? [=]]. }
  cbn [orb]. destruct (Z.le_gt_cases (2 ^ 63 - 32) off) as [Hnear|Hfar].
  - left. split; [lia|]. assert (int64_of (off + 32) < 0) as Hi.
    { unfold int64_of. rewrite Z.mod_small by lia. cbn zeta. destruct (Z.ltb_spec (off + 32) (2 ^ 63)); lia. }
    destruct (Z.ltb_spec n (int64_of (off + 32))); [lia|]. by destruct (Z.ltb_spec n (off + 32)); [|lia].
  - right. split; [lia|]. rewrite int64_small by lia. destruct (Z.ltb_spec n (off + 32)).
    + exists None. split; [done|]. by intros [? [=]].
    + eexists. split; [done|]. intros _. lia.
Qed.

Lemma read_words_total data n : ∀ off,
  0 ≤ off ≤ Z.of_nat (String.length data) → Z.of_nat (String.length data) < 2 ^ 62 → ∃ o, read_words data off n = Ok o.
Proof.
  induction n as [|n IH]; intros off Ho Hl; cbn [read_words]; [by eexists|].
  destruct (data_word_cases data off) as [[Hn _]|(_ & [v|] & -> & Hr)]; [lia|done|unfold near_top in Hn; lia| |by eexists].
  cbn [rbind]. destruct (Hr ltac:(eauto)) as [_ Hr']. destruct (IH (off + 32)) as [r ->]; [lia|done|]. by eexists.
Qed.

Lemma readArr_cases data off :
  - 2 ^ 63 ≤ off < 2 ^ 63 → Z.of_nat (String.length data) < 2 ^ 62 →
  (near_top off ∧ readArr data off = Err go_panic) ∨ (¬ near_top off ∧ ∃ o, readArr data off = Ok o).
Proof.
  intros Ho Hl. unfold readArr. destruct (data_word_cases data off Ho Hl) as [[Hn ->]|(Hn & [v|] & -> & Hr)]; [by left| |by right; split; [|eexists]].
  right. split; [done|]. cbn [rbind]. cbn zeta. destruct (_ || _); [by eexists|].
  destruct (Hr ltac:(eauto)) as [H0 H1]. rewrite int64_small by lia. apply read_words_total; lia.
Qed.

(** ** Chunks of a scan *)

Section Chunks.
Context {N : Type} {UT : UnicodeTables} {GC : GethCommon} {KC : Keccak} {EV : Environment N} {WA : Watcher N}
        {RO : RangeOrder N}.
Local Notation wp := (wp (N := N) (λ _, True) (λ _, False)).

(** recording what a log is classified as *)
Definition record_log (s : receiveState) (l : Log) : receiveState :=
  match classifyLog s l with Ok (Some d) => record s d | _ => s end.

Definition listens_for (a : Address) (asset : listenAsset) (s : receiveState) : Prop :=
  st_addr s = a ∧ st_asset s = asset.

Lemma record_listens s d a asset : listens_for a asset s → listens_for a asset (record s d).
Proof. unfold record. by destruct (_ || _). Qed.
Lemma record_log_listens s l a asset : listens_for a asset s → listens_for a asset (record_log s l).
Proof. intros H. unfold record_log. destruct (classifyLog s l) as [[d|]|e]; [by apply record_listens|done|done]. Qed.
Lemma record_logs_listens l : ∀ s a asset, listens_for a asset s → listens_for a asset (foldl record_log s l).
Proof. induction l as [|x l IH]; intros s a asset H; [done|]. cbn. by apply IH, record_log_listens. Qed.

Lemma classifyLog_frame s s' l : st_addr s = st_addr s' → st_asset s = st_asset s' → classifyLog s l = classifyLog s' l.
Proof.
  destruct s, s'. cbn. intros -> ->. reflexivity.
Qed.

Lemma quiet_listens s s' a asset : quiet s = quiet s' → listens_for a asset s → listens_for a asset s'.
Proof. intros H [<- <-]. split; symmetry; [exact (f_equal st_addr H)|exact (f_equal st_asset H)]. Qed.

Lemma quiet_record_log s s' l : quiet s = quiet s' → quiet (record_log s l) = quiet (record_log s' l).
Proof.
  intros H. pose proof (quiet_listens s s' (st_addr s) (st_asset s) H ltac:(done)) as [Ha Has]. unfold record_log.
  rewrite (classifyLog_frame s' s) by done. destruct (classifyLog s l) as [[d|]|e]; [by apply quiet_record|done|done].
Qed.
Lemma quiet_record_logs l : ∀ s s', quiet s = quiet s' → quiet (foldl record_log s l) = quiet (foldl record_log s' l).
Proof. induction l as [|x l IH]; intros s s' H; [done|]. cbn. by apply IH, quiet_record_log. Qed.

Lemma wp_record_logs l : ∀ s, (∀ x, x ∈ l → is_ok (classifyLog s x) = true) →
  wp s (each scan_log l) (λ _ s', quiet s' = quiet (foldl record_log s l)).
Proof.
  induction l as [|x l IH]; intros s Hok; cbn [each foldl]; [by apply wp_ret|]. apply wp_bind.
  assert (Hx : wp s (scan_log x) (λ _ s', quiet s' = quiet (record_log s x))).
  { unfold scan_log, record_log. apply wp_bind, wp_state, wp_bind, wp_lift. specialize (Hok x ltac:(by left)).
    destruct (classifyLog s x) as [[d|]|e]; [apply wp_record|by apply wp_ret|done]. }
  eapply wp_conseq; [exact Hx|]. intros [] s1 H1. eapply wp_conseq; [apply IH|].
  - intros y Hy. pose proof (quiet_listens _ s1 _ _ (eq_sym H1) (record_log_listens s x _ _ ltac:(done))) as [Ha Has].
    rewrite (classifyLog_frame s1 s) by done. apply Hok. by right.
  - intros [] s2 ->. by apply quiet_record_logs.
Qed.

(** the logs of the listening address, block by block *)
Variables (a : Address) (asset : listenAsset) (logs : Z → list Log).
Definition window_logs (from to : Z) : list Log := concat (map logs (seqZ from (to - from + 1))).

(** a node that answers every filter from them *)
Definition serves_logs : Prop := ∀ s lo hi x, listens_for a asset s →
  (cc_FilterLogs (N := N) (transferQuery s lo hi) x).1 = Ok (window_logs lo hi).

Lemma window_logs_app from mid to : from ≤ mid + 1 → mid ≤ to → window_logs from to = window_logs from mid ++ window_logs (mid + 1) to.
Proof.
  intros H1 H2. unfold window_logs. replace (to - from + 1) with ((mid - from + 1) + (to - (mid + 1) + 1)) by lia.
  rewrite seqZ_app by lia. rewrite map_app, concat_app. do 4 f_equal. lia.
Qed.

Hypothesis Hserve : serves_logs.

Lemma wp_scan_chunks_all span to fuel : ∀ s lo,
  listens_for a asset s → 0 < span → 0 ≤ lo ≤ to → to + span ≤ 2 ^ 64 → (Z.to_nat (to - lo + 1) < fuel)%nat →
  (∀ x, x ∈ window_logs lo to → is_ok (classifyLog s x) = true) →
  wp s (scan_chunks fuel span lo to) (λ _ s', quiet s' = quiet (foldl record_log s (window_logs lo to))).
Proof.
  induction fuel as [|fuel IH]; intros s lo Hs Hspan Hlo Hto Hfuel Hok; [lia|]. cbn [scan_chunks].
  destruct (Z.leb_spec lo to); [|lia]. cbn [negb]. cbn zeta.
  assert (wrap64 (lo + span - 1) = lo + span - 1) as -> by (unfold wrap64; rewrite Z.mod_small; lia).
  set (hi := if to <? lo + span - 1 then to else lo + span - 1).
  assert (Hhi : lo ≤ hi ≤ to) by (unfold hi; destruct (Z.ltb_spec to (lo + span - 1)); lia).
  rewrite (window_logs_app lo hi to) in * by lia.
  apply wp_bind, wp_state, wp_bind, wp_query_rpc; [done|]. intros x. rewrite (Hserve s lo hi x Hs). cbn [rpc].
  apply wp_bind. eapply wp_conseq; [apply wp_record_logs|].
  { intros y Hy. apply Hok, elem_of_app. by left. }
  intros [] s1 H1. rewrite foldl_app. destruct (Z.eqb_spec hi to) as [Heq|Hne].
  - apply wp_ret. assert (window_logs (hi + 1) to = []) as ->; [|done].
    unfold window_logs. by rewrite seqZ_nil by lia.
  - assert (Hhi' : hi = lo + span - 1) by (unfold hi in *; destruct (Z.ltb_spec to (lo + span - 1)); lia).
    replace (wrap64 (lo + span)) with (hi + 1) by (unfold wrap64; rewrite Z.mod_small; lia).
    assert (Hs1 : listens_for a asset s1).
    { eapply quiet_listens; [symmetry; exact H1|]. exact (record_logs_listens _ s a asset Hs). }
    eapply wp_conseq; [apply IH; [done|done|lia|done|lia|]|].
    + intros y Hy. destruct Hs as [Ha Has], Hs1 as [Ha1 Has1].
      rewrite (classifyLog_frame s1 s) by congruence. apply Hok, elem_of_app. by right.
    + intros [] s2 ->. by apply quiet_record_logs.
Qed.
End Chunks.

(** *** The questions of a scan *)

(** consecutive chunks of at most [span] blocks that make up a range *)
Fixpoint partitions (span from to : Z) (chunks : list (Z * Z)) : Prop :=
  match chunks with
  | [] => to < from
  | (lo, hi) :: chunks => lo = from ∧ lo ≤ hi ≤ to ∧ hi - lo + 1 ≤ span ∧ partitions span (hi + 1) to chunks
  end.

Section Questions.
Context {N : Type} {UT : UnicodeTables} {GC : GethCommon} {KC : Keccak} {EV : Environment N} {WA : Watcher N}
        {RO : RangeOrder N}.

(** one question for each chunk, the logs of its reply recorded before the next *)
Fixpoint ask_chunks (chunks : list (Z * Z)) : RM (N := N) () :=
  match chunks with
  | [] => mret tt
  | (lo, hi) :: chunks =>
      st <-- state ;;
      logs <-- query_rpc (cc_FilterLogs (transferQuery st lo hi)) ;;
      each scan_log logs ;;; ask_chunks chunks
  end.

Lemma mbind_same {A B} (m : RM (N := N) A) (f g : A → RM B) w : (∀ a w, f a w = g a w) → mbind m f w = mbind m g w.
Proof. intros H. unfold mbind. destruct (m w) as [[a|e] tr]; [|done]. by rewrite H. Qed.

Lemma scan_chunks_questions span to fuel : ∀ lo,
  0 < span → 0 ≤ lo ≤ to → to + span ≤ 2 ^ 64 → (Z.to_nat (to - lo + 1) < fuel)%nat →
  ∃ chunks, partitions span lo to chunks ∧ Z.of_nat (length chunks) = (to - lo) / span + 1 ∧
    ∀ w, scan_chunks fuel span lo to w = ask_chunks chunks w.
Proof.
  induction fuel as [|fuel IH]; intros lo Hspan Hlo Hto Hfuel; [lia|]. cbn [scan_chunks].
  destruct (Z.leb_spec lo to); [|lia]. cbn [negb]. cbn zeta.
  assert (wrap64 (lo + span - 1) = lo + span - 1) as -> by (unfold wrap64; rewrite Z.mod_small; lia).
  destruct (Z.ltb_spec to (lo + span - 1)) as [Hlast|Hmore]; [|destruct (Z.eqb_spec (lo + span - 1) to) as [Heq|Hne]].
  - exists [(lo, to)]. rewrite Z.eqb_refl, Z.div_small by lia. split_and!; [cbn; lia..|done].
  - exists [(lo, lo + span - 1)]. rewrite Z.div_small by lia. split_and!; [cbn; lia..|done].
  - replace (wrap64 (lo + span)) with (lo + span) by (unfold wrap64; rewrite Z.mod_small; lia).
    destruct (IH (lo + span)) as (chunks & Hp & Hl & Hc); [lia..|]. exists ((lo, lo + span - 1) :: chunks).
    assert ((to - lo) / span = (to - (lo + span)) / span + 1) as ->.
    { replace (to - lo) with ((to - (lo + span)) + 1 * span) by lia. by rewrite Z.div_add by lia. }
    split_and!; [..|intros w; cbn [ask_chunks]; repeat (apply mbind_same; intros); apply Hc].
    + cbn. split_and!; [done|lia..|]. by replace (lo + span - 1 + 1) with (lo + span) by lia.
    + cbn [length]. lia.
Qed.
End Questions.

Section Properties.
Context {N : Type} {UT : UnicodeTables} {GC : GethCommon} {KC : Keccak} {EV : Environment N} {WA : Watcher N}
        {RO : RangeOrder N}.

(** Batch transfers decode back.  A TransferBatch data field that encodes
    two arrays of the same length, of up to 2^20 words of 256 bits, decodes to
    exactly these arrays. *)
Theorem batch_roundtrip ids vals :
  length ids = length vals → Z.of_nat (length ids) ≤ array_bound →
  Forall (λ v, 0 ≤ v < 2 ^ 256) (ids ++ vals) →
  decode1155Batch (encodeBatch ids vals) = Ok (Some (ids, vals)).
Proof.
  intros Hlen Hn [Hi Hv]%Forall_app. unfold decode1155Batch, encodeBatch. set (ws := batch_words ids vals).
  assert (Hb : Z.of_nat (length ids) < 2 ^ 21) by (change array_bound with 1048576 in Hn; lia).
  pose proof (data_word_arg ws 0 64 eq_refl ltac:(lia) ltac:(lia)) as H0.
  pose proof (data_word_arg ws 1 (96 + 32 * Z.of_nat (length ids)) eq_refl ltac:(lia) ltac:(lia)) as H1.
  change (Z.of_nat 0 * 32) with 0 in H0. change (Z.of_nat 1 * 32) with 32 in H1. rewrite H0, H1. cbn [rbind].
  rewrite !int64_small by lia. change 64 with (Z.of_nat 2 * 32) at 1.
  rewrite (readArr_args ws 2 ids (Z.of_nat (length vals) :: vals)); [|done|done|done|lia].
  replace (96 + 32 * Z.of_nat (length ids)) with (Z.of_nat (3 + length ids) * 32) by lia.
  rewrite (readArr_args ws (3 + length ids) vals []); [|..|lia|lia].
  - cbn [rbind]. by rewrite Hlen, Nat.eqb_refl.
  - rewrite app_nil_r. unfold ws, batch_words. cbn [Nat.add drop]. by rewrite drop_app_length.
  - done.
Qed.

(** When the batch decoder crashes.  The comment promises that malformed
    data is skipped, "never a panic".  On data of any realistic size the decoder
    panics exactly when there are two words and the low 64 bits of one of them,
    the offsets of the arrays, lie in the last 32 values below 2^63: there the
    end of the word wraps around, passes the bounds test, and the slice is out
    of range.  On all other data it returns. *)
Theorem batch_decoder_panics data :
  Z.of_nat (String.length data) < 2 ^ 62 →
  (decode1155Batch data = Err go_panic ↔
   ∃ o1 o2, word data 0 = Some o1 ∧ word data 1 = Some o2 ∧
            (near_top (int64_of (SetBytes o1)) ∨ near_top (int64_of (SetBytes o2)))) ∧
  (decode1155Batch data ≠ Err go_panic → ∃ r, decode1155Batch data = Ok r).
Proof.
  intros Hl. unfold decode1155Batch. pose proof (data_word_word data 0 ltac:(lia)) as H0. pose proof (data_word_word data 1 ltac:(lia)) as H1.
  change (Z.of_nat 0 * 32) with 0 in H0. change (Z.of_nat 1 * 32) with 32 in H1. rewrite H0, H1. clear H0 H1. cbn [rbind].
  destruct (word data 0) as [o1|]; [|by split; [split; [done|intros (?&?&[=]&_)]|eexists]].
  destruct (word data 1) as [o2|]; [|by split; [split; [done|intros (?&?&_&[=]&_)]|eexists]].
  cbn [fmap option_fmap option_map].
  pose proof (readArr_cases data _ (int64_range (SetBytes o1)) Hl) as C1.
  pose proof (readArr_cases data _ (int64_range (SetBytes o2)) Hl) as C2.
  assert (Hex : (∃ o1' o2', Some o1 = Some o1' ∧ Some o2 = Some o2' ∧
     (near_top (int64_of (SetBytes o1')) ∨ near_top (int64_of (SetBytes o2')))) ↔
     near_top (int64_of (SetBytes o1)) ∨ near_top (int64_of (SetBytes o2))).
  { split; [by intros (? & ? & [= <-] & [= <-] & ?)|]. intros H. by exists o1, o2. }
  rewrite Hex. clear Hex. destruct C1 as [[Hn1 ->]|[Hn1 [r1 ->]]]; cbn [rbind]; [by split; [split; [by left|done]|]|].
  destruct C2 as [[Hn2 ->]|[Hn2 [r2 ->]]]; cbn [rbind]; [by split; [split; [by right|done]|]|].
  split; [split|].
  - by destruct r1, r2.
  - by intros [?|?].
  - intros _. destruct r1, r2; by eexists.
Qed.

(** C32: Chunking a log scan loses and repeats nothing.  The scan of a range
    that does not come within a span of 2^64 asks the node for consecutive
    chunks, each of at most the configured span, disjoint, and together the
    range, of the smallest number that the span allows; it is the sequence of
    these questions, whatever the node answers.  On a node that serves one set
    of logs, and a listen for that token and account, none of the logs crashing
    the classifier, it ends in exactly the state
    that recording the logs of the whole range in order gives. *)
Theorem log_scan_covers_range cfg a asset (logs : Z → list Log) from to (w : RWorld N) :
  0 ≤ from ≤ to → to + log_span cfg ≤ 2 ^ 64 →
  (∃ chunks, partitions (log_span cfg) from to chunks ∧ Z.of_nat (length chunks) = (to - from) / log_span cfg + 1 ∧
     scanRangeLogs cfg from to w = ask_chunks chunks w) ∧
  (serves_logs (N := N) a asset logs → listens_for a asset (rw_state w) →
   (∀ l, l ∈ window_logs logs from to → is_ok (classifyLog (rw_state w) l) = true) →
   ∃ tr, scanRangeLogs cfg from to w = (Ok tt, tr) ∧
         quiet (rw_state (after w tr)) = quiet (foldl record_log (rw_state w) (window_logs logs from to))).
Proof.
  intros Hr Hto. assert (Hspan : 0 < log_span cfg) by (unfold log_span; destruct (Z.leb_spec (rd_MaxLogRange cfg) 0); lia).
  split.
  - destruct (scan_chunks_questions (log_span cfg) to (S (Z.to_nat (to - from + 1))) from Hspan Hr Hto ltac:(lia)) as (chunks & H1 & H2 & H3).
    exists chunks. split_and!; [done..|apply H3].
  - intros Hserve Hs Hok.
    destruct (wp_scan_chunks_all a asset logs Hserve (log_span cfg) to (S (Z.to_nat (to - from + 1))) (rw_state w) from Hs Hspan Hr Hto
                ltac:(lia) Hok w eq_refl) as [_ H].
    unfold scanRangeLogs. destruct (scan_chunks _ _ _ _ w) as [[[]|e] tr]; [|done]. by exists tr.
Qed.
End Properties.
