(* ===== verification/ReceiveEnds.v ===== *)
(** * The end of a listen

    First a sample chain: one block in which the account sends 5 wei and pays a
    fee of 21, seen through a node with a clock that a sleep moves, on which the
    properties of a listen are evaluated.  Then the proof that a listen with a
    timeout ends: every turn moves the clock, so the deadline bounds the number
    of turns. *)

From S2P Require Import Prelude GoStrings Decimal HexBytes PolicyTypes Domain Trace Calldata Gas Journal JournalFacts Service TxStatus Send TokenSend ServiceSamples WaitProps Receive ReceiveProps ReceiveScans.

Local Open Scope string_scope.
Local Open Scope Z_scope.
Local Open Scope list_scope.
Local Open Scope go_scope.

(** a function with the published selectors and topics *)
Definition published (sig : string) : string :=
  if bool_decide (sig = sigTransfer) then be_bytes 4 0xa9059cbb
  else if bool_decide (sig = sigApprove) then be_bytes 4 0x095ea7b3
  else if bool_decide (sig = sigSafeTransferFrom721) then be_bytes 4 0x42842e0e
  else if bool_decide (sig = sigSafeTransferFrom1155) then be_bytes 4 0xf242432a
  else if bool_decide (sig = "Transfer(address,address,uint256)")
  then be_bytes 32 0xddf252ad1be2c89b69c2b068fc378daa952ba7f163c4a11628f55a4df523b3ef
  else if bool_decide (sig = "TransferSingle(address,address,address,uint256,uint256)")
  then be_bytes 32 0xc3d58168c5ae7397731d063d5bbf3d657854427343f4c083240f7aacaa2d0f62
  else be_bytes 32 0x4a39dc06d4c0dbc64b70af90fd698a233a518aa5d07e595d983b8c0526c8f7fb.

#[export] Instance published_keccak : Keccak := {|
  Keccak256 := published;
  Keccak_transfer := eq_refl; Keccak_approve := eq_refl;
  Keccak_safe721 := eq_refl; Keccak_safe1155 := eq_refl;
|}.

(** a node on one chain whose head is [head t] at the time [t] *)
Definition ledger_env (L : Ledger) (head : Z → Z) : Environment Z := {|
  cc_Nonce := cc_Nonce (Environment := sample_outside);
  cc_Receipt := λ h t, (Ok (Some (le_receipt L h)), t);
  cc_BlockNumber := λ t, (Ok (head t), t);
  cc_EstimateGas := cc_EstimateGas (Environment := sample_outside);
  cc_SuggestFees := cc_SuggestFees (Environment := sample_outside);
  cc_SuggestGasPrice := cc_SuggestGasPrice (Environment := sample_outside);
  cc_SendRawTransaction := cc_SendRawTransaction (Environment := sample_outside);
  SignTx := SignTx (Environment := sample_outside);
  sleep := λ d t, (None, t + Z.max 0 d);
  clock := λ t, (t, t);
  reservation_ulid := reservation_ulid (Environment := sample_outside);
  journal_ulid := journal_ulid (Environment := sample_outside);
  policy_io := policy_io (Environment := sample_outside);
  journal_io := journal_io (Environment := sample_outside);
  nonce_io := nonce_io (Environment := sample_outside);
|}.

(** a signature is the sender itself; [logs] answers the filters *)
Definition ledger_watcher (L : Ledger) (head : Z → Z) (logs : FilterQuery → list Log) : Watcher Z := {|
  cc_Balance := λ _ b t, (Ok (le_balance L (default (head t) b)), t);
  cc_BlockByNumber := λ n t, (Ok (Some (le_block L n)), t);
  cc_FilterLogs := λ q t, (Ok (logs q), t);
  Sender := λ _ tx, Some (SetBytes (bt_Signature tx));
|}.

#[export] Instance list_range : RangeOrder Z := {| range := λ _ m, map_to_list m; range_perm := λ _ m, reflexivity _ |}.

Definition spend_tx : BlockTx := mkBlockTx 11 (Some 9) 5 1 (be_bytes 1 1).
Definition spend_ledger : Ledger := {|
  le_block := λ n, mkBlock n (if n =? 100 then [spend_tx] else []);
  le_receipt := λ h, mkCReceipt 1 100 100 21 (Some 1);
  le_balance := λ n, if n <? 100 then 1000 else 974;
|}.

Definition eth_asset : listenAsset := mkListenAsset "eth" 0 "" 0 "".
Definition eth_listen : Listen := mkListen "main" 1 1 "w/0" eth_asset.
Definition any_request : ReceiveRequest := mkReceiveRequest "w/0" false "" "" "" false "" "" None 0 None "" "".
Definition sample_receive : ReceiveDefaults := mkReceiveDefaults 4000000000 1000 0 0.
Definition blank_state : receiveState := init_state eth_listen ModeAny None 1 100.
Definition blank_world : RWorld Z := mkRWorld blank_state [] 0.

(** ** Witnesses *)

Section Witnesses.
#[local] Existing Instance ascii_tables.
#[local] Existing Instance geth_ref.
#[local] Instance spend_env : Environment Z := ledger_env spend_ledger (λ _, 100).
#[local] Instance spend_watcher : Watcher Z := ledger_watcher spend_ledger (λ _, 100) (λ _, []).

Lemma spend_honest : honest (N := Z) spend_ledger 1.
Proof. split; done. Qed.

Lemma spend_ins n : 100 ≤ n ≤ 100 → ins spend_ledger 1 n = [].
Proof. intros Hn. by replace n with 100 by lia. Qed.

Definition spend_listen : RM (N := Z) (option ReceiveResult) :=
  Receive sample_receive sample_tx_config 1 any_request eth_listen.

Lemma own_spending_completes_listen_witness :
  ∃ r tr, spend_listen blank_world = (Ok (Some r), tr) ∧
    rr_Status r = "complete" ∧ rr_Transfers r = [detected (own_detection (N := Z) spend_ledger eth_listen 100 100)].
Proof.
  apply (own_spending_completes_listen spend_ledger sample_receive sample_tx_config 1 any_request eth_listen 100 100).
  - exact spend_honest.
  - reflexivity.
  - reflexivity.
  - reflexivity.
  - reflexivity.
  - reflexivity.
  - vm_compute. discriminate.
  - reflexivity.
  - lia.
  - lia.
  - exact spend_ins.
  - vm_compute. reflexivity.
Defined.

Lemma eth_scan_accounts_witness :
  (∃ tr, scanRangeETH 100 100 blank_world = (Ok tt, tr) ∧
         quiet (rw_state (after blank_world tr)) = quiet (scanned (N := Z) spend_ledger 1 1 100 100 blank_state)) ∧
  residue (N := Z) spend_ledger 1 1 0 100 100 =
    window (λ n, internal (N := Z) spend_ledger 1 1 n + reverted_out (N := Z) spend_ledger 1 1 n - reverted_in spend_ledger 1 n) 100 100
    + (1000 - 0).
Proof. apply (eth_scan_accounts spend_ledger 1 1 100 100 blank_world); [exact spend_honest|reflexivity|reflexivity|lia]. Defined.

Definition ended (x : res error (option ReceiveResult) * list (RWorld Z)) : bool :=
  match x.1 with Ok (Some _) => true | _ => false end.
Lemma spend_listen_ends :
  ended (Receive sample_receive sample_tx_config 1 any_request eth_listen blank_world) = true.
Proof. vm_compute. reflexivity. Qed.

Lemma receive_completion_sound_witness :
  ∃ r mode target from,
    ResolveReceiveMode any_request = Ok mode ∧ receiveTargetAmount "" eth_asset = Ok target ∧
    reports (N := Z) (init_state eth_listen mode target 1 from) from sample_receive r.
Proof.
  pose proof spend_listen_ends as Hend.
  pose proof (receive_completion_sound sample_receive sample_tx_config 1 any_request eth_listen blank_world) as H.
  revert Hend H.
  generalize (Receive sample_receive sample_tx_config 1 any_request eth_listen blank_world). intros [[[r|]|e] tr] Hend H.
  - exists r. exact (H r tr eq_refl).
  - discriminate Hend.
  - discriminate Hend.
Defined.

(** the same payment as above, still pending when the listen timed out at block
    100, and the resumed listen over a quiet chain whose head has moved on *)
Definition pending_payment : pending := mkPending 12 None 9 7 "" 100 100 AttribTx.
Definition timed_out_state : receiveState :=
  with_scanned (with_sets (init_state eth_listen ModeCumulative (Some 7) 2 100) 7 0
                  {[key pending_payment := pending_payment]} ∅) 100.
Definition resume_request : ReceiveRequest :=
  mkReceiveRequest "w/0" false "" "" "0.000000000000000007" false "" "" (Some 2) 1000000000 (Some 101) "" "".

Lemma resume_ends :
  ended (Receive sample_receive sample_tx_config 3 resume_request eth_listen blank_world) = true.
Proof. vm_compute. reflexivity. Qed.

Lemma spend_in_range : in_range (N := Z) sample_receive.
Proof.
  split; [by intros q n logs l [= <-] H%elem_of_nil|]. by intros n h [= <-].
Qed.

Lemma resumed_listen_misses_pending_witness :
  ∃ r, Forall (λ t, pd_block pending_payment < dt_Block t) (rr_Transfers r) ∧
       remaining timed_out_state = remaining (with_sets timed_out_state 7 0
         (delete (key pending_payment) (st_pending timed_out_state)) (st_confirmed timed_out_state)).
Proof.
  pose proof resume_ends as Hend.
  pose proof (λ r tr, resumed_listen_misses_pending sample_receive sample_tx_config 3 resume_request eth_listen blank_world r tr
    timed_out_state (key pending_payment) pending_payment spend_in_range (lookup_insert_eq _ _ _) (Z.le_refl 100) eq_refl) as H.
  revert Hend H.
  generalize (Receive sample_receive sample_tx_config 3 resume_request eth_listen blank_world).
  intros [[[r|]|e] tr] Hend H.
  - exists r. exact (H r tr eq_refl).
  - discriminate Hend.
  - discriminate Hend.
Defined.

Lemma resume_amount_exact_witness :
  receiveTargetAmount (humanAmount timed_out_state) eth_asset = Ok (Some 7).
Proof. apply (resume_amount_exact timed_out_state); [done|reflexivity]. Defined.

Lemma batch_roundtrip_witness : decode1155Batch (encodeBatch [5; 6] [1; 2]) = Ok (Some ([5; 6], [1; 2])).
Proof. apply (batch_roundtrip [5; 6] [1; 2]); [reflexivity|done|repeat constructor; done]. Defined.

(** offsets of 2^63 - 16 *)
Definition crashing_data : string := encode_words [2 ^ 63 - 16; 0].

Lemma batch_decoder_panics_witness :
  (decode1155Batch crashing_data = Err go_panic ↔
   ∃ o1 o2, word crashing_data 0 = Some o1 ∧ word crashing_data 1 = Some o2 ∧
            (near_top (int64_of (SetBytes o1)) ∨ near_top (int64_of (SetBytes o2)))) ∧
  (decode1155Batch crashing_data ≠ Err go_panic → ∃ r, decode1155Batch crashing_data = Ok r).
Proof. apply (batch_decoder_panics crashing_data). vm_compute. reflexivity. Defined.

(** two ERC-20 transfers in a range that takes two chunks *)
Definition token_asset : listenAsset := mkListenAsset KindERC20 7 "" 6 "".
Definition token_log (b : Z) : Log := mkLog [transferTopic0; 9; 1] (enc_word 3) b (20 + b) b 0 false.
Definition token_logs (b : Z) : list Log := if (b =? 100) || (b =? 2000) then [token_log b] else [].
Definition token_state : receiveState := init_state (mkListen "main" 1 1 "w/0" token_asset) ModeAny None 1 100.
#[local] Instance token_watcher : Watcher Z :=
  ledger_watcher spend_ledger (λ _, 100) (λ q, window_logs token_logs (fq_FromBlock q) (fq_ToBlock q)).

Lemma token_logs_ok l : l ∈ window_logs token_logs 100 2000 → is_ok (classifyLog token_state l) = true.
Proof.
  unfold window_logs. rewrite list_elem_of_In. intros (ls & Hls & Hl)%in_concat.
  apply in_map_iff in Hls as (b & <- & _). unfold token_logs in Hl.
  destruct (_ || _); [|done]. destruct Hl as [<-|[]]. reflexivity.
Qed.

Lemma log_scan_covers_range_witness :
  (∃ chunks, partitions 1000 100 2000 chunks ∧ length chunks = 2%nat ∧
     scanRangeLogs sample_receive 100 2000 (mkRWorld token_state [] 0) = ask_chunks chunks (mkRWorld token_state [] 0)) ∧
  ∃ tr, scanRangeLogs sample_receive 100 2000 (mkRWorld token_state [] 0) = (Ok tt, tr) ∧
        quiet (rw_state (after (mkRWorld token_state [] 0) tr)) =
        quiet (foldl record_log token_state (window_logs token_logs 100 2000)).
Proof.
  destruct (log_scan_covers_range sample_receive 1 token_asset token_logs 100 2000 (mkRWorld token_state [] 0) ltac:(lia) ltac:(done))
    as [(chunks & Hp & Hl & Hc) H].
  split; [exists chunks; split_and!; [exact Hp| |exact Hc]|apply H].
  - apply (f_equal Z.to_nat) in Hl. rewrite Nat2Z.id in Hl. exact Hl.
  - intros s lo hi x Hs. reflexivity.
  - split; reflexivity.
  - exact token_logs_ok.
Defined.
End Witnesses.

(** ** A listen with a timeout ends

    Whatever the node answers, a listen that was given a timeout returns within
    a number of turns the timeout and the poll interval bound: with a result, or
    with the error of the request, of a reply, or of a panic. *)

Local Open Scope string_scope.
Local Open Scope Z_scope.
Local Open Scope list_scope.
Local Open Scope go_scope.

(** time does not go back while the watched node answers *)
Record watch_timed {N : Type} {WA : Watcher N} (t : N → Z) : Prop := {
  wt_balance : ∀ a b n, t n ≤ t (cc_Balance a b n).2;
  wt_block : ∀ b n, t n ≤ t (cc_BlockByNumber b n).2;
  wt_logs : ∀ q n, t n ≤ t (cc_FilterLogs q n).2;
}.

(** an error that a reply of the node or a panic caused *)
Definition caused (e : error) : Prop := e = go_panic ∨ ∃ ge, e = mapRPCErr ge.

Lemma data_word_err data off e : data_word data off = Err e → e = go_panic.
Proof. unfold data_word. destruct (_ || _); [done|]. destruct (_ <? _); [|done]. by intros [= <-]. Qed.

Lemma read_words_err data n : ∀ off e, read_words data off n = Err e → e = go_panic.
Proof.
  induction n as [|n IH]; intros off e; cbn [read_words]; [done|].
  destruct (data_word data off) as [[v|]|e'] eqn:Ew; cbn [rbind]; [|done|intros [= <-]; by eapply data_word_err].
  destruct (read_words data (off + 32) n) as [r|e'] eqn:Er; cbn [rbind]; [done|]. intros [= <-]. by eapply IH.
Qed.

Lemma readArr_err data off e : readArr data off = Err e → e = go_panic.
Proof.
  unfold readArr. destruct (data_word data off) as [[v|]|e'] eqn:Ew; cbn [rbind]; [|done|intros [= <-]; by eapply data_word_err].
  cbn zeta. destruct (_ || _); [done|]. apply read_words_err.
Qed.

Lemma decode_err data e : decode1155Batch data = Err e → e = go_panic.
Proof.
  unfold decode1155Batch.
  destruct (data_word data 0) as [o1|e'] eqn:E1; cbn [rbind]; [|intros [= <-]; by eapply data_word_err].
  destruct (data_word data 32) as [o2|e'] eqn:E2; cbn [rbind]; [|intros [= <-]; by eapply data_word_err].
  destruct o1, o2; try done.
  destruct (readArr data _) as [ids|e'] eqn:E3; cbn [rbind]; [|intros [= <-]; by eapply readArr_err].
  destruct (readArr data _) as [vals|e'] eqn:E4 in |- *; cbn [rbind]; [|intros [= <-]; by eapply readArr_err].
  by destruct ids, vals.
Qed.

Lemma classifyLog_err `{UnicodeTables, GethCommon, Keccak} s l e : classifyLog s l = Err e → e = go_panic.
Proof.
  unfold classifyLog. destruct (lg_Removed l); [done|]. destruct (bool_decide _); [|by destruct (bool_decide _)].
  unfold classify1155. destruct (lg_Topics l) as [|t0 [|t1 [|t2 [|t3 [|]]]]]; try done.
  destruct (negb _); [done|]. destruct (t0 =? _).
  - destruct (_ <? _)%nat; [done|]. cbn zeta. destruct (negb _); [done|]. by destruct (_ =? 0).
  - destruct (t0 =? _); [|done]. destruct (decode1155Batch _) as [[[ids vals]|]|e'] eqn:Ed; cbn [rbind]; [by cbn zeta; destruct (_ =? 0)|done|].
    intros [= <-]. by eapply decode_err.
Qed.

Section Ends.
Context {N : Type} {UT : UnicodeTables} {GC : GethCommon} {KC : Keccak} {EV : Environment N} {WA : Watcher N}
        {RO : RangeOrder N}.
Variables (cfg : ReceiveDefaults) (t : N → Z).
Hypotheses (Ht : timed t) (Hw : watch_timed t).
Hypothesis Hhead : ∀ n h, (cc_BlockNumber (N := N) n).1 = Ok h → h + log_span cfg ≤ 2 ^ 64.

Definition rtime (w : RWorld N) : Z := t (rw_outside w).

(** an operation during which time does not go back and whose error has a cause *)
Definition steady {A} (m : RM (N := N) A) : Prop :=
  ∀ w, rtime w ≤ rtime (after w (m w).2) ∧ ∀ e, (m w).1 = Err e → caused e.

Lemma steady_bind {A B} (m : RM A) (f : A → RM B) : steady m → (∀ a, steady (f a)) → steady (mbind m f).
Proof.
  intros Hm Hf w. destruct (Hm w) as [H1 H2]. unfold mbind.
  destruct (m w) as [[a|e] tr]; [|split; [done|]; intros e' [= <-]; by apply H2].
  destruct (Hf a (after w tr)) as [H3 H4]. destruct (f a (after w tr)) as [r tr']. cbn [fst snd] in *.
  rewrite after_app. split; [lia|done].
Qed.

(** a reply that its continuation knows about *)
Lemma steady_query_bind {A B} (f : N → res GoError A * N) (k : A → RM (N := N) B) :
  (∀ n, t n ≤ t (f n).2) → (∀ a n, (f n).1 = Ok a → steady (k a)) → steady (mbind (query_rpc f) k).
Proof.
  intros Hf Hk w. specialize (Hf (rw_outside w)). unfold query_rpc, mbind, query, mlift.
  destruct (f (rw_outside w)) as [[a|ge] n] eqn:E; cbn [rpc fst snd app].
  - set (w1 := mkRWorld (rw_state w) (rw_events w) n).
    destruct (Hk a (rw_outside w) ltac:(by rewrite E) w1) as [H1 H2]. change (after (after w [w1]) []) with w1.
    change (after w [w1]) with w1. destruct (k a w1) as [r tr]. cbn [fst snd] in *. split; [|done].
    change (w1 :: [] ++ tr) with ([w1] ++ tr). pose proof (after_app w [w1] tr) as Ha. change (after w [w1]) with w1 in Ha.
    etrans; [|etrans; [exact H1|]]; [exact Hf|]. by apply Z.eq_le_incl, (f_equal rtime).
  - split; [|intros e [= <-]; right; by exists ge]. exact Hf.
Qed.

Lemma steady_ret {A} (a : A) : steady (mret a).
Proof. intros w. split; [done|]. intros e [=]. Qed.
Lemma steady_fail {A} e : caused e → steady (@mfail (RWorld N) A e).
Proof. intros He w. split; [done|]. by intros e' [= <-]. Qed.
Lemma steady_lift {A} (r : res error A) : (∀ e, r = Err e → caused e) → steady (mlift r).
Proof. intros He w. split; [done|]. by intros e ?%He. Qed.
Lemma steady_state : steady state.
Proof. intros w. split; [done|]. intros e [=]. Qed.
Lemma steady_entries m : steady (entries m).
Proof. intros w. split; [done|]. intros e [=]. Qed.
Lemma steady_modify f : steady (modify f).
Proof. intros w. split; [done|]. intros e [=]. Qed.
Lemma steady_emit e : steady (emit e).
Proof. intros w. split; [done|]. intros e' [=]. Qed.
Lemma steady_query {A} (f : N → A * N) : (∀ n, t n ≤ t (f n).2) → steady (query f).
Proof.
  intros H w. specialize (H (rw_outside w)). unfold query. destruct (f (rw_outside w)) as [a n]. split; [done|]. intros e [=].
Qed.
Lemma steady_query_rpc {A} (f : N → res GoError A * N) : (∀ n, t n ≤ t (f n).2) → steady (query_rpc f).
Proof.
  intros H. apply steady_bind; [by apply steady_query|]. intros [a|ge]; cbn [rpc]; apply steady_lift; [done|].
  intros e [= <-]. right. by exists ge.
Qed.
Lemma steady_mres {A} (m : RM (N := N) A) : steady m → steady (mres m).
Proof. intros H w. destruct (H w) as [H1 _]. unfold mres. destruct (m w). split; [done|]. intros e [=]. Qed.
Lemma steady_each {A} (f : A → RM (N := N) ()) l : (∀ x, steady (f x)) → steady (each f l).
Proof. intros H. induction l as [|x l IH]; cbn [each]; [apply steady_ret|by apply steady_bind]. Qed.

Lemma time_clock n : t n ≤ t (clock n).2.
Proof. apply (ti_clock _ Ht). Qed.
Lemma steady_clock : steady (query clock).
Proof. apply steady_query, time_clock. Qed.
Lemma steady_head : steady (query_rpc cc_BlockNumber).
Proof. apply steady_query_rpc, (ti_block _ Ht). Qed.
Lemma steady_balance a b : steady (query_rpc (cc_Balance a b)).
Proof. apply steady_query_rpc, (wt_balance _ Hw). Qed.
Lemma steady_block b : steady (query_rpc (cc_BlockByNumber b)).
Proof. apply steady_query_rpc, (wt_block _ Hw). Qed.
Lemma steady_logs q : steady (query_rpc (cc_FilterLogs q)).
Proof. apply steady_query_rpc, (wt_logs _ Hw). Qed.
Lemma steady_receipt h : steady (query_rpc (cc_Receipt h)).
Proof. apply steady_query_rpc, (ti_receipt _ Ht). Qed.
Lemma steady_receipt_raw h : steady (query (cc_Receipt h)).
Proof. apply steady_query, (ti_receipt _ Ht). Qed.
Lemma steady_sleep d : steady (query (sleep d)).
Proof. apply steady_query, (ti_sleep_err _ Ht). Qed.

Lemma caused_reply ge : caused (mapRPCErr ge).
Proof. right. by exists ge. Qed.
Lemma caused_panic : caused go_panic.
Proof. by left. Qed.

Create HintDb steady discriminated.
#[local] Hint Constants Opaque : steady.
#[local] Hint Resolve steady_ret steady_state steady_entries steady_modify steady_emit steady_clock steady_head steady_balance
  steady_block steady_logs steady_receipt steady_receipt_raw steady_sleep steady_fail caused_reply caused_panic : steady.

Ltac steady_step :=
  match goal with
  | |- steady (mbind _ _) => apply steady_bind; [|intros ?]
  | |- steady (if ?b then _ else _) => destruct b
  | |- steady (match ?x with _ => _ end) => destruct x
  | |- steady (let _ := _ in _) => cbn zeta
  | |- steady (mres _) => apply steady_mres
  | |- steady (each _ _) => apply steady_each; intros ?
  | |- _ => solve [eauto 3 with steady nocore]
  end.
Ltac steady := repeat steady_step.

Lemma steady_line e : steady (emit_line e).
Proof. unfold emit_line. steady. Qed.
#[local] Hint Resolve steady_line : steady.

Lemma steady_heartbeat : steady (maybeHeartbeat cfg).
Proof. unfold maybeHeartbeat. steady. Qed.
Lemma steady_record d : steady (recordDetection d).
Proof. unfold recordDetection, emitDetected. steady. Qed.
#[local] Hint Resolve steady_heartbeat steady_record : steady.

Lemma steady_scan_log l : steady (scan_log l).
Proof.
  unfold scan_log. apply steady_bind; [apply steady_state|]. intros s. apply steady_bind; [|intros d; steady].
  apply steady_lift. intros e ->%classifyLog_err. apply caused_panic.
Qed.
#[local] Hint Resolve steady_scan_log : steady.

(** the chunks of a range that ends a span below 2^64 run out before the fuel *)
Lemma steady_chunks span to fuel : ∀ lo, 0 < span → to + span ≤ 2 ^ 64 →
  (Z.to_nat (to - lo + 1) < fuel)%nat → steady (scan_chunks fuel span lo to).
Proof.
  induction fuel as [|fuel IH]; intros lo Hspan Hto Hf; [lia|]. cbn [scan_chunks].
  destruct (Z.leb_spec lo to); [|apply steady_ret]. cbn [negb]. cbn zeta. set (hi := if to <? _ then _ else _).
  apply steady_bind; [apply steady_state|]. intros s. apply steady_bind; [apply steady_logs|]. intros logs.
  apply steady_bind; [steady|]. intros _. destruct (Z.eqb_spec hi to) as [|Hne]; [apply steady_ret|].
  apply IH; [done|done|]. unfold wrap64 in *. pose proof (Z.mod_pos_bound (lo + span) (2 ^ 64) ltac:(lia)).
  destruct (Z.lt_ge_cases lo 0); [lia|]. destruct (Z.eq_dec lo to) as [->|].
  - exfalso. apply Hne. unfold hi. destruct (Z.ltb_spec to ((to + span - 1) mod 2 ^ 64)) as [|Hb]; [done|].
    rewrite Z.mod_small in * by lia. lia.
  - rewrite (Z.mod_small (lo + span)) by lia. lia.
Qed.

Lemma steady_fees blk l : ∀ total, steady (ownFeesActual blk l total).
Proof. induction l as [|h l IH]; intros total; cbn [ownFeesActual]; steady. Qed.
#[local] Hint Resolve steady_fees : steady.

Lemma steady_blocks l : ∀ acc, steady (scan_blocks l acc).
Proof. induction l as [|n l IH]; intros acc; cbn [scan_blocks]; unfold scanETHBlock; steady. Qed.
#[local] Hint Resolve steady_blocks : steady.

Lemma steady_scanRange from to : to + log_span cfg ≤ 2 ^ 64 → steady (scanRange cfg from to).
Proof.
  intros Hto. unfold scanRange. apply steady_bind; [apply steady_state|]. intros s. destruct (isETH _).
  - unfold scanRangeETH, emitBalanceDeltaWarn. steady.
  - apply steady_chunks; [|done|lia]. unfold log_span. destruct (Z.leb_spec (rd_MaxLogRange cfg) 0); lia.
Qed.

Lemma steady_recheck h test : steady (recheck_receipt h test).
Proof. unfold recheck_receipt. steady. Qed.
#[local] Hint Resolve steady_recheck : steady.
Lemma steady_reverify d : steady (reverify d).
Proof. unfold reverify. steady. Qed.
#[local] Hint Resolve steady_reverify : steady.
Lemma steady_recheck_confirmed e : steady (recheck_confirmed e).
Proof. unfold recheck_confirmed, emitReorged. steady. Qed.
Lemma steady_advance_pending head e : steady (advance_pending head e).
Proof. unfold advance_pending, emitReorged, emitConfirmed, emitConfirming. steady. Qed.
#[local] Hint Resolve steady_recheck_confirmed steady_advance_pending : steady.
Lemma steady_advance head : steady (advanceConfirmations head).
Proof. unfold advanceConfirmations. steady. Qed.
Lemma steady_complete : steady completeResult.
Proof. unfold completeResult. steady. Qed.
Lemma steady_timeout : steady timeoutResult.
Proof. unfold timeoutResult. steady. Qed.
#[local] Hint Resolve steady_advance steady_complete steady_timeout : steady.

Lemma steady_receiveStep : steady (receiveStep cfg).
Proof.
  unfold receiveStep. apply steady_query_bind; [apply (ti_block _ Ht)|]. intros head n Hn.
  apply Hhead in Hn. apply steady_bind; [apply steady_state|]. intros s.
  apply steady_bind; [|intros _; steady]. destruct (_ <? head); [|apply steady_ret].
  apply steady_bind; [by apply steady_scanRange|intros _; steady].
Qed.

(** ** Turns and the clock *)

(** the error of a failed action is known to its continuation *)
Lemma steady_mres_bind {A B} (m : RM (N := N) A) (k : res error A → RM (N := N) B) :
  steady m → (∀ r, (∀ e, r = Err e → caused e) → steady (k r)) → steady (mbind (mres m) k).
Proof.
  intros Hm Hk w. destruct (Hm w) as [H1 H2]. unfold mbind, mres. destruct (m w) as [r tr]. cbn [fst snd] in *.
  destruct (Hk r H2 (after w tr)) as [H3 H4]. destruct (k r (after w tr)) as [r' tr']. cbn [fst snd] in *.
  rewrite after_app. split; [lia|done].
Qed.

(** what follows the pass of a turn *)
Definition turn_rest (d poll : Z) : RM (N := N) (option ReceiveResult) :=
  late <-- (now <-- query clock ;; mret (negb (now <? d))) ;;
  if late then r <-- timeoutResult ;; mret (Some r)
  else s <-- query (sleep poll) ;; match s with Some _ => r <-- timeoutResult ;; mret (Some r) | None => mret None end.

Lemma steady_rest d poll : steady (turn_rest d poll).
Proof. unfold turn_rest. steady. Qed.

Lemma steady_turn d poll : steady (receive_turn cfg (Some d) poll).
Proof.
  unfold receive_turn. apply steady_mres_bind; [apply steady_receiveStep|]. fold (turn_rest d poll).
  pose proof (steady_rest d poll) as Hrest. intros [[r|]|e] He; [steady|by apply steady_bind; [steady|intros _]|].
  apply steady_bind; [|by intros _]. destruct (isRetryableRPC e); [apply steady_heartbeat|by apply steady_fail, He].
Qed.

Lemma query_run {A} (f : N → A * N) w : query f w = (Ok (f (rw_outside w)).1, [mkRWorld (rw_state w) (rw_events w) (f (rw_outside w)).2]).
Proof. unfold query. by destruct (f (rw_outside w)). Qed.

Lemma rest_waits d poll w tr :
  turn_rest d poll w = (Ok None, tr) → rtime w < d ∧ rtime w + poll ≤ rtime (after w tr).
Proof.
  intros H. unfold turn_rest in H. apply mbind_ok in H as (late & t1 & t2 & Hl & H & ->).
  apply mbind_ok in Hl as (now & t3 & t4 & Hq & Hl & ->). rewrite query_run in Hq. injection Hq as <- <-.
  apply mret_ok in Hl as [-> ->]. cbn [app] in *. set (w1 := mkRWorld _ _ _) in *. change (after w [w1]) with w1 in H.
  destruct (ti_clock _ Ht (rw_outside w)) as [Hc Hc']. change (t (rw_outside w)) with (rtime w) in *.
  rewrite Hc in H. destruct (Z.ltb_spec (rtime w) d) as [Hlt|]; cbn [negb] in H.
  2:{ exfalso. apply mbind_ok in H as (r & ? & ? & _ & H & _). by apply mret_ok in H as [[=] _]. }
  apply mbind_ok in H as (s & t5 & t6 & Hs & H & ->). rewrite query_run in Hs. injection Hs as Hs <-.
  destruct s; [exfalso; apply mbind_ok in H as (r & ? & ? & _ & H & _); by apply mret_ok in H as [[=] _]|].
  apply mret_ok in H as [_ ->]. split; [done|]. change (rtime w + poll ≤ t (sleep poll (rw_outside w1)).2).
  assert (Es : sleep poll (rw_outside w1) = (None, (sleep poll (rw_outside w1)).2)).
  { etrans; [apply surjective_pairing|]. f_equal. exact Hs. }
  pose proof (ti_sleep _ Ht _ _ _ Es) as Hsl. assert (t (rw_outside w1) = t (clock (rw_outside w)).2) by done. lia.
Qed.

Lemma turn_waits d poll w tr :
  receive_turn cfg (Some d) poll w = (Ok None, tr) → rtime w < d ∧ rtime w + poll ≤ rtime (after w tr).
Proof.
  intros H. unfold receive_turn in H. fold (turn_rest d poll) in H. apply mbind_ok in H as (r & t1 & t2 & Hr & H & ->).
  destruct (steady_mres _ steady_receiveStep w) as [Hs _]. rewrite Hr in Hs. cbn [snd] in Hs. rewrite after_app.
  assert (Hx : ∀ m, steady m → mbind m (λ _ : (), turn_rest d poll) (after w t1) = (Ok None, t2) →
    rtime w < d ∧ rtime w + poll ≤ rtime (after (after w t1) t2)).
  { intros m Hm Hb. apply mbind_ok in Hb as ([] & t3 & t4 & Ha & Hb & ->). apply rest_waits in Hb.
    destruct (Hm (after w t1)) as [Hm' _]. rewrite Ha in Hm'. cbn [snd] in Hm'. rewrite after_app. lia. }
  destruct r as [[r|]|e]; [by apply mret_ok in H as [[=] _]|by apply (Hx _ (steady_ret tt))|].
  destruct (isRetryableRPC e); [by apply (Hx _ steady_heartbeat)|].
  apply mbind_ok in H as (? & ? & ? & [=] & _).
Qed.

(** a run that has ended *)
Definition over (o : res error (option ReceiveResult)) : Prop :=
  match o with Ok None => False | Ok (Some _) => True | Err e => caused e end.

Lemma loop_ends d poll k : ∀ w, 0 < poll → d - rtime w ≤ Z.of_nat k * poll →
  ∃ o tr, over o ∧ ∀ rounds, (k < rounds)%nat → receiveLoop cfg rounds (Some d) poll w = (o, tr).
Proof.
  induction k as [|k IH]; intros w Hpoll Hd; destruct (receive_turn cfg (Some d) poll w) as [r t1] eqn:E;
    pose proof (steady_turn d poll w) as [Hst He]; rewrite E in Hst, He; cbn [fst snd] in Hst, He.
  all: assert (Hdone : ∀ o, r = o → (match o with Ok None => False | _ => True end) →
    ∃ o tr, over o ∧ ∀ rounds, (0 < rounds)%nat → receiveLoop cfg rounds (Some d) poll w = (o, tr)).
  1,3: intros [[x|]|e] -> Ho; [|done|];
       [exists (Ok (Some x)), (t1 ++ [])|exists (Err e), t1]; (split; [by apply He || done|]); intros [|m] Hm; try lia;
       cbn [receiveLoop]; [by rewrite (mbind_run _ _ _ _ _ E)|by rewrite (mbind_fail _ _ _ _ _ E)].
  - destruct r as [[x|]|e]; [by apply (Hdone _ eq_refl)|apply turn_waits in E; lia|by apply (Hdone _ eq_refl)].
  - destruct r as [[x|]|e]; [edestruct (Hdone _ eq_refl I) as (o & tr & ? & H)| |edestruct (Hdone _ eq_refl I) as (o & tr & ? & H)];
      try (exists o, tr; split; [done|intros; apply H; lia]).
    destruct (turn_waits _ _ _ _ E) as [_ Hadv]. destruct (IH (after w t1) Hpoll) as (o & tr & Ho & H); [lia|].
    exists o, (t1 ++ tr). split; [done|]. intros [|m] Hm; [lia|]. cbn [receiveLoop]. rewrite (mbind_run _ _ _ _ _ E).
    by rewrite H by lia.
Qed.
End Ends.

Section Properties.
Context {N : Type} {UT : UnicodeTables} {GC : GethCommon} {KC : Keccak} {EV : Environment N} {WA : Watcher N}
        {RO : RangeOrder N}.

(** how a listen can end: with a result, or with an error that the request, a
    reply or a panic caused *)
Definition ends_well (req : ReceiveRequest) (l : Listen) (o : res error (option ReceiveResult)) : Prop :=
  match o with
  | Ok None => False
  | Ok (Some _) => True
  | Err e => caused e ∨ ResolveReceiveMode req = Err e ∨ receiveTargetAmount (rq_Amount req) (li_asset l) = Err e
  end.

(** the same end for every number of turns above a bound *)
Definition settles (P : res error (option ReceiveResult) → Prop) (bound : nat)
    (f : nat → RM (N := N) (option ReceiveResult)) (w : RWorld N) : Prop :=
  ∃ o tr, P o ∧ ∀ rounds, (bound < rounds)%nat → f rounds w = (o, tr).

Lemma settles_bind {A} (P : res error (option ReceiveResult) → Prop) k (m : RM (N := N) A) (f : nat → A → RM (N := N) (option ReceiveResult)) w :
  (∀ e tr, m w = (Err e, tr) → P (Err e)) →
  (∀ a tr, m w = (Ok a, tr) → settles P k (λ rounds, f rounds a) (after w tr)) →
  settles P k (λ rounds, mbind m (f rounds)) w.
Proof.
  intros He Hf. destruct (m w) as [[a|e] t1] eqn:E.
  - destruct (Hf a t1 eq_refl) as (o & tr & Ho & H). exists o, (t1 ++ tr). split; [done|].
    intros rounds Hr. rewrite (mbind_run _ _ _ _ _ E). by rewrite (H rounds Hr).
  - exists (Err e), t1. split; [by eapply He|]. intros rounds _. by rewrite (mbind_fail _ _ _ _ _ E).
Qed.

Lemma settles_steady {A} (t : N → Z) req l k (m : RM (N := N) A) (f : nat → A → RM (N := N) (option ReceiveResult)) w :
  steady t m →
  (∀ a tr, m w = (Ok a, tr) → settles (ends_well req l) k (λ rounds, f rounds a) (after w tr)) →
  settles (ends_well req l) k (λ rounds, mbind m (f rounds)) w.
Proof.
  intros Hm. apply settles_bind. intros e tr E. destruct (Hm w) as [_ He]. rewrite E in He. left. by apply He.
Qed.

(** the turns a listen can take *)
Definition turn_bound (cfg : ReceiveDefaults) (timeout : Z) : nat :=
  Z.to_nat (timeout / floorPoll (rd_PollInterval cfg)) + 1.

(** C31: a listen with a timeout ends.  When the clock does not go back, a sleep
    that is not interrupted lasts as long as asked, and the head stays a chunk
    below 2^64, a listen that was given a timeout returns within the timeout
    divided by the poll interval (at least a tenth of a second), plus two turns,
    whatever the node answers: with a result, or with the error of the request,
    of a reply, or of a panic, and never out of an endless loop over chunks. *)
Theorem receive_terminates (t : N → Z) cfg txcfg req (l : Listen) (w : RWorld N) :
  timed t → watch_timed t → (∀ n h, (cc_BlockNumber (N := N) n).1 = Ok h → h + log_span cfg ≤ 2 ^ 64) →
  0 < rq_Timeout req →
  settles (ends_well req l) (turn_bound cfg (rq_Timeout req)) (λ rounds, Receive cfg txcfg rounds req l) w.
Proof.
  intros Ht Hw Hhead Hto. unfold Receive. apply settles_bind; [by intros e tr [= He _]; right; left|]. intros mode t1 _.
  apply settles_bind; [by intros e tr [= He _]; right; right|]. intros target t2 _.
  apply (settles_steady t); [by apply steady_head|]. intros head t3 _. cbn zeta.
  apply (settles_steady t); [apply steady_modify|]. intros _ t4 _.
  apply (settles_steady t).
  { destruct (isETH _); [|apply steady_ret]. apply steady_bind; [by apply steady_balance|]. intros. apply steady_modify. }
  intros _ t5 _. apply (settles_steady t); [by apply steady_line|]. intros _ t6 _.
  apply Z.ltb_lt in Hto as Hto'. rewrite Hto'. generalize (after (after (after (after (after (after w t1) t2) t3) t4) t5) t6).
  intros w1. apply (settles_steady t); [apply steady_bind; [by apply steady_clock|intros; apply steady_ret]|].
  intros deadline t7 Hd. apply mbind_ok in Hd as (now & t8 & t9 & Hq & Hd & ->). rewrite query_run in Hq. injection Hq as <- <-.
  apply mret_ok in Hd as [-> ->]. cbn [app]. set (w2 := mkRWorld (rw_state w1) _ _).
  change (after w1 [w2]) with w2. apply (settles_steady t); [by apply steady_clock|]. intros now t8 Hq.
  destruct (steady_clock t Ht w2) as [Hclk _]. rewrite Hq in Hclk. cbn [snd] in Hclk.
  apply (settles_steady t); [apply steady_modify|]. intros [] t9 Hm. injection Hm as <-.
  assert (Hp : 100000000 ≤ floorPoll (rd_PollInterval cfg)) by apply floorPoll_pos.
  set (poll := floorPoll _) in *. match goal with |- settles _ _ _ (after _ [?x]) => set (w3 := x) end.
  destruct (ti_clock _ Ht (rw_outside w1)) as [Hc Hc'].
  destruct (loop_ends cfg t Ht Hw Hhead (t (rw_outside w1) + rq_Timeout req) poll (turn_bound cfg (rq_Timeout req)) w3) as (o & tr & Ho & H).
  - lia.
  - assert (t (rw_outside w1) ≤ rtime t w3).
    { change (rtime t w3) with (rtime t (after w2 t8)). change (rtime t w2) with (t (clock (rw_outside w1)).2) in Hclk. lia. }
    unfold turn_bound. fold poll. pose proof (Z.div_pos (rq_Timeout req) poll ltac:(lia) ltac:(lia)).
    pose proof (Z.mod_pos_bound (rq_Timeout req) poll ltac:(lia)). pose proof (Z.div_mod (rq_Timeout req) poll ltac:(lia)). nia.
  - exists o, tr. split; [destruct o as [[x|]|e]; [done|done|by left]|]. intros rounds Hr. rewrite Hc. by apply H.
Qed.
End Properties.

(** ** Witness *)

Section Witness.
#[local] Existing Instance ascii_tables.
#[local] Existing Instance geth_ref.
#[local] Instance quiet_env : Environment Z := ledger_env spend_ledger (λ _, 100).
#[local] Instance quiet_watcher : Watcher Z := ledger_watcher spend_ledger (λ _, 100) (λ _, []).

Lemma quiet_timed : timed (N := Z) (λ t, t).
Proof. split; try by (intros; cbn; lia). intros d n n' [= <-]. lia. Qed.

Lemma receive_terminates_witness :
  settles (N := Z) (ends_well resume_request eth_listen) 1
    (λ rounds, Receive sample_receive sample_tx_config rounds resume_request eth_listen) blank_world.
Proof.
  apply (receive_terminates (λ t, t) sample_receive sample_tx_config resume_request eth_listen blank_world).
  - exact quiet_timed.
  - split; intros; cbn; lia.
  - by intros n h [= <-].
  - reflexivity.
Defined.
End Witness.
