(* ===== verification/Qr.v ===== *)
(** * The terminal QR code of an address

    The encoder of [internal/cli/render/qr.go]: the byte-mode bit stream, the
    error-correction codewords, the placement of the modules, the choice of
    the data mask and the half-block text.  A slice index out of range is a
    run-time panic in Go; the functions that index slices return [None] there.
    [None] is also the answer of a loop that runs out of fuel. *)

From S2P Require Import Prelude GoStrings.

Local Open Scope string_scope.
Local Open Scope list_scope.
Local Open Scope Z_scope.

(** ** Slices and loops *)

(** [l[i]] *)
Definition at_index {A} (l : list A) (i : Z) : option A :=
  if i <? 0 then None else l !! Z.to_nat i.

(** [l[i] = x] *)
Definition set_index {A} (l : list A) (i : Z) (x : A) : option (list A) :=
  if (0 <=? i) && (i <? Z.of_nat (length l)) then Some (<[Z.to_nat i := x]> l) else None.

(** [l[a:b]], within the length of [l] *)
Definition slice {A} (l : list A) (a b : Z) : option (list A) :=
  if (0 <=? a) && (a <=? b) && (b <=? Z.of_nat (length l))
  then Some (take (Z.to_nat (b - a)) (drop (Z.to_nat a) l)) else None.

(** [for _, a := range l { body }] over the variables [s] *)
Fixpoint for_each {A St} (l : list A) (body : A → St → option St) (s : St) : option St :=
  match l with
  | [] => Some s
  | a :: l => s' ← body a s; for_each l body s'
  end.

(** [for i := a; i < b; i++ { body }] *)
Definition for_range {St} (a b : Z) (body : Z → St → option St) (s : St) : option St :=
  for_each (seqZ a (b - a)) body s.

(** ** Tables of level M, versions 1 to 10 *)

Definition capByteM : list Z := [14; 26; 42; 62; 84; 106; 122; 152; 180; 213].
Definition dataCodewordsM : list Z := [16; 28; 44; 64; 86; 108; 124; 154; 182; 216].
Definition ecPerBlockM : list Z := [10; 16; 26; 18; 24; 16; 18; 22; 22; 26].

Record blockLayout := mkLayout { bl_g1 : Z; bl_g1cw : Z; bl_g2 : Z; bl_g2cw : Z }.

Definition blocksM : list blockLayout := [
  mkLayout 1 16 0 0; mkLayout 1 28 0 0; mkLayout 1 44 0 0; mkLayout 2 32 0 0;
  mkLayout 2 43 0 0; mkLayout 4 27 0 0; mkLayout 4 31 0 0; mkLayout 2 38 2 39;
  mkLayout 3 36 2 37; mkLayout 4 43 1 44 ].

Definition alignmentCenters : list (list Z) := [
  []; [6; 18]; [6; 22]; [6; 26]; [6; 30]; [6; 34];
  [6; 22; 38]; [6; 24; 42]; [6; 26; 46]; [6; 28; 50] ].

Definition formatStringsM : list Z :=
  [0x5412; 0x5125; 0x5E7C; 0x5B4B; 0x45F9; 0x40CE; 0x4F97; 0x4AA0].

Definition versionInfo (ver : Z) : option Z :=
  match ver with
  | 7 => Some 0x07C94
  | 8 => Some 0x085BC
  | 9 => Some 0x09A99
  | 10 => Some 0x0A4D3
  | _ => None
  end.

(** ** The bit stream *)

(** the smallest version, from [v] on, whose capacity holds [n] bytes *)
Fixpoint pick_from (caps : list Z) (v n : Z) : Z :=
  match caps with
  | [] => 0
  | c :: caps => if n <=? c then v else pick_from caps (v + 1) n
  end.

Definition pickVersion (n : Z) : Z := pick_from capByteM 1 n.

(** the bits of [v] from bit [n-1] down to bit 0 *)
Definition appendBits (bits : list bool) (v : Z) (n : Z) : list bool :=
  bits ++ map (Z.testbit v) (rev (seqZ 0 n)).

(** the loop over the alternating pad bytes *)
Fixpoint pad_bytes (fuel : nat) (i capBits : Z) (bits : list bool) : option (list bool) :=
  if Z.of_nat (length bits) <? capBits then
    match fuel with
    | O => None
    | S fuel => pad_bytes fuel (i + 1) capBits (appendBits bits (if i mod 2 =? 0 then 0xEC else 0x11) 8)
    end
  else Some bits.

Definition buildDataBits (data : list Z) (ver : Z) : option (list bool) :=
  let bits := appendBits [] 4 4 in
  let ccLen := if 10 <=? ver then 16 else 8 in
  let bits := appendBits bits (Z.of_nat (length data)) ccLen in
  let bits := foldl (λ bits b, appendBits bits b 8) bits data in
  dcw ← at_index dataCodewordsM (ver - 1);
  let capBits := dcw * 8 in
  let term := capBits - Z.of_nat (length bits) in
  let term := if 4 <? term then 4 else term in
  let bits := if 0 <? term then appendBits bits 0 term else bits in
  let rem := Z.of_nat (length bits) mod 8 in
  let bits := if negb (rem =? 0) then appendBits bits 0 (8 - rem) else bits in
  pad_bytes (Z.to_nat capBits) 0 capBits bits.

(** the byte the eight bits from [i*8] on make, bits past the end being 0 *)
Definition codeword (bits : list bool) (i : Z) : Z :=
  foldl (λ b j, if default false (at_index bits (i * 8 + j)) then Z.lor b (Z.shiftl 1 (7 - j)) else b)
        0 (seqZ 0 8).

Definition bitsToCodewords (bits : list bool) (n : Z) : list Z :=
  map (codeword bits) (seqZ 0 n).

(** ** Reed-Solomon over GF(256) *)

(** the loop of [init] that fills the first 255 entries: the values written
    to [gfExp] in order, and the table [gfLog] *)
Fixpoint gf_init (n : nat) (i x : Z) (log : list Z) : list Z * list Z :=
  match n with
  | O => ([], log)
  | S n =>
      let log := <[Z.to_nat x := i]> log in
      let x' := Z.shiftl x 1 in
      let x' := if negb (Z.land x' 0x100 =? 0) then Z.lxor x' 0x11D else x' in
      let '(exp, log) := gf_init n (i + 1) x' log in
      (x :: exp, log)
  end.

Definition gf_tables : list Z * list Z := gf_init 255 0 1 (replicate 256 0).

(** entries 255 to 511 repeat the first ones *)
Definition gfExp : list Z := let e := gf_tables.1 in e ++ e ++ take 2 e.
Definition gfLog : list Z := gf_tables.2.

Definition exp_at (i : Z) : Z := nth (Z.to_nat i) gfExp 0.
Definition log_at (a : Z) : Z := nth (Z.to_nat a) gfLog 0.

(** Bytes index the tables, so no index is out of range. *)
Definition gfMul (a b : Z) : Z :=
  if (a =? 0) || (b =? 0) then 0 else exp_at (log_at a + log_at b).

(** one turn of the loop of [rsGenerator]: [next[j] ^= g[j]*root; next[j+1] ^= g[j]] *)
Definition times_root (root : Z) (g : list Z) : list Z :=
  zip_with Z.lxor (map (λ c, gfMul c root) g ++ [0]) (0 :: g).

Definition rsGenerator (n : Z) : list Z :=
  foldl (λ g i, times_root (exp_at i) g) [1] (seqZ 0 n).

Definition reedSolomon (data : list Z) (n : Z) : option (list Z) :=
  let gen := rsGenerator n in
  let len := Z.of_nat (length data) in
  rem ← for_range 0 len (λ i rem,
    coef ← at_index rem i;
    if coef =? 0 then Some rem else
    for_range 0 (Z.of_nat (length gen)) (λ j rem,
      g ← at_index gen j; r ← at_index rem (i + j);
      set_index rem (i + j) (Z.lxor r (gfMul g coef))) rem)
    (data ++ replicate (Z.to_nat n) 0);
  slice rem len (Z.of_nat (length rem)).

(** ** Interleaving *)

Record block := mkBlock { bk_data : list Z; bk_ec : list Z }.

(** [addBlocks] *)
Definition addBlocks (dataCW : list Z) (ecLen : Z) (count cw : Z) (s : Z * list block)
    : option (Z * list block) :=
  for_range 0 count (λ _ '(pos, blocks),
    d ← slice dataCW pos (pos + cw);
    ec ← reedSolomon d ecLen;
    Some (pos + cw, blocks ++ [mkBlock d ec])) s.

Definition interleave (dataCW : list Z) (vi : Z) : option (list Z) :=
  lay ← at_index blocksM vi;
  ecLen ← at_index ecPerBlockM vi;
  s ← addBlocks dataCW ecLen (bl_g1 lay) (bl_g1cw lay) (0, []);
  s ← (if 0 <? bl_g2 lay then addBlocks dataCW ecLen (bl_g2 lay) (bl_g2cw lay) s else Some s);
  let blocks := s.2 in
  let maxData := if bl_g1cw lay <? bl_g2cw lay then bl_g2cw lay else bl_g1cw lay in
  out ← for_range 0 maxData (λ c out,
    for_each blocks (λ bl out,
      if c <? Z.of_nat (length (bk_data bl))
      then b ← at_index (bk_data bl) c; Some (out ++ [b])
      else Some out) out) [];
  for_range 0 ecLen (λ c out,
    for_each blocks (λ bl out, b ← at_index (bk_ec bl) c; Some (out ++ [b])) out) out.

(** ** The matrix *)

Record matrix := mkMatrix { m_size : Z; m_val : list (list bool); m_fn : list (list bool) }.

Definition blank (size : Z) : list (list bool) :=
  replicate (Z.to_nat size) (replicate (Z.to_nat size) false).

Definition newMatrix (size : Z) : matrix := mkMatrix size (blank size) (blank size).

(** [g[y][x]] and [g[y][x] = b] *)
Definition get2 (g : list (list bool)) (y x : Z) : option bool := row ← at_index g y; at_index row x.
Definition put2 (g : list (list bool)) (y x : Z) (b : bool) : option (list (list bool)) :=
  row ← at_index g y; row' ← set_index row x b; set_index g y row'.

Definition put_val (y x : Z) (b : bool) (m : matrix) : option matrix :=
  v ← put2 (m_val m) y x b; Some (mkMatrix (m_size m) v (m_fn m)).
Definition put_fn (y x : Z) (m : matrix) : option matrix :=
  f ← put2 (m_fn m) y x true; Some (mkMatrix (m_size m) (m_val m) f).

Definition set (x y : Z) (dark fnmod : bool) (m : matrix) : option matrix :=
  m ← put_val y x dark m;
  if fnmod then put_fn y x m else Some m.

Definition finder_dark (dx dy : Z) : bool :=
  (0 <=? dx) && (dx <=? 6) && (0 <=? dy) && (dy <=? 6) &&
  ((dx =? 0) || (dx =? 6) || (dy =? 0) || (dy =? 6) ||
   ((2 <=? dx) && (dx <=? 4) && (2 <=? dy) && (dy <=? 4))).

Definition placeFinders (m : matrix) : option matrix :=
  for_each [(0, 0); (m_size m - 7, 0); (0, m_size m - 7)] (λ '(ox, oy) m,
    for_range (-1) 8 (λ dy m,
      for_range (-1) 8 (λ dx m,
        let x := ox + dx in let y := oy + dy in
        if (x <? 0) || (y <? 0) || (m_size m <=? x) || (m_size m <=? y) then Some m else
        set x y (finder_dark dx dy) true m) m) m) m.

Definition placeTiming (m : matrix) : option matrix :=
  for_range 8 (m_size m - 8) (λ i m,
    let dark := i mod 2 =? 0 in
    m ← set i 6 dark true m; set 6 i dark true m) m.

Definition placeAlignment (ver : Z) (m : matrix) : option matrix :=
  centers ← at_index alignmentCenters (ver - 1);
  for_each centers (λ cy m,
    for_each centers (λ cx m,
      if ((cx =? 6) && (cy =? 6)) || ((cx =? 6) && (cy =? m_size m - 7)) ||
         ((cx =? m_size m - 7) && (cy =? 6)) then Some m else
      for_range (-2) 3 (λ dy m,
        for_range (-2) 3 (λ dx m,
          let dark := (dx =? -2) || (dx =? 2) || (dy =? -2) || (dy =? 2) || ((dx =? 0) && (dy =? 0)) in
          set (cx + dx) (cy + dy) dark true m) m) m) m) m.

Definition reserveFormat (m : matrix) : option matrix :=
  m ← for_range 0 9 (λ i m,
    if negb (i =? 6) then m ← put_fn 8 i m; put_fn i 8 m else Some m) m;
  m ← for_range 0 8 (λ i m,
    m ← put_fn 8 (m_size m - 1 - i) m; put_fn (m_size m - 1 - i) 8 m) m;
  put_fn 8 8 m.

Definition reserveVersion (m : matrix) : option matrix :=
  for_range 0 6 (λ i m,
    for_range 0 3 (λ j m,
      m ← put_fn (m_size m - 11 + j) i m; put_fn i (m_size m - 11 + j) m) m) m.

Definition maskFn (mask x y : Z) : bool :=
  match mask with
  | 0 => (x + y) mod 2 =? 0
  | 1 => y mod 2 =? 0
  | 2 => x mod 3 =? 0
  | 3 => (x + y) mod 3 =? 0
  | 4 => (y / 2 + x / 3) mod 2 =? 0
  | 5 => (x * y) mod 2 + (x * y) mod 3 =? 0
  | 6 => ((x * y) mod 2 + (x * y) mod 3) mod 2 =? 0
  | 7 => ((x + y) mod 2 + (x * y) mod 3) mod 2 =? 0
  | _ => false
  end.

(** [bitAt]: past the last codeword the bits are 0 *)
Definition bitAt (data : list Z) (i : Z) : bool :=
  match at_index data (i / 8) with
  | Some b => Z.testbit b (7 - i mod 8)
  | None => false
  end.

(** one module of [placeData]: skipped when it belongs to a function pattern *)
Definition place_bit (data : list Z) (mask x y : Z) (s : matrix * Z) : option (matrix * Z) :=
  let '(m, bit) := s in
  f ← get2 (m_fn m) y x;
  if f : bool then Some (m, bit) else
  let v := bitAt data bit in
  let v := if maskFn mask x y then negb v else v in
  m ← put_val y x v m;
  Some (m, bit + 1).

(** one turn of the outer loop: the two columns [col] and [col-1] *)
Definition place_column (data : list Z) (mask col : Z) (up : bool) (s : matrix * Z)
    : option (matrix * Z) :=
  let size := m_size s.1 in
  for_range 0 size (λ n s,
    let y := if up then size - 1 - n else n in
    for_range 0 2 (λ c s, place_bit data mask (col - c) y s) s) s.

Fixpoint place_columns (fuel : nat) (data : list Z) (mask col : Z) (up : bool) (s : matrix * Z)
    : option (matrix * Z) :=
  if 0 <? col then
    match fuel with
    | O => None
    | S fuel =>
        let col := if col =? 6 then col - 1 else col in
        s ← place_column data mask col up s;
        place_columns fuel data mask (col - 2) (negb up) s
    end
  else Some s.

Definition placeData (m : matrix) (data : list Z) (mask : Z) : option matrix :=
  s ← place_columns (Z.to_nat (m_size m)) data mask (m_size m - 1) true (m, 0);
  Some s.1.

(** the assignments of [writeFormat], in order: row, column, format bit *)
Definition format_cells (size : Z) : list (Z * Z * Z) := [
  (8, 0, 14); (8, 1, 13); (8, 2, 12); (8, 3, 11); (8, 4, 10); (8, 5, 9); (8, 7, 8); (8, 8, 7);
  (7, 8, 6); (5, 8, 5); (4, 8, 4); (3, 8, 3); (2, 8, 2); (1, 8, 1); (0, 8, 0);
  (size - 1, 8, 14); (size - 2, 8, 13); (size - 3, 8, 12); (size - 4, 8, 11);
  (size - 5, 8, 10); (size - 6, 8, 9); (size - 7, 8, 8);
  (8, size - 8, 7); (8, size - 7, 6); (8, size - 6, 5); (8, size - 5, 4);
  (8, size - 4, 3); (8, size - 3, 2); (8, size - 2, 1); (8, size - 1, 0) ].

Definition writeFormat (mask : Z) (m : matrix) : option matrix :=
  format ← at_index formatStringsM mask;
  for_each (format_cells (m_size m)) (λ '(y, x, i) m, put_val y x (Z.testbit format i) m) m.

Definition writeVersion (ver : Z) (m : matrix) : option matrix :=
  match versionInfo ver with
  | None => Some m
  | Some v =>
      for_range 0 18 (λ i m,
        let bit := Z.testbit v i in
        let row := i / 3 in let col := i mod 3 in
        m ← put_val (m_size m - 11 + col) row bit m;
        put_val row (m_size m - 11 + col) bit m) m
  end.

(** ** Penalties *)

(** one line of [count]: the score and the current run *)
Definition count_line (get : Z → option bool) (size : Z) : option Z :=
  sr ← for_range 1 size (λ b '(s, run),
    p ← get b; q ← get (b - 1);
    if eqb p q then Some (s, run + 1)
    else Some (if 5 <=? run then s + (3 + (run - 5)) else s, 1)) (0, 1);
  let '(s, run) := sr in
  Some (if 5 <=? run then s + (3 + (run - 5)) else s).

Definition count (get : Z → Z → option bool) (size : Z) : option Z :=
  for_range 0 size (λ a s, l ← count_line (get a) size; Some (s + l)) 0.

Definition rule1 (m : matrix) : option Z :=
  rows ← count (λ a b, get2 (m_val m) a b) (m_size m);
  cols ← count (λ a b, get2 (m_val m) b a) (m_size m);
  Some (rows + cols).

Definition rule2 (m : matrix) : option Z :=
  for_range 0 (m_size m - 1) (λ y s,
    for_range 0 (m_size m - 1) (λ x s,
      v ← get2 (m_val m) y x; r ← get2 (m_val m) y (x + 1);
      d ← get2 (m_val m) (y + 1) x; rd ← get2 (m_val m) (y + 1) (x + 1);
      Some (if eqb r v && eqb d v && eqb rd v then s + 3 else s)) s) 0.

Definition pat1 : list bool := [true; false; true; true; true; false; true; false; false; false; false].
Definition pat2 : list bool := [false; false; false; false; true; false; true; true; true; false; true].

(** [matches], from element [k] of the pattern on *)
Fixpoint matches (get : Z → option bool) (off k : Z) (pat : list bool) : option bool :=
  match pat with
  | [] => Some true
  | b :: pat => v ← get (off + k); if negb (eqb v b) then Some false else matches get off (k + 1) pat
  end.

Definition match_at (get : Z → option bool) (off : Z) : option bool :=
  a ← matches get off 0 pat1;
  if a : bool then Some true else matches get off 0 pat2.

Definition rule3_lines (get : Z → Z → option bool) (size : Z) (s : Z) : option Z :=
  for_range 0 size (λ a s,
    for_range 0 (size - 11 + 1) (λ off s,
      h ← match_at (get a) off; Some (if h : bool then s + 40 else s)) s) s.

Definition rule3 (m : matrix) : option Z :=
  s ← rule3_lines (λ y i, get2 (m_val m) y i) (m_size m) 0;
  rule3_lines (λ x i, get2 (m_val m) i x) (m_size m) s.

Definition rule4 (m : matrix) : option Z :=
  dark ← for_range 0 (m_size m) (λ y d,
    for_range 0 (m_size m) (λ x d, v ← get2 (m_val m) y x; Some (if v : bool then d + 1 else d)) d) 0;
  let total := m_size m * m_size m in
  let percent := Z.quot (dark * 100) total in
  let prev := Z.quot percent 5 * 5 in
  let next := prev + 5 in
  let a := Z.quot (Z.abs (prev - 50)) 5 in
  let b := Z.quot (Z.abs (next - 50)) 5 in
  Some (if a <? b then a * 10 else b * 10).

Definition penalty (m : matrix) : option Z :=
  a ← rule1 m; b ← rule2 m; c ← rule3 m; d ← rule4 m; Some (a + b + c + d).

(** ** The symbol *)

(** the function patterns of a version *)
Definition base_matrix (ver : Z) : option matrix :=
  let size := ver * 4 + 17 in
  m ← placeFinders (newMatrix size);
  m ← placeTiming m;
  m ← placeAlignment ver m;
  m ← set 8 (size - 8) true true m;
  m ← reserveFormat m;
  if 7 <=? ver then reserveVersion m else Some m.

(** the symbol with one data mask: the body of the loop over the masks *)
Definition masked (base : matrix) (final : list Z) (ver mask : Z) : option matrix :=
  m ← placeData base final mask;
  m ← writeFormat mask m;
  if 7 <=? ver then writeVersion ver m else Some m.

(** [bestMatrix] is nil until a symbol of a lower penalty than [1 << 30] is met *)
Definition placeAndMask (final : list Z) (ver : Z) : option (list (list bool)) :=
  base ← base_matrix ver;
  best ← for_range 0 8 (λ mask '(bestMatrix, bestPenalty),
    m ← masked base final ver mask;
    p ← penalty m;
    Some (if p <? bestPenalty then (m_val m, p) else (bestMatrix, bestPenalty)))
    ([], Z.shiftl 1 30);
  Some best.1.

(** The inner option is the [bool] of the Go result. *)
Definition encode (data : list Z) : option (option (list (list bool))) :=
  let ver := pickVersion (Z.of_nat (length data)) in
  if ver =? 0 then Some None else
  bits ← buildDataBits data ver;
  n ← at_index dataCodewordsM (ver - 1);
  final ← interleave (bitsToCodewords bits n) (ver - 1);
  best ← placeAndMask final ver;
  Some (Some best).

(** ** The text *)

Definition cellGlyph (top bottom : bool) : string :=
  if top && bottom then "█"
  else if top && negb bottom then "▀"
  else if negb top && bottom then "▄"
  else " ".

Definition quiet : Z := 4.

(** the symbol within its quiet zone *)
Definition pad_quiet (mat : list (list bool)) : option (list (list bool)) :=
  let n := Z.of_nat (length mat) in
  for_range 0 n (λ y padded,
    for_range 0 n (λ x padded, b ← get2 mat y x; put2 padded (y + quiet) (x + quiet) b) padded)
    (blank (n + quiet * 2)).

Definition newline : string := String (Ascii.ascii_of_nat 10) "".

(** the loop [for y := 0; y < size; y += 2] *)
Fixpoint half_rows (fuel : nat) (padded : list (list bool)) (size y : Z) (b : string) : option string :=
  if y <? size then
    match fuel with
    | O => None
    | S fuel =>
        b ← for_range 0 size (λ x b,
          top ← get2 padded y x;
          bot ← (if y + 1 <? size then get2 padded (y + 1) x else Some false);
          Some (b +:+ cellGlyph top bot)) b;
        half_rows fuel padded size (y + 2) (b +:+ newline)
    end
  else Some b.

Definition renderHalfBlocks (mat : list (list bool)) : option string :=
  let size := Z.of_nat (length mat) + quiet * 2 in
  padded ← pad_quiet mat;
  half_rows (Z.to_nat size) padded size 0 "".

(** [[]byte(s)] *)
Definition bytes_of (s : string) : list Z := map byteZ (String.list_ascii_of_string s).

Definition QRString (s : string) : option (string * bool) :=
  m ← encode (bytes_of s);
  match m with
  | None => Some ("", false)
  | Some m => out ← renderHalfBlocks m; Some (out, true)
  end.

(** what [QR] writes *)
Definition QR (quiet_mode : bool) (s : string) : option string :=
  if quiet_mode then Some "" else
  o ← QRString s;
  Some (if o.2 : bool then o.1 else "").
