(* ===== verification/ReedSolomon.v ===== *)
(** * The QR error correction

    Facts on the tables [gfExp] and [gfLog] and on [gfMul] of [Qr]: bytes with
    exclusive or and [gfMul] form a field of characteristic 2 in which [2]
    generates the non-zero elements.  Polynomials are lists of coefficients,
    highest power first; [divide] is the shift register that divides by a
    monic polynomial, and [reedSolomon] is shown to be one, over the generator
    [rsGenerator] computes. *)

From S2P Require Import Prelude GoStrings Qr.

Local Open Scope string_scope.
Local Open Scope list_scope.
Local Open Scope Z_scope.

Create HintDb gf.

#[global] Opaque exp_at log_at.

Definition byte (x : Z) : Prop := 0 ≤ x < 256.

(** Quantifiers over the bytes are decided by evaluation. *)
Definition byteb (x : Z) : bool := (0 <=? x) && (x <? 256).

Lemma byteb_spec x : byteb x = true ↔ byte x.
Proof. unfold byteb, byte. rewrite andb_true_iff, Z.leb_le, Z.ltb_lt. done. Qed.

Lemma all_below (n : Z) (P : Z → bool) :
  forallb P (seqZ 0 n) = true → ∀ x, 0 ≤ x < n → P x = true.
Proof. rewrite forallb_forall. intros H x Hx. apply H, list_elem_of_In, elem_of_seqZ. lia. Qed.

Ltac below n P x :=
  let H := fresh in
  assert (H : forallb P (seqZ 0 n) = true) by (vm_compute; reflexivity);
  exact (all_below n P H x ltac:(lia)).

(** Equations between exclusive ors, bit by bit. *)
Ltac xor_ac :=
  apply Z.bits_inj'; intros ? _; rewrite ?Z.lxor_spec, ?Z.bits_0;
  repeat match goal with |- context [Z.testbit ?x ?n] => destruct (Z.testbit x n) end; reflexivity.

Lemma lxor_byte a b : byte a → byte b → byte (Z.lxor a b).
Proof.
  intros [Ha Ha'] [Hb Hb']. split; [by apply Z.lxor_nonneg|].
  destruct (Z.eq_dec a 0) as [-> | ]; [by rewrite Z.lxor_0_l|].
  destruct (Z.eq_dec b 0) as [-> | ]; [by rewrite Z.lxor_0_r|].
  destruct (Z.eq_dec (Z.lxor a b) 0) as [-> | Hn]; [lia|].
  assert (0 ≤ Z.lxor a b) by by apply Z.lxor_nonneg.
  change 256 with (2 ^ 8). apply Z.log2_lt_pow2; [lia|].
  eapply Z.le_lt_trans; [by apply Z.log2_lxor|].
  apply Z.max_lub_lt; apply Z.log2_lt_pow2; lia.
Qed.

(** ** Multiplication by the generator *)

(** one shift of [init]: times [x], modulo [x^8 + x^4 + x^3 + x^2 + 1] *)
Definition xtime (x : Z) : Z :=
  let x' := Z.shiftl x 1 in if negb (Z.land x' 0x100 =? 0) then Z.lxor x' 0x11D else x'.

Lemma land_256_bit x : negb (Z.land x 0x100 =? 0) = Z.testbit x 8.
Proof.
  replace (Z.land x 0x100) with (if Z.testbit x 8 then 2 ^ 8 else 0).
  { by destruct (Z.testbit x 8). }
  apply Z.bits_inj'. intros n Hn. rewrite Z.land_spec. change 0x100 with (2 ^ 8).
  rewrite Z.pow2_bits_eqb by lia. destruct (Z.eqb_spec 8 n) as [<- | Hne].
  - rewrite andb_true_r. by destruct (Z.testbit x 8).
  - rewrite andb_false_r. destruct (Z.testbit x 8); [|apply Z.bits_0].
    apply Z.pow2_bits_false. done.
Qed.

Lemma xtime_alt x : xtime x = Z.lxor (Z.shiftl x 1) (if Z.testbit x 7 then 0x11D else 0).
Proof.
  unfold xtime. rewrite land_256_bit, Z.shiftl_spec by lia. change (8 - 1) with 7.
  destruct (Z.testbit x 7); [done|by rewrite Z.lxor_0_r].
Qed.

Lemma xtime_lxor a b : xtime (Z.lxor a b) = Z.lxor (xtime a) (xtime b).
Proof.
  rewrite !xtime_alt, Z.shiftl_lxor, Z.lxor_spec.
  destruct (Z.testbit a 7), (Z.testbit b 7); cbn [xorb]; xor_ac.
Qed.

Lemma xtime_byte x : byte x → byte (xtime x).
Proof. intros Hx. apply byteb_spec. unfold byte in Hx. below 256 (λ x, byteb (xtime x)) x. Qed.

Lemma xtimes_lxor n a b :
  Nat.iter n xtime (Z.lxor a b) = Z.lxor (Nat.iter n xtime a) (Nat.iter n xtime b).
Proof. induction n as [|n IH]; [done|]. by rewrite !Nat.iter_succ, IH, xtime_lxor. Qed.

Lemma xtimes_zero n : Nat.iter n xtime 0 = 0.
Proof. induction n as [|n IH]; [done|]. by rewrite Nat.iter_succ, IH. Qed.

(** ** The tables *)

Lemma exp_succ i : 0 ≤ i < 511 → exp_at (i + 1) = xtime (exp_at i).
Proof. intros Hi. apply Z.eqb_eq. below 511 (λ i, exp_at (i + 1) =? xtime (exp_at i)) i. Qed.

Lemma exp_byte i : 0 ≤ i < 512 → 0 < exp_at i < 256.
Proof.
  intros Hi. assert (H : (0 <? exp_at i) && (exp_at i <? 256) = true)
    by below 512 (λ i, (0 <? exp_at i) && (exp_at i <? 256)) i.
  bool_prop. lia.
Qed.

Lemma exp_log a : 0 < a < 256 → exp_at (log_at a) = a ∧ 0 ≤ log_at a < 255.
Proof.
  intros Ha. assert (H : (a =? 0) || ((exp_at (log_at a) =? a) && (0 <=? log_at a) && (log_at a <? 255)) = true)
    by below 256 (λ a, (a =? 0) || ((exp_at (log_at a) =? a) && (0 <=? log_at a) && (log_at a <? 255))) a.
  apply orb_true_iff in H as [H|H]; bool_prop; lia.
Qed.

Lemma log_exp i : 0 ≤ i < 512 → log_at (exp_at i) = i mod 255.
Proof. intros Hi. apply Z.eqb_eq. below 512 (λ i, log_at (exp_at i) =? i mod 255) i. Qed.

Lemma exp_mod i : 0 ≤ i < 512 → exp_at (i mod 255) = exp_at i.
Proof. intros Hi. apply Z.eqb_eq. below 512 (λ i, exp_at (i mod 255) =? exp_at i) i. Qed.

Lemma exp_shift n j : 0 ≤ j → j + Z.of_nat n < 512 → exp_at (j + Z.of_nat n) = Nat.iter n xtime (exp_at j).
Proof.
  intros Hj. induction n as [|n IH]; intros Hn; [change (Z.of_nat 0) with 0; by rewrite Z.add_0_r|]. rewrite Nat.iter_succ.
  rewrite <-IH by lia. rewrite <-exp_succ by lia. f_equal. lia.
Qed.

(** ** Multiplication *)

Lemma gfMul_comm a b : gfMul a b = gfMul b a.
Proof. unfold gfMul. by rewrite orb_comm, Z.add_comm. Qed.

Lemma gfMul_0_l b : gfMul 0 b = 0.
Proof. done. Qed.

Lemma gfMul_0_r a : gfMul a 0 = 0.
Proof. by rewrite gfMul_comm. Qed.

(** The non-zero bytes are the powers of the generator. *)
Lemma byte_cases a : byte a → a = 0 ∨ ∃ n, (n < 255)%nat ∧ a = exp_at (Z.of_nat n).
Proof.
  intros Ha. unfold byte in Ha. destruct (Z.eq_dec a 0) as [ | Hn]; [by left|right].
  destruct (exp_log a) as [He Hl]; [lia|]. exists (Z.to_nat (log_at a)).
  rewrite Z2Nat.id by lia. split; [lia|done].
Qed.

Lemma gfMul_exp n b : (n < 255)%nat → byte b → gfMul (exp_at (Z.of_nat n)) b = Nat.iter n xtime b.
Proof.
  intros Hn Hb. destruct (byte_cases b Hb) as [-> | (k & Hk & ->)].
  { by rewrite gfMul_0_r, xtimes_zero. }
  unfold gfMul. pose proof (exp_byte (Z.of_nat n) ltac:(lia)). pose proof (exp_byte (Z.of_nat k) ltac:(lia)).
  destruct (Z.eqb_spec (exp_at (Z.of_nat n)) 0); [lia|].
  destruct (Z.eqb_spec (exp_at (Z.of_nat k)) 0); [lia|]. cbn [orb].
  rewrite !log_exp, !Z.mod_small by lia. rewrite Z.add_comm. apply exp_shift; lia.
Qed.

Lemma xtimes_byte n b : byte b → byte (Nat.iter n xtime b).
Proof. intros Hb. induction n as [|n IH]; [done|]. by apply xtime_byte. Qed.

(** The generator has order 255. *)
Lemma xtimes_255 x : byte x → Nat.iter 255 xtime x = x.
Proof.
  intros Hx. destruct (byte_cases x Hx) as [-> | (k & Hk & ->)]; [apply xtimes_zero|].
  rewrite <-exp_shift by lia. rewrite <-(exp_mod (_ + _)) by lia. f_equal. zlia.
Qed.

Lemma gfMul_byte a b : byte a → byte b → byte (gfMul a b).
Proof.
  intros Ha Hb. destruct (byte_cases a Ha) as [-> | (n & Hn & ->)]; [done|].
  rewrite gfMul_exp by done. by apply xtimes_byte.
Qed.
#[export] Hint Resolve gfMul_byte lxor_byte : gf.

Lemma gfMul_lxor_r a b c : byte a → byte b → byte c →
  gfMul a (Z.lxor b c) = Z.lxor (gfMul a b) (gfMul a c).
Proof.
  intros Ha Hb Hc. destruct (byte_cases a Ha) as [-> | (n & Hn & ->)]; [done|].
  rewrite !gfMul_exp by auto with gf. apply xtimes_lxor.
Qed.

Lemma gfMul_lxor_l a b c : byte a → byte b → byte c →
  gfMul (Z.lxor a b) c = Z.lxor (gfMul a c) (gfMul b c).
Proof. intros. rewrite !(gfMul_comm _ c). by apply gfMul_lxor_r. Qed.

Lemma gfMul_assoc a b c : byte a → byte b → byte c → gfMul a (gfMul b c) = gfMul (gfMul a b) c.
Proof.
  intros Ha Hb Hc.
  destruct (byte_cases a Ha) as [-> | (n & Hn & ->)]; [done|].
  destruct (byte_cases b Hb) as [-> | (m & Hm & ->)]; [by rewrite gfMul_0_l, !gfMul_0_r|].
  rewrite (gfMul_exp n) by auto with gf. rewrite (gfMul_exp m) by done.
  assert (Hp : gfMul (exp_at (Z.of_nat n)) (exp_at (Z.of_nat m)) = exp_at (Z.of_nat (n + m))).
  { rewrite gfMul_exp by (done || unfold byte; pose proof (exp_byte (Z.of_nat m)); lia).
    rewrite <-exp_shift by lia. f_equal. lia. }
  rewrite Hp. destruct (Nat.lt_ge_cases (n + m) 255) as [Hs|Hs].
  - rewrite gfMul_exp by done. by rewrite Nat.iter_add.
  - rewrite <-(exp_mod (Z.of_nat (n + m))) by lia.
    replace (Z.of_nat (n + m) mod 255) with (Z.of_nat (n + m - 255)) by zlia.
    rewrite gfMul_exp by (lia || exact Hc). rewrite <-(Nat.iter_add n m).
    replace (Nat.iter (n + m) xtime c) with (Nat.iter (255 + (n + m - 255)) xtime c) by (f_equal; lia).
    rewrite (Nat.iter_add 255). apply xtimes_255. by apply xtimes_byte.
Qed.

Lemma gfMul_1_l a : byte a → gfMul 1 a = a.
Proof. intros Ha. apply (gfMul_exp 0 a); [lia|done]. Qed.

Lemma gfMul_nonzero a b : byte a → byte b → a ≠ 0 → b ≠ 0 → gfMul a b ≠ 0.
Proof.
  intros Ha Hb Hna Hnb. unfold gfMul, byte in *.
  destruct (Z.eqb_spec a 0); [done|]. destruct (Z.eqb_spec b 0); [done|]. cbn [orb].
  destruct (exp_log a) as [_ ?]; [lia|]. destruct (exp_log b) as [_ ?]; [lia|].
  pose proof (exp_byte (log_at a + log_at b)). lia.
Qed.

(** [gfMul] is multiplication of polynomials over GF(2) modulo 0x11D. *)
Definition carryless (a b : Z) : Z :=
  foldr Z.lxor 0 (map (λ i, if Z.testbit a i then Nat.iter (Z.to_nat i) xtime b else 0) (seqZ 0 8)).

Lemma carryless_lxor a b c : carryless a (Z.lxor b c) = Z.lxor (carryless a b) (carryless a c).
Proof.
  unfold carryless. induction (seqZ 0 8) as [|i l IH]; [done|]. cbn [map foldr].
  rewrite IH. destruct (Z.testbit a i); [rewrite xtimes_lxor|]; xor_ac.
Qed.

Lemma carryless_xtime a b : carryless a (xtime b) = xtime (carryless a b).
Proof.
  unfold carryless. induction (seqZ 0 8) as [|i l IH]; [done|]. cbn [map foldr].
  rewrite xtime_lxor, <-IH. f_equal. destruct (Z.testbit a i); [|done].
  by rewrite <-Nat.iter_succ_r.
Qed.

Lemma carryless_1 a : byte a → carryless a 1 = a.
Proof. intros Ha. unfold byte in Ha. apply Z.eqb_eq. below 256 (λ a, carryless a 1 =? a) a. Qed.

Lemma carryless_xtimes a n b : carryless a (Nat.iter n xtime b) = Nat.iter n xtime (carryless a b).
Proof. induction n as [|n IH]; [done|]. by rewrite !Nat.iter_succ, carryless_xtime, IH. Qed.

Lemma exp_iter n : (n < 512)%nat → exp_at (Z.of_nat n) = Nat.iter n xtime 1.
Proof. intros Hn. change 1 with (exp_at 0). rewrite <-exp_shift by lia. f_equal. Qed.

Lemma gfMul_carryless a b : byte a → byte b → gfMul a b = carryless a b.
Proof.
  intros Ha Hb. destruct (byte_cases b Hb) as [-> | (k & Hk & ->)].
  - rewrite gfMul_0_r. symmetry. unfold carryless.
    induction (seqZ 0 8) as [|i l IH]; [done|]. cbn [map foldr]. rewrite IH, xtimes_zero.
    by destruct (Z.testbit a i).
  - rewrite gfMul_comm, gfMul_exp, exp_iter, carryless_xtimes, carryless_1 by (done || lia). done.
Qed.

(** ** Polynomials, highest power first *)

#[global] Opaque gfMul.

Definition bytes (l : list Z) : Prop := Forall byte l.

Definition horner (x acc : Z) (l : list Z) : Z := foldl (λ acc c, Z.lxor (gfMul acc x) c) acc l.
Definition peval (l : list Z) (x : Z) : Z := horner x 0 l.

(** [x]^[n] *)
Definition gpow (x : Z) (n : nat) : Z := Nat.iter n (gfMul x) 1.

Lemma byte_0 : byte 0. Proof. unfold byte; lia. Qed.
Lemma byte_1 : byte 1. Proof. unfold byte; lia. Qed.
Lemma exp_is_byte i : 0 ≤ i < 512 → byte (exp_at i).
Proof. intros Hi. pose proof (exp_byte i Hi). unfold byte. lia. Qed.
Lemma gpow_byte x n : byte x → byte (gpow x n).
Proof.
  intros Hx. unfold gpow. induction n as [|n IH]; [apply byte_1|]. rewrite Nat.iter_succ. auto with gf.
Qed.
#[export] Hint Resolve byte_0 byte_1 gpow_byte : gf.

Lemma gpow_succ x n : gpow x (S n) = gfMul x (gpow x n).
Proof. unfold gpow. by rewrite Nat.iter_succ. Qed.

Lemma gpow_add x m d : byte x → gpow x (m + d) = gfMul (gpow x m) (gpow x d).
Proof.
  intros Hx. induction m as [|m IH]; cbn [Nat.add].
  - change (gpow x 0) with 1. symmetry. apply gfMul_1_l. auto with gf.
  - by rewrite !gpow_succ, IH, gfMul_assoc by auto with gf.
Qed.

Lemma horner_byte x acc l : byte x → byte acc → bytes l → byte (horner x acc l).
Proof.
  intros Hx. revert acc. induction l as [|c l IH]; intros acc Ha Hl; [done|].
  apply Forall_cons in Hl as [Hc Hl]. cbn. apply IH; auto with gf.
Qed.
#[export] Hint Resolve horner_byte : gf.

Lemma peval_byte x l : byte x → bytes l → byte (peval l x).
Proof. intros. unfold peval. auto with gf. Qed.
#[export] Hint Resolve peval_byte : gf.

Lemma horner_peval x acc l : byte x → byte acc → bytes l →
  horner x acc l = Z.lxor (gfMul acc (gpow x (length l))) (peval l x).
Proof.
  intros Hx. unfold peval. revert acc. induction l as [|c l IH]; intros acc Ha Hl.
  - cbn. rewrite Z.lxor_0_r, gfMul_comm. symmetry. by apply gfMul_1_l.
  - apply Forall_cons in Hl as [Hc Hl]. cbn [horner foldl length].
    fold (horner x (Z.lxor (gfMul acc x) c) l). fold (horner x (Z.lxor (gfMul 0 x) c) l).
    rewrite (IH (Z.lxor (gfMul acc x) c)), (IH (Z.lxor (gfMul 0 x) c)) by auto with gf.
    rewrite gfMul_0_l, Z.lxor_0_l, gfMul_lxor_l, gpow_succ, gfMul_assoc by auto with gf. xor_ac.
Qed.

Lemma peval_cons x c l : byte x → byte c → bytes l →
  peval (c :: l) x = Z.lxor (gfMul c (gpow x (length l))) (peval l x).
Proof.
  intros Hx Hc Hl. unfold peval at 1. cbn. fold (horner x (Z.lxor (gfMul 0 x) c) l).
  rewrite gfMul_0_l, Z.lxor_0_l. by apply horner_peval.
Qed.

Lemma peval_app x l k : byte x → bytes l → bytes k →
  peval (l ++ k) x = Z.lxor (gfMul (peval l x) (gpow x (length k))) (peval k x).
Proof.
  intros Hx Hl Hk. unfold peval at 1. unfold horner. rewrite foldl_app.
  fold (horner x 0 l). fold (peval l x). fold (horner x (peval l x) k).
  apply horner_peval; auto with gf.
Qed.

(** ** Division by a monic polynomial *)

(** exclusive or of [t] into the front of [w] *)
Fixpoint xor_into (w t : list Z) : list Z :=
  match w, t with
  | x :: w, y :: t => Z.lxor x y :: xor_into w t
  | _, _ => w
  end.

Definition scale (c : Z) (l : list Z) : list Z := map (λ g, gfMul g c) l.

(** [k] steps of the shift register whose taps are [tl] *)
Fixpoint divide (k : nat) (tl w : list Z) : list Z :=
  match k, w with
  | S k, c :: w => divide k tl (xor_into w (scale c tl))
  | _, _ => w
  end.

Lemma scale_bytes c l : byte c → bytes l → bytes (scale c l).
Proof. intros Hc Hl. apply Forall_map. eapply Forall_impl; [exact Hl|]. simpl. auto with gf. Qed.

Lemma xor_into_bytes w t : bytes w → bytes t → bytes (xor_into w t).
Proof.
  intros Hw. revert t. induction Hw as [|x w Hx Hw IH]; intros [|y t] Ht; simpl; try constructor; try done.
  - apply Forall_cons in Ht as [Hy Ht]. auto with gf.
  - apply Forall_cons in Ht as [Hy Ht]. by apply IH.
Qed.

Lemma xor_into_length w t : length (xor_into w t) = length w.
Proof. revert t. induction w as [|x w IH]; intros [|y t]; simpl; [done..|]. by rewrite IH. Qed.

Lemma divide_length k tl w : (k ≤ length w)%nat → length (divide k tl w) = (length w - k)%nat.
Proof.
  revert w. induction k as [|k IH]; intros [|c w] H; cbn [divide length] in *; try lia.
  rewrite IH; rewrite xor_into_length; lia.
Qed.

Lemma divide_bytes k tl w : bytes tl → bytes w → bytes (divide k tl w).
Proof.
  intros Ht. revert w. induction k as [|k IH]; intros [|c w] Hw; cbn [divide]; try done.
  apply Forall_cons in Hw as [Hc Hw]. apply IH, xor_into_bytes, scale_bytes; done.
Qed.
Lemma scale_length c l : length (scale c l) = length l.
Proof. apply length_map. Qed.

(** the side conditions: values are bytes, lengths agree *)
Ltac gf_side :=
  solve [auto 10 with gf | rewrite ?xor_into_length, ?scale_length; cbn [length] in *; lia].

#[export] Hint Resolve scale_bytes xor_into_bytes divide_bytes : gf.

Lemma peval_scale x c l : byte x → byte c → bytes l → peval (scale c l) x = gfMul (peval l x) c.
Proof.
  intros Hx Hc. induction l as [|g l IH]; intros Hl; [done|]. pose proof Hl as [Hg Hl']%Forall_cons.
  cbn [scale map]. fold (scale c l).
  rewrite !peval_cons, IH by auto with gf. rewrite scale_length.
  rewrite gfMul_lxor_l by auto with gf. f_equal.
  rewrite <-!gfMul_assoc by auto with gf. f_equal. apply gfMul_comm.
Qed.

Lemma peval_xor_into x w t : byte x → bytes w → bytes t → (length t ≤ length w)%nat →
  peval (xor_into w t) x = Z.lxor (peval w x) (gfMul (peval t x) (gpow x (length w - length t))).
Proof.
  intros Hx Hw. revert t. induction Hw as [|a w Ha Hw IH]; intros [|b t] Ht Hl; cbn [xor_into length] in *.
  - cbn. by rewrite gfMul_0_l.
  - lia.
  - change (peval [] x) with 0. rewrite gfMul_0_l. by rewrite Z.lxor_0_r.
  - pose proof Ht as [Hb Ht']%Forall_cons.
    rewrite !peval_cons, IH, xor_into_length, !gfMul_lxor_l by gf_side.
    rewrite <-gfMul_assoc by auto with gf.
    replace (gfMul (gpow x (length t)) (gpow x (S (length w) - S (length t)))) with (gpow x (length w)).
    + replace (S (length w) - S (length t))%nat with (length w - length t)%nat by lia. xor_ac.
    + replace (length w) with (length t + (length w - length t))%nat at 1 by lia.
      rewrite gpow_add by done. done.
Qed.

(** At a root of the divisor, division does not change the value. *)
Lemma peval_divide x tl k w :
  byte x → bytes tl → bytes w → peval (1 :: tl) x = 0 → (k + length tl ≤ length w)%nat →
  peval (divide k tl w) x = peval w x.
Proof.
  intros Hx Ht Hw Hroot. revert w Hw. induction k as [|k IH]; intros w Hw Hl; [done|].
  destruct w as [|c w]; [done|]. apply Forall_cons in Hw as [Hc Hw]. cbn [divide length] in *.
  rewrite IH by gf_side.
  rewrite peval_xor_into by gf_side.
  rewrite peval_scale, peval_cons by auto with gf. rewrite scale_length.
  rewrite Z.lxor_comm. f_equal.
  rewrite peval_cons, gfMul_1_l in Hroot by auto with gf. apply Z.lxor_eq in Hroot. rewrite <-Hroot.
  rewrite (gfMul_comm _ c), <-gfMul_assoc by auto with gf. f_equal.
  rewrite <-gpow_add by done. f_equal. lia.
Qed.

(** ** The error-correction codewords

    The generator polynomial of [Qr.rsGenerator] has the roots it should have,
    and [Qr.reedSolomon] divides by the list of its coefficients.  The list
    starts with the constant term, and the division takes the first
    coefficient for the leading one. *)

Local Open Scope string_scope.
Local Open Scope list_scope.
Local Open Scope Z_scope.

(** ** The generator *)

Lemma peval_snoc x l c : peval (l ++ [c]) x = Z.lxor (gfMul (peval l x) x) c.
Proof. unfold peval, horner. by rewrite foldl_app. Qed.

Lemma times_root_carry r p g x :
  byte x → byte r → byte p → bytes g →
  peval (rev (zip_with Z.lxor (scale r g ++ [0]) (p :: g))) x =
  Z.lxor p (gfMul (peval (rev g) x) (Z.lxor x r)).
Proof.
  intros Hx Hr Hp Hg. revert p Hp. induction Hg as [|c g Hc Hg IH]; intros p Hp.
  - cbn. rewrite !gfMul_0_l. by rewrite Z.lxor_0_r.
  - cbn [scale map]. fold (scale r g). cbn [app zip_with rev]. rewrite !peval_snoc, IH by done.
    assert (Hv : byte (peval (rev g) x)) by (apply peval_byte; [done|by apply Forall_rev]).
    rewrite (gfMul_lxor_l c), (gfMul_lxor_r (Z.lxor _ _)), !(gfMul_lxor_l (gfMul _ x)) by gf_side.
    rewrite (gfMul_lxor_r _ x r), (gfMul_lxor_l (gfMul (peval (rev g) x) x)) by gf_side.
    rewrite <-!gfMul_assoc by gf_side. rewrite (gfMul_comm r x). xor_ac.
Qed.

Lemma times_root_eval r g x : byte x → byte r → bytes g →
  peval (rev (times_root r g)) x = gfMul (peval (rev g) x) (Z.lxor x r).
Proof.
  intros Hx Hr Hg. unfold times_root. fold (scale r g).
  rewrite times_root_carry by gf_side. by rewrite Z.lxor_0_l.
Qed.

Lemma zip_lxor_bytes l k : bytes l → bytes k → bytes (zip_with Z.lxor l k).
Proof.
  intros Hl. revert k. induction Hl as [|x l Hx Hl IH]; intros [|y k] Hk; cbn; try constructor.
  - apply Forall_cons in Hk as [Hy _]. gf_side.
  - apply Forall_cons in Hk as [_ Hk]. by apply IH.
Qed.

Lemma times_root_bytes r g : byte r → bytes g → bytes (times_root r g).
Proof.
  intros Hr Hg. apply zip_lxor_bytes.
  - apply Forall_app. split; [by apply scale_bytes|]. constructor; [gf_side|constructor].
  - constructor; [gf_side|done].
Qed.

Lemma times_root_snoc r g :
  times_root r (g ++ [1]) = zip_with Z.lxor (scale r (g ++ [1])) (0 :: g) ++ [1].
Proof.
  unfold times_root. fold (scale r (g ++ [1])).
  change (0 :: g ++ [1]) with ((0 :: g) ++ [1]). rewrite zip_with_app; [done|].
  rewrite scale_length, length_app. cbn [length]. lia.
Qed.

(** The generator is monic: its last coefficient is 1. *)
Lemma rsGenerator_shape_nat k : (k ≤ 255)%nat →
  ∃ g, rsGenerator (Z.of_nat k) = g ++ [1] ∧ length g = k ∧ bytes g ∧
       ∀ i, 0 ≤ i < Z.of_nat k → peval (rev (rsGenerator (Z.of_nat k))) (exp_at i) = 0.
Proof.
  unfold rsGenerator. induction k as [|k IH]; intros Hk0.
  { exists []. split_and!; [done|done|constructor|lia]. }
  destruct IH as (g & Hg & Hl & Hb & Hr); [lia|].
  replace (seqZ 0 (Z.of_nat (S k))) with (seqZ 0 (Z.of_nat k) ++ [Z.of_nat k]).
  2: { rewrite Nat2Z.inj_succ, <-Z.add_1_r, seqZ_app by lia. done. }
  rewrite foldl_app. cbn [foldl].
  assert (Hk : byte (exp_at (Z.of_nat k))) by (apply exp_is_byte; lia).
  assert (Hb1 : bytes (g ++ [1])) by (apply Forall_app; split; [done|constructor; [apply byte_1|constructor]]).
  rewrite Hg in *. exists (zip_with Z.lxor (scale (exp_at (Z.of_nat k)) (g ++ [1])) (0 :: g)).
  split_and!.
  - apply times_root_snoc.
  - rewrite length_zip_with, scale_length, length_app. cbn [length]. lia.
  - apply zip_lxor_bytes; [gf_side|constructor; [gf_side|done]].
  - intros i Hi. rewrite times_root_eval; [|apply exp_is_byte; lia|exact Hk|exact Hb1].
    destruct (Z.eq_dec i (Z.of_nat k)) as [-> | ].
    + by rewrite Z.lxor_nilpotent, gfMul_0_r.
    + by rewrite Hr by lia.
Qed.

Lemma rsGenerator_shape n : 0 ≤ n ≤ 255 →
  ∃ g, rsGenerator n = g ++ [1] ∧ Z.of_nat (length g) = n ∧ bytes g ∧
       ∀ i, 0 ≤ i < n → peval (rev (rsGenerator n)) (exp_at i) = 0.
Proof.
  intros Hn. destruct (rsGenerator_shape_nat (Z.to_nat n)) as (g & Hg & Hl & Hb & Hr); [lia|].
  rewrite Z2Nat.id in * by lia. exists g. split_and!; [done|lia|done|done].
Qed.

(** ** [reedSolomon] is a division *)

Lemma at_index_app {A} (l1 l2 : list A) x : at_index (l1 ++ x :: l2) (Z.of_nat (length l1)) = Some x.
Proof.
  unfold at_index. destruct (Z.ltb_spec (Z.of_nat (length l1)) 0); [lia|].
  rewrite Nat2Z.id. by apply list_lookup_middle.
Qed.

Lemma set_index_app {A} (l1 l2 : list A) x y :
  set_index (l1 ++ x :: l2) (Z.of_nat (length l1)) y = Some (l1 ++ y :: l2).
Proof.
  unfold set_index. rewrite length_app. cbn [length].
  destruct (Z.leb_spec 0 (Z.of_nat (length l1))); [|lia].
  destruct (Z.ltb_spec (Z.of_nat (length l1)) (Z.of_nat (length l1 + S (length l2)))); [|lia].
  cbn [andb]. by rewrite Nat2Z.id, insert_app_r_alt, Nat.sub_diag by lia.
Qed.

(** the inner loop, from coefficient [j] on *)
Lemma inner_loop gen coef i : ∀ gs g0 pre w,
  gen = g0 ++ gs → Z.of_nat (length pre) = i + Z.of_nat (length g0) →
  (length gs ≤ length w)%nat →
  for_each (seqZ (Z.of_nat (length g0)) (Z.of_nat (length gs))) (λ j rem,
      g ← at_index gen j; r ← at_index rem (i + j);
      set_index rem (i + j) (Z.lxor r (gfMul g coef))) (pre ++ w)
  = Some (pre ++ xor_into w (scale coef gs)).
Proof.
  induction gs as [|g gs IH]; intros g0 pre w Hgen Hpre Hw.
  - cbn. by destruct w.
  - destruct w as [|x w]; cbn [length] in Hw; [lia|].
    rewrite seqZ_cons by (cbn [length]; lia). cbn [for_each].
    rewrite Hgen at 1. rewrite at_index_app. cbn [mbind option_bind].
    rewrite <-Hpre, at_index_app. cbn [mbind option_bind]. rewrite set_index_app. cbn [mbind option_bind].
    specialize (IH (g0 ++ [g]) (pre ++ [Z.lxor x (gfMul g coef)]) w).
    rewrite <-!app_assoc, !length_app in IH. cbn [app length] in IH.
    replace (Z.succ (Z.of_nat (length g0))) with (Z.of_nat (length g0 + 1)) by lia.
    replace (Z.pred (Z.of_nat (length (g :: gs)))) with (Z.of_nat (length gs)) by (cbn [length]; lia).
    apply IH; [done|lia|lia].
Qed.

Lemma xor_into_zeros w tl : xor_into w (scale 0 tl) = w.
Proof.
  revert w. induction tl as [|g tl IH]; intros [|x w]; cbn; try done.
  fold (scale 0 tl). by rewrite gfMul_0_r, Z.lxor_0_r, IH.
Qed.

(** the outer loop: the front of [rem] is not read again *)
Lemma outer_loop h tl : ∀ k pre w,
  (k + length tl ≤ length w)%nat →
  ∃ pre', length pre' = (length pre + k)%nat ∧
  for_each (seqZ (Z.of_nat (length pre)) (Z.of_nat k)) (λ i rem,
      coef ← at_index rem i;
      if coef =? 0 then Some rem else
      for_range 0 (Z.of_nat (length (h :: tl))) (λ j rem,
        g ← at_index (h :: tl) j; r ← at_index rem (i + j);
        set_index rem (i + j) (Z.lxor r (gfMul g coef))) rem) (pre ++ w)
  = Some (pre' ++ divide k tl w).
Proof.
  induction k as [|k IH]; intros pre w Hw.
  - exists pre. split; [lia|done].
  - destruct w as [|c w]; cbn [length] in Hw; [lia|].
    rewrite seqZ_cons by lia. cbn [for_each divide]. rewrite at_index_app. cbn [mbind option_bind].
    replace (Z.pred (Z.of_nat (S k))) with (Z.of_nat k) by lia.
    assert (Hstep : ∃ c', (if c =? 0 then Some (pre ++ c :: w) else
      for_range 0 (Z.of_nat (length (h :: tl))) (λ j rem,
        g ← at_index (h :: tl) j; r ← at_index rem (Z.of_nat (length pre) + j);
        set_index rem (Z.of_nat (length pre) + j) (Z.lxor r (gfMul g c))) (pre ++ c :: w))
      = Some ((pre ++ [c']) ++ xor_into w (scale c tl))).
    { destruct (Z.eqb_spec c 0) as [-> | Hc].
      - exists 0. by rewrite xor_into_zeros, <-app_assoc.
      - exists (Z.lxor c (gfMul h c)). unfold for_range. rewrite Z.sub_0_r.
        pose proof (inner_loop (h :: tl) c (Z.of_nat (length pre)) (h :: tl) [] pre (c :: w)) as H.
        change (Z.of_nat (length [])) with 0 in H. rewrite H; [|done|cbn [length]; lia|cbn [length]; lia].
        cbn [scale map xor_into]. by rewrite <-app_assoc. }
    destruct Hstep as (c' & ->). cbn [mbind option_bind].
    destruct (IH (pre ++ [c']) (xor_into w (scale c tl))) as (pre' & Hl & Hr);
      [rewrite xor_into_length; lia|].
    rewrite length_app in Hl, Hr. cbn [length] in Hl, Hr. exists pre'. split; [lia|].
    rewrite <-Hr. do 3 f_equal. lia.
Qed.

Definition zeros (n : Z) : list Z := replicate (Z.to_nat n) 0.

Lemma reedSolomon_divide data n h tl :
  rsGenerator n = h :: tl → Z.of_nat (length tl) = n →
  reedSolomon data n = Some (divide (length data) tl (data ++ zeros n)).
Proof.
  intros Hg Hl. unfold reedSolomon. rewrite Hg. unfold for_range at 1. rewrite Z.sub_0_r.
  destruct (outer_loop h tl (length data) [] (data ++ zeros n)) as (pre & Hp & Hr).
  { unfold zeros. rewrite length_app, length_replicate. lia. }
  cbn [length] in Hp. change (Z.of_nat (length [])) with 0 in Hr. cbn [app] in Hr. unfold zeros in *. rewrite Hr.
  cbn [mbind option_bind]. unfold slice. rewrite !length_app, divide_length, length_app, length_replicate
    by (rewrite length_app; lia).
  cbn [Nat.add] in Hp. rewrite Hp. zcases; try lia.
  cbn [andb]. f_equal. rewrite Nat2Z.id, <-Hp, drop_app_length. apply take_ge.
  rewrite divide_length; rewrite !length_app, length_replicate; lia.
Qed.

(** The remainder the standard asks for: the generator with its leading
    coefficient first. *)
Definition remainder (data : list Z) (n : Z) : list Z :=
  divide (length data) (tail (rev (rsGenerator n))) (data ++ zeros n).

(** A block of codewords is valid when it is a multiple of the generator. *)
Definition valid_block (n : Z) (l : list Z) : Prop :=
  ∀ i, 0 ≤ i < n → peval l (exp_at i) = 0.

Lemma zeros_bytes n : bytes (zeros n).
Proof. apply Forall_replicate, byte_0. Qed.

Lemma peval_replicate x k : byte x → peval (replicate k 0) x = 0.
Proof.
  intros Hx. induction k as [|k IH]; [done|]. cbn [replicate].
  rewrite peval_cons by (gf_side || apply Forall_replicate, byte_0). by rewrite gfMul_0_l, IH.
Qed.

Lemma peval_zeros x n : byte x → peval (zeros n) x = 0.
Proof. apply peval_replicate. Qed.

Lemma bytes_snoc l c : bytes l → byte c → bytes (l ++ [c]).
Proof. intros Hl Hc. apply Forall_app. split; [done|]. constructor; [done|constructor]. Qed.
#[export] Hint Resolve bytes_snoc zeros_bytes : gf.

Lemma remainder_valid data n : 0 ≤ n ≤ 255 → bytes data → valid_block n (data ++ remainder data n).
Proof.
  intros Hn Hd i Hi. destruct (rsGenerator_shape n Hn) as (g & Hg & Hl & Hb & Hr).
  assert (Hx : byte (exp_at i)) by (apply exp_is_byte; lia). specialize (Hr i Hi).
  unfold remainder. rewrite Hg, rev_app_distr in *. cbn [rev app tail] in *.
  assert (Hb' : bytes (rev g)) by by apply Forall_rev. pose proof (zeros_bytes n) as Hz.
  assert (Hdz : bytes (data ++ zeros n)) by by apply Forall_app.
  rewrite peval_app by (gf_side || by apply divide_bytes).
  rewrite peval_divide by (done || unfold zeros; rewrite length_app, length_replicate, length_rev; lia).
  rewrite peval_app, peval_zeros by done. unfold zeros in *.
  rewrite divide_length, length_app, length_replicate by (rewrite length_app; lia).
  replace (length data + Z.to_nat n - length data)%nat with (Z.to_nat n) by lia.
  rewrite Z.lxor_0_r. apply Z.lxor_nilpotent.
Qed.
