(* ===== verification/QrBlocks.v ===== *)
(** * Bit streams and codewords of a QR symbol

    Facts on [buildDataBits], [bitsToCodewords] and [interleave] of [Qr], with
    the functions a reader of the symbol applies in the other direction: the
    bits of a number, the data bits of a payload, and the columns of blocks. *)

From S2P Require Import Prelude GoStrings Qr ReedSolomon.

Local Open Scope string_scope.
Local Open Scope list_scope.
Local Open Scope Z_scope.

(** ** Bits of a number *)

Definition bits_of (v n : Z) : list bool := appendBits [] v n.

Lemma appendBits_app bits v n : appendBits bits v n = bits ++ bits_of v n.
Proof. done. Qed.

Lemma bits_of_length v n : 0 ≤ n → Z.of_nat (length (bits_of v n)) = n.
Proof. intros Hn. unfold bits_of, appendBits. cbn [app]. rewrite length_map, length_rev, length_seqZ. lia. Qed.

(** the number a list of bits writes, most significant bit first *)
Definition number (bits : list bool) : Z := foldl (λ v b, 2 * v + Z.b2z b) 0 bits.

Lemma number_snoc l b : number (l ++ [b]) = 2 * number l + Z.b2z b.
Proof. unfold number. by rewrite foldl_app. Qed.

Lemma map_add_seqZ a b m : map (Z.add a) (seqZ b m) = seqZ (a + b) m.
Proof. exact (fmap_add_seqZ a b m). Qed.

Lemma bits_of_succ v n : 0 ≤ n → bits_of v (n + 1) = bits_of (v / 2) n ++ [Z.odd v].
Proof.
  intros Hn. unfold bits_of, appendBits. cbn [app].
  rewrite seqZ_cons by lia. cbn [rev]. rewrite map_app. f_equal.
  replace (Z.pred (n + 1)) with n by lia. change (Z.succ 0) with (1 + 0).
  rewrite <-map_add_seqZ, <-map_rev, map_map.
  apply map_ext_in. intros i Hi. apply in_rev, list_elem_of_In, elem_of_seqZ in Hi.
  change (v / 2) with (v / 2 ^ 1). rewrite Z.div_pow2_bits by lia. f_equal. lia.
Qed.

Lemma number_bits v n : 0 ≤ n → 0 ≤ v < 2 ^ n → number (bits_of v n) = v.
Proof.
  intros Hn. rewrite <-(Z2Nat.id n) by lia. generalize (Z.to_nat n). intros k. clear. revert v.
  induction k as [|k IH]; intros v Hv.
  { change (2 ^ Z.of_nat 0) with 1 in Hv. assert (v = 0) as -> by lia. done. }
  rewrite Nat2Z.inj_succ in *. rewrite <-Z.add_1_r, bits_of_succ, number_snoc by lia.
  rewrite Z.pow_succ_r in Hv by lia. rewrite IH by (split; [apply Z.div_pos|apply Z.div_lt_upper_bound]; lia).
  pose proof (Z.div2_odd v). rewrite Z.div2_div in *. lia.
Qed.

(** ** Codewords *)

Lemma at_index_shift {A} (u v : list A) i :
  0 ≤ i → at_index (u ++ v) (Z.of_nat (length u) + i) = at_index v i.
Proof.
  intros Hi. unfold at_index. zcases; try lia.
  rewrite lookup_app_r by lia. f_equal. lia.
Qed.

Lemma codeword_shift u v n i :
  Z.of_nat (length u) = 8 * n → 0 ≤ i → codeword (u ++ v) (n + i) = codeword v i.
Proof.
  intros Hu Hi. unfold codeword. cut (∀ b, foldl
    (λ b j, if default false (at_index (u ++ v) ((n + i) * 8 + j)) then Z.lor b (Z.shiftl 1 (7 - j)) else b) b (seqZ 0 8) =
    foldl (λ b j, if default false (at_index v (i * 8 + j)) then Z.lor b (Z.shiftl 1 (7 - j)) else b) b (seqZ 0 8)).
  { intros H. apply H. }
  assert (Hj : Forall (λ j, 0 ≤ j) (seqZ 0 8)).
  { apply Forall_forall. intros j Hj%elem_of_seqZ. lia. }
  induction Hj as [|j l Hj Hl IH]; intros b; [done|]. cbn [foldl].
  replace ((n + i) * 8 + j) with (Z.of_nat (length u) + (i * 8 + j)) by lia.
  rewrite at_index_shift by lia. apply IH.
Qed.

(** the eight bits of a codeword *)
Lemma codeword_bits c v : length c = 8%nat →
  bits_of (codeword (c ++ v) 0) 8 = c ∧ byte (codeword (c ++ v) 0).
Proof.
  intros Hc. do 8 (destruct c as [|? c]; [discriminate Hc|]). destruct c; [|discriminate Hc].
  repeat match goal with x : bool |- _ => destruct x end; (split; [reflexivity|apply byteb_spec; reflexivity]).
Qed.

Lemma codewords_cons c v n : length c = 8%nat → 0 ≤ n →
  bitsToCodewords (c ++ v) (1 + n) = codeword (c ++ v) 0 :: bitsToCodewords v n.
Proof.
  intros Hc Hn. unfold bitsToCodewords. rewrite seqZ_cons by lia. cbn [map]. f_equal.
  replace (Z.pred (1 + n)) with n by lia. change (Z.succ 0) with (1 + 0).
  rewrite <-map_add_seqZ,  map_map.
  apply map_ext_in. intros i Hi. apply list_elem_of_In, elem_of_seqZ in Hi.
  apply codeword_shift; lia.
Qed.

(** the bits of a list of codewords *)
Definition unpack (l : list Z) : list bool := concat (map (λ b, bits_of b 8) l).

Lemma unpack_cons b l : unpack (b :: l) = bits_of b 8 ++ unpack l.
Proof. done. Qed.

Lemma unpack_length l : length (unpack l) = (8 * length l)%nat.
Proof.
  induction l as [|b l IH]; [done|]. rewrite unpack_cons, length_app, IH.
  pose proof (bits_of_length b 8). cbn [length]. lia.
Qed.

Lemma split_8 (l : list bool) : (8 ≤ length l)%nat → ∃ c v, l = c ++ v ∧ length c = 8%nat.
Proof. intros H. exists (take 8 l), (drop 8 l). rewrite take_drop, length_take. split; [done|lia]. Qed.

Lemma pack_facts bits n : length bits = (8 * n)%nat →
  unpack (bitsToCodewords bits (Z.of_nat n)) = bits ∧ bytes (bitsToCodewords bits (Z.of_nat n)).
Proof.
  revert bits. induction n as [|n IH]; intros bits Hl.
  - destruct bits; [|done]. split; [done|constructor].
  - destruct (split_8 bits) as (c & v & -> & Hc); [lia|]. rewrite length_app in Hl.
    replace (Z.of_nat (S n)) with (1 + Z.of_nat n) by lia. rewrite codewords_cons by (done || lia).
    destruct (IH v) as [IH1 IH2]; [lia|]. destruct (codeword_bits c v Hc) as [H1 H2].
    rewrite unpack_cons, H1, IH1. split; [done|by constructor].
Qed.

Lemma codewords_unpack l v : bytes l → bitsToCodewords (unpack l ++ v) (Z.of_nat (length l)) = l.
Proof.
  intros Hl. induction Hl as [|b l Hb Hl IH]; [done|]. rewrite unpack_cons, <-app_assoc.
  cbn [length]. replace (Z.of_nat (S (length l))) with (1 + Z.of_nat (length l)) by lia.
  pose proof (bits_of_length b 8). assert (H8 : length (bits_of b 8) = 8%nat) by lia.
  rewrite codewords_cons, IH by (done || lia). f_equal.
  destruct (codeword_bits _ (unpack l ++ v) H8) as [H1 H2]. unfold byte in *.
  rewrite <-(number_bits (codeword _ 0) 8), H1 by lia. apply number_bits; lia.
Qed.

Lemma bitsToCodewords_length bits n : 0 ≤ n → Z.of_nat (length (bitsToCodewords bits n)) = n.
Proof. intros Hn. unfold bitsToCodewords. rewrite length_map, length_seqZ. lia. Qed.

(** ** The data bits *)

Definition count_bits (ver : Z) : Z := if 10 <=? ver then 16 else 8.

(** What a reader makes of the data bits: the mode, the count and that many
    bytes. *)
Definition take_bits (n : Z) (bits : list bool) : option (Z * list bool) :=
  if n <=? Z.of_nat (length bits)
  then Some (number (take (Z.to_nat n) bits), drop (Z.to_nat n) bits) else None.

Fixpoint read_bytes (k : nat) (bits : list bool) : option (list Z) :=
  match k with
  | O => Some []
  | S k =>
      '(b, bits) ← take_bits 8 bits;
      rest ← read_bytes k bits;
      Some (b :: rest)
  end.

Definition read_payload (ver : Z) (bits : list bool) : option (list Z) :=
  '(mode, bits) ← take_bits 4 bits;
  if negb (mode =? 4) then None else
  '(n, bits) ← take_bits (count_bits ver) bits;
  read_bytes (Z.to_nat n) bits.

Lemma take_bits_of v n bits : 0 ≤ n → 0 ≤ v < 2 ^ n → take_bits n (bits_of v n ++ bits) = Some (v, bits).
Proof.
  intros Hn Hv. pose proof (bits_of_length v n Hn) as Hl. unfold take_bits.
  rewrite length_app. zcases; [|lia].
  replace (Z.to_nat n) with (length (bits_of v n)) by lia.
  by rewrite take_app_length, drop_app_length, number_bits.
Qed.

Lemma read_bytes_unpack data bits : bytes data → read_bytes (length data) (unpack data ++ bits) = Some data.
Proof.
  induction 1 as [|b l Hb Hl IH]; [done|]. cbn [length read_bytes]. rewrite unpack_cons, <-app_assoc.
  rewrite take_bits_of by (unfold byte in Hb; lia). cbn [mbind option_bind]. by rewrite IH.
Qed.

Lemma foldl_append data bits : foldl (λ bits b, appendBits bits b 8) bits data = bits ++ unpack data.
Proof.
  revert bits. induction data as [|b l IH]; intros bits; [by rewrite app_nil_r|].
  cbn [foldl]. rewrite IH, appendBits_app, unpack_cons. by rewrite app_assoc.
Qed.

Lemma pad_bytes_ok cap fuel i bits :
  Z.of_nat (length bits) ≤ cap * 8 → Z.of_nat (length bits) mod 8 = 0 →
  cap * 8 ≤ 8 * Z.of_nat fuel + Z.of_nat (length bits) →
  ∃ pad, pad_bytes fuel i (cap * 8) bits = Some (bits ++ pad) ∧ Z.of_nat (length (bits ++ pad)) = cap * 8.
Proof.
  revert i bits. induction fuel as [|fuel IH]; intros i bits Hle Hmod Hf; cbn [pad_bytes];
    (destruct (Z.ltb_spec (Z.of_nat (length bits)) (cap * 8));
      [|exists []; rewrite app_nil_r; split; [done|lia]]); [lia|].
  rewrite appendBits_app. set (p := if i mod 2 =? 0 then 0xEC else 0x11).
  pose proof (bits_of_length p 8 ltac:(lia)) as Hp.
  destruct (IH (i + 1) (bits ++ bits_of p 8)) as (pad & H1 & H2); rewrite ?length_app; [zlia..|].
  exists (bits_of p 8 ++ pad). by rewrite app_assoc.
Qed.

(** the payload fits the version *)
Definition fits (ver n : Z) : Prop := ∃ dcw, at_index dataCodewordsM (ver - 1) = Some dcw ∧
  1 ≤ ver ≤ 10 ∧ 0 ≤ n < 2 ^ count_bits ver ∧ 4 + count_bits ver + 8 * n ≤ 8 * dcw.

Lemma pick_from_fits caps v n k : pick_from caps v n = k → k ≠ 0 →
  0 < v → ∃ cap, v ≤ k < v + Z.of_nat (length caps) ∧ caps !! Z.to_nat (k - v) = Some cap ∧ n ≤ cap.
Proof.
  revert v. induction caps as [|c caps IH]; intros v; cbn [pick_from]; [by intros <-|].
  destruct (Z.leb_spec n c).
  - intros <- _ _. exists c. rewrite Z.sub_diag. cbn [length]. repeat split; lia || done.
  - intros Hk Hn Hv. destruct (IH (v + 1) Hk Hn ltac:(lia)) as (cap & Hr & Hl & Hc).
    exists cap. cbn [length]. split; [lia|]. split; [|done].
    replace (Z.to_nat (k - v)) with (S (Z.to_nat (k - (v + 1)))) by lia. done.
Qed.

Lemma pick_from_zero caps v n : 0 < v → pick_from caps v n = 0 ↔ Forall (λ c, c < n) caps.
Proof.
  revert v. induction caps as [|c caps IH]; intros v Hv; cbn [pick_from]; [done|].
  rewrite Forall_cons. destruct (Z.leb_spec n c); [split; lia|]. rewrite IH by lia.
  split; [intros H'; split; [lia|done] | by intros [_ H']].
Qed.

Lemma pickVersion_fits n ver : pickVersion n = ver → ver ≠ 0 → 0 ≤ n → fits ver n.
Proof.
  intros Hv Hn H0. destruct (pick_from_fits _ _ _ _ Hv Hn ltac:(lia)) as (cap & Hr & Hl & Hc).
  unfold capByteM in *. cbn [length] in Hr. unfold fits, count_bits.
  assert (Hcases : ver = 1 ∨ ver = 2 ∨ ver = 3 ∨ ver = 4 ∨ ver = 5 ∨ ver = 6 ∨ ver = 7 ∨ ver = 8 ∨ ver = 9 ∨ ver = 10) by lia.
  clear Hv Hn Hr.
  destruct_or! Hcases; subst ver; vm_compute in Hl; injection Hl as <-;
    eexists; (split; [reflexivity|]); cbn [Z.leb Z.compare Pos.compare Pos.compare_cont]; lia.
Qed.

Lemma pickVersion_zero n : pickVersion n = 0 ↔ 213 < n.
Proof.
  unfold pickVersion. rewrite pick_from_zero by lia. unfold capByteM. rewrite !Forall_cons. split; [lia|].
  intros H. repeat split; try lia. constructor.
Qed.

Lemma buildDataBits_ok data ver dcw :
  fits ver (Z.of_nat (length data)) → at_index dataCodewordsM (ver - 1) = Some dcw →
  ∃ pad, Z.of_nat (length (bits_of 4 4 ++ bits_of (Z.of_nat (length data)) (count_bits ver) ++ unpack data ++ bits_of 0 4 ++ pad)) = dcw * 8 ∧
    buildDataBits data ver = Some (bits_of 4 4 ++ bits_of (Z.of_nat (length data)) (count_bits ver) ++ unpack data ++ bits_of 0 4 ++ pad).
Proof.
  intros (dcw' & Hd & Hv & Hn & Hfit) Hdcw. rewrite Hdcw in Hd. injection Hd as <-.
  unfold buildDataBits. rewrite Hdcw. cbn [mbind option_bind]. fold (count_bits ver).
  rewrite foldl_append, !appendBits_app. cbn [app].
  set (hdr := (bits_of 4 4 ++ bits_of (Z.of_nat (length data)) (count_bits ver)) ++ unpack data).
  assert (Hh : Z.of_nat (length hdr) = 4 + count_bits ver + 8 * Z.of_nat (length data)).
  { unfold hdr. rewrite !length_app, unpack_length.
    pose proof (bits_of_length 4 4). pose proof (bits_of_length (Z.of_nat (length data)) (count_bits ver)).
    unfold count_bits in *. destruct (10 <=? ver); lia. }
  assert (Hcb : count_bits ver mod 8 = 0) by (unfold count_bits; by destruct (10 <=? ver)).
  set (term := if 4 <? dcw * 8 - Z.of_nat (length hdr) then 4 else dcw * 8 - Z.of_nat (length hdr)).
  assert (Ht : term = 4).
  { unfold term. zcases; [done|]. zlia. }
  rewrite Ht. cbn [Z.ltb Z.compare].
  assert (Hl : Z.of_nat (length (hdr ++ bits_of 0 4)) = 8 + count_bits ver + 8 * Z.of_nat (length data)).
  { rewrite length_app. pose proof (bits_of_length 0 4). lia. }
  assert (Hm : Z.of_nat (length (hdr ++ bits_of 0 4)) mod 8 = 0) by (rewrite Hl; zlia).
  rewrite Hm. cbn [Z.eqb negb].
  destruct (pad_bytes_ok dcw (Z.to_nat (dcw * 8)) 0 (hdr ++ bits_of 0 4)) as (pad & H1 & H2); [zlia|done|zlia|].
  exists pad. rewrite H1, <-H2. unfold hdr. by rewrite <-!app_assoc.
Qed.

(** The bits give the payload back. *)
Lemma data_bits_read data ver dcw : bytes data →
  fits ver (Z.of_nat (length data)) → at_index dataCodewordsM (ver - 1) = Some dcw →
  ∃ bits, buildDataBits data ver = Some bits ∧ Z.of_nat (length bits) = dcw * 8 ∧
          read_payload ver bits = Some data.
Proof.
  intros Hb Hfit Hd. destruct (buildDataBits_ok data ver dcw Hfit Hd) as (pad & Hl & ->).
  destruct Hfit as (_ & _ & _ & Hn & _). eexists. split; [done|]. split; [done|]. unfold read_payload.
  rewrite take_bits_of by lia. cbn [mbind option_bind]. cbn [Z.eqb negb Pos.eqb].
  rewrite take_bits_of by (unfold count_bits in *; destruct (10 <=? ver); lia).
  cbn [mbind option_bind]. rewrite Nat2Z.id. by apply read_bytes_unpack.
Qed.

(** ** The interleaved codewords

    [interleave] of [Qr] never fails on the layouts of the table, and its
    result is the columns of the data blocks followed by the columns of their
    error-correction blocks; a reader gets the data codewords back. *)

Local Open Scope string_scope.
Local Open Scope list_scope.
Local Open Scope Z_scope.

(** ** Loops *)

Lemma for_each_app {A St} (l1 l2 : list A) (body : A → St → option St) s :
  for_each (l1 ++ l2) body s = (s' ← for_each l1 body s; for_each l2 body s').
Proof.
  revert s. induction l1 as [|a l1 IH]; intros s; [done|]. cbn [app for_each].
  destruct (body a s) as [s'|]; [|done]. cbn [mbind option_bind]. apply IH.
Qed.

Lemma for_each_map {A B St} (f : A → B) (l : list A) (body : B → St → option St) s :
  for_each (map f l) body s = for_each l (λ a, body (f a)) s.
Proof.
  revert s. induction l as [|a l IH]; intros s; [done|]. cbn [map for_each].
  destruct (body (f a) s); [|done]. cbn [mbind option_bind]. apply IH.
Qed.

(** a loop that appends *)
Lemma for_each_append {A B} (l : list A) (g : A → list B) (body : A → list B → option (list B)) out :
  (∀ a out, a ∈ l → body a out = Some (out ++ g a)) → for_each l body out = Some (out ++ concat (map g l)).
Proof.
  revert out. induction l as [|a l IH]; intros out Hb; cbn [for_each map concat]; [by rewrite app_nil_r|].
  rewrite Hb by left. cbn [mbind option_bind]. rewrite IH by (intros; apply Hb; by right).
  by rewrite app_assoc.
Qed.

Lemma for_range_nat {St} (n : nat) (body : Z → St → option St) s :
  for_range 0 (Z.of_nat n) body s = for_each (map Z.of_nat (List.seq 0 n)) body s.
Proof. unfold for_range, seqZ. rewrite Z.sub_0_r, Nat2Z.id. f_equal. apply map_ext. intros i. lia. Qed.

(** ** Columns of blocks *)

Definition column {A} (rows : list (list A)) (c : nat) : list A := omap (λ r, r !! c) rows.
Definition columns {A} (n : nat) (rows : list (list A)) : list A := concat (map (column rows) (List.seq 0 n)).

Fixpoint chunks {A} (count cw : nat) (l : list A) : list (list A) :=
  match count with
  | O => []
  | S count => take cw l :: chunks count cw (drop cw l)
  end.

Definition g1 lay := Z.to_nat (bl_g1 lay).
Definition g1cw lay := Z.to_nat (bl_g1cw lay).
Definition g2 lay := Z.to_nat (bl_g2 lay).
Definition g2cw lay := Z.to_nat (bl_g2cw lay).

(** the data blocks of a layout *)
Definition rows {A} (lay : blockLayout) (l : list A) : list (list A) :=
  chunks (g1 lay) (g1cw lay) l ++ chunks (g2 lay) (g2cw lay) (drop (g1 lay * g1cw lay) l).

Lemma column_map {A B} (f : A → B) rs c : column (map (map f) rs) c = map f (column rs c).
Proof.
  unfold column. induction rs as [|r rs IH]; [done|]. cbn [map omap list_omap].
  change (map f r) with (f <$> r). rewrite list_lookup_fmap.
  destruct (r !! c); cbn [fmap option_fmap option_map map]; rewrite IH; done.
Qed.

Lemma columns_map {A B} (f : A → B) n rs : columns n (map (map f) rs) = map f (columns n rs).
Proof.
  unfold columns. rewrite concat_map, map_map. f_equal. apply map_ext. intros c. apply column_map.
Qed.

Lemma chunks_map {A B} (f : A → B) k cw l : chunks k cw (map f l) = map (map f) (chunks k cw l).
Proof.
  revert l. induction k as [|k IH]; intros l; [done|]. cbn [chunks map].
  rewrite <-IH. change (map f l) with (f <$> l). by rewrite <-fmap_take, <-fmap_drop.
Qed.

Lemma rows_map {A B} (f : A → B) lay l : rows lay (map f l) = map (map f) (rows lay l).
Proof.
  unfold rows. rewrite map_app, !chunks_map. do 2 f_equal.
  change (map f l) with (f <$> l). rewrite <-fmap_drop. apply chunks_map.
Qed.

(** where a reader finds the data codeword [c] of block [b] *)
Definition position (lay : blockLayout) (b c : nat) : nat :=
  if (c <? g1cw lay)%nat then c * (g1 lay + g2 lay) + b
  else g1cw lay * (g1 lay + g2 lay) + (b - g1 lay).

Definition positions (lay : blockLayout) : list nat :=
  flat_map (λ b, map (position lay b) (List.seq 0 (if (b <? g1 lay)%nat then g1cw lay else g2cw lay)))
    (List.seq 0 (g1 lay + g2 lay)).

Definition deinterleave {A} (lay : blockLayout) (l : list A) : list A :=
  omap (λ p, l !! p) (positions lay).

Lemma deinterleave_map {A B} (f : A → B) lay l : deinterleave lay (map f l) = map f (deinterleave lay l).
Proof.
  unfold deinterleave. induction (positions lay) as [|p ps IH]; [done|]. cbn [omap list_omap].
  change (map f l) with (f <$> l) at 1. rewrite list_lookup_fmap.
  destruct (l !! p); cbn [fmap option_fmap option_map map]; rewrite IH; done.
Qed.

Definition widest (lay : blockLayout) : nat := Nat.max (g1cw lay) (g2cw lay).

(** the data codewords of the layout, and the codewords of the symbol *)
Definition total_data (lay : blockLayout) : nat := g1 lay * g1cw lay + g2 lay * g2cw lay.

Lemma map_nth_seq {A} (d : A) (l : list A) : map (λ i, nth i l d) (List.seq 0 (length l)) = l.
Proof.
  induction l as [|x l IH]; [done|]. cbn [length List.seq map]. f_equal.
  rewrite <-seq_shift, map_map. apply IH.
Qed.

(** Reading the columns of the layouts of the table gives the blocks back. *)
Lemma deinterleave_columns vi lay (l : list Z) :
  at_index blocksM vi = Some lay → length l = total_data lay →
  deinterleave lay (columns (widest lay) (rows lay l)) = l ∧
  length (columns (widest lay) (rows lay l)) = length l.
Proof.
  intros Hlay Hl. rewrite <-(map_nth_seq 0 l) at 1 3. rewrite <-(map_nth_seq 0 l) at 2.
  rewrite rows_map, columns_map, deinterleave_map, length_map.
  rewrite Hl. assert (Hok : deinterleave lay (columns (widest lay) (rows lay (List.seq 0 (total_data lay)))) = List.seq 0 (total_data lay)
    ∧ length (columns (widest lay) (rows lay (List.seq 0 (total_data lay)))) = total_data lay).
  { unfold at_index in Hlay. destruct (vi <? 0); [done|]. apply list_elem_of_lookup_2 in Hlay.
    revert lay Hlay Hl. intros lay Hlay _. clear -Hlay. revert lay Hlay. apply Forall_forall.
    repeat constructor; vm_compute; reflexivity. }
  destruct Hok as [-> ->]. split; [|done]. by rewrite <-Hl, map_nth_seq.
Qed.

(** ** [interleave] *)

(** the error-correction codewords [reedSolomon] computes *)
Definition ec_words (n : Z) (d : list Z) : list Z :=
  divide (length d) (tail (rsGenerator n)) (d ++ zeros n).

Lemma generator_split n : 0 < n ≤ 255 → ∃ h tl,
  rsGenerator n = h :: tl ∧ Z.of_nat (length tl) = n ∧ bytes tl.
Proof.
  intros Hn. destruct (rsGenerator_shape n) as (g & Hg & Hl & Hb & _); [lia|].
  destruct g as [|h g]; [cbn in Hl; lia|]. exists h, (g ++ [1]). rewrite length_app. cbn [length] in *.
  apply Forall_cons in Hb as [_ Hb]. split_and!; [done|lia|].
  apply Forall_app. split; [done|]. constructor; [apply byte_1|constructor].
Qed.

Lemma reedSolomon_words d n : 0 < n ≤ 255 → bytes d →
  reedSolomon d n = Some (ec_words n d) ∧ Z.of_nat (length (ec_words n d)) = n ∧ bytes (ec_words n d).
Proof.
  intros Hn Hd. destruct (generator_split n Hn) as (h & tl & Hg & Hl & Hb). unfold ec_words.
  rewrite (reedSolomon_divide _ _ h tl) by done. rewrite Hg. cbn [tail]. split; [done|].
  pose proof (zeros_bytes n). unfold zeros in *. split.
  - rewrite divide_length; rewrite length_app, length_replicate; lia.
  - apply divide_bytes; [done|by apply Forall_app].
Qed.

Lemma chunks_bytes k cw l : bytes l → Forall bytes (chunks k cw l).
Proof.
  revert l. induction k as [|k IH]; intros l Hl; constructor; [by apply Forall_take|].
  apply IH. by apply Forall_drop.
Qed.

Lemma rows_bytes lay l : bytes l → Forall bytes (rows lay l).
Proof. intros Hl. apply Forall_app. split; apply chunks_bytes; [done|by apply Forall_drop]. Qed.

Definition to_block (ecLen : Z) (d : list Z) : block := mkBlock d (ec_words ecLen d).

Lemma slice_ok {A} (l : list A) a n : (a + n ≤ length l)%nat →
  slice l (Z.of_nat a) (Z.of_nat a + Z.of_nat n) = Some (take n (drop a l)).
Proof.
  intros H. unfold slice. zcases; try lia. cbn [andb]. rewrite Nat2Z.id. do 2 f_equal. lia.
Qed.

Lemma addBlocks_ok ecLen dataCW k cw pos bs :
  0 < ecLen ≤ 255 → bytes dataCW → (pos + k * cw ≤ length dataCW)%nat →
  addBlocks dataCW ecLen (Z.of_nat k) (Z.of_nat cw) (Z.of_nat pos, bs)
  = Some (Z.of_nat (pos + k * cw), bs ++ map (to_block ecLen) (chunks k cw (drop pos dataCW))).
Proof.
  intros He Hd. unfold addBlocks. rewrite for_range_nat. generalize 0%nat. revert pos bs.
  induction k as [|k IH]; intros pos bs i Hl; cbn [List.seq map for_each chunks].
  { rewrite app_nil_r. do 2 f_equal. lia. }
  rewrite slice_ok by lia. cbn [mbind option_bind].
  destruct (reedSolomon_words (take cw (drop pos dataCW)) ecLen) as [-> _];
    [done|by apply Forall_take, Forall_drop|].
  cbn [mbind option_bind]. rewrite <-Nat2Z.inj_add. rewrite IH by lia. rewrite drop_drop.
  rewrite <-app_assoc. cbn [app]. do 2 f_equal. lia.
Qed.

Lemma column_step (f : block → list Z) ecLen c ds out :
  for_each (map (to_block ecLen) ds) (λ bl out,
      if Z.of_nat c <? Z.of_nat (length (bk_data bl))
      then b ← at_index (bk_data bl) (Z.of_nat c); Some (out ++ [b]) else Some out) out
  = Some (out ++ column ds c).
Proof.
  rewrite for_each_map. rewrite (for_each_append _ (λ d, option_list (d !! c))).
  - do 2 f_equal. unfold column. induction ds as [|d ds IH]; [done|]. cbn [map concat omap list_omap].
    rewrite IH. by destruct (d !! c).
  - intros d o _. cbn [to_block bk_data]. unfold at_index.
    destruct (Z.ltb_spec (Z.of_nat c) 0); [lia|]. rewrite Nat2Z.id.
    destruct (Z.ltb_spec (Z.of_nat c) (Z.of_nat (length d))).
    + destruct (lookup_lt_is_Some_2 d c) as [x ->]; [lia|done].
    + rewrite lookup_ge_None_2 by lia. cbn [option_list]. by rewrite app_nil_r.
Qed.

Lemma ec_column_step ecLen c ds out :
  0 < ecLen ≤ 255 → Forall bytes ds → (Z.of_nat c < ecLen) →
  for_each (map (to_block ecLen) ds) (λ bl out, b ← at_index (bk_ec bl) (Z.of_nat c); Some (out ++ [b])) out
  = Some (out ++ column (map (ec_words ecLen) ds) c).
Proof.
  intros He Hds Hc. rewrite for_each_map. rewrite (for_each_append _ (λ d, option_list (ec_words ecLen d !! c))).
  - do 2 f_equal. unfold column. induction ds as [|d ds IH]; [done|]. cbn [map concat omap list_omap].
    apply Forall_cons in Hds as [_ Hds]. rewrite IH by done. by destruct (ec_words ecLen d !! c).
  - intros d o Hd. cbn [to_block bk_ec]. unfold at_index.
    destruct (Z.ltb_spec (Z.of_nat c) 0); [lia|]. rewrite Nat2Z.id.
    rewrite Forall_forall in Hds. destruct (reedSolomon_words d ecLen He (Hds d Hd)) as (_ & Hl & _).
    destruct (lookup_lt_is_Some_2 (ec_words ecLen d) c) as [x ->]; [lia|done].
Qed.

(** the result of [interleave] *)
Definition interleaved (lay : blockLayout) (ecLen : Z) (dataCW : list Z) : list Z :=
  columns (widest lay) (rows lay dataCW) ++
  columns (Z.to_nat ecLen) (map (ec_words ecLen) (rows lay dataCW)).

Definition layout_ok (lay : blockLayout) (ecLen n : Z) : bool :=
  (0 <=? bl_g1 lay) && (0 <=? bl_g1cw lay) && (0 <=? bl_g2 lay) && (0 <=? bl_g2cw lay) &&
  (0 <? ecLen) && (ecLen <=? 255) && (Z.of_nat (total_data lay) =? n).

(** the tables agree on every version *)
Lemma tables_agree ver : 1 ≤ ver ≤ 10 → ∃ lay ecLen n,
  at_index blocksM (ver - 1) = Some lay ∧ at_index ecPerBlockM (ver - 1) = Some ecLen ∧
  at_index dataCodewordsM (ver - 1) = Some n ∧ layout_ok lay ecLen n = true.
Proof.
  intros Hv. assert (Hc : ver = 1 ∨ ver = 2 ∨ ver = 3 ∨ ver = 4 ∨ ver = 5 ∨ ver = 6 ∨ ver = 7 ∨ ver = 8 ∨
    ver = 9 ∨ ver = 10) by lia.
  destruct_or! Hc; subst ver; do 3 eexists; (split_and!; [reflexivity..|vm_compute; reflexivity]).
Qed.

Lemma interleave_ok vi lay ecLen n dataCW :
  at_index blocksM vi = Some lay → at_index ecPerBlockM vi = Some ecLen →
  layout_ok lay ecLen n = true → Z.of_nat (length dataCW) = n → bytes dataCW →
  interleave dataCW vi = Some (interleaved lay ecLen dataCW).
Proof.
  intros Hlay Hec Hok Hn Hb. unfold layout_ok in Hok. bool_prop. unfold interleave.
  rewrite Hlay, Hec. cbn [mbind option_bind]. unfold total_data in *.
  assert (Hg1 : addBlocks dataCW ecLen (bl_g1 lay) (bl_g1cw lay) (0, []) =
    Some (Z.of_nat (g1 lay * g1cw lay), map (to_block ecLen) (chunks (g1 lay) (g1cw lay) dataCW))).
  { pose proof (addBlocks_ok ecLen dataCW (g1 lay) (g1cw lay) 0 []) as Hg1. unfold g1, g1cw in *.
    rewrite !Z2Nat.id in Hg1 by done. apply Hg1; [lia|done|lia]. }
  rewrite Hg1. cbn [mbind option_bind].
  assert (Hs : (if 0 <? bl_g2 lay
     then addBlocks dataCW ecLen (bl_g2 lay) (bl_g2cw lay)
            (Z.of_nat (g1 lay * g1cw lay), map (to_block ecLen) (chunks (g1 lay) (g1cw lay) dataCW))
     else Some (Z.of_nat (g1 lay * g1cw lay), map (to_block ecLen) (chunks (g1 lay) (g1cw lay) dataCW)))
    = Some (Z.of_nat (g1 lay * g1cw lay + g2 lay * g2cw lay), map (to_block ecLen) (rows lay dataCW))).
  { destruct (Z.ltb_spec 0 (bl_g2 lay)).
    - pose proof (addBlocks_ok ecLen dataCW (g2 lay) (g2cw lay) (g1 lay * g1cw lay)
        (map (to_block ecLen) (chunks (g1 lay) (g1cw lay) dataCW))) as H2'.
      unfold rows. rewrite map_app. unfold g2, g2cw in *. rewrite !Z2Nat.id in H2' by done.
      apply H2'; [lia|done|lia].
    - assert (Hz : g2 lay = 0%nat) by (unfold g2; lia). unfold rows. rewrite Hz. cbn [chunks].
      by rewrite app_nil_r, Nat.add_0_r. }
  rewrite Hs. cbn [mbind option_bind snd]. set (ds := rows lay dataCW).
  assert (Hds : Forall bytes ds) by by apply rows_bytes.
  replace (if bl_g1cw lay <? bl_g2cw lay then bl_g2cw lay else bl_g1cw lay) with (Z.of_nat (widest lay))
    by (unfold widest, g1cw, g2cw; zcases; lia).
  rewrite for_range_nat, for_each_map.
  rewrite (for_each_append _ (column ds)) by (intros c o _; by apply (column_step bk_data)).
  cbn [mbind option_bind app].
  replace ecLen with (Z.of_nat (Z.to_nat ecLen)) at 1 by lia. rewrite for_range_nat, for_each_map.
  rewrite (for_each_append _ (column (map (ec_words ecLen) ds))); [done|].
  intros c o Hc. apply elem_of_seq in Hc. apply ec_column_step; [lia|done|lia].
Qed.

Lemma column_full {A} (rs : list (list A)) n c :
  Forall (λ r, length r = n) rs → (c < n)%nat → length (column rs c) = length rs.
Proof.
  intros Hr Hc. unfold column. induction Hr as [|r rs Hr Hrs IH]; [done|]. cbn [omap list_omap].
  destruct (lookup_lt_is_Some_2 r c) as [x ->]; [lia|]. cbn [length]. by rewrite IH.
Qed.

Lemma columns_full_length {A} (rs : list (list A)) n :
  Forall (λ r, length r = n) rs → length (columns n rs) = (n * length rs)%nat.
Proof.
  intros Hr. unfold columns. assert (Hall : ∀ l, Forall (λ c, c < n)%nat l →
    length (concat (map (column rs) l)) = (length l * length rs)%nat).
  { induction 1 as [|c l Hc Hl IH]; [done|]. cbn [map concat length].
    rewrite length_app, IH, (column_full _ n) by done. lia. }
  rewrite Hall, length_seq; [done|]. apply Forall_forall. intros c Hc%elem_of_seq. lia.
Qed.

Lemma chunks_length {A} k cw (l : list A) : length (chunks k cw l) = k.
Proof. revert l. induction k as [|k IH]; intros l; [done|]. cbn [chunks length]. by rewrite IH. Qed.

Lemma rows_length {A} lay (l : list A) : length (rows lay l) = (g1 lay + g2 lay)%nat.
Proof. unfold rows. by rewrite length_app, !chunks_length. Qed.

Lemma interleaved_length vi lay ecLen n dataCW :
  at_index blocksM vi = Some lay → layout_ok lay ecLen n = true →
  Z.of_nat (length dataCW) = n → bytes dataCW →
  length (interleaved lay ecLen dataCW) = (total_data lay + Z.to_nat ecLen * (g1 lay + g2 lay))%nat.
Proof.
  intros Hlay Hok Hn Hb. unfold layout_ok in Hok. bool_prop. unfold interleaved. rewrite length_app.
  destruct (deinterleave_columns vi lay dataCW) as [_ ->]; [done|lia|].
  rewrite columns_full_length; [rewrite length_map, rows_length; lia|].
  apply Forall_map, Forall_forall. intros d Hd.
  pose proof (rows_bytes lay dataCW Hb) as Hr. rewrite Forall_forall in Hr.
  destruct (reedSolomon_words d ecLen) as (_ & Hl & _); [lia|by apply Hr|lia].
Qed.

Lemma column_bytes rs c : Forall bytes rs → bytes (column rs c).
Proof.
  unfold column. induction 1 as [|r rs Hr Hrs IH]; [constructor|]. cbn [omap list_omap].
  destruct (r !! c) as [x|] eqn:E; [|done]. constructor; [|done]. exact (Forall_lookup_1 _ _ _ _ Hr E).
Qed.

Lemma columns_bytes n rs : Forall bytes rs → bytes (columns n rs).
Proof.
  intros Hr. unfold columns. apply Forall_concat, Forall_map, Forall_forall. intros c _. by apply column_bytes.
Qed.

Lemma interleaved_bytes lay ecLen dataCW : 0 < ecLen ≤ 255 → bytes dataCW → bytes (interleaved lay ecLen dataCW).
Proof.
  intros He Hb. pose proof (rows_bytes lay dataCW Hb) as Hr. apply Forall_app.
  split; apply columns_bytes; [done|]. apply Forall_map. eapply Forall_impl; [exact Hr|].
  intros d Hd. apply (reedSolomon_words d ecLen He Hd).
Qed.
