(* ===== verification/QrSymbol.v ===== *)
(** * The matrix of a QR symbol

    Reading and writing modules of a square matrix, the zig-zag walk of
    [placeData] as a list of cells, and what a pass of [placeData],
    [writeFormat] and [writeVersion] leaves in the cells.  Then whole symbols:
    the versions, one masked symbol, the penalties and the choice of the mask,
    none of which indexes out of range or runs out of fuel. *)

From S2P Require Import Prelude GoStrings Qr ReedSolomon QrBlocks.

Local Open Scope string_scope.
Local Open Scope list_scope.
Local Open Scope Z_scope.

(** ** Square matrices *)

Definition square (n : Z) (g : list (list bool)) : Prop :=
  Z.of_nat (length g) = n ∧ Forall (λ r, Z.of_nat (length r) = n) g.

Definition inside (n : Z) (c : Z * Z) : Prop := 0 ≤ c.1 < n ∧ 0 ≤ c.2 < n.

(** the module at row [c.1], column [c.2] *)
Definition cell (g : list (list bool)) (c : Z * Z) : bool := default false (get2 g c.1 c.2).

Lemma at_index_some {A} (l : list A) i : 0 ≤ i < Z.of_nat (length l) →
  ∃ x, at_index l i = Some x ∧ l !! Z.to_nat i = Some x.
Proof.
  intros Hi. unfold at_index. destruct (Z.ltb_spec i 0); [lia|].
  destruct (lookup_lt_is_Some_2 l (Z.to_nat i)) as [x Hx]; [lia|]. by exists x.
Qed.

Lemma get2_ok n g c : square n g → inside n c → get2 g c.1 c.2 = Some (cell g c).
Proof.
  intros [Hl Hr] [Hy Hx]. unfold cell, get2.
  destruct (at_index_some g c.1) as (r & -> & Hg); [lia|]. cbn [mbind option_bind].
  pose proof (Forall_lookup_1 _ _ _ _ Hr Hg) as Hn. cbv beta in Hn.
  destruct (at_index_some r c.2) as (b & -> & _); [lia|done].
Qed.

Lemma get2_at n g y x : square n g → 0 ≤ y < n → 0 ≤ x < n → get2 g y x = Some (cell g (y, x)).
Proof. intros Hg Hy Hx. by apply (get2_ok n g (y, x)). Qed.

Lemma at_index_insert {A} (l : list A) i j x : 0 ≤ i < Z.of_nat (length l) →
  at_index (<[Z.to_nat i := x]> l) j = if decide (j = i) then Some x else at_index l j.
Proof.
  intros Hi. unfold at_index. destruct (decide (j = i)) as [-> | Hne].
  - zcases; [lia|]. rewrite list_lookup_insert_eq by lia. done.
  - zcases; [done|]. rewrite list_lookup_insert_ne by lia. done.
Qed.

Lemma put2_ok n g c b : square n g → inside n c → ∃ g', put2 g c.1 c.2 b = Some g' ∧ square n g' ∧
  ∀ d, cell g' d = if decide (d = c) then b else cell g d.
Proof.
  intros [Hl Hr] [Hy Hx]. destruct c as [y x]. cbn [fst snd] in *. unfold put2.
  destruct (at_index_some g y) as (r & Hgy & Hg); [lia|]. rewrite Hgy. cbn [mbind option_bind].
  pose proof (Forall_lookup_1 _ _ _ _ Hr Hg) as Hn. cbv beta in Hn.
  unfold set_index. destruct (Z.leb_spec 0 x); [|lia]. destruct (Z.ltb_spec x (Z.of_nat (length r))); [|lia].
  destruct (Z.leb_spec 0 y); [|lia]. destruct (Z.ltb_spec y (Z.of_nat (length g))); [|lia].
  cbn [andb mbind option_bind]. eexists. split; [done|]. split.
  - split; [by rewrite length_insert|]. apply Forall_insert; [done|]. by rewrite length_insert.
  - intros [y' x']. unfold cell, get2. cbn [fst snd]. rewrite at_index_insert by lia.
    destruct (decide (y' = y)) as [-> | Hne]; cbn [mbind option_bind].
    + rewrite at_index_insert by lia. rewrite Hgy. cbn [mbind option_bind].
      destruct (decide (x' = x)) as [-> | Hne]; [by rewrite decide_True|].
      rewrite decide_False by congruence. done.
    + rewrite decide_False by congruence. done.
Qed.

(** ** Well-formed matrices *)

Record wf (n : Z) (m : matrix) : Prop := {
  wf_size : m_size m = n;
  wf_val : square n (m_val m);
  wf_fn : square n (m_fn m);
}.

Lemma put_val_ok n m c b : wf n m → inside n c → ∃ m', put_val c.1 c.2 b m = Some m' ∧ wf n m' ∧
  m_fn m' = m_fn m ∧ ∀ d, cell (m_val m') d = if decide (d = c) then b else cell (m_val m) d.
Proof.
  intros [Hs Hv Hf] Hc. unfold put_val.
  destruct (put2_ok n (m_val m) c b Hv Hc) as (g' & -> & Hg' & Hcell). cbn [mbind option_bind].
  eexists. split; [done|]. by split; [constructor|].
Qed.

(** a list of writes *)
Lemma put_vals_ok n (ws : list ((Z * Z) * bool)) m : wf n m → Forall (λ w, inside n w.1) ws →
  ∃ m', for_each ws (λ w, put_val w.1.1 w.1.2 w.2) m = Some m' ∧ wf n m' ∧ m_fn m' = m_fn m ∧
    (∀ d, d ∉ map fst ws → cell (m_val m') d = cell (m_val m) d) ∧
    (NoDup (map fst ws) → ∀ w, w ∈ ws → cell (m_val m') w.1 = w.2).
Proof.
  intros Hm Hws. revert m Hm. induction Hws as [|w ws Hw Hws IH]; intros m Hm; cbn [for_each map].
  - exists m. split_and!; [done..|]. intros _ w Hw. by apply elem_of_nil in Hw.
  - destruct (put_val_ok n m w.1 w.2 Hm Hw) as (m1 & -> & Hm1 & Hf1 & Hc1). cbn [mbind option_bind].
    destruct (IH m1 Hm1) as (m' & -> & Hm' & Hf' & Hout & Hin). exists m'.
    split_and!; [done|done|congruence| |].
    + intros d [Hd1 Hd2]%not_elem_of_cons. rewrite Hout, Hc1, decide_False by done. done.
    + intros [Hnot Hnd]%NoDup_cons u [-> | Hu]%elem_of_cons.
      * by rewrite Hout, Hc1, decide_True.
      * by apply Hin.
Qed.

(** ** The walk of [placeData] *)

Definition column_walk (size col : Z) (up : bool) : list (Z * Z) :=
  flat_map (λ n, let y := if up then size - 1 - n else n in [(y, col); (y, col - 1)]) (seqZ 0 size).

Fixpoint walk_from (fuel : nat) (size col : Z) (up : bool) : list (Z * Z) :=
  match fuel with
  | O => []
  | S fuel =>
      if 0 <? col then
        let col := if col =? 6 then col - 1 else col in
        column_walk size col up ++ walk_from fuel size (col - 2) (negb up)
      else []
  end.

Definition walk (size : Z) : list (Z * Z) := walk_from (Z.to_nat size) size (size - 1) true.

Definition visit (data : list Z) (mask : Z) (c : Z * Z) (s : matrix * Z) : option (matrix * Z) :=
  place_bit data mask c.2 c.1 s.

Lemma visit_size data mask c s s' : visit data mask c s = Some s' → m_size s'.1 = m_size s.1.
Proof.
  unfold visit, place_bit. destruct s as [m bit]. cbn [fst].
  destruct (get2 (m_fn m) c.1 c.2) as [[]|]; cbn [mbind option_bind]; [by intros [= <-]| |done].
  unfold put_val. destruct (put2 _ _ _ _); cbn [mbind option_bind]; [|done]. by intros [= <-].
Qed.

Lemma visits_size data mask ws s s' : for_each ws (visit data mask) s = Some s' → m_size s'.1 = m_size s.1.
Proof.
  revert s. induction ws as [|w ws IH]; intros s; cbn [for_each]; [by intros [= <-]|].
  destruct (visit data mask w s) as [s1|] eqn:E; [|done]. cbn [mbind option_bind].
  intros H. rewrite (IH s1 H). by eapply visit_size.
Qed.

Lemma for_each_flat_map {A B St} (g : A → list B) (l : list A) (body : B → St → option St) s :
  for_each (flat_map g l) body s = for_each l (λ a, for_each (g a) body) s.
Proof.
  revert s. induction l as [|a l IH]; intros s; [done|]. cbn [flat_map for_each].
  rewrite for_each_app. destruct (for_each (g a) body s); [|done]. cbn [mbind option_bind]. apply IH.
Qed.

Lemma for_each_ext {A St} (l : list A) (f g : A → St → option St) s :
  (∀ a s, f a s = g a s) → for_each l f s = for_each l g s.
Proof.
  intros H. revert s. induction l as [|a l IH]; intros s; [done|]. cbn [for_each]. rewrite H.
  destruct (g a s); [|done]. apply IH.
Qed.

Lemma place_column_walk data mask col up s :
  place_column data mask col up s = for_each (column_walk (m_size s.1) col up) (visit data mask) s.
Proof.
  unfold place_column, column_walk. rewrite for_each_flat_map. unfold for_range at 1.
  rewrite Z.sub_0_r. apply for_each_ext. intros n t. unfold for_range.
  change (seqZ 0 (2 - 0)) with [0; 1]. cbn [for_each]. unfold visit. cbn [fst snd]. by rewrite Z.sub_0_r.
Qed.

Lemma place_columns_walk data mask size fuel col up s :
  m_size s.1 = size → col ≤ 2 * Z.of_nat fuel →
  place_columns fuel data mask col up s = for_each (walk_from fuel size col up) (visit data mask) s.
Proof.
  revert col up s. induction fuel as [|fuel IH]; intros col up s Hs Hc; cbn [place_columns walk_from].
  - destruct (Z.ltb_spec 0 col); [lia|done].
  - destruct (Z.ltb_spec 0 col); [|done]. set (col' := if col =? 6 then col - 1 else col).
    rewrite for_each_app, place_column_walk, Hs.
    destruct (for_each (column_walk size col' up) (visit data mask) s) as [s1|] eqn:E; [|done].
    cbn [mbind option_bind]. apply IH; [by rewrite (visits_size _ _ _ _ _ E)|].
    unfold col'. destruct (col =? 6); lia.
Qed.

Lemma column_walk_cells size col up c :
  c ∈ column_walk size col up → (c.2 = col ∨ c.2 = col - 1) ∧ 0 ≤ c.1 < size.
Proof.
  unfold column_walk. rewrite list_elem_of_In, in_flat_map. intros (n & Hn & Hc).
  apply list_elem_of_In, elem_of_seqZ in Hn. cbn [In] in Hc.
  destruct Hc as [<- | [<- | []]]; cbn [fst snd]; destruct up; lia.
Qed.

Lemma NoDup_flat_map {A B} (g : A → list B) (l : list A) :
  NoDup l → (∀ a, a ∈ l → NoDup (g a)) →
  (∀ a b x, a ∈ l → b ∈ l → x ∈ g a → x ∈ g b → a = b) → NoDup (flat_map g l).
Proof.
  intros Hl. induction Hl as [|a l Ha Hl IH]; intros Hg Hd; [constructor|]. cbn [flat_map].
  apply NoDup_app. split_and!.
  - apply Hg. left.
  - intros x Hx Hx'. apply list_elem_of_In, in_flat_map in Hx' as (b & Hb & Hxb).
    apply list_elem_of_In in Hb, Hxb. assert (a = b) as -> by (eapply Hd; [left|by right|done|done]). done.
  - apply IH; [intros b Hb; apply Hg; by right|]. intros b c x Hb Hc. apply Hd; by right.
Qed.

Lemma column_walk_NoDup size col up : NoDup (column_walk size col up).
Proof.
  apply NoDup_flat_map.
  - apply NoDup_seqZ.
  - intros n _. constructor; [|constructor; [|constructor]].
    + rewrite list_elem_of_singleton. intros [=]. lia.
    + apply not_elem_of_nil.
  - intros a b c _ _ Ha Hb. apply elem_of_cons in Ha as [-> | Ha%list_elem_of_singleton]; [|subst c];
      apply elem_of_cons in Hb as [[= Hb] | [= Hb]%list_elem_of_singleton]; destruct up; lia.
Qed.

Lemma walk_cells fuel size col up c :
  c ∈ walk_from fuel size col up → 0 ≤ c.2 ≤ col ∧ 0 ≤ c.1 < size.
Proof.
  revert col up. induction fuel as [|fuel IH]; intros col up; cbn [walk_from]; [by intros []%elem_of_nil|].
  destruct (Z.ltb_spec 0 col); [|by intros []%elem_of_nil].
  destruct (Z.eqb_spec col 6); intros [Hc|Hc]%elem_of_app;
    (apply column_walk_cells in Hc || apply IH in Hc); lia.
Qed.

Lemma walk_NoDup fuel size col up : NoDup (walk_from fuel size col up).
Proof.
  revert col up. induction fuel as [|fuel IH]; intros col up; cbn [walk_from]; [constructor|].
  destruct (Z.ltb_spec 0 col); [|constructor]. apply NoDup_app. split_and!; [apply column_walk_NoDup| |apply IH].
  intros c Hc Hc'. apply column_walk_cells in Hc. apply walk_cells in Hc'. lia.
Qed.

Lemma walk_inside size : Forall (inside size) (walk size).
Proof.
  apply Forall_forall. intros c Hc. unfold walk in Hc. apply walk_cells in Hc. unfold inside. lia.
Qed.

(** ** A pass of [placeData] *)

Definition free (fn : list (list bool)) (ws : list (Z * Z)) : list (Z * Z) :=
  List.filter (λ c, negb (cell fn c)) ws.

Lemma elem_of_free fn ws c : c ∈ free fn ws ↔ c ∈ ws ∧ cell fn c = false.
Proof. unfold free. rewrite list_elem_of_In, filter_In, <-list_elem_of_In, negb_true_iff. done. Qed.

Lemma visit_eq data mask c m bit :
  visit data mask c (m, bit) =
  (f ← get2 (m_fn m) c.1 c.2;
   if f : bool then Some (m, bit) else
   m ← put_val c.1 c.2 (if maskFn mask c.2 c.1 then negb (bitAt data bit) else bitAt data bit) m;
   Some (m, bit + 1)).
Proof. done. Qed.

Lemma visits_ok n data mask ws m bit :
  wf n m → Forall (inside n) ws → NoDup ws →
  ∃ m', for_each ws (visit data mask) (m, bit) = Some (m', bit + Z.of_nat (length (free (m_fn m) ws))) ∧
    wf n m' ∧ m_fn m' = m_fn m ∧
    (∀ d, d ∉ free (m_fn m) ws → cell (m_val m') d = cell (m_val m) d) ∧
    map (λ c, xorb (maskFn mask c.2 c.1) (cell (m_val m') c)) (free (m_fn m) ws) =
    map (bitAt data) (seqZ bit (Z.of_nat (length (free (m_fn m) ws)))).
Proof.
  intros Hm Hws. revert m bit Hm. induction Hws as [|c ws Hc Hws IH]; intros m bit Hm Hnd.
  - exists m. cbn. rewrite Z.add_0_r. done.
  - apply NoDup_cons in Hnd as [Hnot Hnd]. cbn [for_each]. rewrite visit_eq.
    rewrite (get2_ok n) by (done || apply Hm). cbn [mbind option_bind].
    cbn [free List.filter]. fold (free (m_fn m) ws). destruct (cell (m_fn m) c) eqn:Ef; cbn [negb mbind option_bind].
    + destruct (IH m bit Hm Hnd) as (m' & -> & Hm' & Hf' & Hout & Hin). by exists m'.
    + set (v := if maskFn mask c.2 c.1 then negb (bitAt data bit) else bitAt data bit).
      destruct (put_val_ok n m c v Hm Hc) as (m1 & -> & Hm1 & Hf1 & Hc1). cbn [mbind option_bind].
      destruct (IH m1 (bit + 1) Hm1 Hnd) as (m' & -> & Hm' & Hf' & Hout & Hin). rewrite Hf1 in *.
      exists m'. cbn [length map]. split_and!; [do 2 f_equal; lia|done|congruence| |].
      * intros d [Hd1 Hd2]%not_elem_of_cons. rewrite Hout, Hc1, decide_False by done. done.
      * rewrite Hin, (seqZ_cons bit) by lia. cbn [map].
        rewrite Hout by (rewrite elem_of_free; naive_solver). rewrite Hc1, decide_True by done.
        f_equal; [unfold v; by destruct (maskFn mask c.2 c.1), (bitAt data bit)|]. do 2 f_equal; lia.
Qed.

Lemma placeData_ok n m data mask : wf n m → 0 < n →
  ∃ m', placeData m data mask = Some m' ∧ wf n m' ∧ m_fn m' = m_fn m ∧
    (∀ d, d ∉ free (m_fn m) (walk n) → cell (m_val m') d = cell (m_val m) d) ∧
    map (λ c, xorb (maskFn mask c.2 c.1) (cell (m_val m') c)) (free (m_fn m) (walk n)) =
    map (bitAt data) (seqZ 0 (Z.of_nat (length (free (m_fn m) (walk n))))).
Proof.
  intros Hm Hn. unfold placeData. pose proof (wf_size _ _ Hm) as Hs. rewrite Hs.
  rewrite (place_columns_walk _ _ n) by (done || lia). fold (walk n).
  destruct (visits_ok n data mask (walk n) m 0 Hm (walk_inside n) (walk_NoDup _ _ _ _))
    as (m' & -> & Hrest). by exists m'.
Qed.

(** ** QR symbols

    Every version builds its function patterns, every data mask can be drawn
    and scored, and [placeAndMask] returns a symbol of least penalty.  The
    facts that depend on the version are decided by evaluation on the ten
    versions of the tables. *)

Local Open Scope string_scope.
Local Open Scope list_scope.
Local Open Scope Z_scope.

(** ** Loops with an invariant *)

Lemma for_each_seqZ {St} (I : Z → St → Prop) (k : nat) a body s :
  I a s → (∀ i s, a ≤ i < a + Z.of_nat k → I i s → ∃ s', body i s = Some s' ∧ I (i + 1) s') →
  ∃ s', for_each (seqZ a (Z.of_nat k)) body s = Some s' ∧ I (a + Z.of_nat k) s'.
Proof.
  revert a s. induction k as [|k IH]; intros a s Hs Hb.
  - exists s. by rewrite Z.add_0_r.
  - rewrite seqZ_cons by lia. cbn [for_each]. destruct (Hb a s) as (s1 & -> & H1); [lia|done|].
    cbn [mbind option_bind]. replace (Z.pred (Z.of_nat (S k))) with (Z.of_nat k) by lia.
    destruct (IH (Z.succ a) s1) as (s' & -> & H'); [by rewrite <-Z.add_1_r| |].
    + intros i t Hi. apply Hb. lia.
    + exists s'. split; [done|]. by replace (a + Z.of_nat (S k)) with (Z.succ a + Z.of_nat k) by lia.
Qed.

Lemma for_range_inv {St} (I : Z → St → Prop) a b body s :
  a ≤ b → I a s → (∀ i s, a ≤ i < b → I i s → ∃ s', body i s = Some s' ∧ I (i + 1) s') →
  ∃ s', for_range a b body s = Some s' ∧ I b s'.
Proof.
  intros Hab Hs Hb. unfold for_range. rewrite <-(Z2Nat.id (b - a)) by lia.
  destruct (for_each_seqZ I (Z.to_nat (b - a)) a body s Hs) as (s' & H1 & H2).
  - intros i t Hi. apply Hb. lia.
  - exists s'. split; [done|]. by replace (a + Z.of_nat (Z.to_nat (b - a))) with b in H2 by lia.
Qed.

(** ** Penalties *)

(** a line of modules that can be read at every index below [n] *)
Definition readable (n : Z) (get : Z → option bool) : Prop := ∀ i, 0 ≤ i < n → ∃ b, get i = Some b.

Lemma count_line_ok n get : 1 ≤ n → readable n get → ∃ s, count_line get n = Some s ∧ 0 ≤ s ≤ n.
Proof.
  intros Hn Hget. unfold count_line.
  destruct (for_range_inv (λ b '(s, run), 0 ≤ s ∧ 1 ≤ run ∧ s + run ≤ b) 1 n
    (λ b '(s, run), p ← get b; q ← get (b - 1);
      if eqb p q then Some (s, run + 1) else Some (if 5 <=? run then s + (3 + (run - 5)) else s, 1)) (0, 1))
    as ([s run] & -> & Hs & Hr & Hsr); [lia|lia| |].
  - intros b [s run] Hb (Hs & Hr & Hsr). destruct (Hget b) as [p ->]; [lia|].
    destruct (Hget (b - 1)) as [q ->]; [lia|]. cbn [mbind option_bind].
    destruct (eqb p q); eexists; (split; [done|]); cbn beta iota; zcases; lia.
  - cbn [mbind option_bind]. eexists. split; [done|]. zcases; lia.
Qed.

Lemma count_ok n get : 1 ≤ n → (∀ a, 0 ≤ a < n → readable n (get a)) →
  ∃ s, count get n = Some s ∧ 0 ≤ s ≤ n * n.
Proof.
  intros Hn Hget. unfold count.
  apply (for_range_inv (λ a s, 0 ≤ s ≤ a * n)); [lia|lia|]. intros a s Ha Hs.
  destruct (count_line_ok n (get a) Hn (Hget a Ha)) as (l & -> & Hl). cbn [mbind option_bind].
  eexists. split; [done|]. lia.
Qed.

Section Penalty.
Context (n : Z) (m : matrix) (Hm : wf n m) (Hn : 11 ≤ n).

Lemma val_get y x : 0 ≤ y < n → 0 ≤ x < n → ∃ b, get2 (m_val m) y x = Some b.
Proof. intros Hy Hx. eexists. apply (get2_ok n (m_val m) (y, x)); [apply Hm|done]. Qed.

Lemma rule1_ok : ∃ s, rule1 m = Some s ∧ 0 ≤ s ≤ 2 * (n * n).
Proof.
  unfold rule1. rewrite (wf_size _ _ Hm).
  destruct (count_ok n (λ a b, get2 (m_val m) a b)) as (r & -> & Hr);
    [lia|intros a Ha i Hi; by apply val_get|].
  destruct (count_ok n (λ a b, get2 (m_val m) b a)) as (c & -> & Hc);
    [lia|intros a Ha i Hi; by apply val_get|].
  cbn [mbind option_bind]. eexists. split; [done|lia].
Qed.

Lemma rule2_ok : ∃ s, rule2 m = Some s ∧ 0 ≤ s ≤ 3 * (n * n).
Proof.
  unfold rule2. rewrite (wf_size _ _ Hm).
  destruct (for_range_inv (λ y s, 0 ≤ s ≤ 3 * (y * n)) 0 (n - 1) (λ y s,
    for_range 0 (n - 1) (λ x s,
      v ← get2 (m_val m) y x; r ← get2 (m_val m) y (x + 1);
      d ← get2 (m_val m) (y + 1) x; rd ← get2 (m_val m) (y + 1) (x + 1);
      Some (if eqb r v && eqb d v && eqb rd v then s + 3 else s)) s) 0) as (s & -> & Hs); [lia|lia| |].
  - intros y s Hy Hs.
    destruct (for_range_inv (λ x t, s ≤ t ≤ s + 3 * x) 0 (n - 1) (λ x s,
      v ← get2 (m_val m) y x; r ← get2 (m_val m) y (x + 1);
      d ← get2 (m_val m) (y + 1) x; rd ← get2 (m_val m) (y + 1) (x + 1);
      Some (if eqb r v && eqb d v && eqb rd v then s + 3 else s)) s) as (t & -> & Ht); [lia|lia| |].
    + intros x t Hx Ht. destruct (val_get y x) as [? ->]; [lia..|].
      destruct (val_get y (x + 1)) as [? ->]; [lia..|]. destruct (val_get (y + 1) x) as [? ->]; [lia..|].
      destruct (val_get (y + 1) (x + 1)) as [? ->]; [lia..|]. cbn [mbind option_bind].
      eexists. split; [done|]. case_match; lia.
    + eexists. split; [done|lia].
  - eexists. split; [done|nia].
Qed.

Lemma matches_ok get off k pat : readable n get → 0 ≤ off + k → off + k + Z.of_nat (length pat) ≤ n →
  ∃ b, matches get off k pat = Some b.
Proof.
  intros Hget. revert k. induction pat as [|p pat IH]; intros k H0 H1; cbn [matches length] in *; [by eexists|].
  destruct (Hget (off + k)) as [v ->]; [lia|]. cbn [mbind option_bind].
  destruct (negb (eqb v p)); [by eexists|]. apply IH; lia.
Qed.

Lemma match_at_ok get off : readable n get → 0 ≤ off → off + 11 ≤ n → ∃ b, match_at get off = Some b.
Proof.
  intros Hget H0 H1. unfold match_at.
  destruct (matches_ok get off 0 pat1) as [[] ->]; [done|lia|cbn; lia| |]; cbn [mbind option_bind]; [by eexists|].
  apply matches_ok; [done|lia|cbn; lia].
Qed.

Lemma rule3_lines_ok get s : (∀ a, 0 ≤ a < n → readable n (get a)) → 0 ≤ s →
  ∃ t, rule3_lines get n s = Some t ∧ s ≤ t ≤ s + 40 * (n * n).
Proof.
  intros Hget Hs. unfold rule3_lines.
  destruct (for_range_inv (λ a t, s ≤ t ≤ s + 40 * (a * n)) 0 n (λ a s,
    for_range 0 (n - 11 + 1) (λ off s,
      h ← match_at (get a) off; Some (if h : bool then s + 40 else s)) s) s) as (t & -> & Ht); [lia|lia| |].
  - intros a t Ha Ht.
    destruct (for_range_inv (λ off u, t ≤ u ≤ t + 40 * off) 0 (n - 11 + 1) (λ off s,
      h ← match_at (get a) off; Some (if h : bool then s + 40 else s)) t) as (u & -> & Hu); [lia|lia| |].
    + intros off u Ho Hu. destruct (match_at_ok (get a) off (Hget a Ha)) as [h ->]; [lia..|].
      cbn [mbind option_bind]. eexists. split; [done|]. destruct h; lia.
    + eexists. split; [done|lia].
  - eexists. split; [done|lia].
Qed.

Lemma rule3_ok : ∃ s, rule3 m = Some s ∧ 0 ≤ s ≤ 80 * (n * n).
Proof.
  unfold rule3. rewrite (wf_size _ _ Hm).
  destruct (rule3_lines_ok (λ y i, get2 (m_val m) y i) 0) as (s & -> & Hs);
    [intros a Ha i Hi; by apply val_get|lia|]. cbn [mbind option_bind].
  destruct (rule3_lines_ok (λ x i, get2 (m_val m) i x) s) as (t & -> & Ht);
    [intros a Ha i Hi; by apply val_get|lia|]. eexists. split; [done|lia].
Qed.

Lemma rule4_ok : ∃ s, rule4 m = Some s ∧ 0 ≤ s ≤ 110.
Proof.
  unfold rule4. rewrite (wf_size _ _ Hm).
  destruct (for_range_inv (λ y d, 0 ≤ d ≤ y * n) 0 n (λ y d,
    for_range 0 n (λ x d, v ← get2 (m_val m) y x; Some (if v : bool then d + 1 else d)) d) 0)
    as (d & -> & Hd); [lia|lia| |].
  - intros y d Hy Hd.
    destruct (for_range_inv (λ x e, d ≤ e ≤ d + x) 0 n (λ x d,
      v ← get2 (m_val m) y x; Some (if v : bool then d + 1 else d)) d) as (e & -> & He); [lia|lia| |].
    + intros x e Hx He. destruct (val_get y x) as [v ->]; [lia..|]. cbn [mbind option_bind].
      eexists. split; [done|]. destruct v; lia.
    + eexists. split; [done|lia].
  - cbn [mbind option_bind]. eexists. split; [done|].
    assert (Hp : 0 ≤ Z.quot (d * 100) (n * n) ≤ 100).
    { split; [apply Z.quot_pos; nia|]. apply Z.quot_le_upper_bound; nia. }
    revert Hp. generalize (Z.quot (d * 100) (n * n)). intros p Hp.
    assert (Hq : 0 ≤ Z.quot p 5 ≤ 20) by zlia. revert Hq. generalize (Z.quot p 5). intros q Hq.
    zcases; zlia.
Qed.

Lemma penalty_ok : n ≤ 57 → ∃ p, penalty m = Some p ∧ 0 ≤ p < Z.shiftl 1 30.
Proof.
  intros Hmax. unfold penalty. destruct rule1_ok as (a & -> & Ha). destruct rule2_ok as (b & -> & Hb).
  destruct rule3_ok as (c & -> & Hc). destruct rule4_ok as (d & -> & Hd). cbn [mbind option_bind].
  eexists. split; [done|]. change (Z.shiftl 1 30) with 1073741824. nia.
Qed.
End Penalty.

(** ** Versions *)

Definition insideb (n : Z) (c : Z * Z) : bool :=
  (0 <=? c.1) && (c.1 <? n) && (0 <=? c.2) && (c.2 <? n).

Definition squareb (n : Z) (g : list (list bool)) : bool :=
  (Z.of_nat (length g) =? n) && forallb (λ r, Z.of_nat (length r) =? n) g.

Definition format_keys (n : Z) : list (Z * Z) := map (λ w, (w.1.1, w.1.2)) (format_cells n).

Definition format_writes (n format : Z) : list ((Z * Z) * bool) :=
  map (λ w, ((w.1.1, w.1.2), Z.testbit format w.2)) (format_cells n).

Definition version_writes (n v : Z) : list ((Z * Z) * bool) :=
  flat_map (λ i, [((n - 11 + i mod 3, i / 3), Z.testbit v i); ((i / 3, n - 11 + i mod 3), Z.testbit v i)])
    (seqZ 0 18).

Definition version_keys (n ver : Z) : list (Z * Z) :=
  if 7 <=? ver then map fst (version_writes n 0) else [].

Definition size_of (ver : Z) : Z := ver * 4 + 17.

(** the codewords a version carries *)
Definition capacity (lay : blockLayout) (ecLen : Z) : nat :=
  (total_data lay + Z.to_nat ecLen * (g1 lay + g2 lay))%nat.

Definition version_ok (ver : Z) (lay : blockLayout) (ecLen : Z) (base : matrix) : bool :=
  let n := size_of ver in
  (m_size base =? n) && squareb n (m_val base) && squareb n (m_fn base) &&
  forallb (λ c, insideb n c && cell (m_fn base) c) (format_keys n ++ version_keys n ver) &&
  bool_decide (NoDup (format_keys n)) &&
  forallb (λ c, negb (existsb (λ d, (c.1 =? d.1) && (c.2 =? d.2)) (version_keys n ver))) (format_keys n) &&
  (8 * capacity lay ecLen <=? length (free (m_fn base) (walk n)))%nat.

Definition version_check (ver : Z) : bool :=
  match base_matrix ver, at_index blocksM (ver - 1), at_index ecPerBlockM (ver - 1) with
  | Some base, Some lay, Some ecLen => version_ok ver lay ecLen base
  | _, _, _ => false
  end.

Lemma versions_checked : forallb version_check (seqZ 1 10) = true.
Proof. vm_compute. reflexivity. Qed.

Lemma version_checked ver : 1 ≤ ver ≤ 10 → version_check ver = true.
Proof.
  intros Hv. pose proof (proj1 (forallb_forall _ _) versions_checked) as H. apply H.
  apply list_elem_of_In, elem_of_seqZ. lia.
Qed.

(** What the check says of one version. *)
Record drawable (ver : Z) (lay : blockLayout) (ecLen : Z) (base : matrix) : Prop := {
  dr_base : base_matrix ver = Some base;
  dr_wf : wf (size_of ver) base;
  dr_keys : Forall (λ c, inside (size_of ver) c ∧ cell (m_fn base) c = true)
              (format_keys (size_of ver) ++ version_keys (size_of ver) ver);
  dr_nodup : NoDup (format_keys (size_of ver));
  dr_apart : ∀ c, c ∈ format_keys (size_of ver) → c ∉ version_keys (size_of ver) ver;
  dr_room : (8 * capacity lay ecLen ≤ length (free (m_fn base) (walk (size_of ver))))%nat;
}.

Lemma squareb_spec n g : squareb n g = true → square n g.
Proof.
  unfold squareb, square. intros [H1 H2]%andb_true_iff. split; [lia|].
  apply Forall_forall. intros r Hr. rewrite forallb_forall in H2. apply list_elem_of_In in Hr.
  specialize (H2 r Hr). lia.
Qed.

Lemma version_drawable ver lay ecLen : 1 ≤ ver ≤ 10 →
  at_index blocksM (ver - 1) = Some lay → at_index ecPerBlockM (ver - 1) = Some ecLen →
  ∃ base, drawable ver lay ecLen base.
Proof.
  intros Hv Hlay Hec. pose proof (version_checked ver Hv) as H. unfold version_check in H.
  destruct (base_matrix ver) as [base|] eqn:Hbase; [|discriminate H].
  rewrite Hlay, Hec in H. exists base. clear Hlay Hec. unfold version_ok in H. cbv zeta in H.
  apply andb_true_iff in H as [H H7]. apply andb_true_iff in H as [H H6].
  apply andb_true_iff in H as [H H5]. apply andb_true_iff in H as [H H4].
  apply andb_true_iff in H as [H H3]. apply andb_true_iff in H as [H1 H2].
  split; [done| | |by apply bool_decide_eq_true in H5| |by apply Nat.leb_le in H7].
  - split; [lia|by apply squareb_spec..].
  - apply Forall_forall. intros c Hc. rewrite forallb_forall in H4. apply list_elem_of_In in Hc.
    specialize (H4 c Hc). unfold insideb in H4. unfold inside. bool_prop. done.
  - intros c Hc Hv'. rewrite forallb_forall in H6. apply list_elem_of_In in Hc. specialize (H6 c Hc).
    apply negb_true_iff in H6. rewrite existsb_false in H6. specialize (H6 c Hv'). lia.
Qed.

(** ** One masked symbol *)

Lemma writeFormat_eq n mask m format : m_size m = n → at_index formatStringsM mask = Some format →
  writeFormat mask m = for_each (format_writes n format) (λ w, put_val w.1.1 w.1.2 w.2) m.
Proof.
  intros Hs Hf. unfold writeFormat. rewrite Hf, Hs. cbn [mbind option_bind].
  unfold format_writes. rewrite for_each_map. apply for_each_ext. by intros [[y x] i] s.
Qed.

Lemma put_val_size y x b m m' : put_val y x b m = Some m' → m_size m' = m_size m.
Proof. unfold put_val. destruct (put2 _ _ _ _); cbn [mbind option_bind]; [|done]. by intros [= <-]. Qed.

Lemma writeVersion_eq n ver v m : m_size m = n → versionInfo ver = Some v →
  writeVersion ver m = for_each (version_writes n v) (λ w, put_val w.1.1 w.1.2 w.2) m.
Proof.
  intros Hs Hv. unfold writeVersion. rewrite Hv. unfold version_writes. rewrite for_each_flat_map.
  unfold for_range. change (18 - 0) with 18. revert m Hs.
  induction (seqZ 0 18) as [|i l IH]; intros m Hs; [done|]. cbn [for_each fst snd].
  rewrite Hs. destruct (put_val (n - 11 + i mod 3) (i / 3) (Z.testbit v i) m) as [m1|] eqn:E1; [|done].
  cbn [mbind option_bind]. apply put_val_size in E1. rewrite Hs in E1. rewrite E1.
  destruct (put_val (i / 3) (n - 11 + i mod 3) (Z.testbit v i) m1) as [m2|] eqn:E2; [|done].
  cbn [mbind option_bind]. apply IH. apply put_val_size in E2. congruence.
Qed.

Lemma version_keys_writes n ver v : 7 ≤ ver → map fst (version_writes n v) = version_keys n ver.
Proof.
  intros Hv. unfold version_keys. destruct (Z.leb_spec 7 ver); [|lia]. unfold version_writes.
  induction (seqZ 0 18) as [|i l IH]; [done|]. cbn [flat_map map app]. by rewrite IH.
Qed.

Lemma map_fst_format n format : map fst (format_writes n format) = format_keys n.
Proof. done. Qed.

(** the 15 bits of the format, and the data bits, as the symbol shows them *)
Record shows (ver mask : Z) (base : matrix) (final : list Z) (m : matrix) : Prop := {
  sh_wf : wf (size_of ver) m;
  sh_format : ∀ format, at_index formatStringsM mask = Some format →
    ∀ w, w ∈ format_writes (size_of ver) format → cell (m_val m) w.1 = w.2;
  sh_data : map (λ c, xorb (maskFn mask c.2 c.1) (cell (m_val m) c)) (free (m_fn base) (walk (size_of ver))) =
    map (bitAt final) (seqZ 0 (Z.of_nat (length (free (m_fn base) (walk (size_of ver))))));
}.

Lemma data_cells_kept ver lay ecLen base mask final (m m' : matrix) :
  drawable ver lay ecLen base →
  (∀ c, c ∉ format_keys (size_of ver) ++ version_keys (size_of ver) ver → cell (m_val m') c = cell (m_val m) c) →
  map (λ c, xorb (maskFn mask c.2 c.1) (cell (m_val m) c)) (free (m_fn base) (walk (size_of ver))) =
    map (bitAt final) (seqZ 0 (Z.of_nat (length (free (m_fn base) (walk (size_of ver)))))) →
  map (λ c, xorb (maskFn mask c.2 c.1) (cell (m_val m') c)) (free (m_fn base) (walk (size_of ver))) =
    map (bitAt final) (seqZ 0 (Z.of_nat (length (free (m_fn base) (walk (size_of ver)))))).
Proof.
  intros Hd Hk <-. apply map_ext_in. intros c Hc. f_equal. apply Hk. intros Hin.
  apply list_elem_of_In, elem_of_free in Hc as [_ Hc].
  pose proof (dr_keys _ _ _ _ Hd) as Hf. rewrite Forall_forall in Hf. destruct (Hf c Hin). congruence.
Qed.

Lemma format_index mask : 0 ≤ mask < 8 → ∃ format, at_index formatStringsM mask = Some format.
Proof. intros Hm. destruct (at_index_some formatStringsM mask) as (f & H & _); [cbn; lia|by exists f]. Qed.

Lemma versionInfo_some ver : 7 ≤ ver ≤ 10 → ∃ v, versionInfo ver = Some v.
Proof.
  intros Hv. assert (ver = 7 ∨ ver = 8 ∨ ver = 9 ∨ ver = 10) as Hc by lia.
  destruct_or! Hc; subst ver; by eexists.
Qed.

Lemma masked_ok ver lay ecLen base mask final :
  drawable ver lay ecLen base → 1 ≤ ver ≤ 10 → 0 ≤ mask < 8 →
  ∃ m, masked base final ver mask = Some m ∧ shows ver mask base final m.
Proof.
  intros Hd Hv Hmask. set (n := size_of ver). assert (Hn : 21 ≤ n) by (unfold n, size_of; lia).
  pose proof (dr_keys _ _ _ _ Hd) as Hkeys. apply Forall_app in Hkeys as [Hkf Hkv]. fold n in Hkf, Hkv.
  destruct (placeData_ok n base final mask (dr_wf _ _ _ _ Hd) ltac:(lia)) as (m1 & H1 & Hwf1 & Hfn1 & Hout1 & Hin1).
  destruct (format_index mask Hmask) as (format & Hf).
  unfold masked. rewrite H1. cbn [mbind option_bind].
  rewrite (writeFormat_eq n _ _ format) by (done || apply Hwf1).
  destruct (put_vals_ok n (format_writes n format) m1 Hwf1) as (m2 & -> & Hwf2 & Hfn2 & Hout2 & Hin2).
  { apply (Forall_map fst (inside n)). eapply Forall_impl; [exact Hkf|]. cbv beta. tauto. }
  cbn [mbind option_bind]. rewrite map_fst_format in Hout2, Hin2.
  specialize (Hin2 (dr_nodup _ _ _ _ Hd)).
  destruct (Z.leb_spec 7 ver).
  - destruct (versionInfo_some ver) as (v & Hvi); [lia|].
    rewrite (writeVersion_eq n _ v) by (done || apply Hwf2).
    pose proof (version_keys_writes n ver v ltac:(lia)) as Hvk.
    destruct (put_vals_ok n (version_writes n v) m2 Hwf2) as (m3 & -> & Hwf3 & Hfn3 & Hout3 & _).
    { apply (Forall_map fst (inside n)). rewrite Hvk. eapply Forall_impl; [exact Hkv|]. cbv beta. tauto. }
    rewrite Hvk in Hout3. exists m3. split; [done|]. split; [done| |].
    + intros format' Hf' w Hw. rewrite Hf in Hf'. injection Hf' as <-. fold n in Hw.
      assert (Hk : w.1 ∈ format_keys n) by exact (list_elem_of_fmap_2 fst _ _ Hw).
      rewrite Hout3 by exact (dr_apart _ _ _ _ Hd _ Hk). by apply Hin2.
    + eapply data_cells_kept; [exact Hd| |exact Hin1]. intros c [Hc1 Hc2]%not_elem_of_app.
      by rewrite Hout3, Hout2.
  - exists m2. split; [done|]. split; [done| |].
    + intros format' Hf' w Hw. rewrite Hf in Hf'. injection Hf' as <-. by apply Hin2.
    + eapply data_cells_kept; [exact Hd| |exact Hin1]. intros c [Hc1 Hc2]%not_elem_of_app. by apply Hout2.
Qed.

(** ** The choice of the mask *)

(** the mask [k] gives the symbol [m] of penalty [p] *)
Definition candidate (base : matrix) (final : list Z) (ver k : Z) (m : matrix) (p : Z) : Prop :=
  masked base final ver k = Some m ∧ penalty m = Some p.

Lemma placeAndMask_ok ver lay ecLen base final :
  drawable ver lay ecLen base → 1 ≤ ver ≤ 10 →
  ∃ k m p, placeAndMask final ver = Some (m_val m) ∧ 0 ≤ k < 8 ∧ shows ver k base final m ∧
    candidate base final ver k m p ∧
    ∀ j m' p', 0 ≤ j < 8 → candidate base final ver j m' p' → p ≤ p' ∧ (j < k → p < p').
Proof.
  intros Hd Hv. unfold placeAndMask. rewrite (dr_base _ _ _ _ Hd). cbn [mbind option_bind].
  destruct (for_range_inv (λ i '(best, bp), (i = 0 ∧ bp = Z.shiftl 1 30) ∨
      ∃ k m, 0 ≤ k < i ∧ best = m_val m ∧ shows ver k base final m ∧ candidate base final ver k m bp ∧
        bp < Z.shiftl 1 30 ∧
        ∀ j m' p', 0 ≤ j < i → candidate base final ver j m' p' → bp ≤ p' ∧ (j < k → bp < p')) 0 8
    (λ mask '(bestMatrix, bestPenalty),
      m ← masked base final ver mask; p ← penalty m;
      Some (if p <? bestPenalty then (m_val m, p) else (bestMatrix, bestPenalty)))
    ([], Z.shiftl 1 30)) as ([best bp] & -> & Hbest); [lia|by left| |].
  - intros i [best bp] Hi Hinv.
    destruct (masked_ok ver lay ecLen base i final Hd Hv Hi) as (m & Hm & Hsh).
    destruct (penalty_ok (size_of ver) m (sh_wf _ _ _ _ _ Hsh)) as (p & Hp & Hp0); [unfold size_of; lia..|].
    rewrite Hm. cbn [mbind option_bind]. rewrite Hp. cbn [mbind option_bind].
    assert (Huniq : ∀ m' p', candidate base final ver i m' p' → p' = p).
    { intros m' p' [H1 H2]. congruence. }
    eexists. split; [done|]. destruct (Z.ltb_spec p bp) as [Hlt|Hge].
    + right. exists i, m. split_and!; [lia..|done|done|done|lia|]. intros j m' p' Hj Hc.
      destruct (Z.eq_dec j i) as [-> | Hne]; [apply Huniq in Hc; lia|].
      destruct Hinv as [[-> _] | (k & mk & Hk & _ & _ & _ & _ & Hmin)]; [lia|].
      destruct (Hmin j m' p') as [H1 H2]; [lia|done|lia].
    + destruct Hinv as [[-> ->] | (k & mk & Hk & Hb & Hs & Hc & Hlt & Hmin)]; [lia|].
      right. exists k, mk. split_and!; [lia..|done|done|done|done|]. intros j m' p' Hj Hc'.
      destruct (Z.eq_dec j i) as [-> | Hne]; [apply Huniq in Hc'; lia|]. apply (Hmin j m'); [lia|done].
  - destruct Hbest as [[H _]|(k & m & Hk & -> & Hs & Hc & _ & Hmin)]; [lia|].
    cbn [mbind option_bind fst]. by exists k, m, bp.
Qed.
