(* ===== verification/QrProps.v ===== *)
(** * Reading a QR symbol back

    A reader of error-free symbols: the text is split into rows of half
    blocks, the quiet zone is dropped, the mask is read from the format bits,
    the data modules are unmasked along the zig-zag walk, and the codewords
    are put back in order.  What [QRString] draws is read back as the payload.
    Last, where the encoder fails: the error-correction codewords of an address
    are not a multiple of the generator of the standard. *)

From S2P Require Import Prelude GoStrings Qr ReedSolomon QrBlocks QrSymbol.

Local Open Scope string_scope.
Local Open Scope list_scope.
Local Open Scope Z_scope.

(** ** The symbol *)

(** the mask whose format bits the first copy shows *)
Definition read_format (mat : list (list bool)) : option Z :=
  List.find (λ k,
    forallb (λ w, eqb (cell mat w.1) w.2)
      (take 15 (format_writes (Z.of_nat (length mat)) (nth (Z.to_nat k) formatStringsM 0)))) (seqZ 0 8).

Definition read_symbol (mat : list (list bool)) : option (list Z) :=
  let n := Z.of_nat (length mat) in
  let ver := (n - 17) / 4 in
  base ← base_matrix ver;
  lay ← at_index blocksM (ver - 1);
  mask ← read_format mat;
  let bits := map (λ c, xorb (maskFn mask c.2 c.1) (cell mat c)) (free (m_fn base) (walk n)) in
  let data := deinterleave lay (bitsToCodewords bits (Z.of_nat (total_data lay))) in
  read_payload ver (unpack data).

Lemma bitAt_unpack l : map (bitAt l) (seqZ 0 (8 * Z.of_nat (length l))) = unpack l.
Proof.
  induction l as [|b l IH]; [done|]. rewrite unpack_cons.
  replace (8 * Z.of_nat (length (b :: l))) with (8 + 8 * Z.of_nat (length l)) by (cbn [length]; lia).
  rewrite seqZ_app, map_app by lia. f_equal.
  rewrite Z.add_0_l. change 8 with (8 + 0) at 1. rewrite <-map_add_seqZ, map_map, <-IH.
  apply map_ext_in. intros i Hi. apply list_elem_of_In, elem_of_seqZ in Hi. unfold bitAt, at_index.
  replace ((8 + i) / 8) with (1 + i / 8) by zlia. replace ((8 + i) mod 8) with (i mod 8) by zlia.
  zcases; try zlia. replace (Z.to_nat (1 + i / 8)) with (S (Z.to_nat (i / 8))) by zlia. done.
Qed.

Lemma unpack_app l1 l2 : unpack (l1 ++ l2) = unpack l1 ++ unpack l2.
Proof. unfold unpack. by rewrite map_app, concat_app. Qed.

(** the first codewords of the bits the walk reads *)
Lemma read_codewords l k n : bytes l → (k ≤ length l)%nat → (8 * length l ≤ n)%nat →
  bitsToCodewords (map (bitAt l) (seqZ 0 (Z.of_nat n))) (Z.of_nat k) = take k l.
Proof.
  intros Hl Hk Hn. replace (Z.of_nat n) with (8 * Z.of_nat (length l) + (Z.of_nat n - 8 * Z.of_nat (length l))) by lia.
  rewrite seqZ_app, map_app, bitAt_unpack by lia. rewrite <-(take_drop k l) at 1.
  rewrite unpack_app, <-app_assoc.
  replace (Z.of_nat k) with (Z.of_nat (length (take k l))) by (rewrite length_take; lia).
  apply codewords_unpack. by apply Forall_take.
Qed.

Lemma format_found n k : 0 ≤ k < 8 →
  List.find (λ j, forallb (λ w, eqb (Z.testbit (nth (Z.to_nat k) formatStringsM 0) w.2)
                                    (Z.testbit (nth (Z.to_nat j) formatStringsM 0) w.2))
      (take 15 (format_cells n))) (seqZ 0 8) = Some k.
Proof.
  intros Hk. assert (Hc : k = 0 ∨ k = 1 ∨ k = 2 ∨ k = 3 ∨ k = 4 ∨ k = 5 ∨ k = 6 ∨ k = 7) by lia.
  destruct_or! Hc; subst k; reflexivity.
Qed.

Lemma find_ext {A} (f g : A → bool) l : (∀ a, a ∈ l → f a = g a) → List.find f l = List.find g l.
Proof.
  induction l as [|a l IH]; intros H; [done|]. cbn [List.find]. rewrite (H a) by left.
  rewrite IH; [done|]. intros b Hb. apply H. by right.
Qed.

Lemma read_format_ok ver mask base final m : shows ver mask base final m → 0 ≤ mask < 8 →
  read_format (m_val m) = Some mask.
Proof.
  intros Hs Hm. unfold read_format. rewrite (proj1 (wf_val _ _ (sh_wf _ _ _ _ _ Hs))).
  rewrite <-(format_found (size_of ver) mask Hm). apply find_ext. intros j _.
  pose proof (sh_format _ _ _ _ _ Hs (nth (Z.to_nat mask) formatStringsM 0)) as Hf.
  assert (Hi : at_index formatStringsM mask = Some (nth (Z.to_nat mask) formatStringsM 0)).
  { destruct (at_index_some formatStringsM mask) as (f & H & Hl); [cbn; lia|]. rewrite H. f_equal.
    symmetry. by apply nth_lookup_Some. }
  specialize (Hf Hi). unfold format_writes in *. rewrite firstn_map.
  assert (Hall : ∀ l, (∀ w, w ∈ l → w ∈ format_cells (size_of ver)) →
    forallb (λ w, eqb (cell (m_val m) w.1) w.2) (map (λ w, (w.1.1, w.1.2, Z.testbit (nth (Z.to_nat j) formatStringsM 0) w.2)) l) =
    forallb (λ w, eqb (Z.testbit (nth (Z.to_nat mask) formatStringsM 0) w.2) (Z.testbit (nth (Z.to_nat j) formatStringsM 0) w.2)) l).
  { induction l as [|w l IH]; intros Hl; [done|]. cbn [map forallb fst snd]. rewrite IH by (intros; apply Hl; by right).
    f_equal. f_equal. apply (Hf ((w.1.1, w.1.2), Z.testbit (nth (Z.to_nat mask) formatStringsM 0) w.2)).
    apply list_elem_of_fmap. exists w. split; [done|]. apply Hl. left. }
  apply Hall. intros w Hw. apply elem_of_take in Hw as (i & Hi' & _). by eapply list_elem_of_lookup_2.
Qed.

(** the codewords [encode] draws *)
Definition codewords (data : list Z) : option (list Z) :=
  let ver := pickVersion (Z.of_nat (length data)) in
  bits ← buildDataBits data ver;
  n ← at_index dataCodewordsM (ver - 1);
  interleave (bitsToCodewords bits n) (ver - 1).

Lemma codewords_ok data ver lay ecLen n : bytes data → fits ver (Z.of_nat (length data)) →
  pickVersion (Z.of_nat (length data)) = ver →
  at_index blocksM (ver - 1) = Some lay → at_index ecPerBlockM (ver - 1) = Some ecLen →
  at_index dataCodewordsM (ver - 1) = Some n → layout_ok lay ecLen n = true →
  ∃ dataCW, codewords data = Some (interleaved lay ecLen dataCW) ∧ bytes dataCW ∧
    Z.of_nat (length dataCW) = n ∧ read_payload ver (unpack dataCW) = Some data.
Proof.
  intros Hb Hfit Hver Hlay Hec Hn Hok.
  destruct (data_bits_read data ver n Hb Hfit Hn) as (bits & Hbits & Hl & Hread).
  assert (Hn0 : 0 ≤ n) by (unfold layout_ok in Hok; bool_prop; lia).
  destruct (pack_facts bits (Z.to_nat n)) as [Hu Hcb]; [lia|]. rewrite Z2Nat.id in * by done.
  exists (bitsToCodewords bits n). unfold codewords. rewrite Hver, Hbits. cbn [mbind option_bind].
  rewrite Hn. cbn [mbind option_bind]. pose proof (bitsToCodewords_length bits n Hn0).
  split_and!; [by apply (interleave_ok _ _ _ n)|done|done|by rewrite Hu].
Qed.

Lemma encode_codewords data : pickVersion (Z.of_nat (length data)) ≠ 0 →
  encode data = (final ← codewords data;
                 best ← placeAndMask final (pickVersion (Z.of_nat (length data))); Some (Some best)).
Proof.
  intros Hv. unfold encode, codewords. destruct (Z.eqb_spec (pickVersion (Z.of_nat (length data))) 0); [done|].
  destruct (buildDataBits _ _); [|done]. cbn [mbind option_bind].
  by destruct (at_index dataCodewordsM _).
Qed.

(** The symbol is square and is read back as the payload. *)
Lemma encode_read data : bytes data → Z.of_nat (length data) ≤ 213 →
  ∃ mat n, encode data = Some (Some mat) ∧ square n mat ∧ 21 ≤ n ∧ read_symbol mat = Some data.
Proof.
  intros Hb Hl. set (ver := pickVersion (Z.of_nat (length data))).
  assert (Hv0 : ver ≠ 0) by (intros H; apply pickVersion_zero in H; lia).
  pose proof (pickVersion_fits _ ver eq_refl Hv0 ltac:(lia)) as Hfit. pose proof Hfit as (_ & _ & Hv & _).
  destruct (tables_agree ver Hv) as (lay & ecLen & n & Hlay & Hec & Hn & Hok).
  destruct (codewords_ok data ver lay ecLen n) as (dataCW & Hcw & Hcb & Hcl & Hread); [done..|].
  destruct (version_drawable ver lay ecLen Hv Hlay Hec) as (base & Hd).
  destruct (placeAndMask_ok ver lay ecLen base (interleaved lay ecLen dataCW) Hd Hv)
    as (k & m & p & Hp & Hk & Hs & _).
  rewrite encode_codewords by done. rewrite Hcw. cbn [mbind option_bind]. fold ver. rewrite Hp. cbn [mbind option_bind].
  pose proof (wf_val _ _ (sh_wf _ _ _ _ _ Hs)) as Hsq.
  exists (m_val m), (size_of ver). split; [done|]. split; [done|]. split; [unfold size_of; lia|].
  unfold read_symbol. rewrite (proj1 Hsq). replace ((size_of ver - 17) / 4) with ver by (unfold size_of; zlia).
  rewrite (dr_base _ _ _ _ Hd), Hlay. cbn [mbind option_bind].
  rewrite (read_format_ok ver k base _ m Hs Hk). cbn [mbind option_bind]. rewrite (sh_data _ _ _ _ _ Hs).
  pose proof Hok as Hok'. unfold layout_ok in Hok'. bool_prop.
  pose proof (interleaved_length (ver - 1) lay ecLen n dataCW Hlay Hok Hcl Hcb) as Hil.
  rewrite read_codewords; [|by apply interleaved_bytes|lia|rewrite Hil; apply (dr_room _ _ _ _ Hd)].
  destruct (deinterleave_columns (ver - 1) lay dataCW Hlay) as [Hdi Hdl]; [lia|].
  unfold interleaved. rewrite take_app_le by lia. rewrite take_ge by lia. by rewrite Hdi.
Qed.

(** ** The text of a QR symbol

    The half blocks [renderHalfBlocks] writes, read back as a matrix, and the
    whole way from a string to the text and back. *)

Local Open Scope string_scope.
Local Open Scope list_scope.
Local Open Scope Z_scope.

(** ** Lines of half blocks *)

(** two rows of modules share one line; the last row may stand alone *)
Fixpoint pair_rows (g : list (list bool)) : list (list (bool * bool)) :=
  match g with
  | r1 :: r2 :: g => zip r1 r2 :: pair_rows g
  | [r] => [map (λ b, (b, false)) r]
  | [] => []
  end.

Fixpoint line_text (l : list (bool * bool)) : string :=
  match l with
  | [] => ""
  | c :: l => cellGlyph c.1 c.2 +:+ line_text l
  end.

Fixpoint lines_text (ls : list (list (bool * bool))) : string :=
  match ls with
  | [] => ""
  | l :: ls => line_text l +:+ newline +:+ lines_text ls
  end.

(** the lines of a text; [row] is the line read so far *)
Fixpoint read_lines (s : string) (row : list (bool * bool)) : list (list (bool * bool)) :=
  match s with
  | "" => []
  | String c s =>
      if byteZ c =? 10 then row :: read_lines s []
      else if byteZ c =? 32 then read_lines s (row ++ [(false, false)])
      else match s with
           | String _ (String d s) =>
               if byteZ d =? 0x88 then read_lines s (row ++ [(true, true)])
               else if byteZ d =? 0x80 then read_lines s (row ++ [(true, false)])
               else read_lines s (row ++ [(false, true)])
           | _ => []
           end
  end.

Lemma read_glyph a b s row : read_lines (cellGlyph a b +:+ s) row = read_lines s (row ++ [(a, b)]).
Proof. by destruct a, b. Qed.

Lemma read_line l s row : read_lines (line_text l +:+ newline +:+ s) row = (row ++ l) :: read_lines s [].
Proof.
  revert row. induction l as [|[a b] l IH]; intros row; cbn [line_text].
  - by rewrite app_nil_r.
  - cbn [fst snd]. rewrite string_app_assoc, read_glyph, IH, <-app_assoc. done.
Qed.

Lemma read_lines_text ls : read_lines (lines_text ls) [] = ls.
Proof. induction ls as [|l ls IH]; [done|]. cbn [lines_text]. by rewrite read_line, IH. Qed.

(** ** The loops of [renderHalfBlocks] *)

Lemma for_each_text {A} (l : list A) (g : A → string) (body : A → string → option string) b :
  (∀ a b, a ∈ l → body a b = Some (b +:+ g a)) →
  for_each l body b = Some (b +:+ foldr (λ a t, g a +:+ t) "" l).
Proof.
  revert b. induction l as [|a l IH]; intros b H; cbn [for_each foldr]; [by rewrite string_app_nil_r|].
  rewrite H by left. cbn [mbind option_bind]. rewrite IH by (intros; apply H; by right).
  by rewrite string_app_assoc.
Qed.

Lemma line_text_seq (f : Z → bool * bool) l :
  foldr (λ x t, cellGlyph (f x).1 (f x).2 +:+ t) "" l = line_text (map f l).
Proof. induction l as [|x l IH]; [done|]. cbn [foldr map line_text]. by rewrite IH. Qed.

Lemma row_cells n g y r : square n g → at_index g y = Some r → 0 ≤ n →
  map (λ x, cell g (y, x)) (seqZ 0 n) = r.
Proof.
  intros [_ Hr] Hy Hn. unfold at_index in Hy. destruct (Z.ltb_spec y 0); [done|].
  pose proof (Forall_lookup_1 _ _ _ _ Hr Hy) as Hl. cbv beta in Hl.
  rewrite <-Hl. rewrite <-(map_nth_seq false r) at 2. unfold seqZ. rewrite Nat2Z.id.
  change ((λ i, Z.of_nat i + 0) <$> List.seq 0 (length r)) with (map (λ i, Z.of_nat i + 0) (List.seq 0 (length r))).
  rewrite map_map. apply map_ext_in. intros i Hi. apply list_elem_of_In, elem_of_seq in Hi.
  unfold cell, get2, at_index. cbn [fst snd].
  destruct (Z.ltb_spec y 0); [lia|]. rewrite Hy. cbn [mbind option_bind].
  destruct (Z.ltb_spec (Z.of_nat i + 0) 0); [lia|]. replace (Z.to_nat (Z.of_nat i + 0)) with i by lia.
  destruct (lookup_lt_is_Some_2 r i) as [b Hb]; [lia|]. rewrite Hb. symmetry. by apply nth_lookup_Some.
Qed.

Lemma zip_map {A B C} (f : A → B) (g : A → C) l : zip (map f l) (map g l) = map (λ x, (f x, g x)) l.
Proof. induction l as [|x l IH]; [done|]. cbn [map zip zip_with]. f_equal. exact IH. Qed.

Lemma half_rows_ok n g fuel y b :
  square n g → 0 ≤ y → n - y ≤ 2 * Z.of_nat fuel →
  half_rows fuel g n y b = Some (b +:+ lines_text (pair_rows (drop (Z.to_nat y) g))).
Proof.
  intros Hsq. pose proof Hsq as [Hl Hr]. revert y b. induction fuel as [|fuel IH]; intros y b Hy Hf;
    cbn [half_rows]; (destruct (Z.ltb_spec y n); [|rewrite drop_ge by lia; by rewrite string_app_nil_r]); [lia|].
  destruct (at_index_some g y) as (r1 & H1 & H1'); [lia|].
  rewrite (drop_S _ _ _ H1'). unfold for_range. rewrite Z.sub_0_r.
  pose proof (row_cells n g y r1 Hsq H1 ltac:(lia)) as Hr1.
  destruct (Z.ltb_spec (y + 1) n).
  - destruct (at_index_some g (y + 1)) as (r2 & H2 & H2'); [lia|].
    replace (Z.to_nat (y + 1)) with (S (Z.to_nat y)) in H2' by lia.
    rewrite (drop_S _ _ _ H2'). pose proof (row_cells n g (y + 1) r2 Hsq H2 ltac:(lia)) as Hr2.
    rewrite (for_each_text _ (λ x, cellGlyph (cell g (y, x)) (cell g (y + 1, x)))).
    + cbn [mbind option_bind]. rewrite IH by lia. replace (Z.to_nat (y + 2)) with (S (S (Z.to_nat y))) by lia.
      cbn [pair_rows lines_text]. rewrite <-Hr1, <-Hr2 at 1. rewrite zip_map.
      rewrite <-(line_text_seq (λ x, (cell g (y, x), cell g (y + 1, x)))). cbn [fst snd].
      by rewrite !string_app_assoc.
    + intros x t Hx%elem_of_seqZ. rewrite (get2_at n g y x Hsq) by lia.
      cbn [mbind option_bind]. rewrite (get2_at n g (y + 1) x Hsq) by lia. done.
  - rewrite (for_each_text _ (λ x, cellGlyph (cell g (y, x)) false)).
    + cbn [mbind option_bind]. rewrite IH by lia. rewrite (drop_ge g) by lia. rewrite (drop_ge g) by lia.
      cbn [pair_rows lines_text]. rewrite <-Hr1 at 1. rewrite map_map.
      rewrite <-(line_text_seq (λ x, (cell g (y, x), false))). cbn [fst snd].
      by rewrite !string_app_assoc, !string_app_nil_r.
    + intros x t Hx%elem_of_seqZ. rewrite (get2_at n g y x Hsq) by lia. done.
Qed.

(** ** The quiet zone *)

Lemma blank_square n : 0 ≤ n → square n (blank n).
Proof.
  intros Hn. unfold blank. split; [rewrite length_replicate; lia|].
  apply Forall_replicate. rewrite length_replicate. lia.
Qed.

Lemma blank_cell n c : cell (blank n) c = false.
Proof.
  unfold cell, get2, at_index, blank. destruct (c.1 <? 0); [done|].
  destruct (replicate (Z.to_nat n) (replicate (Z.to_nat n) false) !! Z.to_nat c.1) as [r|] eqn:E; [|done].
  apply lookup_replicate in E as [-> _]. cbn [mbind option_bind]. destruct (c.2 <? 0); [done|].
  destruct (replicate (Z.to_nat n) false !! Z.to_nat c.2) as [b|] eqn:E; [|done].
  by apply lookup_replicate in E as [-> _].
Qed.

Definition shifted (c : Z * Z) : Z * Z := (c.1 + quiet, c.2 + quiet).

Lemma pad_quiet_ok n mat : square n mat → 0 ≤ n →
  ∃ p, pad_quiet mat = Some p ∧ square (n + quiet * 2) p ∧
       ∀ c, inside n c → cell p (shifted c) = cell mat c.
Proof.
  intros Hsq Hn. unfold pad_quiet. rewrite (proj1 Hsq).
  destruct (for_range_inv (λ y p, square (n + quiet * 2) p ∧
      ∀ c, inside n c → c.1 < y → cell p (shifted c) = cell mat c) 0 n
    (λ y padded, for_range 0 n (λ x padded, b ← get2 mat y x; put2 padded (y + quiet) (x + quiet) b) padded)
    (blank (n + quiet * 2))) as (p & -> & Hp & Hc); [done| | |].
  - split; [apply blank_square; unfold quiet; lia|]. intros c [Hc _]. lia.
  - intros y p Hy [Hp Hc].
    destruct (for_range_inv (λ x p, square (n + quiet * 2) p ∧
        ∀ c, inside n c → c.1 < y ∨ (c.1 = y ∧ c.2 < x) → cell p (shifted c) = cell mat c) 0 n
      (λ x padded, b ← get2 mat y x; put2 padded (y + quiet) (x + quiet) b) p) as (q & -> & Hq & Hcq); [done| | |].
    + split; [done|]. intros c Hin [H|H]; [by apply Hc|]. destruct Hin. lia.
    + intros x q Hx [Hq Hcq]. rewrite (get2_at n mat y x Hsq) by lia. cbn [mbind option_bind].
      destruct (put2_ok (n + quiet * 2) q (shifted (y, x)) (cell mat (y, x)) Hq) as (q' & Hput & Hq' & Hcell).
      { unfold inside, shifted, quiet. cbn. lia. }
      exists q'. split; [exact Hput|]. split; [done|]. intros c Hin Hor. rewrite Hcell.
      destruct (decide (shifted c = shifted (y, x))) as [E|E].
      * unfold shifted in E. injection E as E1 E2. destruct c as [cy cx]. cbn in *.
        assert (cy = y) as -> by lia. assert (cx = x) as -> by lia. done.
      * apply Hcq; [done|]. destruct Hor as [H | [Hcy H]]; [by left|right]. split; [done|].
        destruct c as [cy cx]. cbn [fst snd] in *. subst cy. assert (cx ≠ x) by congruence. lia.
    + exists q. split; [done|]. split; [done|]. intros c Hin H. apply Hcq; [done|]. destruct Hin. lia.
  - exists p. split; [done|]. split; [done|]. intros c Hin. apply Hc; [done|]. by destruct Hin as [[_ ?] _].
Qed.

(** the matrix without its quiet zone *)
Definition trim_quiet (g : list (list bool)) : list (list bool) :=
  let n := (length g - 8)%nat in map (λ r, take n (drop 4 r)) (take n (drop 4 g)).

Lemma trim_cells n g : square (n + quiet * 2) g → 0 ≤ n →
  square n (trim_quiet g) ∧ ∀ c, inside n c → cell (trim_quiet g) c = cell g (shifted c).
Proof.
  unfold quiet. intros [Hl Hr] Hn. unfold trim_quiet. set (k := (length g - 8)%nat).
  assert (Hk : Z.of_nat k = n) by lia. split.
  - split; [rewrite length_map, length_take, length_drop; lia|]. apply Forall_map.
    apply Forall_take, Forall_drop. eapply Forall_impl; [exact Hr|]. intros r Hlr. cbv beta in *.
    rewrite length_take, length_drop. lia.
  - intros [y x] [Hy Hx]. cbn [fst snd] in *. unfold cell, get2, at_index, shifted, quiet. cbn [fst snd].
    zcases; try lia. change (map ?f ?l) with (f <$> l). rewrite list_lookup_fmap, lookup_take_lt by lia.
    rewrite lookup_drop. replace (4 + Z.to_nat y)%nat with (Z.to_nat (y + 4)) by lia.
    destruct (g !! Z.to_nat (y + 4)) as [r|] eqn:E; [|done]. cbn [fmap option_fmap option_map mbind option_bind].
    zcases; try lia. rewrite lookup_take_lt by lia. rewrite lookup_drop. do 2 f_equal. lia.
Qed.

Lemma square_ext n g h : square n g → square n h → (∀ c, inside n c → cell g c = cell h c) → g = h.
Proof.
  intros Hg Hh Hc. pose proof Hg as [Hlg _]. pose proof Hh as [Hlh _].
  apply list_eq. intros i. destruct (decide (i < length g)%nat) as [Hi|Hi].
  - destruct (at_index_some g (Z.of_nat i)) as (r1 & H1 & H1'); [lia|].
    destruct (at_index_some h (Z.of_nat i)) as (r2 & H2 & H2'); [lia|]. rewrite Nat2Z.id in *.
    rewrite H1', H2'. f_equal. rewrite <-(row_cells n g _ r1 Hg H1), <-(row_cells n h _ r2 Hh H2) by lia.
    apply map_ext_in. intros x Hx. apply list_elem_of_In, elem_of_seqZ in Hx. apply Hc. unfold inside. cbn. lia.
  - rewrite !lookup_ge_None_2 by lia. done.
Qed.

(** ** Reading the text *)

(** the rows of modules of the lines, as many as a line is long *)
Definition unpair (ls : list (list (bool * bool))) : list (list bool) :=
  take (length (hd [] ls)) (concat (map (λ l, [map fst l; map snd l]) ls)).

Definition read_text (s : string) : option (list Z) :=
  read_symbol (trim_quiet (unpair (read_lines s []))).

Lemma zip_fst_snd {A} (r1 r2 : list A) : length r1 = length r2 →
  map fst (zip r1 r2) = r1 ∧ map snd (zip r1 r2) = r2.
Proof.
  revert r2. induction r1 as [|a r1 IH]; intros [|b r2] H; try done. cbn in *. injection H as H.
  destruct (IH r2 H) as [E1 E2]. unfold zip in *. by rewrite E1, E2.
Qed.

Lemma unpair_rows (n : nat) g : Forall (λ r, length r = n) g →
  ∃ extra, concat (map (λ l, [map fst l; map snd l]) (pair_rows g)) = g ++ extra.
Proof.
  revert g. fix IH 1. intros g Hg. destruct g as [|r1 [|r2 g]].
  - by exists [].
  - exists [map snd (map (λ b : bool, (b, false)) r1)]. cbn [pair_rows map concat app].
    f_equal. rewrite map_map. apply map_id.
  - apply Forall_cons in Hg as [H1 [H2 Hg]%Forall_cons]. destruct (IH g Hg) as (extra & He).
    exists extra. cbn [pair_rows map concat]. rewrite He.
    destruct (zip_fst_snd r1 r2) as [-> ->]; [congruence|]. done.
Qed.

Lemma unpair_pair (n : nat) g : (0 < n)%nat → length g = n → Forall (λ r, length r = n) g →
  unpair (pair_rows g) = g.
Proof.
  intros Hn Hl Hg. unfold unpair. destruct (unpair_rows n g Hg) as (extra & ->).
  assert (length (hd [] (pair_rows g)) = n) as ->.
  { destruct g as [|r1 [|r2 g]]; cbn in *; [lia| |].
    - rewrite length_map. by apply Forall_cons in Hg as [H _].
    - apply Forall_cons in Hg as [H1 [H2 _]%Forall_cons]. rewrite length_zip_with. lia. }
  rewrite take_app_le by lia. by rewrite take_ge by lia.
Qed.

Lemma render_read n mat : square n mat → 0 < n →
  ∃ out, renderHalfBlocks mat = Some out ∧ trim_quiet (unpair (read_lines out [])) = mat.
Proof.
  intros Hsq Hn. unfold renderHalfBlocks. rewrite (proj1 Hsq).
  destruct (pad_quiet_ok n mat Hsq ltac:(lia)) as (p & -> & Hp & Hcell). cbn [mbind option_bind].
  rewrite (half_rows_ok _ _ _ _ _ Hp) by (unfold quiet; lia). eexists. split; [done|].
  change (drop (Z.to_nat 0) p) with p. change ("" +:+ ?s) with s. rewrite read_lines_text.
  pose proof Hp as [Hl Hr]. rewrite (unpair_pair (Z.to_nat (n + quiet * 2))).
  - destruct (trim_cells n p Hp ltac:(lia)) as [Ht Htc].
    apply (square_ext n); [done|done|]. intros c Hc. by rewrite Htc, Hcell.
  - unfold quiet. lia.
  - lia.
  - eapply Forall_impl; [exact Hr|]. cbv beta. intros r H. lia.
Qed.

Lemma bytes_of_bytes s : bytes (bytes_of s).
Proof. unfold bytes_of. apply Forall_map, Forall_forall. intros c _. apply byteZ_range. Qed.

Lemma bytes_of_length s : length (bytes_of s) = String.length s.
Proof.
  unfold bytes_of. rewrite length_map. induction s as [|c s IH]; [done|]. cbn. by rewrite IH.
Qed.

(** ** What the QR encoder promises, and where it fails

    The text of [QRString] is read back as its argument; the mask is the one of
    least penalty; and the error-correction codewords are not those of the
    Reed-Solomon code, because the division uses the generator backwards. *)

Local Open Scope string_scope.
Local Open Scope list_scope.
Local Open Scope Z_scope.

(** C36: [QRString] never panics and its loops end, on any string.  A string of
    at most 213 bytes gives a text from which a reader without errors to
    correct recovers the string: quiet zone, half blocks, format bits, data
    mask, zig-zag placement, interleaving and bit stream fit together.  A
    longer string is refused with an empty text. *)
Theorem qr_text_read_back (s : string) :
  ∃ text, QRString s = Some (text, (String.length s <=? 213)%nat) ∧
    if (String.length s <=? 213)%nat then read_text text = Some (bytes_of s) else text = "".
Proof.
  unfold QRString. destruct (Nat.leb_spec (String.length s) 213) as [Hl|Hl].
  - destruct (encode_read (bytes_of s)) as (mat & n & He & Hsq & Hn & Hr);
      [apply bytes_of_bytes|rewrite bytes_of_length; lia|].
    rewrite He. cbn [mbind option_bind]. destruct (render_read n mat Hsq) as (out & Hout & Ht); [lia|].
    rewrite Hout. cbn [mbind option_bind]. exists out. split; [done|]. unfold read_text. by rewrite Ht.
  - assert (Hz : pickVersion (Z.of_nat (length (bytes_of s))) = 0)
      by (apply pickVersion_zero; rewrite bytes_of_length; lia).
    unfold encode. rewrite Hz. by exists "".
Qed.

(** ** Linearity of the division *)

Definition xor_lists (u v : list Z) : list Z := zip_with Z.lxor u v.

Lemma xor_lists_bytes u v : bytes u → bytes v → bytes (xor_lists u v).
Proof. apply zip_lxor_bytes. Qed.

Lemma peval_xor x u v : byte x → bytes u → bytes v → length u = length v →
  peval (xor_lists u v) x = Z.lxor (peval u x) (peval v x).
Proof.
  intros Hx Hu. revert v. induction Hu as [|a u Ha Hu IH]; intros [|b v] Hv Hl; try done.
  pose proof Hv as [Hb Hv']%Forall_cons. cbn [length] in Hl. injection Hl as Hl.
  cbn [xor_lists zip_with]. fold (xor_lists u v).
  pose proof (xor_lists_bytes u v Hu Hv'). rewrite !peval_cons, IH by gf_side.
  unfold xor_lists at 1. rewrite length_zip_with, Hl, Nat.min_id, gfMul_lxor_l by gf_side. xor_ac.
Qed.

Lemma scale_xor a b l : byte a → byte b → bytes l → scale (Z.lxor a b) l = xor_lists (scale a l) (scale b l).
Proof.
  intros Ha Hb. induction 1 as [|g l Hg Hl IH]; [done|]. cbn [scale map xor_lists zip_with].
  fold (scale (Z.lxor a b) l). rewrite IH. f_equal. by apply gfMul_lxor_r.
Qed.

Lemma xor_into_xor w1 w2 t1 t2 : length w1 = length w2 → length t1 = length t2 →
  xor_into (xor_lists w1 w2) (xor_lists t1 t2) = xor_lists (xor_into w1 t1) (xor_into w2 t2).
Proof.
  revert w2 t1 t2. induction w1 as [|a w1 IH]; intros [|b w2] [|c t1] [|d t2] Hw Ht; try done.
  cbn [xor_lists zip_with xor_into]. cbn [length] in *. f_equal; [xor_ac|]. apply IH; lia.
Qed.

Lemma divide_xor k tl w1 w2 : bytes tl → bytes w1 → bytes w2 → length w1 = length w2 →
  divide k tl (xor_lists w1 w2) = xor_lists (divide k tl w1) (divide k tl w2).
Proof.
  intros Ht. revert w1 w2. induction k as [|k IH]; intros [|a w1] [|b w2] H1 H2 Hl; try done.
  apply Forall_cons in H1 as [Ha H1]. apply Forall_cons in H2 as [Hb H2]. cbn [length] in Hl. injection Hl as Hl.
  cbn [xor_lists zip_with divide]. rewrite scale_xor by done.
  fold (xor_lists w1 w2). rewrite xor_into_xor by (rewrite ?scale_length; done).
  apply IH; [by apply xor_into_bytes, scale_bytes..|]. by rewrite !xor_into_length.
Qed.

Lemma xor_lists_self l : xor_lists l l = replicate (length l) 0.
Proof. unfold xor_lists. induction l as [|x l IH]; [done|]. cbn [zip_with length replicate]. by rewrite Z.lxor_nilpotent, IH. Qed.

Lemma xor_lists_app a b c d : length a = length b → xor_lists (a ++ c) (b ++ d) = xor_lists a b ++ xor_lists c d.
Proof. intros H. unfold xor_lists. by apply zip_with_app. Qed.

Lemma divide_zeros k tl c w : divide (k + 1) tl (replicate k 0 ++ c :: w) = xor_into w (scale c tl).
Proof.
  induction k as [|k IH]; [done|]. cbn [replicate app Nat.add divide]. rewrite xor_into_zeros. apply IH.
Qed.

(** Two blocks that differ in their last data codeword only. *)
Lemma ec_words_differ n q a b : 0 < n ≤ 255 → bytes q → byte a → byte b →
  xor_lists (ec_words n (q ++ [a])) (ec_words n (q ++ [b])) = scale (Z.lxor a b) (tail (rsGenerator n)).
Proof.
  intros Hn Hq Ha Hb. destruct (generator_split n Hn) as (h & tl & Hg & Hl & Ht). unfold ec_words.
  rewrite Hg. cbn [tail]. rewrite !length_app. cbn [length]. pose proof (zeros_bytes n) as Hz.
  rewrite <-divide_xor.
  - rewrite <-!app_assoc, !xor_lists_app, xor_lists_self by done.
    rewrite xor_lists_self. cbn [xor_lists zip_with app]. rewrite divide_zeros.
    unfold zeros. rewrite length_replicate, <-Hl, Nat2Z.id. generalize (Z.lxor a b). intros c.
    clear. induction tl as [|g tl IH]; [done|]. cbn [length replicate scale map xor_into].
    fold (scale c tl). by rewrite IH, Z.lxor_0_l.
  - done.
  - exact (proj2 (Forall_app _ _ _) (conj (bytes_snoc q a Hq Ha) Hz)).
  - exact (proj2 (Forall_app _ _ _) (conj (bytes_snoc q b Hq Hb) Hz)).
  - by rewrite !length_app.
Qed.

(** The list of coefficients is no multiple of [x - 1] when read from its
    second element on with a leading 1. *)
Lemma reversed_generator_26 : peval (1 :: tail (rsGenerator 26)) 1 ≠ 0.
Proof. by vm_compute. Qed.

Lemma at_most_one_valid n q a b : 0 < n ≤ 255 → peval (1 :: tail (rsGenerator n)) 1 ≠ 0 →
  bytes q → byte a → byte b → a ≠ b →
  ¬ (valid_block n ((q ++ [a]) ++ ec_words n (q ++ [a])) ∧ valid_block n ((q ++ [b]) ++ ec_words n (q ++ [b]))).
Proof.
  intros Hn Hrev Hq Ha Hb Hab [Va Vb]. specialize (Va 0 ltac:(lia)). specialize (Vb 0 ltac:(lia)).
  change (exp_at 0) with 1 in *.
  destruct (generator_split n Hn) as (h & tl & Hg & Hl & Ht).
  pose proof (bytes_snoc q a Hq Ha) as Hqa. pose proof (bytes_snoc q b Hq Hb) as Hqb.
  destruct (reedSolomon_words (q ++ [a]) n Hn Hqa) as (_ & Hla & Hea).
  destruct (reedSolomon_words (q ++ [b]) n Hn Hqb) as (_ & Hlb & Heb).
  assert (Hx : peval (xor_lists ((q ++ [a]) ++ ec_words n (q ++ [a])) ((q ++ [b]) ++ ec_words n (q ++ [b]))) 1 = 0).
  { rewrite peval_xor, Va, Vb; [done|apply byte_1|by apply Forall_app..|]. rewrite !length_app. cbn [length]. lia. }
  rewrite !xor_lists_app in Hx by (rewrite ?length_app; done).
  rewrite ec_words_differ in Hx by (done || lia).
  rewrite xor_lists_self in Hx. cbn [xor_lists zip_with] in Hx.
  rewrite Hg in *. cbn [tail] in *.
  assert (Hd : byte (Z.lxor a b)) by gf_side.
  assert (Hs : bytes (scale (Z.lxor a b) tl)) by gf_side.
  assert (Hz : bytes (replicate (length q) 0)) by apply Forall_replicate, byte_0.
  rewrite <-app_assoc in Hx. cbn [app] in Hx.
  assert (Hs' : bytes (Z.lxor a b :: scale (Z.lxor a b) tl)) by by constructor.
  rewrite peval_app, peval_replicate, gfMul_0_l, Z.lxor_0_l, peval_cons, peval_scale in Hx
    by (exact Hs' || gf_side).
  rewrite peval_cons, gfMul_1_l in Hrev by gf_side. rewrite scale_length in Hx.
  assert (Hpow : ∀ k, gpow 1 k = 1).
  { intros k. induction k as [|k IH]; [done|]. rewrite gpow_succ, IH. apply gfMul_1_l, byte_1. }
  rewrite Hpow in *. rewrite (gfMul_comm _ 1) in Hx.
  rewrite <-gfMul_lxor_l in Hx by gf_side. revert Hx. apply gfMul_nonzero; [gf_side|done|done|].
  intros H. apply Hab. by apply Z.lxor_eq.
Qed.

(** ** The codewords of an address *)

Lemma columns_single (l : list Z) : columns (length l) [l] = l.
Proof.
  unfold columns. assert (H : ∀ k, (k + length (drop k l) = length l)%nat →
    concat (map (column [l]) (List.seq k (length (drop k l)))) = drop k l).
  { intros k. remember (drop k l) as d eqn:Hd. revert k Hd.
    induction d as [|x d IH]; intros k Hd Hk; [done|]. cbn [length List.seq map concat] in *.
    assert (Hx : l !! k = Some x).
    { rewrite <-(Nat.add_0_r k), <-lookup_drop, <-Hd. done. }
    unfold column at 1. cbn [omap list_omap]. rewrite Hx. cbn [app]. f_equal. apply IH; [|lia].
    rewrite <-(drop_S _ _ _ Hx) in Hd || idtac. pose proof (drop_S _ _ _ Hx) as Hs. congruence. }
  apply (H 0%nat). done.
Qed.

Definition layout3 : blockLayout := mkLayout 1 44 0 0.

(** version 3 has one block: the data codewords and their 26 codewords *)
Lemma interleaved_3 d : length d = 44%nat → bytes d → interleaved layout3 26 d = d ++ ec_words 26 d.
Proof.
  intros Hl Hb. unfold interleaved, rows, layout3, g1, g1cw, g2, g2cw, widest. cbn [bl_g1 bl_g1cw bl_g2 bl_g2cw].
  change (Z.to_nat 1) with 1%nat. change (Z.to_nat 44) with 44%nat. change (Z.to_nat 0) with 0%nat.
  cbn [chunks app]. rewrite take_ge by lia. cbn [map].
  destruct (reedSolomon_words d 26 ltac:(lia) Hb) as (_ & He & _).
  revert He. generalize (ec_words 26 d). intros e He. f_equal.
  - rewrite <-(columns_single d) at 2. by rewrite Hl.
  - rewrite <-(columns_single e) at 2. f_equal. lia.
Qed.

Lemma bytes_of_app s t : bytes_of (s +:+ t) = bytes_of s ++ bytes_of t.
Proof.
  unfold bytes_of. rewrite <-map_app. f_equal. induction s as [|c s IH]; [done|].
  rewrite string_app_cons. cbn [String.list_ascii_of_string app]. by rewrite IH.
Qed.

(** the last data codeword of an address that ends in the digit [d] *)
Definition last_codeword (d : Z) : Z := (d - 48) * 16.

Lemma digit_bits d : 48 ≤ d < 58 →
  bits_of d 8 ++ bits_of 0 4 = [false; false; true; true] ++ bits_of (last_codeword d) 8.
Proof.
  intros Hd. assert (Hc : d = 48 ∨ d = 49 ∨ d = 50 ∨ d = 51 ∨ d = 52 ∨ d = 53 ∨ d = 54 ∨ d = 55 ∨ d = 56 ∨ d = 57) by lia.
  destruct_or! Hc; subst d; reflexivity.
Qed.

Lemma unpack_singleton b : unpack [b] = bits_of b 8.
Proof. unfold unpack. cbn [map concat]. apply app_nil_r. Qed.

(** An address of 42 characters fills version 3 to the last half byte. *)
Lemma address_codewords (p : string) : String.length p = 41%nat →
  ∃ q, length q = 43%nat ∧ bytes q ∧ ∀ a, is_digit a = true →
    codewords (bytes_of (p +:+ String a "")) =
    Some ((q ++ [last_codeword (byteZ a)]) ++ ec_words 26 (q ++ [last_codeword (byteZ a)])).
Proof.
  intros Hp. pose proof (bytes_of_length p) as Hpl. rewrite Hp in Hpl.
  set (u := bits_of 4 4 ++ bits_of 42 8 ++ unpack (bytes_of p) ++ [false; false; true; true]).
  assert (Hu : length u = (8 * 43)%nat).
  { unfold u. rewrite !length_app, unpack_length, Hpl.
    pose proof (bits_of_length 4 4). pose proof (bits_of_length 42 8). cbn [length]. lia. }
  destruct (pack_facts u 43 Hu) as [Hq Hqb]. exists (bitsToCodewords u (Z.of_nat 43)).
  pose proof (bitsToCodewords_length u (Z.of_nat 43) ltac:(lia)) as Hql.
  revert Hq Hqb Hql. generalize (bitsToCodewords u (Z.of_nat 43)). intros q Hq Hqb Hql.
  split; [lia|]. split; [done|]. intros a Ha. unfold is_digit in Ha. bool_prop.
  assert (Hlen : length (bytes_of (p +:+ String a "")) = 42%nat).
  { rewrite bytes_of_app, length_app, Hpl. done. }
  assert (Hfit : fits 3 (Z.of_nat (length (bytes_of (p +:+ String a ""))))).
  { rewrite Hlen. exists 44. unfold count_bits. repeat split; cbn; lia. }
  destruct (buildDataBits_ok _ 3 44 Hfit eq_refl) as (pad & Hbl & Hb).
  rewrite Hlen in Hbl, Hb. change (count_bits 3) with 8 in *. change (Z.of_nat 42) with 42 in *.
  rewrite bytes_of_app, unpack_app in Hbl, Hb. change (bytes_of (String a "")) with [byteZ a] in Hbl, Hb.
  rewrite unpack_singleton in Hbl, Hb.
  assert (Hpad : pad = []).
  { destruct pad; [done|]. rewrite !length_app, unpack_length, Hpl in Hbl. cbn [length] in Hbl.
    pose proof (bits_of_length 4 4). pose proof (bits_of_length 42 8). pose proof (bits_of_length 0 4).
    pose proof (bits_of_length (byteZ a) 8). lia. }
  subst pad. rewrite app_nil_r in Hb.
  assert (Hbits : bits_of 4 4 ++ bits_of 42 8 ++ (unpack (bytes_of p) ++ bits_of (byteZ a) 8) ++ bits_of 0 4
                  = unpack (q ++ [last_codeword (byteZ a)])).
  { rewrite unpack_app, unpack_singleton, Hq. unfold u. rewrite <-!app_assoc, digit_bits by lia. done. }
  rewrite Hbits in Hb. clear Hbl Hbits.
  assert (Hcw : bytes (q ++ [last_codeword (byteZ a)])).
  { apply bytes_snoc; [done|]. unfold byte, last_codeword. lia. }
  unfold codewords. rewrite Hlen. change (pickVersion (Z.of_nat 42)) with 3.
  rewrite bytes_of_app. change (bytes_of (String a "")) with [byteZ a]. rewrite Hb.
  cbn [mbind option_bind]. change (at_index dataCodewordsM (3 - 1)) with (Some 44). cbn [mbind option_bind].
  assert (Hl44 : length (q ++ [last_codeword (byteZ a)]) = 44%nat) by (rewrite length_app; cbn [length]; lia).
  pose proof (codewords_unpack (q ++ [last_codeword (byteZ a)]) [] Hcw) as Hcu.
  rewrite app_nil_r, Hl44 in Hcu. change (Z.of_nat 44) with 44 in Hcu. rewrite Hcu.
  rewrite (interleave_ok (3 - 1) layout3 26 44); [|done..|by rewrite Hl44|done].
  by rewrite interleaved_3.
Qed.

(** The error-correction codewords drawn for an address are not the
    Reed-Solomon codewords the comment on the encoder announces: of two
    addresses of 42 characters that differ in a final decimal digit, at most
    one is drawn with a valid block, although the same data codewords followed
    by the remainder modulo the generator polynomial would be valid for both.
    [rsGenerator] lists the coefficients from the constant term up, and
    [reedSolomon] takes the first one for the leading coefficient. *)
Theorem address_error_correction_invalid (p : string) (a b : Ascii.ascii) :
  String.length p = 41%nat → is_digit a = true → is_digit b = true → a ≠ b →
  ∃ da db ea eb,
    codewords (bytes_of (p +:+ String a "")) = Some (da ++ ea) ∧
    codewords (bytes_of (p +:+ String b "")) = Some (db ++ eb) ∧
    length ea = 26%nat ∧ length eb = 26%nat ∧
    ¬ (valid_block 26 (da ++ ea) ∧ valid_block 26 (db ++ eb)) ∧
    valid_block 26 (da ++ remainder da 26) ∧ valid_block 26 (db ++ remainder db 26).
Proof.
  intros Hp Ha Hb Hab. destruct (address_codewords p Hp) as (q & Hl & Hq & Hcw).
  pose proof Ha as Ha'. pose proof Hb as Hb'. unfold is_digit in Ha', Hb'. bool_prop.
  set (xa := last_codeword (byteZ a)). set (xb := last_codeword (byteZ b)).
  assert (Hxa : byte xa) by (unfold byte, xa, last_codeword; lia).
  assert (Hxb : byte xb) by (unfold byte, xb, last_codeword; lia).
  assert (Hne : xa ≠ xb).
  { unfold xa, xb, last_codeword. intros H'. apply Hab, byteZ_inj. lia. }
  pose proof (bytes_snoc q xa Hq Hxa) as Hda. pose proof (bytes_snoc q xb Hq Hxb) as Hdb.
  exists (q ++ [xa]), (q ++ [xb]), (ec_words 26 (q ++ [xa])), (ec_words 26 (q ++ [xb])).
  split; [exact (Hcw a Ha)|]. split; [exact (Hcw b Hb)|].
  pose proof (proj1 (proj2 (reedSolomon_words (q ++ [xa]) 26 ltac:(lia) Hda))) as Hea.
  pose proof (proj1 (proj2 (reedSolomon_words (q ++ [xb]) 26 ltac:(lia) Hdb))) as Heb.
  split; [clear -Hea; lia|]. split; [clear -Heb; lia|].
  split; [exact (at_most_one_valid 26 q xa xb ltac:(lia) reversed_generator_26 Hq Hxa Hxb Hne)|].
  split; [exact (remainder_valid _ 26 ltac:(lia) Hda)|exact (remainder_valid _ 26 ltac:(lia) Hdb)].
Qed.

Lemma address_error_correction_invalid_witness : ∃ da db ea eb,
    codewords (bytes_of "0x9858EfFD232B4033E47d90003D41EC34EcaEda94") = Some (da ++ ea) ∧
    codewords (bytes_of "0x9858EfFD232B4033E47d90003D41EC34EcaEda95") = Some (db ++ eb) ∧
    length ea = 26%nat ∧ length eb = 26%nat ∧
    ¬ (valid_block 26 (da ++ ea) ∧ valid_block 26 (db ++ eb)) ∧
    valid_block 26 (da ++ remainder da 26) ∧ valid_block 26 (db ++ remainder db 26).
Proof.
  apply (address_error_correction_invalid "0x9858EfFD232B4033E47d90003D41EC34EcaEda9"
           (Ascii.ascii_of_nat 52) (Ascii.ascii_of_nat 53)); [reflexivity..|discriminate].
Defined.
