(* ===== verification/Recognize.v ===== *)
(** * The typed-data recognizers: [internal/policy/recognizers.go]

    An EIP-712 message that grants an allowance is recognized by its primary
    type, the set of its fields and the verifying contract: EIP-2612 and DAI
    permits and the four Permit2 messages.  A Go [any] is a value of [any]; a
    message and a domain are maps from field names to such values. *)

From Stdlib Require Import SpecFloat.

From S2P Require Import Prelude GoStrings Decimal PolicyTypes Evaluate Gas.

Local Open Scope string_scope.
Local Open Scope Z_scope.
Local Open Scope list_scope.

(** the dynamic types the coercions distinguish; a nil pointer is [None] *)
Inductive any :=
| ANil
| AString (s : string)
| ABool (b : bool)
| AFloat (f : float64)
| AInt (n : Z)
| AInt64 (n : Z)
| ABigInt (v : option Z)
| AHexOrDecimal (v : option Z)
| AAddress (a : Address)
| AMap (m : gmap string any)
| ASlice (l : list any).

Definition anymap : Type := gmap string any.

(** [m[key]]: the nil interface for a missing key *)
Definition index (m : anymap) (key : string) : any := default ANil (m !! key).

Record SpendToken := mkSpendToken { st_Token : string; st_Unlimited : bool }.

Record TypedDataClass := mkTypedClass {
  tdc_IsSpend : bool;
  tdc_Kind : string;
  tdc_Spender : string;
  tdc_Unlimited : bool;
  tdc_ChainID : Z;
  tdc_Verifying : string;
  tdc_Primary : string;
  tdc_Denied : bool;
  tdc_DenyReason : string;
  tdc_Tokens : list SpendToken;
}.

Definition no_class : TypedDataClass := mkTypedClass false "" "" false 0 "" "" false "" [].

Definition permit2Contract := "0x000000000022d473030f116ddee9f6b43ac78ba3".

(** [v.IsInt64()] *)
Definition is_int64 (n : Z) : bool := (- 2 ^ 63 <=? n) && (n <? 2 ^ 63).

Section Recognize.
Context {UT : UnicodeTables} {GC : GethCommon} {IC : Int64Conv}.

(** ** Coercions *)

Definition parseBigString (s : string) : option Z :=
  let s := TrimSpace s in
  if bool_decide (s = "") then None
  else if HasPrefix s "0x" || HasPrefix s "0X" then SetString (sdrop 2 s) 16
  else SetString s 10.

Definition messageBig (m : anymap) (key : string) : option Z :=
  match index m key with
  | AString t => parseBigString t
  | AFloat t => if SFeqb t (double (int64 t) 0) then Some (int64 t) else None
  | AInt t => Some t
  | AInt64 t => Some t
  | ABigInt t => t
  | AHexOrDecimal t => t
  | _ => None
  end.

Definition messageBool (m : anymap) (key : string) : option bool :=
  match index m key with
  | ABool t => Some t
  | AString t =>
      if bool_decide (t = "true") then Some true
      else if bool_decide (t = "false") then Some false
      else None
  | _ => None
  end.

Definition lowerAddr (v : any) : string :=
  match v with
  | AString t => if IsHexAddress t then ToLower (Hex (HexToAddress t)) else ""
  | AAddress t => ToLower (Hex t)
  | _ => ""
  end.

Definition messageAddr (m : anymap) (key : string) : option string :=
  let a := lowerAddr (index m key) in
  if bool_decide (a = "") then None else Some a.

Definition readChainID (domain : anymap) : Z :=
  match messageBig domain "chainId" with
  | Some v => if is_int64 v then v else 0
  | None => 0
  end.

Definition hasExactKeys (m : anymap) (want : list string) : bool :=
  (size m =? length want)%nat && forallb (λ k, bool_decide (is_Some (m !! k))) want.

(** ** The shapes *)

(** a match before the dispatcher fills in the domain *)
Definition approval (spender : string) (unlimited : bool) (tokens : list SpendToken) : TypedDataClass :=
  mkTypedClass true "approve" spender unlimited 0 "" "" false "" tokens.

Definition matchEIP2612 (primaryType : string) (message : anymap) : option TypedDataClass :=
  if negb (bool_decide (primaryType = "Permit")) then None else
  if negb (hasExactKeys message ["owner"; "spender"; "value"; "nonce"; "deadline"]) then None else
  match messageAddr message "spender" with
  | None => None
  | Some spender =>
  match messageBig message "value" with
  | None => None
  | Some value =>
      let deadline := messageBig message "deadline" in
      let unlimited := (value =? uint256Max) ||
                       match deadline with Some d => d =? uint256Max | None => false end in
      Some (approval spender unlimited [])
  end end.

Definition matchDAIPermit (primaryType : string) (message : anymap) : option TypedDataClass :=
  if negb (bool_decide (primaryType = "Permit")) then None else
  if negb (hasExactKeys message ["holder"; "spender"; "nonce"; "expiry"; "allowed"]) then None else
  match messageAddr message "spender" with
  | None => None
  | Some spender =>
  match messageBool message "allowed" with
  | None => None
  | Some allowed => Some (approval spender allowed [])
  end end.

Definition permit2Token (obj : anymap) (sentinel : Z) : option SpendToken :=
  match messageAddr obj "token", messageBig obj "amount" with
  | Some token, Some amt => Some (mkSpendToken token (amt =? sentinel))
  | _, _ => None
  end.

(** the loop of permit2Tokens, over the remaining elements *)
Fixpoint permit2_entries (arr : list any) (sentinel : Z) (anyUnlimited : bool) (toks : list SpendToken)
    : option (list SpendToken * bool) :=
  match arr with
  | [] => Some (toks, anyUnlimited)
  | AMap d :: arr =>
      match permit2Token d sentinel with
      | Some st => permit2_entries arr sentinel (if st_Unlimited st then true else anyUnlimited) (toks ++ [st])
      | None => None
      end
  | _ :: _ => None
  end.

Definition permit2Tokens (raw : any) (sentinel : Z) : option (list SpendToken * bool) :=
  match raw with
  | ASlice arr => if (length arr =? 0)%nat then None else permit2_entries arr sentinel false []
  | _ => None
  end.

(** one token entry below [key] *)
Definition permit2_single (spender : string) (message : anymap) (key : string) (sentinel : Z)
    : option TypedDataClass :=
  match index message key with
  | AMap details =>
      match permit2Token details sentinel with
      | Some st => Some (approval spender (st_Unlimited st) [st])
      | None => None
      end
  | _ => None
  end.

Definition permit2_batch (spender : string) (message : anymap) (key : string) (sentinel : Z)
    : option TypedDataClass :=
  match permit2Tokens (index message key) sentinel with
  | Some (toks, unlimited) => Some (approval spender unlimited toks)
  | None => None
  end.

Definition matchPermit2 (primaryType verifying : string) (message : anymap) : option TypedDataClass :=
  if negb (bool_decide (verifying = permit2Contract)) then None else
  let spender := messageAddr message "spender" in
  if bool_decide (primaryType = "PermitSingle") then
    match spender with Some s => permit2_single s message "details" uint160Max | None => None end
  else if bool_decide (primaryType = "PermitBatch") then
    match spender with Some s => permit2_batch s message "details" uint160Max | None => None end
  else if bool_decide (primaryType = "PermitTransferFrom") then
    permit2_single (default "" spender) message "permitted" uint256Max
  else if bool_decide (primaryType = "PermitBatchTransferFrom") then
    permit2_batch (default "" spender) message "permitted" uint256Max
  else None.

(** ** The dispatcher *)

(** the fields taken from the domain *)
Definition with_domain (c : TypedDataClass) (chainID : Z) (verifying primary : string) (tokens : list SpendToken)
    : TypedDataClass :=
  mkTypedClass (tdc_IsSpend c) (tdc_Kind c) (tdc_Spender c) (tdc_Unlimited c) chainID verifying primary
    (tdc_Denied c) (tdc_DenyReason c) tokens.

Definition classifyTypedData (primaryType : string) (domain message : anymap) : TypedDataClass :=
  let chainID := readChainID domain in
  let verifying := lowerAddr (index domain "verifyingContract") in
  match matchEIP2612 primaryType message with
  | Some c => with_domain c chainID verifying primaryType [mkSpendToken verifying (tdc_Unlimited c)]
  | None =>
  match matchDAIPermit primaryType message with
  | Some c => with_domain c chainID verifying primaryType [mkSpendToken verifying (tdc_Unlimited c)]
  | None =>
  match matchPermit2 primaryType verifying message with
  | Some c => with_domain c chainID verifying primaryType (tdc_Tokens c)
  | None => no_class
  end end end.

Definition ClassifyTypedDataFor (expectedChainID : Z) (primaryType : string) (domain message : anymap)
    : TypedDataClass :=
  let c := classifyTypedData primaryType domain message in
  if tdc_IsSpend c && (0 <? expectedChainID) && (0 <? tdc_ChainID c) && negb (tdc_ChainID c =? expectedChainID)
  then mkTypedClass (tdc_IsSpend c) (tdc_Kind c) (tdc_Spender c) (tdc_Unlimited c) (tdc_ChainID c)
         (tdc_Verifying c) (tdc_Primary c) true "chain_mismatch" (tdc_Tokens c)
  else c.
End Recognize.
