(* ===== verification/Sign.v ===== *)
(** * Signatures without a transaction: [internal/service/sign.go]

    An EIP-191 message is signed under its prefix unless the policy switched
    messages off; an EIP-712 document passes the policy before the signer sees
    its digest.  The parser and the hash of typed data, the keystore and the
    signer are outside: the classes [TypedDataLib] and [Signer]. *)

From S2P Require Import Prelude GoStrings Decimal HexBytes Encodings PolicyTypes Seal Domain PolicyFile Trace Evaluate Counter Reservation Engine PolicyAdmin Calldata Gas Journal Nonce Service Recognize.

Local Open Scope string_scope.
Local Open Scope Z_scope.
Local Open Scope list_scope.
Local Open Scope go_scope.

Definition CodeSignBadTyped := "sign.bad_typed".
Definition CodePolicyDenied := "policy.denied".
Definition CodePolicyDeniedTypedData := "policy.denied.typed_data".

(** ** What is outside *)

(** apitypes.TypedDataDomain *)
Record TypedDataDomain := mkDomain {
  dm_Name : string; dm_Version : string; dm_ChainId : option Z; dm_VerifyingContract : string; dm_Salt : string }.

(** apitypes.TypedData; the type table is only read by the hash *)
Record TypedData := mkTypedData {
  ty_Types : list (string * list (string * string));
  ty_PrimaryType : string;
  ty_Domain : TypedDataDomain;
  ty_Message : anymap;
}.

Class TypedDataLib := {
  td_unmarshal : string → option TypedData;      (* json.Unmarshal *)
  TypedDataAndHash : TypedData → option Hash;    (* apitypes.TypedDataAndHash *)
  TextHash : string → Hash;                      (* accounts.TextHash *)
}.

(** the signer, the unlocker of the keystore, and the endpoint *)
Class Signer (N : Type) := {
  with_unlocker : N → res error unit * N;
  SignHash : AccountRef → Hash → N → res error string * N;
  ClientFor : N → res error unit * N;
  cc_ChainID : N → res GoError (option Z) * N;
}.

Record SigResult := mkSig { sg_Signature : string; sg_Signer : string; sg_Digest : string; sg_Scheme : string }.

(** ** Coercions *)

(** strconv.ParseInt(s, base, 64) for base 10 and 16 *)
Definition ParseInt64 (s : string) (base : Z) : option Z :=
  match SetString s base with
  | Some n => if is_int64 n then Some n else None
  | None => None
  end.

Section Sign.
Context {N : Type} {UT : UnicodeTables} {GC : GethCommon} {IC : Int64Conv} {RC : LineCodec Reservation}
        {JC : LineCodec JRecord} {MO : MapOrder} {SC : SealCrypto} {EV : Environment N}
        {TL : TypedDataLib} {SG : Signer N}.
Variables (accounts : option (string → list Address)) (anchor : option Anchor).

Definition lowerHexAddr (v : any) : string :=
  match v with
  | AString t => if IsHexAddress t then ToLower (Hex (HexToAddress t)) else ""
  | AAddress t => ToLower (Hex t)
  | _ => ""
  end.

Definition readDomainChainID (domMap : anymap) : Z :=
  match index domMap "chainId" with
  | AFloat v => int64 v
  | AInt64 v => v
  | AInt v => v
  | AString v =>
      let s := TrimSpace v in
      if bool_decide (s = "") then 0 else
      let n := if HasPrefix s "0x" || HasPrefix s "0X" then ParseInt64 (sdrop 2 s) 16 else ParseInt64 s 10 in
      default 0 n
  | _ => 0
  end.

Definition put_nonempty (key value : string) (m : anymap) : anymap :=
  if bool_decide (value = "") then m else <[key := AString value]> m.

Definition normalizedDomainMap (t : TypedData) : anymap :=
  let d := ty_Domain t in
  let m : anymap := match dm_ChainId d with Some c => {["chainId" := AString (z_string c)]} | None => ∅ end in
  put_nonempty "salt" (dm_Salt d)
    (put_nonempty "verifyingContract" (dm_VerifyingContract d)
      (put_nonempty "version" (dm_Version d)
        (put_nonempty "name" (dm_Name d) m))).

Definition deniedDecisionError (dec : Decision) : error :=
  let code := if bool_decide (d_Code dec = "") then CodePolicyDenied else d_Code dec in
  let de := New code (d_Reason dec) in
  let de := match d_Data dec with Some m => WithData de m | None => de end in
  if negb (bool_decide (d_RetryAfter dec = ""))
  then WithData de {["retry_after" := DVal (DStr (d_RetryAfter dec))]} else de.

(** ** The gate *)

(** the fields of a check the gate leaves at their zero values *)
Definition bare_check (from : Address) (network toInput : string) : Check := {|
  c_Account := from; c_Dest := 0; c_SpendWei := None; c_MaxGasWei := None; c_MaxFeePerGas := None;
  c_Kind := ""; c_Token := ""; c_IsRBFDelta := false; c_Acked := false; c_Network := network;
  c_KindEnum := KindUnknown; c_ToSrc := SourceRawAddress; c_ToInput := toInput; c_ENSName := "";
  c_ENSResolved := 0; c_Asset := ""; c_TokenAmt := None; c_Unlimited := false; c_AccountNonce := None;
  c_TypedUnknown := false; c_TypedPrimary := ""; c_TypedVerifying := ""; c_TypedChainID := 0;
  c_UnknownCalldata := false; c_ContractAddr := 0; c_Selector := "" |}.

Definition mismatch_marker (chainID : Z) : string := "chain_mismatch:" +:+ z_string chainID.

(** the check of one token entry *)
Definition entry_check (cls : TypedDataClass) (from : Address) (network : string) (acked : bool) (e : SpendToken)
    : Check :=
  let b := bare_check from network (tdc_Primary cls) in {|
  c_Account := c_Account b; c_Dest := HexToAddress (tdc_Spender cls); c_SpendWei := c_SpendWei b;
  c_MaxGasWei := c_MaxGasWei b; c_MaxFeePerGas := c_MaxFeePerGas b; c_Kind := c_Kind b; c_Token := st_Token e;
  c_IsRBFDelta := c_IsRBFDelta b; c_Acked := acked; c_Network := c_Network b; c_KindEnum := KindPermit;
  c_ToSrc := c_ToSrc b; c_ToInput := c_ToInput b; c_ENSName := c_ENSName b; c_ENSResolved := c_ENSResolved b;
  c_Asset := if tdc_Denied cls then mismatch_marker (tdc_ChainID cls) else st_Token e;
  c_TokenAmt := c_TokenAmt b; c_Unlimited := st_Unlimited e; c_AccountNonce := c_AccountNonce b;
  c_TypedUnknown := false; c_TypedPrimary := ""; c_TypedVerifying := ""; c_TypedChainID := 0;
  c_UnknownCalldata := false; c_ContractAddr := 0; c_Selector := "" |}.

(** the check of an unrecognized document *)
Definition unknown_check (t : TypedData) (from : Address) (network : string) (activeChainID : Z) : Check :=
  let domMap := normalizedDomainMap t in
  let b := bare_check from network (ty_PrimaryType t) in
  let chain := readDomainChainID domMap in {|
  c_Account := c_Account b; c_Dest := c_Dest b; c_SpendWei := c_SpendWei b; c_MaxGasWei := c_MaxGasWei b;
  c_MaxFeePerGas := c_MaxFeePerGas b; c_Kind := c_Kind b; c_Token := c_Token b; c_IsRBFDelta := c_IsRBFDelta b;
  c_Acked := c_Acked b; c_Network := c_Network b; c_KindEnum := c_KindEnum b; c_ToSrc := c_ToSrc b;
  c_ToInput := c_ToInput b; c_ENSName := c_ENSName b; c_ENSResolved := c_ENSResolved b;
  c_Asset := if (0 <? activeChainID) && (0 <? chain) && negb (chain =? activeChainID)
             then mismatch_marker chain else "";
  c_TokenAmt := c_TokenAmt b; c_Unlimited := c_Unlimited b; c_AccountNonce := c_AccountNonce b;
  c_TypedUnknown := true; c_TypedPrimary := ty_PrimaryType t;
  c_TypedVerifying := lowerHexAddr (index domMap "verifyingContract"); c_TypedChainID := chain;
  c_UnknownCalldata := false; c_ContractAddr := 0; c_Selector := "" |}.

(** one policy.Evaluate; a refusal is an error *)
Definition evaluate_or_deny (c : Check) : SM (N := N) unit :=
  dec <-- policy_Evaluate accounts anchor c ;;
  if negb (d_Allowed dec) then mfail (deniedDecisionError dec) else mret tt.

Fixpoint evaluate_all (cs : list Check) : SM (N := N) unit :=
  match cs with
  | [] => mret tt
  | c :: cs => evaluate_or_deny c ;;; evaluate_all cs
  end.

(** the token entries, or one keyed on the verifying contract *)
Definition spend_entries (cls : TypedDataClass) : list SpendToken :=
  if (length (tdc_Tokens cls) =? 0)%nat then [mkSpendToken (tdc_Verifying cls) (tdc_Unlimited cls)]
  else tdc_Tokens cls.

Definition evaluateSpendEquivalent (cls : TypedDataClass) (from : Address) (network : string) (acked : bool)
    : SM (N := N) unit :=
  evaluate_all (map (entry_check cls from network acked) (spend_entries cls)).

Definition authorizeSignature (t : TypedData) (from : Address) (network : string) (activeChainID : Z) (acked : bool)
    : SM (N := N) unit :=
  let cls := ClassifyTypedDataFor activeChainID (ty_PrimaryType t) (normalizedDomainMap t) (ty_Message t) in
  if tdc_IsSpend cls then evaluateSpendEquivalent cls from network acked
  else evaluate_or_deny (unknown_check t from network activeChainID).

(** ** Signing *)

Definition checkMessagesKillSwitch : SM (N := N) unit :=
  w <-- mget ;;
  let '(pol, st, err) := Show_ (sw_policy w) anchor in
  match err with
  | Some e => mfail e
  | None =>
      if negb (ss_AnchorFound st) && negb (ss_Present st) then mret tt
      else if EqualFold (TrimSpace (p_Messages pol)) "deny"
      then mfail (New CodePolicyDeniedTypedData
                   ("EIP-191 message signing is disabled by policy (messages:" +:+ go_quote "deny" +:+ ")"))
      else mret tt
  end.

Definition signDigest (ref : AccountRef) (digest : Hash) : SM (N := N) string :=
  u <-- ask with_unlocker ;; mlift u ;;;
  r <-- ask (SignHash ref digest) ;; mlift r.

(** a 65-byte signature with V below 27 gets V + 27 *)
Definition bump_v (sig : string) : string :=
  match String.get 64 sig with
  | Some v => if (String.length sig =? 65)%nat && (byteZ v <? 27)
              then String.substring 0 64 sig +:+ String (Zbyte (byteZ v + 27)) ""
              else sig
  | None => sig
  end.

Definition sigResult (sig : string) (from : Address) (digest : Hash) (scheme : string) : SigResult :=
  mkSig ("0x" +:+ hexEncode (bump_v sig)) (Hex from) (HashHex digest) scheme.

Definition activeChainID : SM (N := N) Z :=
  c <-- ask ClientFor ;; mlift c ;;;
  id <-- ask_rpc cc_ChainID ;;
  match id with
  | Some n => if is_int64 n then mret n else mret 0
  | None => mret 0
  end.

(** SignMessage from the resolved signer *)
Definition SignMessage (ref : AccountRef) (from : Address) (message : string) : SM (N := N) SigResult :=
  checkMessagesKillSwitch ;;;
  let digest := TextHash message in
  sig <-- signDigest ref digest ;;
  mret (sigResult sig from digest "eip191").

(** SignTyped from the resolved signer and the network name *)
Definition SignTyped (ref : AccountRef) (from : Address) (network : string) (typed : string) (ack : bool)
    : SM (N := N) SigResult :=
  match td_unmarshal typed with
  | None => mfail (New CodeSignBadTyped "the EIP-712 document is not valid JSON")
  | Some td =>
      chainID <-- activeChainID ;;
      authorizeSignature td from network chainID ack ;;;
      match TypedDataAndHash td with
      | None => mfail (New CodeSignBadTyped "cannot hash the EIP-712 document")
      | Some digest =>
          sig <-- signDigest ref digest ;;
          mret (sigResult sig from digest "eip712")
      end
  end.
End Sign.
