(* ===== verification/SignProps.v ===== *)
(** * What a signature needs

    No signature leaves the wallet without a verdict of the policy, a refusal
    comes before the signer is asked, a signature writes no store, and what the
    recognizers miss. *)

From S2P Require Import Prelude GoStrings Decimal Encodings PolicyTypes Seal Domain PolicyFile Trace Evaluate Counter Reservation Engine PolicyAdmin PolicyAdminFacts EngineFacts Samples EngineProps Calldata Gas Journal Nonce Service TxStatus Send TokenSend ServiceSamples DryRun TokenProps ServiceFacts Recognize Sign.

Local Open Scope string_scope.
Local Open Scope Z_scope.
Local Open Scope list_scope.
Local Open Scope go_scope.

Section Frame.
Context {N : Type} {UT : UnicodeTables} {GC : GethCommon} {IC : Int64Conv} {RC : LineCodec Reservation}
        {JC : LineCodec JRecord} {MO : MapOrder} {SC : SealCrypto} {EV : Environment N}
        {TL : TypedDataLib} {SG : Signer N}.
Variables (accounts : option (string → list Address)) (anchor : option Anchor).

(** ** Actions that write no store *)

(** everything but what is outside *)
Definition same_stores (w w' : SWorld N) : Prop :=
  sw_policy w' = sw_policy w ∧ sw_disk w' = sw_disk w ∧ sw_journals w' = sw_journals w ∧
  sw_caches w' = sw_caches w ∧ sw_sent w' = sw_sent w.

Definition gasless {A} (m : SM (N := N) A) : Prop := ∀ w, Forall (same_stores w) (m w).2.

Lemma same_refl w : same_stores w w.
Proof. by repeat split. Qed.

Lemma same_trans w1 w2 w3 : same_stores w1 w2 → same_stores w2 w3 → same_stores w1 w3.
Proof. unfold same_stores. intros (?&?&?&?&?) (?&?&?&?&?). repeat split; congruence. Qed.

Lemma gasless_after {A} (m : SM (N := N) A) w : gasless m → same_stores w (after w (m w).2).
Proof. intros H. apply (Forall_after (same_stores w)); [apply same_refl|apply H]. Qed.

Lemma gasless_bind {A B} (m : SM (N := N) A) (f : A → SM (N := N) B) : gasless m → (∀ a, gasless (f a)) → gasless (mbind m f).
Proof.
  intros Hm Hf w. pose proof (Hm w) as H1. pose proof (gasless_after m w Hm) as H2. unfold mbind.
  destruct (m w) as [[a|e] tr]; [|exact H1]. cbn [snd] in *.
  pose proof (Hf a (after w tr)) as H3. destruct (f a (after w tr)) as [r tr']. cbn [snd] in *.
  apply Forall_app. split; [exact H1|]. eapply Forall_impl; [exact H3|]. intros x. by apply same_trans.
Qed.

Lemma gasless_ask {A} (f : N → A * N) : gasless (ask f).
Proof. intros w. unfold ask. destruct (f (sw_outside w)) as [a n]. by repeat constructor. Qed.

Lemma gasless_reads {A} (m : SM (N := N) A) : reads_only m → gasless m.
Proof. intros H w. rewrite (H w). constructor. Qed.

Lemma reads_EngineEvaluate io active c now : reads_only (EngineEvaluate io accounts active c now).
Proof.
  unfold EngineEvaluate. apply reads_only_bind; [apply reads_mlift|]. intros [pol|]; [|apply reads_mret].
  unfold withNetworkLock. apply reads_only_bind; [apply reads_guard|]. intros _.
  apply reads_only_bind; [apply reads_loadCounter|]. intros cf.
  apply reads_only_bind; [apply reads_windowFor|]. intros win.
  apply reads_only_bind; [apply reads_mget|]. intros d. apply reads_mret.
Qed.

Lemma gasless_Evaluate c : gasless (policy_Evaluate accounts anchor c).
Proof.
  unfold policy_Evaluate. do 2 (apply gasless_bind; [apply gasless_ask|]; intros ?).
  apply gasless_bind; [apply gasless_reads, reads_mget|]. intros w. apply gasless_reads.
  intros w'. unfold mzoom. pose proof (reads_EngineEvaluate a (loadActivePolicy (sw_policy w) anchor) c a0 (sw_disk w')) as H.
  destruct (EngineEvaluate _ _ _ _ _ _) as [r tr]. cbn [snd] in *. by rewrite H.
Qed.

(** ** The verdict of one check *)

(** what the verdict says when the stores are those of [w] *)
Definition permitted (w : SWorld N) (c : Check) : Prop :=
  match loadActivePolicy (sw_policy w) anchor with
  | Err _ => False
  | Ok None => True
  | Ok (Some p) => if c_TypedUnknown c then typed_permitted p c else ∃ spent, admissible p c spent
  end.

Lemma EngineEvaluate_allowed io active c now d dec tr :
  EngineEvaluate io accounts active c now d = (Ok dec, tr) → d_Allowed dec = true →
  active = Ok None ∨ ∃ p spent, active = Ok (Some p) ∧ d_Allowed (Evaluate p c spent now) = true.
Proof.
  unfold EngineEvaluate. intros H Ha. destruct active as [[p|]|e]; [|by left|discriminate H].
  right. unfold withNetworkLock in H. minv. rewrite refine_allowed in Ha. by eauto.
Qed.

Lemma evaluate_allowed w c dec tr :
  policy_Evaluate accounts anchor c w = (Ok dec, tr) → d_Allowed dec = true → permitted w c.
Proof.
  unfold policy_Evaluate. intros H Ha.
  apply mbind_ok in H as (io & t1 & t2 & H1 & H & ->). apply mbind_ok in H as (now & t3 & t4 & H3 & H & ->).
  apply mbind_ok in H as (w' & t5 & t6 & H5 & H & ->). apply mget_ok in H5 as [-> ->].
  pose proof (gasless_after (ask policy_io) w (gasless_ask _)) as Hs1. rewrite H1 in Hs1.
  pose proof (gasless_after (ask clock) (after w t1) (gasless_ask _)) as Hs2. rewrite H3 in Hs2.
  destruct (same_trans _ _ _ Hs1 Hs2) as [Hp _]. cbn [snd] in *. cbn [after List.last] in H.
  unfold mzoom in H. destruct (EngineEvaluate _ _ _ _ _ _) as [r t] eqn:E. injection H as -> _.
  change (sw_policy (after (after w t1) t3) = sw_policy w) in Hp.
  unfold permitted. rewrite <-Hp. unfold after in *.
  destruct (EngineEvaluate_allowed _ _ _ _ _ _ _ E Ha) as [-> | (p & spent & -> & Hev)]; [done|].
  apply Evaluate_decides in Hev. destruct (c_TypedUnknown c); eauto.
Qed.

Lemma permitted_same w w' c : same_stores w w' → permitted w' c → permitted w c.
Proof. intros [Hp _]. unfold permitted. by rewrite Hp. Qed.

(** ** The gate *)

Lemma gasless_evaluate_or_deny c : gasless (evaluate_or_deny accounts anchor c).
Proof.
  apply gasless_bind; [apply gasless_Evaluate|]. intros dec. apply gasless_reads.
  destruct (negb (d_Allowed dec)); [apply reads_mfail|apply reads_mret].
Qed.

Lemma gasless_evaluate_all cs : gasless (evaluate_all accounts anchor cs).
Proof.
  induction cs as [|c cs IH]; [apply gasless_reads, reads_mret|].
  apply gasless_bind; [apply gasless_evaluate_or_deny|]. by intros _.
Qed.

Lemma gasless_authorize t from network chain acked : gasless (authorizeSignature accounts anchor t from network chain acked).
Proof.
  unfold authorizeSignature. destruct (tdc_IsSpend _); [apply gasless_evaluate_all|apply gasless_evaluate_or_deny].
Qed.

Lemma evaluate_or_deny_ok c w tr : evaluate_or_deny accounts anchor c w = (Ok tt, tr) → permitted w c.
Proof.
  unfold evaluate_or_deny. intros H. apply mbind_ok in H as (dec & t1 & t2 & H1 & H2 & ->).
  destruct (d_Allowed dec) eqn:Ha; [|discriminate H2]. exact (evaluate_allowed _ _ _ _ H1 Ha).
Qed.

Lemma evaluate_all_ok cs w tr : evaluate_all accounts anchor cs w = (Ok tt, tr) → ∀ c, c ∈ cs → permitted w c.
Proof.
  revert w tr. induction cs as [|c cs IH]; intros w tr H d Hd; [by apply elem_of_nil in Hd|].
  cbn [evaluate_all] in H. apply mbind_ok in H as ([] & t1 & t2 & H1 & H2 & ->).
  apply elem_of_cons in Hd as [-> | Hd]; [exact (evaluate_or_deny_ok _ _ _ H1)|].
  pose proof (gasless_after _ w (gasless_evaluate_or_deny c)) as Hs. rewrite H1 in Hs.
  exact (permitted_same _ _ _ Hs (IH _ _ H2 d Hd)).
Qed.

(** what the gate demands of a document, in the stores of [w] *)
Definition signature_permitted (w : SWorld N) (t : TypedData) (from : Address) (network : string) (chain : Z)
    (acked : bool) : Prop :=
  let cls := ClassifyTypedDataFor chain (ty_PrimaryType t) (normalizedDomainMap t) (ty_Message t) in
  if tdc_IsSpend cls
  then ∀ e, e ∈ spend_entries cls → permitted w (entry_check cls from network acked e)
  else permitted w (unknown_check t from network chain).

Lemma authorize_ok t from network chain acked w tr :
  authorizeSignature accounts anchor t from network chain acked w = (Ok tt, tr) →
  signature_permitted w t from network chain acked.
Proof.
  unfold authorizeSignature, signature_permitted. cbv zeta. destruct (tdc_IsSpend _).
  - intros H e He. unfold evaluateSpendEquivalent in H. apply (evaluate_all_ok _ _ _ H).
    by apply list_elem_of_fmap_2.
  - apply evaluate_or_deny_ok.
Qed.

Lemma gasless_activeChainID : gasless activeChainID.
Proof.
  unfold activeChainID, ask_rpc. apply gasless_bind; [apply gasless_ask|]. intros c.
  apply gasless_bind; [apply gasless_reads, reads_mlift|]. intros _.
  apply gasless_bind; [apply gasless_bind; [apply gasless_ask|intros r; apply gasless_reads, reads_mlift]|].
  intros [n|]; [destruct (is_int64 n)|]; apply gasless_reads, reads_mret.
Qed.

Lemma gasless_signDigest ref digest : gasless (signDigest ref digest).
Proof.
  unfold signDigest. apply gasless_bind; [apply gasless_ask|]. intros u.
  apply gasless_bind; [apply gasless_reads, reads_mlift|]. intros _.
  apply gasless_bind; [apply gasless_ask|]. intros r. apply gasless_reads, reads_mlift.
Qed.

Lemma gasless_SignTyped ref from network typed ack : gasless (SignTyped accounts anchor ref from network typed ack).
Proof.
  unfold SignTyped. destruct (td_unmarshal typed) as [td|]; [|apply gasless_reads, reads_mfail].
  apply gasless_bind; [apply gasless_activeChainID|]. intros chain.
  apply gasless_bind; [apply gasless_authorize|]. intros _.
  destruct (TypedDataAndHash td) as [digest|]; [|apply gasless_reads, reads_mfail].
  apply gasless_bind; [apply gasless_signDigest|]. intros sig. apply gasless_reads, reads_mret.
Qed.

(** the chain the endpoint answered, when it fits; 0 stands for an answer that does not *)
Definition endpoint_chain (n : N) (chain : Z) : Prop :=
  ∃ id, (cc_ChainID n).1 = Ok id ∧
    chain = match id with Some k => if is_int64 k then k else 0 | None => 0 end.

Lemma activeChainID_ok w chain tr :
  activeChainID w = (Ok chain, tr) → endpoint_chain (ClientFor (sw_outside w)).2 chain.
Proof.
  unfold activeChainID, ask_rpc. intros (c & t1 & t2 & H1 & H & ->)%mbind_ok.
  apply mbind_ok in H as ([] & t3 & t4 & [_ ->]%mlift_ok & H & ->). cbn [after List.last] in H.
  apply mbind_ok in H as (id & t5 & t6 & H2 & H & ->). apply mbind_ok in H2 as (r & t7 & t8 & H3 & [H4 ->]%mlift_ok & ->).
  unfold ask in H1, H3. destruct (ClientFor (sw_outside w)) as [x n] eqn:E. injection H1 as <- <-. cbn [after List.last set_outside sw_outside] in H3.
  destruct (cc_ChainID n) as [y n'] eqn:E'. injection H3 as <- <-. exists id. cbn [snd]. rewrite E'. cbn [fst].
  split; [destruct y; [by injection H4 as ->|done]|]. destruct id as [k|]; [destruct (is_int64 k)|]; by apply mret_ok in H as [-> _].
Qed.

Lemma signDigest_ok ref digest w sig tr : signDigest ref digest w = (Ok sig, tr) → ∃ n : N, (SignHash ref digest n).1 = Ok sig.
Proof.
  unfold signDigest. intros (u & t1 & t2 & _ & H & ->)%mbind_ok. apply mbind_ok in H as ([] & t3 & t4 & _ & H & ->).
  apply mbind_ok in H as (r & t5 & t6 & H1 & [-> _]%mlift_ok & _). unfold ask in H1.
  destruct (SignHash ref digest _) as [x n] eqn:E in H1. injection H1 as -> _. eexists. by rewrite E.
Qed.

(** C35: No typed-data signature without the policy.  However [SignTyped] ends,
    with a signature, a refusal or another error, it writes no store: nothing
    is reserved, journaled or sent.  If it returns a signature, the document
    parsed, and under the stored policy it was permitted on the chain that the
    endpoint answered: a recognized spend-equivalent with every token entry
    admissible as a permit for its spender, anything else only by an allow
    entry or by a policy that allows unknown messages; and what is returned is
    what the signer answered for the digest of that document. *)
Theorem typed_signature_needs_policy ref from network typed ack w res tr :
  SignTyped accounts anchor ref from network typed ack w = (res, tr) →
  Forall (same_stores w) tr ∧
  ∀ r, res = Ok r →
    ∃ td chain digest sig, td_unmarshal typed = Some td ∧
      endpoint_chain (ClientFor (sw_outside w)).2 chain ∧ signature_permitted w td from network chain ack ∧
      TypedDataAndHash td = Some digest ∧ (∃ n : N, (SignHash ref digest n).1 = Ok sig) ∧
      r = sigResult sig from digest "eip712".
Proof.
  intros H. split.
  { pose proof (gasless_SignTyped ref from network typed ack w) as Hg. by rewrite H in Hg. }
  intros r ->. unfold SignTyped in H. destruct (td_unmarshal typed) as [td|] eqn:Htd; [|discriminate H].
  apply mbind_ok in H as (chain & t1 & t2 & H1 & H & ->). apply mbind_ok in H as ([] & t3 & t4 & H3 & H & ->).
  destruct (TypedDataAndHash td) as [digest|] eqn:Hh; [|discriminate H].
  apply mbind_ok in H as (sig & t5 & t6 & H5 & H & ->). injection H as <- _.
  exists td, chain, digest, sig. split_and!; [done|by eapply activeChainID_ok| |done|by eapply signDigest_ok|done].
  pose proof (gasless_after _ w gasless_activeChainID) as Hs. rewrite H1 in Hs.
  apply authorize_ok in H3. unfold signature_permitted in *. cbv zeta in *.
  destruct (tdc_IsSpend _); [intros e He; exact (permitted_same _ _ _ Hs (H3 e He))|exact (permitted_same _ _ _ Hs H3)].
Qed.

(** A refusal comes before the signer.  When the gate refuses a document
    that parsed, [SignTyped] returns exactly the error of the gate after
    exactly its questions: neither the unlocker nor the signer is asked. *)
Theorem refusal_precedes_signer ref from network typed ack w td chain tr1 e tr2 :
  td_unmarshal typed = Some td → activeChainID w = (Ok chain, tr1) →
  authorizeSignature accounts anchor td from network chain ack (after w tr1) = (Err e, tr2) →
  SignTyped accounts anchor ref from network typed ack w = (Err e, tr1 ++ tr2).
Proof.
  intros Htd Hc Ha. unfold SignTyped. rewrite Htd. rewrite (mbind_run _ _ _ _ _ Hc).
  by rewrite (mbind_fail _ _ _ _ _ Ha).
Qed.
End Frame.

(** ** What the recognizers miss *)

(** an allowance the classifier of on-chain approvals calls unlimited although
    it is not the largest word *)
Definition narrow_sentinel (v : Z) : Prop := v = 2 ^ 160 - 1 ∨ v = 2 ^ 96 - 1.

Lemma narrow_not_largest v : narrow_sentinel v → (v =? uint256Max) = false.
Proof. intros [-> | ->]; reflexivity. Qed.

Section Gap.
Context {UT : UnicodeTables} {GC : GethCommon} {IC : Int64Conv} {KC : Keccak}.

Lemma approve_narrow v : narrow_sentinel v → approveAmount (z_string v) false false 0 = Ok (v, true).
Proof.
  assert (E1 : TrimSpace (z_string (2 ^ 160 - 1)) = z_string (2 ^ 160 - 1)) by (vm_compute; reflexivity).
  assert (E2 : TrimSpace (z_string (2 ^ 96 - 1)) = z_string (2 ^ 96 - 1)) by (vm_compute; reflexivity).
  intros [-> | ->]; unfold approveAmount; [rewrite E1|rewrite E2]; vm_compute; reflexivity.
Qed.

(** the message of an EIP-2612 permit of [v] with a finite deadline *)
Definition eip2612_permit (message : anymap) (spender : string) (v : Z) : Prop :=
  hasExactKeys message ["owner"; "spender"; "value"; "nonce"; "deadline"] = true ∧
  messageAddr message "spender" = Some spender ∧ messageBig message "value" = Some v ∧
  messageBig message "deadline" ≠ Some uint256Max.

Lemma match_permit message spender v :
  eip2612_permit message spender v → (v =? uint256Max) = false →
  matchEIP2612 "Permit" message = Some (approval spender false []).
Proof.
  intros (Hk & Hs & Hv & Hd) Hm. unfold matchEIP2612. rewrite Hk, Hs, Hv, Hm. cbn [negb orb].
  rewrite bool_decide_true by done. cbn [negb]. do 2 f_equal.
  destruct (messageBig message "deadline") as [d|]; [|done]. apply Z.eqb_neq. congruence.
Qed.

Lemma classify_permit chain domain message spender v :
  eip2612_permit message spender v → (v =? uint256Max) = false →
  let cls := ClassifyTypedDataFor chain "Permit" domain message in
  tdc_IsSpend cls = true ∧ tdc_Spender cls = spender ∧
  tdc_Tokens cls = [mkSpendToken (lowerAddr (index domain "verifyingContract")) false].
Proof.
  intros Hp Hm. unfold ClassifyTypedDataFor, classifyTypedData. rewrite (match_permit _ _ _ Hp Hm). cbv zeta.
  destruct (_ && _); by split_and!.
Qed.

(** A permit of a narrow sentinel skips the ceremony of the approval.  An
    on-chain approval of 2^160-1 or 2^96-1 is flagged unlimited: without the
    acknowledgement every policy refuses it.  The EIP-2612 permit that grants
    the same allowance to the same spender is recognized as a
    spend-equivalent, but only 2^256-1 is a sentinel there: no entry is
    flagged, and no policy, hard denial of the token included, has its
    unlimited gate fire. *)
Theorem sentinel_permit_skips_ceremony chain domain message spender v from network :
  narrow_sentinel v → eip2612_permit message spender v →
  let cls := ClassifyTypedDataFor chain "Permit" domain message in
  tdc_IsSpend cls = true ∧
  (∀ e p, e ∈ spend_entries cls →
     stageUnlimited p (entry_check cls from network false e) (effectiveKind (entry_check cls from network false e)) = None) ∧
  (∀ o sp contract alias symbol pin n, unpinned sp →
     ∃ i c, approveIntent o sp (mkResolvedAsset contract 0 alias symbol) (z_string v) false false false = Ok i ∧
       intent_check pin i n = Ok (c, None) ∧ ∀ p, is_Some (stageUnlimited p c (effectiveKind c))).
Proof.
  intros Hv Hp. pose proof (classify_permit chain domain _ _ _ Hp (narrow_not_largest v Hv)) as (H1 & H2 & H3).
  cbv zeta in *. split; [done|]. split.
  - intros e p He. unfold spend_entries in He. rewrite H3 in He. cbn [length Nat.eqb] in He.
    apply list_elem_of_singleton in He as ->. reflexivity.
  - intros o sp contract alias symbol pin n Hvia. eexists _, _.
    split; [unfold approveIntent; cbn [rs_decimals]; rewrite (approve_narrow v Hv); reflexivity|].
    split; [unfold intent_check; rewrite provenance_unpinned by done; cbn [rbind]; reflexivity|].
    intros p. unfold stageUnlimited.
    match goal with |- context [effectiveKind ?c] => change (effectiveKind c) with KindApprove end.
    rewrite bool_decide_true by done. cbn. destruct (tokenHardDeny _ _ _); by eexists.
Qed.
End Gap.

(** ** Witnesses *)

Section Witnesses.
#[local] Existing Instance TokenProps.ref_keccak.

(** a signer that counts its questions and refuses none *)
#[local] Instance counting_signer : Signer Z := {|
  with_unlocker := λ t, (Ok tt, t + 1);
  SignHash := λ _ d t, (Ok "sig", t + 1);
  ClientFor := λ t, (Ok tt, t);
  cc_ChainID := λ t, (Ok (Some 1), t);
|}.

(** a permit of [value] on the token 9 for the spender 2 *)
Definition sample_permit (value : string) : TypedData :=
  mkTypedData [] "Permit" (mkDomain "Token" "1" (Some 1) (hex40 9) "")
    {["owner" := AString (hex40 1); "spender" := AString (hex40 2); "value" := AString value;
      "nonce" := AString "0"; "deadline" := AString "1700000000"]}.

(** a parser of the one document, whose digest is 5 *)
#[local] Instance one_document : TypedDataLib := {|
  td_unmarshal := λ s, if bool_decide (s = "permit") then Some (sample_permit "1000")
                       else if bool_decide (s = "mail") then Some (mkTypedData [] "Mail" (mkDomain "" "" None "" "") ∅)
                       else None;
  TypedDataAndHash := λ _, Some 5;
  TextHash := λ _, 6;
|}.

(** the sample policy with approvals admitted without an allowlist *)
Definition permit_policy : Policy := {|
  p_Version := 1; p_Nonce := 7; p_UpdatedAt := ""; p_WrittenBy := ""; p_Messages := "allow";
  p_TokensNoAllowlistOK := true; p_Rules := mkRules sample_limits []; p_Tokens := [];
  p_Allowlist := []; p_Denylist := []; p_SelfAddresses := []; p_TypedData := mkTypedDataCfg "deny" [];
  p_ContractsAllowed := [] |}.

Definition sealed_world : SWorld Z :=
  mkSWorld (Some (sealed_file permit_policy (sample_sk sample_pass sample_salt))) empty_disk ∅ ∅ [] 0.

Definition signed_sample : SM (N := Z) SigResult :=
  SignTyped (Some (λ _, [1])) (Some sample_anchor) (mkRef "a" 0 "w" 0 "" 1) 1 "main" "permit" false.

Lemma typed_signature_needs_policy_witness :
  ∃ r tr, signed_sample sealed_world = (Ok r, tr) ∧ Forall (same_stores sealed_world) tr ∧
  ∃ td chain, td_unmarshal "permit" = Some td ∧ endpoint_chain 0 chain ∧
    signature_permitted (Some sample_anchor) sealed_world td 1 "main" chain false.
Proof.
  assert (E : ∃ r, (signed_sample sealed_world).1 = Ok r) by (eexists; vm_compute; reflexivity).
  destruct E as [r E]. destruct (signed_sample sealed_world) as [o tr] eqn:Erun. cbn [fst] in E. subst o.
  exists r, tr. split; [done|].
  pose proof (typed_signature_needs_policy (Some (λ _, [1])) (Some sample_anchor) (mkRef "a" 0 "w" 0 "" 1) 1 "main" "permit"
                false sealed_world (Ok r) tr Erun) as [H5 H].
  destruct (H r eq_refl) as (td & chain & digest & sig & H1 & H2 & H3 & H4).
  split; [exact H5|]. exists td, chain. exact (conj H1 (conj H2 H3)).
Defined.

(** an unknown document under a policy that denies unknown messages *)
Lemma refusal_precedes_signer_witness :
  ∃ chain tr1 e tr2, activeChainID sealed_world = (Ok chain, tr1) ∧ e_Code e = "policy.denied.typed_data" ∧
    SignTyped (Some (λ _, [1])) (Some sample_anchor) (mkRef "a" 0 "w" 0 "" 1) 1 "main" "mail" false sealed_world =
      (Err e, tr1 ++ tr2).
Proof.
  destruct (activeChainID sealed_world) as [rc tr1] eqn:E1.
  assert (Hc : rc = Ok 1) by (change rc with (rc, tr1).1; rewrite <-E1; vm_compute; reflexivity). subst rc.
  destruct (authorizeSignature (Some (λ _, [1])) (Some sample_anchor) (mkTypedData [] "Mail" (mkDomain "" "" None "" "") ∅)
              1 "main" 1 false (after sealed_world tr1)) as [ra tr2] eqn:E2.
  assert (Ha : ∃ e, ra = Err e ∧ e_Code e = "policy.denied.typed_data").
  { change ra with (ra, tr2).1. rewrite <-E2. change tr1 with (Ok (E := error) 1, tr1).2. rewrite <-E1. eexists. vm_compute. split; reflexivity. }
  destruct Ha as (e & -> & Hcode).
  exists 1, tr1, e, tr2. split; [reflexivity|]. split; [exact Hcode|].
  assert (Ht : td_unmarshal "mail" = Some (mkTypedData [] "Mail" (mkDomain "" "" None "" "") ∅)) by (vm_compute; reflexivity).
  exact (refusal_precedes_signer (Some (λ _, [1])) (Some sample_anchor) (mkRef "a" 0 "w" 0 "" 1) 1 "main" "mail" false sealed_world
    (mkTypedData [] "Mail" (mkDomain "" "" None "" "") ∅) 1 tr1 e tr2 Ht E1 E2).
Defined.

Lemma sentinel_permit_skips_ceremony_witness :
  let cls := ClassifyTypedDataFor 1 "Permit" (normalizedDomainMap (sample_permit (z_string (2 ^ 160 - 1))))
               (ty_Message (sample_permit (z_string (2 ^ 160 - 1)))) in
  tdc_IsSpend cls = true ∧
  ∀ p, stageUnlimited p (entry_check cls 1 "main" false (mkSpendToken (hex40 9) false)) KindPermit = None.
Proof.
  pose proof (sentinel_permit_skips_ceremony 1 (normalizedDomainMap (sample_permit (z_string (2 ^ 160 - 1))))
    (ty_Message (sample_permit (z_string (2 ^ 160 - 1)))) (hex40 2) (2 ^ 160 - 1) 1 "main" (or_introl eq_refl)) as H.
  destruct H as (H1 & H2 & _); [split_and!; vm_compute; (reflexivity || discriminate)|].
  cbv zeta. split; [exact H1|]. intros p. apply (H2 (mkSpendToken (hex40 9) false)). vm_compute. constructor.
Defined.
End Witnesses.
