(* ===== verification/Refs.v ===== *)
(** * Account references: [internal/domain/account_ref.go]

    The five shapes of a reference: a wallet account by index or by alias, a
    standalone name, an address and an ENS name.  A reference is parsed here,
    not resolved; the second half shows what a parsed reference is and that its
    text is read back. *)

From S2P Require Import Prelude GoStrings Decimal PolicyTypes Domain Calldata Service.

Local Open Scope string_scope.
Local Open Scope Z_scope.
Local Open Scope list_scope.
Local Open Scope go_scope.

Definition RefHDIndex : Z := 1.
Definition RefHDAlias : Z := 2.
Definition RefNamed : Z := 3.
Definition RefAddress : Z := 4.
Definition RefENS : Z := 5.

(** [(RefKind).String] *)
Definition RefKind_String (k : Z) : string :=
  if k =? RefHDIndex then "hd-index"
  else if k =? RefHDAlias then "hd-alias"
  else if k =? RefNamed then "named"
  else if k =? RefAddress then "address"
  else if k =? RefENS then "ens"
  else "unknown".

(** strings.HasSuffix *)
Definition HasSuffix (s x : string) : bool := String.prefix (srev x) (srev s).

(** strings.Contains of one byte *)
Definition contains_byte (c : Z) (s : string) : bool := negb (string_forallb (λ b, negb (byteZ b =? c)) s).

Definition is_lower_alnum (c : Ascii.ascii) : bool :=
  (97 <=? byteZ c) && (byteZ c <=? 122) || is_digit c.

Definition segment_char (c : Ascii.ascii) : bool :=
  (97 <=? byteZ c) && (byteZ c <=? 122) || (65 <=? byteZ c) && (byteZ c <=? 90) || is_digit c ||
  (byteZ c =? 45) || (byteZ c =? 95) || (byteZ c =? 46).

Definition validNameSegment (s : string) : bool :=
  negb (bool_decide (s = "")) && string_forallb segment_char s.

(** the accumulation of parseIndex, in uint64: it stops before it wraps *)
Fixpoint index_digits (s : string) (v : Z) : option Z :=
  match s with
  | "" => Some v
  | String c s =>
      let v := v * 10 + (byteZ c - 48) in
      if 0xFFFFFFFF <? v then None else index_digits s v
  end.

Definition parseIndex (s : string) : option Z :=
  if bool_decide (s = "") then None
  else if negb (string_forallb is_digit s) then None
  else match s with
       | String c (String _ _) => if byteZ c =? 48 then None else index_digits s 0
       | _ => index_digits s 0
       end.

Section Parse.
Context {UT : UnicodeTables} {GC : GethCommon}.

Definition has0x (s : string) : bool := HasPrefix s "0x" || HasPrefix s "0X".

Definition looksLikeAddress (s : string) : bool := has0x s && IsHexAddress s.

Definition looksLikeENS (s : string) : bool := HasSuffix (ToLower s) ".eth".

Definition bad_ref (code raw what : string) : error :=
  New code ("account reference " +:+ go_quote raw +:+ what).

(** the branch of a reference with a slash, split at the first one *)
Definition parse_hd (raw wallet tail : string) : res error AccountRef :=
  if bool_decide (wallet = "") then Err (bad_ref "usage.bad_account_ref" raw " has an empty wallet name before '/'")
  else if bool_decide (tail = "") then Err (bad_ref "usage.bad_account_ref" raw " has an empty index/alias after '/'")
  else if contains_byte 47 tail then Err (bad_ref "usage.bad_account_ref" raw " has more than one '/'")
  else if looksLikeAddress wallet || looksLikeENS wallet
  then Err (bad_ref "ref.ambiguous" raw ": wallet segment looks like an address/ENS name")
  else match parseIndex tail with
       | Some idx => Ok (mkRef raw RefHDIndex wallet idx "" 0)
       | None =>
           if negb (validNameSegment tail)
           then Err (bad_ref "usage.bad_account_ref" raw " has an invalid alias segment")
           else Ok (mkRef raw RefHDAlias wallet 0 tail 0)
       end.

(** the part of an ENS name before its last four bytes *)
Definition ens_label (s : string) : string := stake (String.length s - 4) s.

Definition parse_ens (raw s : string) : res error AccountRef :=
  let label := ens_label s in
  if bool_decide (label = "") || HasPrefix label "." || HasSuffix label "."
  then Err (bad_ref "usage.bad_ens" raw " is not a valid ENS name")
  else Ok (mkRef raw RefENS "" 0 label 0).

Definition ParseAccountRef (raw : string) : res error AccountRef :=
  let s := TrimSpace raw in
  if bool_decide (s = "") then Err (New "usage.empty_account_ref" "account reference is empty") else
  match split_byte 47 s with
  | Some (wallet, tail) => parse_hd raw wallet tail
  | None =>
      if has0x s then
        if negb (IsHexAddress s)
        then Err (bad_ref "usage.bad_address" raw " starts with 0x but is not a 20-byte address")
        else Ok (mkRef raw RefAddress "" 0 "" (HexToAddress s))
      else if looksLikeENS s then parse_ens raw s
      else if negb (validNameSegment s)
      then Err (bad_ref "usage.bad_account_ref" raw " is not a valid name")
      else Ok (mkRef raw RefNamed "" 0 s 0)
  end.
End Parse.

(** ** Properties of account references

    A parsed reference has exactly the fields of its shape, and the canonical
    text of a reference parses to it. *)

Local Open Scope string_scope.
Local Open Scope Z_scope.
Local Open Scope list_scope.
Local Open Scope go_scope.

(** ** Decimal texts without leading zeros *)

Lemma scan_bound s n :
  string_forallb is_digit s = true → scan_digits 10 s 0 = Some n → 0 ≤ n < 10 ^ Z.of_nat (String.length s).
Proof.
  revert n. induction s as [|c s IH]; intros n Hd H; [injection H as <-; cbn; lia|].
  cbn [string_forallb] in Hd. apply andb_true_iff in Hd as [Hc Hd]. cbn [scan_digits] in H.
  rewrite (digit_val_digit c Hc), scan_digits_shift in H. destruct (scan_digits 10 s 0) as [m|]; [|done].
  injection H as <-. specialize (IH m Hd eq_refl). unfold is_digit in Hc. bool_prop. cbn [String.length].
  rewrite Nat2Z.inj_succ, Z.pow_succ_r by lia. nia.
Qed.

Lemma scan_inj s t n :
  string_forallb is_digit s = true → string_forallb is_digit t = true → String.length s = String.length t →
  scan_digits 10 s 0 = Some n → scan_digits 10 t 0 = Some n → s = t.
Proof.
  revert t n. induction s as [|c s IH]; intros [|b t] n Hs Ht Hl H1 H2; try done.
  cbn [string_forallb] in Hs, Ht. apply andb_true_iff in Hs as [Hc Hs], Ht as [Hb Ht]. injection Hl as Hl.
  cbn [scan_digits] in H1, H2. rewrite digit_val_digit, scan_digits_shift in H1, H2 by done.
  destruct (scan_digits 10 s 0) as [m1|] eqn:E1; [|done]. destruct (scan_digits 10 t 0) as [m2|] eqn:E2; [|done].
  pose proof (scan_bound _ _ Hs E1) as B1. pose proof (scan_bound _ _ Ht E2) as B2. rewrite Hl in *.
  cbn [fmap option_fmap option_map] in H1, H2. injection H1 as <-. injection H2 as H2.
  set (p := 10 ^ Z.of_nat (String.length t)) in *. assert (Ep : byteZ c = byteZ b) by (destruct (Z.lt_trichotomy (byteZ c) (byteZ b)) as [|[|]]; [nia|done|nia]).
  assert (m1 = m2) as -> by (rewrite Ep in H2; lia). apply byteZ_inj in Ep as ->. f_equal. by eapply IH.
Qed.

(** a positive number fixes the length of its text *)
Lemma scan_length c s b t n :
  string_forallb is_digit (String c s) = true → string_forallb is_digit (String b t) = true →
  byteZ c ≠ 48 → byteZ b ≠ 48 → scan_digits 10 (String c s) 0 = Some n → scan_digits 10 (String b t) 0 = Some n →
  String.length s = String.length t.
Proof.
  assert (L : ∀ c s n, string_forallb is_digit (String c s) = true → byteZ c ≠ 48 → scan_digits 10 (String c s) 0 = Some n →
                10 ^ Z.of_nat (String.length s) ≤ n < 10 ^ Z.of_nat (S (String.length s))).
  { intros x u m Hu Hx H. pose proof (scan_bound _ _ Hu H) as B. split; [|exact (proj2 B)].
    cbn [string_forallb] in Hu. apply andb_true_iff in Hu as [Hxd Hu]. cbn [scan_digits] in H.
    rewrite (digit_val_digit x Hxd), scan_digits_shift in H. destruct (scan_digits 10 u 0) as [k|] eqn:E; [|done].
    pose proof (scan_bound _ _ Hu E). injection H as <-. unfold is_digit in Hxd. bool_prop. nia. }
  intros H1 H2 Hc Hb E1 E2. destruct (L _ _ _ H1 Hc E1) as [A1 A2]. destruct (L _ _ _ H2 Hb E2) as [B1 B2].
  assert (10 ^ Z.of_nat (String.length s) < 10 ^ Z.of_nat (S (String.length t))) as P1%Z.pow_lt_mono_r_iff by lia.
  all: try lia.
  assert (10 ^ Z.of_nat (String.length t) < 10 ^ Z.of_nat (S (String.length s))) as P2%Z.pow_lt_mono_r_iff by lia; lia.
Qed.

(** parseIndex reads back the only text of its number *)
Lemma index_digits_scan s v n : string_forallb is_digit s = true → 0 ≤ v → index_digits s v = Some n → scan_digits 10 s v = Some n.
Proof.
  revert v. induction s as [|c s IH]; intros v Hd Hv H; [done|]. cbn [string_forallb] in Hd.
  apply andb_true_iff in Hd as [Hc Hd]. cbn [index_digits scan_digits] in *. rewrite (digit_val_digit c Hc).
  destruct (_ <? _); [done|]. unfold is_digit in Hc. bool_prop. apply IH; [done|lia|done].
Qed.

Lemma index_digits_bound s v n : v ≤ 0xFFFFFFFF → index_digits s v = Some n → n < 2 ^ 32.
Proof.
  revert v. induction s as [|c s IH]; intros v Hv H; [injection H as <-; lia|]. cbn [index_digits] in H.
  destruct (Z.ltb_spec 0xFFFFFFFF (v * 10 + (byteZ c - 48))); [done|]. by eapply IH; [|exact H].
Qed.

Lemma parseIndex_ok s n : parseIndex s = Some n → 0 ≤ n < 2 ^ 32 ∧ z_string n = s.
Proof.
  unfold parseIndex. case_bool_decide as He; [done|]. destruct (string_forallb is_digit s) eqn:Hd; [|done]. cbn [negb].
  intros H. assert (H' : index_digits s 0 = Some n ∧ (s = "0" ∨ ∃ c r, s = String c r ∧ byteZ c ≠ 48)).
  { destruct s as [|c [|b r]]; [done|split; [exact H|]|].
    - destruct (Z.eqb_spec (byteZ c) 48) as [E|E]; [left; f_equal; by apply byteZ_inj|right; eauto].
    - destruct (Z.eqb_spec (byteZ c) 48) as [E|E]; [done|]. split; [exact H|right; eauto]. }
  destruct H' as [Hi Hz]. pose proof (index_digits_scan _ 0 _ Hd (Z.le_refl 0) Hi) as Hscan.
  pose proof (scan_bound _ _ Hd Hscan) as [Hn _]. split; [split; [done|by apply index_digits_bound in Hi]|].
  destruct (nat_string_spec 10 n) as (H1 & H2 & H3); [by left|done|]. unfold z_string. destruct (Z.ltb_spec n 0); [lia|].
  destruct Hz as [-> | (c & r & -> & Hc)]; [by injection Hscan as <-|].
  assert (Hpos : n ≠ 0).
  { intros ->. cbn [string_forallb] in Hd. apply andb_true_iff in Hd as [Hcd Hd]. cbn [scan_digits] in Hscan.
    rewrite (digit_val_digit c Hcd), scan_digits_shift in Hscan. destruct (scan_digits 10 r 0) as [k|] eqn:E; [|done].
    pose proof (scan_bound _ _ Hd E). injection Hscan as Hs. unfold is_digit in Hcd. bool_prop.
    pose proof (Z.pow_pos_nonneg 10 (Z.of_nat (String.length r)) ltac:(lia) ltac:(lia)). nia. }
  pose proof (nat_string_digits n Hn) as Hnd. destruct (nat_string 10 n) as [|b t] eqn:Ens; [done|].
  assert (Hb : byteZ b ≠ 48). { intros Hb. apply (H3 Hpos t). f_equal. apply byteZ_inj. by rewrite Hb. }
  eapply scan_inj; [done..| |exact H1|exact Hscan]. cbn [String.length]. f_equal. by eapply scan_length.
Qed.

(** ** Trimmed texts *)

Definition visible (c : Ascii.ascii) : bool := is_ascii_byte c && negb (is_space c).

Section Trim.
Context {UT : UnicodeTables}.

(** a text with a visible byte at both ends is not trimmed *)
Definition tight (s : string) : Prop :=
  (∃ c t, s = String c t ∧ visible c = true) ∧ (∃ c t, srev s = String c t ∧ visible c = true).

Lemma tight_trim s : tight s → TrimSpace s = s.
Proof.
  intros [(c & t & E1 & Hc) (b & u & E2 & Hb)]. unfold visible in Hc, Hb. bool_prop. rewrite E1. cbn [TrimSpace].
  destruct (is_ascii_byte c); [|done]. destruct (is_space c); [done|]. cbn [negb]. rewrite <-E1, E2. cbn [trim_right_rev].
  destruct (is_ascii_byte b); [|done]. destruct (is_space b); [done|]. cbn [negb]. by rewrite <-E2, srev_involutive.
Qed.

Lemma TrimSpace_wrap a b s : visible a = true → visible b = true →
  TrimSpace (String a (s +:+ String b "")) = String a (s +:+ String b "").
Proof.
  intros Ha Hb. apply tight_trim. split; [by exists a, (s +:+ String b "")|].
  exists b, (srev (String a s)). split; [|done]. rewrite <-string_app_cons, srev_app.
  change (srev (String b "")) with (String b ""). by rewrite string_app_cons, string_app_nil_l.
Qed.

Lemma trim_right_tight r c :
  is_ascii r = true → visible c = true → tight (trim_right_rev (r +:+ String c "")).
Proof.
  intros Hr Hc. induction r as [|b r IH]; cbn [string_forallb is_ascii] in *.
  - rewrite string_app_nil_l. pose proof Hc as Hv. unfold visible in Hv. bool_prop. cbn [trim_right_rev].
    replace (is_ascii_byte c) with true by done. replace (is_space c) with false by done. by split; exists c, "".
  - unfold is_ascii in Hr. cbn [string_forallb] in Hr. apply andb_true_iff in Hr as [Hb Hr]. rewrite string_app_cons.
    cbn [trim_right_rev]. rewrite Hb. cbn [negb]. destruct (is_space b) eqn:Hs; [by apply IH|]. split.
    + rewrite srev_cons, srev_app. exists c, (srev r +:+ String b ""). by rewrite string_app_assoc.
    + rewrite srev_involutive. exists b, (r +:+ String c ""). split; [done|]. unfold visible. by rewrite Hb, Hs.
Qed.

Lemma trim_tight s : is_ascii s = true → TrimSpace s ≠ "" → tight (TrimSpace s).
Proof.
  induction s as [|c s IH]; [done|]. unfold is_ascii. cbn [string_forallb TrimSpace]. intros [Hc Hs]%andb_true_iff Hne.
  rewrite Hc in *. cbn [negb] in *. destruct (is_space c) eqn:Hsp; [by apply IH|]. rewrite srev_cons.
  apply trim_right_tight; [|unfold visible; by rewrite Hc, Hsp]. unfold is_ascii. by rewrite string_forallb_srev.
Qed.

Lemma trim_ascii s : is_ascii s = true → is_ascii (TrimSpace s) = true.
Proof.
  assert (H : ∀ r, is_ascii r = true → is_ascii (trim_right_rev r) = true).
  { induction r as [|b r IH]; [done|]. intros Hr. pose proof Hr as Hr'. unfold is_ascii in Hr. cbn [string_forallb] in Hr.
    apply andb_true_iff in Hr as [Hb Hr]. cbn [trim_right_rev]. rewrite Hb. cbn [negb].
    destruct (is_space b); [by apply IH|]. unfold is_ascii. by rewrite string_forallb_srev. }
  induction s as [|c s IH]; [done|]. intros Hs. pose proof Hs as Hs'. unfold is_ascii in Hs. cbn [string_forallb] in Hs.
  apply andb_true_iff in Hs as [Hc Hs]. cbn [TrimSpace]. rewrite Hc. cbn [negb]. destruct (is_space c); [by apply IH|].
  apply H. unfold is_ascii. by rewrite string_forallb_srev.
Qed.
End Trim.

Lemma prefix_nil s : String.prefix "" s = true.
Proof. by destruct s. Qed.

Lemma prefix_app p s : String.prefix p (p +:+ s) = true.
Proof. induction p as [|c p IH]; [by destruct s|]. rewrite string_app_cons. cbn [String.prefix]. by destruct (Ascii.ascii_dec c c). Qed.

(** ** Shapes *)

Section Shapes.
Context {UT : UnicodeTables} {GC : GethCommon}.

(** the fields of a reference by its kind *)
Definition wf_ref (r : AccountRef) : Prop :=
  match ar_Kind r with
  | 1 => ar_Wallet r ≠ "" ∧ contains_byte 47 (ar_Wallet r) = false ∧ looksLikeAddress (ar_Wallet r) = false ∧
         looksLikeENS (ar_Wallet r) = false ∧ 0 ≤ ar_Index r < 2 ^ 32 ∧ ar_Name r = "" ∧ ar_Addr r = 0
  | 2 => ar_Wallet r ≠ "" ∧ contains_byte 47 (ar_Wallet r) = false ∧ looksLikeAddress (ar_Wallet r) = false ∧
         looksLikeENS (ar_Wallet r) = false ∧ ar_Index r = 0 ∧ validNameSegment (ar_Name r) = true ∧
         parseIndex (ar_Name r) = None ∧ ar_Addr r = 0
  | 3 => ar_Wallet r = "" ∧ ar_Index r = 0 ∧ validNameSegment (ar_Name r) = true ∧ has0x (ar_Name r) = false ∧
         looksLikeENS (ar_Name r) = false ∧ ar_Addr r = 0
  | 4 => ar_Wallet r = "" ∧ ar_Index r = 0 ∧ ar_Name r = "" ∧ valid_addr (ar_Addr r)
  | 5 => ar_Wallet r = "" ∧ ar_Index r = 0 ∧ ar_Name r ≠ "" ∧ contains_byte 47 (ar_Name r) = false ∧
         HasPrefix (ar_Name r) "." = false ∧ HasSuffix (ar_Name r) "." = false ∧ ar_Addr r = 0
  | _ => False
  end.

(** the canonical text *)
Definition ref_text (r : AccountRef) : string :=
  match ar_Kind r with
  | 1 => ar_Wallet r +:+ "/" +:+ z_string (ar_Index r)
  | 2 => ar_Wallet r +:+ "/" +:+ ar_Name r
  | 3 => ar_Name r
  | 4 => hex40 (ar_Addr r)
  | _ => ar_Name r +:+ ".eth"
  end.

Definition with_raw (raw : string) (r : AccountRef) : AccountRef :=
  mkRef raw (ar_Kind r) (ar_Wallet r) (ar_Index r) (ar_Name r) (ar_Addr r).

Lemma contains_app c s t : contains_byte c (s +:+ t) = contains_byte c s || contains_byte c t.
Proof. unfold contains_byte. rewrite string_forallb_app. by destruct (string_forallb _ s), (string_forallb _ t). Qed.

Lemma split_byte_some c s l r : split_byte c s = Some (l, r) → s = l +:+ String (Zbyte c) r ∧ contains_byte c l = false.
Proof.
  revert l. induction s as [|b s IH]; intros l H; [done|]. cbn [split_byte] in H. destruct (Z.eqb_spec (byteZ b) c) as [E|E].
  - injection H as <- <-. split; [|done]. rewrite string_app_nil_l. f_equal. by rewrite <-E, Zbyte_byteZ.
  - destruct (split_byte c s) as [[x y]|]; [|done]. injection H as <- <-. destruct (IH x eq_refl) as [-> Hx].
    split; [by rewrite string_app_cons|]. unfold contains_byte in *. cbn [string_forallb].
    destruct (Z.eqb_spec (byteZ b) c); [done|]. exact Hx.
Qed.

Lemma split_byte_none c s : split_byte c s = None ↔ contains_byte c s = false.
Proof.
  unfold contains_byte. induction s as [|b s IH]; [done|]. cbn [split_byte string_forallb].
  destruct (Z.eqb_spec (byteZ b) c); [done|]. cbn [negb andb]. destruct (split_byte c s) as [[]|].
  - split; [done|]. intros H. by apply IH in H.
  - split; [|done]. intros _. by apply IH.
Qed.

Lemma split_byte_app c l r : 0 ≤ c < 256 → contains_byte c l = false → split_byte c (l +:+ String (Zbyte c) r) = Some (l, r).
Proof.
  intros Hc. unfold contains_byte. induction l as [|b l IH]; intros H.
  - rewrite string_app_nil_l. cbn [split_byte]. by rewrite byteZ_Zbyte, Z.eqb_refl.
  - rewrite string_app_cons. cbn [split_byte string_forallb] in *. destruct (Z.eqb_spec (byteZ b) c); [done|].
    cbn [negb andb] in H. by rewrite IH.
Qed.

(** the shape a parse found, from the trimmed text *)
Lemma parse_shape raw r :
  ParseAccountRef raw = Ok r → let s := TrimSpace raw in
  ar_Raw r = raw ∧ s ≠ "" ∧ wf_ref r ∧
  (ar_Kind r = 5 → has0x s = false ∧ looksLikeENS s = true ∧ contains_byte 47 s = false ∧ ar_Name r = ens_label s) ∧
  (ar_Kind r ≠ 4 → ar_Kind r ≠ 5 → ref_text r = s).
Proof.
  unfold ParseAccountRef. case_bool_decide as He; [done|]. destruct (split_byte 47 (TrimSpace raw)) as [[w t]|] eqn:Hsp.
  - apply split_byte_some in Hsp as [Hs Hw]. unfold parse_hd. case_bool_decide as H1; [done|]. case_bool_decide as H2; [done|].
    destruct (contains_byte 47 t) eqn:H3; [done|]. destruct (looksLikeAddress w || looksLikeENS w) eqn:H4; [done|].
    apply orb_false_iff in H4 as [H4 H5]. destruct (parseIndex t) as [i|] eqn:Hi.
    + intros [= <-]. apply parseIndex_ok in Hi as [[Hi1 Hi2] Et]. cbn. split_and!; try done. intros _ _. by rewrite Et, Hs.
    + destruct (validNameSegment t) eqn:Hv; [|done]. intros [= <-]. cbn. split_and!; done.
  - apply split_byte_none in Hsp. destruct (has0x (TrimSpace raw)) eqn:Hx.
    + destruct (IsHexAddress _) eqn:Ha; [|done]. intros [= <-]. cbn. split_and!; try done. apply HexToAddress_range.
    + destruct (looksLikeENS (TrimSpace raw)) eqn:Hens.
      * unfold parse_ens. destruct (bool_decide (ens_label (TrimSpace raw) = "") || _ || _) eqn:Hl; [done|]. intros [= <-].
        apply orb_false_iff in Hl as [[Hl1 Hl2]%orb_false_iff Hl3]. apply bool_decide_eq_false in Hl1. cbn.
        split_and!; try done. rewrite <-(stake_sdrop (String.length (TrimSpace raw) - 4) (TrimSpace raw)) in Hsp.
        rewrite contains_app in Hsp. by apply orb_false_iff in Hsp as [? _].
      * destruct (validNameSegment _) eqn:Hv; [|done]. intros [= <-]. cbn. split_and!; done.
Qed.

(** two texts with the same trimmed text parse to the same reference, up to
    the raw text they carry *)
Lemma parse_of_trim raw raw' r :
  TrimSpace raw' = TrimSpace raw → ParseAccountRef raw = Ok r → ParseAccountRef raw' = Ok (with_raw raw' r).
Proof.
  intros E. unfold ParseAccountRef. rewrite E. case_bool_decide; [done|]. destruct (split_byte 47 _) as [[w t]|].
  - unfold parse_hd. do 2 (case_bool_decide; [done|]). destruct (contains_byte 47 t); [done|].
    destruct (looksLikeAddress w || looksLikeENS w); [done|]. destruct (parseIndex t); [by intros [= <-]|].
    destruct (validNameSegment t); [|done]. by intros [= <-].
  - destruct (has0x _); [destruct (IsHexAddress _); [|done]; by intros [= <-]|]. destruct (looksLikeENS _).
    + unfold parse_ens. destruct (_ || _); [done|]. by intros [= <-].
    + destruct (validNameSegment _); [|done]. by intros [= <-].
Qed.

Lemma digit_char_plain d : 0 ≤ d < 16 → visible (digit_char d) = true ∧ (byteZ (digit_char d) =? 47) = false.
Proof.
  intros Hd. rewrite <-(Z2Nat.id d) by lia. assert (Hn : (Z.to_nat d < 16)%nat) by lia.
  revert Hn. generalize (Z.to_nat d). clear. intros n Hn. do 16 (destruct n as [|n]; [by vm_compute|]). lia.
Qed.

Lemma fixed16_no_slash w n : contains_byte 47 (fixed_digits 16 w n) = false.
Proof.
  revert n. induction w as [|w IH]; intros n; [done|]. cbn [fixed_digits]. rewrite contains_app, IH.
  unfold contains_byte. cbn [string_forallb].
  by rewrite (proj2 (digit_char_plain _ (Z.mod_pos_bound n 16 ltac:(lia)))).
Qed.

Lemma hex40_tight a : tight (hex40 a).
Proof.
  split; [by eexists _, _|]. unfold hex40. rewrite srev_app.
  change (fixed_digits 16 40 a) with (fixed_digits 16 39 (a / 16) +:+ String (digit_char (a mod 16)) "").
  rewrite srev_app. eexists _, (srev (fixed_digits 16 39 (a / 16)) +:+ srev "0x"). split; [reflexivity|].
  apply digit_char_plain. by apply Z.mod_pos_bound.
Qed.

(** an address text is read back *)
Lemma parse_address a : valid_addr a → ParseAccountRef (hex40 a) = Ok (mkRef (hex40 a) RefAddress "" 0 "" a).
Proof.
  intros Ha. unfold ParseAccountRef. rewrite (tight_trim _ (hex40_tight a)). rewrite bool_decide_eq_false_2 by done.
  replace (split_byte 47 (hex40 a)) with (@None (string * string)).
  - change (has0x (hex40 a)) with true. cbv iota. by rewrite IsHexAddress_hex40, HexToAddress_hex40.
  - symmetry. apply split_byte_none. unfold hex40. rewrite contains_app. apply fixed16_no_slash.
Qed.

(** an ENS text is read back, with its label as written *)
Lemma parse_ens_text s :
  is_ascii s = true → tight s → contains_byte 47 s = false → has0x s = false → ens_label s ≠ "" →
  HasPrefix (ens_label s) "." = false → HasSuffix (ens_label s) "." = false →
  let t := ens_label s +:+ ".eth" in ParseAccountRef t = Ok (mkRef t RefENS "" 0 (ens_label s) 0).
Proof.
  intros Ha [(c & u & Es & Hc) _] Hs Hx Hl Hp Hq. unfold ens_label in *. set (l := stake _ s) in *.
  assert (Hsplit : s = l +:+ sdrop (String.length s - 4) s) by (symmetry; apply stake_sdrop). set (e := sdrop _ s) in *.
  assert (La : is_ascii l = true) by (rewrite Hsplit in Ha; unfold is_ascii in *; rewrite string_forallb_app in Ha; by apply andb_true_iff in Ha as [? _]).
  assert (Ls : contains_byte 47 l = false) by (rewrite Hsplit, contains_app in Hs; by apply orb_false_iff in Hs as [? _]).
  destruct l as [|b l'] eqn:El; [done|]. assert (Eb : b = c) by (rewrite Es, string_app_cons in Hsplit; by injection Hsplit).
  subst b. set (t := String c l' +:+ ".eth"). assert (Tt : tight t).
  { split; [exists c, (l' +:+ ".eth"); split; [by unfold t; rewrite string_app_cons|done]|].
    exists (Zbyte 104), ("te." +:+ srev (String c l')). split; [|by vm_compute]. unfold t. rewrite srev_app. change (srev ".eth") with (String (Zbyte 104) "te."). by rewrite string_app_cons. }
  assert (Tne : t ≠ "") by (unfold t; rewrite string_app_cons; discriminate).
  cbn zeta. unfold ParseAccountRef. rewrite (tight_trim t Tt), (bool_decide_eq_false_2 _ Tne).
  replace (split_byte 47 t) with (@None (string * string)).
  2: { symmetry. apply split_byte_none. unfold t. by rewrite contains_app, Ls. }
  replace (has0x t) with false.
  2: { symmetry. unfold t, has0x, HasPrefix. rewrite string_app_cons. rewrite Hsplit in Hx. unfold has0x, HasPrefix in Hx.
       rewrite string_app_cons in Hx. destruct l' as [|d l'']; [by rewrite string_app_nil_l; cbn; do 2 case_match|].
       rewrite string_app_cons in *. clear -Hx; cbn [String.prefix] in *; rewrite !prefix_nil in *; exact Hx. }
  replace (looksLikeENS t) with true.
  2: { symmetry. unfold looksLikeENS, HasSuffix, t. rewrite ToLower_ascii.
       - rewrite string_map_app, srev_app. apply prefix_app.
       - unfold is_ascii in *. by rewrite string_forallb_app, La. }
  cbv iota. unfold parse_ens, ens_label. replace (stake (String.length t - 4) t) with (String c l').
  - by rewrite Hp, Hq.
  - unfold t. rewrite string_length_app. change (String.length ".eth") with 4%nat. by rewrite Nat.add_sub, stake_app.
Qed.

(** A parsed reference is well typed.  [ParseAccountRef] keeps the text it
    was given, and the other fields are exactly those of one of the five
    shapes: an index below 2^32, an alias that is no index, a name that is
    neither an address nor an ENS name, an address of 160 bits, a label; every
    other field is zero. *)
Theorem parsed_reference_typed raw r : ParseAccountRef raw = Ok r → ar_Raw r = raw ∧ wf_ref r.
Proof. intros H. by destruct (parse_shape raw r H) as (? & _ & ? & _). Qed.

(** The canonical text of a parsed reference names the same thing.
    Whatever ASCII text a reference was read from -- with spaces around it, an
    address in any case, an ENS suffix in any case -- its canonical text
    parses to a reference equal in every field but the raw text; so no index
    is read from two texts, and no text is both an index and an alias. *)
Theorem reference_text_read_back raw r :
  is_ascii raw = true → ParseAccountRef raw = Ok r →
  ParseAccountRef (ref_text r) = Ok (with_raw (ref_text r) r).
Proof.
  intros Ha H. destruct (parse_shape raw r H) as (_ & Hne & Hwf & Hens & Hsame). pose proof (trim_tight raw Ha Hne) as Ht.
  destruct (decide (ar_Kind r = 4)) as [E4|E4]; [|destruct (decide (ar_Kind r = 5)) as [E5|E5]].
  - unfold wf_ref in Hwf. unfold ref_text. destruct r as [rr k w i n a]. cbn in E4. subst k. cbn in *.
    destruct Hwf as (-> & -> & -> & Hv). by apply parse_address.
  - destruct (Hens E5) as (Hx & _ & H47 & Hn). unfold wf_ref in Hwf. unfold ref_text. destruct r as [rr k w i n a].
    cbn in E5. subst k. cbn in *. destruct Hwf as (-> & -> & H1 & _ & H2 & H3 & ->). subst n.
    by apply parse_ens_text; [apply trim_ascii| |..].
  - rewrite (Hsame E4 E5). by apply (parse_of_trim raw); [apply tight_trim|].
Qed.
End Shapes.

(** ** Witnesses *)

#[local] Existing Instance ascii_tables.
#[local] Existing Instance geth_ref.

(** a wallet account by index, with a space before it *)
Lemma parsed_reference_typed_witness :
  let r := mkRef " treasury/42" RefHDIndex "treasury" 42 "" 0 in
  ParseAccountRef " treasury/42" = Ok r ∧ ar_Raw r = " treasury/42" ∧ wf_ref r.
Proof.
  set (r := mkRef _ _ _ _ _ _). assert (H : ParseAccountRef " treasury/42" = Ok r) by (vm_compute; reflexivity).
  split; [exact H|exact (parsed_reference_typed " treasury/42" r H)].
Defined.

(** an ENS name whose suffix is in upper case *)
Lemma reference_text_read_back_witness :
  let r := mkRef "Vitalik.ETH " RefENS "" 0 "Vitalik" 0 in
  ParseAccountRef "Vitalik.ETH " = Ok r ∧ ref_text r = "Vitalik.eth" ∧
  ParseAccountRef "Vitalik.eth" = Ok (with_raw "Vitalik.eth" r).
Proof.
  set (r := mkRef _ _ _ _ _ _). assert (H : ParseAccountRef "Vitalik.ETH " = Ok r) by (vm_compute; reflexivity).
  split; [exact H|split; [reflexivity|]]. exact (reference_text_read_back "Vitalik.ETH " r eq_refl H).
Defined.
