(* ===== verification/Registry.v ===== *)
(** * The registry: [internal/registry]

    The address book [contacts.json] and, per network, one file with the token
    registry, the NFT collections, the NFT aliases and the contract registry.
    The directory maps a file name to the tree of its text, [None] for a text
    that is no JSON: [json.MarshalIndent] and [json.Unmarshal] go through the
    trees of [Json].  An operation runs under one lock and writes one file
    atomically, so it is a trace of directories; a write that reports an error
    left either content ([save_file]). *)

From S2P Require Import Prelude GoStrings Decimal Encodings Json PolicyTypes PolicyBody Domain Trace Refs.

Local Open Scope string_scope.
Local Open Scope Z_scope.
Local Open Scope list_scope.
Local Open Scope go_scope.

(** ** The interfaces *)

(** MarshalText and UnmarshalJSON of [common.Address] *)
Class AddressJSON := {
  address_json : Address → json;
  address_unjson : json → option Address;
  address_unjson_json : ∀ a, valid_addr a → address_unjson (address_json a) = Some a;
}.

(** what the file system answers: [fsx.IsReadOnly] tells the two errors apart *)
Inductive fsxError := FsReadOnly | FsOther.
Inductive lockError := LockDeadline | LockOther (msg : string).

Record RegistryIO := mkRIO {
  ro_mkdir_locks : option fsxError;
  ro_lock : option lockError;
  ro_read : bool;                  (* ReadFile fails although the file is there *)
  ro_mkdir : option fsxError;
  ro_write : option (fsxError * bool);   (* WriteAtomic: the error, and whether the data is in place *)
}.

Definition rio_ok : RegistryIO := mkRIO None None false None None.

Notation Dir := (gmap string (option json)).
Definition R (A : Type) : Type := T Dir A.

(** ** The records *)

Record Contact := mkContact { ct_Name : string; ct_Address : Address; ct_ENS : string; ct_PinnedAt : string }.
Record contactsFile := mkContacts { cf_V : Z; cf_Contacts : list Contact }.

Record Token := mkToken {
  tk_Alias : string; tk_Address : Address; tk_Kind : string; tk_Decimals : Z; tk_Symbol : string }.
Record Collection := mkCollection { cl_Alias : string; cl_Address : Address; cl_Kind : string }.
Record NFTAlias := mkNFTAlias { na_Alias : string; na_Collection : string; na_TokenID : string }.
(** the ABI is the tree of the raw message *)
Record Contract := mkContract { co_Alias : string; co_Address : Address; co_ABI : json }.

Record tokensFile := mkTokens {
  tf_V : Z; tf_Network : string; tf_Tokens : list Token; tf_Collections : list Collection;
  tf_NFTAliases : list NFTAlias; tf_Contracts : list Contract }.

Record ResolvedToken := mkResolved { rt_Token : Token; rt_Bundled : bool }.

Record ResolvedNFT := mkResolvedNFT {
  rf_Collection : Address; rf_Kind : string; rf_TokenID : string; rf_CollectionAlias : string; rf_NFTAlias : string }.

Definition contactsVersion : Z := 1.
Definition tokensVersion : Z := 2.
Definition tokensMaxReadableVersion : Z := 2.

Definition KindERC20 := "erc20".
Definition KindERC721 := "erc721".
Definition KindERC1155 := "erc1155".

Definition CodeUsageDuplicate := "usage.duplicate".
Definition CodeUsageBundledImmutable := "usage.bundled_immutable".
Definition CodeUsageBadKind := "usage.bad_kind".
Definition CodeUsageBadTokenID := "usage.bad_token_id".
Definition CodeUsageBadNFTRef := "usage.bad_nft_ref".

Definition state_corrupt (what : string) : error := New "state.corrupt" what.

(** ** Names (contacts.go) *)

Section Names.
Context {UT : UnicodeTables} {GC : GethCommon}.

Definition name_char (c : Ascii.ascii) : bool := is_lower_alnum c || (byteZ c =? 45) || (byteZ c =? 95).

(** the byte loop: the first byte that is not allowed *)
Fixpoint bad_char (s : string) : option Ascii.ascii :=
  match s with
  | "" => None
  | String c s => if name_char c then bad_char s else Some c
  end.

(** [string(ch)] of a byte: the UTF-8 text of the rune of that number *)
Definition rune_of_byte (c : Ascii.ascii) : string :=
  if is_ascii_byte c then String c ""
  else String (Zbyte (192 + byteZ c / 64)) (String (Zbyte (128 + byteZ c mod 64)) "").

Definition bad_name (name what : string) : error := New "usage.bad_name" ("contact name " +:+ go_quote name +:+ what).

Definition canonicalName (name : string) : res error string :=
  let trimmed := TrimSpace name in
  if bool_decide (trimmed = "") then Err (New "usage.empty_name" "contact name is empty") else
  let lower := ToLower trimmed in
  if IsHexAddress lower then Err (bad_name name " looks like an address; choose a name")
  else if (64 <? String.length lower)%nat then Err (bad_name name " is too long (max 64 characters)")
  else match lower with
       | "" => Ok lower
       | String c rest =>
           if negb (is_lower_alnum c) then Err (bad_name name " must start with a letter or digit")
           else match bad_char rest with
                | Some b => Err (bad_name name (" contains an invalid character " +:+ go_quote (rune_of_byte b) +:+
                                                " (allowed: letters, digits, '-', '_')"))
                | None => Ok lower
                end
       end.

(** normalizeTokenID *)
Definition normalizeTokenID (s : string) : option string :=
  let s := TrimSpace s in
  if bool_decide (s = "") then None else
  match SetString s 10 with
  | Some v => if v <? 0 then None else Some (z_string v)
  | None => None
  end.
End Names.

(** ** The files *)

(** a JSON string is written with the invalid bytes replaced *)
Definition j_str (s : string) : json := JStr (coerce s).
Definition j_int (v : Z) : json := JNum (z_string v).
(** omitempty *)
Definition j_opt (k v : string) : list (string * json) := if bool_decide (v = "") then [] else [(k, j_str v)].

Section Files.
Context {UT : UnicodeTables} {AJ : AddressJSON}.

Definition d_uint8 : D Z := λ cur j,
  match j with
  | JNum lit => match head_is 45 lit, SetString lit 10 with
                | None, Some n => if n <? 2 ^ 8 then Some n else None
                | _, _ => None
                end
  | JNull => Some cur
  | _ => None
  end.
Definition d_address : D Address := λ _ j, address_unjson j.
Definition d_raw : D json := λ _ j, Some j.

Definition contact_json (c : Contact) : json :=
  JObj ([("name", j_str (ct_Name c)); ("address", address_json (ct_Address c))] ++
        j_opt "ens" (ct_ENS c) ++ j_opt "pinned_at" (ct_PinnedAt c)).
Definition contacts_json (f : contactsFile) : json :=
  JObj [("v", j_int (cf_V f)); ("contacts", JArr (map contact_json (cf_Contacts f)))].

Definition d_contact : D Contact := d_struct false
  [("name", field ct_Name (λ '(mkContact _ b c d) x, mkContact x b c d) d_string);
   ("address", field ct_Address (λ '(mkContact a _ c d) x, mkContact a x c d) d_address);
   ("ens", field ct_ENS (λ '(mkContact a b _ d) x, mkContact a b x d) d_string);
   ("pinned_at", field ct_PinnedAt (λ '(mkContact a b c _) x, mkContact a b c x) d_string)].
Definition zero_contact : Contact := mkContact "" 0 "" "".

Definition d_contacts : D contactsFile := d_struct false
  [("v", field cf_V (λ '(mkContacts _ b) x, mkContacts x b) d_int);
   ("contacts", field cf_Contacts (λ '(mkContacts a _) x, mkContacts a x) (d_slice zero_contact d_contact))].

Definition token_json (t : Token) : json :=
  JObj [("alias", j_str (tk_Alias t)); ("address", address_json (tk_Address t)); ("kind", j_str (tk_Kind t));
        ("decimals", j_int (tk_Decimals t)); ("symbol", j_str (tk_Symbol t))].
Definition collection_json (c : Collection) : json :=
  JObj [("alias", j_str (cl_Alias c)); ("address", address_json (cl_Address c)); ("kind", j_str (cl_Kind c))].
Definition nft_json (a : NFTAlias) : json :=
  JObj [("alias", j_str (na_Alias a)); ("collection", j_str (na_Collection a)); ("token_id", j_str (na_TokenID a))].
Definition contract_json (c : Contract) : json :=
  JObj [("alias", j_str (co_Alias c)); ("address", address_json (co_Address c)); ("abi", co_ABI c)].
Definition tokens_json (f : tokensFile) : json :=
  JObj [("v", j_int (tf_V f)); ("network", j_str (tf_Network f));
        ("tokens", JArr (map token_json (tf_Tokens f)));
        ("collections", JArr (map collection_json (tf_Collections f)));
        ("nft_aliases", JArr (map nft_json (tf_NFTAliases f)));
        ("contracts", JArr (map contract_json (tf_Contracts f)))].

Definition d_regtoken : D Token := d_struct false
  [("alias", field tk_Alias (λ '(mkToken _ b c d e) x, mkToken x b c d e) d_string);
   ("address", field tk_Address (λ '(mkToken a _ c d e) x, mkToken a x c d e) d_address);
   ("kind", field tk_Kind (λ '(mkToken a b _ d e) x, mkToken a b x d e) d_string);
   ("decimals", field tk_Decimals (λ '(mkToken a b c _ e) x, mkToken a b c x e) d_uint8);
   ("symbol", field tk_Symbol (λ '(mkToken a b c d _) x, mkToken a b c d x) d_string)].
Definition zero_regtoken : Token := mkToken "" 0 "" 0 "".

Definition d_collection : D Collection := d_struct false
  [("alias", field cl_Alias (λ '(mkCollection _ b c) x, mkCollection x b c) d_string);
   ("address", field cl_Address (λ '(mkCollection a _ c) x, mkCollection a x c) d_address);
   ("kind", field cl_Kind (λ '(mkCollection a b _) x, mkCollection a b x) d_string)].
Definition zero_collection : Collection := mkCollection "" 0 "".

Definition d_nft : D NFTAlias := d_struct false
  [("alias", field na_Alias (λ '(mkNFTAlias _ b c) x, mkNFTAlias x b c) d_string);
   ("collection", field na_Collection (λ '(mkNFTAlias a _ c) x, mkNFTAlias a x c) d_string);
   ("token_id", field na_TokenID (λ '(mkNFTAlias a b _) x, mkNFTAlias a b x) d_string)].
Definition zero_nft : NFTAlias := mkNFTAlias "" "" "".

Definition d_regcontract : D Contract := d_struct false
  [("alias", field co_Alias (λ '(mkContract _ b c) x, mkContract x b c) d_string);
   ("address", field co_Address (λ '(mkContract a _ c) x, mkContract a x c) d_address);
   ("abi", field co_ABI (λ '(mkContract a b _) x, mkContract a b x) d_raw)].
Definition zero_regcontract : Contract := mkContract "" 0 JNull.

Definition d_tokens : D tokensFile := d_struct false
  [("v", field tf_V (λ '(mkTokens _ b c d e f) x, mkTokens x b c d e f) d_int);
   ("network", field tf_Network (λ '(mkTokens a _ c d e f) x, mkTokens a x c d e f) d_string);
   ("tokens", field tf_Tokens (λ '(mkTokens a b _ d e f) x, mkTokens a b x d e f) (d_slice zero_regtoken d_regtoken));
   ("collections", field tf_Collections (λ '(mkTokens a b c _ e f) x, mkTokens a b c x e f)
      (d_slice zero_collection d_collection));
   ("nft_aliases", field tf_NFTAliases (λ '(mkTokens a b c d _ f) x, mkTokens a b c d x f) (d_slice zero_nft d_nft));
   ("contracts", field tf_Contracts (λ '(mkTokens a b c d e _) x, mkTokens a b c d e x)
      (d_slice zero_regcontract d_regcontract))].
End Files.

(** ** Lists *)

(** the loop that finds an index, and [append(l[:idx], l[idx+1:]...)] *)
Fixpoint remove_first {A} (p : A → bool) (l : list A) : option (list A) :=
  match l with
  | [] => None
  | x :: l => if p x then Some l else cons x <$> remove_first p l
  end.

Fixpoint find_index {A} (p : A → bool) (l : list A) : option nat :=
  match l with
  | [] => None
  | x :: l => if p x then Some O else S <$> find_index p l
  end.

(** some element of another index satisfies [p] *)
Definition exists_other {A} (idx : nat) (p : A → bool) (l : list A) : bool :=
  existsb (λ e, negb (e.1 =? idx)%nat && p e.2) (zip (seq 0 (length l)) l).

Section Stores.
Context {UT : UnicodeTables} {GC : GethCommon} {AJ : AddressJSON} {SS : SortSlice}.
Variable io : RegistryIO.

(** ** The lock and the files *)

Definition errReadOnly : error := New "config.read_only"
  "the registry is on a read-only mount; contacts cannot be written (move the state directory or DAXIE_REGISTRY_DIR to a writable volume)".

Definition withRegistryLock {A} (fn : R A) : R A :=
  match ro_mkdir_locks io with
  | Some FsReadOnly => mfail errReadOnly
  | Some FsOther => mfail (state_corrupt "cannot create the registry locks directory")
  | None =>
      match ro_lock io with
      | Some LockDeadline => mfail (New "state.lock_timeout"
          "timed out acquiring the registry lock; another daxie process may be holding it")
      | Some (LockOther msg) => mfail (New "state.lock_timeout" ("cannot acquire the registry lock: " +:+ msg))
      | None => fn
      end
  end.

(** os.ReadFile and json.Unmarshal into a fresh value, and the version test *)
Definition load_file {F} (name : string) (missing zero : F) (d : D F) (version : F → Z) (supported : Z)
    (unreadable malformed : string) (newer : Z → string) : R F :=
  dir <-- mget ;;
  if ro_read io then mfail (state_corrupt unreadable) else
  match dir !! name with
  | None => mret missing
  | Some None => mfail (state_corrupt malformed)
  | Some (Some j) =>
      match d zero j with
      | None => mfail (state_corrupt malformed)
      | Some f => if supported <? version f then mfail (state_corrupt (newer (version f))) else mret f
      end
  end.

(** fsx.MkdirAll and fsx.WriteAtomic; an error of the sync of the directory,
    behind the rename, leaves the data in place *)
Definition save_file (name : string) (j : json) (cannot_write : string) : R unit :=
  match ro_mkdir io with
  | Some FsReadOnly => mfail errReadOnly
  | Some FsOther => mfail (state_corrupt "cannot create the registry directory")
  | None =>
      match ro_write io with
      | Some (e, placed) => λ dir,
          (Err (match e with FsReadOnly => errReadOnly | FsOther => state_corrupt cannot_write end),
           if (placed : bool) then [<[name := Some j]> dir] else [])
      | None => λ dir, (Ok tt, [<[name := Some j]> dir])
      end
  end.

(** ** The address book (contacts.go) *)

Definition contactsPath := "contacts.json".

Definition newer_text (what : string) (supported v : Z) : string :=
  "the " +:+ what +:+ " file is schema version " +:+ z_string v +:+ ", newer than this binary supports (" +:+
  z_string supported +:+ "); upgrade daxie".

Definition loadContacts : R contactsFile :=
  load_file contactsPath (mkContacts contactsVersion []) (mkContacts 0 []) d_contacts cf_V contactsVersion
    "cannot read the contacts file" "the contacts file is corrupt (not valid JSON)"
    (newer_text "contacts" contactsVersion).

Definition saveContacts (f : contactsFile) : R unit :=
  save_file contactsPath (contacts_json (mkContacts contactsVersion (cf_Contacts f))) "cannot write the contacts file".

Definition named (name : string) (c : Contact) : bool := bool_decide (ct_Name c = name).

Definition notFound (name : string) : error := New "ref.not_found" ("no contact named " +:+ go_quote name).

(** Contacts.add *)
Definition Contacts_add (name : string) (addr : Address) (ens pinnedAt : string) : R unit :=
  canon <-- mlift (canonicalName name) ;;
  withRegistryLock
    (f <-- loadContacts ;;
     if existsb (named canon) (cf_Contacts f)
     then mfail (New CodeUsageDuplicate ("a contact named " +:+ go_quote canon +:+
                                           " already exists; remove it first or choose another name"))
     else saveContacts (mkContacts (cf_V f) (cf_Contacts f ++ [mkContact canon addr ens pinnedAt]))).

Definition Contacts_Add (name : string) (addr : Address) : R unit := Contacts_add name addr "" "".
Definition Contacts_AddWithENS (name : string) (addr : Address) (ens pinnedAt : string) : R unit :=
  Contacts_add name addr ens pinnedAt.

Definition Contacts_List : R (list Contact) :=
  f <-- loadContacts ;; mret (sort_slice (λ a b, String.ltb (ct_Name a) (ct_Name b)) (cf_Contacts f)).

Definition Contacts_Show (name : string) : R Contact :=
  canon <-- mlift (canonicalName name) ;;
  f <-- loadContacts ;;
  match List.find (named canon) (cf_Contacts f) with
  | Some c => mret c
  | None => mfail (notFound canon)
  end.

Definition Contacts_Remove (name : string) : R unit :=
  canon <-- mlift (canonicalName name) ;;
  withRegistryLock
    (f <-- loadContacts ;;
     match remove_first (named canon) (cf_Contacts f) with
     | None => mfail (notFound canon)
     | Some cs => saveContacts (mkContacts (cf_V f) cs)
     end).

(** found = false is [None] *)
Definition Contacts_Resolve (name : string) : R (option Address) :=
  match canonicalName name with
  | Err _ => mret None
  | Ok canon => f <-- loadContacts ;; mret (ct_Address <$> List.find (named canon) (cf_Contacts f))
  end.

(** ** The token registry (bundled.go, tokens.go) *)

Definition major (alias address : string) (decimals : Z) (symbol : string) : Token :=
  mkToken alias (HexToAddress address) KindERC20 decimals symbol.

Definition bundledMajors : list (string * list Token) :=
  [("mainnet",
    [major "usdc" "0xA0b86991c6218b36c1d19D4a2e9Eb0cE3606eB48" 6 "USDC";
     major "usdt" "0xdAC17F958D2ee523a2206206994597C13D831ec7" 6 "USDT";
     major "weth" "0xC02aaA39b223FE8D0A0e5C4F27eAD9083C756Cc2" 18 "WETH";
     major "dai" "0x6B175474E89094C44Da98b954EedeAC495271d0F" 18 "DAI"]);
   ("sepolia",
    [major "usdc" "0x1c7D4B196Cb0C7B01d743Fbc6116a902379C7238" 6 "USDC";
     major "weth" "0xfFf9976782d46CC05630D1f6eBAb18b2324d6B14" 18 "WETH"])].

Definition bundledFor (network : string) : list Token :=
  default [] (snd <$> List.find (λ e, bool_decide (e.1 = network)) bundledMajors).

Definition aliased (alias : string) (t : Token) : bool := bool_decide (tk_Alias t = alias).

Definition bundledLookup (network canonAlias : string) : option Token :=
  List.find (aliased canonAlias) (bundledFor network).

Definition sortResolved (rs : list ResolvedToken) : list ResolvedToken :=
  sort_slice (λ a b, String.ltb (tk_Alias (rt_Token a)) (tk_Alias (rt_Token b))) rs.

Definition mergeBundled (network : string) (fileTokens : list Token) : list ResolvedToken :=
  sortResolved
    (map (λ t, mkResolved t false) fileTokens ++
     map (λ t, mkResolved t true)
       (filter (λ t, tk_Alias t ∉ map tk_Alias fileTokens) (bundledFor network))).

Definition path (network : string) : string := network +:+ ".json".

Definition load (network : string) : R tokensFile :=
  load_file (path network) (mkTokens tokensVersion network [] [] [] []) (mkTokens 0 "" [] [] [] []) d_tokens tf_V
    tokensMaxReadableVersion "cannot read the token registry file" "the token registry file is corrupt (not valid JSON)"
    (newer_text "token registry" tokensMaxReadableVersion).

Definition save (network : string) (f : tokensFile) : R unit :=
  save_file (path network)
    (tokens_json (mkTokens tokensVersion network (tf_Tokens f) (tf_Collections f) (tf_NFTAliases f) (tf_Contracts f)))
    "cannot write the token registry file".

Definition with_tokens (f : tokensFile) (ts : list Token) : tokensFile :=
  mkTokens (tf_V f) (tf_Network f) ts (tf_Collections f) (tf_NFTAliases f) (tf_Contracts f).
Definition with_collections (f : tokensFile) (cs : list Collection) : tokensFile :=
  mkTokens (tf_V f) (tf_Network f) (tf_Tokens f) cs (tf_NFTAliases f) (tf_Contracts f).
Definition with_nfts (f : tokensFile) (ns : list NFTAlias) : tokensFile :=
  mkTokens (tf_V f) (tf_Network f) (tf_Tokens f) (tf_Collections f) ns (tf_Contracts f).
Definition with_contracts (f : tokensFile) (cs : list Contract) : tokensFile :=
  mkTokens (tf_V f) (tf_Network f) (tf_Tokens f) (tf_Collections f) (tf_NFTAliases f) cs.

Definition tokenNotFound (alias network : string) : error :=
  New "ref.not_found" ("no token aliased " +:+ go_quote alias +:+ " on " +:+ network).

Definition duplicate (what : string) : error := New CodeUsageDuplicate what.

Definition Tokens_Add (network : string) (tok : Token) : R unit :=
  canon <-- mlift (canonicalName (tk_Alias tok)) ;;
  let kind := if bool_decide (tk_Kind tok = "") then KindERC20 else tk_Kind tok in
  let tok := mkToken canon (tk_Address tok) kind (tk_Decimals tok) (tk_Symbol tok) in
  withRegistryLock
    (f <-- load network ;;
     match bundledLookup network canon with
     | Some _ => mfail (duplicate ("alias " +:+ go_quote canon +:+ " is a bundled token on " +:+ network +:+
                                     "; choose a different alias with --name"))
     | None =>
         if existsb (aliased canon) (tf_Tokens f)
         then mfail (duplicate ("a token aliased " +:+ go_quote canon +:+ " already exists on " +:+ network +:+
                                  "; remove it first or choose another alias with --name"))
         else save network (with_tokens f (tf_Tokens f ++ [tok]))
     end).

Definition rename_token (newAlias : string) (t : Token) : Token :=
  mkToken newAlias (tk_Address t) (tk_Kind t) (tk_Decimals t) (tk_Symbol t).

Definition Tokens_Rename (network oldAlias newAlias : string) : R unit :=
  oldCanon <-- mlift (canonicalName oldAlias) ;;
  newCanon <-- mlift (canonicalName newAlias) ;;
  withRegistryLock
    (f <-- load network ;;
     match bundledLookup network oldCanon with
     | Some _ => mfail (New CodeUsageBundledImmutable (go_quote oldCanon +:+ " is a bundled token on " +:+ network +:+
                          " and cannot be renamed; add it under the new alias instead"))
     | None =>
     match find_index (aliased oldCanon) (tf_Tokens f) with
     | None => mfail (tokenNotFound oldCanon network)
     | Some idx =>
     match bundledLookup network newCanon with
     | Some _ => mfail (duplicate ("alias " +:+ go_quote newCanon +:+ " is a bundled token on " +:+ network +:+
                                     "; choose a different alias"))
     | None =>
         if exists_other idx (aliased newCanon) (tf_Tokens f)
         then mfail (duplicate ("a token aliased " +:+ go_quote newCanon +:+ " already exists on " +:+ network))
         else save network (with_tokens f (alter (rename_token newCanon) idx (tf_Tokens f)))
     end end end).

Definition Tokens_Remove (network alias : string) : R unit :=
  canon <-- mlift (canonicalName alias) ;;
  withRegistryLock
    (f <-- load network ;;
     match remove_first (aliased canon) (tf_Tokens f) with
     | None =>
         match bundledLookup network canon with
         | Some _ => mfail (New CodeUsageBundledImmutable (go_quote canon +:+ " is a bundled token on " +:+ network +:+
                                                             " and cannot be removed"))
         | None => mfail (tokenNotFound canon network)
         end
     | Some ts => save network (with_tokens f ts)
     end).

Definition Tokens_List (network : string) : R (list ResolvedToken) :=
  f <-- load network ;; mret (mergeBundled network (tf_Tokens f)).

Definition Tokens_Resolve (network alias : string) : R (option ResolvedToken) :=
  match canonicalName alias with
  | Err _ => mret None
  | Ok canon =>
      f <-- load network ;;
      match List.find (aliased canon) (tf_Tokens f) with
      | Some t => mret (Some (mkResolved t false))
      | None => mret ((λ t, mkResolved t true) <$> bundledLookup network canon)
      end
  end.

(** the registry as a Discovery *)
Definition ResolveAsset (network alias : string) : R (option ResolvedToken) := Tokens_Resolve network alias.
Definition KnownAssets (network : string) (owner : Address) : R (list ResolvedToken) := Tokens_List network.
End Stores.
