(* ===== verification/RegistryNfts.v ===== *)
(** * NFTs and contracts of the registry: [internal/registry/nfts.go], [contracts.go]

    The collections, the aliases of single NFTs and the contract registry share
    the file, the lock and the load and save of the token registry. *)

From S2P Require Import Prelude GoStrings Decimal Encodings Json PolicyTypes PolicyBody Domain Trace Refs Registry.

Local Open Scope string_scope.
Local Open Scope Z_scope.
Local Open Scope list_scope.
Local Open Scope go_scope.

Section NFTs.
Context {UT : UnicodeTables} {GC : GethCommon} {AJ : AddressJSON} {SS : SortSlice}.
Variable io : RegistryIO.

(** ** Collections *)

Definition collected (alias : string) (c : Collection) : bool := bool_decide (cl_Alias c = alias).

Definition no_collection (canon network : string) : error :=
  New "ref.not_found" ("no collection aliased " +:+ go_quote canon +:+ " on " +:+ network).

Definition AddCollection (network : string) (col : Collection) : R unit :=
  canon <-- mlift (canonicalName (cl_Alias col)) ;;
  let col := mkCollection canon (cl_Address col) (cl_Kind col) in
  if negb (bool_decide (cl_Kind col = KindERC721)) && negb (bool_decide (cl_Kind col = KindERC1155))
  then mfail (New CodeUsageBadKind ("collection kind " +:+ go_quote (cl_Kind col) +:+ " is not erc721 or erc1155")) else
  withRegistryLock io
    (f <-- load io network ;;
     if existsb (collected canon) (tf_Collections f)
     then mfail (duplicate ("a collection aliased " +:+ go_quote canon +:+ " already exists on " +:+ network +:+
                              "; choose another alias with --name"))
     else save io network (with_collections f (tf_Collections f ++ [col]))).

Definition ResolveCollection (network alias : string) : R (option Collection) :=
  match canonicalName alias with
  | Err _ => mret None
  | Ok canon => f <-- load io network ;; mret (List.find (collected canon) (tf_Collections f))
  end.

Definition ListCollections (network : string) : R (list Collection) :=
  f <-- load io network ;; mret (sort_slice (λ a b, String.ltb (cl_Alias a) (cl_Alias b)) (tf_Collections f)).

Definition RemoveCollection (network alias : string) : R unit :=
  canon <-- mlift (canonicalName alias) ;;
  withRegistryLock io
    (f <-- load io network ;;
     match remove_first (collected canon) (tf_Collections f) with
     | None => mfail (no_collection canon network)
     | Some cs => save io network (with_collections f cs)
     end).

(** ** Aliases of single NFTs *)

Definition nft_aliased (alias : string) (a : NFTAlias) : bool := bool_decide (na_Alias a = alias).

Definition bad_token_id (text : string) : error :=
  New CodeUsageBadTokenID ("token id " +:+ go_quote text +:+ " is not a non-negative decimal integer").

Definition AliasNFT (network alias collectionAlias tokenID : string) : R unit :=
  canon <-- mlift (canonicalName alias) ;;
  colCanon <-- mlift (canonicalName collectionAlias) ;;
  match normalizeTokenID tokenID with
  | None => mfail (bad_token_id tokenID)
  | Some id =>
      withRegistryLock io
        (f <-- load io network ;;
         if negb (existsb (collected colCanon) (tf_Collections f))
         then mfail (New "ref.not_found" ("no collection aliased " +:+ go_quote colCanon +:+ " on " +:+ network +:+
                                            "; register it with `daxie nft add` first"))
         else if existsb (nft_aliased canon) (tf_NFTAliases f)
         then mfail (duplicate ("an NFT aliased " +:+ go_quote canon +:+ " already exists on " +:+ network +:+
                                  "; choose another alias"))
         else save io network (with_nfts f (tf_NFTAliases f ++ [mkNFTAlias canon colCanon id])))
  end.

(** the branch of a bare alias *)
Definition resolve_bare (f : tokensFile) (network ref : string) : res error ResolvedNFT :=
  match canonicalName ref with
  | Err _ => Err (New CodeUsageBadNFTRef (go_quote ref +:+ " is not an NFT alias or a <collection>#<tokenId> reference"))
  | Ok canon =>
      match List.find (nft_aliased canon) (tf_NFTAliases f) with
      | None => Err (New "ref.not_found" ("no NFT aliased " +:+ go_quote canon +:+ " on " +:+ network +:+
                                            " (use <collection>#<tokenId>)"))
      | Some na =>
          match List.find (collected (na_Collection na)) (tf_Collections f) with
          | Some c => Ok (mkResolvedNFT (cl_Address c) (cl_Kind c) (na_TokenID na) (cl_Alias c) (na_Alias na))
          | None => Err (New "ref.not_found" ("NFT alias " +:+ go_quote canon +:+ " references unknown collection " +:+
                                                go_quote (na_Collection na) +:+ " on " +:+ network))
          end
      end
  end.

(** the branches of a reference with a [#], split at the first one *)
Definition resolve_pair (f : tokensFile) (network colPart idPart : string) : res error ResolvedNFT :=
  let colPart := TrimSpace colPart in
  match normalizeTokenID idPart with
  | None => Err (bad_token_id (TrimSpace idPart))
  | Some id =>
      if IsHexAddress colPart then
        let addr := HexToAddress colPart in
        match List.find (λ c, cl_Address c =? addr) (tf_Collections f) with
        | Some c => Ok (mkResolvedNFT addr (cl_Kind c) id (cl_Alias c) "")
        | None => Ok (mkResolvedNFT addr "" id "" "")
        end
      else
        match canonicalName colPart with
        | Err _ => Err (New CodeUsageBadNFTRef (go_quote colPart +:+ " is not a 0x address or a valid collection alias"))
        | Ok colCanon =>
            match List.find (collected colCanon) (tf_Collections f) with
            | Some c => Ok (mkResolvedNFT (cl_Address c) (cl_Kind c) id (cl_Alias c) "")
            | None => Err (New "ref.not_found" ("no collection aliased " +:+ go_quote colCanon +:+ " on " +:+ network +:+
                             "; register it with `daxie nft add <0x>` or pass a 0x address"))
            end
        end
  end.

Definition ResolveNFT (network ref : string) : R ResolvedNFT :=
  let ref := TrimSpace ref in
  if bool_decide (ref = "")
  then mfail (New CodeUsageBadNFTRef "an NFT reference is required (an NFT alias or <collection>#<tokenId>)") else
  f <-- load io network ;;
  mlift (match split_byte 35 ref with
         | None => resolve_bare f network ref
         | Some (colPart, idPart) => resolve_pair f network colPart idPart
         end).

Definition ListNFTAliases (network : string) : R (list NFTAlias) :=
  f <-- load io network ;; mret (sort_slice (λ a b, String.ltb (na_Alias a) (na_Alias b)) (tf_NFTAliases f)).

Definition RemoveNFTAlias (network alias : string) : R unit :=
  canon <-- mlift (canonicalName alias) ;;
  withRegistryLock io
    (f <-- load io network ;;
     match remove_first (nft_aliased canon) (tf_NFTAliases f) with
     | None => mfail (New "ref.not_found" ("no NFT aliased " +:+ go_quote canon +:+ " on " +:+ network))
     | Some ns => save io network (with_nfts f ns)
     end).

(** ** The contract registry *)

Definition contracted (alias : string) (c : Contract) : bool := bool_decide (co_Alias c = alias).

Definition bad_abi (what : string) : error := New "usage.bad_abi" what.

Definition normalizeABI (raw : string) : res error json :=
  if bool_decide (TrimSpace raw = "")
  then Err (bad_abi "the contract ABI is empty (expected a canonical Solidity ABI JSON array)") else
  match json_parse raw with
  | Some (JArr []) | Some JNull => Err (bad_abi "the contract ABI is an empty array (no functions or events to bind)")
  | Some (JArr l) => Ok (JArr l)
  | _ => Err (bad_abi "the contract ABI is not a valid JSON array (expected a canonical Solidity ABI)")
  end.

Definition no_contract (canon network : string) : error :=
  New "ref.not_found" ("no contract aliased " +:+ go_quote canon +:+ " on " +:+ network).

Definition Contracts_Add (network alias : string) (address : Address) (abi : string) : R unit :=
  canon <-- mlift (canonicalName alias) ;;
  normABI <-- mlift (normalizeABI abi) ;;
  withRegistryLock io
    (f <-- load io network ;;
     if existsb (contracted canon) (tf_Contracts f)
     then mfail (duplicate ("a contract aliased " +:+ go_quote canon +:+ " already exists on " +:+ network +:+
                              "; remove it first or choose another alias with --name"))
     else save io network (with_contracts f (tf_Contracts f ++ [mkContract canon address normABI]))).

Definition sortContracts (cs : list Contract) : list Contract :=
  sort_slice (λ a b, String.ltb (co_Alias a) (co_Alias b)) cs.

Definition Contracts_List (network : string) : R (list Contract) :=
  f <-- load io network ;; mret (sortContracts (tf_Contracts f)).

Definition Contracts_Resolve (network alias : string) : R (option Contract) :=
  match canonicalName alias with
  | Err _ => mret None
  | Ok canon => f <-- load io network ;; mret (List.find (contracted canon) (tf_Contracts f))
  end.

Definition Contracts_Remove (network alias : string) : R unit :=
  canon <-- mlift (canonicalName alias) ;;
  withRegistryLock io
    (f <-- load io network ;;
     match remove_first (contracted canon) (tf_Contracts f) with
     | None => mfail (no_contract canon network)
     | Some cs => save io network (with_contracts f cs)
     end).
End NFTs.
