(* ===== verification/RegistryInv.v ===== *)
(** * The registry: its names and what every file satisfies

    A canonical name is a fixed point of [canonicalName]; a file reads back as
    it was written, up to invalid UTF-8; a file read back has distinct keys in
    every list. *)

From S2P Require Import Prelude GoStrings Decimal Encodings Json PolicyTypes PolicyBody PolicyBodyFacts Domain Trace Refs Registry RegistryNfts.

Local Open Scope string_scope.
Local Open Scope Z_scope.
Local Open Scope list_scope.
Local Open Scope go_scope.

(** ** Bytes *)

(** a byte of a name: no letter of upper case, no space, ASCII *)
Lemma name_char_plain c : name_char c = true → is_ascii_byte c = true ∧ is_space c = false ∧ lower_byte c = c.
Proof.
  intros H. unfold name_char, is_lower_alnum, is_digit in H. unfold is_ascii_byte, is_space, lower_byte, is_upper.
  pose proof (byteZ_range c). rewrite !orb_true_iff, !andb_true_iff, !Z.leb_le, !Z.eqb_eq in H. split_and!.
  - apply Z.ltb_lt. lia.
  - apply not_true_iff_false. rewrite !orb_true_iff, ?andb_true_iff, ?Z.eqb_eq, ?Z.leb_le. lia.
  - destruct (_ && _) eqn:E; [|done]. rewrite andb_true_iff, !Z.leb_le in E. lia.
Qed.

Lemma alnum_name c : is_lower_alnum c = true → name_char c = true.
Proof. intros H. unfold name_char. by rewrite H. Qed.

Lemma bad_char_none s : bad_char s = None ↔ string_forallb name_char s = true.
Proof.
  induction s as [|c s IH]; [done|]. cbn [bad_char string_forallb].
  destruct (name_char c); [by rewrite IH|]. done.
Qed.

Section Names.
Context {UT : UnicodeTables} {GC : GethCommon}.

(** the grammar of the registry *)
Definition canonical_name (s : string) : Prop :=
  (∃ c r, s = String c r ∧ is_lower_alnum c = true) ∧ string_forallb name_char s = true ∧
  (String.length s ≤ 64)%nat ∧ IsHexAddress s = false.

Lemma names_ascii s : string_forallb name_char s = true → is_ascii s = true.
Proof.
  induction s as [|c s IH]; [done|]. unfold is_ascii. cbn [string_forallb]. intros [Hc Hs]%andb_true_iff.
  destruct (name_char_plain c Hc) as (-> & _). by apply IH.
Qed.

Lemma names_lower s : string_forallb name_char s = true → ToLower s = s.
Proof.
  intros H. rewrite ToLower_ascii by (by apply names_ascii). induction s as [|c s IH]; [done|].
  cbn [string_forallb] in H. apply andb_true_iff in H as [Hc Hs]. destruct (name_char_plain c Hc) as (_ & _ & E).
  cbn [string_map]. by rewrite E, IH.
Qed.

(** trimming what has no space *)
Lemma trim_right_plain s : string_forallb name_char s = true → trim_right_rev (srev s) = s.
Proof.
  intros H. destruct (srev s) as [|c r] eqn:E.
  - rewrite <-(srev_involutive s), E. done.
  - assert (Hc : name_char c = true).
    { rewrite <-string_forallb_srev, E in H. cbn [string_forallb] in H. by apply andb_true_iff in H as [? _]. }
    destruct (name_char_plain c Hc) as (Ha & Hs & _). cbn [trim_right_rev]. rewrite Ha, Hs. cbn [negb].
    by rewrite <-E, srev_involutive.
Qed.

Lemma names_trim s : string_forallb name_char s = true → TrimSpace s = s.
Proof.
  intros H. destruct s as [|c s]; [done|]. pose proof H as H'. cbn [string_forallb] in H'.
  apply andb_true_iff in H' as [Hc _]. destruct (name_char_plain c Hc) as (Ha & Hs & _).
  cbn [TrimSpace]. rewrite Ha, Hs. cbn [negb]. by apply trim_right_plain.
Qed.

Lemma ToLower_empty s : ToLower s = "" → s = "".
Proof.
  destruct s as [|c s]; [done|]. unfold ToLower. destruct (is_ascii _); [done|]. by intros H%uni_to_lower_keeps.
Qed.

Lemma canonicalName_ok n c : canonicalName n = Ok c → canonical_name c.
Proof.
  unfold canonicalName. case_bool_decide as He; [done|].
  destruct (IsHexAddress (ToLower (TrimSpace n))) eqn:Hx; [done|].
  destruct (64 <? _)%nat eqn:Hl; [done|]. destruct (ToLower (TrimSpace n)) as [|b r] eqn:E.
  { by apply ToLower_empty in E. }
  destruct (is_lower_alnum b) eqn:Hb; [|done]. cbn [negb]. destruct (bad_char r) eqn:Hr; [done|]. intros [= <-].
  apply Nat.ltb_ge in Hl. split_and!; [by eauto| |done|done].
  cbn [string_forallb]. rewrite (alnum_name b Hb). by apply bad_char_none.
Qed.
Lemma canonicalName_fix c : canonical_name c → canonicalName c = Ok c.
Proof.
  intros ((b & r & -> & Hb) & Hall & Hlen & Hx). unfold canonicalName. rewrite (names_trim _ Hall).
  rewrite bool_decide_false by done. rewrite (names_lower _ Hall), Hx.
  destruct (Nat.ltb_spec 64 (String.length (String b r))); [lia|]. rewrite Hb. cbn [negb].
  cbn [string_forallb] in Hall. apply andb_true_iff in Hall as [_ Hall]. by apply bad_char_none in Hall as ->.
Qed.

Lemma canonical_coerce c : canonical_name c → coerce c = c.
Proof. intros (_ & H & _). apply valid_utf8_coerce, valid_utf8_ascii, names_ascii, H. Qed.
End Names.

(** ** Reading back *)

Section ReadBack.
Context {UT : UnicodeTables} {AJ : AddressJSON}.

(** what a record reads back as *)
Definition stored_contact (c : Contact) : Contact :=
  mkContact (coerce (ct_Name c)) (ct_Address c) (coerce (ct_ENS c)) (coerce (ct_PinnedAt c)).
Definition stored_token (t : Token) : Token :=
  mkToken (coerce (tk_Alias t)) (tk_Address t) (coerce (tk_Kind t)) (tk_Decimals t) (coerce (tk_Symbol t)).
Definition stored_collection (c : Collection) : Collection :=
  mkCollection (coerce (cl_Alias c)) (cl_Address c) (coerce (cl_Kind c)).
Definition stored_nft (a : NFTAlias) : NFTAlias :=
  mkNFTAlias (coerce (na_Alias a)) (coerce (na_Collection a)) (coerce (na_TokenID a)).
Definition stored_contract (c : Contract) : Contract := mkContract (coerce (co_Alias c)) (co_Address c) (co_ABI c).
Definition stored_tokens (f : tokensFile) : tokensFile :=
  mkTokens (tf_V f) (coerce (tf_Network f)) (map stored_token (tf_Tokens f)) (map stored_collection (tf_Collections f))
    (map stored_nft (tf_NFTAliases f)) (map stored_contract (tf_Contracts f)).

(** the widths of the fields: a [common.Address], a uint8 *)
Definition typed_token (t : Token) : Prop := valid_addr (tk_Address t) ∧ 0 ≤ tk_Decimals t < 2 ^ 8.

Lemma d_uint8_json cur n : 0 ≤ n < 2 ^ 8 → d_uint8 cur (j_int n) = Some n.
Proof.
  intros Hn. unfold d_uint8, j_int. rewrite SetString_z_string.
  assert (H : head_is 45 (z_string n) = None).
  { unfold z_string. destruct (Z.ltb_spec n 0); [lia|]. by apply valid_nat. }
  rewrite H. by destruct (Z.ltb_spec n (2 ^ 8)); [|lia].
Qed.

Lemma d_contact_json c : valid_addr (ct_Address c) → d_contact zero_contact (contact_json c) = Some (stored_contact c).
Proof.
  intros Ha. destruct c as [n a e p]. pose proof (address_unjson_json a Ha) as Hj.
  unfold d_contact, contact_json, stored_contact, d_struct. cbn [ct_Name ct_Address ct_ENS ct_PinnedAt app].
  do 2 read_member Hj. unfold j_opt. do 2 case_bool_decide; subst; cbn [app]; repeat (read_member I); reflexivity.
Qed.

Lemma d_token_json t : typed_token t → d_regtoken zero_regtoken (token_json t) = Some (stored_token t).
Proof.
  intros [Ha Hd]. destruct t as [al a k d s]. pose proof (address_unjson_json a Ha) as Hj.
  unfold d_regtoken, token_json, stored_token, d_struct. cbn [tk_Alias tk_Address tk_Kind tk_Decimals tk_Symbol].
  do 3 read_member Hj. erewrite d_member; [|reflexivity|exact (d_uint8_json _ d Hd)]. read_member I. reflexivity.
Qed.

Lemma d_collection_json c :
  valid_addr (cl_Address c) → d_collection zero_collection (collection_json c) = Some (stored_collection c).
Proof.
  intros Ha. destruct c as [al a k]. pose proof (address_unjson_json a Ha) as Hj.
  unfold d_collection, collection_json, d_struct. do 3 read_member Hj. reflexivity.
Qed.

Lemma d_nft_json a : d_nft zero_nft (nft_json a) = Some (stored_nft a).
Proof. destruct a. unfold d_nft, nft_json, d_struct. do 3 read_member I. reflexivity. Qed.

Lemma d_contract_json c :
  valid_addr (co_Address c) → d_regcontract zero_regcontract (contract_json c) = Some (stored_contract c).
Proof.
  intros Ha. destruct c as [al a k]. pose proof (address_unjson_json a Ha) as Hj.
  unfold d_regcontract, contract_json, d_struct. do 3 read_member Hj. reflexivity.
Qed.

Record typed_tokens (f : tokensFile) : Prop := {
  ty_tokens : ∀ t, t ∈ tf_Tokens f → typed_token t;
  ty_collections : ∀ c, c ∈ tf_Collections f → valid_addr (cl_Address c);
  ty_contracts : ∀ c, c ∈ tf_Contracts f → valid_addr (co_Address c);
}.

Lemma d_slice_json {A B} (zero : B) (d : D B) (tree : A → json) (g : A → B) l :
  (∀ x, x ∈ l → d zero (tree x) = Some (g x)) → d_slice zero d [] (JArr (map tree l)) = Some (map g l).
Proof. intros H. unfold d_slice. by apply d_elems_tree. Qed.

Lemma d_contacts_json cs :
  (∀ c, c ∈ cs → valid_addr (ct_Address c)) →
  d_contacts (mkContacts 0 []) (contacts_json (mkContacts contactsVersion cs)) =
  Some (mkContacts contactsVersion (map stored_contact cs)).
Proof.
  intros H. unfold d_contacts, contacts_json, d_struct. cbn [cf_V cf_Contacts].
  erewrite d_member; [|reflexivity|exact (d_int_tree _ contactsVersion ltac:(by split))].
  erewrite d_member; [|reflexivity|exact (d_slice_json zero_contact d_contact contact_json stored_contact cs (λ c Hc, d_contact_json c (H c Hc)))].
  reflexivity.
Qed.

Lemma d_tokens_json f :
  typed_tokens f → tf_V f = tokensVersion →
  d_tokens (mkTokens 0 "" [] [] [] []) (tokens_json f) = Some (stored_tokens f).
Proof.
  intros [Ht Hc Hk] HV. destruct f as [v n ts cs ns ks]. cbn [tf_V tf_Network tf_Tokens tf_Collections tf_NFTAliases tf_Contracts] in *. subst v.
  unfold d_tokens, tokens_json, d_struct, stored_tokens. cbn [tf_V tf_Network tf_Tokens tf_Collections tf_NFTAliases tf_Contracts].
  erewrite d_member; [|reflexivity|exact (d_int_tree _ tokensVersion ltac:(by split))]. read_member I.
  erewrite d_member; [|reflexivity|exact (d_slice_json zero_regtoken d_regtoken token_json stored_token ts (λ t H, d_token_json t (Ht t H)))].
  erewrite d_member; [|reflexivity|exact (d_slice_json zero_collection d_collection collection_json stored_collection cs (λ c H, d_collection_json c (Hc c H)))].
  erewrite d_member; [|reflexivity|exact (d_slice_json zero_nft d_nft nft_json stored_nft ns (λ a _, d_nft_json a))].
  erewrite d_member; [|reflexivity|exact (d_slice_json zero_regcontract d_regcontract contract_json stored_contract ks (λ c H, d_contract_json c (Hk c H)))].
  reflexivity.
Qed.
End ReadBack.

(** ** The registry: what every file satisfies

    The well-formedness of the two kinds of files, of a directory, and that a
    mutation of any store keeps it. *)

Local Open Scope string_scope.
Local Open Scope Z_scope.
Local Open Scope list_scope.
Local Open Scope go_scope.

(** ** Lists with a key *)

Section Keyed.
Context {A : Type}.
Implicit Types (p : A → bool) (l : list A).

Lemma remove_first_split p l l' :
  remove_first p l = Some l' → ∃ l1 x l2, l = l1 ++ x :: l2 ∧ l' = l1 ++ l2 ∧ p x = true ∧ ∀ y, y ∈ l1 → p y = false.
Proof.
  revert l'. induction l as [|x l IH]; intros l' H; [done|]. cbn [remove_first] in H. destruct (p x) eqn:Hp.
  - injection H as <-. exists [], x, l. split_and!; [done..|]. intros y Hy. by apply elem_of_nil in Hy.
  - destruct (remove_first p l) as [m|]; [|done]. injection H as <-.
    destruct (IH m eq_refl) as (l1 & y & l2 & -> & -> & Hy & Hn). exists (x :: l1), y, l2. split_and!; [done..|].
    intros z [-> | Hz]%elem_of_cons; [done|by apply Hn].
Qed.

Lemma find_index_split p l i :
  find_index p l = Some i → ∃ l1 x l2, l = l1 ++ x :: l2 ∧ length l1 = i ∧ p x = true ∧ ∀ y, y ∈ l1 → p y = false.
Proof.
  revert i. induction l as [|x l IH]; intros i H; [done|]. cbn [find_index] in H. destruct (p x) eqn:Hp.
  - injection H as <-. exists [], x, l. split_and!; [done..|]. intros y []%elem_of_nil.
  - destruct (find_index p l) as [m|]; [|done]. injection H as <-.
    destruct (IH m eq_refl) as (l1 & y & l2 & -> & <- & Hy & Hn). exists (x :: l1), y, l2. split_and!; [done..|].
    intros z [-> | Hz]%elem_of_cons; [done|by apply Hn].
Qed.

Lemma remove_first_none p l : remove_first p l = None → existsb p l = false.
Proof. induction l as [|x l IH]; [done|]. cbn. destruct (p x); [done|]. by destruct (remove_first p l); [|intros; apply IH]. Qed.

Lemma find_index_none p l : find_index p l = None → existsb p l = false.
Proof. induction l as [|x l IH]; [done|]. cbn. destruct (p x); [done|]. by destruct (find_index p l); [|intros; apply IH]. Qed.

Lemma zip_seq_app n l1 l2 :
  zip (seq n (length (l1 ++ l2))) (l1 ++ l2) =
  zip (seq n (length l1)) l1 ++ zip (seq (n + length l1) (length l2)) l2.
Proof.
  rewrite length_app, seq_app, zip_with_app by (by rewrite length_seq). done.
Qed.

Lemma exists_other_split p l1 x l2 :
  exists_other (length l1) p (l1 ++ x :: l2) = existsb p l1 || existsb p l2.
Proof.
  unfold exists_other. rewrite zip_seq_app, existsb_app. cbn [length seq zip zip_with existsb fst snd].
  rewrite Nat.add_0_l, Nat.eqb_refl. cbn [negb andb orb].
  assert (H : ∀ n m l, (m < n ∨ n + length l ≤ m)%nat →
    existsb (λ e : nat * A, negb (e.1 =? m)%nat && p e.2) (zip (seq n (length l)) l) = existsb p l).
  { intros n m l. revert n. induction l as [|y l IH]; intros n Hn; [done|]. cbn [length seq zip zip_with existsb fst snd] in *.
    destruct (Nat.eqb_spec n m); [lia|]. cbn [negb andb]. rewrite IH by lia. done. }
  rewrite (H 0%nat) by lia. rewrite (H (S (length l1))) by lia. done.
Qed.

Lemma find_none_iff p l : List.find p l = None ↔ existsb p l = false.
Proof. induction l as [|x l IH]; [done|]. cbn. by destruct (p x). Qed.

Lemma find_snoc p l x : existsb p l = false → List.find p (l ++ [x]) = if p x then Some x else None.
Proof. induction l as [|y l IH]; [done|]. cbn. by destruct (p y). Qed.

Lemma existsb_none p l : existsb p l = false ↔ ∀ x, x ∈ l → p x = false.
Proof.
  induction l as [|x l IH]; cbn [existsb].
  - split; [|done]. intros _ x Hx. by apply elem_of_nil in Hx.
  - rewrite orb_false_iff, IH. setoid_rewrite elem_of_cons. naive_solver.
Qed.
End Keyed.

(** elements told apart by a string *)
Section Key.
Context {A : Type} (key : A → string).

Definition has_key (k : string) (x : A) : bool := bool_decide (key x = k).

Lemma has_key_none k l : existsb (has_key k) l = false ↔ k ∉ map key l.
Proof.
  rewrite existsb_none. unfold has_key. rewrite list_elem_of_fmap. setoid_rewrite bool_decide_eq_false. naive_solver.
Qed.

Lemma key_snoc l x : NoDup (map key l) → existsb (has_key (key x)) l = false → NoDup (map key (l ++ [x])).
Proof.
  intros Hl Hx. rewrite map_app. apply NoDup_app. split; [done|]. split; [|apply NoDup_singleton].
  intros k Hk. cbn. rewrite list_elem_of_singleton. intros ->. by apply has_key_none in Hx.
Qed.

Lemma key_replace l1 x y l2 :
  NoDup (map key (l1 ++ x :: l2)) → key y ∉ map key (l1 ++ l2) → NoDup (map key (l1 ++ y :: l2)).
Proof.
  rewrite !map_app. cbn [map]. intros (N1 & N2 & [N3 N4]%NoDup_cons)%NoDup_app [K1 K2]%not_elem_of_app.
  apply NoDup_app. split_and!; [done| |by constructor].
  intros k Hk [-> | Hk']%elem_of_cons; [done|]. apply (N2 k Hk). by right.
Qed.

Lemma find_key_unique l x : NoDup (map key l) → x ∈ l → List.find (has_key (key x)) l = Some x.
Proof.
  induction l as [|y l IH]; intros Hnd Hx; [by apply elem_of_nil in Hx|]. cbn [map] in Hnd. apply NoDup_cons in Hnd as [Hy Hnd].
  cbn [List.find]. unfold has_key at 1. case_bool_decide as E.
  - apply elem_of_cons in Hx as [-> | Hx]; [done|]. exfalso. apply Hy. rewrite E. by apply list_elem_of_fmap_2.
  - apply elem_of_cons in Hx as [-> | Hx]; [done|]. by apply IH.
Qed.

Lemma key_remove l l' p : NoDup (map key l) → remove_first p l = Some l' → NoDup (map key l').
Proof.
  intros Hl (l1 & x & l2 & -> & -> & _)%remove_first_split. rewrite map_app in *. cbn in Hl.
  apply NoDup_app in Hl as (H1 & H2 & H3). apply NoDup_cons in H3 as [H3 H4].
  apply NoDup_app. split_and!; [done| |done]. intros k Hk Hk'. apply (H2 k Hk). by right.
Qed.

End Key.

Lemma remove_sub {A} {P : A → Prop} (l l' : list A) p : (∀ x, x ∈ l → P x) → remove_first p l = Some l' → ∀ x, x ∈ l' → P x.
Proof.
  intros Hl (l1 & x & l2 & -> & -> & _)%remove_first_split y Hy. apply Hl. set_solver.
Qed.


Lemma forall_snoc {A} (P : A → Prop) l x : (∀ y, y ∈ l → P y) → P x → ∀ y, y ∈ l ++ [x] → P y.
Proof. intros Hl Hx y [Hy | ->%list_elem_of_singleton]%elem_of_app; [by apply Hl|done]. Qed.

(** ** Well-formed files *)

Section Inv.
Context {UT : UnicodeTables} {GC : GethCommon} {AJ : AddressJSON} {SS : SortSlice}.
Implicit Types (d : Dir) (f : tokensFile) (network : string).

Definition good_contact (c : Contact) : Prop := canonical_name (ct_Name c) ∧ valid_addr (ct_Address c).

Definition wf_contacts (cs : list Contact) : Prop := (∀ c, c ∈ cs → good_contact c) ∧ NoDup (map ct_Name cs).

Definition good_token network (t : Token) : Prop :=
  canonical_name (tk_Alias t) ∧ typed_token t ∧ bundledLookup network (tk_Alias t) = None.
Definition good_collection (c : Collection) : Prop :=
  canonical_name (cl_Alias c) ∧ valid_addr (cl_Address c) ∧ (cl_Kind c = KindERC721 ∨ cl_Kind c = KindERC1155).
Definition good_nft (a : NFTAlias) : Prop :=
  canonical_name (na_Alias a) ∧ canonical_name (na_Collection a) ∧ ∃ n, 0 ≤ n ∧ na_TokenID a = z_string n.
Definition good_contract (c : Contract) : Prop :=
  canonical_name (co_Alias c) ∧ valid_addr (co_Address c) ∧ ∃ j l, co_ABI c = JArr (j :: l).

Record wf_tokens network f : Prop := {
  wt_tokens : ∀ t, t ∈ tf_Tokens f → good_token network t;
  wt_tokens_nodup : NoDup (map tk_Alias (tf_Tokens f));
  wt_collections : ∀ c, c ∈ tf_Collections f → good_collection c;
  wt_collections_nodup : NoDup (map cl_Alias (tf_Collections f));
  wt_nfts : ∀ a, a ∈ tf_NFTAliases f → good_nft a;
  wt_nfts_nodup : NoDup (map na_Alias (tf_NFTAliases f));
  wt_contracts : ∀ c, c ∈ tf_Contracts f → good_contract c;
  wt_contracts_nodup : NoDup (map co_Alias (tf_Contracts f));
}.

Lemma wf_empty network : wf_tokens network (mkTokens tokensVersion network [] [] [] []).
Proof. split; cbn; (by constructor) || (intros ? H; by apply elem_of_nil in H). Qed.

Lemma wf_typed network f : wf_tokens network f → typed_tokens f.
Proof.
  intros H. split; intros x Hx.
  - by apply (wt_tokens _ _ H) in Hx as (_ & Ht & _).
  - by apply (wt_collections _ _ H) in Hx as (_ & Ht & _).
  - by apply (wt_contracts _ _ H) in Hx as (_ & Ht & _).
Qed.

(** *** What is read back is well formed *)

Lemma map_stored {A} (key : A → string) (st : A → A) l :
  (∀ x, x ∈ l → key (st x) = key x) → map key (map st l) = map key l.
Proof. intros H. rewrite map_map. apply map_ext_in. intros x Hx. apply H, list_elem_of_In, Hx. Qed.

Lemma stored_all {A} (P : A → Prop) (st : A → A) l : (∀ x, x ∈ l → P x) → (∀ x, P x → P (st x)) → ∀ x, x ∈ map st l → P x.
Proof. intros Hl Hst x (y & -> & Hy)%list_elem_of_fmap. by apply Hst, Hl. Qed.

Lemma z_string_utf8 n : coerce (z_string n) = z_string n.
Proof. apply valid_utf8_coerce, valid_utf8_ascii, num_char_ascii, valid_z. Qed.

Lemma stored_good_token network t : good_token network t → good_token network (stored_token t).
Proof. intros (Hn & Ht & Hb). unfold good_token, stored_token, typed_token in *. cbn. by rewrite (canonical_coerce _ Hn). Qed.
Lemma stored_good_collection c : good_collection c → good_collection (stored_collection c).
Proof.
  intros (Hn & Ht & Hk). unfold good_collection, stored_collection in *. cbn. rewrite (canonical_coerce _ Hn).
  split_and!; [done..|]. by destruct Hk as [-> | ->]; [left|right].
Qed.
Lemma stored_good_nft a : good_nft a → good_nft (stored_nft a).
Proof.
  intros (Hn & Hc & n & Hp & Hid). unfold good_nft, stored_nft in *. cbn. rewrite !canonical_coerce by done.
  split_and!; [done..|]. exists n. by rewrite Hid, z_string_utf8.
Qed.
Lemma stored_good_contract c : good_contract c → good_contract (stored_contract c).
Proof. intros (Hn & Ht & Hk). unfold good_contract, stored_contract in *. cbn. by rewrite (canonical_coerce _ Hn). Qed.
Lemma stored_good_contact c : good_contact c → good_contact (stored_contact c).
Proof. intros (Hn & Ht). unfold good_contact, stored_contact in *. cbn. by rewrite (canonical_coerce _ Hn). Qed.

Lemma wf_stored network f : wf_tokens network f → wf_tokens network (stored_tokens f).
Proof.
  intros [H1 H2 H3 H4 H5 H6 H7 H8]. unfold stored_tokens. split; cbn [tf_Tokens tf_Collections tf_NFTAliases tf_Contracts].
  - eapply stored_all; [exact H1|]. apply stored_good_token.
  - rewrite (map_stored tk_Alias); [done|]. intros t (Hn & _)%H1. by apply canonical_coerce.
  - eapply stored_all; [exact H3|]. apply stored_good_collection.
  - rewrite (map_stored cl_Alias); [done|]. intros t (Hn & _)%H3. by apply canonical_coerce.
  - eapply stored_all; [exact H5|]. apply stored_good_nft.
  - rewrite (map_stored na_Alias); [done|]. intros t (Hn & _)%H5. by apply canonical_coerce.
  - eapply stored_all; [exact H7|]. apply stored_good_contract.
  - rewrite (map_stored co_Alias); [done|]. intros t (Hn & _)%H7. by apply canonical_coerce.
Qed.

(** *** Well-formed directories *)

Definition tokens_at d network : option tokensFile :=
  match d !! path network with
  | None => Some (mkTokens tokensVersion network [] [] [] [])
  | Some None => None
  | Some (Some j) => d_tokens (mkTokens 0 "" [] [] [] []) j
  end.

Definition contacts_at d : option contactsFile :=
  match d !! contactsPath with
  | None => Some (mkContacts contactsVersion [])
  | Some None => None
  | Some (Some j) => d_contacts (mkContacts 0 []) j
  end.

(** the lists survive a further write *)
Definition stable f : Prop :=
  map stored_token (tf_Tokens f) = tf_Tokens f ∧ map stored_collection (tf_Collections f) = tf_Collections f ∧
  map stored_nft (tf_NFTAliases f) = tf_NFTAliases f ∧ map stored_contract (tf_Contracts f) = tf_Contracts f.

Definition reserved_network := "contacts".

Record wf_dir d : Prop := {
  wd_tokens : ∀ network, network ≠ reserved_network →
    ∃ f, tokens_at d network = Some f ∧ tf_V f = tokensVersion ∧ stable f ∧ wf_tokens network f;
  wd_contacts : ∃ cs, contacts_at d = Some (mkContacts contactsVersion cs) ∧ map stored_contact cs = cs ∧ wf_contacts cs;
  wd_book : d !! contactsPath = None ∨
    ∃ cs, d !! contactsPath = Some (Some (contacts_json (mkContacts contactsVersion cs)));
}.

Lemma stored_stable f : stable (stored_tokens f).
Proof.
  unfold stable, stored_tokens. cbn [tf_Tokens tf_Collections tf_NFTAliases tf_Contracts]. rewrite !map_map.
  split_and!; apply map_ext.
  - intros []. unfold stored_token. cbn. by rewrite !coerce_idemp.
  - intros []. unfold stored_collection. cbn. by rewrite !coerce_idemp.
  - intros []. unfold stored_nft. cbn. by rewrite !coerce_idemp.
  - intros []. unfold stored_contract. cbn. by rewrite !coerce_idemp.
Qed.

Lemma stored_contacts_idemp cs : map stored_contact (map stored_contact cs) = map stored_contact cs.
Proof. rewrite map_map. apply map_ext. intros []. unfold stored_contact. cbn. by rewrite !coerce_idemp. Qed.

Lemma wf_dir_empty : wf_dir ∅.
Proof.
  split.
  - intros network _. eexists. unfold tokens_at. rewrite lookup_empty. split; [reflexivity|]. split; [done|]. split; [done|apply wf_empty].
  - exists []. unfold contacts_at. rewrite lookup_empty. split; [done|]. split; [done|]. split; [|constructor].
    intros ? H. by apply elem_of_nil in H.
  - left. apply lookup_empty.
Qed.

Lemma path_inj n m : path n = path m → n = m.
Proof.
  unfold path. revert m. induction n as [|c n IH]; intros [|b m] H; [done|..].
  - exfalso. apply (f_equal String.length) in H. rewrite !string_length_app in H. cbn in H. lia.
  - exfalso. apply (f_equal String.length) in H. rewrite !string_length_app in H. cbn in H. lia.
  - rewrite !string_app_cons in H. injection H as -> H. by rewrite (IH m H).
Qed.

Lemma path_contacts network : path network = contactsPath ↔ network = reserved_network.
Proof. split; [intros H; by apply (path_inj network reserved_network)|by intros ->]. Qed.

Lemma wf_write_tokens d network f :
  wf_dir d → network ≠ reserved_network → tf_V f = tokensVersion → wf_tokens network f →
  wf_dir (<[path network := Some (tokens_json f)]> d) ∧
  tokens_at (<[path network := Some (tokens_json f)]> d) network = Some (stored_tokens f).
Proof.
  intros [Ht Hc Hb] Hn HV Hf.
  assert (E : tokens_at (<[path network := Some (tokens_json f)]> d) network = Some (stored_tokens f)).
  { unfold tokens_at. rewrite lookup_insert_eq. apply d_tokens_json; [by eapply wf_typed|done]. }
  split; [|done]. split.
  - intros m Hm. destruct (decide (m = network)) as [-> | Hne].
    + exists (stored_tokens f). split; [exact E|]. split; [exact HV|]. split; [apply stored_stable|by apply wf_stored].
    + unfold tokens_at. rewrite lookup_insert_ne by (intros H; by apply path_inj in H). by apply Ht.
  - unfold contacts_at. rewrite lookup_insert_ne by (intros H; by apply path_contacts in H). exact Hc.
  - rewrite lookup_insert_ne by (intros H; by apply path_contacts in H). exact Hb.
Qed.

Lemma wf_write_contacts d cs :
  wf_dir d → wf_contacts cs →
  wf_dir (<[contactsPath := Some (contacts_json (mkContacts contactsVersion cs))]> d) ∧
  contacts_at (<[contactsPath := Some (contacts_json (mkContacts contactsVersion cs))]> d) =
    Some (mkContacts contactsVersion (map stored_contact cs)).
Proof.
  intros [Ht Hc Hb] [Hg Hnd].
  assert (E : contacts_at (<[contactsPath := Some (contacts_json (mkContacts contactsVersion cs))]> d) =
              Some (mkContacts contactsVersion (map stored_contact cs))).
  { unfold contacts_at. rewrite lookup_insert_eq. apply d_contacts_json. intros c Hin. by apply Hg in Hin as [_ ?]. }
  split; [|done]. split.
  - intros m Hm. unfold tokens_at. rewrite lookup_insert_ne by (intros H; symmetry in H; by apply path_contacts in H). by apply Ht.
  - exists (map stored_contact cs). split; [exact E|]. split; [apply stored_contacts_idemp|]. split.
    + eapply stored_all; [exact Hg|]. apply stored_good_contact.
    + rewrite (map_stored ct_Name); [done|]. intros c (Hn & _)%Hg. by apply canonical_coerce.
  - right. exists cs. apply lookup_insert_eq.
Qed.
End Inv.
