(* ===== verification/RegistrySpec.v ===== *)
(** * Properties of the registry

    A mutation is a load, a test and one write under the lock (made or not, when
    it reports an error), so every
    reachable directory is well formed; the token registry is a finite map that
    no entry of a compiled-in token can enter; an alias of an NFT follows the
    name of its collection, not the contract; and a network may take the name
    of the address book. *)

From S2P Require Import Prelude GoStrings Decimal Encodings Json PolicyTypes PolicyBody PolicyBodyFacts Domain Trace Samples Refs Registry RegistryNfts RegistryInv.

(** ** Properties of the registry

    A mutation is a load, a test and one write under the lock, so every
    reachable directory is well formed; the token registry is a finite map that
    no entry of a compiled-in token can enter. *)

Local Open Scope string_scope.
Local Open Scope Z_scope.
Local Open Scope list_scope.
Local Open Scope go_scope.

Section Runs.
Context {UT : UnicodeTables} {GC : GethCommon} {AJ : AddressJSON} {SS : SortSlice}.
Implicit Types (io : RegistryIO) (d : Dir) (f : tokensFile) (network : string).

(** ** Steps *)

Lemma load_at io network d f tr :
  load io network d = (Ok f, tr) → tr = [] ∧ tokens_at d network = Some f.
Proof.
  unfold load, load_file, tokens_at. intros H. apply mbind_ok in H as (dir & t1 & t2 & H1 & H & ->).
  apply mget_ok in H1 as [-> ->]. cbn [after List.last app] in *. destruct (ro_read io); [discriminate H|].
  destruct (d !! path network) as [[j|]|]; [|discriminate H|].
  - destruct (d_tokens _ j) as [g|]; [|discriminate H]. destruct (_ <? _); [discriminate H|].
    apply mret_ok in H as [-> ->]. done.
  - apply mret_ok in H as [-> ->]. done.
Qed.

Lemma loadContacts_at io d b tr :
  loadContacts io d = (Ok b, tr) → tr = [] ∧ contacts_at d = Some b.
Proof.
  unfold loadContacts, load_file, contacts_at. intros H. apply mbind_ok in H as (dir & t1 & t2 & H1 & H & ->).
  apply mget_ok in H1 as [-> ->]. cbn [after List.last app] in *. destruct (ro_read io); [discriminate H|].
  destruct (d !! contactsPath) as [[j|]|]; [|discriminate H|].
  - destruct (d_contacts _ j) as [g|]; [|discriminate H]. destruct (_ <? _); [discriminate H|].
    apply mret_ok in H as [-> ->]. done.
  - apply mret_ok in H as [-> ->]. done.
Qed.

(** a file of this version loads whenever it can be read *)
Lemma load_good io network d f :
  ro_read io = false → tokens_at d network = Some f → tf_V f = tokensVersion → load io network d = (Ok f, []).
Proof.
  unfold load, load_file, tokens_at. intros Hr H HV. rewrite (mbind_read _ _ d d) by apply mget_run. rewrite Hr.
  destruct (d !! path network) as [[j|]|]; [|done|by injection H as <-].
  rewrite H, HV. done.
Qed.

Lemma reads_load io network : reads_only (load io network).
Proof.
  apply reads_only_bind; [apply reads_mget|]. intros d. destruct (ro_read io); [apply reads_mfail|].
  destruct (d !! path network) as [[j|]|]; [|apply reads_mfail|apply reads_mret].
  destruct (d_tokens _ j); [|apply reads_mfail]. destruct (_ <? _); [apply reads_mfail|apply reads_mret].
Qed.

Lemma reads_loadContacts io : reads_only (loadContacts io).
Proof.
  apply reads_only_bind; [apply reads_mget|]. intros d. destruct (ro_read io); [apply reads_mfail|].
  destruct (d !! contactsPath) as [[j|]|]; [|apply reads_mfail|apply reads_mret].
  destruct (d_contacts _ j); [|apply reads_mfail]. destruct (_ <? _); [apply reads_mfail|apply reads_mret].
Qed.

Lemma lock_cases {A} io (fn : R A) d :
  (∃ e, withRegistryLock io fn d = (Err e, [])) ∨ withRegistryLock io fn d = fn d.
Proof.
  unfold withRegistryLock. destruct (ro_mkdir_locks io) as [[]|]; [left; by eexists..|].
  destruct (ro_lock io) as [[]|]; [left; by eexists..|by right].
Qed.

Lemma save_file_cases io name j text d :
  (∃ e, save_file io name j text d = (Err e, [])) ∨ (∃ r, save_file io name j text d = (r, [<[name := Some j]> d])).
Proof.
  unfold save_file. destruct (ro_mkdir io) as [[]|]; [left; by eexists..|].
  destruct (ro_write io) as [[e []]|]; [right; by eexists|left; by eexists|right; by eexists].
Qed.

Lemma save_file_ok io name j text d tr : save_file io name j text d = (Ok tt, tr) → tr = [<[name := Some j]> d].
Proof.
  intros H. destruct (save_file_cases io name j text d) as [[e E]|[r E]]; rewrite E in H; [discriminate H|by injection H as _ <-].
Qed.

(** ** Mutations *)

(** every state an action goes through is well formed *)
Definition keeps (m : R unit) : Prop := ∀ d d', wf_dir d → d' ∈ (m d).2 → wf_dir d'.

Lemma kept_fail e : keeps (mfail e).
Proof. intros d d' _ []%elem_of_nil. Qed.

Lemma kept_lift {A} (r : res error A) (k : A → R unit) : (∀ a, r = Ok a → keeps (k a)) → keeps (mbind (mlift r) k).
Proof.
  intros H d d' Hd Hin. destruct r as [a|e]; [|by apply elem_of_nil in Hin].
  rewrite (mbind_read _ _ d a) in Hin by done. by eapply H.
Qed.

Lemma keeps_lock io fn : keeps fn → keeps (withRegistryLock io fn).
Proof.
  intros H d d' Hd Hin. destruct (lock_cases io fn d) as [[e E]|E]; rewrite E in Hin; [by apply elem_of_nil in Hin|].
  by eapply H.
Qed.

(** what [save] writes *)
Definition stamped network f : tokensFile :=
  mkTokens tokensVersion network (tf_Tokens f) (tf_Collections f) (tf_NFTAliases f) (tf_Contracts f).

Lemma wf_stamped network f : wf_tokens network f → wf_tokens network (stamped network f).
Proof. by intros []. Qed.

(** a load, a test, and a save of a well-formed file *)
Lemma keeps_tokens io network (k : tokensFile → R unit) :
  network ≠ reserved_network →
  (∀ f d d', wf_tokens network f → d' ∈ (k f d).2 →
     ∃ f', wf_tokens network f' ∧ d' ∈ (save io network f' d).2) →
  keeps (mbind (load io network) k).
Proof.
  intros Hn Hk d d' Hd Hin. apply mbind_trace_read in Hin as (f & Hl & Hin); [|apply reads_load].
  apply load_at in Hl as [_ Hat]. destruct (wd_tokens _ Hd network Hn) as (g & Hg & _ & _ & Hwf).
  rewrite Hat in Hg. injection Hg as <-. destruct (Hk f d d' Hwf Hin) as (f' & Hwf' & Hs).
  unfold save in Hs. fold (stamped network f') in Hs.
  destruct (save_file_cases io (path network) (tokens_json (stamped network f')) "cannot write the token registry file" d)
    as [[e E]|[r E]]; rewrite E in Hs; [by apply elem_of_nil in Hs|]. apply list_elem_of_singleton in Hs as ->.
  by apply wf_write_tokens, wf_stamped.
Qed.

Lemma keeps_contacts io (k : contactsFile → R unit) :
  (∀ cs d d', wf_contacts cs → d' ∈ (k (mkContacts contactsVersion cs) d).2 →
     ∃ v cs', wf_contacts cs' ∧ d' ∈ (saveContacts io (mkContacts v cs') d).2) →
  keeps (mbind (loadContacts io) k).
Proof.
  intros Hk d d' Hd Hin. apply mbind_trace_read in Hin as (f & Hl & Hin); [|apply reads_loadContacts].
  apply loadContacts_at in Hl as [_ Hat]. destruct (wd_contacts _ Hd) as (cs & Hg & _ & Hwf).
  rewrite Hat in Hg. injection Hg as ->. destruct (Hk cs d d' Hwf Hin) as (v & cs' & Hwf' & Hs).
  unfold saveContacts in Hs. cbn [cf_Contacts] in Hs.
  destruct (save_file_cases io contactsPath (contacts_json (mkContacts contactsVersion cs')) "cannot write the contacts file" d)
    as [[e E]|[r E]]; rewrite E in Hs; [by apply elem_of_nil in Hs|]. apply list_elem_of_singleton in Hs as ->.
  by apply wf_write_contacts.
Qed.
(** a refusal writes nothing; otherwise the goal is about the saved file *)
Ltac settle Hin := first [by apply elem_of_nil in Hin | eexists; split; [|exact Hin]].

(** the lists of a file after a change of its tokens *)
Ltac same_lists := cbn [with_tokens tf_Tokens tf_Collections tf_NFTAliases tf_Contracts]; try done.

Lemma wf_add network f t :
  wf_tokens network f → good_token network t → existsb (aliased (tk_Alias t)) (tf_Tokens f) = false →
  wf_tokens network (with_tokens f (tf_Tokens f ++ [t])).
Proof.
  intros [H1 H2 H3 H4 H5 H6 H7 H8] Ht He. split; same_lists; [by apply forall_snoc|by apply (key_snoc tk_Alias)].
Qed.

Lemma wf_remove network f p ts :
  wf_tokens network f → remove_first p (tf_Tokens f) = Some ts → wf_tokens network (with_tokens f ts).
Proof.
  intros [H1 H2 H3 H4 H5 H6 H7 H8] Hr. split; same_lists.
  - exact (remove_sub _ _ _ H1 Hr).
  - exact (key_remove tk_Alias _ _ _ H2 Hr).
Qed.

Lemma wf_replace network f l1 x y l2 :
  wf_tokens network f → tf_Tokens f = l1 ++ x :: l2 → good_token network y → tk_Alias y ∉ map tk_Alias (l1 ++ l2) →
  wf_tokens network (with_tokens f (l1 ++ y :: l2)).
Proof.
  intros [H1 H2 H3 H4 H5 H6 H7 H8] Hl Hy Hn. rewrite Hl in *. split; same_lists; [|by eapply (key_replace tk_Alias)].
  intros t [Ht | [-> | Ht]%elem_of_cons]%elem_of_app; [apply H1; set_solver|done|apply H1; set_solver].
Qed.

(** the tests of a rename *)
Lemma rename_split f oc nc i :
  find_index (aliased oc) (tf_Tokens f) = Some i → exists_other i (aliased nc) (tf_Tokens f) = false →
  ∃ l1 x l2, tf_Tokens f = l1 ++ x :: l2 ∧ tk_Alias x = oc ∧ nc ∉ map tk_Alias (l1 ++ l2) ∧
    alter (rename_token nc) i (tf_Tokens f) = l1 ++ rename_token nc x :: l2.
Proof.
  intros (l1 & x & l2 & Hl & <- & Hx & _)%find_index_split He. rewrite Hl, exists_other_split in He.
  apply orb_false_iff in He as [He1 He2]. apply (has_key_none tk_Alias) in He1, He2. apply bool_decide_eq_true in Hx.
  exists l1, x, l2. split_and!; [done|done|rewrite map_app, elem_of_app; tauto|].
  rewrite Hl, alter_app_r_alt, Nat.sub_diag by done. done.
Qed.

Lemma keeps_add network io tok : network ≠ reserved_network → typed_token tok → keeps (Tokens_Add io network tok).
Proof.
  intros Hn Ht. apply kept_lift. intros canon Hc%canonicalName_ok. apply keeps_lock, keeps_tokens; [done|].
  intros f d d' Hf Hin. destruct (bundledLookup network canon) eqn:Hb; [settle Hin|].
  destruct (existsb (aliased canon) (tf_Tokens f)) eqn:He; [settle Hin|]. settle Hin. by apply wf_add.
Qed.

Lemma keeps_rename network io old new : network ≠ reserved_network → keeps (Tokens_Rename io network old new).
Proof.
  intros Hn. apply kept_lift. intros oc _. apply kept_lift. intros nc Hc%canonicalName_ok.
  apply keeps_lock, keeps_tokens; [done|]. intros f d d' Hf Hin.
  destruct (bundledLookup network oc); [settle Hin|]. destruct (find_index _ _) as [i|] eqn:Hi; [|settle Hin].
  destruct (bundledLookup network nc) eqn:Hb; [settle Hin|]. destruct (exists_other _ _ _) eqn:He; [settle Hin|]. settle Hin.
  destruct (rename_split f oc nc i Hi He) as (l1 & x & l2 & Hl & _ & Hfree & ->). apply (wf_replace _ _ _ x); [done..| |done].
  destruct (wt_tokens _ _ Hf x) as (_ & Hty & _); [rewrite Hl; set_solver|]. by split.
Qed.

Lemma keeps_remove network io alias : network ≠ reserved_network → keeps (Tokens_Remove io network alias).
Proof.
  intros Hn. apply kept_lift. intros c _. apply keeps_lock, keeps_tokens; [done|]. intros f d d' Hf Hin.
  destruct (remove_first _ _) as [ts|] eqn:Hr; [|destruct (bundledLookup network c); settle Hin]. settle Hin.
  by eapply wf_remove.
Qed.

Lemma keeps_collection_add network io col :
  network ≠ reserved_network → valid_addr (cl_Address col) → keeps (AddCollection io network col).
Proof.
  intros Hn Ha. apply kept_lift. intros canon Hc%canonicalName_ok. cbn [cl_Kind].
  destruct (_ && _) eqn:Hk; [apply kept_fail|]. apply keeps_lock, keeps_tokens; [done|]. intros f d d' Hf Hin.
  destruct (existsb (collected canon) (tf_Collections f)) eqn:He; [settle Hin|]. settle Hin.
  destruct Hf as [H1 H2 H3 H4 H5 H6 H7 H8]. split; cbn [with_collections tf_Tokens tf_Collections tf_NFTAliases tf_Contracts]; try done.
  - apply forall_snoc; [done|]. split_and!; [done..|]. cbn [cl_Kind].
    rewrite <-negb_orb, negb_false_iff, orb_true_iff, !bool_decide_eq_true in Hk. exact Hk.
  - by apply (key_snoc cl_Alias).
Qed.

Lemma keeps_collection_remove network io alias : network ≠ reserved_network → keeps (RemoveCollection io network alias).
Proof.
  intros Hn. apply kept_lift. intros c _. apply keeps_lock, keeps_tokens; [done|]. intros f d d' Hf Hin.
  destruct (remove_first _ _) as [ts|] eqn:Hr; [|settle Hin]. settle Hin.
  destruct Hf as [H1 H2 H3 H4 H5 H6 H7 H8]. split; cbn [with_collections tf_Tokens tf_Collections tf_NFTAliases tf_Contracts]; try done.
  - exact (remove_sub _ _ _ H3 Hr).
  - exact (key_remove cl_Alias _ _ _ H4 Hr).
Qed.

Lemma normalizeTokenID_ok s id : normalizeTokenID s = Some id → ∃ n, 0 ≤ n ∧ id = z_string n.
Proof.
  unfold normalizeTokenID. case_bool_decide; [done|]. destruct (SetString _ _) as [v|]; [|done].
  destruct (Z.ltb_spec v 0); [done|]. intros [= <-]. by exists v.
Qed.

Lemma keeps_nft_alias network io alias col id : network ≠ reserved_network → keeps (AliasNFT io network alias col id).
Proof.
  intros Hn. apply kept_lift. intros canon Hc%canonicalName_ok. apply kept_lift. intros cc Hcc%canonicalName_ok.
  destruct (normalizeTokenID id) as [v|] eqn:Hid; [|apply kept_fail]. apply keeps_lock, keeps_tokens; [done|].
  intros f d d' Hf Hin. destruct (negb _); [settle Hin|].
  destruct (existsb (nft_aliased canon) (tf_NFTAliases f)) eqn:He; [settle Hin|]. settle Hin.
  destruct Hf as [H1 H2 H3 H4 H5 H6 H7 H8]. split; cbn [with_nfts tf_Tokens tf_Collections tf_NFTAliases tf_Contracts]; try done.
  - apply forall_snoc; [done|]. split_and!; [done..|]. by eapply normalizeTokenID_ok.
  - by apply (key_snoc na_Alias).
Qed.

Lemma keeps_nft_remove network io alias : network ≠ reserved_network → keeps (RemoveNFTAlias io network alias).
Proof.
  intros Hn. apply kept_lift. intros c _. apply keeps_lock, keeps_tokens; [done|]. intros f d d' Hf Hin.
  destruct (remove_first _ _) as [ts|] eqn:Hr; [|settle Hin]. settle Hin.
  destruct Hf as [H1 H2 H3 H4 H5 H6 H7 H8]. split; cbn [with_nfts tf_Tokens tf_Collections tf_NFTAliases tf_Contracts]; try done.
  - exact (remove_sub _ _ _ H5 Hr).
  - exact (key_remove na_Alias _ _ _ H6 Hr).
Qed.

Lemma normalizeABI_ok raw abi : normalizeABI raw = Ok abi → ∃ j l, abi = JArr (j :: l).
Proof.
  unfold normalizeABI. case_bool_decide; [done|]. destruct (json_parse raw) as [[| | | |[|j l]|]|]; try done.
  intros [= <-]. by exists j, l.
Qed.

Lemma keeps_contract_add network io alias a abi :
  network ≠ reserved_network → valid_addr a → keeps (Contracts_Add io network alias a abi).
Proof.
  intros Hn Ha. apply kept_lift. intros canon Hc%canonicalName_ok. apply kept_lift. intros v Hv%normalizeABI_ok.
  apply keeps_lock, keeps_tokens; [done|]. intros f d d' Hf Hin.
  destruct (existsb (contracted canon) (tf_Contracts f)) eqn:He; [settle Hin|]. settle Hin.
  destruct Hf as [H1 H2 H3 H4 H5 H6 H7 H8]. split; cbn [with_contracts tf_Tokens tf_Collections tf_NFTAliases tf_Contracts]; try done.
  - apply forall_snoc; [done|]. by split.
  - by apply (key_snoc co_Alias).
Qed.

Lemma keeps_contract_remove network io alias : network ≠ reserved_network → keeps (Contracts_Remove io network alias).
Proof.
  intros Hn. apply kept_lift. intros c _. apply keeps_lock, keeps_tokens; [done|]. intros f d d' Hf Hin.
  destruct (remove_first _ _) as [ts|] eqn:Hr; [|settle Hin]. settle Hin.
  destruct Hf as [H1 H2 H3 H4 H5 H6 H7 H8]. split; cbn [with_contracts tf_Tokens tf_Collections tf_NFTAliases tf_Contracts]; try done.
  - exact (remove_sub _ _ _ H7 Hr).
  - exact (key_remove co_Alias _ _ _ H8 Hr).
Qed.

Lemma keeps_contact_add io name a ens pinned : valid_addr a → keeps (Contacts_add io name a ens pinned).
Proof.
  intros Ha. apply kept_lift. intros canon Hc%canonicalName_ok. apply keeps_lock, keeps_contacts.
  intros cs d d' [H1 H2] Hin. cbn [cf_Contacts] in Hin.
  destruct (existsb (named canon) cs) eqn:He; [by apply elem_of_nil in Hin|]. eexists _, _. split; [|exact Hin]. split.
  - apply forall_snoc; [done|]. by split.
  - by apply (key_snoc ct_Name).
Qed.

Lemma keeps_contact_remove io name : keeps (Contacts_Remove io name).
Proof.
  apply kept_lift. intros canon _. apply keeps_lock, keeps_contacts. intros cs d d' [H1 H2] Hin. cbn [cf_Contacts] in Hin.
  destruct (remove_first _ _) as [l|] eqn:Hr; [|by apply elem_of_nil in Hin]. eexists _, _. split; [|exact Hin]. split.
  - exact (remove_sub _ _ _ H1 Hr).
  - exact (key_remove ct_Name _ _ _ H2 Hr).
Qed.
End Runs.

(** ** What the registry promises

    Reachable directories, the token registry as a finite map, and the two
    places where a name is taken for a thing: the alias of an NFT and the file of
    a network. *)

Local Open Scope string_scope.
Local Open Scope Z_scope.
Local Open Scope list_scope.
Local Open Scope go_scope.

(** ** The mutations *)

Inductive reg_op :=
| OpContactAdd (name : string) (addr : Address) (ens pinnedAt : string)
| OpContactRemove (name : string)
| OpTokenAdd (network : string) (tok : Token)
| OpTokenRename (network old new : string)
| OpTokenRemove (network alias : string)
| OpCollectionAdd (network : string) (col : Collection)
| OpCollectionRemove (network alias : string)
| OpNFTAlias (network alias collection tokenID : string)
| OpNFTRemove (network alias : string)
| OpContractAdd (network alias : string) (addr : Address) (abi : string)
| OpContractRemove (network alias : string).

Section Spec.
Context {UT : UnicodeTables} {GC : GethCommon} {AJ : AddressJSON} {SS : SortSlice}.
Implicit Types (d : Dir) (network : string) (m : gmap string Token).

Definition run_op (io : RegistryIO) (op : reg_op) : R unit :=
  match op with
  | OpContactAdd name addr ens pinnedAt => Contacts_add io name addr ens pinnedAt
  | OpContactRemove name => Contacts_Remove io name
  | OpTokenAdd network tok => Tokens_Add io network tok
  | OpTokenRename network old new => Tokens_Rename io network old new
  | OpTokenRemove network alias => Tokens_Remove io network alias
  | OpCollectionAdd network col => AddCollection io network col
  | OpCollectionRemove network alias => RemoveCollection io network alias
  | OpNFTAlias network alias collection tokenID => AliasNFT io network alias collection tokenID
  | OpNFTRemove network alias => RemoveNFTAlias io network alias
  | OpContractAdd network alias addr abi => Contracts_Add io network alias addr abi
  | OpContractRemove network alias => Contracts_Remove io network alias
  end.

Definition op_network (op : reg_op) : option string :=
  match op with
  | OpContactAdd _ _ _ _ | OpContactRemove _ => None
  | OpTokenAdd n _ | OpTokenRename n _ _ | OpTokenRemove n _ | OpCollectionAdd n _ | OpCollectionRemove n _
  | OpNFTAlias n _ _ _ | OpNFTRemove n _ | OpContractAdd n _ _ _ | OpContractRemove n _ => Some n
  end.

(** arguments of the types the code gives them *)
Definition typed_op (op : reg_op) : Prop :=
  match op with
  | OpContactAdd _ a _ _ | OpContractAdd _ _ a _ => valid_addr a
  | OpTokenAdd _ tok => typed_token tok
  | OpCollectionAdd _ col => valid_addr (cl_Address col)
  | _ => True
  end.

Definition proper_op (op : reg_op) : Prop := typed_op op ∧ op_network op ≠ Some reserved_network.

Lemma keeps_op io op : proper_op op → keeps (run_op io op).
Proof.
  intros [Ht Hn]. destruct op; cbn in *; assert (H : ∀ n, Some n ≠ Some reserved_network → n ≠ reserved_network) by congruence;
    try apply H in Hn; eauto using keeps_contact_add, keeps_contact_remove, keeps_add, keeps_rename, keeps_remove,
      keeps_collection_add, keeps_collection_remove, keeps_nft_alias, keeps_nft_remove, keeps_contract_add,
      keeps_contract_remove.
Qed.

(** the directories a fresh registry goes through, whatever the file system answers *)
Inductive reg_reach : Dir → Prop :=
| reach_fresh : reg_reach ∅
| reach_op d io op d' : reg_reach d → proper_op op → d' ∈ (run_op io op d).2 → reg_reach d'.

Lemma reach_wf d : reg_reach d → wf_dir d.
Proof. induction 1 as [|d io op d' _ IH Hp Hin]; [apply wf_dir_empty|]. by eapply keeps_op. Qed.

(** The registry stays well formed.  In every directory that a fresh
    registry reaches, crashes and refused writes included, each file parses;
    the aliases of each kind are unique and in the canonical grammar; the
    token entries are typed and none bears the name of a compiled-in token;
    collections are of a known standard, the identifiers of NFTs are canonical
    naturals and every contract has a non-empty ABI; and no operation fails for
    a malformed file. *)
Theorem registry_well_formed d :
  reg_reach d →
  wf_dir d ∧
  ∀ io network, network ≠ reserved_network → ro_read io = false →
    ∃ f, load io network d = (Ok f, []) ∧ wf_tokens network f.
Proof.
  intros Hr%reach_wf. split; [done|]. intros io network Hn Hio.
  destruct (wd_tokens _ Hr network Hn) as (f & Hat & HV & _ & Hwf). exists f. split; [by apply load_good|done].
Qed.

(** ** The token registry as a map *)

Definition entries (ts : list Token) : gmap string Token := list_to_map (map (λ t, (tk_Alias t, t)) ts).

Definition abs d network : gmap string Token :=
  match tokens_at d network with Some f => entries (tf_Tokens f) | None => ∅ end.

(** the other namespaces of a file *)
Definition others d network : option (list Collection * list NFTAlias * list Contract) :=
  (λ f, (tf_Collections f, tf_NFTAliases f, tf_Contracts f)) <$> tokens_at d network.

(** the entry an add leaves *)
Definition entry (canon : string) (tok : Token) : Token :=
  stored_token (mkToken canon (tk_Address tok) (if bool_decide (tk_Kind tok = "") then KindERC20 else tk_Kind tok)
                  (tk_Decimals tok) (tk_Symbol tok)).

(** the specification: a map without the compiled-in names *)
Inductive token_step network : gmap string Token → reg_op → gmap string Token → Prop :=
| step_add m tok canon :
    canonicalName (tk_Alias tok) = Ok canon → m !! canon = None → bundledLookup network canon = None →
    token_step network m (OpTokenAdd network tok) (<[canon := entry canon tok]> m)
| step_rename m old new oc nc t :
    canonicalName old = Ok oc → canonicalName new = Ok nc → m !! oc = Some t →
    bundledLookup network nc = None → nc = oc ∨ m !! nc = None →
    token_step network m (OpTokenRename network old new) (<[nc := rename_token nc t]> (delete oc m))
| step_remove m alias c t :
    canonicalName alias = Ok c → m !! c = Some t → token_step network m (OpTokenRemove network alias) (delete c m).

Lemma entries_snoc ts t : existsb (aliased (tk_Alias t)) ts = false → entries (ts ++ [t]) = <[tk_Alias t := t]> (entries ts).
Proof.
  intros H. apply (has_key_none tk_Alias) in H. unfold entries. rewrite map_app. cbn [map].
  rewrite (list_to_map_snoc (M := gmap string)); [done|].
  rewrite map_map. cbn [fst]. by rewrite (map_ext _ tk_Alias).
Qed.

Lemma entries_none ts c : existsb (aliased c) ts = false ↔ entries ts !! c = None.
Proof.
  rewrite (has_key_none tk_Alias). unfold entries. rewrite <-not_elem_of_list_to_map.
  rewrite <-list_fmap_compose. done.
Qed.

Lemma entries_find ts c : List.find (aliased c) ts = entries ts !! c.
Proof.
  induction ts as [|t ts IH]; [done|]. cbn [List.find]. unfold entries, aliased in *. cbn [map list_to_map foldr].
  case_bool_decide as E; [subst; by rewrite lookup_insert_eq|]. rewrite lookup_insert_ne by done. exact IH.
Qed.

Lemma entries_mid l1 t l2 :
  NoDup (map tk_Alias (l1 ++ t :: l2)) →
  entries (l1 ++ t :: l2) = <[tk_Alias t := t]> (entries (l1 ++ l2)) ∧ entries (l1 ++ l2) !! tk_Alias t = None.
Proof.
  intros Hnd. assert (Hp : l1 ++ t :: l2 ≡ₚ t :: l1 ++ l2) by (symmetry; apply Permutation_middle).
  assert (Hnd' : NoDup (map tk_Alias (t :: l1 ++ l2))) by (by rewrite <-Hp). cbn [map] in Hnd'.
  apply NoDup_cons in Hnd' as [Hn Hnd']. split.
  - unfold entries. change (<[tk_Alias t := t]> ?m) with (list_to_map (M := gmap string Token) ((tk_Alias t, t) :: map (λ t, (tk_Alias t, t)) (l1 ++ l2))).
    apply list_to_map_proper; [|by rewrite Hp]. rewrite map_map. exact Hnd.
  - apply entries_none, (has_key_none tk_Alias), Hn.
Qed.
(** ** Runs *)

Lemma lock_ok {A} io (fn : R A) d a tr : withRegistryLock io fn d = (Ok a, tr) → fn d = (Ok a, tr).
Proof. intros H. destruct (lock_cases io fn d) as [[e E]|E]; rewrite E in H; [discriminate H|exact H]. Qed.

Lemma save_ok io network f d tr :
  save io network f d = (Ok tt, tr) → tr = [<[path network := Some (tokens_json (stamped network f))]> d].
Proof.
  unfold save. fold (stamped network f). apply save_file_ok.
Qed.

(** what a directory holds of a network after a save *)
Lemma save_effect d network f f' :
  wf_dir d → network ≠ reserved_network → tokens_at d network = Some f → wf_tokens network f' →
  let d' := <[path network := Some (tokens_json (stamped network f'))]> d in
  abs d' network = entries (map stored_token (tf_Tokens f')) ∧
  (tf_Collections f' = tf_Collections f → tf_NFTAliases f' = tf_NFTAliases f → tf_Contracts f' = tf_Contracts f →
   others d' network = others d network) ∧
  ∀ n, n ≠ network → tokens_at d' n = tokens_at d n.
Proof.
  intros Hd Hn Hf Hf' d'. destruct (wd_tokens _ Hd network Hn) as (g & Hg & _ & (_ & S2 & S3 & S4) & _).
  rewrite Hf in Hg. injection Hg as <-.
  destruct (wf_write_tokens d network (stamped network f') Hd Hn eq_refl (wf_stamped _ _ Hf')) as [_ E].
  change (tokens_at d' network = Some (stored_tokens (stamped network f'))) in E. split_and!.
  - unfold abs. by rewrite E.
  - intros E1 E2 E3. unfold others. rewrite E, Hf. cbn. by rewrite E1, E2, E3, S2, S3, S4.
  - intros n Hne. unfold tokens_at, d'. by rewrite lookup_insert_ne by (intros H; by apply path_inj in H).
Qed.

(** the file of a well-formed directory *)
Lemma file_of d network :
  wf_dir d → network ≠ reserved_network →
  ∃ f, tokens_at d network = Some f ∧ tf_V f = tokensVersion ∧ stable f ∧ wf_tokens network f ∧
       abs d network = entries (tf_Tokens f).
Proof.
  intros Hd Hn. destruct (wd_tokens _ Hd network Hn) as (f & H1 & H2 & H3 & H4). exists f. unfold abs. by rewrite H1.
Qed.

Lemma stored_same ts : map stored_token ts = ts → ∀ t, t ∈ ts → stored_token t = t.
Proof.
  induction ts as [|x ts IH]; intros H t Ht; [by apply elem_of_nil in Ht|]. injection H as H1 H2.
  apply elem_of_cons in Ht as [-> | Ht]; [done|by apply IH].
Qed.

Lemma stored_rest l1 x l2 : map stored_token (l1 ++ x :: l2) = l1 ++ x :: l2 → map stored_token (l1 ++ l2) = l1 ++ l2.
Proof.
  intros S. rewrite <-(map_id (l1 ++ l2)) at 2. apply map_ext_in. intros y Hy%list_elem_of_In.
  apply (stored_same _ S). set_solver.
Qed.

(** an alias that the map has is not compiled in *)
Lemma abs_not_bundled network f c t :
  wf_tokens network f → entries (tf_Tokens f) !! c = Some t → bundledLookup network c = None ∧ tk_Alias t = c ∧ t ∈ tf_Tokens f.
Proof.
  intros Hwf H. rewrite <-entries_find in H. apply find_some in H as [Hin Hc]. apply bool_decide_eq_true in Hc.
  apply list_elem_of_In in Hin. destruct (wt_tokens _ _ Hwf t Hin) as (_ & _ & Hb). by rewrite <-Hc.
Qed.

Definition token_op network (op : reg_op) : Prop :=
  match op with
  | OpTokenAdd n _ | OpTokenRename n _ _ | OpTokenRemove n _ => n = network
  | _ => False
  end.

(** what a successful token operation leaves *)
Definition token_effect d network (op : reg_op) (d' : Dir) : Prop :=
  token_step network (abs d network) op (abs d' network) ∧ others d' network = others d network ∧
  ∀ n, n ≠ network → tokens_at d' n = tokens_at d n.

Lemma add_effect d io network tok tr :
  wf_dir d → network ≠ reserved_network → typed_token tok → Tokens_Add io network tok d = (Ok tt, tr) →
  ∃ d', tr = [d'] ∧ token_effect d network (OpTokenAdd network tok) d'.
Proof.
  intros Hd Hn Ht H. destruct (file_of d network Hd Hn) as (f & Hf & _ & (S1 & _) & Hwf & Habs).
  unfold Tokens_Add in H. apply mbind_ok in H as (c & t1 & t2 & [Hc ->]%mlift_ok & H & ->).
  apply lock_ok in H. apply mbind_ok in H as (g & t3 & t4 & H3 & H & ->). apply load_at in H3 as [-> H3].
  cbn [after List.last app] in *. rewrite Hf in H3. injection H3 as <-.
  destruct (bundledLookup network c) eqn:Hb; [discriminate H|]. destruct (existsb _ _) eqn:He; [discriminate H|].
  apply save_ok in H as ->. eexists. split; [done|]. pose proof (canonicalName_ok _ _ Hc) as Hcan.
  set (t := mkToken _ _ _ _ _). assert (Hwf' : wf_tokens network (with_tokens f (tf_Tokens f ++ [t]))) by (by apply wf_add).
  destruct (save_effect d network f _ Hd Hn Hf Hwf') as (E1 & E2 & E3). split; [|split; [by apply E2|exact E3]].
  rewrite E1, Habs. cbn [with_tokens tf_Tokens]. rewrite map_app, S1. cbn [map].
  assert (Ek : tk_Alias (stored_token t) = c) by (cbn; by apply canonical_coerce).
  rewrite entries_snoc by (by rewrite Ek). rewrite Ek. apply step_add; [done| |done]. by apply entries_none.
Qed.

Lemma remove_effect d io network alias tr :
  wf_dir d → network ≠ reserved_network → Tokens_Remove io network alias d = (Ok tt, tr) →
  ∃ d', tr = [d'] ∧ token_effect d network (OpTokenRemove network alias) d'.
Proof.
  intros Hd Hn H. destruct (file_of d network Hd Hn) as (f & Hf & _ & (S1 & _) & Hwf & Habs).
  unfold Tokens_Remove in H. apply mbind_ok in H as (c & t1 & t2 & [Hc ->]%mlift_ok & H & ->).
  apply lock_ok in H. apply mbind_ok in H as (g & t3 & t4 & H3 & H & ->). apply load_at in H3 as [-> H3].
  cbn [after List.last app] in *. rewrite Hf in H3. injection H3 as <-.
  destruct (remove_first _ _) as [ts|] eqn:Hr; [|destruct (bundledLookup _ _); discriminate H].
  apply save_ok in H as ->. eexists. split; [done|]. pose proof (wf_remove _ _ _ _ Hwf Hr) as Hwf'.
  destruct (save_effect d network f _ Hd Hn Hf Hwf') as (E1 & E2 & E3). split; [|split; [by apply E2|exact E3]].
  rewrite E1, Habs. cbn [with_tokens tf_Tokens]. pose proof (wt_tokens_nodup _ _ Hwf) as Hnd.
  apply remove_first_split in Hr as (l1 & x & l2 & Hl & -> & Hx & _). rewrite Hl in *. apply bool_decide_eq_true in Hx.
  destruct (entries_mid l1 x l2 Hnd) as [M1 M2]. rewrite Hx in *. rewrite M1.
  rewrite (stored_rest _ _ _ S1). rewrite <-(delete_insert_id (entries (l1 ++ l2)) c x) at 2 by done.
  apply step_remove with x; [done|]. by rewrite lookup_insert_eq.
Qed.
(** a rename moves one entry *)
Lemma entries_rename l1 x l2 nc :
  NoDup (map tk_Alias (l1 ++ x :: l2)) → nc ∉ map tk_Alias (l1 ++ l2) →
  entries (l1 ++ rename_token nc x :: l2) =
    <[nc := rename_token nc x]> (delete (tk_Alias x) (entries (l1 ++ x :: l2))) ∧
  (nc = tk_Alias x ∨ entries (l1 ++ x :: l2) !! nc = None) ∧ entries (l1 ++ x :: l2) !! tk_Alias x = Some x.
Proof.
  intros Hnd Hnc. destruct (entries_mid l1 x l2 Hnd) as [M1 M2].
  pose proof (key_replace tk_Alias l1 x (rename_token nc x) l2 Hnd Hnc) as Hnd'.
  destruct (entries_mid l1 (rename_token nc x) l2 Hnd') as [M3 M4]. cbn [rename_token tk_Alias] in M3, M4.
  split_and!.
  - rewrite M3, M1. by rewrite delete_insert_id.
  - rewrite M1. destruct (decide (nc = tk_Alias x)) as [-> | Hne]; [by left|right]. by rewrite lookup_insert_ne.
  - rewrite M1. apply lookup_insert_eq.
Qed.

Lemma rename_effect d io network old new tr :
  wf_dir d → network ≠ reserved_network → Tokens_Rename io network old new d = (Ok tt, tr) →
  ∃ d', tr = [d'] ∧ token_effect d network (OpTokenRename network old new) d'.
Proof.
  intros Hd Hn H. destruct (file_of d network Hd Hn) as (f & Hf & _ & (S1 & _) & Hwf & Habs).
  unfold Tokens_Rename in H. apply mbind_ok in H as (oc & t1 & t2 & [Hoc ->]%mlift_ok & H & ->).
  apply mbind_ok in H as (nc & t5 & t6 & [Hnc ->]%mlift_ok & H & ->). apply lock_ok in H.
  apply mbind_ok in H as (g & t3 & t4 & H3 & H & ->). apply load_at in H3 as [-> H3].
  cbn [after List.last app] in *. rewrite Hf in H3. injection H3 as <-.
  destruct (bundledLookup network oc) eqn:Hbo; [discriminate H|]. destruct (find_index _ _) as [i|] eqn:Hi; [|discriminate H].
  destruct (bundledLookup network nc) eqn:Hbn; [discriminate H|]. destruct (exists_other _ _ _) eqn:He; [discriminate H|].
  apply save_ok in H as ->. eexists. split; [done|]. pose proof (canonicalName_ok _ _ Hnc) as Hcan.
  destruct (rename_split f oc nc i Hi He) as (l1 & x & l2 & Hl & Hx & Hfree & ->).
  pose proof (wt_tokens_nodup _ _ Hwf) as Hnd. set (f' := with_tokens f (l1 ++ rename_token nc x :: l2)).
  assert (Hwf' : wf_tokens network f').
  { apply (wf_replace _ _ _ x); [done..| |done]. destruct (wt_tokens _ _ Hwf x) as (_ & Hty & _); [rewrite Hl; set_solver|].
    by split. }
  destruct (save_effect d network f f' Hd Hn Hf Hwf') as (E1 & E2 & E3). split; [|split; [by apply E2|exact E3]].
  rewrite Hl in *. destruct (entries_rename l1 x l2 nc Hnd Hfree) as (R1 & R2 & R3).
  rewrite E1, Habs. cbn [f' with_tokens tf_Tokens].
  assert (Es : map stored_token (l1 ++ rename_token nc x :: l2) = l1 ++ rename_token nc x :: l2).
  { rewrite map_app in S1 |- *. apply app_inj_1 in S1 as [S1 S2]; [|by rewrite length_map]. cbn [map] in *.
    injection S2 as Sx S2. rewrite S1, S2. do 2 f_equal. destruct x. unfold rename_token, stored_token in *. cbn in *.
    injection Sx as ? Sk Ss. by rewrite Sk, Ss, (canonical_coerce _ Hcan). }
  rewrite Es, R1. rewrite Hx in *. by apply step_rename.
Qed.
(** ** Progress and refusals *)

Lemma load_ok_io d network f :
  tokens_at d network = Some f → tf_V f = tokensVersion → load rio_ok network d = (Ok f, []).
Proof. by apply load_good. Qed.

(** a mutation of a loaded file, when the file system works *)
Lemma run_locked network (k : tokensFile → R unit) d f :
  tokens_at d network = Some f → tf_V f = tokensVersion →
  withRegistryLock rio_ok (mbind (load rio_ok network) k) d = k f d.
Proof. intros Hf HV. unfold withRegistryLock. cbn. apply mbind_read. by apply load_ok_io. Qed.

Lemma step_runs d network op m' :
  wf_dir d → network ≠ reserved_network → token_step network (abs d network) op m' → ∃ tr, run_op rio_ok op d = (Ok tt, tr).
Proof.
  intros Hd Hn Hs. destruct (file_of d network Hd Hn) as (f & Hf & HV & _ & Hwf & Habs). rewrite Habs in Hs. clear Habs.
  inversion Hs as [? tok c Hc Hm Hb|? old new oc nc t Hoc Hnc Hm Hb Hfree|? alias c t Hc Hm]; subst; cbn [run_op].
  - unfold Tokens_Add. rewrite Hc, (mbind_read _ _ d c) by done. rewrite (run_locked _ _ _ _ Hf HV), Hb.
    apply entries_none in Hm as ->. by eexists.
  - unfold Tokens_Rename. rewrite Hoc, Hnc, (mbind_read _ _ d oc), (mbind_read _ _ d nc) by done.
    rewrite (run_locked _ _ _ _ Hf HV). destruct (abs_not_bundled _ _ _ _ Hwf Hm) as (-> & Ht & Hin).
    destruct (find_index (aliased oc) (tf_Tokens f)) as [i|] eqn:Hi.
    2: { exfalso. apply find_index_none in Hi. apply existsb_none with (x := t) in Hi; [|done]. by apply bool_decide_eq_false in Hi. }
    rewrite Hb. destruct (exists_other i (aliased nc) (tf_Tokens f)) eqn:He; [|by eexists]. exfalso.
    pose proof (wt_tokens_nodup _ _ Hwf) as Hnd.
    apply find_index_split in Hi as (l1 & x & l2 & Hl & <- & Hx & _). apply bool_decide_eq_true in Hx.
    rewrite Hl in *. rewrite exists_other_split, <-existsb_app in He. destruct Hfree as [-> | Hfree].
    + apply not_false_iff_true in He. apply He. apply entries_none. rewrite <-Hx. by apply entries_mid.
    + apply entries_none in Hfree. rewrite existsb_app in Hfree. cbn [existsb] in Hfree. rewrite existsb_app in He.
      destruct (existsb _ l1), (existsb _ l2), (aliased nc x); done.
  - unfold Tokens_Remove. rewrite Hc, (mbind_read _ _ d c) by done. rewrite (run_locked _ _ _ _ Hf HV).
    destruct (remove_first (aliased c) (tf_Tokens f)) as [ts|] eqn:Hr; [by eexists|]. exfalso.
    destruct (abs_not_bundled _ _ _ _ Hwf Hm) as (_ & Ht & Hin). apply remove_first_none in Hr.
    apply existsb_none with (x := t) in Hr; [|done]. by apply bool_decide_eq_false in Hr.
Qed.

(** the same, with a write that reports no error *)
Definition placed io : RegistryIO := mkRIO (ro_mkdir_locks io) (ro_lock io) (ro_read io) (ro_mkdir io) None.

(** an action that fails writes nothing, or is the action [fn'] but for the
    error of a write whose data is in place *)
Definition fails_as io {A} (fn fn' : R A) : Prop := ∀ d e tr,
  fn d = (Err e, tr) → tr = [] ∨ (∃ fe, ro_write io = Some (fe, true)) ∧ ∃ a, fn' d = (Ok a, tr).

Lemma fails_read_bind io {A B} (fn : R A) (k k' : A → R B) :
  reads_only fn → (∀ a, fails_as io (k a) (k' a)) → fails_as io (mbind fn k) (mbind fn k').
Proof.
  intros Hf Hk d e tr H. specialize (Hf d). unfold mbind in *. destruct (fn d) as [[a|e'] tr1]; cbn in Hf; subst tr1; [|injection H as <- <-; by left].
  cbn [after List.last app] in *. destruct (k a d) as [r tr2] eqn:E. injection H as -> <-.
  destruct (Hk a d e tr2 E) as [->|(Hw & b & Hb)]; [by left|right]. split; [done|]. exists b. by rewrite Hb.
Qed.

Lemma fails_reads io {A} (fn fn' : R A) : reads_only fn → fails_as io fn fn'.
Proof. intros Hf d e tr H. specialize (Hf d). rewrite H in Hf. by left. Qed.

Lemma fails_lock io {A} (fn fn' : R A) : fails_as io fn fn' → fails_as io (withRegistryLock io fn) (withRegistryLock (placed io) fn').
Proof.
  intros Hf d e tr. unfold withRegistryLock, placed. cbn. destruct (ro_mkdir_locks io) as [[]|]; [intros [= <- <-]; by left..|].
  destruct (ro_lock io) as [[]|]; [intros [= <- <-]; by left..|]. apply Hf.
Qed.

Lemma fails_save io network f : fails_as io (save io network f) (save (placed io) network f).
Proof.
  intros d e tr. unfold save, save_file, placed. cbn. destruct (ro_mkdir io) as [[]|]; [intros [= <- <-]; by left..|].
  destruct (ro_write io) as [[fe []]|]; [|intros [= <- <-]; by left|done]. intros [= <- <-]. right. eauto.
Qed.

Lemma fails_op io op network : token_op network op → fails_as io (run_op io op) (run_op (placed io) op).
Proof.
  destruct op; intros []; cbn [run_op]; unfold Tokens_Add, Tokens_Rename, Tokens_Remove;
    repeat (apply fails_read_bind; [apply reads_mlift|intros ?]); apply fails_lock;
    change (load (placed io)) with (load io); (apply fails_read_bind; [apply reads_load|]);
    intros f; repeat case_match; eauto using fails_save, fails_reads, reads_mfail.
Qed.

(** C38: the token registry is a finite map.  For operations whose values have
    the width of their Go types (addresses, the uint8 of the decimals) on
    networks other than the one named contacts, whose file is the address book:
    in every directory that such operations reach, a successful add, rename or
    removal is one atomic write that takes the map of the network to its
    successor in the specification and leaves the collections, the NFT aliases,
    the contracts and every other network as they were; with a working file
    system an operation the specification allows succeeds; and an operation
    that fails writes nothing, unless its write reports the failure of the last
    sync with the data in place, and then it has done what its success does. *)
Theorem token_registry_is_map d network op :
  reg_reach d → proper_op op → token_op network op →
  (∀ io tr, run_op io op d = (Ok tt, tr) → ∃ d', tr = [d'] ∧ token_effect d network op d') ∧
  (∀ m', token_step network (abs d network) op m' → ∃ tr, run_op rio_ok op d = (Ok tt, tr)) ∧
  (∀ io e tr, run_op io op d = (Err e, tr) →
     tr = [] ∨ (∃ fe, ro_write io = Some (fe, true)) ∧ ∃ d', tr = [d'] ∧ token_effect d network op d').
Proof.
  intros Hr%reach_wf [Ht Hn] Hop.
  assert (Hres : network ≠ reserved_network) by (destruct op; cbn in *; try done; subst; congruence).
  assert (Heff : ∀ io tr, run_op io op d = (Ok tt, tr) → ∃ d', tr = [d'] ∧ token_effect d network op d').
  { intros io tr H. destruct op; cbn in Hop; try done; subst; cbn [run_op] in H.
    - by eapply add_effect.
    - by eapply rename_effect.
    - by eapply remove_effect. }
  split_and!; [done|intros m'; by apply step_runs|].
  intros io e tr H. destruct (fails_op io op network Hop d e tr H) as [->|(Hw & [] & Ha)]; [by left|right]. split; [done|by eapply Heff].
Qed.

(** Resolution is registry-only and the compiled-in tokens cannot be
    shadowed.  Whatever a fresh registry went through, a resolved alias is the
    compiled-in token of that name when there is one, and otherwise the entry
    the map has under the canonical name: never the symbol of a token.  A text
    outside the grammar resolves to nothing, and whatever resolves is also
    listed. *)
Theorem resolution_is_registry_only d io network text r tr :
  reg_reach d → network ≠ reserved_network → ResolveAsset io network text d = (Ok r, tr) →
  tr = [] ∧
  r = match canonicalName text with
      | Err _ => None
      | Ok c => match bundledLookup network c with
                | Some t => Some (mkResolved t true)
                | None => (λ t, mkResolved t false) <$> abs d network !! c
                end
      end ∧
  ∀ owner known tr', KnownAssets io network owner d = (Ok known, tr') → ∀ rt, r = Some rt → rt ∈ known.
Proof.
  intros Hr%reach_wf Hn H. destruct (file_of d network Hr Hn) as (f & Hf & _ & _ & Hwf & Habs).
  assert (Hlist : ∀ owner known tr', KnownAssets io network owner d = (Ok known, tr') → known = mergeBundled network (tf_Tokens f)).
  { intros owner known tr' Hk. unfold KnownAssets, Tokens_List in Hk. apply mbind_ok in Hk as (g & t1 & t2 & H1 & H2 & ->).
    apply load_at in H1 as [-> H1]. rewrite Hf in H1. injection H1 as <-. by apply mret_ok in H2 as [-> _]. }
  unfold ResolveAsset, Tokens_Resolve in H. destruct (canonicalName text) as [c|e].
  2: { apply mret_ok in H as [-> ->]. split_and!; done. }
  apply mbind_ok in H as (g & t1 & t2 & H1 & H & ->). apply load_at in H1 as [-> H1]. rewrite Hf in H1. injection H1 as <-.
  rewrite entries_find in H. rewrite Habs. destruct (entries (tf_Tokens f) !! c) as [t|] eqn:He.
  - apply mret_ok in H as [-> ->]. destruct (abs_not_bundled _ _ _ _ Hwf He) as (-> & Ha & Hin). split_and!; [done..|].
    intros owner known tr' ->%Hlist rt [= <-]. unfold mergeBundled, sortResolved. rewrite sort_slice_perm.
    apply elem_of_app. left. by apply (list_elem_of_fmap_2 (λ t, mkResolved t false)).
  - apply mret_ok in H as [-> ->]. split_and!; [done|by destruct (bundledLookup network c)|].
    intros owner known tr' ->%Hlist rt Hrt. destruct (bundledLookup network c) as [t|] eqn:Hb; [|done]. injection Hrt as <-.
    apply find_some in Hb as [Hin Hc]. apply bool_decide_eq_true in Hc.
    unfold mergeBundled, sortResolved. rewrite sort_slice_perm. apply elem_of_app. right. apply (list_elem_of_fmap_2 (λ t, mkResolved t true)).
    apply list_elem_of_filter. split; [|by apply list_elem_of_In]. rewrite Hc. by apply (has_key_none tk_Alias), entries_none.
Qed.
End Spec.

(** ** Names that stand for other things

    The alias of an NFT follows the name of its collection, and a network may
    take the name of the address book. *)

Local Open Scope string_scope.
Local Open Scope Z_scope.
Local Open Scope list_scope.
Local Open Scope go_scope.

Section Names.
Context {UT : UnicodeTables} {GC : GethCommon} {AJ : AddressJSON} {SS : SortSlice}.
Implicit Types (d : Dir) (network : string).

(** ** NFT aliases *)

Lemma names_no_hash s : string_forallb name_char s = true → split_byte 35 s = None.
Proof.
  induction s as [|c s IH]; [done|]. cbn [string_forallb split_byte]. intros [Hc Hs]%andb_true_iff.
  destruct (Z.eqb_spec (byteZ c) 35) as [E|_]; [|by rewrite IH].
  exfalso. unfold name_char, is_lower_alnum, is_digit in Hc. rewrite E in Hc. discriminate Hc.
Qed.

Lemma resolve_alias io network d f x :
  canonical_name x → load io network d = (Ok f, []) → ResolveNFT io network x d = (resolve_bare f network x, []).
Proof.
  intros Hx Hl. pose proof Hx as ((b & r & Hs & _) & Hall & _). unfold ResolveNFT. rewrite (names_trim _ Hall).
  rewrite bool_decide_false by (by rewrite Hs). rewrite (mbind_read _ _ d f Hl), (names_no_hash _ Hall). done.
Qed.

(** the file a save leaves loads back *)
Lemma load_saved d network f :
  wf_dir d → network ≠ reserved_network → wf_tokens network f →
  let d' := <[path network := Some (tokens_json (stamped network f))]> d in
  load rio_ok network d' = (Ok (stored_tokens (stamped network f)), []) ∧ wf_dir d'.
Proof.
  intros Hd Hn Hf. destruct (wf_write_tokens d network (stamped network f) Hd Hn eq_refl (wf_stamped _ _ Hf)) as [Hwf E].
  split; [by apply load_good|done].
Qed.

Lemma save_run network f d :
  save rio_ok network f d = (Ok tt, [<[path network := Some (tokens_json (stamped network f))]> d]).
Proof. reflexivity. Qed.

(** An NFT alias is bound to a name.  Take an alias of an NFT in a
    collection [c] at the address [A].  Removing [c] succeeds although the
    alias still refers to it, and the alias then fails closed; registering
    any other contract [B] under the name [c] makes the same alias, with the
    same identifier, resolve to [B]. *)
Theorem nft_alias_follows_collection_name d network f x c id A k B k' :
  reg_reach d → network ≠ reserved_network → tokens_at d network = Some f →
  mkNFTAlias x c id ∈ tf_NFTAliases f → mkCollection c A k ∈ tf_Collections f →
  valid_addr B → k' = KindERC721 ∨ k' = KindERC1155 →
  ResolveNFT rio_ok network x d = (Ok (mkResolvedNFT A k id c x), []) ∧
  ∃ d1 d2 e, RemoveCollection rio_ok network c d = (Ok tt, [d1]) ∧
    ResolveNFT rio_ok network x d1 = (Err e, []) ∧ e_Code e = "ref.not_found" ∧
    AddCollection rio_ok network (mkCollection c B k') d1 = (Ok tt, [d2]) ∧
    ResolveNFT rio_ok network x d2 = (Ok (mkResolvedNFT B k' id c x), []).
Proof.
  intros Hd%reach_wf Hn Hf Hx Hc HB Hk'. destruct (wd_tokens _ Hd network Hn) as (g & Hg & HV & (_ & S2 & S3 & _) & Hwf).
  rewrite Hf in Hg. injection Hg as <-. pose proof Hwf as [H1 H2 H3 H4 H5 H6 H7 H8].
  destruct (H5 _ Hx) as (Cx & Cc & _). cbn [na_Alias na_Collection] in Cx, Cc.
  pose proof (find_key_unique na_Alias _ _ H6 Hx) as Fx. pose proof (find_key_unique cl_Alias _ _ H4 Hc) as Fc.
  change (has_key na_Alias _) with (nft_aliased x) in Fx. change (has_key cl_Alias _) with (collected c) in Fc.
  split.
  { rewrite (resolve_alias _ _ _ f) by (done || by apply load_good). unfold resolve_bare.
    rewrite (canonicalName_fix _ Cx), Fx. cbn [na_Collection]. by rewrite Fc. }
  destruct (remove_first (collected c) (tf_Collections f)) as [cs|] eqn:Hr.
  2: { apply remove_first_none in Hr. apply find_none_iff in Hr. by rewrite Fc in Hr. }
  assert (Hnone : existsb (collected c) cs = false).
  { apply remove_first_split in Hr as (l1 & y & l2 & Hl & -> & Hy & _). apply bool_decide_eq_true in Hy.
    rewrite Hl, map_app in H4. cbn [map] in H4. apply NoDup_app in H4 as (_ & N2 & [N3 _]%NoDup_cons).
    apply (has_key_none cl_Alias). rewrite map_app, not_elem_of_app, <-Hy. split; [|done]. intros K. apply (N2 _ K). by left. }
  set (f1 := with_collections f cs).
  assert (W1 : wf_tokens network f1).
  { split; try done; cbn [f1 with_collections tf_Collections]; [exact (remove_sub _ _ _ H3 Hr)|exact (key_remove cl_Alias _ _ _ H4 Hr)]. }
  destruct (load_saved d network f1 Hd Hn W1) as [L1 D1]. set (d1 := <[_:=_]> d) in *.
  set (g1 := stored_tokens (stamped network f1)) in *.
  assert (G1 : tf_NFTAliases g1 = tf_NFTAliases f ∧ tf_Collections g1 = cs).
  { unfold g1, f1. cbn. split; [done|]. apply remove_first_split in Hr as (l1 & y & l2 & Hl & -> & _).
    rewrite Hl in S2. rewrite map_app in S2 |- *. apply app_inj_1 in S2 as [E1 E2]; [|by rewrite length_map].
    injection E2 as _ E2. by rewrite E1, E2. }
  destruct G1 as [G1 G2].
  set (f2 := with_collections g1 (cs ++ [mkCollection c B k'])).
  assert (W2 : wf_tokens network f2).
  { pose proof (wf_stored network _ (wf_stamped _ _ W1)) as W. fold g1 in W. destruct W as [K1 K2 K3 K4 K5 K6 K7 K8].
    rewrite G2 in K3, K4. split; try done; cbn [f2 with_collections tf_Collections].
    - apply forall_snoc; [done|]. by split.
    - by apply (key_snoc cl_Alias). }
  destruct (load_saved d1 network f2 D1 Hn W2) as [L2 _]. set (d2 := <[_:=_]> d1) in *.
  exists d1, d2. eexists. split_and!.
  - unfold RemoveCollection. rewrite (canonicalName_fix _ Cc), (mbind_read _ _ d c) by done.
    rewrite (run_locked _ _ _ f Hf HV), Hr. apply save_run.
  - rewrite (resolve_alias _ _ _ g1) by done. unfold resolve_bare. rewrite (canonicalName_fix _ Cx), G1, Fx.
    cbn [na_Collection]. rewrite G2. apply find_none_iff in Hnone as ->. reflexivity.
  - reflexivity.
  - unfold AddCollection. cbn [cl_Alias cl_Kind cl_Address]. rewrite (canonicalName_fix _ Cc), (mbind_read _ _ d1 c) by done.
    rewrite <-negb_orb. replace (bool_decide (k' = KindERC721) || bool_decide (k' = KindERC1155)) with true
      by (destruct Hk' as [-> | ->]; reflexivity). cbn [negb].
    unfold withRegistryLock. cbn [rio_ok ro_mkdir_locks ro_lock]. rewrite (mbind_read _ _ d1 g1 L1), G2, Hnone. apply save_run.
  - rewrite (resolve_alias _ _ _ _ _ Cx L2). unfold resolve_bare. rewrite (canonicalName_fix _ Cx).
    unfold f2. cbn [stored_tokens stamped with_collections tf_NFTAliases tf_Collections]. rewrite G1, S3, Fx. cbn [na_Collection].
    rewrite map_app. replace (map stored_collection cs) with cs by (symmetry; exact G2).
    unfold stored_collection. cbn [map cl_Alias cl_Address cl_Kind]. rewrite (canonical_coerce _ Cc), find_snoc by done.
    unfold collected. rewrite bool_decide_true by done. cbn [cl_Alias cl_Address cl_Kind na_TokenID na_Alias].
    destruct Hk' as [-> | ->]; reflexivity.
Qed.

(** ** The network named like the address book *)

Lemma contacts_as_tokens v cs :
  - 2 ^ 63 ≤ v < 2 ^ 63 →
  d_tokens (mkTokens 0 "" [] [] [] []) (contacts_json (mkContacts v cs)) = Some (mkTokens v "" [] [] [] []).
Proof.
  intros Hv. unfold d_tokens, contacts_json, d_struct. cbn [cf_V cf_Contacts].
  erewrite d_member; [|reflexivity|exact (d_int_tree _ v Hv)]. reflexivity.
Qed.

Lemma tokens_as_contacts f :
  tf_V f = tokensVersion → d_contacts (mkContacts 0 []) (tokens_json f) = Some (mkContacts tokensVersion []).
Proof.
  intros HV. destruct f as [v n ts cs ns ks]. cbn [tf_V] in HV. subst v. unfold d_contacts, tokens_json, d_struct.
  erewrite d_member; [|reflexivity|exact (d_int_tree _ tokensVersion ltac:(by split))]. reflexivity.
Qed.

(** A network may take the file of the address book.  Whatever a fresh
    registry went through, adding a token on a network named contacts
    succeeds; it overwrites [contacts.json], and from then on every contact is
    gone from the disk and every resolution, listing and change of contacts is
    refused as corrupt state. *)
Theorem network_contacts_overwrites_address_book d tok c :
  reg_reach d → typed_token tok → canonicalName (tk_Alias tok) = Ok c →
  ∃ d', Tokens_Add rio_ok reserved_network tok d = (Ok tt, [d']) ∧
    contacts_at d' = Some (mkContacts tokensVersion []) ∧
    (∀ k, k ≠ contactsPath → d' !! k = d !! k) ∧
    ∀ io name n, canonicalName name = Ok n → ro_read io = false →
      ∃ e, e_Code e = "state.corrupt" ∧ Contacts_Resolve io name d' = (Err e, []) ∧ Contacts_List io d' = (Err e, []) ∧
           Contacts_Remove rio_ok name d' = (Err e, []) ∧
           ∀ a ens at_, Contacts_add rio_ok name a ens at_ d' = (Err e, []).
Proof.
  intros Hr%reach_wf Ht Hc.
  assert (Hl : ∃ v n, load rio_ok reserved_network d = (Ok (mkTokens v n [] [] [] []), [])).
  { unfold load, load_file. rewrite (mbind_read _ _ d d) by apply mget_run. cbn [rio_ok ro_read].
    change (path reserved_network) with contactsPath.
    destruct (wd_book _ Hr) as [-> | [cs ->]]; [by eexists _, _|].
    rewrite contacts_as_tokens by (by split). by eexists _, _. }
  destruct Hl as (v & n & Hl). set (t := mkToken c (tk_Address tok) (if bool_decide (tk_Kind tok = "") then KindERC20 else tk_Kind tok) (tk_Decimals tok) (tk_Symbol tok)).
  set (f := stamped reserved_network (with_tokens (mkTokens v n [] [] [] []) [t])).
  exists (<[contactsPath := Some (tokens_json f)]> d).
  assert (Hat : contacts_at (<[contactsPath := Some (tokens_json f)]> d) = Some (mkContacts tokensVersion [])).
  { unfold contacts_at. rewrite lookup_insert_eq. by apply tokens_as_contacts. }
  split_and!; [| |intros k Hk; by rewrite lookup_insert_ne|].
  - unfold Tokens_Add. rewrite Hc, (mbind_read _ _ d c) by done. unfold withRegistryLock. cbn [rio_ok ro_mkdir_locks ro_lock].
    rewrite (mbind_read _ _ d _ Hl). reflexivity.
  - exact Hat.
  - intros io name m Hm Hio. exists (state_corrupt (newer_text "contacts" contactsVersion tokensVersion)).
    assert (Hload : ∀ io, ro_read io = false → loadContacts io (<[contactsPath := Some (tokens_json f)]> d) =
                      (Err (state_corrupt (newer_text "contacts" contactsVersion tokensVersion)), [])).
    { intros i Hi. unfold loadContacts, load_file. rewrite (mbind_read _ _ _ _ (mget_run _)), Hi, lookup_insert_eq.
      unfold contacts_at in Hat. rewrite lookup_insert_eq in Hat. by rewrite Hat. }
    split; [done|]. unfold Contacts_Resolve, Contacts_List, Contacts_Remove, Contacts_add. rewrite Hm.
    rewrite !(mbind_fail _ _ _ _ _ (Hload io Hio)). split_and!; [done..| |].
    + rewrite (mbind_read _ _ _ m) by done. unfold withRegistryLock. cbn [rio_ok ro_mkdir_locks ro_lock].
      by rewrite (mbind_fail _ _ _ _ _ (Hload rio_ok eq_refl)).
    + intros a ens at_. rewrite (mbind_read _ _ _ m) by done. unfold withRegistryLock. cbn [rio_ok ro_mkdir_locks ro_lock].
      by rewrite (mbind_fail _ _ _ _ _ (Hload rio_ok eq_refl)).
Qed.
End Names.

(** ** Witnesses *)

Section Witnesses.

(** addresses as their lower-case text *)
Definition text_address (j : json) : option Address :=
  match j with
  | JStr s => if bool_decide (hex40 (HexToAddress s) = s) then Some (HexToAddress s) else None
  | _ => None
  end.

Lemma text_address_hex40 a : valid_addr a → text_address (JStr (hex40 a)) = Some a.
Proof. intros Ha. unfold text_address. by rewrite HexToAddress_hex40, bool_decide_true by done. Qed.

#[export] Instance hex_json : AddressJSON := {|
  address_json := λ a, JStr (hex40 a); address_unjson := text_address; address_unjson_json := text_address_hex40 |}.

(** a fresh registry after some mutations *)
Definition run_all (ops : list reg_op) : Dir := foldl (λ d op, after d (run_op rio_ok op d).2) ∅ ops.

Definition sample_ops : list reg_op :=
  [OpContactAdd "Bob" 2 "" "";
   OpCollectionAdd "base" (mkCollection "punks" 9 KindERC721);
   OpNFTAlias "base" "My-Punk" "punks" "007";
   OpTokenAdd "base" (mkToken "USDX" 7 "" 6 "Dollar")].

Lemma run_all_reach ops : Forall proper_op ops → reg_reach (run_all ops).
Proof.
  intros H. unfold run_all. assert (G : ∀ d, reg_reach d → reg_reach (foldl (λ d op, after d (run_op rio_ok op d).2) d ops)).
  { induction H as [|op ops Hop _ IH]; intros d Hd; [done|]. cbn [foldl]. apply IH.
    destruct (run_op rio_ok op d) as [r tr] eqn:E. cbn [snd]. destruct (decide (tr = [])) as [-> | Hne]; [done|].
    apply (reach_op d rio_ok op); [done..|]. rewrite E. cbn [snd]. destruct (exists_last Hne) as (l & x & ->). unfold after. rewrite last_last. set_solver. }
  apply G. constructor.
Qed.

Lemma sample_reach : reg_reach (run_all sample_ops).
Proof.
  apply run_all_reach. unfold sample_ops. rewrite !Forall_cons, Forall_nil. unfold proper_op. cbn. unfold typed_token, valid_addr. cbn. split_and!; done || lia.
Qed.

Lemma registry_well_formed_witness : wf_dir (run_all sample_ops).
Proof. apply (registry_well_formed (run_all sample_ops)), sample_reach. Defined.

Definition more_tokens : reg_op := OpTokenAdd "base" (mkToken "eurx" 8 "" 2 "Euro").

Lemma token_registry_is_map_witness :
  proper_op more_tokens ∧ ∃ d', (run_op rio_ok more_tokens (run_all sample_ops)).2 = [d'] ∧
    token_effect (run_all sample_ops) "base" more_tokens d'.
Proof.
  assert (Hp : proper_op more_tokens) by (split; [by repeat split|discriminate]).
  split; [exact Hp|]. destruct (run_op rio_ok more_tokens (run_all sample_ops)) as [r tr] eqn:E.
  assert (Hr : r = Ok tt) by (change r with (r, tr).1; rewrite <-E; vm_compute; reflexivity). subst r.
  exact (proj1 (token_registry_is_map (run_all sample_ops) "base" more_tokens sample_reach Hp eq_refl) rio_ok tr E).
Defined.

Lemma resolution_is_registry_only_witness :
  ResolveAsset rio_ok "base" "usdx" (run_all sample_ops) = (Ok (Some (mkResolved (mkToken "usdx" 7 KindERC20 6 "Dollar") false)), []) ∧
  ∀ known tr', KnownAssets rio_ok "base" 1 (run_all sample_ops) = (Ok known, tr') →
    mkResolved (mkToken "usdx" 7 KindERC20 6 "Dollar") false ∈ known.
Proof.
  assert (E : ResolveAsset rio_ok "base" "usdx" (run_all sample_ops) =
              (Ok (Some (mkResolved (mkToken "usdx" 7 KindERC20 6 "Dollar") false)), [])) by (vm_compute; reflexivity).
  split; [exact E|]. intros known tr' Hk.
  exact (proj2 (proj2 (resolution_is_registry_only (run_all sample_ops) rio_ok "base" "usdx" _ _ sample_reach ltac:(discriminate) E))
           1 known tr' Hk _ eq_refl).
Defined.

Lemma nft_alias_follows_collection_name_witness :
  ∃ d1 d2, RemoveCollection rio_ok "base" "punks" (run_all sample_ops) = (Ok tt, [d1]) ∧
    AddCollection rio_ok "base" (mkCollection "punks" 10 KindERC1155) d1 = (Ok tt, [d2]) ∧
    ResolveNFT rio_ok "base" "my-punk" d2 = (Ok (mkResolvedNFT 10 KindERC1155 "7" "punks" "my-punk"), []).
Proof.
  destruct (tokens_at (run_all sample_ops) "base") as [f|] eqn:Hf; [|vm_compute in Hf; discriminate Hf].
  assert (H1 : mkNFTAlias "my-punk" "punks" "7" ∈ tf_NFTAliases f).
  { vm_compute in Hf. injection Hf as <-. constructor. }
  assert (H2 : mkCollection "punks" 9 KindERC721 ∈ tf_Collections f).
  { vm_compute in Hf. injection Hf as <-. constructor. }
  destruct (nft_alias_follows_collection_name (run_all sample_ops) "base" f "my-punk" "punks" "7" 9 KindERC721 10 KindERC1155
    sample_reach ltac:(discriminate) Hf H1 H2 ltac:(by split) (or_intror eq_refl)) as (_ & d1 & d2 & e & E1 & _ & _ & E2 & E3).
  exists d1, d2. exact (conj E1 (conj E2 E3)).
Defined.

Lemma network_contacts_overwrites_address_book_witness :
  ∃ d', Tokens_Add rio_ok "contacts" (mkToken "usdx" 7 "" 6 "Dollar") (run_all sample_ops) = (Ok tt, [d']) ∧
    contacts_at d' = Some (mkContacts tokensVersion []) ∧
    Contacts_Resolve rio_ok "bob" (run_all sample_ops) = (Ok (Some 2), []).
Proof.
  destruct (network_contacts_overwrites_address_book (run_all sample_ops) (mkToken "usdx" 7 "" 6 "Dollar") "usdx"
    sample_reach ltac:(by repeat split) ltac:(vm_compute; reflexivity)) as (d' & E1 & E2 & _).
  exists d'. split; [exact E1|]. split; [exact E2|]. vm_compute. reflexivity.
Defined.
End Witnesses.
