(* ===== verification/Secret.v ===== *)
(** * Secret acquisition: [internal/secret/resolver.go], [internal/service/keys.go]

    A passphrase is taken from the first channel of a fixed order that is
    present: the standard input, a file, a file named by the environment, the
    environment itself, the terminal.  The state of an acquisition is the
    unread standard input, which a read empties; the other channels are the
    [Host].  The text of an error of the operating system is what the host
    gives. *)

From S2P Require Import Prelude GoStrings Domain Trace.

Local Open Scope string_scope.
Local Open Scope Z_scope.
Local Open Scope list_scope.
Local Open Scope go_scope.

Inductive Source := SourceNone | SourceStdin | SourceFile | SourceEnvFile | SourceEnv | SourcePrompt.

#[export] Instance Source_eq_dec : EqDecision Source.
Proof. solve_decision. Defined.

Definition Source_String (s : Source) : string :=
  match s with
  | SourceStdin => "stdin"
  | SourceFile => "file"
  | SourceEnvFile => "env-file"
  | SourceEnv => "env"
  | SourcePrompt => "prompt"
  | SourceNone => "none"
  end.

(** the channels of the process; [h_isTTY] is [None] where the function is nil *)
Record Host := mkHost {
  h_lookupEnv : string → option string;
  h_isTTY : option bool;
  h_readFile : string → res string string;
  h_checkFile : string → option error;
  h_prompt : string → res string string;
}.

(** the unread standard input, or the text of its error *)
Definition Stdin : Type := res string string.

Record Request := mkRequest {
  rq_StdinFlag : bool;
  rq_FilePath : string;
  rq_EnvFileVar : string;
  rq_EnvVar : string;
  rq_PromptLabel : string;
  rq_StdinTaken : bool;
}.

Definition trimTrailingNewline (b : string) : string :=
  match srev b with
  | String c r =>
      if byteZ c =? 10 then
        match r with
        | String d r' => if byteZ d =? 13 then srev r' else srev r
        | "" => ""
        end
      else b
  | "" => b
  end.

(** io.ReadAll *)
Definition read_all : T Stdin string := λ s,
  match s with
  | Ok b => (Ok b, [Ok ""])
  | Err e => (Err (New "usage.stdin_read" ("failed to read secret from stdin: " +:+ e)), [])
  end.

Section Acquire.
Variable h : Host.

Definition readSecretFile (path : string) : res error string :=
  match h_checkFile h path with
  | Some e => Err e
  | None =>
      match h_readFile h path with
      | Err e => Err (New "keystore.passphrase_file_error"
                        ("failed to read passphrase file " +:+ go_quote path +:+ ": " +:+ e))
      | Ok b => Ok (trimTrailingNewline b)
      end
  end.

(** the *_FILE environment variable, when it names a path *)
Definition env_file (var : string) : option string :=
  if bool_decide (var = "") then None
  else match h_lookupEnv h var with
       | Some p => if bool_decide (p = "") then None else Some p
       | None => None
       end.

Definition env_value (var : string) : option string :=
  if bool_decide (var = "") then None else h_lookupEnv h var.

Definition passphrase_required (req : Request) : error := New "keystore.passphrase_required"
  ("a passphrase is required but no source was provided and stdin is not a terminal; set it via --*-stdin, --*-file <path>, "
   +:+ rq_EnvFileVar req +:+ " (a file path), or " +:+ rq_EnvVar req).

Definition Acquire (req : Request) : T Stdin (string * Source) :=
  if rq_StdinFlag req then
    if rq_StdinTaken req then mfail (New "usage.stdin_conflict"
      "cannot read the secret from stdin: stdin is already consumed by the command payload; use a --*-file or *_FILE env var instead")
    else raw <-- read_all ;; mret (trimTrailingNewline raw, SourceStdin)
  else if negb (bool_decide (rq_FilePath req = ""))
  then b <-- mlift (readSecretFile (rq_FilePath req)) ;; mret (b, SourceFile)
  else match env_file (rq_EnvFileVar req) with
  | Some path => b <-- mlift (readSecretFile path) ;; mret (b, SourceEnvFile)
  | None =>
  match env_value (rq_EnvVar req) with
  | Some val => mret (val, SourceEnv)
  | None =>
  match h_isTTY h with
  | Some true =>
      match h_prompt h (rq_PromptLabel req) with
      | Ok pw => mret (pw, SourcePrompt)
      | Err e => mfail (New "keystore.prompt_failed" ("failed to read secret from terminal: " +:+ e))
      end
  | _ => mfail (passphrase_required req)
  end end end.

(** ** The acquisitions of the service (keys.go) *)

Definition secretSpec : Type := Request.

Definition acquire (spec : secretSpec) : T Stdin (string * Source) := Acquire spec.

Definition is_set {A} (o : option A) : bool := match o with Some _ => true | None => false end.

Definition specHasExplicit (spec : secretSpec) : bool :=
  rq_StdinFlag spec || negb (bool_decide (rq_FilePath spec = "")) ||
  is_set (env_value (rq_EnvVar spec)) || is_set (env_file (rq_EnvFileVar spec)).

Definition acquireOptional (spec : secretSpec) : T Stdin (string * Source) :=
  if negb (specHasExplicit spec) then mret ("", SourceNone) else acquire spec.

Definition passphraseSpec (stdinTaken : bool) : secretSpec :=
  mkRequest false "" "DAXIE_PASSPHRASE_FILE" "DAXIE_PASSPHRASE" "Keystore passphrase: " stdinTaken.

Definition confirmSpec (stdin : bool) (file : string) (stdinTaken : bool) : secretSpec :=
  mkRequest stdin file "DAXIE_PASSPHRASE_CONFIRM_FILE" "DAXIE_PASSPHRASE_CONFIRM" "Confirm keystore passphrase: " stdinTaken.

Definition adminPassphraseSpec (stdin : bool) (file : string) : secretSpec :=
  mkRequest stdin file "DAXIE_ADMIN_PASSPHRASE_FILE" "DAXIE_ADMIN_PASSPHRASE" "Admin passphrase: " false.

Definition newAdminPassphraseSpec (stdin : bool) (file : string) : secretSpec :=
  mkRequest stdin file "DAXIE_NEW_ADMIN_PASSPHRASE_FILE" "DAXIE_NEW_ADMIN_PASSPHRASE" "New admin passphrase: " false.

Definition acquireFirstInitConfirm (spec : secretSpec) : T Stdin (string * Source) :=
  if specHasExplicit spec then acquire spec
  else match h_isTTY h with
       | Some true => acquire spec
       | _ => mret ("", SourceNone)
       end.

(** ensureInitialized; the keystore's [Initialized] and [EnsureInitialized] are arguments *)
Definition ensureInitialized (initialized : bool) (EnsureInitialized : string → option string → res error string)
           (pass : string) (confirmStdin : bool) (confirmFile : string) (stdinTaken : bool) : T Stdin string :=
  if initialized then mlift (EnsureInitialized pass None)
  else confirm <-- acquireFirstInitConfirm (confirmSpec confirmStdin confirmFile stdinTaken) ;;
       mlift (EnsureInitialized pass (Some confirm.1)).

(** acquireAdmin *)
Record AdminInput := mkAdminInput { ai_Stdin : bool; ai_File : string }.

Definition acquireAdmin (inp : AdminInput) : T Stdin (string * Source) :=
  acquire (adminPassphraseSpec (ai_Stdin inp) (ai_File inp)).
End Acquire.

(** ** Facts *)

Definition nl : string := String (Zbyte 10) "".
Definition crlf : string := String (Zbyte 13) nl.

(** a text that was written with a line end is read without it *)
Lemma trim_written s : (∀ r, srev s ≠ String (Zbyte 13) r) → trimTrailingNewline (s +:+ nl) = s.
Proof.
  intros H. unfold trimTrailingNewline, nl. rewrite srev_app. change (srev (String (Zbyte 10) "")) with (String (Zbyte 10) "").
  rewrite string_app_cons, string_app_nil_l. change (byteZ (Zbyte 10) =? 10) with true. cbv iota.
  destruct (srev s) as [|d r] eqn:E.
  - apply (f_equal srev) in E. by rewrite srev_involutive in E.
  - destruct (Z.eqb_spec (byteZ d) 13) as [Ed|_].
    + exfalso. apply (H r). f_equal. apply byteZ_inj. by rewrite Ed.
    + by rewrite <-E, srev_involutive.
Qed.

Lemma trim_written_crlf s : trimTrailingNewline (s +:+ crlf) = s.
Proof.
  unfold trimTrailingNewline, crlf, nl. rewrite srev_app.
  change (srev (String (Zbyte 13) (String (Zbyte 10) ""))) with (String (Zbyte 10) (String (Zbyte 13) "")).
  rewrite !string_app_cons, string_app_nil_l. change (byteZ (Zbyte 10) =? 10) with true.
  change (byteZ (Zbyte 13) =? 13) with true. cbv iota. apply srev_involutive.
Qed.

(** no text is shortened by more than its line end *)
Lemma trim_keeps s : trimTrailingNewline s = s ∨ s = trimTrailingNewline s +:+ nl ∨ s = trimTrailingNewline s +:+ crlf.
Proof.
  unfold trimTrailingNewline. destruct (srev s) as [|c r] eqn:E; [by left|].
  apply (f_equal srev) in E. rewrite srev_involutive, srev_cons in E.
  destruct (Z.eqb_spec (byteZ c) 10) as [Ec|_]; [|by left].
  assert (c = Zbyte 10) as -> by (apply byteZ_inj; by rewrite Ec). right.
  destruct r as [|d r]; [left; by rewrite E|]. destruct (Z.eqb_spec (byteZ d) 13) as [Ed|_].
  - assert (d = Zbyte 13) as -> by (apply byteZ_inj; by rewrite Ed). right. rewrite E, srev_cons, string_app_assoc.
    f_equal.
  - by left.
Qed.

(** two hosts that differ only in environment variables the request does not name *)
Definition same_but_env (vars : list string) (h h' : Host) : Prop :=
  (∀ v, v ∉ vars → h_lookupEnv h' v = h_lookupEnv h v) ∧ h_isTTY h' = h_isTTY h ∧
  (∀ p, h_readFile h' p = h_readFile h p) ∧ (∀ p, h_checkFile h' p = h_checkFile h p) ∧
  (∀ l, h_prompt h' l = h_prompt h l).

Lemma Acquire_env vars h h' req s :
  same_but_env vars h h' → rq_EnvFileVar req ∉ vars → rq_EnvVar req ∉ vars → Acquire h' req s = Acquire h req s.
Proof.
  intros (He & Ht & Hr & Hc & Hp) H1 H2.
  assert (R : ∀ p, readSecretFile h' p = readSecretFile h p) by (intros p; unfold readSecretFile; by rewrite Hc, Hr).
  unfold Acquire, env_file, env_value. rewrite (He _ H1), (He _ H2), Ht, Hp.
  destruct (rq_StdinFlag req); [done|]. destruct (negb _); [by rewrite R|].
  destruct (if bool_decide (rq_EnvFileVar req = "") then _ else _); [by rewrite R|done].
Qed.
