(* ===== verification/Ens.v ===== *)
(** * ENS: [internal/ens], and the resolution surface [internal/service/ens.go]

    The hash of a name, the three reads of the resolution, the decoding of
    their answers, forward resolution, the reverse lookup that is verified
    forward, and the use cases over them.  The state of a resolution is the
    outside, which every read of the chain may change.  The properties are at
    the end: a reverse name is verified forward, a resolved address is a real
    one, and two names share a node only where the hash collides. *)

From S2P Require Import Prelude GoStrings Decimal HexBytes Encodings PolicyTypes Domain Samples Calldata Gas Service.

(** ** ENS: [internal/ens], and the resolution surface [internal/service/ens.go]

    The hash of a name, the three reads of the resolution, the decoding of
    their answers, forward resolution, the reverse lookup that is verified
    forward, and the use cases over them.  The state of a resolution is the
    outside, which every read of the chain may change. *)

Local Open Scope string_scope.
Local Open Scope Z_scope.
Local Open Scope list_scope.
Local Open Scope go_scope.

(** ** Names (normalize.go, namehash.go) *)

(** strings.TrimSuffix(name, ".") *)
Definition trim_dot (name : string) : string :=
  match srev name with
  | String c r => if byteZ c =? 46 then srev r else name
  | "" => name
  end.

(** strings.Split(s, ".") *)
Fixpoint split_dots (s : string) : list string :=
  match s with
  | "" => [""]
  | String c s =>
      if byteZ c =? 46 then "" :: split_dots s
      else match split_dots s with
           | l :: ls => String c l :: ls
           | [] => [String c ""]
           end
  end.

(** the rune loop folds ASCII letters and writes U+FFFD for a byte that is no rune *)
Definition normalize (name : string) : string * bool * bool :=
  let name := trim_dot name in
  if bool_decide (name = "") then ("", true, true) else
  let out := string_map lower_byte (coerce name) in
  (out, is_ascii name, negb (existsb (λ l, bool_decide (l = "")) (split_dots out))).

(** 32 zero bytes *)
Definition root_node : string := be_bytes 32 0.

(** ** The ABI (abi.go) *)

Definition sigResolver := "resolver(bytes32)".
Definition sigAddr := "addr(bytes32)".
Definition sigName := "name(bytes32)".

(** common.BytesToAddress of a word *)
Definition decodeAddress (out : string) : option Address :=
  if (String.length out <? 32)%nat then None else Some (SetBytes (stake 32 out) mod 2 ^ 160).

(** [out[i:i+n]] in bounds *)
Definition slice (i n : Z) (out : string) : string := stake (Z.to_nat n) (sdrop (Z.to_nat i) out).

Definition is_uint64 (n : Z) : bool := n <? 2 ^ 64.

Definition decodeString (out : string) : option string :=
  let len := Z.of_nat (String.length out) in
  if len <? 64 then None else
  let o := SetBytes (slice 0 32 out) in
  if negb (is_uint64 o) then None
  else if (len <? o) || (len - o <? 32) then None else
  let l := SetBytes (slice o 32 out) in
  if negb (is_uint64 l) then None else
  let start := o + 32 in
  if (len <? l) || (len - start <? l) then None
  else Some (slice start l out).

(** ** Registries (registry.go) *)

Definition RegistryAddr := "0x00000000000C2E074eC69A0dFb2997BA6C7d2e1e".
Definition chainMainnet : Z := 1.
Definition chainSepolia : Z := 11155111.

Inductive ensError := ErrPinChanged | ErrNoRegistry | ErrUnresolved | Transport (e : GoError).

(** the endpoint of a resolution *)
Class EnsChain (N : Type) := {
  ens_ClientFor : string → string → N → res error unit * N;   (* network and rpc of the request *)
  ens_ChainID : N → res GoError (option Z) * N;
  ens_Call : Address → string → N → res GoError string * N;   (* eth_call at the latest block *)
}.

Section Resolve.
Context {N : Type} {GC : GethCommon} {KC : Keccak} {EC : EnsChain N}.
(** the test overrides, empty in production *)
Variable testRegistries : gmap string Address.

Definition labelhash (label : string) : string := Keccak256 label.

(** one step of the loop of Namehash, which runs from the last label to the first *)
Definition fold_label (label node : string) : string := Keccak256 (node +:+ labelhash label).

Definition Namehash (name : string) : string :=
  if bool_decide (name = "") then root_node else foldr fold_label root_node (split_dots name).

(** hex.EncodeToString of the bytes of an address *)
Definition reverseNode (a : Address) : string := Namehash (hexEncode (be_bytes 20 a) +:+ ".addr.reverse").

Definition RegistryFor (chainID : option Z) : res ensError Address :=
  match chainID with
  | None => Err ErrNoRegistry
  | Some id =>
      match testRegistries !! z_string id with
      | Some a => Ok a
      | None => if (id =? chainMainnet) || (id =? chainSepolia) then Ok (HexToAddress RegistryAddr) else Err ErrNoRegistry
      end
  end.

(** ** The reads, in the monad of the outside *)

Definition EM (A : Type) : Type := N → res ensError A * N.
Definition eret {A} (a : A) : EM A := λ n, (Ok a, n).
Definition efail {A} (e : ensError) : EM A := λ n, (Err e, n).
Definition ebind {A B} (m : EM A) (k : A → EM B) : EM B := λ n,
  match m n with (Ok a, n') => k a n' | (Err e, n') => (Err e, n') end.
Definition elift {A} (r : res ensError A) : EM A := λ n, (r, n).
Definition eask {A} (f : N → res GoError A * N) : EM A := λ n,
  match f n with (Ok a, n') => (Ok a, n') | (Err e, n') => (Err (Transport e), n') end.

Local Notation "x <~ m ;; k" := (ebind m (fun x => k)) (at level 100, m at next level, right associativity).

Definition callNode (to : Address) (sig node : string) : EM string := eask (ens_Call to (selector sig +:+ node)).

Definition registryForClient : EM Address := id <~ eask ens_ChainID ;; elift (RegistryFor id).

(** an address answer that is there and not zero *)
Definition nonzero_address (out : string) : option Address :=
  match decodeAddress out with
  | Some a => if a =? 0 then None else Some a
  | None => None
  end.

Definition resolveNode (registry : Address) (name : string) : EM Address :=
  let '(norm, _, ok) := normalize name in
  if negb ok || bool_decide (norm = "") then efail ErrUnresolved else
  let node := Namehash norm in
  out <~ callNode registry sigResolver node ;;
  match nonzero_address out with
  | None => efail ErrUnresolved
  | Some resolver =>
      out <~ callNode resolver sigAddr node ;;
      match nonzero_address out with
      | None => efail ErrUnresolved
      | Some addr => eret addr
      end
  end.

Definition Resolve (name : string) : EM Address := reg <~ registryForClient ;; resolveNode reg name.

(** the forward verification: an unresolved name is untrusted, any other failure is returned *)
Definition verify_forward {UT : UnicodeTables} (reg a : Address) (name : string) : EM string := λ n,
  match resolveNode reg name n with
  | (Ok fwd, n') => (Ok (if fwd =? a then name else ""), n')
  | (Err ErrUnresolved, n') => (Ok "", n')
  | (Err e, n') => (Err e, n')
  end.

Definition Reverse {UT : UnicodeTables} (a : Address) : EM string :=
  reg <~ registryForClient ;;
  let rnode := reverseNode a in
  out <~ callNode reg sigResolver rnode ;;
  match nonzero_address out with
  | None => eret ""
  | Some resolver =>
      out <~ callNode resolver sigName rnode ;;
      match decodeString out with
      | None => eret ""
      | Some name =>
          let name := TrimSpace name in
          if bool_decide (name = "") then eret "" else verify_forward reg a name
      end
  end.

(** ResolvePinned returns the fresh address beside the error *)
Definition ResolvePinned (name : string) (pinned : Address) : N → (Address * option ensError) * N := λ n,
  match Resolve name n with
  | (Ok got, n') => ((got, if got =? pinned then None else Some ErrPinChanged), n')
  | (Err e, n') => ((0, Some e), n')
  end.

(** ** The use cases (service/ens.go) *)

Definition mapENSErr (e : ensError) (subject : string) : error :=
  match e with
  | ErrUnresolved => New "ref.not_found" ("ENS name " +:+ go_quote subject +:+ " does not resolve on this network")
  | ErrNoRegistry => New "usage.unsupported"
      ("this network has no ENS registry; " +:+ go_quote subject +:+ " cannot be resolved here")
  | ErrPinChanged => New "policy.denied.pin_drift"
      ("ENS name " +:+ go_quote subject +:+ " resolves to a different address than the allow-time pin")
  | Transport e => mapRPCErr e
  end.

(** the client of the request, then a resolution whose error is mapped *)
Definition with_client {A} (network rpc subject : string) (m : EM A) : N → res error A * N := λ n,
  match ens_ClientFor network rpc n with
  | (Err e, n') => (Err e, n')
  | (Ok _, n') =>
      match m n' with
      | (Ok a, n'') => (Ok a, n'')
      | (Err e, n'') => (Err (mapENSErr e subject), n'')
      end
  end.

(** networkName *)
Definition firstNonEmpty (l : list string) : string :=
  default "" (List.find (λ s, negb (bool_decide (s = ""))) l).

Record EnsResolveRequest := mkEnsResolve { er_Name : string; er_Network : string; er_RPC : string }.
Record EnsResolveResult := mkEnsResolved { es_Name : string; es_Address : string; es_Network : string }.
Record EnsReverseRequest := mkEnsReverse { ev_Address : string; ev_Network : string; ev_RPC : string }.
Record EnsReverseResult := mkEnsReversed { ew_Address : string; ew_Name : string; ew_Verified : bool; ew_Network : string }.

(** the detail of emitResolved *)
Definition resolved_detail (addr detail : string) : string :=
  if bool_decide (addr = "") then detail else detail +:+ " (" +:+ addr +:+ ")".

(** the network and the endpoint the process defaults to, and the configured default network *)
Variables (defaultNetwork defaultRPC configNetwork : string).

Definition networkName (reqNetwork : string) : string := firstNonEmpty [reqNetwork; defaultNetwork; configNetwork].

(** EnsResolve: the result with the detail of the event it emits *)
Definition EnsResolve (req : EnsResolveRequest) : N → res error (EnsResolveResult * string) * N := λ n,
  let name := er_Name req in
  if bool_decide (name = "")
  then (Err (New "usage.bad_ens" "an ENS name is required (e.g. vitalik.eth)"), n)
  else match with_client (er_Network req) (er_RPC req) name (Resolve name) n with
       | (Err e, n') => (Err e, n')
       | (Ok addr, n') =>
           (Ok (mkEnsResolved name (Hex addr) (networkName (er_Network req)), resolved_detail (Hex addr) ("ens " +:+ name)), n')
       end.

(** EnsReverse: the event is emitted for a verified name only *)
Definition EnsReverse {UT : UnicodeTables} (req : EnsReverseRequest)
  : N → res error (EnsReverseResult * option string) * N := λ n,
  if negb (IsHexAddress (ev_Address req))
  then (Err (New "usage.bad_address" ("reverse lookup needs a 0x address, got " +:+ go_quote (ev_Address req))), n)
  else
    let a := HexToAddress (ev_Address req) in
    match with_client (ev_Network req) (ev_RPC req) (ev_Address req) (Reverse a) n with
    | (Err e, n') => (Err e, n')
    | (Ok name, n') =>
        let verified := negb (bool_decide (name = "")) in
        (Ok (mkEnsReversed (Hex a) name verified (networkName (ev_Network req)),
             if verified then Some (resolved_detail (Hex a) ("ens reverse " +:+ name)) else None), n')
    end.

(** resolveENS, the resolution of a destination *)
Definition resolveENS (network rpc name : string) : N → res error Dest * N := λ n,
  match with_client network rpc name (Resolve name) n with
  | (Ok addr, n') => (Ok (mkDest addr name "ens" name), n')
  | (Err e, n') => (Err e, n')
  end.

(** resolveENSForPin *)
Definition resolveENSForPin (name : string) : N → res error Address * N :=
  with_client defaultNetwork defaultRPC name (Resolve name).
End Resolve.

(** ** ENS: the properties

    A reverse name is verified forward, a resolved address is a real one, and
    two names share a node only where the hash collides. *)

Local Open Scope string_scope.
Local Open Scope Z_scope.
Local Open Scope list_scope.
Local Open Scope go_scope.

Section Names.
Context {KC : Keccak}.

(** ** Labels *)

Lemma split_dots_cons s : ∃ l ls, split_dots s = l :: ls.
Proof. induction s as [|c s (l & ls & E)]; cbn [split_dots]; [eauto|]. rewrite E. destruct (_ =? _); eauto. Qed.

(** strings.Join(strings.Split(s, "."), ".") *)
Lemma join_split s : String.concat "." (split_dots s) = s.
Proof.
  induction s as [|c s IH]; [done|]. cbn [split_dots]. destruct (split_dots_cons s) as (l & ls & E). rewrite E in *.
  destruct (Z.eqb_spec (byteZ c) 46) as [Hc|_].
  - change (String.concat "." ("" :: l :: ls)) with (String (Zbyte 46) (String.concat "." (l :: ls))). rewrite IH. f_equal.
    apply byteZ_inj. by rewrite Hc.
  - destruct ls as [|m ls]; cbn [String.concat] in *; [by rewrite IH|]. by rewrite <-IH.
Qed.

Lemma split_dots_inj s t : split_dots s = split_dots t → s = t.
Proof. intros H. by rewrite <-(join_split s), <-(join_split t), H. Qed.

(** ** Nodes *)

(** the hash has a collision, or a preimage of the root node *)
Definition hash_broken : Prop :=
  (∃ x y, x ≠ y ∧ Keccak256 x = Keccak256 y) ∨ ∃ x, Keccak256 x = root_node.

Lemma app_inj_32 s s' t t' : String.length s = 32%nat → String.length s' = 32%nat → s +:+ t = s' +:+ t' → s = s' ∧ t = t'.
Proof.
  intros H1 H2 E. pose proof (stake_app s t) as A1. pose proof (stake_app s' t') as A2. rewrite H1 in A1. rewrite H2 in A2.
  assert (s = s') as <- by congruence. split; [done|]. revert E. clear. induction s as [|c s IH]; [done|].
  rewrite !string_app_cons. intros [= E]. by apply IH.
Qed.

Lemma keccak_inj x y : Keccak256 x = Keccak256 y → x = y ∨ hash_broken.
Proof. intros H. destruct (decide (x = y)) as [|Hn]; [by left|right; left; eauto]. Qed.

Lemma labels_inj ls ms :
  (∀ s, String.length (Keccak256 s) = 32%nat) →
  foldr fold_label root_node ls = foldr fold_label root_node ms → ls = ms ∨ hash_broken.
Proof.
  intros H32. assert (N32 : ∀ xs, String.length (foldr fold_label root_node xs) = 32%nat).
  { intros [|x xs]; [apply be_bytes_length|apply H32]. }
  revert ms. induction ls as [|l ls IH]; intros [|m ms] H; cbn [foldr] in H.
  - by left.
  - right; right. by eexists.
  - right; right. by eexists.
  - apply keccak_inj in H as [H|]; [|by right]. apply app_inj_32 in H as [Hn Hl]; [|apply N32..].
    apply keccak_inj in Hl as [->|]; [|by right]. apply IH in Hn as [->|]; [by left|by right].
Qed.

(** Two names have one node only where the hash breaks.  When Keccak-256
    gives 32 bytes, two names with the same EIP-137 node are the same text, or
    Keccak-256 has a collision, or a preimage of the all-zero root node: no
    splitting at the dots, no label and no order of the labels confuses them. *)
Theorem distinct_names_distinct_nodes x y :
  (∀ s, String.length (Keccak256 s) = 32%nat) → Namehash x = Namehash y → x = y ∨ hash_broken.
Proof.
  intros H32. unfold Namehash. case_bool_decide as Hx; case_bool_decide as Hy; intros H.
  - left. congruence.
  - right. right. destruct (split_dots_cons y) as (l & ls & E). rewrite E in H. by eexists.
  - right. right. destruct (split_dots_cons x) as (l & ls & E). rewrite E in H. by eexists.
  - apply labels_inj in H as [H|]; [|by right|done]. left. by apply split_dots_inj.
Qed.
End Names.

(** ** Answers *)

Section Answers.
Context {N : Type} {UT : UnicodeTables} {GC : GethCommon} {KC : Keccak} {EC : EnsChain N}.
Variable tests : gmap string Address.

Lemma ebind_ok {A B} (m : EM (N := N) A) (k : A → EM B) n b n' :
  ebind m k n = (Ok b, n') → ∃ a n1, m n = (Ok a, n1) ∧ k a n1 = (Ok b, n').
Proof. unfold ebind. destruct (m n) as [[a|e] n1]; [|done]. eauto. Qed.

Lemma nonzero_address_ok out a : nonzero_address out = Some a → a ≠ 0 ∧ valid_addr a.
Proof.
  unfold nonzero_address, decodeAddress. destruct (_ <? _)%nat; [done|]. set (v := _ mod _).
  destruct (Z.eqb_spec v 0); [done|]. intros [= <-]. split; [done|]. unfold valid_addr, v. apply Z.mod_pos_bound. lia.
Qed.

(** what a successful resolution read *)
Lemma resolveNode_ok reg name n a n' :
  resolveNode reg name n = (Ok a, n') →
  a ≠ 0 ∧ valid_addr a ∧
  ∃ norm ascii, normalize name = (norm, ascii, true) ∧ norm ≠ "" ∧
  ∃ resolver out1 out2 n1, resolver ≠ 0 ∧
    ens_Call reg (selector sigResolver +:+ Namehash norm) n = (Ok out1, n1) ∧ decodeAddress out1 = Some resolver ∧
    ens_Call resolver (selector sigAddr +:+ Namehash norm) n1 = (Ok out2, n') ∧ decodeAddress out2 = Some a.
Proof.
  unfold resolveNode. destruct (normalize name) as [[norm asc] ok]. destruct ok; [|done]. cbn [negb orb].
  case_bool_decide as Hne; [done|].
  intros (out1 & n1 & H1 & H)%ebind_ok. destruct (nonzero_address out1) as [r|] eqn:E1; [|done].
  apply ebind_ok in H as (out2 & n2 & H2 & H). destruct (nonzero_address out2) as [x|] eqn:E2; [|done].
  injection H as <- <-. pose proof (nonzero_address_ok _ _ E1) as [Hr _]. pose proof (nonzero_address_ok _ _ E2) as [Hx Hv].
  split; [done|split; [done|]]. exists norm, asc. split; [done|split; [done|]]. exists r, out1, out2, n1. split; [done|].
  assert (D : ∀ o y, nonzero_address o = Some y → decodeAddress o = Some y).
  { intros o y. unfold nonzero_address. destruct (decodeAddress o) as [z|]; [|done]. by destruct (z =? 0). }
  unfold callNode, eask in H1, H2. split_and!; [| by apply D | | by apply D].
  - clear -H1; revert H1; destruct (ens_Call reg _ n) as [[] ?]; [by intros [= -> ->]|discriminate].
  - clear -H2; revert H2; destruct (ens_Call r _ n1) as [[] ?]; [by intros [= -> ->]|discriminate].
Qed.

(** C39: no name is shown for an address it does not lead to.  A reverse lookup
    that succeeds ended either without a name or with a name that, by the reads
    that ended the lookup, resolves forward in the network's registry to the
    very address: the registry named a resolver for the name's node, and the
    resolver gave that address, which is not zero.  So a reverse record that
    someone else controls never names an address on its own, and the zero
    address has no name. *)
Theorem reverse_name_verified a n name n' :
  Reverse tests a n = (Ok name, n') → name ≠ "" →
  a ≠ 0 ∧ ∃ reg n0 n1, registryForClient tests n = (Ok reg, n0) ∧ resolveNode reg name n1 = (Ok a, n') ∧
  ∃ norm resolver out1 out2 n2, (normalize name).1.1 = norm ∧
    ens_Call reg (selector sigResolver +:+ Namehash norm) n1 = (Ok out1, n2) ∧ decodeAddress out1 = Some resolver ∧
    ens_Call resolver (selector sigAddr +:+ Namehash norm) n2 = (Ok out2, n') ∧ decodeAddress out2 = Some a.
Proof.
  unfold Reverse. intros (reg & n0 & Hreg & H)%ebind_ok Hne. apply ebind_ok in H as (out & m1 & _ & H).
  destruct (nonzero_address out) as [r|]; [|by injection H as <- _]. apply ebind_ok in H as (out' & m2 & _ & H).
  destruct (decodeString out') as [raw|]; [|by injection H as <- _].
  case_bool_decide; [by injection H as <- _|]. unfold verify_forward in H.
  destruct (resolveNode reg (TrimSpace raw) m2) as [[fwd|[]] m3] eqn:E; try done; [|by injection H as <- _].
  destruct (Z.eqb_spec fwd a) as [->|]; injection H as <- <-; [|done].
  destruct (resolveNode_ok _ _ _ _ _ E) as (Ha & _ & norm & asc & Hn & _ & r1 & o1 & o2 & k & _ & H1 & H2 & H3 & H4).
  split; [done|]. exists reg, n0, m2. split; [done|split; [done|]]. exists norm, r1, o1, o2, k. by rewrite Hn.
Qed.

(** A resolved name is a destination.  Resolution, and the echo and pins
    that follow it, give an address only from the network's registry and never
    the zero address; a name without a resolver, with an empty record or an
    empty label is not found, so nothing is sent to the burn address for it. *)
Theorem resolved_address_real name n a n' :
  Resolve tests name n = (Ok a, n') → a ≠ 0 ∧ valid_addr a ∧
  ∃ reg n0, registryForClient tests n = (Ok reg, n0) ∧ resolveNode reg name n0 = (Ok a, n') ∧ (normalize name).2 = true.
Proof.
  unfold Resolve. intros (reg & n0 & Hreg & H)%ebind_ok. destruct (resolveNode_ok _ _ _ _ _ H) as (H1 & H2 & norm & asc & Hn & _).
  split; [done|split; [done|]]. exists reg, n0. by rewrite Hn.
Qed.
End Answers.

(** ** A sample chain with ENS records, and the witnesses of its properties

    A node whose registry gives one resolver, with the forward record of
    alice.eth and the reverse record of her address; the hash is a polynomial
    of the bytes, cut to 32. *)

Local Open Scope string_scope.
Local Open Scope Z_scope.
Local Open Scope list_scope.

Definition word_of_selector (n : Z) : string := be_bytes 4 n +:+ be_bytes 28 0.

Definition toy_hash (s : string) : string :=
  if bool_decide (s = sigTransfer) then word_of_selector 0xa9059cbb
  else if bool_decide (s = sigApprove) then word_of_selector 0x095ea7b3
  else if bool_decide (s = sigSafeTransferFrom721) then word_of_selector 0x42842e0e
  else if bool_decide (s = sigSafeTransferFrom1155) then word_of_selector 0xf242432a
  else be_bytes 32 (be_value 7 s mod (2 ^ 256 - 189)).

#[export] Instance toy_keccak : Keccak := {|
  Keccak256 := toy_hash;
  Keccak_transfer := eq_refl; Keccak_approve := eq_refl;
  Keccak_safe721 := eq_refl; Keccak_safe1155 := eq_refl;
|}.

Lemma toy_size s : String.length (Keccak256 s) = 32%nat.
Proof.
  change (String.length (toy_hash s) = 32%nat). unfold toy_hash, word_of_selector.
  repeat case_bool_decide; [reflexivity..|apply be_bytes_length].
Qed.

Definition word (n : Z) : string := be_bytes 32 n.

(** the canonical encoding of a dynamic string *)
Definition abi_string (s : string) : string :=
  word 32 +:+ word (Z.of_nat (String.length s)) +:+ s +:+ be_bytes ((32 - String.length s mod 32) mod 32) 0.

Definition alice : Address := 0xa11ce.
Definition the_resolver : Address := 0x77.

Definition ens_records : list (Address * string * string) :=
  [(HexToAddress RegistryAddr, selector sigResolver +:+ reverseNode alice, word the_resolver);
   (the_resolver, selector sigName +:+ reverseNode alice, abi_string "alice.eth");
   (HexToAddress RegistryAddr, selector sigResolver +:+ Namehash "alice.eth", word the_resolver);
   (the_resolver, selector sigAddr +:+ Namehash "alice.eth", word alice)].

Definition answer_of (to : Address) (data : string) (l : list (Address * string * string)) : string :=
  match List.find (λ r, bool_decide (r.1 = (to, data))) l with Some r => r.2 | None => "" end.

(** the outside counts the reads *)
#[export] Instance sample_ens : EnsChain Z := {|
  ens_ClientFor := λ _ _ n, (Ok tt, n);
  ens_ChainID := λ n, (Ok (Some 1), n + 1);
  ens_Call := λ to data n, (Ok (answer_of to data ens_records), n + 1);
|}.

Lemma distinct_names_distinct_nodes_witness :
  (∀ s, String.length (Keccak256 s) = 32%nat) ∧ Namehash "alice.eth" = Namehash "alice.eth" ∧
  ("alice.eth" = "alice.eth" ∨ hash_broken).
Proof.
  split; [exact toy_size|split; [reflexivity|]].
  exact (distinct_names_distinct_nodes "alice.eth" "alice.eth" toy_size eq_refl).
Defined.

Lemma reverse_name_verified_witness :
  Reverse ∅ alice 0 = (Ok "alice.eth", 5) ∧ alice ≠ 0 ∧
  ∃ reg n0 n1, registryForClient ∅ 0 = (Ok reg, n0) ∧ resolveNode reg "alice.eth" n1 = (Ok alice, 5).
Proof.
  assert (H : Reverse ∅ alice 0 = (Ok "alice.eth", 5)) by (vm_compute; reflexivity).
  split; [exact H|]. destruct (reverse_name_verified ∅ alice 0 "alice.eth" 5 H ltac:(discriminate))
    as (Ha & reg & n0 & n1 & Hr & Hn & _).
  split; [exact Ha|]. exact (ex_intro _ reg (ex_intro _ n0 (ex_intro _ n1 (conj Hr Hn)))).
Defined.

Lemma resolved_address_real_witness :
  Resolve ∅ "Alice.ETH" 0 = (Ok alice, 3) ∧ alice ≠ 0 ∧ valid_addr alice.
Proof.
  assert (H : Resolve ∅ "Alice.ETH" 0 = (Ok alice, 3)) by (vm_compute; reflexivity).
  split; [exact H|]. destruct (resolved_address_real ∅ "Alice.ETH" 0 alice 3 H) as (H1 & H2 & _).
  exact (conj H1 H2).
Defined.
