(* ===== verification/PolicyService.v ===== *)
(** * The policy use cases: [internal/service/policy.go], [internal/config/anchor.go]

    Every `policy` command: the admin passphrase is acquired, names are resolved
    now, the engine writes policy.json and returns the anchor, and the anchor is
    written to the configuration second, or staged, or only shown where the
    configuration is read-only.  The state of a command is the standard input,
    policy.json, the anchor file, the staged anchors, the engine's disk and the
    outside; everything the command does not change is its environment. *)

From S2P Require Import Prelude GoStrings Decimal Rfc3339 HexBytes Encodings Json PolicyTypes PolicyBody Seal Domain PolicyFile Trace Evaluate Counter Reservation Engine PolicyAdmin Calldata Gas Service Send Refs Registry Secret Ens.

Local Open Scope string_scope.
Local Open Scope Z_scope.
Local Open Scope list_scope.
Local Open Scope go_scope.

(** ** Wire types *)

Record PolicyLimitsView := mkLimitsView {
  lv_MaxTxWei : string; lv_MaxDayWei : string; lv_MaxGasPriceWei : string; lv_Allowlist : string; lv_IncludeSelf : string }.
Record PolicyNetView := mkNetView { nv_Network : string; nv_Limits : PolicyLimitsView }.
Record PolicyPinView := mkPinView { pv_Source : string; pv_Address : string; pv_Name : string; pv_Label : string }.

Record PolicyShowResult := mkShow {
  sh_Active : bool; sh_Present : bool; sh_Verified : bool; sh_Nonce : Z; sh_Watermark : Z; sh_WrittenBy : string;
  sh_AnchorSource : string; sh_Reason : string; sh_Messages : string; sh_Default : PolicyLimitsView;
  sh_Networks : list PolicyNetView; sh_Allowlist : list PolicyPinView; sh_Denylist : list PolicyPinView;
  sh_Self : list string;
}.

Record PolicyMutateResult := mkMutate {
  mr_Nonce : Z; mr_Watermark : Z; mr_AnchorWritten : bool; mr_AnchorPath : string; mr_AnchorJSON : string;
  mr_VerifyKey : string; mr_VerifyKeyNext : string; mr_Bootstrapped : bool;
  mr_Source : string; mr_Name : string; mr_Pinned : string; mr_ResolvedAt : string;
  mr_TypedChainID : Z; mr_TypedContract : string; mr_TypedPrimaryType : string; mr_TypedRemoved : bool;
  mr_ContractNetwork : string; mr_ContractAddr : string; mr_ContractSelector : string; mr_ContractRemoved : bool;
}.

(** PolicyViolView has the fields of a violation *)
Record PolicyCheckResult := mkCheckResult {
  cr_Allowed : bool; cr_Code : string; cr_Reason : string; cr_RetryAfter : string; cr_Violations : list Violation }.

Record PolicyPinResult := mkPinResult {
  pn_VerifyKey : string; pn_VerifyKeyNext : string; pn_AnchorJSON : string; pn_Verifies : bool }.

Record PolicySetRequest := mkSetRequest {
  sr_Network : string; sr_MaxTx : option string; sr_MaxDay : option string; sr_MaxGasPrice : option string;
  sr_Allowlist : option string; sr_IncludeSelf : option string; sr_TypedUnknown : option string;
  sr_Messages : option string; sr_TokensNoAllow : option string; sr_AnchorOut : string }.

(** PolicyAllowRequest, which is PolicyDenyRequest too *)
Record PolicyAllowRequest := mkAllowRequest {
  al_Source : string; al_Address : string; al_Name : string; al_Label : string; al_Remove : bool; al_AnchorOut : string }.

Record PolicyTypedAllowRequest := mkTypedRequest {
  ty_ChainID : Z; ty_VerifyingContract : string; ty_PrimaryType : string; ty_Label : string; ty_Remove : bool;
  ty_AnchorOut : string }.

Record PolicyContractAllowRequest := mkContractRequest {
  cq_Network : string; cq_Contract : string; cq_Selector : string; cq_Label : string; cq_Remove : bool;
  cq_AnchorOut : string }.

Record PolicyCheckRequest := mkCheckRequest {
  pq_From : string; pq_To : string; pq_Amount : string; pq_MaxGasPrice : string; pq_Network : string }.

(** ** Views *)

Definition triStr (p : option string) : string :=
  match p with
  | None => ""
  | Some s => if bool_decide (s = nullSentinel) then "none" else s
  end.

Definition boolTri (p : option bool) : string :=
  match p with None => "" | Some true => "on" | Some false => "off" end.

Definition limitsView (l : Limits) : PolicyLimitsView :=
  mkLimitsView (triStr (MaxTxWei l)) (triStr (MaxDayWei l)) (triStr (MaxGasPriceWei l))
    (boolTri (AllowlistEnabled l)) (boolTri (IncludeSelf l)).

Definition pinsView (pins : list PinEntry) : list PolicyPinView :=
  map (λ p, mkPinView (pe_Source p) (pe_Address p) (pe_Name p) (pe_Label p)) pins.

Definition deniedCode (code : string) : string := if bool_decide (code = "") then "policy.denied" else code.

(** withPinEcho *)
Definition withPinEcho (res : PolicyMutateResult) (pin : PinEntry) (remove : bool) : PolicyMutateResult :=
  if remove || bool_decide (pe_ResolvedAt pin = "") ||
     (negb (bool_decide (pe_Source pin = "ens")) && negb (bool_decide (pe_Source pin = "contact")))
  then res
  else let '(mkMutate a b c d e f g h _ _ _ _ i j k l m n o p) := res in
       mkMutate a b c d e f g h (pe_Source pin) (pe_Name pin) (pe_Address pin) (pe_ResolvedAt pin) i j k l m n o p.

(** ** The environment of a command *)

(** a failure of package fsx: a read-only mount, or another with its text *)
Inductive FsFail := FsIsReadOnly | FsFails (msg : string).

Record PolicyEnv := mkPolicyEnv {
  pv_host : Host;
  pv_version : string;                              (* version.Version *)
  pv_anchorPath : string;
  pv_configDir : string;
  pv_defaultNetwork : string;
  pv_accounts : option (string → list Address);      (* the engine's hook *)
  pv_keys : option (res error (list Address));       (* ListAccounts; None is a nil keystore *)
  pv_salt : option string;                          (* what NewSalt draws *)
  pv_write : option error;                          (* the write of policy.json *)
  pv_mkdir : option FsFail;                         (* the configuration directory *)
  pv_lock : option FsFail;
  pv_writeAnchor : option FsFail;
  pv_staging : option FsFail;
  pv_registry : RegistryIO;
  pv_engine : IO;
  pv_pinned_at : Z;                                 (* s.Now of a resolution *)
  pv_added_at : Z;
  pv_now : Z;                                       (* the engine's clock *)
}.

Record Stores (N : Type) := mkStores {
  st_stdin : Stdin;
  st_policy : PFile;
  st_config : option string;                        (* policy-anchor.json *)
  st_staged : gmap string string;                   (* the --anchor-out files *)
  st_registry : Dir;
  st_disk : Disk;
  st_outside : N;
}.
Arguments mkStores {N}. Arguments st_stdin {N}. Arguments st_policy {N}. Arguments st_config {N}.
Arguments st_staged {N}. Arguments st_registry {N}. Arguments st_disk {N}. Arguments st_outside {N}.

Section Use.
Context {N : Type} {UT : UnicodeTables} {GC : GethCommon} {RC : LineCodec Reservation} {SS : SortSlice}
        {SC : SealCrypto} {KC : Keccak} {EC : EnsChain N} {AJ : AddressJSON}.
Variables (env : PolicyEnv) (testRegistries : gmap string Address) (defaultRPC : string).

(** the anchor of the engine, read at Open *)
Variable anchor : option Anchor.

Definition PSM (A : Type) : Type := T (Stores N) A.

Definition put_stdin (s : Stores N) (x : Stdin) : Stores N :=
  mkStores x (st_policy s) (st_config s) (st_staged s) (st_registry s) (st_disk s) (st_outside s).
Definition put_policy (s : Stores N) (x : PFile) : Stores N :=
  mkStores (st_stdin s) x (st_config s) (st_staged s) (st_registry s) (st_disk s) (st_outside s).
Definition put_config (s : Stores N) (x : option string) : Stores N :=
  mkStores (st_stdin s) (st_policy s) x (st_staged s) (st_registry s) (st_disk s) (st_outside s).
Definition put_staged (s : Stores N) (x : gmap string string) : Stores N :=
  mkStores (st_stdin s) (st_policy s) (st_config s) x (st_registry s) (st_disk s) (st_outside s).
Definition put_disk (s : Stores N) (x : Disk) : Stores N :=
  mkStores (st_stdin s) (st_policy s) (st_config s) (st_staged s) (st_registry s) x (st_outside s).
Definition put_outside (s : Stores N) (x : N) : Stores N :=
  mkStores (st_stdin s) (st_policy s) (st_config s) (st_staged s) (st_registry s) (st_disk s) x.

(** the engine's operations, a passphrase, a question to the chain *)
Definition on_policy {A} (op : PM A) : PSM A := mzoom st_policy put_policy op.
Definition on_stdin {A} (op : T Stdin A) : PSM A := mzoom st_stdin put_stdin op.
Definition ask_chain {A} (f : N → res error A * N) : PSM (res error A) := λ s,
  let '(a, n) := f (st_outside s) in (Ok a, [put_outside s n]).

Definition acquire_admin (inp : AdminInput) : PSM string :=
  x <-- on_stdin (acquireAdmin (pv_host env) inp) ;; mret x.1.

(** ** The anchor file (config/anchor.go) *)

Definition readOnlyErr (file : string) : error :=
  WithData (New "config.read_only" ("config file " +:+ file +:+
    " is on a read-only mount; set the value in the ConfigMap, pass the flag per call, or use the DAXIE_* env override"))
    {["file" := DVal (DStr file)]}.

Definition mapLockErr (file : string) (cause : FsFail) : error :=
  match cause with
  | FsIsReadOnly => readOnlyErr file
  | FsFails msg => WithData (New "state.lock_timeout" ("could not acquire the config lock for " +:+ file +:+ ": " +:+ msg))
                     {["file" := DVal (DStr file)]}
  end.

Definition WriteAnchor (raw : string) : PSM unit :=
  match pv_mkdir env with
  | Some FsIsReadOnly => mfail (readOnlyErr (pv_anchorPath env))
  | Some (FsFails msg) => mfail (New "config.invalid" ("creating config dir " +:+ pv_configDir env +:+ ": " +:+ msg))
  | None =>
  match pv_lock env with
  | Some f => mfail (mapLockErr (pv_anchorPath env) f)
  | None =>
  match pv_writeAnchor env with
  | Some FsIsReadOnly => mfail (readOnlyErr (pv_anchorPath env))
  | Some (FsFails msg) =>
      mfail (New "config.invalid" ("writing the policy anchor " +:+ pv_anchorPath env +:+ ": " +:+ msg))
  | None => λ s, (Ok tt, [put_config s (Some raw)])
  end end end.

Definition AnchorIsReadOnly (e : error) : bool := bool_decide (e_Code e = "config.read_only").

(** what Open makes of the anchor file (service.go) *)
Definition open_anchor (config : option string) : res error (option Anchor) :=
  match config with
  | None => Ok None
  | Some raw =>
      match ParseAnchor raw with
      | Ok a => Ok (Some a)
      | Err _ => Err (New "policy.seal_violation"
          "the policy anchor is present but unparseable; signing is halted until it is repaired")
      end
  end.

(** ** Finishing a mutation *)

Definition writeAnchorStaging (path b : string) : PSM unit :=
  match pv_staging env with
  | Some FsIsReadOnly => mfail (New "config.read_only" ("the --anchor-out path " +:+ go_quote path +:+ " is not writable"))
  | Some (FsFails _) => mfail (New "policy.state_error" ("cannot write the anchor to " +:+ path))
  | None => λ s, (Ok tt, [put_staged s (<[path := b]> (st_staged s))])
  end.

Definition mutate_result (a : Anchor) (b path : string) (written bootstrapped : bool) : PolicyMutateResult :=
  mkMutate (an_NonceWatermark a) (an_NonceWatermark a) written path b (an_VerifyKey a) "" bootstrapped
    "" "" "" "" 0 "" "" false "" "" "" false.

Definition finishMutation (a : Anchor) (anchorOut : string) (bootstrapped : bool) : PSM PolicyMutateResult :=
  match Marshal a with
  | Err _ => mfail (New "policy.state_error" "cannot marshal the new anchor")
  | Ok b =>
      if negb (bool_decide (anchorOut = ""))
      then writeAnchorStaging anchorOut b ;;; mret (mutate_result a b anchorOut false bootstrapped)
      else
        failed <-- mtry (WriteAnchor b) ;;
        match failed with
        | None => mret (mutate_result a b (pv_anchorPath env) true bootstrapped)
        | Some e => if AnchorIsReadOnly e then mret (mutate_result a b (pv_anchorPath env) false bootstrapped) else mfail e
        end
  end.

(** selfSnapshot: a nil slice where the keystore is missing or fails *)
Definition selfSnapshot : option (list Address) :=
  match pv_keys env with Some (Ok l) => Some l | _ => None end.

(** ** Parsing a request *)

(** setWei: a flag that was not given and an inherited amount are both nil *)
Definition setWei (raw : option string) (isFee : bool) (label : string) : res error (option string) :=
  match raw with
  | None => Ok None
  | Some raw =>
      let v := TrimSpace raw in
      let l := ToLower v in
      if bool_decide (l = "none") || bool_decide (l = "null") then Ok nullStr
      else if bool_decide (l = "") || bool_decide (l = "inherit") then Ok None
      else let* wei := if isFee then parseFee v label else parseEthAmount v in Ok (Some (z_string wei))
  end.

Definition parseOnOff (raw : option string) (label : string) : res error (option bool) :=
  match raw with
  | None => Ok None
  | Some raw =>
      let l := ToLower (TrimSpace raw) in
      if bool_decide (l ∈ ["on"; "true"; "yes"]) then Ok (Some true)
      else if bool_decide (l ∈ ["off"; "false"; "no"]) then Ok (Some false)
      else if bool_decide (l = "") then Ok None
      else Err (New "usage.bad_flag" (label +:+ " must be on|off, got " +:+ go_quote raw))
  end.

(** the two allow|deny flags *)
Definition parse_allow_deny (raw : option string) (label : string) : res error (option string) :=
  match raw with
  | None => Ok None
  | Some raw =>
      let v := ToLower (TrimSpace raw) in
      if bool_decide (v = "allow") || bool_decide (v = "deny") then Ok (Some v)
      else Err (New "usage.bad_flag" (label +:+ " must be allow|deny, got " +:+ go_quote raw))
  end.

Definition buildChange (req : PolicySetRequest) : res error Change :=
  let* maxTx := setWei (sr_MaxTx req) false "--max-tx" in
  let* maxDay := setWei (sr_MaxDay req) false "--max-day" in
  let* maxGas := setWei (sr_MaxGasPrice req) true "--max-gas-price" in
  let* allowlist := parseOnOff (sr_Allowlist req) "--allowlist" in
  let* includeSelf := parseOnOff (sr_IncludeSelf req) "--include-self" in
  let lim := mkLimits maxTx maxDay maxGas allowlist includeSelf None in
  let touched := is_set (sr_MaxTx req) || is_set (sr_MaxDay req) || is_set (sr_MaxGasPrice req) ||
                 is_set allowlist || is_set includeSelf in
  let scoped := negb (bool_decide (sr_Network req = "")) in
  let* typedUnknown := parse_allow_deny (sr_TypedUnknown req) "--typed-unknown" in
  let* messages := parse_allow_deny (sr_Messages req) "--messages" in
  let* tokens := parseOnOff (sr_TokensNoAllow req) "--allow-tokens-without-allowlist" in
  Ok {| ch_Default := if touched && negb scoped then Some lim else None;
        ch_Networks := if touched && scoped then [mkNetworkRule (ToLower (sr_Network req)) lim] else [];
        ch_Messages := messages; ch_TokensNoAllowOK := tokens; ch_TypedUnknown := typedUnknown; ch_Tokens := [];
        ch_RefreshSelf := selfSnapshot; ch_WrittenBy := pv_version env |}.

Definition parsePolicyAddr (s label : string) : res error Address :=
  let bad := New "usage.bad_address" (label +:+ " must be a 0x address, got " +:+ go_quote s) in
  match ParseAccountRef (TrimSpace s) with
  | Ok ref => if ar_Kind ref =? RefAddress then Ok (ar_Addr ref) else Err bad
  | Err _ => Err bad
  end.

(** ** Reading *)

(** the part of the answer that the seal status fills *)
Definition status_result (st : SealStatus) (verified : bool) : PolicyShowResult :=
  mkShow (ss_AnchorFound st) (ss_Present st) verified (ss_Nonce st) (ss_Watermark st) (ss_WrittenBy st)
    (ss_AnchorSource st) (ss_Reason st) "" (mkLimitsView "" "" "" "" "") [] [] [] [].

(** PolicyShow never fails *)
Definition PolicyShow (file : PFile) : PolicyShowResult :=
  let '(pol, st, err) := Show_ file anchor in
  let res := status_result st (ss_Verified st) in
  match err with
  | Some _ => res
  | None =>
      mkShow (sh_Active res) (sh_Present res) (sh_Verified res) (sh_Nonce res) (sh_Watermark res) (sh_WrittenBy res)
        (sh_AnchorSource res) (sh_Reason res) (p_Messages pol) (limitsView (r_Default (p_Rules pol)))
        (map (λ n, mkNetView (nr_Network n) (limitsView (nr_Limits n))) (r_Networks (p_Rules pol)))
        (pinsView (p_Allowlist pol)) (pinsView (p_Denylist pol)) (p_SelfAddresses pol)
  end.

Definition PolicyVerify (file : PFile) : PolicyShowResult * option error :=
  let '(ok, st, err) := Verify_ file anchor in (status_result st (ok && ss_Verified st), err).

(** the what-if request *)
Definition what_if_check (from to : Address) (amt : Z) (gas : option Z) (network : string) : Check := {|
  c_Account := from; c_Dest := to; c_SpendWei := Some amt; c_MaxGasWei := Some 0; c_MaxFeePerGas := gas;
  c_Kind := "transfer"; c_Token := ""; c_IsRBFDelta := false; c_Acked := false; c_Network := network;
  c_KindEnum := KindUnknown; c_ToSrc := SourceRawAddress; c_ToInput := ""; c_ENSName := ""; c_ENSResolved := 0;
  c_Asset := "eth"; c_TokenAmt := None; c_Unlimited := false; c_AccountNonce := None; c_TypedUnknown := false;
  c_TypedPrimary := ""; c_TypedVerifying := ""; c_TypedChainID := 0; c_UnknownCalldata := false; c_ContractAddr := 0;
  c_Selector := "" |}.

(** the error beside a denied answer *)
Definition check_denied (res : PolicyCheckResult) : error :=
  let de := New (deniedCode (cr_Code res)) (cr_Reason res) in
  let de := if bool_decide (cr_RetryAfter res = "") then de
            else WithData de {["retry_after" := DVal (DStr (cr_RetryAfter res))]} in
  match cr_Violations res with [] => de | vs => WithData de {["violations" := DViews vs]} end.

Definition PolicyCheck (req : PolicyCheckRequest) : PSM (PolicyCheckResult * option error) :=
  from <-- mlift (parsePolicyAddr (pq_From req) "--from") ;;
  to <-- mlift (parsePolicyAddr (pq_To req) "--to") ;;
  amt <-- mlift (parseEthAmount (pq_Amount req)) ;;
  gas <-- mlift (if bool_decide (pq_MaxGasPrice req = "") then Ok None
                 else let* g := parseFee (pq_MaxGasPrice req) "--max-gas-price" in Ok (Some g)) ;;
  let network := if bool_decide (pq_Network req = "") then pv_defaultNetwork env else pq_Network req in
  s <-- mget ;;
  dec <-- mzoom st_disk put_disk
            (WhatIf (pv_engine env) (pv_accounts env) (loadActivePolicy (st_policy s) anchor)
               (what_if_check from to amt gas network) (pv_now env)) ;;
  let res := mkCheckResult (d_Allowed dec) (d_Code dec) (d_Reason dec) (d_RetryAfter dec) (d_Violations dec) in
  mret (res, if d_Allowed dec then None else Some (check_denied res)).

(** ** Mutations *)

Definition PolicySet (req : PolicySetRequest) (inp : AdminInput) : PSM PolicyMutateResult :=
  change <-- mlift (buildChange req) ;;
  adminPass <-- acquire_admin inp ;;
  s <-- mget ;;
  let '(_, st, _) := Show_ (st_policy s) anchor in
  let bootstrapped := negb (ss_AnchorFound st) in
  a <-- on_policy (Set_ (pv_write env) anchor (Some adminPass) (pv_salt env) change (pv_now env)) ;;
  finishMutation a (sr_AnchorOut req) bootstrapped.

(** the pin of a request before any resolution *)
Definition request_pin (req : PolicyAllowRequest) : PinEntry :=
  mkPinEntry (al_Source req) (ToLower (al_Address req)) (al_Name req) (al_Label req) "" "".
Definition resolved_pin (pin : PinEntry) (addr : Address) : PinEntry :=
  mkPinEntry (pe_Source pin) (ToLower (Hex addr)) (pe_Name pin) (pe_Label pin) (pe_AddedAt pin) (Format (pv_pinned_at env)).

Definition pin_request (pin : PinEntry) (remove : bool) : PinRequest :=
  mkPinRequest pin remove selfSnapshot (pv_version env).

Definition ens_pin (name : string) : PSM (res error Address) :=
  ask_chain (resolveENSForPin testRegistries (pv_defaultNetwork env) defaultRPC name).

(** the pin that allow seals: ENS names and contacts are resolved now *)
Definition allow_pin (req : PolicyAllowRequest) : PSM PinEntry :=
  let pin := request_pin req in
  if al_Remove req then mret pin
  else if bool_decide (al_Source req = "ens") then
    r <-- ens_pin (al_Name req) ;; addr <-- mlift r ;; mret (resolved_pin pin addr)
  else if bool_decide (al_Source req = "contact") then
    s <-- mget ;;
    found <-- mlift (Contacts_Resolve (pv_registry env) (al_Name req) (st_registry s)).1 ;;
    match found with
    | None => mfail (New "ref.not_found"
        ("contact " +:+ go_quote (al_Name req) +:+ " is not in the address book (add it with `daxie contacts add`)"))
    | Some addr => mret (resolved_pin pin addr)
    end
  else mret pin.

(** the pin that deny seals: ENS names only, and only when they resolve *)
Definition deny_pin (req : PolicyAllowRequest) : PSM PinEntry :=
  let pin := request_pin req in
  if bool_decide (al_Source req = "ens") && negb (al_Remove req) then
    r <-- ens_pin (al_Name req) ;;
    mret (match r with Ok addr => resolved_pin pin addr | Err _ => pin end)
  else mret pin.

Definition PolicyAllow (req : PolicyAllowRequest) (inp : AdminInput) : PSM PolicyMutateResult :=
  adminPass <-- acquire_admin inp ;;
  pin <-- allow_pin req ;;
  a <-- on_policy (Allow (pv_write env) anchor (Some adminPass) (pin_request pin (al_Remove req)) (pv_now env)) ;;
  res <-- finishMutation a (al_AnchorOut req) false ;;
  mret (withPinEcho res pin (al_Remove req)).

Definition PolicyDeny (req : PolicyAllowRequest) (inp : AdminInput) : PSM PolicyMutateResult :=
  adminPass <-- acquire_admin inp ;;
  pin <-- deny_pin req ;;
  a <-- on_policy (Deny (pv_write env) anchor (Some adminPass) (pin_request pin (al_Remove req)) (pv_now env)) ;;
  res <-- finishMutation a (al_AnchorOut req) false ;;
  mret (withPinEcho res pin (al_Remove req)).

Definition withTypedEcho (res : PolicyMutateResult) (entry : TypedAllowEntry) (remove : bool) : PolicyMutateResult :=
  let '(mkMutate a b c d e f g h i j k l _ _ _ _ m n o p) := res in
  mkMutate a b c d e f g h i j k l (te_ChainID entry) (te_VerifyingContract entry) (te_PrimaryType entry) remove m n o p.

Definition PolicyTypedAllow (req : PolicyTypedAllowRequest) (inp : AdminInput) : PSM PolicyMutateResult :=
  adminPass <-- acquire_admin inp ;;
  let entry := mkTypedAllowEntry (ty_ChainID req) (ToLower (TrimSpace (ty_VerifyingContract req)))
                 (TrimSpace (ty_PrimaryType req)) (ty_Label req) (ty_Remove req) selfSnapshot (pv_version env) in
  a <-- on_policy (TypedAllow_ (pv_write env) anchor (Some adminPass) entry (pv_now env)) ;;
  res <-- finishMutation a (ty_AnchorOut req) false ;;
  mret (withTypedEcho res entry (ty_Remove req)).

Definition PolicyTypedRemove (req : PolicyTypedAllowRequest) : AdminInput → PSM PolicyMutateResult :=
  PolicyTypedAllow (mkTypedRequest (ty_ChainID req) (ty_VerifyingContract req) (ty_PrimaryType req) (ty_Label req) true
                      (ty_AnchorOut req)).

Definition withContractEcho (res : PolicyMutateResult) (entry : ContractAllowEntry) (remove : bool) : PolicyMutateResult :=
  let '(mkMutate a b c d e f g h i j k l m n o p _ _ _ _) := res in
  mkMutate a b c d e f g h i j k l m n o p (ce_Network entry) (ce_Contract entry) (ce_Selector entry) remove.

Definition PolicyContractAllow (req : PolicyContractAllowRequest) (inp : AdminInput) : PSM PolicyMutateResult :=
  adminPass <-- acquire_admin inp ;;
  let entry := mkContractAllowEntry (TrimSpace (cq_Network req)) (ToLower (TrimSpace (cq_Contract req)))
                 (ToLower (TrimSpace (cq_Selector req))) (cq_Label req) (cq_Remove req) selfSnapshot (pv_version env) in
  a <-- on_policy (ContractAllow_ (pv_write env) anchor (Some adminPass) entry (pv_added_at env) (pv_now env)) ;;
  res <-- finishMutation a (cq_AnchorOut req) false ;;
  mret (withContractEcho res entry (cq_Remove req)).

Definition PolicyContractRemove (req : PolicyContractAllowRequest) : AdminInput → PSM PolicyMutateResult :=
  PolicyContractAllow (mkContractRequest (cq_Network req) (cq_Contract req) (cq_Selector req) (cq_Label req) true
                         (cq_AnchorOut req)).

Definition PolicyCountersRelease (id : string) (inp : AdminInput) : PSM unit :=
  adminPass <-- acquire_admin inp ;;
  mzoom st_disk put_disk (CountersRelease (pv_engine env) anchor (Some adminPass) id (pv_now env)).

Definition PolicyPinPrint : res error PolicyPinResult :=
  let* a := PinPrint anchor in
  match Marshal a with
  | Err _ => Err (New "policy.state_error" "cannot marshal the anchor")
  | Ok b => Ok (mkPinResult (an_VerifyKey a) (an_VerifyKeyNext a) b true)
  end.

Definition PolicyPinVerify (file : PFile) (candidateKey : string) : PolicyPinResult * option error :=
  match PinVerify file candidateKey with
  | Err e => (mkPinResult "" "" "" false, Some e)
  | Ok false => (mkPinResult "" "" "" false,
      Some (New "policy.seal_violation" "the on-disk policy.json does NOT verify under the supplied key"))
  | Ok true => (mkPinResult "" "" "" true, None)
  end.

Definition PolicyChangeAdminPassphrase (stage commit : bool) (anchorOut : string) (cur : AdminInput)
           (nextStdin : bool) (nextFile : string) : PSM PolicyMutateResult :=
  curPass <-- acquire_admin cur ;;
  nextPass <-- on_stdin (acquire (pv_host env) (newAdminPassphraseSpec nextStdin nextFile)) ;;
  a <-- on_policy (ChangeAdminPassphrase (pv_write env) anchor (Some curPass) (Some nextPass.1) (pv_salt env)
                     stage commit (pv_now env)) ;;
  res <-- finishMutation a anchorOut false ;;
  let '(mkMutate b c d e f g _ h i j k l m n o p q r s t) := res in
  mret (mkMutate b c d e f g (an_VerifyKeyNext a) h i j k l m n o p q r s t).

Definition PolicyResetForce (anchorOut : string) (inp : AdminInput) : PSM PolicyMutateResult :=
  adminPass <-- acquire_admin inp ;;
  a <-- on_policy (ResetForce (pv_write env) anchor (Some adminPass) (default [] selfSnapshot) (pv_version env) (pv_now env)) ;;
  finishMutation a anchorOut false.
End Use.

(** ** The arguments of the commands (cli/policy.go) *)

Section Cli.
Context {UT : UnicodeTables} {GC : GethCommon}.

Definition resolvePinRequest (arg label : string) (remove : bool) (anchorOut : string) : PolicyAllowRequest :=
  match ParseAccountRef arg with
  | Ok ref =>
      if ar_Kind ref =? RefAddress then mkAllowRequest "address" (Hex (ar_Addr ref)) "" label remove anchorOut
      else if ar_Kind ref =? RefENS then mkAllowRequest "ens" "" arg label remove anchorOut
      else mkAllowRequest "contact" "" arg label remove anchorOut
  | Err _ => mkAllowRequest "contact" "" arg label remove anchorOut
  end.

(** flagPtr *)
Definition flagPtr (changed : bool) (val : string) : option string := if changed then Some val else None.

Definition sealWord (res : PolicyShowResult) : string :=
  if negb (sh_Active res) then "inactive (opt-in)"
  else if sh_Verified res then "verified" else "HALTED".

Definition dashEmpty (s : string) : string := if bool_decide (s = "") then "-" else s.
End Cli.
