(* ===== verification/PolicyForce.v ===== *)
(** * Running the policy commands

    What a command may leave behind at every point: the passphrase and the
    resolution touch neither policy.json nor the anchor, the engine writes
    policy.json once, and the anchor file then holds the old anchor or the new
    one.  So a policy stays in force through every command. *)

From S2P Require Import Prelude GoStrings Decimal Rfc3339 HexBytes Encodings Json PolicyTypes PolicyBody PolicyBodyProps Seal Domain PolicyFile Trace Evaluate Counter Reservation Engine PolicyAdmin PolicyAdminFacts PolicyAdminProps Calldata Gas Service Refs Registry Secret Ens PolicyService.

Local Open Scope string_scope.
Local Open Scope Z_scope.
Local Open Scope list_scope.
Local Open Scope go_scope.

(** ** Anchors stay well formed *)

Lemma raise_watermark_wf a n : wf_anchor a → 0 ≤ n < 2 ^ 64 → wf_anchor (raise_watermark a n).
Proof.
  intros [H1 H2 H3 H4 H5 H6 H7] Hn. unfold raise_watermark. destruct (_ <? _); [|by split].
  by split.
Qed.

Section Facts.
Context {N : Type} {UT : UnicodeTables} {GC : GethCommon} {RC : LineCodec Reservation} {SS : SortSlice} {SC : SealCrypto}
        {KC : Keccak} {EC : EnsChain N} {AJ : AddressJSON}.
Implicit Types s : Stores N.

(** ** Actions that leave the policy and the anchor alone *)

Definition same_files s s' : Prop := st_policy s' = st_policy s ∧ st_config s' = st_config s ∧ st_registry s' = st_registry s.

Lemma files_refl s : same_files s s.
Proof. done. Qed.

Lemma files_trans s1 s2 s3 : same_files s1 s2 → same_files s2 s3 → same_files s1 s3.
Proof. intros (?&?&?) (?&?&?). split_and!; congruence. Qed.

Definition quiet {A} (m : PSM (N := N) A) : Prop := ∀ s, Forall (same_files s) (m s).2.

Lemma quiet_after {A} (m : PSM A) s r tr : quiet m → m s = (r, tr) → same_files s (after s tr).
Proof.
  intros Hq H. specialize (Hq s). rewrite H in Hq. cbn [snd] in Hq. unfold after.
  destruct tr as [|x tr _] using rev_ind; [done|]. rewrite List.last_last. apply Forall_app in Hq as [_ Hx]. by apply Forall_inv in Hx.
Qed.

Lemma quiet_bind {A B} (m : PSM A) (f : A → PSM B) : quiet m → (∀ a, quiet (f a)) → quiet (mbind m f).
Proof.
  intros Hm Hf s. pose proof (Hm s) as H1. destruct (m s) as [[a|e] tr] eqn:E.
  - rewrite (mbind_run _ _ _ _ _ E). cbn [snd]. apply Forall_app. split; [exact H1|].
    pose proof (quiet_after m s _ _ Hm E) as Hs. eapply Forall_impl; [apply Hf|]. intros x Hx. by eapply files_trans.
  - by rewrite (mbind_fail _ _ _ _ _ E).
Qed.

Lemma quiet_reads {A} (m : PSM A) : reads_only m → quiet m.
Proof. intros H s. rewrite H. by apply Forall_nil. Qed.

Lemma quiet_zoom {P A} (get : Stores N → P) put (m : T P A) : (∀ s p, same_files s (put s p)) → quiet (mzoom get put m).
Proof.
  intros H s. unfold mzoom. destruct (m (get s)) as [r tr]. cbn [snd]. apply Forall_forall.
  intros x (p & -> & _)%list_elem_of_fmap. apply H.
Qed.

Lemma quiet_admin env inp : quiet (acquire_admin env inp).
Proof. apply quiet_bind; [by apply quiet_zoom|]. intros a. apply quiet_reads, reads_mret. Qed.

(** the passphrase may consume standard input; it asks nobody outside *)
Lemma admin_outside env inp s r tr : acquire_admin env inp s = (r, tr) → st_outside (after s tr) = st_outside s.
Proof.
  assert (H : Forall (λ x, st_outside x = st_outside s) (acquire_admin env inp s).2).
  { unfold acquire_admin. destruct (on_stdin (acquireAdmin (pv_host env) inp) s) as [[x|e] t0] eqn:E;
      [rewrite (mbind_run _ _ _ _ _ E); cbn [snd mret]; rewrite app_nil_r|rewrite (mbind_fail _ _ _ _ _ E); cbn [snd]];
      unfold on_stdin, mzoom in E; destruct (acquireAdmin _ _ _) as [y t1]; injection E as _ <-;
      apply Forall_forall; intros z (q & -> & _)%list_elem_of_fmap; done. }
  intros E. rewrite E in H. cbn [snd] in H. unfold after. destruct tr as [|x tr _] using rev_ind; [done|].
  rewrite List.last_last. apply Forall_app in H as [_ H]. by apply Forall_inv in H.
Qed.

Lemma quiet_ask {A} (f : N → res error A * N) : quiet (ask_chain f).
Proof. intros s. unfold ask_chain. destruct (f _). by apply Forall_singleton. Qed.

(** the trace of an action after a quiet one *)
Lemma quiet_bind_trace {A B} (m : PSM A) (f : A → PSM B) s s' :
  quiet m → s' ∈ (mbind m f s).2 →
  same_files s s' ∨ ∃ a s1, same_files s s1 ∧ (∃ tr, m s = (Ok a, tr) ∧ s1 = after s tr) ∧ s' ∈ (f a s1).2.
Proof.
  intros Hq [H|(a & tr & E & H)]%mbind_trace.
  - left. by eapply Forall_forall in H; [|apply Hq].
  - right. exists a, (after s tr). split; [by eapply quiet_after|]. split; [eauto|done].
Qed.

(** ** Finishing *)

Lemma open_marshalled a : wf_anchor a → ∃ b, Marshal a = Ok b ∧ open_anchor (Some b) = Ok (Some a).
Proof.
  intros W. exists (anchor_text a). split; [by apply Marshal_text|]. unfold open_anchor. by rewrite ParseAnchor_text.
Qed.

Variable env : PolicyEnv.

Lemma WriteAnchor_cases b s :
  (WriteAnchor env b s = (Ok tt, [put_config s (Some b)])) ∨ ∃ e, WriteAnchor env b s = (Err e, []).
Proof.
  unfold WriteAnchor. destruct (pv_mkdir env) as [[|]|]; [right; eauto..|].
  destruct (pv_lock env); [right; eauto|]. destruct (pv_writeAnchor env) as [[|]|]; [right; eauto..|]. by left.
Qed.

(** what finishing leaves: the policy as it was, and the old or the new anchor *)
Lemma finish_trace a out boot s s' :
  wf_anchor a → s' ∈ (finishMutation env a out boot s).2 →
  st_policy s' = st_policy s ∧ (st_config s' = st_config s ∨ open_anchor (st_config s') = Ok (Some a)).
Proof.
  intros W. destruct (open_marshalled a W) as (b & Hb & Ho). unfold finishMutation. rewrite Hb.
  destruct (negb _).
  - unfold writeAnchorStaging. destruct (pv_staging env) as [[|]|]; intros H; [by apply elem_of_nil in H..|].
    apply list_elem_of_singleton in H as ->. split; [done|by left].
  - intros H. destruct (WriteAnchor_cases b s) as [E|[e E]].
    + rewrite (mbind_run _ _ _ _ _ (mtry_run _ _ _ _ E)) in H. cbn [snd] in H. rewrite app_nil_r in H.
      apply list_elem_of_singleton in H as ->. split; [done|by right].
    + rewrite (mbind_run _ _ _ _ _ (mtry_run _ _ _ _ E)) in H. cbn [snd app] in H.
      destruct (AnchorIsReadOnly e); by apply elem_of_nil in H.
Qed.

(** a successful end: the anchor is in the configuration, or it is in the
    answer, and staged where a path was given *)
Lemma finish_ok a out boot s res tr :
  wf_anchor a → finishMutation env a out boot s = (Ok res, tr) →
  st_policy (after s tr) = st_policy s ∧ ParseAnchor (mr_AnchorJSON res) = Ok a ∧
  mr_Nonce res = an_NonceWatermark a ∧ mr_Bootstrapped res = boot ∧
  if mr_AnchorWritten res then st_config (after s tr) = Some (mr_AnchorJSON res)
  else st_config (after s tr) = st_config s ∧ (out ≠ "" → st_staged (after s tr) !! out = Some (mr_AnchorJSON res)).
Proof.
  intros W. pose proof (Marshal_text a W) as Hb. pose proof (ParseAnchor_text a W) as Hp. unfold finishMutation. rewrite Hb.
  case_bool_decide as Eo; cbn [negb].
  - destruct (WriteAnchor_cases (anchor_text a) s) as [E|[e E]]; rewrite (mbind_run _ _ _ _ _ (mtry_run _ _ _ _ E));
      cbn [fst snd].
    + by intros [= <- <-].
    + destruct (AnchorIsReadOnly e); [|done]. by intros [= <- <-].
  - unfold writeAnchorStaging. destruct (pv_staging env) as [[|]|]; [done..|]. intros [= <- <-]. cbn. split_and!; try done.
    intros _. by rewrite lookup_insert_eq.
Qed.
End Facts.

(** ** A policy stays in force

    The commands that change a policy, each from the passphrase to the anchor
    file, with every outcome of the file system and every crash between two
    writes. *)

Local Open Scope string_scope.
Local Open Scope Z_scope.
Local Open Scope list_scope.
Local Open Scope go_scope.

(** ** The commands *)

Inductive Command :=
  | CmdSet (req : PolicySetRequest)
  | CmdAllow (req : PolicyAllowRequest)
  | CmdDeny (req : PolicyAllowRequest)
  | CmdTyped (req : PolicyTypedAllowRequest)
  | CmdContract (req : PolicyContractAllowRequest).

Section Force.
Context {N : Type} {UT : UnicodeTables} {GC : GethCommon} {RC : LineCodec Reservation} {SS : SortSlice} {SC : SealCrypto}
        {KC : Keccak} {EC : EnsChain N} {AJ : AddressJSON}.
Variables (env : PolicyEnv) (tests : gmap string Address) (rpc : string).
Implicit Types s : Stores N.

Definition run_command (a : Anchor) (cmd : Command) (inp : AdminInput) : PSM (N := N) PolicyMutateResult :=
  match cmd with
  | CmdSet req => PolicySet env (Some a) req inp
  | CmdAllow req => PolicyAllow env tests rpc (Some a) req inp
  | CmdDeny req => PolicyDeny env tests rpc (Some a) req inp
  | CmdTyped req => PolicyTypedAllow env (Some a) req inp
  | CmdContract req => PolicyContractAllow env (Some a) req inp
  end.

(** what an ENS name answers on the chain as it is in [s]: an address, or none *)
Definition name_answers (name : string) s (answer : option Address) : Prop :=
  ∃ r n, resolveENSForPin tests (pv_defaultNetwork env) rpc name (st_outside s) = (r, n) ∧
    answer = match r with Ok addr => Some addr | Err _ => None end.

(** the address a request's name stands for in [s]: what the chain answers for
    an ENS name, what the address book says for a contact *)
Definition stands_for (req : PolicyAllowRequest) s (addr : Address) : Prop :=
  if bool_decide (al_Source req = "ens") then name_answers (al_Name req) s (Some addr)
  else (Contacts_Resolve (pv_registry env) (al_Name req) (st_registry s)).1 = Ok (Some addr).

(** the pin of an allow that starts in [s]: with the address the name stands for
    there, or as it was typed for a removal and for an address *)
Definition allowed_pin (req : PolicyAllowRequest) s (pin : PinEntry) : Prop :=
  if negb (al_Remove req) && (bool_decide (al_Source req = "ens") || bool_decide (al_Source req = "contact"))
  then ∃ addr, stands_for req s addr ∧ pin = resolved_pin env (request_pin req) addr
  else pin = request_pin req.

(** the pin of a deny: only an ENS name is resolved, and one that does not
    resolve is pinned by its name *)
Definition denied_pin (req : PolicyAllowRequest) s (pin : PinEntry) : Prop :=
  if negb (al_Remove req) && bool_decide (al_Source req = "ens")
  then ∃ answer, name_answers (al_Name req) s answer ∧
         pin = match answer with Some addr => resolved_pin env (request_pin req) addr | None => request_pin req end
  else pin = request_pin req.

Definition edit_pins (remove : bool) (pin : PinEntry) : list PinEntry → list PinEntry :=
  (if remove then removePin else upsertPin) pin.

(** the typed-data and contract entries of a request, trimmed twice on the way *)
Definition typed_of (req : PolicyTypedAllowRequest) : TypedAllow :=
  mkTypedAllow (ty_ChainID req) (ToLower (TrimSpace (ToLower (TrimSpace (ty_VerifyingContract req)))))
    (TrimSpace (TrimSpace (ty_PrimaryType req))) (ty_Label req).
Definition contract_of (req : PolicyContractAllowRequest) (added : string) : ContractAllow :=
  mkContractAllow (TrimSpace (TrimSpace (cq_Network req))) (ToLower (TrimSpace (ToLower (TrimSpace (cq_Contract req)))))
    (normalizeSelector (ToLower (TrimSpace (cq_Selector req)))) (cq_Label req) added.

(** the change that a command started in [s] may make to the body *)
Definition may_apply s (cmd : Command) (mut : Policy → Policy) : Prop :=
  match cmd with
  | CmdSet req => ∃ c, buildChange env req = Ok c ∧ mut = λ p, applyChange p c
  | CmdAllow req => ∃ pin, allowed_pin req s pin ∧ mut = λ p, with_allowlist p (edit_pins (al_Remove req) pin (p_Allowlist p))
  | CmdDeny req => ∃ pin, denied_pin req s pin ∧ mut = λ p, with_denylist p (edit_pins (al_Remove req) pin (p_Denylist p))
  | CmdTyped req => mut = λ p, with_typed p (mkTypedDataCfg (td_Unknown (p_TypedData p))
      ((if ty_Remove req then removeTypedAllow else upsertTypedAllow) (typed_of req) (td_Allowed (p_TypedData p))))
  | CmdContract req => mut = λ p, PolicyAdmin.with_contracts p
      (if cq_Remove req then removeContractAllow (contract_of req "") (p_ContractsAllowed p)
       else upsertContractAllow (contract_of req (Format (pv_added_at env))) (p_ContractsAllowed p))
  end.

(** ** A policy in force *)

(** the configuration opens to an anchor under which policy.json loads *)
Definition in_force (a : Anchor) s (p : Policy) : Prop :=
  wf_anchor a ∧ open_anchor (st_config s) = Ok (Some a) ∧ loadActivePolicy (st_policy s) (Some a) = Ok (Some p).

(** a change that the writer can express, below the ends of the counters *)
Definition ready (a : Anchor) (p : Policy) (mut : Policy → Policy) : Prop :=
  proper (mut p) ∧ an_NonceWatermark a < 2 ^ 64 - 1 ∧ p_Nonce (mut p) < 2 ^ 64 - 1 ∧ valid_utf8 (pv_version env) = true.

Definition mutated (a : Anchor) (p : Policy) (mut : Policy → Policy) : Policy :=
  mutated_body (an_NonceWatermark a) (mut p) (pv_version env) (selfSnapshot env) (pv_now env).
Definition new_anchor (a : Anchor) (p : Policy) (mut : Policy → Policy) : Anchor :=
  raise_watermark a (p_Nonce (mutated a p mut)).

Lemma in_force_files a s s' p : same_files s s' → in_force a s p → in_force a s' p.
Proof. intros (E1 & E2 & _) (H1 & H2 & H3). split; [done|]. by rewrite E1, E2. Qed.

Lemma in_force_loads a s p : in_force a s p → ∃ r, loadPolicy (st_policy s) (Some a) = Ok r ∧ lr_policy r = p.
Proof.
  intros (_ & _ & H). unfold loadActivePolicy in H. destruct (loadPolicy _ _) as [r|]; [|done].
  exists r. split; [done|]. destruct (lr_present r); [|done]. by injection H.
Qed.

(** an operation of the engine that is one mutation, possibly after a validation *)
Definition one_mutation (a : Anchor) (mut : Policy → Policy) (op : PM Anchor) : Prop :=
  ∃ pass, ∀ f, op f = mutate (pv_write env) (Some a) (Some pass) (pv_version env) (selfSnapshot env) mut (pv_now env) f ∨
               ∃ e, op f = (Err e, []).

Lemma mutate_cases a pass mut s p :
  in_force a s p → ready a p mut →
  let m := mutate (pv_write env) (Some a) (Some pass) (pv_version env) (selfSnapshot env) mut (pv_now env) (st_policy s) in
  (∃ e, m = (Err e, [])) ∨
  ∃ f, m = (Ok (new_anchor a p mut), [Some f]) ∧
    loadActivePolicy (Some f) (Some a) = Ok (Some (canonical (mutated a p mut))) ∧
    loadActivePolicy (Some f) (Some (new_anchor a p mut)) = Ok (Some (canonical (mutated a p mut))) ∧
    wf_anchor (new_anchor a p mut) ∧ an_NonceWatermark a < an_NonceWatermark (new_anchor a p mut).
Proof.
  intros Hf (Hp & Hw & Hn & Hu). destruct (in_force_loads _ _ _ Hf) as (r & Hl & <-). destruct Hf as (W & _ & _). cbv zeta.
  destruct (authenticate (Some a) (Some pass)) as [k|e] eqn:Ea.
  2:{ left. exists e. unfold mutate. rewrite Ea. done. }
  pose proof (wfa_watermark a W) as [Hw0 _].
  destruct (mutate_loads a (Some pass) (pv_version env) (selfSnapshot env) mut (pv_now env) (st_policy s) k r Ea Hl Hp Hu
              ltac:(lia) Hn) as (Hrun & H1 & H2 & H3 & H4).
  assert (Hnn : 0 ≤ p_Nonce (mut (lr_policy r))) by apply Hp.
  destruct (pv_write env) as [e|] eqn:Ewr.
  - left. exists e. unfold mutate. rewrite (mbind_read _ _ _ k) by (by rewrite Ea).
    rewrite (mbind_read _ _ _ (st_policy s)) by done. rewrite (mbind_read _ _ _ r) by (by rewrite Hl). done.
  - right. eexists. split; [exact Hrun|]. unfold new_anchor, mutated. split_and!; [exact H1|exact H2| |].
    + apply raise_watermark_wf; [done|]. rewrite H4. lia.
    + rewrite H3, H4. lia.
Qed.

(** ** The end of a command *)

(** what follows the engine: finishing, and an answer with the same anchor *)
Definition finishes (out : string) (boot : bool) (tail : Anchor → PSM (N := N) PolicyMutateResult) : Prop := ∀ x s,
  (tail x s).2 = (finishMutation env x out boot s).2 ∧
  ∀ res tr, tail x s = (Ok res, tr) → ∃ res0, finishMutation env x out boot s = (Ok res0, tr) ∧
    mr_AnchorWritten res = mr_AnchorWritten res0 ∧ mr_AnchorJSON res = mr_AnchorJSON res0 ∧ mr_Nonce res = mr_Nonce res0.

Lemma finishes_self out boot : finishes out boot (λ x, finishMutation env x out boot).
Proof. intros x s. split; [done|]. intros res tr H. by exists res. Qed.

Lemma finishes_map out boot (g : Anchor → PolicyMutateResult → PolicyMutateResult) :
  (∀ x r, mr_AnchorWritten (g x r) = mr_AnchorWritten r ∧ mr_AnchorJSON (g x r) = mr_AnchorJSON r ∧
          mr_Nonce (g x r) = mr_Nonce r) →
  finishes out boot (λ x, res <-- finishMutation env x out boot ;; mret (g x res)).
Proof.
  intros Hg x s. destruct (finishMutation env x out boot s) as [[r|e] tr] eqn:E.
  - rewrite (mbind_run _ _ _ _ _ E). cbn [fst snd mret]. rewrite app_nil_r. split; [done|].
    intros res tr' [= <- <-]. exists r. by split.
  - rewrite (mbind_fail _ _ _ _ _ E). done.
Qed.

Definition core (op : PM Anchor) (tail : Anchor → PSM (N := N) PolicyMutateResult) : PSM (N := N) PolicyMutateResult :=
  a <-- on_policy op ;; tail a.

(** what a command can leave behind *)
Definition leaves (a : Anchor) (p : Policy) (mut : Policy → Policy) s' : Prop :=
  in_force a s' p ∨ in_force a s' (canonical (mutated a p mut)) ∨
  in_force (new_anchor a p mut) s' (canonical (mutated a p mut)).

Lemma core_trace a p mut op tail out boot s s' :
  in_force a s p → ready a p mut → one_mutation a mut op → finishes out boot tail →
  s' ∈ (core op tail s).2 → leaves a p mut s'.
Proof.
  intros Hf Hr [pass Hop] Ht Hs. unfold core in Hs.
  pose proof (mutate_cases a pass mut s p Hf Hr) as Hc. cbv zeta in Hc.
  assert (Hop' : (∃ e, op (st_policy s) = (Err e, [])) ∨
    ∃ f, op (st_policy s) = (Ok (new_anchor a p mut), [Some f]) ∧
      loadActivePolicy (Some f) (Some a) = Ok (Some (canonical (mutated a p mut))) ∧
      loadActivePolicy (Some f) (Some (new_anchor a p mut)) = Ok (Some (canonical (mutated a p mut))) ∧
      wf_anchor (new_anchor a p mut) ∧ an_NonceWatermark a < an_NonceWatermark (new_anchor a p mut)).
  { destruct (Hop (st_policy s)) as [->|He]; [exact Hc|by left]. }
  clear Hc Hop. destruct Hop' as [[e He]|(f & He & H1 & H2 & W' & _)].
  - assert (E : on_policy op s = (Err e, [])) by (unfold on_policy, mzoom; by rewrite He).
    rewrite (mbind_fail _ _ _ _ _ E) in Hs. by apply elem_of_nil in Hs.
  - assert (E : on_policy op s = (Ok (new_anchor a p mut), [put_policy s (Some f)])) by (unfold on_policy, mzoom; by rewrite He).
    rewrite (mbind_run _ _ _ _ _ E) in Hs. cbn [snd] in Hs. destruct Hf as (W & Ho & Hl).
    apply elem_of_app in Hs as [->%list_elem_of_singleton|Hs]; [right; left; by split|].
    rewrite (proj1 (Ht _ _)) in Hs. apply finish_trace in Hs as [Ep [Ec|Ec]]; [| |done]; rewrite ?Ep; cbn in Ep, Ec.
    + right; left. split; [done|]. rewrite Ep, Ec. done.
    + right; right. split; [done|]. rewrite Ep. done.
Qed.

Lemma core_ok a p mut op tail out boot s res tr :
  in_force a s p → ready a p mut → one_mutation a mut op → finishes out boot tail →
  core op tail s = (Ok res, tr) →
  let s' := after s tr in let q := canonical (mutated a p mut) in let a' := new_anchor a p mut in
  loadActivePolicy (st_policy s') (Some a) = Ok (Some q) ∧ loadActivePolicy (st_policy s') (Some a') = Ok (Some q) ∧
  ParseAnchor (mr_AnchorJSON res) = Ok a' ∧ mr_Nonce res = an_NonceWatermark a' ∧ an_NonceWatermark a < an_NonceWatermark a' ∧
  if mr_AnchorWritten res then in_force a' s' q
  else in_force a s' q ∧ (out ≠ "" → st_staged s' !! out = Some (mr_AnchorJSON res)).
Proof.
  intros Hf Hr [pass Hop] Ht H. unfold core in H. apply mbind_ok in H as (x & t1 & t2 & H1 & H2 & ->).
  pose proof (mutate_cases a pass mut s p Hf Hr) as Hc. cbv zeta in Hc. destruct Hf as (W & Ho & Hl).
  unfold on_policy, mzoom in H1. destruct (Hop (st_policy s)) as [He|[e He]]; rewrite He in H1; [|done].
  destruct Hc as [[e Hm]|(f & Hm & L1 & L2 & W' & Hlt)]; rewrite Hm in H1; [done|]. injection H1 as <- <-.
  destruct (Ht (new_anchor a p mut) (after s [put_policy s (Some f)])) as [_ Hfin].
  destruct (Hfin _ _ H2) as (res0 & H3 & E1 & E2 & E3).
  destruct (finish_ok env _ _ _ _ _ _ W' H3) as (Q1 & Q2 & Q3 & _ & Q4). cbv zeta. rewrite after_app, Q1, E1, E2, E3.
  split; [exact L1|split; [exact L2|split; [exact Q2|split; [exact Q3|split; [exact Hlt|]]]]].
  destruct (mr_AnchorWritten res0).
  - split; [done|]. rewrite Q1. split; [|exact L2]. rewrite Q4. unfold open_anchor. by rewrite Q2.
  - destruct Q4 as [Q4 Q5]. split; [|exact Q5]. split; [done|]. rewrite Q1. split; [|exact L1]. by rewrite Q4.
Qed.

(** ** From the request to the mutation *)

(** the end of a successful command *)
Definition took_effect (a : Anchor) (p : Policy) (mut : Policy → Policy) (out : string) s' (res : PolicyMutateResult) : Prop :=
  let q := canonical (mutated a p mut) in let a' := new_anchor a p mut in
  loadActivePolicy (st_policy s') (Some a) = Ok (Some q) ∧ loadActivePolicy (st_policy s') (Some a') = Ok (Some q) ∧
  ParseAnchor (mr_AnchorJSON res) = Ok a' ∧ mr_Nonce res = an_NonceWatermark a' ∧ an_NonceWatermark a < an_NonceWatermark a' ∧
  if mr_AnchorWritten res then in_force a' s' q
  else in_force a s' q ∧ (out ≠ "" → st_staged s' !! out = Some (mr_AnchorJSON res)).

Section Command.
Variables (a : Anchor) (p : Policy) (M : (Policy → Policy) → Prop) (out : string).
Hypothesis R : ∀ mut, M mut → ready a p mut.

(** run in [s], an action leaves the policy or one of the changes [M] *)
Definition behaves s (m : PSM (N := N) PolicyMutateResult) : Prop := in_force a s p →
  (∀ s', s' ∈ (m s).2 → in_force a s' p ∨ ∃ mut, M mut ∧ leaves a p mut s') ∧
  (∀ res tr, m s = (Ok res, tr) → ∃ mut, M mut ∧ took_effect a p mut out (after s tr) res).

Lemma behaves_core mut op tail boot s :
  M mut → one_mutation a mut op → finishes out boot tail → behaves s (core op tail).
Proof.
  intros Hm Hop Ht Hf. split.
  - intros s' Hs. right. exists mut. split; [done|]. by eapply core_trace; [|apply R| | |].
  - intros res tr H. exists mut. split; [done|]. by eapply core_ok; [|apply R| | |].
Qed.

Lemma behaves_bind {A} (m : PSM A) (f : A → PSM PolicyMutateResult) s :
  quiet m → (∀ x tr, m s = (Ok x, tr) → behaves (after s tr) (f x)) → behaves s (mbind m f).
Proof.
  intros Hq Hf Hs. split.
  - intros s' [H|(x & s1 & H1 & (tr & E & ->) & H)]%quiet_bind_trace; [|..|done].
    + left. by eapply in_force_files.
    + apply (Hf x tr E); [by eapply in_force_files|done].
  - intros res tr H. apply mbind_ok in H as (x & t1 & t2 & H1 & H2 & ->).
    pose proof (quiet_after _ _ _ _ Hq H1) as Hsame. rewrite after_app.
    apply (Hf x t1 H1); [by eapply in_force_files|done].
Qed.

Lemma behaves_lift {A} (r : res error A) (f : A → PSM PolicyMutateResult) s :
  (∀ x, r = Ok x → behaves s (f x)) → behaves s (mbind (mlift r) f).
Proof. intros Hf. apply behaves_bind; [apply quiet_reads, reads_mlift|]. intros x tr [-> ->]%mlift_ok. by apply Hf. Qed.
End Command.

Lemma one_mutate a mut pass :
  one_mutation a mut (mutate (pv_write env) (Some a) (Some pass) (pv_version env) (selfSnapshot env) mut (pv_now env)).
Proof. exists pass. by left. Qed.

Lemma one_guarded a mut o pass :
  one_mutation a mut (guard o ;;; mutate (pv_write env) (Some a) (Some pass) (pv_version env) (selfSnapshot env) mut (pv_now env)).
Proof.
  exists pass. intros f. destruct o as [e|]; [right; by exists e|left]. by rewrite (mbind_read _ _ _ tt).
Qed.

Lemma ens_answers name s r tr :
  ens_pin env tests rpc name s = (Ok r, tr) → name_answers name s (match r with Ok addr => Some addr | Err _ => None end).
Proof.
  unfold ens_pin, ask_chain, name_answers. destruct (resolveENSForPin _ _ _ _ _) as [x n]. intros [= <- _]. by exists x, n.
Qed.

Lemma allow_pin_of req s pin tr : allow_pin env tests rpc req s = (Ok pin, tr) → allowed_pin req s pin.
Proof.
  unfold allow_pin, allowed_pin, stands_for. destruct (al_Remove req); [intros [= <- _]; done|]. cbn [negb andb].
  case_bool_decide; [|case_bool_decide]; cbn [orb]; [| |intros [= <- _]; done].
  - intros (r & t1 & t2 & H1%ens_answers & (addr & t3 & t4 & [-> _]%mlift_ok & [-> _]%mret_ok & _)%mbind_ok & _)%mbind_ok.
    by exists addr.
  - intros (s0 & t1 & t2 & [= <- <-] & (found & t3 & t4 & [Hf _]%mlift_ok & H' & _)%mbind_ok & _)%mbind_ok.
    destruct found as [addr|]; [|done]. apply mret_ok in H' as [-> _]. by exists addr.
Qed.

Lemma deny_pin_of req s pin tr : deny_pin env tests rpc req s = (Ok pin, tr) → denied_pin req s pin.
Proof.
  unfold deny_pin, denied_pin. rewrite andb_comm. destruct (_ && _); [|intros [= <- _]; done].
  intros (r & t1 & t2 & H1%ens_answers & [-> _]%mret_ok & _)%mbind_ok. eexists. split; [exact H1|]. by destruct r.
Qed.

(** the resolution depends on the chain and the address book alone *)
Lemma pins_same req s s1 pin : st_outside s1 = st_outside s → st_registry s1 = st_registry s →
  (allowed_pin req s1 pin → allowed_pin req s pin) ∧ (denied_pin req s1 pin → denied_pin req s pin).
Proof. intros E1 E2. unfold allowed_pin, denied_pin, stands_for, name_answers. by rewrite E1, E2. Qed.

(** the pin found after the passphrase is the one of the start *)
Lemma pins_after_admin req inp s pass t pin : acquire_admin env inp s = (Ok pass, t) →
  (allowed_pin req (after s t) pin → allowed_pin req s pin) ∧ (denied_pin req (after s t) pin → denied_pin req s pin).
Proof.
  intros H. apply pins_same; [by eapply admin_outside|].
  by destruct (quiet_after _ _ _ _ (quiet_admin env inp) H) as (_ & _ & ?).
Qed.

Lemma quiet_allow_pin req : quiet (allow_pin (N := N) env tests rpc req).
Proof.
  unfold allow_pin. destruct (al_Remove req); [apply quiet_reads, reads_mret|].
  case_bool_decide; [|case_bool_decide; [|apply quiet_reads, reads_mret]].
  - apply quiet_bind; [apply quiet_ask|]. intros r. apply quiet_reads.
    apply reads_only_bind; [apply reads_mlift|]. intros; apply reads_mret.
  - apply quiet_reads. apply reads_only_bind; [apply reads_mget|]. intros x.
    apply reads_only_bind; [apply reads_mlift|]. intros [|]; [apply reads_mret|apply reads_mfail].
Qed.

Lemma quiet_deny_pin req : quiet (deny_pin (N := N) env tests rpc req).
Proof.
  unfold deny_pin. destruct (_ && _); [|apply quiet_reads, reads_mret].
  apply quiet_bind; [apply quiet_ask|]. intros r. apply quiet_reads, reads_mret.
Qed.

(** the --anchor-out path of a command *)
Definition anchor_out (cmd : Command) : string :=
  match cmd with
  | CmdSet r => sr_AnchorOut r
  | CmdAllow r | CmdDeny r => al_AnchorOut r
  | CmdTyped r => ty_AnchorOut r
  | CmdContract r => cq_AnchorOut r
  end.

Lemma buildChange_stamp req c :
  buildChange env req = Ok c → ch_WrittenBy c = pv_version env ∧ ch_RefreshSelf c = selfSnapshot env ∧ ch_Tokens c = [].
Proof.
  unfold buildChange, rbind. intros H.
  repeat match type of H with (match ?x with Ok _ => _ | Err _ => _ end) = _ => destruct x; [|done] end.
  by apply Ok_eq in H as ->.
Qed.

Lemma echo_kept res pin b :
  mr_AnchorWritten (withPinEcho res pin b) = mr_AnchorWritten res ∧ mr_AnchorJSON (withPinEcho res pin b) = mr_AnchorJSON res ∧
  mr_Nonce (withPinEcho res pin b) = mr_Nonce res.
Proof. unfold withPinEcho. destruct (_ || _); by destruct res. Qed.

Lemma run_command_behaves a p cmd inp s :
  (∀ mut, may_apply s cmd mut → ready a p mut) →
  behaves a p (may_apply s cmd) (anchor_out cmd) s (run_command a cmd inp).
Proof.
  intros R. destruct cmd as [req|req|req|req|req]; cbn [run_command anchor_out].
  - unfold PolicySet. apply behaves_lift. intros c Hc. apply behaves_bind; [apply quiet_admin|]. intros pass t0 _.
    apply behaves_bind; [apply quiet_reads, reads_mget|]. intros s1 t2 _.
    destruct (Show_ (st_policy s1) (Some a)) as [[? st] ?].
    eapply (behaves_core a p _ _ R (λ p, applyChange p c)); [by exists c| |apply finishes_self].
    destruct (buildChange_stamp req c Hc) as (E1 & E2 & _). unfold Set_. rewrite E1, E2. apply one_mutate.
  - unfold PolicyAllow. apply behaves_bind; [apply quiet_admin|]. intros pass t0 H0.
    apply behaves_bind; [apply quiet_allow_pin|]. intros pin t1 Hpin%allow_pin_of%(pins_after_admin _ _ _ _ _ _ H0).
    eapply (behaves_core a p _ _ R); [by exists pin|apply one_mutate|].
    apply finishes_map. intros; apply echo_kept.
  - unfold PolicyDeny. apply behaves_bind; [apply quiet_admin|]. intros pass t0 H0.
    apply behaves_bind; [apply quiet_deny_pin|]. intros pin t1 Hpin%deny_pin_of%(pins_after_admin _ _ _ _ _ _ H0).
    eapply (behaves_core a p _ _ R); [by exists pin|apply one_mutate|].
    apply finishes_map. intros; apply echo_kept.
  - unfold PolicyTypedAllow. apply behaves_bind; [apply quiet_admin|]. intros pass t0 _.
    eapply (behaves_core a p _ _ R); [done|apply one_guarded|].
    apply finishes_map. by intros x [].
  - unfold PolicyContractAllow. apply behaves_bind; [apply quiet_admin|]. intros pass t0 _.
    eapply (behaves_core a p _ _ R); [done|apply one_guarded|].
    apply finishes_map. by intros x [].
Qed.
End Force.
