(* ===== verification/PolicyChanges.v ===== *)
(** * The policy commands keep the body expressible

    Every change a command makes from UTF-8 arguments takes a body on which
    the writer and the decoder agree to another one, and keeps its nonce; so a
    sequence of commands can be followed from its first state alone. *)

From S2P Require Import Prelude GoStrings Decimal Rfc3339 HexBytes Encodings Json PolicyTypes PolicyBody PolicyBodyFacts PolicyBodyProps Seal Domain PolicyFile Trace Evaluate Counter Reservation Engine PolicyAdmin PolicyAdminFacts EngineFacts PolicyAdminProps Calldata Gas Service Refs Registry Secret Ens PolicyService PolicyForce.

Local Open Scope string_scope.
Local Open Scope Z_scope.
Local Open Scope list_scope.
Local Open Scope go_scope.

Definition all_utf8 (l : list string) : Prop := Forall (λ s, valid_utf8 s = true) l.

(** ** Lists edited one element at a time *)

Lemma upsert_all {A} (P : A → Prop) same update (x : A) l :
  (∀ y, y ∈ l → P y) → (∀ y, P y → P (update y)) → P x → ∀ y, y ∈ upsert same update x l → P y.
Proof.
  rewrite <-!Forall_forall. intros Hl Hu Hx. unfold upsert. destruct (existsb same l).
  - by apply update_first_forall.
  - apply Forall_app. split; [done|]. by apply Forall_singleton.
Qed.

Lemma filter_all {A} (P : A → Prop) f (l : list A) : (∀ y, y ∈ l → P y) → ∀ y, y ∈ List.filter f l → P y.
Proof. intros Hl y [Hy _]%list_elem_of_In%filter_In. by apply Hl, list_elem_of_In. Qed.

Lemma foldl_all {A B} (P : list A → Prop) (f : list A → B → list A) (l : list B) a :
  P a → (∀ a b, b ∈ l → P a → P (f a b)) → P (foldl f a l).
Proof.
  revert a. induction l as [|b l IH]; intros a Ha Hf; [done|]. apply IH.
  - apply Hf; [by left|done].
  - intros a' b' Hb. apply Hf. by right.
Qed.

Section Changes.
Context {N : Type} {UT : UnicodeTables} {GC : GethCommon} {RC : LineCodec Reservation} {SS : SortSlice} {SC : SealCrypto}
        {KC : Keccak} {EC : EnsChain N} {AJ : AddressJSON}.

(** ** The parts of a body *)

Definition pin_texts (e : PinEntry) : list string :=
  [pe_Source e; pe_Address e; pe_Name e; pe_Label e; pe_AddedAt e; pe_ResolvedAt e].
Definition typed_texts (a : TypedAllow) : list string := [ta_VerifyingContract a; ta_PrimaryType a; ta_Label a].
Definition contract_texts (c : ContractAllow) : list string :=
  [ca_Network c; ca_Contract c; ca_Selector c; ca_Label c; ca_AddedAt c].
Definition network_texts (n : NetworkRule) : list string := nr_Network n :: limits_strings (nr_Limits n).

(** the entries of a body, by list *)
Lemma utf8_lists p : utf8_policy p →
  (∀ e, e ∈ p_Allowlist p → all_utf8 (pin_texts e)) ∧ (∀ e, e ∈ p_Denylist p → all_utf8 (pin_texts e)) ∧
  (∀ e, e ∈ td_Allowed (p_TypedData p) → all_utf8 (typed_texts e)) ∧ valid_utf8 (td_Unknown (p_TypedData p)) = true ∧
  (∀ e, e ∈ p_ContractsAllowed p → all_utf8 (contract_texts e)) ∧
  all_utf8 (limits_strings (r_Default (p_Rules p))) ∧ (∀ e, e ∈ r_Networks (p_Rules p) → all_utf8 (network_texts e)).
Proof.
  unfold utf8_policy, policy_strings. rewrite !Forall_app, !Forall_concat_map.
  intros (_ & Hd & Hn & _ & Hp & _ & Hu & Ht & Hc). split_and!; try done.
  - intros e He. apply (Hp e), elem_of_app. by left.
  - intros e He. apply (Hp e), elem_of_app. by right.
  - by apply Forall_inv in Hu.
Qed.

Local Ltac parts p H :=
  destruct p as [?v ?n ?u ?w ?m ?t ?r ?tk ?al ?dl ?sa ?td ?ca]; unfold utf8_policy, policy_strings in *;
  cbn [p_UpdatedAt p_WrittenBy p_Messages p_Rules r_Default r_Networks p_Tokens p_Allowlist p_Denylist p_SelfAddresses
       p_TypedData td_Unknown td_Allowed p_ContractsAllowed with_rules with_allowlist with_denylist with_typed
       PolicyAdmin.with_contracts with_messages with_tokens_ok PolicyAdmin.with_tokens] in *;
  rewrite !Forall_app, !Forall_concat_map in *;
  destruct H as (? & ? & ? & ? & ? & ? & ? & ? & ?); split_and!; try done.

Lemma utf8_with_allowlist p l :
  utf8_policy p → (∀ e, e ∈ l → all_utf8 (pin_texts e)) → utf8_policy (with_allowlist p l).
Proof. intros H Hl. destruct (utf8_lists p H) as (_ & Hd & _). parts p H. intros x [Hx|Hx]%elem_of_app; [by apply Hl|by apply Hd]. Qed.

Lemma utf8_with_denylist p l :
  utf8_policy p → (∀ e, e ∈ l → all_utf8 (pin_texts e)) → utf8_policy (with_denylist p l).
Proof. intros H Hl. destruct (utf8_lists p H) as [Ha _]. parts p H. intros x [Hx|Hx]%elem_of_app; [by apply Ha|by apply Hl]. Qed.

Lemma utf8_with_typed p u l :
  utf8_policy p → valid_utf8 u = true → (∀ e, e ∈ l → all_utf8 (typed_texts e)) → utf8_policy (with_typed p (mkTypedDataCfg u l)).
Proof. intros H Hu Hl. parts p H. by apply Forall_singleton. Qed.

Lemma utf8_with_contracts p l :
  utf8_policy p → (∀ e, e ∈ l → all_utf8 (contract_texts e)) → utf8_policy (PolicyAdmin.with_contracts p l).
Proof. intros H Hl. parts p H. Qed.

Lemma utf8_with_rules p d l :
  utf8_policy p → all_utf8 (limits_strings d) → (∀ e, e ∈ l → all_utf8 (network_texts e)) →
  utf8_policy (with_rules p (mkRules d l)).
Proof. intros H Hd Hl. parts p H. Qed.

Lemma utf8_with_messages p m : utf8_policy p → valid_utf8 m = true → utf8_policy (with_messages p m).
Proof. intros H Hm. parts p H. rewrite !Forall_cons in *. tauto. Qed.

(** ** Limits *)

Lemma utf8_merge dst src :
  all_utf8 (limits_strings dst) → all_utf8 (limits_strings src) → all_utf8 (limits_strings (mergeLimits dst src)).
Proof.
  unfold all_utf8, limits_strings, mergeLimits. cbn [MaxTxWei MaxDayWei MaxGasPriceWei TypedDataUnknown]. rewrite !Forall_app.
  intros (A1 & A2 & A3 & A4) (B1 & B2 & B3 & B4).
  destruct (MaxTxWei src), (MaxDayWei src), (MaxGasPriceWei src), (TypedDataUnknown src); by split_and!.
Qed.

Lemma has_limit_set n :
  has_limit n = is_set (MaxTxWei (nr_Limits n)) || is_set (MaxDayWei (nr_Limits n)) || is_set (MaxGasPriceWei (nr_Limits n)) ||
    is_set (AllowlistEnabled (nr_Limits n)) || is_set (IncludeSelf (nr_Limits n)) || is_set (TypedDataUnknown (nr_Limits n)).
Proof. unfold has_limit, limits_members. by destruct (nr_Limits n) as [[] [] [] [] [] []]. Qed.

Lemma is_set_or_keep {A} (new old : option A) : is_set (or_keep new old) = is_set new || is_set old.
Proof. by destruct new, old. Qed.

Lemma merge_has_limit n x : has_limit x = true → has_limit (mkNetworkRule (nr_Network x) (mergeLimits (nr_Limits x) (nr_Limits n))) = true.
Proof.
  rewrite !has_limit_set. unfold mergeLimits.
  cbn [nr_Limits MaxTxWei MaxDayWei MaxGasPriceWei AllowlistEnabled IncludeSelf TypedDataUnknown].
  rewrite !is_set_or_keep, !orb_true_iff. tauto.
Qed.

Lemma all_named l : forallb has_limit l = true ↔ ∀ n, n ∈ l → has_limit n = true.
Proof. rewrite forallb_forall. split; intros H n Hn; apply H; by apply list_elem_of_In. Qed.

(** ** The changes of [policy set] *)

Definition change_texts (c : Change) : list string :=
  match ch_Default c with Some l => limits_strings l | None => [] end ++
  concat (map network_texts (ch_Networks c)) ++ option_list (ch_Messages c) ++ option_list (ch_TypedUnknown c).

Lemma utf8_networks c l :
  all_utf8 (change_texts c) → (∀ e, e ∈ l → all_utf8 (network_texts e)) →
  ∀ e, e ∈ foldl (λ ns n, upsertNetwork n ns) l (ch_Networks c) → all_utf8 (network_texts e).
Proof.
  unfold change_texts, all_utf8. rewrite !Forall_app, Forall_concat_map. intros (_ & Hn & _) Hl.
  apply (foldl_all (λ l, ∀ e, e ∈ l → Forall _ (network_texts e))); [done|].
  intros a n Hin Ha. unfold upsertNetwork. pose proof (Hn n Hin) as Hnew.
  apply upsert_all; [done| |done]. unfold network_texts. intros y [H1 H2]%Forall_cons. apply Forall_cons. split; [done|].
  apply utf8_merge; [done|]. by apply Forall_inv_tail in Hnew.
Qed.

Lemma named_networks c l :
  forallb has_limit (ch_Networks c) = true → forallb has_limit l = true →
  forallb has_limit (foldl (λ ns n, upsertNetwork n ns) l (ch_Networks c)) = true.
Proof.
  rewrite !all_named. intros Hc Hl. apply (foldl_all (λ l, ∀ n, n ∈ l → has_limit n = true)); [done|].
  intros a n Hn Ha. unfold upsertNetwork. apply upsert_all; [done| |by apply Hc]. intros y Hy. by apply merge_has_limit.
Qed.

(** a body that stays expressible, with its nonce *)
Definition keeps (p p' : Policy) : Prop := proper p' ∧ p_Nonce p' = p_Nonce p.

Lemma keeps_trans p q r : keeps p q → keeps q r → keeps p r.
Proof. intros [_ E] [H E']. split; [done|]. by rewrite E'. Qed.

Lemma keeps_parts p p' :
  proper p → utf8_policy p' → p_Version p' = p_Version p → p_Nonce p' = p_Nonce p →
  Forall (λ a, - 2 ^ 63 ≤ ta_ChainID a < 2 ^ 63) (td_Allowed (p_TypedData p')) → limits_named p' → keeps p p'.
Proof.
  intros [Hu (Hv & Hn & Ha) Hl Hve] H Ev En Hi Hl'. split; [|done]. split; [done| |done|by rewrite Ev].
  split; [by rewrite Ev|split; [by rewrite En|done]].
Qed.

Lemma keeps_rules p d l :
  proper p → all_utf8 (limits_strings d) → (∀ e, e ∈ l → all_utf8 (network_texts e)) → forallb has_limit l = true →
  keeps p (with_rules p (mkRules d l)).
Proof.
  intros Hp Hd Hn Hl. apply keeps_parts; [done|apply utf8_with_rules; [apply Hp|done..]|..]; try by destruct p.
  destruct Hp as [_ (_ & _ & H) _ _]. by destruct p.
Qed.

Lemma keeps_messages p m : proper p → valid_utf8 m = true → keeps p (with_messages p m).
Proof.
  intros Hp Hm. apply keeps_parts; [done|apply utf8_with_messages; [apply Hp|done]|..]; try by destruct p.
  - destruct Hp as [_ (_ & _ & H) _ _]. by destruct p.
  - destruct Hp as [_ _ H _]. by destruct p.
Qed.

Lemma keeps_tokens_ok p b : proper p → keeps p (with_tokens_ok p b).
Proof.
  intros Hp. apply keeps_parts; [done| |..]; try by destruct p.
  - destruct Hp as [H _ _ _]. by destruct p.
  - destruct Hp as [_ (_ & _ & H) _ _]. by destruct p.
  - destruct Hp as [_ _ H _]. by destruct p.
Qed.

Lemma keeps_typed p u l :
  proper p → valid_utf8 u = true → (∀ e, e ∈ l → all_utf8 (typed_texts e)) →
  (∀ e, e ∈ l → - 2 ^ 63 ≤ ta_ChainID e < 2 ^ 63) → keeps p (with_typed p (mkTypedDataCfg u l)).
Proof.
  intros Hp Hu Hl Hi. apply keeps_parts; [done|apply utf8_with_typed; [apply Hp|done..]|..]; try by destruct p.
  - rewrite Forall_forall. by destruct p.
  - destruct Hp as [_ _ H _]. by destruct p.
Qed.

Lemma with_same_tokens p : PolicyAdmin.with_tokens p (p_Tokens p) = p.
Proof. by destruct p. Qed.

Lemma proper_change p c :
  proper p → ch_Tokens c = [] → all_utf8 (change_texts c) → forallb has_limit (ch_Networks c) = true → keeps p (applyChange p c).
Proof.
  intros Hp Ht Hc Hnamed. pose proof Hp as [Hu _ Hl _]. destruct (utf8_lists p Hu) as (_ & _ & _ & _ & _ & Hd & Hns).
  unfold applyChange. rewrite Ht. cbn [foldl]. rewrite with_same_tokens.
  set (d := match ch_Default c with Some l => _ | None => _ end).
  assert (Hd' : all_utf8 (limits_strings d)).
  { unfold change_texts, all_utf8 in Hc. subst d. apply Forall_app in Hc as [Hc _].
    destruct (ch_Default c); [by apply utf8_merge|done]. }
  pose proof (keeps_rules p d _ Hp Hd' (utf8_networks c _ Hc Hns) (named_networks c _ Hnamed Hl)) as K1.
  set (p1 := with_rules p _) in *. unfold change_texts, all_utf8 in Hc. rewrite !Forall_app in Hc. destruct Hc as (_ & _ & Hm & Htu).
  set (p2 := match ch_Messages c with Some m => _ | None => _ end).
  assert (K2 : keeps p p2).
  { subst p2. destruct (ch_Messages c) as [m|]; [|done]. apply (keeps_trans _ _ _ K1), keeps_messages; [apply K1|exact (Forall_inv Hm)]. }
  set (p3 := match ch_TokensNoAllowOK c with Some b => _ | None => _ end).
  assert (K3 : keeps p p3).
  { subst p3. destruct (ch_TokensNoAllowOK c) as [b|]; [|done]. apply (keeps_trans _ _ _ K2), keeps_tokens_ok, K2. }
  destruct (ch_TypedUnknown c) as [u|]; [|done]. apply (keeps_trans _ _ _ K3). pose proof K3 as [[Hu3 (_ & _ & Hi) _ _] _].
  apply keeps_typed; [apply K3|exact (Forall_inv Htu)|by apply (utf8_lists _ Hu3)|by apply Forall_forall].
Qed.

Lemma keeps_allowlist p l : proper p → (∀ e, e ∈ l → all_utf8 (pin_texts e)) → keeps p (with_allowlist p l).
Proof.
  intros Hp Hl. apply keeps_parts; [done|apply utf8_with_allowlist; [apply Hp|done]|..]; try by destruct p.
  - destruct Hp as [_ (_ & _ & H) _ _]. by destruct p.
  - destruct Hp as [_ _ H _]. by destruct p.
Qed.

Lemma keeps_denylist p l : proper p → (∀ e, e ∈ l → all_utf8 (pin_texts e)) → keeps p (with_denylist p l).
Proof.
  intros Hp Hl. apply keeps_parts; [done|apply utf8_with_denylist; [apply Hp|done]|..]; try by destruct p.
  - destruct Hp as [_ (_ & _ & H) _ _]. by destruct p.
  - destruct Hp as [_ _ H _]. by destruct p.
Qed.

Lemma keeps_contracts p l :
  proper p → (∀ e, e ∈ l → all_utf8 (contract_texts e)) → keeps p (PolicyAdmin.with_contracts p l).
Proof.
  intros Hp Hl. apply keeps_parts; [done|apply utf8_with_contracts; [apply Hp|done]|..]; try by destruct p.
  - destruct Hp as [_ (_ & _ & H) _ _]. by destruct p.
  - destruct Hp as [_ _ H _]. by destruct p.
Qed.

(** ** The commands *)

Lemma z_string_ok n : valid_utf8 (z_string n) = true.
Proof. apply valid_utf8_ascii, num_char_ascii, valid_z. Qed.

Lemma setWei_texts raw fee label o : setWei raw fee label = Ok o → all_utf8 (option_list o).
Proof.
  unfold setWei. destruct raw as [raw|]; [|intros [= <-]; constructor].
  destruct (_ || _); [intros [= <-]; by constructor|]. destruct (_ || _); [intros [= <-]; constructor|].
  destruct (if fee then _ else _); [|done]. intros [= <-]. constructor; [apply z_string_ok|constructor].
Qed.

Lemma allow_deny_texts raw label o : parse_allow_deny raw label = Ok o → all_utf8 (option_list o).
Proof.
  unfold parse_allow_deny. destruct raw as [raw|]; [|intros [= <-]; constructor].
  case_bool_decide as H1; [rewrite H1; intros [= <-]; by constructor|].
  case_bool_decide as H2; [rewrite H2; intros [= <-]; by constructor|done].
Qed.

Section Commands.
Variables (env : PolicyEnv) (tests : gmap string Address) (rpc : string).
Implicit Types s : Stores N.

Lemma buildChange_texts req c :
  buildChange env req = Ok c → valid_utf8 (ToLower (sr_Network req)) = true → all_utf8 (change_texts c).
Proof.
  unfold buildChange. intros (mt & H1 & (md & H2 & (mg & H3 & (al & _ & (inc & _ & (tu & H4 & (ms & H5 & (tk & _ & H)%rbind_ok)
    %rbind_ok)%rbind_ok)%rbind_ok)%rbind_ok)%rbind_ok)%rbind_ok)%rbind_ok Hn.
  apply setWei_texts in H1, H2, H3. apply allow_deny_texts in H4, H5. apply Ok_eq in H as ->.
  assert (Hl : all_utf8 (limits_strings (mkLimits mt md mg al inc None))).
  { unfold all_utf8, limits_strings. cbn. rewrite !Forall_app. by split_and!. }
  unfold change_texts, all_utf8. cbn. rewrite !Forall_app. split_and!; [by destruct (_ && _)| |done|done].
  destruct (_ && _); [|constructor]. cbn. rewrite app_nil_r. by constructor.
Qed.

(** the texts of a request that the body stores *)
Definition sealed_texts (cmd : Command) : list string :=
  match cmd with
  | CmdSet req => [ToLower (sr_Network req)]
  | CmdAllow req | CmdDeny req => [al_Source req; ToLower (al_Address req); al_Name req; al_Label req]
  | CmdTyped req => typed_texts (typed_of req)
  | CmdContract req => contract_texts (contract_of req "")
  end.

(** what a request must satisfy: UTF-8, a chain id of an int64, and a limit for
    the rule that a --network change adds *)
Definition expressible (cmd : Command) : Prop :=
  all_utf8 (sealed_texts cmd) ∧
  match cmd with
  | CmdTyped req => - 2 ^ 63 ≤ ty_ChainID req < 2 ^ 63
  | CmdSet req => ∀ c, buildChange env req = Ok c → forallb has_limit (ch_Networks c) = true
  | _ => True
  end.

(** the pin of a command is the request's own, or that with an address *)
Lemma pin_shape req s pin :
  allowed_pin env tests rpc req s pin ∨ denied_pin env tests rpc req s pin →
  pin = request_pin req ∨ ∃ addr, pin = resolved_pin env (request_pin req) addr.
Proof.
  unfold allowed_pin, denied_pin. intros [H|H].
  - destruct (_ && _); [|by left]. destruct H as (addr & _ & ->). eauto.
  - destruct (_ && _); [|by left]. destruct H as ([addr|] & _ & ->); [eauto|by left].
Qed.

Lemma pin_of_texts req s pin :
  allowed_pin env tests rpc req s pin ∨ denied_pin env tests rpc req s pin → all_utf8 [al_Source req; ToLower (al_Address req); al_Name req; al_Label req] → all_utf8 (pin_texts pin).
Proof.
  unfold all_utf8. rewrite !Forall_cons. intros [->|[addr ->]]%pin_shape (H1 & H2 & H3 & H4 & _); unfold pin_texts; cbn; rewrite !Forall_cons.
  - by split_and!.
  - split_and!; try done; [|apply Format_utf8]. rewrite ToLower_Hex. apply valid_utf8_ascii, hex40_ascii.
Qed.

Lemma edit_pins_texts rm pin l :
  all_utf8 (pin_texts pin) → (∀ e, e ∈ l → all_utf8 (pin_texts e)) → ∀ e, e ∈ edit_pins rm pin l → all_utf8 (pin_texts e).
Proof.
  intros Hp Hl. unfold edit_pins. destruct rm.
  - by apply filter_all.
  - by apply upsert_all.
Qed.

Lemma may_apply_keeps s cmd mut p :
  expressible cmd → may_apply env tests rpc s cmd mut → proper p → keeps p (mut p).
Proof.
  intros [Ht Hx] Hm Hp. pose proof Hp as [Hu (_ & _ & Hi) _ _]. rewrite Forall_forall in Hi.
  destruct (utf8_lists p Hu) as (Hal & Hdl & Hta & Htu & Hca & _ & _).
  destruct cmd as [req|req|req|req|req]; cbn [may_apply sealed_texts] in *.
  - destruct Hm as (c & Hc & ->). apply proper_change; [done|by eapply buildChange_stamp| |by apply Hx].
    apply (buildChange_texts req c Hc). exact (Forall_inv Ht).
  - destruct Hm as (pin & Hpin & ->). apply keeps_allowlist; [done|]. apply edit_pins_texts; [by eapply pin_of_texts; eauto|done].
  - destruct Hm as (pin & Hpin & ->). apply keeps_denylist; [done|]. apply edit_pins_texts; [by eapply pin_of_texts; eauto|done].
  - subst mut. apply keeps_typed; [done..| |].
    + destruct (ty_Remove req); [by apply filter_all|apply upsert_all; [done| |done]].
      unfold typed_texts, all_utf8 in *. intros y. rewrite !Forall_cons in *. cbn. tauto.
    + destruct (ty_Remove req); [by apply filter_all|by apply upsert_all].
  - subst mut. apply keeps_contracts; [done|]. destruct (cq_Remove req); [by apply filter_all|apply upsert_all; [done| |]].
    + unfold contract_texts, all_utf8 in *. intros y. rewrite !Forall_cons in *. cbn. pose proof (Format_utf8 (pv_added_at env)). tauto.
    + unfold contract_texts, all_utf8 in *. rewrite !Forall_cons in *. cbn in *. pose proof (Format_utf8 (pv_added_at env)). tauto.
Qed.

(** so a request is ready whenever the counters have room *)
Lemma expressible_ready s a p cmd :
  expressible cmd → proper p → valid_utf8 (pv_version env) = true → p_Nonce p < 2 ^ 64 - 1 → an_NonceWatermark a < 2 ^ 64 - 1 →
  ∀ mut, may_apply env tests rpc s cmd mut → ready env a p mut.
Proof.
  intros Hx Hp Hv Hn Hw mut Hm. destruct (may_apply_keeps s cmd mut p Hx Hm Hp) as [H E]. split_and!; [done..| |done]. by rewrite E.
Qed.
End Commands.
End Changes.
