(* ===== verification/PolicyForceProps.v ===== *)
(** * The policy commands: their properties

    Any number of policy commands, each cut off after any of its writes, leave
    a policy in force; a command that succeeds put its change in force or
    staged the anchor that does; what inherited limits, allowed names and denied
    names do; and a sample machine on which they are evaluated. *)

From S2P Require Import Prelude GoStrings Decimal Rfc3339 HexBytes Encodings Json PolicyTypes PolicyBody PolicyBodyFacts PolicyBodyProps Seal Domain PolicyFile Trace Evaluate Counter Reservation Engine PolicyAdmin PolicyAdminFacts EngineFacts Samples PolicyAdminProps Calldata Gas Service Refs Registry RegistrySpec Secret Ens PolicyService PolicyForce PolicyChanges.

(** ** A policy stays in force: the properties

    Any number of policy commands, each cut off after any of its writes, leave
    a policy in force, with the same key and no smaller watermark; a command
    that succeeds put its change in force or staged the anchor that does. *)

Local Open Scope string_scope.
Local Open Scope Z_scope.
Local Open Scope list_scope.
Local Open Scope go_scope.

Section Force.
Context {N : Type} {UT : UnicodeTables} {GC : GethCommon} {RC : LineCodec Reservation} {SS : SortSlice} {SC : SealCrypto}
        {KC : Keccak} {EC : EnsChain N} {AJ : AddressJSON}.
Implicit Types s : Stores N.

(** [n] commands, each with its own clock, prompts and failures, each opening
    the anchor the configuration holds, and each stopped anywhere: the next one
    starts from the stores before it or after any of its writes *)
Inductive sessions : nat → Stores N → Stores N → Prop :=
  | sessions_none s : sessions 0 s s
  | sessions_next n s s1 s2 env tests rpc a cmd inp :
      open_anchor (st_config s) = Ok (Some a) → expressible env cmd → valid_utf8 (pv_version env) = true →
      s1 ∈ s :: (run_command env tests rpc a cmd inp s).2 → sessions n s1 s2 → sessions (S n) s s2.

(** the larger of the two counters *)
Definition top (a : Anchor) (p : Policy) : Z := Z.max (p_Nonce p) (an_NonceWatermark a).

Lemma leaves_next env a p mut s' :
  ready env a p mut → proper (mut p) → p_Nonce (mut p) = p_Nonce p → leaves env a p mut s' → proper p → wf_anchor a →
  ∃ a' p', in_force a' s' p' ∧ proper p' ∧ top a' p' ≤ top a p + 1 ∧ an_NonceWatermark a ≤ an_NonceWatermark a' ∧
           an_VerifyKey a' = an_VerifyKey a.
Proof.
  intros (_ & Hw & Hn & Hv) Hm En Hl Hp W. pose proof (wfa_watermark a W) as [Hw0 _]. pose proof (proper_ints _ Hm) as (_ & Hn0 & _).
  pose proof (mutated_nonce (an_NonceWatermark a) (mut p) (pv_version env) (selfSnapshot env) (pv_now env)
                ltac:(lia) ltac:(lia)) as HN.
  assert (Hq : proper (canonical (mutated env a p mut))) by (apply canonical_proper, proper_mutated; [exact Hm|exact Hv]).
  assert (HC : p_Nonce (canonical (mutated env a p mut)) = top a p + 1) by (rewrite canonical_nonce; unfold mutated, top; lia).
  destruct Hl as [H|[H|H]].
  - exists a, p. split_and!; [done..|lia|lia|done].
  - eexists a, _. split; [exact H|]. split; [done|]. unfold top in *. split; [lia|]. split; [lia|done].
  - eexists _, _. split; [exact H|]. split; [done|]. unfold top in *. unfold new_anchor. rewrite raise_watermark_value, HC.
    rewrite canonical_nonce in HC. rewrite HC.
    split; [lia|]. split; [lia|]. unfold raise_watermark. by destruct (_ <? _).
Qed.

Lemma session_step env tests rpc a p cmd inp s s1 :
  in_force a s p → proper p → expressible env cmd → valid_utf8 (pv_version env) = true → top a p < 2 ^ 64 - 1 →
  s1 ∈ s :: (run_command env tests rpc a cmd inp s).2 →
  ∃ a' p', in_force a' s1 p' ∧ proper p' ∧ top a' p' ≤ top a p + 1 ∧ an_NonceWatermark a ≤ an_NonceWatermark a' ∧
           an_VerifyKey a' = an_VerifyKey a.
Proof.
  intros Hf Hp Hx Hv Ht H. unfold top in Ht.
  assert (HR := expressible_ready env tests rpc s a p cmd Hx Hp Hv ltac:(lia) ltac:(lia)).
  apply elem_of_cons in H as [->|H].
  - exists a, p. split_and!; [done..|lia|lia|done].
  - destruct (proj1 (run_command_behaves env tests rpc a p cmd inp s HR Hf) s1 H) as [Hf'|(mut & Hm & Hl)].
    + exists a, p. split_and!; [done..|lia|lia|done].
    + destruct (may_apply_keeps env tests rpc s cmd mut p Hx Hm Hp) as [Hp' En]. eapply leaves_next; [by apply HR|done..|apply Hf].
Qed.

(** ** The properties *)

(** C20: once a policy is in force, no sequence of expressible policy commands
    takes it out of force.  Each command may fail anywhere, be killed after any
    of its writes (a write that reports an error with the data in place leaves
    what a kill after it leaves), meet a read-only policy file or configuration, or change the
    anchor file and not the policy, or the policy and not the anchor: the
    configuration then still opens to an anchor with the same key and no
    smaller watermark, under which policy.json loads.  Hypotheses: the policy in
    force is proper (what the strict decoder reads back); its nonce and the
    watermark leave room for one more per command below 2^64; the version and
    the texts of the requests are UTF-8 and a chain id is an int64; and a
    [policy set --network] whose amounts are all "inherit" is not among the
    commands: on a network without a rule that one succeeds and leaves a
    policy.json that loads under no anchor (inherit_never_falls_back below). *)
Theorem policy_stays_in_force n s s' a p :
  in_force a s p → proper p → top a p + Z.of_nat n < 2 ^ 64 → sessions n s s' →
  ∃ a' p', in_force a' s' p' ∧ proper p' ∧ an_NonceWatermark a ≤ an_NonceWatermark a' ∧ an_VerifyKey a' = an_VerifyKey a.
Proof.
  intros Hf Hp Hn H. revert a p Hf Hp Hn.
  induction H as [s|n s s1 s2 env tests rpc a0 cmd inp Ho Hx Hv Hs H IH]; intros a p Hf Hp Hn; [by exists a, p|].
  assert (a0 = a) as -> by (destruct Hf as (_ & Ho' & _); congruence).
  destruct (session_step env tests rpc a p cmd inp s s1) as (a1 & p1 & Hf1 & Hp1 & Ht1 & Hw1 & Hk1); [done..|lia|done|].
  destruct (IH a1 p1) as (a2 & p2 & Hf2 & Hp2 & Hw2 & Hk2); [done..|lia|].
  exists a2, p2. split_and!; [done..|lia|congruence].
Qed.

(** C21: an expressible policy command that succeeds on a proper policy, its
    counters below 2^64 - 1, did what it says.  The change of its request is in
    the sealed policy: for allow, the entry carries the address that its ENS
    name or contact stood for in the chain and the address book the command
    started with; for deny, the one its ENS name resolved to, or the name alone
    when it did not resolve; an address, a removal or a denied contact is
    sealed as typed.  That policy loads under the old anchor and under
    the one the answer holds; the answer's nonce is that anchor's watermark and
    above the old one; and either the configuration opens to the new anchor or,
    where it cannot be written, the policy is in force under the old one and
    the new anchor is staged at the requested path. *)
Theorem policy_command_takes_effect env tests rpc a p cmd inp s res tr :
  in_force a s p → proper p → expressible env cmd → valid_utf8 (pv_version env) = true → top a p < 2 ^ 64 - 1 →
  run_command env tests rpc a cmd inp s = (Ok res, tr) →
  ∃ mut, may_apply env tests rpc s cmd mut ∧ took_effect env a p mut (anchor_out cmd) (after s tr) res.
Proof.
  intros Hf Hp Hx Hv Ht. unfold top in Ht.
  apply (run_command_behaves env tests rpc a p cmd inp s
           (expressible_ready env tests rpc s a p cmd Hx Hp Hv ltac:(lia) ltac:(lia)) Hf).
Qed.
End Force.

(** ** What [policy set --network ... inherit] does

    An inherited amount is a nil pointer, which [mergeLimits] reads as "leave
    unchanged": an existing override stays, and a network without a rule gets
    one that names no limit, which no file can carry. *)

Local Open Scope string_scope.
Local Open Scope Z_scope.
Local Open Scope list_scope.
Local Open Scope go_scope.

Section Inherit.
Context {N : Type} {UT : UnicodeTables} {GC : GethCommon} {RC : LineCodec Reservation} {SS : SortSlice} {SC : SealCrypto}
        {KC : Keccak} {EC : EnsChain N} {AJ : AddressJSON}.
Implicit Types s : Stores N.

(** ** A policy file that loads under no anchor *)

Definition unloadable (f : PFile) : Prop :=
  ∀ b, ∃ e, loadActivePolicy f (Some b) = Err e ∧ e_Code e = "policy.seal_violation".

(** an action that reports an error wherever the policy file is unloadable *)
Definition blocked {A} (m : PSM (N := N) A) : Prop := ∀ s, unloadable (st_policy s) → ∃ e, (m s).1 = Err e.

Lemma blocked_bind {A B} (m : PSM A) (f : A → PSM B) : quiet m → (∀ a, blocked (f a)) → blocked (mbind m f).
Proof.
  intros Hq Hf s Hs. destruct (m s) as [[a|e] tr] eqn:E.
  - rewrite (mbind_run _ _ _ _ _ E). cbn [fst]. apply Hf. by rewrite (proj1 (quiet_after _ _ _ _ Hq E)).
  - rewrite (mbind_fail _ _ _ _ _ E). by exists e.
Qed.

Lemma blocked_core a mut env op tail : one_mutation env a mut op → blocked (core op tail).
Proof.
  intros [pass Hop] s Hs. destruct (Hs a) as (e & He & _).
  destruct (mutate_unloadable (pv_write env) a (Some pass) (pv_version env) (selfSnapshot env) mut (pv_now env) _ e He) as [e1 E1].
  assert (Ho : ∃ e2, op (st_policy s) = (Err e2, [])).
  { destruct (Hop (st_policy s)) as [->|H]; [by exists e1|exact H]. }
  destruct Ho as [e2 E2]. unfold core. exists e2. erewrite mbind_fail; [done|]. unfold on_policy, mzoom. by rewrite E2.
Qed.

Lemma run_command_blocked env tests rpc a cmd inp : blocked (run_command env tests rpc a cmd inp).
Proof.
  destruct cmd as [req|req|req|req|req]; cbn [run_command].
  - unfold PolicySet. apply blocked_bind; [apply quiet_reads, reads_mlift|]. intros c.
    apply blocked_bind; [apply quiet_admin|]. intros pass. apply blocked_bind; [apply quiet_reads, reads_mget|]. intros s1.
    destruct (Show_ (st_policy s1) (Some a)) as [[? st] ?].
    intros s Hs. destruct (Hs a) as (e & He & _).
    destruct (mutate_unloadable (pv_write env) a (Some pass) (ch_WrittenBy c) (ch_RefreshSelf c) (λ p, applyChange p c)
                (pv_now env) _ e He) as [e1 E1].
    exists e1. erewrite mbind_fail; [done|]. unfold on_policy, mzoom, Set_. by rewrite E1.
  - unfold PolicyAllow. apply blocked_bind; [apply quiet_admin|]. intros pass.
    apply blocked_bind; [apply quiet_allow_pin|]. intros pin. eapply blocked_core, one_mutate.
  - unfold PolicyDeny. apply blocked_bind; [apply quiet_admin|]. intros pass.
    apply blocked_bind; [apply quiet_deny_pin|]. intros pin. eapply blocked_core, one_mutate.
  - unfold PolicyTypedAllow. apply blocked_bind; [apply quiet_admin|]. intros pass. eapply blocked_core, one_guarded.
  - unfold PolicyContractAllow. apply blocked_bind; [apply quiet_admin|]. intros pass. eapply blocked_core, one_guarded.
Qed.

(** ** A request that only inherits *)

Definition inherits (raw : option string) : Prop :=
  match raw with None => True | Some v => ToLower (TrimSpace v) = "inherit" end.

Record only_inherits (req : PolicySetRequest) : Prop := {
  oi_network : sr_Network req ≠ "";
  oi_some : is_set (sr_MaxTx req) || is_set (sr_MaxDay req) || is_set (sr_MaxGasPrice req) = true;
  oi_tx : inherits (sr_MaxTx req);
  oi_day : inherits (sr_MaxDay req);
  oi_gas : inherits (sr_MaxGasPrice req);
  oi_others : sr_Allowlist req = None ∧ sr_IncludeSelf req = None ∧ sr_TypedUnknown req = None ∧ sr_Messages req = None ∧
              sr_TokensNoAllow req = None;
}.

Definition empty_limits : Limits := mkLimits None None None None None None.

Definition inherit_change (env : PolicyEnv) (req : PolicySetRequest) : Change :=
  mkChange None [mkNetworkRule (ToLower (sr_Network req)) empty_limits] None None None [] (selfSnapshot env) (pv_version env).

Lemma setWei_inherits raw fee label : inherits raw → setWei raw fee label = Ok None.
Proof. unfold setWei, inherits. destruct raw as [v|]; [|done]. by intros ->. Qed.

Lemma inherit_built env req : only_inherits req → buildChange env req = Ok (inherit_change env req).
Proof.
  intros [Hn Hs H1 H2 H3 (E1 & E2 & E3 & E4 & E5)]. unfold buildChange. rewrite !setWei_inherits by done.
  rewrite E1, E2, E3, E4, E5. unfold parseOnOff, parse_allow_deny, rbind. rewrite Hs. cbn [orb andb].
  by rewrite bool_decide_false.
Qed.

Lemma merge_empty l : mergeLimits l empty_limits = l.
Proof. by destruct l. Qed.

Definition has_rule (network : string) (p : Policy) : bool :=
  existsb (λ n, equalFoldStr (nr_Network n) network) (r_Networks (p_Rules p)).

Lemma update_first_same {A} (f : A → bool) g (l : list A) : (∀ x, g x = x) → update_first f g l = l.
Proof. intros H. induction l as [|x l IH]; [done|]. cbn [update_first]. rewrite H, IH. by destruct (f x). Qed.

Lemma inherit_applied env req p :
  applyChange p (inherit_change env req) =
  if has_rule (ToLower (sr_Network req)) p then p
  else with_rules p (mkRules (r_Default (p_Rules p))
         (r_Networks (p_Rules p) ++ [mkNetworkRule (ToLower (sr_Network req)) empty_limits])).
Proof.
  unfold applyChange, inherit_change, has_rule. cbn [ch_Default ch_Networks ch_Messages ch_TokensNoAllowOK ch_TypedUnknown ch_Tokens foldl].
  unfold upsertNetwork at 1, upsert. cbn [nr_Network nr_Limits]. destruct (existsb _ _).
  - rewrite update_first_same; [by destruct p as [??????[]??????]|]. intros [n l]. cbn [nr_Network nr_Limits]. by rewrite merge_empty.
  - by destruct p.
Qed.

(** a mutation that succeeds on a readable file *)
Lemma mutate_inv env a pass mut f r a' tr :
  loadPolicy f (Some a) = Ok r →
  mutate (pv_write env) (Some a) (Some pass) (pv_version env) (selfSnapshot env) mut (pv_now env) f = (Ok a', tr) →
  let body := mutated env a (lr_policy r) mut in
  ∃ k, authenticate (Some a) (Some pass) = Ok k ∧ a' = new_anchor env a (lr_policy r) mut ∧ tr = [Some (sealed_file body k.1)].
Proof.
  intros Hl H. cbv zeta. destruct (authenticate (Some a) (Some pass)) as [k|e] eqn:Ea.
  2:{ unfold mutate in H. by rewrite Ea in H. }
  exists k. split; [done|]. destruct (pv_write env) as [e|].
  - unfold mutate in H. rewrite (mbind_read _ _ _ k), (mbind_read _ _ _ f), (mbind_read _ _ _ r) in H by (by rewrite ?Ea, ?Hl). done.
  - rewrite (mutate_run a (Some pass) _ _ mut _ f k r Ea Hl) in H by (by eapply load_present).
    by injection H as <- <-.
Qed.

(** a successful [policy set] is one mutation of the file *)
Lemma set_writes env a p req c inp s res tr :
  in_force a s p → buildChange env req = Ok c → PolicySet env (Some a) req inp s = (Ok res, tr) →
  0 ≤ p_Nonce (mutated env a p (λ p, applyChange p c)) < 2 ^ 64 →
  ∃ pass k, authenticate (Some a) (Some pass) = Ok k ∧
    st_policy (after s tr) = Some (sealed_file (mutated env a p (λ p, applyChange p c)) k.1).
Proof.
  intros Hf Hc H Hn. destruct (in_force_loads _ _ _ Hf) as (r & Hl & <-). destruct Hf as (W & _ & _).
  destruct (buildChange_stamp env req c Hc) as (E1 & E2 & _). unfold PolicySet in H. rewrite Hc in H.
  apply mbind_ok in H as (c' & t0 & t1 & [[= <-] ->]%mlift_ok & H & ->). cbn [app] in *. change (after s []) with s in *.
  apply mbind_ok in H as (pass & t2 & t3 & Hq & H & ->).
  pose proof (proj1 (quiet_after _ _ _ _ (quiet_admin env inp) Hq)) as Hsame.
  rewrite (mbind_read _ _ _ (after s t2)) in H by done.
  destruct (Show_ _ _) as [[? st] ?]. apply mbind_ok in H as (a' & t4 & t5 & H1 & H2 & ->).
  unfold on_policy, mzoom in H1. rewrite Hsame in H1. unfold Set_ in H1. rewrite E1, E2 in H1.
  destruct (mutate _ _ _ _ _ _ _ (st_policy s)) as [x t6] eqn:Em.
  assert (Hx : x = Ok a') by congruence. subst x.
  destruct (mutate_inv _ _ _ _ _ r _ _ Hl Em) as (k & Hk & -> & ->). injection H1 as <-.
  exists pass, k. split; [done|]. rewrite !after_app.
  by rewrite (proj1 (finish_ok env _ _ _ _ _ _ (raise_watermark_wf _ _ W Hn) H2)).
Qed.

(** An inherited limit does not fall back to the default block.  Take a
    [policy set --network n] whose amounts are all "inherit", and say it
    succeeds.  Where [n] has a rule, the rules in force are the ones before: the
    override stays.  Where it has none, the new policy.json loads under no anchor
    (policy.seal_violation), and every later set, allow, deny, typed-data or
    contract command, under any anchor and passphrase, fails. *)
Theorem inherit_never_falls_back env a p req inp s res tr :
  in_force a s p → proper p → valid_utf8 (ToLower (sr_Network req)) = true → valid_utf8 (pv_version env) = true →
  p_Nonce p < 2 ^ 64 - 1 → an_NonceWatermark a < 2 ^ 64 - 1 → only_inherits req →
  PolicySet env (Some a) req inp s = (Ok res, tr) →
  let s' := after s tr in
  if has_rule (ToLower (sr_Network req)) p
  then ∃ q, loadActivePolicy (st_policy s') (Some a) = Ok (Some q) ∧ r_Networks (p_Rules q) = r_Networks (p_Rules p)
  else unloadable (st_policy s') ∧
       ∀ env' tests rpc b cmd inp' s1, st_policy s1 = st_policy s' → ∃ e, (run_command env' tests rpc b cmd inp' s1).1 = Err e.
Proof.
  intros Hf Hp Hnet Hv Hn Hw Hi H s'. pose proof (inherit_built env req Hi) as Hc.
  pose proof (inherit_applied env req p) as Happ. pose proof Hp as [Hu (_ & Hn0 & _) _ _]. pose proof (wfa_watermark a ltac:(apply Hf)) as [Hw0 _].
  assert (Hn' : p_Nonce (applyChange p (inherit_change env req)) = p_Nonce p).
  { rewrite Happ. destruct (has_rule _ _); by destruct p. }
  pose proof (mutated_nonce (an_NonceWatermark a) (applyChange p (inherit_change env req)) (pv_version env) (selfSnapshot env) (pv_now env)
                ltac:(lia) ltac:(lia)) as HN.
  destruct (set_writes env a p req _ inp s res tr Hf Hc H ltac:(unfold mutated; lia)) as (pass & k & Hk & Es'). fold s' in Es'.
  rewrite Es'. unfold mutated in *. rewrite Happ in *. destruct (has_rule _ _).
  - pose proof (proper_mutated (an_NonceWatermark a) p (pv_version env) (selfSnapshot env) (pv_now env) Hp Hv) as HP.
    eexists. split.
    + apply load_active_file; [exact HP| |lia]. by apply authenticate_spec in Hk as (? & ? & ? & [= <-] & _ & _ & _ & Hpin).
    + by destruct p.
  - assert (Hx : unloadable (Some (sealed_file (mutated_body (an_NonceWatermark a) (with_rules p (mkRules (r_Default (p_Rules p))
       (r_Networks (p_Rules p) ++ [mkNetworkRule (ToLower (sr_Network req)) empty_limits]))) (pv_version env) (selfSnapshot env)
       (pv_now env)) k.1))).
    { intros b. apply limitless_load.
      - apply utf8_mutated; [|done]. destruct (utf8_lists p Hu) as (_ & _ & _ & _ & _ & Hd & Hns).
        apply utf8_with_rules; [done..|]. intros n [Hin|Hin%list_elem_of_singleton]%elem_of_app; [by apply Hns|subst n].
        by constructor.
      - unfold limits_named, mutated_body. destruct p. cbn. rewrite forallb_app. cbn. by rewrite andb_false_r. }
    split; [exact Hx|]. intros env' tests rpc b cmd inp' s1 E. apply run_command_blocked. by rewrite E.
Qed.
End Inherit.

(** ** What allow and deny pin

    Allowing a name seals the address it stands for now; denying one seals an
    address only when the name is an ENS name. *)

Local Open Scope string_scope.
Local Open Scope Z_scope.
Local Open Scope list_scope.
Local Open Scope go_scope.

Lemma upsert_new {A} same (x : A) l : x ∈ upsert same (λ _, x) x l.
Proof.
  unfold upsert. destruct (existsb same l) eqn:E; [|by apply elem_of_app; right; left].
  induction l as [|y l IH]; [done|]. cbn [existsb update_first] in *. destruct (same y); [by left|]. right. by apply IH.
Qed.

Lemma upsert_old {A} same update (x y : A) l : y ∈ upsert same update x l → y = x ∨ y ∈ l ∨ ∃ z, z ∈ l ∧ y = update z.
Proof.
  unfold upsert. destruct (existsb same l).
  - induction l as [|z l IH]; cbn [update_first]; [by intros ?%elem_of_nil|]. destruct (same z).
    + intros [->|H]%elem_of_cons; [right; right; exists z; split; [by left|done]|]. right. left. by right.
    + intros [->|H]%elem_of_cons; [right; left; by left|]. destruct (IH H) as [->|[H'|(w & Hw & ->)]]; [by left| |].
      * right. left. by right.
      * right. right. exists w. split; [by right|done].
  - intros [H|H%list_elem_of_singleton]%elem_of_app; [right; by left|by left].
Qed.

Section Pins.
Context {N : Type} {UT : UnicodeTables} {GC : GethCommon} {RC : LineCodec Reservation} {SS : SortSlice} {SC : SealCrypto}
        {KC : Keccak} {EC : EnsChain N} {AJ : AddressJSON}.
Implicit Types s : Stores N.
Variables (env : PolicyEnv) (tests : gmap string Address) (rpc : string).

(** the body's lists in the policy the file denotes *)
Lemma canonical_allowlist a p pins e :
  e ∈ p_Allowlist (canonical (mutated env a p (λ p, with_allowlist p pins))) ↔ e ∈ pins.
Proof.
  destruct p. change (e ∈ sortPins pins ↔ e ∈ pins). unfold sortPins. by rewrite sort_slice_perm.
Qed.

Lemma canonical_denylist a p pins e :
  e ∈ p_Denylist (canonical (mutated env a p (λ p, with_denylist p pins))) ↔ e ∈ pins.
Proof.
  destruct p. change (e ∈ sortPins pins ↔ e ∈ pins). unfold sortPins. by rewrite sort_slice_perm.
Qed.

(** ** Allow *)

Lemma echo_pin res pin :
  pe_Source pin = "ens" ∨ pe_Source pin = "contact" → pe_ResolvedAt pin ≠ "" → mr_Pinned (withPinEcho res pin false) = pe_Address pin.
Proof.
  intros Hs Hr. unfold withPinEcho. rewrite (bool_decide_eq_false_2 _ Hr). cbn [orb].
  replace (negb (bool_decide (pe_Source pin = "ens")) && negb (bool_decide (pe_Source pin = "contact"))) with false.
  - by destruct res.
  - symmetry. destruct Hs as [-> | ->]; [done|by rewrite andb_false_r].
Qed.

Lemma Format_nonempty t : Format t ≠ "".
Proof. unfold Format, format_secs. destruct (civil_from_days _) as [[y m] d]. destruct (pad_int _ _); done. Qed.

(** Allowing a name pins the address it stands for.  A [policy allow] of an
    ENS name or a contact that succeeds asked the chain, or the address book as
    it is now, and got an address; the policy it sealed has an allowlist entry
    with that name and exactly that address, and the answer shows the same
    address. *)
Theorem allow_pins_what_it_shows a p req inp s res tr :
  in_force a s p → proper p → expressible env (CmdAllow req) → valid_utf8 (pv_version env) = true → top a p < 2 ^ 64 - 1 →
  al_Remove req = false → al_Source req = "ens" ∨ al_Source req = "contact" →
  PolicyAllow env tests rpc (Some a) req inp s = (Ok res, tr) →
  ∃ addr q e, stands_for env tests rpc req s addr ∧ loadActivePolicy (st_policy (after s tr)) (Some a) = Ok (Some q) ∧
    e ∈ p_Allowlist q ∧ pe_Name e = al_Name req ∧ pe_Source e = al_Source req ∧ pe_Address e = hex40 addr ∧
    mr_Pinned res = pe_Address e.
Proof.
  intros Hf Hp Hx Hv Ht Hrm Hsrc H. unfold top in Ht.
  assert (R := expressible_ready env tests rpc s a p (CmdAllow req) Hx Hp Hv ltac:(lia) ltac:(lia)).
  unfold PolicyAllow in H. apply mbind_ok in H as (pass & t1 & t2 & H1 & H & ->).
  pose proof (quiet_after _ _ _ _ (quiet_admin env inp) H1) as S1.
  apply mbind_ok in H as (pin & t3 & t4 & H2 & H & ->).
  pose proof (quiet_after _ _ _ _ (quiet_allow_pin env tests rpc req) H2) as S2.
  assert (Hpin : allowed_pin env tests rpc req s pin) by (eapply pins_after_admin; [exact H1|by eapply allow_pin_of]).
  assert (∃ addr, stands_for env tests rpc req s addr ∧ pin = resolved_pin env (request_pin req) addr) as (addr & Haddr' & Ep).
  { unfold allowed_pin in Hpin. rewrite Hrm in Hpin. by destruct Hsrc as [E|E]; rewrite E in Hpin. }
  rewrite Hrm in H. pose proof H as (x & t5 & t6 & _ & (r0 & t7 & t8 & _ & [-> _]%mret_ok & _)%mbind_ok & _)%mbind_ok.
  eapply (core_ok env a p (λ p, with_allowlist p (upsertPin pin (p_Allowlist p)))) in H;
    [| |apply R; exists pin; rewrite Hrm; by split|apply one_mutate|apply finishes_map; intros; apply echo_kept].
  2: { eapply in_force_files; [exact (files_trans _ _ _ S1 S2)|exact Hf]. }
  rewrite !after_app. destruct H as (Hl & _). exists addr, (canonical (mutated env a p (λ p, with_allowlist p (upsertPin pin (p_Allowlist p))))), pin.
  subst pin. split; [done|]. split; [exact Hl|]. split_and!; try done.
  - apply (canonical_allowlist a p). apply upsert_new.
  - cbn. apply ToLower_Hex.
  - apply echo_pin; [exact Hsrc|apply Format_nonempty].
Qed.

(** ** Deny *)

(** a name on the command line that is neither an address nor an ENS name *)
Definition contact_argument (arg : string) : Prop :=
  match ParseAccountRef arg with
  | Ok ref => ar_Kind ref ≠ RefAddress ∧ ar_Kind ref ≠ RefENS
  | Err _ => True
  end.

Lemma contact_request arg label rm out :
  contact_argument arg → resolvePinRequest arg label rm out = mkAllowRequest "contact" "" arg label rm out.
Proof.
  unfold contact_argument, resolvePinRequest. destruct (ParseAccountRef arg) as [ref|]; [|done].
  intros [H1 H2]. by rewrite (proj2 (Z.eqb_neq _ _) H1), (proj2 (Z.eqb_neq _ _) H2).
Qed.

(** Denying a contact does not deny its address.  [policy deny bob], for a
    contact, succeeds and seals an entry with the name and an empty address,
    whatever the address book says; a spend to any raw address, the one of bob
    included, that passed the denylist before still passes it.  (Denying an ENS name pins what it resolves to, and allowing a
    contact pins its address.) *)
Theorem denied_contact_address_passes a p arg label out inp s res tr :
  let req := resolvePinRequest arg label false out in
  in_force a s p → proper p → expressible env (CmdDeny req) → valid_utf8 (pv_version env) = true → top a p < 2 ^ 64 - 1 →
  contact_argument arg →
  PolicyDeny env tests rpc (Some a) req inp s = (Ok res, tr) →
  ∃ q, loadActivePolicy (st_policy (after s tr)) (Some a) = Ok (Some q) ∧
    (∃ e, e ∈ p_Denylist q ∧ pe_Source e = "contact" ∧ pe_Name e = arg ∧ pe_Address e = "") ∧
    ∀ c, c_ToInput c = "" → stageDenylist p c = None → stageDenylist q c = None.
Proof.
  intros req Hf Hp Hx Hv Ht Harg H. unfold top in Ht.
  assert (R := expressible_ready env tests rpc s a p (CmdDeny req) Hx Hp Hv ltac:(lia) ltac:(lia)).
  unfold req in *. rewrite contact_request in * by done. clear req. set (req := mkAllowRequest _ _ _ _ _ _) in *.
  unfold PolicyDeny in H. apply mbind_ok in H as (pass & t1 & t2 & H1 & H & ->).
  pose proof (quiet_after _ _ _ _ (quiet_admin env inp) H1) as S1.
  rewrite (mbind_read _ _ _ (request_pin req)) in H by done. set (pin := request_pin req) in *.
  eapply (core_ok env a p (λ p, with_denylist p (upsertPin pin (p_Denylist p)))) in H;
    [|exact (in_force_files _ _ _ _ S1 Hf)|apply R; exists pin; by split|apply one_mutate
     |apply finishes_map; intros; apply echo_kept].
  rewrite after_app. destruct H as (Hl & _). eexists. split; [exact Hl|]. split.
  - exists pin. split; [apply (canonical_denylist a p), upsert_new|done].
  - intros c Hc. rewrite !stageDenylist_none. intros Hn (d & Hd & Hm). apply Hn. exists d.
    apply (canonical_denylist a p), upsert_old in Hd.
    assert (Hd' : d = pin ∨ d ∈ p_Denylist p) by (destruct Hd as [?|[?|(z & _ & ->)]]; auto). clear Hd.
    destruct Hd' as [->|Hd]; [|by split]. exfalso. destruct Hm as [[Hne He]|(_ & _ & Hne & _)]; [|done].
    change (pe_Address pin) with "" in He. rewrite EqualFold_sym, EqualFold_nil_r in He. by apply bool_decide_eq_true in He.
Qed.
End Pins.

(** ** A sample machine for the policy commands

    The sealed sample policy, its anchor in the configuration, an address book
    with one contact, and the administrator's passphrase in the environment:
    the properties of the commands at concrete runs. *)

Local Open Scope string_scope.
Local Open Scope Z_scope.
Local Open Scope list_scope.

#[local] Existing Instance hex_json.

Definition sample_host : Host := {|
  h_lookupEnv := λ v, if bool_decide (v = "DAXIE_ADMIN_PASSPHRASE") then Some sample_pass else None;
  h_isTTY := None; h_readFile := λ _, Err ""; h_checkFile := λ _, None; h_prompt := λ _, Err "" |}.

(** no failure, and the clock at the epoch *)
Definition sample_machine : PolicyEnv := {|
  pv_host := sample_host; pv_version := "2.0"; pv_anchorPath := "policy-anchor.json"; pv_configDir := "conf";
  pv_defaultNetwork := "mainnet"; pv_accounts := None; pv_keys := None; pv_salt := None; pv_write := None; pv_mkdir := None;
  pv_lock := None; pv_writeAnchor := None; pv_staging := None; pv_registry := rio_ok; pv_engine := io_ok; pv_pinned_at := 0;
  pv_added_at := 0; pv_now := 0 |}.

(** the same with the configuration on a read-only mount *)
Definition read_only_machine : PolicyEnv := {|
  pv_host := sample_host; pv_version := "2.0"; pv_anchorPath := "policy-anchor.json"; pv_configDir := "conf";
  pv_defaultNetwork := "mainnet"; pv_accounts := None; pv_keys := None; pv_salt := None; pv_write := None;
  pv_mkdir := Some FsIsReadOnly; pv_lock := None; pv_writeAnchor := None; pv_staging := None; pv_registry := rio_ok;
  pv_engine := io_ok; pv_pinned_at := 0; pv_added_at := 0; pv_now := 0 |}.

Definition sample_config : string := anchor_text sample_anchor.

Definition sample_stores : Stores Z :=
  mkStores (Ok "") (Some sample_file) (Some sample_config) ∅ (run_all sample_ops) empty_disk 0.

Definition no_flags : AdminInput := mkAdminInput false "".

Lemma sample_wf_anchor : wf_anchor sample_anchor.
Proof.
  split.
  - exists (Public (sample_sk sample_pass sample_salt)). split; [apply Public_size|done].
  - by left.
  - exists sample_salt. split; [discriminate|done].
  - by left.
  - by vm_compute.
  - by vm_compute.
  - by vm_compute.
Qed.

Lemma sample_in_force : in_force sample_anchor sample_stores sample_policy.
Proof.
  split; [exact sample_wf_anchor|]. split; [|exact sample_loads]. unfold sample_stores, sample_config, open_anchor. cbn [st_config].
  by rewrite (ParseAnchor_text sample_anchor sample_wf_anchor).
Qed.

Lemma anchor_roundtrip_witness :
  wf_anchor sample_anchor ∧ ∃ text, Marshal sample_anchor = Ok text ∧ ParseAnchor text = Ok sample_anchor.
Proof. split; [exact sample_wf_anchor|exact (anchor_roundtrip sample_anchor sample_wf_anchor)]. Defined.

(** ** Commands *)

Definition set_day : Command :=
  CmdSet (mkSetRequest "" None (Some "0.5") None None None None None None "").

Lemma set_day_expressible env : expressible env set_day.
Proof.
  split; [by repeat constructor|]. intros c Hc. vm_compute in Hc. apply Ok_eq in Hc as ->. done.
Qed.

Lemma sample_top : top sample_anchor sample_policy = 7.
Proof. reflexivity. Qed.

Lemma policy_command_takes_effect_witness :
  ∃ res tr, run_command sample_machine ∅ "" sample_anchor set_day no_flags sample_stores = (Ok res, tr) ∧
    mr_AnchorWritten res = true ∧
    ∃ mut, may_apply sample_machine ∅ "" sample_stores set_day mut ∧
      took_effect sample_machine sample_anchor sample_policy mut "" (after sample_stores tr) res.
Proof.
  destruct (run_command sample_machine ∅ "" sample_anchor set_day no_flags sample_stores) as [[res|e] tr] eqn:E.
  - exists res, tr. split; [reflexivity|]. split.
    + assert (H : match (run_command sample_machine ∅ "" sample_anchor set_day no_flags sample_stores).1 with
                  | Ok r => mr_AnchorWritten r | Err _ => false end = true) by (vm_compute; reflexivity).
      rewrite E in H. exact H.
    + exact (policy_command_takes_effect sample_machine ∅ "" sample_anchor sample_policy set_day no_flags sample_stores res tr
               sample_in_force sample_proper (set_day_expressible sample_machine) eq_refl eq_refl E).
  - exfalso. assert (H : is_ok (run_command sample_machine ∅ "" sample_anchor set_day no_flags sample_stores).1 = true)
      by (vm_compute; reflexivity). rewrite E in H. discriminate H.
Defined.

Lemma head_reached {A} (s : A) l : default s (head l) ∈ s :: l.
Proof. destruct l as [|x l]; [by left|by right; left]. Qed.

(** killed after the policy file and before the anchor *)
Definition half_way : Stores Z :=
  default sample_stores (head (run_command sample_machine ∅ "" sample_anchor set_day no_flags sample_stores).2).

(** then a second change where the configuration is read-only, to its end *)
Definition second_end : Stores Z :=
  default half_way (head (run_command read_only_machine ∅ "" sample_anchor set_day no_flags half_way).2).

Lemma half_way_open : open_anchor (st_config half_way) = Ok (Some sample_anchor).
Proof. vm_compute. reflexivity. Qed.

Lemma policy_stays_in_force_witness :
  sessions 2 sample_stores second_end ∧ st_policy half_way ≠ Some sample_file ∧ st_policy second_end ≠ st_policy half_way ∧
  ∃ a' p', in_force a' second_end p' ∧ proper p' ∧ 5 ≤ an_NonceWatermark a' ∧ an_VerifyKey a' = an_VerifyKey sample_anchor.
Proof.
  assert (H : sessions 2 sample_stores second_end).
  { apply (sessions_next 1 sample_stores half_way second_end sample_machine ∅ "" sample_anchor set_day no_flags).
    - exact (proj1 (proj2 sample_in_force)).
    - exact (set_day_expressible sample_machine).
    - reflexivity.
    - apply head_reached.
    - apply (sessions_next 0 half_way second_end second_end read_only_machine ∅ "" sample_anchor set_day no_flags).
      + exact half_way_open.
      + exact (set_day_expressible read_only_machine).
      + reflexivity.
      + apply head_reached.
      + apply sessions_none. }
  split; [exact H|]. split; [intros E; vm_compute in E; discriminate E|]. split; [intros E; vm_compute in E; discriminate E|].
  exact (policy_stays_in_force 2 sample_stores second_end sample_anchor sample_policy sample_in_force sample_proper eq_refl H).
Defined.

(** ** Inherited limits, and names *)

Definition inherit_base : PolicySetRequest := mkSetRequest "base" (Some "inherit") None None None None None None None "".

Lemma inherit_base_only : only_inherits inherit_base.
Proof. by split. Qed.

Lemma inherit_never_falls_back_witness :
  ∃ res tr, PolicySet sample_machine (Some sample_anchor) inherit_base no_flags sample_stores = (Ok res, tr) ∧
    unloadable (st_policy (after sample_stores tr)).
Proof.
  destruct (PolicySet sample_machine (Some sample_anchor) inherit_base no_flags sample_stores) as [[res|e] tr] eqn:E.
  - exists res, tr. split; [reflexivity|].
    exact (proj1 (inherit_never_falls_back sample_machine sample_anchor sample_policy inherit_base no_flags sample_stores res tr
      sample_in_force sample_proper eq_refl eq_refl eq_refl eq_refl inherit_base_only E)).
  - exfalso. assert (H : is_ok (PolicySet sample_machine (Some sample_anchor) inherit_base no_flags sample_stores).1 = true)
      by (vm_compute; reflexivity). rewrite E in H. discriminate H.
Defined.

Definition name_bob : PolicyAllowRequest := resolvePinRequest "bob" "" false "".

Lemma bob_is_contact : contact_argument "bob".
Proof. vm_compute. split; discriminate. Qed.

Lemma bob_expressible env : expressible env (CmdAllow name_bob) ∧ expressible env (CmdDeny name_bob).
Proof.
  split; (split; [|done]); unfold all_utf8; cbn [sealed_texts];
    repeat (apply Forall_cons; split; [vm_compute; reflexivity|]); by apply Forall_nil.
Qed.

Lemma allow_pins_what_it_shows_witness :
  ∃ res tr, PolicyAllow sample_machine ∅ "" (Some sample_anchor) name_bob no_flags sample_stores = (Ok res, tr) ∧
    mr_Pinned res = hex40 2.
Proof.
  destruct (PolicyAllow sample_machine ∅ "" (Some sample_anchor) name_bob no_flags sample_stores) as [[res|e] tr] eqn:E.
  - exists res, tr. split; [reflexivity|].
    destruct (allow_pins_what_it_shows sample_machine ∅ "" sample_anchor sample_policy name_bob no_flags sample_stores res tr
      sample_in_force sample_proper (proj1 (bob_expressible sample_machine)) eq_refl eq_refl eq_refl (or_intror eq_refl) E)
      as (addr & q & en & Hst & _ & _ & _ & _ & Ha & ->).
    rewrite Ha. f_equal. vm_compute in Hst. congruence.
  - exfalso. assert (H : is_ok (PolicyAllow sample_machine ∅ "" (Some sample_anchor) name_bob no_flags sample_stores).1 = true)
      by (vm_compute; reflexivity). rewrite E in H. discriminate H.
Defined.

(** a send to the raw address of bob *)
Lemma denied_contact_address_passes_witness :
  ∃ res tr q, PolicyDeny sample_machine ∅ "" (Some sample_anchor) name_bob no_flags sample_stores = (Ok res, tr) ∧
    loadActivePolicy (st_policy (after sample_stores tr)) (Some sample_anchor) = Ok (Some q) ∧
    c_Dest (sample_check 20 5 false 1) = 2 ∧ stageDenylist q (sample_check 20 5 false 1) = None.
Proof.
  destruct (PolicyDeny sample_machine ∅ "" (Some sample_anchor) name_bob no_flags sample_stores) as [[res|e] tr] eqn:E.
  - destruct (denied_contact_address_passes sample_machine ∅ "" sample_anchor sample_policy "bob" "" "" no_flags sample_stores res tr
      sample_in_force sample_proper (proj2 (bob_expressible sample_machine)) eq_refl eq_refl bob_is_contact E) as (q & Hl & _ & Hc).
    exists res, tr, q. split; [reflexivity|]. split; [exact Hl|]. split; [reflexivity|]. apply Hc; reflexivity.
  - exfalso. assert (H : is_ok (PolicyDeny sample_machine ∅ "" (Some sample_anchor) name_bob no_flags sample_stores).1 = true)
      by (vm_compute; reflexivity). rewrite E in H. discriminate H.
Defined.
