(* ===== verification/Coerce.v ===== *)
(** * Argument strings to ABI values: [internal/abi/coerce.go]

    The type-directed reader of command-line arguments: integers, addresses,
    byte strings, and the array and tuple literals with their quoting.  A Go
    panic (a [reflect] call on the wrong type) is an outcome of the model, so
    that its absence is a theorem ([CoerceProps]).  go-ethereum's [Type] tree is
    the inductive [Typ]; its [GetType] and [String] are the class [AbiTypes]. *)

From S2P Require Import Prelude GoStrings Decimal HexBytes PolicyTypes Domain.

Local Open Scope string_scope.
Local Open Scope Z_scope.
Local Open Scope list_scope.

(** ** go-ethereum's types and the Go values they are packed from *)

(** [gethabi.Type]: its [T] with the fields that kind uses *)
Inductive Typ :=
| IntTy (Size : Z)
| UintTy (Size : Z)
| BoolTy
| StringTy
| SliceTy (Elem : Typ)
| ArrayTy (Size : Z) (Elem : Typ)
| TupleTy (TupleElems : list Typ) (TupleRawNames : list string)
| AddressTy
| FixedBytesTy (Size : Z)
| BytesTy
| HashTy
| FixedPointTy
| FunctionTy.

(** the [reflect.Type]s involved; an unnamed [[n]T] or [[]T] is known by its parts *)
Inductive gotype :=
| GBig                              (* *big.Int *)
| GUint (w : Z)
| GInt (w : Z)
| GBool
| GString
| GAddress                          (* common.Address, a named [20]uint8 *)
| GHash                             (* common.Hash *)
| GSlice (e : gotype)
| GArray (n : Z) (e : gotype)
| GStruct (fields : list gotype).

#[export] Instance gotype_eq_dec : EqDecision gotype.
Proof.
  refine (fix go (a b : gotype) : base.Decision (a = b) :=
    let _ : EqDecision gotype := @go in
    match a, b with
    | GBig, GBig | GBool, GBool | GString, GString | GAddress, GAddress | GHash, GHash => left eq_refl
    | GUint v, GUint w | GInt v, GInt w => cast_if (decide (v = w))
    | GSlice e, GSlice f => cast_if (decide (e = f))
    | GArray n e, GArray m f => cast_if_and (decide (n = m)) (decide (e = f))
    | GStruct l, GStruct k => cast_if (decide (l = k))
    | _, _ => right _
    end); abstract congruence.
Defined.

(** a Go value held in an [any], with its dynamic type *)
Inductive value :=
| VBig (z : Z)
| VUint (w z : Z)
| VInt (w z : Z)
| VBool (b : bool)
| VString (s : string)
| VAddress (a : Address)
| VHash (h : Hash)
| VSlice (e : gotype) (l : list value)
| VArray (e : gotype) (l : list value)
| VStruct (l : list value).

Fixpoint type_of (v : value) : gotype :=
  match v with
  | VBig _ => GBig
  | VUint w _ => GUint w
  | VInt w _ => GInt w
  | VBool _ => GBool
  | VString _ => GString
  | VAddress _ => GAddress
  | VHash _ => GHash
  | VSlice e _ => GSlice e
  | VArray e l => GArray (Z.of_nat (length l)) e
  | VStruct l => GStruct (map type_of l)
  end.

Definition byte_values (s : string) : list value := map (λ c, VUint 8 (byteZ c)) (String.list_ascii_of_string s).

(** a [[]byte] and a [[n]byte] *)
Definition bytes_value (s : string) : value := VSlice (GUint 8) (byte_values s).
Definition fixed_value (s : string) : value := VArray (GUint 8) (byte_values s).

(** the bytes of such a value *)
Definition bytes_of (l : list value) : string :=
  String.string_of_list_ascii (map (λ v, match v with VUint _ z => Zbyte z | _ => Zbyte 0 end) l).

(** [reflect]'s assignability: equal types, or an unnamed type and a named one
    with that underlying type *)
Definition assignable (v : value) (dst : gotype) : bool :=
  bool_decide (type_of v = dst) ||
  match type_of v, dst with
  | GAddress, GArray 20 (GUint 8) | GArray 20 (GUint 8), GAddress => true
  | _, _ => false
  end.

(** the type of a [size]-bit integer: sized for the machine widths, [*big.Int]
    otherwise *)
Definition int_gotype (unsigned : bool) (size : Z) : gotype :=
  if (size =? 8) || (size =? 16) || (size =? 32) || (size =? 64)
  then (if unsigned then GUint size else GInt size) else GBig.

(** What the code relies on of [gethabi.Type]. *)
Class AbiTypes := {
  type_String : Typ → string;
  GetType : Typ → gotype;
  GetType_int : ∀ n, GetType (IntTy n) = int_gotype false n;
  GetType_uint : ∀ n, GetType (UintTy n) = int_gotype true n;
  GetType_bool : GetType BoolTy = GBool;
  GetType_string : GetType StringTy = GString;
  GetType_address : GetType AddressTy = GAddress;
  GetType_bytes : GetType BytesTy = GSlice (GUint 8);
  GetType_fixed : ∀ n, GetType (FixedBytesTy n) = GArray n (GUint 8);
  GetType_slice : ∀ e, GetType (SliceTy e) = GSlice (GetType e);
  GetType_array : ∀ n e, GetType (ArrayTy n e) = GArray n (GetType e);
  GetType_tuple : ∀ ts ns, GetType (TupleTy ts ns) = GStruct (map GetType ts);
}.

(** [gethabi.Argument], [Method], [Event] and [ABI], as far as they are read *)
Record Argument := mkArgument { a_Name : string; a_Type : Typ; a_Indexed : bool }.

Record Method := mkMethod {
  m_Name : string; m_Sig : string; m_ID : string; m_Inputs : list Argument; m_Outputs : list Argument }.

Record Event := mkEvent { v_Name : string; v_Sig : string; v_ID : Hash; v_Inputs : list Argument }.

Record ABI := mkABI { Methods : gmap string Method; Events : gmap string Event }.

(** ** Outcomes *)

(** a returned error or a panic *)
Inductive fault := GoErr (e : error) | GoPanic.

Record AddrProvenance := mkProv { ap_Input : string; ap_Addr : Address; ap_Via : string; ap_ENSName : string }.

Definition no_prov : AddrProvenance := {| ap_Input := ""; ap_Addr := 0; ap_Via := ""; ap_ENSName := "" |}.

Definition errBadArg (index : Z) (solType detail : string) : error :=
  New "usage.bad_arg" ("arg " +:+ z_string index +:+ " (" +:+ solType +:+ "): " +:+ detail).

Definition errArgCount (method : string) (want got : nat) : error :=
  New "usage.bad_arg" ("method " +:+ go_quote method +:+ " expects " +:+ z_string (Z.of_nat want) +:+
    " arg(s), got " +:+ z_string (Z.of_nat got)).

Definition errUnknownMethod (name : string) : error :=
  New "usage.unknown_method" ("method or event " +:+ go_quote name +:+ " is not in the ABI").

(** ** Numbers *)

(** the decimal digits of hexadecimal bytes: [%#U] of one byte read as a rune *)
Definition upper_digit (d : Z) : Ascii.ascii := if d <? 10 then Zbyte (48 + d) else Zbyte (55 + d).

Definition print_U (c : Ascii.ascii) : string :=
  let b := byteZ c in
  let code := "U+00" +:+ String (upper_digit (b / 16)) (String (upper_digit (b mod 16)) "") in
  let quoted (t : string) := code +:+ " '" +:+ t +:+ "'" in
  if (32 <=? b) && (b <? 127) then quoted (String c "")
  else if (161 <=? b) && negb (b =? 173)
  then quoted (String (Zbyte (192 + b / 64)) (String (Zbyte (128 + b mod 64)) ""))
  else code.

(** the first byte of a text that is no hexadecimal digit *)
Fixpoint bad_hex (s : string) : option Ascii.ascii :=
  match s with
  | "" => None
  | String c r => match hexVal c with None => Some c | Some _ => bad_hex r end
  end.

Section Numbers.
Context {UT : UnicodeTables}.

(** parseBigInt *)
Definition parseBigInt (s : string) : option Z :=
  let s := TrimSpace s in
  if bool_decide (s = "") then None
  else
    let '(neg, s) := if HasPrefix s "-" then (true, sdrop 1 s) else (false, s) in
    let v := if HasPrefix s "0x" || HasPrefix s "0X" then SetString (sdrop 2 s) 16 else SetString s 10 in
    (λ v, if (neg : bool) then - v else v) <$> v.

(** parseHexBytes, with [hex.DecodeString] on a text of even length *)
Definition parseHexBytes (s : string) : res string string :=
  let s := TrimSpace s in
  if negb (HasPrefix s "0x") && negb (HasPrefix s "0X")
  then Err (go_quote s +:+ " must be a 0x hex string")
  else
    let body := sdrop 2 s in
    if negb (Nat.even (String.length body)) then Err "hex string has an odd length"
    else match decode_pairs body with
         | Some b => Ok b
         | None => Err ("invalid hex: encoding/hex: invalid byte: " +:+
                        match bad_hex body with Some c => print_U c | None => "" end)
         end.
End Numbers.

(** [big.Int.Uint64] and [big.Int.Int64]: the low 64 bits of the magnitude, read
    back with the sign *)
Definition Uint64 (v : Z) : Z := Z.abs v mod 2 ^ 64.

Definition wrap (w z : Z) : Z := (z + 2 ^ (w - 1)) mod 2 ^ w - 2 ^ (w - 1).

Definition Int64 (v : Z) : Z :=
  let low := wrap 64 (Uint64 v) in
  if v <? 0 then wrap 64 (- low) else low.

Definition t_Size (t : Typ) : Z :=
  match t with
  | IntTy n | UintTy n | ArrayTy n _ | FixedBytesTy n => n
  | _ => 0
  end.

Definition is_uint (t : Typ) : bool := match t with UintTy _ => true | _ => false end.

Section Coerce.
Context {UT : UnicodeTables} {GC : GethCommon} {AT : AbiTypes}.

(** checkIntRange *)
Definition checkIntRange (v : Z) (t : Typ) (index : Z) : option error :=
  let bits := t_Size t in
  if (bits <=? 0) || (256 <? bits) then Some (errBadArg index (type_String t) "unsupported integer size")
  else if is_uint t then
    if v <? 0 then Some (errBadArg index (type_String t) "negative value for an unsigned type")
    else if Z.shiftl 1 bits - 1 <? v
    then Some (errBadArg index (type_String t) "value exceeds the type's maximum")
    else None
  else if (Z.shiftl 1 (bits - 1) - 1 <? v) || (v <? - Z.shiftl 1 (bits - 1))
  then Some (errBadArg index (type_String t) "value out of range for the signed type")
  else None.

(** convertToReflectInt *)
Definition convertToReflectInt (v : Z) (t : Typ) : value :=
  match GetType t with
  | GBig => VBig v
  | GUint 8 => VUint 8 (Uint64 v mod 2 ^ 8)
  | GUint 16 => VUint 16 (Uint64 v mod 2 ^ 16)
  | GUint 32 => VUint 32 (Uint64 v mod 2 ^ 32)
  | GUint 64 => VUint 64 (Uint64 v)
  | GInt 8 => VInt 8 (wrap 8 (Int64 v))
  | GInt 16 => VInt 16 (wrap 16 (Int64 v))
  | GInt 32 => VInt 32 (wrap 32 (Int64 v))
  | GInt 64 => VInt 64 (Int64 v)
  | _ => VBig v
  end.

Definition coerceInt (t : Typ) (s : string) (index : Z) : res error value :=
  match parseBigInt s with
  | None => Err (errBadArg index (type_String t) (go_quote s +:+ " is not a decimal or 0x-hex integer"))
  | Some v => match checkIntRange v t index with Some e => Err e | None => Ok (convertToReflectInt v t) end
  end.

Definition coerceBool (s : string) (t : Typ) (index : Z) : res error value :=
  let x := TrimSpace s in
  if bool_decide (x = "true") then Ok (VBool true)
  else if bool_decide (x = "false") then Ok (VBool false)
  else Err (errBadArg index (type_String t) (go_quote s +:+ " is not true/false")).

(** the error of [parseHexBytes] and of [splitLiteral], as the argument's error *)
Definition as_bad_arg {A} (index : Z) (t : Typ) (r : res string A) : res error A :=
  match r with Ok a => Ok a | Err m => Err (errBadArg index (type_String t) m) end.

Definition coerceDynBytes (s : string) (t : Typ) (index : Z) : res error value :=
  rbind (as_bad_arg index t (parseHexBytes s)) (λ b, Ok (bytes_value b)).

(** [reflect.Copy] into a zero array of the type's length, after the length test *)
Definition coerceFixedBytes (t : Typ) (s : string) (index : Z) : res error value :=
  rbind (as_bad_arg index t (parseHexBytes s)) (λ b,
    let len := Z.of_nat (String.length b) in
    if negb (len =? t_Size t)
    then Err (errBadArg index (type_String t)
      ("expected " +:+ z_string (t_Size t) +:+ " bytes, got " +:+ z_string len))
    else Ok (fixed_value b)).
End Coerce.

(** ** Compound literals *)

(** the [for] loop of [splitLiteral]: elements done, current element, nesting
    depth, inside quotes, after a backslash *)
Record split_state := mkSplit {
  sp_elems : list string; sp_buf : string; sp_depth : Z; sp_inStr : bool; sp_esc : bool }.

Section Split.
Context {UT : UnicodeTables}.

Definition write_byte (c : Ascii.ascii) (st : split_state) : split_state := {|
  sp_elems := sp_elems st; sp_buf := sp_buf st +:+ String c ""; sp_depth := sp_depth st;
  sp_inStr := sp_inStr st; sp_esc := sp_esc st |}.

Definition set_quote (inStr esc : bool) (st : split_state) : split_state := {|
  sp_elems := sp_elems st; sp_buf := sp_buf st; sp_depth := sp_depth st; sp_inStr := inStr; sp_esc := esc |}.

Definition add_depth (d : Z) (st : split_state) : split_state := {|
  sp_elems := sp_elems st; sp_buf := sp_buf st; sp_depth := sp_depth st + d;
  sp_inStr := sp_inStr st; sp_esc := sp_esc st |}.

Definition end_elem (st : split_state) : split_state := {|
  sp_elems := sp_elems st ++ [TrimSpace (sp_buf st)]; sp_buf := ""; sp_depth := sp_depth st;
  sp_inStr := sp_inStr st; sp_esc := sp_esc st |}.

(** one byte; [None] is the unbalanced closing bracket *)
Definition split_byte_step (ch : Ascii.ascii) (st : split_state) : option split_state :=
  let b := byteZ ch in
  if sp_inStr st then
    if sp_esc st then Some (set_quote true false (write_byte ch st))
    else if b =? 92 then Some (set_quote true true (write_byte ch st))
    else if b =? 34 then Some (set_quote false false (write_byte ch st))
    else Some (write_byte ch st)
  else if b =? 34 then Some (set_quote true (sp_esc st) (write_byte ch st))
  else if (b =? 91) || (b =? 40) then Some (write_byte ch (add_depth 1 st))
  else if (b =? 93) || (b =? 41)
  then if sp_depth st - 1 <? 0 then None else Some (write_byte ch (add_depth (-1) st))
  else if b =? 44 then if sp_depth st =? 0 then Some (end_elem st) else Some (write_byte ch st)
  else Some (write_byte ch st).

Fixpoint split_loop (inner : string) (st : split_state) : option split_state :=
  match inner with
  | "" => Some st
  | String ch r => match split_byte_step ch st with Some st => split_loop r st | None => None end
  end.

(** the unescaping loop of [unquote] *)
Fixpoint unescape_quoted (body : string) : string :=
  match body with
  | "" => ""
  | String c r =>
      match r with
      | String n r' =>
          if (byteZ c =? 92) && ((byteZ n =? 34) || (byteZ n =? 92))
          then String n (unescape_quoted r')
          else String c (unescape_quoted r)
      | "" => String c ""
      end
  end.

(** the first and the last byte *)
Definition first_is (b : Z) (s : string) : bool := match s with String c _ => byteZ c =? b | "" => false end.
Definition last_is (b : Z) (s : string) : bool := first_is b (srev s).
Definition middle (s : string) : string := stake (String.length s - 2) (sdrop 1 s).

Definition unquote (s : string) : option string :=
  if (String.length s <? 2)%nat || negb (first_is 34 s) || negb (last_is 34 s) then None
  else Some (unescape_quoted (middle s)).

Definition splitLiteral (s : string) (open close : Z) : res string (list string) :=
  let s := TrimSpace s in
  if (String.length s <? 2)%nat || negb (first_is open s) || negb (last_is close s)
  then Err ("expected " +:+ String (Zbyte open) "" +:+ "…" +:+ String (Zbyte close) "" +:+ ", got " +:+ go_quote s)
  else
    let inner := middle s in
    if bool_decide (TrimSpace inner = "") then Ok []
    else
      match split_loop inner (mkSplit [] "" 0 false false) with
      | None => Err ("unbalanced " +:+ go_quote s)
      | Some st =>
          if sp_inStr st then Err ("unterminated quoted element in " +:+ go_quote s)
          else if negb (sp_depth st =? 0) then Err ("unbalanced brackets in " +:+ go_quote s)
          else Ok (map (λ e, default e (unquote e)) (sp_elems (end_elem st)))
      end.
End Split.

(** ** The descent over the type *)

(** [coercer]: the provenance of the last address, and the world the resolver
    reads *)
Record coercer {W : Type} := mkCoercer { lastTopLevelAddr : AddrProvenance; co_world : W }.
Arguments coercer : clear implicits.
Arguments mkCoercer {W} _ _.

(** [AddrResolver]; the error is its text *)
Definition AddrResolver (W : Type) : Type := string → W → res string (Address * AddrProvenance) * W.

(** a method of [coercer]: it may return, fail or panic *)
Definition CM (W A : Type) : Type := coercer W → res fault A * coercer W.

Definition cret {W A} (a : A) : CM W A := λ c, (Ok a, c).
Definition cfault {W A} (f : fault) : CM W A := λ c, (Err f, c).
Definition cbind {W A B} (m : CM W A) (k : A → CM W B) : CM W B := λ c,
  match m c with (Ok a, c) => k a c | (Err f, c) => (Err f, c) end.
Definition clift {W A} (r : res error A) : CM W A := λ c,
  (match r with Ok a => Ok a | Err e => Err (GoErr e) end, c).

Notation "x <-! m ;; k" := (cbind m (fun x => k)) (at level 100, m at next level, right associativity) : go_scope.

Section Descent.
Context {UT : UnicodeTables} {GC : GethCommon} {AT : AbiTypes} {W : Type}.
Variable resolve : option (AddrResolver W).

Local Open Scope go_scope.

Definition coerceAddr (s : string) (t : Typ) (index : Z) : CM W value := λ c,
  match resolve with
  | Some f =>
      match f s (co_world c) with
      | (Err m, w) => (Err (GoErr (errBadArg index (type_String t) m)), mkCoercer (lastTopLevelAddr c) w)
      | (Ok (addr, prov), w) =>
          let prov := {| ap_Input := if bool_decide (ap_Input prov = "") then s else ap_Input prov;
                         ap_Addr := if ap_Addr prov =? 0 then addr else ap_Addr prov;
                         ap_Via := ap_Via prov; ap_ENSName := ap_ENSName prov |} in
          (Ok (VAddress addr), mkCoercer prov w)
      end
  | None =>
      let s := TrimSpace s in
      if negb (IsHexAddress s)
      then (Err (GoErr (errBadArg index (type_String t) (go_quote s +:+ " is not a 0x address"))), c)
      else
        let addr := HexToAddress s in
        (Ok (VAddress addr),
         mkCoercer {| ap_Input := s; ap_Addr := addr; ap_Via := "literal"; ap_ENSName := "" |} (co_world c))
  end.

(** [rv.Index(i).Set(reflect.ValueOf(ev))] *)
Definition set_value (et : gotype) (v : value) : CM W value :=
  if assignable v et then cret v else cfault GoPanic.

(** the loop of [coerceArray] *)
Fixpoint set_all (et : gotype) (f : string → CM W value) (elems : list string) : CM W (list value) :=
  match elems with
  | [] => cret []
  | el :: r => ev <-! f el ;; v <-! set_value et ev ;; vs <-! set_all et f r ;; cret (v :: vs)
  end.

(** coerceArray after the split: a slice of the elements' number, or the zero
    array of the type, every slot of which is then set *)
Definition coerceArray (t : Typ) (f : string → CM W value) (s : string) (index : Z) : CM W value :=
  elems <-! clift (as_bad_arg index t (splitLiteral s 91 93)) ;;
  let n := Z.of_nat (length elems) in
  match t with
  | ArrayTy size _ =>
      if negb (n =? size)
      then cfault (GoErr (errBadArg index (type_String t)
             ("fixed array expects " +:+ z_string size +:+ " element(s), got " +:+ z_string n)))
      else match GetType t with
           | GArray m et => if m =? n then vs <-! set_all et f elems ;; cret (VArray et vs) else cfault GoPanic
           | _ => cfault GoPanic
           end
  | _ =>
      match GetType t with
      | GSlice et => vs <-! set_all et f elems ;; cret (VSlice et vs)
      | _ => cfault GoPanic
      end
  end.

(** coerceTuple around its loop *)
Definition coerceTuple (t : Typ) (comps : nat) (fill : list gotype → list string → CM W (list value))
    (s : string) (index : Z) : CM W value :=
  elems <-! clift (as_bad_arg index t (splitLiteral s 40 41)) ;;
  if negb (length elems =? comps)%nat
  then cfault (GoErr (errBadArg index (type_String t)
         ("tuple expects " +:+ z_string (Z.of_nat comps) +:+ " component(s), got " +:+ z_string (Z.of_nat (length elems)))))
  else match GetType t with
       | GStruct fields => vs <-! fill fields elems ;; cret (VStruct vs)
       | _ => cfault GoPanic
       end.

(** coerce *)
Fixpoint coerce (t : Typ) (s : string) (index : Z) {struct t} : CM W value :=
  match t with
  | IntTy _ | UintTy _ => clift (coerceInt t s index)
  | BoolTy => clift (coerceBool s t index)
  | AddressTy => coerceAddr s t index
  | StringTy => cret (VString s)
  | BytesTy => clift (coerceDynBytes s t index)
  | FixedBytesTy _ => clift (coerceFixedBytes t s index)
  | SliceTy e | ArrayTy _ e => coerceArray t (λ el, coerce e el index) s index
  | TupleTy ts _ =>
      coerceTuple t (length ts)
        ((fix fill (ts : list Typ) (fields : list gotype) (elems : list string) {struct ts} : CM W (list value) :=
            match ts, fields, elems with
            | [], _, _ => cret []
            | comp :: ts, ft :: fields, el :: elems =>
                cv <-! coerce comp el index ;; v <-! set_value ft cv ;;
                vs <-! fill ts fields elems ;; cret (v :: vs)
            | _, _, _ => cfault GoPanic
            end) ts) s index
  | HashTy | FixedPointTy | FunctionTy => cfault (GoErr (errBadArg index (type_String t) "unsupported solidity type"))
  end.

(** the loop over the components of a tuple, by itself *)
Definition fill_tuple (index : Z) : list Typ → list gotype → list string → CM W (list value) :=
  fix fill (ts : list Typ) (fields : list gotype) (elems : list string) {struct ts} : CM W (list value) :=
    match ts, fields, elems with
    | [], _, _ => cret []
    | comp :: ts, ft :: fields, el :: elems =>
        cv <-! coerce comp el index ;; v <-! set_value ft cv ;;
        vs <-! fill ts fields elems ;; cret (v :: vs)
    | _, _, _ => cfault GoPanic
    end.

Lemma coerce_tuple ts ns s index :
  coerce (TupleTy ts ns) s index = coerceTuple (TupleTy ts ns) (length ts) (fill_tuple index ts) s index.
Proof. reflexivity. Qed.

(** the loop of CoerceArgs *)
Fixpoint coerce_inputs (i : Z) (inputs : list Argument) (args : list string)
    : CM W (list (value * AddrProvenance)) := λ c,
  match inputs, args with
  | a :: inputs, s :: args =>
      match coerce (a_Type a) s i c with
      | (Err f, c) => (Err f, c)
      | (Ok v, c) =>
          let prov := match a_Type a with AddressTy => lastTopLevelAddr c | _ => no_prov end in
          match coerce_inputs (i + 1) inputs args c with
          | (Ok r, c) => (Ok ((v, prov) :: r), c)
          | (Err f, c) => (Err f, c)
          end
      end
  | _, _ => (Ok [], c)
  end.

Definition CoerceArgs (parsed : ABI) (method : string) (args : list string) (w : W)
    : res fault (list value * list AddrProvenance) * W :=
  match Methods parsed !! method with
  | None => (Err (GoErr (errUnknownMethod method)), w)
  | Some m =>
      if negb (length args =? length (m_Inputs m))%nat
      then (Err (GoErr (errArgCount method (length (m_Inputs m)) (length args))), w)
      else
        match coerce_inputs 0 (m_Inputs m) args (mkCoercer no_prov w) with
        | (Ok l, c) => (Ok (map fst l, map snd l), co_world c)
        | (Err f, c) => (Err f, co_world c)
        end
  end.
End Descent.

(** ParseLiteral: the same descent, with no resolver *)
Definition ParseLiteral `{UnicodeTables} `{GethCommon} `{AbiTypes} (t : Typ) (literal : string) : res fault value :=
  (coerce None t literal 0 (mkCoercer no_prov tt)).1.
