(* ===== verification/CoerceProps.v ===== *)
(** * Facts about argument coercion ([internal/abi/coerce.go])

    Every value the reader returns has the Go type its ABI type asks for, so no
    [reflect] call panics and no integer is cut; every value of an ABI type has
    a literal the reader turns into it. *)

From S2P Require Import Prelude GoStrings Decimal HexBytes Ethunit PolicyTypes Domain Refs Coerce.

Local Open Scope string_scope.
Local Open Scope Z_scope.
Local Open Scope list_scope.

(** ** Induction over types *)

Section TypInd.
Variable P : Typ → Prop.
Hypothesis Hint : ∀ n, P (IntTy n).
Hypothesis Huint : ∀ n, P (UintTy n).
Hypothesis Hflat : ∀ t, match t with
  | BoolTy | StringTy | AddressTy | FixedBytesTy _ | BytesTy | HashTy | FixedPointTy | FunctionTy => P t | _ => True end.
Hypothesis Hslice : ∀ e, P e → P (SliceTy e).
Hypothesis Harray : ∀ n e, P e → P (ArrayTy n e).
Hypothesis Htuple : ∀ ts ns, Forall P ts → P (TupleTy ts ns).

Lemma Typ_tree_ind : ∀ t, P t.
Proof.
  fix IH 1. intros t. pose proof (Hflat t) as Hf. destruct t as [n|n| | |e|n e|ts ns| |n| | | |];
    try exact Hf; [apply Hint|apply Huint|apply Hslice, IH|apply Harray, IH|].
  apply Htuple. clear Hf ns. induction ts as [|x l IHl]; [by constructor|]. constructor; [apply IH|exact IHl].
Qed.
End TypInd.

(** ** Well-typed values *)

(** the values of the declared width *)
Definition in_range (t : Typ) (z : Z) : Prop :=
  0 < t_Size t ≤ 256 ∧
  if is_uint t then 0 ≤ z < 2 ^ t_Size t else - 2 ^ (t_Size t - 1) ≤ z < 2 ^ (t_Size t - 1).

(** an integer in the Go type of its ABI type *)
Definition int_repr (g : gotype) (z : Z) : value :=
  match g with GUint w => VUint w z | GInt w => VInt w z | _ => VBig z end.

Section WellTyped.
Context {AT : AbiTypes}.
(** what is known of the addresses *)
Variable P : Address → Prop.

Fixpoint well_typed (t : Typ) (v : value) {struct t} : Prop :=
  match t with
  | IntTy n => ∃ z, in_range (IntTy n) z ∧ v = int_repr (int_gotype false n) z
  | UintTy n => ∃ z, in_range (UintTy n) z ∧ v = int_repr (int_gotype true n) z
  | BoolTy => ∃ b, v = VBool b
  | StringTy => ∃ s, v = VString s
  | AddressTy => ∃ a, P a ∧ v = VAddress a
  | BytesTy => ∃ b, v = bytes_value b
  | FixedBytesTy n => ∃ b, Z.of_nat (String.length b) = n ∧ v = fixed_value b
  | SliceTy e => ∃ l, v = VSlice (GetType e) l ∧ Forall (well_typed e) l
  | ArrayTy n e => ∃ l, v = VArray (GetType e) l ∧ Z.of_nat (length l) = n ∧ Forall (well_typed e) l
  | TupleTy ts _ => ∃ l, v = VStruct l ∧
      (fix go (ts : list Typ) (l : list value) : Prop :=
         match ts, l with [], [] => True | t :: ts, v :: l => well_typed t v ∧ go ts l | _, _ => False end) ts l
  | HashTy | FixedPointTy | FunctionTy => False
  end.

Lemma well_typed_tuple ts ns v :
  well_typed (TupleTy ts ns) v ↔ ∃ l, v = VStruct l ∧ Forall2 well_typed ts l.
Proof.
  cbn [well_typed]. split; intros (l & -> & H); exists l; (split; [done|]).
  - revert l H. induction ts as [|t ts IH]; intros [|x l] H; try done.
    destruct H as [H1 H2]. constructor; [done|by apply IH].
  - induction H as [|t x ts l H1 H2 IH]; [done|]. by split.
Qed.

Lemma byte_values_length s : length (byte_values s) = String.length s.
Proof. unfold byte_values. rewrite length_map. induction s; simpl; congruence. Qed.

(** a well-typed value has the dynamic type [GetType] announces *)
Lemma well_typed_type t v : well_typed t v → type_of v = GetType t.
Proof.
  revert v. apply (Typ_tree_ind (λ t, ∀ v, well_typed t v → type_of v = GetType t)); clear t.
  - intros n v (z & _ & ->). rewrite GetType_int. unfold int_gotype. by destruct (_ || _).
  - intros n v (z & _ & ->). rewrite GetType_uint. unfold int_gotype. by destruct (_ || _).
  - intros []; try done; intros v; cbn [well_typed].
    + intros [b ->]. by rewrite GetType_bool.
    + intros [b ->]. by rewrite GetType_string.
    + intros (b & _ & ->). by rewrite GetType_address.
    + intros (b & <- & ->). rewrite GetType_fixed. cbn [type_of fixed_value]. by rewrite byte_values_length.
    + intros [b ->]. by rewrite GetType_bytes.
  - intros e _ v (l & -> & _). by rewrite GetType_slice.
  - intros n e _ v (l & -> & <- & _). by rewrite GetType_array.
  - intros ts ns H v (l & -> & Hl)%well_typed_tuple. rewrite GetType_tuple. cbn [type_of]. f_equal.
    revert H. induction Hl as [|t x ts l H1 H2 IH]; intros Hf; [done|]. inversion Hf; subst. cbn [map]. f_equal; auto.
Qed.

Lemma well_typed_assignable t v : well_typed t v → assignable v (GetType t) = true.
Proof. intros H. unfold assignable. by rewrite (well_typed_type t v H), bool_decide_eq_true_2. Qed.
End WellTyped.

(** ** The integer types *)

Lemma wrap_small w z : 0 < w → - 2 ^ (w - 1) ≤ z < 2 ^ (w - 1) → wrap w z = z.
Proof.
  intros Hw Hz. unfold wrap. assert (2 ^ w = 2 * 2 ^ (w - 1)) by (rewrite <-Z.pow_succ_r by lia; f_equal; lia).
  rewrite Z.mod_small; lia.
Qed.

Lemma Int64_exact v : - 2 ^ 63 ≤ v < 2 ^ 63 → Int64 v = v.
Proof.
  intros H. unfold Int64, Uint64, wrap. destruct (v <? 0) eqn:E; bool_prop; zlia.
Qed.

Section Facts.
Context {UT : UnicodeTables} {GC : GethCommon} {AT : AbiTypes}.

Lemma checkIntRange_ok v t i : checkIntRange v t i = None → in_range t v.
Proof.
  unfold checkIntRange, in_range. destruct ((_ <=? 0) || _) eqn:E1; [done|]. apply orb_false_iff in E1 as [E1 E2].
  rewrite !Z.shiftl_1_l. destruct (is_uint t).
  - destruct (v <? 0) eqn:E3; [done|]. destruct (_ - 1 <? v) eqn:E4; [done|]. intros _. lia.
  - destruct ((_ <? v) || _) eqn:E3; [done|]. apply orb_false_iff in E3 as [E3 E4]. intros _. lia.
Qed.

Lemma checkIntRange_complete v t i : in_range t v → checkIntRange v t i = None.
Proof.
  unfold checkIntRange, in_range. intros [Hs H]. rewrite !Z.shiftl_1_l.
  replace ((t_Size t <=? 0) || (256 <? t_Size t)) with false by (symmetry; apply orb_false_iff; lia).
  destruct (is_uint t).
  - replace (v <? 0) with false by lia. by replace (2 ^ t_Size t - 1 <? v) with false by lia.
  - by replace ((2 ^ (t_Size t - 1) - 1 <? v) || (v <? - 2 ^ (t_Size t - 1))) with false
      by (symmetry; apply orb_false_iff; lia).
Qed.

Lemma int_gotype_cases u n :
  int_gotype u n = GBig ∨ (n = 8 ∨ n = 16 ∨ n = 32 ∨ n = 64) ∧ int_gotype u n = if u then GUint n else GInt n.
Proof.
  unfold int_gotype. destruct (_ || _) eqn:E; [right|by left]. split; [|done]. rewrite !orb_true_iff, !Z.eqb_eq in E. tauto.
Qed.

(** the sized conversions cut nothing off a number that passed the range check *)
Lemma convert_exact t v :
  match t with IntTy _ | UintTy _ => in_range t v | _ => False end →
  convertToReflectInt v t = int_repr (GetType t) v.
Proof.
  destruct t as [n|n| | | | | | | | | | |]; try done; intros [Hn H]; cbn [t_Size is_uint] in *; unfold convertToReflectInt.
  - rewrite GetType_int. destruct (int_gotype_cases false n) as [-> | [Hc ->]]; [done|].
    destruct Hc as [-> | [-> | [-> | ->]]]; cbn [int_repr]; rewrite Int64_exact by lia; try done;
      rewrite wrap_small by lia; done.
  - rewrite GetType_uint. destruct (int_gotype_cases true n) as [-> | [Hc ->]]; [done|].
    destruct Hc as [-> | [-> | [-> | ->]]]; cbn [int_repr]; unfold Uint64; rewrite Z.abs_eq by lia;
      rewrite ?(Z.mod_small v (2 ^ 64)) by lia; try done; rewrite Z.mod_small by lia; done.
Qed.

Lemma coerceInt_sound P t s i v :
  match t with IntTy _ | UintTy _ => True | _ => False end →
  coerceInt t s i = Ok v → well_typed P t v.
Proof.
  intros Ht. unfold coerceInt. destruct (parseBigInt s) as [z|]; [|done].
  destruct (checkIntRange z t i) eqn:E; [done|]. apply checkIntRange_ok in E. intros [= <-].
  destruct t; try done; (rewrite convert_exact by done); rewrite ?GetType_int, ?GetType_uint; by exists z.
Qed.
End Facts.

(** ** The descent *)

(** a usage error: the caller's argument is malformed *)
Definition bad_arg (e : error) : Prop := e_Code e = "usage.bad_arg" ∧ e_Exit e = ExitUsage.

(** a run that gives a value satisfying [P] or a usage error, and never panics *)
Definition outcome {A} (P : A → Prop) (r : res fault A) : Prop :=
  match r with Ok a => P a | Err (GoErr e) => bad_arg e | Err GoPanic => False end.

Lemma errBadArg_bad i t m : bad_arg (errBadArg i t m).
Proof. by split. Qed.

Section Outcomes.
Context {W A B : Type}.

Lemma outcome_bind (P : A → Prop) (Q : B → Prop) (m : CM W A) (k : A → CM W B) c :
  outcome P (m c).1 → (∀ a c', P a → outcome Q (k a c').1) → outcome Q (cbind m k c).1.
Proof. unfold cbind. destruct (m c) as [[a|f] c']; cbn [fst outcome]; [intros Ha Hk; by apply Hk|done]. Qed.

Lemma cbind_ret (a : A) (k : A → CM W B) c : cbind (cret a) k c = k a c.
Proof. done. Qed.

Lemma outcome_lift (P : A → Prop) (r : res error A) (c : coercer W) :
  match r with Ok a => P a | Err e => bad_arg e end → outcome P (clift r c).1.
Proof. unfold clift. by destruct r. Qed.

Lemma outcome_mono (P Q : A → Prop) r : (∀ a, P a → Q a) → outcome P r → outcome Q r.
Proof. intros H. destruct r as [a|[e|]]; cbn; auto. Qed.
End Outcomes.

(** The addresses read satisfy [P], and a resolver gives a provenance of that
    very address (or a blank one, which the coercer fills in). *)
Definition resolver_ok `{GethCommon} {W} (P : Address → Prop) (resolve : option (AddrResolver W)) : Prop :=
  match resolve with
  | None => ∀ s, P (HexToAddress s)
  | Some f => ∀ s w a p w', f s w = (Ok (a, p), w') → P a ∧ (ap_Addr p = a ∨ ap_Addr p = 0)
  end.

Lemma literal_resolver_ok `{GethCommon} {W} : resolver_ok (W := W) valid_addr None.
Proof. intros s. apply HexToAddress_range. Qed.

Section Descent.
Context {UT : UnicodeTables} {GC : GethCommon} {AT : AbiTypes} {W : Type}.
Variables (P : Address → Prop) (resolve : option (AddrResolver W)).
Hypothesis Hres : resolver_ok P resolve.

Lemma as_bad_arg_outcome {A} i t (r : res string A) :
  match as_bad_arg i t r with Ok _ => True | Err e => bad_arg e end.
Proof. by destruct r. Qed.

Lemma coerceInt_outcome t s i :
  match t with IntTy _ | UintTy _ => True | _ => False end →
  match coerceInt t s i with Ok v => well_typed P t v | Err e => bad_arg e end.
Proof.
  intros Ht. destruct (coerceInt t s i) as [v|e] eqn:E; [by eapply coerceInt_sound|].
  revert E. unfold coerceInt. destruct (parseBigInt s) as [z|]; [|by intros [= <-]].
  unfold checkIntRange. repeat case_scrut; intros [= <-]; apply errBadArg_bad.
Qed.

Lemma set_all_outcome e f elems c :
  (∀ s c, outcome (well_typed P e) (f s c).1) →
  outcome (λ vs, Forall (well_typed P e) vs ∧ length vs = length elems) (set_all (W := W) (GetType e) f elems c).1.
Proof.
  intros Hf. revert c. induction elems as [|el r IH]; intros c; [by split|]. cbn [set_all].
  eapply outcome_bind; [apply Hf|]. intros v c1 Hv. unfold set_value. rewrite (well_typed_assignable P e v Hv), cbind_ret.
  eapply outcome_bind; [apply IH|]. intros vs c2 [Hvs Hl]. split; [by constructor|]. cbn. by rewrite Hl.
Qed.

Lemma coerceArray_outcome t f s i c :
  match t with SliceTy e | ArrayTy _ e => ∀ s c, outcome (well_typed P e) (f s c).1 | _ => False end →
  outcome (well_typed P t) (coerceArray (W := W) t f s i c).1.
Proof.
  intros Hf. unfold coerceArray. eapply outcome_bind with (P := λ _, True).
  { apply outcome_lift. pose proof (as_bad_arg_outcome i t (splitLiteral s 91 93)) as H. by destruct (as_bad_arg _ _ _). }
  intros elems c1 _. destruct t as [ | | | |e|n e| | | | | | | ]; try done.
  - rewrite GetType_slice. eapply outcome_bind; [by apply set_all_outcome|]. intros vs c2 [Hvs _]. by exists vs.
  - destruct (Z.of_nat (length elems) =? n) eqn:En; cbn [negb]; [|apply errBadArg_bad]. apply Z.eqb_eq in En.
    rewrite GetType_array. rewrite <-En, Z.eqb_refl.
    eapply outcome_bind; [by apply set_all_outcome|]. intros vs c2 [Hvs Hl]. exists vs. by rewrite Hl.
Qed.

Lemma fill_tuple_outcome i ts elems c :
  Forall (λ t, ∀ s i c, outcome (well_typed P t) (coerce resolve t s i c).1) ts → length elems = length ts →
  outcome (Forall2 (well_typed P) ts) (fill_tuple resolve i ts (map GetType ts) elems c).1.
Proof.
  intros Hts. revert elems c. induction Hts as [|t ts Ht Hts IH]; intros [|el elems] c Hl; try done; [by constructor|].
  cbn [map fill_tuple]. eapply outcome_bind; [apply Ht|]. intros v c1 Hv. unfold set_value.
  rewrite (well_typed_assignable P t v Hv), cbind_ret. eapply outcome_bind; [apply IH; by injection Hl|]. intros vs c2 Hvs. by constructor.
Qed.

Lemma coerceAddr_outcome s i c : outcome (well_typed P AddressTy) (coerceAddr resolve s AddressTy i c).1.
Proof.
  unfold coerceAddr. unfold resolver_ok in Hres. destruct resolve as [f|].
  - destruct (f s (co_world c)) as [[[a p]|m] w] eqn:E; [|apply errBadArg_bad]. apply Hres in E as [Ha _]. by exists a.
  - cbv zeta. destruct (IsHexAddress (TrimSpace s)); cbn [negb]; [|apply errBadArg_bad].
    eexists. by split; [apply Hres|].
Qed.

(** the provenance an address leaves behind is that of the value *)
Lemma coerceAddr_echo s i c v c' :
  coerceAddr resolve s AddressTy i c = (Ok v, c') → v = VAddress (ap_Addr (lastTopLevelAddr c')).
Proof.
  unfold coerceAddr. unfold resolver_ok in Hres. destruct resolve as [f|].
  - destruct (f s (co_world c)) as [[[a p]|m] w] eqn:E; [|done]. apply Hres in E as [_ Hp]. intros [= <- <-].
    cbn [lastTopLevelAddr ap_Addr]. destruct (Z.eqb_spec (ap_Addr p) 0); [done|]. f_equal. by destruct Hp.
  - cbv zeta. destruct (IsHexAddress (TrimSpace s)); [|done]. by intros [= <- <-].
Qed.

(** the descent over any type gives a value of that type or a usage error *)
Lemma coerce_outcome t : ∀ s i c, outcome (well_typed P t) (coerce resolve t s i c).1.
Proof.
  apply (Typ_tree_ind (λ t, ∀ s i c, outcome (well_typed P t) (coerce resolve t s i c).1)); clear t.
  - intros n s i c. apply outcome_lift. by apply coerceInt_outcome.
  - intros n s i c. apply outcome_lift. by apply coerceInt_outcome.
  - intros []; try done; intros s i c.
    + apply outcome_lift. unfold coerceBool. cbv zeta. repeat case_scrut; by eexists.
    + by exists s.
    + apply coerceAddr_outcome.
    + apply outcome_lift. unfold coerceFixedBytes. destruct (parseHexBytes s) as [b|m]; [|apply errBadArg_bad].
      cbn [as_bad_arg rbind t_Size]. cbv zeta. destruct (_ =? _) eqn:E; cbn [negb]; [|apply errBadArg_bad].
      apply Z.eqb_eq in E. by exists b.
    + apply outcome_lift. unfold coerceDynBytes. destruct (parseHexBytes s) as [b|m]; [by exists b|apply errBadArg_bad].
  - intros e IH s i c. apply coerceArray_outcome. intros; apply IH.
  - intros n e IH s i c. apply coerceArray_outcome. intros; apply IH.
  - intros ts ns IH s i c. rewrite coerce_tuple. unfold coerceTuple. eapply outcome_bind with (P := λ _, True).
    { apply outcome_lift. pose proof (as_bad_arg_outcome i (TupleTy ts ns) (splitLiteral s 40 41)) as H. by destruct (as_bad_arg _ _ _). }
    intros elems c1 _. destruct (Nat.eqb_spec (length elems) (length ts)) as [El|]; cbn [negb]; [|apply errBadArg_bad].
    rewrite GetType_tuple. eapply outcome_bind; [by apply fill_tuple_outcome|].
    intros vs c2 Hvs. apply well_typed_tuple. by exists vs.
Qed.
End Descent.

(** ** Literals: quoting and splitting *)

(** the quoted form of an element: a backslash before each quote and backslash *)
Fixpoint escape_quotes (s : string) : string :=
  match s with
  | "" => ""
  | String c r =>
      if (byteZ c =? 34) || (byteZ c =? 92) then String (Zbyte 92) (String c (escape_quotes r))
      else String c (escape_quotes r)
  end.

Definition quote_elem (s : string) : string := dquote +:+ escape_quotes s +:+ dquote.

Definition comma_sep : string := String (Zbyte 44) "".

Definition bracketed (open close : Z) (elems : list string) : string :=
  String (Zbyte open) (String.concat comma_sep (map quote_elem elems) +:+ String (Zbyte close) "").

Lemma middle_wrap a b s : middle (String a (s +:+ String b "")) = s.
Proof.
  unfold middle. cbn [sdrop String.length]. rewrite string_length_app. cbn [String.length].
  replace (S (String.length s + 1) - 2)%nat with (String.length s) by lia. by destruct s; rewrite ?stake_app.
Qed.

Lemma last_is_wrap a b s n : 0 ≤ b < 256 → last_is n (String a (s +:+ String (Zbyte b) "")) = (b =? n).
Proof.
  intros Hb. unfold last_is. rewrite <-string_app_cons, srev_app. change (srev (String (Zbyte b) "")) with (String (Zbyte b) "").
  rewrite string_app_cons. cbn [first_is]. by rewrite byteZ_Zbyte.
Qed.

Lemma wrap_long a b s : (String.length (String a (s +:+ String b "")) <? 2)%nat = false.
Proof. apply Nat.ltb_ge. cbn [String.length]. rewrite string_length_app. cbn. lia. Qed.

Lemma unescape_escape s : unescape_quoted (escape_quotes s) = s.
Proof.
  induction s as [|c r IH]; [done|]. cbn [escape_quotes].
  destruct ((byteZ c =? 34) || (byteZ c =? 92)) eqn:E.
  - cbn [unescape_quoted]. change (byteZ (Zbyte 92) =? 92) with true. cbn [andb]. rewrite E. by rewrite IH.
  - cbn [unescape_quoted]. destruct (escape_quotes r) as [|n r'] eqn:Er.
    + assert (r = "") as ->; [|done]. destruct r as [|d r]; [done|]. cbn [escape_quotes] in Er. by destruct (_ || _).
    + apply orb_false_iff in E as [_ ->]. cbn [andb]. by rewrite IH.
Qed.

Lemma unquote_quote s : unquote (quote_elem s) = Some s.
Proof.
  unfold unquote, quote_elem. change (dquote +:+ ?x) with (String (Zbyte 34) x). change dquote with (String (Zbyte 34) "").
  rewrite wrap_long, last_is_wrap, middle_wrap, unescape_escape by lia. done.
Qed.

Section Splitting.
Context {UT : UnicodeTables}.

Lemma TrimSpace_quoted s : TrimSpace (quote_elem s) = quote_elem s.
Proof. by apply TrimSpace_wrap. Qed.

(** the bytes of an escaped element stay inside the quotes *)
Lemma split_loop_escaped s r es buf d :
  split_loop (escape_quotes s +:+ r) (mkSplit es buf d true false) =
  split_loop r (mkSplit es (buf +:+ escape_quotes s) d true false).
Proof.
  revert buf. induction s as [|c s IH]; intros buf; [by rewrite string_app_nil_l, string_app_nil_r|].
  cbn [escape_quotes]. destruct ((byteZ c =? 34) || (byteZ c =? 92)) eqn:E.
  - rewrite !string_app_cons. cbn [split_loop].
    change (split_byte_step (Zbyte 92) ?st) with (Some (set_quote true true (write_byte (Zbyte 92) st))). cbn match.
    change (split_byte_step c ?st) with (Some (set_quote true false (write_byte c st))). cbn match.
    unfold set_quote, write_byte. cbn [sp_elems sp_buf sp_depth sp_inStr sp_esc]. rewrite IH, !string_app_assoc. done.
  - apply orb_false_iff in E as [E1 E2]. rewrite !string_app_cons. cbn [split_loop]. unfold split_byte_step.
    cbn [sp_inStr sp_esc]. rewrite E1, E2. unfold write_byte. cbn [sp_elems sp_buf sp_depth sp_inStr sp_esc].
    rewrite IH, string_app_assoc. done.
Qed.

Lemma split_loop_quoted s r es :
  split_loop (quote_elem s +:+ r) (mkSplit es "" 0 false false) = split_loop r (mkSplit es (quote_elem s) 0 false false).
Proof.
  unfold quote_elem. rewrite !string_app_assoc. unfold dquote at 1. rewrite string_app_cons, string_app_nil_l.
  cbn [split_loop].
  change (split_byte_step (Zbyte 34) ?st) with (Some (set_quote true false (write_byte (Zbyte 34) st))). cbn match.
  unfold set_quote, write_byte. cbn [sp_elems sp_buf sp_depth sp_inStr sp_esc]. rewrite split_loop_escaped.
  unfold dquote. rewrite string_app_cons, string_app_nil_l. cbn [split_loop].
  change (split_byte_step (Zbyte 34) ?st) with (Some (set_quote false false (write_byte (Zbyte 34) st))). cbn match.
  unfold set_quote, write_byte.
  cbn [sp_elems sp_buf sp_depth sp_inStr sp_esc]. done.
Qed.

Lemma split_loop_all l : ∀ e es,
  ∃ st, split_loop (String.concat comma_sep (map quote_elem (e :: l))) (mkSplit es "" 0 false false) = Some st ∧
        sp_inStr st = false ∧ sp_depth st = 0 ∧ sp_elems (end_elem st) = es ++ map quote_elem (e :: l).
Proof.
  induction l as [|e' l IH]; intros e es.
  - cbn [map String.concat]. rewrite <-(string_app_nil_r (quote_elem e)), split_loop_quoted.
    eexists. split; [done|]. cbn [end_elem sp_elems sp_buf sp_depth sp_inStr]. by rewrite TrimSpace_quoted, string_app_nil_r.
  - destruct (IH e' (es ++ [quote_elem e])) as (st & H1 & H2 & H3 & H4). exists st.
    change (String.concat comma_sep (map quote_elem (e :: e' :: l)))
      with (quote_elem e +:+ comma_sep +:+ String.concat comma_sep (map quote_elem (e' :: l))).
    rewrite split_loop_quoted. unfold comma_sep at 1. rewrite string_app_cons, string_app_nil_l. cbn [split_loop].
    change (split_byte_step (Zbyte 44) ?st) with (Some (end_elem st)). cbn match.
    unfold end_elem at 1. cbn [sp_elems sp_buf sp_depth sp_inStr sp_esc]. rewrite TrimSpace_quoted, H1.
    split_and!; [done..|]. by rewrite H4, <-app_assoc.
Qed.

(** the split of a bracketed list of quoted elements is that list *)
Lemma split_bracketed open close elems :
  visible (Zbyte open) = true → visible (Zbyte close) = true → 0 ≤ open < 256 → 0 ≤ close < 256 →
  splitLiteral (bracketed open close elems) open close = Ok elems.
Proof.
  intros Ho Hc Ro Rc. unfold splitLiteral, bracketed. rewrite (TrimSpace_wrap _ _ _ Ho Hc), wrap_long, last_is_wrap, middle_wrap by done.
  cbn [first_is]. rewrite byteZ_Zbyte, !Z.eqb_refl by done. cbn [negb orb].
  destruct elems as [|e l]; [done|].
  replace (bool_decide (TrimSpace (String.concat comma_sep (map quote_elem (e :: l))) = "")) with false.
  - destruct (split_loop_all l e []) as (st & -> & -> & -> & ->). cbn [Z.eqb negb]. f_equal.
    rewrite app_nil_l, map_map. rewrite <-(map_id (e :: l)) at 2. apply map_ext. intros x. by rewrite unquote_quote.
  - symmetry. apply bool_decide_eq_false_2. cbn [map]. destruct (map quote_elem l);
      cbn [String.concat]; unfold quote_elem, dquote at 1; rewrite ?string_app_assoc, string_app_cons; by apply TrimSpace_visible.
Qed.
End Splitting.

(** ** Canonical literals *)

(** a literal of a value: nested elements are quoted *)
Fixpoint literal (t : Typ) (v : value) {struct t} : string :=
  match t, v with
  | (IntTy _ | UintTy _), (VBig z | VUint _ z | VInt _ z) => z_string z
  | BoolTy, VBool b => if b then "true" else "false"
  | StringTy, VString s => s
  | AddressTy, VAddress a => hex40 a
  | (BytesTy | FixedBytesTy _), (VSlice _ l | VArray _ l) => hexBytes (bytes_of l)
  | (SliceTy e | ArrayTy _ e), (VSlice _ l | VArray _ l) => bracketed 91 93 (map (literal e) l)
  | TupleTy ts _, VStruct l =>
      bracketed 40 41 ((fix lits (ts : list Typ) (l : list value) : list string :=
        match ts, l with t :: ts, v :: l => literal t v :: lits ts l | _, _ => [] end) ts l)
  | _, _ => ""
  end.

Definition literals : list Typ → list value → list string :=
  fix lits (ts : list Typ) (l : list value) : list string :=
    match ts, l with t :: ts, v :: l => literal t v :: lits ts l | _, _ => [] end.

Lemma literal_tuple ts ns l : literal (TupleTy ts ns) (VStruct l) = bracketed 40 41 (literals ts l).
Proof. reflexivity. Qed.

Lemma literals_length ts l : length l = length ts → length (literals ts l) = length ts.
Proof. revert l. induction ts as [|t ts IH]; intros [|v l] H; try done. cbn. f_equal. apply IH. by injection H. Qed.

Lemma bytes_of_values s : bytes_of (byte_values s) = s.
Proof.
  unfold bytes_of, byte_values. rewrite map_map. rewrite <-(String.string_of_list_ascii_of_string s) at 2. f_equal.
  rewrite <-(map_id (String.list_ascii_of_string s)) at 2. apply map_ext. intros c. apply Zbyte_byteZ.
Qed.

(** digits are no 0x prefix *)
Lemma digits_no_0x s : string_forallb is_digit s = true → HasPrefix s "0x" || HasPrefix s "0X" = false.
Proof.
  intros H. destruct s as [|c [|d s]]; [done|by cbn; repeat case_match|]. cbn [string_forallb] in H. bool_prop.
  unfold HasPrefix. cbn [String.prefix]. apply orb_false_iff.
  split; (destruct (Ascii.ascii_dec _ c) as [<-|]; [|done]); (destruct (Ascii.ascii_dec _ d) as [<-|]; [done|done]).
Qed.

Section Literals.
Context {UT : UnicodeTables} {GC : GethCommon} {AT : AbiTypes}.

Lemma parseBigInt_z_string n : parseBigInt (z_string n) = Some n.
Proof.
  assert (Hpos : ∀ m, 0 ≤ m → string_forallb is_digit (nat_string 10 m) = true) by (intros; by apply nat_string_digits).
  assert (Hset : ∀ m, 0 ≤ m → SetString (nat_string 10 m) 10 = Some m).
  { intros m Hm. rewrite <-(z_string_nonneg m Hm). apply SetString_z_string. }
  unfold parseBigInt, z_string. destruct (Z.ltb_spec n 0) as [Hn|Hn].
  - rewrite TrimSpace_plain by (cbn [string_forallb]; rewrite plain_digits by (apply Hpos; lia); done).
    rewrite bool_decide_eq_false_2 by done.
    replace (HasPrefix (String (Zbyte 45) (nat_string 10 (- n))) "-") with true by (symmetry; apply prefix_nil). cbv iota beta. cbn [sdrop].
    replace (sdrop 0 (nat_string 10 (- n))) with (nat_string 10 (- n)) by (by destruct (nat_string 10 (- n))).
    rewrite digits_no_0x, Hset by (try apply Hpos; lia). cbn. f_equal. lia.
  - rewrite TrimSpace_plain by (by apply plain_digits, Hpos). pose proof (Hpos n Hn) as Hd.
    destruct (nat_string 10 n) as [|c r] eqn:E; [by specialize (Hset n Hn); rewrite E in Hset|].
    rewrite bool_decide_eq_false_2 by done.
    replace (HasPrefix (String c r) "-") with false; [by rewrite digits_no_0x, <-E, Hset by (by rewrite ?E)|].
    symmetry. unfold HasPrefix. cbn [String.prefix]. destruct (Ascii.ascii_dec _ c) as [<-|]; [|done]. done.
Qed.

Lemma parseHexBytes_hexBytes b : parseHexBytes (hexBytes b) = Ok b.
Proof.
  assert (Hd : ∀ d, 0 ≤ d < 16 → plain_byte (digit_char d) = true).
  { intros d H. destruct (digit_char_plain d H) as [Hv _]. exact Hv. }
  assert (Hp : string_forallb plain_byte (hexEncode b) = true).
  { induction b as [|c b IH]; [done|]. pose proof (byteZ_range c). cbn [hexEncode string_forallb].
    rewrite !Hd, IH by zlia. done. }
  assert (Hl : Nat.even (String.length (hexEncode b)) = true) by (clear; induction b; [done|by cbn]).
  unfold parseHexBytes. rewrite TrimSpace_plain by (unfold hexBytes; by rewrite string_forallb_app, Hp).
  unfold hexBytes. change ("0x" +:+ ?x) with (String (Zbyte 48) (String (Zbyte 120) x)). cbn [sdrop].
  replace (sdrop 0 (hexEncode b)) with (hexEncode b) by (by destruct (hexEncode b)).
  rewrite Hl, decode_pairs_hexEncode. by destruct (hexEncode b).
Qed.

Lemma bind_value {W A B} (m : CM W A) (k : A → CM W B) c a b :
  (m c).1 = Ok a → (∀ c', (k a c').1 = b) → (cbind m k c).1 = b.
Proof. unfold cbind. destruct (m c) as [r c']. cbn [fst]. intros -> H. apply H. Qed.

Lemma set_all_literals {W} e f (lit : value → string) l (c : coercer W) :
  Forall (well_typed valid_addr e) l → Forall (λ v, ∀ c, (f (lit v) c).1 = Ok v) l →
  (set_all (GetType e) f (map lit l) c).1 = Ok l.
Proof.
  intros Ht Hf. revert c. induction l as [|v l IH]; intros c; [done|]. inversion Ht; inversion Hf; subst. cbn [map set_all].
  eapply bind_value; [done|]. intros c1. unfold set_value. rewrite (well_typed_assignable valid_addr), cbind_ret by done.
  eapply bind_value; [by apply IH|]. done.
Qed.

Lemma fill_tuple_literals {W} i ts l (c : coercer W) :
  Forall2 (well_typed valid_addr) ts l →
  Forall (λ t, ∀ v, well_typed valid_addr t v → ∀ (c : coercer W), (coerce None t (literal t v) i c).1 = Ok v) ts →
  (fill_tuple None i ts (map GetType ts) (literals ts l) c).1 = Ok l.
Proof.
  intros Hl. revert c. induction Hl as [|t v ts l Hv Hl IH]; intros c Hc; [done|]. inversion Hc; subst. cbn.
  eapply bind_value; [auto|]. intros c1. unfold set_value. rewrite (well_typed_assignable valid_addr), cbind_ret by done.
  eapply bind_value; [by apply IH|]. done.
Qed.

Lemma coerceInt_literal t v i :
  match t with IntTy _ | UintTy _ => True | _ => False end → well_typed valid_addr t v →
  coerceInt t (literal t v) i = Ok v.
Proof.
  intros Ht Hv. assert (∃ z, in_range t z ∧ v = int_repr (GetType t) z) as (z & Hz & ->).
  { destruct t; try done; destruct Hv as (z & Hz & ->); exists z; by rewrite ?GetType_int, ?GetType_uint. }
  assert (literal t (int_repr (GetType t) z) = z_string z) as -> by (destruct t; try done; cbn [literal]; by destruct (GetType _)).
  unfold coerceInt. rewrite parseBigInt_z_string, checkIntRange_complete, convert_exact by (try done; by destruct t). done.
Qed.

(** the canonical literal of a well-typed value is read back as that value *)
Lemma coerce_literal {W} t : ∀ v, well_typed valid_addr t v → ∀ i (c : coercer W), (coerce None t (literal t v) i c).1 = Ok v.
Proof.
  apply (Typ_tree_ind (λ t, ∀ v, well_typed valid_addr t v → ∀ i (c : coercer W), (coerce None t (literal t v) i c).1 = Ok v)); clear t.
  - intros n v Hv i c. cbn [coerce]. by rewrite coerceInt_literal.
  - intros n v Hv i c. cbn [coerce]. by rewrite coerceInt_literal.
  - intros []; try done; intros v Hv i c.
    + destruct Hv as [b ->]. by destruct b.
    + by destruct Hv as [s ->].
    + destruct Hv as (a & Ha & ->). cbn [coerce literal]. unfold coerceAddr. rewrite (tight_trim _ (hex40_tight a)).
      by rewrite IsHexAddress_hex40, HexToAddress_hex40.
    + destruct Hv as (b & <- & ->). cbn [coerce literal fixed_value]. unfold coerceFixedBytes.
      rewrite bytes_of_values, parseHexBytes_hexBytes. cbn. by rewrite Z.eqb_refl.
    + destruct Hv as [b ->]. cbn [coerce literal bytes_value]. unfold coerceDynBytes.
      by rewrite bytes_of_values, parseHexBytes_hexBytes.
  - intros e IH v (l & -> & Hl) i c. cbn [coerce literal]. unfold coerceArray. rewrite split_bracketed by done.
    cbn [as_bad_arg]. eapply bind_value; [done|]. intros c1. rewrite GetType_slice.
    eapply bind_value; [apply set_all_literals; [done|]|done]. eapply Forall_impl; [exact Hl|]. intros x Hx c2. by apply IH.
  - intros n e IH v (l & -> & <- & Hl) i c. cbn [coerce literal]. unfold coerceArray. rewrite split_bracketed by done.
    cbn [as_bad_arg]. eapply bind_value; [done|]. intros c1. rewrite length_map, Z.eqb_refl, GetType_array, Z.eqb_refl. cbn [negb].
    eapply bind_value; [apply set_all_literals; [done|]|done]. eapply Forall_impl; [exact Hl|]. intros x Hx c2. by apply IH.
  - intros ts ns IH v (l & -> & Hl)%well_typed_tuple i c. rewrite coerce_tuple, literal_tuple. unfold coerceTuple.
    rewrite split_bracketed by done. cbn [as_bad_arg]. eapply bind_value; [done|]. intros c1.
    rewrite literals_length, Nat.eqb_refl, GetType_tuple by (symmetry; by eapply Forall2_length). cbn [negb].
    eapply bind_value; [apply fill_tuple_literals; [done|]|done]. eapply Forall_impl; [exact IH|]. auto.
Qed.
End Literals.

(** ** The arguments of a call *)

Section Args.
Context {UT : UnicodeTables} {GC : GethCommon} {AT : AbiTypes} {W : Type}.
Variables (P : Address → Prop) (resolve : option (AddrResolver W)).
Hypothesis Hres : resolver_ok P resolve.

(** the provenance shown for an argument *)
Definition echoes (a : Argument) (v : value) (p : AddrProvenance) : Prop :=
  match a_Type a with AddressTy => v = VAddress (ap_Addr p) | _ => p = no_prov end.

Lemma coerce_inputs_outcome inputs : ∀ args i c, length args = length inputs →
  outcome (Forall2 (λ a vp, well_typed P (a_Type a) vp.1 ∧ echoes a vp.1 vp.2) inputs) (coerce_inputs resolve i inputs args c).1.
Proof.
  induction inputs as [|a inputs IH]; intros [|s args] i c Hl; try done; [by constructor|]. cbn [coerce_inputs].
  pose proof (coerce_outcome P resolve Hres (a_Type a) s i c) as Ho.
  destruct (coerce resolve (a_Type a) s i c) as [[v|f] c1] eqn:E; [|exact Ho]. cbn [fst outcome] in Ho.
  specialize (IH args (i + 1) c1 ltac:(by injection Hl)).
  destruct (coerce_inputs resolve (i + 1) inputs args c1) as [[r|f] c2]; [|exact IH]. cbn [fst outcome] in *.
  constructor; [|done]. split; [done|]. unfold echoes. cbn [fst snd]. destruct (a_Type a); try done.
  by eapply coerceAddr_echo.
Qed.
End Args.

(** ** Properties *)

Section Properties.
Context {UT : UnicodeTables} {GC : GethCommon} {AT : AbiTypes}.

(** what coercing the arguments gives, and the provenance beside it *)
Lemma CoerceArgs_typed {W} P (resolve : option (AddrResolver W)) parsed method args w :
  resolver_ok P resolve →
  match (CoerceArgs resolve parsed method args w).1 with
  | Ok (vs, ps) => ∃ m, Methods parsed !! method = Some m ∧ length args = length (m_Inputs m) ∧
      Forall2 (λ a v, well_typed P (a_Type a) v ∧ type_of v = GetType (a_Type a)) (m_Inputs m) vs ∧
      Forall3 echoes (m_Inputs m) vs ps
  | Err (GoErr e) => e_Exit e = ExitUsage
  | Err GoPanic => False
  end.
Proof.
  intros Hres. unfold CoerceArgs. destruct (Methods parsed !! method) as [m|] eqn:Em; [|done].
  destruct (Nat.eqb_spec (length args) (length (m_Inputs m))) as [El|]; cbn [negb]; [|done].
  pose proof (coerce_inputs_outcome P resolve Hres (m_Inputs m) args 0 (mkCoercer no_prov w) El) as H.
  destruct (coerce_inputs _ _ _ _ _) as [[l|[e|]] c]; cbn [fst outcome] in *; [|by destruct H|done].
  exists m. split_and!; [done|done| |].
  - clear Em El. induction H as [|a [v p] inputs l [H1 H2] Hl IH]; [by constructor|]. constructor; [|done].
    split; [done|by eapply well_typed_type].
  - clear Em El. induction H as [|a [v p] inputs l [H1 H2] Hl IH]; [by constructor|]. by constructor.
Qed.

(** C25: Coercing the arguments of a call never panics: it gives a usage error
    (exit 2), or, for a method of the ABI with as many inputs as arguments, one
    value per input whose Go type is the one [Pack] expects, an integer in the
    declared range; and the provenance echoed for an address is that of the very
    address that is packed. *)
Theorem coerced_arguments_typed {W} P (resolve : option (AddrResolver W)) parsed method args w :
  resolver_ok P resolve →
  match (CoerceArgs resolve parsed method args w).1 with
  | Ok (vs, ps) => ∃ m, Methods parsed !! method = Some m ∧ length args = length (m_Inputs m) ∧
      Forall2 (λ a v, well_typed P (a_Type a) v ∧ type_of v = GetType (a_Type a)) (m_Inputs m) vs ∧
      Forall3 echoes (m_Inputs m) vs ps
  | Err (GoErr e) => e_Exit e = ExitUsage
  | Err GoPanic => False
  end.
Proof. apply CoerceArgs_typed. Qed.

(** Every value of an ABI type (integers of any width, addresses, byte
    strings, arrays and tuples to any depth, strings with commas, brackets and
    quotes in them) has a literal that [ParseLiteral] reads back as exactly that
    value. *)
Theorem literal_read_back t v : well_typed valid_addr t v → ParseLiteral t (literal t v) = Ok v.
Proof. intros Hv. unfold ParseLiteral. by apply coerce_literal. Qed.

(** An integer argument is accepted exactly when its text denotes a number
    of the declared width and signedness, and the packed value is that number:
    the conversions to the machine widths cut nothing off. *)
Theorem integer_argument_exact t s i v :
  match t with IntTy _ | UintTy _ => True | _ => False end →
  coerceInt t s i = Ok v ↔ ∃ z, parseBigInt s = Some z ∧ in_range t z ∧ v = int_repr (GetType t) z.
Proof.
  intros Ht. unfold coerceInt. split.
  - destruct (parseBigInt s) as [z|]; [|done]. destruct (checkIntRange z t i) eqn:E; [done|].
    apply checkIntRange_ok in E. intros [= <-]. exists z. split_and!; [done..|]. rewrite convert_exact; [done|by destruct t].
  - intros (z & -> & Hz & ->). rewrite checkIntRange_complete, convert_exact by (try done; by destruct t). done.
Qed.

(** a second sign is accepted: [--n] is [n], and [-0x-n] is [n] too *)
Lemma double_sign n : 0 ≤ n → parseBigInt ("--" +:+ z_string n) = Some n.
Proof.
  intros Hn. assert (Hd : string_forallb is_digit (nat_string 10 n) = true) by (by apply nat_string_digits).
  unfold parseBigInt. rewrite (z_string_nonneg n Hn).
  rewrite TrimSpace_plain by (rewrite string_forallb_app, (plain_digits _ Hd); done).
  change ("--" +:+ ?x) with (String (Zbyte 45) (String (Zbyte 45) x)). rewrite bool_decide_eq_false_2 by done.
  replace (HasPrefix (String (Zbyte 45) (String (Zbyte 45) (nat_string 10 n))) "-") with true by done.
  cbv iota beta. cbn [sdrop]. change (HasPrefix (String (Zbyte 45) ?x) "0x" || HasPrefix (String (Zbyte 45) ?x) "0X") with false.
  cbv iota. unfold SetString. change (byteZ (Zbyte 45) =? 45) with true. cbv iota.
  pose proof (SetString_z_string n) as Hs. rewrite (z_string_nonneg n Hn) in Hs. revert Hs Hd. unfold SetString.
  destruct (nat_string 10 n) as [|c r]; [done|]. cbn [string_forallb]. unfold is_digit at 1. intros Hs Hd. bool_prop.
  revert Hs. replace (byteZ c =? 45) with false by lia. replace (byteZ c =? 43) with false by lia. intros ->.
  cbn. f_equal. lia.
Qed.
End Properties.

(** ** Witnesses *)

(** a [GetType] and a [String] *)
Fixpoint ref_GetType (t : Typ) : gotype :=
  match t with
  | IntTy n => int_gotype false n
  | UintTy n => int_gotype true n
  | BoolTy => GBool
  | StringTy => GString
  | AddressTy => GAddress
  | BytesTy => GSlice (GUint 8)
  | FixedBytesTy n => GArray n (GUint 8)
  | SliceTy e => GSlice (ref_GetType e)
  | ArrayTy n e => GArray n (ref_GetType e)
  | TupleTy ts _ => GStruct (map ref_GetType ts)
  | HashTy | FixedPointTy => GArray 32 (GUint 8)
  | FunctionTy => GArray 24 (GUint 8)
  end.

Fixpoint ref_String (t : Typ) : string :=
  match t with
  | IntTy n => "int" +:+ z_string n
  | UintTy n => "uint" +:+ z_string n
  | BoolTy => "bool"
  | StringTy => "string"
  | AddressTy => "address"
  | BytesTy => "bytes"
  | FixedBytesTy n => "bytes" +:+ z_string n
  | SliceTy e => ref_String e +:+ "[]"
  | ArrayTy n e => ref_String e +:+ "[" +:+ z_string n +:+ "]"
  | TupleTy ts _ => "(" +:+ String.concat comma_sep (map ref_String ts) +:+ ")"
  | HashTy => "hash"
  | FixedPointTy => "fixed128x18"
  | FunctionTy => "function"
  end.

Definition abi_ref : AbiTypes := {|
  type_String := ref_String; GetType := ref_GetType;
  GetType_int := λ _, eq_refl; GetType_uint := λ _, eq_refl; GetType_bool := eq_refl; GetType_string := eq_refl;
  GetType_address := eq_refl; GetType_bytes := eq_refl; GetType_fixed := λ _, eq_refl; GetType_slice := λ _, eq_refl;
  GetType_array := λ _ _, eq_refl; GetType_tuple := λ _ _, eq_refl;
|}.

Section Witnesses.
#[local] Existing Instance ascii_tables.
#[local] Existing Instance geth_ref.
#[local] Existing Instance abi_ref.

(** transfer(address to, uint256 amount) and a struct of a label and two bytes arrays *)
Definition transfer_method : Method := {|
  m_Name := "transfer"; m_Sig := "transfer(address,uint256)"; m_ID := "";
  m_Inputs := [mkArgument "to" AddressTy false; mkArgument "amount" (UintTy 256) false]; m_Outputs := [] |}.
Definition transfer_abi : ABI := mkABI {["transfer" := transfer_method]} ∅.

Definition book_type : Typ := TupleTy [StringTy; SliceTy (IntTy 8); FixedBytesTy 2] ["label"; "ds"; "b"].
Definition book_value : value :=
  VStruct [VString (dquote +:+ "a,b]\" +:+ dquote); VSlice (GInt 8) [VInt 8 (-128); VInt 8 127]; fixed_value "ok"].

Lemma coerced_arguments_typed_witness :
  match (CoerceArgs None transfer_abi "transfer" [hex40 7; "0x10"] tt).1 with
  | Ok (vs, ps) => ∃ m, Methods transfer_abi !! "transfer" = Some m ∧ length [hex40 7; "0x10"] = length (m_Inputs m) ∧
      Forall2 (λ a v, well_typed valid_addr (a_Type a) v ∧ type_of v = GetType (a_Type a)) (m_Inputs m) vs ∧
      Forall3 echoes (m_Inputs m) vs ps
  | Err (GoErr e) => e_Exit e = ExitUsage
  | Err GoPanic => False
  end ∧ is_ok (CoerceArgs None transfer_abi "transfer" [hex40 7; "0x10"] tt).1 = true.
Proof. split; [apply coerced_arguments_typed, literal_resolver_ok|vm_compute; reflexivity]. Defined.

Lemma literal_read_back_witness : ParseLiteral book_type (literal book_type book_value) = Ok book_value.
Proof.
  apply literal_read_back. apply well_typed_tuple. eexists. split; [reflexivity|]. repeat constructor.
  - by eexists.
  - eexists. split; [reflexivity|]. repeat constructor.
    + exists (-128). unfold in_range. cbn. split; [lia|done].
    + exists 127. unfold in_range. cbn. split; [lia|done].
  - exists "ok". done.
Defined.

Lemma integer_argument_exact_witness :
  coerceInt (UintTy 8) " 0xff " 0 = Ok (VUint 8 255) ∧
  (∃ z, parseBigInt " 0xff " = Some z ∧ in_range (UintTy 8) z ∧ VUint 8 255 = int_repr (GetType (UintTy 8)) z).
Proof. split; [vm_compute; reflexivity|]. apply (integer_argument_exact (UintTy 8) " 0xff " 0 (VUint 8 255)); [done|vm_compute; reflexivity]. Defined.
End Witnesses.
