(* ===== verification/AbiSig.v ===== *)
(** * Inline signatures: the parser of [internal/abi/abi.go]

    [ParseSig]'s recursive-descent parser over cast's signature forms
    ([name(args)], [name(args)(outputs)], [indexed], named parameters, nested
    tuples), and the naming of unnamed arguments.  The parser's state is the text
    behind its cursor; its loops run on fuel, which [signature_parse_ends] shows
    to be enough, and [signature_read_back] is the parse of a printed signature. *)

From S2P Require Import Prelude GoStrings Decimal Encodings Domain Refs.

Local Open Scope string_scope.
Local Open Scope Z_scope.
Local Open Scope list_scope.

(** ** The argument tree *)

Inductive abiJSONArg :=
  mkArg (Name Type_ InternalType : string) (Components : list abiJSONArg) (Indexed : bool).

Definition g_Name (a : abiJSONArg) : string := let 'mkArg n _ _ _ _ := a in n.
Definition g_Type (a : abiJSONArg) : string := let 'mkArg _ t _ _ _ := a in t.
Definition g_InternalType (a : abiJSONArg) : string := let 'mkArg _ _ t _ _ := a in t.
Definition g_Components (a : abiJSONArg) : list abiJSONArg := let 'mkArg _ _ _ cs _ := a in cs.
Definition g_Indexed (a : abiJSONArg) : bool := let 'mkArg _ _ _ _ ix := a in ix.

(** nameArgs on one argument, at its position *)
Fixpoint name_arg (prefix : string) (i : nat) (a : abiJSONArg) {struct a} : abiJSONArg :=
  let 'mkArg n t it cs ix := a in
  mkArg (if bool_decide (n = "") then prefix +:+ z_string (Z.of_nat i) else n) t it
    ((fix go (i : nat) (cs : list abiJSONArg) : list abiJSONArg :=
        match cs with [] => [] | c :: cs => name_arg "field" i c :: go (S i) cs end) 0%nat cs) ix.

Fixpoint name_args_from (prefix : string) (i : nat) (args : list abiJSONArg) : list abiJSONArg :=
  match args with [] => [] | a :: args => name_arg prefix i a :: name_args_from prefix (S i) args end.

Definition nameArgs (args : list abiJSONArg) (prefix : string) : list abiJSONArg := name_args_from prefix 0 args.

(** ** The cursor *)

Definition isAlpha (c : Ascii.ascii) : bool :=
  ((97 <=? byteZ c) && (byteZ c <=? 122)) || ((65 <=? byteZ c) && (byteZ c <=? 90)).
Definition isDigit (c : Ascii.ascii) : bool := (48 <=? byteZ c) && (byteZ c <=? 57).

(** the bytes of an identifier: its first, and the others *)
Definition id_start (c : Ascii.ascii) : bool := isAlpha c || (byteZ c =? 95) || (byteZ c =? 36).
Definition id_byte (c : Ascii.ascii) : bool := isAlpha c || isDigit c || (byteZ c =? 95) || (byteZ c =? 36).
Definition type_byte (c : Ascii.ascii) : bool := isAlpha c || isDigit c.

Fixpoint skipSpace (s : string) : string :=
  match s with
  | String c r => if (byteZ c =? 32) || (byteZ c =? 9) then skipSpace r else s
  | "" => ""
  end.

(** [p.peek() == c], for a byte other than NUL *)
Definition peek_is (b : Z) (s : string) : bool := match s with String c _ => byteZ c =? b | "" => false end.

Definition consume (b : Z) (s : string) : option string :=
  match skipSpace s with
  | String c r => if byteZ c =? b then Some r else None
  | "" => None
  end.

(** the longest prefix of bytes satisfying [f], and the rest *)
Fixpoint take_while (f : Ascii.ascii → bool) (s : string) : string * string :=
  match s with
  | String c r => if f c then let '(t, rest) := take_while f r in (String c t, rest) else ("", s)
  | "" => ("", "")
  end.

(** ** The parser *)

(** out of fuel, a syntax error, or a result with the text behind it *)
Inductive pres (A : Type) := PFuel | PErr (m : string) | POk (a : A) (rest : string).
Arguments PFuel {A}.
Arguments PErr {A} m.
Arguments POk {A} a rest.

Definition pbind {A B} (m : pres A) (k : A → string → pres B) : pres B :=
  match m with PFuel => PFuel | PErr e => PErr e | POk a s => k a s end.

Definition identifier (s : string) : pres string :=
  match skipSpace s with
  | "" => PErr "expected a name"
  | String c r =>
      if negb (id_start c) then PErr ("invalid name start " +:+ go_quote (encode_rune (byteZ c)))
      else let '(t, rest) := take_while id_byte r in POk (String c t) rest
  end.

Definition maybeIdentifier (s : string) : option string * string :=
  match skipSpace s with
  | "" => (None, "")
  | String c r =>
      if negb (id_start c) then (None, String c r)
      else let '(t, rest) := take_while id_byte r in (Some (String c t), rest)
  end.

(** one suffix per round; every round takes at least two bytes *)
Fixpoint arraySuffix (n : nat) (s : string) : pres string :=
  match n with
  | O => PFuel
  | S n =>
      match s with
      | String c r =>
          if byteZ c =? 91 then
            let '(ds, rest) := take_while isDigit r in
            match rest with
            | String e rest' =>
                if byteZ e =? 93
                then pbind (arraySuffix n rest') (λ sfx rest, POk ("[" +:+ ds +:+ "]" +:+ sfx) rest)
                else PErr "expected ']' closing an array type"
            | "" => PErr "expected ']' closing an array type"
            end
          else POk "" s
      | "" => POk "" s
      end
  end.

Definition suffix (s : string) : pres string := arraySuffix (S (String.length s)) s.

Definition typeToken (s : string) : pres string :=
  match skipSpace s with
  | "" => PErr "expected a type"
  | String c r =>
      if negb (isAlpha c) then PErr ("invalid type start " +:+ go_quote (encode_rune (byteZ c)))
      else let '(t, rest) := take_while type_byte r in
           pbind (suffix rest) (λ sfx rest, POk (String c t +:+ sfx) rest)
  end.

(** the optional [indexed] and the optional name behind a type *)
Definition arg_tail (allowIndexed : bool) (ty : string) (comps : list abiJSONArg) (s : string) : pres (abiJSONArg * bool) :=
  match maybeIdentifier s with
  | (None, s) => POk (mkArg "" ty ty comps false, false) s
  | (Some id, s) =>
      if bool_decide (id = "indexed") then
        if negb allowIndexed then PErr "'indexed' is only valid on event args"
        else match maybeIdentifier s with
             | (Some name2, s) => POk (mkArg name2 ty ty comps true, true) s
             | (None, s) => POk (mkArg "" ty ty comps true, true) s
             end
      else POk (mkArg id ty ty comps false, false) s
  end.

(** argList around its loop *)
Definition arg_list (loop : string → pres (list abiJSONArg * bool)) (s : string) : pres (list abiJSONArg * bool) :=
  let s := skipSpace s in if peek_is 41 s then POk ([], false) s else loop s.

Fixpoint arg (n : nat) (allowIndexed : bool) (s : string) {struct n} : pres (abiJSONArg * bool) :=
  match n with
  | O => PFuel
  | S n =>
      let s := skipSpace s in
      if peek_is 40 s then
        pbind (arg_list (arg_loop n false) (sdrop 1 s)) (λ '(comps, _) s,
          match consume 41 s with
          | None => PErr "expected ')' closing a tuple"
          | Some s => pbind (suffix s) (λ sfx s, arg_tail allowIndexed ("tuple" +:+ sfx) comps s)
          end)
      else pbind (typeToken s) (λ tok s, arg_tail allowIndexed tok [] s)
  end
with arg_loop (n : nat) (allowIndexed : bool) (s : string) {struct n} : pres (list abiJSONArg * bool) :=
  match n with
  | O => PFuel
  | S n =>
      pbind (arg n allowIndexed s) (λ '(a, idx) s,
        let s := skipSpace s in
        if peek_is 44 s
        then pbind (arg_loop n allowIndexed (sdrop 1 s)) (λ '(out, any) s, POk (a :: out, (idx : bool) || any) s)
        else POk ([a], idx) s)
  end.

Definition argList (n : nat) (allowIndexed : bool) (s : string) : pres (list abiJSONArg * bool) :=
  arg_list (arg_loop n allowIndexed) s.

(** what [parseSignature] returns *)
Record Signature := mkSig {
  sg_name : string; sg_inputs : list abiJSONArg; sg_outputs : list abiJSONArg;
  sg_hasOutputs : bool; sg_anyIndexed : bool }.

(** fuel for a text *)
Definition sig_fuel (s : string) : nat := 2 * String.length s + 2.

(** the optional outputs, and the end of the text *)
Definition parse_outputs (fuel : nat) (s : string) : pres (list abiJSONArg * bool) :=
  let s := skipSpace s in
  if peek_is 40 s then
    pbind (argList fuel false (sdrop 1 s)) (λ '(outs, anyIdx) s,
      if (anyIdx : bool) then PErr "outputs cannot be 'indexed'"
      else match consume 41 s with
           | None => PErr "expected ')' closing outputs"
           | Some s => POk (outs, true) s
           end)
  else POk ([], false) s.

Section Parse.
Context {UT : UnicodeTables}.

Definition parseSignature (sig : string) : pres Signature :=
  let s := TrimSpace sig in
  let fuel := sig_fuel s in
  pbind (identifier s) (λ name s,
    match consume 40 s with
    | None => PErr "expected '(' after name"
    | Some s =>
        pbind (argList fuel true s) (λ '(inputs, anyIndexed) s,
          match consume 41 s with
          | None => PErr "expected ')' closing inputs"
          | Some s =>
              pbind (parse_outputs fuel s) (λ '(outputs, hasOutputs) s,
                let s := skipSpace s in
                if negb (bool_decide (s = "")) then PErr ("unexpected trailing text " +:+ go_quote s)
                else POk {| sg_name := name; sg_inputs := nameArgs inputs "arg"; sg_outputs := nameArgs outputs "ret";
                            sg_hasOutputs := hasOutputs; sg_anyIndexed := anyIndexed |} s)
          end)
    end).
End Parse.

(** ** The parser ends *)

(** not out of fuel, and at most [n] bytes left *)
Definition fits {A} (m : pres A) (n : nat) : Prop :=
  match m with PFuel => False | PErr _ => True | POk _ r => (String.length r ≤ n)%nat end.

Lemma fits_bind {A B} (m : pres A) (k : A → string → pres B) L L' :
  fits m L → (∀ a r, (String.length r ≤ L)%nat → fits (k a r) L') → fits (pbind m k) L'.
Proof. intros H1 H2. destruct m; cbn in *; [done|done|by apply H2]. Qed.

Lemma fits_mono {A} (m : pres A) L L' : fits m L → (L ≤ L')%nat → fits m L'.
Proof. destruct m; cbn; [done|done|lia]. Qed.

Lemma skipSpace_length s : (String.length (skipSpace s) ≤ String.length s)%nat.
Proof. induction s as [|c r IH]; [done|]. cbn [skipSpace]. destruct (_ || _); cbn [String.length] in *; lia. Qed.

Lemma take_while_length f s : (String.length (take_while f s).2 ≤ String.length s)%nat.
Proof.
  induction s as [|c r IH]; [done|]. cbn [take_while]. destruct (f c); [|done].
  destruct (take_while f r) as [t u]. cbn [snd String.length] in *. lia.
Qed.

Lemma consume_length b s r : consume b s = Some r → (String.length r < String.length s)%nat.
Proof.
  unfold consume. pose proof (skipSpace_length s). destruct (skipSpace s) as [|c u]; [done|]. cbn [String.length] in *.
  destruct (_ =? _); [|done]. intros [= <-]. lia.
Qed.

Lemma sdrop1_length s : (String.length (sdrop 1 s) ≤ String.length s - 1)%nat.
Proof. destruct s as [|c r]; cbn; [lia|]. destruct r; cbn; lia. Qed.

Lemma peek_nonempty b s : peek_is b s = true → (0 < String.length s)%nat.
Proof. destruct s; cbn; [done|lia]. Qed.

Lemma arraySuffix_fits n s : (String.length s < n)%nat → fits (arraySuffix n s) (String.length s).
Proof.
  revert s. induction n as [|n IH]; intros s Hn; [lia|]. cbn [arraySuffix]. destruct s as [|c r]; [by cbn|].
  destruct (byteZ c =? 91); [|by cbn]. pose proof (take_while_length isDigit r) as Hl.
  destruct (take_while isDigit r) as [ds rest]. cbn [snd] in Hl. destruct rest as [|e rest]; [done|].
  destruct (byteZ e =? 93); [|done]. cbn [String.length] in *.
  eapply fits_bind; [apply IH; lia|]. intros sfx u Hu. cbn. lia.
Qed.

Lemma suffix_fits s : fits (suffix s) (String.length s).
Proof. apply arraySuffix_fits. lia. Qed.

Lemma typeToken_fits s : fits (typeToken s) (String.length s - 1).
Proof.
  unfold typeToken. pose proof (skipSpace_length s). destruct (skipSpace s) as [|c r]; [done|]. destruct (isAlpha c); [|done].
  pose proof (take_while_length type_byte r). destruct (take_while type_byte r) as [t u]. cbn [snd String.length negb] in *.
  eapply fits_bind; [apply suffix_fits|]. intros a v Hv. cbn. lia.
Qed.

Lemma maybeIdentifier_length s : (String.length (maybeIdentifier s).2 ≤ String.length s)%nat.
Proof.
  unfold maybeIdentifier. pose proof (skipSpace_length s). destruct (skipSpace s) as [|c r]; [cbn in *; lia|].
  destruct (id_start c); [|done]. cbn [negb]. pose proof (take_while_length id_byte r).
  destruct (take_while id_byte r) as [t u]. cbn [snd String.length] in *. lia.
Qed.

Lemma arg_tail_fits b ty comps s : fits (arg_tail b ty comps s) (String.length s).
Proof.
  unfold arg_tail. pose proof (maybeIdentifier_length s) as H1. destruct (maybeIdentifier s) as [[id|] r]; [|exact H1].
  cbn [snd] in H1. destruct (bool_decide _); [|done]. destruct b; [|done]. cbn [negb].
  pose proof (maybeIdentifier_length r) as H2. destruct (maybeIdentifier r) as [[id2|] r2]; cbn [snd fits] in *; lia.
Qed.

Lemma arg_list_fits loop s :
  (∀ u, (String.length u ≤ String.length s)%nat → fits (loop u) (String.length u)) → fits (arg_list loop s) (String.length s).
Proof.
  intros H. unfold arg_list. pose proof (skipSpace_length s). cbv zeta. destruct (peek_is _ _); [done|].
  eapply fits_mono; [by apply H|done].
Qed.

Lemma arg_fits n : ∀ b s,
  ((2 * String.length s + 1 ≤ n)%nat → fits (arg n b s) (String.length s - 1)) ∧
  ((2 * String.length s + 2 ≤ n)%nat → fits (arg_loop n b s) (String.length s)).
Proof.
  induction n as [|n IH]; intros b s; (split; intros Hn; [|]); [lia|lia| |].
  - cbn [arg]. pose proof (skipSpace_length s) as Hs. cbv zeta. destruct (peek_is 40 (skipSpace s)) eqn:Ep.
    + apply peek_nonempty in Ep. pose proof (sdrop1_length (skipSpace s)) as Hd.
      eapply fits_bind; [apply arg_list_fits; intros u Hu; apply (IH false u); lia|]. intros [comps ix] r Hr.
      destruct (consume 41 r) as [r'|] eqn:Ec; [|done]. apply consume_length in Ec.
      eapply fits_bind; [apply suffix_fits|]. intros sfx r2 Hr2. eapply fits_mono; [apply arg_tail_fits|lia].
    + eapply fits_bind; [apply typeToken_fits|]. intros tok r Hr. eapply fits_mono; [apply arg_tail_fits|lia].
  - cbn [arg_loop]. eapply fits_bind; [apply (IH b s); lia|]. intros [a ix] r Hr. cbv zeta.
    pose proof (skipSpace_length r) as Hs. destruct (peek_is 44 (skipSpace r)) eqn:Ep; [|cbn; lia].
    apply peek_nonempty in Ep. pose proof (sdrop1_length (skipSpace r)) as Hd.
    eapply fits_bind; [apply (IH b); lia|]. intros [out any] r2 Hr2. cbn. lia.
Qed.

Lemma argList_fits n b s : (2 * String.length s + 2 ≤ n)%nat → fits (argList n b s) (String.length s).
Proof. intros Hn. apply arg_list_fits. intros u Hu. apply arg_fits. lia. Qed.

(** ** Printing a signature *)

Section ArgInd.
Variable P : abiJSONArg → Prop.
Hypothesis Hp : ∀ n t it cs ix, Forall P cs → P (mkArg n t it cs ix).

Lemma arg_tree_ind : ∀ a, P a.
Proof.
  fix IH 1. intros [n t it cs ix]. apply Hp. induction cs as [|x l IHl]; [by constructor|]. constructor; [apply IH|exact IHl].
Qed.
End ArgInd.

(** an identifier, and an array suffix: brackets around optional digits *)
Definition word_of (start f : Ascii.ascii → bool) (s : string) : bool :=
  match s with String c r => start c && string_forallb f r | "" => false end.
Definition is_word (s : string) : bool := word_of id_start id_byte s.

Definition brackets (ds : list string) : string :=
  foldr (λ d r, "[" +:+ d +:+ "]" +:+ r) "" ds.

Definition is_suffix (s : string) : Prop := ∃ ds, s = brackets ds ∧ Forall (λ d, string_forallb isDigit d = true) ds.

(** an elementary type: letters and digits, and a suffix *)
Definition is_type (s : string) : Prop :=
  ∃ base sfx, s = base +:+ sfx ∧ word_of isAlpha type_byte base = true ∧ is_suffix sfx.

(** An argument as the grammar writes it: components only under a [tuple] type,
    [indexed] only at the top of inputs, and a name that is no keyword. *)
Inductive wf_arg : bool → abiJSONArg → Prop :=
| wf_plain b n t ix : is_type t → (n = "" ∨ is_word n = true ∧ n ≠ "indexed") → (ix = true → b = true) →
    wf_arg b (mkArg n t t [] ix)
| wf_tuple b n sfx cs ix : is_suffix sfx → cs ≠ [] → Forall (λ a, wf_arg false a) cs →
    (n = "" ∨ is_word n = true ∧ n ≠ "indexed") → (ix = true → b = true) →
    wf_arg b (mkArg n ("tuple" +:+ sfx) ("tuple" +:+ sfx) cs ix).

Definition comma : string := String (Zbyte 44) "".

Definition print_tail (n : string) (ix : bool) : string :=
  (if ix then " indexed" else "") +:+ (if bool_decide (n = "") then "" else " " +:+ n).

Fixpoint print_arg (a : abiJSONArg) : string :=
  let 'mkArg n t _ cs ix := a in
  match cs with
  | [] => t
  | _ => "(" +:+ String.concat comma (map print_arg cs) +:+ ")" +:+ sdrop 5 t
  end +:+ print_tail n ix.

Definition print_args (l : list abiJSONArg) : string := "(" +:+ String.concat comma (map print_arg l) +:+ ")".

Definition print_sig (name : string) (inputs : list abiJSONArg) (outputs : option (list abiJSONArg)) : string :=
  name +:+ print_args inputs +:+ match outputs with Some l => print_args l | None => "" end.

(** ** Reading back what was printed *)

Lemma take_while_app f w r :
  string_forallb f w = true → match r with String c _ => f c = false | "" => True end → take_while f (w +:+ r) = (w, r).
Proof.
  intros Hw Hr. induction w as [|c w IH].
  - rewrite string_app_nil_l. destruct r as [|c r]; [done|]. cbn [take_while]. by rewrite Hr.
  - cbn [string_forallb] in Hw. apply andb_true_iff in Hw as [Hc Hw]. rewrite string_app_cons. cbn [take_while].
    by rewrite Hc, IH.
Qed.

(** the texts behind an argument, and behind its type *)
Definition stops (r : string) : Prop := ∃ c t, r = String (Zbyte c) t ∧ (c = 44 ∨ c = 41).
Definition type_stops (r : string) : Prop := ∃ c t, r = String (Zbyte c) t ∧ (c = 44 ∨ c = 41 ∨ c = 32).

Lemma stops_type r : stops r → type_stops r.
Proof. intros (c & t & -> & H). exists c, t. split; [done|]. tauto. Qed.

Lemma skip_stop r : stops r → skipSpace r = r.
Proof. intros (c & t & -> & [-> | ->]); done. Qed.

Lemma brackets_cons d ds : brackets (d :: ds) = "[" +:+ d +:+ "]" +:+ brackets ds.
Proof. done. Qed.

Lemma arraySuffix_print ds : ∀ n r,
  Forall (λ d, string_forallb isDigit d = true) ds → type_stops r → (length ds < n)%nat →
  arraySuffix n (brackets ds +:+ r) = POk (brackets ds) r.
Proof.
  induction ds as [|d ds IH]; intros [|n] r Hd Hr Hn; try (cbn in Hn; lia).
  - rewrite string_app_nil_l. destruct Hr as (c & t & -> & [-> | [-> | ->]]); done.
  - inversion Hd; subst. rewrite brackets_cons, !string_app_assoc. cbn [arraySuffix].
    change ("[" +:+ ?x) with (String (Zbyte 91) x). change (byteZ (Zbyte 91) =? 91) with true. cbv iota.
    rewrite take_while_app by done. change ("]" +:+ ?x) with (String (Zbyte 93) x). change (byteZ (Zbyte 93) =? 93) with true. cbv iota.
    rewrite IH by (try done; cbn in Hn; lia). done.
Qed.

Lemma brackets_length ds : (length ds ≤ String.length (brackets ds))%nat.
Proof. induction ds as [|d ds IH]; [done|]. rewrite brackets_cons, !string_length_app. cbn. lia. Qed.

Lemma suffix_print sfx r : is_suffix sfx → type_stops r → suffix (sfx +:+ r) = POk sfx r.
Proof.
  intros (ds & -> & Hd) Hr. apply arraySuffix_print; [done..|]. pose proof (brackets_length ds). rewrite string_length_app. lia.
Qed.

Lemma alpha_space c : isAlpha c = true → (byteZ c =? 32) || (byteZ c =? 9) = false.
Proof. unfold isAlpha. intros H. bool_prop; apply orb_false_iff; lia. Qed.

Lemma id_space c : id_start c = true → (byteZ c =? 32) || (byteZ c =? 9) = false.
Proof. unfold id_start, isAlpha. intros H. bool_prop; apply orb_false_iff; lia. Qed.

Lemma typeToken_print t r : is_type t → type_stops r → typeToken (t +:+ r) = POk t r.
Proof.
  intros (base & sfx & -> & Hb & Hs) Hr. destruct base as [|c base]; [done|]. cbn [word_of] in Hb.
  apply andb_true_iff in Hb as [Hc Hb]. unfold typeToken. rewrite string_app_assoc, string_app_cons. cbn [skipSpace].
  rewrite (alpha_space c Hc), Hc. cbn [negb]. rewrite take_while_app; [|done|].
  - rewrite (suffix_print sfx r Hs Hr). cbn [pbind]. by rewrite string_app_cons.
  - destruct Hs as (ds & -> & _). destruct ds as [|d ds]; [|done]. rewrite string_app_nil_l.
    destruct Hr as (x & t & -> & [-> | [-> | ->]]); done.
Qed.

Lemma maybe_word n r : is_word n = true → stops r ∨ type_stops r → maybeIdentifier (" " +:+ n +:+ r) = (Some n, r).
Proof.
  intros Hn Hr. unfold maybeIdentifier. change (" " +:+ ?x) with (String (Zbyte 32) x). cbn [skipSpace].
  change ((byteZ (Zbyte 32) =? 32) || (byteZ (Zbyte 32) =? 9)) with true. cbv iota.
  destruct n as [|c n]; [done|]. unfold is_word in Hn. cbn [word_of] in Hn. apply andb_true_iff in Hn as [Hc Hn].
  rewrite string_app_cons. cbn [skipSpace]. rewrite (id_space c Hc), Hc. cbn [negb]. rewrite take_while_app; [done|done|].
  assert (type_stops r) as (x & t & -> & [-> | [-> | ->]]) by (destruct Hr; [by apply stops_type|done]); done.
Qed.

Lemma maybe_none r : stops r → maybeIdentifier r = (None, r).
Proof. intros Hr. unfold maybeIdentifier. rewrite (skip_stop r Hr). destruct Hr as (c & t & -> & [-> | ->]); done. Qed.

Lemma arg_tail_print b n ty comps ix r :
  (n = "" ∨ is_word n = true ∧ n ≠ "indexed") → (ix = true → b = true) → stops r →
  arg_tail b ty comps (print_tail n ix +:+ r) = POk (mkArg n ty ty comps ix, ix) r.
Proof.
  intros Hn Hix Hr. unfold arg_tail, print_tail. destruct ix.
  - rewrite (Hix eq_refl). destruct Hn as [-> | [Hw Hn]].
    + rewrite bool_decide_eq_true_2, string_app_nil_r by done. change (" indexed" +:+ r) with (" " +:+ "indexed" +:+ r).
      rewrite maybe_word by (try done; by left). rewrite bool_decide_eq_true_2 by done. cbn [negb]. by rewrite maybe_none.
    + rewrite (bool_decide_eq_false_2 (n = "")) by (by intros ->). rewrite string_app_assoc.
      change (" indexed" +:+ ?x) with (" " +:+ "indexed" +:+ x). rewrite maybe_word; [|done|right; by exists 32, (n +:+ r); eauto].
      rewrite bool_decide_eq_true_2 by done. cbn [negb]. rewrite string_app_assoc, maybe_word by (try done; by left). done.
  - rewrite string_app_nil_l. destruct Hn as [-> | [Hw Hn]].
    + rewrite bool_decide_eq_true_2, string_app_nil_l by done. by rewrite maybe_none.
    + rewrite bool_decide_eq_false_2 by (by intros ->). rewrite string_app_assoc, maybe_word by (try done; by left).
      by rewrite bool_decide_eq_false_2 by done.
Qed.

Lemma wf_name b a : wf_arg b a → g_Name a = "" ∨ is_word (g_Name a) = true ∧ g_Name a ≠ "indexed".
Proof. by destruct 1. Qed.

Lemma tail_stops n ix r : stops r → type_stops (print_tail n ix +:+ r).
Proof.
  intros Hr. unfold print_tail. destruct ix; [by exists 32, ("indexed" +:+ (if bool_decide (n = "") then "" else " " +:+ n) +:+ r); eauto|].
  rewrite string_app_nil_l. destruct (bool_decide (n = "")); [rewrite string_app_nil_l; by apply stops_type|].
  exists 32, (n +:+ r). eauto.
Qed.

Lemma alpha_not c b : isAlpha c = true → b < 65 → (byteZ c =? b) = false.
Proof. unfold isAlpha. intros H Hb. bool_prop; lia. Qed.

(** an argument's text begins with a letter or an opening parenthesis *)
Lemma print_head b a : wf_arg b a → ∃ c t, print_arg a = String c t ∧ (isAlpha c = true ∨ c = Zbyte 40).
Proof.
  intros [b' n t ix (base & sfx & -> & Hb & _) _ _ | b' n sfx cs ix _ Hcs _ _ _].
  - destruct base as [|c base]; [done|]. cbn [word_of] in Hb. apply andb_true_iff in Hb as [Hc _].
    eexists c, _. split; [cbn [print_arg]; by rewrite !string_app_cons|by left].
  - destruct cs as [|x cs]; [done|]. eexists (Zbyte 40), _. split; [reflexivity|by right].
Qed.

Lemma print_skip b a r : wf_arg b a → skipSpace (print_arg a +:+ r) = print_arg a +:+ r ∧ peek_is 41 (print_arg a +:+ r) = false.
Proof.
  intros Hw. destruct (print_head b a Hw) as (c & t & -> & Hc). rewrite string_app_cons. cbn [skipSpace peek_is].
  destruct Hc as [Hc | ->]; [|done]. rewrite (alpha_space c Hc). split; [done|by apply alpha_not].
Qed.

(** the parse of one printed argument, whatever the fuel above the bound *)
Definition read_back (b : bool) (a : abiJSONArg) : Prop := ∀ n r,
  stops r → (2 * String.length (print_arg a +:+ r) + 1 ≤ n)%nat → arg n b (print_arg a +:+ r) = POk (a, g_Indexed a) r.

Lemma concat_cons (x : string) l : l ≠ [] → String.concat comma (x :: l) = x +:+ comma +:+ String.concat comma l.
Proof. by destruct l. Qed.

Lemma arg_loop_print b l : ∀ n r,
  l ≠ [] → Forall (λ a, wf_arg b a ∧ read_back b a) l →
  (2 * String.length (String.concat comma (map print_arg l) +:+ String (Zbyte 41) r) + 2 ≤ n)%nat →
  arg_loop n b (String.concat comma (map print_arg l) +:+ String (Zbyte 41) r) =
  POk (l, existsb g_Indexed l) (String (Zbyte 41) r).
Proof.
  induction l as [|a l IH]; intros n r Hne Hl Hn; [done|]. inversion Hl as [|? ? [Hw Ha] Hl']; subst. destruct n as [|n]; [lia|].
  cbn [arg_loop]. destruct l as [|a' l].
  - cbn [map String.concat] in *. rewrite Ha by (try lia; exists 41, r; auto). cbn [pbind existsb]. by rewrite orb_false_r.
  - revert Hn. cbn [map]. change (print_arg a' :: map print_arg l) with (map print_arg (a' :: l)).
    rewrite concat_cons, !string_app_assoc by done. change (comma +:+ ?x) with (String (Zbyte 44) x). intros Hn.
    rewrite Ha by (try (rewrite string_length_app in *; cbn [String.length] in *; lia); eexists 44, _; eauto). cbn [pbind].
    cbv zeta. change (skipSpace (String (Zbyte 44) ?x)) with (String (Zbyte 44) x). change (peek_is 44 (String (Zbyte 44) ?x)) with true.
    cbv iota. change (sdrop 1 (String (Zbyte 44) ?x)) with (sdrop 0 x).
    replace (sdrop 0 (String.concat comma (map print_arg (a' :: l)) +:+ String (Zbyte 41) r))
      with (String.concat comma (map print_arg (a' :: l)) +:+ String (Zbyte 41) r) by (by destruct (_ +:+ _)).
    rewrite IH; [done|done|done|]. rewrite string_length_app in Hn. cbn [String.length] in Hn. lia.
Qed.

Lemma sdrop_0 s : sdrop 0 s = s.
Proof. by destruct s. Qed.

Lemma arg_print a : ∀ b, wf_arg b a → read_back b a.
Proof.
  apply (arg_tree_ind (λ a, ∀ b, wf_arg b a → read_back b a)); clear a. intros nm ty it cs ix IH b Hw [|n] r Hr Hn; [lia|].
  pose proof (print_skip b _ r Hw) as [Hsk _]. cbn [arg]. rewrite Hsk. cbv zeta. inversion Hw as [b' n' t' ix' Ht Hnm Hix|b' n' sfx cs' ix' Hs Hcs Hc Hnm Hix]; subst.
  - cbn [print_arg g_Indexed]. rewrite string_app_assoc. destruct Ht as (base & sfx & -> & Hb & Hs).
    assert (Ht : is_type (base +:+ sfx)) by (by exists base, sfx).
    rewrite (typeToken_print _ _ Ht (tail_stops nm ix r Hr)). cbn [pbind].
    destruct base as [|c base]; [done|]. cbn [word_of] in Hb. apply andb_true_iff in Hb as [Ha Hb]. rewrite !string_app_cons.
    cbn [peek_is]. rewrite (alpha_not c 40 Ha) by lia. by rewrite arg_tail_print.
  - cbn [print_arg g_Indexed]. destruct cs as [|x cs]; [done|].
    change (sdrop 5 ("tuple" +:+ sfx)) with (sdrop 0 sfx). rewrite sdrop_0, !string_app_assoc.
    change ("(" +:+ ?x) with (String (Zbyte 40) x). change (peek_is 40 (String (Zbyte 40) ?x)) with true. cbv iota.
    change (sdrop 1 (String (Zbyte 40) ?x)) with (sdrop 0 x). rewrite sdrop_0. change (")" +:+ ?x) with (String (Zbyte 41) x).
    assert (Hl : Forall (λ a, wf_arg false a ∧ read_back false a) (x :: cs)).
    { rewrite Forall_forall in IH, Hc |- *. intros y Hy. split; [by apply Hc|by apply IH, Hc]. }
    unfold arg_list. pose proof (Forall_inv Hl) as [Hx _].
    assert (∃ u, String.concat comma (map print_arg (x :: cs)) +:+ String (Zbyte 41) (sfx +:+ print_tail nm ix +:+ r) = print_arg x +:+ u) as [u Hu].
    { destruct cs as [|y cs]; [by eexists|]. cbn [map]. rewrite concat_cons, string_app_assoc by done. by eexists. }
    rewrite Hu. destruct (print_skip false x u Hx) as [-> ->]. rewrite <-Hu. cbv zeta.
    rewrite arg_loop_print; [|done|done|].
    + cbn [pbind]. change (consume 41 (String (Zbyte 41) ?x)) with (Some x). cbn match.
      rewrite (suffix_print sfx _ Hs (tail_stops nm ix r Hr)). cbn [pbind]. by rewrite arg_tail_print.
    + revert Hn. cbn [print_arg]. change (sdrop 5 ("tuple" +:+ sfx)) with (sdrop 0 sfx). rewrite sdrop_0, !string_app_assoc.
      change ("(" +:+ ?x) with (String (Zbyte 40) x). change (")" +:+ ?x) with (String (Zbyte 41) x). cbn [String.length]. lia.
Qed.

Lemma argList_print b l n r :
  Forall (wf_arg b) l → (2 * String.length (String.concat comma (map print_arg l) +:+ String (Zbyte 41) r) + 2 ≤ n)%nat →
  argList n b (String.concat comma (map print_arg l) +:+ String (Zbyte 41) r) = POk (l, existsb g_Indexed l) (String (Zbyte 41) r).
Proof.
  intros Hl Hn. unfold argList, arg_list. destruct l as [|x l]; [done|]. pose proof (Forall_inv Hl) as Hx.
  assert (∃ u, String.concat comma (map print_arg (x :: l)) +:+ String (Zbyte 41) r = print_arg x +:+ u) as [u Hu].
  { destruct l as [|y l]; [by eexists|]. cbn [map]. rewrite concat_cons, string_app_assoc by done. by eexists. }
  rewrite Hu. destruct (print_skip b x u Hx) as [-> ->]. rewrite <-Hu. cbv zeta. apply arg_loop_print; [done| |done].
  eapply Forall_impl; [exact Hl|]. intros a Ha. split; [done|by apply arg_print].
Qed.

Lemma print_args_text l r :
  print_args l +:+ r = String (Zbyte 40) (String.concat comma (map print_arg l) +:+ String (Zbyte 41) r).
Proof. unfold print_args. rewrite !string_app_assoc. reflexivity. Qed.

Lemma not_indexed l : Forall (wf_arg false) l → existsb g_Indexed l = false.
Proof.
  induction 1 as [|a l Ha Hl IH]; [done|]. cbn [existsb]. rewrite IH, orb_false_r.
  inversion Ha as [b n t ix _ _ H|b n sfx cs ix _ _ _ _ H]; subst; destruct ix; (done || by specialize (H eq_refl)).
Qed.

Section Signatures.
Context {UT : UnicodeTables}.

Lemma print_sig_trim name inputs outputs : is_word name = true →
  TrimSpace (print_sig name inputs outputs) = print_sig name inputs outputs.
Proof.
  intros Hn. destruct name as [|c name]; [done|]. unfold is_word in Hn. cbn [word_of] in Hn. apply andb_true_iff in Hn as [Hc _].
  assert (Hv : visible c = true).
  { revert Hc. unfold id_start, isAlpha, visible, is_ascii_byte, is_space. intros H. bool_prop; apply andb_true_iff; split;
      try (apply negb_true_iff, orb_false_iff; split; [apply andb_false_iff|]); lia. }
  assert (Hend : ∃ u, print_sig (String c name) inputs outputs = String c (u +:+ String (Zbyte 41) "")).
  { unfold print_sig, print_args. rewrite string_app_cons. destruct outputs as [l|].
    - exists (name +:+ ("(" +:+ String.concat comma (map print_arg inputs) +:+ ")") +:+ "(" +:+ String.concat comma (map print_arg l)).
      by rewrite !string_app_assoc.
    - exists (name +:+ "(" +:+ String.concat comma (map print_arg inputs)). rewrite string_app_nil_r, !string_app_assoc. done. }
  destruct Hend as [u ->]. by apply TrimSpace_wrap.
Qed.

Lemma parse_outputs_print fuel l :
  Forall (wf_arg false) l → (2 * String.length (print_args l) + 2 ≤ fuel)%nat →
  parse_outputs fuel (print_args l) = POk (l, true) "".
Proof.
  intros Hl. rewrite <-(string_app_nil_r (print_args l)), print_args_text. intros Hf. unfold parse_outputs.
  change (skipSpace (String (Zbyte 40) ?x)) with (String (Zbyte 40) x). cbv zeta.
  change (peek_is 40 (String (Zbyte 40) ?x)) with true. cbv iota. change (sdrop 1 (String (Zbyte 40) ?x)) with (sdrop 0 x).
  rewrite sdrop_0, argList_print by (try done; cbn [String.length] in Hf; lia). cbn [pbind]. by rewrite (not_indexed l Hl).
Qed.

(** C37: A signature that is printed in the grammar of inline signatures (a name,
    inputs with nested tuples, array suffixes, parameter names and [indexed], and
    optional outputs) is parsed back: the same name and arguments, with the
    unnamed ones given their positional names. *)
Theorem signature_read_back name inputs outputs :
  is_word name = true → Forall (wf_arg true) inputs → Forall (wf_arg false) (default [] outputs) →
  parseSignature (print_sig name inputs outputs) =
    POk {| sg_name := name; sg_inputs := nameArgs inputs "arg"; sg_outputs := nameArgs (default [] outputs) "ret";
           sg_hasOutputs := bool_decide (outputs ≠ None); sg_anyIndexed := existsb g_Indexed inputs |} "".
Proof.
  intros Hn Hi Ho. unfold parseSignature. rewrite print_sig_trim by done. cbv zeta.
  assert (Hf : (2 * String.length (print_sig name inputs outputs) + 2 ≤ sig_fuel (print_sig name inputs outputs))%nat) by (unfold sig_fuel; lia).
  revert Hf. generalize (sig_fuel (print_sig name inputs outputs)). intros fuel Hf. unfold print_sig.
  destruct name as [|c name]; [done|]. pose proof Hn as Hn'. unfold is_word in Hn. cbn [word_of] in Hn.
  apply andb_true_iff in Hn as [Hc Hn]. unfold identifier. rewrite string_app_cons. cbn [skipSpace]. rewrite (id_space c Hc), Hc.
  cbn [negb]. rewrite print_args_text, take_while_app by done. cbn [pbind].
  change (consume 40 (String (Zbyte 40) ?x)) with (Some x). cbn match.
  assert (Hlen : (String.length (String.concat comma (map print_arg inputs) +:+
    String (Zbyte 41) (match outputs with Some l => print_args l | None => "" end)) ≤ String.length (print_sig (String c name) inputs outputs))%nat).
  { unfold print_sig. rewrite print_args_text. rewrite (string_length_app (String c name)). cbn [String.length]. lia. }
  rewrite argList_print by (try done; lia). cbn [pbind].
  change (consume 41 (String (Zbyte 41) ?x)) with (Some x). cbn match. destruct outputs as [l|]; cbn [default] in *.
  - rewrite parse_outputs_print; [done|done|]. rewrite string_length_app in Hlen. cbn [String.length] in Hlen. lia.
  - done.
Qed.

(** The signature parser ends on every text: the fuel, linear in the length of
    the text, is never used up by its loops and its recursion into tuples. *)
Theorem signature_parse_ends sig : parseSignature sig ≠ PFuel.
Proof.
  unfold parseSignature. cbv zeta. generalize (TrimSpace sig). intros s. unfold identifier.
  pose proof (skipSpace_length s) as Hs. destruct (skipSpace s) as [|c r]; [done|]. destruct (id_start c); [|done]. cbn [negb].
  pose proof (take_while_length id_byte r) as Ht. destruct (take_while id_byte r) as [t rest]. cbn [snd pbind String.length] in *.
  destruct (consume 40 rest) as [u|] eqn:Eu; [|done]. apply consume_length in Eu.
  pose proof (argList_fits (sig_fuel s) true u ltac:(unfold sig_fuel; lia)) as Ha.
  destruct (argList (sig_fuel s) true u) as [|m|[ins ix] v]; [done|done|]. cbn [fits pbind] in *.
  destruct (consume 41 v) as [w|] eqn:Ew; [|done]. apply consume_length in Ew.
  assert (Hp : parse_outputs (sig_fuel s) w ≠ PFuel).
  { unfold parse_outputs. cbv zeta. pose proof (skipSpace_length w). destruct (peek_is 40 (skipSpace w)); [|done].
    pose proof (sdrop1_length (skipSpace w)).
    pose proof (argList_fits (sig_fuel s) false (sdrop 1 (skipSpace w)) ltac:(unfold sig_fuel; lia)) as Hb.
    destruct (argList _ _ _) as [|m|[outs ox] x]; [done|done|]. cbn [pbind]. destruct ox; [done|]. by destruct (consume 41 x). }
  destruct (parse_outputs _ _) as [|m|[outs ho] x]; [done|done|]. cbn [pbind]. by destruct (bool_decide _).
Qed.

(** two arguments can get one name: a parameter written [arg1] before an unnamed one *)
Lemma positional_name_taken t u :
  map g_Name (nameArgs [mkArg "arg1" t t [] false; mkArg "" u u [] false] "arg") = ["arg1"; "arg1"].
Proof. reflexivity. Qed.
End Signatures.

Section Witnesses.
#[local] Existing Instance ascii_tables.

Definition staked_inputs : list abiJSONArg :=
  [mkArg "who" "address" "address" [] true;
   mkArg "" "tuple[2]" "tuple[2]" [mkArg "" "uint256" "uint256" [] false; mkArg "ok" "bool[]" "bool[]" [] false] false].

Lemma signature_read_back_witness :
  parseSignature "Staked(address indexed who,(uint256,bool[] ok)[2])(int8)" =
    POk {| sg_name := "Staked"; sg_inputs := nameArgs staked_inputs "arg";
           sg_outputs := nameArgs [mkArg "" "int8" "int8" [] false] "ret";
           sg_hasOutputs := true; sg_anyIndexed := true |} "".
Proof.
  assert (Ht : ∀ base ds, word_of isAlpha type_byte base = true → Forall (λ d, string_forallb isDigit d = true) ds → is_type (base +:+ brackets ds)).
  { intros base ds H1 H2. exists base, (brackets ds). split_and!; [done|done|by exists ds]. }
  apply (signature_read_back "Staked" staked_inputs (Some [mkArg "" "int8" "int8" [] false])); [reflexivity| |].
  - apply Forall_cons_2; [|apply Forall_cons_2; [|by constructor]].
    + apply wf_plain; [by apply (Ht "address" []); [|constructor]|by right|done].
    + apply (wf_tuple true "" "[2]"); [by exists ["2"]; repeat constructor|done| |by left|done].
      apply Forall_cons_2; [|apply Forall_cons_2; [|by constructor]].
      * apply wf_plain; [by apply (Ht "uint256" []); [|constructor]|by left|done].
      * apply wf_plain; [by apply (Ht "bool" [""]); [|repeat constructor]|by right|done].
  - apply Forall_cons_2; [|by constructor]. apply wf_plain; [by apply (Ht "int8" []); [|constructor]|by left|done].
Defined.
End Witnesses.
