(* ===== verification/AbiCodec.v ===== *)
(** * The ABI codec: [internal/abi/abi.go]

    [ParseJSON] and [ParseSig], call data and event topics, and the text a decoded
    value is shown as.  go-ethereum's encoder and decoder are the class [AbiLib];
    what a theorem needs of them is stated where it is used. *)

From S2P Require Import Prelude GoStrings Decimal HexBytes Ethunit Encodings Json PolicyTypes Domain Refs Coerce CoerceProps AbiSig.

Local Open Scope string_scope.
Local Open Scope Z_scope.
Local Open Scope list_scope.
Local Open Scope go_scope.

(** ** encoding/json's writer *)

Definition u_escape (b : Z) (rest : string) : string :=
  "\u00" +:+ String (digit_char (b / 16)) (String (digit_char (b mod 16)) rest).

(** an ASCII byte of a string, with the HTML escapes *)
Definition std_byte (c : Ascii.ascii) (rest : string) : string :=
  let b := byteZ c in
  if (b =? 34) || (b =? 92) then esc b rest
  else if b =? 8 then esc 98 rest
  else if b =? 12 then esc 102 rest
  else if b =? 10 then esc 110 rest
  else if b =? 13 then esc 114 rest
  else if b =? 9 then esc 116 rest
  else if (b <? 32) || (b =? 60) || (b =? 62) || (b =? 38) then u_escape b rest
  else String c rest.

(** the text of a string: a byte that starts no rune is written as its escape,
    and so are U+2028 and U+2029 *)
Fixpoint std_escape (s : string) : string :=
  match s with
  | "" => ""
  | String a r =>
      if is_ascii_byte a then std_byte a (std_escape r) else
      match r with
      | String b r2 =>
          if two a b then String a (String b (std_escape r2)) else
          match r2 with
          | String c r3 =>
              if three a b c then
                if (byteZ a =? 226) && (byteZ b =? 128) && ((byteZ c =? 168) || (byteZ c =? 169))
                then "\u202" +:+ String (digit_char (byteZ c - 160)) (std_escape r3)
                else String a (String b (String c (std_escape r3)))
              else
              match r3 with
              | String d r4 =>
                  if four a b c d then String a (String b (String c (String d (std_escape r4))))
                  else "\ufffd" +:+ std_escape r
              | "" => "\ufffd" +:+ std_escape r
              end
          | "" => "\ufffd" +:+ std_escape r
          end
      | "" => "\ufffd" +:+ std_escape r
      end
  end.

Definition std_string (s : string) : string := dquote +:+ std_escape s +:+ dquote.

(** [json.Marshal] of a tree *)
Fixpoint Marshal (j : json) : string :=
  match j with
  | JNull => "null"
  | JBool b => if b then "true" else "false"
  | JNum lit => lit
  | JStr s => std_string s
  | JArr l => "[" +:+ String.concat comma (map Marshal l) +:+ "]"
  | JObj ms => "{" +:+ String.concat comma (map (λ m, std_string m.1 +:+ ":" +:+ Marshal m.2) ms) +:+ "}"
  end.

(** ** go-ethereum's codec *)

Class AbiLib := {
  abi_JSON : string → res string ABI;                                  (* gethabi.JSON *)
  abi_Pack : ABI → string → list value → res string string;            (* ABI.Pack *)
  Unpack : list Argument → string → res string (list value);           (* Arguments.Unpack *)
  MethodById : ABI → string → option Method;                           (* ABI.MethodById *)
  MakeTopics : list (list value) → res string (list (list Hash));
  UnpackIntoMap : list Argument → string → res string (gmap string value);
  ParseTopicsIntoMap : list Argument → list Hash → res string (gmap string value);
}.

(** ** Errors *)

Definition errBadABI (cause : string) : error := New "usage.bad_abi" ("invalid contract ABI JSON: " +:+ cause).
Definition errBadSig (sig cause : string) : error :=
  New "usage.bad_sig" ("invalid signature " +:+ go_quote sig +:+ ": " +:+ cause).
Definition errNoOutputs (method : string) : error :=
  New "usage.no_outputs" ("method " +:+ go_quote method +:+
    " declares no return values; `call` needs return types (use --sig " +:+ dquote +:+ method +:+ "(…)(outputs)" +:+ dquote +:+ ")").
Definition errUnknownSelector (sel : string) : error :=
  New "usage.unknown_selector" ("calldata selector " +:+ sel +:+ " is not in the ABI").
Definition errBadCalldata (msg : string) : error := New "usage.bad_calldata" ("invalid calldata: " +:+ msg).

(** ** The document [ParseSig] compiles *)

Definition omit_empty (k v : string) : list (string * json) := if bool_decide (v = "") then [] else [(k, JStr v)].

(** abiJSONArg *)
Fixpoint arg_json (a : abiJSONArg) : json :=
  let 'mkArg n t it cs ix := a in
  JObj ([("name", JStr n); ("type", JStr t)] ++ omit_empty "internalType" it ++
        match cs with [] => [] | _ => [("components", JArr (map arg_json cs))] end ++
        (if ix then [("indexed", JBool true)] else [])).

(** a slice: a nil one is null *)
Definition args_json (l : list abiJSONArg) : json := match l with [] => JNull | _ => JArr (map arg_json l) end.

Record abiJSONEntry := mkEntry {
  y_Type : string; y_Name : string; y_Inputs : list abiJSONArg; y_Outputs : list abiJSONArg; y_StateMutability : string }.

Definition entry_json (e : abiJSONEntry) : json :=
  JObj ([("type", JStr (y_Type e)); ("name", JStr (y_Name e)); ("inputs", args_json (y_Inputs e))] ++
        match y_Outputs e with [] => [] | l => [("outputs", JArr (map arg_json l))] end ++
        omit_empty "stateMutability" (y_StateMutability e)).

(** a name that begins with an upper-case letter *)
Definition upper_initial (s : string) : bool :=
  match s with String c _ => (65 <=? byteZ c) && (byteZ c <=? 90) | "" => false end.

(** the one entry of a parsed signature *)
Definition sig_entry (sg : Signature) (isEvent : bool) : abiJSONEntry :=
  if isEvent
  then {| y_Type := "event"; y_Name := sg_name sg; y_Inputs := sg_inputs sg; y_Outputs := []; y_StateMutability := "" |}
  else {| y_Type := "function"; y_Name := sg_name sg; y_Inputs := sg_inputs sg;
          y_Outputs := if sg_hasOutputs sg then sg_outputs sg else []; y_StateMutability := "nonpayable" |}.

(** a decoded argument: its name, its type and its value as text *)
Record DecodedValue := mkDecoded { dv_Name : string; dv_Type : string; dv_Value : string }.

(** ** Values as text *)

(** what the reflection helper sees of a value *)
Inductive reflectView :=
| kindOther
| kindFixedBytes (bytes : string)
| kindSliceOrArray (elems : list value)
| kindStruct (elems : list value).

(** reflectValueOf: an array of uint8 is bytes, and so are addresses and hashes;
    a big number is a pointer to a struct without exported fields *)
Definition reflectValueOf (v : value) : reflectView :=
  match v with
  | VArray e l => if bool_decide (e = GUint 8) then kindFixedBytes (bytes_of l) else kindSliceOrArray l
  | VAddress a => kindFixedBytes (be_bytes 20 a)
  | VHash h => kindFixedBytes (be_bytes 32 h)
  | VSlice _ l => kindSliceOrArray l
  | VStruct l => kindStruct l
  | VBig _ => kindStruct []
  | VUint _ _ | VInt _ _ | VBool _ | VString _ => kindOther
  end.

(** [%v] of the values that reach it *)
Definition sprint (v : value) : string :=
  match v with VUint _ z | VInt _ z | VBig z => z_string z | VBool b => if b then "true" else "false" | VString s => s | _ => "" end.

Section Format.
Context {GC : GethCommon}.

(** normalizeForJSON, with normalizeReflect and reflectValueOf: a [[]byte] is a
    slice of uint8 and a [[n]byte] an array of uint8, whatever their ABI type *)
Fixpoint normalizeForJSON (v : value) : json :=
  match v with
  | VBig z | VUint _ z | VInt _ z => JStr (z_string z)
  | VAddress a => JStr (Hex a)
  | VHash h => JStr (HashHex h)
  | VBool b => JBool b
  | VString s => JStr s
  | VSlice e l => if bool_decide (e = GUint 8) then JStr (hexBytes (bytes_of l)) else JArr (map normalizeForJSON l)
  | VArray e l => if bool_decide (e = GUint 8) then JStr (hexBytes (bytes_of l)) else JArr (map normalizeForJSON l)
  | VStruct l => JArr (map normalizeForJSON l)
  end.

(** normalizeReflect *)
Definition normalizeReflect (v : value) : json :=
  match reflectValueOf v with
  | kindFixedBytes b => JStr (hexBytes b)
  | kindSliceOrArray l | kindStruct l => JArr (map normalizeForJSON l)
  | kindOther => JStr (sprint v)
  end.

(** the recursion is that of the code: the type switch, then the reflection tail *)
Lemma normalizeForJSON_switch v :
  normalizeForJSON v =
  match v with
  | VBig z => JStr (z_string z)
  | VAddress a => JStr (Hex a)
  | VHash h => JStr (HashHex h)
  | VBool b => JBool b
  | VString s => JStr s
  | VSlice e l => if bool_decide (e = GUint 8) then JStr (hexBytes (bytes_of l)) else normalizeReflect v
  | _ => normalizeReflect v
  end.
Proof. destruct v; try done. unfold normalizeReflect. cbn. by destruct (bool_decide _). Qed.

Definition formatComposite (v : value) : string := Marshal (normalizeForJSON v).

(** formatValue; [None] is nil *)
Definition formatValue (v : option value) : string :=
  match v with
  | None => ""
  | Some (VBig z) => z_string z
  | Some (VAddress a) => Hex a
  | Some (VHash h) => HashHex h
  | Some (VBool b) => if b then "true" else "false"
  | Some (VString s) => s
  | Some (VSlice e l) => if bool_decide (e = GUint 8) then hexBytes (bytes_of l) else formatComposite (VSlice e l)
  | Some v => formatComposite v
  end.
End Format.

(** ** The codec *)

Section Codec.
Context {UT : UnicodeTables} {GC : GethCommon} {AT : AbiTypes} {AL : AbiLib}.

Definition ParseJSON (abiJSON : string) : res error ABI :=
  if bool_decide (TrimSpace abiJSON = "") then Err (errBadABI "empty ABI document")
  else match abi_JSON abiJSON with
       | Err m => Err (errBadABI m)
       | Ok parsed =>
           if bool_decide (Methods parsed = ∅) && bool_decide (Events parsed = ∅)
           then Err (errBadABI "ABI declares no methods or events") else Ok parsed
       end.

(** ParseSig; the parser does not run out of fuel *)
Definition ParseSig (sig : string) : res error (ABI * string * bool) :=
  match parseSignature sig with
  | PFuel => Err (errBadSig sig "")
  | PErr m => Err (errBadSig sig m)
  | POk sg _ =>
      let isEvent := sg_anyIndexed sg || upper_initial (sg_name sg) in
      if isEvent && sg_hasOutputs sg then Err (errBadSig sig "an event signature must not declare outputs")
      else match abi_JSON (Marshal (JArr [entry_json (sig_entry sg isEvent)])) with
           | Err m => Err (errBadSig sig m)
           | Ok a => Ok (a, sg_name sg, isEvent)
           end
  end.

Definition PackCall (parsed : ABI) (method : string) (coercedArgs : list value) : res error string :=
  match Methods parsed !! method with
  | None => Err (errUnknownMethod method)
  | Some m =>
      match abi_Pack parsed (m_Name m) coercedArgs with
      | Ok data => Ok data
      | Err e => Err (New "usage.bad_arg" ("failed to encode call args: " +:+ e))
      end
  end.

Fixpoint labelValues (args : list Argument) (vals : list value) : list DecodedValue :=
  match args with
  | [] => []
  | a :: args =>
      mkDecoded (a_Name a) (type_String (a_Type a)) (formatValue (head vals)) :: labelValues args (tail vals)
  end.

Definition UnpackReturns (parsed : ABI) (method ret : string) : res error (list DecodedValue) :=
  match Methods parsed !! method with
  | None => Err (errUnknownMethod method)
  | Some m =>
      match m_Outputs m with
      | [] => Err (errNoOutputs method)
      | outs =>
          match Unpack outs ret with
          | Err e => Err (New "tx.reverted" ("failed to decode return data: " +:+ e))
          | Ok vals => Ok (labelValues outs vals)
          end
      end
  end.

Definition UnpackCalldata (parsed : ABI) (calldata : string) : res error (string * string * list DecodedValue) :=
  if (String.length calldata <? 4)%nat then Err (errBadCalldata "shorter than the 4-byte selector")
  else
    let sel := stake 4 calldata in
    let selectorHex := hexBytes sel in
    match MethodById parsed sel with
    | None => Err (errUnknownSelector selectorHex)
    | Some m =>
        match Unpack (m_Inputs m) (sdrop 4 calldata) with
        | Err e => Err (New "usage.bad_calldata" ("failed to decode call args: " +:+ e))
        | Ok vals => Ok (m_Name m, selectorHex, labelValues (m_Inputs m) vals)
        end
    end.

(** ** Events *)

(** the filters, as the Go map is enumerated *)
Definition filter_value (filters : list (string * value)) (name : string) : option value :=
  snd <$> List.find (λ f, bool_decide (f.1 = name)) filters.

(** the check of one filter's name *)
Definition check_filter (event : string) (inputs : list Argument) (name : string) : option error :=
  match List.find (λ a, bool_decide (a_Name a = name)) inputs with
  | Some a =>
      if a_Indexed a then None
      else Some (New "usage.bad_arg" ("event arg " +:+ go_quote name +:+ " is not indexed and cannot be filtered"))
  | None => Some (New "usage.bad_arg" ("event " +:+ go_quote event +:+ " has no arg named " +:+ go_quote name))
  end.

Fixpoint check_filters (event : string) (inputs : list Argument) (filters : list (string * value)) : option error :=
  match filters with
  | [] => None
  | (name, _) :: r =>
      match check_filter event inputs name with Some e => Some e | None => check_filters event inputs r end
  end.

Definition indexed_args (inputs : list Argument) : list Argument := List.filter a_Indexed inputs.

(** the query handed to MakeTopics: the signature, then one position per indexed
    argument, empty where there is no filter *)
Definition topic_query (ev : Event) (filters : list (string * value)) : list (list value) :=
  [VHash (v_ID ev)] :: map (λ a, option_list (filter_value filters (a_Name a))) (indexed_args (v_Inputs ev)).

Definition PackEvent (parsed : ABI) (event : string) (filters : list (string * value))
    : res error (list (list Hash) * Hash) :=
  match Events parsed !! event with
  | None => Err (errUnknownMethod event)
  | Some ev =>
      match check_filters event (v_Inputs ev) filters with
      | Some e => Err e
      | None =>
          match MakeTopics (topic_query ev filters) with
          | Err e => Err (New "usage.bad_arg" ("failed to build event topic filter: " +:+ e))
          | Ok topics => Ok (topics, v_ID ev)
          end
      end
  end.

Definition UnpackLog (parsed : ABI) (event : string) (topics : list Hash) (data : string) : res error (list DecodedValue) :=
  match Events parsed !! event with
  | None => Err (errUnknownMethod event)
  | Some ev =>
      let nonIndexed := List.filter (λ a, negb (a_Indexed a)) (v_Inputs ev) in
      let indexed := indexed_args (v_Inputs ev) in
      let* dataVals :=
        match nonIndexed with
        | [] => Ok ∅
        | _ => match UnpackIntoMap (v_Inputs ev) data with
               | Ok m => Ok m
               | Err e => Err (New "usage.bad_calldata" ("failed to decode log data: " +:+ e))
               end
        end in
      let* indexedVals :=
        match indexed with
        | [] => Ok ∅
        | _ =>
            if (length topics <? 1 + length indexed)%nat
            then Err (New "usage.bad_calldata" "log has fewer topics than the event declares indexed args")
            else match ParseTopicsIntoMap indexed (take (length indexed) (drop 1 topics)) with
                 | Ok m => Ok m
                 | Err e => Err (New "usage.bad_calldata" ("failed to decode indexed log args: " +:+ e))
                 end
        end in
      Ok (map (λ a, mkDecoded (a_Name a) (type_String (a_Type a))
                      (formatValue ((if a_Indexed a then indexedVals else dataVals) !! a_Name a))) (v_Inputs ev))
  end.
End Codec.

(** ** Texts made of letters and digits *)

(** a letter, a digit or a minus: bytes that no escaping, trimming or splitting touches *)
Definition word_byte (c : Ascii.ascii) : bool := isAlpha c || isDigit c || (byteZ c =? 45).
Definition is_plain (s : string) : Prop := string_forallb word_byte s = true.

Lemma word_byte_range c : word_byte c = true →
  97 ≤ byteZ c ≤ 122 ∨ 65 ≤ byteZ c ≤ 90 ∨ 48 ≤ byteZ c ≤ 57 ∨ byteZ c = 45.
Proof. unfold word_byte, isAlpha, isDigit. intros H. bool_prop; lia. Qed.

Lemma word_plain c : word_byte c = true → plain_byte c = true.
Proof.
  intros H%word_byte_range. unfold plain_byte, is_ascii_byte. apply andb_true_iff. split; [lia|].
  apply negb_true_iff, orb_false_iff. split; [apply andb_false_iff|]; lia.
Qed.

Lemma is_plain_trim `{UnicodeTables} s : is_plain s → TrimSpace s = s.
Proof.
  intros Hs. apply TrimSpace_plain. revert Hs. unfold is_plain. induction s as [|c s IH]; [done|]. cbn [string_forallb].
  intros [Hc Hs]%andb_true_iff. by rewrite (word_plain c Hc), IH.
Qed.

Lemma std_escape_plain s : is_plain s → std_escape s = s.
Proof.
  unfold is_plain. induction s as [|c s IH]; [done|]. cbn [string_forallb]. intros [Hc Hs]%andb_true_iff.
  apply word_byte_range in Hc. cbn [std_escape]. unfold is_ascii_byte. replace (byteZ c <? 128) with true by lia.
  rewrite (IH Hs). unfold std_byte. cbv zeta.
  replace ((byteZ c =? 34) || (byteZ c =? 92)) with false by (symmetry; apply orb_false_iff; lia).
  replace (byteZ c =? 8) with false by lia. replace (byteZ c =? 12) with false by lia.
  replace (byteZ c =? 10) with false by lia. replace (byteZ c =? 13) with false by lia. replace (byteZ c =? 9) with false by lia.
  by replace ((byteZ c <? 32) || (byteZ c =? 60) || (byteZ c =? 62) || (byteZ c =? 38)) with false
    by (symmetry; rewrite !orb_false_iff; lia).
Qed.

Lemma escape_quotes_plain s : is_plain s → escape_quotes s = s.
Proof.
  unfold is_plain. induction s as [|c s IH]; [done|]. cbn [string_forallb]. intros [Hc Hs]%andb_true_iff.
  apply word_byte_range in Hc. cbn [escape_quotes].
  replace ((byteZ c =? 34) || (byteZ c =? 92)) with false by (symmetry; apply orb_false_iff; lia). by rewrite IH.
Qed.

Lemma digit_char_word d : 0 ≤ d < 16 → word_byte (digit_char d) = true.
Proof.
  intros Hd. rewrite <-(Z2Nat.id d) by lia. assert (Hn : (Z.to_nat d < 16)%nat) by lia.
  revert Hn. generalize (Z.to_nat d). clear. intros n Hn. do 16 (destruct n as [|n]; [by vm_compute|]). lia.
Qed.

Lemma is_plain_app s t : is_plain s → is_plain t → is_plain (s +:+ t).
Proof. unfold is_plain. intros Hs Ht. by rewrite string_forallb_app, Hs, Ht. Qed.

Lemma z_string_plain n : is_plain (z_string n).
Proof.
  assert (H : ∀ m, 0 ≤ m → is_plain (nat_string 10 m)).
  { intros m Hm. pose proof (nat_string_digits m Hm) as Hd. revert Hd. generalize (nat_string 10 m). unfold is_plain.
    induction s as [|c s IH]; [done|]. cbn [string_forallb]. intros [Hc Hs]%andb_true_iff. rewrite (IH Hs), andb_true_r.
    unfold word_byte. change (isDigit c) with (is_digit c). by rewrite Hc, orb_true_r. }
  unfold z_string. destruct (Z.ltb_spec n 0); [|by apply H]. unfold is_plain. cbn [string_forallb].
  apply andb_true_iff. split; [done|]. apply H. lia.
Qed.

Lemma hexBytes_plain b : is_plain (hexBytes b).
Proof.
  apply is_plain_app; [done|]. unfold is_plain. induction b as [|c b IH]; [done|]. pose proof (byteZ_range c).
  cbn [hexEncode string_forallb]. rewrite !digit_char_word, IH by zlia. done.
Qed.

Lemma hex40_plain a : is_plain (hex40 a).
Proof.
  apply is_plain_app; [done|]. generalize 40%nat. intros w. revert a. induction w as [|w IH]; intros a; [done|].
  cbn [fixed_digits]. apply is_plain_app; [apply IH|]. unfold is_plain. cbn [string_forallb].
  by rewrite digit_char_word by (apply Z.mod_pos_bound; lia).
Qed.

Lemma word_byte_lower c : word_byte (lower_byte c) = true → word_byte c = true.
Proof.
  unfold lower_byte. destruct (is_upper c) eqn:E; [|done]. intros _. unfold is_upper in E.
  unfold word_byte, isAlpha. apply orb_true_iff. left. apply orb_true_iff. left. apply orb_true_iff. by right.
Qed.

Lemma Hex_plain `{GethCommon} a : is_plain (Hex a).
Proof.
  pose proof (hex40_plain a) as Hp. rewrite <-Hex_lower in Hp. revert Hp. generalize (Hex a). unfold is_plain.
  induction s as [|c s IH]; [done|]. cbn [string_map string_forallb]. intros [Hc Hs]%andb_true_iff.
  by rewrite (word_byte_lower c Hc), IH.
Qed.

(** ** Splitting a displayed array *)

Section Display.
Context {UT : UnicodeTables}.

(** a text the splitter copies whole, at any depth, outside quotes *)
Definition copied (e : string) : Prop := ∀ r es buf d, 0 ≤ d →
  split_loop (e +:+ r) (mkSplit es buf d false false) = split_loop r (mkSplit es (buf +:+ e) d false false).

Lemma copied_quoted s : is_plain s → copied (dquote +:+ s +:+ dquote).
Proof.
  intros Hs r es buf d _. rewrite <-(escape_quotes_plain s Hs) at 1. rewrite !string_app_assoc.
  unfold dquote at 1. rewrite string_app_cons, string_app_nil_l. cbn [split_loop].
  change (split_byte_step (Zbyte 34) ?st) with (Some (set_quote true false (write_byte (Zbyte 34) st))). cbn match.
  unfold set_quote, write_byte. cbn [sp_elems sp_buf sp_depth sp_inStr sp_esc]. rewrite split_loop_escaped.
  unfold dquote at 1. rewrite string_app_cons, string_app_nil_l. cbn [split_loop].
  change (split_byte_step (Zbyte 34) ?st) with (Some (set_quote false false (write_byte (Zbyte 34) st))). cbn match.
  unfold set_quote, write_byte. cbn [sp_elems sp_buf sp_depth sp_inStr sp_esc].
  rewrite (escape_quotes_plain s Hs), !string_app_assoc. done.
Qed.

Lemma step_word c es buf d : word_byte c = true →
  split_byte_step c (mkSplit es buf d false false) = Some (mkSplit es (buf +:+ String c "") d false false).
Proof.
  intros H%word_byte_range. unfold split_byte_step. cbv zeta. cbn [sp_inStr].
  replace (byteZ c =? 34) with false by lia. replace ((byteZ c =? 91) || (byteZ c =? 40)) with false by (symmetry; apply orb_false_iff; lia).
  replace ((byteZ c =? 93) || (byteZ c =? 41)) with false by (symmetry; apply orb_false_iff; lia).
  by replace (byteZ c =? 44) with false by lia.
Qed.

Lemma copied_plain s : is_plain s → copied s.
Proof.
  unfold is_plain. induction s as [|c s IH]; intros Hs r es buf d Hd; [by rewrite string_app_nil_l, string_app_nil_r|].
  cbn [string_forallb] in Hs. apply andb_true_iff in Hs as [Hc Hs]. rewrite string_app_cons. cbn [split_loop].
  rewrite (step_word c es buf d Hc), IH by done. by rewrite string_app_assoc.
Qed.

(** inside brackets a comma is copied too *)
Lemma copied_list l r es buf d : 0 < d → Forall copied l →
  split_loop (String.concat comma l +:+ r) (mkSplit es buf d false false) =
  split_loop r (mkSplit es (buf +:+ String.concat comma l) d false false).
Proof.
  intros Hd Hl. revert buf. induction Hl as [|x l Hx Hl IH]; intros buf; [by rewrite string_app_nil_l, string_app_nil_r|].
  destruct l as [|y l]; [cbn [String.concat]; apply Hx; lia|].
  change (String.concat comma (x :: y :: l)) with (x +:+ comma +:+ String.concat comma (y :: l)).
  rewrite !string_app_assoc, Hx by lia. unfold comma at 1. rewrite string_app_cons, string_app_nil_l. cbn [split_loop].
  assert (Hc : ∀ b, split_byte_step (Zbyte 44) (mkSplit es b d false false) = Some (mkSplit es (b +:+ comma) d false false)).
  { intros b. unfold split_byte_step. cbn. by replace (d =? 0) with false by lia. }
  rewrite Hc. cbn match. by rewrite IH, !string_app_assoc.
Qed.

Lemma copied_array l : Forall copied l → copied ("[" +:+ String.concat comma l +:+ "]").
Proof.
  intros Hl r es buf d Hd. rewrite !string_app_assoc. change ("[" +:+ ?x) with (String (Zbyte 91) x). cbn [split_loop].
  change (split_byte_step (Zbyte 91) ?st) with (Some (write_byte (Zbyte 91) (add_depth 1 st))). cbn match.
  unfold write_byte, add_depth. cbn [sp_elems sp_buf sp_depth sp_inStr sp_esc]. rewrite copied_list by (done || lia).
  change ("]" +:+ ?x) with (String (Zbyte 93) x). cbn [split_loop].
  assert (Hc : ∀ b, split_byte_step (Zbyte 93) (mkSplit es b (d + 1) false false) = Some (mkSplit es (b +:+ String (Zbyte 93) "") d false false)).
  { intros b. unfold split_byte_step. cbn. replace (d + 1 - 1 <? 0) with false by lia. unfold write_byte, add_depth. cbn.
    repeat f_equal. lia. }
  rewrite Hc. cbn match. rewrite !string_app_assoc. done.
Qed.

Lemma split_loop_elems l : ∀ e es, Forall (λ x, copied x ∧ TrimSpace x = x) (e :: l) →
  ∃ st, split_loop (String.concat comma (e :: l)) (mkSplit es "" 0 false false) = Some st ∧
        sp_inStr st = false ∧ sp_depth st = 0 ∧ sp_elems (end_elem st) = es ++ e :: l.
Proof.
  induction l as [|e' l IH]; intros e es Hl; pose proof (Forall_inv Hl) as [Hc Ht].
  - cbn [String.concat]. pose proof (Hc "" es "" 0 ltac:(done)) as H. rewrite string_app_nil_r in H. rewrite H.
    eexists. split; [done|]. cbn [end_elem sp_elems sp_buf sp_depth sp_inStr]. by rewrite string_app_nil_l, Ht.
  - destruct (IH e' (es ++ [e]) (Forall_inv_tail Hl)) as (st & H1 & H2 & H3 & H4). exists st.
    change (String.concat comma (e :: e' :: l)) with (e +:+ comma +:+ String.concat comma (e' :: l)).
    rewrite Hc by done. unfold comma at 1. rewrite string_app_cons, !string_app_nil_l. cbn [split_loop].
    change (split_byte_step (Zbyte 44) ?st) with (Some (end_elem st)). cbn match.
    unfold end_elem at 1. cbn [sp_elems sp_buf sp_depth sp_inStr sp_esc]. rewrite Ht, H1.
    split_and!; [done..|]. by rewrite H4, <-app_assoc.
Qed.

(** an element of a displayed array: copied, not trimmed, and visible *)
Definition shown (x : string) : Prop := copied x ∧ TrimSpace x = x ∧ ∃ c t, x = String c t ∧ visible c = true.

Lemma split_array l : Forall shown l →
  splitLiteral ("[" +:+ String.concat comma l +:+ "]") 91 93 = Ok (map (λ e, default e (unquote e)) l).
Proof.
  intros Hl. change ("[" +:+ String.concat comma l +:+ "]") with (String (Zbyte 91) (String.concat comma l +:+ String (Zbyte 93) "")).
  unfold splitLiteral. rewrite (TrimSpace_wrap (Zbyte 91) (Zbyte 93)), wrap_long, last_is_wrap, middle_wrap by done.
  change (first_is 91 (String (Zbyte 91) ?x)) with true. cbn [negb orb Z.eqb Pos.eqb].
  destruct l as [|e l]; [done|]. pose proof (Forall_inv Hl) as (_ & _ & c & t & Ee & Hv).
  assert (Hs : Forall (λ x, copied x ∧ TrimSpace x = x) (e :: l)) by (eapply Forall_impl; [exact Hl|]; intros x (? & ? & _); done).
  destruct (split_loop_elems l e [] Hs) as (st & -> & -> & -> & ->). cbn [Z.eqb negb].
  rewrite bool_decide_eq_false_2; [done|]. unfold visible in Hv. apply andb_true_iff in Hv as [H1 H2%negb_true_iff].
  assert (∃ u, String.concat comma (e :: l) = String c u) as [u ->]; [|by apply TrimSpace_visible].
  rewrite Ee. destruct l as [|y l]; by eexists.
Qed.

Lemma shown_quoted s : is_plain s → shown (dquote +:+ s +:+ dquote).
Proof.
  intros Hs. split_and!; [by apply copied_quoted| |by exists (Zbyte 34), (s +:+ dquote)].
  apply (TrimSpace_wrap (Zbyte 34) (Zbyte 34)); done.
Qed.

Lemma shown_array l : Forall shown l → shown ("[" +:+ String.concat comma l +:+ "]").
Proof.
  intros Hl. split_and!; [apply copied_array; eapply Forall_impl; [exact Hl|by intros x (? & _)]| |by eexists (Zbyte 91), _].
  apply (TrimSpace_wrap (Zbyte 91) (Zbyte 93)); done.
Qed.

Lemma shown_word s : is_plain s → s ≠ "" → shown s.
Proof.
  intros Hs Hne. split_and!; [by apply copied_plain|by apply is_plain_trim|]. destruct s as [|c s]; [done|].
  exists c, s. split; [done|]. unfold is_plain in Hs. cbn [string_forallb] in Hs. apply andb_true_iff in Hs as [Hc _].
  exact (word_plain c Hc).
Qed.
End Display.

(** ** Displayed values are arguments *)

Section ReadBack.
Context {UT : UnicodeTables} {GC : GethCommon} {AT : AbiTypes}.

(** an element type whose values are shown in a form the splitter reads *)
Fixpoint inner (t : Typ) : bool :=
  match t with
  | IntTy _ | UintTy _ | BoolTy | AddressTy | FixedBytesTy _ | BytesTy => true
  | SliceTy e | ArrayTy _ e => bool_decide (GetType e ≠ GUint 8) && inner e
  | _ => false
  end.

(** a type whose decoded values are shown as arguments of that type *)
Definition displayable (t : Typ) : bool :=
  match t with
  | IntTy _ | UintTy _ => bool_decide (GetType t = GBig)
  | BoolTy | AddressTy | StringTy | BytesTy => true
  | SliceTy _ | ArrayTy _ _ => inner t
  | _ => false
  end.

(** an element as the reader gets it *)
Definition element (v : value) : string := default (formatComposite v) (unquote (formatComposite v)).

Lemma std_string_plain s : is_plain s → std_string s = quote_elem s.
Proof. intros Hs. unfold std_string, quote_elem. by rewrite std_escape_plain, escape_quotes_plain. Qed.

(** a value shown as a string of letters and digits *)
Lemma element_plain v s : normalizeForJSON v = JStr s → is_plain s → shown (formatComposite v) ∧ element v = s.
Proof.
  intros Hv Hs. unfold element, formatComposite. rewrite Hv. cbn [Marshal]. rewrite (std_string_plain s Hs).
  split; [|by rewrite unquote_quote]. unfold quote_elem. rewrite (escape_quotes_plain s Hs). by apply shown_quoted.
Qed.

Lemma normalize_int g z : normalizeForJSON (int_repr g z) = JStr (z_string z).
Proof. by destruct g. Qed.

Lemma coerce_Hex {W} a i (c : coercer W) : valid_addr a → (coerce None AddressTy (Hex a) i c).1 = Ok (VAddress a).
Proof.
  intros Ha. cbn [coerce]. unfold coerceAddr. rewrite (is_plain_trim _ (Hex_plain a)).
  by rewrite IsHexAddress_Hex, HexToAddress_Hex.
Qed.

(** a displayed array read with a reader for its elements *)
Lemma coerceArray_display {W} t e g l i (c : coercer W) (f : string → CM W value) :
  match t with SliceTy e' => e' = e ∧ g = VSlice (GetType e) l
             | ArrayTy n e' => e' = e ∧ n = Z.of_nat (length l) ∧ g = VArray (GetType e) l | _ => False end →
  Forall (well_typed valid_addr e) l → Forall (λ v, shown (formatComposite v)) l → Forall (λ v, ∀ c, (f (element v) c).1 = Ok v) l →
  (coerceArray t f ("[" +:+ String.concat comma (map formatComposite l) +:+ "]") i c).1 = Ok g.
Proof.
  intros Ht Hl Hs Hf. unfold coerceArray. rewrite split_array by (rewrite Forall_map; exact Hs). rewrite map_map.
  change (map (λ x, default (formatComposite x) (unquote (formatComposite x))) l) with (map element l).
  cbn [as_bad_arg]. eapply bind_value; [done|]. intros c1. rewrite length_map.
  destruct t as [ | | | |e'|n e'| | | | | | | ]; try done.
  - destruct Ht as [-> ->]. rewrite GetType_slice. eapply bind_value; [by apply set_all_literals|done].
  - destruct Ht as (-> & -> & ->). rewrite Z.eqb_refl, GetType_array, Z.eqb_refl. cbn [negb].
    eapply bind_value; [by apply set_all_literals|done].
Qed.

Lemma unquote_array x : unquote ("[" +:+ x) = None.
Proof. unfold unquote. change ("[" +:+ x) with (String (Zbyte 91) x). cbn [first_is]. by rewrite orb_true_r. Qed.

Lemma format_array l : Marshal (JArr (map normalizeForJSON l)) = "[" +:+ String.concat comma (map formatComposite l) +:+ "]".
Proof. cbn [Marshal]. by rewrite map_map. Qed.

(** the elements of an array of an inner type *)
Definition element_read (t : Typ) : Prop := inner t = true → ∀ v, well_typed valid_addr t v →
  shown (formatComposite v) ∧ ∀ (i : Z) (c : coercer unit), (coerce None t (element v) i c).1 = Ok v.

Lemma array_read e : element_read e → bool_decide (GetType e ≠ GUint 8) && inner e = true → ∀ l i (c : coercer unit),
  Forall (well_typed valid_addr e) l →
  shown ("[" +:+ String.concat comma (map formatComposite l) +:+ "]") ∧
  Forall (λ v, shown (formatComposite v)) l ∧
  Forall (λ v, ∀ c : coercer unit, (coerce None e (element v) i c).1 = Ok v) l.
Proof.
  intros IH [_ Hi]%andb_true_iff l i c Hl.
  assert (Hs : Forall (λ v, shown (formatComposite v)) l) by (eapply Forall_impl; [exact Hl|]; intros v Hv; by apply IH).
  split_and!; [apply shown_array; by rewrite Forall_map|done|].
  eapply Forall_impl; [exact Hl|]. intros v Hv. apply IH; done.
Qed.

Lemma element_reads t : element_read t.
Proof.
  apply (Typ_tree_ind element_read); clear t.
  - intros n _ v Hv. pose proof Hv as (z & _ & ->).
    destruct (element_plain _ _ (normalize_int (int_gotype false n) z) (z_string_plain z)) as [Hs He]. split; [done|]. intros i c.
    rewrite He. cbn [coerce]. replace (z_string z) with (literal (IntTy n) (int_repr (int_gotype false n) z)) by (by destruct (int_gotype _ _)).
    by rewrite coerceInt_literal.
  - intros n _ v Hv. pose proof Hv as (z & _ & ->).
    destruct (element_plain _ _ (normalize_int (int_gotype true n) z) (z_string_plain z)) as [Hs He]. split; [done|]. intros i c.
    rewrite He. cbn [coerce]. replace (z_string z) with (literal (UintTy n) (int_repr (int_gotype true n) z)) by (by destruct (int_gotype _ _)).
    by rewrite coerceInt_literal.
  - intros []; try done; intros _ v Hv.
    + destruct Hv as [b ->]. split; [|by destruct b]. destruct b; by apply shown_word.
    + destruct Hv as (a & Ha & ->). destruct (element_plain (VAddress a) (Hex a) eq_refl (Hex_plain a)) as [Hs He].
      split; [done|]. intros i c. rewrite He. by apply coerce_Hex.
    + destruct Hv as (b & <- & ->). destruct (element_plain (fixed_value b) (hexBytes b)) as [Hs He]; [|apply hexBytes_plain|].
      { cbn [normalizeForJSON fixed_value]. by rewrite bytes_of_values. }
      split; [done|]. intros i c. rewrite He. cbn [coerce]. unfold coerceFixedBytes. rewrite parseHexBytes_hexBytes. cbn. by rewrite Z.eqb_refl.
    + destruct Hv as [b ->]. destruct (element_plain (bytes_value b) (hexBytes b)) as [Hs He]; [|apply hexBytes_plain|].
      { cbn [normalizeForJSON bytes_value]. by rewrite bytes_of_values. }
      split; [done|]. intros i c. rewrite He. cbn [coerce]. unfold coerceDynBytes. by rewrite parseHexBytes_hexBytes.
  - intros e IH Hi v (l & -> & Hl). cbn [inner] in Hi. pose proof Hi as [Hg%bool_decide_eq_true _]%andb_true_iff.
    unfold element, formatComposite. cbn [normalizeForJSON]. rewrite bool_decide_eq_false_2, format_array, unquote_array by done.
    split; [by apply (array_read e IH Hi l 0 (mkCoercer no_prov tt))|]. intros i c.
    destruct (array_read e IH Hi l i c Hl) as (_ & H1 & H2). cbn [default coerce]. by eapply coerceArray_display.
  - intros n e IH Hi v (l & -> & <- & Hl). cbn [inner] in Hi. pose proof Hi as [Hg%bool_decide_eq_true _]%andb_true_iff.
    unfold element, formatComposite. cbn [normalizeForJSON]. rewrite bool_decide_eq_false_2, format_array, unquote_array by done.
    split; [by apply (array_read e IH Hi l 0 (mkCoercer no_prov tt))|]. intros i c.
    destruct (array_read e IH Hi l i c Hl) as (_ & H1 & H2). cbn [default coerce]. by eapply coerceArray_display.
  - intros ts ns _ Hi. done.
Qed.
End ReadBack.

(** ** Properties *)

Section Properties.
Context {UT : UnicodeTables} {GC : GethCommon} {AT : AbiTypes}.

(** A decoded value of a displayable type (integers held as big numbers,
    booleans, addresses, strings, byte strings, and arrays to any depth of
    integers, booleans, addresses and byte strings) is shown as a text that,
    given back as an argument of that type, is read as the same value. *)
Theorem displayed_value_read_back t v :
  displayable t = true → well_typed valid_addr t v → ParseLiteral t (formatValue (Some v)) = Ok v.
Proof.
  intros Hd Hv. unfold ParseLiteral. destruct t as [n|n| | |e|n e|ts ns| |n| | | |]; try done.
  - pose proof Hv as (z & _ & ->). cbn [displayable] in Hd. rewrite GetType_int in Hd. apply bool_decide_eq_true in Hd.
    rewrite Hd in *. cbn [int_repr formatValue coerce]. change (z_string z) with (literal (IntTy n) (VBig z)). by rewrite coerceInt_literal.
  - pose proof Hv as (z & _ & ->). cbn [displayable] in Hd. rewrite GetType_uint in Hd. apply bool_decide_eq_true in Hd.
    rewrite Hd in *. cbn [int_repr formatValue coerce]. change (z_string z) with (literal (UintTy n) (VBig z)). by rewrite coerceInt_literal.
  - destruct Hv as [b ->]. by destruct b.
  - by destruct Hv as [s ->].
  - pose proof (element_reads (SliceTy e) Hd v Hv) as [_ Hr]. destruct Hv as (l & -> & Hl). cbn [displayable inner] in Hd.
    apply andb_true_iff in Hd as [Hg%bool_decide_eq_true _]. cbn [formatValue]. rewrite bool_decide_eq_false_2 by done.
    specialize (Hr 0 (mkCoercer no_prov tt)). revert Hr. unfold element, formatComposite. cbn [normalizeForJSON].
    rewrite bool_decide_eq_false_2, format_array, unquote_array by done. done.
  - pose proof (element_reads (ArrayTy n e) Hd v Hv) as [_ Hr]. destruct Hv as (l & -> & <- & Hl). cbn [displayable inner] in Hd.
    apply andb_true_iff in Hd as [Hg%bool_decide_eq_true _]. cbn [formatValue].
    specialize (Hr 0 (mkCoercer no_prov tt)). revert Hr. unfold element, formatComposite. cbn [normalizeForJSON].
    rewrite bool_decide_eq_false_2, format_array, unquote_array by done. done.
  - destruct Hv as (a & Ha & ->). by apply coerce_Hex.
  - destruct Hv as [b ->]. cbn [formatValue bytes_value coerce]. rewrite bool_decide_eq_true_2, bytes_of_values by done.
    unfold coerceDynBytes. by rewrite parseHexBytes_hexBytes.
Qed.

Lemma quoted_no_number z : parseBigInt (quote_elem (z_string z)) = None.
Proof.
  unfold parseBigInt. rewrite TrimSpace_quoted. unfold quote_elem. change (dquote +:+ ?x) with (String (Zbyte 34) x).
  rewrite bool_decide_eq_false_2 by done.
  change (HasPrefix (String (Zbyte 34) ?x) "-") with false. cbv iota beta.
  change (HasPrefix (String (Zbyte 34) ?x) "0x" || HasPrefix (String (Zbyte 34) ?x) "0X") with false. cbv iota. done.
Qed.

(** A decoded integer of a machine width (8, 16, 32 or 64 bits) is shown with
    the quotes of a JSON string around it, unlike every other integer; the text is
    no number, so it is refused as an argument of its own type. *)
Theorem sized_integer_shown_quoted t v :
  match t with IntTy _ | UintTy _ => GetType t ≠ GBig | _ => False end → well_typed valid_addr t v →
  ∃ z, v = int_repr (GetType t) z ∧ formatValue (Some v) = dquote +:+ z_string z +:+ dquote ∧
       is_ok (ParseLiteral t (formatValue (Some v))) = false.
Proof.
  intros Ht Hv.
  assert (∃ z, v = int_repr (GetType t) z ∧ (∀ i, coerceInt t (quote_elem (z_string z)) i = Err (errBadArg i (type_String t)
    (go_quote (quote_elem (z_string z)) +:+ " is not a decimal or 0x-hex integer")))) as (z & -> & He).
  { destruct t; try done; destruct Hv as (z & _ & ->); exists z; rewrite ?GetType_int, ?GetType_uint;
      (split; [done|]); intros i; unfold coerceInt; by rewrite quoted_no_number. }
  exists z. assert (Hf : formatValue (Some (int_repr (GetType t) z)) = quote_elem (z_string z)).
  { assert (formatValue (Some (int_repr (GetType t) z)) = formatComposite (int_repr (GetType t) z)) as ->.
    { destruct t; try done; rewrite ?GetType_int, ?GetType_uint in *;
        (destruct (int_gotype _ _) eqn:E; [done|done|done|..]; unfold int_gotype in E; destruct (_ || _); discriminate). }
    unfold formatComposite. rewrite normalize_int. cbn [Marshal]. apply std_string_plain, z_string_plain. }
  split; [done|]. rewrite Hf. split; [unfold quote_elem; by rewrite (escape_quotes_plain _ (z_string_plain z))|].
  unfold ParseLiteral. destruct t; try done; cbn [coerce]; by rewrite He.
Qed.
End Properties.

Section Calls.
Context {UT : UnicodeTables} {GC : GethCommon} {AT : AbiTypes} {AL : AbiLib}.

(** what [Pack] and [Unpack] promise for a method: call data is the selector and
    the encoded arguments, and decoding undoes encoding *)
Definition packs (P : Address → Prop) (parsed : ABI) (m : Method) : Prop :=
  String.length (m_ID m) = 4%nat ∧
  ∀ vs data, Forall2 (λ a v, well_typed P (a_Type a) v) (m_Inputs m) vs → abi_Pack parsed (m_Name m) vs = Ok data →
    ∃ enc, data = m_ID m +:+ enc ∧ Unpack (m_Inputs m) enc = Ok vs.

(** what a reader is shown of an argument: its name, its type, and a text that
    says the value (the text of an integer of a machine width is in quotes) *)
Definition shows (a : Argument) (v : value) (row : DecodedValue) : Prop :=
  dv_Name row = a_Name a ∧ dv_Type row = type_String (a_Type a) ∧
  (displayable (a_Type a) = true → ParseLiteral (a_Type a) (dv_Value row) = Ok v) ∧
  (match a_Type a with IntTy _ | UintTy _ => GetType (a_Type a) ≠ GBig | _ => False end →
   ∃ z, v = int_repr (GetType (a_Type a)) z ∧ dv_Value row = dquote +:+ z_string z +:+ dquote).

Lemma labelled_rows inputs vs :
  Forall2 (λ a v, well_typed valid_addr (a_Type a) v) inputs vs → Forall3 shows inputs vs (labelValues inputs vs).
Proof.
  induction 1 as [|a v inputs vs Hv _ IH]; [by constructor|]. cbn [labelValues head tail]. constructor; [|done].
  split_and!; [done|done|by intros Hd; apply displayed_value_read_back|].
  intros Ht. destruct (sized_integer_shown_quoted _ _ Ht Hv) as (z & H1 & H2 & _). by exists z.
Qed.

(** C26: Call data built from argument texts is decoded back to the call, where
    go-ethereum's decoding undoes its encoding for the method, its selector is
    found to be that method's, and the names in it resolve to addresses of 160
    bits: the method it names, its
    selector, and one row for each argument, in order, with the name and the
    type the ABI declares and a text that says the value the argument was read
    as: for the displayable types (big integers, booleans, addresses, strings,
    byte strings, and arrays to any depth of integers, booleans, addresses and
    byte strings) the text reads back as exactly that value, and an integer of a
    machine width is its decimal in quotes. *)
Theorem call_decoded_back {W} (resolve : option (AddrResolver W)) parsed method m args w vs ps data :
  resolver_ok valid_addr resolve → Methods parsed !! method = Some m → packs valid_addr parsed m →
  MethodById parsed (m_ID m) = Some m →
  (CoerceArgs resolve parsed method args w).1 = Ok (vs, ps) → PackCall parsed method vs = Ok data →
  ∃ rows, UnpackCalldata parsed data = Ok (m_Name m, hexBytes (m_ID m), rows) ∧
    length args = length rows ∧ Forall3 shows (m_Inputs m) vs rows.
Proof.
  intros Hres Hm [Hlen Hpack] Hid Hc Hp.
  assert (Hty : length args = length (m_Inputs m) ∧ Forall2 (λ a v, well_typed valid_addr (a_Type a) v) (m_Inputs m) vs).
  { revert Hc. unfold CoerceArgs. rewrite Hm. destruct (Nat.eqb_spec (length args) (length (m_Inputs m))) as [El|]; cbn [negb]; [|done].
    pose proof (coerce_inputs_outcome valid_addr resolve Hres (m_Inputs m) args 0 (mkCoercer no_prov w) El) as H.
    destruct (coerce_inputs _ _ _ _ _) as [[l|[e|]] c]; cbn [fst outcome] in *; try done. intros [= <- <-]. split; [done|]. clear -H.
    induction H as [|a [v p] inputs l [H1 H2] Hl IH]; [by constructor|]. by constructor. }
  destruct Hty as [Hargs Hty]. exists (labelValues (m_Inputs m) vs). pose proof (labelled_rows _ _ Hty) as Hrows. split_and!; [..|done].
  - unfold PackCall in Hp. rewrite Hm in Hp. destruct (abi_Pack parsed (m_Name m) vs) as [d|] eqn:E; [|done].
    injection Hp as ->. destruct (Hpack vs data Hty E) as (enc & -> & Hu). unfold UnpackCalldata.
    rewrite string_length_app, Hlen. change (4 + String.length enc <? 4)%nat with false. cbv iota zeta.
    rewrite <-Hlen, stake_app, sdrop_app, Hid, Hu. done.
  - rewrite Hargs. clear -Hrows. induction Hrows; cbn; congruence.
Qed.
End Calls.

(** ** Witnesses *)

Section Witnesses.
#[local] Existing Instance ascii_tables.
#[local] Existing Instance geth_ref.
#[local] Existing Instance abi_ref.

Lemma displayed_value_read_back_witness :
  ParseLiteral (SliceTy (ArrayTy 2 (IntTy 8))) (formatValue (Some
    (VSlice (GArray 2 (GInt 8)) [VArray (GInt 8) [VInt 8 (-3); VInt 8 127]]))) =
    Ok (VSlice (GArray 2 (GInt 8)) [VArray (GInt 8) [VInt 8 (-3); VInt 8 127]]) ∧
  formatValue (Some (VSlice (GArray 2 (GInt 8)) [VArray (GInt 8) [VInt 8 (-3); VInt 8 127]])) =
    "[[" +:+ dquote +:+ "-3" +:+ dquote +:+ "," +:+ dquote +:+ "127" +:+ dquote +:+ "]]".
Proof.
  split; [|vm_compute; reflexivity]. apply displayed_value_read_back; [reflexivity|]. eexists. split; [reflexivity|].
  apply Forall_cons_2; [|by constructor]. eexists. split_and!; [reflexivity|reflexivity|].
  apply Forall_cons_2; [|apply Forall_cons_2; [|by constructor]].
  - exists (-3). unfold in_range. cbn. split; [lia|reflexivity].
  - exists 127. unfold in_range. cbn. split; [lia|reflexivity].
Defined.

Lemma sized_integer_shown_quoted_witness :
  ∃ z, VUint 8 18 = int_repr (GetType (UintTy 8)) z ∧
    formatValue (Some (VUint 8 18)) = dquote +:+ z_string z +:+ dquote ∧
    is_ok (ParseLiteral (UintTy 8) (formatValue (Some (VUint 8 18)))) = false.
Proof.
  apply sized_integer_shown_quoted; [discriminate|]. exists 18. unfold in_range. cbn. split; [lia|reflexivity].
Defined.

(** a codec for methods with an address and a 256-bit number *)
Definition word_lib : AbiLib := {|
  abi_JSON := λ _, Err "no compiler";
  abi_Pack := λ parsed name vs,
    match vs with
    | [VAddress a; VBig z] => Ok ("SELC" +:+ be_bytes 32 a +:+ be_bytes 32 z)
    | _ => Err "unsupported"
    end;
  Unpack := λ inputs enc, Ok [VAddress (SetBytes (stake 32 enc)); VBig (SetBytes (sdrop 32 enc))];
  MethodById := λ parsed sel, List.find (λ m, bool_decide (m_ID m = sel)) (map snd (map_to_list (Methods parsed)));
  MakeTopics := λ q, Ok (map (omap (λ v, match v with VHash h => Some h | _ => None end)) q);
  UnpackIntoMap := λ _ _, Ok ∅;
  ParseTopicsIntoMap := λ _ _, Ok ∅;
|}.
#[local] Existing Instance word_lib.

Definition pay_method : Method := {|
  m_Name := "transfer"; m_Sig := "transfer(address,uint256)"; m_ID := "SELC";
  m_Inputs := m_Inputs transfer_method; m_Outputs := [] |}.
Definition pay_abi : ABI := mkABI {["transfer" := pay_method]} ∅.

Lemma pay_packs : packs valid_addr pay_abi pay_method.
Proof.
  split; [reflexivity|]. intros vs data Hvs. cbn [m_Inputs pay_method transfer_method] in Hvs.
  inversion Hvs as [|? v1 ? l1 Ha H1]; subst. inversion H1 as [|? v2 ? l2 Hz H2]; subst. inversion H2; subst.
  destruct Ha as (a & Ha & ->). destruct Hz as (z & Hz & ->). intros Hd.
  change (int_repr (int_gotype true 256) z) with (VBig z) in Hd |- *.
  assert (data = "SELC" +:+ be_bytes 32 a +:+ be_bytes 32 z) as -> by (unfold abi_Pack, word_lib in Hd; congruence).
  exists (be_bytes 32 a +:+ be_bytes 32 z). split; [reflexivity|].
  unfold in_range in Hz. cbn in Hz. unfold valid_addr in Ha.
  cbn [Unpack word_lib]. pose proof (be_bytes_length 32 a) as Hl.
  assert (stake 32 (be_bytes 32 a +:+ be_bytes 32 z) = be_bytes 32 a) as -> by (pattern 32%nat at 1; rewrite <-Hl; apply stake_app).
  assert (sdrop 32 (be_bytes 32 a +:+ be_bytes 32 z) = be_bytes 32 z) as -> by (pattern 32%nat at 1; rewrite <-Hl; apply sdrop_app).
  rewrite !SetBytes_be_bytes by lia. done.
Qed.

Lemma call_decoded_back_witness :
  ∃ vs ps data rows,
    (CoerceArgs (W := unit) None pay_abi "transfer" [hex40 7; "0x10"] tt).1 = Ok (vs, ps) ∧
    PackCall pay_abi "transfer" vs = Ok data ∧
    UnpackCalldata pay_abi data = Ok ("transfer", hexBytes "SELC", rows) ∧ length rows = 2%nat ∧ Forall3 shows (m_Inputs pay_method) vs rows.
Proof.
  exists [VAddress 7; VBig 16], [mkProv (hex40 7) 7 "literal" ""; no_prov], ("SELC" +:+ be_bytes 32 7 +:+ be_bytes 32 16).
  assert (Hc : (CoerceArgs (W := unit) None pay_abi "transfer" [hex40 7; "0x10"] tt).1 =
    Ok ([VAddress 7; VBig 16], [mkProv (hex40 7) 7 "literal" ""; no_prov])) by (vm_compute; reflexivity).
  assert (Hp : PackCall pay_abi "transfer" [VAddress 7; VBig 16] = Ok ("SELC" +:+ be_bytes 32 7 +:+ be_bytes 32 16)) by reflexivity.
  destruct (call_decoded_back None pay_abi "transfer" pay_method [hex40 7; "0x10"] tt _ _ _ literal_resolver_ok eq_refl pay_packs eq_refl Hc Hp)
    as (rows & H1 & H2 & H3).
  exists rows. split_and!; [exact Hc|exact Hp|exact H1|exact (eq_sym H2)|exact H3].
Defined.
End Witnesses.
