(* ===== verification/Contracts.v ===== *)
(** * Contracts and destinations: [internal/service/contract.go]

    The contract commands (the registry, eth_call, eth_getLogs, call data, the
    intent of a contract send), the resolution of a destination
    ([resolveDest], txstatus.go) and the address-book commands (reconcile.go)
    over the registry directory and the node.  The ABI codec is [AbiCodec], the
    registry [Registry] and [RegistryNfts], names [Ens]; the keystore's
    [AddressOf] is a parameter. *)

From S2P Require Import Prelude GoStrings Decimal Rfc3339 HexBytes Ethunit Json PolicyTypes PolicyBody Domain Trace Evaluate Calldata Gas Service Send TokenSend Refs Registry RegistryNfts RegistrySpec Ens Coerce CoerceProps AbiSig AbiCodec.

Local Open Scope string_scope.
Local Open Scope Z_scope.
Local Open Scope list_scope.
Local Open Scope go_scope.

(** ** Wire types *)

Record ABISource := mkABISource { ab_Alias : string; ab_ABIJSON : string; ab_Sig : string }.

Record ContractCallRequest := mkCallRequest {
  kc_Contract : string; kc_Method : string; kc_Args : list string; kc_ABI : ABISource; kc_From : string;
  kc_Block : string; kc_Network : string; kc_RPC : string }.

Record ContractCallResult := mkCallResult {
  ko_Contract : Dest; ko_Method : string; ko_Returns : list DecodedValue; ko_Block : option Z; ko_Network : string }.

Record ContractSendRequest := mkContractSend {
  kq_Contract : string; kq_Method : string; kq_Args : list string; kq_ABI : ABISource; kq_Value : string;
  kq_From : string; kq_GasLimit : string; kq_MaxFee : string; kq_PriorityFee : string; kq_GasPrice : string;
  kq_Speed : string; kq_Legacy : bool; kq_Nonce : option Z; kq_Network : string; kq_RPC : string;
  kq_DryRun : bool; kq_AckUnlimited : bool }.

Record LogFilter := mkFilter { lf_Name : string; lf_Value : string }.

Record DecodedLog := mkDecodedLog {
  dl_TxHash : string; dl_LogIndex : Z; dl_Block : Z; dl_BlockHash : string; dl_Event : string; dl_Args : list DecodedValue }.

Record ContractLogsRequest := mkLogsRequest {
  kl_Contract : string; kl_Event : string; kl_ABI : ABISource; kl_Args : list LogFilter; kl_FromBlock : string;
  kl_ToBlock : string; kl_Network : string; kl_RPC : string }.

Record ContractLogsResult := mkLogsResult {
  kr_Contract : Dest; kr_Event : string; kr_Logs : list DecodedLog; kr_Network : string }.

Record EncodeRequest := mkEncode { ec_Method : string; ec_Args : list string; ec_ABI : ABISource; ec_Network : string }.
Record DecodeRequest := mkDecode { dc_Calldata : string; dc_ABI : ABISource; dc_Network : string }.
Record DecodeResult := mkDecodeResult { dr_Method : string; dr_Selector : string; dr_Args : list DecodedValue }.

Record ContractRow := mkContractRow {
  cw_Alias : string; cw_Address : string; cw_Network : string; cw_Functions : list string; cw_Events : list string;
  cw_FuncCount : nat; cw_EvtCount : nat }.

Record ContractAddRequest := mkContractAdd { ca_Alias : string; ca_Address : string; ca_ABIJSON : string; ca_Network : string }.

Record ContactAddRequest := mkContactAdd { na_Name : string; na_Address : string; na_Network : string; na_RPC : string }.
Record ContactRow := mkContactRow { nr_Name : string; nr_Address : string; nr_ENS : string; nr_PinnedAt : string }.

(** ** The node *)

(** an [ethereum.CallMsg] and an [ethereum.FilterQuery], as they are filled in *)
Record CallMsg := mkCallMsg { ms_From : Address; ms_To : Address; ms_Data : string }.
Record FilterQuery := mkFilterQuery { fq_Address : Address; fq_Topics : list (list Hash); fq_From : Z; fq_To : Z }.
Record RawLog := mkRawLog {
  rl_TxHash : Hash; rl_Index : Z; rl_BlockNumber : Z; rl_BlockHash : Hash; rl_Topics : list Hash; rl_Data : string }.

(** the calls of [chain.Client] that the contract commands make *)
Class ContractChain (N : Type) := {
  cc_CallContract : CallMsg → option Z → N → res GoError string * N;
  cc_BlockNumber : N → res GoError Z * N;
  cc_FilterLogs : FilterQuery → N → res GoError (list RawLog) * N;
  cc_ChainID : N → res GoError Z * N;
}.

(** ** Values of flags *)

Definition CodeUsage (leaf : string) : string := "usage" +:+ leaf.

Section Flags.
Context {UT : UnicodeTables}.

(** parseBlock; [None] is the latest block *)
Definition parseBlock (s : string) : res error (option Z) :=
  let s := TrimSpace s in
  if bool_decide (s = "") || bool_decide (s = "latest") then Ok None
  else if existsb (λ t, bool_decide (s = t)) ["safe"; "finalized"; "pending"; "earliest"]
  then Err (New (CodeUsage ".bad_block") ("block tag " +:+ go_quote s +:+
              " is not supported in v1 (use a number, or omit for latest)"))
  else
    let n := if HasPrefix s "0x" || HasPrefix s "0X" then SetString (sdrop 2 s) 16 else SetString s 10 in
    match n with
    | Some n => if n <? 0 then Err (New (CodeUsage ".bad_block") ("invalid block " +:+ go_quote s +:+ " (want a non-negative number)"))
                else Ok (Some n)
    | None => Err (New (CodeUsage ".bad_block") ("invalid block " +:+ go_quote s +:+ " (want a non-negative number)"))
    end.

(** hexNibble *)
Definition hexNibble (c : Ascii.ascii) : Z :=
  let n := byteZ c in
  if (48 <=? n) && (n <=? 57) then n - 48
  else if (97 <=? n) && (n <=? 102) then n - 97 + 10
  else if (65 <=? n) && (n <=? 70) then n - 65 + 10
  else -1.

(** the loop of parseHexBytes *)
Fixpoint nibble_pairs (h : string) : option string :=
  match h with
  | String a (String b r) =>
      let hi := hexNibble a in
      let lo := hexNibble b in
      if (hi <? 0) || (lo <? 0) then None
      else String (Zbyte (Z.land (Z.lor (Z.shiftl hi 4) lo) 255)) <$> nibble_pairs r
  | _ => Some ""
  end.

(** parseHexBytes of contract.go *)
Definition parseCalldata (s : string) : res error string :=
  let s := TrimSpace s in
  if negb (HasPrefix s "0x") && negb (HasPrefix s "0X")
  then Err (New (CodeUsage ".bad_calldata") ("calldata " +:+ go_quote s +:+ " must be 0x-prefixed hex"))
  else
    let h := sdrop 2 s in
    if negb (Nat.even (String.length h)) then Err (New (CodeUsage ".bad_calldata") "calldata has an odd number of hex digits")
    else match nibble_pairs h with
         | Some b => Ok b
         | None => Err (New (CodeUsage ".bad_calldata") ("calldata " +:+ go_quote s +:+ " contains a non-hex digit"))
         end.

(** methodName *)
Definition methodName (explicit sigName : string) : res error string :=
  if negb (bool_decide (TrimSpace explicit = "")) then Ok (TrimSpace explicit)
  else if negb (bool_decide (sigName = "")) then Ok sigName
  else Err (New (CodeUsage ".no_method") ("no method/event name: pass it positionally or via --sig " +:+ dquote +:+ "name(types)" +:+ dquote)).

(** mapCallErr *)
Definition mapCallErr (e : GoError) : error :=
  if containsAny (ToLower (ge_Text e)) ["revert"; "execution reverted"]
  then New "tx.reverted" ("eth_call reverted: " +:+ ge_Text e)
  else mapRPCErr e.
End Flags.

(** gasReqFromContractSend: the fields of the request that the gas engine reads *)
Definition gasReqFromContractSend (req : ContractSendRequest) : GasReq := {|
  gr_GasLimit := kq_GasLimit req; gr_MaxFee := kq_MaxFee req; gr_PriorityFee := kq_PriorityFee req;
  gr_GasPrice := kq_GasPrice req; gr_Speed := kq_Speed req; gr_Legacy := kq_Legacy req |}.

(** ** The world of a command: the registry directory and the outside *)

Record CWorld (N : Type) := mkCW { cx_dir : Dir; cx_net : N }.
Arguments mkCW {N} _ _.
Arguments cx_dir {N} _.
Arguments cx_net {N} _.

Definition KM (N A : Type) : Type := CWorld N → res fault A * CWorld N.

Definition kret {N A} (a : A) : KM N A := λ w, (Ok a, w).
Definition kfail {N A} (e : error) : KM N A := λ w, (Err (GoErr e), w).
Definition kbind {N A B} (m : KM N A) (k : A → KM N B) : KM N B := λ w,
  match m w with (Ok a, w) => k a w | (Err f, w) => (Err f, w) end.
Definition klift {N A} (r : res error A) : KM N A := λ w,
  (match r with Ok a => Ok a | Err e => Err (GoErr e) end, w).

Notation "x <-k m ;; k" := (kbind m (fun x => k)) (at level 100, m at next level, right associativity) : go_scope.

(** an operation of the registry, and one of the node *)
Definition on_registry {N A} (m : R A) : KM N A := λ w,
  let '(r, tr) := m (cx_dir w) in
  (match r with Ok a => Ok a | Err e => Err (GoErr e) end, mkCW (after (cx_dir w) tr) (cx_net w)).
Definition on_net {N A} (f : N → res error A * N) : KM N A := λ w,
  let '(r, n) := f (cx_net w) in
  (match r with Ok a => Ok a | Err e => Err (GoErr e) end, mkCW (cx_dir w) n).

Section Use.
Context {N : Type} {UT : UnicodeTables} {GC : GethCommon} {AJ : AddressJSON} {SS : SortSlice} {KC : Keccak}
        {EC : EnsChain N} {CC : ContractChain N} {AT : AbiTypes} {AL : AbiLib}.
Variable io : RegistryIO.
Variable testRegistries : gmap string Address.
(** the defaults of the process, and of the receive configuration *)
Variables (defaultNetwork configNetwork : string) (receiveMaxLogRange : Z).
(** the keystore: the address of a reference, and the default account *)
Variables (AddressOf : AccountRef → res error Address) (activeDefault : string).
(** the bytes of a raw message in the registry file, the JSON of an error's data, and the clock *)
Variables (raw_text : json → string) (data_json : gmap string ddval → json) (now : Z).

Definition network_of (req : string) : string := networkName defaultNetwork configNetwork req.

(** the Error method of a domain error: the JSON envelope *)
Definition Error_text (e : error) : string :=
  Marshal (JObj [("error", JObj ([("code", JStr (e_Code e)); ("exit", JNum (z_string (e_Exit e)));
    ("message", JStr (e_Msg e)); ("retryable", JBool (e_Retryable e))] ++
    match e_Data e with
    | Some d => if bool_decide (d = ∅) then [] else [("data", data_json d)]
    | None => []
    end))]).

(** the client of the request, and a call through it *)
Definition ClientFor (network rpc : string) : KM N unit := on_net (ens_ClientFor network rpc).
Definition call_net {A} (f : N → res GoError A * N) : KM N A :=
  on_net (λ n, let '(r, n') := f n in (match r with Ok a => Ok a | Err e => Err (mapRPCErr e) end, n')).

(** ** Destinations (txstatus.go) *)

Definition no_recipient : error := New (CodeUsage ".no_recipient") "--to is required (address, ENS name, or contact name)".

(** the contact of a name *)
Definition contact_dest (to : string) : KM N Dest :=
  found <-k on_registry (Contacts_Resolve io to) ;;
  match found with
  | Some addr => kret (mkDest addr to "contact" "")
  | None => kfail (New "ref.not_found" ("--to " +:+ go_quote to +:+
      " is not a 0x address, an ENS name, or a known contact (add it with `daxie contacts add`)"))
  end.

(** resolveDest *)
Definition resolveDest (network rpc to : string) : KM N Dest :=
  if bool_decide (to = "") then kfail no_recipient else
  match ParseAccountRef to with
  | Ok ref =>
      if ar_Kind ref =? RefAddress then kret (mkDest (ar_Addr ref) "" "literal" "")
      else if ar_Kind ref =? RefENS then on_net (resolveENS testRegistries network rpc to)
      else contact_dest to
  | Err _ => contact_dest to
  end.

(** resolveContractDest: an alias is its stored address *)
Definition resolveContractDest (reqNetwork rpc network contractRef : string) : KM N Dest :=
  let contractRef := TrimSpace contractRef in
  if bool_decide (contractRef = "")
  then kfail (New (CodeUsage ".no_contract") "a contract is required (a registered alias, a 0x address, or an ENS name)")
  else
    found <-k on_registry (Contracts_Resolve io network contractRef) ;;
    match found with
    | Some reg => kret (mkDest (co_Address reg) (co_Alias reg) "contract" "")
    | None => resolveDest reqNetwork rpc contractRef
    end.

(** addrResolverFor: the resolver of an address argument; it reports an error by its text *)
Definition addrResolverFor (network rpc : string) : AddrResolver (CWorld N) := λ arg w,
  let arg := TrimSpace arg in
  let dest (_ : unit) :=
    match resolveDest network rpc arg w with
    | (Ok d, w) => (Ok (de_Address d, mkProv arg (de_Address d) (de_Via d) (de_ENSName d)), w)
    | (Err (GoErr e), w) => (Err (Error_text e), w)
    | (Err GoPanic, w) => (Err "", w)
    end in
  match ParseAccountRef arg with
  | Ok ref =>
      if ar_Kind ref =? RefAddress then (Ok (ar_Addr ref, mkProv arg (ar_Addr ref) "literal" ""), w) else dest tt
  | Err _ => dest tt
  end.

(** resolveMsgSender *)
Definition resolveMsgSender (network rpc from : string) : KM N Address :=
  let dest := d <-k resolveDest network rpc from ;; kret (de_Address d) in
  match ParseAccountRef from with
  | Ok ref =>
      if ar_Kind ref =? RefAddress then kret (ar_Addr ref)
      else if (ar_Kind ref =? RefHDIndex) || (ar_Kind ref =? RefHDAlias) || (ar_Kind ref =? RefNamed)
      then klift (AddressOf ref)
      else dest
  | Err _ => dest
  end.

(** ** The ABI of a command *)

Definition ambiguous (msg : string) : error := New (CodeUsage ".ambiguous_abi") msg.

(** resolveABISource: the ABI, and the name a signature carries *)
Definition resolveABISource (network contractRef : string) (src : ABISource) : KM N (ABI * string) :=
  let explicit := negb (bool_decide (TrimSpace (ab_ABIJSON src) = "")) || negb (bool_decide (TrimSpace (ab_Sig src) = "")) in
  found <-k on_registry (Contracts_Resolve io network contractRef) ;;
  match found with
  | Some reg =>
      if explicit
      then kfail (ambiguous (go_quote contractRef +:+
        " is a registered contract alias; do not also pass --abi/--sig (the stored ABI is authoritative)"))
      else parsed <-k klift (ParseJSON (raw_text (co_ABI reg))) ;; kret (parsed, "")
  | None =>
      if negb (bool_decide (TrimSpace (ab_ABIJSON src) = "")) then
        if negb (bool_decide (TrimSpace (ab_Sig src) = ""))
        then kfail (ambiguous "pass exactly one of --abi/--abi-stdin or --sig, not both")
        else parsed <-k klift (ParseJSON (ab_ABIJSON src)) ;; kret (parsed, "")
      else if negb (bool_decide (TrimSpace (ab_Sig src) = "")) then
        p <-k klift (ParseSig (ab_Sig src)) ;; let '(parsed, name, _) := p in kret (parsed, name)
      else kfail (New (CodeUsage ".no_abi")
        "no ABI source: register the contract (`daxie contract add`), or pass --abi/--abi-stdin or --sig")
  end.

(** CoerceArgs with the resolver of the request, in the world of the command *)
Definition coerce_args (network rpc : string) (parsed : ABI) (method : string) (args : list string)
    : KM N (list value * list AddrProvenance) :=
  CoerceArgs (Some (addrResolverFor network rpc)) parsed method args.

(** ** The contract registry *)

(** contractRow; [None] is the nil ABI *)
Definition contractRow (alias : string) (address : Address) (network : string) (parsed : option ABI) : ContractRow := {|
  cw_Alias := alias; cw_Address := Hex address; cw_Network := network; cw_Functions := []; cw_Events := [];
  cw_FuncCount := match parsed with Some a => base.size (Methods a) | None => 0%nat end;
  cw_EvtCount := match parsed with Some a => base.size (Events a) | None => 0%nat end |}.

(** abiSignatures *)
Definition abiSignatures (parsed : ABI) : list string * list string :=
  (stable_sort String.ltb (map (λ p, m_Sig p.2) (map_to_list (Methods parsed))),
   stable_sort String.ltb (map (λ p, v_Sig p.2) (map_to_list (Events parsed)))).

Definition ContractAdd (req : ContractAddRequest) : KM N ContractRow :=
  let network := network_of (ca_Network req) in
  let addr := TrimSpace (ca_Address req) in
  if negb (IsHexAddress addr)
  then kfail (New (CodeUsage ".bad_address") ("contract address " +:+ go_quote (ca_Address req) +:+ " is not a 0x address"))
  else
    parsed <-k klift (ParseJSON (ca_ABIJSON req)) ;;
    let alias := TrimSpace (ca_Alias req) in
    _ <-k on_registry (Contracts_Add io network alias (HexToAddress addr) (ca_ABIJSON req)) ;;
    kret (contractRow alias (HexToAddress addr) network (Some parsed)).

Definition ok_option {E A} (r : res E A) : option A := match r with Ok a => Some a | Err _ => None end.

Definition ContractList (reqNetwork : string) : KM N (string * list ContractRow) :=
  let network := network_of reqNetwork in
  cts <-k on_registry (Contracts_List io network) ;;
  let rows := map (λ ct, contractRow (co_Alias ct) (co_Address ct) network (ok_option (ParseJSON (raw_text (co_ABI ct))))) cts in
  kret (network, sort_slice (λ a b, String.ltb (cw_Alias a) (cw_Alias b)) rows).

Definition ContractShow (alias reqNetwork : string) : KM N ContractRow :=
  let network := network_of reqNetwork in
  found <-k on_registry (Contracts_Resolve io network alias) ;;
  match found with
  | None => kfail (New "ref.not_found" ("no contract aliased " +:+ go_quote alias +:+ " on " +:+ network +:+
                                          " (register it with `daxie contract add`)"))
  | Some reg =>
      parsed <-k klift (ParseJSON (raw_text (co_ABI reg))) ;;
      let row := contractRow (co_Alias reg) (co_Address reg) network (Some parsed) in
      let '(funcs, events) := abiSignatures parsed in
      kret (mkContractRow (cw_Alias row) (cw_Address row) (cw_Network row) funcs events (cw_FuncCount row) (cw_EvtCount row))
  end.

(** ContractRemove: the alias as shown, and the network *)
Definition ContractRemove (alias reqNetwork : string) : KM N (string * string) :=
  let network := network_of reqNetwork in
  _ <-k on_registry (Contracts_Remove io network alias) ;;
  kret (ToLower (TrimSpace alias), network).

(** ** The address book (reconcile.go) *)

Definition contactRow (c : Contact) : ContactRow := mkContactRow (ct_Name c) (Hex (ct_Address c)) (ct_ENS c) (ct_PinnedAt c).

Definition bad_contact (address : string) : error :=
  New (CodeUsage ".bad_address") ("contact address must be a 0x address or an ENS name, got " +:+ go_quote address).

(** the ENS name of a contact, resolved for the snapshot *)
Definition ens_now (network rpc name : string) : KM N Address :=
  _ <-k ClientFor network rpc ;;
  on_net (λ n, let '(r, n') := Resolve testRegistries name n in
               (match r with Ok a => Ok a | Err e => Err (mapENSErr e name) end, n')).

Definition ContactAdd (req : ContactAddRequest) : KM N ContactRow :=
  match ParseAccountRef (na_Address req) with
  | Err _ => kfail (bad_contact (na_Address req))
  | Ok ref =>
      if ar_Kind ref =? RefENS then
        addr <-k ens_now (na_Network req) (na_RPC req) (na_Address req) ;;
        _ <-k on_registry (Contacts_AddWithENS io (na_Name req) addr (na_Address req) (Format now)) ;;
        kret (mkContactRow (na_Name req) (Hex addr) (na_Address req) (Format now))
      else if ar_Kind ref =? RefAddress then
        _ <-k on_registry (Contacts_Add io (na_Name req) (ar_Addr ref)) ;;
        kret (mkContactRow (na_Name req) (Hex (ar_Addr ref)) "" "")
      else kfail (bad_contact (na_Address req))
  end.

Definition ContactList : KM N (list ContactRow) :=
  cs <-k on_registry (Contacts_List io) ;; kret (map contactRow cs).

Definition ContactShow (name : string) : KM N ContactRow :=
  c <-k on_registry (Contacts_Show io name) ;; kret (contactRow c).

Definition ContactRemove (name : string) : KM N string :=
  _ <-k on_registry (Contacts_Remove io name) ;; kret name.

(** ** Reading: eth_call *)

Definition toDomainDecoded (l : list DecodedValue) : list DecodedValue :=
  map (λ v, mkDecoded (dv_Name v) (dv_Type v) (dv_Value v)) l.

Definition ContractCall (req : ContractCallRequest) : KM N ContractCallResult :=
  let network := network_of (kc_Network req) in
  src <-k resolveABISource network (kc_Contract req) (kc_ABI req) ;;
  method <-k klift (methodName (kc_Method req) src.2) ;;
  dest <-k resolveContractDest (kc_Network req) (kc_RPC req) network (kc_Contract req) ;;
  _ <-k ClientFor (kc_Network req) (kc_RPC req) ;;
  coerced <-k coerce_args (kc_Network req) (kc_RPC req) src.1 method (kc_Args req) ;;
  data <-k klift (PackCall src.1 method coerced.1) ;;
  from <-k (if bool_decide (TrimSpace (kc_From req) = "") then kret 0
            else resolveMsgSender (kc_Network req) (kc_RPC req) (kc_From req)) ;;
  block <-k klift (parseBlock (kc_Block req)) ;;
  out <-k on_net (λ n, let '(r, n') := cc_CallContract (mkCallMsg from (de_Address dest) data) block n in
                       (match r with Ok a => Ok a | Err e => Err (mapCallErr e) end, n')) ;;
  returns <-k klift (UnpackReturns src.1 method out) ;;
  kret (mkCallResult dest method (toDomainDecoded returns) (Uint64 <$> block) network).

(** ** Pure call data *)

Definition EncodeCalldata (req : EncodeRequest) : KM N string :=
  let network := network_of (ec_Network req) in
  src <-k resolveABISource network (ab_Alias (ec_ABI req)) (ec_ABI req) ;;
  method <-k klift (methodName (ec_Method req) src.2) ;;
  coerced <-k coerce_args (ec_Network req) "" src.1 method (ec_Args req) ;;
  data <-k klift (PackCall src.1 method coerced.1) ;;
  kret (hexBytes data).

Definition DecodeCalldata (req : DecodeRequest) : KM N DecodeResult :=
  let network := network_of (dc_Network req) in
  src <-k resolveABISource network (ab_Alias (dc_ABI req)) (dc_ABI req) ;;
  calldata <-k klift (parseCalldata (dc_Calldata req)) ;;
  d <-k klift (UnpackCalldata src.1 calldata) ;;
  kret (mkDecodeResult d.1.1 d.1.2 (toDomainDecoded d.2)).

(** ** The intent of a contract send *)

Definition sender_text (from : string) : string := if bool_decide (from = "") then activeDefault else from.

(** the destinations echoed before signing: the contract, then every address argument *)
Definition echoed (dest : Dest) (prov : list AddrProvenance) : list (string * Dest) :=
  ("contract ", dest) ::
  map (λ p, ("arg " +:+ ap_Input p +:+ " ", mkDest (ap_Addr p) (ap_ENSName p) (ap_Via p) (ap_ENSName p)))
    (List.filter (λ p, negb (ap_Addr p =? 0)) prov).

(** resolveContractSendIntent, with the echoes it emits; [source] is the principal's *)
Definition resolveContractSendIntent (source : string) (req : ContractSendRequest) : KM N (Intent * list (string * Dest)) :=
  let fromStr := sender_text (kq_From req) in
  if bool_decide (fromStr = "")
  then kfail (New (CodeUsage ".no_account") "no --from given and no default account set (run `daxie account use`)")
  else
    fromRef <-k klift (ParseAccountRef fromStr) ;;
    from <-k klift (AddressOf fromRef) ;;
    let network := network_of (kq_Network req) in
    src <-k resolveABISource network (kq_Contract req) (kq_ABI req) ;;
    method <-k klift (methodName (kq_Method req) src.2) ;;
    dest <-k resolveContractDest (kq_Network req) (kq_RPC req) network (kq_Contract req) ;;
    coerced <-k coerce_args (kq_Network req) (kq_RPC req) src.1 method (kq_Args req) ;;
    data <-k klift (PackCall src.1 method coerced.1) ;;
    value <-k klift (parseEthAmount (kq_Value req)) ;;
    _ <-k ClientFor (kq_Network req) (kq_RPC req) ;;
    chainID <-k call_net cc_ChainID ;;
    intent <-k klift (contractIntent (mkOrigin chainID network (kq_RPC req) from fromRef (kq_Nonce req) source)
                        dest data (kq_Value req) (kq_AckUnlimited req)) ;;
    kret (intent, echoed dest coerced.2).

(** ** Reading: eth_getLogs *)

(** an assignment of a Go map, as the list of its entries *)
Fixpoint set_filter (name : string) (v : value) (l : list (string * value)) : list (string * value) :=
  match l with
  | [] => [(name, v)]
  | (n, x) :: l => if bool_decide (n = name) then (n, v) :: l else (n, x) :: set_filter name v l
  end.

(** the value of one filter *)
Definition filter_of (network rpc text : string) : KM N value :=
  let v := TrimSpace text in
  if IsHexAddress v then kret (VAddress (HexToAddress v))
  else
    let literal := kret (match SetString v 10 with Some n => VBig n | None => VString v end) in
    match ParseAccountRef v with
    | Ok ref => if ar_Kind ref =? RefENS then d <-k resolveDest network rpc v ;; kret (VAddress (de_Address d)) else literal
    | Err _ => literal
    end.

(** buildLogFilters; the loop's map *)
Fixpoint build_filters (network rpc : string) (args : list LogFilter) (out : list (string * value)) : KM N (list (string * value)) :=
  match args with
  | [] => kret out
  | f :: args => v <-k filter_of network rpc (lf_Value f) ;; build_filters network rpc args (set_filter (lf_Name f) v out)
  end.

Definition buildLogFilters (network rpc : string) (args : list LogFilter) : KM N (list (string * value)) :=
  build_filters network rpc args [].

(** a block flag as a uint64; the latest block leaves the zero *)
Definition block_or_zero (s : string) : res error Z :=
  let* b := parseBlock s in Ok (match b with Some n => Uint64 n | None => 0 end).

Definition resolveLogRange (fromStr toStr : string) : KM N (Z * Z) :=
  from <-k (if bool_decide (TrimSpace fromStr = "") then kret 0 else klift (block_or_zero fromStr)) ;;
  to <-k (if bool_decide (TrimSpace toStr = "") then call_net cc_BlockNumber else klift (block_or_zero toStr)) ;;
  if to <? from
  then kfail (New (CodeUsage ".bad_block_range")
         ("--to-block " +:+ z_string to +:+ " is before --from-block " +:+ z_string from))
  else kret (from, to).

Definition maxLogSpan : Z := 100000.

Definition maxLogRange : Z := if 0 <? receiveMaxLogRange then receiveMaxLogRange else 1000.

(** uint64 arithmetic *)
Definition u64 (n : Z) : Z := n mod 2 ^ 64.

(** the decoding of one log *)
Definition decode_log (abi : ABI) (event : string) (lg : RawLog) : res error DecodedLog :=
  let* d := UnpackLog abi event (rl_Topics lg) (rl_Data lg) in
  Ok (mkDecodedLog (HashHex (rl_TxHash lg)) (rl_Index lg) (rl_BlockNumber lg) (HashHex (rl_BlockHash lg)) event (toDomainDecoded d)).

Fixpoint decode_logs (abi : ABI) (event : string) (raw : list RawLog) : res error (list DecodedLog) :=
  match raw with
  | [] => Ok []
  | lg :: raw => let* d := decode_log abi event lg in let* ds := decode_logs abi event raw in Ok (d :: ds)
  end.

(** the logs of one chunk of blocks *)
Definition log_chunk (abi : ABI) (event : string) (to : Address) (topics : list (list Hash)) (start stop : Z) : KM N (list DecodedLog) :=
  raw <-k call_net (cc_FilterLogs (mkFilterQuery to topics start stop)) ;; klift (decode_logs abi event raw).

(** the chunk loop; [None] when the fuel is used up *)
Fixpoint log_loop (fuel : nat) (chunk : Z → Z → KM N (list DecodedLog)) (span start toBlk : Z) : KM N (option (list DecodedLog)) :=
  if toBlk <? start then kret (Some [])
  else match fuel with
       | O => kret None
       | S fuel =>
           let stop := u64 (start + span - 1) in
           let stop := if toBlk <? stop then toBlk else stop in
           logs <-k chunk start stop ;;
           rest <-k log_loop fuel chunk span (u64 (start + span)) toBlk ;;
           kret (app logs <$> rest)
       end.

(** rounds enough for a range that no addition wraps around *)
Definition log_fuel (span fromBlk toBlk : Z) : nat := S (Z.to_nat ((toBlk - fromBlk) / span)).

Definition too_wide (n : Z) : error := New (CodeUsage ".log_range_too_wide")
  ("block span " +:+ z_string n +:+ " exceeds the " +:+ z_string maxLogSpan +:+
   "-block limit for one query; narrow --from-block/--to-block (or page through the range)").

(** the query of a resolved event over a resolved range *)
Definition query_logs (fuel : Z → Z → Z → nat) (abi : ABI) (event : string) (dest : Address) (topics : list (list Hash))
    (fromBlk toBlk : Z) : KM N (option (list DecodedLog)) :=
  let width := u64 (toBlk - fromBlk + 1) in
  if maxLogSpan <? width then kfail (too_wide width)
  else log_loop (fuel maxLogRange fromBlk toBlk) (log_chunk abi event dest topics) maxLogRange fromBlk toBlk.

(** ContractLogs; [None] when its loop is still running at the end of the fuel *)
Definition ContractLogs (req : ContractLogsRequest) : KM N (option ContractLogsResult) :=
  let network := network_of (kl_Network req) in
  src <-k resolveABISource network (kl_Contract req) (kl_ABI req) ;;
  event <-k klift (methodName (kl_Event req) src.2) ;;
  dest <-k resolveContractDest (kl_Network req) (kl_RPC req) network (kl_Contract req) ;;
  _ <-k ClientFor (kl_Network req) (kl_RPC req) ;;
  filters <-k buildLogFilters (kl_Network req) (kl_RPC req) (kl_Args req) ;;
  topics <-k klift (PackEvent src.1 event filters) ;;
  range <-k resolveLogRange (kl_FromBlock req) (kl_ToBlock req) ;;
  logs <-k query_logs log_fuel src.1 event (de_Address dest) topics.1 range.1 range.2 ;;
  kret ((λ l, mkLogsResult dest event l network) <$> logs).
End Use.

(** ** Facts: the monad *)

Section KFacts.
Context {N A B : Type}.

Lemma kbind_ok (m : KM N A) (k : A → KM N B) w b w' :
  kbind m k w = (Ok b, w') → ∃ a w1, m w = (Ok a, w1) ∧ k a w1 = (Ok b, w').
Proof. unfold kbind. destruct (m w) as [[a|f] w1]; [|done]. intros H. by exists a, w1. Qed.

Lemma klift_ok (r : res error A) (w : CWorld N) a w' : klift r w = (Ok a, w') → r = Ok a ∧ w' = w.
Proof. unfold klift. destruct r; [|done]. by intros [= <- <-]. Qed.

Lemma kret_ok (a b : A) (w w' : CWorld N) : kret a w = (Ok b, w') → b = a ∧ w' = w.
Proof. by intros [= <- <-]. Qed.

Lemma kbind_run (m : KM N A) (k : A → KM N B) w a w1 : m w = (Ok a, w1) → kbind m k w = k a w1.
Proof. unfold kbind. by intros ->. Qed.

(** an operation that writes nothing leaves the world *)
Lemma on_registry_reads (m : R A) (w : CWorld N) r : reads_only m → (m (cx_dir w)).1 = r →
  on_registry m w = (match r with Ok a => Ok a | Err e => Err (GoErr e) end, w).
Proof.
  intros Hr <-. unfold on_registry. specialize (Hr (cx_dir w)). destruct (m (cx_dir w)) as [r tr]. cbn [snd fst] in *.
  subst tr. by destruct w.
Qed.
End KFacts.

(** ** Facts: destinations *)

Section Dests.
Context {N : Type} {UT : UnicodeTables} {GC : GethCommon} {AJ : AddressJSON} {SS : SortSlice} {KC : Keccak}
        {EC : EnsChain N} {CC : ContractChain N} {AT : AbiTypes} {AL : AbiLib}.
Variables (io : RegistryIO) (testRegistries : gmap string Address).

Lemma reads_contracts network alias : reads_only (Contracts_Resolve io network alias).
Proof.
  unfold Contracts_Resolve. destruct (canonicalName alias); [|apply reads_mret].
  apply reads_only_bind; [apply reads_load|]. intros f. apply reads_mret.
Qed.

(** the two texts of an address *)
Definition address_text (t : string) (a : Address) : Prop := t = Hex a ∨ t = hex40 a.

Lemma address_text_lower t a : address_text t a → is_ascii t = true ∧ string_map lower_byte t = hex40 a.
Proof.
  assert (Hh : is_ascii (hex40 a) = true) by (rewrite <-Hex_lower, is_ascii_map_lower; apply Hex_ascii).
  intros [-> | ->]; [by split; [apply Hex_ascii|apply Hex_lower]|]. split; [done|].
  rewrite <-Hex_lower at 1. by rewrite string_map_lower_idemp, Hex_lower.
Qed.

Lemma address_text_plain t a : address_text t a → is_plain t.
Proof. intros [-> | ->]; [apply Hex_plain|apply hex40_plain]. Qed.

Lemma address_text_nonempty t a : address_text t a → t ≠ "".
Proof. intros Ht ->. by destruct (address_text_lower _ _ Ht) as [_ H]. Qed.

Lemma address_no_name t a : valid_addr a → address_text t a → ∃ e, canonicalName t = Err e.
Proof.
  intros Ha Ht. pose proof (address_text_lower t a Ht) as [Hasc Hl]. unfold canonicalName.
  rewrite (is_plain_trim t (address_text_plain t a Ht)), bool_decide_eq_false_2 by (by eapply address_text_nonempty).
  cbv zeta. rewrite (ToLower_ascii t Hasc), Hl, IsHexAddress_hex40 by done. by eexists.
Qed.

Lemma plain_no_slash t : is_plain t → split_byte 47 t = None.
Proof.
  intros H. apply split_byte_none. unfold contains_byte. apply negb_false_iff. revert H. unfold is_plain.
  induction t as [|c t IH]; [done|]. cbn [string_forallb]. intros [Hc Ht]%andb_true_iff. apply word_byte_range in Hc.
  apply andb_true_iff. split; [|by apply IH]. apply negb_true_iff. lia.
Qed.

Lemma lower_digit c d : lower_byte c = d → is_digit d = true → c = d.
Proof.
  unfold lower_byte. destruct (is_upper c) eqn:E; [|by intros ->]. intros <-. unfold is_upper, is_digit in *. bool_prop.
  rewrite byteZ_Zbyte in * by lia. lia.
Qed.

Lemma address_text_0x t a : address_text t a → has0x t = true.
Proof.
  intros Ht. destruct (address_text_lower t a Ht) as [_ Hl]. unfold hex40 in Hl.
  change ("0x" +:+ ?x) with (String (Zbyte 48) (String (Zbyte 120) x)) in Hl.
  destruct t as [|c [|d t]]; try done. cbn [string_map] in Hl. injection Hl as Hc Hd _.
  apply lower_digit in Hc; [|done]. subst c. unfold has0x, HasPrefix. revert Hd. unfold lower_byte. destruct (is_upper d) eqn:E.
  - intros H. assert (byteZ d = 88) as Hb.
    { apply (f_equal byteZ) in H. unfold is_upper in E. bool_prop. rewrite !byteZ_Zbyte in H by lia. lia. }
    assert (d = Zbyte 88) as -> by (apply byteZ_inj; by rewrite Hb). cbn. by destruct t.
  - intros ->. cbn. by destruct t.
Qed.

Lemma parse_address_text t a : valid_addr a → address_text t a → ParseAccountRef t = Ok (mkRef t RefAddress "" 0 "" a).
Proof.
  intros Ha Ht. unfold ParseAccountRef. rewrite (is_plain_trim t (address_text_plain t a Ht)).
  rewrite bool_decide_eq_false_2 by (by eapply address_text_nonempty). rewrite (plain_no_slash t) by (by eapply address_text_plain).
  rewrite (address_text_0x t a Ht). cbv iota.
  destruct Ht as [-> | ->]; [by rewrite IsHexAddress_Hex, HexToAddress_Hex|by rewrite IsHexAddress_hex40, HexToAddress_hex40].
Qed.

Lemma resolveDest_address network rpc t a w : valid_addr a → address_text t a →
  resolveDest (N := N) io testRegistries network rpc t w = (Ok (mkDest a "" "literal" ""), w).
Proof.
  intros Ha Ht. unfold resolveDest. rewrite bool_decide_eq_false_2 by (by eapply address_text_nonempty).
  by rewrite (parse_address_text t a Ha Ht).
Qed.
End Dests.

(** a block flag of a log query: [latest] and 2^64 are both block 0 *)
Lemma latest_is_block_zero `{UnicodeTables} :
  block_or_zero "latest" = Ok 0 ∧ block_or_zero "18446744073709551616" = Ok 0.
Proof. split; reflexivity. Qed.

(** ** Facts: the chunks of a range *)

Section Chunks.

(** the reference partition: consecutive chunks of [span] blocks, the last one cut *)
Definition chunk_list (span fromBlk toBlk : Z) : list (Z * Z) :=
  map (λ k, (fromBlk + k * span, Z.min toBlk (fromBlk + k * span + span - 1))) (seqZ 0 ((toBlk - fromBlk) / span + 1)).

Lemma chunk_list_length span fromBlk toBlk : 0 < span → fromBlk ≤ toBlk →
  Z.of_nat (length (chunk_list span fromBlk toBlk)) = (toBlk - fromBlk) / span + 1.
Proof.
  intros Hs Hr. unfold chunk_list. rewrite length_map, length_seqZ, Z2Nat.id; [done|].
  assert (0 ≤ (toBlk - fromBlk) / span) by (apply Z.div_pos; lia). lia.
Qed.

(** every block of the range is in exactly one chunk, and no other block is *)
Lemma chunk_list_covers span fromBlk toBlk b : 0 < span →
  (∃ k, (Z.to_nat k < length (chunk_list span fromBlk toBlk))%nat ∧ 0 ≤ k ∧
     fromBlk + k * span ≤ b ≤ Z.min toBlk (fromBlk + k * span + span - 1)) ↔ fromBlk ≤ b ≤ toBlk.
Proof.
  intros Hs. unfold chunk_list. rewrite length_map, length_seqZ. split.
  - intros (k & _ & Hk & Hb). nia.
  - intros Hb. exists ((b - fromBlk) / span).
    assert (0 ≤ (b - fromBlk) / span) by (apply Z.div_pos; lia).
    assert ((b - fromBlk) / span ≤ (toBlk - fromBlk) / span) by (apply Z.div_le_mono; lia).
    pose proof (Z.div_mod (b - fromBlk) span ltac:(lia)). pose proof (Z.mod_pos_bound (b - fromBlk) span Hs).
    split_and!; [lia|done|nia|]. apply Z.min_glb; nia.
Qed.

Lemma chunk_list_step span fromBlk toBlk : 0 < span → fromBlk ≤ toBlk →
  chunk_list span fromBlk toBlk =
  (fromBlk, Z.min toBlk (fromBlk + span - 1)) ::
  (if toBlk <? fromBlk + span then [] else chunk_list span (fromBlk + span) toBlk).
Proof.
  intros Hs Hr. unfold chunk_list. assert (0 ≤ (toBlk - fromBlk) / span) by (apply Z.div_pos; lia).
  rewrite (seqZ_cons 0) by lia. cbn [map]. f_equal; [f_equal; f_equal; lia|].
  replace (Z.pred ((toBlk - fromBlk) / span + 1)) with ((toBlk - fromBlk) / span) by lia.
  destruct (Z.ltb_spec toBlk (fromBlk + span)) as [Hlt|Hge].
  - rewrite Z.div_small by lia. done.
  - assert ((toBlk - fromBlk) / span = (toBlk - (fromBlk + span)) / span + 1) as ->.
    { replace (toBlk - fromBlk) with ((toBlk - (fromBlk + span)) + 1 * span) by lia. by rewrite Z.div_add by lia. }
    change (Z.succ 0) with (1 + 0). rewrite <-(fmap_add_seqZ 1 0). unfold fmap. rewrite map_map.
    apply map_ext. intros k. f_equal; [lia|f_equal; lia].
Qed.

Context {N : Type}.

(** the chunks one after the other *)
Fixpoint scan_chunks_of (chunk : Z → Z → KM N (list DecodedLog)) (l : list (Z * Z)) : KM N (option (list DecodedLog)) :=
  match l with
  | [] => kret (Some [])
  | c :: l => logs <-k chunk c.1 c.2 ;; rest <-k scan_chunks_of chunk l ;; kret (app logs <$> rest)
  end.

Lemma log_loop_chunks chunk span toBlk fuel : ∀ fromBlk w,
  0 < span → 0 ≤ fromBlk → fromBlk ≤ toBlk → toBlk + span < 2 ^ 64 → (toBlk - fromBlk) / span < Z.of_nat fuel →
  log_loop (N := N) fuel chunk span fromBlk toBlk w = scan_chunks_of chunk (chunk_list span fromBlk toBlk) w.
Proof.
  induction fuel as [|fuel IH]; intros fromBlk w Hs H0 Hr Hmax Hf.
  { assert (0 ≤ (toBlk - fromBlk) / span) by (apply Z.div_pos; lia). lia. }
  rewrite chunk_list_step by done. cbn [log_loop scan_chunks_of fst snd].
  replace (toBlk <? fromBlk) with false by lia. unfold u64. rewrite !Z.mod_small by lia. cbv zeta.
  replace (if toBlk <? fromBlk + span - 1 then toBlk else fromBlk + span - 1) with (Z.min toBlk (fromBlk + span - 1))
    by (destruct (Z.ltb_spec toBlk (fromBlk + span - 1)); lia).
  unfold kbind. destruct (chunk _ _ w) as [[logs|f] w1]; [|done].
  destruct (Z.ltb_spec toBlk (fromBlk + span)) as [Hlt|Hge].
  - destruct fuel as [|fuel]; cbn [log_loop]; replace (toBlk <? fromBlk + span) with true by lia; done.
  - rewrite IH; [done|lia|lia|lia|lia|].
    assert ((toBlk - fromBlk) / span = (toBlk - (fromBlk + span)) / span + 1) as Hd.
    { replace (toBlk - fromBlk) with ((toBlk - (fromBlk + span)) + 1 * span) by lia. by rewrite Z.div_add by lia. }
    lia.
Qed.
End Chunks.

(** ** Properties *)

Section Properties.
Context {N : Type} {UT : UnicodeTables} {GC : GethCommon} {AJ : AddressJSON} {SS : SortSlice} {KC : Keccak}
        {EC : EnsChain N} {CC : ContractChain N} {AT : AbiTypes} {AL : AbiLib}.
Variables (io : RegistryIO) (testRegistries : gmap string Address).
Variables (defaultNetwork configNetwork : string) (receiveMaxLogRange : Z).
Variables (AddressOf : AccountRef → res error Address) (activeDefault : string).
Variables (raw_text : json → string) (data_json : gmap string ddval → json).

(** C33: A log query over a range that the span limit admits and that ends [span]
    blocks below 2^64 asks the node for consecutive chunks that partition exactly
    that range, at most [maxLogSpan / span + 1] of them, and ends: its loop is the
    sequence of those chunks. *)
Theorem log_query_partitions_range abi event dest topics fromBlk toBlk w :
  let span := maxLogRange receiveMaxLogRange in
  0 ≤ fromBlk ≤ toBlk → toBlk - fromBlk < maxLogSpan → toBlk + span < 2 ^ 64 →
  query_logs (N := N) receiveMaxLogRange log_fuel abi event dest topics fromBlk toBlk w =
    scan_chunks_of (log_chunk abi event dest topics) (chunk_list span fromBlk toBlk) w ∧
  Z.of_nat (length (chunk_list span fromBlk toBlk)) ≤ maxLogSpan / span + 1 ∧
  ∀ b, (∃ k, (Z.to_nat k < length (chunk_list span fromBlk toBlk))%nat ∧ 0 ≤ k ∧
     fromBlk + k * span ≤ b ≤ Z.min toBlk (fromBlk + k * span + span - 1)) ↔ fromBlk ≤ b ≤ toBlk.
Proof.
  intros span Hr Hw Hmax. assert (Hs : 0 < span) by (unfold span, maxLogRange; destruct (Z.ltb_spec 0 receiveMaxLogRange); lia).
  split_and!.
  - unfold query_logs, u64, maxLogSpan in *. fold span. rewrite Z.mod_small by lia. cbv zeta.
    replace (100000 <? toBlk - fromBlk + 1) with false by lia. unfold log_fuel.
    apply log_loop_chunks; try lia.
  - rewrite chunk_list_length by lia. unfold maxLogSpan in *.
    assert ((toBlk - fromBlk) / span ≤ 100000 / span) by (apply Z.div_le_mono; lia). lia.
  - intros b. by apply chunk_list_covers.
Qed.

(** C34: The span limit wraps around: the whole range from block 0 to block
    2^64 - 1 passes it, and against a node that answers every query the chunk
    loop is still running after any number of rounds that fit the range. *)
Theorem full_range_passes_limit abi event dest topics w n :
  (∀ q m, ∃ m', cc_FilterLogs q m = (Ok [], m')) →
  Z.of_nat n * maxLogRange receiveMaxLogRange < 2 ^ 64 →
  ∃ w', query_logs (N := N) receiveMaxLogRange (λ _ _ _, n) abi event dest topics 0 (2 ^ 64 - 1) w = (Ok None, w').
Proof.
  intros Hn Hlt. unfold query_logs. cbv zeta. change (maxLogSpan <? u64 (2 ^ 64 - 1 - 0 + 1)) with false. cbv iota.
  set (span := maxLogRange receiveMaxLogRange) in *.
  assert (Hs : 0 < span) by (unfold span, maxLogRange; destruct (Z.ltb_spec 0 receiveMaxLogRange); lia).
  assert (H : ∀ k start w, 0 ≤ start → start + Z.of_nat k * span < 2 ^ 64 →
    ∃ w', log_loop k (log_chunk abi event dest topics) span start (2 ^ 64 - 1) w = (Ok None, w')).
  { induction k as [|k IH]; intros start w0 H0 Hk; cbn [log_loop]; replace (2 ^ 64 - 1 <? start) with false by nia; [by eexists|].
    cbv zeta. unfold kbind. set (stop := if _ <? u64 _ then _ else _).
    assert (∃ w1, log_chunk abi event dest topics start stop w0 = (Ok [], w1)) as [w1 ->].
    { unfold log_chunk, kbind, call_net, on_net. destruct (Hn (mkFilterQuery dest topics start stop) (cx_net w0)) as [m' ->].
      by eexists. }
    unfold u64. rewrite Z.mod_small by nia. destruct (IH (start + span) w1) as [w2 ->]; [lia|nia|]. by eexists. }
  apply H; [lia|]. lia.
Qed.

(** No alias captures an address: where a contract is named by the text of an
    address, plain or checksummed, the destination is that address, whatever is in
    the contract registry and in the address book, and nothing is read or asked. *)
Theorem address_is_its_own_destination reqNetwork rpc network t a w :
  valid_addr a → address_text t a →
  resolveContractDest (N := N) io testRegistries reqNetwork rpc network t w = (Ok (mkDest a "" "literal" ""), w).
Proof.
  intros Ha Ht. unfold resolveContractDest. rewrite (is_plain_trim t (address_text_plain t a Ht)). cbv zeta.
  rewrite bool_decide_eq_false_2 by (by eapply address_text_nonempty).
  destruct (address_no_name t a Ha Ht) as [e He].
  rewrite (kbind_run _ _ _ None w); [by apply resolveDest_address|].
  unfold Contracts_Resolve. rewrite He. rewrite (on_registry_reads _ _ (Ok None)); [done|apply reads_mret|done].
Qed.

Lemma resolver_echo network rpc :
  resolver_ok (W := CWorld N) (λ _, True) (Some (addrResolverFor io testRegistries data_json network rpc)).
Proof.
  intros s w a p w'. unfold addrResolverFor. cbv zeta.
  assert (H : ∀ (r : res fault Dest * CWorld N),
    match r with
    | (Ok d, w) => (Ok (de_Address d, mkProv (TrimSpace s) (de_Address d) (de_Via d) (de_ENSName d)), w)
    | (Err (GoErr e), w) => (Err (Error_text data_json e), w)
    | (Err GoPanic, w) => (Err "", w)
    end = (Ok (a, p), w') → True ∧ (ap_Addr p = a ∨ ap_Addr p = 0)).
  { intros [[d|[e|]] w2]; try done. intros [= <- <- <-]. split; [done|by left]. }
  destruct (ParseAccountRef (TrimSpace s)) as [ref|]; [|apply H]. destruct (_ =? _); [|apply H].
  intros [= <- <- <-]. split; [done|by left].
Qed.

(** the address arguments of a call are among the echoes *)
Lemma echoes_every_address (inputs : list Argument) vs ps dest a :
  Forall3 echoes inputs vs ps → a ≠ 0 →
  (∃ i t, inputs !! i = Some t ∧ a_Type t = AddressTy ∧ vs !! i = Some (VAddress a)) →
  ∃ text d, (text, d) ∈ echoed dest ps ∧ de_Address d = a.
Proof.
  intros H Ha (i & t & Hi & Ht & Hv). destruct (Forall3_lookup_l _ _ _ _ i t H Hi) as (v & p & Hv' & Hp & He).
  rewrite Hv in Hv'. injection Hv' as <-.
  unfold echoes in He. rewrite Ht in He. injection He as He.
  exists ("arg " +:+ ap_Input p +:+ " "), (mkDest (ap_Addr p) (ap_ENSName p) (ap_Via p) (ap_ENSName p)). split; [|by symmetry].
  unfold echoed. right.
  apply (list_elem_of_fmap_2 (λ p, ("arg " +:+ ap_Input p +:+ " ", mkDest (ap_Addr p) (ap_ENSName p) (ap_Via p) (ap_ENSName p)))).
  apply list_elem_of_In, filter_In. split; [apply list_elem_of_In; by eapply list_elem_of_lookup_2|].
  rewrite <-He. apply negb_true_iff. lia.
Qed.

(** the entry of an alias *)
Definition registered (network alias : string) (w : CWorld N) (reg : Contract) : Prop :=
  (Contracts_Resolve io network alias (cx_dir w)).1 = Ok (Some reg).

Lemma resolve_trimmed network s : is_ascii s = true →
  Contracts_Resolve io network (TrimSpace s) = Contracts_Resolve io network s.
Proof.
  intros Ha. unfold Contracts_Resolve. destruct (decide (TrimSpace s = "")) as [E|E].
  - unfold canonicalName. by rewrite E.
  - assert (TrimSpace (TrimSpace s) = TrimSpace s) as Ht by (by apply tight_trim, trim_tight).
    unfold canonicalName. rewrite Ht. destruct (bool_decide (TrimSpace s = "")) eqn:Eb; [done|]. cbv zeta.
    unfold bad_name. destruct (IsHexAddress _); [done|]. destruct (64 <? _)%nat; [done|].
    destruct (ToLower (TrimSpace s)) as [|c rest]; [done|]. destruct (is_lower_alnum c); [|done]. cbn [negb].
    by destruct (bad_char rest).
Qed.

Lemma registered_read network alias w reg : registered network alias w reg →
  on_registry (Contracts_Resolve io network alias) w = (Ok (Some reg), w).
Proof. intros Hr. by rewrite (on_registry_reads _ _ (Ok (Some reg))); [|apply reads_contracts|]. Qed.

Lemma alias_abi network alias src w reg r w' :
  registered network alias w reg → resolveABISource (N := N) io raw_text network alias src w = (Ok r, w') →
  ParseJSON (raw_text (co_ABI reg)) = Ok r.1 ∧ r.2 = "" ∧ TrimSpace (ab_ABIJSON src) = "" ∧ TrimSpace (ab_Sig src) = "" ∧ w' = w.
Proof.
  intros Hr. unfold resolveABISource. rewrite (kbind_run _ _ _ (Some reg) w) by (by apply registered_read).
  cbn match. destruct (_ || _) eqn:Ee; [done|]. apply orb_false_iff in Ee as [E1 E2].
  apply negb_false_iff, bool_decide_eq_true in E1, E2. intros (abi & w1 & (Hp & ->)%klift_ok & (-> & ->)%kret_ok)%kbind_ok.
  by split_and!.
Qed.

Lemma alias_destination reqNetwork rpc network alias w reg d w' :
  is_ascii alias = true → registered network alias w reg →
  resolveContractDest (N := N) io testRegistries reqNetwork rpc network alias w = (Ok d, w') →
  d = mkDest (co_Address reg) (co_Alias reg) "contract" "" ∧ w' = w.
Proof.
  intros Ha Hr. unfold resolveContractDest. cbv zeta. destruct (bool_decide (TrimSpace alias = "")) eqn:E; [done|].
  rewrite (kbind_run _ _ _ (Some reg) w) by (rewrite resolve_trimmed by done; by apply registered_read).
  cbn match. intros H. by apply kret_ok in H as [-> ->].
Qed.

(** C5: A contract send to an alias of the registry, written in ASCII, is bound to
    one registry entry: the destination of the transaction, which the policy
    judges, is the address of the entry, its call data is packed from well-typed
    arguments by the ABI of that same entry, and a request that also brings an
    ABI is refused.  Before anything is signed, the destination is echoed, and
    so is every argument that is itself an address, other than the zero address;
    the addresses inside an array or a tuple are resolved and packed but not
    echoed, as the comment of coercer says. *)
Theorem alias_binds_abi_and_destination source req w reg intent echo w' :
  is_ascii (kq_Contract req) = true →
  registered (network_of defaultNetwork configNetwork (kq_Network req)) (kq_Contract req) w reg →
  resolveContractSendIntent (N := N) io testRegistries defaultNetwork configNetwork AddressOf activeDefault raw_text data_json
    source req w = (Ok (intent, echo), w') →
  in_to intent = co_Address reg ∧ in_dest intent = mkDest (co_Address reg) (co_Alias reg) "contract" "" ∧
  in_isContractSend intent = true ∧ in_acked intent = kq_AckUnlimited req ∧
  TrimSpace (ab_ABIJSON (kq_ABI req)) = "" ∧ TrimSpace (ab_Sig (kq_ABI req)) = "" ∧
  ∃ abi method m vs, ParseJSON (raw_text (co_ABI reg)) = Ok abi ∧ Methods abi !! method = Some m ∧
    PackCall abi method vs = Ok (in_data intent) ∧
    Forall2 (λ a v, well_typed (λ _, True) (a_Type a) v) (m_Inputs m) vs ∧
    head echo = Some ("contract ", in_dest intent) ∧
    ∀ i t a, m_Inputs m !! i = Some t → a_Type t = AddressTy → vs !! i = Some (VAddress a) → a ≠ 0 →
      ∃ text d, (text, d) ∈ echo ∧ de_Address d = a.
Proof.
  intros Ha Hreg. unfold resolveContractSendIntent. cbv zeta. destruct (bool_decide _); [done|].
  intros (fr & ? & (_ & ->)%klift_ok & H)%kbind_ok. apply kbind_ok in H as (from & ? & (_ & ->)%klift_ok & H).
  apply kbind_ok in H as (src & w1 & Hs & H). apply (alias_abi _ _ _ _ reg) in Hs as (Habi & Hn & He1 & He2 & ->); [|done].
  apply kbind_ok in H as (method & ? & (_ & ->)%klift_ok & H). apply kbind_ok in H as (dest & ? & Hd & H).
  apply (alias_destination _ _ _ _ _ reg) in Hd as [-> ->]; [|done..].
  apply kbind_ok in H as ([vs ps] & w2 & Hc & H). apply kbind_ok in H as (data & ? & (Hp & ->)%klift_ok & H).
  apply kbind_ok in H as (v & ? & (_ & ->)%klift_ok & H). apply kbind_ok in H as (? & w3 & _ & H).
  apply kbind_ok in H as (chain & w4 & _ & H). apply kbind_ok in H as (int & ? & (Hi & ->)%klift_ok & H).
  apply kret_ok in H as [[= -> ->] ->]. unfold contractIntent in Hi. apply rbind_ok in Hi as (value & _ & [= <-]).
  pose proof (CoerceArgs_typed (λ _, True) _ src.1 method (kq_Args req) w
                (resolver_echo (kq_Network req) (kq_RPC req))) as Ht.
  unfold coerce_args in Hc. rewrite Hc in Ht. cbn [fst] in Ht. destruct Ht as (m & Hm & _ & Hty & Hecho).
  split_and!; [done..|]. exists src.1, method, m, vs. split_and!; [done|done|done| |done|].
  - eapply Forall2_impl; [exact Hty|]. intros ar vv Hx; exact (proj1 Hx).
  - intros i t a Hi Ht Hv Hne. eapply echoes_every_address; [exact Hecho|done|by exists i, t].
Qed.

(** a contact reached by a padded name keeps the name as it was typed *)
Lemma padded_contact_keeps_text network rpc to w a :
  (Contacts_Resolve io to (cx_dir w)).1 = Ok (Some a) → reads_only (Contacts_Resolve io to) → to ≠ "" → is_ok (ParseAccountRef to) = false →
  resolveDest (N := N) io testRegistries network rpc to w = (Ok (mkDest a to "contact" ""), w).
Proof.
  intros Hr Hro Hne Hp. unfold resolveDest. rewrite bool_decide_eq_false_2 by done.
  destruct (ParseAccountRef to); [done|]. unfold contact_dest. by rewrite (kbind_run _ _ _ (Some a) w) by (by rewrite (on_registry_reads _ _ (Ok (Some a)))).
Qed.
End Properties.

(** ** Witnesses *)

Section Witnesses.
#[local] Existing Instance ascii_tables.
#[local] Existing Instance geth_ref.
#[local] Existing Instance abi_ref.
#[local] Existing Instance stable_slice.
#[local] Existing Instance hex_json.

(** a compiler that knows one ABI *)
Definition pay_lib : AbiLib := {|
  abi_JSON := λ _, Ok pay_abi;
  abi_Pack := @abi_Pack word_lib; Unpack := @Unpack word_lib; MethodById := @MethodById word_lib;
  MakeTopics := @MakeTopics word_lib; UnpackIntoMap := @UnpackIntoMap word_lib;
  ParseTopicsIntoMap := @ParseTopicsIntoMap word_lib;
|}.
#[local] Existing Instance pay_lib.

(** a node without logs that counts the calls *)
Definition quiet_chain : ContractChain Z := {|
  cc_CallContract := λ _ _ n, (Ok "", n + 1);
  cc_BlockNumber := λ n, (Ok 100, n + 1);
  cc_FilterLogs := λ _ n, (Ok [], n + 1);
  cc_ChainID := λ n, (Ok 1, n + 1);
|}.
#[local] Existing Instance quiet_chain.

Definition pool_dir : Dir := after ∅ (Contracts_Add rio_ok "mainnet" "Pool" 5 "[1]" ∅).2.
Definition pool_world : CWorld Z := mkCW pool_dir 0.
Definition pool_entry : Contract := mkContract "pool" 5 (JArr [JNum "1"]).

Definition pool_send : ContractSendRequest := {|
  kq_Contract := " POOL "; kq_Method := "transfer"; kq_Args := [hex40 7; "0x10"]; kq_ABI := mkABISource "" "" "";
  kq_Value := "0"; kq_From := hex40 9; kq_GasLimit := ""; kq_MaxFee := ""; kq_PriorityFee := ""; kq_GasPrice := "";
  kq_Speed := ""; kq_Legacy := false; kq_Nonce := None; kq_Network := "mainnet"; kq_RPC := ""; kq_DryRun := false;
  kq_AckUnlimited := false |}.

Definition run_pool_send : res fault (Intent * list (string * Dest)) * CWorld Z :=
  resolveContractSendIntent rio_ok ∅ "mainnet" "mainnet" (λ r, Ok (ar_Addr r)) "" render (λ _, JNull) "cli" pool_send pool_world.

Lemma pool_registered : registered rio_ok (network_of "mainnet" "mainnet" "mainnet") " POOL " pool_world pool_entry.
Proof. vm_compute. reflexivity. Qed.

Lemma alias_binds_abi_and_destination_witness :
  ∃ intent echo w', run_pool_send = (Ok (intent, echo), w') ∧ in_to intent = 5.
Proof.
  destruct run_pool_send as [r w'] eqn:E. assert (Hr : is_ok run_pool_send.1 = true) by (vm_compute; reflexivity).
  rewrite E in Hr. destruct r as [[intent echo]|]; [|discriminate Hr]. exists intent, echo, w'. split; [reflexivity|].
  exact (proj1 (alias_binds_abi_and_destination rio_ok ∅ "mainnet" "mainnet" (λ r, Ok (ar_Addr r)) "" render (λ _, JNull)
           "cli" pool_send pool_world pool_entry intent echo w' eq_refl pool_registered E)).
Defined.

Lemma address_is_its_own_destination_witness :
  resolveContractDest (N := Z) rio_ok ∅ "mainnet" "" "mainnet" (hex40 7) pool_world = (Ok (mkDest 7 "" "literal" ""), pool_world).
Proof. apply address_is_its_own_destination; [done|by right]. Defined.

Lemma log_query_partitions_range_witness :
  query_logs (N := Z) 1000 log_fuel pay_abi "E" 5 [] 10 3500 pool_world =
    scan_chunks_of (log_chunk pay_abi "E" 5 []) (chunk_list 1000 10 3500) pool_world ∧
  chunk_list 1000 10 3500 = [(10, 1009); (1010, 2009); (2010, 3009); (3010, 3500)].
Proof.
  split; [|vm_compute; reflexivity].
  exact (proj1 (log_query_partitions_range 1000 pay_abi "E" 5 [] 10 3500 pool_world ltac:(lia) ltac:(unfold maxLogSpan; lia) ltac:(vm_compute; reflexivity))).
Defined.

Lemma full_range_passes_limit_witness :
  ∃ w', query_logs (N := Z) 1000 (λ _ _ _, 1000%nat) pay_abi "E" 5 [] 0 (2 ^ 64 - 1) pool_world = (Ok None, w').
Proof. apply full_range_passes_limit; [intros q m; by eexists|vm_compute; reflexivity]. Defined.
End Witnesses.
