(* ===== verification/KeyText.v ===== *)
(** * The texts of the keystore: [internal/keys/codec.go], [meta.go], [derive.go]

    The string-free codec of the secret document of a wallet, the grammar of
    names, aliases and indices, and the text of a raw private key.  A byte slice
    is the string of its bytes; the cursor of the scanner is the text behind it. *)

From S2P Require Import Prelude GoStrings Decimal HexBytes Domain Refs.

Local Open Scope string_scope.
Local Open Scope Z_scope.
Local Open Scope go_scope.

(** ** The wallet plaintext (codec.go) *)

(** a two-byte escape, and one byte as a text *)
Definition byte1 (z : Z) : string := String (Zbyte z) "".
Definition esc1 (z : Z) : string := String (Zbyte 92) (byte1 z).

(** appendJSONString, byte by byte *)
Definition escape_byte (c : Ascii.ascii) : string :=
  let b := byteZ c in
  if b =? 34 then esc1 34
  else if b =? 92 then esc1 92
  else if b =? 10 then esc1 110
  else if b =? 13 then esc1 114
  else if b =? 9 then esc1 116
  else if b <? 32
  then esc1 117 +:+ "00" +:+ String (digit_char (Z.shiftr b 4)) (String (digit_char (Z.land b 15)) "")
  else String c "".

Fixpoint escape_bytes (s : string) : string :=
  match s with
  | "" => ""
  | String c s => escape_byte c +:+ escape_bytes s
  end.

Definition appendJSONString (dst b : string) : string := dst +:+ byte1 34 +:+ escape_bytes b +:+ byte1 34.

Definition jkey (k : string) : string := byte1 34 +:+ k +:+ byte1 34 +:+ ":".

Definition walletPlaintextVersion : Z := 1.

Definition encodePlaintext (mnemonic bip39pass : string) : string :=
  let out := "{" +:+ jkey "v" +:+ byte1 (48 + walletPlaintextVersion) in
  let out := appendJSONString (out +:+ "," +:+ jkey "mnemonic") mnemonic in
  let out := appendJSONString (out +:+ "," +:+ jkey "bip39_passphrase") bip39pass in
  out +:+ "}".

(** *** The scanner *)

Definition json_ws (c : Ascii.ascii) : bool :=
  (byteZ c =? 32) || (byteZ c =? 9) || (byteZ c =? 10) || (byteZ c =? 13).

Fixpoint ws (s : string) : string :=
  match s with
  | String c r => if json_ws c then ws r else s
  | "" => ""
  end.

(** byteIs: the text behind the byte, when it is there *)
Definition byteIs (z : Z) (s : string) : option string :=
  match s with
  | String c r => if byteZ c =? z then Some r else None
  | "" => None
  end.

Definition parseHex4 (a b c d : Ascii.ascii) : option Z :=
  match hexVal a, hexVal b, hexVal c, hexVal d with
  | Some a, Some b, Some c, Some d => Some (((a * 16 + b) * 16 + c) * 16 + d)
  | _, _, _, _ => None
  end.

(** the bytes appendRune appends for a rune of four hexadecimal digits *)
Definition appendRune (u : Z) : string :=
  if u <? 0x80 then byte1 (Z.land u 0xFF)
  else if u <? 0x800
  then byte1 (Z.land (Z.lor 0xC0 (Z.shiftr u 6)) 0xFF) +:+ byte1 (Z.land (Z.lor 0x80 (Z.land u 0x3F)) 0xFF)
  else byte1 (Z.land (Z.lor 0xE0 (Z.shiftr u 12)) 0xFF) +:+
       byte1 (Z.land (Z.lor 0x80 (Z.land (Z.shiftr u 6) 0x3F)) 0xFF) +:+
       byte1 (Z.land (Z.lor 0x80 (Z.land u 0x3F)) 0xFF).

(** the escapes of one byte *)
Definition escape_char (e : Z) : option Z :=
  if e =? 34 then Some 34
  else if e =? 92 then Some 92
  else if e =? 47 then Some 47
  else if e =? 110 then Some 10
  else if e =? 114 then Some 13
  else if e =? 116 then Some 9
  else if e =? 98 then Some 8
  else if e =? 102 then Some 12
  else None.

(** the value and the rest *)
Definition scanned : Type := option (string * string).
Definition emit (p : string) (r : scanned) : scanned := (λ '(out, s), (p +:+ out, s)) <$> r.

(** the loop of stringBytes, behind the opening quote *)
Fixpoint string_body (s : string) : scanned :=
  match s with
  | "" => None
  | String c s =>
      if byteZ c =? 34 then Some ("", s)
      else if byteZ c =? 92 then
        match s with
        | "" => None
        | String e s =>
            if byteZ e =? 117 then
              match s with
              | String h1 (String h2 (String h3 (String h4 s))) =>
                  match parseHex4 h1 h2 h3 h4 with
                  | Some r => emit (appendRune r) (string_body s)
                  | None => None
                  end
              | _ => None
              end
            else match escape_char (byteZ e) with
                 | Some z => emit (byte1 z) (string_body s)
                 | None => None
                 end
        end
      else emit (String c "") (string_body s)
  end.

Definition stringBytes (s : string) : scanned :=
  match byteIs 34 s with Some r => string_body r | None => None end.

Definition number_char (c : Ascii.ascii) : bool :=
  is_digit c || (byteZ c =? 45) || (byteZ c =? 43) || (byteZ c =? 46) || (byteZ c =? 101) || (byteZ c =? 69).

Fixpoint skip_number_chars (s : string) : string :=
  match s with
  | String c r => if number_char c then skip_number_chars r else s
  | "" => ""
  end.

Definition skipNumber (s : string) : option string :=
  match s with
  | String c _ => if number_char c then Some (skip_number_chars s) else None
  | "" => None
  end.

(** the loop of skipContainer; a string inside is skipped as a whole *)
Fixpoint skip_container (n : nat) (open closeCh depth : Z) (s : string) : option string :=
  match n, s with
  | O, _ | _, "" => None
  | S n, String c r =>
      if byteZ c =? 34 then
        match stringBytes s with Some (_, s) => skip_container n open closeCh depth s | None => None end
      else if byteZ c =? open then skip_container n open closeCh (depth + 1) r
      else if byteZ c =? closeCh then
        if depth - 1 =? 0 then Some r else skip_container n open closeCh (depth - 1) r
      else skip_container n open closeCh depth r
  end.

Definition skipContainer (s : string) : option string :=
  match s with
  | "" => None
  | String c _ =>
      let closeCh := if byteZ c =? 91 then 93 else 125 in
      skip_container (S (String.length s)) (byteZ c) closeCh 0 s
  end.

Definition skipLiteral (lit s : string) : option string :=
  if String.prefix lit s then Some (sdrop (String.length lit) s) else None.

Definition skipValue (s : string) : option string :=
  match ws s with
  | "" => None
  | String c _ as s =>
      let b := byteZ c in
      if b =? 34 then snd <$> stringBytes s
      else if (b =? 123) || (b =? 91) then skipContainer s
      else if b =? 116 then skipLiteral "true" s
      else if b =? 102 then skipLiteral "false" s
      else if b =? 110 then skipLiteral "null" s
      else skipNumber s
  end.

(** *** The document *)

(** what the loop has read: the mnemonic (and haveMnemonic), the passphrase *)
Record plaintext := mkPlain { pt_mnemonic : option string; pt_bip39 : string }.

(** one member: its key, the colon and its value *)
Definition decode_member (st : plaintext) (s : string) : option (plaintext * string) :=
  match stringBytes s with
  | None => None
  | Some (key, s) =>
      match byteIs 58 (ws s) with
      | None => None
      | Some s =>
          let s := ws s in
          if bool_decide (key = "mnemonic") then
            (λ '(v, s), (mkPlain (Some v) (pt_bip39 st), s)) <$> stringBytes s
          else if bool_decide (key = "bip39_passphrase") then
            (λ '(v, s), (mkPlain (pt_mnemonic st) v, s)) <$> stringBytes s
          else if bool_decide (key = "v") then pair st <$> skipNumber s
          else pair st <$> skipValue s
      end
  end.

Fixpoint decode_members (n : nat) (st : plaintext) (s : string) : option plaintext :=
  match n with
  | O => None
  | S n =>
      let s := ws s in
      match byteIs 125 s with
      | Some _ => Some st
      | None =>
          match decode_member st s with
          | None => None
          | Some (st, s) =>
              let s := ws s in
              match byteIs 44 s with
              | Some s => decode_members n st s
              | None => match byteIs 125 s with Some _ => Some st | None => None end
              end
          end
      end
  end.

(** [None] is errBadPlaintext *)
Definition decodePlaintext (p : string) : option (string * string) :=
  match byteIs 123 (ws p) with
  | None => None
  | Some s =>
      match decode_members (S (String.length s)) (mkPlain None "") s with
      | Some (mkPlain (Some m) b) => if bool_decide (m = "") then None else Some (m, b)
      | _ => None
      end
  end.

(** ** Names, aliases and indices (meta.go) *)

Definition maxNameLen : nat := 64.

Definition isHexDigit (c : Ascii.ascii) : bool :=
  is_digit c || (97 <=? byteZ c) && (byteZ c <=? 102) || (65 <=? byteZ c) && (byteZ c <=? 70).

Definition looksLikeAddressShape (s : string) : bool :=
  (String.length s =? 42)%nat &&
  match s with
  | String z (String x r) =>
      (byteZ z =? 48) && ((byteZ x =? 120) || (byteZ x =? 88)) && string_forallb isHexDigit r
  | _ => false
  end.

Definition name_rest_char (c : Ascii.ascii) : bool := is_lower_alnum c || (byteZ c =? 45) || (byteZ c =? 95).

Definition validName (s : string) : bool :=
  negb (bool_decide (s = "") || (maxNameLen <? String.length s)%nat) && negb (looksLikeAddressShape s) &&
  match s with
  | "" => false
  | String c r => is_lower_alnum c && string_forallb name_rest_char r
  end.

Definition isAllDigits (s : string) : bool := negb (bool_decide (s = "")) && string_forallb is_digit s.

Definition validAlias (s : string) : bool := validName s && negb (isAllDigits s).

(** the loop of parseDecimalIndex, in uint64: it stops before it wraps *)
Fixpoint decimal_index (s : string) (v : Z) : option Z :=
  match s with
  | "" => Some v
  | String c s =>
      if negb (is_digit c) then None else
      let v := v * 10 + (byteZ c - 48) in
      if 0xFFFFFFFF <? v then None else decimal_index s v
  end.

Definition parseDecimalIndex (s : string) : option Z :=
  match s with
  | "" => None
  | String c (String _ _) => if byteZ c =? 48 then None else decimal_index s 0
  | _ => decimal_index s 0
  end.

(** the loop of uitoa: a uint64 has at most 20 digits *)
Fixpoint uitoa_loop (fuel : nat) (n : Z) (buf : string) : string :=
  match fuel with
  | O => buf
  | S fuel => if 0 <? n then uitoa_loop fuel (n / 10) (String (Zbyte (48 + n mod 10)) buf) else buf
  end.

Definition uitoa (n : Z) : string := if n =? 0 then "0" else uitoa_loop 20 n "".
Definition indexKey (i : Z) : string := uitoa i.

Definition defaultPathPrefix := "m/44'/60'/0'/0".
Definition hardened : Z := 2 ^ 31.
Definition pathString (index : Z) : string := defaultPathPrefix +:+ "/" +:+ uitoa index.

Definition equalFold (a b : string) : bool :=
  bool_decide (String.length a = String.length b) && bool_decide (string_map lower_byte a = string_map lower_byte b).

(** ** A raw private key (derive.go) *)

Definition CodeUsageBadKey := "usage.bad_key".

Definition key_space (c : Ascii.ascii) : bool :=
  (byteZ c =? 32) || (byteZ c =? 9) || (byteZ c =? 10) || (byteZ c =? 13).

Fixpoint trim_left (s : string) : string :=
  match s with
  | String c r => if key_space c then trim_left r else s
  | "" => ""
  end.

Definition trimSpace (b : string) : string := srev (trim_left (srev (trim_left b))).

Definition isHexBytes (b : string) : bool :=
  string_forallb (λ c, match hexVal c with Some _ => true | None => false end) b && negb (bool_decide (b = "")).

Definition strip0x (s : string) : string :=
  match s with
  | String z (String x r) => if (byteZ z =? 48) && ((byteZ x =? 120) || (byteZ x =? 88)) then r else s
  | _ => s
  end.

Definition bad_key (msg : string) : error := New CodeUsageBadKey msg.

Definition decodeKeyBytes (raw : string) : res error string :=
  let s := strip0x (trimSpace raw) in
  if isHexBytes s then
    if Nat.odd (String.length s) then Err (bad_key "the private key hex has an odd length")
    else match decode_pairs s with
         | Some b => Ok b
         | None => Err (bad_key "the private key hex is malformed")
         end
  else if (String.length raw =? 32)%nat then Ok raw
  else Err (bad_key "the private key must be 32-byte hex (with or without 0x)").

(** the order of the group of secp256k1 *)
Definition curveN : Z := 0xfffffffffffffffffffffffffffffffebaaedce6af48a03bbfd25e8cd0364141.

(** a private key is its scalar; [crypto.ToECDSA] takes 32 bytes in range *)
Definition privateKeyFromRaw (rawKey : string) : res error Z :=
  let* b := decodeKeyBytes rawKey in
  if negb (String.length b =? 32)%nat
  then Err (bad_key ("a private key must be 32 bytes (got " +:+ z_string (Z.of_nat (String.length b)) +:+ ")"))
  else let d := SetBytes b in
       if (d =? 0) || (curveN <=? d)
       then Err (bad_key "the private key is out of range (must be in [1, n-1] for secp256k1)")
       else Ok d.

(** the text of an exported key *)
Definition privateKeyHex (priv : Z) : string := "0x" +:+ hexEncode (be_bytes 32 priv).

(** ** Reading the plaintext back *)

Lemma byteIs_hit z s : 0 ≤ z < 256 → byteIs z (byte1 z +:+ s) = Some s.
Proof. intros Hz. unfold byte1. rewrite string_app_cons, string_app_nil_l. cbn [byteIs]. by rewrite byteZ_Zbyte, Z.eqb_refl. Qed.

Lemma emit_some p out s : emit p (Some (out, s)) = Some (p +:+ out, s).
Proof. done. Qed.

(** the control bytes have the escape of their two digits *)
Lemma control_escape b : 0 ≤ b < 32 → parseHex4 (Zbyte 48) (Zbyte 48) (digit_char (Z.shiftr b 4)) (digit_char (Z.land b 15)) = Some b.
Proof.
  intros Hb. assert (E : Z.land b 15 = b mod 16) by apply (Z.land_ones b 4 ltac:(lia)).
  rewrite E, Z.shiftr_div_pow2 by lia. unfold parseHex4. change (hexVal (Zbyte 48)) with (Some 0).
  rewrite !hexVal_digit by (change (2 ^ 4) with 16; zlia). f_equal. change (2 ^ 4) with 16. zlia.
Qed.

Lemma appendRune_ascii b : 0 ≤ b < 128 → appendRune b = byte1 b.
Proof.
  intros Hb. unfold appendRune. destruct (Z.ltb_spec b 0x80); [|lia].
  change 0xFF with (Z.ones 8). rewrite Z.land_ones by lia. f_equal. by apply Z.mod_small; lia.
Qed.

(** an escape that reads back as the byte [z], through the letter [e] *)
Lemma string_body_esc e z s :
  0 ≤ e < 256 → e ≠ 117 → escape_char e = Some z → string_body (esc1 e +:+ s) = emit (byte1 z) (string_body s).
Proof.
  intros He Hu Hz. unfold esc1. rewrite string_app_cons. cbn [string_body]. rewrite byteZ_Zbyte by lia. cbn [Z.eqb Pos.eqb].
  unfold byte1 at 1. rewrite string_app_cons, string_app_nil_l, byteZ_Zbyte by lia.
  destruct (Z.eqb_spec e 117); [done|]. by rewrite Hz.
Qed.

Lemma string_body_escape c s : string_body (escape_byte c +:+ s) = emit (String c "") (string_body s).
Proof.
  pose proof (byteZ_range c) as Hc. unfold escape_byte.
  assert (B : ∀ z, byteZ c = z → String c "" = byte1 z) by (intros z <-; unfold byte1; by rewrite Zbyte_byteZ).
  repeat match goal with
  | |- context [if byteZ c =? ?z then esc1 _ else _] =>
      destruct (Z.eqb_spec (byteZ c) z) as [E|?]; [by rewrite (B _ E), (string_body_esc _ z)|]
  end.
  destruct (Z.ltb_spec (byteZ c) 32) as [Hlt|Hge].
  - unfold esc1. rewrite !string_app_cons. cbn [string_body]. rewrite byteZ_Zbyte by lia. cbn [Z.eqb Pos.eqb].
    unfold byte1 at 1. rewrite !string_app_cons, !string_app_nil_l, byteZ_Zbyte by lia. cbn [Z.eqb Pos.eqb].
    change "00" with (String (Zbyte 48) (String (Zbyte 48) "")).
    rewrite !string_app_cons, !string_app_nil_l, control_escape, appendRune_ascii by lia. by rewrite (B _ eq_refl).
  - rewrite string_app_cons, string_app_nil_l. cbn [string_body].
    destruct (Z.eqb_spec (byteZ c) 34); [done|]. destruct (Z.eqb_spec (byteZ c) 92); [done|]. done.
Qed.

Lemma string_body_bytes b s : string_body (escape_bytes b +:+ byte1 34 +:+ s) = Some (b, s).
Proof.
  induction b as [|c b IH].
  - cbn [escape_bytes]. rewrite string_app_nil_l. unfold byte1. rewrite string_app_cons, string_app_nil_l.
    cbn [string_body]. by rewrite byteZ_Zbyte by lia.
  - cbn [escape_bytes]. by rewrite string_app_assoc, string_body_escape, IH, emit_some.
Qed.

Lemma stringBytes_quoted b s : stringBytes (byte1 34 +:+ (escape_bytes b +:+ byte1 34 +:+ s)) = Some (b, s).
Proof. unfold stringBytes. rewrite byteIs_hit by lia. apply string_body_bytes. Qed.

Lemma ws_byte z s : 0 ≤ z < 256 → json_ws (Zbyte z) = false → ws (byte1 z +:+ s) = byte1 z +:+ s.
Proof. intros Hz Hw. unfold byte1. rewrite string_app_cons. cbn [ws]. by rewrite Hw. Qed.

(** the member of a key without escapes *)
Lemma member_key st k s : escape_bytes k = k →
  decode_member st (jkey k +:+ s) =
  let s := ws s in
  if bool_decide (k = "mnemonic") then (λ '(v, s), (mkPlain (Some v) (pt_bip39 st), s)) <$> stringBytes s
  else if bool_decide (k = "bip39_passphrase") then (λ '(v, s), (mkPlain (pt_mnemonic st) v, s)) <$> stringBytes s
  else if bool_decide (k = "v") then pair st <$> skipNumber s
  else pair st <$> skipValue s.
Proof.
  intros Hk. unfold decode_member, jkey. rewrite !string_app_assoc. rewrite <-Hk at 1. rewrite stringBytes_quoted.
  change (":" +:+ s) with (byte1 58 +:+ s). by rewrite ws_byte, byteIs_hit by (done || lia).
Qed.

Lemma decode_members_mono n m st s r :
  decode_members n st s = Some r → (n ≤ m)%nat → decode_members m st s = Some r.
Proof.
  revert m st s. induction n as [|n IH]; intros [|m] st s H Hm; [done|done|lia|]. cbn [decode_members] in *.
  destruct (byteIs 125 (ws s)); [done|]. destruct (decode_member st (ws s)) as [[st' s']|]; [|done].
  destruct (byteIs 44 (ws s')); [|done]. apply IH; [done|lia].
Qed.

(** a member whose value is a written string, and what follows *)
Lemma members_string n st k v s : escape_bytes k = k → k = "mnemonic" ∨ k = "bip39_passphrase" →
  decode_members (S n) st (jkey k +:+ (byte1 34 +:+ (escape_bytes v +:+ (byte1 34 +:+ s)))) =
  let st := if bool_decide (k = "mnemonic") then mkPlain (Some v) (pt_bip39 st) else mkPlain (pt_mnemonic st) v in
  let s := ws s in
  match byteIs 44 s with
  | Some s => decode_members n st s
  | None => match byteIs 125 s with Some _ => Some st | None => None end
  end.
Proof.
  intros Hk Hor. cbn [decode_members].
  assert (E : ∀ r, ws (jkey k +:+ r) = jkey k +:+ r).
  { intros r. unfold jkey. rewrite string_app_assoc. by apply ws_byte. }
  rewrite E. assert (N : ∀ r, byteIs 125 (jkey k +:+ r) = None).
  { intros r. unfold jkey, byte1. rewrite !string_app_cons. cbn [byteIs]. by rewrite byteZ_Zbyte by lia. }
  rewrite N, member_key by done. cbn zeta. rewrite ws_byte by (done || lia). rewrite stringBytes_quoted.
  destruct Hor as [-> | ->]; done.
Qed.

Lemma decode_encode mnemonic bip39pass :
  mnemonic ≠ "" → decodePlaintext (encodePlaintext mnemonic bip39pass) = Some (mnemonic, bip39pass).
Proof.
  intros Hm. unfold encodePlaintext, appendJSONString. rewrite !string_app_assoc.
  set (tl := jkey "bip39_passphrase" +:+ (byte1 34 +:+ (escape_bytes bip39pass +:+ (byte1 34 +:+ "}")))).
  set (s := jkey "v" +:+ (byte1 (48 + walletPlaintextVersion) +:+ ("," +:+
              (jkey "mnemonic" +:+ (byte1 34 +:+ (escape_bytes mnemonic +:+ (byte1 34 +:+ ("," +:+ tl)))))))).
  unfold decodePlaintext. change ("{" +:+ s) with (byte1 123 +:+ s). rewrite ws_byte, byteIs_hit by (done || lia).
  assert (H : decode_members 3 (mkPlain None "") s = Some (mkPlain (Some mnemonic) bip39pass)).
  { unfold s. change (decode_members 3 ?st (jkey "v" +:+ (byte1 (48 + walletPlaintextVersion) +:+ ("," +:+ ?r))))
      with (decode_members 2 st r).
    rewrite members_string by (done || by left). cbn zeta.
    change (ws ("," +:+ tl)) with ("," +:+ tl). change (byteIs 44 ("," +:+ tl)) with (Some tl). cbv beta iota.
    unfold tl. rewrite members_string by (done || by right). done. }
  rewrite (decode_members_mono _ _ _ _ _ H) by (unfold s, jkey; rewrite !string_app_assoc, !string_length_app; cbn [String.length byte1]; lia).
  by rewrite bool_decide_eq_false_2.
Qed.

(** *** The fuel of the loops *)

Lemma byteIs_length z s r : byteIs z s = Some r → String.length s = S (String.length r).
Proof. destruct s as [|c s]; [done|]. cbn. destruct (_ =? _); [|done]. by intros [= ->]. Qed.

Lemma ws_length s : (String.length (ws s) ≤ String.length s)%nat.
Proof. induction s as [|c s IH]; [done|]. cbn [ws]. destruct (json_ws c); [cbn [String.length]; lia|done]. Qed.

Lemma emit_length p r out s : emit p r = Some (out, s) → ∃ o, r = Some (o, s).
Proof. destruct r as [[o s']|]; [|done]. intros [= _ ->]. eauto. Qed.

Lemma string_body_length s out r : string_body s = Some (out, r) → (String.length r < String.length s)%nat.
Proof.
  assert (H : ∀ n s out r, (String.length s ≤ n)%nat → string_body s = Some (out, r) → (String.length r < String.length s)%nat).
  2: { by apply (H (String.length s)). }
  clear. induction n as [|n IH]; intros [|c s] out r Hn H; try done; [cbn in Hn; lia|]. cbn [String.length] in *.
  cbn [string_body] in H. destruct (_ =? 34); [injection H as _ ->; lia|]. destruct (_ =? 92).
  2: { apply emit_length in H as [o H]. apply IH in H; lia. }
  destruct s as [|e s]; [done|]. cbn [String.length] in *. destruct (_ =? 117).
  - destruct s as [|h1 [|h2 [|h3 [|h4 s]]]]; try done. cbn [String.length] in *. destruct (parseHex4 _ _ _ _); [|done].
    apply emit_length in H as [o H]. apply IH in H; lia.
  - destruct (escape_char _); [|done]. apply emit_length in H as [o H]. apply IH in H; lia.
Qed.

Lemma stringBytes_length s out r : stringBytes s = Some (out, r) → (String.length r < String.length s)%nat.
Proof.
  unfold stringBytes. destruct (byteIs 34 s) as [t|] eqn:E; [|done]. intros H%string_body_length.
  apply byteIs_length in E. lia.
Qed.

Lemma skip_number_length s : (String.length (skip_number_chars s) ≤ String.length s)%nat.
Proof. induction s as [|c s IH]; [done|]. cbn [skip_number_chars]. destruct (number_char c); [cbn [String.length]; lia|done]. Qed.

Lemma skipNumber_length s r : skipNumber s = Some r → (String.length r < String.length s)%nat.
Proof.
  destruct s as [|c s]; [done|]. cbn [skipNumber]. destruct (number_char c) eqn:E; [|done]. intros [= <-].
  cbn [skip_number_chars]. rewrite E. cbn [String.length]. pose proof (skip_number_length s). lia.
Qed.

Lemma skip_container_length n o c d s r : skip_container n o c d s = Some r → (String.length r < String.length s)%nat.
Proof.
  revert d s. induction n as [|n IH]; intros d [|b s] H; try done. cbn [skip_container] in H. cbn [String.length].
  destruct (_ =? 34).
  - destruct (stringBytes _) as [[x t]|] eqn:E; [|done]. apply stringBytes_length in E. apply IH in H. cbn [String.length] in E. lia.
  - destruct (_ =? o); [apply IH in H; lia|]. destruct (_ =? c); [|apply IH in H; lia].
    destruct (_ =? 0); [injection H as ->; lia|apply IH in H; lia].
Qed.

Lemma prefix_length p s : String.prefix p s = true → (String.length p ≤ String.length s)%nat.
Proof.
  revert s. induction p as [|c p IH]; intros s H; [cbn; lia|]. destruct s as [|b s]; [done|]. cbn [String.prefix] in H.
  destruct (Ascii.ascii_dec c b); [|done]. apply IH in H. cbn [String.length]. lia.
Qed.

Lemma skipValue_length s r : skipValue s = Some r → (String.length r < String.length s)%nat.
Proof.
  unfold skipValue. pose proof (ws_length s) as Hw. destruct (ws s) as [|c t]; [done|]. intros H.
  enough ((String.length r < String.length (String c t))%nat) by lia.
  assert (L : ∀ l, l ≠ "" → skipLiteral l (String c t) = Some r → (String.length r < String.length (String c t))%nat).
  { intros l Hl. unfold skipLiteral. destruct (String.prefix l (String c t)) eqn:Hp; [|done]. apply prefix_length in Hp.
    intros [= <-]. rewrite sdrop_length. destruct l; [done|]. cbn [String.length] in *. lia. }
  destruct (_ =? 34).
  { destruct (stringBytes _) as [[x u]|] eqn:E; [|done]. injection H as <-. by apply stringBytes_length in E. }
  destruct (_ || _); [by apply skip_container_length in H|].
  repeat (destruct (_ =? _); [by apply L in H|]). by apply skipNumber_length in H.
Qed.

Lemma decode_member_length st s st' r : decode_member st s = Some (st', r) → (String.length r < String.length s)%nat.
Proof.
  unfold decode_member. destruct (stringBytes s) as [[k t]|] eqn:E; [|done]. apply stringBytes_length in E.
  destruct (byteIs 58 (ws t)) as [u|] eqn:E2; [|done]. apply byteIs_length in E2. pose proof (ws_length t) as L1. pose proof (ws_length u) as L2.
  intros H.
  enough ((String.length r < String.length (ws u))%nat) by lia. repeat case_bool_decide.
  - destruct (stringBytes (ws u)) as [[v w]|] eqn:E3; [|done]. injection H as _ <-. by apply stringBytes_length in E3.
  - destruct (stringBytes (ws u)) as [[v w]|] eqn:E3; [|done]. injection H as _ <-. by apply stringBytes_length in E3.
  - destruct (skipNumber (ws u)) eqn:E3; [|done]. injection H as _ <-. by apply skipNumber_length in E3.
  - destruct (skipValue (ws u)) eqn:E3; [|done]. injection H as _ <-. by apply skipValue_length in E3.
Qed.

(** The loops stop by themselves: more fuel than the text is long changes
    nothing. *)
Lemma skip_container_fuel n m o c d s :
  (String.length s < n)%nat → (String.length s < m)%nat → skip_container n o c d s = skip_container m o c d s.
Proof.
  revert m d s. induction n as [|n IH]; intros [|m] d [|b s] Hn Hm; try done; try lia. cbn [skip_container]. cbn [String.length] in *.
  destruct (_ =? 34).
  - destruct (stringBytes _) as [[x t]|] eqn:E; [|done]. apply stringBytes_length in E. cbn [String.length] in E. apply IH; lia.
  - destruct (_ =? o); [apply IH; lia|]. destruct (_ =? c); [|apply IH; lia]. destruct (_ =? 0); [done|apply IH; lia].
Qed.

Lemma decode_members_fuel n m st s :
  (String.length s < n)%nat → (String.length s < m)%nat → decode_members n st s = decode_members m st s.
Proof.
  revert m st s. induction n as [|n IH]; intros [|m] st s Hn Hm; [lia|lia|lia|]. cbn [decode_members].
  destruct (byteIs 125 (ws s)); [done|]. destruct (decode_member st (ws s)) as [[st' s']|] eqn:E; [|done].
  apply decode_member_length in E. pose proof (ws_length s). pose proof (ws_length s').
  destruct (byteIs 44 (ws s')) as [u|] eqn:E2; [|done]. apply byteIs_length in E2. apply IH; lia.
Qed.

(** ** Indices *)

Lemma decimal_index_digits s v : decimal_index s v = if string_forallb is_digit s then index_digits s v else None.
Proof.
  revert v. induction s as [|c s IH]; intros v; [done|]. cbn [decimal_index string_forallb index_digits].
  destruct (is_digit c); [|done]. cbn [negb andb]. rewrite IH. destruct (_ <? _); [|done]. by destruct (string_forallb _ _).
Qed.

Lemma parseDecimalIndex_parseIndex s : parseDecimalIndex s = parseIndex s.
Proof.
  unfold parseIndex. destruct s as [|c [|b r]]; [done|..].
  - unfold parseDecimalIndex. rewrite decimal_index_digits. cbn. by destruct (is_digit c).
  - unfold parseDecimalIndex. rewrite decimal_index_digits. rewrite bool_decide_eq_false_2 by done.
    destruct (string_forallb is_digit (String c (String b r))); cbn [negb]; [done|]. by destruct (_ =? _).
Qed.

Lemma uitoa_loop_digits fuel f n buf :
  0 < n < 10 ^ Z.of_nat fuel → (Z.to_nat (Z.log2 n) < f)%nat → uitoa_loop fuel n buf = digits_fuel f 10 n buf.
Proof.
  revert f n buf. induction fuel as [|fuel IH]; intros f n buf Hn Hf; [cbn in Hn; lia|]. destruct f as [|f]; [lia|].
  cbn [uitoa_loop digits_fuel]. destruct (Z.ltb_spec 0 n); [|lia]. assert (0 ≤ n mod 10 < 10) by zlia.
  replace (Zbyte (48 + n mod 10)) with (digit_char (n mod 10)) by (unfold digit_char; destruct (Z.ltb_spec (n mod 10) 10); [done|lia]).
  destruct (Z.ltb_spec n 10) as [Hlt|Hge].
  - rewrite Z.div_small by lia. by destruct fuel.
  - rewrite Nat2Z.inj_succ, Z.pow_succ_r in Hn by lia. apply IH; [zlia|].
    assert (Z.log2 (n / 10) < Z.log2 n); [|pose proof (Z.log2_nonneg (n / 10)); lia].
    apply Z.log2_lt_pow2; [zlia|]. pose proof (Z.log2_spec n ltac:(lia)) as [_ H2]. pose proof (Z.log2_nonneg n).
    rewrite Z.pow_succ_r in H2 by lia. zlia.
Qed.

Lemma uitoa_z_string n : 0 ≤ n < 10 ^ 20 → uitoa n = z_string n.
Proof.
  intros Hn. unfold uitoa, z_string. destruct (Z.eqb_spec n 0) as [->|]; [done|]. destruct (Z.ltb_spec n 0); [lia|].
  unfold nat_string. apply uitoa_loop_digits; [change (Z.of_nat 20) with 20; lia|lia].
Qed.

(** an index has one text, and it is the one that is written *)
Lemma parseDecimalIndex_ok s n : parseDecimalIndex s = Some n → 0 ≤ n < 2 ^ 32 ∧ s = indexKey n.
Proof.
  rewrite parseDecimalIndex_parseIndex. intros [Hn <-]%parseIndex_ok. split; [done|]. symmetry. apply uitoa_z_string. lia.
Qed.

Lemma index_digits_fits s n v : 0 ≤ v → string_forallb is_digit s = true → scan_digits 10 s v = Some n → n < 2 ^ 32 → index_digits s v = Some n.
Proof.
  revert v. induction s as [|c s IH]; intros v Hv Hd H Hn; [done|]. cbn [string_forallb] in Hd. apply andb_true_iff in Hd as [Hc Hd].
  cbn [scan_digits index_digits] in *. rewrite (digit_val_digit c Hc) in H. pose proof Hc as Hc'. unfold is_digit in Hc'. bool_prop.
  destruct (Z.ltb_spec 0xFFFFFFFF (v * 10 + (byteZ c - 48))) as [Hbig|]; [|apply IH; [lia|done..]].
  rewrite scan_digits_shift in H. destruct (scan_digits 10 s 0) as [m|] eqn:E; [|done]. injection H as H.
  pose proof (scan_bound _ _ Hd E) as [Hm _]. pose proof (Z.pow_pos_nonneg 10 (Z.of_nat (String.length s)) ltac:(lia) ltac:(lia)). nia.
Qed.

Lemma parseDecimalIndex_indexKey n : 0 ≤ n < 2 ^ 32 → parseDecimalIndex (indexKey n) = Some n.
Proof.
  intros Hn. unfold indexKey. rewrite uitoa_z_string by lia. unfold z_string. destruct (Z.ltb_spec n 0); [lia|].
  destruct (nat_string_spec 10 n) as (H1 & H2 & H3); [by left|lia|]. pose proof (nat_string_digits n ltac:(lia)) as Hd.
  rewrite parseDecimalIndex_parseIndex. unfold parseIndex. rewrite bool_decide_eq_false_2 by done. rewrite Hd. cbn [negb].
  assert (Hi : index_digits (nat_string 10 n) 0 = Some n) by (apply index_digits_fits; [lia|done|done|lia]).
  destruct (nat_string 10 n) as [|c [|b t]] eqn:E; [done..|].
  destruct (Z.eqb_spec (byteZ c) 48) as [E48|]; [|done]. exfalso.
  destruct (Z.eq_dec n 0) as [->|Hne]; [by vm_compute in E|]. apply (H3 Hne (String b t)). f_equal. apply byteZ_inj. by rewrite E48.
Qed.

Lemma indexKey_inj m n : 0 ≤ m < 2 ^ 32 → 0 ≤ n < 2 ^ 32 → indexKey m = indexKey n → m = n.
Proof. intros Hm Hn E. apply parseDecimalIndex_indexKey in Hm, Hn. rewrite E in Hm. congruence. Qed.

(** ** The text of a private key *)

Lemma hexVal_hexEncode b : string_forallb (λ c, match hexVal c with Some _ => true | None => false end) (hexEncode b) = true.
Proof.
  induction b as [|c b IH]; [done|]. pose proof (byteZ_range c). cbn [hexEncode string_forallb]. by rewrite !hexVal_digit by zlia.
Qed.

Lemma hexEncode_length b : String.length (hexEncode b) = (2 * String.length b)%nat.
Proof. induction b as [|c b IH]; [done|]. cbn [hexEncode String.length]. lia. Qed.

(** a hexadecimal digit is no white space *)
Lemma hexVal_no_space c v : hexVal c = Some v → key_space c = false.
Proof.
  intros H. destruct (key_space c) eqn:E; [|done]. exfalso. unfold key_space in E. unfold hexVal in H.
  rewrite !orb_true_iff, !Z.eqb_eq in E. destruct E as [[[E|E]|E]|E]; by rewrite E in H.
Qed.

Lemma trim_left_spaces w s : string_forallb key_space w = true → trim_left (w +:+ s) = trim_left s.
Proof.
  induction w as [|c w IH]; [done|]. cbn [string_forallb]. intros [Hc Hw]%andb_true_iff. rewrite string_app_cons. cbn [trim_left].
  by rewrite Hc, IH.
Qed.

Lemma trim_left_head c s : key_space c = false → trim_left (String c s) = String c s.
Proof. intros H. cbn [trim_left]. by rewrite H. Qed.

(** white space around a text that begins and ends with something else *)
Lemma trimSpace_around w1 w2 c d s t :
  string_forallb key_space w1 = true → string_forallb key_space w2 = true →
  key_space c = false → key_space d = false → String c s = t +:+ String d "" →
  trimSpace (w1 +:+ (String c s +:+ w2)) = String c s.
Proof.
  intros H1 H2 Hc Hd E. unfold trimSpace. rewrite trim_left_spaces by done. rewrite string_app_cons, trim_left_head by done.
  rewrite <-string_app_cons, srev_app, trim_left_spaces by (by rewrite string_forallb_srev).
  rewrite E, srev_app. change (srev (String d "")) with (String d ""). rewrite string_app_cons, trim_left_head by done.
  by rewrite string_app_nil_l, srev_cons, srev_involutive.
Qed.

Lemma hexEncode_last b c : ∃ t d, hexEncode (b +:+ String c "") = t +:+ String d "" ∧ key_space d = false.
Proof.
  induction b as [|a b (t & d & E & Hd)].
  - exists (String (digit_char (byteZ c / 16)) ""), (digit_char (byteZ c mod 16)). split; [done|].
    pose proof (byteZ_range c). eapply hexVal_no_space, hexVal_digit. zlia.
  - rewrite string_app_cons. cbn [hexEncode]. rewrite E. eexists (String _ (String _ t)), d. split; [|done]. by rewrite !string_app_cons.
Qed.

(** An exported key is imported as itself, with white space around it or not. *)
Lemma exported_key_imported k w1 w2 :
  0 < k < curveN → string_forallb key_space w1 = true → string_forallb key_space w2 = true →
  privateKeyFromRaw (w1 +:+ (privateKeyHex k +:+ w2)) = Ok k.
Proof.
  intros Hk H1 H2. unfold privateKeyFromRaw, decodeKeyBytes, privateKeyHex.
  assert (L : String.length (be_bytes 32 k) = 32%nat) by apply be_bytes_length.
  destruct (be_bytes 32 k) as [|a b0] eqn:Eb; [done|].
  change ("0x" +:+ ?x) with (String (Zbyte 48) (String (Zbyte 120) x)).
  destruct (hexEncode_last (be_bytes 31 (k / 256)) (Zbyte (k mod 256))) as (t & d & E & Hd).
  change (be_bytes 31 (k / 256) +:+ String (Zbyte (k mod 256)) "") with (be_bytes 32 k) in E. rewrite Eb in E.
  rewrite (trimSpace_around w1 w2 _ d _ (String (Zbyte 48) (String (Zbyte 120) t))); [|done..|].
  2: { by rewrite E, !string_app_cons. }
  cbn [strip0x]. rewrite !byteZ_Zbyte by lia. cbn [Z.eqb Pos.eqb orb andb]. unfold isHexBytes. rewrite hexVal_hexEncode.
  cbn [hexEncode]. rewrite bool_decide_eq_false_2 by done. cbn [negb andb]. change (String _ (String _ (hexEncode b0))) with (hexEncode (String a b0)).
  rewrite hexEncode_length. rewrite Nat.odd_mul, andb_false_l, decode_pairs_hexEncode. cbn [rbind]. rewrite L. cbn [Nat.eqb negb].
  rewrite <-Eb, SetBytes_be_bytes by (split; [lia|]; change (256 ^ Z.of_nat 32) with (2 ^ 256); unfold curveN in Hk; lia).
  destruct (Z.eqb_spec k 0); [lia|]. destruct (Z.leb_spec curveN k); [lia|]. done.
Qed.
