(* ===== verification/Keystore.v ===== *)
(** * The keystore: [internal/keys]

    The directory of the keystore: the manifest with its passphrase verifier,
    the metadata of wallets and accounts, one encrypted mnemonic per wallet and
    one key file per standalone account.  The state of an operation maps a
    relative path to the content of the file; a file holds the value its text
    decodes to, or [KCorrupt].  A mutation runs under one lock and each of its
    writes is atomic, so it is a trace of directories; a write that reports an
    error left either content ([write_file]).  The primitives
    (the v3 envelopes, BIP-39, BIP-32, hashes, signatures) are the class
    [KeyCrypto]. *)

From S2P Require Import Prelude GoStrings Decimal Rfc3339 HexBytes Json PolicyTypes PolicyBody Domain Trace Service Refs Registry KeyText.

Local Open Scope string_scope.
Local Open Scope Z_scope.
Local Open Scope list_scope.
Local Open Scope go_scope.

(** ** The error codes (errors.go) *)

Definition CodeKeystoreBadPassphrase := "keystore.bad_passphrase".
Definition CodeKeystoreConfirmRequired := "keystore.confirm_required".
Definition CodeKeystoreReadOnly := "keystore.read_only".
Definition CodeKeystorePermsInsecure := "keystore.perms_insecure".
Definition CodeKeystoreDerivationWatermark := "keystore.derivation_watermark".
Definition CodeRefNotFound := "ref.not_found".
Definition CodeUsageNameCollision := "usage.name_collision".
Definition CodeUsageInvalidName := "usage.invalid_name".
Definition CodeUsageBadMnemonic := "usage.bad_mnemonic".
Definition CodeUsageBadIndex := "usage.bad_index".
Definition CodeUsageReadOnlyContext := "usage.read_only_ref".
Definition CodeUsageWords := "usage.words".
Definition CodeStateLockTimeout := "state.lock_timeout".
Definition CodeStateCorrupt := "state.corrupt".

Definition wrong_passphrase : error := New CodeKeystoreBadPassphrase "wrong keystore passphrase".

(** ** What is outside *)

(** the result of a decryption: the plaintext, ErrDecrypt, another error *)
Inductive decrypted (A : Type) := Plain (a : A) | ErrDecrypt | ErrUnreadable.
Arguments Plain {A} a.
Arguments ErrDecrypt {A}.
Arguments ErrUnreadable {A}.

(** The envelopes of go-ethereum's keystore package (an object is its JSON
    tree; the first argument is the salt and the IV drawn), go-bip39, btcd's
    hdkeychain (an extended key is a string), golang.org/x/text, the hashes and
    go-ethereum's signatures. *)
Class KeyCrypto := {
  EncryptDataV3 : string → string → string → Z → Z → option json;
  DecryptDataV3 : json → string → decrypted string;
  EncryptKey : string → string → Z → string → Z → Z → option json;
  DecryptKey : json → string → decrypted Z;
  uuid_Parse : string → option string;
  NewMnemonic : string → option string;
  IsMnemonicValid : string → bool;
  norm_NFKD : string → string;
  bytes_Fields : string → list string;
  pbkdf2_Key : string → string → string;           (* 2048 rounds, 64 bytes, SHA-512 *)
  NewMaster : string → option string;
  Derive : string → Z → option string;
  ECPrivKey : string → option Z;
  PubkeyToAddress : Z → Address;
  sha256_Sum : string → string;
  types_SignTx : UnsignedTx → Z → Z → option string;
  MarshalBinary : string → option string;
  signed_Hash : string → Hash;
  crypto_Sign : Hash → Z → option string;
  (** an envelope opens under its passphrase, and under no other *)
  data_opens : ∀ salt data pass n p c, EncryptDataV3 salt data pass n p = Some c → DecryptDataV3 c pass = Plain data;
  data_sealed : ∀ salt data pass pass' n p c,
    EncryptDataV3 salt data pass n p = Some c → pass' ≠ pass → DecryptDataV3 c pass' = ErrDecrypt;
  key_opens : ∀ salt id k pass n p c, EncryptKey salt id k pass n p = Some c → DecryptKey c pass = Plain k;
  key_sealed : ∀ salt id k pass pass' n p c,
    EncryptKey salt id k pass n p = Some c → pass' ≠ pass → DecryptKey c pass' = ErrDecrypt;
  (** a generated mnemonic is canonical, and no valid one is empty *)
  generated_canonical : ∀ e m, NewMnemonic e = Some m → m ≠ "" ∧ norm_NFKD m = m ∧ String.concat " " (bytes_Fields m) = m;
  valid_not_empty : IsMnemonicValid "" = false;
  address_valid : ∀ k, valid_addr (PubkeyToAddress k);
}.

(** the order Go enumerates a map in *)
Class RangeMap := {
  range : ∀ {V}, gmap string V → list (string * V);
  range_perm : ∀ V (m : gmap string V), range m ≡ₚ map_to_list m;
}.

Definition list_range : RangeMap := {| range := λ V m, map_to_list m; range_perm := λ V m, reflexivity _ |}.

(** What the file system, the clock and the entropy source answer during one
    operation, by path or by the use of the draw. *)
Record KeyIO := mkKIO {
  kio_dir : res string bool;                  (* os.Stat of the directory itself *)
  kio_mkdir : string → option (fsxError * string);
  kio_chmod : string → option (fsxError * string);
  kio_lock : option lockError;
  kio_stat : string → option string;          (* an error other than ErrNotExist *)
  kio_perms : string → option string;         (* fsx.CheckPerms *)
  kio_read : string → option string;
  kio_readdir : string → bool;
  kio_write : string → option (fsxError * bool);   (* WriteAtomic: the error, and whether the data is in place *)
  kio_remove : string → bool;
  kio_rename : string → bool;
  kio_clock : Z;
  kio_rand : string → option string;          (* rand.Read, by what is drawn *)
  kio_salt : string → string;                 (* salt and IV, by file *)
  kio_uuid : string → string;                 (* uuid.New, by what is named *)
}.

(** ** The files *)

Record kdfDefaults := mkKdf { kd_KDF : string; kd_N : Z; kd_R : Z; kd_P : Z; kd_DKLen : Z }.

Record manifest := mkManifest {
  mn_Format : Z;
  mn_CreatedAt : string;
  mn_Light : bool;
  mn_KDFDefaults : kdfDefaults;
  mn_FingerprintSalt : string;
  mn_Verifier : json;                         (* verifier.crypto *)
}.

Record metaHDAccount := mkHD { ha_Address : string; ha_Alias : string; ha_CreatedAt : string }.

Record metaWallet := mkWallet {
  mw_Name : string;
  mw_CreatedAt : string;
  mw_PathPrefix : string;
  mw_NextIndex : Z;
  mw_Accounts : gmap string metaHDAccount;
}.

Record metaStandalone := mkStandalone { ms_Name : string; ms_Address : string; ms_File : string; ms_CreatedAt : string }.

Record metaFile := mkMeta {
  mf_Format : Z;
  mf_DefaultAccount : string;
  mf_Wallets : gmap string metaWallet;
  mf_Accounts : gmap string metaStandalone;
}.

Record walletBlob := mkBlob { wb_DaxieWallet : Z; wb_Type : string; wb_ID : string; wb_Version : Z; wb_Crypto : json }.

Inductive kfile :=
| KManifest (m : manifest)
| KMeta (m : metaFile)
| KBlob (b : walletBlob)
| KKey (j : json)
| KMarker (files : list string)
| KCorrupt.

Notation KDir := (gmap string kfile).
Definition K (A : Type) : Type := T KDir A.

Definition manifestFormatVersion : Z := 1.
Definition metaFormatVersion : Z := 1.
Definition walletBlobVersion : Z := 1.
Definition newMetaFile : metaFile := mkMeta metaFormatVersion "" ∅ ∅.

Definition manifestPath := "keystore.json".
Definition metaPath := "meta.json".
Definition walletBlobPath (id : string) : string := "wallets/" +:+ id +:+ ".json".
Definition rotateMarkerName := "ROTATE-COMMIT".
Definition stagedSuffix := ".new".

(** ** Scrypt parameters (kdf.go) *)

Definition stdScryptN : Z := 2 ^ 18.
Definition stdScryptP : Z := 1.
Definition lightScryptN : Z := 2 ^ 12.
Definition lightScryptP : Z := 1.
Definition kdfName := "scrypt".
Definition scryptR : Z := 8.
Definition scryptDKLen : Z := 32.

Definition scryptParams (light : bool) : Z * Z :=
  if light then (lightScryptN, lightScryptP) else (stdScryptN, stdScryptP).

(** ** Setters *)

Definition set_wallet (id : string) (w : metaWallet) (m : metaFile) : metaFile :=
  mkMeta (mf_Format m) (mf_DefaultAccount m) (<[id := w]> (mf_Wallets m)) (mf_Accounts m).
Definition del_wallet (id : string) (m : metaFile) : metaFile :=
  mkMeta (mf_Format m) (mf_DefaultAccount m) (delete id (mf_Wallets m)) (mf_Accounts m).
Definition set_account (id : string) (a : metaStandalone) (m : metaFile) : metaFile :=
  mkMeta (mf_Format m) (mf_DefaultAccount m) (mf_Wallets m) (<[id := a]> (mf_Accounts m)).
Definition del_account (id : string) (m : metaFile) : metaFile :=
  mkMeta (mf_Format m) (mf_DefaultAccount m) (mf_Wallets m) (delete id (mf_Accounts m)).
Definition set_default (s : string) (m : metaFile) : metaFile :=
  mkMeta (mf_Format m) s (mf_Wallets m) (mf_Accounts m).
Definition set_name (s : string) (w : metaWallet) : metaWallet :=
  mkWallet s (mw_CreatedAt w) (mw_PathPrefix w) (mw_NextIndex w) (mw_Accounts w).
Definition set_next (n : Z) (w : metaWallet) : metaWallet :=
  mkWallet (mw_Name w) (mw_CreatedAt w) (mw_PathPrefix w) n (mw_Accounts w).
Definition set_accounts (l : gmap string metaHDAccount) (w : metaWallet) : metaWallet :=
  mkWallet (mw_Name w) (mw_CreatedAt w) (mw_PathPrefix w) (mw_NextIndex w) l.
Definition set_alias (s : string) (a : metaHDAccount) : metaHDAccount := mkHD (ha_Address a) s (ha_CreatedAt a).

(** uint32 arithmetic *)
Definition wrap32 (n : Z) : Z := n mod 2 ^ 32.

Section Store.
Context {UT : UnicodeTables} {GC : GethCommon} {KC : KeyCrypto} {RM : RangeMap}.
Variable io : KeyIO.
Variable store_light : bool.   (* Options.Light *)

(** ** Reading and writing files *)

Definition formatTime (t : Z) : string := Format t.
Definition parseTime (s : string) : Z := if bool_decide (s = "") then zero_time else default zero_time (Parse s).

(** os.Stat: does the file exist *)
Definition kstat (path : string) (what : string → error) : K bool :=
  match kio_stat io path with
  | Some msg => mfail (what msg)
  | None => d <-- mget ;; mret (bool_decide (is_Some (d !! path)))
  end.

Definition checkPerms (path : string) : K unit :=
  match kio_perms io path with
  | Some msg => mfail (New CodeKeystorePermsInsecure msg)
  | None => mret tt
  end.

(** readKeystoreFile; a file that is not there does not read either *)
Definition readKeystoreFile (path : string) (what : string → error) : K kfile :=
  match kio_read io path with
  | Some msg => mfail (what msg)
  | None => d <-- mget ;;
            match d !! path with
            | Some f => mret f
            | None => mfail (what "no such file or directory")
            end
  end.

(** fsx.WriteAtomic; an error of the sync of the directory, behind the rename,
    leaves the data in place *)
Definition write_file (path : string) (f : kfile) (readonly other : error) : K unit := λ d,
  match kio_write io path with
  | Some (e, placed) =>
      (Err (match e with FsReadOnly => readonly | FsOther => other end), if (placed : bool) then [<[path := f]> d] else [])
  | None => (Ok tt, [<[path := f]> d])
  end.

(** os.Remove, with the error ignored *)
Definition try_remove (path : string) : K unit := λ d,
  (Ok tt, if kio_remove io path then [] else if bool_decide (is_Some (d !! path)) then [delete path d] else []).

(** os.Rename *)
Definition rename_file (old new : string) (what : error) : K unit := λ d,
  if kio_rename io old then (Err what, []) else
  match d !! old with
  | Some f => (Ok tt, [<[new := f]> (delete old d)])
  | None => (Err what, [])
  end.

(** ** The lock and the directories (keys.go) *)

(** the three owned directories: the keystore's, wallets/ and accounts/ *)
Definition ownedDirs : list string := [""; "wallets"; "accounts"].

Fixpoint ensure_dirs (ds : list string) : K unit :=
  match ds with
  | [] => mret tt
  | p :: ds =>
      match kio_mkdir io p with
      | Some (FsReadOnly, msg) => mfail (New CodeKeystoreReadOnly ("the keystore directory is read-only: " +:+ msg))
      | Some (FsOther, msg) => mfail (New CodeStateCorrupt ("cannot create keystore directory: " +:+ msg))
      | None =>
          match kio_chmod io p with
          | Some (FsReadOnly, msg) => mfail (New CodeKeystoreReadOnly ("the keystore directory is read-only: " +:+ msg))
          | Some (FsOther, msg) => mfail (New CodeStateCorrupt ("cannot set keystore directory permissions: " +:+ msg))
          | None => ensure_dirs ds
          end
      end
  end.
Definition ensureDirs : K unit := ensure_dirs ownedDirs.

Definition lock {A} (body : K A) : K A :=
  match kio_lock io with
  | Some LockDeadline => mfail (New CodeStateLockTimeout
      "timed out acquiring the keystore lock; another daxie process may be holding it")
  | Some (LockOther msg) => mfail (New CodeStateLockTimeout ("cannot acquire the keystore lock: " +:+ msg))
  | None => body
  end.

Definition lockForWrite {A} (body : K A) : K A := ensureDirs ;;; lock body.

(** ** meta.json (meta.go) *)

Definition loadMeta : K metaFile :=
  there <-- kstat metaPath (λ msg, New CodeStateCorrupt ("cannot stat meta.json: " +:+ msg)) ;;
  if negb there then mret newMetaFile else
  checkPerms metaPath ;;;
  f <-- readKeystoreFile metaPath (λ msg, New CodeStateCorrupt ("cannot read meta.json: " +:+ msg)) ;;
  match f with
  | KMeta m =>
      if metaFormatVersion <? mf_Format m
      then mfail (New CodeStateCorrupt ("meta.json format " +:+ z_string (mf_Format m) +:+
                                          " is newer than supported (" +:+ z_string metaFormatVersion +:+ ")"))
      else mret m
  | _ => mfail (New CodeStateCorrupt "meta.json is corrupt (not valid JSON)")
  end.

Definition saveMeta (m : metaFile) : K unit :=
  write_file metaPath (KMeta (mkMeta metaFormatVersion (mf_DefaultAccount m) (mf_Wallets m) (mf_Accounts m)))
    (New CodeKeystoreReadOnly
       "the keystore is read-only; meta.json cannot be written (set DAXIE_ACCOUNT to override the default account, or move the keystore to a writable volume)")
    (New CodeStateCorrupt "cannot write meta.json").

Definition same_name (name other : string) : bool := bool_decide (ToLower other = ToLower name).

Definition findWalletByName (m : metaFile) (name : string) : option (string * metaWallet) :=
  List.find (λ e, same_name name (mw_Name e.2)) (range (mf_Wallets m)).
Definition findStandaloneByName (m : metaFile) (name : string) : option (string * metaStandalone) :=
  List.find (λ e, same_name name (ms_Name e.2)) (range (mf_Accounts m)).

Definition nameExists (m : metaFile) (name excludeID : string) : bool :=
  existsb (λ e, negb (bool_decide (e.1 = excludeID)) && same_name name (mw_Name e.2)) (range (mf_Wallets m)) ||
  existsb (λ e, negb (bool_decide (e.1 = excludeID)) && same_name name (ms_Name e.2)) (range (mf_Accounts m)).

(** one materialized index of a wallet against its watermark *)
Definition check_index (id : string) (w : metaWallet) (idxStr : string) : res error unit :=
  match parseDecimalIndex idxStr with
  | None => Err (New CodeStateCorrupt ("wallet " +:+ go_quote (mw_Name w) +:+ " has a non-numeric account index " +:+
                                         go_quote idxStr +:+ " in meta.json"))
  | Some idx =>
      if mw_NextIndex w <=? idx
      then Err (New CodeKeystoreDerivationWatermark
             ("keystore meta.json is inconsistent: wallet " +:+ go_quote (mw_Name w) +:+ " (" +:+ id +:+
              ") has a materialized index " +:+ z_string idx +:+ " but next_index is " +:+ z_string (mw_NextIndex w) +:+
              "; this keystore may have been restored without its derivation watermark — refusing to risk reusing a derivation index"))
      else Ok tt
  end.

(** the first error of a loop *)
Definition each {A} (f : A → res error unit) (l : list A) : res error unit :=
  foldr (λ a r, match f a with Ok _ => r | Err e => Err e end) (Ok tt) l.

Definition checkWatermark (m : metaFile) : res error unit :=
  each (λ '(id, w), each (λ e, check_index id w e.1) (range (mw_Accounts w))) (range (mf_Wallets m)).

Definition sortedIndexes (w : metaWallet) : list Z :=
  stable_sort Z.ltb (omap (λ e, parseDecimalIndex e.1) (range (mw_Accounts w))).

(** ** The manifest and the passphrase (manifest.go) *)

Definition loadManifest : K (option manifest) :=
  there <-- kstat manifestPath (λ msg, New CodeStateCorrupt ("cannot stat keystore.json: " +:+ msg)) ;;
  if negb there then mret None else
  checkPerms manifestPath ;;;
  f <-- readKeystoreFile manifestPath (λ msg, New CodeStateCorrupt ("cannot read keystore.json: " +:+ msg)) ;;
  match f with
  | KManifest m =>
      if manifestFormatVersion <? mn_Format m
      then mfail (New CodeStateCorrupt ("keystore.json format " +:+ z_string (mn_Format m) +:+
                                          " is newer than supported (" +:+ z_string manifestFormatVersion +:+ ")"))
      else mret (Some m)
  | _ => mfail (New CodeStateCorrupt "keystore.json is corrupt (not valid JSON)")
  end.

Definition set_format (m : manifest) : manifest :=
  mkManifest manifestFormatVersion (mn_CreatedAt m) (mn_Light m) (mn_KDFDefaults m) (mn_FingerprintSalt m) (mn_Verifier m).

Definition saveManifest (m : manifest) : K unit :=
  write_file manifestPath (KManifest (set_format m))
    (New CodeKeystoreReadOnly "the keystore is read-only; keystore.json cannot be written")
    (New CodeStateCorrupt "cannot write keystore.json").

Definition effectiveScrypt (m : option manifest) : Z * Z :=
  scryptParams (match m with Some m => mn_Light m | None => store_light end).

Definition verifyAgainst (m : manifest) (pass : string) : res error unit :=
  match DecryptDataV3 (mn_Verifier m) pass with
  | Plain _ => Ok tt
  | ErrDecrypt => Err wrong_passphrase
  | ErrUnreadable => Err (New CodeStateCorrupt "the keystore verifier is unreadable")
  end.

Definition fingerprint (saltHex pass : string) : string :=
  hexEncode (stake 8 (sha256_Sum (default saltHex (decode_pairs saltHex) +:+ pass))).

(** initManifest of a store of the given light flag, for the file it seals *)
Definition initManifest (light : bool) (path pass : string) : res error manifest :=
  let '(n, p) := scryptParams light in
  match kio_rand io "verifier" with
  | None => Err (New CodeStateCorrupt "cannot read entropy for the keystore verifier")
  | Some plain =>
      match EncryptDataV3 (kio_salt io path) plain pass n p with
      | None => Err (New CodeStateCorrupt "cannot seal the keystore verifier")
      | Some cj =>
          match kio_rand io "fingerprint" with
          | None => Err (New CodeStateCorrupt "cannot read entropy for the passphrase fingerprint salt")
          | Some salt =>
              Ok (mkManifest manifestFormatVersion (formatTime (kio_clock io)) light
                    (mkKdf kdfName n scryptR p scryptDKLen) (hexEncode salt) cj)
          end
      end
  end.

(** EnsureInitialized behind the load of the manifest; [confirm] is nil or the
    bytes of the second entry *)
Definition ensure_initialized (m : option manifest) (pass : string) (confirm : option string) : K string :=
  match m with
  | Some m => mlift (verifyAgainst m pass) ;;; mret (fingerprint (mn_FingerprintSalt m) pass)
  | None =>
      if bool_decide (default "" confirm = "")
      then mfail (New CodeKeystoreConfirmRequired
             "first keystore use requires passphrase confirmation: supply --passphrase-confirm-stdin|file or DAXIE_PASSPHRASE_CONFIRM[_FILE] (interactive double-entry at a TTY)")
      else if negb (bool_decide (Some pass = confirm))
      then mfail (New CodeKeystoreConfirmRequired "the passphrase and its confirmation do not match")
      else
        ensureDirs ;;;
        nm <-- mlift (initManifest store_light manifestPath pass) ;;
        saveManifest nm ;;;
        mret (fingerprint (mn_FingerprintSalt nm) pass)
  end.

Definition EnsureInitialized (pass : string) (confirm : option string) : K string :=
  m <-- loadManifest ;; ensure_initialized m pass confirm.

Definition VerifyPassphrase (pass : string) : K unit :=
  m <-- loadManifest ;;
  match m with
  | None => mfail (New CodeKeystoreBadPassphrase "the keystore is not initialized")
  | Some m => mlift (verifyAgainst m pass)
  end.

(** ** Mnemonics, seeds and keys (derive.go) *)

Definition wordsToEntropyBits (words : Z) : option Z :=
  if words =? 12 then Some 128 else if words =? 24 then Some 256 else None.

Definition nfkdBytes (b : string) : string := if bool_decide (b = "") then "" else norm_NFKD b.

(** bytes.Join of bytes.Fields *)
Definition canonicalizeMnemonic (raw : string) : string := String.concat " " (bytes_Fields (nfkdBytes raw)).

(** the entropy is [bits / 8] bytes *)
Definition generateMnemonic (words : Z) : res error string :=
  match wordsToEntropyBits words with
  | None => Err (New CodeUsageWords ("unsupported word count " +:+ z_string words +:+ " (use 12 or 24)"))
  | Some bits =>
      match kio_rand io "mnemonic" with
      | None => Err (New CodeStateCorrupt "cannot read entropy for the mnemonic")
      | Some entropy =>
          match NewMnemonic (stake (Z.to_nat (bits / 8)) entropy) with
          | None => Err (New CodeStateCorrupt "cannot generate the mnemonic")
          | Some m => Ok (canonicalizeMnemonic m)
          end
      end
  end.

Definition validateMnemonic (raw : string) : res error string :=
  let m := canonicalizeMnemonic raw in
  if IsMnemonicValid m then Ok m
  else Err (New CodeUsageBadMnemonic "the mnemonic is not a valid BIP-39 English phrase (checksum or word-list failure)").

Definition seedFromMnemonic (mnemonic bip39pass : string) : string :=
  pbkdf2_Key mnemonic ("mnemonic" +:+ nfkdBytes bip39pass).

Definition purposeETH : Z := 44.
Definition coinETH : Z := 60.
Definition bip44Acct0 : Z := 0.
Definition bip44Chg0 : Z := 0.

Definition path_levels (index : Z) : list Z :=
  [hardened + purposeETH; hardened + coinETH; hardened + bip44Acct0; bip44Chg0; index].

Fixpoint derive_levels (k : string) (levels : list Z) : option string :=
  match levels with
  | [] => Some k
  | lvl :: levels => match Derive k lvl with Some k => derive_levels k levels | None => None end
  end.

Definition derivePrivateKey (seed : string) (index : Z) : res error Z :=
  match NewMaster seed with
  | None => Err (New CodeStateCorrupt "cannot derive the HD master key")
  | Some master =>
      match derive_levels master (path_levels index) with
      | None => Err (New CodeStateCorrupt "cannot derive the HD child key")
      | Some k =>
          match ECPrivKey k with
          | None => Err (New CodeStateCorrupt "cannot extract the EC private key")
          | Some d =>
              if (0 <? d) && (d <? curveN) then Ok d
              else Err (New CodeStateCorrupt "the derived key is not a valid secp256k1 key")
          end
      end
  end.

Definition deriveAddress (seed : string) (index : Z) : res error Address :=
  let* priv := derivePrivateKey seed index in Ok (PubkeyToAddress priv).

(** ** Wallet blobs (walletblob.go) *)

Definition writeWalletBlob (id plaintext pass : string) (np : Z * Z) : K unit :=
  match EncryptDataV3 (kio_salt io (walletBlobPath id)) plaintext pass np.1 np.2 with
  | None => mfail (New CodeStateCorrupt "cannot encrypt the wallet mnemonic")
  | Some cj =>
      write_file (walletBlobPath id) (KBlob (mkBlob walletBlobVersion "mnemonic" id 3 cj))
        (New CodeKeystoreReadOnly "the keystore is read-only; the wallet blob cannot be written")
        (New CodeStateCorrupt "cannot write the wallet blob")
  end.

(** the decryption of a file that was read *)
Definition open_blob (f : kfile) (pass : string) : res error string :=
  match f with
  | KBlob b =>
      match DecryptDataV3 (wb_Crypto b) pass with
      | Plain p => Ok p
      | ErrDecrypt => Err wrong_passphrase
      | ErrUnreadable => Err (New CodeStateCorrupt "the wallet blob is unreadable")
      end
  | _ => Err (New CodeStateCorrupt "the wallet blob is corrupt (not valid JSON)")
  end.

Definition readWalletPlaintext (id pass : string) : K string :=
  checkPerms (walletBlobPath id) ;;;
  f <-- readKeystoreFile (walletBlobPath id) (λ _, New CodeStateCorrupt "cannot read the wallet blob") ;;
  mlift (open_blob f pass).

Definition malformed_plaintext : error := New CodeStateCorrupt "the wallet blob plaintext is malformed".

(** ** Standalone key files (standalone.go) *)

(** time.Time in UTC, as geth names its key files *)
Definition toISO8601 (t : Z) : string :=
  let secs := t / second in
  let '(y, m, d) := civil_from_days (secs / day_secs) in
  let s := secs mod day_secs in
  pad_int 4 y +:+ "-" +:+ pad_int 2 m +:+ "-" +:+ pad_int 2 d +:+ "T" +:+
  pad_int 2 (s / 3600) +:+ "-" +:+ pad_int 2 (s / 60 mod 60) +:+ "-" +:+ pad_int 2 (s mod 60) +:+ "." +:+
  pad_int 9 (t mod second) +:+ "Z".

Definition keyFileName (addr : Address) (t : Z) : string :=
  "UTC--" +:+ toISO8601 t +:+ "--" +:+ fixed_digits 16 40 addr.

Definition cryptoAddr (priv : Z) : Address := PubkeyToAddress priv.

(** the identifier and the relative path *)
Definition writeStandaloneFile (priv : Z) (pass : string) (np : Z * Z) : K (string * string) :=
  let id := kio_uuid io "account" in
  let addr := cryptoAddr priv in
  let relFile := "accounts/" +:+ keyFileName addr (kio_clock io) in
  match uuid_Parse id with
  | None => mfail (New CodeStateCorrupt "cannot parse a fresh UUID")
  | Some keyUUID =>
      match EncryptKey (kio_salt io relFile) keyUUID priv pass np.1 np.2 with
      | None => mfail (New CodeStateCorrupt "cannot encrypt the standalone key")
      | Some blob =>
          write_file relFile (KKey blob)
            (New CodeKeystoreReadOnly "the keystore is read-only; the standalone key cannot be written")
            (New CodeStateCorrupt "cannot write the standalone key file") ;;;
          mret (id, relFile)
      end
  end.

Definition open_key (f : kfile) (pass : string) : res error Z :=
  match f with
  | KKey j =>
      match DecryptKey j pass with
      | Plain k => Ok k
      | ErrDecrypt => Err wrong_passphrase
      | ErrUnreadable => Err (New CodeStateCorrupt "the standalone key file is unreadable")
      end
  | _ => Err (New CodeStateCorrupt "the standalone key file is unreadable")
  end.

Definition cannot_read_key : error := New CodeStateCorrupt "cannot read the standalone key file".

Definition readStandaloneKey (relFile pass : string) : K Z :=
  checkPerms relFile ;;;
  f <-- readKeystoreFile relFile (λ _, cannot_read_key) ;;
  mlift (open_key f pass).

(** the `id` field of the file, or a fresh identifier when it is none *)
Definition file_uuid (f : kfile) (fresh : string) : res error string :=
  match f with
  | KKey j =>
      match d_struct false [("id", field id (λ _ x, x) d_string)] "" j with
      | Some hdr => Ok (default fresh (uuid_Parse hdr))
      | None => Err (New CodeStateCorrupt "the standalone key file is corrupt")
      end
  | _ => Err (New CodeStateCorrupt "the standalone key file is corrupt")
  end.

Definition uuidOfStandaloneFile (relFile : string) : K string :=
  f <-- readKeystoreFile relFile (λ _, cannot_read_key) ;;
  mlift (file_uuid f (kio_uuid io relFile)).

(** ** References in the metadata (account.go) *)

(** [AccountInfo] *)
Record AccountInfo := mkInfo {
  ai_Ref : string; ai_Address : Address; ai_Kind : string; ai_Wallet : string; ai_Index : Z; ai_HasIndex : bool;
  ai_Alias : string; ai_Path : string; ai_Default : bool; ai_CreatedAt : Z }.

Definition hd_info (w : metaWallet) (idx : Z) (a : metaHDAccount) (def : bool) : AccountInfo :=
  mkInfo (mw_Name w +:+ "/" +:+ indexKey idx) (HexToAddress (ha_Address a)) "hd" (mw_Name w) idx true (ha_Alias a)
    (pathString idx) def (parseTime (ha_CreatedAt a)).
Definition standalone_info (a : metaStandalone) (def : bool) : AccountInfo :=
  mkInfo (ms_Name a) (HexToAddress (ms_Address a)) "standalone" "" 0 false "" "" def (parseTime (ms_CreatedAt a)).

Definition no_wallet (name : string) : error := New CodeRefNotFound ("no wallet named " +:+ go_quote name).
Definition no_account (name : string) : error := New CodeRefNotFound ("no account named " +:+ go_quote name).

(** a human reference of an account holding the address, or "" *)
Definition findByAddress (m : metaFile) (addr : Address) : string :=
  let target := Hex addr in
  let hd := flat_map (λ '(id, w), map (λ e, (mw_Name w +:+ "/" +:+ e.1, ha_Address e.2)) (range (mw_Accounts w)))
              (range (mf_Wallets m)) in
  let alone := map (λ e, (ms_Name e.2, ms_Address e.2)) (range (mf_Accounts m)) in
  match List.find (λ e, equalFold e.2 target) (hd ++ alone) with
  | Some (ref, _) => ref
  | None => ""
  end.

(** the first index whose account has the alias *)
Fixpoint alias_index (alias : string) (l : list (string * metaHDAccount)) : option Z :=
  match l with
  | [] => None
  | (k, a) :: l =>
      if negb (bool_decide (ha_Alias a = "")) && bool_decide (ha_Alias a = alias)
      then match parseDecimalIndex k with Some idx => Some idx | None => alias_index alias l end
      else alias_index alias l
  end.

Definition indexForRef (w : metaWallet) (ref : AccountRef) : option Z :=
  if ar_Kind ref =? RefHDIndex then
    match mw_Accounts w !! indexKey (ar_Index ref) with Some _ => Some (ar_Index ref) | None => None end
  else if ar_Kind ref =? RefHDAlias then alias_index (ar_Name ref) (range (mw_Accounts w))
  else None.

Definition zero_hd : metaHDAccount := mkHD "" "" "".
(** [w.Accounts[indexKey(idx)]] of an index indexForRef found *)
Definition hd_at (w : metaWallet) (idx : Z) : metaHDAccount := default zero_hd (mw_Accounts w !! indexKey idx).

Definition is_hd (ref : AccountRef) : bool := (ar_Kind ref =? RefHDIndex) || (ar_Kind ref =? RefHDAlias).

Definition resolveInfo (m : metaFile) (ref : AccountRef) : res error (AccountInfo * string) :=
  if is_hd ref then
    match findWalletByName m (ar_Wallet ref) with
    | None => Err (no_wallet (ar_Wallet ref))
    | Some (_, w) =>
        match indexForRef w ref with
        | None => Err (New CodeRefNotFound ("no such account " +:+ go_quote (ar_Raw ref) +:+
                                              " (derive the index or check the alias)"))
        | Some idx => let info := hd_info w idx (hd_at w idx) false in Ok (info, ai_Ref info)
        end
    end
  else if ar_Kind ref =? RefNamed then
    match findStandaloneByName m (ar_Name ref) with
    | None => Err (no_account (ar_Name ref))
    | Some (_, a) => Ok (standalone_info a false, ms_Name a)
    end
  else if (ar_Kind ref =? RefAddress) || (ar_Kind ref =? RefENS)
  then Err (New CodeUsageReadOnlyContext (go_quote (ar_Raw ref) +:+ " is an address/ENS reference, not a local keystore account"))
  else Err (New CodeRefNotFound (go_quote (ar_Raw ref) +:+ " does not resolve to a keystore account")).

Definition canonicalSigningRef (m : metaFile) (ref : AccountRef) : res error string :=
  if is_hd ref || (ar_Kind ref =? RefNamed) then let* r := resolveInfo m ref in Ok r.2
  else if ar_Kind ref =? RefAddress
  then Err (New CodeUsageReadOnlyContext "a raw address cannot be the default account; use a keystore ref like treasury/0")
  else if ar_Kind ref =? RefENS
  then Err (New CodeUsageReadOnlyContext "an ENS name cannot be the default account; use a keystore ref like treasury/0")
  else Err (New CodeRefNotFound (go_quote (ar_Raw ref) +:+ " does not resolve to a keystore account")).

Definition refIsDefault (m : metaFile) (info : AccountInfo) : bool :=
  if bool_decide (mf_DefaultAccount m = "") then false
  else if bool_decide (mf_DefaultAccount m = ai_Ref info) then true
  else bool_decide (ai_Kind info = "hd") && negb (bool_decide (ai_Alias info = "")) &&
       bool_decide (mf_DefaultAccount m = ai_Wallet info +:+ "/" +:+ ai_Alias info).

Definition aliasInUse (w : metaWallet) (alias : string) (selfIndex : Z) : bool :=
  existsb (λ '(k, a), negb (default 0 (parseDecimalIndex k) =? selfIndex) && bool_decide (ha_Alias a = alias))
    (range (mw_Accounts w)).

(** a default reference that names an account of the wallet *)
Definition defaultPointsToWallet (def walletName : string) : bool :=
  match split_byte 47 def with Some (w, _) => bool_decide (w = walletName) | None => false end.
End Store.
