(* ===== verification/KeyOps.v ===== *)
(** * Operations of the keystore: [wallet.go], [account.go], [lookup.go], [sign.go], [info.go] of [internal/keys]

    Creating, importing, renaming, deleting and exporting wallets; deriving,
    naming, importing, forgetting and exporting accounts; the default account;
    and the identities that sign.  A mutation loads the metadata, changes it and
    saves it under the lock; the secret file is written before the metadata that
    names it and removed after the metadata that forgets it. *)

From S2P Require Import Prelude GoStrings Decimal Rfc3339 HexBytes Json PolicyTypes PolicyBody Domain Trace Service Refs Registry KeyText Keystore.

Local Open Scope string_scope.
Local Open Scope Z_scope.
Local Open Scope list_scope.
Local Open Scope go_scope.

Section Ops.
Context {UT : UnicodeTables} {GC : GethCommon} {KC : KeyCrypto} {RM : RangeMap}.
Variable io : KeyIO.
Variable store_light : bool.

(** ** Wallets (wallet.go) *)

Record CreateResult := mkCreate {
  cr_WalletID : string; cr_PathPrefix : string; cr_Index0Addr : Address; cr_Mnemonic : string; cr_BIP39Pass : string }.

Definition name_taken (name tail : string) : error :=
  New CodeUsageNameCollision ("the name " +:+ go_quote name +:+ " is already in use by another wallet or account" +:+ tail).

(** a wallet with its first index materialized *)
Definition fresh_wallet (name : string) (addr0 : Address) : metaWallet :=
  let now := formatTime (kio_clock io) in
  mkWallet name now defaultPathPrefix 1 {[ "0" := mkHD (Hex addr0) "" now ]}.

(** saveMeta, and the removal of the secret file when it fails *)
Definition save_or_remove (m : metaFile) (path : string) : K unit :=
  r <-- mtry (saveMeta io m) ;;
  match r with
  | None => mret tt
  | Some e => try_remove io path ;;; mfail e
  end.

(** the end of CreateWallet and of ImportWallet: seal the blob, register *)
Definition register_wallet (m : metaFile) (name mnemonic bip39pass pass : string) (np : Z * Z) (addr0 : Address) : K string :=
  let walletID := kio_uuid io "wallet" in
  writeWalletBlob io walletID (encodePlaintext mnemonic bip39pass) pass np ;;;
  save_or_remove (set_wallet walletID (fresh_wallet name addr0) m) (walletBlobPath walletID) ;;;
  mret walletID.

Definition CreateWallet (name : string) (words : Z) (pass : string) : K CreateResult :=
  if negb (validName name)
  then mfail (New CodeUsageInvalidName (go_quote name +:+
         " is not a valid wallet name (use [a-z0-9][a-z0-9_-]{0,63}; '/', '#', '.' and address-shaped names are reserved)"))
  else match wordsToEntropyBits words with
  | None => mfail (New CodeUsageWords ("unsupported word count " +:+ z_string words +:+ " (use 12 or 24)"))
  | Some _ =>
      lockForWrite io
        (VerifyPassphrase io pass ;;;
         m <-- loadMeta io ;;
         if nameExists m name "" then mfail (name_taken name " (names share one namespace)") else
         man <-- loadManifest io ;;
         mnemonic <-- mlift (generateMnemonic io words) ;;
         addr0 <-- mlift (deriveAddress (seedFromMnemonic mnemonic "") 0) ;;
         walletID <-- register_wallet m name mnemonic "" pass (effectiveScrypt store_light man) addr0 ;;
         mret (mkCreate walletID defaultPathPrefix addr0 mnemonic ""))
  end.

Definition ImportWallet (name mnemonic : string) (bip39pass : option string) (pass : string) : K (string * Address) :=
  if negb (validName name) then mfail (New CodeUsageInvalidName (go_quote name +:+ " is not a valid wallet name")) else
  lockForWrite io
    (VerifyPassphrase io pass ;;;
     m <-- loadMeta io ;;
     if nameExists m name "" then mfail (name_taken name "") else
     man <-- loadManifest io ;;
     normMn <-- mlift (validateMnemonic mnemonic) ;;
     let b39 := default "" bip39pass in
     addr0 <-- mlift (deriveAddress (seedFromMnemonic normMn b39) 0) ;;
     walletID <-- register_wallet m name normMn b39 pass (effectiveScrypt store_light man) addr0 ;;
     mret (walletID, addr0)).

(** [Wallet], with its materialized indices *)
Record HDAccount := mkHDAccount { hda_Index : Z; hda_Address : Address; hda_Alias : string; hda_CreatedAt : Z }.
Record Wallet := mkWalletInfo {
  wl_ID : string; wl_Name : string; wl_CreatedAt : Z; wl_PathPrefix : string; wl_NextIndex : Z; wl_Accounts : gmap Z HDAccount }.

Definition walletFromMeta (id : string) (w : metaWallet) : Wallet :=
  let accts := omap (λ e, (λ idx, (idx, mkHDAccount idx (HexToAddress (ha_Address e.2)) (ha_Alias e.2) (parseTime (ha_CreatedAt e.2)))) <$>
                          parseDecimalIndex e.1) (range (mw_Accounts w)) in
  mkWalletInfo id (mw_Name w) (parseTime (mw_CreatedAt w))
    (if bool_decide (mw_PathPrefix w = "") then defaultPathPrefix else mw_PathPrefix w) (mw_NextIndex w)
    (foldr (λ e m, <[e.1 := e.2]> m) ∅ accts).

Definition sortWalletsByName (ws : list Wallet) : list Wallet := stable_sort (λ a b, String.ltb (wl_Name a) (wl_Name b)) ws.

Definition ListWallets : K (list Wallet) :=
  m <-- loadMeta io ;; mret (sortWalletsByName (map (λ '(id, w), walletFromMeta id w) (range (mf_Wallets m)))).

Definition ShowWallet (name : string) : K Wallet :=
  m <-- loadMeta io ;;
  match findWalletByName m name with
  | None => mfail (no_wallet name)
  | Some (id, w) => mret (walletFromMeta id w)
  end.

Definition RenameWallet (oldName newName : string) : K string :=
  if negb (validName newName) then mfail (New CodeUsageInvalidName (go_quote newName +:+ " is not a valid wallet name")) else
  lockForWrite io
    (m <-- loadMeta io ;;
     match findWalletByName m oldName with
     | None => mfail (no_wallet oldName)
     | Some (id, w) =>
         if nameExists m newName id then mfail (name_taken newName "") else
         saveMeta io (set_wallet id (set_name newName w) m) ;;; mret id
     end).

Definition DeleteWallet (name : string) : K string :=
  lockForWrite io
    (m <-- loadMeta io ;;
     match findWalletByName m name with
     | None => mfail (no_wallet name)
     | Some (id, w) =>
         let m := if defaultPointsToWallet (mf_DefaultAccount m) (mw_Name w) then set_default "" m else m in
         saveMeta io (del_wallet id m) ;;;
         try_remove io (walletBlobPath id) ;;;
         mret id
     end).

(** decodePlaintext of the decrypted blob *)
Definition unlockWallet (id pass : string) : K (string * string) :=
  plain <-- readWalletPlaintext io id pass ;;
  match decodePlaintext plain with
  | None => mfail malformed_plaintext
  | Some mb => mret mb
  end.

Definition ExportWallet (name pass : string) : K (string * string) :=
  VerifyPassphrase io pass ;;;
  m <-- loadMeta io ;;
  match findWalletByName m name with
  | None => mfail (no_wallet name)
  | Some (id, _) => unlockWallet id pass
  end.

(** ** Accounts (account.go) *)

(** the address, and the wallet with the entry written into it *)
Definition deriveAndCache (id : string) (w : metaWallet) (index : Z) (pass : string) : K (Address * metaWallet) :=
  mb <-- unlockWallet id pass ;;
  addr <-- mlift (deriveAddress (seedFromMnemonic mb.1 mb.2) index) ;;
  mret (addr, set_accounts (<[indexKey index := mkHD (Hex addr) "" (formatTime (kio_clock io))]> (mw_Accounts w)) w).

Definition DeriveNext (wallet pass : string) : K (Z * Address) :=
  lockForWrite io
    (VerifyPassphrase io pass ;;;
     m <-- loadMeta io ;;
     match findWalletByName m wallet with
     | None => mfail (no_wallet wallet)
     | Some (id, w) =>
         let index := mw_NextIndex w in
         r <-- deriveAndCache id w index pass ;;
         saveMeta io (set_wallet id (set_next (wrap32 (index + 1)) r.2) m) ;;;
         mret (index, r.1)
     end).

Definition DeriveIndex (wallet : string) (index : Z) (pass : string) : K Address :=
  if hardened <=? index
  then mfail (New CodeUsageBadIndex ("index " +:+ z_string index +:+ " is out of range (non-hardened indexes only: 0.." +:+
                                      z_string (hardened - 1) +:+ ")"))
  else lockForWrite io
    (VerifyPassphrase io pass ;;;
     m <-- loadMeta io ;;
     match findWalletByName m wallet with
     | None => mfail (no_wallet wallet)
     | Some (id, w) =>
         match mw_Accounts w !! indexKey index with
         | Some existing => mret (HexToAddress (ha_Address existing))
         | None =>
             r <-- deriveAndCache id w index pass ;;
             let w := if mw_NextIndex w <=? index then set_next (wrap32 (index + 1)) r.2 else r.2 in
             saveMeta io (set_wallet id w m) ;;;
             mret r.1
         end
     end).

Definition Alias (wallet : string) (index : Z) (alias : string) : K unit :=
  if negb (validAlias alias)
  then mfail (New CodeUsageInvalidName (go_quote alias +:+ " is not a valid alias (use [a-z0-9][a-z0-9_-]{0,63}, not purely numeric)"))
  else lockForWrite io
    (m <-- loadMeta io ;;
     match findWalletByName m wallet with
     | None => mfail (no_wallet wallet)
     | Some (id, w) =>
         match mw_Accounts w !! indexKey index with
         | None => mfail (New CodeRefNotFound (wallet +:+ "/" +:+ z_string index +:+ " is not materialized; derive it before aliasing"))
         | Some acct =>
             if aliasInUse w alias index
             then mfail (New CodeUsageNameCollision ("the alias " +:+ go_quote alias +:+ " is already in use in wallet " +:+ go_quote wallet))
             else saveMeta io (set_wallet id (set_accounts (<[indexKey index := set_alias alias acct]> (mw_Accounts w)) w) m)
         end
     end).

Definition Unalias (wallet : string) (index : Z) : K string :=
  lockForWrite io
    (m <-- loadMeta io ;;
     match findWalletByName m wallet with
     | None => mfail (no_wallet wallet)
     | Some (id, w) =>
         let none := New CodeRefNotFound (wallet +:+ "/" +:+ z_string index +:+ " has no alias") in
         match mw_Accounts w !! indexKey index with
         | None => mfail none
         | Some acct =>
             if bool_decide (ha_Alias acct = "") then mfail none else
             saveMeta io (set_wallet id (set_accounts (<[indexKey index := set_alias "" acct]> (mw_Accounts w)) w) m) ;;;
             mret (ha_Alias acct)
         end
     end).

Definition ImportStandalone (name rawKey pass : string) : K (string * Address) :=
  if negb (validName name) then mfail (New CodeUsageInvalidName (go_quote name +:+ " is not a valid account name")) else
  lockForWrite io
    (VerifyPassphrase io pass ;;;
     m <-- loadMeta io ;;
     if nameExists m name "" then mfail (name_taken name "") else
     priv <-- mlift (privateKeyFromRaw rawKey) ;;
     let addr := cryptoAddr priv in
     let existing := findByAddress m addr in
     if negb (bool_decide (existing = ""))
     then mfail (New CodeUsageNameCollision ("an account with address " +:+ Hex addr +:+ " already exists (" +:+ existing +:+ ")"))
     else
       man <-- loadManifest io ;;
       f <-- writeStandaloneFile io priv pass (effectiveScrypt store_light man) ;;
       save_or_remove (set_account f.1 (mkStandalone name (Hex addr) f.2 (formatTime (kio_clock io))) m) f.2 ;;;
       mret (f.1, addr)).

Definition sortMetaWalletsByName (ws : list metaWallet) : list metaWallet :=
  stable_sort (λ a b, String.ltb (mw_Name a) (mw_Name b)) ws.
Definition sortStandalonesByName (xs : list metaStandalone) : list metaStandalone :=
  stable_sort (λ a b, String.ltb (ms_Name a) (ms_Name b)) xs.

Definition ListAccounts (walletFilter : string) : K (list AccountInfo) :=
  m <-- loadMeta io ;;
  let def := mf_DefaultAccount m in
  let wallets := filter (λ w, bool_decide (walletFilter = "") || equalFold (mw_Name w) walletFilter = true) (map snd (range (mf_Wallets m))) in
  let hd := flat_map (λ w, map (λ idx,
              let a := hd_at w idx in
              let ref := mw_Name w +:+ "/" +:+ indexKey idx in
              hd_info w idx a (bool_decide (def = ref) ||
                               negb (bool_decide (ha_Alias a = "")) && bool_decide (def = mw_Name w +:+ "/" +:+ ha_Alias a)))
              (sortedIndexes w)) (sortMetaWalletsByName wallets) in
  let alone := if bool_decide (walletFilter = "")
               then map (λ a, standalone_info a (bool_decide (def = ms_Name a)))
                      (sortStandalonesByName (map snd (range (mf_Accounts m))))
               else [] in
  mret (hd ++ alone).

Definition with_default (b : bool) (i : AccountInfo) : AccountInfo :=
  mkInfo (ai_Ref i) (ai_Address i) (ai_Kind i) (ai_Wallet i) (ai_Index i) (ai_HasIndex i) (ai_Alias i) (ai_Path i) b (ai_CreatedAt i).

Definition ShowAccount (ref : AccountRef) : K AccountInfo :=
  m <-- loadMeta io ;;
  r <-- mlift (resolveInfo m ref) ;;
  mret (with_default (refIsDefault m r.1) r.1).

(** the mode: "forget" or "remove" *)
Definition DeleteAccount (ref : AccountRef) : K string :=
  lockForWrite io
    (m <-- loadMeta io ;;
     if is_hd ref then
       match findWalletByName m (ar_Wallet ref) with
       | None => mfail (no_wallet (ar_Wallet ref))
       | Some (id, w) =>
           match indexForRef w ref with
           | None => mfail (New CodeRefNotFound ("no such account " +:+ go_quote (ar_Raw ref)))
           | Some idx =>
               let m := if refIsDefault m (hd_info w idx (hd_at w idx) false) then set_default "" m else m in
               saveMeta io (set_wallet id (set_accounts (delete (indexKey idx) (mw_Accounts w)) w) m) ;;;
               mret "forget"
           end
       end
     else if ar_Kind ref =? RefNamed then
       match findStandaloneByName m (ar_Name ref) with
       | None => mfail (no_account (ar_Name ref))
       | Some (id, a) =>
           let m := if bool_decide (mf_DefaultAccount m = ms_Name a) then set_default "" m else m in
           saveMeta io (del_account id m) ;;;
           try_remove io (ms_File a) ;;;
           mret "remove"
       end
     else mfail (New CodeUsageReadOnlyContext (go_quote (ar_Raw ref) +:+ " is not a deletable keystore account"))).

Definition ExportStandalone (ref : AccountRef) (pass : string) : K string :=
  if negb (ar_Kind ref =? RefNamed)
  then mfail (New CodeRefNotFound (go_quote (ar_Raw ref) +:+
         " is not a standalone account; only standalone accounts export a private key (export the wallet mnemonic for an HD account)"))
  else
    VerifyPassphrase io pass ;;;
    m <-- loadMeta io ;;
    match findStandaloneByName m (ar_Name ref) with
    | None => mfail (no_account (ar_Name ref))
    | Some (_, a) => priv <-- readStandaloneKey io (ms_File a) pass ;; mret (privateKeyHex priv)
    end.

Definition SetDefault (ref : AccountRef) : K unit :=
  lockForWrite io
    (m <-- loadMeta io ;;
     canonical <-- mlift (canonicalSigningRef m ref) ;;
     saveMeta io (set_default canonical m)).

Definition DefaultAccount : K (option string) := λ d,
  match loadMeta io d with
  | (Ok m, tr) => (Ok (if bool_decide (mf_DefaultAccount m = "") then None else Some (mf_DefaultAccount m)), tr)
  | (Err _, tr) => (Ok None, tr)
  end.

(** Info (info.go): format, initialized, wallets, HD accounts, standalone accounts, KDF, N *)
Record Info := mkKInfo {
  ki_Format : Z; ki_Initialized : bool; ki_Wallets : Z; ki_HDAccounts : Z; ki_Accounts : Z; ki_KDF : string; ki_ScryptN : Z }.

Definition Store_Info : K Info :=
  man <-- loadManifest io ;;
  m <-- loadMeta io ;;
  mret (mkKInfo (match man with Some man => mn_Format man | None => 0 end)
          (match man with Some _ => true | None => false end)
          (Z.of_nat (base.size (mf_Wallets m)))
          (zsum (map (λ e, Z.of_nat (base.size (mw_Accounts e.2))) (range (mf_Wallets m))))
          (Z.of_nat (base.size (mf_Accounts m)))
          (match man with Some man => kd_KDF (mn_KDFDefaults man) | None => "" end)
          (match man with Some man => kd_N (mn_KDFDefaults man) | None => 0 end)).

(** ** The lookup of a reference (lookup.go) *)

(** a resolved signing identity: it holds no secret, only where the secret is *)
Inductive Signable :=
| hdSignable (walletID : string) (index : Z) (addr : Address)
| standaloneSignable (file : string) (addr : Address).

Definition Signable_Address (s : Signable) : Address :=
  match s with hdSignable _ _ a => a | standaloneSignable _ a => a end.

Definition LookupSigning (ref : AccountRef) : K Signable :=
  if ar_Kind ref =? RefAddress
  then mfail (New CodeUsageReadOnlyContext (ar_Raw ref +:+
         " is a raw address; raw addresses are read-only and cannot sign — use a keystore ref like treasury/0"))
  else if ar_Kind ref =? RefENS
  then mfail (New CodeUsageReadOnlyContext (ar_Raw ref +:+ " is an ENS name; ENS names are destinations, not signing identities"))
  else
    m <-- loadMeta io ;;
    if is_hd ref then
      match findWalletByName m (ar_Wallet ref) with
      | None => mfail (no_wallet (ar_Wallet ref))
      | Some (id, w) =>
          match indexForRef w ref with
          | Some idx => mret (hdSignable id idx (HexToAddress (ha_Address (hd_at w idx))))
          | None =>
              if ar_Kind ref =? RefHDAlias
              then mfail (New CodeRefNotFound ("wallet " +:+ go_quote (ar_Wallet ref) +:+ " has no account aliased " +:+ go_quote (ar_Name ref)))
              else mfail (New CodeRefNotFound ("wallet " +:+ go_quote (ar_Wallet ref) +:+ " has no materialized account at index " +:+
                                                 z_string (ar_Index ref) +:+ " (derive it first)"))
          end
      end
    else if ar_Kind ref =? RefNamed then
      match findWalletByName m (ar_Name ref) with
      | Some _ => mfail (New CodeRefNotFound (go_quote (ar_Name ref) +:+
            " is a wallet, not a signing account; a wallet has many addresses — did you mean " +:+ ar_Name ref +:+ "/0?"))
      | None =>
          match findStandaloneByName m (ar_Name ref) with
          | None => mfail (no_account (ar_Name ref))
          | Some (_, a) => mret (standaloneSignable (ms_File a) (HexToAddress (ms_Address a)))
          end
      end
    else mfail (New CodeRefNotFound (go_quote (ar_Raw ref) +:+ " does not resolve to a signing account")).

Definition AddressOf (ref : AccountRef) : K Address :=
  if ar_Kind ref =? RefAddress then mret (ar_Addr ref)
  else if ar_Kind ref =? RefENS
  then mfail (New CodeUsageReadOnlyContext (ar_Raw ref +:+ " is an ENS name; resolve it through the ens layer, not the keystore"))
  else
    m <-- loadMeta io ;;
    if is_hd ref then
      match findWalletByName m (ar_Wallet ref) with
      | None => mfail (no_wallet (ar_Wallet ref))
      | Some (_, w) =>
          match indexForRef w ref with
          | None => mfail (New CodeRefNotFound ("no such account " +:+ go_quote (ar_Raw ref)))
          | Some idx => mret (HexToAddress (ha_Address (hd_at w idx)))
          end
      end
    else if ar_Kind ref =? RefNamed then
      match findStandaloneByName m (ar_Name ref) with
      | Some (_, a) => mret (HexToAddress (ms_Address a))
      | None =>
          match findWalletByName m (ar_Name ref) with
          | Some _ => mfail (New CodeRefNotFound (go_quote (ar_Name ref) +:+
                " is a wallet, not a single address; reference an account like " +:+ ar_Name ref +:+ "/0"))
          | None => mfail (no_account (ar_Name ref))
          end
      end
    else mfail (New CodeRefNotFound (go_quote (ar_Raw ref) +:+ " does not resolve to an address")).

(** ** Signing (sign.go) *)

(** a [domain.Unlocker]: nil, or what its Passphrase answers *)
Definition Unlocker : Type := option (res error string).

Definition acquirePass (u : Unlocker) : res error string :=
  match u with
  | None => Err (New CodeKeystoreBadPassphrase "no unlocker provided for a signing operation")
  | Some r => r
  end.

(** the private key of a signing identity *)
Definition unlock (s : Signable) (u : Unlocker) : K Z :=
  pass <-- mlift (acquirePass u) ;;
  match s with
  | hdSignable walletID index _ =>
      mb <-- unlockWallet walletID pass ;;
      mlift (derivePrivateKey (seedFromMnemonic mb.1 mb.2) index)
  | standaloneSignable file _ => readStandaloneKey io file pass
  end.

Definition signTx (tx : UnsignedTx) (chainID priv : Z) : res error (string * Hash) :=
  match types_SignTx tx chainID priv with
  | None => Err (New CodeStateCorrupt "cannot sign the transaction")
  | Some signed =>
      match MarshalBinary signed with
      | None => Err (New CodeStateCorrupt "cannot encode the signed transaction")
      | Some raw => Ok (raw, signed_Hash signed)
      end
  end.

Definition signHash (hash : Hash) (priv : Z) : res error string :=
  match crypto_Sign hash priv with
  | None => Err (New CodeStateCorrupt "cannot sign the hash")
  | Some sig => Ok sig
  end.

(** [signerAdapter] *)
Definition Signer_SignTx (ref : AccountRef) (tx : UnsignedTx) (chainID : Z) (u : Unlocker) : K (string * Hash) :=
  sg <-- LookupSigning ref ;; priv <-- unlock sg u ;; mlift (signTx tx chainID priv).

Definition Signer_SignHash (ref : AccountRef) (hash : Hash) (u : Unlocker) : K string :=
  sg <-- LookupSigning ref ;; priv <-- unlock sg u ;; mlift (signHash hash priv).
End Ops.
