(* ===== verification/KeyRotation.v ===== *)
(** * Changing the keystore passphrase: [internal/keys/passphrase.go], [Open] of [keys.go]

    The rotation stages a re-encryption of every secret file beside it, commits
    by writing a marker, renames the staged files and removes the marker.
    [Open] finishes a committed rotation and undoes one that is only staged.
    The second half follows the directory through all of it: whatever the
    rotation and any number of recoveries are cut off after, a completed
    recovery leaves every secret under one passphrase. *)

From S2P Require Import Prelude GoStrings Decimal Json PolicyTypes Domain Trace Service Refs Registry KeyText Keystore.

Local Open Scope string_scope.
Local Open Scope Z_scope.
Local Open Scope list_scope.
Local Open Scope go_scope.

Definition sort_strings (l : list string) : list string := stable_sort String.ltb l.

Definition staged (rel : string) : string := rel +:+ stagedSuffix.

(** strings.TrimPrefix and TrimSuffix *)
Definition TrimPrefix (s p : string) : string := if HasPrefix s p then sdrop (String.length p) s else s.
Definition TrimSuffix (s x : string) : string :=
  if HasSuffix s x then stake (String.length s - String.length x) s else s.

Section Rotation.
Context {UT : UnicodeTables} {GC : GethCommon} {KC : KeyCrypto} {RM : RangeMap}.
Variable io : KeyIO.
Variable store_light : bool.

(** ** Swapping and recovering *)

(** rename each staged file onto its target; a missing one was renamed before *)
Fixpoint swapStaged (rels : list string) : K unit :=
  match rels with
  | [] => mret tt
  | rel :: rels =>
      there <-- kstat io (staged rel) (λ _, New CodeStateCorrupt "cannot stat a staged rotation file") ;;
      (if (there : bool)
       then rename_file io (staged rel) rel (New CodeStateCorrupt "cannot complete the rotation swap")
       else
         let incomplete := New CodeStateCorrupt ("rotation swap incomplete: neither " +:+ rel +:+ " nor its staged copy exist") in
         target <-- kstat io rel (λ _, incomplete) ;;
         if (target : bool) then mret tt else mfail incomplete) ;;;
      swapStaged rels
  end.

(** the names of the files directly in an owned directory, as os.ReadDir gives
    them *)
Definition entry_of (dir k : string) : option string :=
  let prefix := if bool_decide (dir = "") then "" else dir +:+ "/" in
  if HasPrefix k prefix then
    let name := sdrop (String.length prefix) k in
    if contains_byte 47 name then None else Some name
  else None.

Definition dir_files (dir : string) (d : KDir) : list string :=
  sort_strings (filter (λ k, is_Some (entry_of dir k)) (map fst (map_to_list d))).

Fixpoint remove_all (l : list string) : K unit :=
  match l with
  | [] => mret tt
  | k :: l => try_remove io k ;;; remove_all l
  end.

(** rollbackStaged: a directory that is not there has no entries *)
Fixpoint rollback_dirs (dirs : list string) : K unit :=
  match dirs with
  | [] => mret tt
  | dir :: dirs =>
      if kio_readdir io dir then mfail (New CodeStateCorrupt "cannot scan for rotation artifacts") else
      d <-- mget ;;
      remove_all (filter (λ k, HasSuffix k stagedSuffix = true) (dir_files dir d)) ;;;
      rollback_dirs dirs
  end.
Definition rollbackStaged : K unit := rollback_dirs ownedDirs.

Definition recoverRotation : K unit :=
  match kio_read io rotateMarkerName with
  | Some _ => mfail (New CodeStateCorrupt "cannot read the rotation marker")
  | None =>
      d <-- mget ;;
      match d !! rotateMarkerName with
      | None => rollbackStaged
      | Some (KMarker files) =>
          swapStaged files ;;;
          if kio_remove io rotateMarkerName
          then mfail (New CodeStateCorrupt "cannot remove the rotation marker after forward recovery")
          else try_remove io rotateMarkerName
      | Some _ => mfail (New CodeStateCorrupt "the rotation commit marker is corrupt")
      end
  end.

(** ** Opening the keystore (keys.go) *)

Definition initialized : K bool := λ d,
  (Ok (match kio_stat io manifestPath with Some _ => false | None => bool_decide (is_Some (d !! manifestPath)) end), []).

Definition Open (dir : string) : K unit :=
  if bool_decide (dir = "") then mfail (New CodeKeystoreReadOnly "keystore directory is empty") else
  match kio_dir io with
  | Err msg => mfail (New CodeKeystoreReadOnly ("cannot stat keystore directory: " +:+ msg))
  | Ok false => mret tt
  | Ok true =>
      lock io
        (recoverRotation ;;;
         there <-- initialized ;;
         if negb there then mret tt else
         m <-- loadMeta io ;;
         mlift (checkWatermark m))
  end.

(** ** ChangePassphrase *)

(** every secret file, sorted *)
Definition rotationFileSet (m : metaFile) : list string :=
  sort_strings (manifestPath :: map (λ e, walletBlobPath e.1) (range (mf_Wallets m)) ++
                map (λ e, ms_File e.2) (range (mf_Accounts m))).

(** the new manifest: fresh verifier and fingerprint salt, the creation time
    and the light flag of the old one *)
Definition restageManifest (man : manifest) (oldBytes newBytes : string) (np : Z * Z) : res error manifest :=
  match DecryptDataV3 (mn_Verifier man) oldBytes with
  | Plain _ =>
      let* nm := initManifest io (mn_Light man) (staged manifestPath) newBytes in
      let kdf := mn_KDFDefaults nm in
      Ok (mkManifest (mn_Format nm) (mn_CreatedAt man) (mn_Light man)
            (mkKdf (kd_KDF kdf) np.1 (kd_R kdf) np.2 (kd_DKLen kdf)) (mn_FingerprintSalt nm) (mn_Verifier nm))
  | _ => Err wrong_passphrase
  end.

Definition stage_readonly : error := New CodeKeystoreReadOnly "the keystore is read-only; cannot stage the rotation".

Definition stageManifest (nm : manifest) : K unit :=
  write_file io (staged manifestPath) (KManifest (set_format nm)) stage_readonly
    (New CodeStateCorrupt "cannot stage the rotated keystore.json").

Definition stageWrite (stagedFull : string) (f : kfile) : K unit :=
  write_file io stagedFull f stage_readonly (New CodeStateCorrupt "cannot stage a rotated secret file").

(** decrypt with the old passphrase, encrypt with the new one, write beside *)
Definition restageSecretFile (rel oldBytes newBytes : string) (np : Z * Z) : K unit :=
  if HasPrefix rel "wallets/" then
    let id := TrimSuffix (TrimPrefix rel "wallets/") ".json" in
    plain <-- readWalletPlaintext io id oldBytes ;;
    match EncryptDataV3 (kio_salt io (staged rel)) plain newBytes np.1 np.2 with
    | None => mfail (New CodeStateCorrupt "cannot re-encrypt the wallet blob")
    | Some cj => stageWrite (staged rel) (KBlob (mkBlob walletBlobVersion "mnemonic" id 3 cj))
    end
  else
    keyUUID <-- uuidOfStandaloneFile io rel ;;
    priv <-- readStandaloneKey io rel oldBytes ;;
    match EncryptKey (kio_salt io (staged rel)) keyUUID priv newBytes np.1 np.2 with
    | None => mfail (New CodeStateCorrupt "cannot re-encrypt the standalone key")
    | Some j => stageWrite (staged rel) (KKey j)
    end.

(** the stage: on an error, what was staged before is removed *)
Definition abort {A} (done : list string) (e : error) : K A := remove_all (map staged done) ;;; mfail e.

Fixpoint stage_files (done todo : list string) (oldBytes newBytes : string) (np : Z * Z) : K (list string) :=
  match todo with
  | [] => mret done
  | rel :: todo =>
      if bool_decide (rel = manifestPath) then stage_files done todo oldBytes newBytes np else
      r <-- mtry (restageSecretFile rel oldBytes newBytes np) ;;
      match r with
      | Some e => abort done e
      | None => stage_files (done ++ [rel]) todo oldBytes newBytes np
      end
  end.

(** COMMIT and SWAP: the marker, the renames, the removal of the marker *)
Definition commit_and_swap (done : list string) : K unit :=
  let files := sort_strings done in
  w <-- mtry (write_file io rotateMarkerName (KMarker files)
                (New CodeKeystoreReadOnly "the keystore is read-only; cannot commit the rotation")
                (New CodeStateCorrupt "cannot write the rotation commit marker")) ;;
  match w with
  | Some e => abort done e
  | None => swapStaged files ;;; try_remove io rotateMarkerName
  end.

(** the rotation behind the recovery: the number of secret files and the new
    fingerprint *)
Definition rotate (oldPass newPass : string) : K (Z * string) :=
  man <-- loadManifest io ;;
  match man with
  | None => mfail (New CodeKeystoreBadPassphrase "the keystore is not initialized; nothing to rotate")
  | Some man =>
      mlift (verifyAgainst man oldPass) ;;;
      m <-- loadMeta io ;;
      let secretFiles := rotationFileSet m in
      let np := effectiveScrypt store_light (Some man) in
      newMan <-- mlift (restageManifest man oldPass newPass np) ;;
      stageManifest newMan ;;;
      done <-- stage_files [manifestPath] secretFiles oldPass newPass np ;;
      commit_and_swap done ;;;
      mret (Z.of_nat (length secretFiles), fingerprint (mn_FingerprintSalt newMan) newPass)
  end.

Definition ChangePassphrase (oldPass newPass : string) : K (Z * string) :=
  lock io (recoverRotation ;;; rotate oldPass newPass).
End Rotation.

(** ** Paths *)

Lemma HasSuffix_app s x : HasSuffix (s +:+ x) x = true.
Proof. unfold HasSuffix. rewrite srev_app. apply prefix_app. Qed.

Lemma staged_suffix k : HasSuffix (staged k) stagedSuffix = true.
Proof. apply HasSuffix_app. Qed.

Lemma staged_inj k k' : staged k = staged k' → k = k'.
Proof.
  unfold staged. intros E. assert (E' : srev (k +:+ stagedSuffix) = srev (k' +:+ stagedSuffix)) by by rewrite E.
  rewrite !srev_app in E'. assert (H : ∀ p s t, p +:+ s = p +:+ t → s = t).
  { induction p as [|c p IH]; intros s t; [done|]. rewrite !string_app_cons. by intros [= ?%IH]. }
  apply H in E'. by rewrite <-(srev_involutive k), E', srev_involutive.
Qed.

Lemma wallet_path_plain id : HasSuffix (walletBlobPath id) stagedSuffix = false.
Proof. unfold HasSuffix, walletBlobPath. by rewrite <-string_app_assoc, srev_app. Qed.

Lemma wallet_path_trim id : TrimSuffix (TrimPrefix (walletBlobPath id) "wallets/") ".json" = id.
Proof.
  unfold TrimPrefix, HasPrefix, walletBlobPath. rewrite prefix_app, sdrop_app. unfold TrimSuffix. rewrite HasSuffix_app.
  rewrite string_length_app. replace (String.length id + String.length ".json" - String.length ".json")%nat with (String.length id) by lia.
  apply stake_app.
Qed.

Lemma wallet_path_prefix id : HasPrefix (walletBlobPath id) "wallets/" = true.
Proof. unfold HasPrefix, walletBlobPath. apply prefix_app. Qed.

(** a path that no staged copy and no marker has *)
Definition plain_path (k : string) : Prop := HasSuffix k stagedSuffix = false ∧ k ≠ rotateMarkerName.

Lemma plain_not_staged k k' : plain_path k → staged k' ≠ k.
Proof. intros [H _] <-. by rewrite staged_suffix in H. Qed.

Lemma plain_ne_staged k k' : plain_path k → k ≠ staged k'.
Proof. intros H E. by eapply plain_not_staged. Qed.

Lemma staged_not_marker k : staged k ≠ rotateMarkerName.
Proof. intros E. pose proof (staged_suffix k) as H. rewrite E in H. by vm_compute in H. Qed.

(** ** Reading *)

Section Facts.
Context {UT : UnicodeTables} {GC : GethCommon} {KC : KeyCrypto} {RM : RangeMap}.
Implicit Types (io : KeyIO) (d base nw : KDir).

Lemma kstat_ok io p what d b tr : kstat io p what d = (Ok b, tr) → tr = [] ∧ b = bool_decide (is_Some (d !! p)).
Proof. unfold kstat. destruct (kio_stat io p); [done|]. intros H. by minv. Qed.

Lemma reads_kstat io p what : reads_only (kstat io p what).
Proof. unfold kstat. destruct (kio_stat io p); [done|]. apply reads_only_bind; [done|]. intros. apply reads_mret. Qed.

Lemma reads_checkPerms io p : reads_only (checkPerms io p).
Proof. unfold checkPerms. by destruct (kio_perms io p). Qed.

Lemma reads_readKeystoreFile io p what : reads_only (readKeystoreFile io p what).
Proof.
  unfold readKeystoreFile. destruct (kio_read io p); [done|]. apply reads_only_bind; [done|]. intros d. by destruct (d !! p).
Qed.

Lemma readKeystoreFile_ok io p what d f tr : readKeystoreFile io p what d = (Ok f, tr) → tr = [] ∧ d !! p = Some f.
Proof.
  unfold readKeystoreFile. destruct (kio_read io p); [done|]. intros H. minv. destruct (d !! p) eqn:E; [|done].
  by minv.
Qed.

Lemma reads_loadMeta io : reads_only (loadMeta io).
Proof.
  unfold loadMeta. apply reads_only_bind; [apply reads_kstat|]. intros []; cbn [negb]; [|done].
  apply reads_only_bind; [apply reads_checkPerms|]. intros _. apply reads_only_bind; [apply reads_readKeystoreFile|].
  intros []; try done. by destruct (_ <? _).
Qed.

Lemma reads_loadManifest io : reads_only (loadManifest io).
Proof.
  unfold loadManifest. apply reads_only_bind; [apply reads_kstat|]. intros []; cbn [negb]; [|done].
  apply reads_only_bind; [apply reads_checkPerms|]. intros _. apply reads_only_bind; [apply reads_readKeystoreFile|].
  intros []; try done. by destruct (_ <? _).
Qed.

(** the metadata of a directory *)
Definition meta_of (d : KDir) : option metaFile :=
  match d !! metaPath with Some (KMeta m) => Some m | None => Some newMetaFile | _ => None end.

Definition manifest_of (d : KDir) : option manifest :=
  match d !! manifestPath with Some (KManifest m) => Some m | _ => None end.

Lemma loadMeta_ok io d m tr : loadMeta io d = (Ok m, tr) → tr = [] ∧ meta_of d = Some m.
Proof.
  intros H. pose proof (reads_loadMeta io d) as Hr. rewrite H in Hr. cbn in Hr. subst tr. split; [done|].
  unfold loadMeta in H. apply mbind_ok in H as (b & t1 & t2 & [-> ->]%kstat_ok & H & _). unfold meta_of. cbn [after List.last] in H.
  case_bool_decide as Hs; cbn [negb] in H; [|minv; destruct (d !! metaPath) eqn:E; [by destruct Hs|done]].
  apply mbind_ok in H as ([] & t3 & t4 & H0 & H & _). pose proof (reads_checkPerms io metaPath d) as Hp. rewrite H0 in Hp. cbn in Hp. subst t3.
  cbn [after List.last] in H. apply mbind_ok in H as (f & t5 & t6 & [-> Hf]%readKeystoreFile_ok & H & _). rewrite Hf.
  destruct f; try done. destruct (_ <? _); [done|]. by minv.
Qed.

Lemma loadManifest_ok io d m tr : loadManifest io d = (Ok m, tr) → tr = [] ∧ m = manifest_of d ∧ (m = None → d !! manifestPath = None).
Proof.
  intros H. pose proof (reads_loadManifest io d) as Hr. rewrite H in Hr. cbn in Hr. subst tr. split; [done|].
  unfold loadManifest in H. apply mbind_ok in H as (b & t1 & t2 & [-> ->]%kstat_ok & H & _). unfold manifest_of. cbn [after List.last] in H.
  case_bool_decide as Hs; cbn [negb] in H; [|minv; destruct (d !! manifestPath) eqn:E; [by destruct Hs|by subst]].
  apply mbind_ok in H as ([] & t3 & t4 & H0 & H & _). pose proof (reads_checkPerms io manifestPath d) as Hp. rewrite H0 in Hp. cbn in Hp. subst t3.
  cbn [after List.last] in H. apply mbind_ok in H as (f & t5 & t6 & [-> Hf]%readKeystoreFile_ok & H & _). rewrite Hf.
  destruct f; try done. destruct (_ <? _); [done|]. minv. by subst.
Qed.

(** ** The two phases of a rotation *)

(** nothing is committed: outside the staged copies the directory is [base] *)
Definition idle base d : Prop := d !! rotateMarkerName = None ∧ ∀ k, plain_path k → d !! k = base !! k.

(** the new contents [nw] are committed: each is still staged or in place *)
Definition committed base nw (fs : list string) d : Prop :=
  d !! rotateMarkerName = Some (KMarker fs) ∧
  (∀ k, plain_path k → nw !! k = None → d !! k = base !! k) ∧
  (∀ k c, nw !! k = Some c → plain_path k ∧ k ∈ fs ∧
     (d !! staged k = Some c ∧ d !! k = base !! k ∨ d !! staged k = None ∧ d !! k = Some c)) ∧
  (∀ k, k ∈ fs → is_Some (nw !! k)).

Lemma idle_self d : d !! rotateMarkerName = None → idle d d.
Proof. by split. Qed.

Lemma write_runs_in (I : KDir → Prop) io p f e1 e2 d (Q : unit → KDir → Prop) :
  I (<[p := f]> d) → Q tt (<[p := f]> d) → runs_in I (write_file io p f e1 e2) d Q.
Proof.
  intros H1 H2. unfold runs_in, write_file. destruct (kio_write io p) as [[e []]|]; (split; [cbn|]); try (by apply Forall_singleton); try constructor;
    by intros ? ? [= <- <-].
Qed.

Lemma remove_runs_in (I : KDir → Prop) io p d (Q : unit → KDir → Prop) :
  (is_Some (d !! p) → I (delete p d) ∧ Q tt (delete p d)) → Q tt d → runs_in I (try_remove io p) d Q.
Proof.
  intros H1 H2. unfold try_remove, runs_in. destruct (kio_remove io p); [split; [constructor|]; by intros ? ? [= <- <-]|].
  case_bool_decide as Hs; [|split; [constructor|]; by intros ? ? [= <- <-]]. destruct (H1 Hs) as [H3 H4].
  split; [cbn; by apply Forall_singleton|]. by intros ? ? [= <- <-].
Qed.

Lemma rename_runs_in (I : KDir → Prop) io p q what d f (Q : unit → KDir → Prop) :
  d !! p = Some f → I (<[q := f]> (delete p d)) → Q tt (<[q := f]> (delete p d)) → runs_in I (rename_file io p q what) d Q.
Proof.
  intros Hf H1 H2. unfold rename_file, runs_in. rewrite Hf. destruct (kio_rename io p); [split; [constructor|]; by intros ? ? [=]|].
  split; [cbn; by apply Forall_singleton|]. by intros ? ? [= <- <-].
Qed.

Lemma idle_delete base d k : HasSuffix k stagedSuffix = true → idle base d → idle base (delete k d).
Proof.
  intros Hk [H1 H2]. split.
  - destruct (decide (k = rotateMarkerName)) as [->|]; [by rewrite lookup_delete_eq|by rewrite lookup_delete_ne].
  - intros k' Hp. rewrite lookup_delete_ne; [by apply H2|]. intros ->. destruct Hp as [Hp _]. congruence.
Qed.

Lemma remove_all_idle io base l d (Q : unit → KDir → Prop) :
  Forall (λ k, HasSuffix k stagedSuffix = true) l → idle base d → (∀ d', idle base d' → Q tt d') →
  runs_in (idle base) (remove_all io l) d Q.
Proof.
  intros Hl. revert d. induction l as [|k l IH]; intros d Hd HQ; cbn [remove_all]; [by apply runs_in_ret, HQ|].
  apply Forall_cons in Hl as [Hk Hl]. apply runs_in_bind; [done|].
  apply remove_runs_in; [intros _; split; [by apply idle_delete|]|]; intros Hi; by apply IH.
Qed.

Lemma rollback_idle io base d (Q : unit → KDir → Prop) :
  idle base d → (∀ d', idle base d' → Q tt d') → runs_in (idle base) (rollbackStaged io) d Q.
Proof.
  intros Hd HQ. unfold rollbackStaged. revert d Hd. induction ownedDirs as [|dir dirs IH]; intros d Hd; cbn [rollback_dirs]; [by apply runs_in_ret, HQ|].
  destruct (kio_readdir io dir); [apply runs_in_fail|]. apply runs_in_bind; [done|]. apply runs_in_get. intros _. apply runs_in_bind; [done|].
  apply remove_all_idle; [|done|intros; by apply IH].
  apply Forall_forall. intros k [Hk _]%list_elem_of_filter. done.
Qed.

(** one rename keeps the commitment, and puts its file in place *)
Lemma committed_rename base nw fs d k c :
  committed base nw fs d → nw !! k = Some c → d !! staged k = Some c → committed base nw fs (<[k := c]> (delete (staged k) d)).
Proof.
  intros (H1 & H2 & H3 & H4) Hk Hs. pose proof (H3 k c Hk) as (Hp & Hin & _). split_and!; [| | |done].
  - rewrite lookup_insert_ne by (by destruct Hp). rewrite lookup_delete_ne by apply staged_not_marker. done.
  - intros k' Hp' Hn. rewrite lookup_insert_ne by (intros ->; congruence). rewrite lookup_delete_ne by (by apply plain_not_staged). by apply H2.
  - intros k' c' Hk'. pose proof (H3 k' c' Hk') as (Hp' & Hin' & Hor). split_and!; [done|done|].
    destruct (decide (k' = k)) as [->|Hne].
    + right. rewrite Hk in Hk'. injection Hk' as <-. rewrite lookup_insert_ne by (by apply plain_ne_staged).
      by rewrite lookup_delete_eq, lookup_insert_eq.
    + rewrite (lookup_insert_ne _ k (staged k')) by (by apply plain_ne_staged).
      rewrite lookup_delete_ne by (intros E%staged_inj; congruence).
      rewrite (lookup_insert_ne _ k k') by done. rewrite lookup_delete_ne by (by apply plain_not_staged). done.
Qed.

Lemma swap_committed io base nw fs rels d (Q : unit → KDir → Prop) :
  committed base nw fs d → rels ⊆ fs →
  (∀ d', committed base nw fs d' → (∀ k, k ∈ rels → d' !! staged k = None) →
         (∀ k, d !! staged k = None → d' !! staged k = None) → Q tt d') →
  runs_in (committed base nw fs) (swapStaged io rels) d Q.
Proof.
  revert d Q. induction rels as [|k rels IH]; intros d Q Hd Hsub HQ; cbn [swapStaged].
  { apply runs_in_ret, HQ; [done| |done]. by intros k ?%elem_of_nil. }
  apply runs_in_bind; [done|]. apply runs_in_read; [apply reads_kstat|]. intros b [_ ->]%kstat_ok _.
  destruct (proj2 (proj2 (proj2 Hd)) k ltac:(set_solver)) as [c Hc]. pose proof (proj1 (proj2 (proj2 Hd)) k c Hc) as Hk. destruct Hk as (Hp & _ & Hor).
  apply runs_in_bind; [done|]. case_bool_decide as Hs.
  - destruct Hor as [[Hor _]|[Hor _]]; [|rewrite Hor in Hs; by destruct Hs].
    assert (Hd' : committed base nw fs (<[k := c]> (delete (staged k) d))) by by apply committed_rename.
    apply (rename_runs_in _ _ _ _ _ _ c); [done..|]. intros _.
    assert (Hst : ∀ k', k ≠ staged k') by (intros; by apply plain_ne_staged).
    assert (E : ∀ k', <[k := c]> (delete (staged k) d) !! staged k' = delete (staged k) d !! staged k') by (intros; by apply lookup_insert_ne).
    apply IH; [done|set_solver|]. intros d' H1 H2 H3. apply HQ; [done| |].
    + intros k' [->|Hin]%elem_of_cons; [|by apply H2]. apply H3. by rewrite E, lookup_delete_eq.
    + intros k' Hn. apply H3. rewrite E. apply lookup_delete_None. by right.
  - apply runs_in_bind; [done|]. apply runs_in_read; [apply reads_kstat|]. intros b [_ ->]%kstat_ok _.
    case_bool_decide; [|apply runs_in_fail]. apply runs_in_ret. intros _.
    apply IH; [done|set_solver|]. intros d' H1 H2 H3. apply HQ; [done| |done].
    intros k' [->|Hin]%elem_of_cons; [|by apply H2]. apply H3. by destruct (d !! staged k) eqn:E; [destruct Hs|].
Qed.

(** a commitment whose files are all in place, without its marker *)
Lemma committed_done base nw fs d :
  committed base nw fs d → (∀ k, k ∈ fs → d !! staged k = None) → idle (nw ∪ base) (delete rotateMarkerName d).
Proof.
  intros (H1 & H2 & H3 & H4) Hs. split; [by rewrite lookup_delete_eq|]. intros k Hp.
  rewrite lookup_delete_ne by (by destruct Hp). destruct (nw !! k) as [c|] eqn:E.
  - destruct (H3 k c E) as (_ & Hin & [[Hor _]|[_ Hor]]); [rewrite Hs in Hor by done; done|].
    rewrite Hor. symmetry. by apply lookup_union_Some_l.
  - rewrite lookup_union_r by done. by apply H2.
Qed.

(** ** Recovery *)

Lemma recover_idle io base d :
  idle base d → runs_in (idle base) (recoverRotation io) d (λ _ d', idle base d').
Proof.
  intros Hd. unfold recoverRotation. destruct (kio_read io rotateMarkerName); [apply runs_in_fail|].
  apply runs_in_bind; [done|]. apply runs_in_get. intros _. rewrite (proj1 Hd). by apply rollback_idle.
Qed.

Lemma recover_committed io base nw fs d :
  committed base nw fs d →
  runs_in (λ d', committed base nw fs d' ∨ idle (nw ∪ base) d') (recoverRotation io) d (λ _ d', idle (nw ∪ base) d').
Proof.
  intros Hd. unfold recoverRotation. destruct (kio_read io rotateMarkerName); [apply runs_in_fail|].
  apply runs_in_bind; [by left|]. apply runs_in_get. intros _. rewrite (proj1 Hd). apply runs_in_bind; [by left|].
  eapply runs_in_mono; [| |apply (swap_committed io base nw fs fs d (λ _ d', committed base nw fs d' ∧ ∀ k, k ∈ fs → d' !! staged k = None)); [done..|]].
  - auto.
  - intros [] x [H1 H2] _. destruct (kio_remove io rotateMarkerName) eqn:Er; [apply runs_in_fail|].
    unfold try_remove. rewrite Er. unfold runs_in. rewrite (proj1 H1). rewrite bool_decide_eq_true_2 by done.
    pose proof (committed_done _ _ _ _ H1 H2). split; [cbn; apply Forall_singleton; by right|]. by intros ? ? [= <- <-].
  - intros d' H1 H2 _. done.
Qed.

(** not yet committed, committed, or finished *)
Definition phase base nw fs d : Prop := idle base d ∨ committed base nw fs d ∨ idle (nw ∪ base) d.

Lemma recover_phase io base nw fs d :
  phase base nw fs d →
  runs_in (phase base nw fs) (recoverRotation io) d (λ _ d', idle base d' ∨ idle (nw ∪ base) d').
Proof.
  intros [Hd|[Hd|Hd]].
  - eapply runs_in_mono; [| |by apply recover_idle]; unfold phase; auto.
  - eapply runs_in_mono; [| |by apply recover_committed]; unfold phase; [intros ? [?|?]; auto|auto].
  - eapply runs_in_mono; [| |by apply recover_idle]; unfold phase; auto.
Qed.

(** a write of some recovery, which may be the last before a crash *)
Definition recovery_write d d' : Prop := ∃ io, d' ∈ (recoverRotation io d).2.

Lemma recovery_writes_phase base nw fs d d' :
  rtc recovery_write d d' → phase base nw fs d → phase base nw fs d'.
Proof.
  induction 1 as [|d d1 d2 [io Hin] _ IH]; [done|]. intros Hd. apply IH.
  destruct (recover_phase io base nw fs d Hd) as [H _]. rewrite Forall_forall in H. by apply H.
Qed.

(** ** The secrets *)

(** what a secret file protects *)
Inductive secret := SVerifier | SMnemonic (plaintext : string) | SKey (priv : Z).

Definition open_secret (f : kfile) (pass : string) : res error secret :=
  match f with
  | KManifest m => let* _ := verifyAgainst m pass in Ok SVerifier
  | KBlob _ => let* p := open_blob f pass in Ok (SMnemonic p)
  | KKey _ => let* k := open_key f pass in Ok (SKey k)
  | _ => Err (New CodeStateCorrupt "no secret file")
  end.

(** the same secret, under the new passphrase and no other *)
Definition rekeyed (old new : string) (f0 f : kfile) : Prop :=
  ∃ s, open_secret f0 old = Ok s ∧ open_secret f new = Ok s ∧ ∀ p, p ≠ new → open_secret f p = Err wrong_passphrase.

Lemma restageManifest_rekeyed io man old new np nm :
  restageManifest io man old new np = Ok nm → rekeyed old new (KManifest man) (KManifest (set_format nm)).
Proof.
  unfold restageManifest. destruct (DecryptDataV3 (mn_Verifier man) old) eqn:E1; [|done..].
  unfold initManifest. destruct (scryptParams (mn_Light man)) as [n p]. destruct (kio_rand io "verifier"); [|done].
  destruct (EncryptDataV3 _ _ _ _ _) as [cj|] eqn:E2; [|done]. destruct (kio_rand io "fingerprint"); [|done]. cbn [rbind].
  intros [= <-]. exists SVerifier. unfold rekeyed, open_secret, verifyAgainst. cbn [set_format mn_Verifier]. rewrite E1.
  rewrite (data_opens _ _ _ _ _ _ E2). split_and!; [done..|]. intros q Hq. by rewrite (data_sealed _ _ _ _ _ _ _ E2 Hq).
Qed.

(** what staging a file writes *)
Lemma restage_runs_in io rel old new np d (I : KDir → Prop) (Q : unit → KDir → Prop) :
  (HasPrefix rel "wallets/" = true → ∃ id, rel = walletBlobPath id) →
  (∀ f0 f, d !! rel = Some f0 → rekeyed old new f0 f → I (<[staged rel := f]> d) ∧ Q tt (<[staged rel := f]> d)) → I d →
  runs_in I (restageSecretFile io rel old new np) d Q.
Proof.
  intros Hw HQ Hd. unfold restageSecretFile. destruct (HasPrefix rel "wallets/").
  - destruct (Hw eq_refl) as [id ->]. rewrite wallet_path_trim. apply runs_in_bind; [done|].
    unfold readWalletPlaintext. apply runs_in_read.
    { apply reads_only_bind; [apply reads_checkPerms|]. intros _. apply reads_only_bind; [apply reads_readKeystoreFile|]. intros ?. apply reads_mlift. }
    intros plain H _. apply mbind_ok in H as ([] & t1 & t2 & H1 & H & E). symmetry in E. apply app_nil_iff in E as [-> ->]. cbn [after List.last] in H.
    apply mbind_ok in H as (f0 & t3 & t4 & [-> Hf]%readKeystoreFile_ok & H & E). apply mlift_ok in H as [H _].
    destruct (EncryptDataV3 _ _ _ _ _) as [cj|] eqn:Ec; [|apply runs_in_fail]. unfold stageWrite.
    assert (R : rekeyed old new f0 (KBlob (mkBlob walletBlobVersion "mnemonic" id 3 cj))).
    { exists (SMnemonic plain). destruct f0; try done. unfold rekeyed, open_secret. rewrite H. unfold open_blob. cbn [wb_Crypto].
      rewrite (data_opens _ _ _ _ _ _ Ec). split_and!; [done..|]. intros q Hq. by rewrite (data_sealed _ _ _ _ _ _ _ Ec Hq). }
    destruct (HQ _ _ Hf R). by apply write_runs_in.
  - apply runs_in_bind; [done|]. unfold uuidOfStandaloneFile. apply runs_in_read.
    { apply reads_only_bind; [apply reads_readKeystoreFile|]. intros ?. apply reads_mlift. }
    intros uuid _ _. apply runs_in_bind; [done|]. unfold readStandaloneKey. apply runs_in_read.
    { apply reads_only_bind; [apply reads_checkPerms|]. intros _. apply reads_only_bind; [apply reads_readKeystoreFile|]. intros ?. apply reads_mlift. }
    intros priv H _. apply mbind_ok in H as ([] & t1 & t2 & H1 & H & E). symmetry in E. apply app_nil_iff in E as [-> ->]. cbn [after List.last] in H.
    apply mbind_ok in H as (f0 & t3 & t4 & [-> Hf]%readKeystoreFile_ok & H & E). apply mlift_ok in H as [H _].
    destruct (EncryptKey _ _ _ _ _ _) as [cj|] eqn:Ec; [|apply runs_in_fail]. unfold stageWrite.
    assert (R : rekeyed old new f0 (KKey cj)).
    { exists (SKey priv). destruct f0; try done. unfold rekeyed, open_secret. rewrite H. unfold open_key.
      rewrite (key_opens _ _ _ _ _ _ _ Ec). split_and!; [done..|]. intros q Hq. by rewrite (key_sealed _ _ _ _ _ _ _ _ Ec Hq). }
    destruct (HQ _ _ Hf R). by apply write_runs_in.
Qed.

(** ** The rotation *)

(** the path of a secret file of the metadata: a manifest, a blob, a key file *)
Definition good_path (k : string) : Prop :=
  plain_path k ∧ (HasPrefix k "wallets/" = true → ∃ id, k = walletBlobPath id).

(** key files are under accounts/, and none has the name of a staged copy *)
Definition key_files_ok (m : metaFile) : Prop :=
  ∀ id a, mf_Accounts m !! id = Some a → HasPrefix (ms_File a) "accounts/" = true ∧ HasSuffix (ms_File a) stagedSuffix = false.

Lemma accounts_prefix k : HasPrefix k "accounts/" = true → HasPrefix k "wallets/" = false ∧ k ≠ rotateMarkerName ∧ k ≠ metaPath ∧ k ≠ manifestPath.
Proof.
  unfold HasPrefix. intros H. destruct k as [|c k]; [done|]. cbn [String.prefix] in *. destruct (Ascii.ascii_dec _ c) as [<-|]; [|done].
  split_and!; [done|..]; intros [=].
Qed.

Lemma fileset_elem m k :
  k ∈ rotationFileSet m ↔ k = manifestPath ∨ (∃ id w, mf_Wallets m !! id = Some w ∧ k = walletBlobPath id) ∨
                          (∃ id a, mf_Accounts m !! id = Some a ∧ k = ms_File a).
Proof.
  unfold rotationFileSet, sort_strings. rewrite stable_sort_perm, elem_of_cons, elem_of_app, !list_elem_of_fmap.
  setoid_rewrite range_perm. split.
  - intros [?|[([id w] & -> & H)|([id a] & -> & H)]]; [auto|right; left|right; right]; apply elem_of_map_to_list in H; eauto.
  - intros [?|[(id & w & H & ->)|(id & a & H & ->)]]; [auto|right; left; exists (id, w)|right; right; exists (id, a)];
      (split; [done|by apply elem_of_map_to_list]).
Qed.

Lemma fileset_good m k : key_files_ok m → k ∈ rotationFileSet m → good_path k ∧ k ≠ metaPath.
Proof.
  intros Hm [->|[(id & w & H & ->)|(id & a & H & ->)]]%fileset_elem.
  - split; [split; [split|]|]; done.
  - split; [split; [split; [apply wallet_path_plain|done]|eauto]|done].
  - destruct (Hm _ _ H) as [H1 H2]. destruct (accounts_prefix _ H1) as (H3 & H4 & H5 & H6).
    split; [split; [by split|by rewrite H3]|done].
Qed.

Lemma idle_stage base d k c : idle base d → idle base (<[staged k := c]> d).
Proof.
  intros [H1 H2]. split.
  - rewrite lookup_insert_ne by apply staged_not_marker. done.
  - intros k' Hp. rewrite lookup_insert_ne by by apply plain_not_staged. by apply H2.
Qed.

(** the files of [done] are staged *)
Definition staging old new base (done : list string) d : Prop :=
  idle base d ∧ ∀ k, k ∈ done → plain_path k ∧ ∃ f0 f, base !! k = Some f0 ∧ d !! staged k = Some f ∧ rekeyed old new f0 f.

Lemma staging_more old new base done d k f0 f :
  staging old new base done d → plain_path k → base !! k = Some f0 → rekeyed old new f0 f →
  staging old new base (done ++ [k]) (<[staged k := f]> d).
Proof.
  intros [H1 H2] Hp Hk Hr. split; [by apply idle_stage|]. intros k' Hin. destruct (decide (k' = k)) as [->|Hne].
  - split; [done|]. exists f0, f. by rewrite lookup_insert_eq.
  - apply elem_of_app in Hin as [Hin|Hin]; [|by apply list_elem_of_singleton in Hin].
    rewrite lookup_insert_ne by (intros E%staged_inj; congruence). by apply H2.
Qed.

Lemma abort_runs_in io base (A : Type) done e d (Q : A → KDir → Prop) : idle base d → runs_in (idle base) (abort io done e) d Q.
Proof.
  intros Hd. unfold abort. apply runs_in_bind; [done|]. apply remove_all_idle; [|done|intros; apply runs_in_fail].
  apply Forall_forall. intros k (x & -> & _)%list_elem_of_fmap. apply staged_suffix.
Qed.

Lemma stage_files_runs_in io old new np base done todo d :
  staging old new base done d → Forall good_path todo →
  runs_in (idle base) (stage_files io done todo old new np) d
    (λ done' d', staging old new base done' d' ∧ done ⊆ done' ∧ done' ⊆ done ++ todo ∧ ∀ k, k ∈ todo → k = manifestPath ∨ k ∈ done').
Proof.
  revert done d. induction todo as [|k todo IH]; intros done d Hd Hg; cbn [stage_files].
  { apply runs_in_ret. split_and!; [done..|set_solver|]. by intros k ?%elem_of_nil. }
  apply Forall_cons in Hg as [[Hp Hw] Hg]. case_bool_decide as Hk.
  { eapply runs_in_conseq; [apply Hd|by apply IH|]. intros a d' _ (H1 & H2 & H3 & H4). split_and!; [done..|set_solver|].
    intros k' [->|Hin]%elem_of_cons; [by left|by apply H4]. }
  destruct Hd as [Hi Hs].
  assert (R : runs_in (idle base) (restageSecretFile io k old new np) d (λ _ d', staging old new base (done ++ [k]) d')).
  { apply restage_runs_in; [done| |done]. intros f0 f Hf Hr. rewrite (proj2 Hi k Hp) in Hf. split; [by apply idle_stage|].
    by eapply staging_more. }
  apply runs_in_bind; [done|]. apply runs_in_try; [done|apply R|..].
  - intros a tr E _. apply (proj2 R) in E. eapply runs_in_conseq; [apply E|by apply IH|].
    intros b d' _ (H1 & H2 & H3 & H4). split_and!; [done|set_solver|set_solver|].
    intros k' [->|Hin]%elem_of_cons; [right; set_solver|by apply H4].
  - intros e tr E He. by apply abort_runs_in.
Qed.

(** the contents a rotation commits *)
Definition rotation_of old new (m : metaFile) base nw : Prop :=
  (∀ k, k ∈ rotationFileSet m → ∃ f0 f, base !! k = Some f0 ∧ nw !! k = Some f ∧ rekeyed old new f0 f) ∧
  ∀ k, is_Some (nw !! k) → k ∈ rotationFileSet m.

Lemma commit_staged old new m base done d fs :
  staging old new base done d → (∀ k, k ∈ done ↔ k ∈ rotationFileSet m) → (∀ k, k ∈ fs ↔ k ∈ done) →
  ∃ nw, rotation_of old new m base nw ∧ committed base nw fs (<[rotateMarkerName := KMarker fs]> d).
Proof.
  intros [[Hi1 Hi2] Hs] Hdone Hfs.
  set (nw := set_to_map (λ k, (k, default KCorrupt (d !! staged k))) (list_to_set fs : gset string) : KDir).
  assert (N : ∀ k c, nw !! k = Some c ↔ k ∈ fs ∧ d !! staged k = Some c).
  { intros k c. unfold nw. rewrite lookup_set_to_map by done. split.
    - intros (k' & Hin & [= <- <-]). apply elem_of_list_to_set in Hin. split; [done|].
      destruct (Hs k') as (_ & f0 & f & _ & E & _); [by apply Hfs|]. by rewrite E.
    - intros [Hin E]. exists k. rewrite E. split; [by apply elem_of_list_to_set|done]. }
  exists nw. split; [split|split_and!].
  - intros k Hk. destruct (Hs k) as (_ & f0 & f & H0 & H1 & H2); [by apply Hdone|]. exists f0, f. split_and!; [done| |done].
    apply N. split; [by apply Hfs, Hdone|done].
  - intros k [c [Hin _]%N]. by apply Hdone, Hfs.
  - by rewrite lookup_insert_eq.
  - intros k Hp _. rewrite lookup_insert_ne by (intros <-; by destruct Hp). by apply Hi2.
  - intros k c [Hin E]%N. destruct (Hs k) as (Hp & _); [by apply Hfs|]. split_and!; [done..|]. left.
    rewrite !lookup_insert_ne; [|intros <-; by destruct Hp|intros E'; by eapply staged_not_marker]. split; [done|by apply Hi2].
  - intros k Hin. destruct (Hs k) as (_ & f0 & f & _ & E & _); [by apply Hfs|]. exists f. by apply N.
Qed.

(** the write of the marker reports an error with the marker in place *)
Definition marker_torn io : Prop := ∃ e, kio_write io rotateMarkerName = Some (e, true).

(** then the staged files are removed under the marker *)
Definition aborting base nw (fs : list string) d : Prop :=
  d !! rotateMarkerName = Some (KMarker fs) ∧ (∀ k, plain_path k → d !! k = base !! k) ∧
  (∀ k c, nw !! k = Some c → plain_path k ∧ k ∈ fs ∧ (d !! staged k = Some c ∨ d !! staged k = None)) ∧
  (∀ k, k ∈ fs → is_Some (nw !! k)).

Lemma aborting_delete base nw fs d k : aborting base nw fs d → aborting base nw fs (delete (staged k) d).
Proof.
  intros (H1 & H2 & H3 & H4). split_and!; [..|done].
  - by rewrite lookup_delete_ne by apply staged_not_marker.
  - intros k' Hp. rewrite lookup_delete_ne by by apply plain_not_staged. by apply H2.
  - intros k' c Hk. destruct (H3 k' c Hk) as (Hp & Hin & Hor). split_and!; [done..|].
    destruct (decide (k' = k)) as [->|Hne]; [right; by rewrite lookup_delete_eq|]. by rewrite lookup_delete_ne by (intros E%staged_inj; congruence).
Qed.

Lemma abort_torn io base nw fs (A : Type) done e d (Q : A → KDir → Prop) :
  aborting base nw fs d → runs_in (aborting base nw fs) (abort io done e) d Q.
Proof.
  intros Hd. unfold abort. apply runs_in_bind; [done|].
  enough (R : ∀ d, aborting base nw fs d → runs_in (aborting base nw fs) (remove_all io (map staged done)) d (λ _ d', True)).
  { eapply runs_in_conseq; [done|by apply R|]. intros. apply runs_in_fail. }
  clear. induction done as [|k done IH]; intros d Hd; cbn [map remove_all]; [by apply runs_in_ret|]. apply runs_in_bind; [done|].
  apply remove_runs_in; [intros _; split; [by apply aborting_delete|]|]; intros Hi; by apply IH.
Qed.

(** what a rotation that began at [base] may leave; [torn] says that the write
    of its marker may be torn *)
Definition rotating (torn : Prop) old new m base d : Prop :=
  idle base d ∨
  ∃ nw fs, rotation_of old new m base nw ∧ (committed base nw fs d ∨ idle (nw ∪ base) d ∨ torn ∧ aborting base nw fs d).
Definition rotated old new m base d : Prop :=
  ∃ nw fs, rotation_of old new m base nw ∧ (committed base nw fs d ∨ idle (nw ∪ base) d).

(** a commitment of which nothing is swapped yet *)
Lemma committed_aborting base nw fs d :
  committed base nw fs d → (∀ k, plain_path k → d !! k = base !! k) → aborting base nw fs d.
Proof.
  intros (H1 & H2 & H3 & H4) Hb. split_and!; [done..| |done]. intros k c Hk. destruct (H3 k c Hk) as (? & ? & [[? _]|[? _]]); auto.
Qed.

Lemma commit_runs io old new m base done d1 :
  staging old new base done d1 → (∀ k, k ∈ done ↔ k ∈ rotationFileSet m) →
  runs_in (rotating (marker_torn io) old new m base) (commit_and_swap io done) d1 (λ _ d', rotated old new m base d').
Proof.
  intros S1 E. destruct (commit_staged old new m base done d1 (sort_strings done) S1 E) as (nw & HR & HC).
  { intros k. unfold sort_strings. by rewrite stable_sort_perm. }
  set (I := rotating (marker_torn io) old new m base). assert (I0 : ∀ d, idle base d → I d) by by left.
  assert (C : ∀ x, committed base nw (sort_strings done) x → I x) by (intros x Hx; right; eauto 6).
  unfold commit_and_swap. apply runs_in_bind; [by apply I0, S1|]. unfold write_file. destruct (kio_write io rotateMarkerName) as [[fe []]|] eqn:Hw.
  - apply runs_in_try; [by apply I0, S1|cbn; apply Forall_singleton, C, HC|by intros ? ? [=]|]. intros e tr [= <- <-] _. cbn [after List.last].
    eapply (runs_in_mono _ _ _ _ (λ _ _, False)); [|done|eapply abort_torn, committed_aborting; [apply HC|]].
    + intros x Hx. right. exists nw, (sort_strings done). split; [done|]. right. right. split; [by exists fe|done].
    + intros k Hp. rewrite lookup_insert_ne by (intros <-; by destruct Hp). by apply S1.
  - apply runs_in_try; [by apply I0, S1|cbn; constructor|by intros ? ? [=]|]. intros e tr [= <- <-] _.
    eapply (runs_in_mono _ _ _ _ (λ _ _, False)); [exact I0|done|apply abort_runs_in, S1].
  - apply runs_in_try; [by apply I0, S1|cbn; apply Forall_singleton, C, HC| |by intros ? ? [=]]. intros a tr [= <- <-] _. cbn [after List.last].
    apply runs_in_bind; [by apply C|].
    eapply runs_in_mono; [exact C| |apply (swap_committed io base nw (sort_strings done) (sort_strings done) _
      (λ _ x, committed base nw (sort_strings done) x ∧ ∀ k, k ∈ sort_strings done → x !! staged k = None)); [done..|]].
    2: { intros x Hx1 Hx2 _. done. }
    intros [] x [Hx1 Hx2] _. pose proof (committed_done _ _ _ _ Hx1 Hx2) as Hx. apply remove_runs_in.
    + intros _. split; [right|]; exists nw, (sort_strings done); auto.
    + exists nw, (sort_strings done). auto.
Qed.

Lemma rotate_runs io light old new base m d :
  meta_of base = Some m → key_files_ok m → idle base d →
  runs_in (rotating (marker_torn io) old new m base) (rotate io light old new) d (λ _ d', rotated old new m base d').
Proof.
  intros Hm Hk Hd. unfold rotate.
  assert (I0 : ∀ d, idle base d → rotating (marker_torn io) old new m base d) by by left.
  assert (M : meta_of d = Some m).
  { unfold meta_of in *. rewrite (proj2 Hd metaPath); [done|by split]. }
  assert (Man : d !! manifestPath = base !! manifestPath) by by apply Hd.
  apply runs_in_bind; [by apply I0|]. apply runs_in_read; [apply reads_loadManifest|].
  intros man (_ & -> & _)%loadManifest_ok _. unfold manifest_of. rewrite Man.
  destruct (base !! manifestPath) as [[man| | | | |]|] eqn:Eman; try apply runs_in_fail.
  apply runs_in_bind; [by apply I0|]. apply runs_in_lift. intros [] _ _.
  apply runs_in_bind; [by apply I0|]. apply runs_in_read; [apply reads_loadMeta|]. intros m' [_ Em]%loadMeta_ok _.
  rewrite M in Em. injection Em as <-. cbn zeta.
  apply runs_in_bind; [by apply I0|]. apply runs_in_lift. intros nm Hnm%restageManifest_rekeyed _.
  apply runs_in_bind; [by apply I0|]. apply write_runs_in; [by apply I0, idle_stage|]. intros _.
  assert (S0 : staging old new base [manifestPath] (<[staged manifestPath := KManifest (set_format nm)]> d)).
  { apply (staging_more old new base [] d manifestPath (KManifest man)); try done. split; [done|]. by intros k ?%elem_of_nil. }
  assert (G : Forall good_path (rotationFileSet m)). { apply Forall_forall. intros k ?. by apply fileset_good with m. }
  apply runs_in_bind; [by apply I0, S0|].
  eapply runs_in_mono; [exact I0| |by apply stage_files_runs_in]. intros done d1 (S1 & H1 & H2 & H3) _.
  assert (E : ∀ k, k ∈ done ↔ k ∈ rotationFileSet m).
  { assert (Hman : manifestPath ∈ rotationFileSet m) by (apply fileset_elem; auto). intros k. split; [set_solver|].
    intros Hin. destruct (H3 k Hin) as [->|]; [set_solver|done]. }
  apply runs_in_bind; [by apply I0, S1|]. eapply runs_in_conseq; [by apply I0, S1|by apply commit_runs|].
  intros [] x _ Hx _. by apply runs_in_ret.
Qed.

Lemma rotation_runs io light old new base m :
  meta_of base = Some m → key_files_ok m → base !! rotateMarkerName = None →
  runs_in (rotating (marker_torn io) old new m base) (ChangePassphrase io light old new) base (λ _ d', rotated old new m base d').
Proof.
  intros Hm Hk Hb. unfold ChangePassphrase, lock. destruct (kio_lock io) as [[]|]; [apply runs_in_fail..|].
  apply runs_in_bind; [by left; apply idle_self|].
  eapply runs_in_mono; [by left| |apply recover_idle, idle_self, Hb]. intros [] d Hd _. by apply rotate_runs.
Qed.

(** ** A quiet recovery completes *)

Definition quiet_recovery io : Prop :=
  kio_read io rotateMarkerName = None ∧ (∀ p, kio_stat io p = None) ∧ (∀ p, kio_rename io p = false) ∧
  kio_remove io rotateMarkerName = false ∧ ∀ p, kio_readdir io p = false.

Lemma swap_completes io base nw fs rels d :
  quiet_recovery io → committed base nw fs d → rels ⊆ fs → is_ok (swapStaged io rels d).1 = true.
Proof.
  intros (_ & Hst & Hre & _). revert d. induction rels as [|k rels IH]; intros d Hd Hsub; [done|]. cbn [swapStaged].
  assert (St : ∀ p what (d : KDir), kstat io p what d = (Ok (bool_decide (is_Some (d !! p))), [])).
  { intros p what x. unfold kstat. by rewrite Hst. }
  destruct (proj2 (proj2 (proj2 Hd)) k ltac:(set_solver)) as [c Hc].
  destruct (proj1 (proj2 (proj2 Hd)) k c Hc) as (Hp & _ & Hor). rewrite (mbind_read _ _ _ _ (St _ _ _)).
  case_bool_decide as Hs.
  - destruct Hor as [[Hor _]|[Hor _]]; [|rewrite Hor in Hs; by destruct Hs].
    unfold mbind at 1, rename_file. rewrite Hre, Hor. cbn [after List.last].
    specialize (IH _ (committed_rename _ _ _ _ _ _ Hd Hc Hor) ltac:(set_solver)). by destruct (swapStaged _ _ _) as [[?|?] ?].
  - destruct Hor as [[Hor _]|[_ Hor]]; [by rewrite Hor in Hs; destruct Hs|].
    unfold mbind at 1. rewrite (mbind_read _ _ _ _ (St _ _ _)), bool_decide_eq_true_2 by by eexists. cbn [mret after List.last].
    specialize (IH _ Hd ltac:(set_solver)). by destruct (swapStaged _ _ _) as [[?|?] ?].
Qed.

Lemma remove_all_completes io l d : is_ok (remove_all io l d).1 = true.
Proof.
  revert d. induction l as [|k l IH]; intros d; [done|]. cbn [remove_all]. unfold mbind, try_remove.
  specialize (IH (after d (if kio_remove io k then [] else if bool_decide (is_Some (d !! k)) then [delete k d] else []))).
  by destruct (remove_all _ _ _).
Qed.

Lemma rollback_completes io d : (∀ p, kio_readdir io p = false) → is_ok (rollbackStaged io d).1 = true.
Proof.
  intros Hr. unfold rollbackStaged. revert d. induction ownedDirs as [|dir dirs IH]; intros d; [done|]. cbn [rollback_dirs].
  rewrite Hr. rewrite (mbind_read mget _ d d) by done. unfold mbind.
  pose proof (remove_all_completes io (filter (λ k, HasSuffix k stagedSuffix = true) (dir_files dir d)) d) as H.
  destruct (remove_all _ _ _) as [[[]|?] tr]; [|done]. specialize (IH (after d tr)). by destruct (rollback_dirs _ _ _).
Qed.

Lemma recovery_completes io base nw fs d : quiet_recovery io → phase base nw fs d → is_ok (recoverRotation io d).1 = true.
Proof.
  intros Hq Hd. pose proof Hq as (Hread & Hst & Hre & Hrm & Hdir). unfold recoverRotation. rewrite Hread.
  rewrite (mbind_read mget _ d d) by done. assert (Cases : d !! rotateMarkerName = None ∨ committed base nw fs d).
  { destruct Hd as [[? _]|[?|[? _]]]; auto. }
  destruct Cases as [E|Hc]; [rewrite E; by apply rollback_completes|]. rewrite (proj1 Hc), Hrm. unfold mbind.
  pose proof (swap_completes io base nw fs fs d Hq Hc ltac:(done)) as H. by destruct (swapStaged _ _ _) as [[[]|?] ?].
Qed.

(** ** The theorem *)

(** no secret changed *)
Definition all_old d0 d : Prop := ∀ k, plain_path k → d !! k = d0 !! k.

(** every secret file holds its secret under the new passphrase and no other;
    the other files are unchanged *)
Definition all_new old new (m : metaFile) d0 d : Prop :=
  (∀ k, k ∈ rotationFileSet m → ∃ f0 f, d0 !! k = Some f0 ∧ d !! k = Some f ∧ rekeyed old new f0 f) ∧
  (∀ k, plain_path k → k ∉ rotationFileSet m → d !! k = d0 !! k).

Lemma rotated_all_new old new m d0 nw d :
  key_files_ok m → rotation_of old new m d0 nw → idle (nw ∪ d0) d → all_new old new m d0 d.
Proof.
  intros Hm [H1 H2] [_ Hd]. split.
  - intros k Hk. destruct (H1 k Hk) as (f0 & f & E0 & E1 & Hr). exists f0, f. split_and!; [done| |done].
    rewrite Hd by (by eapply fileset_good). by apply lookup_union_Some_l.
  - intros k Hp Hk. rewrite Hd by done. apply lookup_union_r. destruct (nw !! k) eqn:E; [|done]. exfalso. apply Hk, H2. by rewrite E.
Qed.

Lemma rotation_atomic_of io light old new d0 m d1 d2 io' tr :
  ¬ marker_torn io → meta_of d0 = Some m → key_files_ok m → d0 !! rotateMarkerName = None →
  d1 ∈ d0 :: (ChangePassphrase io light old new d0).2 → rtc recovery_write d1 d2 →
  (quiet_recovery io' → is_ok (recoverRotation io' d2).1 = true) ∧
  (recoverRotation io' d2 = (Ok tt, tr) →
   (all_old d0 (after d2 tr) ∨ all_new old new m d0 (after d2 tr)) ∧
   (∀ r tr0, ChangePassphrase io light old new d0 = (Ok r, tr0) → d1 = after d0 tr0 → all_new old new m d0 (after d2 tr))).
Proof.
  intros Hnt Hm Hk Hb Hd1 Hrec. destruct (rotation_runs io light old new d0 m Hm Hk Hb) as [HI HQ].
  assert (R1 : rotating (marker_torn io) old new m d0 d1).
  { apply elem_of_cons in Hd1 as [->|Hin]; [left; by apply idle_self|]. rewrite Forall_forall in HI. by apply HI. }
  assert (Ph : ∃ nw fs, phase d0 nw fs d2 ∧ (rotation_of old new m d0 nw ∨ nw = ∅)).
  { destruct R1 as [Hi|(nw & fs & HR & Hor)].
    - exists ∅, []. split; [|by right]. eapply recovery_writes_phase; [done|by left].
    - exists nw, fs. split; [|by left]. eapply recovery_writes_phase; [done|]. unfold phase. destruct Hor as [?|[?|[? _]]]; [auto..|done]. }
  split.
  { destruct Ph as (nw & fs & Hph & _). intros Hq. by eapply recovery_completes. }
  intros Er. split.
  - destruct Ph as (nw & fs & Hph & Hnw). destruct (recover_phase io' d0 nw fs d2 Hph) as [_ HQ2]. specialize (HQ2 _ _ Er).
    destruct HQ2 as [Hi|Hi]; [left; exact (proj2 Hi)|]. destruct Hnw as [HR| ->]; [right; by eapply rotated_all_new|left].
    rewrite (left_id_L ∅ _) in Hi. exact (proj2 Hi).
  - intros r tr0 E ->. destruct (HQ _ _ E) as (nw & fs & HR & Hor).
    assert (P : committed d0 nw fs (after d0 tr0) ∨ idle (nw ∪ d0) (after d0 tr0)) by done.
    assert (P2 : committed d0 nw fs d2 ∨ idle (nw ∪ d0) d2).
    { clear -P Hrec. remember (after d0 tr0) as x eqn:Ex. clear Ex. induction Hrec as [|x y z [io0 Hin] _ IH]; [done|]. apply IH.
      destruct P as [P|P]; [destruct (recover_committed io0 _ _ _ _ P) as [H _]|destruct (recover_idle io0 _ _ P) as [H _]];
        rewrite Forall_forall in H; [by apply H|right; by apply H]. }
    apply (rotated_all_new old new m d0 nw); [done..|].
    destruct P2 as [P2|P2]; [destruct (recover_committed io' _ _ _ _ P2) as [_ H]|destruct (recover_idle io' _ _ P2) as [_ H]]; exact (H _ _ Er).
Qed.
End Facts.
