(* ===== verification/KeyInv.v ===== *)
(** * The invariant of the keystore

    Every directory that the operations leave, each cut off after any of its
    writes, has one namespace of wallets and standalone accounts, indices below
    their watermark, and secrets whose addresses are the cached ones; the staged
    copies of a committed rotation hold the same secrets.  First the invariant
    and what a write keeps of it, then the operations on wallets; the
    operations on accounts and the properties follow in [KeyProps]. *)

From S2P Require Import Prelude GoStrings Decimal Rfc3339 HexBytes Json PolicyTypes Domain Trace Samples Service Refs Registry RegistryInv KeyText Keystore KeyOps KeyRotation.

Local Open Scope string_scope.
Local Open Scope Z_scope.
Local Open Scope list_scope.
Local Open Scope go_scope.

(** ** Names *)

Section Inv.
Context {UT : UnicodeTables} {GC : GethCommon} {KC : KeyCrypto} {RM : RangeMap}.
Implicit Types (io : KeyIO) (d : KDir) (m : metaFile) (w : metaWallet).

(** what the watermark of a wallet has reached already *)
Variable floor : string → Z.

(** whether every secret is there: a write of the metadata that reports an
    error with its data in place makes the operation remove the secret *)
Variable full : bool.

Lemma lower_alnum_plain c : is_lower_alnum c = true → is_ascii_byte c = true ∧ lower_byte c = c.
Proof.
  intros H. assert (N : name_char c = true) by (unfold name_char; by rewrite H). by apply name_char_plain in N as (? & _ & ?).
Qed.

Lemma validName_lower s : validName s = true → ToLower s = s ∧ s ≠ "".
Proof.
  unfold validName. intros [_ H]%andb_true_iff. destruct s as [|c s]; [done|]. apply andb_true_iff in H as [Hc Hs]. split; [|done].
  assert (L : ∀ t, string_forallb name_rest_char t = true → is_ascii t = true ∧ string_map lower_byte t = t).
  { clear. induction t as [|b t IH]; [done|]. cbn [string_forallb]. intros [Hb Ht]%andb_true_iff. destruct (IH Ht) as [I1 I2].
    assert (N : name_char b = true) by done. apply name_char_plain in N as (N1 & _ & N2).
    unfold is_ascii in *. cbn [string_forallb string_map]. by rewrite N1, I1, N2, I2. }
  apply L in Hs as [I1 I2]. apply lower_alnum_plain in Hc as [N1 N2].
  unfold ToLower, is_ascii in *. cbn [string_forallb string_map]. by rewrite N1, I1, N2, I2.
Qed.

(** an element of an enumeration *)
Lemma range_elem {V} (mp : gmap string V) i x : (i, x) ∈ range mp ↔ mp !! i = Some x.
Proof. rewrite range_perm. apply elem_of_map_to_list. Qed.

Lemma findWalletByName_some m name id w :
  findWalletByName m name = Some (id, w) → mf_Wallets m !! id = Some w ∧ ToLower (mw_Name w) = ToLower name.
Proof.
  unfold findWalletByName. intros [H1 H2]%find_some. apply list_elem_of_In, range_elem in H1. split; [done|].
  unfold same_name in H2. by apply bool_decide_eq_true in H2.
Qed.

Lemma findStandaloneByName_some m name id a :
  findStandaloneByName m name = Some (id, a) → mf_Accounts m !! id = Some a ∧ ToLower (ms_Name a) = ToLower name.
Proof.
  unfold findStandaloneByName. intros [H1 H2]%find_some. apply list_elem_of_In, range_elem in H1. split; [done|].
  unfold same_name in H2. by apply bool_decide_eq_true in H2.
Qed.

Lemma findWalletByName_none m name id w :
  findWalletByName m name = None → mf_Wallets m !! id = Some w → ToLower (mw_Name w) ≠ ToLower name.
Proof.
  unfold findWalletByName. intros H Hw E. eapply find_none in H; [|by apply list_elem_of_In, range_elem].
  unfold same_name in H. cbn in H. by apply bool_decide_eq_false in H.
Qed.

Lemma nameExists_false m name ex :
  nameExists m name ex = false →
  (∀ id w, mf_Wallets m !! id = Some w → id ≠ ex → ToLower (mw_Name w) ≠ ToLower name) ∧
  (∀ id a, mf_Accounts m !! id = Some a → id ≠ ex → ToLower (ms_Name a) ≠ ToLower name).
Proof.
  unfold nameExists. intros [H1 H2]%orb_false_iff. rewrite existsb_false in H1. rewrite existsb_false in H2. split; intros id x Hx Hne E.
  - specialize (H1 (id, x) ltac:(by apply range_elem)). cbn in H1. rewrite bool_decide_eq_false_2 in H1 by done.
    unfold same_name in H1. by rewrite bool_decide_eq_true_2 in H1.
  - specialize (H2 (id, x) ltac:(by apply range_elem)). cbn in H2. rewrite bool_decide_eq_false_2 in H2 by done.
    unfold same_name in H2. by rewrite bool_decide_eq_true_2 in H2.
Qed.

(** ** Well-formed metadata *)

(** one materialized account of a wallet below its watermark *)
Definition account_ok (next : Z) (accts : gmap string metaHDAccount) (k : string) (a : metaHDAccount) : Prop :=
  (∃ i, k = indexKey i ∧ 0 ≤ i < next) ∧ (ha_Alias a = "" ∨ validAlias (ha_Alias a) = true) ∧
  (ha_Alias a ≠ "" → ∀ k' a', accts !! k' = Some a' → ha_Alias a' = ha_Alias a → k' = k).

Record wallet_ok (n : Z) (id : string) (w : metaWallet) : Prop := {
  wo_floor : floor id ≤ mw_NextIndex w;
  wo_name : validName (mw_Name w) = true;
  wo_next : 0 ≤ mw_NextIndex w ≤ 2 ^ 31 + n;
  wo_accounts : ∀ k a, mw_Accounts w !! k = Some a → account_ok (mw_NextIndex w) (mw_Accounts w) k a;
}.

(** one namespace: a name belongs to one object, and so does an identifier *)
Record meta_ok (n : Z) (m : metaFile) : Prop := {
  mo_format : mf_Format m = metaFormatVersion;
  mo_wallets : ∀ id w, mf_Wallets m !! id = Some w → wallet_ok n id w;
  mo_accounts : ∀ id a, mf_Accounts m !! id = Some a → validName (ms_Name a) = true;
  mo_ids : ∀ id, is_Some (mf_Wallets m !! id) → id ≠ "" ∧ mf_Accounts m !! id = None;
  mo_ids' : ∀ id, is_Some (mf_Accounts m !! id) → id ≠ "";
  mo_ww : ∀ id w id' w', mf_Wallets m !! id = Some w → mf_Wallets m !! id' = Some w' → mw_Name w = mw_Name w' → id = id';
  mo_aa : ∀ id a id' a', mf_Accounts m !! id = Some a → mf_Accounts m !! id' = Some a' → ms_Name a = ms_Name a' → id = id';
  mo_wa : ∀ id w id' a, mf_Wallets m !! id = Some w → mf_Accounts m !! id' = Some a → mw_Name w ≠ ms_Name a;
}.

Lemma meta_ok_new n : meta_ok n newMetaFile.
Proof. split; [done|..]; intros *; cbn; rewrite ?lookup_empty; try done; by intros [? ?]. Qed.

Lemma wallet_ok_le n n' id w : n ≤ n' → wallet_ok n id w → wallet_ok n' id w.
Proof. intros Hn [H0 H1 H2 H3]. split; [done|done|lia|done]. Qed.

Lemma meta_ok_le n n' m : n ≤ n' → meta_ok n m → meta_ok n' m.
Proof. intros Hn []. split; eauto using wallet_ok_le. Qed.

Lemma meta_ok_default n m s : meta_ok n m → meta_ok n (set_default s m).
Proof. by intros []. Qed.

(** replacing a wallet by one of a free name *)
Lemma meta_ok_set_wallet n m id w :
  meta_ok n m → wallet_ok n id w → id ≠ "" → mf_Accounts m !! id = None →
  (∀ id' w', mf_Wallets m !! id' = Some w' → id' ≠ id → mw_Name w' ≠ mw_Name w) →
  (∀ id' a, mf_Accounts m !! id' = Some a → ms_Name a ≠ mw_Name w) → meta_ok n (set_wallet id w m).
Proof.
  intros [Hf Hw Ha Hi Hi' Hww Haa Hwa] Hok Hid Hida Hn1 Hn2. split; cbn; [done|..|done|]; try done.
  - intros id' w' [[<- <-]|[_ H]]%lookup_insert_Some; eauto.
  - intros id'. destruct (decide (id' = id)) as [->|Hne]; [done|]. rewrite lookup_insert_ne by done. apply Hi.
  - intros i1 w1 i2 w2 [[<- <-]|[Hne1 H1]]%lookup_insert_Some [[<- <-]|[Hne2 H2]]%lookup_insert_Some E; [done|..|by eapply Hww].
    + exfalso. by eapply Hn1.
    + exfalso. by eapply Hn1.
  - intros i1 w1 i2 a [[<- <-]|[_ H1]]%lookup_insert_Some H2 E; [by eapply Hn2|by eapply Hwa].
Qed.

Lemma meta_ok_del_wallet n m id : meta_ok n m → meta_ok n (del_wallet id m).
Proof.
  intros [Hf Hw Ha Hi Hi' Hww Haa Hwa]. split; cbn; try done.
  - intros id' w [_ H]%lookup_delete_Some. eauto.
  - intros id' [w [_ H]%lookup_delete_Some]. eauto.
  - intros i1 w1 i2 w2 [_ H1]%lookup_delete_Some [_ H2]%lookup_delete_Some. eauto.
  - intros i1 w1 i2 a [_ H1]%lookup_delete_Some. eauto.
Qed.

Lemma meta_ok_set_account n m id a :
  meta_ok n m → validName (ms_Name a) = true → id ≠ "" → mf_Wallets m !! id = None →
  (∀ id' w, mf_Wallets m !! id' = Some w → mw_Name w ≠ ms_Name a) →
  (∀ id' a', mf_Accounts m !! id' = Some a' → id' ≠ id → ms_Name a' ≠ ms_Name a) → meta_ok n (set_account id a m).
Proof.
  intros [Hf Hw Ha Hi Hi' Hww Haa Hwa] Hok Hid Hidw Hn1 Hn2. split; cbn; try done.
  - intros id' a' [[<- <-]|[_ H]]%lookup_insert_Some; eauto.
  - intros id' Hs. destruct (decide (id' = id)) as [->|Hne]; [rewrite Hidw in Hs; by destruct Hs|]. rewrite lookup_insert_ne by done. by apply Hi.
  - intros id'. destruct (decide (id' = id)) as [->|Hne]; [done|]. rewrite lookup_insert_ne by done. apply Hi'.
  - intros i1 a1 i2 a2 [[<- <-]|[Hne1 H1]]%lookup_insert_Some [[<- <-]|[Hne2 H2]]%lookup_insert_Some E; [done|..|by eapply Haa].
    + exfalso. by eapply Hn2.
    + exfalso. by eapply Hn2.
  - intros i1 w1 i2 a2 H1 [[<- <-]|[_ H2]]%lookup_insert_Some E; [by eapply Hn1|by eapply Hwa].
Qed.

Lemma meta_ok_del_account n m id : meta_ok n m → meta_ok n (del_account id m).
Proof.
  intros [Hf Hw Ha Hi Hi' Hww Haa Hwa]. split; cbn; try done.
  - intros id' a [_ H]%lookup_delete_Some. eauto.
  - intros id' Hs. destruct (Hi _ Hs) as [? ?]. split; [done|]. apply lookup_delete_None. by right.
  - intros id' [a [_ H]%lookup_delete_Some]. eauto.
  - intros i1 a1 i2 a2 [_ H1]%lookup_delete_Some [_ H2]%lookup_delete_Some. eauto.
  - intros i1 w1 i2 a H1 [_ H2]%lookup_delete_Some. eauto.
Qed.

(** changing a wallet without its name *)
Lemma meta_ok_update n m id w w' :
  meta_ok n m → mf_Wallets m !! id = Some w → mw_Name w' = mw_Name w → wallet_ok n id w' → meta_ok n (set_wallet id w' m).
Proof.
  intros Hm Hw En Hok. pose proof Hm as [Hf Hw0 Ha Hi Hi' Hww Haa Hwa]. destruct (Hi id) as [H1 H2]; [by eexists|].
  apply meta_ok_set_wallet; [done..| |].
  - intros id' w1 H Hne E. apply Hne. eapply Hww; [done..|]. congruence.
  - intros id' a H E. eapply Hwa; [done..|]. congruence.
Qed.

(** ** The secrets behind the metadata *)

(** the file opens under one passphrase, with this secret *)
Definition secret_of (f : kfile) (s : secret) : Prop :=
  ∃ pass, open_secret f pass = Ok s ∧ ∀ q, q ≠ pass → open_secret f q = Err wrong_passphrase.

(** a file is there only with this secret *)
Definition holds (d : KDir) (p : string) (s : secret) : Prop :=
  (full = true → is_Some (d !! p)) ∧ ∀ f, d !! p = Some f → secret_of f s.

(** the blob of a wallet derives the addresses cached for it *)
Definition wallet_secret (d : KDir) (id : string) (w : metaWallet) : Prop :=
  ∃ plain mn b39, holds d (walletBlobPath id) (SMnemonic plain) ∧ decodePlaintext plain = Some (mn, b39) ∧
  ∀ i a, 0 ≤ i < 2 ^ 32 → mw_Accounts w !! indexKey i = Some a →
    ∃ addr, deriveAddress (seedFromMnemonic mn b39) i = Ok addr ∧ ha_Address a = Hex addr.

(** the key file of a standalone account has the key of its address *)
Definition account_secret (d : KDir) (a : metaStandalone) : Prop :=
  ∃ k t, holds d (ms_File a) (SKey k) ∧ ms_File a = "accounts/" +:+ keyFileName (cryptoAddr k) t ∧
         ms_Address a = Hex (cryptoAddr k).

Definition secrets_ok (d : KDir) (m : metaFile) : Prop :=
  (∀ id w, mf_Wallets m !! id = Some w → wallet_secret d id w) ∧
  (∀ id a, mf_Accounts m !! id = Some a → account_secret d a) ∧
  (∀ id a id' a', mf_Accounts m !! id = Some a → mf_Accounts m !! id' = Some a' → ms_File a = ms_File a' → id = id').

(** a path the metadata names *)
Definition referenced (m : metaFile) (p : string) : Prop :=
  (∃ id, is_Some (mf_Wallets m !! id) ∧ p = walletBlobPath id) ∨ (∃ id a, mf_Accounts m !! id = Some a ∧ p = ms_File a).

(** a committed rotation has, beside each secret, the same secret staged *)
Definition staged_ok (d : KDir) (m : metaFile) : Prop :=
  ∀ fs, d !! rotateMarkerName = Some (KMarker fs) → ∀ k, k ∈ fs →
    plain_path k ∧ k ≠ metaPath ∧
    ∀ f, k ≠ manifestPath → d !! staged k = Some f →
      (∀ f0 s, d !! k = Some f0 → secret_of f0 s → secret_of f s) ∧ (referenced m k → is_Some (d !! k)).

Definition keys_ok (n : Z) (d : KDir) : Prop :=
  ∃ m, meta_of d = Some m ∧ meta_ok n m ∧ secrets_ok d m ∧ staged_ok d m.

Lemma keys_ok_empty : keys_ok 0 ∅.
Proof.
  exists newMetaFile. split_and!; [done|apply meta_ok_new| |].
  - split_and!; by intros *; cbn; rewrite lookup_empty.
  - intros fs. by rewrite lookup_empty.
Qed.

Lemma keys_ok_le n n' d : n ≤ n' → keys_ok n d → keys_ok n' d.
Proof. intros Hn (m & ? & ? & ? & ?). exists m. split_and!; eauto using meta_ok_le. Qed.

Lemma secret_of_open f s pass s' : secret_of f s → open_secret f pass = Ok s' → s' = s.
Proof.
  intros (q & Hq & Hw) Ho. destruct (decide (pass = q)) as [->|Hne]; [congruence|]. rewrite Hw in Ho by done. done.
Qed.

Lemma secret_of_inj f s s' : secret_of f s → secret_of f s' → s = s'.
Proof. intros Hs (q & Hq & _). symmetry. by eapply secret_of_open. Qed.

Lemma rekeyed_secret old new f0 f s : rekeyed old new f0 f → secret_of f0 s → secret_of f s.
Proof.
  intros (s' & H1 & H2 & H3) Hs. assert (s' = s) as -> by by eapply secret_of_open. by exists new.
Qed.

Lemma holds_insert_ne d p q f s : p ≠ q → holds (<[p := f]> d) q s ↔ holds d q s.
Proof. intros Hne. unfold holds. by rewrite (lookup_insert_ne d p q f Hne). Qed.
Lemma holds_delete_ne d p q s : p ≠ q → holds (delete p d) q s ↔ holds d q s.
Proof. intros Hne. unfold holds. by rewrite (lookup_delete_ne d p q Hne). Qed.

Lemma holds_eq d p f s : d !! p = Some f → secret_of f s → holds d p s.
Proof. intros E Hf. unfold holds. rewrite E. split; [done|]. by intros g [= <-]. Qed.
Lemma holds_none d p s : full = false → d !! p = None → holds d p s.
Proof. intros Hfull E. unfold holds. rewrite E. split; [by rewrite Hfull|done]. Qed.
Lemma holds_same d d' p s : d' !! p = d !! p → holds d p s → holds d' p s.
Proof. intros E. unfold holds. by rewrite E. Qed.

(** *** The paths of the secrets *)

Lemma wallet_path_inj id id' : walletBlobPath id = walletBlobPath id' → id = id'.
Proof. intros E. by rewrite <-(wallet_path_trim id), E, wallet_path_trim. Qed.

Lemma wallet_path_ok id : plain_path (walletBlobPath id) ∧ walletBlobPath id ≠ metaPath.
Proof. split; [split; [apply wallet_path_plain|]|]; done. Qed.

(** the name of a key file ends in a hexadecimal digit *)
Lemma fixed_digits_last l n : ∃ s, fixed_digits 16 (S l) n = s +:+ String (digit_char (n mod 16)) "".
Proof. exists (fixed_digits 16 l (n / 16)). done. Qed.

Lemma digit_char_not_w n : 0 ≤ n < 16 → digit_char n ≠ Zbyte 119.
Proof. intros Hn E. assert (E' : byteZ (digit_char n) = byteZ (Zbyte 119)) by by rewrite E. unfold digit_char in E'. destruct (n <? 10) eqn:L; rewrite !byteZ_Zbyte in E' by lia; lia. Qed.

Lemma key_file_ok addr t p :
  p = "accounts/" +:+ keyFileName addr t → plain_path p ∧ p ≠ metaPath ∧ HasPrefix p "accounts/" = true ∧ ∀ id, p ≠ walletBlobPath id.
Proof.
  clear floor. intros ->. assert (Hp : HasPrefix ("accounts/" +:+ keyFileName addr t) "accounts/" = true) by apply prefix_app.
  destruct (accounts_prefix _ Hp) as (H1 & H2 & H3 & _). split_and!; [split|done|done|]; [|done|].
  - unfold keyFileName. destruct (fixed_digits_last 39 addr) as [s E]. rewrite E. unfold HasSuffix.
    rewrite <-!string_app_assoc, srev_app. change (srev (String ?c "")) with (String c ""). rewrite string_app_cons, string_app_nil_l.
    change (srev stagedSuffix) with (String (Zbyte 119) (srev ".ne")). cbn [String.prefix].
    destruct (Ascii.ascii_dec _ _) as [E'|]; [|done]. exfalso. apply (digit_char_not_w (addr mod 16)); [zlia|done].
  - intros id E. rewrite E, wallet_path_prefix in H1. done.
Qed.

Lemma secrets_key_files d m : secrets_ok d m → key_files_ok m.
Proof.
  intros (_ & Ha & _) id a H. destruct (Ha _ _ H) as (k & t & _ & E & _). apply key_file_ok in E as ((H1 & _) & _ & H3 & _). done.
Qed.

Lemma referenced_ok d m p : secrets_ok d m → referenced m p → plain_path p ∧ p ≠ metaPath.
Proof.
  intros (Hw & Ha & _) [(id & [w H] & ->)|(id & a & H & ->)]; [apply wallet_path_ok|].
  destruct (Ha _ _ H) as (k & t & _ & E & _). by apply key_file_ok in E as (? & ? & _).
Qed.

(** the secrets are those of the referenced files *)
Lemma secrets_ok_ext d d' m :
  secrets_ok d m → (∀ p s, referenced m p → holds d p s → holds d' p s) → secrets_ok d' m.
Proof.
  intros (Hw & Ha & Hf) H. split_and!; [..|done].
  - intros id w E. destruct (Hw _ _ E) as (plain & mn & b39 & Hh & Hr). exists plain, mn, b39. split; [|done].
    apply H; [left; eauto|done].
  - intros id a E. destruct (Ha _ _ E) as (k & t & Hh & Hr). exists k, t. split; [|done]. apply H; [right; eauto|done].
Qed.

(** ** What a write keeps *)

Lemma meta_of_insert d p f : p ≠ metaPath → meta_of (<[p := f]> d) = meta_of d.
Proof. intros H. unfold meta_of. by rewrite lookup_insert_ne. Qed.
Lemma meta_of_delete d p : p ≠ metaPath → meta_of (delete p d) = meta_of d.
Proof. intros H. unfold meta_of. by rewrite lookup_delete_ne. Qed.

Lemma referenced_insert_meta d m m' p s : secrets_ok d m → referenced m p → holds d p s → holds (<[metaPath := KMeta m']> d) p s.
Proof. intros Hs Hr. apply holds_insert_ne. intros <-. by apply (referenced_ok d) in Hr as [_ ?]. Qed.

Lemma keys_ok_save n d m : meta_ok n m → secrets_ok d m → staged_ok d m → keys_ok n (<[metaPath := KMeta m]> d).
Proof.
  intros Hm Hs Hst. exists m. split_and!; [|done|..].
  - unfold meta_of. by rewrite lookup_insert_eq.
  - eapply secrets_ok_ext; [done|]. intros p s. by apply referenced_insert_meta.
  - intros fs. rewrite lookup_insert_ne by done. intros Hfs k Hk. destruct (Hst fs Hfs k Hk) as (Hp & Hne & H). split_and!; [done..|].
    intros f Hman. rewrite lookup_insert_ne by (intros E; symmetry in E; revert E; by apply plain_not_staged).
    rewrite lookup_insert_ne by done. by apply H.
Qed.

(** a path that neither a file nor a staged copy has *)
Definition fresh_path (d : KDir) (p : string) : Prop := d !! p = None ∧ d !! staged p = None.

(** the staged copies when other metadata is saved *)
Lemma staged_ok_sub d m m' :
  staged_ok d m → (∀ p, referenced m' p → referenced m p ∨ is_Some (d !! p) ∨ d !! staged p = None) → staged_ok d m'.
Proof.
  intros Hst Hsub fs Hfs k Hk. destruct (Hst fs Hfs k Hk) as (Hp & Hne & H). split_and!; [done..|].
  intros f Hman Hf. destruct (H f Hman Hf) as [H1 H2]. split; [done|]. intros [Hr|[Hr|Hr]]%Hsub; [by apply H2|done|congruence].
Qed.

Lemma keys_ok_add n d p f m :
  plain_path p → p ≠ metaPath → fresh_path d p → meta_of d = Some m → ¬ referenced m p → keys_ok n d → keys_ok n (<[p := f]> d).
Proof.
  intros Hp Hpm [Hn Hsn] Hm Hr (m' & Hm' & Hok & Hs & Hst). rewrite Hm in Hm'. injection Hm' as <-.
  exists m. split_and!; [by rewrite meta_of_insert|done|..].
  - eapply secrets_ok_ext; [done|]. intros q s Hq. apply holds_insert_ne. by intros <-.
  - intros fs. rewrite lookup_insert_ne by (by destruct Hp). intros Hfs k Hk. destruct (Hst fs Hfs k Hk) as (Hpk & Hne & H).
    split_and!; [done..|]. intros g Hman. rewrite lookup_insert_ne by by apply plain_ne_staged.
    destruct (decide (p = k)) as [<-|Hnk]; [by rewrite Hsn|]. rewrite lookup_insert_ne by done. by apply H.
Qed.

Lemma keys_ok_drop n d p m :
  plain_path p → p ≠ metaPath → meta_of d = Some m → (referenced m p → full = false ∧ d !! staged p = None) → keys_ok n d → keys_ok n (delete p d).
Proof.
  intros Hp Hpm Hm Hr (m' & Hm' & Hok & Hs & Hst). rewrite Hm in Hm'. injection Hm' as <-. exists m. split_and!; [by rewrite meta_of_delete|done|..].
  - eapply secrets_ok_ext; [done|]. intros q s Hq. destruct (decide (p = q)) as [<-|Hne]; [|by apply holds_delete_ne].
    intros _. apply holds_none; [by apply Hr|by rewrite lookup_delete_eq].
  - intros fs. rewrite lookup_delete_ne by (by destruct Hp). intros Hfs k Hk. destruct (Hst fs Hfs k Hk) as (Hpk & Hne & H).
    split_and!; [done..|]. intros g Hman. rewrite lookup_delete_ne by by apply plain_ne_staged.
    destruct (decide (p = k)) as [<-|Hnk]; [|rewrite lookup_delete_ne by done; by apply H].
    intros Hg. split; [by rewrite lookup_delete_eq|]. intros [_ E]%Hr. congruence.
Qed.

(** without a marker, a change outside the referenced files keeps everything *)
Lemma keys_ok_unmarked n d d' :
  keys_ok n d → d' !! rotateMarkerName = None → (∀ p, plain_path p → d' !! p = d !! p) → keys_ok n d'.
Proof.
  intros (m & Hm & Hok & Hs & _) Hmk He. exists m. split_and!; [|done|..].
  - unfold meta_of in *. by rewrite He.
  - eapply secrets_ok_ext; [done|]. intros p s Hr. apply holds_same, He. by eapply referenced_ok.
  - intros fs. by rewrite Hmk.
Qed.

(** ** The operations keep the invariant *)

Lemma reads_ensureDirs io : reads_only (ensureDirs io).
Proof.
  unfold ensureDirs. induction ownedDirs as [|p l IH]; [done|]. cbn [ensure_dirs].
  destruct (kio_mkdir io p) as [[[] ?]|]; [done..|]. by destruct (kio_chmod io p) as [[[] ?]|].
Qed.

Lemma reads_VerifyPassphrase io pass : reads_only (VerifyPassphrase io pass).
Proof. unfold VerifyPassphrase. apply reads_only_bind; [apply reads_loadManifest|]. by intros []. Qed.

Lemma reads_unlockWallet io id pass : reads_only (unlockWallet io id pass).
Proof.
  unfold unlockWallet, readWalletPlaintext. apply reads_only_bind.
  - apply reads_only_bind; [apply reads_checkPerms|]. intros _. by apply reads_only_bind; [apply reads_readKeystoreFile|].
  - intros p. by destruct (decodePlaintext p).
Qed.

Lemma reads_readStandaloneKey io p pass : reads_only (readStandaloneKey io p pass).
Proof. unfold readStandaloneKey. apply reads_only_bind; [apply reads_checkPerms|]. intros _. by apply reads_only_bind; [apply reads_readKeystoreFile|]. Qed.

Hint Resolve reads_loadMeta reads_loadManifest reads_VerifyPassphrase reads_unlockWallet reads_ensureDirs reads_checkPerms
  reads_readStandaloneKey : daxie.

(** a read decides a step of the trace without writing *)
Lemma runs_in_skip {A B} (I : KDir → Prop) (m : K A) (f : A → K B) d Q :
  I d → reads_only m → (∀ a, m d = (Ok a, []) → runs_in I (f a) d Q) → runs_in I (mbind m f) d Q.
Proof. intros Hd Hr H. apply runs_in_bind; [done|]. apply runs_in_read; [done|]. intros a E _. by apply H. Qed.

Lemma lockForWrite_runs {A} I io (body : K A) d Q : I d → runs_in I body d Q → runs_in I (lockForWrite io body) d Q.
Proof.
  intros Hd H. unfold lockForWrite. apply runs_in_skip; [done|auto with daxie|]. intros _ _. unfold lock.
  destruct (kio_lock io) as [[]|]; [apply runs_in_fail..|done].
Qed.

(** the metadata an operation loads is that of the directory *)
Lemma loadMeta_runs {B} n n' io (f : metaFile → K B) d (Q : B → KDir → Prop) :
  keys_ok n' d → keys_ok n d →
  (∀ m, meta_of d = Some m → meta_ok n m → secrets_ok d m → staged_ok d m → runs_in (keys_ok n') (f m) d Q) →
  runs_in (keys_ok n') (mbind (loadMeta io) f) d Q.
Proof.
  intros Hd (m0 & Hm & H1 & H2 & H3) H. apply runs_in_skip; [done|auto with daxie|]. intros m [_ E]%loadMeta_ok.
  rewrite Hm in E. injection E as <-. by apply H.
Qed.

Lemma saveMeta_runs n io m d (Q : unit → KDir → Prop) :
  meta_ok n m → secrets_ok d m → staged_ok d m → Q tt (<[metaPath := KMeta m]> d) → runs_in (keys_ok n) (saveMeta io m) d Q.
Proof.
  intros Hm Hs Hst HQ. unfold saveMeta.
  assert (E : mkMeta metaFormatVersion (mf_DefaultAccount m) (mf_Wallets m) (mf_Accounts m) = m).
  { destruct m. pose proof (mo_format _ _ Hm) as E. cbn in *. by subst. }
  rewrite E. apply write_runs_in; [by apply keys_ok_save|done].
Qed.

(** saving, then removing a file that is no longer named *)
Lemma save_then_remove n io m p d (Q : unit → KDir → Prop) :
  meta_ok n m → secrets_ok d m → staged_ok d m → keys_ok n d → plain_path p → p ≠ metaPath → ¬ referenced m p → (∀ x d', Q x d') →
  runs_in (keys_ok n) (saveMeta io m ;;; try_remove io p) d Q.
Proof.
  intros Hm Hs Hst Hk Hp Hpm Hr HQ. apply runs_in_bind; [done|]. apply saveMeta_runs; [done..|]. intros Hk'.
  apply remove_runs_in; [|done]. intros _. split; [|done]. apply (keys_ok_drop n _ p m); [done..| |done|done].
  unfold meta_of. by rewrite lookup_insert_eq.
Qed.

(** the metadata is not written with an error and the data in place, where
    every secret is to be there *)
Definition steady_meta io : Prop := full = true → ∀ e, kio_write io metaPath ≠ Some (e, true).

(** saving, with the removal of a new file when it fails *)
Lemma save_or_remove_runs n io m0 m p d (Q : unit → KDir → Prop) :
  meta_ok n m → secrets_ok d m → staged_ok d m → keys_ok n d → meta_of d = Some m0 → ¬ referenced m0 p →
  plain_path p → p ≠ metaPath → d !! staged p = None → steady_meta io → (∀ d', Q tt d') →
  runs_in (keys_ok n) (save_or_remove io m p) d Q.
Proof.
  intros Hm Hs Hst Hk Hm0 Hr Hp Hpm Hsp Hio HQ. unfold save_or_remove. apply runs_in_bind; [done|].
  assert (R : runs_in (keys_ok n) (saveMeta io m) d (λ _ _, True)) by by apply saveMeta_runs.
  apply runs_in_try; [done|apply R|..].
  - intros a tr _ _. by apply runs_in_ret.
  - intros e tr E Hk'. apply runs_in_bind; [done|]. apply remove_runs_in; [|intros _; apply runs_in_fail].
    intros _. split; [|intros _; apply runs_in_fail]. unfold saveMeta, write_file in E.
    destruct (kio_write io metaPath) as [[fe []]|] eqn:Ew; [|injection E as _ <-; by apply (keys_ok_drop n d p m0)|done].
    injection E as _ <-. eapply keys_ok_drop; [done|done|unfold meta_of; cbn; by rewrite lookup_insert_eq| |done]. intros _. split.
    + unfold steady_meta in Hio. destruct full; [by destruct (Hio eq_refl fe)|done].
    + cbn. by rewrite lookup_insert_ne by by apply plain_ne_staged.
Qed.

(** *** Wallets *)

Lemma write_blob_runs n io id plain pass np d (Q : unit → KDir → Prop) :
  keys_ok n d → fresh_path d (walletBlobPath id) → (∀ m, meta_of d = Some m → ¬ referenced m (walletBlobPath id)) →
  (∀ f, secret_of f (SMnemonic plain) → keys_ok n (<[walletBlobPath id := f]> d) → Q tt (<[walletBlobPath id := f]> d)) →
  runs_in (keys_ok n) (writeWalletBlob io id plain pass np) d Q.
Proof.
  intros Hk Hf Hr HQ. destruct (wallet_path_ok id). unfold writeWalletBlob. destruct (EncryptDataV3 _ _ _ _ _) as [cj|] eqn:E; [|apply runs_in_fail].
  assert (S : secret_of (KBlob (mkBlob walletBlobVersion "mnemonic" id 3 cj)) (SMnemonic plain)).
  { exists pass. unfold open_secret, open_blob. cbn [wb_Crypto]. rewrite (data_opens _ _ _ _ _ _ E). split; [done|].
    intros q Hq. by rewrite (data_sealed _ _ _ _ _ _ _ E Hq). }
  assert (K : ∀ f, keys_ok n (<[walletBlobPath id := f]> d)).
  { intros f. destruct Hk as (m & Hm & Hrest). eapply keys_ok_add; [done..|by apply Hr|by exists m]. }
  apply write_runs_in; [done|by apply HQ].
Qed.

(** the identifier of a new object *)
Definition fresh_id (m : metaFile) (id : string) : Prop := id ≠ "" ∧ mf_Wallets m !! id = None ∧ mf_Accounts m !! id = None.

Lemma indexKey_0 : indexKey 0 = "0".
Proof. done. Qed.

Lemma fresh_wallet_ok n io id name addr0 : 0 ≤ n → floor id ≤ 1 → validName name = true → wallet_ok n id (fresh_wallet io name addr0).
Proof.
  intros Hn Hfl Hv. split; cbn; [done|done|lia|]. intros k a [<- <-]%lookup_singleton_Some. split_and!; [exists 0; split; [done|lia]|by left|done].
Qed.

Lemma register_wallet_runs n io m name mnemonic b39 pass np addr0 d (Q : string → KDir → Prop) :
  0 ≤ n → keys_ok n d → meta_of d = Some m → meta_ok n m → secrets_ok d m → staged_ok d m → steady_meta io →
  validName name = true → nameExists m name "" = false → mnemonic ≠ "" →
  deriveAddress (seedFromMnemonic mnemonic b39) 0 = Ok addr0 →
  fresh_id m (kio_uuid io "wallet") → floor (kio_uuid io "wallet") ≤ 1 →
  fresh_path d (walletBlobPath (kio_uuid io "wallet")) → (∀ x d', Q x d') →
  runs_in (keys_ok n) (register_wallet io m name mnemonic b39 pass np addr0) d Q.
Proof.
  intros Hn Hk Hm Hok Hs Hst Hio Hv Hex Hmn Hder (Hid & Hidw & Hida) Hfl Hfp HQ. unfold register_wallet. set (id := kio_uuid io "wallet") in *.
  destruct (wallet_path_ok id) as [Wp Wm].
  assert (NR : ¬ referenced m (walletBlobPath id)).
  { intros [(id' & [w H] & E)|(id' & a & H & E)].
    - apply wallet_path_inj in E. subst id'. congruence.
    - destruct Hs as (_ & Ha & _). destruct (Ha _ _ H) as (k & t & _ & Ep & _). rewrite <-E in Ep. apply key_file_ok in Ep as (_ & _ & _ & Ep). by apply (Ep id). }
  apply runs_in_bind; [done|]. apply write_blob_runs; [done..|intros m' Hm'; congruence|]. intros f Hf Hk1 _.
  destruct (nameExists_false _ _ _ Hex) as [N1 N2]. destruct (validName_lower _ Hv) as [L1 _]. set (d1 := <[walletBlobPath id := f]> d) in *.
  assert (Hm1 : meta_of d1 = Some m) by (unfold d1; by rewrite meta_of_insert).
  assert (Hs1 : secrets_ok d1 m). { eapply secrets_ok_ext; [done|]. intros p s Hr. apply holds_insert_ne. by intros <-. }
  assert (Hst1 : staged_ok d1 m) by (destruct Hk1 as (m' & Hm' & _ & _ & Hst1); rewrite Hm1 in Hm'; by injection Hm' as <-).
  assert (Hsp : d1 !! staged (walletBlobPath id) = None). { unfold d1. rewrite lookup_insert_ne by (by apply plain_ne_staged). by destruct Hfp. }
  apply runs_in_bind; [done|]. apply (save_or_remove_runs n io m); [..|by intros d' _; apply runs_in_ret]; try done.
  - apply meta_ok_set_wallet; [done|by apply fresh_wallet_ok|done|done|..].
    + intros id' w' H Hne E. cbn in E. apply (N1 id' w' H); [|by rewrite E]. by destruct (mo_ids _ _ Hok id'); [eexists|].
    + intros id' a H E. cbn in E. apply (N2 id' a H); [|by rewrite E]. by eapply mo_ids'; [|eexists].
  - destruct Hs1 as (S1 & S2 & S3). split_and!; [|done|done]. cbn. intros id' w [[<- <-]|[Hne H]]%lookup_insert_Some; [|by apply S1].
    exists (encodePlaintext mnemonic b39), mnemonic, b39. split_and!.
    + apply (holds_eq _ _ f); [|done]. unfold d1. by rewrite lookup_insert_eq.
    + by apply decode_encode.
    + intros i a Hi H. cbn in H. apply lookup_singleton_Some in H as [E <-]. rewrite <-indexKey_0 in E. apply indexKey_inj in E as <-; [|lia..]. eauto.
  - eapply staged_ok_sub; [done|]. intros p [(id' & [w H] & ->)|(id' & a & H & ->)]; [|left; right; eauto].
    cbn in H. apply lookup_insert_Some in H as [[<- _]|[_ H]]; [by right; right|left; left; eauto].
Qed.

Lemma generateMnemonic_ok io words mn : generateMnemonic io words = Ok mn → mn ≠ "".
Proof.
  unfold generateMnemonic. destruct (wordsToEntropyBits words) as [bits|]; [|done]. destruct (kio_rand io "mnemonic"); [|done].
  destruct (NewMnemonic _) as [mn0|] eqn:E; [|done]. destruct (generated_canonical _ _ E) as (H1 & H2 & H3). intros [= <-].
  unfold canonicalizeMnemonic, nfkdBytes. rewrite bool_decide_eq_false_2 by done. by rewrite H2, H3.
Qed.

Lemma validateMnemonic_ok raw mn : validateMnemonic raw = Ok mn → mn ≠ "".
Proof.
  unfold validateMnemonic. destruct (IsMnemonicValid _) eqn:E; [|done]. intros [= <-] H. rewrite H, valid_not_empty in E. done.
Qed.

Lemma CreateWallet_runs n io light name words pass d :
  0 ≤ n → keys_ok n d → (∀ m, meta_of d = Some m → fresh_id m (kio_uuid io "wallet")) → floor (kio_uuid io "wallet") ≤ 1 → steady_meta io →
  fresh_path d (walletBlobPath (kio_uuid io "wallet")) →
  runs_in (keys_ok n) (CreateWallet io light name words pass) d (λ _ _, True).
Proof.
  intros Hn Hk Hid Hfl Hio Hfp. unfold CreateWallet. destruct (validName name) eqn:Hv; cbn [negb]; [|apply runs_in_fail].
  destruct (wordsToEntropyBits words); [|apply runs_in_fail]. apply lockForWrite_runs; [done|].
  apply runs_in_skip; [done|auto with daxie|]. intros _ _. apply (loadMeta_runs n); [done..|]. intros m Hm Hok Hs Hst.
  destruct (nameExists m name "") eqn:Hex; [apply runs_in_fail|]. apply runs_in_skip; [done|auto with daxie|]. intros man _.
  apply runs_in_skip; [done|apply reads_mlift|]. intros mn [E _]%mlift_ok. apply generateMnemonic_ok in E.
  apply runs_in_skip; [done|apply reads_mlift|]. intros addr0 [E2 _]%mlift_ok.
  apply runs_in_bind; [done|]. apply (register_wallet_runs n); auto. intros x d' _. by apply runs_in_ret.
Qed.

Lemma ImportWallet_runs n io light name mnemonic b39 pass d :
  0 ≤ n → keys_ok n d → (∀ m, meta_of d = Some m → fresh_id m (kio_uuid io "wallet")) → floor (kio_uuid io "wallet") ≤ 1 → steady_meta io →
  fresh_path d (walletBlobPath (kio_uuid io "wallet")) →
  runs_in (keys_ok n) (ImportWallet io light name mnemonic b39 pass) d (λ _ _, True).
Proof.
  intros Hn Hk Hid Hfl Hio Hfp. unfold ImportWallet. destruct (validName name) eqn:Hv; cbn [negb]; [|apply runs_in_fail].
  apply lockForWrite_runs; [done|].
  apply runs_in_skip; [done|auto with daxie|]. intros _ _. apply (loadMeta_runs n); [done..|]. intros m Hm Hok Hs Hst.
  destruct (nameExists m name "") eqn:Hex; [apply runs_in_fail|]. apply runs_in_skip; [done|auto with daxie|]. intros man _.
  apply runs_in_skip; [done|apply reads_mlift|]. intros mn [E _]%mlift_ok. apply validateMnemonic_ok in E.
  apply runs_in_skip; [done|apply reads_mlift|]. intros addr0 [E2 _]%mlift_ok.
  apply runs_in_bind; [done|]. apply (register_wallet_runs n); auto. intros x d' _. by apply runs_in_ret.
Qed.

(** the secrets when one wallet entry is replaced *)
Lemma secrets_set_wallet d m id w : secrets_ok d m → wallet_secret d id w → secrets_ok d (set_wallet id w m).
Proof. intros (H1 & H2 & H3) Hw. split_and!; [|done..]. cbn. intros id' w' [[<- <-]|[_ H]]%lookup_insert_Some; eauto. Qed.

(** the files named stay named, when an entry is replaced or deleted *)
Lemma staged_ok_set_wallet d m id w w' : mf_Wallets m !! id = Some w → staged_ok d m → staged_ok d (set_wallet id w' m).
Proof.
  intros Hw Hst. eapply staged_ok_sub; [done|]. intros p [(id' & [v H] & ->)|(id' & a & H & ->)]; left; [left|right; eauto].
  cbn in H. exists id'. split; [|done]. apply lookup_insert_Some in H as [[<- _]|[_ H]]; eauto.
Qed.

Lemma staged_ok_fewer d m m' :
  staged_ok d m → mf_Wallets m' ⊆ mf_Wallets m → mf_Accounts m' ⊆ mf_Accounts m → staged_ok d m'.
Proof.
  intros Hst H1 H2. eapply staged_ok_sub; [done|]. intros p [(id' & [v H] & ->)|(id' & a & H & ->)]; left.
  - left. exists id'. split; [|done]. exists v. by eapply lookup_weaken.
  - right. exists id', a. split; [|done]. by eapply lookup_weaken.
Qed.

(** fewer cached addresses, or the same *)
Lemma wallet_secret_sub d id w w' :
  wallet_secret d id w →
  (∀ k a', mw_Accounts w' !! k = Some a' → ∃ a, mw_Accounts w !! k = Some a ∧ ha_Address a' = ha_Address a) → wallet_secret d id w'.
Proof.
  intros (plain & mn & b39 & Hh & Hd & H) Hsub. exists plain, mn, b39. split_and!; [done..|]. intros i a' Hi Ha'.
  destruct (Hsub _ _ Ha') as (a & Ha & E). destruct (H i a Hi Ha) as (addr & H1 & H2). exists addr. split; [done|congruence].
Qed.

Lemma RenameWallet_runs n io old new d :
  keys_ok n d → runs_in (keys_ok n) (RenameWallet io old new) d (λ _ _, True).
Proof.
  intros Hk. unfold RenameWallet. destruct (validName new) eqn:Hv; cbn [negb]; [|apply runs_in_fail].
  apply lockForWrite_runs; [done|]. apply (loadMeta_runs n); [done..|]. intros m Hm Hok Hs Hst.
  destruct (findWalletByName m old) as [[id w]|] eqn:Hf; [|apply runs_in_fail]. apply findWalletByName_some in Hf as [Hw _].
  destruct (nameExists m new id) eqn:Hex; [apply runs_in_fail|]. destruct (nameExists_false _ _ _ Hex) as [N1 N2].
  destruct (mo_ids _ _ Hok id) as [Hid Hida]; [by eexists|]. pose proof (mo_wallets _ _ Hok _ _ Hw) as [W0 W1 W2 W3].
  apply runs_in_bind; [done|]. apply saveMeta_runs; [..|intros _; by apply runs_in_ret].
  - apply meta_ok_set_wallet; [done|by split|done|done|..].
    + intros id' w' H Hne E. cbn in E. apply (N1 id' w' H Hne). by rewrite E.
    + intros id' a H E. cbn in E. apply (N2 id' a H); [|by rewrite E]. intros ->. congruence.
  - apply secrets_set_wallet; [done|]. apply (wallet_secret_sub _ _ w); [by apply Hs|]. cbn. eauto.
  - by apply (staged_ok_set_wallet _ _ _ w).
Qed.

Lemma DeleteWallet_runs n io name d :
  keys_ok n d → runs_in (keys_ok n) (DeleteWallet io name) d (λ _ _, True).
Proof.
  intros Hk. unfold DeleteWallet. apply lockForWrite_runs; [done|]. apply (loadMeta_runs n); [done..|]. intros m Hm Hok Hs Hst.
  destruct (findWalletByName m name) as [[id w]|] eqn:Hf; [|apply runs_in_fail]. apply findWalletByName_some in Hf as [Hw _].
  set (m1 := if defaultPointsToWallet _ _ then _ else _). cbn zeta. destruct (wallet_path_ok id) as [Wp Wm].
  assert (F : ∀ m', m' = m ∨ m' = set_default "" m → meta_ok n (del_wallet id m') ∧ secrets_ok d (del_wallet id m')).
  { intros m' Hor. assert (meta_ok n m' ∧ secrets_ok d m') as [O S] by (destruct Hor as [-> | ->]; split; try done; by apply meta_ok_default).
    split; [by apply meta_ok_del_wallet|]. destruct S as (S1 & S2 & S3). split_and!; [|done..]. cbn. intros id' w' [_ H]%lookup_delete_Some. eauto. }
  destruct (F m1) as [O S]; [unfold m1; destruct (defaultPointsToWallet _ _); auto|].
  assert (NR : ¬ referenced (del_wallet id m1) (walletBlobPath id)).
  { intros [(id' & [w' H] & E)|(id' & a & H & E)].
    - apply wallet_path_inj in E. subst id'. cbn in H. by rewrite lookup_delete_eq in H.
    - destruct S as (_ & S2 & _). destruct (S2 _ _ H) as (k & t & _ & E2 & _). apply key_file_ok in E2 as (_ & _ & _ & E2). by apply (E2 id). }
  assert (Hst' : staged_ok d (del_wallet id m1)).
  { eapply staged_ok_fewer; [done|..]; cbn; unfold m1; destruct (defaultPointsToWallet _ _); cbn; apply delete_subseteq || done. }
  apply runs_in_bind; [done|]. apply saveMeta_runs; [done..|]. intros Hk'. apply runs_in_bind; [done|].
  apply remove_runs_in; [|by intros _; apply runs_in_ret]. intros _. split; [|by intros _; apply runs_in_ret].
  apply (keys_ok_drop n _ _ (del_wallet id m1)); [done..| |done|done]. unfold meta_of. by rewrite lookup_insert_eq.
Qed.
End Inv.

#[export] Hint Resolve reads_loadMeta reads_loadManifest reads_VerifyPassphrase reads_unlockWallet reads_ensureDirs reads_checkPerms
  reads_readStandaloneKey : daxie.
