(* ===== verification/KeyProps.v ===== *)
(** * The keystore: accounts, rotation, properties

    The operations on accounts and the change of the passphrase keep the
    invariant of [KeyInv].  So every directory that any sequence of operations
    leaves, each cut off after any of its writes, satisfies it: a resolved
    identity signs with the key of its address, and an index is never handed
    out twice.  Then the rotation of the passphrase, the round trips of
    secrets, and the places where the keystore does not keep what it means to,
    among them two that follow from an error of [fsx.WriteAtomic] reported
    after the rename. *)

From S2P Require Import Prelude GoStrings Decimal Rfc3339 HexBytes Json PolicyTypes Domain Trace Samples Service Refs Registry RegistryInv KeyText Keystore KeyOps KeyRotation KeyInv.

Local Open Scope string_scope.
Local Open Scope Z_scope.
Local Open Scope list_scope.
Local Open Scope go_scope.

Section Accounts.
Context {UT : UnicodeTables} {GC : GethCommon} {KC : KeyCrypto} {RM : RangeMap}.
Implicit Types (io : KeyIO) (d : KDir) (m : metaFile) (w : metaWallet).
Variable floor : string → Z.
Variable full : bool.
Local Notation keys_ok := (KeyInv.keys_ok floor full).
Local Notation meta_ok := (KeyInv.meta_ok floor).
Local Notation wallet_ok := (KeyInv.wallet_ok floor).
Local Notation holds := (KeyInv.holds full).
Local Notation wallet_secret := (KeyInv.wallet_secret full).
Local Notation secrets_ok := (KeyInv.secrets_ok full).

(** ** Reading secrets *)

Lemma unlockWallet_ok io id pass d mb tr :
  unlockWallet io id pass d = (Ok mb, tr) →
  tr = [] ∧ ∃ f p, d !! walletBlobPath id = Some f ∧ open_blob f pass = Ok p ∧ decodePlaintext p = Some mb.
Proof.
  intros H. pose proof (reads_unlockWallet io id pass d) as Hr. rewrite H in Hr. cbn in Hr. subst tr. split; [done|].
  unfold unlockWallet, readWalletPlaintext in H. apply mbind_ok in H as (p & t1 & t2 & H & Hd & E). symmetry in E. apply app_nil_iff in E as [-> ->].
  apply mbind_ok in H as ([] & t1 & t2 & _ & H & E). symmetry in E. apply app_nil_iff in E as [-> ->].
  apply mbind_ok in H as (f & t1 & t2 & [-> Hf]%readKeystoreFile_ok & [H _]%mlift_ok & _). exists f, p. split_and!; [done..|].
  destruct (decodePlaintext p) as [mb'|]; [|done]. by injection Hd as ->.
Qed.

Lemma readStandaloneKey_ok io p pass d k tr :
  readStandaloneKey io p pass d = (Ok k, tr) → tr = [] ∧ ∃ f, d !! p = Some f ∧ open_key f pass = Ok k.
Proof.
  intros H. pose proof (reads_readStandaloneKey io p pass d) as Hr. rewrite H in Hr. cbn in Hr. subst tr. split; [done|].
  unfold readStandaloneKey in H. apply mbind_ok in H as ([] & t1 & t2 & _ & H & E). symmetry in E. apply app_nil_iff in E as [-> ->].
  apply mbind_ok in H as (f & t1 & t2 & [-> Hf]%readKeystoreFile_ok & [H _]%mlift_ok & _). eauto.
Qed.

Lemma open_blob_secret f pass p : open_blob f pass = Ok p → open_secret f pass = Ok (SMnemonic p).
Proof. destruct f; try done. intros H. unfold open_secret. by rewrite H. Qed.
Lemma open_key_secret f pass k : open_key f pass = Ok k → open_secret f pass = Ok (SKey k).
Proof. destruct f; try done. intros H. unfold open_secret. by rewrite H. Qed.

(** the mnemonic behind a wallet is the one its addresses come from *)
Lemma wallet_unlocked io id pass d mb tr w :
  unlockWallet io id pass d = (Ok mb, tr) → wallet_secret d id w →
  (∃ plain, holds d (walletBlobPath id) (SMnemonic plain) ∧ decodePlaintext plain = Some mb) ∧
  ∀ i a, 0 ≤ i < 2 ^ 32 → mw_Accounts w !! indexKey i = Some a →
    ∃ addr, deriveAddress (seedFromMnemonic mb.1 mb.2) i = Ok addr ∧ ha_Address a = Hex addr.
Proof.
  intros (_ & f & p & Hf & Hp & Hd)%unlockWallet_ok (plain & mn & b39 & Hh & Hdp & H). pose proof (proj2 Hh _ Hf) as Hs.
  apply open_blob_secret in Hp. pose proof (secret_of_open _ _ _ _ Hs Hp) as [= ->].
  rewrite Hdp in Hd. injection Hd as <-. split; [eauto|done].
Qed.

(** ** Deriving *)

Definition derived io (w : metaWallet) (index : Z) (addr : Address) : metaWallet :=
  set_accounts (<[indexKey index := mkHD (Hex addr) "" (formatTime (kio_clock io))]> (mw_Accounts w)) w.

Lemma derive_runs (I : KDir → Prop) io id w index pass d (Q : Address * metaWallet → KDir → Prop) :
  I d → wallet_secret d id w → 0 ≤ index < 2 ^ 32 →
  (∀ addr, wallet_secret d id (derived io w index addr) → Q (addr, derived io w index addr) d) →
  runs_in I (deriveAndCache io id w index pass) d Q.
Proof.
  intros Hd Hw Hi HQ. unfold deriveAndCache. apply runs_in_skip; [done|auto with daxie|]. intros mb Hu.
  destruct (wallet_unlocked _ _ _ _ _ _ _ Hu Hw) as [(plain & Hh & Hdp) H]. apply runs_in_skip; [done|apply reads_mlift|].
  intros addr [E _]%mlift_ok. apply runs_in_ret, HQ. destruct mb as [mn b39]. exists plain, mn, b39. split_and!; [done..|].
  intros i a Hir. cbn. intros [[Ek <-]|[_ Ha]]%lookup_insert_Some; [|by apply H]. apply indexKey_inj in Ek as ->; [|done..]. eauto.
Qed.

(** a new entry below the new watermark *)
Lemma wallet_ok_derived n n' io id w index addr next :
  wallet_ok n id w → mw_Accounts w !! indexKey index = None → 0 ≤ index < next → mw_NextIndex w ≤ next ≤ 2 ^ 31 + n' →
  wallet_ok n' id (set_next next (derived io w index addr)).
Proof.
  intros [W0 W1 W2 W3] Hnone Hi Hnext. split; cbn; [lia|done|lia|]. intros k a [[<- <-]|[Hne Ha]]%lookup_insert_Some.
  - split_and!; [eauto|by left|done].
  - destruct (W3 _ _ Ha) as ((i & -> & Hr) & Hal & Hu). split_and!; [exists i; split; [done|lia]|done|].
    intros Hn k' a' [[<- <-]|[_ Ha']]%lookup_insert_Some E; [by rewrite <-E in Hn|by eapply Hu].
Qed.

Lemma fresh_index n id w i : wallet_ok n id w → n < 2 ^ 31 → mw_NextIndex w ≤ i < 2 ^ 32 → mw_Accounts w !! indexKey i = None.
Proof.
  intros [_ _ W2 W3] Hn Hi. destruct (mw_Accounts w !! indexKey i) as [a|] eqn:E; [|done]. exfalso.
  destruct (W3 _ _ E) as ((j & Ej & Hj) & _). apply indexKey_inj in Ej; lia.
Qed.

Lemma wrap32_small z : 0 ≤ z < 2 ^ 32 → wrap32 z = z.
Proof. apply Z.mod_small. Qed.

Lemma set_next_same w : set_next (mw_NextIndex w) w = w.
Proof. by destruct w. Qed.

Lemma DeriveNext_runs n io name pass d :
  0 ≤ n → n + 1 < 2 ^ 31 → keys_ok n d → runs_in (keys_ok (n + 1)) (DeriveNext io name pass) d (λ _ _, True).
Proof.
  intros Hn0 Hn Hk. assert (Hk1 : keys_ok (n + 1) d) by (eapply keys_ok_le; [|done]; lia). unfold DeriveNext.
  apply lockForWrite_runs; [done|]. apply runs_in_skip; [done|auto with daxie|]. intros _ _.
  apply (loadMeta_runs floor full n); [done..|]. intros m Hm Hok Hs Hst.
  destruct (findWalletByName m name) as [[id w]|] eqn:Hf; [|apply runs_in_fail]. apply findWalletByName_some in Hf as [Hw _].
  pose proof (mo_wallets _ _ _ Hok _ _ Hw) as W. pose proof (wo_next _ _ _ _ W) as Wn. cbn zeta. apply runs_in_bind; [done|].
  apply derive_runs; [done|by apply Hs|lia|]. intros addr Hsec _. apply runs_in_bind; [done|].
  apply saveMeta_runs; [..|by apply (staged_ok_set_wallet _ _ _ w)|intros _; by apply runs_in_ret].
  - apply (meta_ok_update _ _ _ _ w); [by eapply meta_ok_le; [|done]; lia|done|done|]. rewrite wrap32_small by lia.
    eapply (wallet_ok_derived n); [done| |lia..]. eapply fresh_index; [done|lia..].
  - apply secrets_set_wallet; [done|]. eapply wallet_secret_sub; [done|]. eauto.
Qed.

Lemma DeriveIndex_runs n io name index pass d :
  0 ≤ index → 0 ≤ n → keys_ok n d → runs_in (keys_ok n) (DeriveIndex io name index pass) d (λ _ _, True).
Proof.
  intros Hi Hn Hk. unfold DeriveIndex. destruct (Z.leb_spec hardened index) as [|Hh]; [apply runs_in_fail|]. unfold hardened in Hh.
  apply lockForWrite_runs; [done|]. apply runs_in_skip; [done|auto with daxie|]. intros _ _.
  apply (loadMeta_runs floor full n); [done..|]. intros m Hm Hok Hs Hst.
  destruct (findWalletByName m name) as [[id w]|] eqn:Hf; [|apply runs_in_fail]. apply findWalletByName_some in Hf as [Hw _].
  pose proof (mo_wallets _ _ _ Hok _ _ Hw) as W. pose proof (wo_next _ _ _ _ W) as Wn.
  destruct (mw_Accounts w !! indexKey index) eqn:E; [by apply runs_in_ret|]. apply runs_in_bind; [done|].
  apply derive_runs; [done|by apply Hs|lia|]. intros addr Hsec _. cbn zeta. apply runs_in_bind; [done|].
  apply saveMeta_runs; [..|by apply (staged_ok_set_wallet _ _ _ w)|intros _; by apply runs_in_ret].
  - apply (meta_ok_update _ _ _ _ w); [done..|by destruct (_ <=? _)|]. cbn [fst snd]. destruct (Z.leb_spec (mw_NextIndex w) index).
    + rewrite wrap32_small by lia. eapply (wallet_ok_derived n); [done..|lia|lia].
    + rewrite <-(set_next_same (derived io w index addr)). eapply (wallet_ok_derived n); cbn; [done..|lia|lia].
  - apply secrets_set_wallet; [done|]. eapply wallet_secret_sub; [done|]. cbn. destruct (_ <=? _); eauto.
Qed.

(** ** Naming *)

Lemma aliasInUse_false n id w alias index k a :
  wallet_ok n id w → n < 2 ^ 31 → aliasInUse w alias index = false → mw_Accounts w !! k = Some a → ha_Alias a = alias → k = indexKey index.
Proof.
  unfold aliasInUse. intros [_ _ W2 W3] Hn Hf Ha Hal. rewrite existsb_false in Hf. specialize (Hf (k, a) ltac:(by apply range_elem)). cbn in Hf.
  destruct (W3 _ _ Ha) as ((i & -> & Hi) & _). rewrite parseDecimalIndex_indexKey in Hf by lia. cbn in Hf.
  rewrite (bool_decide_eq_true_2 _ Hal), andb_true_r in Hf. apply negb_false_iff, Z.eqb_eq in Hf. by subst.
Qed.

(** a wallet with another alias at one entry *)
Lemma wallet_ok_alias n id w k a s :
  wallet_ok n id w → mw_Accounts w !! k = Some a → s = "" ∨ validAlias s = true →
  (s ≠ "" → ∀ k' a', mw_Accounts w !! k' = Some a' → ha_Alias a' = s → k' = k) →
  wallet_ok n id (set_accounts (<[k := set_alias s a]> (mw_Accounts w)) w).
Proof.
  intros [W0 W1 W2 W3] Ha Hs Hu. split; cbn; [done..|]. intros k' a' [[<- <-]|[Hne Ha']]%lookup_insert_Some; cbn.
  - destruct (W3 _ _ Ha) as (Hi & _). split_and!; [done..|]. cbn. intros Hn k'' a'' [[<- <-]|[_ H]]%lookup_insert_Some E; eauto.
  - destruct (W3 _ _ Ha') as (Hi & Hal & Hun). split_and!; [done..|]. intros Hn k'' a'' [[<- <-]|[_ H]]%lookup_insert_Some E; [|by eapply Hun].
    cbn in E. exfalso. apply Hne. rewrite E in Hu. symmetry. by eapply Hu.
Qed.

Lemma set_alias_sub w k a s k' a' :
  mw_Accounts w !! k = Some a → <[k := set_alias s a]> (mw_Accounts w) !! k' = Some a' →
  ∃ a0, mw_Accounts w !! k' = Some a0 ∧ ha_Address a' = ha_Address a0.
Proof. intros Ha [[<- <-]|[_ H]]%lookup_insert_Some; eauto. Qed.

(** saving a wallet with changed entries *)
Lemma save_wallet_runs n io m id w accts d (Q : unit → KDir → Prop) :
  meta_ok n m → secrets_ok d m → staged_ok d m → mf_Wallets m !! id = Some w → wallet_ok n id (set_accounts accts w) →
  (∀ k a, accts !! k = Some a → ∃ a0, mw_Accounts w !! k = Some a0 ∧ ha_Address a = ha_Address a0) → (∀ d', Q tt d') →
  runs_in (keys_ok n) (saveMeta io (set_wallet id (set_accounts accts w) m)) d Q.
Proof.
  intros Hok Hs Hst Hw Hwok Hsub HQ. apply saveMeta_runs; [by apply (meta_ok_update _ _ _ _ w)| |by apply (staged_ok_set_wallet _ _ _ w)|done].
  apply secrets_set_wallet; [done|]. apply (wallet_secret_sub _ _ _ w); [by apply Hs|done].
Qed.

Lemma Alias_runs n io name index alias d :
  n < 2 ^ 31 → keys_ok n d → runs_in (keys_ok n) (Alias io name index alias) d (λ _ _, True).
Proof.
  intros Hn Hk. unfold Alias. destruct (validAlias alias) eqn:Hv; cbn [negb]; [|apply runs_in_fail].
  apply lockForWrite_runs; [done|]. apply (loadMeta_runs floor full n); [done..|]. intros m Hm Hok Hs Hst.
  destruct (findWalletByName m name) as [[id w]|] eqn:Hf; [|apply runs_in_fail]. apply findWalletByName_some in Hf as [Hw _].
  destruct (mw_Accounts w !! indexKey index) as [a|] eqn:Ha; [|apply runs_in_fail]. pose proof (mo_wallets _ _ _ Hok _ _ Hw) as W.
  destruct (aliasInUse w alias index) eqn:Hu; [apply runs_in_fail|].
  apply save_wallet_runs; [done..| | |done]; [|intros; by eapply set_alias_sub].
  apply wallet_ok_alias; [done..|by right|]. intros _ k' a' H E. by eapply aliasInUse_false.
Qed.

Lemma Unalias_runs n io name index d :
  keys_ok n d → runs_in (keys_ok n) (Unalias io name index) d (λ _ _, True).
Proof.
  intros Hk. unfold Unalias. apply lockForWrite_runs; [done|]. apply (loadMeta_runs floor full n); [done..|]. intros m Hm Hok Hs Hst.
  destruct (findWalletByName m name) as [[id w]|] eqn:Hf; [|apply runs_in_fail]. apply findWalletByName_some in Hf as [Hw _]. cbn zeta.
  destruct (mw_Accounts w !! indexKey index) as [a|] eqn:Ha; [|apply runs_in_fail]. case_bool_decide; [apply runs_in_fail|].
  apply runs_in_bind; [done|]. apply save_wallet_runs; [done..| | |intros d' _; by apply runs_in_ret]; [|intros; by eapply set_alias_sub].
  apply wallet_ok_alias; [by eapply mo_wallets|done|by left|done].
Qed.

Lemma SetDefault_runs n io ref d : keys_ok n d → runs_in (keys_ok n) (SetDefault io ref) d (λ _ _, True).
Proof.
  intros Hk. unfold SetDefault. apply lockForWrite_runs; [done|]. apply (loadMeta_runs floor full n); [done..|]. intros m Hm Hok Hs Hst.
  apply runs_in_skip; [done|apply reads_mlift|]. intros s _. apply saveMeta_runs; [by apply meta_ok_default|done..].
Qed.

(** ** Standalone accounts *)

Lemma write_key_runs n io k m pass np d (Q : string * string → KDir → Prop) :
  keys_ok n d → meta_of d = Some m → (∀ addr, fresh_path d ("accounts/" +:+ keyFileName addr (kio_clock io))) →
  ¬ referenced m ("accounts/" +:+ keyFileName (cryptoAddr k) (kio_clock io)) →
  (let p := "accounts/" +:+ keyFileName (cryptoAddr k) (kio_clock io) in
   ∀ f, secret_of f (SKey k) → keys_ok n (<[p := f]> d) → Q (kio_uuid io "account", p) (<[p := f]> d)) →
  runs_in (keys_ok n) (writeStandaloneFile io k pass np) d Q.
Proof.
  intros Hk Hm Hf Hr HQ. unfold writeStandaloneFile. cbn zeta in *. set (p := "accounts/" +:+ _) in *.
  destruct (uuid_Parse _); [|apply runs_in_fail]. destruct (EncryptKey _ _ _ _ _ _) as [cj|] eqn:E; [|apply runs_in_fail].
  assert (S : secret_of (KKey cj) (SKey k)).
  { exists pass. unfold open_secret, open_key. rewrite (key_opens _ _ _ _ _ _ _ E). split; [done|].
    intros q Hq. by rewrite (key_sealed _ _ _ _ _ _ _ _ E Hq). }
  destruct (key_file_ok _ _ p eq_refl) as (Hp & Hpm & _). assert (K1 : keys_ok n (<[p := KKey cj]> d)) by (apply (keys_ok_add floor full n d p _ m); [done|done|apply Hf|done..]).
  apply runs_in_bind; [done|]. apply write_runs_in; [done|]. intros _. apply runs_in_ret. by apply HQ.
Qed.

(** no account has an address that is not found *)
Lemma findByAddress_none n m addr id a :
  meta_ok n m → findByAddress m addr = "" → mf_Accounts m !! id = Some a → ms_Address a ≠ Hex addr.
Proof.
  unfold findByAddress. intros Hm Hf Ha E. set (f := λ e : string * string, _) in Hf. set (l := _ ++ _) in Hf.
  destruct (List.find f l) as [[r x]|] eqn:Ef.
  - subst r. apply find_some in Ef as [Hin%list_elem_of_In _]. unfold l in Hin. apply elem_of_app in Hin as [Hin|Hin].
    + apply list_elem_of_In, in_flat_map in Hin as ([id' w] & _ & Hin%list_elem_of_In). apply list_elem_of_fmap in Hin as ([k y] & [= E1 _] & _).
      cbn in E1. apply (f_equal String.length) in E1. rewrite !string_length_app in E1. cbn in E1. lia.
    + apply list_elem_of_fmap in Hin as ([id' y] & [= E1 _] & Hy%range_elem). apply (mo_accounts _ _ _ Hm) in Hy.
      apply validName_lower in Hy as [_ Hy]. by rewrite <-E1 in Hy.
  - assert (Hin : (ms_Name a, ms_Address a) ∈ l).
    { apply elem_of_app. right. apply list_elem_of_fmap. exists (id, a). split; [done|by apply range_elem]. }
    apply list_elem_of_In in Hin. apply (find_none _ _ Ef) in Hin. unfold f, equalFold in Hin. cbn in Hin.
    rewrite E, !bool_decide_eq_true_2 in Hin by done. done.
Qed.

Lemma app_same_length s s' t t' : s +:+ t = s' +:+ t' → String.length t = String.length t' → t = t'.
Proof.
  revert s'. induction s as [|c s IH]; intros [|c' s'] E Hl; rewrite ?string_app_nil_l, ?string_app_cons in E; [done|..|].
  - apply (f_equal String.length) in E. cbn in E. rewrite string_length_app in E. lia.
  - apply (f_equal String.length) in E. cbn in E. rewrite string_length_app in E. lia.
  - injection E as _ E. by eapply IH.
Qed.

(** the name of a key file says the address *)
Lemma keyFileName_addr a t a' t' :
  0 ≤ a < 2 ^ 160 → 0 ≤ a' < 2 ^ 160 → "accounts/" +:+ keyFileName a t = "accounts/" +:+ keyFileName a' t' → a = a'.
Proof.
  intros Ha Ha' E. unfold keyFileName in E. rewrite <-!string_app_assoc in E. apply app_same_length in E; [|by rewrite !string_length_fixed_digits].
  eapply (fixed_digits_inj 16 40); [by right|exact Ha|exact Ha'|exact E].
Qed.

(** the file of a new account is not named already *)
Lemma new_key_file n d m k t :
  meta_ok n m → secrets_ok d m → findByAddress m (cryptoAddr k) = "" → ¬ referenced m ("accounts/" +:+ keyFileName (cryptoAddr k) t).
Proof.
  intros Hok (_ & Ha & _) Hf [(id & _ & E)|(id & a & H & E)].
  - destruct (key_file_ok (cryptoAddr k) t _ eq_refl) as (_ & _ & _ & Hpw). by apply Hpw in E.
  - destruct (Ha _ _ H) as (k' & t' & _ & Ef & Ead). rewrite Ef in E. apply keyFileName_addr in E; [|apply address_valid..].
    rewrite <-E in Ead. by eapply findByAddress_none.
Qed.

Lemma ImportStandalone_runs n io light name raw pass d :
  keys_ok n d → (∀ m, meta_of d = Some m → fresh_id m (kio_uuid io "account")) → steady_meta full io →
  (∀ addr, fresh_path d ("accounts/" +:+ keyFileName addr (kio_clock io))) →
  runs_in (keys_ok n) (ImportStandalone io light name raw pass) d (λ _ _, True).
Proof.
  intros Hk Hid Hio Hfp. unfold ImportStandalone. destruct (validName name) eqn:Hv; cbn [negb]; [|apply runs_in_fail].
  apply lockForWrite_runs; [done|]. apply runs_in_skip; [done|auto with daxie|]. intros _ _.
  apply (loadMeta_runs floor full n); [done..|]. intros m Hm Hok Hs Hst. destruct (Hid _ Hm) as (Hi & Hiw & Hia).
  destruct (nameExists m name "") eqn:Hex; [apply runs_in_fail|]. destruct (nameExists_false _ _ _ Hex) as [N1 N2].
  apply runs_in_skip; [done|apply reads_mlift|]. intros k _. cbn zeta. case_bool_decide as Hex'; cbn [negb]; [|apply runs_in_fail].
  pose proof (λ t, new_key_file n d m k t Hok Hs Hex') as NR'.
  apply runs_in_skip; [done|auto with daxie|]. intros man _. apply runs_in_bind; [done|]. apply (write_key_runs n io k m); [done..|].
  cbn zeta. intros f Hf Hk1 _. cbn [fst snd]. set (p := "accounts/" +:+ _) in *. destruct (key_file_ok _ _ p eq_refl) as (Hp & Hpm & _ & Hpw).
  assert (NR : ¬ referenced m p) by apply NR'. assert (Hm1 : meta_of (<[p := f]> d) = Some m) by by rewrite meta_of_insert.
  assert (Hst1 : staged_ok (<[p := f]> d) m) by (destruct Hk1 as (m' & Hm' & _ & _ & Hst1); rewrite Hm1 in Hm'; by injection Hm' as <-).
  assert (Hsp : <[p := f]> d !! staged p = None). { rewrite lookup_insert_ne by (by apply plain_ne_staged). by destruct (Hfp (cryptoAddr k)). }
  assert (Hs1 : secrets_ok (<[p := f]> d) m).
  { eapply secrets_ok_ext; [done|]. intros q s Hr. apply holds_insert_ne. by intros <-. }
  apply runs_in_bind; [done|]. apply (save_or_remove_runs floor full n io m); [..|by intros d' _; apply runs_in_ret]; try done.
  - apply meta_ok_set_account; [done..| |]; cbn.
    + intros id' w' H E. apply (N1 id' w' H); [|by rewrite E]. by destruct (mo_ids _ _ _ Hok id'); [eexists|].
    + intros id' a' H Hne E. apply (N2 id' a' H); [|by rewrite E]. by eapply mo_ids'; [|eexists].
  - destruct Hs1 as (S1 & S2 & S3). split_and!; [done|..]; cbn.
    + intros id' a [[<- <-]|[Hne H]]%lookup_insert_Some; [|by eapply S2]. exists k, (kio_clock io). split_and!; [|done..].
      apply (holds_eq _ _ _ f); [by rewrite lookup_insert_eq|done].
    + intros i1 a1 i2 a2 [[<- <-]|[H1' H1]]%lookup_insert_Some [[<- <-]|[H2' H2]]%lookup_insert_Some E; [done|..|by eapply S3]; exfalso; apply NR; right; eauto.
  - eapply staged_ok_sub; [done|]. intros q [(id' & [w H] & ->)|(id' & a & H & ->)]; [left; left; eauto|]. cbn in H.
    apply lookup_insert_Some in H as [[_ <-]|[_ H]]; [by right; right|left; right; eauto].
Qed.

Lemma DeleteAccount_runs n io ref d : keys_ok n d → runs_in (keys_ok n) (DeleteAccount io ref) d (λ _ _, True).
Proof.
  intros Hk. unfold DeleteAccount. apply lockForWrite_runs; [done|]. apply (loadMeta_runs floor full n); [done..|]. intros m Hm Hok Hs Hst.
  assert (D : ∀ b : bool, let m' := if b then set_default "" m else m in meta_ok n m' ∧ secrets_ok d m').
  { intros []; (split; [|done]); [by apply meta_ok_default|done]. }
  destruct (is_hd ref).
  - destruct (findWalletByName m _) as [[id w]|] eqn:Hf; [|apply runs_in_fail]. apply findWalletByName_some in Hf as [Hw _].
    destruct (indexForRef w ref) as [idx|]; [|apply runs_in_fail]. specialize (D (refIsDefault m (hd_info w idx (hd_at w idx) false))).
    cbn zeta in D |- *. set (m' := if refIsDefault _ _ then _ else _) in *. destruct D as [Hok' Hs']. apply runs_in_bind; [done|].
    apply save_wallet_runs; [done..|unfold m'; by destruct (refIsDefault _ _)|unfold m'; by destruct (refIsDefault _ _)| | |intros d' _; by apply runs_in_ret].
    + destruct (mo_wallets _ _ _ Hok _ _ Hw) as [W0 W1 W2 W3]. split; cbn; [done..|]. intros k a [Hne Ha]%lookup_delete_Some.
      destruct (W3 _ _ Ha) as (Hi & Hal & Hu). split_and!; [done..|]. intros Hn k' a' [_ H]%lookup_delete_Some. by apply Hu.
    + intros k a [_ Ha]%lookup_delete_Some. eauto.
  - destruct (ar_Kind ref =? RefNamed); [|apply runs_in_fail].
    destruct (findStandaloneByName m _) as [[id a]|] eqn:Hf; [|apply runs_in_fail]. apply findStandaloneByName_some in Hf as [Ha _].
    cbn zeta. set (b := bool_decide _). destruct (D b) as [Hok' Hs']. set (m' := if b then _ else _) in *.
    assert (Ha' : mf_Accounts m' !! id = Some a) by (unfold m'; by destruct b).
    assert (Hst' : staged_ok d m') by (unfold m'; by destruct b). clearbody m' b.
    pose proof Hs' as (S1 & S2 & S3). destruct (S2 _ _ Ha') as (k & t & _ & Ep & _). apply key_file_ok in Ep as (Hp & Hpm & _ & Hpw).
    assert (NR : ¬ referenced (del_account id m') (ms_File a)).
    { intros [(id' & _ & E)|(id' & a' & H & E)]; [by apply (Hpw id')|]. cbn in H.
      apply lookup_delete_Some in H as [Hne H]. apply Hne. by eapply S3. }
    apply runs_in_bind; [done|]. apply saveMeta_runs; [by apply meta_ok_del_account| |eapply staged_ok_fewer; [apply Hst'|done|apply delete_subseteq]|].
    { split_and!; [done|..]; cbn; [intros i x [_ H]%lookup_delete_Some; eauto|].
      intros i1 x1 i2 x2 [_ H1]%lookup_delete_Some [_ H2]%lookup_delete_Some. by apply S3. }
    intros Hk'. apply runs_in_bind; [done|]. apply remove_runs_in; [|intros _; by apply runs_in_ret].
    intros _. split; [|intros _; by apply runs_in_ret]. apply (keys_ok_drop floor full n _ _ (del_account id m')); [done..| |done|done].
    unfold meta_of. by rewrite lookup_insert_eq.
Qed.

(** ** The manifest *)

Lemma referenced_not_manifest d m : secrets_ok d m → ¬ referenced m manifestPath.
Proof.
  intros (_ & Ha & _) [(id & _ & E)|(id & a & H & E)].
  - assert (X : HasPrefix manifestPath "wallets/" = true) by (rewrite E; apply wallet_path_prefix). done.
  - destruct (Ha _ _ H) as (k & t & _ & Ep & _). apply key_file_ok in Ep as (_ & _ & X & _). by rewrite <-E in X.
Qed.

Lemma keys_ok_manifest n d f : keys_ok n d → keys_ok n (<[manifestPath := f]> d).
Proof.
  intros (m & Hm & Hok & Hs & Hst). exists m. split_and!; [by rewrite meta_of_insert|done|..].
  - eapply secrets_ok_ext; [done|]. intros p s Hr. apply holds_insert_ne. intros <-. by eapply referenced_not_manifest.
  - intros fs. rewrite lookup_insert_ne by done. intros Hfs k Hk. destruct (Hst fs Hfs k Hk) as (Hp & Hne & H). split_and!; [done..|].
    intros g Hman. rewrite lookup_insert_ne by (by apply plain_ne_staged). rewrite lookup_insert_ne by done. by apply H.
Qed.

Lemma EnsureInitialized_runs n io light pass confirm d :
  keys_ok n d → runs_in (keys_ok n) (EnsureInitialized io light pass confirm) d (λ _ _, True).
Proof.
  intros Hk. unfold EnsureInitialized, ensure_initialized. apply runs_in_skip; [done|auto with daxie|]. intros [man|] _.
  { apply runs_in_skip; [done|apply reads_mlift|]. intros _ _. by apply runs_in_ret. }
  case_bool_decide; [apply runs_in_fail|]. destruct (negb _); [apply runs_in_fail|]. apply runs_in_skip; [done|auto with daxie|]. intros _ _.
  apply runs_in_skip; [done|apply reads_mlift|]. intros nm _. apply runs_in_bind; [done|]. unfold saveManifest.
  apply write_runs_in; [by apply keys_ok_manifest|]. intros _. by apply runs_in_ret.
Qed.

(** ** Recovery *)

(** one rename of a committed rotation *)
Lemma keys_ok_rename n d fs k f :
  keys_ok n d → d !! rotateMarkerName = Some (KMarker fs) → k ∈ fs → d !! staged k = Some f → keys_ok n (<[k := f]> (delete (staged k) d)).
Proof.
  intros (m & Hm & Hok & Hs & Hst) Hmk Hin Hf. destruct (Hst fs Hmk k Hin) as (Hp & Hpm & Hsec).
  assert (L : ∀ p, plain_path p → p ≠ k → <[k := f]> (delete (staged k) d) !! p = d !! p).
  { intros p Hpp Hne. rewrite lookup_insert_ne by done. rewrite lookup_delete_ne by by apply plain_not_staged. done. }
  exists m. split_and!; [|done|..].
  - unfold meta_of in *. by rewrite L.
  - eapply secrets_ok_ext; [done|]. intros p s Hr Hh. destruct (decide (p = k)) as [->|Hne].
    + destruct (Hsec f) as [Hsec1 Hsec2]; [intros ->; by eapply referenced_not_manifest|done|]. destruct (Hsec2 Hr) as [f0 Hf0].
      apply (holds_eq _ _ _ f); [by rewrite lookup_insert_eq|]. apply (Hsec1 f0); [done|]. by apply Hh.
    + destruct (referenced_ok _ _ _ _ Hs Hr) as (Hpp & _). eapply holds_same; [by apply L|done].
  - intros fs'. rewrite lookup_insert_ne by (by destruct Hp). rewrite lookup_delete_ne by apply staged_not_marker.
    intros Hfs' k' Hk'. destruct (Hst fs' Hfs' k' Hk') as (Hp' & Hpm' & Hsec'). split_and!; [done..|].
    intros g Hman. rewrite lookup_insert_ne by (by apply plain_ne_staged). destruct (decide (k' = k)) as [->|Hne]; [by rewrite lookup_delete_eq|].
    rewrite lookup_delete_ne by (intros E%staged_inj; congruence). rewrite L by done. by apply Hsec'.
Qed.

Lemma swap_runs n io fs rels d :
  keys_ok n d → d !! rotateMarkerName = Some (KMarker fs) → rels ⊆ fs →
  runs_in (keys_ok n) (swapStaged io rels) d (λ _ _, True).
Proof.
  revert d. induction rels as [|k rels IH]; intros d Hk Hmk Hsub; cbn [swapStaged]; [by apply runs_in_ret|].
  apply runs_in_bind; [done|]. apply runs_in_read; [apply reads_kstat|]. intros b [_ ->]%kstat_ok _.
  apply runs_in_bind; [done|]. case_bool_decide as Hs.
  - destruct Hs as [f Hf]. assert (K1 : keys_ok n (<[k := f]> (delete (staged k) d))) by (eapply keys_ok_rename; [done..|set_solver|done]).
    assert (Hp : plain_path k). { destruct Hk as (m & _ & _ & _ & Hst). apply (Hst fs); [done|set_solver]. }
    apply (rename_runs_in _ _ _ _ _ _ f); [done..|]. intros _. apply IH; [done| |set_solver].
    rewrite lookup_insert_ne by (by destruct Hp). by rewrite lookup_delete_ne by apply staged_not_marker.
  - apply runs_in_bind; [done|]. apply runs_in_read; [apply reads_kstat|]. intros b [_ ->]%kstat_ok _.
    case_bool_decide; [|apply runs_in_fail]. apply runs_in_ret. intros _. apply IH; [done..|set_solver].
Qed.

Lemma idle_keys n base d : keys_ok n base → idle base d → keys_ok n d.
Proof. intros Hk [H1 H2]. by eapply keys_ok_unmarked. Qed.

Lemma recover_runs n io d :
  keys_ok n d → runs_in (keys_ok n) (recoverRotation io) d (λ _ d', d' !! rotateMarkerName = None).
Proof.
  intros Hk. unfold recoverRotation. destruct (kio_read io rotateMarkerName); [apply runs_in_fail|].
  apply runs_in_bind; [done|]. apply runs_in_get. intros _. destruct (d !! rotateMarkerName) as [[| | | |fs|]|] eqn:Hm; try apply runs_in_fail.
  - apply runs_in_bind; [done|]. eapply runs_in_conseq; [done|by apply (swap_runs n io fs)|]. intros [] x Hx _ _.
    destruct (kio_remove io rotateMarkerName) eqn:Er; [apply runs_in_fail|]. unfold try_remove. rewrite Er. unfold runs_in.
    case_bool_decide as Hs; cbn.
    + split; [apply Forall_singleton|by intros ? ? [= <- <-]; cbn; rewrite lookup_delete_eq]. eapply idle_keys; [done|]. split; [by rewrite lookup_delete_eq|].
      intros p [_ Hp]. by rewrite lookup_delete_ne.
    + split; [constructor|]. intros ? ? [= <- <-]. cbn. destruct (x !! rotateMarkerName) eqn:E; [|done]. by destruct Hs.
  - eapply runs_in_mono; [| |apply (rollback_idle io d d (λ _ d', idle d d')); [by apply idle_self|done]].
    + intros x Hx. by eapply idle_keys.
    + by intros _ x [Hx _].
Qed.

Lemma Open_runs n io dir d : keys_ok n d → runs_in (keys_ok n) (Open io dir) d (λ _ _, True).
Proof.
  intros Hk. unfold Open. case_bool_decide; [apply runs_in_fail|]. destruct (kio_dir io) as [[]|]; [|by apply runs_in_ret|apply runs_in_fail].
  unfold lock. destruct (kio_lock io) as [[]|]; [apply runs_in_fail..|]. apply runs_in_bind; [done|].
  eapply runs_in_conseq; [done|by apply recover_runs|]. intros [] x Hx Hm _. apply runs_in_skip; [done|done|]. intros b _.
  destruct b; [|by apply runs_in_ret]. cbn [negb]. apply runs_in_skip; [done|auto with daxie|]. intros m _. by apply runs_in_lift.
Qed.

(** ** The change of the passphrase *)

Lemma rotation_lookup old new m base nw k :
  rotation_of old new m base nw → nw !! k = None ∨ ∃ f0 f, base !! k = Some f0 ∧ nw !! k = Some f ∧ rekeyed old new f0 f ∧ k ∈ rotationFileSet m.
Proof.
  intros [H1 H2]. destruct (nw !! k) as [f|] eqn:E; [right|by left]. assert (Hin : k ∈ rotationFileSet m) by (by apply H2; eexists).
  destruct (H1 _ Hin) as (f0 & f' & H0 & H1' & Hr). rewrite E in H1'. injection H1' as <-. eauto 6.
Qed.

(** a directory between the old contents and the new ones *)
Lemma keys_ok_mixed n base m old new nw d :
  keys_ok n base → meta_of base = Some m → rotation_of old new m base nw →
  (∀ k, plain_path k → d !! k = base !! k ∨ (is_Some (nw !! k) ∧ d !! k = nw !! k)) → staged_ok d m → keys_ok n d.
Proof.
  intros (m' & Hm' & Hok & Hs & _) Hm HR Hd Hst. rewrite Hm in Hm'. injection Hm' as <-. exists m. split_and!; [|done| |done].
  - unfold meta_of in *. destruct (Hd metaPath) as [->|[[f Hf] _]]; [done|done|]. exfalso.
    destruct (rotation_lookup _ _ _ _ _ metaPath HR) as [E|(f0 & f' & _ & _ & _ & Hin)]; [congruence|].
    apply fileset_good in Hin as [_ Hin]; [done|by eapply secrets_key_files].
  - eapply secrets_ok_ext; [done|]. intros p s Hr Hh. destruct (referenced_ok _ _ _ _ Hs Hr) as (Hp & _).
    destruct (Hd p Hp) as [E|[[f Hf] E]]; [by eapply holds_same|].
    destruct (rotation_lookup _ _ _ _ _ p HR) as [E'|(f0 & f' & H0 & H1 & Hrk & _)]; [congruence|].
    apply (holds_eq _ _ _ f'); [congruence|]. eapply rekeyed_secret; [done|]. by apply Hh.
Qed.

(** the staged copies of a rotation that is committed, or that is aborted
    under its marker *)
Lemma rotation_staged old new m base nw fs d :
  key_files_ok m → rotation_of old new m base nw → d !! rotateMarkerName = Some (KMarker fs) → (∀ k, k ∈ fs → is_Some (nw !! k)) →
  (∀ k c, nw !! k = Some c → plain_path k ∧ (d !! staged k = None ∨ d !! staged k = Some c ∧ d !! k = base !! k)) → staged_ok d m.
Proof.
  intros Hkf HR Hm H4 H3 fs' Hfs' k Hin. rewrite Hm in Hfs'. injection Hfs' as <-. destruct (H4 k Hin) as [c Hc]. destruct (H3 k c Hc) as (Hp & Hor).
  destruct (rotation_lookup _ _ _ _ _ k HR) as [E'|(f0 & f' & H0 & H1' & Hrk & Hset)]; [congruence|].
  rewrite Hc in H1'. injection H1' as <-. split_and!; [done|by eapply fileset_good|]. intros g _ Hg.
  destruct Hor as [E1|[E1 E2]]; [congruence|]. rewrite Hg in E1. injection E1 as ->. rewrite E2, H0. split; [|done].
  intros f1 s [= <-]. by eapply rekeyed_secret.
Qed.

Lemma rotating_keys torn n old new m base d :
  keys_ok n base → meta_of base = Some m → rotating torn old new m base d → keys_ok n d.
Proof.
  intros Hk Hm [Hi|(nw & fs & HR & Hd)]; [by eapply idle_keys|].
  assert (Hkf : key_files_ok m). { destruct Hk as (m' & Hm' & _ & Hs & _). rewrite Hm in Hm'. injection Hm' as <-. by eapply secrets_key_files. }
  destruct Hd as [Hc|[Hi|[_ Ha]]].
  - destruct Hc as (H1 & H2 & H3 & H4). eapply keys_ok_mixed; [done..| |].
    + intros k Hp. destruct (nw !! k) as [c|] eqn:E; [|left; by apply H2]. destruct (H3 k c E) as (_ & _ & [[_ Hor]|[_ Hor]]); [by left|].
      right. rewrite Hor. split; [by eexists|done].
    + eapply rotation_staged; [done..|]. intros k c Hc. destruct (H3 k c Hc) as (Hp & _ & Hor). split; [done|]. destruct Hor as [[? ?]|[? ?]]; auto.
  - eapply keys_ok_mixed; [done..| |].
    + intros k Hp. destruct Hi as [_ Hi]. rewrite (Hi k Hp). destruct (nw !! k) as [c|] eqn:E.
      * right. split; [by eexists|]. by apply lookup_union_Some_l.
      * left. by apply lookup_union_r.
    + intros fs' Hfs'. destruct Hi as [Hi _]. congruence.
  - destruct Ha as (H1 & H2 & H3 & H4). eapply keys_ok_mixed; [done..|by auto|].
    eapply rotation_staged; [done..|]. intros k c Hc. destruct (H3 k c Hc) as (Hp & _ & Hor). split; [done|].
    destruct Hor as [Hor|Hor]; [right; split; [done|by apply H2]|by left].
Qed.

Lemma ChangePassphrase_runs n io light old new d :
  keys_ok n d → runs_in (keys_ok n) (ChangePassphrase io light old new) d (λ _ _, True).
Proof.
  intros Hk. unfold ChangePassphrase, lock. destruct (kio_lock io) as [[]|]; [apply runs_in_fail..|].
  apply runs_in_bind; [done|]. eapply runs_in_conseq; [done|by apply recover_runs|]. intros [] b Hb Hm _.
  pose proof Hb as (m & Hmo & _ & Hs & _). eapply runs_in_mono; [| |apply (rotate_runs io light old new b m)].
  - intros x Hx. by eapply rotating_keys.
  - done.
  - done.
  - by eapply secrets_key_files.
  - by apply idle_self.
Qed.

(** ** Any operation *)

(** the operations of the store that write *)
Inductive keyop :=
| KOpen (dir : string)
| KEnsure (pass : string) (confirm : option string)
| KCreate (name : string) (words : Z) (pass : string)
| KImport (name mnemonic : string) (b39 : option string) (pass : string)
| KRename (old new : string)
| KDeleteWallet (name : string)
| KDeriveNext (name pass : string)
| KDeriveIndex (name : string) (index : Z) (pass : string)
| KAlias (name : string) (index : Z) (alias : string)
| KUnalias (name : string) (index : Z)
| KImportKey (name raw pass : string)
| KDeleteAccount (ref : AccountRef)
| KSetDefault (ref : AccountRef)
| KChange (old new : string).

Definition op_run io (light : bool) (op : keyop) : K unit :=
  match op with
  | KOpen dir => Open io dir
  | KEnsure pass confirm => EnsureInitialized io light pass confirm ;;; mret tt
  | KCreate name words pass => CreateWallet io light name words pass ;;; mret tt
  | KImport name mnemonic b39 pass => ImportWallet io light name mnemonic b39 pass ;;; mret tt
  | KRename old new => RenameWallet io old new ;;; mret tt
  | KDeleteWallet name => DeleteWallet io name ;;; mret tt
  | KDeriveNext name pass => DeriveNext io name pass ;;; mret tt
  | KDeriveIndex name index pass => DeriveIndex io name index pass ;;; mret tt
  | KAlias name index alias => Alias io name index alias
  | KUnalias name index => Unalias io name index ;;; mret tt
  | KImportKey name raw pass => ImportStandalone io light name raw pass ;;; mret tt
  | KDeleteAccount ref => DeleteAccount io ref ;;; mret tt
  | KSetDefault ref => SetDefault io ref
  | KChange old new => ChangePassphrase io light old new ;;; mret tt
  end.

(** how far an operation may push a watermark above [2 ^ 31] *)
Definition op_cost (op : keyop) : Z := match op with KDeriveNext _ _ => 1 | _ => 0 end.

(** an index is unsigned *)
Definition op_range (op : keyop) : Prop := match op with KDeriveIndex _ i _ => 0 ≤ i | _ => True end.

(** what an operation draws names nothing that is there *)
Definition fresh_draws io d : Prop :=
  (∀ m, meta_of d = Some m → fresh_id m (kio_uuid io "wallet") ∧ fresh_id m (kio_uuid io "account")) ∧
  fresh_path d (walletBlobPath (kio_uuid io "wallet")) ∧ ∀ addr, fresh_path d ("accounts/" +:+ keyFileName addr (kio_clock io)).

Lemma runs_in_unit {A} (I : KDir → Prop) (m : K A) d :
  I d → runs_in I m d (λ _ _, True) → runs_in I (m ;;; mret tt) d (λ _ _, True).
Proof. intros Hd H. apply runs_in_bind; [done|]. eapply runs_in_conseq; [done|done|]. intros a d' _ _ _. by apply runs_in_ret. Qed.

Lemma op_runs n io light op d :
  0 ≤ n → n + op_cost op < 2 ^ 31 → keys_ok n d → fresh_draws io d → steady_meta full io → floor (kio_uuid io "wallet") ≤ 1 → op_range op →
  runs_in (keys_ok (n + op_cost op)) (op_run io light op) d (λ _ _, True).
Proof.
  intros Hn0 Hn Hk (F1 & F2 & F3) Hst Hfl Hr.
  assert (Hk' : keys_ok (n + op_cost op) d) by (eapply keys_ok_le; [|done]; destruct op; cbn; lia).
  destruct op; cbn [op_cost op_run op_range] in *; rewrite ?Z.add_0_r in *;
    lazymatch goal with |- runs_in _ (mbind _ _) _ _ => apply runs_in_unit; [done|] | _ => idtac end.
  - by apply Open_runs.
  - by apply EnsureInitialized_runs.
  - apply CreateWallet_runs; [done..| |done|done|done]. intros m Hm. by apply F1.
  - apply ImportWallet_runs; [done..| |done|done|done]. intros m Hm. by apply F1.
  - by apply RenameWallet_runs.
  - by apply DeleteWallet_runs.
  - by apply DeriveNext_runs.
  - by apply DeriveIndex_runs.
  - by apply Alias_runs.
  - by apply Unalias_runs.
  - apply ImportStandalone_runs; [done| |done|done]. intros m Hm. by apply F1.
  - by apply DeleteAccount_runs.
  - by apply SetDefault_runs.
  - by apply ChangePassphrase_runs.
Qed.

(** Sequences of operations, each cut off after any of its writes; [P] holds
    before each of them, [R] of the environment of each. *)
Inductive steps_by (R : KeyIO → Prop) (P : KDir → Prop) : Z → KDir → KDir → Prop :=
| steps_refl d : steps_by R P 0 d d
| steps_op n d d1 d2 io light op :
    P d → R io → fresh_draws io d → op_range op → d1 ∈ d :: (op_run io light op d).2 → steps_by R P n d1 d2 →
    steps_by R P (op_cost op + n) d d2.

Definition any_io io : Prop := True.
Definition steps : (KDir → Prop) → Z → KDir → KDir → Prop := steps_by any_io.

Lemma op_cost_nonneg op : 0 ≤ op_cost op.
Proof. by destruct op. Qed.

Lemma steps_cost R P k d d2 : steps_by R P k d d2 → 0 ≤ k.
Proof. induction 1; [done|]. pose proof (op_cost_nonneg op). lia. Qed.

Lemma steps_keep R P k d d2 n :
  (∀ d io, P d → fresh_draws io d → floor (kio_uuid io "wallet") ≤ 1) → (∀ io, R io → steady_meta full io) →
  steps_by R P k d d2 → 0 ≤ n → n + k < 2 ^ 31 → keys_ok n d → keys_ok (n + k) d2.
Proof.
  intros HP HR H. revert n. induction H as [d|k d d1 d2 io light op Hd Hio Hf Hr Hin Hs IH]; intros n Hn Hk Hd0; [by rewrite Z.add_0_r|].
  pose proof (op_cost_nonneg op). pose proof (steps_cost _ _ _ _ _ Hs). rewrite Z.add_assoc. apply IH; [lia|lia|].
  apply elem_of_cons in Hin as [->|Hin]; [eapply keys_ok_le; [|done]; lia|].
  destruct (op_runs n io light op d) as [HI _]; [done|lia|done|done|by apply HR|by eapply HP|done|]. rewrite Forall_forall in HI. by apply HI.
Qed.
End Accounts.

(** every directory the operations may leave, from an empty one; the number
    bounds how often an index was derived next *)
Definition reach {UT : UnicodeTables} {GC : GethCommon} {KC : KeyCrypto} {RM : RangeMap} (n : Z) (d : KDir) : Prop :=
  steps (λ _, True) n ∅ d.

Section Properties.
Context {UT : UnicodeTables} {GC : GethCommon} {KC : KeyCrypto} {RM : RangeMap}.
Implicit Types (io : KeyIO) (d : KDir) (m : metaFile) (w : metaWallet).

Definition no_floor (id : string) : Z := 0.

(** no write of the metadata reports an error with the new metadata in place *)
Definition steady io : Prop := ∀ e, kio_write io metaPath ≠ Some (e, true).

(** the same where every write of the metadata is steady *)
Definition reach_steady (n : Z) (d : KDir) : Prop := steps_by steady (λ _, True) n ∅ d.

Lemma reach_ok n d : reach n d → n < 2 ^ 31 → keys_ok no_floor false n d.
Proof.
  intros Hr Hn. rewrite <-(Z.add_0_l n). eapply steps_keep; [| |done|done|lia|apply keys_ok_empty]; [|done].
  intros d0 io _ _. unfold no_floor. lia.
Qed.

Lemma reach_steady_ok n d : reach_steady n d → n < 2 ^ 31 → keys_ok no_floor true n d.
Proof.
  intros Hr Hn. rewrite <-(Z.add_0_l n). eapply steps_keep; [| |done|done|lia|apply keys_ok_empty]; [|by intros io Hio _].
  intros d0 io _ _. unfold no_floor. lia.
Qed.

Lemma each_ok {A} (f : A → res error unit) l : (∀ a, a ∈ l → f a = Ok tt) → each f l = Ok tt.
Proof.
  induction l as [|a l IH]; intros H; [done|]. cbn [each foldr]. rewrite H by by left. apply IH. intros b Hb. apply H. by right.
Qed.

Lemma checkWatermark_ok f n m : n < 2 ^ 31 → meta_ok f n m → checkWatermark m = Ok tt.
Proof.
  intros Hn Hm. apply each_ok. intros [id w] Hw%range_elem. apply each_ok. intros [k a] Ha%range_elem. cbn.
  destruct (mo_wallets _ _ _ Hm _ _ Hw) as [_ _ W2 W3]. destruct (W3 _ _ Ha) as ((i & -> & Hi) & _).
  unfold check_index. rewrite parseDecimalIndex_indexKey by lia. by destruct (Z.leb_spec (mw_NextIndex w) i); [lia|].
Qed.

(** ** What a reference resolves to *)

Lemma alias_index_some alias l i : alias_index alias l = Some i → ∃ a, (indexKey i, a) ∈ l ∧ 0 ≤ i < 2 ^ 32 ∧ ha_Alias a = alias.
Proof.
  induction l as [|[k a] l IH]; [done|]. cbn [alias_index]. destruct (negb _ && _) eqn:E.
  - destruct (parseDecimalIndex k) as [j|] eqn:Ej; intros H.
    + injection H as ->. apply parseDecimalIndex_ok in Ej as [Hj ->]. apply andb_true_iff in E as [_ E%bool_decide_eq_true].
      exists a. split_and!; [by left|lia..|done].
    + destruct (IH H) as (a' & ? & ? & ?). exists a'. split_and!; [by right|lia..|done].
  - intros H. destruct (IH H) as (a' & ? & ? & ?). exists a'. split_and!; [by right|lia..|done].
Qed.

Lemma indexForRef_some w ref i :
  0 ≤ ar_Index ref < 2 ^ 32 → indexForRef w ref = Some i → 0 ≤ i < 2 ^ 32 ∧ mw_Accounts w !! indexKey i = Some (hd_at w i).
Proof.
  intros Hr. unfold indexForRef. destruct (ar_Kind ref =? RefHDIndex).
  - destruct (mw_Accounts w !! indexKey (ar_Index ref)) as [a|] eqn:E; [|done]. intros [= <-]. split; [done|]. unfold hd_at. by rewrite E.
  - destruct (ar_Kind ref =? RefHDAlias); [|done]. intros (a & Ha%range_elem & Hi & _)%alias_index_some. split; [done|].
    unfold hd_at. by rewrite Ha.
Qed.

(** an identity that was resolved in this directory, with its address *)
Inductive resolved d : Signable → Prop :=
| resolved_hd m id w i a : meta_of d = Some m → mf_Wallets m !! id = Some w → 0 ≤ i < 2 ^ 32 →
    mw_Accounts w !! indexKey i = Some a → resolved d (hdSignable id i (HexToAddress (ha_Address a)))
| resolved_key m id a : meta_of d = Some m → mf_Accounts m !! id = Some a → resolved d (standaloneSignable (ms_File a) (HexToAddress (ms_Address a))).

Lemma LookupSigning_resolved io ref d sg tr :
  0 ≤ ar_Index ref < 2 ^ 32 → LookupSigning io ref d = (Ok sg, tr) → resolved d sg.
Proof.
  intros Hr. unfold LookupSigning. destruct (_ =? RefAddress); [done|]. destruct (_ =? RefENS); [done|].
  intros (m & t1 & t2 & [-> Hm]%loadMeta_ok & H & _)%mbind_ok. cbn [after List.last] in H. destruct (is_hd ref).
  - destruct (findWalletByName m _) as [[id w]|] eqn:Hf; [|done]. apply findWalletByName_some in Hf as [Hw _].
    destruct (indexForRef w ref) as [i|] eqn:Hi; [|by destruct (_ =? _)]. apply indexForRef_some in Hi as [Hi Ha]; [|done]. minv. subst. by econstructor.
  - destruct (_ =? RefNamed); [|done]. destruct (findWalletByName m _) as [[id w]|]; [done|].
    destruct (findStandaloneByName m _) as [[id a]|] eqn:Hf; [|done]. apply findStandaloneByName_some in Hf as [Ha _]. minv. subst. by econstructor.
Qed.

(** AddressOf names the address of the identity *)
Lemma AddressOf_agrees io io' ref d sg a tr tr' :
  LookupSigning io ref d = (Ok sg, tr) → AddressOf io' ref d = (Ok a, tr') → a = Signable_Address sg.
Proof.
  unfold LookupSigning, AddressOf. destruct (_ =? RefAddress); [done|]. destruct (_ =? RefENS); [done|].
  intros (m & t1 & t2 & [-> Hm]%loadMeta_ok & H & _)%mbind_ok (m' & t3 & t4 & [-> Hm']%loadMeta_ok & H' & _)%mbind_ok.
  rewrite Hm in Hm'. injection Hm' as <-. cbn [after List.last] in *. destruct (is_hd ref).
  - destruct (findWalletByName m _) as [[id w]|]; [|done]. destruct (indexForRef w ref); [|done]. minv. by subst.
  - destruct (_ =? RefNamed); [|done]. destruct (findWalletByName m _) as [[id w]|]; [done|].
    destruct (findStandaloneByName m _) as [[id x]|]; [|done]. minv. by subst.
Qed.

Lemma derive_valid seed i a : deriveAddress seed i = Ok a → ∃ k, derivePrivateKey seed i = Ok k ∧ a = PubkeyToAddress k.
Proof. unfold deriveAddress. destruct (derivePrivateKey seed i) as [k|]; [|done]. intros [= <-]. eauto. Qed.

Lemma unlock_resolved f full n io sg u d k tr :
  keys_ok f full n d → resolved d sg → unlock io sg u d = (Ok k, tr) → PubkeyToAddress k = Signable_Address sg.
Proof.
  intros (m0 & Hm0 & _ & (S1 & S2 & _) & _) Hr. unfold unlock. intros (pass & t1 & t2 & [_ ->]%mlift_ok & H & _)%mbind_ok. cbn [after List.last] in H.
  destruct Hr as [m id w i a Hm Hw Hi Ha|m id a Hm Ha]; rewrite Hm in Hm0; injection Hm0 as <-; cbn [Signable_Address].
  - apply mbind_ok in H as (mb & t3 & t4 & Hu & H & _). destruct (unlockWallet_ok _ _ _ _ _ _ Hu) as [-> _]. apply mlift_ok in H as [Hk _].
    destruct (wallet_unlocked _ _ _ _ _ _ _ _ Hu (S1 _ _ Hw)) as [_ Hd]. destruct (Hd i a Hi Ha) as (addr & He & ->).
    apply derive_valid in He as (k' & Hk' & ->). rewrite Hk in Hk'. injection Hk' as <-. by rewrite HexToAddress_Hex by apply address_valid.
  - apply readStandaloneKey_ok in H as [_ (g & Hg & Ho%open_key_secret)]. destruct (S2 _ _ Ha) as (k' & t & Hh & _ & ->).
    pose proof (proj2 Hh _ Hg) as Hs. pose proof (secret_of_open _ _ _ _ Hs Ho) as [= ->].
    by rewrite HexToAddress_Hex by apply address_valid.
Qed.

(** ** Lookups do not depend on the order of a map *)

Lemma find_perm {A} (f : A → bool) l l' :
  (∀ x y, x ∈ l → y ∈ l → f x = true → f y = true → x = y) → l ≡ₚ l' → List.find f l = List.find f l'.
Proof.
  intros Hu Hp. destruct (List.find f l) as [x|] eqn:E; symmetry.
  - apply find_some in E as [H1%list_elem_of_In H2]. destruct (List.find f l') as [y|] eqn:E'.
    + apply find_some in E' as [H3%list_elem_of_In H4]. f_equal. symmetry. apply Hu; [done|by rewrite Hp|done|done].
    + eapply find_none in E'; [|apply list_elem_of_In; by rewrite <-Hp]. congruence.
  - destruct (List.find f l') as [y|] eqn:E'; [|done].
    apply find_some in E' as [H3%list_elem_of_In H4]. eapply find_none in E; [|apply list_elem_of_In; by rewrite Hp]. congruence.
Qed.

Lemma same_name_valid s a b : validName a = true → validName b = true → same_name s a = true → same_name s b = true → a = b.
Proof.
  unfold same_name. intros [E1 _]%validName_lower [E2 _]%validName_lower H1%bool_decide_eq_true H2%bool_decide_eq_true. congruence.
Qed.

Lemma wallet_found f n m name id w :
  meta_ok f n m → mf_Wallets m !! id = Some w → ToLower (mw_Name w) = ToLower name → findWalletByName m name = Some (id, w).
Proof.
  intros Hm Hw Hn. destruct (findWalletByName m name) as [[id' w']|] eqn:E; [|by eapply findWalletByName_none in E].
  apply findWalletByName_some in E as [Hw' Hn']. assert (En : mw_Name w = mw_Name w').
  { destruct (validName_lower (mw_Name w)) as [E1 _]; [by eapply wo_name, mo_wallets|]. destruct (validName_lower (mw_Name w')) as [E2 _]; [by eapply wo_name, mo_wallets|]. congruence. }
  assert (id = id') as <- by by eapply mo_ww. congruence.
Qed.

Lemma wallet_order (R1 R2 : RangeMap) f n m name :
  meta_ok f n m → @findWalletByName _ R1 m name = @findWalletByName _ R2 m name.
Proof.
  intros Hm. apply find_perm; [|by rewrite !range_perm]. intros [i1 w1] [i2 w2] H1%range_elem H2%range_elem. cbn. intros E1 E2.
  assert (mw_Name w1 = mw_Name w2) by (eapply same_name_valid; [..|done|done]; by eapply wo_name, mo_wallets).
  assert (i1 = i2) as -> by by eapply mo_ww. congruence.
Qed.

Lemma standalone_order (R1 R2 : RangeMap) f n m name :
  meta_ok f n m → @findStandaloneByName _ R1 m name = @findStandaloneByName _ R2 m name.
Proof.
  intros Hm. apply find_perm; [|by rewrite !range_perm]. intros [i1 w1] [i2 w2] H1%range_elem H2%range_elem. cbn. intros E1 E2.
  assert (ms_Name w1 = ms_Name w2) by (eapply same_name_valid; [..|done|done]; by eapply mo_accounts).
  assert (i1 = i2) as -> by by eapply mo_aa. congruence.
Qed.

(** ** Watermarks *)

Definition has_wallet (id : string) d : Prop := ∃ m, meta_of d = Some m ∧ is_Some (mf_Wallets m !! id).
Definition wallet_named d (name : string) : option string :=
  match meta_of d with Some m => fst <$> findWalletByName m name | None => None end.

Lemma keys_ok_floor f f' full n d :
  keys_ok f full n d → (∀ m id w, meta_of d = Some m → mf_Wallets m !! id = Some w → f' id ≤ mw_NextIndex w) → keys_ok f' full n d.
Proof.
  intros (m & Hm & [] & Hs & Hst) Hf. exists m. split_and!; [done| |done..]. split; try done. intros id w Hw.
  destruct (mo_wallets id w Hw). split; eauto.
Qed.

Lemma saveMeta_ok io m d u tr : saveMeta io m d = (Ok u, tr) → meta_of (after d tr) = Some (mkMeta metaFormatVersion (mf_DefaultAccount m) (mf_Wallets m) (mf_Accounts m)).
Proof.
  unfold saveMeta, write_file. destruct (kio_write io metaPath) as [[? []]|]; [done..|]. intros [= _ <-]. unfold meta_of. cbn. by rewrite lookup_insert_eq.
Qed.

(** what DeriveNext does to the watermark *)
Lemma DeriveNext_index io name pass d i a tr :
  DeriveNext io name pass d = (Ok (i, a), tr) →
  ∃ m id w w', meta_of d = Some m ∧ findWalletByName m name = Some (id, w) ∧ i = mw_NextIndex w ∧ mw_NextIndex w' = wrap32 (i + 1) ∧
    meta_of (after d tr) = Some (mkMeta metaFormatVersion (mf_DefaultAccount m) (<[id := w']> (mf_Wallets m)) (mf_Accounts m)).
Proof.
  unfold DeriveNext, lockForWrite, lock. intros ([] & t1 & t2 & H0 & H & ->)%mbind_ok.
  pose proof (reads_ensureDirs io d) as Hr. rewrite H0 in Hr. cbn in Hr. subst t1. destruct (kio_lock io) as [[]|]; [done..|].
  apply mbind_ok in H as ([] & t1 & t3 & H1 & H & ->). pose proof (reads_VerifyPassphrase io pass d) as Hr. cbn [after List.last] in H1. rewrite H1 in Hr. cbn in Hr. subst t1.
  apply mbind_ok in H as (m & t1 & t4 & [-> Hm]%loadMeta_ok & H & ->). cbn [after List.last app] in *.
  destruct (findWalletByName m name) as [[id w]|] eqn:Hf; [|done]. cbn zeta in H.
  apply mbind_ok in H as (r & t1 & t5 & H2 & H & ->). unfold deriveAndCache in H2.
  apply mbind_ok in H2 as (mb & t6 & t7 & [-> _]%unlockWallet_ok & H2 & ->). apply mbind_ok in H2 as (addr & t8 & t9 & [_ ->]%mlift_ok & H2 & ->).
  apply mret_ok in H2 as [-> ->]. cbn [after List.last app] in *. apply mbind_ok in H as ([] & t10 & t11 & H3%saveMeta_ok & H & ->).
  apply mret_ok in H as [[= -> ->] ->]. rewrite app_nil_r. eexists m, id, w, _. split_and!; [done..| |exact H3]. done.
Qed.
(** ** Properties *)

(** C8: Whatever sequence of operations is run on an empty keystore, with fewer
    than 2^31 calls of DeriveNext among them and random identifiers that name
    nothing there yet, each cut
    off after any of its writes, and each write succeeding, failing, or failing
    with its data in place, the directory that is left has well-formed metadata
    (names and identifiers in one namespace, every index below its watermark),
    and every blob and key file that the metadata names holds, where it is
    there, the secret that the cached addresses come from; the watermark check
    of Open passes, and a lookup by name does not depend on the order in which
    Go enumerates a map.  If moreover no write of the metadata reports an error
    with the new metadata in place, every wallet and every standalone account
    has its file beside it. *)
Theorem keystore_invariant n d :
  n < 2 ^ 31 →
  (reach n d →
   keys_ok no_floor false n d ∧
   ∀ m, meta_of d = Some m → checkWatermark m = Ok tt ∧
     ∀ (RM' : RangeMap) name, @findWalletByName _ RM' m name = findWalletByName m name ∧
                              @findStandaloneByName _ RM' m name = findStandaloneByName m name) ∧
  (reach_steady n d → keys_ok no_floor true n d ∧
   ∀ m, meta_of d = Some m →
     (∀ id, is_Some (mf_Wallets m !! id) → is_Some (d !! walletBlobPath id)) ∧
     (∀ id a, mf_Accounts m !! id = Some a → is_Some (d !! ms_File a))).
Proof.
  intros Hn. split; intros Hr.
  - pose proof (reach_ok _ _ Hr Hn) as Hk. split; [done|]. intros m Hm. destruct Hk as (m' & Hm' & Hok & _).
    rewrite Hm in Hm'. injection Hm' as <-. split; [by eapply checkWatermark_ok|]. intros RM' name.
    split; [by eapply wallet_order|by eapply standalone_order].
  - pose proof (reach_steady_ok _ _ Hr Hn) as Hk. split; [done|]. intros m Hm. destruct Hk as (m' & Hm' & _ & (S1 & S2 & _) & _).
    rewrite Hm in Hm'. injection Hm' as <-. split.
    + intros id [w Hw]. destruct (S1 _ _ Hw) as (plain & mn & b39 & Hh & _). by apply Hh.
    + intros id a Ha. destruct (S2 _ _ Ha) as (k & t & Hh & _). by apply Hh.
Qed.

(** C6: A reference that resolves to a signing identity signs with the key of
    the address it resolves to, and that is the address AddressOf shows for it:
    the cached address, which policies and displays go by, is never that of
    another key. *)
Theorem signer_signs_for_its_address n d io io1 io2 ref u sg priv a tr tr1 tr2 :
  reach n d → n < 2 ^ 31 → 0 ≤ ar_Index ref < 2 ^ 32 →
  LookupSigning io ref d = (Ok sg, tr) → unlock io1 sg u d = (Ok priv, tr1) → AddressOf io2 ref d = (Ok a, tr2) →
  PubkeyToAddress priv = a ∧ Signable_Address sg = a.
Proof.
  intros Hr Hn Hi Hl Hu Ha. rewrite (AddressOf_agrees _ _ _ _ _ _ _ _ Hl Ha). split; [|done].
  eapply unlock_resolved; [by apply reach_ok|by eapply LookupSigning_resolved|done].
Qed.

(** C9: DeriveNext never hands out an index of a wallet twice: as long as the
    wallet is there, whatever operations come in between, accounts forgotten,
    the wallet renamed, operations cut off, the next index it gives is larger. *)
Theorem index_never_reused n k d d' io io' name name' pass pass' id i j a a' tr tr' :
  reach n d → wallet_named d name = Some id → DeriveNext io name pass d = (Ok (i, a), tr) →
  steps (has_wallet id) k (after d tr) d' → n + 1 + k < 2 ^ 31 →
  wallet_named d' name' = Some id → DeriveNext io' name' pass' d' = (Ok (j, a'), tr') → i < j.
Proof.
  intros Hr Hnm Hd Hs Hn Hnm' Hd'. pose proof (steps_cost _ _ _ _ _ Hs). pose proof (steps_cost _ _ _ _ _ Hr).
  pose proof (reach_ok _ _ Hr ltac:(lia)) as Hk. destruct (DeriveNext_runs no_floor false n io name pass d) as [HI _]; [lia..|done|].
  assert (Hk1 : keys_ok no_floor false (n + 1) (after d tr)) by (apply after_in; [by eapply keys_ok_le; [|done]; lia|by rewrite Hd in HI]).
  apply DeriveNext_index in Hd as (m & id1 & w & w' & Hm & Hf & -> & Hw' & Hm1). unfold wallet_named in Hnm. rewrite Hm, Hf in Hnm. injection Hnm as ->.
  destruct Hk as (m0 & Hm0 & Hok & _). rewrite Hm in Hm0. injection Hm0 as <-.
  pose proof (findWalletByName_some _ _ _ _ Hf) as [Hw _]. pose proof (wo_next _ _ _ _ (mo_wallets _ _ _ Hok _ _ Hw)) as Hnext.
  rewrite wrap32_small in Hw' by lia. set (floor := λ x : string, if decide (x = id) then mw_NextIndex w + 1 else 0).
  assert (Hk2 : keys_ok floor false (n + 1 + k) d').
  { eapply steps_keep; [| |exact Hs|lia|lia|]; [|done|].
    - intros d0 io0 (m0 & Hm0 & Hp) (F & _). unfold floor. destruct (decide _) as [E|]; [|lia]. rewrite <-E in Hp.
      destruct (F m0 Hm0) as [(_ & Hnone & _) _]. rewrite Hnone in Hp. by destruct Hp.
    - eapply keys_ok_floor; [exact Hk1|]. intros m0 id0 w0 Hm0 Hw0. rewrite Hm1 in Hm0. injection Hm0 as <-. unfold floor.
      destruct (decide (id0 = id)) as [->|Hne]; cbn in Hw0.
      + rewrite lookup_insert_eq in Hw0. injection Hw0 as <-. lia.
      + rewrite lookup_insert_ne in Hw0 by done. pose proof (wo_next _ _ _ _ (mo_wallets _ _ _ Hok _ _ Hw0)). lia. }
  apply DeriveNext_index in Hd' as (m2 & id2 & w2 & _ & Hm2 & Hf2 & -> & _). unfold wallet_named in Hnm'. rewrite Hm2, Hf2 in Hnm'. injection Hnm' as ->.
  destruct Hk2 as (m3 & Hm3 & Hok3 & _). rewrite Hm2 in Hm3. injection Hm3 as <-. apply findWalletByName_some in Hf2 as [Hw2 _].
  pose proof (wo_floor _ _ _ _ (mo_wallets _ _ _ Hok3 _ _ Hw2)) as Hfl. unfold floor in Hfl. rewrite decide_True in Hfl by done. lia.
Qed.

(** C7: A rotation of the passphrase is atomic, unless the write of its
    commit marker reports an error with the marker in place (its directory
    fsync fails; then the code removes the staged files under the marker, and
    [torn_marker_mixes] below shows what that costs).  It starts in a reachable
    directory (fewer than 2^31 calls of DeriveNext, and random identifiers that
    named nothing there), with readable metadata and no marker of an
    earlier rotation.  Cut off after any of its
    writes, each of which succeeds, fails, or fails with its data in place, and
    followed by any number of recoveries that are cut off themselves, a recovery
    that is let run to its end succeeds and leaves either every secret file as
    it was, or every secret file with its secret under the new passphrase and no
    other and all other files as they were; a rotation that reported success
    leaves the latter. *)
Theorem rotation_is_atomic n d0 m io light old new d1 d2 io' tr :
  reach n d0 → n < 2 ^ 31 → meta_of d0 = Some m → d0 !! rotateMarkerName = None → ¬ marker_torn io →
  d1 ∈ d0 :: (ChangePassphrase io light old new d0).2 → rtc recovery_write d1 d2 →
  (quiet_recovery io' → is_ok (recoverRotation io' d2).1 = true) ∧
  (recoverRotation io' d2 = (Ok tt, tr) →
   (all_old d0 (after d2 tr) ∨ all_new old new m d0 (after d2 tr)) ∧
   (∀ r tr0, ChangePassphrase io light old new d0 = (Ok r, tr0) → d1 = after d0 tr0 → all_new old new m d0 (after d2 tr))).
Proof.
  intros Hr Hn Hm Hmk Ht Hd1 Hrec. destruct (reach_ok _ _ Hr Hn) as (m' & Hm' & _ & Hs & _). rewrite Hm in Hm'. injection Hm' as <-.
  apply (rotation_atomic_of io light old new d0 m d1 d2 io' tr); [done|done|by eapply secrets_key_files|done..].
Qed.

(** C27: The mnemonic that ExportWallet hands out recovers the wallet: with the
    BIP-39 passphrase beside it, it derives the address of every account that
    the wallet has. *)
Theorem exported_mnemonic_recovers n d m io name pass mn b39 tr id w i a :
  reach n d → n < 2 ^ 31 → meta_of d = Some m → ExportWallet io name pass d = (Ok (mn, b39), tr) →
  findWalletByName m name = Some (id, w) → 0 ≤ i < 2 ^ 32 → mw_Accounts w !! indexKey i = Some a →
  ∃ addr, deriveAddress (seedFromMnemonic mn b39) i = Ok addr ∧ ha_Address a = Hex addr.
Proof.
  intros Hr Hn Hm He Hf Hi Ha. destruct (reach_ok _ _ Hr Hn) as (m' & Hm' & _ & (S1 & _) & _). rewrite Hm in Hm'. injection Hm' as <-.
  unfold ExportWallet in He. apply mbind_ok in He as ([] & t1 & t2 & H0 & He & _).
  pose proof (reads_VerifyPassphrase io pass d) as Hv. rewrite H0 in Hv. cbn in Hv. subst t1. cbn [after List.last] in He.
  apply mbind_ok in He as (m1 & t3 & t4 & [-> Hm1]%loadMeta_ok & He & _). rewrite Hm in Hm1. injection Hm1 as <-. rewrite Hf in He.
  pose proof (findWalletByName_some _ _ _ _ Hf) as [Hw _]. destruct (wallet_unlocked _ _ _ _ _ _ _ _ He (S1 _ _ Hw)) as [_ H]. by apply H.
Qed.
(** ** Creating and exporting *)

(** every file can be read *)
Definition readable io : Prop := ∀ p, kio_stat io p = None ∧ kio_perms io p = None ∧ kio_read io p = None.

Lemma kstat_readable io p what d : readable io → kstat io p what d = (Ok (bool_decide (is_Some (d !! p))), []).
Proof. intros H. unfold kstat. destruct (H p) as (-> & _). done. Qed.
Lemma read_readable io p what d f : readable io → d !! p = Some f → readKeystoreFile io p what d = (Ok f, []).
Proof. intros H Hf. unfold readKeystoreFile. destruct (H p) as (_ & _ & ->). rewrite (mbind_read _ _ _ d) by done. by rewrite Hf. Qed.
Lemma perms_readable io p d : readable io → checkPerms io p d = (Ok tt, []).
Proof. intros H. unfold checkPerms. by destruct (H p) as (_ & -> & _). Qed.

Lemma loadManifest_again io io' d d' r tr :
  readable io' → loadManifest io d = (Ok r, tr) → d' !! manifestPath = d !! manifestPath → loadManifest io' d' = (Ok r, []).
Proof.
  intros Hio. unfold loadManifest. intros (b & t1 & t2 & [-> ->]%kstat_ok & H & _)%mbind_ok E. cbn [after List.last] in H.
  rewrite (mbind_read _ _ _ _ (kstat_readable _ _ _ _ Hio)), E. case_bool_decide as Hs; cbn [negb] in *; [|by minv; subst].
  rewrite (mbind_read _ _ _ _ (perms_readable _ _ _ Hio)). apply mbind_ok in H as ([] & t3 & t4 & H0 & H & _).
  pose proof (reads_checkPerms io manifestPath d) as Hp. rewrite H0 in Hp. cbn in Hp. subst t3. cbn [after List.last] in H.
  apply mbind_ok in H as (f & t5 & t6 & [-> Hf]%readKeystoreFile_ok & H & _). rewrite <-E in Hf.
  rewrite (mbind_read _ _ _ _ (read_readable _ _ _ _ _ Hio Hf)). destruct f; try done. destruct (_ <? _); [done|]. by minv; subst.
Qed.

Lemma loadMeta_readable io d m : readable io → d !! metaPath = Some (KMeta m) → mf_Format m = metaFormatVersion → loadMeta io d = (Ok m, []).
Proof.
  intros Hio Hm Hf. unfold loadMeta. rewrite (mbind_read _ _ _ _ (kstat_readable _ _ _ _ Hio)), Hm. cbn [negb bool_decide].
  rewrite bool_decide_eq_true_2 by done. cbn [negb]. rewrite (mbind_read _ _ _ _ (perms_readable _ _ _ Hio)).
  rewrite (mbind_read _ _ _ _ (read_readable _ _ _ _ _ Hio Hm)), Hf. done.
Qed.

Lemma unlockWallet_readable io d id pass f p mb :
  readable io → d !! walletBlobPath id = Some f → open_blob f pass = Ok p → decodePlaintext p = Some mb → unlockWallet io id pass d = (Ok mb, []).
Proof.
  intros Hio Hf Hp Hd. unfold unlockWallet, readWalletPlaintext. rewrite (mbind_read _ _ _ p); [by rewrite Hd|].
  rewrite (mbind_read _ _ _ _ (perms_readable _ _ _ Hio)), (mbind_read _ _ _ _ (read_readable _ _ _ _ _ Hio Hf)). unfold mlift. by rewrite Hp.
Qed.

Lemma VerifyPassphrase_ok io pass d tr :
  VerifyPassphrase io pass d = (Ok tt, tr) → tr = [] ∧ ∃ man, loadManifest io d = (Ok (Some man), []) ∧ verifyAgainst man pass = Ok tt.
Proof.
  intros H. pose proof (reads_VerifyPassphrase io pass d) as Hr. rewrite H in Hr. cbn in Hr. subst tr. split; [done|].
  unfold VerifyPassphrase in H. apply mbind_ok in H as ([man|] & t1 & t2 & H0 & H & E); [|done].
  pose proof (loadManifest_ok _ _ _ _ H0) as (-> & _). apply mlift_ok in H as [H _]. eauto.
Qed.

(** what a successful CreateWallet did *)
Lemma CreateWallet_ok io light name words pass d r tr :
  CreateWallet io light name words pass d = (Ok r, tr) →
  ∃ man m n p cj, let id := kio_uuid io "wallet" in let mn := cr_Mnemonic r in
    loadManifest io d = (Ok (Some man), []) ∧ verifyAgainst man pass = Ok tt ∧ meta_of d = Some m ∧ mn ≠ "" ∧
    validName name = true ∧ nameExists m name "" = false ∧ EncryptDataV3 (kio_salt io (walletBlobPath id)) (encodePlaintext mn "") pass n p = Some cj ∧
    after d tr = <[metaPath := KMeta (mkMeta metaFormatVersion (mf_DefaultAccount m)
                                        (<[id := fresh_wallet io name (cr_Index0Addr r)]> (mf_Wallets m)) (mf_Accounts m))]>
                 (<[walletBlobPath id := KBlob (mkBlob walletBlobVersion "mnemonic" id 3 cj)]> d) ∧ cr_BIP39Pass r = "".
Proof.
  unfold CreateWallet, lockForWrite, lock. destruct (validName name) eqn:Hv; [|done]. cbn [negb]. destruct (wordsToEntropyBits words); [|done].
  intros ([] & t1 & t2 & H0 & H & ->)%mbind_ok.
  pose proof (reads_ensureDirs io d) as Hr. rewrite H0 in Hr. cbn in Hr. subst t1. destruct (kio_lock io) as [[]|]; [done..|].
  apply mbind_ok in H as ([] & t1 & t3 & [-> (man & Hman & Hver)]%VerifyPassphrase_ok & H & ->). cbn [after List.last app] in *.
  apply mbind_ok in H as (m & t1 & t4 & [-> Hm]%loadMeta_ok & H & ->). cbn [after List.last app] in *.
  destruct (nameExists m name "") eqn:Hex; [done|]. rewrite (mbind_read _ _ _ _ Hman) in H.
  apply mbind_ok in H as (mn & t1 & t5 & [Hmn ->]%mlift_ok & H & ->). apply generateMnemonic_ok in Hmn.
  apply mbind_ok in H as (addr0 & t1 & t6 & [_ ->]%mlift_ok & H & ->). cbn [after List.last app] in *.
  apply mbind_ok in H as (wid & t1 & t7 & H & Hret & ->). apply mret_ok in Hret as [-> ->]. rewrite app_nil_r. cbn [cr_Mnemonic cr_Index0Addr].
  unfold register_wallet in H. apply mbind_ok in H as ([] & t8 & t9 & Hb & H & ->). unfold writeWalletBlob in Hb.
  destruct (EncryptDataV3 _ _ _ _ _) as [cj|] eqn:Ecj; [|done]. unfold write_file in Hb. destruct (kio_write io _) as [[? []]|]; [done..|].
  injection Hb as <-. cbn [after List.last] in H. apply mbind_ok in H as ([] & t10 & t11 & Hsv & H & ->). apply mret_ok in H as [-> ->].
  exists man, m. do 2 eexists. exists cj. split_and!; [done..| |done]. unfold save_or_remove in Hsv. apply mbind_ok in Hsv as (o & t12 & t13 & Hsv & H & ->).
  unfold mtry, saveMeta, write_file in Hsv. destruct (kio_write io metaPath) as [[? []]|]; injection Hsv as <- <-; cbn [after List.last] in H.
  1,2: exfalso; apply mbind_ok in H as ([] & ? & ? & _ & H & _); discriminate H.
  apply mret_ok in H as [_ ->]. done.
Qed.

(** C28: A wallet that was created is exported again: under its name and the
    passphrase it was created with, ExportWallet returns the mnemonic that
    CreateWallet showed, whatever bytes it is made of. *)
Theorem created_wallet_exported n d io light name words pass r tr io' :
  reach n d → n < 2 ^ 31 → fresh_draws io d → CreateWallet io light name words pass d = (Ok r, tr) → readable io' →
  ExportWallet io' name pass (after d tr) = (Ok (cr_Mnemonic r, cr_BIP39Pass r), []) ∧ cr_BIP39Pass r = "".
Proof.
  intros Hr Hn (F1 & F2 & F3) Hc Hio. pose proof (reach_ok _ _ Hr Hn) as Hk. pose proof (steps_cost _ _ _ _ _ Hr).
  destruct (CreateWallet_runs no_floor false n io light name words pass d) as [HI _]; [done|done|intros m Hm; by apply F1|done|done|done|].
  assert (Hk' : keys_ok no_floor false n (after d tr)) by (apply after_in; [done|by rewrite Hc in HI]).
  apply CreateWallet_ok in Hc as (man & m & ns & ps & cj & Hman & Hver & Hm & Hmn & Hv & Hex & Ecj & Ha & Hb). split; [|done]. rewrite Hb.
  set (id := kio_uuid io "wallet") in *. destruct Hk' as (m1 & Hm1 & Hok1 & _). unfold meta_of in Hm1. rewrite Ha, lookup_insert_eq in Hm1.
  injection Hm1 as <-. rewrite Ha. set (D := <[metaPath := _]> _). unfold ExportWallet.
  rewrite (mbind_read _ _ _ tt). 2:{ unfold VerifyPassphrase. rewrite (mbind_read _ _ _ (Some man)); [unfold mlift; by rewrite Hver|].
    eapply loadManifest_again; [done|done|]. unfold D. by rewrite !lookup_insert_ne. }
  erewrite mbind_read; [|apply loadMeta_readable; [done|unfold D; by rewrite lookup_insert_eq|done]].
  rewrite (wallet_found no_floor n _ name id (fresh_wallet io name (cr_Index0Addr r))); [|done|cbn; by rewrite lookup_insert_eq|done].
  eapply unlockWallet_readable; [done|unfold D; by rewrite lookup_insert_ne, lookup_insert_eq| |by apply decode_encode].
  unfold open_blob. cbn [wb_Crypto]. by rewrite (data_opens _ _ _ _ _ _ Ecj).
Qed.
(** ** A rotation that another process has committed *)

(** what a completed swap leaves at a path that is no staged copy *)
Lemma swap_effect io rels d :
  Forall plain_path rels →
  runs_in (λ _, True) (swapStaged io rels) d (λ _ d', ∀ p, plain_path p →
    d' !! p = if decide (p ∈ rels) then match d !! staged p with Some f => Some f | None => d !! p end else d !! p).
Proof.
  revert d. induction rels as [|k rels IH]; intros d Hp; cbn [swapStaged]; [by apply runs_in_ret|].
  apply Forall_cons in Hp as [Hk Hp]. apply runs_in_bind; [done|]. apply runs_in_read; [apply reads_kstat|]. intros b [_ ->]%kstat_ok _.
  apply runs_in_bind; [done|]. case_bool_decide as Hs.
  - destruct Hs as [f Hf]. apply (rename_runs_in _ _ _ _ _ _ f); [done..|]. intros _.
    eapply runs_in_conseq; [done|by apply IH|]. intros [] d' _ H p Hpp. rewrite H by done.
    destruct (decide (p = k)) as [->|Hne].
    + rewrite lookup_insert_ne by (by apply plain_ne_staged). rewrite lookup_delete_eq, lookup_insert_eq.
      rewrite (decide_True (P := k ∈ k :: rels)) by by left. by destruct (decide _); rewrite Hf.
    + rewrite !lookup_insert_ne by (done || by apply plain_ne_staged). rewrite !lookup_delete_ne by ((intros E%staged_inj; congruence) || by apply plain_not_staged).
      destruct (decide (p ∈ rels)); [by rewrite decide_True by by right|]. rewrite decide_False; [done|]. by intros [?|?]%elem_of_cons.
  - apply runs_in_bind; [done|]. apply runs_in_read; [apply reads_kstat|]. intros b [_ ->]%kstat_ok _.
    case_bool_decide; [|apply runs_in_fail]. apply runs_in_ret. intros _. eapply runs_in_conseq; [done|by apply IH|].
    intros [] d' _ H' p Hpp. rewrite H' by done. destruct (decide (p ∈ rels)); [by rewrite decide_True by by right|].
    destruct (decide (p ∈ k :: rels)) as [[->|?]%elem_of_cons|]; [|done..]. destruct (d !! staged k) eqn:E; [|done]. by destruct Hs.
Qed.

(** a completed recovery of a committed rotation *)
Lemma recover_effect io fs d tr p :
  Forall plain_path fs → d !! rotateMarkerName = Some (KMarker fs) → recoverRotation io d = (Ok tt, tr) → plain_path p →
  after d tr !! p = if decide (p ∈ fs) then match d !! staged p with Some f => Some f | None => d !! p end else d !! p.
Proof.
  intros Hfs Hm. unfold recoverRotation. destruct (kio_read io rotateMarkerName); [done|]. rewrite (mbind_read mget _ d d) by done. rewrite Hm.
  intros ([] & t1 & t2 & H1 & H & ->)%mbind_ok Hp. destruct (kio_remove io rotateMarkerName) eqn:E; [done|].
  rewrite <-(proj2 (swap_effect io fs d Hfs) _ _ H1 p Hp), after_app. unfold try_remove in H. rewrite E in H. injection H as <-.
  case_bool_decide; [|done]. cbn. apply lookup_delete_ne. by intros <-; destruct Hp.
Qed.

Lemma meta_path_plain : plain_path metaPath.
Proof. by split. Qed.
Lemma manifest_path_plain : plain_path manifestPath.
Proof. by split. Qed.

(** C29: An already open store does not look for a rotation that another
    process has committed and not finished: CreateWallet succeeds under the old
    passphrase, and once a recovery completes the rotation, the wallet can be
    exported under no passphrase at all (its blob opens under the old one
    only, the verifier under the new one). *)
Theorem stale_store_strands_wallet n d io light name words pass r tr fs nm io1 tr1 io2 q x tr2 :
  reach n d → n < 2 ^ 31 → fresh_draws io d →
  d !! rotateMarkerName = Some (KMarker fs) → manifestPath ∈ fs → d !! staged manifestPath = Some (KManifest nm) →
  verifyAgainst nm pass = Err wrong_passphrase →
  CreateWallet io light name words pass d = (Ok r, tr) → recoverRotation io1 (after d tr) = (Ok tt, tr1) →
  ExportWallet io2 name q (after (after d tr) tr1) ≠ (Ok x, tr2).
Proof.
  intros Hr Hn (F1 & [F2 F2'] & F3) Hmk Hin Hst Hrej Hc Hrec He. pose proof (reach_ok _ _ Hr Hn) as Hk. pose proof (steps_cost _ _ _ _ _ Hr).
  destruct (CreateWallet_runs no_floor false n io light name words pass d) as [HI _]; [done|done|intros m Hm; by apply F1|done|done|done|].
  assert (Hk' : keys_ok no_floor false n (after d tr)) by (apply after_in; [done|by rewrite Hc in HI]).
  apply CreateWallet_ok in Hc as (man & m & ns & ps & cj & _ & _ & _ & _ & _ & _ & Ecj & Ha & _).
  set (id := kio_uuid io "wallet") in *. destruct (wallet_path_ok id) as [Wp Wm]. set (w := fresh_wallet io name _) in *.
  destruct Hk' as (m1 & Hm1 & Hok1 & _ & Hst1). unfold meta_of in Hm1. rewrite Ha, lookup_insert_eq in Hm1. injection Hm1 as <-.
  rewrite Ha in *. set (D := <[metaPath := _]> _) in *.
  assert (L : ∀ p, p ≠ metaPath → p ≠ walletBlobPath id → D !! p = d !! p) by (intros p ? ?; unfold D; by rewrite !lookup_insert_ne).
  assert (Hmk1 : D !! rotateMarkerName = Some (KMarker fs)) by (rewrite L; [done..|]; by intros E; destruct Wp).
  assert (Hfs : Forall plain_path fs) by (apply Forall_forall; intros k Hk1; by apply (Hst1 fs)).
  pose proof (recover_effect io1 fs D tr1) as R. set (E := after D tr1) in *. unfold ExportWallet in He.
  apply mbind_ok in He as ([] & t1 & t2 & [-> (man' & Hman & Hver)]%VerifyPassphrase_ok & He & _). cbn [after List.last] in He.
  apply loadManifest_ok in Hman as (_ & Hman & _). unfold manifest_of in Hman. rewrite R in Hman by (done || apply manifest_path_plain).
  rewrite decide_True, (L (staged manifestPath)), Hst in Hman; [|by apply plain_not_staged, meta_path_plain|by apply plain_not_staged|done].
  injection Hman as ->.
  apply mbind_ok in He as (m2 & t3 & t4 & [-> Hm2]%loadMeta_ok & He & _). cbn [after List.last] in He. unfold meta_of in Hm2.
  rewrite R in Hm2 by (done || apply meta_path_plain). rewrite decide_False in Hm2.
  2: { intros Hbad. by destruct (Hst1 fs Hmk1 _ Hbad) as (_ & ? & _). }
  unfold D in Hm2. rewrite lookup_insert_eq in Hm2. injection Hm2 as <-.
  rewrite (wallet_found no_floor n _ name id w) in He; [|done|cbn; by rewrite lookup_insert_eq|done].
  apply unlockWallet_ok in He as (_ & f & p & Hf & Hp & _). rewrite R in Hf by done.
  rewrite (L (staged (walletBlobPath id))), F2' in Hf; [|by apply plain_not_staged, meta_path_plain|by apply plain_not_staged].
  assert (Hf' : f = KBlob (mkBlob walletBlobVersion "mnemonic" id 3 cj)).
  { unfold D in Hf. rewrite lookup_insert_ne, lookup_insert_eq in Hf by done. destruct (decide _) in Hf; congruence. }
  subst f. unfold open_blob in Hp. cbn [wb_Crypto] in Hp. destruct (decide (q = pass)) as [->|Hne]; [congruence|].
  by rewrite (data_sealed _ _ _ _ _ _ _ Ecj Hne) in Hp.
Qed.

(** The plaintext of a wallet blob is read back: whatever bytes the mnemonic
    and the BIP-39 passphrase consist of, the hand-written decoder returns them
    from what the hand-written encoder wrote. *)
Theorem wallet_plaintext_read_back mnemonic bip39pass :
  mnemonic ≠ "" → decodePlaintext (encodePlaintext mnemonic bip39pass) = Some (mnemonic, bip39pass).
Proof. apply decode_encode. Qed.
End Properties.

(** ** A sample keystore

    A toy instance of the primitives: an envelope shows its passphrase, a key is
    a checksum of its path. *)

Fixpoint pos_bits (p : positive) : list json :=
  match p with xH => [] | xO p => JBool false :: pos_bits p | xI p => JBool true :: pos_bits p end.
Fixpoint bits_pos (l : list json) : positive :=
  match l with [] => xH | JBool true :: l => xI (bits_pos l) | _ :: l => xO (bits_pos l) end.
Definition z_json (z : Z) : json :=
  match z with Z0 => JNull | Zpos p => JArr (JBool true :: pos_bits p) | Zneg p => JArr (JBool false :: pos_bits p) end.
Definition json_z (j : json) : Z :=
  match j with JArr (JBool true :: l) => Zpos (bits_pos l) | JArr (_ :: l) => Zneg (bits_pos l) | _ => 0 end.

Lemma json_z_z_json z : json_z (z_json z) = z.
Proof.
  assert (B : ∀ p, bits_pos (pos_bits p) = p) by (induction p as [p IH|p IH|]; cbn; by rewrite ?IH).
  by destruct z as [|p|p]; cbn; rewrite ?B.
Qed.

(** a number between 1 and the order of the curve *)
Fixpoint hash_bytes (s : string) (n : Z) : Z :=
  match s with "" => n | String c s => hash_bytes s ((n * 257 + byteZ c + 1) mod (curveN - 1)) end.
Definition checksum (s : string) : Z := 1 + hash_bytes s 0.

Definition toy_open {A} (f : json → A) (c : json) (pass : string) : decrypted A :=
  match c with
  | JObj [(_, _); (_, v); (_, JStr p)] => if bool_decide (p = pass) then Plain (f v) else ErrDecrypt
  | _ => ErrUnreadable
  end.
Definition toy_seal (id : string) (v : json) (pass : string) : json := JObj [("id", JStr id); ("data", v); ("pass", JStr pass)].
Definition json_s (j : json) : string := match j with JStr s => s | _ => "" end.

Lemma toy_opens {A} (f : json → A) id v pass : toy_open f (toy_seal id v pass) pass = Plain (f v).
Proof. cbn. by rewrite bool_decide_eq_true_2. Qed.
Lemma toy_sealed {A} (f : json → A) id v pass q : q ≠ pass → toy_open f (toy_seal id v pass) q = ErrDecrypt.
Proof. intros H. cbn. by rewrite bool_decide_eq_false_2. Qed.

#[local] Instance toy_keys : KeyCrypto.
Proof.
  refine {|
    EncryptDataV3 := λ _ data pass _ _, Some (toy_seal "" (JStr data) pass);
    DecryptDataV3 := toy_open json_s;
    EncryptKey := λ _ id k pass _ _, Some (toy_seal id (z_json k) pass);
    DecryptKey := toy_open json_z;
    uuid_Parse := λ s, if bool_decide (s = "") then None else Some s;
    NewMnemonic := λ e, Some ("word " +:+ e);
    IsMnemonicValid := λ m, negb (bool_decide (m = ""));
    norm_NFKD := λ s, s;
    bytes_Fields := λ s, [s];
    pbkdf2_Key := λ m salt, m +:+ "|" +:+ salt;
    NewMaster := Some;
    Derive := λ k i, Some (k +:+ "/" +:+ z_string i);
    ECPrivKey := λ k, Some (checksum k);
    PubkeyToAddress := λ k, k mod 2 ^ 160;
    sha256_Sum := λ s, s;
    types_SignTx := λ _ chain k, Some (z_string k);
    MarshalBinary := Some;
    signed_Hash := checksum;
    crypto_Sign := λ h k, Some (z_string k);
  |}.
  - intros salt data pass n p c [= <-]. apply toy_opens.
  - intros salt data pass pass' n p c [= <-]. by apply toy_sealed.
  - intros salt id k pass n p c [= <-]. rewrite toy_opens. by rewrite json_z_z_json.
  - intros salt id k pass pass' n p c [= <-]. by apply toy_sealed.
  - intros e m [= <-]. done.
  - done.
  - intros k. apply Z.mod_pos_bound. done.
Defined.

#[local] Existing Instance list_range.

(** an operation at a time, drawing these identifiers; everything works *)
Definition toy_io (t : Z) (w a : string) : KeyIO :=
  mkKIO (Ok true) (λ _, None) (λ _, None) None (λ _, None) (λ _, None) (λ _, None) (λ _, false) (λ _, None) (λ _, false) (λ _, false)
    t (λ use, Some use) (λ p, p) (λ use, if bool_decide (use = "wallet") then w else a).

(** what is drawn is fresh, as a test *)
Definition path_free (pre : string) (d : KDir) : bool := forallb (λ e, negb (String.prefix pre e.1)) (map_to_list d).
Definition fresh_test (io : KeyIO) (d : KDir) : bool :=
  match meta_of d with
  | Some m => forallb (λ id, negb (bool_decide (id = "")) && negb (bool_decide (is_Some (mf_Wallets m !! id))) &&
                             negb (bool_decide (is_Some (mf_Accounts m !! id)))) [kio_uuid io "wallet"; kio_uuid io "account"]
  | None => true
  end && path_free (walletBlobPath (kio_uuid io "wallet")) d && path_free ("accounts/UTC--" +:+ toISO8601 (kio_clock io)) d.

Lemma path_free_none pre s d : path_free pre d = true → d !! (pre +:+ s) = None.
Proof.
  unfold path_free. rewrite forallb_forall. intros H. destruct (d !! (pre +:+ s)) as [f|] eqn:E; [|done]. exfalso.
  apply elem_of_map_to_list, list_elem_of_In in E. apply H in E. cbn in E. by rewrite prefix_app in E.
Qed.

Lemma fresh_test_ok io d : fresh_test io d = true → fresh_draws io d.
Proof.
  unfold fresh_test. intros [[H1 H2]%andb_true_iff H3]%andb_true_iff. split_and!.
  - intros m Hm. rewrite Hm in H1. cbn in H1. bool_prop. unfold fresh_id. rewrite !eq_None_not_Some. done.
  - pose proof (path_free_none _ "" _ H2) as N. rewrite string_app_nil_r in N. split; [exact N|exact (path_free_none _ stagedSuffix _ H2)].
  - intros addr. pose proof (path_free_none _ ("--" +:+ fixed_digits 16 40 addr) _ H3) as N1.
    pose proof (path_free_none _ ("--" +:+ (fixed_digits 16 40 addr +:+ stagedSuffix)) _ H3) as N2.
    unfold fresh_path, staged, keyFileName. generalize dependent (fixed_digits 16 40 addr). generalize (toISO8601 (kio_clock io)).
    intros iso x N1 N2. rewrite !string_app_assoc in *. by split.
Qed.

Lemma after_reached {S} (d : S) tr : after d tr ∈ d :: tr.
Proof. destruct (after_elem d tr) as [-> | H]; [by left|by right]. Qed.

Lemma steps_cut (R : KeyIO → Prop) n d0 d io light op d1 :
  steps_by R (λ _, True) n d0 d → R io → fresh_test io d = true → op_range op → d1 ∈ d :: (op_run io light op d).2 →
  steps_by R (λ _, True) (n + op_cost op) d0 d1.
Proof.
  intros Hs Hio Hf%fresh_test_ok Hop Hin. induction Hs as [d0|n0 d0 d2 d3 io0 light0 op0 Hd0 Hio0 Hf0 Hr0 Hin0 H IH].
  - rewrite Z.add_comm. eapply (steps_op _ _ 0); [done..|apply steps_refl].
  - rewrite <-Z.add_assoc. apply (steps_op _ _ _ _ d2 _ io0 light0 op0); [done..|]. by apply IH.
Qed.

Lemma reach_cut n d io light op d1 :
  reach n d → fresh_test io d = true → op_range op → d1 ∈ d :: (op_run io light op d).2 → reach (n + op_cost op) d1.
Proof. intros Hr. by apply steps_cut. Qed.

Lemma steady_run n d io light op :
  reach_steady n d → steady io → fresh_test io d = true → op_range op → reach_steady (n + op_cost op) (after d (op_run io light op d).2).
Proof. intros. eapply steps_cut; [done..|apply after_reached]. Qed.

(** steady or not, it is reached *)
Lemma steady_reach n d : reach_steady n d → reach n d.
Proof.
  unfold reach_steady, reach, steps. generalize (∅ : KDir). intros d0 H. induction H; [apply steps_refl|].
  by apply (steps_op _ _ _ _ d1 _ io light op).
Qed.

Lemma unit_trace {A} (m : K A) d : ((m ;;; mret tt) d).2 = (m d).2.
Proof. unfold mbind. destruct (m d) as [[a|e] tr]; cbn; by rewrite ?app_nil_r. Qed.

Lemma nth_elem (l : list KDir) i : (i <? length l)%nat = true → default ∅ (l !! i) ∈ l.
Proof.
  intros H%Nat.ltb_lt. destruct (l !! i) as [x|] eqn:E; [by eapply list_elem_of_lookup_2|]. apply lookup_ge_None in E. lia.
Qed.

Definition toy_key : string := privateKeyHex 77.
Definition dir_init : KDir := after ∅ (op_run (toy_io 1000 "w0" "a0") true (KEnsure "old" (Some "old")) ∅).2.
Definition dir_wallet : KDir := after dir_init (op_run (toy_io 2000 "w1" "a1") true (KCreate "treasury" 12 "old") dir_init).2.
Definition dir_both : KDir := after dir_wallet (op_run (toy_io 3000000000000 "w2" "a2") true (KImportKey "hot" toy_key "old") dir_wallet).2.

Lemma steady_init : reach_steady 0 dir_init.
Proof. apply (steady_run 0 ∅ (toy_io 1000 "w0" "a0") true (KEnsure "old" (Some "old"))); [apply steps_refl|done|by vm_compute|done]. Qed.
Lemma steady_wallet : reach_steady 0 dir_wallet.
Proof. apply (steady_run 0 dir_init (toy_io 2000 "w1" "a1") true (KCreate "treasury" 12 "old")); [apply steady_init|done|by vm_compute|done]. Qed.
Lemma steady_both : reach_steady 0 dir_both.
Proof. apply (steady_run 0 dir_wallet (toy_io 3000000000000 "w2" "a2") true (KImportKey "hot" toy_key "old")); [apply steady_wallet|done|by vm_compute|done]. Qed.
Lemma reach_both : reach 0 dir_both.
Proof. apply steady_reach, steady_both. Qed.

Definition io5 : KeyIO := toy_io 5000000000000 "w5" "a5".
Definition hot_ref : AccountRef := mkRef "hot" RefNamed "" 0 "hot" 0.
Definition dir_next : KDir := after dir_both (DeriveNext io5 "treasury" "old" dir_both).2.
Definition dir_renamed : KDir := after dir_next (op_run io5 true (KRename "treasury" "cold") dir_next).2.
(** a rotation cut off after its marker; then a wallet of a store that was open *)
Definition dir_cut : KDir := default ∅ ((ChangePassphrase io5 true "old" "new" dir_both).2 !! 3%nat).
Definition dir_stale : KDir := after dir_cut (CreateWallet (toy_io 6000000000000 "w6" "a6") true "late" 24 "old" dir_cut).2.
Definition dir_mixed : KDir := after dir_stale (recoverRotation io5 dir_stale).2.

Lemma reach_cut_dir : reach 0 dir_cut.
Proof.
  apply (reach_cut 0 dir_both io5 true (KChange "old" "new")); [apply reach_both|by vm_compute|done|]. right. apply nth_elem. by vm_compute.
Qed.

(** the result and the trace of a run, with its computed value *)
Lemma run_eq {A} (m : K A) d a : (m d).1 = Ok a → m d = (Ok a, (m d).2).
Proof. intros H. by rewrite (surjective_pairing (m d)), H. Qed.

(** *** A write that reports an error with its data in place

    [io5], where the write of one file is such. *)
Definition torn_io (p : string) : KeyIO :=
  mkKIO (Ok true) (λ _, None) (λ _, None) None (λ _, None) (λ _, None) (λ _, None) (λ _, false)
    (λ q, if bool_decide (q = p) then Some (FsOther, true) else None) (λ _, false) (λ _, false)
    5000000000000 (λ use, Some use) (λ p, p) (λ use, if bool_decide (use = "wallet") then "w5" else "a5").

(** The marker of a rotation is torn, the rotation aborts and is cut off after
    removing the first staged file; the recovery then swaps the others.  The
    treasury is exported under neither passphrase. *)
Definition dir_torn : KDir := default ∅ ((ChangePassphrase (torn_io rotateMarkerName) true "old" "new" dir_both).2 !! 4%nat).
Definition dir_blend : KDir := after dir_torn (recoverRotation io5 dir_torn).2.
Lemma torn_marker_mixes :
  (is_ok (ExportWallet io5 "treasury" "old" dir_both).1, is_ok (recoverRotation io5 dir_torn).1,
   is_ok (ExportWallet io5 "treasury" "old" dir_blend).1, is_ok (ExportWallet io5 "treasury" "new" dir_blend).1) = (true, true, false, false).
Proof. by vm_compute. Qed.

(** The metadata of a new wallet is torn: CreateWallet fails and removes its
    blob, but the wallet is there, and nothing unlocks it. *)
Definition dir_bare : KDir := after dir_both (CreateWallet (torn_io metaPath) true "late" 24 "old" dir_both).2.
Lemma torn_meta_drops_secret :
  (is_ok (CreateWallet (torn_io metaPath) true "late" 24 "old" dir_both).1, wallet_named dir_bare "late",
   bool_decide (is_Some (dir_bare !! walletBlobPath "w5")), is_ok (ExportWallet io5 "late" "old" dir_bare).1) = (false, Some "w5", false, false).
Proof. by vm_compute. Qed.

(** *** Witnesses *)

Lemma keystore_invariant_witness : reach 0 dir_both ∧ keys_ok no_floor false 0 dir_both ∧ reach_steady 0 dir_both ∧ keys_ok no_floor true 0 dir_both.
Proof.
  split; [apply reach_both|]. split; [apply (keystore_invariant 0 dir_both ltac:(lia)), reach_both|].
  split; [apply steady_both|]. apply (keystore_invariant 0 dir_both ltac:(lia)), steady_both.
Defined.

Definition hot_signable : Signable := standaloneSignable ("accounts/" +:+ keyFileName 77 3000000000000) 77.
Lemma signer_signs_for_its_address_witness :
  (LookupSigning io5 hot_ref dir_both).1 = Ok hot_signable ∧ (unlock io5 hot_signable (Some (Ok "old")) dir_both).1 = Ok 77 ∧
  PubkeyToAddress 77 = 77 ∧ Signable_Address hot_signable = 77.
Proof.
  assert (L : (LookupSigning io5 hot_ref dir_both).1 = Ok hot_signable) by by vm_compute.
  assert (U : (unlock io5 hot_signable (Some (Ok "old")) dir_both).1 = Ok 77) by by vm_compute.
  assert (A : (AddressOf io5 hot_ref dir_both).1 = Ok 77) by by vm_compute.
  split; [exact L|]. split; [exact U|].
  apply (signer_signs_for_its_address 0 dir_both io5 io5 io5 hot_ref (Some (Ok "old")) hot_signable 77 77
           (LookupSigning io5 hot_ref dir_both).2 (unlock io5 hot_signable (Some (Ok "old")) dir_both).2 (AddressOf io5 hot_ref dir_both).2);
    [apply reach_both|lia|cbn; lia|by apply run_eq|by apply run_eq|by apply run_eq].
Defined.

Lemma has_wallet_ok id d :
  match meta_of d with Some m => bool_decide (is_Some (mf_Wallets m !! id)) | None => false end = true → has_wallet id d.
Proof. unfold has_wallet. destruct (meta_of d) as [m|]; [|done]. intros H%bool_decide_eq_true. eauto. Qed.

Definition next_addr (d : KDir) (name : string) : Z * Address :=
  match (DeriveNext io5 name "old" d).1 with Ok r => r | Err _ => (0, 0) end.
Lemma index_never_reused_witness : (next_addr dir_both "treasury").1 < (next_addr dir_renamed "cold").1.
Proof.
  set (r1 := next_addr dir_both "treasury"). set (r2 := next_addr dir_renamed "cold").
  assert (H1 : (DeriveNext io5 "treasury" "old" dir_both).1 = Ok (r1.1, r1.2)) by by vm_compute.
  assert (H2 : (DeriveNext io5 "cold" "old" dir_renamed).1 = Ok (r2.1, r2.2)) by by vm_compute.
  apply (index_never_reused 0 0 dir_both dir_renamed io5 io5 "treasury" "cold" "old" "old" "w1" r1.1 r2.1 r1.2 r2.2
           (DeriveNext io5 "treasury" "old" dir_both).2 (DeriveNext io5 "cold" "old" dir_renamed).2).
  - apply reach_both.
  - by vm_compute.
  - by apply run_eq.
  - apply (steps_op _ _ 0 dir_next dir_renamed dir_renamed io5 true (KRename "treasury" "cold")).
    + apply has_wallet_ok. by vm_compute.
    + done.
    + apply fresh_test_ok. by vm_compute.
    + done.
    + apply after_reached.
    + apply steps_refl.
  - lia.
  - by vm_compute.
  - by apply run_eq.
Defined.

Lemma io5_quiet : quiet_recovery io5.
Proof. by repeat split. Qed.
Lemma io5_whole : ¬ marker_torn io5.
Proof. by intros [e H]. Qed.

Definition meta_both : metaFile := default newMetaFile (meta_of dir_both).
Lemma rotation_is_atomic_witness :
  dir_cut ∈ dir_both :: (ChangePassphrase io5 true "old" "new" dir_both).2 ∧ is_ok (recoverRotation io5 dir_cut).1 = true ∧
  (all_old dir_both (after dir_cut (recoverRotation io5 dir_cut).2) ∨
   all_new "old" "new" meta_both dir_both (after dir_cut (recoverRotation io5 dir_cut).2)).
Proof.
  assert (E : dir_cut ∈ dir_both :: (ChangePassphrase io5 true "old" "new" dir_both).2) by (right; apply nth_elem; by vm_compute).
  assert (M : meta_of dir_both = Some meta_both) by by vm_compute.
  assert (K : dir_both !! rotateMarkerName = None) by by vm_compute.
  pose proof (rotation_is_atomic 0 dir_both meta_both io5 true "old" "new" dir_cut dir_cut io5 (recoverRotation io5 dir_cut).2
    reach_both ltac:(lia) M K io5_whole E (rtc_refl _ _)) as T.
  split; [exact E|]. split; [exact (proj1 T io5_quiet)|]. refine (proj1 (proj2 T _)). apply run_eq. by vm_compute.
Defined.

Lemma exported_mnemonic_recovers_witness :
  (ExportWallet io5 "treasury" "old" dir_both).1 = Ok ("word mnemonic", "") ∧
  ∃ addr, deriveAddress (seedFromMnemonic "word mnemonic" "") 0 = Ok addr ∧
    ha_Address (hd_at (default (mkWallet "" "" "" 0 ∅) (mf_Wallets meta_both !! "w1")) 0) = Hex addr.
Proof.
  assert (H : (ExportWallet io5 "treasury" "old" dir_both).1 = Ok ("word mnemonic", "")) by by vm_compute. split; [exact H|].
  apply (exported_mnemonic_recovers 0 dir_both meta_both io5 "treasury" "old" "word mnemonic" "" (ExportWallet io5 "treasury" "old" dir_both).2 "w1"
           (default (mkWallet "" "" "" 0 ∅) (mf_Wallets meta_both !! "w1")) 0);
    [apply reach_both|lia|by vm_compute|by apply run_eq|by vm_compute|lia|by vm_compute].
Defined.

Lemma io5_readable : readable io5.
Proof. done. Qed.

Definition create_late : K CreateResult := CreateWallet (toy_io 6000000000000 "w6" "a6") true "late" 24 "old".
Definition late_result : CreateResult := mkCreate "w6" defaultPathPrefix 1273963147031272694415108283456328293957510855604 "word mnemonic" "".
Lemma created_wallet_exported_witness :
  (create_late dir_both).1 = Ok late_result ∧
  ExportWallet io5 "late" "old" (after dir_both (create_late dir_both).2) = (Ok ("word mnemonic", ""), []).
Proof.
  assert (H : (create_late dir_both).1 = Ok late_result) by by vm_compute. split; [exact H|].
  apply (created_wallet_exported 0 dir_both (toy_io 6000000000000 "w6" "a6") true "late" 24 "old" late_result (create_late dir_both).2 io5);
    [apply reach_both|lia|apply fresh_test_ok; by vm_compute|by apply run_eq|apply io5_readable].
Defined.

Definition staged_manifest : manifest :=
  match dir_cut !! staged manifestPath with Some (KManifest m) => m | _ => mkManifest 0 "" false (mkKdf "" 0 0 0 0) "" JNull end.
Definition cut_files : list string := match dir_cut !! rotateMarkerName with Some (KMarker fs) => fs | _ => [] end.
Lemma stale_store_strands_wallet_witness :
  (create_late dir_cut).1 = Ok late_result ∧ ExportWallet io5 "late" "old" dir_mixed ≠ (Ok ("word mnemonic", ""), []).
Proof.
  assert (H : (create_late dir_cut).1 = Ok late_result) by by vm_compute. split; [exact H|].
  apply (stale_store_strands_wallet 0 dir_cut (toy_io 6000000000000 "w6" "a6") true "late" 24 "old" late_result (create_late dir_cut).2
           cut_files staged_manifest io5 (recoverRotation io5 dir_stale).2 io5 "old" ("word mnemonic", "") []);
    [apply reach_cut_dir|lia|apply fresh_test_ok; by vm_compute|by vm_compute|by apply list_elem_of_In; vm_compute; auto|by vm_compute|by vm_compute|by apply run_eq|].
  apply run_eq. by vm_compute.
Defined.

Lemma wallet_plaintext_read_back_witness : decodePlaintext (encodePlaintext "zoo	wrong" "a\\b") = Some ("zoo	wrong", "a\\b").
Proof. apply (wallet_plaintext_read_back "zoo	wrong" "a\\b"). done. Defined.
